(* ===== verification/_CoqProject ===== *)
-Q . S2P
Prelude.v
MachineInt.v
F64.v
HexFloat.v
VMEnv.v
Protobufish.v
VMOps.v
VMTable.v
VMInv.v
VMCode.v
VMStack.v
VMArith.v
VMSpec.v
VMRun.v
VMMem.v
VMProps.v
ProtobufishSpec.v
Ast.v
Machines.v
Names.v
Link.v
AsmMacros.v
Asm.v
VMAst.v
AsmSpec.v
RawFrame.v
RawFrameSpec.v
Digest.v
Websocket.v
WebsocketSpec.v
HttpSpec.v
EventQueue.v
Nmp.v
FastJson.v
F64Spec.v
ExecCtx.v
ExecLoop.v
SimLoop.v
ExecCtxSpec.v
SlotSpec.v
EnterExit.v
Guards.v
Merge.v
Script.v
Compile.v
Shadow.v
EventQueueSpec.v
Fetch.v
FetchSpec.v
Segments.v
NmpSpec.v
Livelog.v
LivelogSpec.v
LivelogTransfer.v
LivelogSync.v
LivelogStore.v
LivelogStoreSpec.v
Timers.v
TimersSpec.v
TimersRound.v
CmdLine.v
Actions.v
GuardSpec.v
FlatStep.v
EnteredSpec.v
TraverseSpec.v
NumberSpec.v
TablesSpec.v
CompileSpec.v
ContainSpec.v
ShadowSpec.v
CompileExample.v
SimExample.v
FetchExample.v
ActionsSpec.v
Builtins.v
ByteSeq.v
ByteSeqSpec.v
FastJsonSpec.v
FastJsonText.v
