(* ===== verification/Prelude.v ===== *)
(** * machines4ceps: a verification library

    ** The program

    machines4ceps executes hierarchical state machines. Machines are written in the ceps
    language; the core reads them into objects, links them, compiles them into tables and
    runs the tables: it waits for events, finds the transitions that fire, leaves and enters
    state machines, and calls actions. Guards, actions and handlers are native functions,
    scripts, or code of Oblectamenta, a small virtual machine that is part of the core.
    Events come from scripts, timers, TCP and websocket connections and plugins; they carry
    payloads, among them binary messages. What happens in a run can be logged and fetched by
    other processes.

    ** The files

    Names of definitions are those of the code. Files under core/ are those of src/core/.
    A file X has its theorems at its end, in XSpec or in the files named beside it.

    - Foundations. [Prelude]: the monad, arrays, tactics. [MachineInt]: machine integers,
      bytes. [F64]: doubles. [HexFloat] with [F64Spec]: core/src/serialization.cpp. [Ast]:
      events, values, syntax trees. [Segments]: sockets as lists of segments.
    - The Oblectamenta machine (core/include/vm/vm_base.hpp, core/src/vm/vm_base.cpp).
      [VMEnv]: class VMEnv. [VMOps]: one definition per instruction. [VMTable]: opcodes,
      dispatch table, VMEnv::run ([run_step] is one round of its loop), mnemonics. Theorems:
      [VMInv], [VMCode], [VMStack], [VMArith], [VMSpec], [VMRun], [VMMem], [VMProps].
    - The assembler (core/src/vm/oblectamenta-assembler.cpp). [AsmMacros]: the preprocessor.
      [Asm] with [AsmSpec]: the pass over a text with its patches. [VMAst]: a machine as a
      syntax tree. [Protobufish] with [ProtobufishSpec]: binary messages, also in
      core/src/vm/vm_ceps_core_helper.cpp.
    - State machines. [Machines]: core/src/state_machines.cpp, machines and states on a heap.
      [Names]: qualified names. [Merge] and [Script]: core/src/sm_sim_process_sm.cpp, from
      syntax trees to machines. [Link] and [Compile]:
      core/src/state_machine_simulation_core_buildsms.cpp, from machines to tables.
      [Shadow]: shadow transitions. Theorems: [TraverseSpec], [NumberSpec], [TablesSpec],
      [CompileSpec], [ContainSpec], [ShadowSpec], applied in [CompileExample].
    - The engine. [ExecCtx] with [ExecCtxSpec], [SlotSpec]: core/include/sm_execution_ctxt.hpp,
      the tables. [ExecLoop], [SimLoop]: core/src/sm_sim_core_simulation_loop.cpp, one round
      and the run. [Guards] with [GuardSpec]:
      core/src/state_machine_simulation_core_guard_handling.cpp. Theorems: [EnterExit],
      [EnteredSpec], [FlatStep], applied in [SimExample].
    - Events. [EventQueue] with [EventQueueSpec]: core/include/events.hpp. [Fetch] with
      [FetchSpec], [FetchExample]: core/src/state_machine_simulation_core_event_handling.cpp,
      the script of a simulation, assertions, events of other threads. [Timers] with
      [TimersSpec], [TimersRound]: core/src/sm_sim_core_timer.cpp and
      core/src/signalgenerator.cpp.
    - Scripts. [Actions] with [ActionsSpec]: core/src/sm_sim_execute_action_seq.cpp and
      core/src/state_machine_simulation_core_action_handling.cpp. [Builtins], [ByteSeq] with
      [ByteSeqSpec]: core/src/sm_global_functions.cpp.
    - Frames and the network. [RawFrame] with [RawFrameSpec]: core/src/sm_raw_frame.cpp.
      [Digest], [Websocket] with [WebsocketSpec], [HttpSpec]:
      core/src/websocket.cpp. [FastJson] with [FastJsonSpec], [FastJsonText]:
      core/include/fast-json.hpp. [Nmp] with [NmpSpec]: core/src/sm_comm_naive_msg_prot.cpp.
    - Logging. [Livelog] with [LivelogSpec], [LivelogTransfer], [LivelogSync]:
      core/include/livelog/livelogger.hpp, core/src/livelog/livelogger.cpp. [LivelogStore]
      with [LivelogStoreSpec]: core/src/sm_livelog_storage_utils.cpp.
    - The command line. [CmdLine]: core/src/cmdline_utils.cpp.

    The parts meet in the state of the core, [ExecLoop.smc]: it has the tables ([ExecCtx]),
    the Oblectamenta machine ([VMEnv]), the objects of syntax trees, and a world of the rest,
    which [Fetch] fills with the heap of machines, the queues and the script. The engine
    calls the machine ([ExecLoop.vm_run]) and copies messages of events into its memory
    ([SimLoop.deliver_protobufish_msg]); [Fetch] implements the engine's interface for events
    ([FetchSpec.oldest_event_is_taken] is about both); compiling produces what the engine
    relies on ([ContainSpec.compiled_tables_contain]); the assembler's text is what the
    machine fetches ([AsmSpec], [VMCode]); connections, timers and actions put events into
    the queue with [Fetch.enqueue_event].

    ** How code is modelled

    Code is a function in the monad [M] below: it gets a state and returns a value and
    a state, or throws a C++ exception (keeping the state), or reaches undefined
    behaviour ([Undef]), or has used up the fuel of the model. Pointers into a block
    are offsets, vectors are lists, and an access outside is [Undef]; pointers to
    objects are numbers, 0 is the null pointer. Machine integers are integers of Z with
    wrap-around and signed overflow written out ([MachineInt]); doubles are their 64
    bits, with the operations of IEEE 754 ([F64]).

    What the code leaves to the compiler, the system and libraries outside the repository is
    a parameter: [VMEnv.Target] (order of evaluation, libm, native functions, fresh memory),
    [ExecLoop.Host] (functions called through pointers, clocks), the ceps library
    ([Fetch.ScriptHost], [Actions.Ceps], [AsmMacros.Ceps], [Builtins.Library],
    [ByteSeq.Calls]; selecting parts of a tree in [Script]), [Machines.Allocator]
    (addresses), the order of std::sort and of unordered sets ([Shadow], [Compile]), the
    arena of [FastJson], kernel timers ([Timers.TimerFd], with their laws), directories
    ([CmdLine.Directories]). [EnterExit.Calm] is the law some theorems need of a host: a
    handler that returns has left the tables alone.

    Threads: what other threads do is a list of arrivals ([Fetch]) or a sequence of steps,
    each of which holds its lock ([Timers], [Livelog]). The queue's users are interleaved in
    [EventQueueSpec].

    Fuel bounds the number of instructions of a call into the machine, the number of
    rounds of the loop, and the depth of recursions. Loops over a vector take their
    fuel from its length. [VMRun.run_fuel_mono] shows that more fuel does not change an
    answer; nesting deeper than the fuel is excluded by a depth function in the theorems
    on entering and leaving, on walks over machines and on directories; [GuardSpec]
    computes enough fuel for unfolding a guard; the hull of active states has a bound by
    the number of machines; arguments of byte sequences are nested two deep.

    ** The theorems

    - One step of the engine ([FlatStep]): which transitions fire, in which order their
      actions run, and the new set of states, for steps inside one machine. Entering and
      leaving ([EnterExit], [EnteredSpec]): do_enter and do_exit perform a reference
      depth-first search: the right handlers, each once, inner machines first; the entered
      states are closed under containment. Tables ([SlotSpec]): the counting table equals
      the nested loops it replaces. Guards ([GuardSpec]): the expressions with a truth value
      are the well-typed ones; unfolding ends with what the guards stand for.
    - Compiling: machines and states are numbered once each, in the order of a depth-first
      walk, parents contain their children, ends of transitions belong to their machines,
      shadow transitions are the ones that are meant, or an error is reported.
    - The Oblectamenta machine: the result of every arithmetic, comparison and conversion
      instruction, branches, stores read back by loads, calls and returns, errors on an empty
      stack; every instruction keeps the machine well formed, changes only its footprint and
      goes on behind its bytes; the dispatch table matches the opcodes. The assembler refines
      a reference layout, patches every branch, and writes nowhere else.
    - Round trips: messages, raw frames, serialized values, the naive message protocol, log
      entries through blocks and sockets, arguments of events, byte sequences.
    - Queues: the queue of events refines a FIFO with unique events, and what is pushed is
      delivered; the ring of synchronous events; the log refines a list that forgets its
      oldest entries, and what is logged arrives.
    - Fetching: the oldest event is taken with what arrived meanwhile; the states of a Start
      directive are the least closed set. Timers: the table stays consistent, stopped timers
      stay silent, due timers fire.
    - The network: SHA-1 and Base64, HTTP requests in any segments, messages of a connection
      become events in order, JSON texts become messages.
    - Scripts: calling an action is running its statements; fields of byte sequences are read
      from any bit with their sign; what is written to a state is read.
    - The command line: every option is found by its name; a directory gives the definition
      files of its tree.

    Where the code differs from what it is meant to do, the definitions follow the code
    and a theorem shows the consequence. The machine: [partial_pop_undefined],
    [divi32_order_dependent], [stale_patch_overwrites], [foreign_target_overwritten].
    Messages: [store_string_overlap], [string_not_last_lost], [short_content_diverges].
    Guards: [equality_is_conjunction]. The engine: [final_exit_skips_visited],
    [frame_event_ends_run], [current_states_assertions_see_nothing]. Machines:
    [cleanup_leaves_half], [unit_lost], [states_of_a_type_share]. Queues:
    [unique_overflow_overwrites], [full_block_misread]. Frames and the network:
    [unaligned_field_misread], [signed_states_negative], [sha1_correct] (lengths whose
    padding is wrong), [split_frame_lost], [messages_to_events] (fragments). Timers:
    [two_threads_fire_early]. Scripts: [evaluation_disarms_claimer],
    [assignment_frees_shared], [in_state_never], [changed_reads_freed],
    [narrow_types_vanish], [field_within_array], [call_keeps_machine].

    ** Limits

    Output to cout, cerr and logs is dropped or goes to one console. Misaligned and
    type-punned memory accesses are taken to behave as on x86-64. isprint of a negative char
    is false. In syntax trees symbols and literals have no children, literals have no units
    (those of [Nmp], [Timers] and [Builtins] are parameters), and a null pointer among the nodes has no
    kind. The expansion of a directive is not inserted into the tree it was read from. The
    nodes of system states in [RawFrame] are values; in [Fetch], [Actions] and [Builtins]
    they are shared objects. Sockets deliver lists of segments; a server is modelled without
    the threads beside it, and events of other threads arrive when the queue is looked at;
    an endless wait is out of fuel. Counters without a bound in practice are unbounded. The
    size of the exponent of a scaled double is a parameter. \u escapes of JSON give two raw
    bytes. Blocks of the log have one owner at a time. The parts of ws_api.cpp that repeat
    websocket.cpp are not modelled a second time.

    Not modelled: the generators of C++, of documentation and of dot files, which print
    syntax trees; XML frames, which print and read with a DOM library; CAN adapters, which
    are device I/O; the threads of the websocket API and the thread that accepts TCP
    connections; the main program and the set-up of the core, which create the objects and
    threads; stream transformations, which nothing uses; the functions of scripts on
    channels, HTTP requests, other programs, the time of day and XML, and the interpreter of
    ceps itself, which is outside the repository. *)

From stdpp Require Export base numbers list gmap strings pretty sorting.
From Stdlib Require Export Lia ZArith.

#[global] Open Scope Z_scope.

(** ** Outcomes of C++ code

    A piece of the program either returns a value and a new state, throws a C++
    exception (the state reached so far is kept, since C++ does not roll back),
    reaches undefined behaviour of the language, or is not finished when the fuel
    of the model runs out. *)

Inductive exn :=
| RuntimeError (what : string)    (* std::runtime_error *)
| HaltTriggered                   (* VMEnv::halt_triggered *)
| ThrownString (what : string)    (* throw std::string{...} *)
| Aborted                         (* assert: nothing catches it *)
| Fatal (code : Z) (what : string) (* State_machine_simulation_core::fatal_ *).

Inductive outcome (S A : Type) :=
| Ok (a : A) (s : S)
| Throw (e : exn) (s : S)
| Undef
| OutOfFuel.

Arguments Ok {S A} a s.
Arguments Throw {S A} e s.
Arguments Undef {S A}.
Arguments OutOfFuel {S A}.

(** ** The state, exception and undefined-behaviour monad *)

Definition M (S A : Type) : Type := S -> outcome S A.

Definition ret {S A} (a : A) : M S A := fun s => Ok a s.

Definition bind {S A B} (m : M S A) (k : A -> M S B) : M S B := fun s =>
  match m s with
  | Ok a s' => k a s'
  | Throw e s' => Throw e s'
  | Undef => Undef
  | OutOfFuel => OutOfFuel
  end.

Definition throw {S A} (e : exn) : M S A := fun s => Throw e s.
Definition undef {S A} : M S A := fun _ => Undef.
Definition out_of_fuel {S A} : M S A := fun _ => OutOfFuel.
Definition get {S} : M S S := fun s => Ok s s.
Definition gets {S A} (f : S -> A) : M S A := fun s => Ok (f s) s.
Definition modify {S} (f : S -> S) : M S unit := fun s => Ok tt (f s).

(** [of_option o]: undefined behaviour when [o] is [None]. *)
Definition of_option {S A} (o : option A) : M S A :=
  match o with Some a => ret a | None => undef end.

(** [try m h]: C++ [try { m } catch (...) { h }]. *)
Definition try_catch {S A} (m : M S A) (h : exn -> M S A) : M S A := fun s =>
  match m s with
  | Throw e s' => h e s'
  | o => o
  end.

(** [zoom get set m]: run [m] on a component of a larger state. *)
Definition zoom {S T A} (getter : S -> T) (setter : T -> S -> S) (m : M T A) : M S A := fun s =>
  match m (getter s) with
  | Ok a t => Ok a (setter t s)
  | Throw e t => Throw e (setter t s)
  | Undef => Undef
  | OutOfFuel => OutOfFuel
  end.

Declare Scope prog_scope.
Delimit Scope prog_scope with prog.

Notation "'let!' x ':=' m 'in' k" := (bind m (fun x => k))
  (at level 10, x binder, m at level 100, k at level 200) : prog_scope.
Notation "'do!' m 'in' k" := (bind m (fun _ => k))
  (at level 10, m at level 100, k at level 200) : prog_scope.

#[global] Open Scope prog_scope.

(** [forM xs f]: a range-based [for]. *)
Fixpoint forM {S A} (xs : list A) (f : A -> M S unit) : M S unit :=
  match xs with
  | [] => ret tt
  | x :: xs' => do! f x in forM xs' f
  end.

(** [foldM xs f b]: a range-based [for] that updates a local variable. *)
Fixpoint foldM {S A B} (xs : list A) (f : B -> A -> M S B) (b : B) : M S B :=
  match xs with
  | [] => ret b
  | x :: xs' => let! b' := f b x in foldM xs' f b'
  end.

(** ** Array access

    Pointers into an array are offsets; an access outside the array is undefined
    behaviour, so it is [None] here. *)

Definition in_bounds {A} (l : list A) (a : Z) (n : nat) : bool :=
  (0 <=? a) && (a + Z.of_nat n <=? Z.of_nat (length l)).

Definition slice_get {A} (l : list A) (a : Z) (n : nat) : option (list A) :=
  if in_bounds l a n then Some (take n (drop (Z.to_nat a) l)) else None.

Definition slice_set {A} (l : list A) (a : Z) (bs : list A) : option (list A) :=
  if in_bounds l a (length bs)
  then Some (take (Z.to_nat a) l ++ bs ++ drop (Z.to_nat a + length bs) l)
  else None.

Definition zlookup {A} (l : list A) (i : Z) : option A :=
  if i <? 0 then None else l !! Z.to_nat i.

Definition zinsert {A} (l : list A) (i : Z) (x : A) : option (list A) :=
  if in_bounds l i 1 then Some (<[Z.to_nat i := x]> l) else None.

(** [std::vector::resize(n, x)]. *)
Definition vec_resize {A} (n : Z) (x : A) (l : list A) : list A :=
  take (Z.to_nat n) l ++ replicate (Z.to_nat n - length l) x.

(** [zrange a b]: the integers [a, a+1, ..., b-1]. *)
Definition zrange (a b : Z) : list Z :=
  map (fun k => a + Z.of_nat k) (seq 0 (Z.to_nat (b - a))).

(** ** Tactics *)

(** Split every condition of the goal and of the hypotheses. *)
Ltac case_ifs :=
  repeat match goal with
  | |- context [if ?b then _ else _] => destruct b eqn:?
  | H : context [if ?b then _ else _] |- _ => destruct b eqn:?
  end.

(** Booleans on Z to propositions. *)
Ltac zbool :=
  repeat match goal with
  | H : (_ <=? _) = true |- _ => apply Z.leb_le in H
  | H : (_ <=? _) = false |- _ => apply Z.leb_gt in H
  | H : (_ <? _) = true |- _ => apply Z.ltb_lt in H
  | H : (_ <? _) = false |- _ => apply Z.ltb_ge in H
  | H : (_ >=? _) = true |- _ => apply Z.geb_le in H
  | H : (_ >=? _) = false |- _ => rewrite Z.geb_leb in H; apply Z.leb_gt in H
  | H : (_ >? _) = true |- _ => apply Z.gtb_lt in H
  | H : (_ >? _) = false |- _ => rewrite Z.gtb_ltb in H; apply Z.ltb_ge in H
  | H : (_ =? _) = true |- _ => apply Z.eqb_eq in H
  | H : (_ =? _) = false |- _ => apply Z.eqb_neq in H
  | H : _ && _ = true |- _ => apply andb_true_iff in H; destruct H
  | H : _ && _ = false |- _ => apply andb_false_iff in H
  | H : negb _ = true |- _ => apply negb_true_iff in H
  | H : negb _ = false |- _ => apply negb_false_iff in H
  end.

(** [record_update eta f x c]: the record [c] with its field [f] set to [x], where
    [eta c] is [c] rebuilt from its fields. *)
Ltac record_update eta f x c :=
  let t := eval cbv beta delta [eta] in (eta c) in
  match eval pattern (f c) in t with
  | ?F _ => let r := eval cbv beta in (F x) in exact r
  end.

(** ** Lemmas on array access *)

Section arrays.
Context {A : Type}.
Implicit Types l bs : list A.

Lemma in_bounds_spec l a n :
  in_bounds l a n = true <-> 0 <= a /\ a + Z.of_nat n <= Z.of_nat (length l).
Proof. unfold in_bounds. rewrite andb_true_iff, !Z.leb_le. done. Qed.

Lemma slice_get_length l a n bs : slice_get l a n = Some bs -> length bs = n.
Proof.
  unfold slice_get. destruct (in_bounds l a n) eqn:E; [|done].
  apply in_bounds_spec in E. intros [= <-].
  rewrite length_take, length_drop. lia.
Qed.

Lemma slice_set_length l a bs l' :
  slice_set l a bs = Some l' -> length l' = length l.
Proof.
  unfold slice_set. destruct (in_bounds l a (length bs)) eqn:E; [|done].
  apply in_bounds_spec in E. intros [= <-].
  rewrite !length_app, length_take, length_drop. lia.
Qed.

Lemma slice_get_Some l a n :
  0 <= a -> a + Z.of_nat n <= Z.of_nat (length l) ->
  slice_get l a n = Some (take n (drop (Z.to_nat a) l)).
Proof.
  intros. unfold slice_get.
  by rewrite (proj2 (in_bounds_spec l a n)) by done.
Qed.

Lemma slice_set_Some l a bs :
  0 <= a -> a + Z.of_nat (length bs) <= Z.of_nat (length l) ->
  slice_set l a bs = Some (take (Z.to_nat a) l ++ bs ++ drop (Z.to_nat a + length bs) l).
Proof.
  intros. unfold slice_set.
  by rewrite (proj2 (in_bounds_spec l a (length bs))) by done.
Qed.

Lemma slice_get_set_same l a bs l' :
  slice_set l a bs = Some l' -> slice_get l' a (length bs) = Some bs.
Proof.
  intros H. pose proof (slice_set_length _ _ _ _ H) as HL.
  unfold slice_set in H. destruct (in_bounds l a (length bs)) eqn:E; [|done].
  apply in_bounds_spec in E. injection H as <-.
  rewrite slice_get_Some by (rewrite ?HL; lia). f_equal.
  rewrite drop_app_length' by (rewrite length_take; lia).
  by rewrite take_app_length.
Qed.

Lemma slice_get_app l1 l2 l3 :
  slice_get (l1 ++ l2 ++ l3) (Z.of_nat (length l1)) (length l2) = Some l2.
Proof.
  rewrite slice_get_Some by (rewrite ?length_app; lia).
  by rewrite Nat2Z.id, drop_app_length, take_app_length.
Qed.

Lemma slice_set_app l1 l2 l3 bs :
  length bs = length l2 ->
  slice_set (l1 ++ l2 ++ l3) (Z.of_nat (length l1)) bs = Some (l1 ++ bs ++ l3).
Proof.
  intros Hl. rewrite slice_set_Some by (rewrite ?length_app; lia).
  rewrite Nat2Z.id, take_app_length, Hl.
  by rewrite drop_app_add, drop_app_length.
Qed.

(** Reading outside the written range is not affected by the write. *)
Lemma slice_get_set_other l a bs l' b n :
  slice_set l a bs = Some l' ->
  b + Z.of_nat n <= a \/ a + Z.of_nat (length bs) <= b ->
  slice_get l' b n = slice_get l b n.
Proof.
  intros H Hd. pose proof (slice_set_length _ _ _ _ H) as HL.
  unfold slice_set in H. destruct (in_bounds l a (length bs)) eqn:E; [|done].
  apply in_bounds_spec in E. injection H as <-.
  unfold slice_get, in_bounds. rewrite HL.
  destruct ((0 <=? b) && _) eqn:E2; [|done]. zbool. f_equal.
  apply list_eq. intros i.
  destruct (decide (i < n)%nat) as [Hi|Hi].
  2:{ by rewrite !lookup_take_ge by lia. }
  rewrite !lookup_take_lt, !lookup_drop by lia.
  destruct Hd.
  - rewrite lookup_app_l by (rewrite length_take; lia).
    by rewrite lookup_take_lt by lia.
  - rewrite lookup_app_r by (rewrite length_take; lia).
    rewrite lookup_app_r by (rewrite length_take; lia).
    rewrite lookup_drop, length_take. f_equal. lia.
Qed.

Lemma zlookup_Some l i x : zlookup l i = Some x -> 0 <= i < Z.of_nat (length l).
Proof.
  unfold zlookup. destruct (i <? 0) eqn:E; [done|]. zbool.
  intros H%lookup_lt_Some. lia.
Qed.

Lemma zlookup_is_Some l i : 0 <= i < Z.of_nat (length l) -> exists x, zlookup l i = Some x.
Proof.
  intros Hi. unfold zlookup. destruct (i <? 0) eqn:E; zbool; [lia|].
  apply lookup_lt_is_Some_2. lia.
Qed.

Lemma zlookup_of_nat l (i : nat) : zlookup l (Z.of_nat i) = l !! i.
Proof. unfold zlookup. destruct (_ <? 0) eqn:E; zbool; [lia|]. by rewrite Nat2Z.id. Qed.

Lemma zinsert_length l i x l' : zinsert l i x = Some l' -> length l' = length l.
Proof. unfold zinsert. case_ifs; [|done]. intros [= <-]. by rewrite length_insert. Qed.

Lemma zinsert_Some l i x :
  0 <= i < Z.of_nat (length l) -> zinsert l i x = Some (<[Z.to_nat i := x]> l).
Proof.
  intros. unfold zinsert.
  by rewrite (proj2 (in_bounds_spec l i 1)) by lia.
Qed.

Lemma zlookup_insert_eq l i x :
  0 <= i < Z.of_nat (length l) -> zlookup (<[Z.to_nat i := x]> l) i = Some x.
Proof.
  intros. unfold zlookup. destruct (i <? 0) eqn:E; zbool; [lia|].
  apply list_lookup_insert_eq. lia.
Qed.

Lemma zlookup_insert_ne l i j x :
  0 <= i -> i <> j -> zlookup (<[Z.to_nat i := x]> l) j = zlookup l j.
Proof.
  intros. unfold zlookup. destruct (j <? 0) eqn:E; [done|]. zbool.
  apply list_lookup_insert_ne. lia.
Qed.

Lemma Forall_slice_get (P : A -> Prop) l a n bs :
  Forall P l -> slice_get l a n = Some bs -> Forall P bs.
Proof.
  unfold slice_get. case_ifs; [|done]. intros HP [= <-].
  by apply Forall_take, Forall_drop.
Qed.

Lemma Forall_slice_set (P : A -> Prop) l a bs l' :
  Forall P l -> Forall P bs -> slice_set l a bs = Some l' -> Forall P l'.
Proof.
  unfold slice_set. case_ifs; [|done]. intros Hl Hb [= <-].
  rewrite !Forall_app. eauto using Forall_take, Forall_drop.
Qed.
End arrays.

(** ** Integer ranges *)

Lemma zrange_lookup a b i : zrange a b !! i = if decide (i < Z.to_nat (b - a))%nat then Some (a + Z.of_nat i) else None.
Proof.
  unfold zrange. rewrite list_lookup_fmap. destruct (decide _) as [Hi|Hi].
  - by rewrite lookup_seq_lt.
  - rewrite lookup_seq_ge by lia. done.
Qed.

Lemma zrange_length a b : length (zrange a b) = Z.to_nat (b - a).
Proof. unfold zrange. by rewrite length_map, length_seq. Qed.

Lemma elem_of_zrange a b x : x ∈ zrange a b <-> a <= x < b.
Proof.
  rewrite list_elem_of_lookup. setoid_rewrite zrange_lookup. split.
  - intros [i Hi]. destruct (decide _) in Hi; [|done]. injection Hi as <-. lia.
  - intros Hx. exists (Z.to_nat (x - a)). rewrite decide_True by lia. f_equal. lia.
Qed.

Lemma zrange_nil a b : b <= a -> zrange a b = [].
Proof. intros. unfold zrange. by replace (Z.to_nat (b - a)) with 0%nat by lia. Qed.

Lemma zrange_cons a b : a < b -> zrange a b = a :: zrange (a + 1) b.
Proof.
  intros. apply list_eq. intros [|i]; rewrite zrange_lookup.
  - rewrite decide_True by lia. cbn. f_equal. lia.
  - change ((a :: zrange (a + 1) b) !! S i) with (zrange (a + 1) b !! i).
    rewrite zrange_lookup. do 2 case_decide; try lia; [|done]. f_equal. lia.
Qed.

(** ** Partial-correctness triples

  [keeps I m Q]: started in a state with [I], the code [m] keeps [I], whether it
  returns or throws, and a returned value satisfies [Q]. *)

Definition keeps {S A} (I : S -> Prop) (m : M S A) (Q : A -> Prop) : Prop :=
forall s, I s ->
match m s with
| Ok a s' => I s' /\ Q a
| Throw _ s' => I s'
| Undef => True
| OutOfFuel => True
end.

Section triples.
Context {S : Type} (I : S -> Prop).

Lemma keeps_ret {A} (a : A) (Q : A -> Prop) : Q a -> keeps I (ret a) Q.
Proof. intros HQ s Hs. by split. Qed.

Lemma keeps_bind {A B} (m : M S A) (k : A -> M S B) P Q :
  keeps I m P -> (forall a, P a -> keeps I (k a) Q) -> keeps I (bind m k) Q.
Proof.
  intros Hm Hk s Hs. unfold bind. specialize (Hm s Hs).
  destruct (m s) as [a s'|e s'| |]; [|done..].
  destruct Hm. by apply Hk.
Qed.

Lemma keeps_throw {A} e (Q : A -> Prop) : keeps I (throw e) Q.
Proof. intros s Hs. done. Qed.

Lemma keeps_undef {A} (Q : A -> Prop) : keeps I undef Q.
Proof. intros s Hs. done. Qed.

Lemma keeps_fuel {A} (Q : A -> Prop) : keeps I out_of_fuel Q.
Proof. intros s Hs. done. Qed.

Lemma keeps_gets {A} (f : S -> A) (Q : A -> Prop) :
  (forall s, I s -> Q (f s)) -> keeps I (gets f) Q.
Proof. intros Hf s Hs. split; auto. Qed.

Lemma keeps_modify (f : S -> S) (Q : unit -> Prop) :
  (forall s, I s -> I (f s)) -> Q tt -> keeps I (modify f) Q.
Proof. intros Hf HQ s Hs. split; auto. Qed.

Lemma keeps_of_option {A} (o : option A) (Q : A -> Prop) :
  (forall a, o = Some a -> Q a) -> keeps I (of_option o) Q.
Proof. intros H. destruct o; [apply keeps_ret; auto|apply keeps_undef]. Qed.

Lemma keeps_weaken {A} (m : M S A) (P Q : A -> Prop) :
  keeps I m P -> (forall a, P a -> Q a) -> keeps I m Q.
Proof.
  intros Hm HPQ s Hs. pose proof (Hm s Hs) as Hms.
  destruct (m s) as [a s'|e s'| |]; auto. destruct Hms. auto.
Qed.

Lemma keeps_if {A} (b : bool) (m1 m2 : M S A) Q :
  keeps I m1 Q -> keeps I m2 Q -> keeps I (if b then m1 else m2) Q.
Proof. by destruct b. Qed.

Lemma keeps_try {A} (m : M S A) h Q :
  keeps I m Q -> (forall e, keeps I (h e) Q) -> keeps I (try_catch m h) Q.
Proof.
  intros Hm Hh s Hs. unfold try_catch. specialize (Hm s Hs).
  destruct (m s); auto. by apply Hh.
Qed.

Lemma keeps_forM {A} (xs : list A) f :
  (forall x, x ∈ xs -> keeps I (f x) (fun _ => True)) ->
  keeps I (forM xs f) (fun _ => True).
Proof.
  induction xs as [|x xs IH]; intros Hf; simpl; [by apply keeps_ret|].
  eapply keeps_bind; [apply Hf; set_solver|]. intros _ _. apply IH. set_solver.
Qed.

Lemma keeps_foldM {A B} (xs : list A) (f : B -> A -> M S B) b (Q : B -> Prop) :
  Q b -> (forall b x, x ∈ xs -> Q b -> keeps I (f b x) Q) ->
  keeps I (foldM xs f b) Q.
Proof.
  revert b. induction xs as [|x xs IH]; intros b Hb Hf; simpl; [by apply keeps_ret|].
  eapply keeps_bind; [apply Hf; [set_solver|done]|]. intros b' Hb'.
  apply IH; [done|]. intros. apply Hf; [set_solver|done].
Qed.
End triples.

(** ** Monad laws, used to normalise handlers before they are evaluated *)

Lemma bind_ret_l {S A B} (a : A) (k : A -> M S B) s : bind (ret a) k s = k a s.
Proof. done. Qed.

Lemma bind_unfold {S A B} (m : M S A) (k : A -> M S B) s :
  bind m k s = match m s with
               | Ok a s' => k a s' | Throw e s' => Throw e s' | Undef => Undef
               | OutOfFuel => OutOfFuel end.
Proof. done. Qed.

Lemma bind_Ok {S A B} (m : M S A) (k : A -> M S B) s a s' :
  m s = Ok a s' -> bind m k s = k a s'.
Proof. intros H. unfold bind. by rewrite H. Qed.

Lemma bind_assoc {S A B C} (m : M S A) (f : A -> M S B) (g : B -> M S C) s :
  bind (bind m f) g s = bind m (fun a => bind (f a) g) s.
Proof. unfold bind. by destruct (m s). Qed.

Lemma Ok_state {S A} (a b : A) (s t : S) : Ok a s = Ok b t -> s = t.
Proof. by intros [= -> ->]. Qed.

Lemma bind_inv_Ok {S A B} (m : M S A) (k : A -> M S B) s b s'' :
  bind m k s = Ok b s'' -> exists a s', m s = Ok a s' /\ k a s' = Ok b s''.
Proof. unfold bind. destruct (m s) eqn:E; naive_solver. Qed.

Lemma forM_app {S A} (f : A -> M S unit) l l' s :
  forM (l ++ l') f s = bind (forM l f) (fun _ => forM l' f) s.
Proof.
  revert s. induction l as [|x l IH]; intros s; [done|]. cbn. unfold bind at 1 2.
  unfold bind at 1. destruct (f x s); [apply IH|done..].
Qed.

Create HintDb prog.
#[export] Hint Resolve keeps_ret keeps_throw keeps_undef keeps_fuel keeps_if : prog.

(** A read: the state does not change. *)
Lemma bind_read {S A B} (m : M S A) (k : A -> M S B) s x : m s = Ok x s -> bind m k s = k x s.
Proof. apply bind_Ok. Qed.

(** ** Total correctness of pieces of code *)

Definition runs {S A} (P : S -> Prop) (m : M S A) (Q : A -> S -> Prop) : Prop :=
  forall s, P s -> exists a s', m s = Ok a s' /\ Q a s'.

Lemma runs_bind {S A B} (P : S -> Prop) (m : M S A) (k : A -> M S B) Q R :
  runs P m Q -> (forall a, runs (Q a) (k a) R) -> runs P (bind m k) R.
Proof.
  intros Hm Hk s Hs. destruct (Hm s Hs) as (a & s1 & Ha & H1).
  destruct (Hk a s1 H1) as (b & s2 & Hb & H2). exists b, s2. by rewrite (bind_Ok _ _ _ _ _ Ha).
Qed.

Lemma runs_ret {S A} (P : S -> Prop) (a : A) (Q : A -> S -> Prop) :
  (forall s, P s -> Q a s) -> runs P (ret a) Q.
Proof. intros HQ s Hs. exists a, s. auto. Qed.

Lemma runs_pre {S A} (P P' : S -> Prop) (m : M S A) Q :
  runs P' m Q -> (forall s, P s -> P' s) -> runs P m Q.
Proof. intros Hm HP s Hs. apply Hm. auto. Qed.

Lemma runs_post {S A} (P : S -> Prop) (m : M S A) (Q Q' : A -> S -> Prop) :
  runs P m Q -> (forall a s, Q a s -> Q' a s) -> runs P m Q'.
Proof. intros Hm HQ s Hs. destruct (Hm s Hs) as (a & s' & Hr & Hq). exists a, s'. auto. Qed.

(** A read that leaves the state alone. *)
Lemma runs_read {S A B} (P : S -> Prop) (m : M S A) (x : A) (k : A -> M S B) Q :
  (forall s, P s -> m s = Ok x s) -> runs P (k x) Q -> runs P (bind m k) Q.
Proof. intros Hm Hk s Hs. rewrite (bind_Ok _ _ _ _ _ (Hm s Hs)). by apply Hk. Qed.

Lemma runs_forM {S A} (I : list A -> S -> Prop) (f : A -> M S unit) l :
  forall done_, (forall d x l', done_ ++ l = d ++ x :: l' -> runs (I d) (f x) (fun _ => I (d ++ [x]))) ->
  runs (I done_) (forM l f) (fun _ => I (done_ ++ l)).
Proof.
  induction l as [|x l IH]; intros done_ Hf; cbn [forM].
  - apply runs_ret. intros s. by rewrite app_nil_r.
  - eapply runs_bind; [by apply (Hf done_ x l)|]. intros [].
    replace (done_ ++ x :: l) with ((done_ ++ [x]) ++ l) by (by rewrite <- app_assoc).
    apply IH. intros d y l' Heq. apply (Hf d y l'). by rewrite <- Heq, <- app_assoc.
Qed.

(** ** More fuel, same answer

    [m ⊑ m']: wherever [m] does not run out of fuel, [m'] does the same. *)

Definition below {S A} (m m' : M S A) : Prop := forall s, m s = OutOfFuel \/ m' s = m s.

Section below.
Context {S : Type}.

Lemma below_refl {A} (m : M S A) : below m m.
Proof. intros s. by right. Qed.

Lemma below_fuel {A} (m : M S A) : below out_of_fuel m.
Proof. intros s. by left. Qed.

Lemma below_bind {A B} (m m' : M S A) (k k' : A -> M S B) :
  below m m' -> (forall a, below (k a) (k' a)) -> below (bind m k) (bind m' k').
Proof.
  intros Hm Hk s. unfold bind. destruct (Hm s) as [->| ->]; [by left|].
  destruct (m s); [apply Hk|by right..].
Qed.

Lemma below_try {A} (m m' : M S A) (h h' : exn -> M S A) :
  below m m' -> (forall e, below (h e) (h' e)) -> below (try_catch m h) (try_catch m' h').
Proof.
  intros Hm Hh s. unfold try_catch. destruct (Hm s) as [->| ->]; [by left|].
  destruct (m s); [by right|apply Hh|by right..].
Qed.

Lemma below_if {A} (b : bool) (m1 m1' m2 m2' : M S A) :
  below m1 m1' -> below m2 m2' -> below (if b then m1 else m2) (if b then m1' else m2').
Proof. by destruct b. Qed.
End below.

#[export] Hint Resolve below_refl below_fuel : prog.
