(* ===== verification/MachineInt.v ===== *)
(** * Machine integers and their little-endian bytes

    The integer types of C++ as they are used by the virtual machine: values are
    [Z], a type has a size in bytes and a signedness, conversions wrap as C++20
    (and every x86-64 compiler) defines them, arithmetic on a signed type that
    leaves the type's range is undefined behaviour. Memory holds bytes, integers
    in [0,256); the target is little-endian (x86-64). *)

From S2P Require Import Prelude.

(** ** Widths *)

(** Conversion to an unsigned type of [w] bits. *)
Definition to_u (w z : Z) : Z := z mod 2 ^ w.

(** Conversion to a signed type of [w] bits (two's complement). *)
Definition to_s (w z : Z) : Z := (z + 2 ^ (w - 1)) mod 2 ^ w - 2 ^ (w - 1).

Definition fits_u (w z : Z) : bool := (0 <=? z) && (z <? 2 ^ w).
Definition fits_s (w z : Z) : bool := (- 2 ^ (w - 1) <=? z) && (z <? 2 ^ (w - 1)).

Abbreviation u64 := (to_u 64).
Abbreviation u32 := (to_u 32).
Abbreviation s64 := (to_s 64).
Abbreviation s32 := (to_s 32).

(** ** Bytes *)

Definition is_byte (b : Z) : Prop := 0 <= b < 256.

Fixpoint le_enc (n : nat) (z : Z) : list Z :=
  match n with
  | O => []
  | S n' => z mod 256 :: le_enc n' (z / 256)
  end.

Fixpoint le_dec (bs : list Z) : Z :=
  match bs with
  | [] => 0
  | b :: bs' => b + 256 * le_dec bs'
  end.

(** ** The C++ types the compute stack holds *)

Inductive ctype := I8 | I16 | I32 | I64 | U8 | U32 | U64 | F64.

Definition sizeof (t : ctype) : nat :=
  match t with
  | I8 | U8 => 1
  | I16 => 2
  | I32 | U32 => 4
  | I64 | U64 | F64 => 8
  end.

Definition bits (t : ctype) : Z := 8 * Z.of_nat (sizeof t).

Definition is_signed (t : ctype) : bool :=
  match t with I8 | I16 | I32 | I64 => true | U8 | U32 | U64 | F64 => false end.

(** A [double] is carried as its 64-bit IEEE-754 pattern. *)
Definition in_range (t : ctype) (z : Z) : bool :=
  if is_signed t then fits_s (bits t) z else fits_u (bits t) z.

Definition encode (t : ctype) (z : Z) : list Z := le_enc (sizeof t) z.

Definition decode (t : ctype) (bs : list Z) : Z :=
  if is_signed t then to_s (bits t) (le_dec bs) else le_dec bs.

(** [checked t z]: the result [z] of an operation on the promoted type [t]; leaving
    the range of a signed type is undefined behaviour, unsigned types wrap. *)
Definition checked {S} (t : ctype) (z : Z) : M S Z :=
  if is_signed t
  then (if in_range t z then ret z else undef)
  else ret (to_u (bits t) z).

(** ** Characters and strings *)

Definition char_of (b : Z) : Ascii.ascii := Ascii.ascii_of_N (Z.to_N b).
Definition byte_of (c : Ascii.ascii) : Z := Z.of_N (Ascii.N_of_ascii c).

Fixpoint string_of_bytes (bs : list Z) : string :=
  match bs with
  | [] => EmptyString
  | b :: bs' => String (char_of b) (string_of_bytes bs')
  end.

Fixpoint bytes_of_string (s : string) : list Z :=
  match s with
  | EmptyString => []
  | String c s' => byte_of c :: bytes_of_string s'
  end.

(** The bytes before the first NUL, [None] when there is none before the end of the
    object: reading on is undefined behaviour. *)
Fixpoint until_nul (bs : list Z) : option (list Z) :=
  match bs with
  | [] => None
  | b :: bs' => if b =? 0 then Some [] else cons b <$> until_nul bs'
  end.

Definition c_string (mem : list Z) (a : Z) : option (list Z) :=
  if (0 <=? a) && (a <=? Z.of_nat (length mem))
  then until_nul (drop (Z.to_nat a) mem) else None.

Arguments to_u : simpl never.
Arguments to_s : simpl never.
Arguments encode : simpl never.
Arguments decode : simpl never.
Arguments in_range : simpl never.

(** ** Lemmas *)

Lemma pow2_pos w : 0 <= w -> 0 < 2 ^ w.
Proof. intros. by apply Z.pow_pos_nonneg. Qed.

Lemma to_u_range w z : 0 <= w -> 0 <= to_u w z < 2 ^ w.
Proof. intros. apply Z.mod_pos_bound. by apply pow2_pos. Qed.

Lemma to_u_id w z : 0 <= z < 2 ^ w -> to_u w z = z.
Proof. intros. by apply Z.mod_small. Qed.

Lemma half_pow w : 1 <= w -> 2 ^ w = 2 * 2 ^ (w - 1).
Proof. intros. rewrite <- Z.pow_succ_r by lia. f_equal. lia. Qed.

Lemma to_s_range w z : 1 <= w -> - 2 ^ (w - 1) <= to_s w z < 2 ^ (w - 1).
Proof.
  intros. unfold to_s. pose proof (half_pow w). pose proof (pow2_pos w ltac:(lia)).
  pose proof (Z.mod_pos_bound (z + 2 ^ (w - 1)) (2 ^ w)). lia.
Qed.

Lemma to_s_id w z : 1 <= w -> - 2 ^ (w - 1) <= z < 2 ^ (w - 1) -> to_s w z = z.
Proof.
  intros. unfold to_s. pose proof (half_pow w). rewrite Z.mod_small; lia.
Qed.

Lemma to_s_to_u w z : 1 <= w -> to_s w (to_u w z) = to_s w z.
Proof.
  intros. unfold to_s, to_u. by rewrite Zplus_mod_idemp_l.
Qed.

Lemma to_u_to_s w z : 1 <= w -> to_u w (to_s w z) = to_u w z.
Proof.
  intros. unfold to_s, to_u. rewrite Zminus_mod_idemp_l. f_equal. lia.
Qed.

Lemma fits_s_spec w z : fits_s w z = true <-> - 2 ^ (w - 1) <= z < 2 ^ (w - 1).
Proof. unfold fits_s. rewrite andb_true_iff, Z.leb_le, Z.ltb_lt. done. Qed.

Lemma fits_u_spec w z : fits_u w z = true <-> 0 <= z < 2 ^ w.
Proof. unfold fits_u. rewrite andb_true_iff, Z.leb_le, Z.ltb_lt. done. Qed.

Lemma le_enc_length n z : length (le_enc n z) = n.
Proof. revert z. induction n; simpl; auto. Qed.

Lemma le_enc_bytes n z : Forall is_byte (le_enc n z).
Proof.
  revert z. induction n; simpl; constructor; auto.
  apply Z.mod_pos_bound. lia.
Qed.

Lemma pow256_succ n : 2 ^ (8 * Z.of_nat (S n)) = 256 * 2 ^ (8 * Z.of_nat n).
Proof.
  replace (8 * Z.of_nat (S n)) with (8 + 8 * Z.of_nat n) by lia.
  by rewrite Z.pow_add_r by lia.
Qed.

Lemma le_dec_enc n z : le_dec (le_enc n z) = z mod 2 ^ (8 * Z.of_nat n).
Proof.
  revert z. induction n as [|n IH]; intros z; [by rewrite Z.mod_1_r|].
  cbn [le_enc le_dec]. rewrite IH, pow256_succ.
  rewrite Z.rem_mul_r by lia. lia.
Qed.

Lemma le_dec_bound bs : Forall is_byte bs -> 0 <= le_dec bs < 2 ^ (8 * Z.of_nat (length bs)).
Proof.
  induction 1 as [|b bs Hb Hbs IH]; [simpl; lia|].
  cbn [le_dec length]. rewrite pow256_succ. unfold is_byte in Hb. lia.
Qed.

Lemma le_enc_dec bs : Forall is_byte bs -> le_enc (length bs) (le_dec bs) = bs.
Proof.
  induction 1 as [|b bs Hb Hbs IH]; [done|].
  cbn [le_dec length le_enc]. unfold is_byte in Hb.
  rewrite (Z.mul_comm 256), Z.mod_add, Z.div_add by lia.
  by rewrite Z.mod_small, (Z.div_small b), Z.add_0_l, IH by lia.
Qed.

Lemma le_enc_mod n z : le_enc n (z mod 2 ^ (8 * Z.of_nat n)) = le_enc n z.
Proof.
  rewrite <- le_dec_enc. rewrite <- (le_enc_length n z) at 1.
  apply le_enc_dec, le_enc_bytes.
Qed.

Lemma bits_ge8 t : 8 <= bits t.
Proof. by destruct t. Qed.

Lemma encode_length t z : length (encode t z) = sizeof t.
Proof. apply le_enc_length. Qed.

Lemma encode_bytes t z : Forall is_byte (encode t z).
Proof. apply le_enc_bytes. Qed.

(** Reading back a value of a type gives the value. *)
Lemma decode_encode t z : in_range t z = true -> decode t (encode t z) = z.
Proof.
  unfold in_range, decode, encode. intros H.
  rewrite le_dec_enc. fold (bits t). pose proof (bits_ge8 t).
  destruct (is_signed t).
  - apply fits_s_spec in H. fold (to_u (bits t) z). rewrite to_s_to_u by lia.
    apply to_s_id; lia.
  - apply fits_u_spec in H. by apply Z.mod_small.
Qed.

(** Writing back the value read from the bytes of an object restores the bytes. *)
Lemma encode_decode t bs :
  Forall is_byte bs -> length bs = sizeof t -> encode t (decode t bs) = bs.
Proof.
  intros Hb Hl. unfold encode, decode. pose proof (bits_ge8 t).
  rewrite <- (le_enc_mod (sizeof t)). fold (bits t).
  replace ((if is_signed t then to_s (bits t) (le_dec bs) else le_dec bs) mod 2 ^ bits t)
    with (le_dec bs).
  { rewrite <- Hl. by apply le_enc_dec. }
  pose proof (le_dec_bound bs Hb) as Hd. rewrite Hl in Hd. fold (bits t) in Hd.
  destruct (is_signed t).
  - change (le_dec bs = to_u (bits t) (to_s (bits t) (le_dec bs))).
    rewrite to_u_to_s by lia. symmetry. by apply Z.mod_small.
  - symmetry. by apply Z.mod_small.
Qed.

Lemma decode_in_range t bs :
  Forall is_byte bs -> length bs = sizeof t -> in_range t (decode t bs) = true.
Proof.
  intros Hb Hl. unfold in_range, decode. pose proof (bits_ge8 t).
  destruct (is_signed t).
  - apply fits_s_spec, to_s_range. lia.
  - apply fits_u_spec. unfold bits. rewrite <- Hl. by apply le_dec_bound.
Qed.

(** Truncation: the bytes of a value depend only on the value modulo the type's width. *)
Lemma encode_to_u t z : encode t (to_u (bits t) z) = encode t z.
Proof. apply le_enc_mod. Qed.

Lemma encode_to_s t z : encode t (to_s (bits t) z) = encode t z.
Proof.
  pose proof (bits_ge8 t).
  rewrite <- encode_to_u, to_u_to_s by lia. apply encode_to_u.
Qed.

#[export] Instance ctype_eq_dec : EqDecision ctype.
Proof. solve_decision. Defined.

#[export] Hint Resolve encode_bytes le_enc_bytes : prog.
