(* ===== verification/F64.v ===== *)
(** * IEEE-754 binary64 values

    The VM's [double] operands are 64-bit patterns on the compute stack and in
    memory. The arithmetic is the executable specification of the Standard Library
    ([SpecFloat]) at precision 53 and maximal exponent 1024, which is round-to-nearest
    binary64 as [+], [-], [*], [/] and the comparisons of C++ on x86-64 compute it.
    [SpecFloat] has one NaN; the pattern a NaN-producing operation leaves on the
    stack is a parameter ([nan]) because IEEE-754 does not fix it. *)

From S2P Require Import Prelude MachineInt.
From Stdlib Require Import Floats.SpecFloat.

Definition f64 : Type := spec_float.

(** Decompose a pattern: sign, 11 exponent bits, 52 fraction bits. *)
Definition f64_of_bits (b : Z) : f64 :=
  let s := Z.testbit b 63 in
  let e := Z.land (Z.shiftr b 52) 2047 in
  let m := Z.land b (2 ^ 52 - 1) in
  if e =? 2047 then (if m =? 0 then S754_infinity s else S754_nan)
  else if e =? 0 then
    match m with
    | Z.pos p => S754_finite s p (-1074)
    | _ => S754_zero s
    end
  else
    match m + 2 ^ 52 with
    | Z.pos p => S754_finite s p (e - 1075)
    | _ => S754_nan
    end.

Definition sign_bit (s : bool) : Z := if s then 2 ^ 63 else 0.

Definition bits_of_f64 (nan : Z) (f : f64) : Z :=
  match f with
  | S754_zero s => sign_bit s
  | S754_infinity s => sign_bit s + 2047 * 2 ^ 52
  | S754_nan => nan
  | S754_finite s p e =>
    if Z.pos p <? 2 ^ 52
    then sign_bit s + Z.pos p                                  (* subnormal *)
    else sign_bit s + (e + 1075) * 2 ^ 52 + (Z.pos p - 2 ^ 52)
  end.

Definition f64_lift2 (op : f64 -> f64 -> f64) (nan a b : Z) : Z :=
  bits_of_f64 nan (op (f64_of_bits a) (f64_of_bits b)).

Definition f64_add : Z -> Z -> Z -> Z := f64_lift2 (SFadd 53 1024).
Definition f64_sub : Z -> Z -> Z -> Z := f64_lift2 (SFsub 53 1024).
Definition f64_mul : Z -> Z -> Z -> Z := f64_lift2 (SFmul 53 1024).
Definition f64_div : Z -> Z -> Z -> Z := f64_lift2 (SFdiv 53 1024).

Definition f64_compare (a b : Z) : option comparison :=
  SFcompare (f64_of_bits a) (f64_of_bits b).

(** The C++ comparisons: false when an operand is a NaN, except [!=]. *)
Definition f64_lt (a b : Z) : bool :=
  match f64_compare a b with Some Lt => true | _ => false end.
Definition f64_gt (a b : Z) : bool :=
  match f64_compare a b with Some Gt => true | _ => false end.
Definition f64_le (a b : Z) : bool :=
  match f64_compare a b with Some Lt | Some Eq => true | _ => false end.
Definition f64_ge (a b : Z) : bool :=
  match f64_compare a b with Some Gt | Some Eq => true | _ => false end.
Definition f64_eq (a b : Z) : bool :=
  match f64_compare a b with Some Eq => true | _ => false end.

(** Conversion of an integer, and truncation towards zero (of a finite value). *)
Definition f64_of_z (nan z : Z) : Z := bits_of_f64 nan (binary_normalize 53 1024 z 0 false).

Definition f64_to_z (b : Z) : Z :=
  match f64_of_bits b with
  | S754_finite s p e =>
    let m := if 0 <=? e then Z.pos p * 2 ^ e else Z.pos p / 2 ^ (- e) in
    if s then - m else m
  | _ => 0
  end.

Definition f64_zero : Z := 0.
Definition f64_minus_one : Z := 0xBFF0000000000000.

Definition is_nan (b : Z) : bool :=
  match f64_of_bits b with S754_nan => true | _ => false end.

(** ** Facts used by the instruction specifications *)

Lemma f64_compare_nan_l a b : is_nan a = true -> f64_compare a b = None.
Proof. unfold is_nan, f64_compare. by destruct (f64_of_bits a). Qed.

(** A comparison is decided unless an operand is a NaN. *)
Lemma f64_compare_total a b :
  is_nan a = false -> is_nan b = false -> exists c, f64_compare a b = Some c.
Proof.
  unfold is_nan, f64_compare.
  destruct (f64_of_bits a), (f64_of_bits b); simpl; intros; try done; eauto.
Qed.

Lemma f64_one_plus_two :
  f64_add 0 0x3FF0000000000000 0x4000000000000000 = 0x4008000000000000.
Proof. by vm_compute. Qed.

(** Unification and [simpl] keep the arithmetic folded; [vm_compute] evaluates it. *)
#[global] Opaque f64_add f64_sub f64_mul f64_div f64_compare f64_lt f64_gt f64_le f64_ge f64_eq.
