(* ===== verification/HexFloat.v ===== *)
(** * HexFloat: doubles as text

    What core/src/serialization.cpp uses of sprintf and sscanf: the conversion %la, a
    double as a hexadecimal fraction with a binary exponent. Text is a list of bytes. *)

From S2P Require Import Prelude MachineInt F64.
From Stdlib Require Import Floats.SpecFloat.

(** ** Writing *)

Definition hex_char (d : Z) : Z := if d <? 10 then 48 + d else 87 + d.

(** The digits of [m / 16^n] behind the point, without zeros at the end. *)
Fixpoint frac_digits (n : nat) (m : Z) : list Z :=
  match n with
  | O => []
  | S n' => if m =? 0 then [] else hex_char (m / 16 ^ Z.of_nat n') :: frac_digits n' (m mod 16 ^ Z.of_nat n')
  end.

Fixpoint dec_digits (fuel : nat) (n : Z) : list Z :=
  match fuel with
  | O => []
  | S fuel' => (if n <? 10 then [] else dec_digits fuel' (n / 10)) ++ [48 + n mod 10]
  end.

Definition print_frac (m : Z) : list Z := if m =? 0 then [] else 46 :: frac_digits 13 m.
Definition print_exp (e : Z) : list Z := 112 :: (if e <? 0 then 45 else 43) :: dec_digits 5 (Z.abs e).

(** sprintf("%la", v), without the zero at the end. *)
Definition print_la (b : Z) : list Z :=
  let e := Z.land (Z.shiftr b 52) 2047 in
  let m := Z.land b (2 ^ 52 - 1) in
  (if Z.testbit b 63 then [45] else []) ++
  if e =? 2047 then (if m =? 0 then [105; 110; 102] else [110; 97; 110])
  else if e =? 0 then
    if m =? 0 then [48; 120; 48] ++ print_exp 0
    else [48; 120; 48] ++ print_frac m ++ print_exp (-1022)
  else [48; 120; 49] ++ print_frac m ++ print_exp (e - 1023).

(** ** Reading *)

Definition is_digit (c : Z) : bool := (48 <=? c) && (c <=? 57).

Definition hex_value (c : Z) : option Z :=
  if is_digit c then Some (c - 48)
  else if (97 <=? c) && (c <=? 102) then Some (c - 87)
  else if (65 <=? c) && (c <=? 70) then Some (c - 55)
  else None.

(** Hexadecimal digits: their value after [acc], how many, the rest. *)
Fixpoint scan_hex (bs : list Z) (acc : Z) : Z * Z * list Z :=
  match bs with
  | [] => (acc, 0, [])
  | c :: bs' =>
    match hex_value c with
    | Some d => let '(v, n, r) := scan_hex bs' (16 * acc + d) in (v, n + 1, r)
    | None => (acc, 0, bs)
    end
  end.

Fixpoint scan_dec (bs : list Z) (acc : Z) : Z * Z * list Z :=
  match bs with
  | [] => (acc, 0, [])
  | c :: bs' =>
    if is_digit c then let '(v, n, r) := scan_dec bs' (10 * acc + (c - 48)) in (v, n + 1, r)
    else (acc, 0, bs)
  end.

Definition scan_sign (bs : list Z) : bool * list Z :=
  match bs with
  | c :: bs' => if c =? 45 then (true, bs') else if c =? 43 then (false, bs') else (false, bs)
  | [] => (false, bs)
  end.

(** An exponent behind one of the letters [ls], 0 when there is none; [None]: a letter
    without a number. *)
Definition scan_exp (ls : list Z) (bs : list Z) : option Z :=
  match bs with
  | c :: bs' =>
    if bool_decide (c ∈ ls) then
      let '(s, r) := scan_sign bs' in
      let '(v, n, _) := scan_dec r 0 in
      if n =? 0 then None else Some (if s then - v else v)
    else Some 0
  | [] => Some 0
  end.

(** The digits around a point: their value, how many stand behind the point. *)
Definition scan_mantissa (scan : list Z -> Z -> Z * Z * list Z) (bs : list Z) : option (Z * Z * list Z) :=
  let '(v, n, r) := scan bs 0 in
  match r with
  | 46 :: r' => let '(v', k, r'') := scan r' v in if n + k =? 0 then None else Some (v', k, r'')
  | _ => if n =? 0 then None else Some (v, 0, r)
  end.

Definition lower (c : Z) : Z := if (65 <=? c) && (c <=? 90) then c + 32 else c.
Definition starts (p bs : list Z) : bool := bool_decide (map lower (take (length p) bs) = p).

Definition is_space (c : Z) : bool := (c =? 32) || ((9 <=? c) && (c <=? 13)).

Fixpoint skip_spaces (bs : list Z) : list Z :=
  match bs with
  | c :: bs' => if is_space c then skip_spaces bs' else bs
  | [] => []
  end.

(** The double next to [num / den], ties to even: two bits more than the mantissa, and a
    sticky bit. *)
Definition f64_of_ratio (s : bool) (num den : Z) : Z :=
  if num =? 0 then sign_bit s
  else
    let k := Z.max 0 (56 + Z.log2 den - Z.log2 num) in
    let n := num * 2 ^ k in
    let q := 2 * (n / den) + (if n mod den =? 0 then 0 else 1) in
    bits_of_f64 0 (binary_normalize 53 1024 (if s then - q else q) (- k - 1) s).

Definition f64_quiet_nan (s : bool) : Z := sign_bit s + 0x7FF8000000000000.

(** sscanf(buffer, "%la", &v): [None] when nothing is assigned. *)
Definition scan_la (bs : list Z) : option Z :=
  let '(s, r) := scan_sign (skip_spaces bs) in
  if starts [105; 110; 102] r then Some (sign_bit s + 2047 * 2 ^ 52)
  else if starts [110; 97; 110] r then Some (f64_quiet_nan s)
  else if starts [48; 120] r then
    '(m, k, r) ← scan_mantissa scan_hex (drop 2 r);
    e ← scan_exp [112; 80] r;
    Some (bits_of_f64 0 (binary_normalize 53 1024 (if s then - m else m) (e - 4 * k) s))
  else
    '(m, k, r) ← scan_mantissa scan_dec r;
    e ← scan_exp [101; 69] r;
    Some (f64_of_ratio s (m * 10 ^ Z.max 0 (e - k)) (10 ^ Z.max 0 (k - e))).

(** ** Reading back what was written *)

Lemma hex_value_char d : 0 <= d < 16 -> hex_value (hex_char d) = Some d.
Proof. intros Hd. unfold hex_value, hex_char, is_digit. case_ifs; zbool; try (f_equal; lia); lia. Qed.

Lemma scan_hex_frac r : forall n m acc, (forall c r', r = c :: r' -> hex_value c = None) ->
  0 <= m < 16 ^ Z.of_nat n ->
  exists v k, scan_hex (frac_digits n m ++ r) acc = (v, k, r) /\ 0 <= k <= Z.of_nat n /\
    v * 16 ^ (Z.of_nat n - k) = acc * 16 ^ Z.of_nat n + m.
Proof.
  intros n m acc Hr. revert m acc. induction n as [|n IH]; intros m acc Hm.
  - exists acc, 0. cbn [frac_digits app]. split.
    + destruct r as [|c r]; [done|]. cbn. by rewrite (Hr c r eq_refl).
    + rewrite Z.sub_0_r. change (16 ^ Z.of_nat 0) with 1 in *. lia.
  - rewrite Nat2Z.inj_succ, Z.pow_succ_r in Hm by lia. cbn [frac_digits].
    destruct (m =? 0) eqn:Em; zbool.
    + exists acc, 0. split; [|split; [lia|]].
      * destruct r as [|c r]; [done|]. cbn. by rewrite (Hr c r eq_refl).
      * rewrite Z.sub_0_r. lia.
    + pose proof (Z.pow_pos_nonneg 16 (Z.of_nat n) ltac:(lia) ltac:(lia)) as Hp.
      assert (Hd : 0 <= m / 16 ^ Z.of_nat n < 16).
      { split; [apply Z.div_pos; lia|]. apply Z.div_lt_upper_bound; lia. }
      cbn [app scan_hex]. rewrite hex_value_char by done.
      destruct (IH (m mod 16 ^ Z.of_nat n) (16 * acc + m / 16 ^ Z.of_nat n)) as (v & k & Hs & Hk & Hv).
      { by apply Z.mod_pos_bound. }
      rewrite Hs. exists v, (k + 1). split; [done|]. split; [lia|].
      replace (Z.of_nat (S n) - (k + 1)) with (Z.of_nat n - k) by lia.
      rewrite Hv, Nat2Z.inj_succ, Z.pow_succ_r by lia.
      pose proof (Z.div_mod m (16 ^ Z.of_nat n)). lia.
Qed.

Lemma scan_dec_digits fuel : forall n acc, 0 <= n < 10 ^ Z.of_nat fuel ->
  exists k, scan_dec (dec_digits fuel n) acc = (acc * 10 ^ k + n, k, []) /\ 0 <= k /\ (0 < Z.of_nat fuel -> 0 < k).
Proof.
  assert (Happ : forall l1 acc v k d, scan_dec l1 acc = (v, k, []) -> 0 <= d < 10 ->
            scan_dec (l1 ++ [48 + d]) acc = (10 * v + d, k + 1, [])).
  { induction l1 as [|c l1 IH]; intros acc v k d Hs Hd; cbn in *.
    - injection Hs as <- <-. unfold is_digit. 
      rewrite (proj2 (Z.leb_le 48 (48 + d))), (proj2 (Z.leb_le (48 + d) 57)) by lia. cbn. do 2 f_equal. lia.
    - destruct (is_digit c); [|done]. destruct (scan_dec l1 _) as [[v' k'] r] eqn:E.
      injection Hs as <- <- ->. erewrite IH by eauto. done. }
  induction fuel as [|fuel IH]; intros n acc Hn.
  - exists 0. cbn in Hn. cbn. split; [do 2 f_equal; lia|lia].
  - rewrite Nat2Z.inj_succ, Z.pow_succ_r in Hn by lia. cbn [dec_digits].
    pose proof (Z.mod_pos_bound n 10). pose proof (Z.div_mod n 10).
    destruct (n <? 10) eqn:E; zbool.
    + exists 1. split; [|lia]. rewrite (Happ [] acc acc 0) by (done || lia). do 2 f_equal.
      rewrite Z.mod_small by lia. lia.
    + destruct (IH (n / 10) acc) as (k & Hs & Hk & _).
      { split; [apply Z.div_pos; lia|]. apply Z.div_lt_upper_bound; lia. }
      exists (k + 1). split; [|lia]. erewrite Happ by (eauto || lia). do 2 f_equal.
      rewrite Z.pow_add_r by lia. lia.
Qed.

Lemma scan_exp_print e : -100000 < e < 100000 -> scan_exp [112; 80] (print_exp e) = Some e.
Proof.
  intros He. unfold scan_exp, print_exp. rewrite bool_decide_true by (apply list_elem_of_In; cbn; auto).
  destruct (scan_dec_digits 5 (Z.abs e) 0) as (k & Hs & Hk & Hk'); [lia|].
  destruct (e <? 0) eqn:E; zbool; cbn [scan_sign Z.eqb Pos.eqb]; rewrite Hs;
    rewrite (proj2 (Z.eqb_neq k 0)) by lia; f_equal; lia.
Qed.

(** ** Exact numbers are not rounded *)

Lemma digits2_pos_bounds p : 2 ^ (Z.pos (digits2_pos p) - 1) <= Z.pos p < 2 ^ Z.pos (digits2_pos p).
Proof.
  induction p as [p IH|p IH|]; cbn [digits2_pos].
  1,2: rewrite Pos2Z.inj_succ; replace (Z.succ (Z.pos (digits2_pos p)) - 1) with (Z.succ (Z.pos (digits2_pos p) - 1)) by lia;
    rewrite !Z.pow_succ_r by lia; lia.
  cbn. lia.
Qed.

Lemma digits2_pos_unique p d : 0 < d -> 2 ^ (d - 1) <= Z.pos p < 2 ^ d -> Z.pos (digits2_pos p) = d.
Proof.
  intros Hd Hp. pose proof (digits2_pos_bounds p) as Hb.
  assert (Z.pos (digits2_pos p) - 1 < d) by (apply (Z.pow_lt_mono_r_iff 2); lia).
  assert (d - 1 < Z.pos (digits2_pos p)) by (apply (Z.pow_lt_mono_r_iff 2); lia). lia.
Qed.

Lemma iter_xO p d : Z.pos (Pos.iter xO p d) = Z.pos p * 2 ^ Z.pos d.
Proof.
  induction d as [|d IH] using Pos.peano_ind.
  - cbn. lia.
  - rewrite Pos.iter_succ, Pos2Z.inj_xO, IH, Pos2Z.inj_succ, Z.pow_succ_r by lia. lia.
Qed.

Lemma binary_round_aux_exact s p e :
  fexp 53 1024 (Z.pos (digits2_pos p) + e) = e -> e <= 971 ->
  binary_round_aux 53 1024 s (Z.pos p) e loc_Exact = S754_finite s p e.
Proof.
  intros Hf He. unfold binary_round_aux, shr_fexp. cbn [shr_record_of_loc Zdigits2].
  rewrite Hf, Z.sub_diag. cbn [shr shr_m loc_of_shr_record round_nearest_even Zdigits2 shr_record_of_loc].
  rewrite Hf, Z.sub_diag. cbn [shr shr_m]. by rewrite (proj2 (Z.leb_le _ _)) by lia.
Qed.

(** [q * 2^e], a number in the form the format has for it, however many factors of 2 are
    split off. *)
Lemma binary_normalize_exact (s : bool) p q e k :
  0 <= k -> Z.pos q = Z.pos p * 2 ^ k ->
  fexp 53 1024 (Z.pos (digits2_pos q) + e) = e -> e <= 971 ->
  binary_normalize 53 1024 (if s then - Z.pos p else Z.pos p) (e + k) s = S754_finite s q e.
Proof.
  intros Hk Hq Hf He.
  assert (Hd : Z.pos (digits2_pos q) = Z.pos (digits2_pos p) + k).
  { apply digits2_pos_unique; [lia|]. rewrite Hq. pose proof (digits2_pos_bounds p).
    replace (Z.pos (digits2_pos p) + k - 1) with (Z.pos (digits2_pos p) - 1 + k) by lia.
    rewrite !Z.pow_add_r by lia. pose proof (Z.pow_pos_nonneg 2 k). nia. }
  assert (Hr : binary_round 53 1024 s p (e + k) = S754_finite s q e).
  { unfold binary_round, shl_align.
    replace (Z.pos (digits2_pos p) + (e + k)) with (Z.pos (digits2_pos q) + e) by lia. rewrite Hf.
    replace (e - (e + k)) with (- k) by lia.
    destruct k as [|k|k]; [| |lia]; cbn [Z.opp].
    - rewrite Z.add_0_r. assert (p = q) as -> by lia. by apply binary_round_aux_exact.
    - rewrite <- iter_xO in Hq. injection Hq as ->. by apply binary_round_aux_exact. }
  by destruct s.
Qed.

(** ** The fields of a double *)

Definition f64_exponent (b : Z) : Z := Z.land (Z.shiftr b 52) 2047.
Definition f64_fraction (b : Z) : Z := Z.land b (2 ^ 52 - 1).

Lemma f64_fields b :
  0 <= b < 2 ^ 64 ->
  b = sign_bit (Z.testbit b 63) + f64_exponent b * 2 ^ 52 + f64_fraction b /\
  0 <= f64_exponent b < 2048 /\ 0 <= f64_fraction b < 2 ^ 52.
Proof.
  intros Hb. unfold f64_exponent, f64_fraction.
  change 2047 with (Z.ones 11). change (2 ^ 52 - 1) with (Z.ones 52).
  rewrite !Z.land_ones, Z.shiftr_div_pow2 by lia.
  pose proof (Z.mod_pos_bound (b / 2 ^ 52) (2 ^ 11)). pose proof (Z.mod_pos_bound b (2 ^ 52)).
  split; [|lia].
  assert (Hs : sign_bit (Z.testbit b 63) = b / 2 ^ 63 * 2 ^ 63).
  { rewrite Z.testbit_eqb by lia. pose proof (Z.div_pos b (2 ^ 63)).
    assert (b / 2 ^ 63 < 2) by (apply Z.div_lt_upper_bound; lia). unfold sign_bit.
    rewrite (Z.mod_small (b / 2 ^ 63)) by lia. destruct (b / 2 ^ 63 =? 1) eqn:E; zbool; lia. }
  rewrite Hs. pose proof (Z.div_mod b (2 ^ 52)). pose proof (Z.div_mod (b / 2 ^ 52) (2 ^ 11)).
  rewrite Z.div_div in * by lia. change (2 ^ 52 * 2 ^ 11) with (2 ^ 63) in *. lia.
Qed.

(** A fraction with its leading digit, read and rounded. *)
Lemma scan_fraction (s : bool) lead f e :
  0 <= f < 2 ^ 52 -> 0 <= lead <= 1 -> 0 < lead * 2 ^ 52 + f -> -100000 < e < 100000 ->
  (forall q, Z.pos q = lead * 2 ^ 52 + f -> fexp 53 1024 (Z.pos (digits2_pos q) + (e - 52)) = e - 52) -> e <= 1023 ->
  ('(m, k, r) ← scan_mantissa scan_hex ([48 + lead] ++ print_frac f ++ print_exp e);
   e ← scan_exp [112; 80] r;
   Some (bits_of_f64 0 (binary_normalize 53 1024 (if s then - m else m) (e - 4 * k) s))) =
  Some (bits_of_f64 0 (S754_finite s (Z.to_pos (lead * 2 ^ 52 + f)) (e - 52))).
Proof.
  intros Hf Hlead Hpos He Hfe Hmax.
  assert (Hlv : forall r, scan_hex (48 + lead :: r) 0 = let '(v, n, r) := scan_hex r lead in (v, n + 1, r)).
  { intros r. cbn [scan_hex]. change (48 + lead) with (48 + lead). unfold hex_value, is_digit.
    rewrite (proj2 (Z.leb_le 48 _)), (proj2 (Z.leb_le (48 + lead) 57)) by lia. cbn.
    replace (48 + lead - 48) with lead by lia. done. }
  assert (Hsm : exists v k, scan_mantissa scan_hex ([48 + lead] ++ print_frac f ++ print_exp e) = Some (v, k, print_exp e) /\
                  0 <= k <= 13 /\ v * 16 ^ (13 - k) = lead * 16 ^ 13 + f).
  { unfold scan_mantissa. cbn [app]. rewrite Hlv. unfold print_frac. destruct (f =? 0) eqn:Ef; zbool.
    - exists lead, 0. cbn [app scan_hex print_exp]. split; [done|]. split; [lia|]. rewrite Z.sub_0_r. lia.
    - cbn [app scan_hex]. change (hex_value 46) with (@None Z). cbn iota.
      destruct (scan_hex_frac (print_exp e) 13 f lead) as (v & k & Hs & Hk & Hv).
      { intros c r' [= <- _]. done. } { change (16 ^ Z.of_nat 13) with (2 ^ 52). lia. }
      rewrite Hs. exists v, k. rewrite (proj2 (Z.eqb_neq _ _)) by lia. split; [done|]. split; [lia|exact Hv]. }
  destruct Hsm as (v & k & -> & Hk & Hv). cbn [mbind option_bind]. rewrite scan_exp_print by done. cbn [mbind option_bind].
  do 2 f_equal. change (16 ^ 13) with (2 ^ 52) in Hv.
  assert (H16 : 16 ^ (13 - k) = 2 ^ (4 * (13 - k))) by (rewrite Z.pow_mul_r by lia; done).
  rewrite H16 in Hv. pose proof (Z.pow_pos_nonneg 2 (4 * (13 - k)) ltac:(lia) ltac:(lia)).
  assert (Hvp : 0 < v) by nia. destruct v as [|p|p]; [lia| |lia].
  replace (e - 4 * k) with (e - 52 + 4 * (13 - k)) by lia.
  apply binary_normalize_exact; [lia| |apply Hfe; by rewrite Z2Pos.id|lia].
  by rewrite Z2Pos.id.
Qed.

(** A double that is not a NaN is read back from the text written for it. *)
Theorem scan_la_print_la b : 0 <= b < 2 ^ 64 -> is_nan b = false -> scan_la (print_la b) = Some b.
Proof.
  intros Hb Hnan. destruct (f64_fields b Hb) as (Hbits & He & Hf).
  unfold print_la. fold (f64_exponent b) (f64_fraction b).
  assert (Hsign : forall c r, c <> 45 -> c <> 43 -> is_space c = false ->
            scan_sign (skip_spaces ((if Z.testbit b 63 then [45] else []) ++ c :: r)) = (Z.testbit b 63, c :: r)).
  { intros c r H1 H2 H3. destruct (Z.testbit b 63); cbn [app skip_spaces]; [done|]. rewrite H3. cbn [scan_sign].
    by rewrite (proj2 (Z.eqb_neq c 45)), (proj2 (Z.eqb_neq c 43)) by done. }
  assert (Hnum : forall lead e, 0 <= lead <= 1 -> 0 < lead * 2 ^ 52 + f64_fraction b -> -100000 < e <= 1023 ->
            (forall q, Z.pos q = lead * 2 ^ 52 + f64_fraction b -> fexp 53 1024 (Z.pos (digits2_pos q) + (e - 52)) = e - 52) ->
            bits_of_f64 0 (S754_finite (Z.testbit b 63) (Z.to_pos (lead * 2 ^ 52 + f64_fraction b)) (e - 52)) = b ->
            scan_la ((if Z.testbit b 63 then [45] else []) ++ [48; 120; 48 + lead] ++ print_frac (f64_fraction b) ++ print_exp e) = Some b).
  { intros lead e Hl Hp Hee Hfe Hres. unfold scan_la. cbn [app]. rewrite Hsign by done.
    change (starts [105; 110; 102] (48 :: 120 :: _)) with false. change (starts [110; 97; 110] (48 :: 120 :: _)) with false.
    change (starts [48; 120] (48 :: 120 :: _)) with true. cbn [drop].
    pose proof (scan_fraction (Z.testbit b 63) lead (f64_fraction b) e Hf Hl Hp ltac:(lia) Hfe ltac:(lia)) as Hsc.
    cbn [app] in Hsc. rewrite Hsc. by rewrite Hres. }
  set (E := f64_exponent b) in *. set (F := f64_fraction b) in *. set (s := Z.testbit b 63) in *.
  destruct (E =? 2047) eqn:E1; zbool.
  - assert (F = 0) as HF.
    { unfold is_nan, f64_of_bits in Hnan. change (Z.land (Z.shiftr b 52) 2047) with E in Hnan.
      change (Z.land b (2 ^ 52 - 1)) with F in Hnan. rewrite (proj2 (Z.eqb_eq E 2047)) in Hnan by done.
      destruct (F =? 0) eqn:EF; zbool; [done|discriminate]. }
    rewrite (proj2 (Z.eqb_eq F 0)) by done. unfold scan_la. rewrite Hsign by done. cbn [starts].
    change (starts [105; 110; 102] [105; 110; 102]) with true. cbn iota. f_equal. lia.
  - destruct (E =? 0) eqn:E2; zbool.
    + destruct (F =? 0) eqn:EF; zbool.
      * unfold scan_la. cbn [app]. rewrite Hsign by done.
        change (starts [105; 110; 102] (48 :: 120 :: _)) with false. change (starts [110; 97; 110] (48 :: 120 :: _)) with false.
        change (starts [48; 120] (48 :: 120 :: _)) with true. cbn [drop].
        transitivity (Some (sign_bit s)); [by destruct s|]. f_equal. lia.
      * apply (Hnum 0 (-1022)); [lia..| |].
        -- intros q Hq. unfold fexp, emin. pose proof (digits2_pos_bounds q) as Hd.
           assert (Z.pos (digits2_pos q) - 1 < 52) by (apply (Z.pow_lt_mono_r_iff 2); lia). lia.
        -- unfold bits_of_f64. rewrite Z2Pos.id by lia. rewrite (proj2 (Z.ltb_lt _ _)) by lia. lia.
    + apply (Hnum 1 (E - 1023)); [lia..| |].
      * intros q Hq. assert (Z.pos (digits2_pos q) = 53) as -> by (apply digits2_pos_unique; lia).
        unfold fexp, emin. lia.
      * unfold bits_of_f64. rewrite Z2Pos.id by lia. rewrite (proj2 (Z.ltb_ge _ _)) by lia. lia.
Qed.
