(* ===== verification/VMEnv.v ===== *)
(** * VMEnv: the state of the Oblectamenta virtual machine

    core/include/vm/vm_base.hpp (class VMEnv) and the non-instruction part of
    core/src/vm/vm_base.cpp: registers, memory, compute stack, data stack, text
    section, the emitters of the assembler, and copying one machine into another.
    Pointers into [mem] and [text] are offsets from the block's base; the one
    place where the numeric value of a pointer shows (lea_absolute) uses
    [mem_base]. An access outside a block is undefined behaviour. *)

From S2P Require Import Prelude MachineInt.

(** ** The platform

    What the code leaves to the compiler and to libraries outside the repository:
    the evaluation order of two unsequenced operands, the NaN pattern the FPU
    generates, libm, the stream formatting of a double, a native function reached
    through a pointer, and what a fresh heap block contains. *)
Class Target := {
  lhs_first : bool;
  nan_bits : Z;
  libm_sin : Z -> Z;
  libm_cos : Z -> Z;
  libm_tan : Z -> Z;
  libm_atan : Z -> Z;
  libm_exp : Z -> Z;
  libm_tanh : Z -> Z;
  fmt_double : Z -> string;          (* ostream << double *)
  to_string_double : Z -> string;    (* std::to_string(double) *)
  native_call : Z -> Z -> Z -> Z -> list Z -> list Z;
  alloc_junk : nat -> list Z;
  alloc_base : nat -> Z;
  native_call_length : forall f a b c m, length (native_call f a b c m) = length m;
  native_call_bytes : forall f a b c m, Forall is_byte m -> Forall is_byte (native_call f a b c m);
  alloc_junk_length : forall n, length (alloc_junk n) = n;
  alloc_junk_bytes : forall n, Forall is_byte (alloc_junk n)
}.

(** ** Register file *)

Definition SP : Z := 0.
Definition FP : Z := 1.
Definition CSP : Z := 2.
Definition PC : Z := 3.
Definition ARG0 : Z := 4.
Definition ARG1 : Z := 5.
Definition ARG2 : Z := 6.
Definition ARG3 : Z := 7.
Definition ARG4 : Z := 8.
Definition ARG5 : Z := 9.
Definition RES : Z := 10.
Definition R0 : Z := 11.
Definition number_of_registers : nat := 27.

(** [reg_mnemonic2idx], in the order in which std::map iterates over it. *)
Definition reg_mnemonic2idx : list (string * Z) :=
  [("ARG0", ARG0); ("ARG1", ARG1); ("ARG2", ARG2); ("ARG3", ARG3); ("ARG4", ARG4);
   ("ARG5", ARG5); ("CSP", CSP); ("FP", FP); ("PC", PC); ("R0", R0); ("R1", R0 + 1);
   ("R10", R0 + 10); ("R11", R0 + 11); ("R12", R0 + 12); ("R13", R0 + 13);
   ("R14", R0 + 14); ("R15", R0 + 15); ("R2", R0 + 2); ("R3", R0 + 3);
   ("R4", R0 + 4); ("R5", R0 + 5); ("R6", R0 + 6); ("R7", R0 + 7); ("R8", R0 + 8);
   ("R9", R0 + 9); ("RES", RES); ("SP", SP)].

(** ** Console output (std::cout and std::cerr), with the sticky std::left flag *)

Record console := mkConsole { out : list string; left_adjust : bool }.

(** Calls of EventQueue::fire_event. *)
Inductive fire :=
| FireEvent (id : Z)
| FireEventPayload (id : Z) (vm_buffer_addr : Z).

Record exfuncdescr_t := mkExfunc {
  exf_addr : Z; exf_name : string; exf_call_regs : Z; exf_stack_size : Z }.

Record vm := mkVM {
  file : list Z;              (* registers.file, int64_t[27] *)
  mem : list Z;               (* the bytes [mem.base, mem.end) *)
  mem_base : Z;               (* the numeric value of mem.base *)
  heap : Z;                   (* mem.heap - mem.base *)
  compute_stack : list Z;     (* vector<uint8_t> *)
  text : list Z;              (* the bytes [text, text + text_size) *)
  text_loc : Z;
  lbl_counter : Z;
  exfuncs : list exfuncdescr_t;
  label2loc : gmap string Z;
  event_queue : bool;         (* event_queue != nullptr *)
  fired : list fire;          (* calls made on the event queue, oldest first *)
  cons_out : console
}.

Definition set_file f v := mkVM f (mem v) (mem_base v) (heap v) (compute_stack v) (text v)
  (text_loc v) (lbl_counter v) (exfuncs v) (label2loc v) (event_queue v) (fired v) (cons_out v).
Definition set_mem m v := mkVM (file v) m (mem_base v) (heap v) (compute_stack v) (text v)
  (text_loc v) (lbl_counter v) (exfuncs v) (label2loc v) (event_queue v) (fired v) (cons_out v).
Definition set_mem_base b v := mkVM (file v) (mem v) b (heap v) (compute_stack v) (text v)
  (text_loc v) (lbl_counter v) (exfuncs v) (label2loc v) (event_queue v) (fired v) (cons_out v).
Definition set_heap h v := mkVM (file v) (mem v) (mem_base v) h (compute_stack v) (text v)
  (text_loc v) (lbl_counter v) (exfuncs v) (label2loc v) (event_queue v) (fired v) (cons_out v).
Definition set_compute_stack c v := mkVM (file v) (mem v) (mem_base v) (heap v) c (text v)
  (text_loc v) (lbl_counter v) (exfuncs v) (label2loc v) (event_queue v) (fired v) (cons_out v).
Definition set_text t v := mkVM (file v) (mem v) (mem_base v) (heap v) (compute_stack v) t
  (text_loc v) (lbl_counter v) (exfuncs v) (label2loc v) (event_queue v) (fired v) (cons_out v).
Definition set_text_loc l v := mkVM (file v) (mem v) (mem_base v) (heap v) (compute_stack v) (text v)
  l (lbl_counter v) (exfuncs v) (label2loc v) (event_queue v) (fired v) (cons_out v).
Definition set_data_labels ls v := mkVM (file v) (mem v) (mem_base v) (heap v) (compute_stack v)
  (text v) (text_loc v) (lbl_counter v) (exfuncs v) ls (event_queue v) (fired v) (cons_out v).
Definition set_event_queue q v := mkVM (file v) (mem v) (mem_base v) (heap v) (compute_stack v)
  (text v) (text_loc v) (lbl_counter v) (exfuncs v) (label2loc v) q (fired v) (cons_out v).
Definition set_fired f v := mkVM (file v) (mem v) (mem_base v) (heap v) (compute_stack v) (text v)
  (text_loc v) (lbl_counter v) (exfuncs v) (label2loc v) (event_queue v) f (cons_out v).
Definition set_console c v := mkVM (file v) (mem v) (mem_base v) (heap v) (compute_stack v) (text v)
  (text_loc v) (lbl_counter v) (exfuncs v) (label2loc v) (event_queue v) (fired v) c.

Definition data_labels (v : vm) : gmap string Z := label2loc v.
Definition mem_size (v : vm) : Z := Z.of_nat (length (mem v)).
Definition text_size (v : vm) : Z := Z.of_nat (length (text v)).

Definition default_mem_size : nat := 4096.
Definition default_text_size : nat := 4 * 4096.

(** ** Registers, memory and text *)

Definition get_reg (r : Z) : M vm Z := fun v => of_option (zlookup (file v) r) v.

(** [registers.file[r] = z], [z] already converted to int64_t. *)
Definition set_reg (r z : Z) : M vm unit :=
  let! f := gets file in
  let! f' := of_option (zinsert f r z) in
  modify (set_file f').

Definition mem_rd (t : ctype) (a : Z) : M vm Z :=
  let! m := gets mem in
  let! bs := of_option (slice_get m a (sizeof t)) in
  ret (decode t bs).

Definition mem_wr_bytes (a : Z) (bs : list Z) : M vm unit :=
  let! m := gets mem in
  let! m' := of_option (slice_set m a bs) in
  modify (set_mem m').

Definition mem_wr (t : ctype) (a z : Z) : M vm unit := mem_wr_bytes a (encode t z).

Definition text_rd (t : ctype) (a : Z) : M vm Z :=
  let! m := gets text in
  let! bs := of_option (slice_get m a (sizeof t)) in
  ret (decode t bs).

Definition text_wr (t : ctype) (a z : Z) : M vm unit :=
  let! m := gets text in
  let! m' := of_option (slice_set m a (encode t z)) in
  modify (set_text m').

(** ** The compute stack *)

(** [push_cs<T>]: the vector grows by sizeof(T) when the value does not fit below
    its end; operator[] outside the vector is undefined behaviour. Returns the
    old CSP. *)
Definition push_cs (t : ctype) (data : Z) : M vm Z :=
  let! c := get_reg CSP in
  let space_needed := Z.of_nat (sizeof t) in
  let! st := gets compute_stack in
  let st' := if u64 (c + space_needed) >=? Z.of_nat (length st)
             then st ++ replicate (sizeof t) 0 else st in
  let! st'' := of_option (slice_set st' c (encode t data)) in
  do! modify (set_compute_stack st'') in
  do! set_reg CSP (s64 (c + space_needed)) in
  ret c.

Definition pop_empty_msg : string :=
  "Invalid operation performed: Pop applied to empty computation stack.".

(** [pop_cs<T>]: an exception on an empty stack; when fewer than sizeof(T) bytes are
    left, [start] wraps and the element access is undefined behaviour. *)
Definition pop_cs (t : ctype) : M vm Z :=
  let! c := get_reg CSP in
  if c <=? 0 then throw (RuntimeError pop_empty_msg)
  else
    let start := c - Z.of_nat (sizeof t) in
    let! st := gets compute_stack in
    let! bs := of_option (slice_get st start (sizeof t)) in
    do! set_reg CSP start in
    ret (decode t bs).

(** [top<T>(i)]: read below the [i] topmost bytes, nothing is popped. *)
Definition top (t : ctype) (i : Z) : M vm Z :=
  let! c := get_reg CSP in
  let start := c - i - Z.of_nat (sizeof t) in
  let! st := gets compute_stack in
  let! bs := of_option (slice_get st start (sizeof t)) in
  ret (decode t bs).

(** ** The data stack, growing down from mem.end *)

Definition push_data_stack (t : ctype) (data : Z) : M vm Z :=
  let! p := get_reg SP in
  let p' := s64 (p - Z.of_nat (sizeof t)) in
  do! set_reg SP p' in
  do! mem_wr t p' data in
  ret p.

Definition pop_data_stack (t : ctype) : M vm Z :=
  let! p := get_reg SP in
  let! r := mem_rd t p in
  do! set_reg SP (s64 (p + Z.of_nat (sizeof t))) in
  ret r.

(** ** Static data *)

Section alloc.
Context `{Target}.

(** [reserve(n)]: [Some] offset of the reserved bytes. When the block is too small a
    larger one replaces it; [heap] keeps its offset. *)
Definition reserve (n : nat) : M vm Z :=
  let! v := get in
  let t := heap v in
  if u64 (mem_size v - heap v) >? Z.of_nat n
  then do! modify (set_heap (heap v + Z.of_nat n)) in ret t
  else
    let new_size := (length (mem v) + n)%nat in
    do! modify (set_mem (mem v ++ alloc_junk n)) in
    do! modify (set_mem_base (alloc_base new_size)) in
    ret t.

(** [store(string)] *)
Definition store_string (data : list Z) : M vm Z :=
  match data with
  | [] => gets heap
  | _ =>
    let! t := reserve (length data) in
    do! mem_wr_bytes t data in
    ret t
  end.
End alloc.

(** [store<T>(data)]: placement new at mem.heap, no space check. *)
Definition store (t : ctype) (data : Z) : M vm Z :=
  let! h := gets heap in
  do! mem_wr t h data in
  do! modify (set_heap (h + Z.of_nat (sizeof t))) in
  ret h.

Definition read_store (t : ctype) (ofs : Z) : M vm Z := mem_rd t ofs.

(** ** Text: emitters and patching *)

Definition base_opcode_width : Z := 4.
Definition addr_width : Z := 8.     (* sizeof(addr_t), sizeof(size_t) *)

Definition emit0 (opcode pos : Z) : M vm Z :=
  do! text_wr U32 pos opcode in
  ret (pos + 4).

Definition emit_imm (opcode pos v : Z) : M vm Z :=
  do! text_wr U32 pos opcode in
  do! text_wr U64 (pos + 4) v in
  ret (pos + 4 + 8).

Definition emit_imm_imm (opcode pos v vv : Z) : M vm Z :=
  do! text_wr U32 pos opcode in
  do! text_wr U64 (pos + 4) v in
  do! text_wr U64 (pos + 4 + 8) vv in
  ret (pos + 4 + 8 + 8).

Definition emit_dbl (opcode pos v : Z) : M vm Z :=
  do! text_wr U32 pos opcode in
  do! text_wr F64 (pos + 4) v in
  ret (pos + 4 + 8).

Definition emit_int (opcode pos v : Z) : M vm Z :=
  do! text_wr U32 pos opcode in
  do! text_wr I32 (pos + 4) v in
  ret (pos + 4 + 4).

Definition emit_reg (opcode pos reg reg_ofs : Z) : M vm Z :=
  do! text_wr U32 pos opcode in
  do! text_wr I64 (pos + 4) reg_ofs in
  do! text_wr U32 (pos + 4 + 8) reg in
  ret (pos + 4 + 4 + 8).

Definition patch (t : ctype) (ofs z : Z) : M vm unit := text_wr t ofs z.

(** [resize_text]: a block filled with halt, then the old contents. *)
Definition resize_text (new_size : nat) : M vm unit :=
  let! t := gets text in
  modify (set_text (take (Nat.min (length t) new_size) t
                    ++ replicate (new_size - length t) 0)).

(** ** Construction, reset and copying *)

Definition empty_vm (junk : list Z) (base : Z) : vm :=
  mkVM (replicate number_of_registers 0) (replicate default_mem_size 0) base 0 []
       junk 4 0 [] ∅ false [] (mkConsole [] false).

(** The constructor; [junk] is the uninitialised text block of
    default_text_size + 100 bytes. *)
Definition VMEnv_init (junk : list Z) (base : Z) : outcome vm unit :=
  (do! emit0 0 0 in
   do! set_reg SP (Z.of_nat default_mem_size) in
   do! set_reg CSP 0 in
   do! set_reg FP 0 in
   set_reg PC 0) (empty_vm junk base).

Definition reset : M vm unit := set_reg SP 0.

(** [copy_stack(from, to)] as a step of [to]. *)
Definition copy_stack (from : vm) : M vm bool :=
  let! from_sp := of_option (zlookup (file from) SP) in
  let from_stack_size := mem_size from - from_sp in
  let! to := get in
  if mem_size to <? from_stack_size then ret false
  else
    let! bs := of_option (if from_stack_size <? 0 then None
                          else slice_get (mem from) from_sp (Z.to_nat from_stack_size)) in
    do! mem_wr_bytes (mem_size to - from_stack_size) bs in
    do! set_reg SP (mem_size to - from_stack_size) in
    ret true.

Definition copy_data (from : vm) : M vm bool :=
  let from_data_size := heap from in
  let! to := get in
  if mem_size to <? from_data_size then ret false
  else
    let! bs := of_option (if from_data_size <? 0 then None
                          else slice_get (mem from) 0 (Z.to_nat from_data_size)) in
    do! mem_wr_bytes 0 bs in
    do! modify (set_heap from_data_size) in
    do! modify (set_data_labels (data_labels from)) in
    ret true.

Definition copy_compute_stack (from : vm) : M vm bool :=
  let! c := of_option (zlookup (file from) CSP) in
  do! set_reg CSP c in
  do! modify (set_compute_stack (compute_stack from)) in
  ret true.

(** A platform to evaluate the model on: gcc's left-to-right order, quiet NaN, no
    libm, a native function that does nothing. *)
Definition test_platform : Target.
Proof.
  refine {| lhs_first := true; nan_bits := 0x7FF8000000000000;
     libm_sin := id; libm_cos := id; libm_tan := id; libm_atan := id; libm_exp := id;
     libm_tanh := id; fmt_double := pretty; to_string_double := pretty;
     native_call := fun _ _ _ _ m => m;
     alloc_junk := fun n => replicate n 205; alloc_base := fun n => 4096 |}.
  - done.
  - done.
  - intros n. by rewrite length_replicate.
  - intros n. by apply Forall_replicate.
Defined.
