(* ===== verification/Protobufish.v ===== *)
(** * Protobufish messages: the wire format of event payloads

    core/include/vm/vm_base.hpp (the packed msg_node structs), the serialiser of
    core/src/vm/vm_ceps_core_helper.cpp and the reader deserialize_event_payload of
    core/src/vm/oblectamenta-assembler.cpp, which turns a message into JSON text.
    A message node is a packed header (4 bytes kind, 8 bytes size) followed by its
    content; a NODE has its NUL-terminated name first. *)

From S2P Require Import Prelude MachineInt VMEnv.

(** ** msg_node *)

Definition ROOT : Z := 1.
Definition NODE : Z := 2.
Definition INT32 : Z := 3.
Definition INT64 : Z := 4.
Definition UINT32 : Z := 5.
Definition UINT64 : Z := 6.
Definition SZ : Z := 7.
Definition PF64 : Z := 8.
Definition ARRAY : Z := 9.
Definition SCOPE : Z := 10.
Definition BOOLEAN : Z := 11.
Definition NIL : Z := 12.

Definition sizeof_msg_node : Z := 12.
Definition sizeof_msg_node_int32 : Z := 16.
Definition sizeof_msg_node_int64 : Z := 20.
Definition sizeof_msg_node_f64 : Z := 20.
Definition MAX_NAME : Z := 1024.

(** Reading a field of a message that lies somewhere in the bytes [buf]. *)
Definition rd {S} (t : ctype) (buf : list Z) (a : Z) : M S Z :=
  let! bs := of_option (slice_get buf a (sizeof t)) in
  ret (decode t bs).

Definition rd_what {S} (buf : list Z) (a : Z) : M S Z := rd U32 buf a.
Definition rd_size {S} (buf : list Z) (a : Z) : M S Z := rd U64 buf (a + 4).

(** A C string at [a]. *)
Definition rd_sz {S} (buf : list Z) (a : Z) : M S string :=
  let! bs := of_option (c_string buf a) in
  ret (string_of_bytes bs).

(** ** escape_str *)

Definition isprint (b : Z) : bool := (32 <=? b) && (b <=? 126).

Definition dquote : string := String (char_of 34) EmptyString.
Definition backslash : string := String (char_of 92) EmptyString.

Definition escape_char (c : Ascii.ascii) : string :=
  let b := byte_of c in
  if b =? 10 then backslash +:+ "n"
  else if b =? 92 then backslash +:+ backslash
  else if b =? 9 then backslash +:+ "t"
  else if b =? 13 then backslash +:+ "r"
  else if b =? 34 then backslash +:+ dquote
  else if isprint b then String c EmptyString
  else EmptyString.

Fixpoint escape_str (s : string) : string :=
  match s with
  | EmptyString => EmptyString
  | String c s' => escape_char c +:+ escape_str s'
  end.

(** ** find_trailing_zero: the number of bytes before a NUL, at most [size] *)

Fixpoint find_trailing_zero (buffer : list Z) (size : Z) : option Z :=
  if size <=? 0 then Some 0
  else match buffer with
       | b :: buffer' =>
         if b =? 0 then Some 0
         else (fun r => r + 1) <$> find_trailing_zero buffer' (size - 1)
       | [] => None
       end.

Definition find_trailing_zero_at {S} (buf : list Z) (a size : Z) : M S Z :=
  if (0 <=? a) && (a <=? Z.of_nat (length buf))
  then of_option (find_trailing_zero (drop (Z.to_nat a) buf) size)
  else undef.

(** ** deserialize_event_payload

    [deserialize fuel buf a size]: the node at offset [a] of the bytes [buf], with
    [size] bytes allotted to it. Returns the number of bytes consumed and the JSON
    text. The sizes found in the message are not checked against [size], so an
    access outside [buf] is possible (undefined), and a content loop whose next
    node consumes nothing does not end (out of fuel). *)

Section reader.
Context `{Target} {St : Type}.

(** The loop over the content bytes of a ROOT or NODE: state is the number of
    consumed bytes, the text and whether a NODE was seen. *)
Definition content_loop (deser : Z -> Z -> M St (Z * string)) (buf : list Z)
    (content content_size : Z) :=
  fix loop (fuel : nat) (consumed : Z) (inner : string) (contains_nodes : bool) {struct fuel}
      : M St (string * bool) :=
  if consumed <? content_size then
    match fuel with
    | O => out_of_fuel
    | S fuel' =>
      let! n_what := rd_what buf (content + consumed) in
      let! '(r, t) := deser (content + consumed) (content_size - consumed) in
      let consumed' := u64 (consumed + r) in
      let inner' := inner +:+ t in
      loop fuel' consumed'
        (if consumed' <? content_size then inner' +:+ "," else inner')
        (contains_nodes || (n_what =? NODE))
    end
  else ret (inner, contains_nodes).

Fixpoint deserialize_event_payload (fuel : nat) (buf : list Z) (a size : Z)
    : M St (Z * string) :=
  match fuel with
  | O => out_of_fuel
  | S fuel' =>
    if size =? 0 then ret (0, EmptyString)
    else if size <? sizeof_msg_node then ret (0, EmptyString)
    else
      let! what := rd_what buf a in
      let! len_extra_info :=
        if what =? NODE
        then let! t := find_trailing_zero_at buf (a + sizeof_msg_node) (size - sizeof_msg_node) in
             ret (t + 1)
        else ret 0 in
      let hd_size := sizeof_msg_node + len_extra_info in
      let! root_size := rd_size buf a in
      if root_size <? hd_size then ret (0, EmptyString)
      else
        let content_size := root_size - hd_size in
        if (what =? ROOT) || (what =? NODE) then
          let! '(prefix, suffix) :=
            if what =? NODE
            then let! name := rd_sz buf (a + sizeof_msg_node) in
                 ret (dquote +:+ name +:+ dquote +:+ ":", EmptyString)
            else ret ("{", "}") in
          let! '(inner, contains_nodes) :=
            content_loop (deserialize_event_payload fuel' buf) buf (a + hd_size) content_size
              fuel' 0 EmptyString false in
          let inner' :=
            if what =? NODE then
              if String.eqb inner EmptyString then "{}"
              else if contains_nodes then "{" +:+ inner +:+ "}" else inner
            else inner in
          ret (hd_size + content_size, prefix +:+ inner' +:+ suffix)
        else if what =? INT32 then
          let! v := rd I32 buf (a + sizeof_msg_node) in
          ret (sizeof_msg_node_int32, pretty v)
        else if what =? INT64 then
          let! v := rd I64 buf (a + sizeof_msg_node) in
          ret (sizeof_msg_node_int64, pretty v)
        else if what =? PF64 then
          let! v := rd F64 buf (a + sizeof_msg_node) in
          ret (sizeof_msg_node_f64, fmt_double v)
        else if what =? SZ then
          let! v := rd_sz buf (a + sizeof_msg_node) in
          let res := dquote +:+ escape_str v +:+ dquote in
          ret (sizeof_msg_node + Z.of_nat (String.length res) + 1, res)
        else ret (hd_size + content_size, EmptyString)
  end.
End reader.

(** ** The serialiser

    A message literal as the functions below inspect it: a ceps AST node is a
    struct definition, a symbol with a kind and arguments, an int or string
    literal, or something else. *)

#[warnings="-register-all"]
Inductive node :=
| StructDef (name : string) (children : list node)
| SymbolWithArgs (sym_kind : string) (args : list node)
| IntLiteral (value : Z)
| StringLiteral (value : string)
| OtherNode.

(** [strncpy(dst, s.c_str(), s.size() + 1)]: the bytes it writes. *)
Fixpoint before_nul (bs : list Z) : list Z :=
  match bs with
  | [] => []
  | b :: bs' => if b =? 0 then [] else b :: before_nul bs'
  end.

Definition strncpy_bytes (s : string) : list Z :=
  let bs := before_nul (bytes_of_string s) in
  bs ++ replicate (S (String.length s) - length bs) 0.

Definition size_of (s : string) : Z := Z.of_nat (String.length s).

Definition buf_wr (a : Z) (bs : list Z) : M (list Z) unit :=
  let! b := get in
  let! b' := of_option (slice_set b a bs) in
  modify (fun _ => b').

(** Writes through a pointer that may be null are guarded in the code. *)
Definition when_buffer (buffer : option Z) (k : Z -> M (list Z) unit) : M (list Z) unit :=
  match buffer with Some a => k a | None => ret tt end.

Definition no_room (buffer : option Z) (needed remaining : Z) : bool :=
  match buffer with Some _ => remaining <? needed | None => false end.

Definition serialize_int32 (value : Z) (buffer : option Z) (remaining_bytes : Z) : M (list Z) Z :=
  if no_room buffer sizeof_msg_node_int32 remaining_bytes then ret 0
  else
    let written := sizeof_msg_node_int32 in
    do! when_buffer buffer (fun n =>
      do! buf_wr n (encode U32 INT32) in
      do! buf_wr (n + 4) (encode U64 written) in
      buf_wr (n + 12) (encode I32 value)) in
    ret written.

Definition serialize_sz (value : string) (buffer : option Z) (remaining_bytes : Z) : M (list Z) Z :=
  let written := sizeof_msg_node + 1 + size_of value in
  if no_room buffer written remaining_bytes then ret 0
  else
    do! when_buffer buffer (fun n =>
      do! buf_wr n (encode U32 SZ) in
      do! buf_wr (n + 4) (encode U64 written) in
      buf_wr (n + 12) (strncpy_bytes value)) in
    ret written.

Fixpoint dispatch_serialize_event_payload (msg : node) (buffer : option Z)
    (remaining_bytes : Z) : M (list Z) Z :=
  match msg with
  | StructDef the_name children =>
    let header := size_of the_name + 1 + sizeof_msg_node in
    if no_room buffer header remaining_bytes then ret 0
    else if match buffer with Some _ => MAX_NAME <? sizeof_msg_node + 1 | None => false end
    then ret 0
    else
      do! when_buffer buffer (fun n => buf_wr n (encode U32 NODE)) in
      do! when_buffer buffer (fun n => buf_wr (n + 12) (strncpy_bytes the_name)) in
      let! written :=
        (fix each (cs : list node) (written : Z) : M (list Z) (option Z) :=
           match cs with
           | [] => ret (Some written)
           | e :: cs' =>
             let! r := dispatch_serialize_event_payload e
                         ((fun n => n + written) <$> buffer)
                         (match buffer with
                          | Some _ => u64 (remaining_bytes - written) | None => 0 end) in
             let written' := written + r in
             if no_room buffer written' remaining_bytes then ret None
             else each cs' written'
           end) children header in
      match written with
      | None => ret 0
      | Some written =>
        do! when_buffer buffer (fun n => buf_wr (n + 4) (encode U64 written)) in
        ret written
      end
  | SymbolWithArgs sym_kind args =>
    if String.eqb sym_kind "OblectamentaMessageTagInt32" then
      match args with
      | IntLiteral v :: _ => serialize_int32 v buffer remaining_bytes
      | _ => ret 0
      end
    else if String.eqb sym_kind "OblectamentaMessageTagZeroTerminatedString" then
      match args with
      | StringLiteral v :: _ => serialize_sz v buffer remaining_bytes
      | _ => ret 0
      end
    else ret 0
  | IntLiteral v => serialize_int32 v buffer remaining_bytes
  | StringLiteral v => serialize_sz v buffer remaining_bytes
  | OtherNode => ret 0
  end.

Definition serialize_oblectamenta_msg (children : list node) (buffer : option Z)
    (remaining_bytes : Z) : M (list Z) Z :=
  if no_room buffer sizeof_msg_node remaining_bytes then ret 0
  else
    do! when_buffer buffer (fun n => buf_wr n (encode U32 ROOT)) in
    let! written := foldM children (fun written e =>
      let! r := dispatch_serialize_event_payload e
                  ((fun n => n + written) <$> buffer)
                  (match buffer with
                   | Some _ => u64 (remaining_bytes - written) | None => 0 end) in
      ret (written + r)) sizeof_msg_node in
    do! when_buffer buffer (fun n => buf_wr (n + 4) (encode U64 written)) in
    ret written.

(** ** More fuel does not change the reader's answer *)

Section fuel.
Context `{Target} {St : Type}.

Lemma content_loop_below (d d' : Z -> Z -> M St (Z * string)) buf content size :
  (forall a n, below (d a n) (d' a n)) ->
  forall fuel fuel', (fuel <= fuel')%nat -> forall consumed inner nodes,
  below (content_loop d buf content size fuel consumed inner nodes)
        (content_loop d' buf content size fuel' consumed inner nodes).
Proof.
  intros Hd. induction fuel as [|fuel IH]; intros fuel' Hle consumed inner nodes.
  - simpl. destruct fuel'; simpl; destruct (_ <? _); eauto with prog.
  - destruct fuel' as [|fuel']; [lia|]. simpl.
    destruct (_ <? _); [|apply below_refl].
    apply below_bind; [apply below_refl|]. intros n_what.
    apply below_bind; [apply Hd|]. intros [r t]. apply IH. lia.
Qed.

Lemma deserialize_below fuel : forall fuel', (fuel <= fuel')%nat -> forall buf a size,
  below (S := St) (deserialize_event_payload fuel buf a size)
        (deserialize_event_payload fuel' buf a size).
Proof.
  induction fuel as [|fuel IH]; intros fuel' Hle buf a size; [apply below_fuel|].
  destruct fuel' as [|fuel']; [lia|]. cbn [deserialize_event_payload].
  repeat first [ apply below_refl
               | apply below_bind; [apply below_refl|intros ?]
               | apply below_bind; [apply content_loop_below; [intros; apply IH|]; lia|intros [??]]
               | apply below_if
               | match goal with |- below (let '(_, _) := ?p in _) _ => destruct p end ].
Qed.
End fuel.
