(* ===== verification/VMOps.v ===== *)
(** * The instruction handlers of VMEnv

    core/src/vm/vm_base.cpp, one definition per handler (the C++ member functions
    [size_t VMEnv::<name>(size_t pos)]). A handler takes the text offset of the
    instruction and returns the offset of the next one; the text block is shorter
    than 2^63 bytes, so adding to [pos] does not wrap. The names are the source's
    (ret is [op_ret], since [ret] is the monad's unit). *)

From S2P Require Import Prelude MachineInt F64 VMEnv Protobufish.

(** ** Operands *)

(** The immediate that follows the opcode. *)
Definition imm (t : ctype) (pos : Z) : M vm Z := text_rd t (pos + base_opcode_width).

(** The second immediate (addr_t after an addr_t). *)
Definition imm2 (t : ctype) (pos : Z) : M vm Z :=
  text_rd t (pos + base_opcode_width + addr_width).

(** [reg_offs_t] then [reg_t]: offset and register of a register instruction. *)
Definition reg_operands (pos : Z) : M vm (Z * Z) :=
  let! reg_offs := text_rd I64 (pos + base_opcode_width) in
  let! reg := text_rd U32 (pos + base_opcode_width + 8) in
  ret (reg_offs, reg).

(** The static string at offset [a] of the data segment. *)
Definition mem_sz (a : Z) : M vm string := let! m := gets mem in rd_sz m a.

(** Two pops in one expression without a sequence point between them. *)
Definition pop2 `{Target} (t : ctype) : M vm (Z * Z) :=
  let! first := pop_cs t in
  let! second := pop_cs t in
  ret (if lhs_first then (first, second) else (second, first)).

Definition b2z (b : bool) : Z := if b then 1 else 0.

Definition next (pos : Z) : M vm Z := ret (base_opcode_width + pos).
Definition next_imm (pos : Z) : M vm Z := ret (base_opcode_width + addr_width + pos).
Definition next_imm_imm (pos : Z) : M vm Z :=
  ret (base_opcode_width + addr_width + addr_width + pos).
Definition next_reg (pos : Z) : M vm Z := ret (base_opcode_width + 8 + 4 + pos).

(** C++ integer division and shifts: undefined for a zero divisor, a quotient out of
    range and a count that is not smaller than the width. *)
Definition div_op {S} (t : ctype) (op : Z -> Z -> Z) (a b : Z) : M S Z :=
  if (b =? 0) || negb (in_range t (Z.quot a b)) then undef else ret (op a b).

Definition shift_op {S} (t : ctype) (op : Z -> Z -> Z) (a n : Z) : M S Z :=
  if n <? bits t then ret (to_u (bits t) (op a n)) else undef.

(** ** Output *)

Fixpoint spaces (n : nat) : string :=
  match n with O => EmptyString | S n' => String (char_of 32) (spaces n') end.

(** One formatted output with [width(w)]. *)
Definition padded (left : bool) (w : nat) (s : string) : string :=
  let fill := spaces (w - String.length s) in
  if left then s +:+ fill else fill +:+ s.

Definition nl : string := String (char_of 10) EmptyString.

Definition print (s : string) : M vm unit :=
  let! c := gets cons_out in
  modify (set_console (mkConsole (out c ++ [s]) (left_adjust c))).

(** Output with a field width. *)
Definition print_w (w : nat) (s : string) : M vm unit :=
  let! c := gets cons_out in
  modify (set_console (mkConsole (out c ++ [padded (left_adjust c) w s]) (left_adjust c))).

Definition set_left : M vm unit :=
  let! c := gets cons_out in
  modify (set_console (mkConsole (out c) true)).

(** [operator<<(ostream&, registers_t)] *)
Definition print_registers : M vm unit :=
  let w := 4%nat in                              (* the longest mnemonic, ARG0 *)
  forM (zrange 0 27) (fun i =>
    let '(name, r) :=
      match List.find (fun rr => snd rr =? i) reg_mnemonic2idx with
      | Some rr => rr
      | None => ("gaga", 0)
      end in
    do! print_w w name in
    do! print ": " in
    do! print " " in
    let! x := get_reg r in
    do! print (pretty x) in
    if i + 1 <? 27 then print " | " else ret tt).

(** [print_cs_and_regsimm(VMEnv&)] *)
Definition print_cs_and_regsimm : M vm unit :=
  do! print (nl +:+ "Registers: ") in
  do! print_registers in
  do! print nl in
  let! csp := get_reg CSP in
  let! st := gets compute_stack in
  if csp =? 0 then print (nl +:+ "Compute Stack is empty" +:+ nl +:+ nl)
  else
    do! print (nl +:+ "Compute Stack:" +:+ nl +:+ nl) in
    do! (if csp >=? 4 then
           let! bs := of_option (slice_get st (csp - 4) 4) in
           print (" Top Element (int32, uint32): " +:+ pretty (decode I32 bs)
                  +:+ "   " +:+ pretty (decode U32 bs) +:+ nl)
         else ret tt) in
    do! (if csp >=? 8 then
           let! bs := of_option (slice_get st (csp - 8) 8) in
           print (" Top Element (int64, uint64): " +:+ pretty (decode I64 bs)
                  +:+ "   " +:+ pretty (decode U64 bs) +:+ nl)
         else ret tt) in
    do! print (nl +:+ " Bytes:" +:+ nl) in
    (* the loop index is unsigned: a negative CSP runs past the vector *)
    do! (if csp <? 0 then undef else ret tt) in
    do! forM (zrange 0 csp) (fun i =>
      let! v := of_option (zlookup st i) in
      do! print_w 4 (pretty v) in
      do! print " " in
      if i + 1 >=? csp then
        let missing := (8 - (i + 1) mod 8) mod 8 in
        do! forM (zrange 0 missing) (fun _ => print "     ") in
        do! print "    " in
        print ("<== Top" +:+ nl)
      else if (i + 1) mod 8 =? 0 then print nl
      else ret tt) in
    print nl.

Definition printable (b : Z) : string :=
  if isprint b then String (char_of b) " " else ". ".


(** ** Arithmetic on the compute stack *)

Definition noop (pos : Z) : M vm Z :=
  next pos.

Definition addi32 `{Target} (pos : Z) : M vm Z :=
  let! '(a, b) := pop2 I32 in
  let! r := checked I32 (a + b) in
  do! push_cs I32 r in
  next pos.

Definition addi64 `{Target} (pos : Z) : M vm Z :=
  let! '(a, b) := pop2 I64 in
  let! r := checked I64 (a + b) in
  do! push_cs I64 r in
  next pos.

Definition adddbl `{Target} (pos : Z) : M vm Z :=
  let! '(a, b) := pop2 F64 in
  let r := f64_add nan_bits a b in
  do! push_cs F64 r in
  next pos.

Definition subi32 (pos : Z) : M vm Z :=
  let! a := pop_cs I32 in
  let! b := pop_cs I32 in
  let! r := checked I32 (a - b) in
  do! push_cs I32 r in
  next pos.

Definition subi64 (pos : Z) : M vm Z :=
  let! a := pop_cs I64 in
  let! b := pop_cs I64 in
  let! r := checked I64 (a - b) in
  do! push_cs I64 r in
  next pos.

Definition subdbl `{Target} (pos : Z) : M vm Z :=
  let! a := pop_cs F64 in
  let! b := pop_cs F64 in
  let r := f64_sub nan_bits a b in
  do! push_cs F64 r in
  next pos.

Definition andni32 `{Target} (pos : Z) : M vm Z :=
  let! '(a, b) := pop2 U32 in
  let r := Z.land a (to_u 32 (Z.lnot b)) in
  do! push_cs U32 r in
  next pos.

Definition andi32 `{Target} (pos : Z) : M vm Z :=
  let! '(a, b) := pop2 U32 in
  let r := Z.land a b in
  do! push_cs U32 r in
  next pos.

Definition ori32 `{Target} (pos : Z) : M vm Z :=
  let! '(a, b) := pop2 U32 in
  let r := Z.lor a b in
  do! push_cs U32 r in
  next pos.

Definition xori32 `{Target} (pos : Z) : M vm Z :=
  let! '(a, b) := pop2 U32 in
  let r := Z.lxor a b in
  do! push_cs U32 r in
  next pos.

Definition noti32 (pos : Z) : M vm Z :=
  let! a := pop_cs U32 in
  do! push_cs U32 (if a =? 0 then 1 else 0) in
  next pos.

Definition andni64 `{Target} (pos : Z) : M vm Z :=
  let! '(a, b) := pop2 U64 in
  let r := Z.land a (to_u 64 (Z.lnot b)) in
  do! push_cs U64 r in
  next pos.

Definition andi64 `{Target} (pos : Z) : M vm Z :=
  let! '(a, b) := pop2 U64 in
  let r := Z.land a b in
  do! push_cs U64 r in
  next pos.

Definition ori64 `{Target} (pos : Z) : M vm Z :=
  let! '(a, b) := pop2 U64 in
  let r := Z.lor a b in
  do! push_cs U64 r in
  next pos.

Definition xori64 `{Target} (pos : Z) : M vm Z :=
  let! '(a, b) := pop2 U64 in
  let r := Z.lxor a b in
  do! push_cs U64 r in
  next pos.

Definition noti64 (pos : Z) : M vm Z :=
  let! a := pop_cs U64 in
  do! push_cs U64 (if a =? 0 then 1 else 0) in
  next pos.

Definition muli32 `{Target} (pos : Z) : M vm Z :=
  let! '(a, b) := pop2 I32 in
  let! r := checked I32 (a * b) in
  do! push_cs I32 r in
  next pos.

Definition muli64 `{Target} (pos : Z) : M vm Z :=
  let! '(a, b) := pop2 I64 in
  let! r := checked I64 (a * b) in
  do! push_cs I64 r in
  next pos.

Definition muldbl `{Target} (pos : Z) : M vm Z :=
  let! '(a, b) := pop2 F64 in
  let r := f64_mul nan_bits a b in
  do! push_cs F64 r in
  next pos.

Definition divi32 `{Target} (pos : Z) : M vm Z :=
  let! '(a, b) := pop2 I32 in
  let! r := div_op I32 Z.quot a b in
  do! push_cs I32 r in
  next pos.

Definition divi64 `{Target} (pos : Z) : M vm Z :=
  let! '(a, b) := pop2 I64 in
  let! r := div_op I64 Z.quot a b in
  do! push_cs I64 r in
  next pos.

Definition divdbl `{Target} (pos : Z) : M vm Z :=
  let! '(a, b) := pop2 F64 in
  let r := f64_div nan_bits a b in
  do! push_cs F64 r in
  next pos.

Definition remi32 `{Target} (pos : Z) : M vm Z :=
  let! '(a, b) := pop2 I32 in
  let! r := div_op I32 Z.rem a b in
  do! push_cs I32 r in
  next pos.

Definition remi64 `{Target} (pos : Z) : M vm Z :=
  let! '(a, b) := pop2 I64 in
  let! r := div_op I64 Z.rem a b in
  do! push_cs I64 r in
  next pos.

Definition shli64 (pos : Z) : M vm Z :=
  let! t2 := pop_cs U32 in
  let! t1 := pop_cs U64 in
  let! r := shift_op U64 Z.shiftl t1 t2 in
  do! push_cs U64 r in
  next pos.

Definition shri64 (pos : Z) : M vm Z :=
  let! t2 := pop_cs U32 in
  let! t1 := pop_cs U64 in
  let! r := shift_op U64 Z.shiftr t1 t2 in
  do! push_cs U64 r in
  next pos.

Definition shli32 (pos : Z) : M vm Z :=
  let! t2 := pop_cs U32 in
  let! t1 := pop_cs U32 in
  let! r := shift_op U32 Z.shiftl t1 t2 in
  do! push_cs U32 r in
  next pos.

Definition shri32 (pos : Z) : M vm Z :=
  let! t2 := pop_cs U32 in
  let! t1 := pop_cs U32 in
  let! r := shift_op U32 Z.shiftr t1 t2 in
  do! push_cs U32 r in
  next pos.

Definition sindbl `{Target} (pos : Z) : M vm Z :=
  let! a := pop_cs F64 in
  do! push_cs F64 (libm_sin a) in
  next pos.

Definition cosdbl `{Target} (pos : Z) : M vm Z :=
  let! a := pop_cs F64 in
  do! push_cs F64 (libm_cos a) in
  next pos.

Definition tandbl `{Target} (pos : Z) : M vm Z :=
  let! a := pop_cs F64 in
  do! push_cs F64 (libm_tan a) in
  next pos.

Definition atandbl `{Target} (pos : Z) : M vm Z :=
  let! a := pop_cs F64 in
  do! push_cs F64 (libm_atan a) in
  next pos.

Definition expdbl `{Target} (pos : Z) : M vm Z :=
  let! a := pop_cs F64 in
  do! push_cs F64 (libm_exp a) in
  next pos.

Definition tanhdbl `{Target} (pos : Z) : M vm Z :=
  let! a := pop_cs F64 in
  do! push_cs F64 (libm_tanh a) in
  next pos.

Definition negdbl `{Target} (pos : Z) : M vm Z :=
  let! a := pop_cs F64 in
  do! push_cs F64 (f64_mul nan_bits f64_minus_one a) in
  next pos.

Definition negi32 (pos : Z) : M vm Z :=
  let! a := pop_cs I32 in
  let! r := checked I32 (-1 * a) in
  do! push_cs I32 r in
  next pos.

Definition negi64 (pos : Z) : M vm Z :=
  let! a := pop_cs I64 in
  let! r := checked I64 (-1 * a) in
  do! push_cs I64 r in
  next pos.

(** ** Relational operators *)

Definition lti32 (pos : Z) : M vm Z :=
  let! a := pop_cs I32 in
  let! b := pop_cs I32 in
  let r := b2z (a <? b) in
  do! push_cs I32 r in
  next pos.

Definition lti64 (pos : Z) : M vm Z :=
  let! a := pop_cs I64 in
  let! b := pop_cs I64 in
  let r := b2z (a <? b) in
  do! push_cs I32 r in
  next pos.

Definition ltdbl (pos : Z) : M vm Z :=
  let! a := pop_cs F64 in
  let! b := pop_cs F64 in
  let r := b2z (f64_lt a b) in
  do! push_cs I32 r in
  next pos.

Definition lteqi32 (pos : Z) : M vm Z :=
  let! a := pop_cs I32 in
  let! b := pop_cs I32 in
  let r := b2z (a <=? b) in
  do! push_cs I32 r in
  next pos.

Definition lteqi64 (pos : Z) : M vm Z :=
  let! a := pop_cs I64 in
  let! b := pop_cs I64 in
  let r := b2z (a <=? b) in
  do! push_cs I32 r in
  next pos.

Definition lteqdbl (pos : Z) : M vm Z :=
  let! a := pop_cs F64 in
  let! b := pop_cs F64 in
  let r := b2z (f64_le a b) in
  do! push_cs I32 r in
  next pos.

Definition gti32 (pos : Z) : M vm Z :=
  let! a := pop_cs I32 in
  let! b := pop_cs I32 in
  let r := b2z (a >? b) in
  do! push_cs I32 r in
  next pos.

Definition gti64 (pos : Z) : M vm Z :=
  let! a := pop_cs I64 in
  let! b := pop_cs I64 in
  let r := b2z (a >? b) in
  do! push_cs I32 r in
  next pos.

Definition gtdbl (pos : Z) : M vm Z :=
  let! a := pop_cs F64 in
  let! b := pop_cs F64 in
  let r := b2z (f64_gt a b) in
  do! push_cs I32 r in
  next pos.

Definition gteqi32 (pos : Z) : M vm Z :=
  let! a := pop_cs I32 in
  let! b := pop_cs I32 in
  let r := b2z (a >=? b) in
  do! push_cs I32 r in
  next pos.

Definition gteqi64 (pos : Z) : M vm Z :=
  let! a := pop_cs I64 in
  let! b := pop_cs I64 in
  let r := b2z (a >=? b) in
  do! push_cs I32 r in
  next pos.

Definition gteqdbl (pos : Z) : M vm Z :=
  let! a := pop_cs F64 in
  let! b := pop_cs F64 in
  let r := b2z (f64_gt a b) in
  do! push_cs I32 r in
  next pos.

Definition eqi32 (pos : Z) : M vm Z :=
  let! a := pop_cs I32 in
  let! b := pop_cs I32 in
  let r := b2z (a =? b) in
  do! push_cs I32 r in
  next pos.

Definition eqi64 (pos : Z) : M vm Z :=
  let! a := pop_cs I64 in
  let! b := pop_cs I64 in
  let r := b2z (a =? b) in
  do! push_cs I32 r in
  next pos.

Definition eqdbl (pos : Z) : M vm Z :=
  let! a := pop_cs F64 in
  let! b := pop_cs F64 in
  let r := b2z (f64_eq a b) in
  do! push_cs I32 r in
  next pos.

(** ** Reordering the top of the compute stack *)

Definition duptopi32 (pos : Z) : M vm Z :=
  let! t := pop_cs I32 in
  do! push_cs I32 t in
  do! push_cs I32 t in
  next pos.

Definition duptopi64 (pos : Z) : M vm Z :=
  let! t := pop_cs I64 in
  do! push_cs I64 t in
  do! push_cs I64 t in
  next pos.

Definition duptopi128 (pos : Z) : M vm Z :=
  let! t := pop_cs I64 in
  let! t2 := pop_cs I64 in
  do! push_cs I64 t2 in
  do! push_cs I64 t in
  do! push_cs I64 t2 in
  do! push_cs I64 t in
  next pos.

Definition duptopi192 (pos : Z) : M vm Z :=
  let! t := pop_cs I64 in
  let! t2 := pop_cs I64 in
  let! t3 := pop_cs I64 in
  do! push_cs I64 t3 in
  do! push_cs I64 t2 in
  do! push_cs I64 t in
  do! push_cs I64 t3 in
  do! push_cs I64 t2 in
  do! push_cs I64 t in
  next pos.

Definition duptopi8 (pos : Z) : M vm Z :=
  let! t := pop_cs I8 in
  do! push_cs I8 t in
  do! push_cs I8 t in
  next pos.

Definition swp (pos : Z) : M vm Z :=
  let! t1 := pop_cs I32 in
  let! t2 := pop_cs I32 in
  do! push_cs I32 t1 in
  do! push_cs I32 t2 in
  next pos.

Definition swpi64 (pos : Z) : M vm Z :=
  let! t1 := pop_cs I64 in
  let! t2 := pop_cs I64 in
  do! push_cs I64 t1 in
  do! push_cs I64 t2 in
  next pos.

Definition swpi16i64 (pos : Z) : M vm Z :=
  let! t1 := pop_cs I16 in
  let! t2 := pop_cs I64 in
  do! push_cs I16 t1 in
  do! push_cs I64 t2 in
  next pos.

Definition swpi8i64 (pos : Z) : M vm Z :=
  let! t1 := pop_cs I8 in
  let! t2 := pop_cs I64 in
  do! push_cs I8 t1 in
  do! push_cs I64 t2 in
  next pos.

Definition swpi8i128 (pos : Z) : M vm Z :=
  let! t1 := pop_cs I8 in
  let! t2 := pop_cs I64 in
  let! t3 := pop_cs I64 in
  do! push_cs I8 t1 in
  do! push_cs I64 t3 in
  do! push_cs I64 t2 in
  next pos.

Definition swpi16i128 (pos : Z) : M vm Z :=
  let! t1 := pop_cs I16 in
  let! t2 := pop_cs I64 in
  let! t3 := pop_cs I64 in
  do! push_cs I16 t1 in
  do! push_cs I64 t3 in
  do! push_cs I64 t2 in
  next pos.

Definition swpi32i64 (pos : Z) : M vm Z :=
  let! t1 := pop_cs I32 in
  let! t2 := pop_cs I64 in
  do! push_cs I32 t1 in
  do! push_cs I64 t2 in
  next pos.

Definition swp128i64 (pos : Z) : M vm Z :=
  let! t1 := pop_cs I64 in
  let! t2 := pop_cs I64 in
  let! t3 := pop_cs I64 in
  do! push_cs I64 t2 in
  do! push_cs I64 t1 in
  do! push_cs I64 t3 in
  next pos.

Definition swp192i64 (pos : Z) : M vm Z :=
  let! t1 := pop_cs I64 in
  let! t2 := pop_cs I64 in
  let! t3 := pop_cs I64 in
  let! t4 := pop_cs I64 in
  do! push_cs I64 t3 in
  do! push_cs I64 t2 in
  do! push_cs I64 t1 in
  do! push_cs I64 t4 in
  next pos.

Definition swp96i64 (pos : Z) : M vm Z :=
  let! t1 := pop_cs I64 in
  let! t2 := pop_cs I32 in
  let! t3 := pop_cs I64 in
  do! push_cs I32 t2 in
  do! push_cs I64 t1 in
  do! push_cs I64 t3 in
  next pos.

Definition swpi160i64 (pos : Z) : M vm Z :=
  let! t1 := pop_cs I64 in
  let! t2 := pop_cs I64 in
  let! t3 := pop_cs I32 in
  let! t4 := pop_cs I64 in
  do! push_cs I32 t3 in
  do! push_cs I64 t2 in
  do! push_cs I64 t1 in
  do! push_cs I64 t4 in
  next pos.

Definition swpi192i32 (pos : Z) : M vm Z :=
  let! t1 := pop_cs I64 in
  let! t2 := pop_cs I64 in
  let! t3 := pop_cs I64 in
  let! t4 := pop_cs I32 in
  do! push_cs I64 t3 in
  do! push_cs I64 t2 in
  do! push_cs I64 t1 in
  do! push_cs I32 t4 in
  next pos.

Definition swpi64b128 (pos : Z) : M vm Z :=
  let! t1 := pop_cs I64 in
  let! t2 := pop_cs I64 in
  let! t3 := pop_cs I64 in
  do! push_cs I64 t1 in
  do! push_cs I64 t3 in
  do! push_cs I64 t2 in
  next pos.

Definition swp80i64 (pos : Z) : M vm Z :=
  let! t1 := pop_cs I64 in
  let! t2 := pop_cs I16 in
  let! t3 := pop_cs I64 in
  do! push_cs I16 t2 in
  do! push_cs I64 t1 in
  do! push_cs I64 t3 in
  next pos.

Definition swp72i64 (pos : Z) : M vm Z :=
  let! t1 := pop_cs I64 in
  let! t2 := pop_cs I8 in
  let! t3 := pop_cs I64 in
  do! push_cs I8 t2 in
  do! push_cs I64 t1 in
  do! push_cs I64 t3 in
  next pos.

Definition swpi64b72 (pos : Z) : M vm Z :=
  let! t1 := pop_cs I64 in
  let! t2 := pop_cs I64 in
  let! t3 := pop_cs I8 in
  do! push_cs I64 t1 in
  do! push_cs I8 t3 in
  do! push_cs I64 t2 in
  next pos.

Definition swp128b8 (pos : Z) : M vm Z :=
  let! t1 := pop_cs I64 in
  let! t2 := pop_cs I64 in
  let! t3 := pop_cs I8 in
  do! push_cs I64 t2 in
  do! push_cs I64 t1 in
  do! push_cs I8 t3 in
  next pos.

Definition swpi64i192 (pos : Z) : M vm Z :=
  let! t1 := pop_cs I64 in
  let! t2 := pop_cs I64 in
  let! t3 := pop_cs I64 in
  let! t4 := pop_cs I64 in
  do! push_cs I64 t1 in
  do! push_cs I64 t4 in
  do! push_cs I64 t3 in
  do! push_cs I64 t2 in
  next pos.

Definition discardtopi32 (pos : Z) : M vm Z :=
  let! t := pop_cs I32 in
  next pos.

Definition discardtopi64 (pos : Z) : M vm Z :=
  let! t := pop_cs I64 in
  next pos.

Definition ui32toui64 (pos : Z) : M vm Z :=
  let! v := pop_cs U32 in
  do! push_cs U64 v in
  next pos.

Definition ui8toui32 (pos : Z) : M vm Z :=
  let! v := pop_cs U8 in
  do! push_cs U32 v in
  next pos.

Definition ui8toui64 (pos : Z) : M vm Z :=
  let! v := pop_cs U8 in
  do! push_cs U64 v in
  next pos.

(** ** Loads, stores and addresses *)

Definition ldi32 (pos : Z) : M vm Z :=
  let! addr := imm U64 pos in
  let! x := mem_rd I32 addr in
  do! push_cs I32 x in
  next_imm pos.

Definition ldi64 (pos : Z) : M vm Z :=
  let! addr := imm U64 pos in
  let! x := mem_rd I64 addr in
  do! push_cs I64 x in
  next_imm pos.

Definition lddbl (pos : Z) : M vm Z :=
  let! addr := imm U64 pos in
  let! x := mem_rd F64 addr in
  do! push_cs F64 x in
  next_imm pos.

Definition ldi8 (pos : Z) : M vm Z :=
  let! addr := imm U64 pos in
  let! x := mem_rd I8 addr in
  do! push_cs I8 x in
  next_imm pos.

Definition ldi32imm (pos : Z) : M vm Z :=
  let! x := imm I32 pos in
  do! push_cs I32 x in
  next_imm pos.

Definition ldi64imm (pos : Z) : M vm Z :=
  let! x := imm I64 pos in
  do! push_cs I64 x in
  next_imm pos.

Definition lddblimm (pos : Z) : M vm Z :=
  let! x := imm F64 pos in
  do! push_cs F64 x in
  ret (base_opcode_width + 8 + pos).

Definition ldsi32 (pos : Z) : M vm Z :=
  let! addr := pop_cs U64 in
  let! x := mem_rd I32 addr in
  do! push_cs I32 x in
  next pos.

Definition ldsi64 (pos : Z) : M vm Z :=
  let! addr := pop_cs U64 in
  let! x := mem_rd I64 addr in
  do! push_cs I64 x in
  next pos.

Definition ldsdbl (pos : Z) : M vm Z :=
  let! addr := pop_cs U64 in
  let! x := mem_rd F64 addr in
  do! push_cs F64 x in
  next pos.

Definition ldsi8 (pos : Z) : M vm Z :=
  let! addr := pop_cs U64 in
  let! x := mem_rd I8 addr in
  do! push_cs I8 x in
  next pos.

Definition sti32 (pos : Z) : M vm Z :=
  let! t := pop_cs I32 in
  let! addr := imm U64 pos in
  do! mem_wr I32 addr t in
  next_imm pos.

Definition sti64 (pos : Z) : M vm Z :=
  let! t := pop_cs I64 in
  let! addr := imm U64 pos in
  do! mem_wr I64 addr t in
  next_imm pos.

Definition stdbl (pos : Z) : M vm Z :=
  let! t := pop_cs F64 in
  let! addr := imm U64 pos in
  do! mem_wr F64 addr t in
  next_imm pos.

Definition sti8 (pos : Z) : M vm Z :=
  let! t := pop_cs I8 in
  let! addr := imm U64 pos in
  do! mem_wr I8 addr t in
  next_imm pos.

Definition stsi32 (pos : Z) : M vm Z :=
  let! addr := pop_cs U64 in
  let! value := pop_cs I32 in
  do! mem_wr I32 addr value in
  next pos.

Definition stsi64 (pos : Z) : M vm Z :=
  let! addr := pop_cs U64 in
  let! value := pop_cs I64 in
  do! mem_wr I64 addr value in
  next pos.

Definition stsdbl (pos : Z) : M vm Z :=
  let! addr := pop_cs U64 in
  let! value := pop_cs F64 in
  do! mem_wr F64 addr value in
  next pos.

Definition stsi8 (pos : Z) : M vm Z :=
  let! addr := pop_cs U64 in
  let! value := pop_cs I8 in
  do! mem_wr I8 addr value in
  next pos.

Definition ldi64reg (pos : Z) : M vm Z :=
  let! '(reg_offs, reg) := reg_operands pos in
  let! x := get_reg reg in
  let! y := checked I64 (x + reg_offs) in
  do! push_cs I64 y in
  next_reg pos.

Definition ldi32reg (pos : Z) : M vm Z :=
  let! '(reg_offs, reg) := reg_operands pos in
  let! x := get_reg reg in
  let! y := checked I64 (x + reg_offs) in
  do! push_cs I32 (to_s 32 y) in
  next_reg pos.

Definition sti64reg (pos : Z) : M vm Z :=
  let! '(reg_offs, reg) := reg_operands pos in
  let! t := pop_cs I64 in
  let! y := checked I64 (t + reg_offs) in
  do! set_reg reg y in
  next_reg pos.

Definition sti32reg (pos : Z) : M vm Z :=
  let! '(reg_offs, reg) := reg_operands pos in
  let! t := pop_cs I32 in
  let! y := checked I64 (t + reg_offs) in
  do! set_reg reg y in
  next_reg pos.

Definition sti8reg (pos : Z) : M vm Z :=
  let! '(reg_offs, reg) := reg_operands pos in
  let! t := pop_cs U8 in
  do! set_reg reg (to_s 64 (to_u 64 (t + reg_offs))) in
  next_reg pos.

Definition ldptr (pos : Z) : M vm Z :=
  next pos.

Definition stptr (pos : Z) : M vm Z :=
  next pos.

Definition lea (pos : Z) : M vm Z :=
  let! addr := imm U64 pos in
  do! push_cs U64 addr in
  next_imm pos.

Definition lea_absolute (pos : Z) : M vm Z :=
  let! addr := imm U64 pos in
  let! base := gets mem_base in
  do! push_cs U64 (to_u 64 (base + addr)) in
  next_imm pos.

(** ** Control flow *)

(** The tail every conditional branch has. *)
Definition branch_if (c : bool) (pos : Z) : M vm Z :=
  if c then imm U64 pos else next_imm pos.

Definition buc (pos : Z) : M vm Z :=
  imm U64 pos.

Definition beq `{Target} (pos : Z) : M vm Z :=
  let! '(a, b) := pop2 I32 in
  branch_if (a =? b) pos.

Definition bneq `{Target} (pos : Z) : M vm Z :=
  let! '(a, b) := pop2 I32 in
  branch_if (negb (a =? b)) pos.

Definition beqi8 `{Target} (pos : Z) : M vm Z :=
  let! '(a, b) := pop2 I8 in
  branch_if (a =? b) pos.

Definition beqi64 `{Target} (pos : Z) : M vm Z :=
  let! '(a, b) := pop2 I64 in
  branch_if (a =? b) pos.

Definition bneqi8 `{Target} (pos : Z) : M vm Z :=
  let! '(a, b) := pop2 I8 in
  branch_if (negb (a =? b)) pos.

Definition bneqi64 `{Target} (pos : Z) : M vm Z :=
  let! '(a, b) := pop2 I64 in
  branch_if (negb (a =? b)) pos.

Definition blt `{Target} (pos : Z) : M vm Z :=
  let! '(a, b) := pop2 I32 in
  branch_if (a <? b) pos.

Definition blteq `{Target} (pos : Z) : M vm Z :=
  let! '(a, b) := pop2 I32 in
  branch_if (a <=? b) pos.

Definition bgt `{Target} (pos : Z) : M vm Z :=
  let! '(a, b) := pop2 I32 in
  branch_if (a >? b) pos.

Definition bgteq `{Target} (pos : Z) : M vm Z :=
  let! '(a, b) := pop2 I32 in
  branch_if (a >=? b) pos.

Definition bgteqzeroi32 (pos : Z) : M vm Z :=
  let! v := pop_cs I32 in
  branch_if (v >=? 0) pos.

Definition blteqzeroi32 (pos : Z) : M vm Z :=
  let! v := pop_cs I32 in
  branch_if (v <=? 0) pos.

Definition bltzeroi32 (pos : Z) : M vm Z :=
  let! v := pop_cs I32 in
  branch_if (v <? 0) pos.

Definition bzeroi32 (pos : Z) : M vm Z :=
  let! v := pop_cs I32 in
  branch_if (v =? 0) pos.

Definition bzeroi8 (pos : Z) : M vm Z :=
  let! v := pop_cs I8 in
  branch_if (v =? 0) pos.

Definition bnzeroi8 (pos : Z) : M vm Z :=
  let! v := pop_cs I8 in
  branch_if (v =? 0) pos.

Definition bzeroi64 (pos : Z) : M vm Z :=
  let! v := pop_cs I64 in
  branch_if (v =? 0) pos.

Definition bzerodbl (pos : Z) : M vm Z :=
  let! v := pop_cs F64 in
  branch_if (f64_eq v f64_zero) pos.

Definition bnzeroi32 (pos : Z) : M vm Z :=
  let! v := pop_cs I32 in
  branch_if (negb (v =? 0)) pos.

Definition bnzeroi64 (pos : Z) : M vm Z :=
  let! v := pop_cs I64 in
  branch_if (negb (v =? 0)) pos.

Definition bnzerodbl (pos : Z) : M vm Z :=
  let! v := pop_cs F64 in
  branch_if (negb (f64_eq v f64_zero)) pos.

Definition call (pos : Z) : M vm Z :=
  do! push_data_stack U64 (base_opcode_width + addr_width + pos) in
  imm U64 pos.

Definition callx `{Target} (pos : Z) : M vm Z :=
  let! addr := imm U64 pos in
  let! arg0 := get_reg ARG0 in
  let! arg1 := get_reg ARG1 in
  let! arg2 := get_reg ARG2 in
  do! modify (fun v => set_mem (native_call addr arg0 arg1 arg2 (mem v)) v) in
  next_imm pos.

Definition op_ret (pos : Z) : M vm Z :=
  pop_data_stack U64.

Definition haltimm (pos : Z) : M vm Z :=
  let! n := imm I64 pos in
  if n <=? 0 then throw HaltTriggered
  else
    do! text_wr I64 (pos + base_opcode_width) (n - 1) in
    next_imm pos.

(** ** The data stack *)

Definition popi32 (pos : Z) : M vm Z :=
  let! p := get_reg SP in
  do! set_reg SP (to_s 64 (p + 4)) in
  next pos.

Definition popi64 (pos : Z) : M vm Z :=
  let! p := get_reg SP in
  do! set_reg SP (to_s 64 (p + 8)) in
  next pos.

Definition popi32reg (pos : Z) : M vm Z :=
  let! p := get_reg SP in
  let! v := mem_rd I32 p in
  do! set_reg SP (to_s 64 (p + 4)) in
  let! reg := text_rd I32 (pos + 1) in
  do! set_reg reg v in
  ret (base_opcode_width + pos + 1).

Definition pushi32reg (pos : Z) : M vm Z :=
  let! reg := text_rd I32 (pos + 1) in
  let! p := get_reg SP in
  do! set_reg SP (to_s 64 (p - 4)) in
  let! x := get_reg reg in
  let! p' := get_reg SP in
  do! mem_wr I32 p' x in
  ret (base_opcode_width + pos + 1).

Definition pushi32 (pos : Z) : M vm Z :=
  let! a := text_rd U8 (pos + 1) in
  let! v := mem_rd I32 a in
  let! p := get_reg SP in
  do! set_reg SP (to_s 64 (p - 4)) in
  let! p' := get_reg SP in
  do! mem_wr I32 p' v in
  ret (base_opcode_width + pos + 1).

Definition pushi64 (pos : Z) : M vm Z :=
  let! a := text_rd U8 (pos + 1) in
  let! v := mem_rd I64 a in
  let! p := get_reg SP in
  do! set_reg SP (to_s 64 (p - 8)) in
  let! p' := get_reg SP in
  do! mem_wr I64 p' v in
  ret (base_opcode_width + pos + 1).

Definition popi64reg (pos : Z) : M vm Z :=
  let! '(reg_offs, reg) := reg_operands pos in
  let! p := get_reg SP in
  let! v := mem_rd I64 p in
  do! set_reg SP (to_s 64 (p + 8)) in
  let! y := checked I64 (v - reg_offs) in
  do! set_reg reg y in
  next_reg pos.

Definition pushi64reg (pos : Z) : M vm Z :=
  let! '(reg_offs, reg) := reg_operands pos in
  let! p := get_reg SP in
  do! set_reg SP (to_s 64 (p - 8)) in
  let! x := get_reg reg in
  let! y := checked I64 (x + reg_offs) in
  let! p' := get_reg SP in
  do! mem_wr I64 p' y in
  next_reg pos.

Definition cpysi32 (pos : Z) : M vm Z :=
  throw (ThrownString "Deprecated").

Definition wrsi32 (pos : Z) : M vm Z :=
  throw (ThrownString "Deprecated").

Definition setframe (pos : Z) : M vm Z :=
  throw (ThrownString "Deprecated").

(** ** Events *)

Definition msg (pos : Z) : M vm Z :=
  let! event_id := imm U64 pos in
  do! modify (fun v => if event_queue v
                       then set_fired (fired v ++ [FireEvent (to_s 32 event_id)]) v else v) in
  next_imm pos.

Definition msg_glob_buffer (pos : Z) : M vm Z :=
  let! event_id := imm U64 pos in
  let! payload_addr := imm2 U64 pos in
  do! modify (fun v => if event_queue v
                       then set_fired (fired v ++ [FireEventPayload (to_s 32 event_id) payload_addr]) v
                       else v) in
  next_imm_imm pos.

(** ** Assertions *)

Definition asserti32imm (pos : Z) : M vm Z :=
  let! expected_value := imm I32 pos in
  let! t := pop_cs I32 in
  if negb (expected_value =? t)
  then throw (RuntimeError ("asserti32(imm): Expected " +:+ pretty expected_value +:+ " read " +:+ pretty t +:+ "."))
  else next_imm pos.

Definition asserti64imm (pos : Z) : M vm Z :=
  let! expected_value := imm I64 pos in
  let! t := pop_cs I64 in
  if negb (expected_value =? t)
  then throw (RuntimeError ("asserti64(imm): Expected " +:+ pretty expected_value +:+ " read " +:+ pretty t +:+ "."))
  else next_imm pos.

Definition asserti64immsz (pos : Z) : M vm Z :=
  let! expected_value := imm I64 pos in
  let! t := pop_cs I64 in
  if negb (expected_value =? t) then
    let! msg_sz_loc := imm2 U64 pos in
    let! msg := mem_sz msg_sz_loc in
    throw (RuntimeError (msg +:+ "[asserti64(immsz) Expected " +:+ pretty expected_value
                         +:+ " read " +:+ pretty t +:+ "]."))
  else next_imm_imm pos.

Definition asserti32immsz (pos : Z) : M vm Z :=
  let! expected_value := imm I64 pos in
  let! t := pop_cs I32 in
  if negb (expected_value =? t) then
    let! msg_sz_loc := imm2 U64 pos in
    let! msg := mem_sz msg_sz_loc in
    throw (RuntimeError (msg +:+ "[asserti64(immsz) Expected " +:+ pretty expected_value
                         +:+ " read " +:+ pretty t +:+ "]."))
  else next_imm_imm pos.

Definition asserteqi32sz (pos : Z) : M vm Z :=
  let! t1 := pop_cs I32 in
  let! t2 := pop_cs I32 in
  if negb (t1 =? t2) then
    let! msg_sz_loc := imm U64 pos in
    let! msg := mem_sz msg_sz_loc in
    throw (RuntimeError (msg +:+ "[asserteqi32sz values are not equal]."))
  else next_imm pos.

Definition asserti32immreg (pos : Z) : M vm Z :=
  let! expected_value := imm I64 pos in
  let! reg := imm2 I64 pos in
  let! t := get_reg reg in
  if negb (to_s 32 expected_value =? to_s 32 t) then
    let reg_name :=
      match List.find (fun e => snd e =? reg) reg_mnemonic2idx with
      | Some e => fst e
      | None => "unknown"
      end in
    throw (RuntimeError ("[asserti32immreg " +:+ reg_name +:+ " != " +:+ pretty expected_value
                         +:+ "  (read " +:+ pretty t +:+ " instead) ]."))
  else next_imm_imm pos.

Definition assert_deserialized_protobufish_message_equals_str `{Target} (fuel : nat) (pos : Z) : M vm Z :=
  let! e := imm U64 pos in
  let! m := imm2 U64 pos in
  let! v := get in
  let! '(_, res) := deserialize_event_payload fuel (mem v) m (to_u 64 (heap v)) in
  let! expected_value := mem_sz e in
  if negb (String.eqb res expected_value)
  then throw (RuntimeError ("[assert_deserialized_protobufish_message_equals_str Expected "
                            +:+ expected_value +:+ " read " +:+ res +:+ "]."))
  else next_imm_imm pos.

Definition assertf64imm `{Target} (pos : Z) : M vm Z :=
  let! expected_value := imm F64 pos in
  let! t := pop_cs F64 in
  if negb (f64_eq expected_value t)
  then throw (RuntimeError ("assertf64: Expected " +:+ to_string_double expected_value +:+ " read " +:+ to_string_double t +:+ "."))
  else next_imm pos.

Definition assertsz (pos : Z) : M vm Z :=
  let! expected_sz_p := imm U64 pos in
  let! sz_p := pop_cs U64 in
  let! expected := mem_sz expected_sz_p in
  let! actual := mem_sz sz_p in
  if negb (String.eqb expected actual)
  then throw (RuntimeError ("assertsz: Expected '" +:+ expected +:+ "' read '" +:+ actual +:+ "'."))
  else next_imm pos.

Definition assert_empty_cs (pos : Z) : M vm Z :=
  let! csp := get_reg CSP in
  if negb (csp =? 0)
  then throw (RuntimeError "assert_empty_cs: Compute Stack is not empty.")
  else next pos.

(** ** Debug output *)

Definition dbg_printsz (pos : Z) : M vm Z :=
  let! a := imm U64 pos in
  let! msg := mem_sz a in
  do! print msg in
  next_imm pos.

Definition dbg_print_topi64 (pos : Z) : M vm Z :=
  let! t := pop_cs I64 in
  do! push_cs I64 t in
  do! print (pretty t +:+ nl) in
  next pos.

Definition dbg_print_topi32 (pos : Z) : M vm Z :=
  let! t := pop_cs I32 in
  do! push_cs I32 t in
  do! print (pretty t +:+ nl) in
  next pos.

Definition dbg_print_topf64 `{Target} (pos : Z) : M vm Z :=
  let! t := pop_cs F64 in
  do! push_cs F64 t in
  do! print (fmt_double t +:+ nl) in
  next pos.

Definition dbg_println (pos : Z) : M vm Z :=
  do! print nl in
  next pos.

Definition dbg_printlni32imm (pos : Z) : M vm Z :=
  let! x := imm I32 pos in
  do! print (pretty x +:+ nl) in
  next_imm pos.

Definition dbg_printlni32 (pos : Z) : M vm Z :=
  let! addr := imm U64 pos in
  let! x := mem_rd I32 addr in
  do! print (pretty x +:+ nl) in
  next_imm pos.

Definition dbg_print_cs_and_regsimm (pos : Z) : M vm Z :=
  do! print_cs_and_regsimm in
  next_imm pos.

(** The iteration order of std::map<string,...>. *)
Definition label_le (x y : string * Z) : Prop := String.leb (fst x) (fst y) = true.

#[export] Instance label_le_dec : RelDecision label_le.
Proof. intros x y. unfold label_le. apply _. Defined.

Definition sorted_labels (m : gmap string Z) : list (string * Z) :=
  merge_sort label_le (map_to_list m).

Definition dbg_print_dataimm (pos : Z) : M vm Z :=
  let! v := get in
  let n := heap v in
  do! print (nl +:+ "Static data (") in
  do! print (pretty n) in
  do! print (" bytes) :" +:+ nl) in
  let! data := of_option (if n <? 0 then None else slice_get (mem v) 0 (Z.to_nat n)) in
  do! forM (zrange 0 n) (fun i =>
    let! p := of_option (zlookup data i) in
    do! (if i mod 8 =? 0 then do! print_w 5 (pretty i) in print ": " else ret tt) in
    do! print_w 3 (pretty p) in
    do! print " " in
    if (i + 1) mod 8 =? 0 then
      do! print "  " in
      let! line := of_option (slice_get data (i - 7) 8) in
      do! forM line (fun pp => print (printable pp)) in
      print nl
    else ret tt) in
  do! print nl in
  do! (match sorted_labels (data_labels v) with
       | [] => ret tt
       | labels =>
         let sym_col_w := foldr (fun e w => Nat.max w (String.length (fst e))) 0%nat labels in
         do! print (nl +:+ "Symboltable:" +:+ nl +:+ nl) in
         forM labels (fun e =>
           do! set_left in
           do! print_w sym_col_w (fst e) in
           do! print "  " in
           do! print_w 6 (pretty (snd e)) in
           print nl)
       end) in
  next_imm pos.

Definition dbg_print_stackimm (pos : Z) : M vm Z :=
  let! v := get in
  let! sp := get_reg SP in
  do! print (nl +:+ "Stack(") in
  do! print (pretty (to_u 64 (mem_size v - sp))) in
  do! print (" bytes) :" +:+ nl) in
  do! (if mem_size v <? sp then undef else ret tt) in
  do! forM (zrange 0 (mem_size v - sp)) (fun i =>
    let! p := of_option (zlookup (mem v) (sp + i)) in
    do! (if i mod 8 =? 0 then do! print_w 5 (pretty i) in print ": " else ret tt) in
    do! print_w 3 (pretty p) in
    do! print " " in
    if (i + 1) mod 8 =? 0 then
      do! print "  " in
      (* the bytes before the current one: the line is printed one byte early *)
      let! line := of_option (slice_get (mem v) (sp + i - 8) 8) in
      do! forM line (fun pp => print (printable pp)) in
      print nl
    else ret tt) in
  do! print nl in
  next_imm pos.

Definition dbg_deserialize_protobufish_to_json `{Target} (fuel : nat) (pos : Z) : M vm Z :=
  let! v := get in
  let! a := imm U64 pos in
  let! '(_, res) := deserialize_event_payload fuel (mem v) a (to_u 64 (heap v - a)) in
  do! print (res +:+ nl) in
  next_imm pos.
