(* ===== verification/VMTable.v ===== *)
(** * Opcodes, dispatch table, mnemonics and the run loop

    core/include/vm/vm_base.hpp (enum Opcode, emit, mnemonics) and VMEnv::VMEnv,
    VMEnv::run of core/src/vm/vm_base.cpp. *)

From S2P Require Import Prelude MachineInt VMEnv VMOps.

(** ** enum class Opcode *)

Module Op.
Inductive Opcode :=
  | halt | noop | ldi32 | ldsi32 | ldi64 | lddbl | sti32 | stsi32 | sri64 | stdbl | ldptr
  | stptr | lea | addi32 | addi64 | adddbl | subi32 | subi64 | subdbl | buc | beq | bneq
  | blt | blteq | bgt | bgteq | bgteqzeroi32 | blteqzeroi32 | bltzeroi32 | bzeroi32
  | bnzeroi32 | bzeroi64 | bnzeroi64 | bzerodbl | bnzerodbl | call | ret | swp | andni32
  | andni64 | andi32 | andi64 | ori32 | ori64 | noti32 | noti64 | xori32 | xori64
  | duptopi32 | muli32 | muli64 | muldbl | divi32 | divi64 | divdbl | remi32 | remi64
  | lti32 | lti64 | ltdbl | lteqi32 | lteqi64 | lteqdbl | gti32 | gti64 | gtdbl | gteqi32
  | gteqi64 | gteqdbl | eqi32 | eqi64 | eqdbl | cpysi32 | wrsi32 | setframe | popi32
  | pushi32reg | popi32reg | pushi32 | sti64 | ui32toui64 | ldi64reg | sti64reg | stsi64
  | ldsi64 | sindbl | cosdbl | tandbl | atandbl | expdbl | ldsdbl | negdbl | negi32
  | negi64 | stsdbl | tanhdbl | dbg_printlni32 | callx | lea_absolute | sti32reg | msg
  | dbg_print_cs_and_regsimm | dbg_print_dataimm | dbg_deserialize_protobufish_to_json
  | ldi32imm | popi64 | pushi64reg | popi64reg | pushi64 | dbg_print_stackimm | ldi64imm
  | duptopi64 | discardtopi32 | discardtopi64 | ldi8 | sti8 | stsi8 | ldsi8 | ui8toui32
  | ui8toui64 | duptopi8 | swpi64 | swpi16i64 | swpi32i64 | swp128i64 | swp80i64
  | swpi64b72 | swp72i64 | swp128b8 | lddblimm | duptopi128 | swpi8i64 | beqi8 | bneqi8
  | bzeroi8 | bnzeroi8 | dbg_printlni32imm | swpi64b128 | swpi160i64 | swpi192i32
  | asserti32imm | assertf64imm | swp96i64 | swp192i64 | assertsz | assert_empty_cs
  | asserti64imm | asserti64immsz | duptopi192 | swpi8i128 | swpi16i128 | dbg_print_topi64
  | haltimm | swpi64i192 | asserti32immsz
  | assert_deserialized_protobufish_message_equals_str | dbg_print_topi32 | asserteqi32
  | ldi32reg | dbg_printsz | dbg_print_topf64 | msg_glob_buffer | asserti32immreg | sti8reg
  | shli64 | beqi64 | bneqi64 | shri64 | shli32 | shri32 | dbg_println.
End Op.

Definition all_opcodes : list Op.Opcode :=
  [Op.halt; Op.noop; Op.ldi32; Op.ldsi32; Op.ldi64; Op.lddbl; Op.sti32; Op.stsi32;
   Op.sri64; Op.stdbl; Op.ldptr; Op.stptr; Op.lea; Op.addi32; Op.addi64; Op.adddbl;
   Op.subi32; Op.subi64; Op.subdbl; Op.buc; Op.beq; Op.bneq; Op.blt; Op.blteq; Op.bgt;
   Op.bgteq; Op.bgteqzeroi32; Op.blteqzeroi32; Op.bltzeroi32; Op.bzeroi32; Op.bnzeroi32;
   Op.bzeroi64; Op.bnzeroi64; Op.bzerodbl; Op.bnzerodbl; Op.call; Op.ret; Op.swp;
   Op.andni32; Op.andni64; Op.andi32; Op.andi64; Op.ori32; Op.ori64; Op.noti32; Op.noti64;
   Op.xori32; Op.xori64; Op.duptopi32; Op.muli32; Op.muli64; Op.muldbl; Op.divi32;
   Op.divi64; Op.divdbl; Op.remi32; Op.remi64; Op.lti32; Op.lti64; Op.ltdbl; Op.lteqi32;
   Op.lteqi64; Op.lteqdbl; Op.gti32; Op.gti64; Op.gtdbl; Op.gteqi32; Op.gteqi64;
   Op.gteqdbl; Op.eqi32; Op.eqi64; Op.eqdbl; Op.cpysi32; Op.wrsi32; Op.setframe; Op.popi32;
   Op.pushi32reg; Op.popi32reg; Op.pushi32; Op.sti64; Op.ui32toui64; Op.ldi64reg;
   Op.sti64reg; Op.stsi64; Op.ldsi64; Op.sindbl; Op.cosdbl; Op.tandbl; Op.atandbl;
   Op.expdbl; Op.ldsdbl; Op.negdbl; Op.negi32; Op.negi64; Op.stsdbl; Op.tanhdbl;
   Op.dbg_printlni32; Op.callx; Op.lea_absolute; Op.sti32reg; Op.msg;
   Op.dbg_print_cs_and_regsimm; Op.dbg_print_dataimm;
   Op.dbg_deserialize_protobufish_to_json; Op.ldi32imm; Op.popi64; Op.pushi64reg;
   Op.popi64reg; Op.pushi64; Op.dbg_print_stackimm; Op.ldi64imm; Op.duptopi64;
   Op.discardtopi32; Op.discardtopi64; Op.ldi8; Op.sti8; Op.stsi8; Op.ldsi8; Op.ui8toui32;
   Op.ui8toui64; Op.duptopi8; Op.swpi64; Op.swpi16i64; Op.swpi32i64; Op.swp128i64;
   Op.swp80i64; Op.swpi64b72; Op.swp72i64; Op.swp128b8; Op.lddblimm; Op.duptopi128;
   Op.swpi8i64; Op.beqi8; Op.bneqi8; Op.bzeroi8; Op.bnzeroi8; Op.dbg_printlni32imm;
   Op.swpi64b128; Op.swpi160i64; Op.swpi192i32; Op.asserti32imm; Op.assertf64imm;
   Op.swp96i64; Op.swp192i64; Op.assertsz; Op.assert_empty_cs; Op.asserti64imm;
   Op.asserti64immsz; Op.duptopi192; Op.swpi8i128; Op.swpi16i128; Op.dbg_print_topi64;
   Op.haltimm; Op.swpi64i192; Op.asserti32immsz;
   Op.assert_deserialized_protobufish_message_equals_str; Op.dbg_print_topi32;
   Op.asserteqi32; Op.ldi32reg; Op.dbg_printsz; Op.dbg_print_topf64; Op.msg_glob_buffer;
   Op.asserti32immreg; Op.sti8reg; Op.shli64; Op.beqi64; Op.bneqi64; Op.shri64; Op.shli32;
   Op.shri32; Op.dbg_println].

(** The number the compiler gives an enumerator. *)
Definition opcode_num (o : Op.Opcode) : Z :=
  match o with
  | Op.halt => 0 | Op.noop => 1 | Op.ldi32 => 2 | Op.ldsi32 => 3 | Op.ldi64 => 4
  | Op.lddbl => 5 | Op.sti32 => 6 | Op.stsi32 => 7 | Op.sri64 => 8 | Op.stdbl => 9
  | Op.ldptr => 10 | Op.stptr => 11 | Op.lea => 12 | Op.addi32 => 13 | Op.addi64 => 14
  | Op.adddbl => 15 | Op.subi32 => 16 | Op.subi64 => 17 | Op.subdbl => 18 | Op.buc => 19
  | Op.beq => 20 | Op.bneq => 21 | Op.blt => 22 | Op.blteq => 23 | Op.bgt => 24
  | Op.bgteq => 25 | Op.bgteqzeroi32 => 26 | Op.blteqzeroi32 => 27 | Op.bltzeroi32 => 28
  | Op.bzeroi32 => 29 | Op.bnzeroi32 => 30 | Op.bzeroi64 => 31 | Op.bnzeroi64 => 32
  | Op.bzerodbl => 33 | Op.bnzerodbl => 34 | Op.call => 35 | Op.ret => 36 | Op.swp => 37
  | Op.andni32 => 38 | Op.andni64 => 39 | Op.andi32 => 40 | Op.andi64 => 41
  | Op.ori32 => 42 | Op.ori64 => 43 | Op.noti32 => 44 | Op.noti64 => 45 | Op.xori32 => 46
  | Op.xori64 => 47 | Op.duptopi32 => 48 | Op.muli32 => 49 | Op.muli64 => 50
  | Op.muldbl => 51 | Op.divi32 => 52 | Op.divi64 => 53 | Op.divdbl => 54 | Op.remi32 => 55
  | Op.remi64 => 56 | Op.lti32 => 57 | Op.lti64 => 58 | Op.ltdbl => 59 | Op.lteqi32 => 60
  | Op.lteqi64 => 61 | Op.lteqdbl => 62 | Op.gti32 => 63 | Op.gti64 => 64 | Op.gtdbl => 65
  | Op.gteqi32 => 66 | Op.gteqi64 => 67 | Op.gteqdbl => 68 | Op.eqi32 => 69
  | Op.eqi64 => 70 | Op.eqdbl => 71 | Op.cpysi32 => 72 | Op.wrsi32 => 73
  | Op.setframe => 74 | Op.popi32 => 75 | Op.pushi32reg => 76 | Op.popi32reg => 77
  | Op.pushi32 => 78 | Op.sti64 => 79 | Op.ui32toui64 => 80 | Op.ldi64reg => 81
  | Op.sti64reg => 82 | Op.stsi64 => 83 | Op.ldsi64 => 84 | Op.sindbl => 85
  | Op.cosdbl => 86 | Op.tandbl => 87 | Op.atandbl => 88 | Op.expdbl => 89
  | Op.ldsdbl => 90 | Op.negdbl => 91 | Op.negi32 => 92 | Op.negi64 => 93 | Op.stsdbl => 94
  | Op.tanhdbl => 95 | Op.dbg_printlni32 => 96 | Op.callx => 97 | Op.lea_absolute => 98
  | Op.sti32reg => 99 | Op.msg => 100 | Op.dbg_print_cs_and_regsimm => 101
  | Op.dbg_print_dataimm => 102 | Op.dbg_deserialize_protobufish_to_json => 103
  | Op.ldi32imm => 104 | Op.popi64 => 105 | Op.pushi64reg => 106 | Op.popi64reg => 107
  | Op.pushi64 => 108 | Op.dbg_print_stackimm => 109 | Op.ldi64imm => 110
  | Op.duptopi64 => 111 | Op.discardtopi32 => 112 | Op.discardtopi64 => 113
  | Op.ldi8 => 114 | Op.sti8 => 115 | Op.stsi8 => 116 | Op.ldsi8 => 117
  | Op.ui8toui32 => 118 | Op.ui8toui64 => 119 | Op.duptopi8 => 120 | Op.swpi64 => 121
  | Op.swpi16i64 => 122 | Op.swpi32i64 => 123 | Op.swp128i64 => 124 | Op.swp80i64 => 125
  | Op.swpi64b72 => 126 | Op.swp72i64 => 127 | Op.swp128b8 => 128 | Op.lddblimm => 129
  | Op.duptopi128 => 130 | Op.swpi8i64 => 131 | Op.beqi8 => 132 | Op.bneqi8 => 133
  | Op.bzeroi8 => 134 | Op.bnzeroi8 => 135 | Op.dbg_printlni32imm => 136
  | Op.swpi64b128 => 137 | Op.swpi160i64 => 138 | Op.swpi192i32 => 139
  | Op.asserti32imm => 140 | Op.assertf64imm => 141 | Op.swp96i64 => 142
  | Op.swp192i64 => 143 | Op.assertsz => 144 | Op.assert_empty_cs => 145
  | Op.asserti64imm => 146 | Op.asserti64immsz => 147 | Op.duptopi192 => 148
  | Op.swpi8i128 => 149 | Op.swpi16i128 => 150 | Op.dbg_print_topi64 => 151
  | Op.haltimm => 152 | Op.swpi64i192 => 153 | Op.asserti32immsz => 154
  | Op.assert_deserialized_protobufish_message_equals_str => 155
  | Op.dbg_print_topi32 => 156 | Op.asserteqi32 => 157 | Op.ldi32reg => 158
  | Op.dbg_printsz => 159 | Op.dbg_print_topf64 => 160 | Op.msg_glob_buffer => 161
  | Op.asserti32immreg => 162 | Op.sti8reg => 163 | Op.shli64 => 164 | Op.beqi64 => 165
  | Op.bneqi64 => 166 | Op.shri64 => 167 | Op.shli32 => 168 | Op.shri32 => 169
  | Op.dbg_println => 170
  end.

Definition opcode_of_num (z : Z) : option Op.Opcode := zlookup all_opcodes z.

Lemma opcode_of_num_num o : opcode_of_num (opcode_num o) = Some o.
Proof. by destruct o. Qed.

#[export] Instance opcode_num_inj : Inj (=) (=) opcode_num.
Proof.
  intros o1 o2 H. apply (inj Some).
  by rewrite <- !opcode_of_num_num, H.
Qed.

#[export] Instance opcode_eq_dec : EqDecision Op.Opcode.
Proof.
  intros o1 o2. destruct (decide (opcode_num o1 = opcode_num o2)) as [H|H].
  - left. by apply (inj opcode_num).
  - right. intros ->. done.
Defined.

Lemma opcode_num_range o : 0 <= opcode_num o < 171.
Proof. by destruct o; vm_compute. Qed.

Lemma all_opcodes_complete o : o ∈ all_opcodes.
Proof.
  apply list_elem_of_lookup_2 with (Z.to_nat (opcode_num o)).
  pose proof (opcode_of_num_num o) as H. unfold opcode_of_num, zlookup in H.
  pose proof (opcode_num_range o).
  destruct (opcode_num o <? 0) eqn:E; [zbool; lia|done].
Qed.

(** ** op_dispatch *)

Definition handler : Type := Z -> M vm Z.

Section dispatch.
Context `{Target} (fuel : nat).

(** The first half of the push_back calls of the constructor. *)
Definition op_dispatch_1 : list handler :=
  [VMOps.noop; VMOps.noop; VMOps.ldi32; VMOps.ldsi32; VMOps.ldi64; VMOps.lddbl;
   VMOps.sti32; VMOps.stsi32; VMOps.sti64; VMOps.stdbl; VMOps.ldptr; VMOps.stptr;
   VMOps.lea; VMOps.addi32; VMOps.addi64; VMOps.adddbl; VMOps.subi32; VMOps.subi64;
   VMOps.subdbl; VMOps.buc; VMOps.beq; VMOps.bneq; VMOps.blt; VMOps.blteq; VMOps.bgt;
   VMOps.bgteq; VMOps.bgteqzeroi32; VMOps.blteqzeroi32; VMOps.bltzeroi32; VMOps.bzeroi32;
   VMOps.bnzeroi32; VMOps.bzeroi64; VMOps.bnzeroi64; VMOps.bzerodbl; VMOps.bnzerodbl;
   VMOps.call; VMOps.op_ret; VMOps.swp; VMOps.andni32; VMOps.andni64; VMOps.andi32;
   VMOps.andi64; VMOps.ori32; VMOps.ori64; VMOps.noti32; VMOps.noti64; VMOps.xori32;
   VMOps.xori64; VMOps.duptopi32; VMOps.muli32; VMOps.muli64; VMOps.muldbl; VMOps.divi32;
   VMOps.divi64; VMOps.divdbl; VMOps.remi32; VMOps.remi64; VMOps.lti32; VMOps.lti64;
   VMOps.ltdbl; VMOps.lteqi32; VMOps.lteqi64; VMOps.lteqdbl; VMOps.gti32; VMOps.gti64;
   VMOps.gtdbl; VMOps.gteqi32; VMOps.gteqi64; VMOps.gteqdbl; VMOps.eqi32; VMOps.eqi64;
   VMOps.eqdbl; VMOps.cpysi32; VMOps.wrsi32; VMOps.setframe; VMOps.popi32;
   VMOps.pushi32reg; VMOps.popi32reg; VMOps.pushi32; VMOps.sti64; VMOps.ui32toui64;
   VMOps.ldi64reg; VMOps.sti64reg; VMOps.stsi64; VMOps.ldsi64; VMOps.sindbl].

(** The second half. *)
Definition op_dispatch_2 : list handler :=
  [VMOps.cosdbl; VMOps.tandbl; VMOps.atandbl; VMOps.expdbl; VMOps.ldsdbl; VMOps.negdbl;
   VMOps.negi32; VMOps.negi64; VMOps.stsdbl; VMOps.tanhdbl; VMOps.dbg_printlni32;
   VMOps.callx; VMOps.lea_absolute; VMOps.sti32reg; VMOps.msg;
   VMOps.dbg_print_cs_and_regsimm; VMOps.dbg_print_dataimm;
   VMOps.dbg_deserialize_protobufish_to_json fuel; VMOps.ldi32imm; VMOps.popi64;
   VMOps.pushi64reg; VMOps.popi64reg; VMOps.pushi64; VMOps.dbg_print_stackimm;
   VMOps.ldi64imm; VMOps.duptopi64; VMOps.discardtopi32; VMOps.discardtopi64; VMOps.ldi8;
   VMOps.sti8; VMOps.stsi8; VMOps.ldsi8; VMOps.ui8toui32; VMOps.ui8toui64; VMOps.duptopi8;
   VMOps.swpi64; VMOps.swpi16i64; VMOps.swpi32i64; VMOps.swp128i64; VMOps.swp80i64;
   VMOps.swpi64b72; VMOps.swp72i64; VMOps.swp128b8; VMOps.lddblimm; VMOps.duptopi128;
   VMOps.swpi8i64; VMOps.beqi8; VMOps.bneqi8; VMOps.bzeroi8; VMOps.bnzeroi8;
   VMOps.dbg_printlni32imm; VMOps.swpi64b128; VMOps.swpi160i64; VMOps.swpi192i32;
   VMOps.asserti32imm; VMOps.assertf64imm; VMOps.swp96i64; VMOps.swp192i64; VMOps.assertsz;
   VMOps.assert_empty_cs; VMOps.asserti64imm; VMOps.asserti64immsz; VMOps.duptopi192;
   VMOps.swpi8i128; VMOps.swpi16i128; VMOps.dbg_print_topi64; VMOps.haltimm;
   VMOps.swpi64i192; VMOps.asserti32immsz;
   VMOps.assert_deserialized_protobufish_message_equals_str fuel; VMOps.dbg_print_topi32;
   VMOps.asserteqi32sz; VMOps.ldi32reg; VMOps.dbg_printsz; VMOps.dbg_print_topf64;
   VMOps.msg_glob_buffer; VMOps.asserti32immreg; VMOps.sti8reg; VMOps.shli64; VMOps.beqi64;
   VMOps.bneqi64; VMOps.shri64; VMOps.shli32; VMOps.shri32; VMOps.dbg_println].

Definition op_dispatch : list handler := op_dispatch_1 ++ op_dispatch_2.

(** The member function that carries the enumerator's name; there is none for halt,
    sri64 and asserteqi32. *)
Definition handler_named (o : Op.Opcode) : option handler :=
  match o with
  | Op.halt => None | Op.noop => Some VMOps.noop | Op.ldi32 => Some VMOps.ldi32
  | Op.ldsi32 => Some VMOps.ldsi32 | Op.ldi64 => Some VMOps.ldi64
  | Op.lddbl => Some VMOps.lddbl | Op.sti32 => Some VMOps.sti32
  | Op.stsi32 => Some VMOps.stsi32 | Op.sri64 => None | Op.stdbl => Some VMOps.stdbl
  | Op.ldptr => Some VMOps.ldptr | Op.stptr => Some VMOps.stptr | Op.lea => Some VMOps.lea
  | Op.addi32 => Some VMOps.addi32 | Op.addi64 => Some VMOps.addi64
  | Op.adddbl => Some VMOps.adddbl | Op.subi32 => Some VMOps.subi32
  | Op.subi64 => Some VMOps.subi64 | Op.subdbl => Some VMOps.subdbl
  | Op.buc => Some VMOps.buc | Op.beq => Some VMOps.beq | Op.bneq => Some VMOps.bneq
  | Op.blt => Some VMOps.blt | Op.blteq => Some VMOps.blteq | Op.bgt => Some VMOps.bgt
  | Op.bgteq => Some VMOps.bgteq | Op.bgteqzeroi32 => Some VMOps.bgteqzeroi32
  | Op.blteqzeroi32 => Some VMOps.blteqzeroi32 | Op.bltzeroi32 => Some VMOps.bltzeroi32
  | Op.bzeroi32 => Some VMOps.bzeroi32 | Op.bnzeroi32 => Some VMOps.bnzeroi32
  | Op.bzeroi64 => Some VMOps.bzeroi64 | Op.bnzeroi64 => Some VMOps.bnzeroi64
  | Op.bzerodbl => Some VMOps.bzerodbl | Op.bnzerodbl => Some VMOps.bnzerodbl
  | Op.call => Some VMOps.call | Op.ret => Some VMOps.op_ret | Op.swp => Some VMOps.swp
  | Op.andni32 => Some VMOps.andni32 | Op.andni64 => Some VMOps.andni64
  | Op.andi32 => Some VMOps.andi32 | Op.andi64 => Some VMOps.andi64
  | Op.ori32 => Some VMOps.ori32 | Op.ori64 => Some VMOps.ori64
  | Op.noti32 => Some VMOps.noti32 | Op.noti64 => Some VMOps.noti64
  | Op.xori32 => Some VMOps.xori32 | Op.xori64 => Some VMOps.xori64
  | Op.duptopi32 => Some VMOps.duptopi32 | Op.muli32 => Some VMOps.muli32
  | Op.muli64 => Some VMOps.muli64 | Op.muldbl => Some VMOps.muldbl
  | Op.divi32 => Some VMOps.divi32 | Op.divi64 => Some VMOps.divi64
  | Op.divdbl => Some VMOps.divdbl | Op.remi32 => Some VMOps.remi32
  | Op.remi64 => Some VMOps.remi64 | Op.lti32 => Some VMOps.lti32
  | Op.lti64 => Some VMOps.lti64 | Op.ltdbl => Some VMOps.ltdbl
  | Op.lteqi32 => Some VMOps.lteqi32 | Op.lteqi64 => Some VMOps.lteqi64
  | Op.lteqdbl => Some VMOps.lteqdbl | Op.gti32 => Some VMOps.gti32
  | Op.gti64 => Some VMOps.gti64 | Op.gtdbl => Some VMOps.gtdbl
  | Op.gteqi32 => Some VMOps.gteqi32 | Op.gteqi64 => Some VMOps.gteqi64
  | Op.gteqdbl => Some VMOps.gteqdbl | Op.eqi32 => Some VMOps.eqi32
  | Op.eqi64 => Some VMOps.eqi64 | Op.eqdbl => Some VMOps.eqdbl
  | Op.cpysi32 => Some VMOps.cpysi32 | Op.wrsi32 => Some VMOps.wrsi32
  | Op.setframe => Some VMOps.setframe | Op.popi32 => Some VMOps.popi32
  | Op.pushi32reg => Some VMOps.pushi32reg | Op.popi32reg => Some VMOps.popi32reg
  | Op.pushi32 => Some VMOps.pushi32 | Op.sti64 => Some VMOps.sti64
  | Op.ui32toui64 => Some VMOps.ui32toui64 | Op.ldi64reg => Some VMOps.ldi64reg
  | Op.sti64reg => Some VMOps.sti64reg | Op.stsi64 => Some VMOps.stsi64
  | Op.ldsi64 => Some VMOps.ldsi64 | Op.sindbl => Some VMOps.sindbl
  | Op.cosdbl => Some VMOps.cosdbl | Op.tandbl => Some VMOps.tandbl
  | Op.atandbl => Some VMOps.atandbl | Op.expdbl => Some VMOps.expdbl
  | Op.ldsdbl => Some VMOps.ldsdbl | Op.negdbl => Some VMOps.negdbl
  | Op.negi32 => Some VMOps.negi32 | Op.negi64 => Some VMOps.negi64
  | Op.stsdbl => Some VMOps.stsdbl | Op.tanhdbl => Some VMOps.tanhdbl
  | Op.dbg_printlni32 => Some VMOps.dbg_printlni32 | Op.callx => Some VMOps.callx
  | Op.lea_absolute => Some VMOps.lea_absolute | Op.sti32reg => Some VMOps.sti32reg
  | Op.msg => Some VMOps.msg
  | Op.dbg_print_cs_and_regsimm => Some VMOps.dbg_print_cs_and_regsimm
  | Op.dbg_print_dataimm => Some VMOps.dbg_print_dataimm
  | Op.dbg_deserialize_protobufish_to_json => Some (VMOps.dbg_deserialize_protobufish_to_json fuel)
  | Op.ldi32imm => Some VMOps.ldi32imm | Op.popi64 => Some VMOps.popi64
  | Op.pushi64reg => Some VMOps.pushi64reg | Op.popi64reg => Some VMOps.popi64reg
  | Op.pushi64 => Some VMOps.pushi64
  | Op.dbg_print_stackimm => Some VMOps.dbg_print_stackimm
  | Op.ldi64imm => Some VMOps.ldi64imm | Op.duptopi64 => Some VMOps.duptopi64
  | Op.discardtopi32 => Some VMOps.discardtopi32
  | Op.discardtopi64 => Some VMOps.discardtopi64 | Op.ldi8 => Some VMOps.ldi8
  | Op.sti8 => Some VMOps.sti8 | Op.stsi8 => Some VMOps.stsi8
  | Op.ldsi8 => Some VMOps.ldsi8 | Op.ui8toui32 => Some VMOps.ui8toui32
  | Op.ui8toui64 => Some VMOps.ui8toui64 | Op.duptopi8 => Some VMOps.duptopi8
  | Op.swpi64 => Some VMOps.swpi64 | Op.swpi16i64 => Some VMOps.swpi16i64
  | Op.swpi32i64 => Some VMOps.swpi32i64 | Op.swp128i64 => Some VMOps.swp128i64
  | Op.swp80i64 => Some VMOps.swp80i64 | Op.swpi64b72 => Some VMOps.swpi64b72
  | Op.swp72i64 => Some VMOps.swp72i64 | Op.swp128b8 => Some VMOps.swp128b8
  | Op.lddblimm => Some VMOps.lddblimm | Op.duptopi128 => Some VMOps.duptopi128
  | Op.swpi8i64 => Some VMOps.swpi8i64 | Op.beqi8 => Some VMOps.beqi8
  | Op.bneqi8 => Some VMOps.bneqi8 | Op.bzeroi8 => Some VMOps.bzeroi8
  | Op.bnzeroi8 => Some VMOps.bnzeroi8
  | Op.dbg_printlni32imm => Some VMOps.dbg_printlni32imm
  | Op.swpi64b128 => Some VMOps.swpi64b128 | Op.swpi160i64 => Some VMOps.swpi160i64
  | Op.swpi192i32 => Some VMOps.swpi192i32 | Op.asserti32imm => Some VMOps.asserti32imm
  | Op.assertf64imm => Some VMOps.assertf64imm | Op.swp96i64 => Some VMOps.swp96i64
  | Op.swp192i64 => Some VMOps.swp192i64 | Op.assertsz => Some VMOps.assertsz
  | Op.assert_empty_cs => Some VMOps.assert_empty_cs
  | Op.asserti64imm => Some VMOps.asserti64imm
  | Op.asserti64immsz => Some VMOps.asserti64immsz | Op.duptopi192 => Some VMOps.duptopi192
  | Op.swpi8i128 => Some VMOps.swpi8i128 | Op.swpi16i128 => Some VMOps.swpi16i128
  | Op.dbg_print_topi64 => Some VMOps.dbg_print_topi64 | Op.haltimm => Some VMOps.haltimm
  | Op.swpi64i192 => Some VMOps.swpi64i192 | Op.asserti32immsz => Some VMOps.asserti32immsz
  | Op.assert_deserialized_protobufish_message_equals_str => Some (VMOps.assert_deserialized_protobufish_message_equals_str fuel)
  | Op.dbg_print_topi32 => Some VMOps.dbg_print_topi32 | Op.asserteqi32 => None
  | Op.ldi32reg => Some VMOps.ldi32reg | Op.dbg_printsz => Some VMOps.dbg_printsz
  | Op.dbg_print_topf64 => Some VMOps.dbg_print_topf64
  | Op.msg_glob_buffer => Some VMOps.msg_glob_buffer
  | Op.asserti32immreg => Some VMOps.asserti32immreg | Op.sti8reg => Some VMOps.sti8reg
  | Op.shli64 => Some VMOps.shli64 | Op.beqi64 => Some VMOps.beqi64
  | Op.bneqi64 => Some VMOps.bneqi64 | Op.shri64 => Some VMOps.shri64
  | Op.shli32 => Some VMOps.shli32 | Op.shri32 => Some VMOps.shri32
  | Op.dbg_println => Some VMOps.dbg_println
  end.

(** ** VMEnv::run *)

(** One round of the loop: [false] when the loop ends. *)
Definition run_step : M vm bool :=
  let! pc := get_reg PC in
  let! opcode := text_rd U32 pc in
  if opcode =? opcode_num Op.halt then ret false
  else
    try_catch
      (let! b := text_rd U8 pc in
       let! h := of_option (zlookup op_dispatch b) in
       let! p := h pc in
       do! set_reg PC (to_s 64 p) in
       ret true)
      (fun e => match e with
       | RuntimeError _ =>
         let! pc := get_reg PC in
         let! b := text_rd U8 pc in
         do! print ("***Fatal Error in VMEnv::run. Instruction caused an exception, offending opcode: "
                    +:+ pretty b +:+ nl) in
         do! print_cs_and_regsimm in
         throw e
       | HaltTriggered => ret false
       | _ => throw e
       end).

Fixpoint run_loop (rounds : nat) : M vm unit :=
  match rounds with
  | O => out_of_fuel
  | S rounds' =>
    let! more := run_step in
    if more then run_loop rounds' else ret tt
  end.

Definition run (rounds : nat) (start : Z) : M vm Z :=
  do! set_reg PC (to_s 64 start) in
  do! run_loop rounds in
  ret start.
End dispatch.

(** ** Mnemonics *)

(** Which emitter pointer of the tuple is set. *)
Inductive emitter := NoArg | Imm | RegOfs | Dbl | ImmImm.

#[export] Instance emitter_eq_dec : EqDecision emitter.
Proof. solve_decision. Defined.

Record mnemonic := mkMnem { mn_opcode : Op.Opcode; mn_doc : string; mn_emit : emitter }.

Definition mnemonics_core : list (string * mnemonic) :=
  [("halt", mkMnem Op.halt "Yields the processor." NoArg);
   ("noop", mkMnem Op.noop "No operation." NoArg);
   ("ldi32", mkMnem Op.ldi32 "Push 32 bit signed integer." Imm);
   ("ldsi32", mkMnem Op.ldsi32 "Push 32 bit signed integer." NoArg);
   ("ldi64", mkMnem Op.ldi64 EmptyString Imm);
   ("lddbl", mkMnem Op.lddbl EmptyString Imm);
   ("sti32", mkMnem Op.sti32 EmptyString Imm);
   ("stsi32", mkMnem Op.stsi32 EmptyString NoArg);
   ("sri64", mkMnem Op.sri64 EmptyString Imm);
   ("stdbl", mkMnem Op.stdbl EmptyString Imm);
   ("ldptr", mkMnem Op.ldptr EmptyString Imm);
   ("stptr", mkMnem Op.stptr EmptyString Imm);
   ("lea", mkMnem Op.lea EmptyString Imm);
   ("duptopi32", mkMnem Op.duptopi32 EmptyString NoArg);
   ("addi32", mkMnem Op.addi32 EmptyString NoArg);
   ("addi64", mkMnem Op.addi64 EmptyString NoArg);
   ("adddbl", mkMnem Op.adddbl EmptyString NoArg);
   ("subi32", mkMnem Op.subi32 EmptyString NoArg);
   ("subi64", mkMnem Op.subi64 EmptyString NoArg);
   ("subdbl", mkMnem Op.subdbl EmptyString NoArg);
   ("muli32", mkMnem Op.muli32 EmptyString NoArg);
   ("muli64", mkMnem Op.muli64 EmptyString NoArg);
   ("muldbl", mkMnem Op.muldbl EmptyString NoArg);
   ("divi32", mkMnem Op.divi32 EmptyString NoArg);
   ("divi64", mkMnem Op.divi64 EmptyString NoArg);
   ("divdbl", mkMnem Op.divdbl EmptyString NoArg);
   ("remi32", mkMnem Op.remi32 EmptyString NoArg);
   ("remi64", mkMnem Op.remi64 EmptyString NoArg);
   ("lti32", mkMnem Op.lti32 EmptyString NoArg);
   ("lti64", mkMnem Op.lti64 EmptyString NoArg);
   ("ltdbl", mkMnem Op.ltdbl EmptyString NoArg);
   ("lteqi32", mkMnem Op.lteqi32 EmptyString NoArg);
   ("lteqi64", mkMnem Op.lteqi64 EmptyString NoArg);
   ("lteqdbl", mkMnem Op.lteqdbl EmptyString NoArg);
   ("gti32", mkMnem Op.gti32 EmptyString NoArg);
   ("gti64", mkMnem Op.gti64 EmptyString NoArg);
   ("gtdbl", mkMnem Op.gtdbl EmptyString NoArg);
   ("gteqi32", mkMnem Op.gteqi32 EmptyString NoArg);
   ("gteqi64", mkMnem Op.gteqi64 EmptyString NoArg);
   ("gteqdbl", mkMnem Op.gteqdbl EmptyString NoArg);
   ("eqi32", mkMnem Op.eqi32 EmptyString NoArg);
   ("eqi64", mkMnem Op.eqi64 EmptyString NoArg);
   ("eqdbl", mkMnem Op.eqdbl EmptyString NoArg)].

Definition mnemonics_flow : list (string * mnemonic) :=
  [("buc", mkMnem Op.buc EmptyString Imm);
   ("beq", mkMnem Op.beq EmptyString Imm);
   ("bneq", mkMnem Op.bneq EmptyString Imm);
   ("blt", mkMnem Op.blt EmptyString Imm);
   ("blteq", mkMnem Op.blteq EmptyString Imm);
   ("bgt", mkMnem Op.bgt EmptyString Imm);
   ("bgteq", mkMnem Op.bgteq EmptyString Imm);
   ("bgteqzeroi32", mkMnem Op.bgteqzeroi32 EmptyString Imm);
   ("blteqzeroi32", mkMnem Op.blteqzeroi32 EmptyString Imm);
   ("bltzeroi32", mkMnem Op.bltzeroi32 EmptyString Imm);
   ("bzeroi32", mkMnem Op.bzeroi32 EmptyString Imm);
   ("bnzeroi32", mkMnem Op.bnzeroi32 EmptyString Imm);
   ("bzeroi64", mkMnem Op.bzeroi64 EmptyString Imm);
   ("bnzeroi64", mkMnem Op.bnzeroi64 EmptyString Imm);
   ("bzerodbl", mkMnem Op.bzerodbl EmptyString Imm);
   ("bnzerodbl", mkMnem Op.bnzerodbl EmptyString Imm);
   ("call", mkMnem Op.call EmptyString Imm);
   ("ret", mkMnem Op.ret EmptyString NoArg);
   ("swp", mkMnem Op.swp EmptyString NoArg);
   ("andni32", mkMnem Op.andni32 EmptyString NoArg);
   ("andni64", mkMnem Op.andni64 EmptyString NoArg);
   ("andi32", mkMnem Op.andi32 EmptyString NoArg);
   ("andi64", mkMnem Op.andi64 EmptyString NoArg);
   ("ori32", mkMnem Op.ori32 EmptyString NoArg);
   ("ori64", mkMnem Op.ori64 EmptyString NoArg);
   ("noti32", mkMnem Op.noti32 EmptyString NoArg);
   ("noti64", mkMnem Op.noti64 EmptyString NoArg);
   ("xori32", mkMnem Op.xori32 EmptyString NoArg);
   ("xori64", mkMnem Op.xori64 EmptyString NoArg);
   ("muli32", mkMnem Op.muli32 EmptyString NoArg);
   ("muli32", mkMnem Op.muldbl EmptyString NoArg);
   ("setframe", mkMnem Op.setframe EmptyString NoArg);
   ("cpysi32", mkMnem Op.cpysi32 EmptyString Imm);
   ("wrsi32", mkMnem Op.wrsi32 EmptyString Imm);
   ("popi32", mkMnem Op.popi32 EmptyString NoArg);
   ("pushi32reg", mkMnem Op.pushi32reg EmptyString Imm);
   ("popi32reg", mkMnem Op.popi32reg EmptyString Imm);
   ("pushi32", mkMnem Op.pushi32 EmptyString NoArg);
   ("sti64", mkMnem Op.sti64 EmptyString Imm);
   ("ui32toui64", mkMnem Op.ui32toui64 EmptyString NoArg);
   ("ldi64reg", mkMnem Op.ldi64reg EmptyString RegOfs);
   ("sti64reg", mkMnem Op.sti64reg EmptyString RegOfs);
   ("stsi64", mkMnem Op.stsi64 EmptyString NoArg);
   ("ldsi64", mkMnem Op.ldsi64 EmptyString NoArg)].

Definition mnemonics_stack : list (string * mnemonic) :=
  [("sindbl", mkMnem Op.sindbl EmptyString NoArg);
   ("cosdbl", mkMnem Op.cosdbl EmptyString NoArg);
   ("tandbl", mkMnem Op.tandbl EmptyString NoArg);
   ("atandbl", mkMnem Op.atandbl EmptyString NoArg);
   ("expdbl", mkMnem Op.expdbl EmptyString NoArg);
   ("ldsdbl", mkMnem Op.ldsdbl EmptyString NoArg);
   ("negdbl", mkMnem Op.negdbl EmptyString NoArg);
   ("negi32", mkMnem Op.negi32 EmptyString NoArg);
   ("negi64", mkMnem Op.negi64 EmptyString NoArg);
   ("stsdbl", mkMnem Op.stsdbl EmptyString NoArg);
   ("tanhdbl", mkMnem Op.tanhdbl EmptyString NoArg);
   ("dbg_printlni32", mkMnem Op.dbg_printlni32 EmptyString Imm);
   ("callx", mkMnem Op.callx EmptyString Imm);
   ("lea_absolute", mkMnem Op.lea_absolute EmptyString Imm);
   ("sti32reg", mkMnem Op.sti32reg EmptyString RegOfs);
   ("msg", mkMnem Op.msg EmptyString Imm);
   ("dbg_print_cs_and_regsimm", mkMnem Op.dbg_print_cs_and_regsimm EmptyString Imm);
   ("dbg_print_dataimm", mkMnem Op.dbg_print_dataimm EmptyString Imm);
   ("dbg_deserialize_protobufish_to_json", mkMnem Op.dbg_deserialize_protobufish_to_json EmptyString Imm);
   ("ldi32imm", mkMnem Op.ldi32imm "Push 32 bit signed integer immediate." Imm);
   ("popi64", mkMnem Op.popi64 EmptyString NoArg);
   ("pushi64reg", mkMnem Op.pushi64reg EmptyString RegOfs);
   ("popi64reg", mkMnem Op.popi64reg EmptyString RegOfs);
   ("pushi64", mkMnem Op.pushi64 EmptyString NoArg);
   ("dbg_print_stackimm", mkMnem Op.dbg_print_stackimm EmptyString Imm);
   ("ldi64imm", mkMnem Op.ldi64imm "Push 63 bit signed integer immediate." Imm);
   ("duptopi64", mkMnem Op.duptopi64 EmptyString NoArg);
   ("discardtopi32", mkMnem Op.discardtopi32 EmptyString NoArg);
   ("discardtopi64", mkMnem Op.discardtopi64 EmptyString NoArg);
   ("ldi8", mkMnem Op.ldi8 "Push 8 bit signed integer." Imm);
   ("sti8", mkMnem Op.sti8 EmptyString Imm);
   ("stsi8", mkMnem Op.stsi8 EmptyString NoArg);
   ("ldsi8", mkMnem Op.ldsi8 EmptyString NoArg);
   ("ui8toui32", mkMnem Op.ui8toui32 EmptyString NoArg);
   ("ui8toui64", mkMnem Op.ui8toui64 EmptyString NoArg);
   ("duptopi8", mkMnem Op.duptopi8 EmptyString NoArg);
   ("swpi64", mkMnem Op.swpi64 EmptyString NoArg);
   ("swpi16i64", mkMnem Op.swpi16i64 EmptyString NoArg);
   ("swpi32i64", mkMnem Op.swpi32i64 EmptyString NoArg);
   ("swp128i64", mkMnem Op.swp128i64 EmptyString NoArg);
   ("swp80i64", mkMnem Op.swp80i64 EmptyString NoArg);
   ("swpi64b72", mkMnem Op.swpi64b72 EmptyString NoArg);
   ("swp72i64", mkMnem Op.swp72i64 EmptyString NoArg);
   ("swp128b8", mkMnem Op.swp128b8 EmptyString NoArg);
   ("lddblimm", mkMnem Op.lddblimm EmptyString Dbl)].

Definition mnemonics_assert : list (string * mnemonic) :=
  [("duptopi128", mkMnem Op.duptopi128 EmptyString NoArg);
   ("swpi8i64", mkMnem Op.swpi8i64 EmptyString NoArg);
   ("beqi8", mkMnem Op.beqi8 EmptyString Imm);
   ("bneqi8", mkMnem Op.bneqi8 EmptyString Imm);
   ("bzeroi8", mkMnem Op.bzeroi8 EmptyString Imm);
   ("bnzeroi8", mkMnem Op.bnzeroi8 EmptyString Imm);
   ("dbg_printlni32imm", mkMnem Op.dbg_printlni32imm EmptyString Imm);
   ("swpi64b128", mkMnem Op.swpi64b128 EmptyString NoArg);
   ("swpi160i64", mkMnem Op.swpi160i64 EmptyString NoArg);
   ("swpi192i32", mkMnem Op.swpi192i32 EmptyString NoArg);
   ("asserti32imm", mkMnem Op.asserti32imm EmptyString Imm);
   ("assertf64imm", mkMnem Op.assertf64imm EmptyString Dbl);
   ("swp96i64", mkMnem Op.swp96i64 EmptyString NoArg);
   ("swp192i64", mkMnem Op.swp192i64 EmptyString NoArg);
   ("assertszsz", mkMnem Op.assertsz EmptyString Imm);
   ("assert_empty_cs", mkMnem Op.assert_empty_cs EmptyString NoArg);
   ("asserti64imm", mkMnem Op.asserti64imm EmptyString Imm);
   ("asserti64immsz", mkMnem Op.asserti64immsz EmptyString ImmImm);
   ("duptopi192", mkMnem Op.duptopi192 EmptyString NoArg);
   ("swpi8i128", mkMnem Op.swpi8i128 EmptyString NoArg);
   ("swpi16i128", mkMnem Op.swpi16i128 EmptyString NoArg);
   ("dbg_print_topi64", mkMnem Op.dbg_print_topi64 EmptyString NoArg);
   ("haltimm", mkMnem Op.haltimm EmptyString Imm);
   ("swpi64i192", mkMnem Op.swpi64i192 EmptyString NoArg);
   ("asserti32immsz", mkMnem Op.asserti32immsz EmptyString ImmImm);
   ("assert_deserialized_protobufish_message_equals_strsz@OblectamentaDataLabel@", mkMnem Op.assert_deserialized_protobufish_message_equals_str EmptyString ImmImm);
   ("dbg_print_topi32", mkMnem Op.dbg_print_topi32 EmptyString NoArg);
   ("asserteqi32sz", mkMnem Op.asserteqi32 EmptyString Imm);
   ("ldi32reg", mkMnem Op.ldi32reg EmptyString RegOfs);
   ("dbg_printsz@OblectamentaDataLabel@", mkMnem Op.dbg_printsz EmptyString Imm);
   ("dbg_print_topf64", mkMnem Op.dbg_print_topf64 EmptyString NoArg);
   ("msg@Event@@OblectamentaDataLabel@", mkMnem Op.msg_glob_buffer EmptyString ImmImm);
   ("asserti32imm@OblectamentaReg@", mkMnem Op.asserti32immreg EmptyString ImmImm);
   ("sti8reg", mkMnem Op.sti8reg EmptyString RegOfs);
   ("shli64", mkMnem Op.shli64 EmptyString NoArg);
   ("beqi64", mkMnem Op.beqi64 EmptyString Imm);
   ("bneqi64", mkMnem Op.bneqi64 EmptyString Imm);
   ("shri64", mkMnem Op.shri64 EmptyString NoArg);
   ("shli32", mkMnem Op.shli32 EmptyString NoArg);
   ("shri32", mkMnem Op.shri32 EmptyString NoArg);
   ("dbg_println", mkMnem Op.dbg_println EmptyString NoArg)].

Definition mnemonics : list (string * mnemonic) :=
  mnemonics_core ++ mnemonics_flow ++ mnemonics_stack ++ mnemonics_assert.

(** std::map keeps the first of two initialisers with the same key. *)
Definition find_mnemonic (s : string) : option mnemonic :=
  snd <$> List.find (fun e => String.eqb (fst e) s) mnemonics.

(** ** Emission *)

(** The arguments an emitter of the table takes. *)
Inductive emit_args :=
| ANone
| AImm (v : Z)
| ARegOfs (reg reg_ofs : Z)
| ADbl (v : Z)
| AImmImm (v vv : Z).

Definition emit (o : Op.Opcode) (args : emit_args) (pos : Z) : M vm Z :=
  match args with
  | ANone => emit0 (opcode_num o) pos
  | AImm v => emit_imm (opcode_num o) pos v
  | ARegOfs reg reg_ofs => emit_reg (opcode_num o) pos reg reg_ofs
  | ADbl v => emit_dbl (opcode_num o) pos v
  | AImmImm v vv => emit_imm_imm (opcode_num o) pos v vv
  end.
