(* ===== verification/VMInv.v ===== *)
(** * State invariant and frame reasoning for the virtual machine

    [vm_ok]: the register file has 27 int64_t cells, memory, compute stack and text
    are bytes, the heap pointer lies inside the memory block. The triples below
    carry [vm_ok] together with an arbitrary stable predicate [P], so that the same
    automation proves that a handler preserves the invariant and that it leaves
    parts of the machine alone. *)

From S2P Require Import Prelude MachineInt F64 VMEnv Protobufish VMOps VMTable.

Record vm_ok (v : vm) : Prop := {
  ok_file_length : length (file v) = number_of_registers;
  ok_file : Forall (fun z => fits_s 64 z = true) (file v);
  ok_mem : Forall is_byte (mem v);
  ok_compute_stack : Forall is_byte (compute_stack v);
  ok_text : Forall is_byte (text v);
  ok_heap : 0 <= heap v <= mem_size v
}.

(** ** What a predicate must be closed under for a primitive to keep it *)

Section stable.
Context (P : vm -> Prop).

Definition stable_reg (r : Z) : Prop :=
  forall v z, P v -> P (set_file (<[Z.to_nat r := z]> (file v)) v).
Definition stable_cs : Prop := forall v c, P v -> P (set_compute_stack c v).
Definition stable_mem : Prop :=
  forall v m, length m = length (mem v) -> P v -> P (set_mem m v).
Definition stable_text : Prop :=
  forall v m, length m = length (text v) -> P v -> P (set_text m v).
Definition stable_console : Prop := forall v c, P v -> P (set_console c v).
Definition stable_fired : Prop := forall v f, P v -> P (set_fired f v).

Definition inv (v : vm) : Prop := vm_ok v /\ P v.
End stable.

(** ** The primitives *)

Lemma keeps_ret_eq {S A} (I : S -> Prop) (a : A) : keeps I (ret a) (fun x => x = a).
Proof. by apply keeps_ret. Qed.

Lemma keeps_trivial {S A} (I : S -> Prop) (m : M S A) Q :
  keeps I m Q -> keeps I m (fun _ => True).
Proof. intros H. by eapply keeps_weaken. Qed.

Lemma keeps_checked {S} (I : S -> Prop) t z :
  keeps I (checked t z) (fun r => in_range t r = true).
Proof.
  unfold checked. destruct (is_signed t) eqn:Es.
  - destruct (in_range t z) eqn:E; [by apply keeps_ret|apply keeps_undef].
  - apply keeps_ret. unfold in_range. rewrite Es. apply fits_u_spec.
    apply to_u_range. pose proof (bits_ge8 t). lia.
Qed.

Lemma fits_s64_I t z : in_range t z = true -> is_signed t = true -> fits_s 64 z = true.
Proof.
  intros Hi Hs. revert Hi. unfold in_range. rewrite Hs, !fits_s_spec.
  by destruct t; try done; unfold bits; simpl; lia.
Qed.

Lemma fits_s64_to_s z : fits_s 64 (to_s 64 z) = true.
Proof. apply fits_s_spec, to_s_range. lia. Qed.

Section prims.
Context (P : vm -> Prop).

Lemma ok_insert_reg v r z :
  vm_ok v -> fits_s 64 z = true ->
  vm_ok (set_file (<[Z.to_nat r := z]> (file v)) v).
Proof.
  intros [] Hz. split; simpl; try done.
  - by rewrite length_insert.
  - apply Forall_insert; [done|]. by rewrite Hz.
Qed.

Lemma keeps_get_reg r : keeps (inv P) (get_reg r) (fun z => fits_s 64 z = true).
Proof.
  intros v [Hv HP]. unfold get_reg.
  destruct (zlookup (file v) r) as [z|] eqn:E; [|done]. split; [done|].
  destruct Hv as [_ Hf _ _ _ _]. unfold zlookup in E. case_ifs; [done|].
  by eapply Forall_lookup_1 in Hf.
Qed.

Lemma keeps_set_reg r z :
  stable_reg P r -> fits_s 64 z = true ->
  keeps (inv P) (set_reg r z) (fun _ => True).
Proof.
  intros Hst Hz v [Hv HP]. unfold set_reg, bind, gets.
  unfold zinsert. destruct (in_bounds (file v) r 1) eqn:E; [|done].
  simpl. split; [|done]. split; [by apply ok_insert_reg|by apply Hst].
Qed.

Lemma keeps_rd t (f : vm -> list Z) a :
  (forall v, vm_ok v -> Forall is_byte (f v)) ->
  keeps (inv P) (let! m := gets f in let! bs := of_option (slice_get m a (sizeof t)) in
                 ret (decode t bs)) (fun z => in_range t z = true).
Proof.
  intros Hf v [Hv HP]. unfold bind, gets.
  destruct (slice_get (f v) a (sizeof t)) as [bs|] eqn:E; [|done]. simpl.
  split; [done|]. apply decode_in_range.
  - eapply Forall_slice_get; [|done]. by apply Hf.
  - by eapply slice_get_length.
Qed.

Lemma keeps_mem_rd t a : keeps (inv P) (mem_rd t a) (fun z => in_range t z = true).
Proof. apply keeps_rd. by intros ? []. Qed.

Lemma keeps_text_rd t a : keeps (inv P) (text_rd t a) (fun z => in_range t z = true).
Proof. apply keeps_rd. by intros ? []. Qed.

Lemma keeps_mem_wr t a z :
  stable_mem P -> keeps (inv P) (mem_wr t a z) (fun _ => True).
Proof.
  intros Hst v [Hv HP]. unfold mem_wr, mem_wr_bytes, bind, gets.
  destruct (slice_set (mem v) a (encode t z)) as [m|] eqn:E; [|done]. simpl.
  pose proof (slice_set_length _ _ _ _ E) as HL. split; [|done].
  split; [|by apply Hst]. destruct Hv as [H1 H2 H3 H4 H5 H6]. split; try done; simpl.
  - by eapply Forall_slice_set; [..|exact E]; [|apply encode_bytes].
  - unfold mem_size in *. simpl. by rewrite HL.
Qed.

Lemma keeps_text_wr t a z :
  stable_text P -> keeps (inv P) (text_wr t a z) (fun _ => True).
Proof.
  intros Hst v [Hv HP]. unfold text_wr, bind, gets.
  destruct (slice_set (text v) a (encode t z)) as [m|] eqn:E; [|done]. simpl.
  pose proof (slice_set_length _ _ _ _ E) as HL. split; [|done].
  split; [|by apply Hst]. destruct Hv as [H1 H2 H3 H4 H5 H6]. split; try done; simpl.
  by eapply Forall_slice_set; [..|exact E]; [|apply encode_bytes].
Qed.

Lemma keeps_set_cs c :
  stable_cs P -> Forall is_byte c ->
  keeps (inv P) (modify (set_compute_stack c)) (fun _ => True).
Proof.
  intros Hst Hc. apply keeps_modify; [|done]. intros v [[] HP].
  split; [by split|by apply Hst].
Qed.

Lemma keeps_push_cs t z :
  stable_cs P -> stable_reg P CSP -> keeps (inv P) (push_cs t z) (fun _ => True).
Proof.
  intros Hcs Hr. unfold push_cs.
  eapply keeps_bind; [apply keeps_get_reg|]. intros c _.
  eapply keeps_bind with (P := Forall is_byte).
  { apply keeps_gets. by intros v [[] ?]. }
  intros st Hst. eapply keeps_bind.
  { apply (keeps_of_option _ _ (Forall is_byte)). intros st' E.
    eapply Forall_slice_set; [..|exact E]; [|apply encode_bytes].
    case_ifs; [|done]. apply Forall_app; split; [done|].
    apply Forall_replicate. by split. }
  intros st' Hst'.
  eapply keeps_bind; [by apply keeps_set_cs|]. intros _ _.
  eapply keeps_bind; [apply keeps_set_reg; [done|apply fits_s64_to_s]|].
  intros _ _. by apply keeps_ret.
Qed.

Lemma keeps_pop_cs t :
  stable_reg P CSP -> keeps (inv P) (pop_cs t) (fun z => in_range t z = true).
Proof.
  intros Hr. unfold pop_cs.
  eapply keeps_bind; [apply keeps_get_reg|]. intros c Hc.
  destruct (c <=? 0) eqn:Ec; [apply keeps_throw|].
  eapply keeps_bind with (P := Forall is_byte).
  { apply keeps_gets. by intros v [[] ?]. }
  intros st Hst. eapply keeps_bind.
  { apply (keeps_of_option _ _ (fun bs => Forall is_byte bs /\ length bs = sizeof t)).
    intros bs E. split; [by eapply Forall_slice_get|by eapply slice_get_length]. }
  intros bs [Hb Hl].
  eapply keeps_bind.
  { apply keeps_set_reg; [done|]. apply fits_s_spec in Hc. apply fits_s_spec.
    zbool. by destruct t; simpl; lia. }
  intros _ _. apply keeps_ret. by apply decode_in_range.
Qed.

Lemma keeps_push_data_stack t z :
  stable_mem P -> stable_reg P SP -> keeps (inv P) (push_data_stack t z) (fun _ => True).
Proof.
  intros Hm Hr. unfold push_data_stack.
  eapply keeps_bind; [apply keeps_get_reg|]. intros p _.
  eapply keeps_bind; [apply keeps_set_reg; [done|apply fits_s64_to_s]|]. intros _ _.
  eapply keeps_bind; [by apply keeps_mem_wr|]. intros _ _. by apply keeps_ret.
Qed.

Lemma keeps_pop_data_stack t :
  stable_reg P SP -> keeps (inv P) (pop_data_stack t) (fun z => in_range t z = true).
Proof.
  intros Hr. unfold pop_data_stack.
  eapply keeps_bind; [apply keeps_get_reg|]. intros p _.
  eapply keeps_bind; [apply keeps_mem_rd|]. intros z Hz.
  eapply keeps_bind; [apply keeps_set_reg; [done|apply fits_s64_to_s]|]. intros _ _.
  by apply keeps_ret.
Qed.

Lemma keeps_pop2 `{Target} t :
  stable_reg P CSP ->
  keeps (inv P) (pop2 t) (fun p => in_range t p.1 = true /\ in_range t p.2 = true).
Proof.
  intros Hr. unfold pop2.
  eapply keeps_bind; [by apply keeps_pop_cs|]. intros a Ha.
  eapply keeps_bind; [by apply keeps_pop_cs|]. intros b Hb.
  apply keeps_ret. by destruct lhs_first.
Qed.

Lemma keeps_reg_operands pos :
  keeps (inv P) (reg_operands pos) (fun p => in_range I64 p.1 = true /\ in_range U32 p.2 = true).
Proof.
  unfold reg_operands.
  eapply keeps_bind; [apply keeps_text_rd|]. intros a Ha.
  eapply keeps_bind; [apply keeps_text_rd|]. intros b Hb. by apply keeps_ret.
Qed.

Lemma keeps_imm t pos : keeps (inv P) (imm t pos) (fun z => in_range t z = true).
Proof. apply keeps_text_rd. Qed.

Lemma keeps_imm2 t pos : keeps (inv P) (imm2 t pos) (fun z => in_range t z = true).
Proof. apply keeps_text_rd. Qed.

Lemma keeps_gets_True {S A} (I : S -> Prop) (f : S -> A) : keeps I (gets f) (fun _ => True).
Proof. by apply keeps_gets. Qed.

Lemma keeps_of_option_True {S A} (I : S -> Prop) (o : option A) :
  keeps I (of_option o) (fun _ => True).
Proof. by apply keeps_of_option. Qed.

Lemma keeps_get_True {S} (I : S -> Prop) : keeps I get (fun _ => True).
Proof. by intros s Hs. Qed.

Lemma keeps_console c :
  stable_console P -> keeps (inv P) (modify (set_console c)) (fun _ => True).
Proof.
  intros Hst. apply keeps_modify; [|done]. intros v [[] HP].
  split; [by split|by apply Hst].
Qed.

Lemma keeps_print s : stable_console P -> keeps (inv P) (print s) (fun _ => True).
Proof.
  intros Hst. eapply keeps_bind; [apply keeps_gets_True|]. intros c _.
  by apply keeps_console.
Qed.

Lemma keeps_print_w w s : stable_console P -> keeps (inv P) (print_w w s) (fun _ => True).
Proof.
  intros Hst. eapply keeps_bind; [apply keeps_gets_True|]. intros c _.
  by apply keeps_console.
Qed.

Lemma keeps_set_left : stable_console P -> keeps (inv P) set_left (fun _ => True).
Proof.
  intros Hst. eapply keeps_bind; [apply keeps_gets_True|]. intros c _.
  by apply keeps_console.
Qed.

Lemma keeps_fired g :
  stable_fired P ->
  keeps (inv P) (modify (fun v => if event_queue v then set_fired (g v) v else v))
        (fun _ => True).
Proof.
  intros Hst. apply keeps_modify; [|done]. intros v [Hv HP].
  destruct (event_queue v); [|done]. split; [|by apply Hst]. by destruct Hv; split.
Qed.

Lemma keeps_native `{Target} f a b c :
  stable_mem P ->
  keeps (inv P) (modify (fun v => set_mem (native_call f a b c (mem v)) v)) (fun _ => True).
Proof.
  intros Hst. apply keeps_modify; [|done]. intros v [[H1 H2 H3 H4 H5 H6] HP].
  split; [|apply Hst; [apply native_call_length|done]].
  split; try done; simpl; [by apply native_call_bytes|].
  unfold mem_size in *; simpl. by rewrite native_call_length.
Qed.
End prims.

(** ** Helpers that do not touch the state *)

Lemma keeps_div_op_True {S} (I : S -> Prop) t op a b :
  keeps I (div_op t op a b) (fun _ => True).
Proof. unfold div_op. case_ifs; [apply keeps_undef|by apply keeps_ret]. Qed.

Lemma keeps_shift_op_True {S} (I : S -> Prop) t op a b :
  keeps I (shift_op t op a b) (fun _ => True).
Proof. unfold shift_op. case_ifs; [by apply keeps_ret|apply keeps_undef]. Qed.

Lemma keeps_rd_buf {S} (I : S -> Prop) t buf a : keeps I (rd t buf a) (fun _ => True).
Proof.
  eapply keeps_bind; [apply keeps_of_option_True|]. intros. by apply keeps_ret.
Qed.

Lemma keeps_rd_sz {S} (I : S -> Prop) buf a : keeps I (rd_sz buf a) (fun _ => True).
Proof.
  eapply keeps_bind; [apply keeps_of_option_True|]. intros. by apply keeps_ret.
Qed.

Lemma keeps_mem_sz (I : vm -> Prop) a : keeps I (mem_sz a) (fun _ => True).
Proof.
  eapply keeps_bind; [apply keeps_gets_True|]. intros. apply keeps_rd_sz.
Qed.

Lemma keeps_find_zero {S} (I : S -> Prop) buf a size :
  keeps I (find_trailing_zero_at buf a size) (fun _ => True).
Proof.
  unfold find_trailing_zero_at. case_ifs; [apply keeps_of_option_True|apply keeps_undef].
Qed.

#[export] Hint Resolve keeps_gets_True keeps_of_option_True keeps_get_True keeps_rd_buf
  keeps_rd_sz keeps_mem_sz keeps_find_zero keeps_div_op_True keeps_shift_op_True : prog.

(** One syntactic step of a [keeps] goal: sequencing, conditionals, pairs. *)
Ltac keeps_step :=
  lazymatch goal with
  | |- keeps _ (bind _ _) _ => eapply keeps_bind; [|intros ? ?; simpl]
  | |- keeps _ (ret _) ?Q =>
    first [is_evar Q; apply keeps_ret_eq | apply keeps_ret; first [done | idtac]]
  | |- keeps _ (throw _) _ => apply keeps_throw
  | |- keeps _ undef _ => apply keeps_undef
  | |- keeps _ out_of_fuel _ => apply keeps_fuel
  | |- keeps _ (if _ then _ else _) ?Q =>
    first [is_evar Q; eapply (keeps_if _ _ _ _ (fun _ => True)) | apply keeps_if]
  | |- keeps _ (match ?x with _ => _ end) _ => destruct x
  end.

Lemma keeps_content_loop {S} (I : S -> Prop) deser buf content size :
  (forall a n, keeps I (deser a n) (fun _ => True)) ->
  forall fuel consumed inner nodes,
  keeps I (content_loop deser buf content size fuel consumed inner nodes) (fun _ => True).
Proof.
  intros Hd. induction fuel as [|fuel IH]; intros consumed inner nodes; simpl.
  - repeat keeps_step.
  - repeat first [solve [eauto with prog] | apply Hd | apply IH | keeps_step].
Qed.

Lemma keeps_deserialize `{Target} {S} (I : S -> Prop) fuel buf a size :
  keeps I (deserialize_event_payload fuel buf a size) (fun _ => True).
Proof.
  revert a size. induction fuel as [|fuel IH]; intros a size; simpl; [apply keeps_fuel|].
  repeat first [solve [eauto with prog] | apply keeps_rd_buf
               | by apply keeps_content_loop | keeps_step].
Qed.

(** ** Every handler *)

#[export] Hint Resolve keeps_get_reg keeps_mem_rd keeps_text_rd keeps_imm keeps_imm2
  keeps_reg_operands keeps_pop_cs keeps_pop2 keeps_push_cs keeps_set_reg keeps_mem_wr
  keeps_text_wr keeps_push_data_stack keeps_pop_data_stack keeps_print keeps_print_w
  keeps_set_left keeps_fired keeps_native keeps_checked keeps_deserialize : prog.

(** ** Footprints: what an instruction may write *)

Record footprint := mkFp {
  fp_regs : list Z;        (* registers it may write, by number *)
  fp_any_reg : bool;       (* the register comes from an operand *)
  fp_cs : bool;            (* bytes of the compute stack *)
  fp_mem : bool;
  fp_text : bool;
  fp_console : bool;
  fp_fired : bool
}.

Definition fp_nothing := mkFp [] false false false false false false.
Definition fp_pop := mkFp [CSP] false false false false false false.
Definition fp_stack := mkFp [CSP] false true false false false false.
Definition fp_store := mkFp [CSP] false false true false false false.
Definition fp_regs_only := mkFp [CSP; SP] true false false false false false.
Definition fp_sp := mkFp [SP] false false false false false false.
Definition fp_push_mem := mkFp [SP] false false true false false false.
Definition fp_native := mkFp [] false false true false false false.
Definition fp_code := mkFp [] false false false true false false.
Definition fp_print := mkFp [] false false false false true false.
Definition fp_print_stack := mkFp [CSP] false true false false true false.
Definition fp_fire := mkFp [] false false false false false true.

Section footprint_of.
Import Op.
Definition footprint_of (o : Opcode) : footprint :=
  match o with
  | halt | noop | ldptr | stptr | buc | cpysi32 | wrsi32 | setframe | asserti32immreg
  | assert_deserialized_protobufish_message_equals_str | assert_empty_cs => fp_nothing
  | haltimm => fp_code
  | beq | bneq | beqi8 | beqi64 | bneqi8 | bneqi64 | blt | blteq | bgt | bgteq
  | bgteqzeroi32 | blteqzeroi32 | bltzeroi32 | bzeroi32 | bnzeroi32 | bzeroi8 | bnzeroi8
  | bzeroi64 | bnzeroi64 | bzerodbl | bnzerodbl | discardtopi32 | discardtopi64
  | asserti32imm | asserti64imm | asserti32immsz | asserti64immsz | asserteqi32
  | assertf64imm | assertsz => fp_pop
  | sti8 | sti32 | sti64 | sri64 | stdbl | stsi8 | stsi32 | stsi64 | stsdbl => fp_store
  | sti64reg | sti32reg | sti8reg | popi32reg | popi64reg => fp_regs_only
  | popi32 | popi64 | ret => fp_sp
  | pushi32 | pushi64 | pushi32reg | pushi64reg | call => fp_push_mem
  | callx => fp_native
  | msg | msg_glob_buffer => fp_fire
  | dbg_print_topi32 | dbg_print_topi64 | dbg_print_topf64 => fp_print_stack
  | dbg_println | dbg_printlni32 | dbg_printlni32imm | dbg_printsz | dbg_print_dataimm
  | dbg_print_stackimm | dbg_print_cs_and_regsimm | dbg_deserialize_protobufish_to_json =>
    fp_print
  | _ => fp_stack
  end.
End footprint_of.

(** [v] differs from [v0] only inside the footprint. *)
Record same_outside (fp : footprint) (v0 v : vm) : Prop := {
  so_regs : fp_any_reg fp = false -> forall r, 0 <= r -> r ∉ fp_regs fp ->
            zlookup (file v) r = zlookup (file v0) r;
  so_cs : fp_cs fp = false -> compute_stack v = compute_stack v0;
  so_mem : fp_mem fp = false -> mem v = mem v0;
  so_text : fp_text fp = false -> text v = text v0;
  so_console : fp_console fp = false -> cons_out v = cons_out v0;
  so_fired : fp_fired fp = false -> fired v = fired v0;
  so_mem_size : length (mem v) = length (mem v0);
  so_text_size : length (text v) = length (text v0);
  so_fixed : (mem_base v, heap v, text_loc v, lbl_counter v, exfuncs v, label2loc v, event_queue v)
             = (mem_base v0, heap v0, text_loc v0, lbl_counter v0, exfuncs v0, label2loc v0,
                event_queue v0)
}.

Lemma same_outside_refl fp v : same_outside fp v v.
Proof. by split. Qed.

Section stability.
Context (fp : footprint) (v0 : vm).

Lemma so_stable_reg r :
  fp_any_reg fp || bool_decide (0 <= r /\ r ∈ fp_regs fp) = true ->
  stable_reg (same_outside fp v0) r.
Proof.
  intros Hr v z []. split; try done; simpl. intros Ha r' Hr' Hin.
  rewrite Ha in Hr. simpl in Hr. apply bool_decide_eq_true in Hr as [??].
  rewrite <- so_regs0 by done. apply zlookup_insert_ne; [done|]. by intros ->.
Qed.

Lemma so_stable_any_reg r : fp_any_reg fp = true -> stable_reg (same_outside fp v0) r.
Proof. intros Hr. apply so_stable_reg. by rewrite Hr. Qed.

Lemma so_stable_cs : fp_cs fp = true -> stable_cs (same_outside fp v0).
Proof. intros Hf v c []. split; try done; simpl. congruence. Qed.

Lemma so_stable_mem : fp_mem fp = true -> stable_mem (same_outside fp v0).
Proof. intros Hf v c HL []. split; try done; simpl; congruence. Qed.

Lemma so_stable_text : fp_text fp = true -> stable_text (same_outside fp v0).
Proof. intros Hf v c HL []. split; try done; simpl; congruence. Qed.

Lemma so_stable_console : fp_console fp = true -> stable_console (same_outside fp v0).
Proof. intros Hf v c []. split; try done; simpl. congruence. Qed.

Lemma so_stable_fired : fp_fired fp = true -> stable_fired (same_outside fp v0).
Proof. intros Hf v c []. split; try done; simpl. congruence. Qed.
End stability.

#[export] Hint Resolve so_stable_reg so_stable_any_reg so_stable_cs so_stable_mem so_stable_text
  so_stable_console so_stable_fired fits_s64_to_s fits_s64_I : prog.
#[export] Hint Extern 1 (_ = true) => reflexivity : prog.

(** Unfold the constant at the head of an application. *)
Ltac unfold_head m :=
  lazymatch m with
  | ?f _ => unfold_head f
  | _ => unfold m
  end.

Ltac keeps_unfold :=
  match goal with
  | |- keeps _ ?m _ =>
    lazymatch m with
    | bind _ _ => fail
    | _ => progress (unfold_head m)
    end
  end.

(** [keeps_tac]: walk through a handler, closing the primitives from the hints. *)
Ltac keeps_tac :=
  repeat first
    [ progress simplify_eq/=
    | match goal with H : _ /\ _ |- _ => destruct H end
    | solve [eauto 4 with prog]
    | solve [eapply keeps_trivial; eauto 4 with prog]
    | keeps_step
    | apply keeps_forM; intros ? ?
    | keeps_unfold ].

(** The member function the table holds for an opcode keeps the machine well formed
    and writes inside the opcode's footprint only. *)
Lemma dispatch_keeps `{Target} fuel o h pos v0 :
  zlookup (op_dispatch fuel) (opcode_num o) = Some h ->
  keeps (inv (same_outside (footprint_of o) v0)) (h pos) (fun _ => True).
Proof.
  intros Ho. destruct o; apply (inj Some) in Ho; subst h; keeps_tac.
Qed.
