(* ===== verification/VMCode.v ===== *)
(** * Code: emitted instructions, their length, fetching and decoding

    Shared facts about the text section: reading back what an emitter wrote, and
    how far each handler advances. *)

From S2P Require Import Prelude MachineInt F64 VMEnv Protobufish VMOps VMTable VMInv.

(** ** Reading the text *)

Lemma text_rd_spec t a v :
  text_rd t a v = match slice_get (text v) a (sizeof t) with
                  | Some bs => Ok (decode t bs) v | None => Undef end.
Proof. unfold text_rd, bind, gets. by destruct (slice_get _ _ _). Qed.

Lemma text_wr_spec t a z v :
  text_wr t a z v = match slice_set (text v) a (encode t z) with
                    | Some m => Ok tt (set_text m v) | None => Undef end.
Proof. unfold text_wr, bind, gets. by destruct (slice_set _ _ _). Qed.

Lemma text_rd_text t a v v' : text v' = text v ->
  forall z, text_rd t a v = Ok z v -> text_rd t a v' = Ok z v'.
Proof.
  intros Ht z. rewrite !text_rd_spec, Ht. destruct (slice_get _ _ _); [|done]. by intros [= ->].
Qed.

(** [code_at bs a v]: the bytes [bs] are in the text at offset [a]. *)
Definition code_at (bs : list Z) (a : Z) (v : vm) : Prop :=
  slice_get (text v) a (length bs) = Some bs.

Lemma slice_get_prefix {A} (l : list A) a n m bs :
  slice_get l a n = Some bs -> (m <= n)%nat -> slice_get l a m = Some (take m bs).
Proof.
  unfold slice_get. destruct (in_bounds l a n) eqn:E; [|done]. apply in_bounds_spec in E.
  intros [= <-] Hm. rewrite (proj2 (in_bounds_spec l a m)) by lia.
  by rewrite take_take, Nat.min_l by lia.
Qed.

Lemma slice_get_suffix {A} (l : list A) a (n m : nat) bs :
  slice_get l a (n + m) = Some bs -> slice_get l (a + Z.of_nat n) m = Some (drop n bs).
Proof.
  unfold slice_get. destruct (in_bounds l a (n + m)) eqn:E; [|done]. apply in_bounds_spec in E.
  intros [= <-]. rewrite (proj2 (in_bounds_spec l (a + Z.of_nat n) m)) by lia.
  rewrite skipn_firstn_comm, drop_drop. do 2 f_equal; [lia|]. f_equal. lia.
Qed.

Lemma slice_get_split {A} (l : list A) a n bs :
  slice_get l a n = Some bs -> exists pre post, l = pre ++ bs ++ post /\ Z.of_nat (length pre) = a.
Proof.
  unfold slice_get. destruct (in_bounds l a n) eqn:E; [|done]. apply in_bounds_spec in E.
  intros [= <-]. exists (take (Z.to_nat a) l), (drop n (drop (Z.to_nat a) l)).
  rewrite !take_drop. split; [done|]. rewrite length_take. lia.
Qed.

Lemma slice_get_join {A} (l : list A) a m bs1 bs2 :
  slice_get l a (length bs1) = Some bs1 ->
  slice_get l (a + Z.of_nat (length bs1)) m = Some bs2 ->
  slice_get l a (length bs1 + m) = Some (bs1 ++ bs2).
Proof.
  unfold slice_get. destruct (in_bounds l a (length bs1)) eqn:E; [|done].
  destruct (in_bounds l (a + _) m) eqn:E2; [|done].
  apply in_bounds_spec in E, E2. intros [= H1] [= H2].
  rewrite (proj2 (in_bounds_spec l a (length bs1 + m))) by lia. f_equal.
  rewrite <- (take_drop (length bs1) (take (length bs1 + m) _)), take_take, Nat.min_l by lia.
  rewrite H1, skipn_firstn_comm, drop_drop, <- H2. do 2 f_equal; [lia|]. f_equal. lia.
Qed.

Lemma code_at_app bs1 bs2 a v :
  code_at (bs1 ++ bs2) a v -> code_at bs1 a v /\ code_at bs2 (a + Z.of_nat (length bs1)) v.
Proof.
  unfold code_at. rewrite length_app. intros Hc. split.
  - erewrite slice_get_prefix; [|done|lia]. by rewrite take_app_length.
  - erewrite slice_get_suffix; [|done]. by rewrite drop_app_length.
Qed.

Lemma text_rd_code t z a v : code_at (encode t z) a v -> text_rd t a v = Ok (decode t (encode t z)) v.
Proof. unfold code_at. rewrite text_rd_spec, encode_length. by intros ->. Qed.

(** The opcode is four bytes wide but the dispatch uses the first one. *)
Lemma opcode_byte pos v n :
  Forall is_byte (text v) -> text_rd U32 pos v = Ok n v -> n < 256 -> text_rd U8 pos v = Ok n v.
Proof.
  rewrite !text_rd_spec. intros Hb. destruct (slice_get (text v) pos (sizeof U32)) as [bs|] eqn:E; [|done].
  pose proof (slice_get_length _ _ _ _ E) as HL. pose proof (Forall_slice_get _ _ _ _ _ Hb E) as Hbs.
  rewrite (slice_get_prefix _ _ _ (sizeof U8) _ E) by (simpl; lia).
  intros [= <-] Hn. f_equal. destruct bs as [|b bs]; [done|]. unfold decode in *. simpl in *.
  inversion Hbs as [|?? Hb0 Hbs']; subst. pose proof (le_dec_bound bs Hbs'). unfold is_byte in Hb0. lia.
Qed.

(** ** The bytes of an instruction *)

Definition arg_bytes (a : emit_args) : list Z :=
  match a with
  | ANone => []
  | AImm v => encode U64 v
  | ARegOfs reg reg_ofs => encode I64 reg_ofs ++ encode U32 reg
  | ADbl v => encode F64 v
  | AImmImm v vv => encode U64 v ++ encode U64 vv
  end.

Definition instr_bytes (o : Op.Opcode) (a : emit_args) : list Z :=
  encode U32 (opcode_num o) ++ arg_bytes a.

Definition emitted_length (e : emitter) : Z :=
  match e with NoArg => 4 | Imm => 12 | RegOfs => 16 | Dbl => 12 | ImmImm => 20 end.

Definition emitter_of (a : emit_args) : emitter :=
  match a with
  | ANone => NoArg | AImm _ => Imm | ARegOfs _ _ => RegOfs | ADbl _ => Dbl | AImmImm _ _ => ImmImm
  end.

Lemma instr_bytes_length o a : Z.of_nat (length (instr_bytes o a)) = emitted_length (emitter_of a).
Proof.
  unfold instr_bytes. rewrite length_app, encode_length.
  by destruct a; cbn [arg_bytes]; rewrite ?length_app, ?encode_length.
Qed.

(** Two adjacent writes are one write of the concatenation. *)
Lemma slice_set_adjacent {A} (l l1 : list A) a bs1 bs2 :
  slice_set l a bs1 = Some l1 ->
  slice_set l1 (a + Z.of_nat (length bs1)) bs2 = slice_set l a (bs1 ++ bs2).
Proof.
  intros H1. pose proof (slice_set_length _ _ _ _ H1) as HL.
  unfold slice_set in *. destruct (in_bounds l a (length bs1)) eqn:E1; [|done].
  apply in_bounds_spec in E1. injection H1 as <-.
  unfold in_bounds. rewrite HL, !length_app.
  replace (0 <=? a + Z.of_nat (length bs1)) with true by (symmetry; apply Z.leb_le; lia).
  replace (0 <=? a) with true by (symmetry; apply Z.leb_le; lia). simpl.
  replace (a + Z.of_nat (length bs1) + Z.of_nat (length bs2))
    with (a + Z.of_nat (length bs1 + length bs2)) by lia.
  destruct (_ <=? _) eqn:E2; [|done]. zbool. f_equal.
  replace (Z.to_nat (a + Z.of_nat (length bs1))) with (Z.to_nat a + length bs1)%nat by lia.
  assert (length (take (Z.to_nat a) l) = Z.to_nat a) as Ht by (rewrite length_take; lia).
  rewrite take_app, Ht, take_ge by lia.
  rewrite <- !app_assoc. f_equal.
  replace (Z.to_nat a + length bs1 - Z.to_nat a)%nat with (length bs1) by lia.
  rewrite take_app_length. f_equal. f_equal.
  rewrite <- Ht at 1. rewrite <- !Nat.add_assoc, drop_app_add, drop_app_add, drop_drop.
  f_equal. lia.
Qed.

Lemma slice_set_prefix_None {A} (l : list A) a bs1 bs2 :
  slice_set l a bs1 = None -> slice_set l a (bs1 ++ bs2) = None.
Proof.
  unfold slice_set. destruct (in_bounds l a (length bs1)) eqn:E; [done|]. intros _.
  destruct (in_bounds l a (length (bs1 ++ bs2))) eqn:E2; [|done].
  apply in_bounds_spec in E2. rewrite length_app in E2.
  rewrite (proj2 (in_bounds_spec l a (length bs1))) in E by lia. done.
Qed.

(** Writes of several values, one after the other. *)
Fixpoint text_wr_all (ws : list (ctype * Z)) (pos : Z) (k : M vm Z) : M vm Z :=
  match ws with
  | [] => k
  | (t, z) :: ws' => do! text_wr t pos z in text_wr_all ws' (pos + Z.of_nat (sizeof t)) k
  end.

Lemma text_wr_all_spec t z ws : forall pos v k,
  text_wr_all ((t, z) :: ws) pos k v =
  match slice_set (text v) pos (encode t z ++ concat (map (fun w => encode w.1 w.2) ws)) with
  | Some m => k (set_text m v)
  | None => Undef
  end.
Proof.
  revert t z. induction ws as [|[t' z'] ws IH]; intros t z pos v k.
  - simpl. unfold bind. rewrite text_wr_spec, app_nil_r. by destruct (slice_set _ _ _).
  - change (text_wr_all ((t, z) :: (t', z') :: ws) pos k v) with
      (bind (text_wr t pos z)
         (fun _ => text_wr_all ((t', z') :: ws) (pos + Z.of_nat (sizeof t)) k) v).
    unfold bind. rewrite text_wr_spec.
    destruct (slice_set (text v) pos (encode t z)) as [m|] eqn:E.
    + rewrite IH. simpl. rewrite <- (encode_length t z), (slice_set_adjacent _ _ _ _ _ E). done.
    + by rewrite slice_set_prefix_None.
Qed.

(** Emitting an instruction writes its bytes and returns the offset behind them. *)
Lemma emit_spec o a pos v :
  emit o a pos v = match slice_set (text v) pos (instr_bytes o a) with
                   | Some m => Ok (pos + emitted_length (emitter_of a)) (set_text m v)
                   | None => Undef end.
Proof.
  pose proof (text_wr_all_spec U32 (opcode_num o)
    match a with
    | ANone => [] | AImm v => [(U64, v)] | ARegOfs r o => [(I64, o); (U32, r)]
    | ADbl v => [(F64, v)] | AImmImm v vv => [(U64, v); (U64, vv)]
    end pos v (ret (pos + emitted_length (emitter_of a)))) as Hw.
  unfold instr_bytes.
  destruct a; cbn [arg_bytes map concat fst snd] in *; rewrite ?app_nil_r in *;
    (etransitivity; [|exact Hw]); unfold emit, emit0, emit_imm, emit_reg, emit_dbl, emit_imm_imm;
    cbn [text_wr_all emitter_of emitted_length];
    unfold bind; repeat (destruct (text_wr _ _ _ _); [|done..]);
    unfold ret; f_equal; lia.
Qed.

(** After an emit the bytes are in place. *)
Lemma emit_code o a pos v p v' :
  emit o a pos v = Ok p v' -> code_at (instr_bytes o a) pos v'.
Proof.
  rewrite emit_spec. destruct (slice_set _ _ _) as [m|] eqn:E; [|done].
  intros [= <- <-]. by apply (slice_get_set_same (text v)).
Qed.

(** ** How far a handler advances *)

Import Op.

(** Branches, calls and returns compute their own successor. *)
Definition jumps (o : Opcode) : bool :=
  match o with
  | buc | beq | bneq | beqi8 | beqi64 | bneqi8 | bneqi64 | blt | blteq | bgt | bgteq
  | bgteqzeroi32 | blteqzeroi32 | bltzeroi32 | bzeroi32 | bnzeroi32 | bzeroi8 | bnzeroi8
  | bzeroi64 | bnzeroi64 | bzerodbl | bnzerodbl | call => true
  | _ => false
  end.

(** The instructions that advance by less than their encoding. *)
Definition short_advance (o : Opcode) : option Z :=
  match o with
  | pushi32reg | popi32reg | pushi32 | pushi64 => Some 5
  | ldptr | stptr => Some 4
  | _ => None
  end.

(** The number of bytes the handler of an opcode skips. *)
Definition handler_length (o : Opcode) : Z :=
  match short_advance o with
  | Some n => n
  | None =>
    match List.find (fun e => bool_decide (mn_opcode (snd e) = o)) mnemonics with
    | Some e => emitted_length (mn_emit (snd e))
    | None => 4
    end
  end.

Definition successor_ok (o : Opcode) (pos : Z) (v0 : vm) (p : Z) : Prop :=
  if bool_decide (o = ret) then True
  else p = pos + handler_length o \/ jumps o = true /\ text_rd U64 (pos + 4) v0 = Ok p v0.

Definition text_kept (o : Opcode) (v0 v : vm) : Prop :=
  fp_text (footprint_of o) = false -> text v = text v0.

(** ** A second triple: what a returned value satisfies when the text is kept *)

Section advance.
Context (o : Opcode) (pos : Z) (v0 : vm).

Lemma successor_at p : p = pos + handler_length o -> successor_ok o pos v0 p.
Proof. intros ->. unfold successor_ok. case_bool_decide; [done|by left]. Qed.

Lemma keeps_target :
  jumps o = true -> fp_text (footprint_of o) = false ->
  keeps (inv (text_kept o v0)) (imm U64 pos) (successor_ok o pos v0).
Proof.
  intros Hj Ht v [Hok Hk]. pose proof (Hk Ht) as Hk'. unfold imm, base_opcode_width.
  rewrite text_rd_spec. destruct (slice_get (text v) (pos + 4) (sizeof U64)) as [bs|] eqn:E; [|done].
  split; [by split|]. unfold successor_ok.
  destruct (bool_decide (o = Op.ret)); [done|]. right. split; [done|].
  rewrite text_rd_spec, <- Hk'. by rewrite E.
Qed.

Lemma tk_stable_reg r : stable_reg (text_kept o v0) r.
Proof. by intros v z. Qed.
Lemma tk_stable_cs : stable_cs (text_kept o v0).
Proof. by intros v z. Qed.
Lemma tk_stable_mem : stable_mem (text_kept o v0).
Proof. by intros v z. Qed.
Lemma tk_stable_console : stable_console (text_kept o v0).
Proof. by intros v z. Qed.
Lemma tk_stable_fired : stable_fired (text_kept o v0).
Proof. by intros v z. Qed.
Lemma tk_stable_text : fp_text (footprint_of o) = true -> stable_text (text_kept o v0).
Proof. intros Ht v m _ _ H. by rewrite Ht in H. Qed.
End advance.

#[export] Hint Resolve keeps_target tk_stable_reg tk_stable_cs tk_stable_mem tk_stable_console
  tk_stable_fired tk_stable_text : prog.

Ltac advance_tac :=
  repeat first
    [ progress simplify_eq/=
    | match goal with H : _ /\ _ |- _ => destruct H end
    | solve [eauto 4 with prog]
    | lazymatch goal with
      | |- keeps _ (bind _ _) _ => eapply keeps_bind; [|intros ? ?; simpl]
      | |- keeps _ (Prelude.ret ?p) (successor_ok ?o ?pos ?v0) =>
        apply keeps_ret, successor_at;
        let n := eval vm_compute in (handler_length o) in change (handler_length o) with n;
        unfold base_opcode_width, addr_width; lia
      | |- keeps _ (next _) _ => unfold next
      | |- keeps _ (next_imm _) _ => unfold next_imm
      | |- keeps _ (next_imm_imm _) _ => unfold next_imm_imm
      | |- keeps _ (next_reg _) _ => unfold next_reg
      end
    | solve [eapply keeps_trivial; eauto 4 with prog]
    | keeps_step
    | apply keeps_forM; intros ? ?
    | keeps_unfold ].

Lemma dispatch_advance `{Target} fuel o h pos v0 :
  zlookup (op_dispatch fuel) (opcode_num o) = Some h ->
  keeps (inv (text_kept o v0)) (h pos) (successor_ok o pos v0).
Proof.
  intros Ho. destruct o; apply (inj Some) in Ho; subst h; advance_tac.
Qed.
