(* ===== verification/VMStack.v ===== *)
(** * The compute stack: push and pop as operations on a logical byte stack

    [is_stack l v]: the bytes below CSP are exactly [l]. The vector behind the stack
    may be longer (it never shrinks), so the instruction specifications are stated
    on [l]. The second half reads the shuffle instructions (the swp, duptop and
    discardtop families) as programs "pop these types, push these operands". *)

From S2P Require Import Prelude MachineInt VMEnv VMOps VMTable VMInv.

Definition is_stack (l : list Z) (v : vm) : Prop :=
  length (file v) = number_of_registers /\
  zlookup (file v) CSP = Some (Z.of_nat (length l)) /\
  take (length l) (compute_stack v) = l /\
  (length l <= length (compute_stack v))%nat /\
  Forall is_byte l.

(** [v'] is [v] but for the compute stack and CSP. *)
Definition same_but_cs (v v' : vm) : Prop :=
  exists c cs, v' = set_compute_stack cs (set_file (<[Z.to_nat CSP := c]> (file v)) v).

Lemma same_but_cs_trans v1 v2 v3 : same_but_cs v1 v2 -> same_but_cs v2 v3 -> same_but_cs v1 v3.
Proof.
  intros (c & cs & ->) (c' & cs' & ->). exists c', cs'.
  unfold set_compute_stack, set_file; simpl. f_equal. apply list_insert_insert_eq.
Qed.

Lemma same_but_cs_refl l v : is_stack l v -> same_but_cs v v.
Proof.
  intros (_ & H & _). exists (Z.of_nat (length l)), (compute_stack v).
  unfold zlookup in H. simpl in H. destruct v; unfold set_compute_stack, set_file; simpl in *.
  f_equal. symmetry. by apply list_insert_id.
Qed.

Lemma same_but_cs_text v v' : same_but_cs v v' -> text v' = text v.
Proof. by intros (c & cs & ->). Qed.

Lemma same_but_cs_mem v v' : same_but_cs v v' -> mem v' = mem v.
Proof. by intros (c & cs & ->). Qed.

Lemma same_but_cs_reg v v' r :
  same_but_cs v v' -> 0 <= r -> r <> CSP -> zlookup (file v') r = zlookup (file v) r.
Proof.
  intros (c & cs & ->) Hr Hne. simpl. apply (zlookup_insert_ne _ CSP); [done|congruence].
Qed.

(** Bound under which CSP stays an int64_t. *)
Definition fits_stack (n : nat) : Prop := Z.of_nat n < 4611686018427387904. (* 2^62 *)

Lemma slice_set_at_length (st bs : list Z) n :
  (n + length bs <= length st)%nat ->
  slice_set st (Z.of_nat n) bs = Some (take n st ++ bs ++ drop (n + length bs) st).
Proof. intros. rewrite slice_set_Some by lia. by rewrite Nat2Z.id. Qed.

Lemma push_spec l v t z :
  is_stack l v -> fits_stack (length l) ->
  exists v', push_cs t z v = Ok (Z.of_nat (length l)) v' /\
             is_stack (l ++ encode t z) v' /\ same_but_cs v v'.
Proof.
  intros (Hf & Hc & Ht & Hlen & Hb) Hfit. unfold fits_stack in Hfit.
  unfold push_cs, get_reg, set_reg, bind, gets. rewrite Hc. simpl.
  set (st := if u64 _ >=? _ then _ else _).
  assert (Hst : take (length l) st = l /\ (length l + sizeof t <= length st)%nat).
  { subst st. destruct (_ >=? _) eqn:E.
    - rewrite length_app, length_replicate, take_app_le by lia. split; [done|lia].
    - zbool. rewrite to_u_id in E by (clear -Hfit; destruct t; simpl; lia). split; [done|lia]. }
  clearbody st. destruct Hst as [Ht' Hlen'].
  rewrite slice_set_at_length by (rewrite encode_length; lia).
  rewrite Ht'. simpl. rewrite zinsert_Some by (simpl; rewrite Hf; unfold CSP, number_of_registers; simpl; lia).
  simpl. eexists. split; [done|]. split.
  - unfold is_stack. simpl. rewrite length_insert, !length_app, encode_length.
    split; [done|]. split.
    { rewrite (zlookup_insert_eq _ CSP) by (rewrite Hf; unfold CSP, number_of_registers; simpl; lia).
      f_equal. rewrite to_s_id; [lia..|]. clear -Hfit; destruct t; simpl; lia. }
    split.
    { rewrite app_assoc. apply take_app_length'. by rewrite length_app, encode_length. }
    split; [rewrite length_drop; lia|].
    apply Forall_app; split; [done|apply encode_bytes].
  - eexists _, _. done.
Qed.

Lemma pop_spec l bs v t :
  is_stack (l ++ bs) v -> length bs = sizeof t ->
  exists v', pop_cs t v = Ok (decode t bs) v' /\ is_stack l v' /\ same_but_cs v v'.
Proof.
  intros (Hf & Hc & Ht & Hlen & Hb) Hl. rewrite length_app in *.
  assert (0 < length bs)%nat by (rewrite Hl; destruct t; simpl; lia).
  unfold pop_cs, get_reg, set_reg, bind, gets. rewrite Hc. simpl.
  destruct (_ <=? 0) eqn:E; zbool; [lia|].
  replace (Z.of_nat (length l + length bs) - Z.of_nat (sizeof t)) with (Z.of_nat (length l)) by lia.
  assert (Hcs : compute_stack v = l ++ bs ++ drop (length l + length bs) (compute_stack v)).
  { rewrite app_assoc, <- Ht at 1. by rewrite take_drop. }
  rewrite Hcs, <- Hl, slice_get_app. simpl.
  rewrite zinsert_Some by (simpl; rewrite Hf; unfold CSP, number_of_registers; simpl; lia). simpl.
  eexists. split; [done|]. split.
  - unfold is_stack. simpl. rewrite length_insert. split; [done|].
    rewrite (zlookup_insert_eq _ CSP) by (rewrite Hf; unfold CSP, number_of_registers; simpl; lia).
    split; [done|]. rewrite Hcs. split; [apply take_app_length|].
    split; [rewrite !length_app; lia|]. by apply Forall_app in Hb as [? _].
  - eexists _, _. done.
Qed.

(** The error branch: popping the empty stack throws and changes nothing. *)
Lemma pop_empty_spec v t :
  is_stack [] v -> pop_cs t v = Throw (RuntimeError pop_empty_msg) v.
Proof. intros (_ & Hc & _). unfold pop_cs, get_reg, bind. by rewrite Hc. Qed.

(** Popping a value just pushed. *)
Lemma pop_encoded l v t z :
  is_stack (l ++ encode t z) v -> in_range t z = true ->
  exists v', pop_cs t v = Ok z v' /\ is_stack l v' /\ same_but_cs v v'.
Proof.
  intros Hs Hr. destruct (pop_spec l (encode t z) v t Hs (encode_length _ _)) as (v' & Hp & ?).
  exists v'. rewrite Hp, decode_encode; done.
Qed.

(** ** Symbolic execution of straight-line stack code *)

Ltac stack_step :=
  match goal with
  | H : is_stack (?l ++ ?bs) ?v |- context [bind (pop_cs ?t) _ ?v] =>
    let v' := fresh "v" in
    destruct (pop_spec l bs v t H) as (v' & ? & ? & ?);
      [by rewrite ?encode_length|];
    erewrite bind_Ok by eassumption
  | H : is_stack ?l ?v |- context [bind (push_cs ?t ?z) _ ?v] =>
    let v' := fresh "v" in
    destruct (push_spec l v t z H) as (v' & ? & ? & ?);
      [|erewrite bind_Ok by eassumption]
  end.

(** ** Shuffle instructions *)

Fixpoint pop_all (tys : list ctype) (acc : list (ctype * Z))
    (k : list (ctype * Z) -> M vm Z) : M vm Z :=
  match tys with
  | [] => k acc
  | t :: tys' => let! x := pop_cs t in pop_all tys' (acc ++ [(t, x)]) k
  end.

Fixpoint push_all (xs : list (ctype * Z)) (k : M vm Z) : M vm Z :=
  match xs with
  | [] => k
  | (t, x) :: xs' => do! push_cs t x in push_all xs' k
  end.

(** [select order xs]: the elements of [xs] at the given positions. *)
Fixpoint select {A} (order : list nat) (xs : list A) : list A :=
  match order with
  | [] => []
  | i :: order' =>
    match xs !! i with Some x => x :: select order' xs | None => select order' xs end
  end.

Lemma select_length {A} order (xs : list A) : (length (select order xs) <= length order)%nat.
Proof. induction order as [|i order IH]; simpl; [lia|]. destruct (xs !! i); simpl; lia. Qed.

(** Pop operands of the types [tys] (the top first), push the operands [order]. *)
Definition shuffle (tys : list ctype) (order : list nat) (pos : Z) : M vm Z :=
  pop_all tys [] (fun xs => push_all (select order xs) (next pos)).

Import Op.

(** The types popped (top first) and the operands pushed, by position. *)
Definition shuffle_of (o : Opcode) : option (list ctype * list nat) :=
  match o with
  | swp => Some ([I32; I32], [0; 1])
  | swpi64 => Some ([I64; I64], [0; 1])
  | swpi16i64 => Some ([I16; I64], [0; 1])
  | swpi8i64 => Some ([I8; I64], [0; 1])
  | swpi32i64 => Some ([I32; I64], [0; 1])
  | swpi8i128 => Some ([I8; I64; I64], [0; 2; 1])
  | swpi16i128 => Some ([I16; I64; I64], [0; 2; 1])
  | swpi64b128 => Some ([I64; I64; I64], [0; 2; 1])
  | swpi64b72 => Some ([I64; I64; I8], [0; 2; 1])
  | swp128i64 => Some ([I64; I64; I64], [1; 0; 2])
  | swp96i64 => Some ([I64; I32; I64], [1; 0; 2])
  | swp80i64 => Some ([I64; I16; I64], [1; 0; 2])
  | swp72i64 => Some ([I64; I8; I64], [1; 0; 2])
  | swp128b8 => Some ([I64; I64; I8], [1; 0; 2])
  | swp192i64 => Some ([I64; I64; I64; I64], [2; 1; 0; 3])
  | swpi160i64 => Some ([I64; I64; I32; I64], [2; 1; 0; 3])
  | swpi192i32 => Some ([I64; I64; I64; I32], [2; 1; 0; 3])
  | swpi64i192 => Some ([I64; I64; I64; I64], [0; 3; 2; 1])
  | duptopi8 => Some ([I8], [0; 0])
  | duptopi32 => Some ([I32], [0; 0])
  | duptopi64 => Some ([I64], [0; 0])
  | duptopi128 => Some ([I64; I64], [1; 0; 1; 0])
  | duptopi192 => Some ([I64; I64; I64], [2; 1; 0; 2; 1; 0])
  | discardtopi32 => Some ([I32], [])
  | discardtopi64 => Some ([I64], [])
  | _ => None
  end%nat.

Lemma shuffle_of_dispatch `{Target} fuel o tys order :
  shuffle_of o = Some (tys, order) ->
  zlookup (op_dispatch fuel) (opcode_num o) = Some (shuffle tys order).
Proof. by destruct o; intros [= <- <-]. Qed.

Lemma pop_all_spec tys : forall blocks acc l v k,
  Forall2 (fun t b => length b = sizeof t) tys blocks ->
  is_stack (l ++ concat (rev blocks)) v ->
  exists v', pop_all tys acc k v
             = k (acc ++ zip_with (fun t b => (t, decode t b)) tys blocks) v'
             /\ is_stack l v' /\ same_but_cs v v'.
Proof.
  induction tys as [|t tys IH]; intros blocks acc l v k Hbl Hs;
    inversion Hbl as [|? b ? blocks' Hb Hbl']; subst; simpl.
  - exists v. rewrite app_nil_r in *. split; [done|]. split; [done|].
    by eapply same_but_cs_refl.
  - simpl in Hs. rewrite concat_app in Hs. simpl in Hs. rewrite app_nil_r, app_assoc in Hs.
    stack_step.
    edestruct IH as (v2 & -> & Hs2 & Hf2); [done|done|].
    exists v2. rewrite <- app_assoc. simpl. eauto using same_but_cs_trans.
Qed.

Lemma push_all_spec xs : forall l v k,
  is_stack l v -> fits_stack (length l + 8 * length xs) ->
  exists v', push_all xs k v = k v' /\
             is_stack (l ++ concat (map (fun tx => encode tx.1 tx.2) xs)) v' /\ same_but_cs v v'.
Proof.
  unfold fits_stack. induction xs as [|[t x] xs IH]; intros l v k Hs Hfit; simpl.
  - exists v. rewrite app_nil_r. split; [done|]. split; [done|]. by eapply same_but_cs_refl.
  - stack_step; [unfold fits_stack in *; simpl in *; lia|].
    edestruct IH as (v2 & -> & Hs2 & Hf2); [done| |].
    { rewrite length_app, encode_length. simpl in Hfit. destruct t; simpl; lia. }
    exists v2. rewrite <- app_assoc in Hs2. eauto using same_but_cs_trans.
Qed.

Lemma select_zip order : forall tys blocks,
  Forall is_byte (concat blocks) ->
  Forall2 (fun t b => length b = sizeof t) tys blocks ->
  concat (map (fun tx : ctype * Z => encode tx.1 tx.2)
              (select order (zip_with (fun t b => (t, decode t b)) tys blocks)))
  = concat (select order blocks).
Proof.
  intros tys blocks Hb Hbl. induction order as [|i order IH]; [done|].
  simpl. rewrite lookup_zip_with.
  destruct (blocks !! i) as [b|] eqn:Eb.
  - destruct (Forall2_lookup_r _ _ _ _ _ Hbl Eb) as (t & Et & Hl).
    rewrite Et. simpl. rewrite IH. f_equal. apply encode_decode; [|done].
    rewrite Forall_concat in Hb. by eapply Forall_lookup_1 in Hb.
  - destruct (tys !! i); simpl; exact IH.
Qed.

(** The meaning of [shuffle] on the logical stack. *)
Lemma shuffle_spec tys order blocks l v pos :
  Forall2 (fun t b => length b = sizeof t) tys blocks ->
  is_stack (l ++ concat (rev blocks)) v ->
  fits_stack (length l + 8 * length order) ->
  exists v', shuffle tys order pos v = Ok (base_opcode_width + pos) v' /\
             is_stack (l ++ concat (select order blocks)) v' /\ same_but_cs v v'.
Proof.
  intros Hbl Hs Hfit. unfold shuffle.
  destruct (pop_all_spec tys blocks [] l v
    (fun xs => push_all (select order xs) (next pos)) Hbl Hs) as (v1 & -> & Hs1 & Hf1).
  simpl. edestruct (push_all_spec (select order (zip_with (fun t b => (t, decode t b)) tys blocks)))
    as (v2 & -> & Hs2 & Hf2); [done| |].
  { assert (length (select order (zip_with (fun t b => (t, decode t b)) tys blocks))
            <= length order)%nat by apply select_length.
    unfold fits_stack in *. lia. }
  exists v2. split; [done|]. rewrite select_zip in Hs2; [eauto using same_but_cs_trans| |done].
  destruct Hs as (_ & _ & _ & _ & Hb). apply Forall_app in Hb as [_ Hb].
  rewrite Forall_concat in *. apply Forall_rev in Hb. by rewrite rev_involutive in Hb.
Qed.
