(* ===== verification/VMArith.v ===== *)
(** * What the computing instructions do

    Tables that give, for the arithmetic, bit, shift, comparison, conversion and
    branch instructions, the types they pop, the function they compute ([None]:
    undefined behaviour of C++) and the type they push, and the lemmas with which
    the handlers of VMOps.v are checked against them. *)

From S2P Require Import Prelude MachineInt F64 VMEnv VMOps VMTable VMInv VMStack.

Section tables.
Context `{Target}.
Import Op.

(** The result of a signed operation, if it fits. *)
Definition fit (t : ctype) (z : Z) : option Z := if in_range t z then Some z else None.

Definition quot_of (t : ctype) (a b : Z) : option Z :=
  if b =? 0 then None else fit t (Z.quot a b).
Definition rem_of (t : ctype) (a b : Z) : option Z :=
  if b =? 0 then None else (fun _ => Z.rem a b) <$> fit t (Z.quot a b).
Definition shl_of (w n a : Z) : option Z :=
  if n <? w then Some ((a * 2 ^ n) mod 2 ^ w) else None.
Definition shr_of (w n a : Z) : option Z :=
  if n <? w then Some (a / 2 ^ n) else None.
Definition bool_of (b : bool) : option Z := Some (if b then 1 else 0).

Record binop := mkBinop {
  sequenced : bool;                (* separate statements pop the operands *)
  ty_top : ctype; ty_below : ctype; ty_res : ctype;
  fn : Z -> Z -> option Z          (* left operand, right operand *)
}.

Definition seq2 t r f := Some (mkBinop true t t r f).
Definition unseq2 t f := Some (mkBinop false t t t f).

Definition binop_of (o : Opcode) : option binop :=
  match o with
  | addi32 => unseq2 I32 (fun a b => fit I32 (a + b))
  | addi64 => unseq2 I64 (fun a b => fit I64 (a + b))
  | adddbl => unseq2 F64 (fun a b => Some (f64_add nan_bits a b))
  | muli32 => unseq2 I32 (fun a b => fit I32 (a * b))
  | muli64 => unseq2 I64 (fun a b => fit I64 (a * b))
  | muldbl => unseq2 F64 (fun a b => Some (f64_mul nan_bits a b))
  | subi32 => seq2 I32 I32 (fun a b => fit I32 (a - b))
  | subi64 => seq2 I64 I64 (fun a b => fit I64 (a - b))
  | subdbl => seq2 F64 F64 (fun a b => Some (f64_sub nan_bits a b))
  | divi32 => unseq2 I32 (quot_of I32)
  | divi64 => unseq2 I64 (quot_of I64)
  | divdbl => unseq2 F64 (fun a b => Some (f64_div nan_bits a b))
  | remi32 => unseq2 I32 (rem_of I32)
  | remi64 => unseq2 I64 (rem_of I64)
  | andi32 => unseq2 U32 (fun a b => Some (Z.land a b))
  | andi64 => unseq2 U64 (fun a b => Some (Z.land a b))
  | ori32 => unseq2 U32 (fun a b => Some (Z.lor a b))
  | ori64 => unseq2 U64 (fun a b => Some (Z.lor a b))
  | xori32 => unseq2 U32 (fun a b => Some (Z.lxor a b))
  | xori64 => unseq2 U64 (fun a b => Some (Z.lxor a b))
  | andni32 => unseq2 U32 (fun a b => Some (Z.ldiff a b))
  | andni64 => unseq2 U64 (fun a b => Some (Z.ldiff a b))
  | shli32 => Some (mkBinop true U32 U32 U32 (fun n a => shl_of 32 n a))
  | shli64 => Some (mkBinop true U32 U64 U64 (fun n a => shl_of 64 n a))
  | shri32 => Some (mkBinop true U32 U32 U32 (fun n a => shr_of 32 n a))
  | shri64 => Some (mkBinop true U32 U64 U64 (fun n a => shr_of 64 n a))
  | lti32 => seq2 I32 I32 (fun a b => bool_of (a <? b))
  | lti64 => seq2 I64 I32 (fun a b => bool_of (a <? b))
  | ltdbl => seq2 F64 I32 (fun a b => bool_of (f64_lt a b))
  | lteqi32 => seq2 I32 I32 (fun a b => bool_of (a <=? b))
  | lteqi64 => seq2 I64 I32 (fun a b => bool_of (a <=? b))
  | lteqdbl => seq2 F64 I32 (fun a b => bool_of (f64_le a b))
  | gti32 => seq2 I32 I32 (fun a b => bool_of (b <? a))
  | gti64 => seq2 I64 I32 (fun a b => bool_of (b <? a))
  | gtdbl => seq2 F64 I32 (fun a b => bool_of (f64_gt a b))
  | gteqi32 => seq2 I32 I32 (fun a b => bool_of (b <=? a))
  | gteqi64 => seq2 I64 I32 (fun a b => bool_of (b <=? a))
  | gteqdbl => seq2 F64 I32 (fun a b => bool_of (f64_gt a b))
  | eqi32 => seq2 I32 I32 (fun a b => bool_of (a =? b))
  | eqi64 => seq2 I64 I32 (fun a b => bool_of (a =? b))
  | eqdbl => seq2 F64 I32 (fun a b => bool_of (f64_eq a b))
  | _ => None
  end.

(** Unary instructions: popped type, function, pushed type. *)
Definition unop_of (o : Opcode) : option (ctype * (Z -> option Z) * ctype) :=
  match o with
  | noti32 => Some (U32, fun a => bool_of (a =? 0), U32)
  | noti64 => Some (U64, fun a => bool_of (a =? 0), U64)
  | negi32 => Some (I32, fun a => fit I32 (- a), I32)
  | negi64 => Some (I64, fun a => fit I64 (- a), I64)
  | negdbl => Some (F64, fun a => Some (f64_mul nan_bits f64_minus_one a), F64)
  | sindbl => Some (F64, fun a => Some (libm_sin a), F64)
  | cosdbl => Some (F64, fun a => Some (libm_cos a), F64)
  | tandbl => Some (F64, fun a => Some (libm_tan a), F64)
  | atandbl => Some (F64, fun a => Some (libm_atan a), F64)
  | expdbl => Some (F64, fun a => Some (libm_exp a), F64)
  | tanhdbl => Some (F64, fun a => Some (libm_tanh a), F64)
  | ui32toui64 => Some (U32, Some, U64)
  | ui8toui32 => Some (U8, Some, U32)
  | ui8toui64 => Some (U8, Some, U64)
  | _ => None
  end.

(** Conditional branches on two operands (left, right) and on one. *)
Definition branch2_of (o : Opcode) : option (ctype * (Z -> Z -> bool)) :=
  match o with
  | beq => Some (I32, Z.eqb)
  | beqi8 => Some (I8, Z.eqb)
  | beqi64 => Some (I64, Z.eqb)
  | bneq => Some (I32, fun a b => negb (a =? b))
  | bneqi8 => Some (I8, fun a b => negb (a =? b))
  | bneqi64 => Some (I64, fun a b => negb (a =? b))
  | blt => Some (I32, Z.ltb)
  | blteq => Some (I32, Z.leb)
  | bgt => Some (I32, fun a b => b <? a)
  | bgteq => Some (I32, fun a b => b <=? a)
  | _ => None
  end.

Definition branch1_of (o : Opcode) : option (ctype * (Z -> bool)) :=
  match o with
  | bgteqzeroi32 => Some (I32, fun a => 0 <=? a)
  | blteqzeroi32 => Some (I32, fun a => a <=? 0)
  | bltzeroi32 => Some (I32, fun a => a <? 0)
  | bzeroi32 => Some (I32, Z.eqb 0)
  | bnzeroi32 => Some (I32, fun a => negb (0 =? a))
  | bzeroi64 => Some (I64, Z.eqb 0)
  | bnzeroi64 => Some (I64, fun a => negb (0 =? a))
  | bzeroi8 => Some (I8, Z.eqb 0)
  | bnzeroi8 => Some (I8, Z.eqb 0)
  | bzerodbl => Some (F64, fun a => f64_eq a f64_zero)
  | bnzerodbl => Some (F64, fun a => negb (f64_eq a f64_zero))
  | _ => None
  end.
End tables.

(** ** Lemmas *)

Section lemmas.
Context `{Target}.

Lemma one_pop l v t a :
  is_stack (l ++ encode t a) v -> in_range t a = true ->
  exists v', is_stack l v' /\ same_but_cs v v' /\
    forall k : Z -> M vm Z, bind (pop_cs t) k v = k a v'.
Proof.
  intros Hs Ha. destruct (pop_encoded _ _ _ _ Hs Ha) as (v' & Hp & Hs' & Hf).
  exists v'. split; [done|]. split; [done|]. intros k. by rewrite (bind_Ok _ _ _ _ _ Hp).
Qed.

(** Both ways the code pops two operands. *)
Lemma two_pops l v t1 t2 a b :
  is_stack (l ++ encode t2 b ++ encode t1 a) v ->
  in_range t1 a = true -> in_range t2 b = true ->
  exists v', is_stack l v' /\ same_but_cs v v' /\
    (forall k : Z -> Z -> M vm Z,
       (let! x := pop_cs t1 in let! y := pop_cs t2 in k x y) v = k a b v') /\
    (t1 = t2 -> forall k : Z * Z -> M vm Z,
       bind (pop2 t1) k v = k (if lhs_first then (a, b) else (b, a)) v').
Proof.
  rewrite app_assoc. intros Hs Ha Hb.
  destruct (pop_encoded _ _ _ _ Hs Ha) as (v1 & Hp1 & Hs1 & Hf1).
  destruct (pop_encoded _ _ _ _ Hs1 Hb) as (v2 & Hp2 & Hs2 & Hf2).
  exists v2. split; [done|]. split; [by eapply same_but_cs_trans|]. split.
  - intros k. by rewrite (bind_Ok _ _ _ _ _ Hp1), (bind_Ok _ _ _ _ _ Hp2).
  - intros <- k. unfold pop2. rewrite bind_assoc, (bind_Ok _ _ _ _ _ Hp1).
    by rewrite bind_assoc, (bind_Ok _ _ _ _ _ Hp2), bind_ret_l.
Qed.

(** The outcome "[Some r]: push it and go on, [None]: undefined behaviour". *)
Definition pushes (l : list Z) (t : ctype) (r : option Z) (p : Z) (v : vm) (o : outcome vm Z) : Prop :=
  match r with
  | Some r => exists v', o = Ok p v' /\ is_stack (l ++ encode t r) v' /\ same_but_cs v v'
  | None => o = Undef
  end.

Lemma pushes_push l t r pos v0 v :
  is_stack l v -> same_but_cs v0 v -> fits_stack (length l) ->
  pushes l t (Some r) (base_opcode_width + pos) v0
         ((do! push_cs t r in next pos) v).
Proof.
  intros Hs Hf Hl. destruct (push_spec l v t r Hs Hl) as (v' & Hp & Hs' & Hf').
  exists v'. rewrite (bind_Ok _ _ _ _ _ Hp). split; [done|].
  split; [done|]. by eapply same_but_cs_trans.
Qed.

Lemma pushes_checked l t r pos v0 v :
  is_signed t = true ->
  is_stack l v -> same_but_cs v0 v -> fits_stack (length l) ->
  pushes l t (fit t r) (base_opcode_width + pos) v0
         ((let! r := checked t r in do! push_cs t r in next pos) v).
Proof.
  intros Ht Hs Hf Hl. unfold checked, fit. rewrite Ht.
  destruct (in_range t r); [by apply pushes_push|done].
Qed.

Lemma pushes_quot l t a b pos v0 v :
  is_stack l v -> same_but_cs v0 v -> fits_stack (length l) ->
  pushes l t (quot_of t a b) (base_opcode_width + pos) v0
         ((let! r := div_op t Z.quot a b in do! push_cs t r in next pos) v).
Proof.
  intros Hs Hf Hl. unfold div_op, quot_of, fit.
  destruct (b =? 0); [done|]. destruct (in_range t (Z.quot a b)); [by apply pushes_push|done].
Qed.

Lemma pushes_rem l t a b pos v0 v :
  is_stack l v -> same_but_cs v0 v -> fits_stack (length l) ->
  pushes l t (rem_of t a b) (base_opcode_width + pos) v0
         ((let! r := div_op t Z.rem a b in do! push_cs t r in next pos) v).
Proof.
  intros Hs Hf Hl. unfold div_op, rem_of, fit.
  destruct (b =? 0); [done|]. destruct (in_range t (Z.quot a b)); [by apply pushes_push|done].
Qed.

Lemma pushes_shl l t a n pos v0 v :
  0 <= n -> is_stack l v -> same_but_cs v0 v -> fits_stack (length l) ->
  pushes l t (shl_of (bits t) n a) (base_opcode_width + pos) v0
         ((let! r := shift_op t Z.shiftl a n in do! push_cs t r in next pos) v).
Proof.
  intros Hn Hs Hf Hl. unfold shift_op, shl_of. destruct (n <? bits t); [|done].
  rewrite <- Z.shiftl_mul_pow2 by done. by apply pushes_push.
Qed.

Lemma pushes_shr l t a n pos v0 v :
  0 <= n -> 0 <= a < 2 ^ bits t -> is_stack l v -> same_but_cs v0 v -> fits_stack (length l) ->
  pushes l t (shr_of (bits t) n a) (base_opcode_width + pos) v0
         ((let! r := shift_op t Z.shiftr a n in do! push_cs t r in next pos) v).
Proof.
  intros Hn Ha Hs Hf Hl. unfold shift_op, shr_of. destruct (n <? bits t); [|done].
  rewrite Z.shiftr_div_pow2 by done. unfold bind, ret.
  rewrite to_u_id; [by apply pushes_push|].
  pose proof (pow2_pos n Hn). split; [apply Z.div_pos; lia|].
  apply Z.le_lt_trans with a; [|lia]. apply Z.div_le_upper_bound; nia.
Qed.

(** [a & ~b] at a fixed width is the set difference of the bits. *)
Lemma land_lnot_width w a b :
  0 <= w -> 0 <= a < 2 ^ w -> Z.land a (to_u w (Z.lnot b)) = Z.ldiff a b.
Proof.
  intros Hw Ha. apply Z.bits_inj'. intros i Hi.
  rewrite Z.land_spec, Z.ldiff_spec. unfold to_u.
  destruct (decide (i < w)).
  - by rewrite Z.mod_pow2_bits_low, Z.lnot_spec by lia.
  - replace (Z.testbit a i) with false; [done|]. symmetry.
    destruct (decide (a = 0)) as [->|]; [apply Z.bits_0|].
    apply Z.bits_above_log2; [lia|]. apply Z.log2_lt_pow2; [lia|].
    apply Z.lt_le_trans with (2 ^ w); [lia|]. apply Z.pow_le_mono_r; lia.
Qed.

Lemma in_range_u t a : is_signed t = false -> in_range t a = true -> 0 <= a < 2 ^ bits t.
Proof. unfold in_range. intros ->. apply fits_u_spec. Qed.
End lemmas.

Create HintDb vmarith.
#[export] Hint Resolve pushes_push pushes_checked pushes_quot pushes_rem in_range_u : vmarith.
