(* ===== verification/VMSpec.v ===== *)
(** * Theorems about the instructions of the virtual machine *)

From S2P Require Import Prelude MachineInt F64 VMEnv Protobufish VMOps VMTable VMInv VMCode VMStack VMArith.

(** The machine just constructed, on a text block of zeros. *)
Definition vm0 : vm :=
  set_file (<[0%nat := 4096]> (replicate number_of_registers 0))
           (empty_vm (replicate 64 0) 4096).

Definition with_stack (l : list Z) (v : vm) : vm :=
  set_compute_stack l (set_file (<[2%nat := Z.of_nat (length l)]> (file v)) v).

Lemma with_stack_is_stack l :
  Forall is_byte l -> is_stack l (with_stack l vm0).
Proof.
  intros Hl. unfold is_stack; simpl. split; [done|]. split; [done|].
  split; [by apply firstn_all|]. split; [done|done].
Qed.

Definition byteb (b : Z) : bool := (0 <=? b) && (b <? 256).

Lemma bytes_dec l : forallb byteb l = true -> Forall is_byte l.
Proof.
  rewrite forallb_forall, Forall_forall. intros Hl x Hx.
  apply list_elem_of_In in Hx. apply Hl in Hx. unfold byteb in Hx. zbool. done.
Qed.

(** ** Arithmetic, bit and comparison instructions *)

(** C3: the two-operand arithmetic, bit, shift and comparison instructions of the
    dispatch table compute the function of the table [binop_of] on the two topmost
    values: both are popped, the result is pushed, nothing but the compute stack
    changes and the next instruction follows; a signed result out of range, a zero
    divisor, MIN / -1 and an oversized shift count are undefined behaviour. *)
Theorem binop_correct `{Target} fuel o h op :
  binop_of o = Some op -> zlookup (op_dispatch fuel) (opcode_num o) = Some h ->
  forall pos l v a b,
  is_stack (l ++ encode (ty_below op) b ++ encode (ty_top op) a) v ->
  in_range (ty_top op) a = true -> in_range (ty_below op) b = true ->
  fits_stack (length l) ->
  pushes l (ty_res op)
    (if sequenced op || lhs_first then fn op a b else fn op b a)
    (base_opcode_width + pos) v (h pos v).
Proof.
  intros Hop Hh pos l v a b Hs Ha Hb Hl.
  destruct (two_pops l v _ _ a b Hs Ha Hb) as (v' & Hs' & Hf & Hseq & Hun).
  destruct o; try discriminate Hop; injection Hop as <-; apply (inj Some) in Hh; subst h;
    cbn [sequenced ty_top ty_below ty_res fn orb] in *;
    (* let the goal show which way the operands are popped *)
    match goal with
    | |- pushes _ _ _ _ _ (?m v) => unfold_head m
    end;
    first [rewrite Hseq | rewrite (Hun eq_refl)];
    try destruct lhs_first; cbn iota beta zeta; unfold b2z, bool_of.
  all: try solve [eauto with vmarith].
  all: try solve [rewrite (land_lnot_width 32) || rewrite (land_lnot_width 64);
                  [by apply pushes_push|done|by apply (in_range_u U32) || by apply (in_range_u U64)]].
  all: try solve [rewrite Z.gtb_ltb || rewrite Z.geb_leb; by apply pushes_push].
  all: try solve [(apply (pushes_shl l U32) || apply (pushes_shl l U64)); try done;
                  by apply (in_range_u U32)].
  all: try solve [(apply (pushes_shr l U32) || apply (pushes_shr l U64)); try done;
                  by apply (in_range_u U32) || by apply (in_range_u U64)].
Qed.

(** The one-operand instructions (logical not, negation, libm functions, unsigned
    widening) replace the top of the stack by the function of [unop_of]. *)
Theorem unop_correct `{Target} fuel o h t f t' :
  unop_of o = Some (t, f, t') -> zlookup (op_dispatch fuel) (opcode_num o) = Some h ->
  forall pos l v a,
  is_stack (l ++ encode t a) v -> in_range t a = true -> fits_stack (length l) ->
  pushes l t' (f a) (base_opcode_width + pos) v (h pos v).
Proof.
  intros Hop Hh pos l v a Hs Ha Hl.
  destruct (one_pop l v _ a Hs Ha) as (v' & Hs' & Hf & Hk).
  destruct o; try discriminate Hop; injection Hop as <- <- <-; apply (inj Some) in Hh; subst h;
    match goal with |- pushes _ _ _ _ _ (?m v) => unfold_head m end;
    rewrite Hk; cbn iota beta zeta; unfold bool_of;
    rewrite ?Z.opp_eq_mul_m1, ?(Z.mul_comm a (-1)); eauto with vmarith.
Qed.

(** A branch: the operands are popped, the next instruction is the target or the one
    after the 12 bytes of this one. *)
Definition branches (l : list Z) (c : bool) (pos : Z) (v : vm) (o : outcome vm Z) : Prop :=
  exists v', is_stack l v' /\ same_but_cs v v' /\
  if c then o = text_rd U64 (pos + 4) v' else o = Ok (pos + 12) v'.

Lemma branch_if_spec l c pos v0 v :
  is_stack l v -> same_but_cs v0 v -> branches l c pos v0 (branch_if c pos v).
Proof.
  intros Hs Hf. exists v. split; [done|]. split; [done|].
  destruct c; [done|]. unfold branch_if, next_imm, ret, base_opcode_width, addr_width.
  f_equal. lia.
Qed.

(** A two-operand branch pops both operands and goes to its target exactly when
    the comparison of [branch2_of] holds, otherwise to the next instruction. *)
Theorem branch2_correct `{Target} fuel o h t c :
  branch2_of o = Some (t, c) -> zlookup (op_dispatch fuel) (opcode_num o) = Some h ->
  forall pos l v a b,
  is_stack (l ++ encode t b ++ encode t a) v -> in_range t a = true -> in_range t b = true ->
  branches l (if lhs_first then c a b else c b a) pos v (h pos v).
Proof.
  intros Hop Hh pos l v a b Hs Ha Hb.
  destruct (two_pops l v _ _ a b Hs Ha Hb) as (v' & Hs' & Hf & _ & Hun).
  destruct o; try discriminate Hop; injection Hop as <- <-; apply (inj Some) in Hh; subst h;
    match goal with |- branches _ _ _ _ (?m v) => unfold_head m end;
    rewrite (Hun eq_refl); destruct lhs_first; rewrite ?Z.gtb_ltb, ?Z.geb_leb;
    by apply branch_if_spec.
Qed.

(** A one-operand branch pops its operand and goes to its target exactly when the
    condition of [branch1_of] holds. *)
Theorem branch1_correct `{Target} fuel o h t c :
  branch1_of o = Some (t, c) -> zlookup (op_dispatch fuel) (opcode_num o) = Some h ->
  forall pos l v a,
  is_stack (l ++ encode t a) v -> in_range t a = true ->
  branches l (c a) pos v (h pos v).
Proof.
  intros Hop Hh pos l v a Hs Ha.
  destruct (one_pop l v _ a Hs Ha) as (v' & Hs' & Hf & Hk).
  destruct o; try discriminate Hop; injection Hop as <- <-; apply (inj Some) in Hh; subst h;
    match goal with |- branches _ _ _ _ (?m v) => unfold_head m end;
    rewrite Hk; rewrite ?Z.geb_leb, ?(Z.eqb_sym a 0); by apply branch_if_spec.
Qed.

(** The swap, duplicate and discard instructions move whole operands of the compute
    stack: with the operands [blocks] (the top first, of the sizes the instruction's
    name gives) they leave the operands at the positions [order], in that order, and
    every byte below them and everything else in the machine as it was. *)
Theorem shuffle_correct `{Target} fuel o tys order h pos l blocks v :
  shuffle_of o = Some (tys, order) -> zlookup (op_dispatch fuel) (opcode_num o) = Some h ->
  Forall2 (fun t b => length b = sizeof t) tys blocks ->
  is_stack (l ++ concat (rev blocks)) v -> fits_stack (length l + 8 * length order) ->
  exists v', h pos v = Ok (base_opcode_width + pos) v' /\
             is_stack (l ++ concat (select order blocks)) v' /\ same_but_cs v v'.
Proof.
  intros Ho Hh Hbl Hs Hfit. rewrite (shuffle_of_dispatch fuel o tys order Ho) in Hh.
  injection Hh as <-. by apply shuffle_spec.
Qed.

(** A machine with the given code, and a decision procedure for well-formedness. *)
Definition load_code (code : list Z) : vm := set_text (code ++ replicate 64 0) vm0.

Definition vm_okb (v : vm) : bool :=
  Nat.eqb (length (file v)) number_of_registers && forallb (fits_s 64) (file v)
  && forallb byteb (mem v) && forallb byteb (compute_stack v) && forallb byteb (text v)
  && (0 <=? heap v) && (heap v <=? mem_size v).

Lemma vm_okb_ok v : vm_okb v = true -> vm_ok v.
Proof.
  unfold vm_okb. rewrite !andb_true_iff, !Z.leb_le.
  intros ((((((H1 & H2) & H3) & H4) & H5) & H6) & H7).
  split; auto using bytes_dec; [by apply Nat.eqb_eq|].
  rewrite forallb_forall in H2. rewrite Forall_forall. intros x Hx. apply H2.
  by apply list_elem_of_In.
Qed.

Section vm_witnesses.
#[local] Existing Instance test_platform.

(** 7 - 5: the top is the left operand. *)
Lemma binop_correct_witness :
  exists v', subi32 4 (with_stack (encode I32 5 ++ encode I32 7) vm0) = Ok 8 v' /\
             is_stack (encode I32 2) v' /\ same_but_cs (with_stack (encode I32 5 ++ encode I32 7) vm0) v'.
Proof.
  apply (binop_correct 0%nat Op.subi32 subi32 (mkBinop true I32 I32 I32 (fun a b => fit I32 (a - b)))
           eq_refl eq_refl 4 [] _ 7 5); [|reflexivity|reflexivity|reflexivity].
  apply with_stack_is_stack, bytes_dec. reflexivity.
Defined.

Lemma unop_correct_witness :
  exists v', negi64 4 (with_stack (encode I64 5) vm0) = Ok 8 v' /\
             is_stack (encode I64 (-5)) v' /\ same_but_cs (with_stack (encode I64 5) vm0) v'.
Proof.
  apply (unop_correct 0%nat Op.negi64 negi64 I64 (fun a => fit I64 (- a)) I64
           eq_refl eq_refl 4 [] _ 5); [|reflexivity|reflexivity].
  apply with_stack_is_stack, bytes_dec. reflexivity.
Defined.

Lemma branch2_correct_witness :
  branches [] true 4 (with_stack (encode I32 9 ++ encode I32 3) vm0)
    (blt 4 (with_stack (encode I32 9 ++ encode I32 3) vm0)).
Proof.
  apply (@branch2_correct test_platform 0%nat Op.blt blt I32 Z.ltb eq_refl eq_refl 4 [] _ 3 9);
    [|reflexivity|reflexivity].
  apply with_stack_is_stack, bytes_dec. reflexivity.
Defined.

Lemma branch1_correct_witness :
  branches [] false 4 (with_stack (encode I32 9) vm0) (bzeroi32 4 (with_stack (encode I32 9) vm0)).
Proof.
  apply (branch1_correct 0%nat Op.bzeroi32 bzeroi32 I32 (Z.eqb 0) eq_refl eq_refl 4 [] _ 9);
    [|reflexivity].
  apply with_stack_is_stack, bytes_dec. reflexivity.
Defined.

(** swpi32i64: a 4-byte operand above an 8-byte one. *)
Lemma shuffle_correct_witness :
  exists v', swpi32i64 4 (with_stack ([170] ++ encode I64 5 ++ encode I32 7) vm0) = Ok 8 v' /\
             is_stack ([170] ++ encode I32 7 ++ encode I64 5) v' /\
             same_but_cs (with_stack ([170] ++ encode I64 5 ++ encode I32 7) vm0) v'.
Proof.
  apply (shuffle_correct 0%nat Op.swpi32i64 [I32; I64] [0; 1]%nat swpi32i64 4 [170]
           [encode I32 7; encode I64 5] (with_stack ([170] ++ encode I64 5 ++ encode I32 7) vm0)
           eq_refl eq_refl); [repeat constructor| |reflexivity].
  apply with_stack_is_stack, bytes_dec. reflexivity.
Defined.
End vm_witnesses.
