(* ===== verification/VMRun.v ===== *)
(** * Theorems about dispatch, encoding and the run loop *)

From S2P Require Import Prelude MachineInt F64 VMEnv Protobufish VMOps VMTable VMInv VMCode.
From S2P Require Import VMStack VMArith VMSpec.

(** ** The dispatch table and the enumeration *)

Lemma opcode_of_num_inv b o : opcode_of_num b = Some o -> opcode_num o = b.
Proof.
  assert (Hall : map opcode_num all_opcodes = map Z.of_nat (seq 0 171)) by by vm_compute.
  unfold opcode_of_num, zlookup. destruct (b <? 0) eqn:E; [done|]. zbool. intros Ho.
  assert (H1 : map opcode_num all_opcodes !! Z.to_nat b = Some (opcode_num o)).
  { by rewrite list_lookup_fmap, Ho. }
  rewrite Hall, list_lookup_fmap in H1.
  destruct (seq 0 171 !! Z.to_nat b) as [n|] eqn:En; [|done].
  apply lookup_seq in En as [-> _]. simpl in H1. injection H1 as H1. lia.
Qed.

Lemma op_dispatch_length `{Target} fuel : length (op_dispatch fuel) = 171%nat.
Proof. done. Qed.

(** An index that the table resolves is the number of an opcode. *)
Lemma dispatch_opcode `{Target} fuel b h :
  zlookup (op_dispatch fuel) b = Some h -> exists o, b = opcode_num o.
Proof.
  intros Hh. pose proof (zlookup_Some _ _ _ Hh) as Hb. rewrite op_dispatch_length in Hb.
  destruct (opcode_of_num b) as [o|] eqn:Eo.
  - exists o. symmetry. by apply opcode_of_num_inv.
  - unfold opcode_of_num, zlookup in Eo. destruct (b <? 0) eqn:E; zbool; [lia|].
    apply lookup_ge_None in Eo. assert (length all_opcodes = 171%nat) by done. lia.
Qed.

Lemma dispatch_total `{Target} fuel o : exists h, zlookup (op_dispatch fuel) (opcode_num o) = Some h.
Proof. destruct o; by eexists. Qed.

(** The constructor fills the dispatch table in the order of the enumeration: it
    has 171 entries, and the entry of every opcode is the member function of the same
    name; the three opcodes without one go to noop (halt), sti64 (sri64) and
    asserteqi32sz (asserteqi32). *)
Theorem dispatch_table_aligned `{Target} fuel :
  length (op_dispatch fuel) = 171%nat /\
  forall o, zlookup (op_dispatch fuel) (opcode_num o) =
    match handler_named fuel o with
    | Some h => Some h
    | None => Some match o with
                   | Op.sri64 => sti64 | Op.asserteqi32 => asserteqi32sz | _ => noop
                   end
    end.
Proof. split; [done|]. by intros []. Qed.

(** ** Invariant and footprint of a step *)

Definition after {A} (Q : vm -> Prop) (o : outcome vm A) : Prop :=
  match o with Ok _ v' | Throw _ v' => Q v' | _ => True end.

Lemma keeps_after {A} (I : vm -> Prop) (m : M vm A) Q v : keeps I m Q -> I v -> after I (m v).
Proof. intros Hk Hv. pose proof (Hk v Hv) as Hm. destruct (m v); simpl; tauto. Qed.

(** C5: an instruction writes only the registers and the parts of the machine that
    its footprint lists, whether it returns or throws: only haltimm writes code, only
    stores, pushes, call and callx write memory, only the msg instructions fire
    events, only the dbg instructions print, and labels, heap pointer and event queue
    stay; the machine stays well formed. *)
Theorem instruction_footprint `{Target} fuel o h pos v :
  zlookup (op_dispatch fuel) (opcode_num o) = Some h -> vm_ok v ->
  after (fun v' => vm_ok v' /\ same_outside (footprint_of o) v v') (h pos v).
Proof.
  intros Hh Hv. eapply keeps_after; [by eapply dispatch_keeps|].
  split; [done|apply same_outside_refl].
Qed.

Lemma vm_ok_pc v z : vm_ok v -> fits_s 64 z = true -> vm_ok (set_file (<[Z.to_nat PC := z]> (file v)) v).
Proof. apply ok_insert_reg. Qed.

Definition any (v : vm) : Prop := True.

Lemma any_stable_console : stable_console any.
Proof. done. Qed.
Lemma any_stable_reg r : stable_reg any r.
Proof. done. Qed.
#[local] Hint Resolve any_stable_console any_stable_reg : prog.

Lemma dispatch_keeps_any `{Target} fuel o h pos :
  zlookup (op_dispatch fuel) (opcode_num o) = Some h -> keeps (inv any) (h pos) (fun _ => True).
Proof.
  intros Hh v [Hv _]. pose proof (dispatch_keeps fuel o h pos v Hh v) as Hk.
  unfold inv, any in *. destruct (h pos v); try done;
    specialize (Hk (conj Hv (same_outside_refl _ _))); tauto.
Qed.

Lemma run_step_keeps `{Target} fuel : keeps (inv any) (run_step fuel) (fun _ => True).
Proof.
  unfold run_step.
  eapply keeps_bind; [apply keeps_get_reg|]. intros pc _.
  eapply keeps_bind; [apply keeps_text_rd|]. intros opcode _.
  apply keeps_if; [by apply keeps_ret|]. apply keeps_try.
  - eapply keeps_bind; [apply keeps_text_rd|]. intros b _.
    eapply keeps_bind with (P := fun h => zlookup (op_dispatch fuel) b = Some h).
    { by apply keeps_of_option. }
    intros h Hh. destruct (dispatch_opcode _ _ _ Hh) as [o ->].
    eapply keeps_bind; [by eapply dispatch_keeps_any|]. intros p _. eapply keeps_bind; [apply keeps_set_reg; [done|apply fits_s64_to_s]|].
    intros _ _. by apply keeps_ret.
  - intros e. destruct e; keeps_tac.

Qed.

(** ** Encoding *)

(** A handler steps over the bytes of its emitter. *)
Lemma steps_over_emitted `{Target} fuel s m h pos v p v' :
  (s, m) ∈ mnemonics ->
  short_advance (mn_opcode m) = None -> mn_opcode m <> Op.ret ->
  zlookup (op_dispatch fuel) (opcode_num (mn_opcode m)) = Some h ->
  vm_ok v -> h pos v = Ok p v' ->
  p = pos + emitted_length (mn_emit m)
  \/ jumps (mn_opcode m) = true /\ text_rd U64 (pos + 4) v = Ok p v.
Proof.
  intros Hin Hsh Hret Hh Hok Hrun.
  pose proof (dispatch_advance fuel _ h pos v Hh v (conj Hok (fun _ => eq_refl))) as Ha.
  rewrite Hrun in Ha. destruct Ha as [_ Ha]. unfold successor_ok in Ha.
  rewrite bool_decide_false in Ha by done.
  replace (emitted_length (mn_emit m)) with (handler_length (mn_opcode m)); [done|].
  clear -Hin Hsh. unfold handler_length. rewrite Hsh.
  assert (Hall : forallb (fun e => match List.find (fun e' => bool_decide (mn_opcode (snd e') = mn_opcode (snd e))) mnemonics with
            | Some e' => emitted_length (mn_emit (snd e')) =? emitted_length (mn_emit (snd e))
            | None => false end) mnemonics = true) by by vm_compute.
  rewrite forallb_forall in Hall. apply list_elem_of_In in Hin. specialize (Hall _ Hin). cbn [fst snd] in Hall.
  destruct (List.find _ _); [by apply Z.eqb_eq|done].
Qed.

(** C35: the machine goes on where the assembler went on: for every mnemonic of the
    assembler's table, when its opcode was emitted at a position with operands of the kind
    the table gives it, and its instruction at that position returns in a well-formed
    machine, the next instruction is exactly behind the emitted bytes, or, for branches and
    calls, at the position stored behind the opcode. Left out are ret, which goes on at the
    popped address, and the six instructions in [short_advance] (pushi32reg, popi32reg,
    pushi32, pushi64, ldptr, stptr), whose handlers step over fewer bytes than are emitted. *)
Theorem emitted_length_matches `{Target} fuel s m args h pos v0 q v1 v p v' :
  (s, m) ∈ mnemonics -> short_advance (mn_opcode m) = None -> mn_opcode m <> Op.ret ->
  emitter_of args = mn_emit m -> emit (mn_opcode m) args pos v0 = Ok q v1 ->
  zlookup (op_dispatch fuel) (opcode_num (mn_opcode m)) = Some h ->
  vm_ok v -> h pos v = Ok p v' ->
  p = q \/ jumps (mn_opcode m) = true /\ text_rd U64 (pos + 4) v = Ok p v.
Proof.
  intros Hin Hsh Hret Hargs He Hh Hok Hrun.
  rewrite emit_spec, Hargs in He. destruct (slice_set _ _ _); [|done]. injection He as <- _.
  by eapply steps_over_emitted.
Qed.

Lemma decode_encode_wrap t z :
  decode t (encode t z) = if is_signed t then to_s (bits t) z else to_u (bits t) z.
Proof.
  pose proof (bits_ge8 t). unfold decode, encode. rewrite le_dec_enc. fold (bits t).
  destruct (is_signed t); [|done]. fold (to_u (bits t) z). apply to_s_to_u. lia.
Qed.

(** The low half of an eight-byte immediate. *)
Lemma code_at_low a x v : code_at (encode U64 x) a v -> code_at (encode I32 x) a v.
Proof.
  unfold code_at. rewrite !encode_length. intros Hc.
  rewrite (slice_get_prefix _ _ _ (sizeof I32) _ Hc) by (simpl; lia).
  done.
Qed.

(** What the handlers read as operands of an emitted instruction. *)
Definition operands_read (a : emit_args) (pos : Z) (v : vm) : Prop :=
  match a with
  | ANone => True
  | AImm x => imm U64 pos v = Ok (to_u 64 x) v /\ imm I64 pos v = Ok (to_s 64 x) v
              /\ imm I32 pos v = Ok (to_s 32 x) v
  | ARegOfs r ofs => reg_operands pos v = Ok (to_s 64 ofs, to_u 32 r) v
  | ADbl x => imm F64 pos v = Ok (to_u 64 x) v
  | AImmImm x y => imm U64 pos v = Ok (to_u 64 x) v /\ imm2 U64 pos v = Ok (to_u 64 y) v
  end.

Lemma code_operands o a pos v : code_at (instr_bytes o a) pos v -> operands_read a pos v.
Proof.
  intros Hc. apply code_at_app in Hc as [_ Hc]. rewrite encode_length in Hc.
  change (Z.of_nat (sizeof U32)) with 4 in Hc.
  destruct a; cbn [arg_bytes operands_read] in *; try done;
    unfold imm, imm2, reg_operands, base_opcode_width, addr_width.
  - rewrite (text_rd_code U64 _ _ _ Hc), (text_rd_code I64 _ _ _ Hc),
      (text_rd_code I32 _ _ _ (code_at_low _ _ _ Hc)), !decode_encode_wrap. done.
  - apply code_at_app in Hc as [Hc1 Hc2]. rewrite encode_length in Hc2.
    rewrite (bind_Ok _ _ _ _ _ (text_rd_code I64 _ _ _ Hc1)).
    rewrite (bind_Ok _ _ _ _ _ (text_rd_code U32 _ _ _ Hc2)), !decode_encode_wrap. done.
  - by rewrite (text_rd_code F64 _ _ _ Hc), decode_encode_wrap.
  - apply code_at_app in Hc as [Hc1 Hc2]. rewrite encode_length in Hc2.
    change (Z.of_nat (sizeof U64)) with 8 in Hc2.
    rewrite (text_rd_code U64 _ _ _ Hc1), (text_rd_code U64 _ _ _ Hc2), !decode_encode_wrap. done.
Qed.

Lemma code_opcode o a pos v :
  code_at (instr_bytes o a) pos v -> text_rd U32 pos v = Ok (opcode_num o) v.
Proof.
  intros Hc. apply code_at_app in Hc as [Hc _].
  rewrite (text_rd_code _ _ _ _ Hc), decode_encode_wrap. simpl.
  rewrite to_u_id; [done|]. pose proof (opcode_num_range o).
  change (2 ^ bits U32) with 4294967296. lia.
Qed.

(** What an emitter writes is what the handlers read: the opcode word, the 64-bit
    immediate (and its low half as a 32-bit integer), register offset and number, both
    immediates; the text before and behind the instruction is not touched. *)
Theorem emit_fetch_roundtrip o a pos v p v' :
  emit o a pos v = Ok p v' ->
  p = pos + emitted_length (emitter_of a) /\
  text_rd U32 pos v' = Ok (opcode_num o) v' /\ operands_read a pos v' /\
  forall b n, b + Z.of_nat n <= pos \/ p <= b -> slice_get (text v') b n = slice_get (text v) b n.
Proof.
  intros He. pose proof (emit_code _ _ _ _ _ _ He) as Hc. rewrite emit_spec in He.
  destruct (slice_set _ _ _) as [m|] eqn:E; [|done]. injection He as <- <-.
  split; [done|]. split; [by eapply code_opcode|]. split; [by eapply code_operands|].
  intros b n Hb. apply (slice_get_set_other _ _ _ _ _ _ E).
  rewrite instr_bytes_length. lia.
Qed.

(** ** Fetch, decode, execute *)

Lemma get_reg_spec r v z : zlookup (file v) r = Some z -> get_reg r v = Ok z v.
Proof. unfold get_reg. by intros ->. Qed.

Lemma set_reg_spec r z v :
  length (file v) = number_of_registers -> 0 <= r < 27 ->
  set_reg r z v = Ok tt (set_file (<[Z.to_nat r := z]> (file v)) v).
Proof.
  intros Hl Hr. unfold set_reg, bind, gets. rewrite zinsert_Some; [done|].
  rewrite Hl. unfold number_of_registers. lia.
Qed.

Definition set_pc (p : Z) (v : vm) : vm := set_file (<[Z.to_nat PC := to_s 64 p]> (file v)) v.

Definition never_returns {S A} (m : M S A) : Prop := forall s b s', m s <> Ok b s'.

Lemma never_bind {S A B} (m : M S A) (k : A -> M S B) :
  (forall a, never_returns (k a)) -> never_returns (bind m k).
Proof. intros Hk s b s'. unfold bind. destruct (m s); try done. apply Hk. Qed.

(** What VMEnv::run does with an exception of a handler. *)
Definition run_catch (e : exn) : M vm bool :=
  match e with
  | RuntimeError _ =>
    let! pc := get_reg PC in
    let! b := text_rd U8 pc in
    do! print ("***Fatal Error in VMEnv::run. Instruction caused an exception, offending opcode: "
               +:+ pretty b +:+ nl) in
    do! print_cs_and_regsimm in
    throw e
  | HaltTriggered => ret false
  | _ => throw e
  end.

Lemma run_step_decoded `{Target} fuel o a h pos v :
  vm_ok v -> o <> Op.halt -> zlookup (file v) PC = Some pos -> code_at (instr_bytes o a) pos v ->
  zlookup (op_dispatch fuel) (opcode_num o) = Some h ->
  run_step fuel v = try_catch (let! p := h pos in do! set_reg PC (to_s 64 p) in ret true) run_catch v.
Proof.
  intros Hok Ho Hpc Hc Hh.
  pose proof (code_opcode _ _ _ _ Hc) as H32. pose proof (opcode_num_range o).
  pose proof (opcode_byte _ _ _ (ok_text v Hok) H32 ltac:(lia)) as H8.
  assert (Hne : (opcode_num o =? opcode_num Op.halt) = false).
  { apply Z.eqb_neq. intros Heq. by apply (inj opcode_num) in Heq. }
  unfold run_step. rewrite (bind_Ok _ _ _ _ _ (get_reg_spec _ _ _ Hpc)),
    (bind_Ok _ _ _ _ _ H32), Hne.
  unfold try_catch. by rewrite (bind_Ok _ _ _ _ _ H8), Hh.
Qed.

Lemma run_step_halt `{Target} fuel pos v :
  zlookup (file v) PC = Some pos -> code_at (instr_bytes Op.halt ANone) pos v ->
  run_step fuel v = Ok false v.
Proof.
  intros Hpc Hc. unfold run_step. rewrite (bind_Ok _ _ _ _ _ (get_reg_spec _ _ _ Hpc)).
  by rewrite (bind_Ok _ _ _ _ _ (code_opcode _ _ _ _ Hc)).
Qed.

Lemma run_step_ok `{Target} fuel o a h pos v p v' :
  vm_ok v -> o <> Op.halt -> zlookup (file v) PC = Some pos -> code_at (instr_bytes o a) pos v ->
  zlookup (op_dispatch fuel) (opcode_num o) = Some h -> h pos v = Ok p v' ->
  run_step fuel v = Ok true (set_pc p v').
Proof.
  intros Hok Ho Hpc Hc Hh Hp. rewrite (run_step_decoded fuel o a h pos v) by done.
  pose proof (dispatch_keeps_any fuel o h pos Hh v (conj Hok I)) as Hk. rewrite Hp in Hk.
  destruct Hk as [[Hk _] _]. unfold try_catch. rewrite (bind_Ok _ _ _ _ _ Hp).
  by rewrite (bind_Ok _ _ _ _ _ (set_reg_spec PC _ _ (ok_file_length _ Hk) ltac:(done))).
Qed.

(** C9: one round of the run loop at an instruction [o] executes the handler of [o]:
    the program counter becomes the handler's result, a halt exception ends the loop,
    a thrown string leaves it, and an instruction that throws std::runtime_error is
    never followed by another one. *)
Theorem fetch_decode_execute `{Target} fuel o a pos v :
  vm_ok v -> o <> Op.halt -> zlookup (file v) PC = Some pos -> code_at (instr_bytes o a) pos v ->
  exists h, zlookup (op_dispatch fuel) (opcode_num o) = Some h /\
  match h pos v with
  | Ok p v' => run_step fuel v = Ok true (set_pc p v')
  | Throw HaltTriggered v' => run_step fuel v = Ok false v'
  | Throw (RuntimeError w) v' => forall b v'', run_step fuel v <> Ok b v''
  | Throw e v' => run_step fuel v = Throw e v'
  | Undef => run_step fuel v = Undef
  | OutOfFuel => run_step fuel v = OutOfFuel
  end.
Proof.
  intros Hok Ho Hpc Hc. destruct (dispatch_total fuel o) as [h Hh]. exists h. split; [done|].
  pose proof (run_step_ok fuel o a h pos v) as Hstep.
  rewrite (run_step_decoded fuel o a h pos v) in * by done.
  destruct (h pos v) as [p v'|e v'| |] eqn:Eh; [by apply Hstep|..];
    unfold try_catch; rewrite bind_unfold, Eh; try done.
  destruct e; try done. intros b v''.
  change (run_catch (RuntimeError what) v' <> Ok b v''). cut (never_returns (run_catch (RuntimeError what))); [intros Hn; apply Hn|].
  by repeat (apply never_bind; intros ?).
Qed.

(** ** Fuel *)

Lemma dispatch_below `{Target} fuel fuel' b :
  (fuel <= fuel')%nat ->
  match zlookup (op_dispatch fuel) b, zlookup (op_dispatch fuel') b with
  | Some h, Some h' => forall pos, below (h pos) (h' pos)
  | None, None => True
  | _, _ => False
  end.
Proof.
  intros Hle. destruct (zlookup (op_dispatch fuel) b) as [h|] eqn:Eh.
  - destruct (dispatch_opcode _ _ _ Eh) as [o ->].
    destruct o; apply (inj Some) in Eh; subst h; simpl; intros pos; try apply below_refl;
      match goal with |- below ?m _ => unfold_head m end;
      repeat first [ apply below_refl
                   | apply below_bind; [by apply deserialize_below || apply below_refl|intros ?]
                   | match goal with |- below (let '(_, _) := ?p in _) _ => destruct p end ].
  - destruct (zlookup (op_dispatch fuel') b) as [h'|] eqn:Eh'; [|done].
    apply zlookup_Some in Eh'. unfold zlookup in Eh. destruct (b <? 0) eqn:E; zbool; [lia|].
    apply lookup_ge_None in Eh. rewrite op_dispatch_length in *. lia.
Qed.

Lemma run_step_below `{Target} fuel fuel' :
  (fuel <= fuel')%nat -> below (run_step fuel) (run_step fuel').
Proof.
  intros Hle. unfold run_step.
  apply below_bind; [apply below_refl|intros pc]. apply below_bind; [apply below_refl|intros op].
  apply below_if; [apply below_refl|]. apply below_try; [|intros; apply below_refl].
  apply below_bind; [apply below_refl|intros b].
  pose proof (dispatch_below fuel fuel' b Hle) as Hd.
  destruct (zlookup (op_dispatch fuel) b), (zlookup (op_dispatch fuel') b); try done;
    [|apply below_refl]. simpl.
  intros s. unfold bind, ret. destruct (Hd pc s) as [->| ->]; [by left|by right].
Qed.

Lemma run_loop_below `{Target} fuel fuel' :
  (fuel <= fuel')%nat -> forall n n', (n <= n')%nat -> below (run_loop fuel n) (run_loop fuel' n').
Proof.
  intros Hle. induction n as [|n IH]; intros [|n'] Hn; simpl; try apply below_fuel; [lia|].
  apply below_bind; [by apply run_step_below|]. intros []; [apply IH; lia|apply below_refl].
Qed.

(** The fuel is only a bound on the length of the computation: a run that ends
    within some numbers of rounds and reader steps ends in the same way with more. *)
Theorem run_fuel_mono `{Target} fuel fuel' rounds rounds' start v :
  (fuel <= fuel')%nat -> (rounds <= rounds')%nat ->
  run fuel rounds start v <> OutOfFuel ->
  run fuel' rounds' start v = run fuel rounds start v.
Proof.
  intros Hf Hr Hne.
  assert (Hb : below (run fuel rounds start) (run fuel' rounds' start)).
  { apply below_bind; [apply below_refl|intros ?].
    apply below_bind; [by apply run_loop_below|intros ?; apply below_refl]. }
  by destruct (Hb v).
Qed.

(** ** The theorems at concrete inputs *)

Section run_witnesses.
#[local] Existing Instance test_platform.

(** ldi32imm 7; halt *)
Definition sample : vm :=
  load_code (instr_bytes Op.ldi32imm (AImm 7) ++ instr_bytes Op.halt ANone).

Lemma instruction_footprint_witness :
  after (fun v' => vm_ok v' /\ same_outside fp_stack sample v') (ldi32imm 0 sample).
Proof.
  apply (instruction_footprint 0%nat Op.ldi32imm ldi32imm 0 sample eq_refl).
  apply vm_okb_ok. vm_compute. reflexivity.
Defined.

Definition sample_after : vm :=
  match ldi32imm 0 sample with Ok _ v => v | _ => sample end.

Lemma emitted_length_matches_witness :
  emit Op.ldi32imm (AImm 7) 0 sample = Ok 12 sample /\
  (12 = 12 \/ false = true /\ text_rd U64 4 sample = Ok 12 sample).
Proof.
  split; [vm_compute; reflexivity|].
  apply (emitted_length_matches 0%nat "ldi32imm"
           (mkMnem Op.ldi32imm "Push 32 bit signed integer immediate." Imm) (AImm 7)
           ldi32imm 0 sample 12 sample sample 12 sample_after).
  - apply list_elem_of_In. vm_compute. tauto.
  - reflexivity.
  - discriminate.
  - reflexivity.
  - vm_compute. reflexivity.
  - reflexivity.
  - apply vm_okb_ok. vm_compute. reflexivity.
  - vm_compute. reflexivity.
Defined.

Lemma emit_fetch_roundtrip_witness :
  exists v', emit Op.lea (AImm 300) 4 sample = Ok 16 v' /\ imm U64 4 v' = Ok 300 v'.
Proof.
  eexists. split; [vm_compute; reflexivity|].
  refine (match emit_fetch_roundtrip Op.lea (AImm 300) 4 sample 16 _ _ with
          | conj _ (conj _ (conj (conj H _) _)) => H end).
  vm_compute. reflexivity.
Defined.

Lemma fetch_decode_execute_witness :
  exists h, zlookup (op_dispatch 0%nat) (opcode_num Op.ldi32imm) = Some h /\
  match h 0 sample with
  | Ok p v' => run_step 0%nat sample = Ok true (set_pc p v')
  | Throw HaltTriggered v' => run_step 0%nat sample = Ok false v'
  | Throw (RuntimeError w) v' => forall b v'', run_step 0%nat sample <> Ok b v''
  | Throw e v' => run_step 0%nat sample = Throw e v'
  | Undef => run_step 0%nat sample = Undef
  | OutOfFuel => run_step 0%nat sample = OutOfFuel
  end.
Proof.
  apply (fetch_decode_execute 0%nat Op.ldi32imm (AImm 7) 0 sample).
  - apply vm_okb_ok. vm_compute. reflexivity.
  - discriminate.
  - reflexivity.
  - vm_compute. reflexivity.
Defined.

Lemma run_fuel_mono_witness : run 5%nat 9%nat 0 sample = run 0%nat 2%nat 0 sample.
Proof.
  apply (run_fuel_mono 0%nat 5%nat 2%nat 9%nat 0 sample); [lia|lia|].
  vm_compute. discriminate.
Defined.

(** The program stops at the halt instruction with 7 on the stack. *)
Example sample_runs :
  match run 0%nat 2%nat 0 sample with
  | Ok _ v => zlookup (file v) PC = Some 12 /\ top I32 0 v = Ok 7 v
  | _ => False
  end.
Proof. vm_compute. done. Qed.
End run_witnesses.
