(* ===== verification/VMMem.v ===== *)
(** * Theorems about memory, the data stack, static data and copying *)

From S2P Require Import Prelude MachineInt F64 VMEnv Protobufish VMOps VMTable VMInv VMCode.
From S2P Require Import VMStack VMArith VMSpec VMRun.

(** ** Memory access *)

Lemma mem_rd_spec t a v :
  mem_rd t a v = match slice_get (mem v) a (sizeof t) with
                 | Some bs => Ok (decode t bs) v | None => Undef end.
Proof. unfold mem_rd, bind, gets. by destruct (slice_get _ _ _). Qed.

Lemma mem_wr_bytes_spec a bs v :
  mem_wr_bytes a bs v = match slice_set (mem v) a bs with
                        | Some m => Ok tt (set_mem m v) | None => Undef end.
Proof. unfold mem_wr_bytes, bind, gets. by destruct (slice_set _ _ _). Qed.

(** [a, a+n) lies inside the memory block. *)
Definition addressable (a : Z) (n : nat) (v : vm) : Prop :=
  0 <= a /\ a + Z.of_nat n <= mem_size v.

Lemma mem_wr_total t a z v :
  addressable a (sizeof t) v ->
  exists m, slice_set (mem v) a (encode t z) = Some m /\ mem_wr t a z v = Ok tt (set_mem m v).
Proof.
  intros [H1 H2]. unfold mem_wr. rewrite mem_wr_bytes_spec, slice_set_Some;
    rewrite ?encode_length; eauto.
Qed.

Lemma mem_wr_rd t a z m v :
  slice_set (mem v) a (encode t z) = Some m -> in_range t z = true ->
  forall v', mem v' = m -> mem_rd t a v' = Ok z v'.
Proof.
  intros Hm Hz v' Hv. apply slice_get_set_same in Hm. rewrite encode_length in Hm.
  by rewrite mem_rd_spec, Hv, Hm, decode_encode.
Qed.

(** ** Loads and stores *)

Import Op.

(** Store with an immediate address, load of the same type, the stack variants. *)
Definition load_store : list (Opcode * Opcode * Opcode * Opcode * ctype) :=
  [(sti8, ldi8, stsi8, ldsi8, I8); (sti32, ldi32, stsi32, ldsi32, I32);
   (sti64, ldi64, stsi64, ldsi64, I64); (stdbl, lddbl, stsdbl, ldsdbl, F64)].

(** What a store instruction of type [t] does with the address [addr]. *)
Definition stores (l : list Z) (t : ctype) (addr x p : Z) (v : vm) (o : outcome vm Z) : Prop :=
  exists v' m, o = Ok p v' /\ is_stack l v' /\ mem v' = m /\
    slice_set (mem v) addr (encode t x) = Some m /\ text v' = text v /\
    forall r, 0 <= r -> r <> CSP -> zlookup (file v') r = zlookup (file v) r.

Definition loads (l : list Z) (t : ctype) (x p : Z) (v : vm) (o : outcome vm Z) : Prop :=
  exists v', o = Ok p v' /\ is_stack (l ++ encode t x) v' /\ same_but_cs v v'.

Lemma is_stack_set_mem l m v : is_stack l v -> is_stack l (set_mem m v).
Proof. done. Qed.

Lemma stores_wr l t addr x p v0 v :
  is_stack l v -> same_but_cs v0 v -> addressable addr (sizeof t) v0 ->
  stores l t addr x p v0 ((do! mem_wr t addr x in Prelude.ret p) v).
Proof.
  intros Hs Hf Ha. pose proof (same_but_cs_mem _ _ Hf) as Hm.
  destruct (mem_wr_total t addr x v) as (m & Hset & Hwr).
  { unfold addressable, mem_size in *. by rewrite Hm. }
  rewrite (bind_Ok _ _ _ _ _ Hwr). exists (set_mem m v), m.
  split; [done|]. split; [done|]. split; [done|]. split; [by rewrite <- Hm|].
  split; [by apply same_but_cs_text in Hf|]. intros r Hr Hne. simpl.
  by eapply same_but_cs_reg.
Qed.

Lemma imm_same v v' t pos z :
  same_but_cs v v' -> imm t pos v = Ok z v -> imm t pos v' = Ok z v'.
Proof. intros Hf. apply text_rd_text. by apply same_but_cs_text. Qed.

Lemma store_imm_spec `{Target} fuel st ld sts lds t h pos l x addr v :
  (st, ld, sts, lds, t) ∈ load_store -> zlookup (op_dispatch fuel) (opcode_num st) = Some h ->
  is_stack (l ++ encode t x) v -> in_range t x = true ->
  imm U64 pos v = Ok addr v -> addressable addr (sizeof t) v ->
  stores l t addr x (pos + 12) v (h pos v).
Proof.
  intros Hin Hh Hs Hx Himm Ha.
  destruct (one_pop l v _ x Hs Hx) as (v1 & Hs1 & Hf & Hk).
  replace (pos + 12) with (base_opcode_width + addr_width + pos)
    by (unfold base_opcode_width, addr_width; lia).
  set_unfold in Hin. destruct_or! Hin; try done; injection Hin as -> -> -> -> ->;
    apply (inj Some) in Hh; subst h;
    match goal with |- stores _ _ _ _ _ _ (?m v) => unfold_head m end;
    rewrite Hk, (bind_Ok _ _ _ _ _ (imm_same _ _ _ _ _ Hf Himm)); by apply stores_wr.
Qed.

Lemma store_stack_spec `{Target} fuel st ld sts lds t h pos l x addr v :
  (st, ld, sts, lds, t) ∈ load_store -> zlookup (op_dispatch fuel) (opcode_num sts) = Some h ->
  is_stack (l ++ encode t x ++ encode U64 addr) v -> in_range t x = true ->
  in_range U64 addr = true -> addressable addr (sizeof t) v ->
  stores l t addr x (pos + 4) v (h pos v).
Proof.
  intros Hin Hh Hs Hx Hr Ha.
  destruct (two_pops l v U64 t addr x Hs Hr Hx) as (v1 & Hs1 & Hf & Hk & _).
  replace (pos + 4) with (base_opcode_width + pos) by (unfold base_opcode_width; lia).
  set_unfold in Hin. destruct_or! Hin; try done; injection Hin as -> -> -> -> ->;
    apply (inj Some) in Hh; subst h;
    match goal with |- stores _ _ _ _ _ _ (?m v) => unfold_head m end;
    rewrite Hk; by apply stores_wr.
Qed.

Lemma loads_push l t x pos n v0 v :
  is_stack l v -> same_but_cs v0 v -> fits_stack (length l) ->
  loads l t x (n + pos) v0 ((do! push_cs t x in Prelude.ret (n + pos)) v).
Proof.
  intros Hs Hf Hl. destruct (push_spec l v t x Hs Hl) as (v' & Hp & Hs' & Hf').
  exists v'. rewrite (bind_Ok _ _ _ _ _ Hp). split; [done|].
  split; [done|]. by eapply same_but_cs_trans.
Qed.

Lemma load_imm_spec `{Target} fuel st ld sts lds t h pos l x addr v :
  (st, ld, sts, lds, t) ∈ load_store -> zlookup (op_dispatch fuel) (opcode_num ld) = Some h ->
  is_stack l v -> fits_stack (length l) -> imm U64 pos v = Ok addr v -> mem_rd t addr v = Ok x v ->
  loads l t x (pos + 12) v (h pos v).
Proof.
  intros Hin Hh Hs Hl Himm Hrd.
  replace (pos + 12) with (base_opcode_width + addr_width + pos)
    by (unfold base_opcode_width, addr_width; lia).
  set_unfold in Hin. destruct_or! Hin; try done; injection Hin as -> -> -> -> ->;
    apply (inj Some) in Hh; subst h;
    match goal with |- loads _ _ _ _ _ (?m v) => unfold_head m end;
    rewrite (bind_Ok _ _ _ _ _ Himm), (bind_Ok _ _ _ _ _ Hrd);
    apply loads_push; eauto using same_but_cs_refl.
Qed.

Lemma load_stack_spec `{Target} fuel st ld sts lds t h pos l x addr v :
  (st, ld, sts, lds, t) ∈ load_store -> zlookup (op_dispatch fuel) (opcode_num lds) = Some h ->
  is_stack (l ++ encode U64 addr) v -> fits_stack (length l) -> in_range U64 addr = true ->
  mem_rd t addr v = Ok x v ->
  loads l t x (pos + 4) v (h pos v).
Proof.
  intros Hin Hh Hs Hl Hr Hrd.
  destruct (one_pop l v _ addr Hs Hr) as (v1 & Hs1 & Hf & Hk).
  assert (Hrd1 : mem_rd t addr v1 = Ok x v1).
  { rewrite mem_rd_spec in *. rewrite (same_but_cs_mem _ _ Hf).
    destruct (slice_get (mem v) addr (sizeof t)); [|done]. by injection Hrd as ->. }
  replace (pos + 4) with (base_opcode_width + pos) by (unfold base_opcode_width; lia).
  set_unfold in Hin. destruct_or! Hin; try done; injection Hin as -> -> -> -> ->;
    apply (inj Some) in Hh; subst h;
    match goal with |- loads _ _ _ _ _ (?m v) => unfold_head m end;
    rewrite Hk, (bind_Ok _ _ _ _ _ Hrd1); by apply loads_push.
Qed.

(** A store followed by a load of the same type and address gives the stored
    value back on the stack, for the immediate-address forms (sti8, sti32, sti64,
    stdbl with ldi8, ldi32, ldi64, lddbl), when the address lies in memory; bytes
    outside the written range keep their value. *)
Theorem store_load_roundtrip `{Target} fuel st ld sts lds t hs hl pos pos' l x addr v :
  (st, ld, sts, lds, t) ∈ load_store ->
  zlookup (op_dispatch fuel) (opcode_num st) = Some hs ->
  zlookup (op_dispatch fuel) (opcode_num ld) = Some hl ->
  is_stack (l ++ encode t x) v -> in_range t x = true -> fits_stack (length l) ->
  imm U64 pos v = Ok addr v -> imm U64 pos' v = Ok addr v -> addressable addr (sizeof t) v ->
  exists v1 v2, hs pos v = Ok (pos + 12) v1 /\ hl pos' v1 = Ok (pos' + 12) v2 /\
    is_stack (l ++ encode t x) v2 /\
    forall b n, b + Z.of_nat n <= addr \/ addr + Z.of_nat (sizeof t) <= b ->
      slice_get (mem v2) b n = slice_get (mem v) b n.
Proof.
  intros Hin Hhs Hhl Hs Hx Hl Himm Himm' Ha.
  destruct (store_imm_spec fuel st ld sts lds t hs pos l x addr v) as (v1 & m & H1 & Hs1 & Hm & Hset & Ht & _);
    try done.
  destruct (load_imm_spec fuel st ld sts lds t hl pos' l x addr v1) as (v2 & H2 & Hs2 & Hf2);
    try done.
  { by apply (text_rd_text _ _ _ _ Ht). }
  { by eapply mem_wr_rd. }
  exists v1, v2. split; [done|]. split; [done|]. split; [done|]. intros b n Hb.
  rewrite (same_but_cs_mem _ _ Hf2), Hm. apply (slice_get_set_other _ _ _ _ _ _ Hset).
  by rewrite encode_length.
Qed.

(** The same for the forms that take the address from the stack (stsi8, stsi32,
    stsi64, stsdbl with ldsi8, ldsi32, ldsi64, ldsdbl): the address is on top of the
    value for the store and alone on the stack for the load. *)
Theorem store_load_stack_roundtrip `{Target} fuel st ld sts lds t hs hl pos pos' l x addr v :
  (st, ld, sts, lds, t) ∈ load_store ->
  zlookup (op_dispatch fuel) (opcode_num sts) = Some hs ->
  zlookup (op_dispatch fuel) (opcode_num lds) = Some hl ->
  is_stack (l ++ encode t x ++ encode U64 addr) v -> in_range t x = true ->
  in_range U64 addr = true -> addressable addr (sizeof t) v ->
  exists v1, hs pos v = Ok (pos + 4) v1 /\ is_stack l v1 /\
    forall v2, is_stack (l ++ encode U64 addr) v2 -> fits_stack (length l) -> mem v2 = mem v1 ->
    exists v3, hl pos' v2 = Ok (pos' + 4) v3 /\ is_stack (l ++ encode t x) v3.
Proof.
  intros Hin Hhs Hhl Hs Hx Hr Ha.
  destruct (store_stack_spec fuel st ld sts lds t hs pos l x addr v) as (v1 & m & H1 & Hs1 & Hm & Hset & Ht & _);
    try done.
  exists v1. split; [done|]. split; [done|]. intros v2 Hs2 Hl Hm2.
  destruct (load_stack_spec fuel st ld sts lds t hl pos' l x addr v2) as (v3 & H3 & Hs3 & _);
    try done.
  { eapply mem_wr_rd; [done..|]. congruence. }
  eauto.
Qed.

(** ** Calls *)

Lemma insert_reg_lookup v r z :
  length (file v) = number_of_registers -> 0 <= r < 27 ->
  zlookup (<[Z.to_nat r := z]> (file v)) r = Some z.
Proof. intros Hl Hr. apply zlookup_insert_eq. rewrite Hl. unfold number_of_registers. lia. Qed.

(** [ret_addr_at s a v]: SP is [s] and the eight bytes at [s] hold the address [a]. *)
Definition ret_addr_at (s a : Z) (v : vm) : Prop :=
  zlookup (file v) SP = Some s /\ slice_get (mem v) s 8 = Some (encode U64 a).

(** Call pushes the address of the instruction behind it on the data stack and
    continues at its target; ret, executed in any later state with the same stack
    pointer and the same eight bytes on top of the stack, continues exactly behind
    the call and gives the stack pointer its old value; registers other than SP and
    the memory outside the return address are not changed by either. *)
Theorem call_ret_roundtrip pos s target v :
  length (file v) = number_of_registers -> zlookup (file v) SP = Some s ->
  8 <= s <= mem_size v -> mem_size v < 2 ^ 63 -> 0 <= pos + 12 < 2 ^ 64 ->
  imm U64 pos v = Ok target v ->
  exists v1, VMOps.call pos v = Ok target v1 /\ ret_addr_at (s - 8) (pos + 12) v1 /\
    (forall b n, b + Z.of_nat n <= s - 8 \/ s <= b -> slice_get (mem v1) b n = slice_get (mem v) b n) /\
    (forall r, 0 <= r -> r <> SP -> zlookup (file v1) r = zlookup (file v) r) /\
    forall v2, length (file v2) = number_of_registers -> ret_addr_at (s - 8) (pos + 12) v2 ->
      op_ret 0 v2 = Ok (pos + 12) (set_file (<[Z.to_nat SP := s]> (file v2)) v2).
Proof.
  intros Hl Hs Hb Hsz Hp Himm.
  assert (Hs8 : to_s 64 (s - 8) = s - 8) by (apply to_s_id; lia).
  set (v' := set_file (<[Z.to_nat SP := s - 8]> (file v)) v).
  destruct (mem_wr_total U64 (s - 8) (pos + 12) v') as (m & Hset & Hwr).
  { unfold addressable, mem_size in *. simpl. lia. }
  assert (Hcall : VMOps.call pos v = Ok target (set_mem m v')).
  { unfold VMOps.call, push_data_stack. rewrite bind_assoc, (bind_Ok _ _ _ _ _ (get_reg_spec _ _ _ Hs)).
    change (Z.of_nat (sizeof U64)) with 8. rewrite Hs8.
    rewrite bind_assoc, (bind_Ok _ _ _ _ _ (set_reg_spec SP _ _ Hl ltac:(done))).
    replace (base_opcode_width + addr_width + pos) with (pos + 12)
      by (unfold base_opcode_width, addr_width; lia).
    rewrite bind_assoc, (bind_Ok _ _ _ _ _ Hwr). rewrite bind_ret_l.
    unfold imm in *. by apply (text_rd_text _ _ v). }
  exists (set_mem m v'). split; [done|]. split; [|split; [|split]].
  - split; simpl; [by apply insert_reg_lookup|]. by apply slice_get_set_same in Hset.
  - intros b n Hbn. simpl. apply (slice_get_set_other _ _ _ _ _ _ Hset).
    rewrite encode_length. simpl. lia.
  - intros r Hr Hne. simpl. apply (zlookup_insert_ne _ SP); [done|congruence].
  - intros v2 Hl2 [Hsp Hm2]. unfold op_ret, pop_data_stack.
    rewrite (bind_Ok _ _ _ _ _ (get_reg_spec _ _ _ Hsp)).
    assert (Hrd : mem_rd U64 (s - 8) v2 = Ok (pos + 12) v2).
    { rewrite mem_rd_spec. change (sizeof U64) with 8%nat. rewrite Hm2, decode_encode; [done|].
      apply fits_u_spec. done. }
    rewrite (bind_Ok _ _ _ _ _ Hrd). change (Z.of_nat (sizeof U64)) with 8.
    replace (s - 8 + 8) with s by lia. rewrite to_s_id by lia.
    by rewrite (bind_Ok _ _ _ _ _ (set_reg_spec SP _ _ Hl2 ltac:(done))).
Qed.

(** ** Static data *)

Section static_data.
Context `{Target}.
Implicit Types (v w : vm) (d : list Z).

Lemma reserve_room n v :
  0 <= heap v <= mem_size v -> mem_size v < 2 ^ 63 -> Z.of_nat n < mem_size v - heap v ->
  reserve n v = Ok (heap v) (set_heap (heap v + Z.of_nat n) v).
Proof.
  intros Hh Hsz Hn. unfold reserve, get, bind. rewrite to_u_id by lia.
  by rewrite Z.gtb_ltb, (proj2 (Z.ltb_lt _ _)) by lia.
Qed.

Lemma reserve_grow n v :
  0 <= heap v <= mem_size v -> mem_size v < 2 ^ 63 -> mem_size v - heap v <= Z.of_nat n ->
  reserve n v = Ok (heap v)
    (set_mem_base (alloc_base (length (mem v) + n)) (set_mem (mem v ++ alloc_junk n) v)).
Proof.
  intros Hh Hsz Hn. unfold reserve, get, bind. rewrite to_u_id by lia.
  by rewrite Z.gtb_ltb, (proj2 (Z.ltb_ge _ _)) by lia.
Qed.

(** [store_string] after the reservation. *)
Lemma store_string_at d v w :
  d <> [] -> reserve (length d) v = Ok (heap v) w -> 0 <= heap v ->
  heap v + Z.of_nat (length d) <= mem_size w ->
  exists m, slice_set (mem w) (heap v) d = Some m /\
            store_string d v = Ok (heap v) (set_mem m w).
Proof.
  intros Hd Hr Hh Hsz. assert (Hset := slice_set_Some (mem w) (heap v) d Hh Hsz).
  eexists. split; [exact Hset|]. destruct d as [|x d]; [done|]. unfold store_string.
  rewrite (bind_Ok _ _ _ _ _ Hr). unfold bind. by rewrite mem_wr_bytes_spec, Hset.
Qed.

Lemma grown_size v n :
  mem_size (set_mem_base (alloc_base (length (mem v) + n)) (set_mem (mem v ++ alloc_junk n) v))
  = mem_size v + Z.of_nat n.
Proof. unfold mem_size. simpl. rewrite length_app, alloc_junk_length. lia. Qed.

(** Storing a string in static data returns an offset at which the memory block
    holds the string, and everything below that offset keeps its value; when there was
    room (more free bytes than the string has) the heap pointer moves behind the string
    and the block keeps its size; otherwise the block grows by the string's length and
    the heap pointer keeps its offset. *)
Theorem store_string_reads_back d v :
  d <> [] -> 0 <= heap v <= mem_size v -> mem_size v < 2 ^ 63 ->
  exists v', store_string d v = Ok (heap v) v' /\
    slice_get (mem v') (heap v) (length d) = Some d /\
    take (Z.to_nat (heap v)) (mem v') = take (Z.to_nat (heap v)) (mem v) /\
    (if Z.of_nat (length d) <? mem_size v - heap v
     then heap v' = heap v + Z.of_nat (length d) /\ mem_size v' = mem_size v
     else heap v' = heap v /\ mem_size v' = mem_size v + Z.of_nat (length d)).
Proof.
  intros Hd Hh Hsz. destruct (_ <? _) eqn:E; zbool.
  - destruct (store_string_at d v _ Hd (reserve_room _ _ Hh Hsz E)) as (m & Hm & ->);
      [lia|unfold mem_size in *; simpl; lia|].
    eexists. split; [done|]. split; [by eapply slice_get_set_same|].
    pose proof (slice_set_length _ _ _ _ Hm). simpl in Hm.
    rewrite slice_set_Some in Hm by (unfold mem_size in *; lia). injection Hm as <-.
    simpl. rewrite take_app_le, take_take, Nat.min_id by (rewrite length_take; unfold mem_size in *; lia).
    split; [done|]. split; [done|]. unfold mem_size. simpl in *. congruence.
  - pose proof (grown_size v (length d)) as Hg.
    destruct (store_string_at d v _ Hd (reserve_grow _ _ Hh Hsz E)) as (m & Hm & ->); [lia..|].
    eexists. split; [done|]. split; [by eapply slice_get_set_same|].
    pose proof (slice_set_length _ _ _ _ Hm) as HL.
    rewrite slice_set_Some in Hm by (unfold mem_size in *; simpl in *; lia). injection Hm as <-.
    split; [|split; [done|rewrite <- Hg; unfold mem_size; simpl in *; congruence]].
    unfold mem_size in *. simpl in *. rewrite length_app in Hg.
    rewrite take_app_le, take_take, Nat.min_id by (rewrite length_take, length_app; lia).
    by rewrite take_app_le by lia.
Qed.

(** A block that had to grow does not move the heap pointer, so a second string
    is stored over the first one: both calls return the same offset and the bytes of
    the second string replace those of the first. *)
Theorem store_string_overlap d1 d2 v :
  d1 <> [] -> d2 <> [] -> 0 <= heap v <= mem_size v ->
  mem_size v + Z.of_nat (length d1) < 2 ^ 63 -> mem_size v - heap v <= Z.of_nat (length d1) ->
  exists v1 v2, store_string d1 v = Ok (heap v) v1 /\ store_string d2 v1 = Ok (heap v) v2 /\
    slice_get (mem v2) (heap v) (length d2) = Some d2.
Proof.
  intros H1 H2 Hh Hsz Hfull. pose proof (grown_size v (length d1)) as Hg.
  destruct (store_string_at d1 v _ H1 (reserve_grow (length d1) v Hh ltac:(lia) Hfull)) as (m & Hm & Hst);
    [lia..|].
  pose proof (slice_set_length _ _ _ _ Hm) as HL.
  set (v1 := set_mem m _) in Hst.
  assert (Hs1 : mem_size v1 = mem_size v + Z.of_nat (length d1)).
  { rewrite <- Hg. unfold mem_size, v1. simpl in *. congruence. }
  assert (Hh1 : heap v1 = heap v) by done.
  exists v1. destruct (decide (Z.of_nat (length d2) < mem_size v1 - heap v1)).
  - destruct (store_string_at d2 v1 _ H2 (reserve_room (length d2) v1 ltac:(lia) ltac:(lia) ltac:(lia)))
      as (m2 & Hm2 & Hst2); [lia|unfold mem_size in *; simpl in *; lia|].
    rewrite Hh1 in *. eexists. split; [done|]. split; [done|]. by eapply slice_get_set_same.
  - destruct (store_string_at d2 v1 _ H2 (reserve_grow (length d2) v1 ltac:(lia) ltac:(lia) ltac:(lia)))
      as (m2 & Hm2 & Hst2); [lia|rewrite grown_size; lia|].
    rewrite Hh1 in *. eexists. split; [done|]. split; [done|]. by eapply slice_get_set_same.
Qed.
End static_data.

(** ** Copying one machine into another *)

(** Copying the data stack leaves the target with a stack of the same length that
    ends at its own memory end, holds the same bytes as the source's, and leaves the
    memory below it alone; when the target's memory is too small nothing happens. *)
Theorem copy_stack_correct from to sp :
  zlookup (file from) SP = Some sp -> 0 <= sp <= mem_size from ->
  length (file to) = number_of_registers ->
  if mem_size to <? mem_size from - sp then copy_stack from to = Ok false to
  else exists to', copy_stack from to = Ok true to' /\
    let n := Z.to_nat (mem_size from - sp) in
    zlookup (file to') SP = Some (mem_size to - Z.of_nat n) /\
    mem_size to' = mem_size to /\
    slice_get (mem to') (mem_size to - Z.of_nat n) n = slice_get (mem from) sp n /\
    take (length (mem to) - n) (mem to') = take (length (mem to) - n) (mem to).
Proof.
  intros Hsp Hb Hl. unfold copy_stack, bind. rewrite Hsp. simpl.
  unfold get. destruct (_ <? _) eqn:E; [done|]. zbool.
  replace (mem_size from - sp <? 0) with false by (symmetry; apply Z.ltb_ge; lia).
  set (n := Z.to_nat (mem_size from - sp)).
  assert (Hn : Z.of_nat n = mem_size from - sp) by lia.
  assert (Hget : exists bs, slice_get (mem from) sp n = Some bs).
  { eexists. apply slice_get_Some; unfold mem_size in *; lia. }
  destruct Hget as [bs Hget]. rewrite Hget. simpl. pose proof (slice_get_length _ _ _ _ Hget) as Hbs.
  rewrite mem_wr_bytes_spec.
  assert (Hset := slice_set_Some (mem to) (mem_size to - (mem_size from - sp)) bs
                    ltac:(lia) ltac:(unfold mem_size in *; lia)).
  rewrite Hset. rewrite set_reg_spec by done. eexists. split; [done|]. simpl.
  rewrite Hn. split; [by apply insert_reg_lookup|].
  split; [unfold mem_size; simpl; f_equal; by eapply slice_set_length|].
  split; [rewrite <- Hbs; by eapply slice_get_set_same|].
  replace (length (mem to) - n)%nat with (Z.to_nat (mem_size to - (mem_size from - sp)))
    by (unfold mem_size in *; lia).
  rewrite take_app_le, take_take, Nat.min_id by (rewrite length_take; unfold mem_size in *; lia).
  done.
Qed.

(** Copying the static data gives the target the source's bytes below the heap
    pointer, its heap pointer and its labels, and keeps the target's bytes above it. *)
Theorem copy_data_correct from to :
  0 <= heap from <= mem_size from ->
  if mem_size to <? heap from then copy_data from to = Ok false to
  else exists to', copy_data from to = Ok true to' /\
    heap to' = heap from /\ label2loc to' = label2loc from /\ file to' = file to /\
    mem to' = take (Z.to_nat (heap from)) (mem from) ++ drop (Z.to_nat (heap from)) (mem to).
Proof.
  intros Hb. unfold copy_data, bind, get. destruct (_ <? _) eqn:E; [done|]. zbool.
  replace (heap from <? 0) with false by (symmetry; apply Z.ltb_ge; lia).
  rewrite slice_get_Some by (unfold mem_size in *; lia). simpl.
  assert (Hlen : length (take (Z.to_nat (heap from)) (mem from)) = Z.to_nat (heap from))
    by (rewrite length_take; unfold mem_size in *; lia).
  rewrite mem_wr_bytes_spec, slice_set_Some by (rewrite ?drop_0; unfold mem_size in *; lia).
  rewrite drop_0. eexists. split; [done|]. simpl. by rewrite Hlen.
Qed.

(** ** The theorems at concrete inputs *)

Section mem_witnesses.
#[local] Existing Instance test_platform.

(** sti32 [16]; ldi32 [16], with 7 on the compute stack. *)
Definition sample_mem : vm :=
  set_text (instr_bytes sti32 (AImm 16) ++ instr_bytes ldi32 (AImm 16)) (with_stack (encode I32 7) vm0).

Lemma store_load_roundtrip_witness :
  exists v1 v2, VMOps.sti32 0 sample_mem = Ok 12 v1 /\ VMOps.ldi32 12 v1 = Ok 24 v2 /\
    is_stack ([] ++ encode I32 7) v2 /\
    forall b n, b + Z.of_nat n <= 16 \/ 16 + Z.of_nat (sizeof I32) <= b ->
      slice_get (mem v2) b n = slice_get (mem sample_mem) b n.
Proof.
  apply (store_load_roundtrip 0%nat sti32 ldi32 stsi32 ldsi32 I32 VMOps.sti32 VMOps.ldi32
           0 12 [] 7 16 sample_mem).
  - apply list_elem_of_In. simpl. tauto.
  - reflexivity.
  - reflexivity.
  - apply with_stack_is_stack, bytes_dec. reflexivity.
  - reflexivity.
  - reflexivity.
  - vm_compute. reflexivity.
  - vm_compute. reflexivity.
  - split; vm_compute; discriminate.
Defined.

Definition sample_stack : vm := with_stack (encode I32 7 ++ encode U64 16) vm0.

Lemma store_load_stack_roundtrip_witness :
  exists v1, VMOps.stsi32 0 sample_stack = Ok 4 v1 /\ is_stack [] v1 /\
    forall v2, is_stack ([] ++ encode U64 16) v2 -> fits_stack 0 -> mem v2 = mem v1 ->
    exists v3, VMOps.ldsi32 4 v2 = Ok 8 v3 /\ is_stack ([] ++ encode I32 7) v3.
Proof.
  apply (store_load_stack_roundtrip 0%nat sti32 ldi32 stsi32 ldsi32 I32 VMOps.stsi32 VMOps.ldsi32
           0 4 [] 7 16 sample_stack).
  - apply list_elem_of_In. simpl. tauto.
  - reflexivity.
  - reflexivity.
  - apply with_stack_is_stack, bytes_dec. reflexivity.
  - reflexivity.
  - reflexivity.
  - split; vm_compute; discriminate.
Defined.

Definition sample_call : vm := load_code (instr_bytes call (AImm 40)).

Lemma call_ret_roundtrip_witness :
  exists v1, VMOps.call 0 sample_call = Ok 40 v1 /\ ret_addr_at 4088 12 v1 /\
    (forall b n, b + Z.of_nat n <= 4096 - 8 \/ 4096 <= b ->
       slice_get (mem v1) b n = slice_get (mem sample_call) b n) /\
    (forall r, 0 <= r -> r <> SP -> zlookup (file v1) r = zlookup (file sample_call) r) /\
    forall v2, length (file v2) = number_of_registers -> ret_addr_at 4088 12 v2 ->
      op_ret 0 v2 = Ok 12 (set_file (<[Z.to_nat SP := 4096]> (file v2)) v2).
Proof.
  apply (call_ret_roundtrip 0 4096 40 sample_call).
  - reflexivity.
  - reflexivity.
  - split; vm_compute; discriminate.
  - vm_compute. reflexivity.
  - split; vm_compute; [discriminate|reflexivity].
  - vm_compute. reflexivity.
Defined.

Lemma store_string_reads_back_witness :
  exists v', store_string [104; 105; 0] vm0 = Ok 0 v' /\
    slice_get (mem v') 0 3 = Some [104; 105; 0] /\
    take 0 (mem v') = take 0 (mem vm0) /\ heap v' = 3 /\ mem_size v' = 4096.
Proof.
  destruct (store_string_reads_back [104; 105; 0] vm0) as (v' & H1 & H2 & H3 & H4);
    [discriminate|split; vm_compute; discriminate|vm_compute; reflexivity|].
  exists v'. destruct H4 as [H4 H5]. split; [exact H1|]. split; [exact H2|].
  split; [exact H3|]. split; [exact H4|exact H5].
Defined.

Lemma store_string_overlap_witness :
  exists v1 v2, store_string (replicate 4096 1) vm0 = Ok 0 v1 /\ store_string [2] v1 = Ok 0 v2 /\
    slice_get (mem v2) 0 1 = Some [2].
Proof.
  apply (store_string_overlap (replicate 4096 1) [2] vm0).
  - discriminate.
  - discriminate.
  - split; vm_compute; discriminate.
  - vm_compute. reflexivity.
  - vm_compute. discriminate.
Defined.

(** A source machine with two bytes on the data stack and three of static data. *)
Definition sample_from : vm :=
  set_file (<[0%nat := 4094]> (file vm0)) (set_heap 3 (set_mem (replicate 4096 9) vm0)).

Lemma copy_stack_correct_witness :
  exists to', copy_stack sample_from vm0 = Ok true to' /\
    zlookup (file to') SP = Some 4094 /\ mem_size to' = 4096 /\
    slice_get (mem to') 4094 2 = slice_get (mem sample_from) 4094 2 /\
    take 4094 (mem to') = take 4094 (mem vm0).
Proof.
  apply (copy_stack_correct sample_from vm0 4094).
  - reflexivity.
  - split; vm_compute; discriminate.
  - reflexivity.
Defined.

Lemma copy_data_correct_witness :
  exists to', copy_data sample_from vm0 = Ok true to' /\ heap to' = 3 /\
    label2loc to' = label2loc sample_from /\ file to' = file vm0 /\
    mem to' = take 3 (mem sample_from) ++ drop 3 (mem vm0).
Proof. apply (copy_data_correct sample_from vm0). split; vm_compute; discriminate. Defined.
End mem_witnesses.
