(* ===== verification/VMProps.v ===== *)
(** * Whole-program properties of the virtual machine: counted loops, underflow,
    evaluation order, the assembler's table *)

From S2P Require Import Prelude MachineInt F64 VMEnv Protobufish VMOps VMTable VMInv VMCode.
From S2P Require Import VMStack VMArith VMSpec VMRun.

(** ** The counted loop "L: haltimm n; ...; buc L" *)

(** The machine is about to execute [haltimm n] at [pos], followed by a jump back. *)
Record at_loop (pos n : Z) (v : vm) : Prop := {
  al_ok : vm_ok v;
  al_pc : zlookup (file v) PC = Some pos;
  al_code : code_at (instr_bytes Op.haltimm (AImm n) ++ instr_bytes Op.buc (AImm pos)) pos v;
  al_pos : 0 <= pos < 2 ^ 62;
  al_count : 0 <= n < 2 ^ 63
}.

Lemma haltimm_code a n v :
  code_at (instr_bytes Op.haltimm (AImm n)) a v -> 0 <= n < 2 ^ 63 -> imm I64 a v = Ok n v.
Proof.
  intros Hc Hn. destruct (code_operands _ _ _ _ Hc) as (_ & -> & _). f_equal. apply to_s_id; lia.
Qed.

(** Decrementing the counter keeps the rest of the code. *)
Lemma haltimm_step pos n v :
  at_loop pos n v -> 0 < n ->
  exists m, haltimm pos v = Ok (pos + 12) (set_text m v) /\
    code_at (instr_bytes Op.haltimm (AImm (n - 1)) ++ instr_bytes Op.buc (AImm pos)) pos (set_text m v).
Proof.
  intros [Hok Hpc Hc Hp Hn] Hpos.
  pose proof (code_at_app _ _ _ _ Hc) as [Hc1 Hc2].
  unfold haltimm. rewrite (bind_Ok _ _ _ _ _ (haltimm_code _ _ _ Hc1 Hn)).
  destruct (n <=? 0) eqn:E; zbool; [lia|]. unfold bind. rewrite text_wr_spec.
  destruct (slice_get_split _ _ _ _ Hc) as (pre & post & Htext & Hpre).
  unfold instr_bytes at 1 in Htext. cbn [arg_bytes] in Htext. rewrite <- !app_assoc in Htext.
  rewrite app_assoc in Htext.
  assert (Hset : slice_set (text v) (pos + base_opcode_width) (encode I64 (n - 1)) =
    Some ((pre ++ encode U32 (opcode_num Op.haltimm)) ++ encode I64 (n - 1)
          ++ (instr_bytes Op.buc (AImm pos) ++ post))).
  { rewrite Htext. replace (pos + base_opcode_width)
      with (Z.of_nat (length (pre ++ encode U32 (opcode_num Op.haltimm)))).
    - by apply slice_set_app.
    - rewrite length_app, encode_length. unfold base_opcode_width. simpl. lia. }
  rewrite Hset. eexists. split.
  { unfold next_imm, ret, base_opcode_width, addr_width. f_equal. lia. }
  pose proof (slice_get_app pre
    (instr_bytes Op.haltimm (AImm (n - 1)) ++ instr_bytes Op.buc (AImm pos)) post) as Hg.
  rewrite Hpre in Hg. unfold code_at.
  unfold instr_bytes at 1 in Hg. cbn [arg_bytes] in Hg. rewrite <- !app_assoc in Hg.
  rewrite app_assoc in Hg. exact Hg.
Qed.

Lemma vm_ok_set_pc p v : vm_ok v -> vm_ok (set_pc p v).
Proof. intros Hv. apply ok_insert_reg; [done|apply fits_s64_to_s]. Qed.

Lemma set_pc_pc p v : vm_ok v -> - 2 ^ 63 <= p < 2 ^ 63 -> zlookup (file (set_pc p v)) PC = Some p.
Proof.
  intros Hv Hp. unfold set_pc. simpl. rewrite to_s_id by lia.
  apply (zlookup_insert_eq _ PC). rewrite (ok_file_length _ Hv). done.
Qed.

(** What a loop iteration leaves alone. *)
Definition same_data (v v' : vm) : Prop :=
  mem v' = mem v /\ compute_stack v' = compute_stack v /\ heap v' = heap v /\
  fired v' = fired v /\ cons_out v' = cons_out v /\
  forall r, 0 <= r -> r <> PC -> zlookup (file v') r = zlookup (file v) r.

Lemma same_data_set_pc p v : same_data v (set_pc p v).
Proof. repeat split. intros r Hr Hne. apply (zlookup_insert_ne _ PC); [done|congruence]. Qed.

Lemma same_data_trans v1 v2 v3 : same_data v1 v2 -> same_data v2 v3 -> same_data v1 v3.
Proof.
  intros (?&?&?&?&?&Hr1) (?&?&?&?&?&Hr2). repeat split; try congruence.
  intros r Hr Hne. by rewrite Hr2, Hr1.
Qed.

(** Two rounds of the run loop count down by one. *)
Lemma loop_iteration `{Target} fuel pos n v :
  at_loop pos n v -> 0 < n ->
  exists v1 v2, run_step fuel v = Ok true v1 /\ run_step fuel v1 = Ok true v2 /\
    at_loop pos (n - 1) v2 /\ same_data v v2.
Proof.
  intros Hl Hpos. destruct (haltimm_step _ _ _ Hl Hpos) as (m & Hh & Hc').
  destruct Hl as [Hok Hpc Hc Hp Hn].
  pose proof (code_at_app _ _ _ _ Hc) as [Hc1 _].
  pose proof (run_step_ok fuel Op.haltimm _ haltimm pos v _ _ Hok ltac:(done) Hpc Hc1 eq_refl Hh) as Hs1.
  set (v1 := set_pc (pos + 12) (set_text m v)) in *.
  pose proof (run_step_keeps fuel v (conj Hok I)) as Hk. rewrite Hs1 in Hk. destruct Hk as [[Hok1 _] _].
  assert (Hok1' : vm_ok (set_text m v)) by (destruct Hok, Hok1; by split).
  assert (Hpc1 : zlookup (file v1) PC = Some (pos + 12)) by (apply set_pc_pc; [done|lia]).
  pose proof (code_at_app _ _ _ _ Hc') as [_ Hcb].
  change (Z.of_nat (length (instr_bytes Op.haltimm (AImm (n - 1))))) with 12 in Hcb.
  assert (Hbuc : buc (pos + 12) v1 = Ok pos v1).
  { destruct (code_operands Op.buc (AImm pos) (pos + 12) v1 Hcb) as (Ht & _).
    unfold buc. rewrite Ht. f_equal. apply to_u_id. lia. }
  pose proof (run_step_ok fuel Op.buc (AImm pos) buc (pos + 12) v1 _ _ Hok1 ltac:(done) Hpc1 Hcb eq_refl Hbuc) as Hs2.
  exists v1, (set_pc pos v1). split; [done|]. split; [done|]. split.
  - split; [by apply vm_ok_set_pc|apply set_pc_pc; [done|lia]|exact Hc'|done|lia].
  - apply same_data_trans with v1; [|apply same_data_set_pc].
    apply same_data_trans with (set_text m v); [by repeat split|apply same_data_set_pc].
Qed.

Lemma loop_end `{Target} fuel pos v : at_loop pos 0 v -> run_step fuel v = Ok false v.
Proof.
  intros [Hok Hpc Hc Hp Hn]. pose proof (code_at_app _ _ _ _ Hc) as [Hc1 _].
  rewrite (run_step_decoded fuel Op.haltimm (AImm 0) haltimm pos v) by done.
  unfold try_catch, bind, haltimm, bind. by rewrite (haltimm_code _ _ _ Hc1 Hn).
Qed.

(** A loop closed by haltimm with count [n] terminates: VMEnv::run leaves it after
    exactly 2n+1 rounds, at the haltimm instruction with its counter at zero, and the
    loop changed neither memory, compute stack, registers (PC apart) nor output. *)
Theorem haltimm_loop_terminates `{Target} fuel pos (n : nat) v :
  at_loop pos (Z.of_nat n) v ->
  exists v', run_loop fuel (2 * n + 1) v = Ok tt v' /\ at_loop pos 0 v' /\ same_data v v'.
Proof.
  revert v. induction n as [|n IH]; intros v Hl.
  - exists v. simpl. rewrite (bind_Ok _ _ _ _ _ (loop_end _ _ _ Hl)).
    split; [done|]. split; [done|]. by repeat split.
  - destruct (loop_iteration fuel pos _ v Hl ltac:(lia)) as (v1 & v2 & Hs1 & Hs2 & Hl2 & Hd).
    replace (Z.of_nat (S n) - 1) with (Z.of_nat n) in Hl2 by lia.
    destruct (IH _ Hl2) as (v' & Hrun & Hend & Hd'). exists v'.
    replace (2 * S n + 1)%nat with (S (S (2 * n + 1))) by lia. cbn [run_loop].
    rewrite (bind_Ok _ _ _ _ _ Hs1), (bind_Ok _ _ _ _ _ Hs2).
    split; [done|]. split; [done|]. by eapply same_data_trans.
Qed.

(** ** Stack underflow *)

Section underflow.
Import Op.

(** The instructions whose first action is a pop from the compute stack. *)
Definition pops_first (o : Opcode) : bool :=
  match o with
  | addi32 | addi64 | adddbl | subi32 | subi64 | subdbl | muli32 | muli64 | muldbl
  | divi32 | divi64 | divdbl | remi32 | remi64 | andni32 | andni64 | andi32 | andi64
  | ori32 | ori64 | noti32 | noti64 | xori32 | xori64 | shli32 | shli64 | shri32 | shri64
  | lti32 | lti64 | ltdbl | lteqi32 | lteqi64 | lteqdbl | gti32 | gti64 | gtdbl
  | gteqi32 | gteqi64 | gteqdbl | eqi32 | eqi64 | eqdbl
  | negi32 | negi64 | negdbl | sindbl | cosdbl | tandbl | atandbl | expdbl | tanhdbl
  | ui32toui64 | ui8toui32 | ui8toui64
  | beq | bneq | beqi8 | bneqi8 | beqi64 | bneqi64 | blt | blteq | bgt | bgteq
  | bgteqzeroi32 | blteqzeroi32 | bltzeroi32 | bzeroi32 | bnzeroi32 | bzeroi8 | bnzeroi8
  | bzeroi64 | bnzeroi64 | bzerodbl | bnzerodbl
  | swp | swpi64 | swpi16i64 | swpi8i64 | swpi8i128 | swpi16i128 | swpi32i64 | swp128i64
  | swp192i64 | swp96i64 | swpi160i64 | swpi192i32 | swpi64b128 | swp80i64 | swp72i64
  | swpi64b72 | swp128b8 | swpi64i192
  | duptopi8 | duptopi32 | duptopi64 | duptopi128 | duptopi192 | discardtopi32 | discardtopi64
  | ldsi8 | ldsi32 | ldsi64 | ldsdbl | stsi8 | stsi32 | stsi64 | stsdbl
  | sti8 | sti32 | sti64 | sri64 | stdbl | asserteqi32
  | dbg_print_topi32 | dbg_print_topi64 | dbg_print_topf64 => true
  | _ => false
  end.
End underflow.

Lemma bind_pop_empty {A} t (k : Z -> M vm A) v :
  is_stack [] v -> bind (pop_cs t) k v = Throw (RuntimeError pop_empty_msg) v.
Proof. intros Hs. by rewrite bind_unfold, pop_empty_spec. Qed.

Lemma bind_pop2_empty `{Target} {A} t (k : Z * Z -> M vm A) v :
  is_stack [] v -> bind (pop2 t) k v = Throw (RuntimeError pop_empty_msg) v.
Proof. intros Hs. rewrite bind_unfold. unfold pop2. by rewrite bind_pop_empty. Qed.

(** Every instruction that starts with a pop throws the std::runtime_error of
    pop_cs on an empty compute stack and leaves the whole machine as it was. *)
Theorem empty_stack_error `{Target} fuel o h pos v :
  pops_first o = true -> zlookup (op_dispatch fuel) (opcode_num o) = Some h -> is_stack [] v ->
  h pos v = Throw (RuntimeError pop_empty_msg) v.
Proof.
  intros Ho Hh Hs. destruct o; try discriminate Ho; apply (inj Some) in Hh; subst h;
    match goal with |- ?m v = _ => unfold_head m end;
    (by apply bind_pop_empty) || by apply bind_pop2_empty.
Qed.

(** The guard of pop_cs only looks for an empty stack: with fewer bytes than the
    operand has, the element access is out of bounds. *)
Theorem partial_pop_undefined t l v :
  is_stack l v -> (0 < length l < sizeof t)%nat -> pop_cs t v = Undef.
Proof.
  intros (_ & Hc & _) Hl. unfold pop_cs. rewrite (bind_Ok _ _ _ _ _ (get_reg_spec _ _ _ Hc)).
  destruct (_ <=? 0) eqn:E; zbool; [lia|]. unfold bind, gets, slice_get, in_bounds.
  replace (0 <=? _) with false by (symmetry; apply Z.leb_gt; lia). done.
Qed.

(** ** Evaluation order of unsequenced operands *)

Section order.
Import Op.
Definition commutes (o : Opcode) : bool :=
  match o with
  | addi32 | addi64 | muli32 | muli64 | andi32 | andi64 | ori32 | ori64 | xori32 | xori64
  | beq | bneq | beqi8 | bneqi8 | beqi64 | bneqi64
  | subi32 | subi64 | lti32 | lti64 | lteqi32 | lteqi64 | gti32 | gti64 | gteqi32 | gteqi64
  | eqi32 | eqi64 | shli32 | shli64 | shri32 | shri64 => true
  | _ => false
  end.
End order.

Lemma pop2_sym {A} (T1 T2 : Target) t (k : Z -> Z -> M vm A) v :
  (forall a b s, k a b s = k b a s) ->
  (let! '(a, b) := @pop2 T1 t in k a b) v = (let! '(a, b) := @pop2 T2 t in k a b) v.
Proof.
  intros Hk. unfold pop2, bind. destruct (pop_cs t v) as [a v1| | |]; try done.
  destruct (pop_cs t v1) as [b v2| | |]; try done. unfold ret.
  by destruct (@lhs_first T1), (@lhs_first T2).
Qed.

(** The order in which a compiler evaluates the two pops of an expression does
    not matter for the commutative integer instructions and the equality branches, and
    the instructions written with separate statements do not depend on it at all. *)
Theorem order_independent (T1 T2 : Target) fuel o h1 h2 pos v :
  commutes o = true ->
  zlookup (@op_dispatch T1 fuel) (opcode_num o) = Some h1 ->
  zlookup (@op_dispatch T2 fuel) (opcode_num o) = Some h2 ->
  h1 pos v = h2 pos v.
Proof.
  intros Ho H1 H2. destruct o; try discriminate Ho;
    apply (inj Some) in H1; apply (inj Some) in H2; subst h1 h2; try reflexivity;
    match goal with |- ?m v = ?m' v => unfold_head m end; apply pop2_sym; intros a b s.
  all: rewrite 1?(Z.add_comm a b), 1?(Z.mul_comm a b), 1?(Z.land_comm a b), 1?(Z.lor_comm a b),
    1?(Z.lxor_comm a b), 1?(Z.eqb_sym a b); done.
Qed.

(** The other evaluation order. *)
Definition right_first_platform : Target :=
  {| lhs_first := false; nan_bits := 0x7FF8000000000000;
     libm_sin := id; libm_cos := id; libm_tan := id; libm_atan := id; libm_exp := id;
     libm_tanh := id; fmt_double := pretty; to_string_double := pretty;
     native_call := fun _ _ _ _ m => m; alloc_junk := @alloc_junk test_platform;
     alloc_base := fun n => 4096;
     native_call_length := fun _ _ _ _ _ => eq_refl;
     native_call_bytes := fun _ _ _ _ _ Hm => Hm;
     alloc_junk_length := @alloc_junk_length test_platform;
     alloc_junk_bytes := @alloc_junk_bytes test_platform |}.

(** Division does depend on it: with 3 below 9 the quotient is 3 when the first
    pop is the dividend and 0 when the second is. *)
Theorem divi32_order_dependent :
  let v := with_stack (encode I32 3 ++ encode I32 9) vm0 in
  exists v1 v2, @divi32 test_platform 4 v = Ok 8 v1 /\ @divi32 right_first_platform 4 v = Ok 8 v2 /\
    pop_cs I32 v1 = Ok 3 (set_file (<[2%nat := 0]> (file v1)) v1) /\
    pop_cs I32 v2 = Ok 0 (set_file (<[2%nat := 0]> (file v2)) v2).
Proof.
  eexists _, _. repeat split; [vm_compute; reflexivity..].
Qed.

(** ** The assembler's table *)

(** Every opcode has a mnemonic, no two mnemonics that the table resolves emit
    the same opcode, and the emitter of each takes the operands its handler reads
    (the length of the emitted instruction is the handler's advance, but for the
    instructions of [short_advance]). *)
Theorem mnemonics_complete :
  (forall o, exists s m, find_mnemonic s = Some m /\ mn_opcode m = o) /\
  (forall s1 s2 m1 m2, find_mnemonic s1 = Some m1 -> find_mnemonic s2 = Some m2 ->
     mn_opcode m1 = mn_opcode m2 -> s1 = s2) /\
  forall s m, find_mnemonic s = Some m -> short_advance (mn_opcode m) = None ->
     handler_length (mn_opcode m) = emitted_length (mn_emit m).
Proof.
  set (live := fun e : string * mnemonic =>
    match find_mnemonic (fst e) with
    | Some m => bool_decide (mn_opcode m = mn_opcode (snd e)) | None => false end).
  assert (Hin : forall s m, find_mnemonic s = Some m -> In (s, m) mnemonics /\ live (s, m) = true).
  { intros s m Hs. split; [|unfold live; cbn [fst snd]; by rewrite Hs, bool_decide_true].
    unfold find_mnemonic in Hs. destruct (List.find _ _) as [[s' m']|] eqn:E; [|done].
    apply List.find_some in E as [Hi He]. apply String.eqb_eq in He. simpl in *. by simplify_eq. }
  split; [|split].
  - assert (Hall : forallb (fun o => existsb (fun e => live e && bool_decide (mn_opcode (snd e) = o)) mnemonics)
                     all_opcodes = true) by by vm_compute.
    intros o. rewrite forallb_forall in Hall. pose proof (all_opcodes_complete o) as Ho.
    apply list_elem_of_In in Ho. specialize (Hall o Ho). apply existsb_exists in Hall as [[s m] [_ Hl]].
    unfold live in Hl. cbn [fst snd] in Hl. apply andb_true_iff in Hl as [Hl Hm].
    apply bool_decide_eq_true in Hm. destruct (find_mnemonic s) as [m'|] eqn:E; [|done].
    apply bool_decide_eq_true in Hl. exists s, m'. split; [done|congruence].
  - assert (Hall : forallb (fun e1 => forallb (fun e2 =>
        negb (opcode_num (mn_opcode (snd e1)) =? opcode_num (mn_opcode (snd e2)))
        || String.eqb (fst e1) (fst e2)) (List.filter live mnemonics)) (List.filter live mnemonics) = true)
      by by vm_compute.
    intros s1 s2 m1 m2 H1 H2 Heq. rewrite forallb_forall in Hall.
    specialize (Hall (s1, m1) ltac:(apply filter_In; auto)). rewrite forallb_forall in Hall.
    specialize (Hall (s2, m2) ltac:(apply filter_In; auto)). cbn [fst snd] in Hall.
    rewrite Heq, Z.eqb_refl in Hall. by apply String.eqb_eq in Hall.
  - assert (Hall : forallb (fun e => match short_advance (mn_opcode (snd e)) with
        | Some _ => true
        | None => handler_length (mn_opcode (snd e)) =? emitted_length (mn_emit (snd e)) end) mnemonics = true)
      by by vm_compute.
    intros s m Hs Hsh. destruct (Hin s m Hs) as [Hi _]. rewrite forallb_forall in Hall.
    specialize (Hall _ Hi). cbn [fst snd] in Hall. rewrite Hsh in Hall. by apply Z.eqb_eq.
Qed.

(** ** The theorems at concrete inputs *)

Section props_witnesses.
#[local] Existing Instance test_platform.

Definition sample_loop : vm :=
  load_code (instr_bytes Op.haltimm (AImm 3) ++ instr_bytes Op.buc (AImm 0)).

Lemma haltimm_loop_terminates_witness :
  exists v', run_loop 0%nat 7 sample_loop = Ok tt v' /\ at_loop 0 0 v' /\ same_data sample_loop v'.
Proof.
  apply (haltimm_loop_terminates 0%nat 0 3%nat sample_loop). split.
  - apply vm_okb_ok. vm_compute. reflexivity.
  - reflexivity.
  - vm_compute. reflexivity.
  - split; vm_compute; [discriminate|reflexivity].
  - split; vm_compute; [discriminate|reflexivity].
Defined.

Lemma empty_stack_error_witness : addi32 4 vm0 = Throw (RuntimeError pop_empty_msg) vm0.
Proof.
  apply (empty_stack_error 0%nat Op.addi32 addi32 4 vm0 eq_refl eq_refl).
  repeat split; try constructor.
Defined.

Lemma partial_pop_undefined_witness : pop_cs I32 (with_stack [1; 2] vm0) = Undef.
Proof.
  apply (partial_pop_undefined I32 [1; 2]); [|simpl; lia].
  apply with_stack_is_stack, bytes_dec. reflexivity.
Defined.

Lemma order_independent_witness :
  @addi32 test_platform 4 (with_stack (encode I32 3 ++ encode I32 9) vm0)
  = @addi32 right_first_platform 4 (with_stack (encode I32 3 ++ encode I32 9) vm0).
Proof.
  apply (order_independent test_platform right_first_platform 0%nat Op.addi32); reflexivity.
Defined.

Lemma mnemonics_complete_witness :
  find_mnemonic "muli32" = Some (mkMnem Op.muli32 EmptyString NoArg) /\ "muli32" = "muli32".
Proof.
  split; [reflexivity|].
  exact (proj1 (proj2 mnemonics_complete) "muli32" "muli32" _ _ eq_refl eq_refl eq_refl).
Defined.
End props_witnesses.
