(* ===== verification/ProtobufishSpec.v ===== *)
(** * Theorems about the message serialiser and reader

    [enc] and [render] are the specification: the bytes of a message and its JSON
    text. The serialiser writes [enc], and the reader turns [enc] into [render] for
    the messages in which a string is the last item of its block; the other messages
    are where the reader goes wrong. *)

From S2P Require Import Prelude MachineInt F64 VMEnv Protobufish.

(** ** Specification *)

Definition enc_int32 (v : Z) : list Z :=
  encode U32 INT32 ++ encode U64 sizeof_msg_node_int32 ++ encode I32 v.

Definition enc_sz (s : string) : list Z :=
  encode U32 SZ ++ encode U64 (sizeof_msg_node + 1 + size_of s) ++ strncpy_bytes s.

Definition enc_node (name : string) (content : list Z) : list Z :=
  encode U32 NODE
  ++ encode U64 (size_of name + 1 + sizeof_msg_node + Z.of_nat (length content))
  ++ strncpy_bytes name ++ content.

Fixpoint enc (m : node) : list Z :=
  match m with
  | StructDef name children => enc_node name (concat (map enc children))
  | SymbolWithArgs sym_kind args =>
    if String.eqb sym_kind "OblectamentaMessageTagInt32" then
      match args with IntLiteral v :: _ => enc_int32 v | _ => [] end
    else if String.eqb sym_kind "OblectamentaMessageTagZeroTerminatedString" then
      match args with StringLiteral v :: _ => enc_sz v | _ => [] end
    else []
  | IntLiteral v => enc_int32 v
  | StringLiteral v => enc_sz v
  | OtherNode => []
  end.

Definition enc_list (ms : list node) : list Z := concat (map enc ms).

Definition enc_msg (children : list node) : list Z :=
  encode U32 ROOT ++ encode U64 (sizeof_msg_node + Z.of_nat (length (enc_list children)))
  ++ enc_list children.

Definition len (m : node) : Z := Z.of_nat (length (enc m)).

(** ** Induction over messages *)

Lemma node_ind_list (P : node -> Prop) :
  (forall name children, Forall P children -> P (StructDef name children)) ->
  (forall k args, P (SymbolWithArgs k args)) -> (forall v, P (IntLiteral v)) ->
  (forall s, P (StringLiteral s)) -> P OtherNode -> forall m, P m.
Proof.
  intros Hs Hk Hi Hz Ho. fix IH 1. intros [name children|k args|v|s|]; [|apply Hk|apply Hi|apply Hz|apply Ho].
  apply Hs. induction children as [|c cs IHcs]; constructor; [apply IH|apply IHcs].
Qed.

(** ** Writing *)

Lemma before_nul_length bs : (length (before_nul bs) <= length bs)%nat.
Proof. induction bs as [|b bs IH]; simpl; [lia|]. case_ifs; simpl; lia. Qed.

Lemma bytes_of_string_length s : length (bytes_of_string s) = String.length s.
Proof. induction s; simpl; auto. Qed.

Lemma strncpy_length s : length (strncpy_bytes s) = S (String.length s).
Proof.
  unfold strncpy_bytes. rewrite length_app, length_replicate.
  pose proof (before_nul_length (bytes_of_string s)). rewrite bytes_of_string_length in *. lia.
Qed.

Lemma strncpy_size s : Z.of_nat (length (strncpy_bytes s)) = size_of s + 1.
Proof. rewrite strncpy_length. unfold size_of. lia. Qed.

Lemma enc_int32_length v : length (enc_int32 v) = 16%nat.
Proof. done. Qed.

Lemma enc_sz_length s : Z.of_nat (length (enc_sz s)) = sizeof_msg_node + 1 + size_of s.
Proof.
  unfold enc_sz. rewrite !length_app, !encode_length, strncpy_length.
  unfold size_of, sizeof_msg_node. simpl. lia.
Qed.

Lemma enc_node_length name content :
  Z.of_nat (length (enc_node name content))
  = size_of name + 1 + sizeof_msg_node + Z.of_nat (length content).
Proof.
  unfold enc_node. rewrite !length_app, !encode_length, strncpy_length.
  unfold size_of, sizeof_msg_node. simpl. lia.
Qed.

(** One write into the middle of a buffer. *)
Lemma buf_wr_app pre old post bs a :
  a = Z.of_nat (length pre) -> length bs = length old ->
  buf_wr a bs (pre ++ old ++ post) = Ok tt (pre ++ bs ++ post).
Proof.
  intros -> Hl. unfold buf_wr, bind, get. by rewrite slice_set_app.
Qed.

(** Splitting the room a message will take. *)
Lemma split_room {A} (mid : list A) n m :
  length mid = (n + m)%nat ->
  exists m1 m2, mid = m1 ++ m2 /\ length m1 = n /\ length m2 = m.
Proof.
  intros Hl. exists (take n mid), (drop n mid). rewrite take_drop, length_take, length_drop.
  split; [done|]. lia.
Qed.

(** [writes f bs]: given enough room, [f] writes the bytes [bs] at its buffer and
    returns their number; without a buffer it only returns the number. *)
Definition writes (f : option Z -> Z -> M (list Z) Z) (bs : list Z) : Prop :=
  (forall remaining b, f None remaining b = Ok (Z.of_nat (length bs)) b) /\
  forall pre mid post remaining,
    length mid = length bs -> Z.of_nat (length bs) <= remaining < 2 ^ 64 ->
    f (Some (Z.of_nat (length pre))) remaining (pre ++ mid ++ post)
    = Ok (Z.of_nat (length bs)) (pre ++ bs ++ post).

(** The three fields of a leaf node. *)
Lemma write_fields pre mid post kind size body :
  length mid = (12 + length body)%nat ->
  (do! buf_wr (Z.of_nat (length pre)) (encode U32 kind) in
   do! buf_wr (Z.of_nat (length pre) + 4) (encode U64 size) in
   buf_wr (Z.of_nat (length pre) + 12) body) (pre ++ mid ++ post)
  = Ok tt (pre ++ (encode U32 kind ++ encode U64 size ++ body) ++ post).
Proof.
  intros Hl. destruct (split_room mid 4 (8 + length body) ltac:(lia)) as (m1 & m' & -> & H1 & H').
  destruct (split_room m' 8 (length body) H') as (m2 & m3 & -> & H2 & H3).
  rewrite <- !app_assoc.
  rewrite (bind_Ok _ _ _ _ _ (buf_wr_app pre m1 (m2 ++ m3 ++ post) (encode U32 kind) _ eq_refl
             ltac:(by rewrite encode_length))).
  rewrite (app_assoc pre).
  rewrite (bind_Ok _ _ _ _ _ (buf_wr_app (pre ++ encode U32 kind) m2 (m3 ++ post) (encode U64 size)
             (Z.of_nat (length pre) + 4)
             ltac:(rewrite length_app, encode_length; simpl; lia) ltac:(by rewrite encode_length))).
  rewrite (app_assoc _ (encode U64 size)).
  rewrite (buf_wr_app ((pre ++ encode U32 kind) ++ encode U64 size) m3 post body) by
    (rewrite ?length_app, ?encode_length; simpl; lia).
  by rewrite <- !app_assoc.
Qed.

Lemma writes_int32 v : writes (serialize_int32 v) (enc_int32 v).
Proof.
  split; [done|]. intros pre mid post remaining Hl Hr. unfold serialize_int32, no_room.
  rewrite enc_int32_length in Hl, Hr.
  replace (remaining <? sizeof_msg_node_int32) with false
    by (symmetry; apply Z.ltb_ge; unfold sizeof_msg_node_int32; lia).
  cbn [when_buffer].
  by rewrite (bind_Ok _ _ _ _ _ (write_fields pre mid post INT32 sizeof_msg_node_int32 (encode I32 v) Hl)).
Qed.

Lemma writes_sz s : writes (serialize_sz s) (enc_sz s).
Proof.
  split.
  - intros remaining b. by rewrite enc_sz_length.
  - intros pre mid post remaining Hl Hr. unfold serialize_sz, no_room.
    rewrite enc_sz_length in Hr. rewrite (proj2 (Z.ltb_ge _ _)) by lia. cbn [when_buffer].
    assert (Hm : length mid = (12 + length (strncpy_bytes s))%nat).
    { rewrite Hl. unfold enc_sz. by rewrite !length_app, !encode_length. }
    rewrite (bind_Ok _ _ _ _ _ (write_fields pre mid post SZ _ (strncpy_bytes s) Hm)).
    by rewrite enc_sz_length.
Qed.

(** The children loop of dispatch_serialize_event_payload. *)
Definition each_child (buffer : option Z) (remaining_bytes : Z) :=
  fix each (cs : list node) (written : Z) : M (list Z) (option Z) :=
    match cs with
    | [] => ret (Some written)
    | e :: cs' =>
      let! r := dispatch_serialize_event_payload e
                  ((fun n => n + written) <$> buffer)
                  (match buffer with
                   | Some _ => u64 (remaining_bytes - written) | None => 0 end) in
      let written' := written + r in
      if no_room buffer written' remaining_bytes then ret None
      else each cs' written'
    end.

Lemma each_child_null remaining cs : forall written b,
  Forall (fun m => writes (dispatch_serialize_event_payload m) (enc m)) cs ->
  each_child None remaining cs written b = Ok (Some (written + Z.of_nat (length (enc_list cs)))) b.
Proof.
  induction cs as [|c cs IH]; intros written b Hw; simpl.
  - unfold ret. do 2 f_equal. lia.
  - inversion Hw as [|?? [Hnull _] Hw']; subst.
    rewrite (bind_Ok _ _ _ _ _ (Hnull _ _)), IH by done.
    unfold enc_list. simpl. rewrite length_app. do 2 f_equal. lia.
Qed.

Lemma each_child_writes cs : forall pre done_ mid post remaining,
  Forall (fun m => writes (dispatch_serialize_event_payload m) (enc m)) cs ->
  length mid = length (enc_list cs) ->
  Z.of_nat (length done_) + Z.of_nat (length (enc_list cs)) <= remaining < 2 ^ 64 ->
  each_child (Some (Z.of_nat (length pre))) remaining cs (Z.of_nat (length done_))
    (pre ++ done_ ++ mid ++ post)
  = Ok (Some (Z.of_nat (length done_) + Z.of_nat (length (enc_list cs))))
       (pre ++ done_ ++ enc_list cs ++ post).
Proof.
  induction cs as [|c cs IH]; intros pre done_ mid post remaining Hw Hl Hr.
  - destruct mid; [|done]. simpl. unfold ret. do 2 f_equal. lia.
  - inversion Hw as [|?? [_ Hwr] Hw']; subst. change (enc_list (c :: cs)) with (enc c ++ enc_list cs) in *.
    rewrite length_app in Hl, Hr.
    destruct (split_room mid _ _ Hl) as (m1 & m2 & -> & H1 & H2). cbn [each_child fmap option_fmap option_map].
    specialize (Hwr (pre ++ done_) m1 (m2 ++ post) (u64 (remaining - Z.of_nat (length done_))) H1).
    rewrite to_u_id in * by lia. rewrite length_app, Nat2Z.inj_add in Hwr.
    rewrite <- !app_assoc in *. rewrite (bind_Ok _ _ _ _ _ (Hwr ltac:(lia))).
    replace (no_room _ _ remaining) with false by (symmetry; apply Z.ltb_ge; lia).
    specialize (IH pre (done_ ++ enc c) m2 post remaining Hw' H2).
    rewrite !length_app, Nat2Z.inj_add in *. rewrite <- !app_assoc in IH. rewrite IH by lia.
    do 2 f_equal. lia.
Qed.

Lemma writes_nothing f :
  (forall buffer remaining b, f buffer remaining b = Ok 0 b) -> writes f [].
Proof.
  intros Hf. split; [intros; apply Hf|]. intros pre mid post remaining Hl _.
  destruct mid; [|done]. apply Hf.
Qed.

(** The header of a NODE: kind, then the name, then (after the children) the size. *)
Lemma write_node_fields pre mid post name :
  length mid = (12 + length (strncpy_bytes name))%nat ->
  exists sz, length sz = 8%nat /\
  forall content (k : M (list Z) Z),
  (do! buf_wr (Z.of_nat (length pre)) (encode U32 NODE) in
   do! buf_wr (Z.of_nat (length pre) + 12) (strncpy_bytes name) in k) (pre ++ mid ++ content ++ post)
  = k (pre ++ (encode U32 NODE ++ sz ++ strncpy_bytes name) ++ content ++ post).
Proof.
  intros Hl.
  destruct (split_room mid 4 (8 + length (strncpy_bytes name)) ltac:(lia)) as (m1 & m' & -> & H1 & H').
  destruct (split_room m' 8 (length (strncpy_bytes name)) H') as (m2 & m3 & -> & H2 & H3).
  exists m2. split; [done|]. intros content k. rewrite <- !app_assoc.
  rewrite (bind_Ok _ _ _ _ _ (buf_wr_app pre m1 _ (encode U32 NODE) _ eq_refl ltac:(by rewrite encode_length))).
  rewrite (app_assoc (encode U32 NODE)), (app_assoc pre).
  assert (Hw : buf_wr (Z.of_nat (length pre) + 12) (strncpy_bytes name)
      ((pre ++ encode U32 NODE ++ m2) ++ m3 ++ content ++ post)
    = Ok tt ((pre ++ encode U32 NODE ++ m2) ++ strncpy_bytes name ++ content ++ post)).
  { apply buf_wr_app; [|done]. rewrite !length_app, encode_length, H2. simpl. lia. }
  rewrite (bind_Ok _ _ _ _ _ Hw). by rewrite <- !app_assoc.
Qed.

Lemma dispatch_struct name children buffer remaining b :
  dispatch_serialize_event_payload (StructDef name children) buffer remaining b =
  (let header := size_of name + 1 + sizeof_msg_node in
   if no_room buffer header remaining then ret 0
   else
     do! when_buffer buffer (fun n => buf_wr n (encode U32 NODE)) in
     do! when_buffer buffer (fun n => buf_wr (n + 12) (strncpy_bytes name)) in
     let! written := each_child buffer remaining children header in
     match written with
     | None => ret 0
     | Some written =>
       do! when_buffer buffer (fun n => buf_wr (n + 4) (encode U64 written)) in
       ret written
     end) b.
Proof. by destruct buffer. Qed.

Lemma writes_struct name children :
  Forall (fun m => writes (dispatch_serialize_event_payload m) (enc m)) children ->
  writes (dispatch_serialize_event_payload (StructDef name children)) (enc (StructDef name children)).
Proof.
  intros Hw. cbn [enc]. fold (enc_list children). split.
  - intros remaining b. rewrite dispatch_struct. cbn [no_room when_buffer]. rewrite !bind_ret_l.
    rewrite (bind_Ok _ _ _ _ _ (each_child_null remaining children _ b Hw)).
    rewrite enc_node_length. unfold bind, ret. done.
  - intros pre mid post remaining Hl Hr. rewrite dispatch_struct.
    rewrite enc_node_length in Hr. cbn [no_room when_buffer].
    pose proof (strncpy_size name) as Hn.
    replace (remaining <? size_of name + 1 + sizeof_msg_node) with false
      by (symmetry; apply Z.ltb_ge; lia). cbv zeta.
    assert (Hlm : length mid = ((12 + length (strncpy_bytes name)) + length (enc_list children))%nat).
    { rewrite Hl. unfold enc_node. rewrite !length_app, !encode_length. simpl. lia. }
    destruct (split_room mid _ _ Hlm) as (hd & cs & -> & Hhd & Hcs).
    destruct (write_node_fields pre hd post name Hhd) as (sz & Hsz & Hwr).
    rewrite <- app_assoc, Hwr.
    set (hdr := encode U32 NODE ++ sz ++ strncpy_bytes name).
    assert (Hh : Z.of_nat (length hdr) = size_of name + 1 + sizeof_msg_node).
    { unfold hdr, sizeof_msg_node. rewrite !length_app, encode_length, Hsz. simpl. lia. }
    rewrite <- Hh at 1.
    rewrite (bind_Ok _ _ _ _ _ (each_child_writes children pre hdr cs post remaining Hw Hcs ltac:(lia))).
    assert (Hfin : buf_wr (Z.of_nat (length pre) + 4)
        (encode U64 (Z.of_nat (length hdr) + Z.of_nat (length (enc_list children))))
        (pre ++ hdr ++ enc_list children ++ post)
      = Ok tt (pre ++ enc_node name (enc_list children) ++ post)).
    { rewrite Hh. unfold hdr, enc_node. rewrite <- !app_assoc, (app_assoc pre), (buf_wr_app (pre ++ _) sz);
        rewrite ?length_app, ?encode_length; [|simpl; lia|done].
      by rewrite <- !app_assoc. }
    rewrite (bind_Ok _ _ _ _ _ Hfin), enc_node_length, Hh. done.
Qed.

Lemma writes_dispatch m : writes (dispatch_serialize_event_payload m) (enc m).
Proof.
  induction m as [name children IH|k args|v|s|] using node_ind_list.
  - by apply writes_struct.
  - cbn [dispatch_serialize_event_payload enc].
    destruct (String.eqb k _); [|destruct (String.eqb k _)];
      destruct args as [|[] ?]; try (by apply writes_nothing);
      [apply writes_int32|apply writes_sz].
  - apply writes_int32.
  - apply writes_sz.
  - by apply writes_nothing.
Qed.

(** The loop of serialize_oblectamenta_msg. *)
Definition root_step (buffer : option Z) (remaining_bytes : Z) (written : Z) (e : node)
    : M (list Z) Z :=
  let! r := dispatch_serialize_event_payload e
              ((fun n => n + written) <$> buffer)
              (match buffer with
               | Some _ => u64 (remaining_bytes - written) | None => 0 end) in
  ret (written + r).

Lemma root_null remaining cs : forall written b,
  foldM cs (root_step None remaining) written b
  = Ok (written + Z.of_nat (length (enc_list cs))) b.
Proof.
  induction cs as [|c cs IH]; intros written b; cbn [foldM].
  - unfold ret. f_equal. simpl. lia.
  - destruct (writes_dispatch c) as [Hnull _]. unfold root_step at 1. cbn [fmap option_fmap option_map].
    rewrite bind_assoc, (bind_Ok _ _ _ _ _ (Hnull _ _)), bind_ret_l, IH.
    f_equal. unfold enc_list. simpl. rewrite length_app. lia.
Qed.

Lemma root_writes cs : forall pre done_ mid post remaining,
  length mid = length (enc_list cs) ->
  Z.of_nat (length done_) + Z.of_nat (length (enc_list cs)) <= remaining < 2 ^ 64 ->
  foldM cs (root_step (Some (Z.of_nat (length pre))) remaining) (Z.of_nat (length done_))
    (pre ++ done_ ++ mid ++ post)
  = Ok (Z.of_nat (length done_) + Z.of_nat (length (enc_list cs)))
       (pre ++ done_ ++ enc_list cs ++ post).
Proof.
  induction cs as [|c cs IH]; intros pre done_ mid post remaining Hl Hr; cbn [foldM].
  - destruct mid; [|done]. unfold ret. simpl. f_equal. lia.
  - destruct (writes_dispatch c) as [_ Hwr].
    change (enc_list (c :: cs)) with (enc c ++ enc_list cs) in *.
    rewrite length_app in Hl, Hr.
    destruct (split_room mid _ _ Hl) as (m1 & m2 & -> & H1 & H2).
    unfold root_step at 1. cbn [fmap option_fmap option_map].
    specialize (Hwr (pre ++ done_) m1 (m2 ++ post) (u64 (remaining - Z.of_nat (length done_))) H1).
    rewrite to_u_id in * by lia. rewrite length_app, Nat2Z.inj_add in Hwr.
    rewrite <- !app_assoc in *. rewrite bind_assoc, (bind_Ok _ _ _ _ _ (Hwr ltac:(lia))), bind_ret_l.
    specialize (IH pre (done_ ++ enc c) m2 post remaining H2).
    rewrite !length_app, Nat2Z.inj_add in *. rewrite <- !app_assoc in IH. rewrite IH by lia.
    f_equal. lia.
Qed.

Lemma enc_msg_length cs : Z.of_nat (length (enc_msg cs)) = sizeof_msg_node + Z.of_nat (length (enc_list cs)).
Proof. unfold enc_msg, sizeof_msg_node. rewrite !length_app, !encode_length. simpl. lia. Qed.

Lemma serialize_root children :
  writes (serialize_oblectamenta_msg children) (enc_msg children).
Proof.
  split.
  - intros remaining b. unfold serialize_oblectamenta_msg. cbn [no_room when_buffer].
    rewrite bind_ret_l, enc_msg_length. fold (root_step None remaining).
    rewrite (bind_Ok _ _ _ _ _ (root_null remaining children sizeof_msg_node b)). done.
  - intros pre mid post remaining Hl Hr. unfold serialize_oblectamenta_msg.
    rewrite enc_msg_length in Hr. cbn [no_room when_buffer]. unfold sizeof_msg_node in Hr.
    replace (remaining <? sizeof_msg_node) with false
      by (symmetry; apply Z.ltb_ge; unfold sizeof_msg_node; lia).
    fold (root_step (Some (Z.of_nat (length pre))) remaining).
    assert (Hlm : length mid = (4 + (8 + length (enc_list children)))%nat).
    { rewrite Hl. unfold enc_msg. by rewrite !length_app, !encode_length. }
    destruct (split_room mid _ _ Hlm) as (m1 & m' & -> & H1 & H').
    destruct (split_room m' _ _ H') as (m2 & m3 & -> & H2 & H3).
    rewrite <- !app_assoc.
    rewrite (bind_Ok _ _ _ _ _ (buf_wr_app pre m1 _ (encode U32 ROOT) _ eq_refl
               ltac:(by rewrite encode_length))).
    assert (Hd : Z.of_nat (length (encode U32 ROOT ++ m2)) = sizeof_msg_node).
    { rewrite length_app, encode_length, H2. done. }
    pose proof (root_writes children pre (encode U32 ROOT ++ m2) m3 post remaining H3) as Hroot.
    rewrite Hd, <- !app_assoc in Hroot. unfold sizeof_msg_node in Hroot at 1.
    rewrite (bind_Ok _ _ _ _ _ (Hroot ltac:(lia))).
    assert (Hfin : buf_wr (Z.of_nat (length pre) + 4)
        (encode U64 (sizeof_msg_node + Z.of_nat (length (enc_list children))))
        (pre ++ encode U32 ROOT ++ m2 ++ enc_list children ++ post)
      = Ok tt (pre ++ enc_msg children ++ post)).
    { unfold enc_msg. rewrite (app_assoc pre), (buf_wr_app (pre ++ _) m2);
        rewrite ?length_app, ?encode_length; [|simpl; lia|done]. by rewrite <- !app_assoc. }
    by rewrite (bind_Ok _ _ _ _ _ Hfin), enc_msg_length.
Qed.

(** Given a buffer with room for the message, serialize_oblectamenta_msg writes
    exactly the message's encoding (kind, size and content of every node, in document
    order, sizes that include everything below a node) at the buffer and nothing
    outside, and returns its length; called without a buffer it returns the same
    length and writes nothing. *)
Theorem serialize_writes_encoding children :
  (forall remaining b,
     serialize_oblectamenta_msg children None remaining b
     = Ok (Z.of_nat (length (enc_msg children))) b) /\
  forall pre mid post remaining,
    length mid = length (enc_msg children) -> Z.of_nat (length mid) <= remaining < 2 ^ 64 ->
    serialize_oblectamenta_msg children (Some (Z.of_nat (length pre))) remaining (pre ++ mid ++ post)
    = Ok (Z.of_nat (length (enc_msg children))) (pre ++ enc_msg children ++ post).
Proof.
  destruct (serialize_root children) as [Hnull Hwr]. split; [exact Hnull|].
  intros pre mid post remaining Hl Hr. apply Hwr; [done|]. by rewrite <- Hl.
Qed.

(** ** Reading *)

Definition is_struct (m : node) : bool := match m with StructDef _ _ => true | _ => false end.
Definition is_string (m : node) : bool := match m with StringLiteral _ => true | _ => false end.

(** A text without NUL, and one whose escaped form drops no character. *)
Definition no_nul (s : string) : Prop := Forall (fun b => b <> 0) (bytes_of_string s).
Definition no_drop (s : string) : Prop :=
  Forall (fun c => (1 <= String.length (escape_char c))%nat) (String.list_ascii_of_string s).

(** The messages the reader understands: int items, string items at the end of their
    block only, nested blocks. *)
Fixpoint readable (m : node) : Prop :=
  match m with
  | StructDef name children =>
    no_nul name /\
    (fix go cs := match cs with
                  | [] => True
                  | c :: cs' => readable c /\ (is_string c = true -> cs' = []) /\ go cs'
                  end) children
  | IntLiteral v => in_range I32 v = true
  | StringLiteral s => no_nul s /\ no_drop s
  | SymbolWithArgs _ _ | OtherNode => False
  end.

Fixpoint readable_list (cs : list node) : Prop :=
  match cs with
  | [] => True
  | c :: cs' => readable c /\ (is_string c = true -> cs' = []) /\ readable_list cs'
  end.

(** The JSON text. *)
Fixpoint join (xs : list string) : string :=
  match xs with
  | [] => EmptyString
  | [x] => x
  | x :: xs' => x +:+ "," +:+ join xs'
  end.

Definition block (inner : string) (nodes : bool) : string :=
  if String.eqb inner EmptyString then "{}" else if nodes then "{" +:+ inner +:+ "}" else inner.

Fixpoint render (m : node) : string :=
  match m with
  | StructDef name children =>
    dquote +:+ name +:+ dquote +:+ ":" +:+ block (join (map render children)) (existsb is_struct children)
  | IntLiteral v => pretty v
  | StringLiteral s => dquote +:+ escape_str s +:+ dquote
  | SymbolWithArgs _ _ | OtherNode => EmptyString
  end.

Definition render_msg (children : list node) : string := "{" +:+ join (map render children) +:+ "}".

(** Depth of recursion and loop rounds the reader needs. *)
Fixpoint steps (m : node) : nat :=
  match m with
  | StructDef _ children => S (length children + list_sum (map steps children))
  | _ => 1
  end.

(** The number of bytes the reader reports for a node: too many for a string. *)
Definition consumed_by (m : node) : Z :=
  match m with
  | StringLiteral s => sizeof_msg_node + (Z.of_nat (String.length (escape_str s)) + 2) + 1
  | _ => len m
  end.

Definition what_of (m : node) : Z :=
  match m with StructDef _ _ => NODE | StringLiteral _ => SZ | _ => INT32 end.

(** *** Pieces of a buffer *)

Lemma string_of_bytes_of_string s : string_of_bytes (bytes_of_string s) = s.
Proof.
  induction s as [|c s IH]; [done|]. simpl. rewrite IH. f_equal.
  unfold char_of, byte_of. rewrite N2Z.id. apply Ascii.ascii_N_embedding.
Qed.

Lemma rd_app {S} t z pre post (s : S) :
  in_range t z = true -> rd t (pre ++ encode t z ++ post) (Z.of_nat (length pre)) s = Ok z s.
Proof.
  intros Hz. unfold rd. rewrite <- (encode_length t z), slice_get_app. unfold bind, of_option, ret.
  by rewrite decode_encode.
Qed.

Lemma strncpy_no_nul s : no_nul s -> strncpy_bytes s = bytes_of_string s ++ [0].
Proof.
  intros Hs. unfold strncpy_bytes.
  assert (Hb : before_nul (bytes_of_string s) = bytes_of_string s).
  { unfold no_nul in Hs. induction Hs as [|b bs Hb Hbs IH]; [done|]. simpl.
    rewrite (proj2 (Z.eqb_neq _ _)) by done. by rewrite IH. }
  rewrite Hb, bytes_of_string_length. by replace (S _ - _)%nat with 1%nat by lia.
Qed.

Lemma until_nul_app bs post : Forall (fun b => b <> 0) bs -> until_nul (bs ++ 0 :: post) = Some bs.
Proof.
  induction 1 as [|b bs Hb Hbs IH]; [done|]. simpl. rewrite (proj2 (Z.eqb_neq _ _)) by done.
  by rewrite IH.
Qed.

Lemma rd_sz_app {S} name pre post (s : S) :
  no_nul name ->
  rd_sz (pre ++ strncpy_bytes name ++ post) (Z.of_nat (length pre)) s = Ok name s.
Proof.
  intros Hn. unfold rd_sz, c_string. rewrite strncpy_no_nul by done.
  rewrite !(proj2 (Z.leb_le _ _)) by (rewrite ?length_app; lia). simpl.
  rewrite Nat2Z.id, drop_app_length, <- app_assoc. simpl. rewrite until_nul_app by done.
  unfold bind, of_option, ret. by rewrite string_of_bytes_of_string.
Qed.

Lemma find_zero_app {S} name pre post size (s : S) :
  no_nul name -> size_of name < size ->
  find_trailing_zero_at (pre ++ strncpy_bytes name ++ post) (Z.of_nat (length pre)) size s
  = Ok (size_of name) s.
Proof.
  intros Hn Hsz. unfold find_trailing_zero_at. rewrite strncpy_no_nul by done.
  rewrite !(proj2 (Z.leb_le _ _)) by (rewrite ?length_app; lia). simpl.
  rewrite Nat2Z.id, drop_app_length, <- app_assoc. simpl.
  replace (find_trailing_zero _ size) with (Some (size_of name)); [done|]. symmetry.
  unfold size_of in *. rewrite <- bytes_of_string_length in *. unfold no_nul in Hn. revert size Hsz.
  induction Hn as [|b bs Hb Hbs IH]; intros size Hsz; simpl in *;
    (destruct (size <=? 0) eqn:E; zbool; [lia|]); [done|].
  rewrite (proj2 (Z.eqb_neq _ _)) by done. rewrite IH by lia. simpl. f_equal. lia.
Qed.

Lemma string_app_cons c s1 s2 : String c s1 +:+ s2 = String c (s1 +:+ s2).
Proof. done. Qed.

Lemma string_app_nil_r s : s +:+ EmptyString = s.
Proof. induction s as [|c s IH]; [done|]. by rewrite string_app_cons, IH. Qed.

Lemma string_app_assoc s1 s2 s3 : (s1 +:+ s2) +:+ s3 = s1 +:+ s2 +:+ s3.
Proof. induction s1 as [|c s IH]; [done|]. by rewrite !string_app_cons, IH. Qed.

Lemma string_app_length s1 s2 : String.length (s1 +:+ s2) = (String.length s1 + String.length s2)%nat.
Proof. induction s1 as [|c s IH]; [done|]. rewrite string_app_cons. simpl. by rewrite IH. Qed.

Lemma escape_length s :
  no_drop s -> (String.length s <= String.length (escape_str s) <= 2 * String.length s)%nat.
Proof.
  unfold no_drop. induction s as [|c s IH]; [simpl; lia|]. intros Hn.
  apply Forall_cons in Hn as [Hc Hn]. cbn [escape_str String.length]. rewrite string_app_length.
  specialize (IH Hn). assert (String.length (escape_char c) <= 2)%nat; [|lia].
  unfold escape_char. repeat (case_match; [simpl; lia|]). simpl. lia.
Qed.

Lemma len_ge m : readable m -> 12 <= len m.
Proof.
  unfold len. destruct m as [name cs|k a|v|s|]; intros Hr; try done; cbn [enc].
  - rewrite enc_node_length. unfold size_of, sizeof_msg_node. lia.
  - rewrite enc_sz_length. unfold size_of, sizeof_msg_node. lia.
Qed.

(** Every encoding starts with its kind. *)
Lemma enc_what m : readable m -> exists rest, enc m = encode U32 (what_of m) ++ rest.
Proof. destruct m; intros Hr; try done; by eexists. Qed.

Lemma consumed_ge m : readable m -> len m <= consumed_by m <= 2 * len m.
Proof.
  intros Hr. pose proof (len_ge m Hr). destruct m as [name cs|k a|v|s|]; try done;
    cbn [consumed_by]; try lia.
  destruct Hr as [_ Hd]. pose proof (escape_length s Hd). unfold len. cbn [enc].
  rewrite enc_sz_length. unfold size_of, sizeof_msg_node. lia.
Qed.

(** *** The content loop and the reader *)

Section reading.
Context `{Target} {S : Type}.
Implicit Types s : S.

(** [deser] reads the node at any place of any buffer. *)
Definition reads (deser : list Z -> Z -> Z -> M S (Z * string)) (m : node) : Prop :=
  forall pre post size s, len m <= size < 2 ^ 60 ->
  deser (pre ++ enc m ++ post) (Z.of_nat (length pre)) size s = Ok (consumed_by m, render m) s.

Lemma content_loop_reads deser cs : forall pre done_ post fuel inner nodes s,
  Forall (reads deser) cs -> readable_list cs -> (length cs <= fuel)%nat ->
  let buf := pre ++ done_ ++ enc_list cs ++ post in
  let size := Z.of_nat (length (done_ ++ enc_list cs)) in
  size < 2 ^ 60 ->
  content_loop (deser buf) buf (Z.of_nat (length pre)) size fuel (Z.of_nat (length done_)) inner nodes s
  = Ok (inner +:+ join (map render cs), nodes || existsb is_struct cs) s.
Proof.
  induction cs as [|c cs IH]; intros pre done_ post fuel inner nodes s Hreads Hr Hfuel buf size Hsize.
  - unfold buf, size. simpl. rewrite app_nil_r. destruct fuel; simpl;
      rewrite (proj2 (Z.ltb_ge _ _)) by lia; rewrite string_app_nil_r, orb_false_r; done.
  - destruct fuel as [|fuel]; [simpl in Hfuel; lia|].
    apply Forall_cons in Hreads as [Hc Hcs]. destruct Hr as (Hr & Hlast & Hrs).
    pose proof (len_ge c Hr) as Hge. pose proof (consumed_ge c Hr) as Hcons.
    change (enc_list (c :: cs)) with (enc c ++ enc_list cs) in *.
    assert (Hsz : size = Z.of_nat (length done_) + len c + Z.of_nat (length (enc_list cs))).
    { unfold size, len. rewrite !length_app. lia. }
    cbn [content_loop]. rewrite (proj2 (Z.ltb_lt _ _)) by lia.
    assert (Hwhat : rd_what buf (Z.of_nat (length pre) + Z.of_nat (length done_)) s = Ok (what_of c) s).
    { destruct (enc_what c Hr) as [rest Hrest]. unfold buf, rd_what.
      rewrite Hrest, <- !app_assoc, (app_assoc pre), <- Nat2Z.inj_add, <- length_app.
      apply rd_app. by destruct c. }
    rewrite (bind_Ok _ _ _ _ _ Hwhat).
    specialize (Hc (pre ++ done_) (enc_list cs ++ post) (size - Z.of_nat (length done_)) s ltac:(lia)).
    rewrite length_app, Nat2Z.inj_add, <- !app_assoc in Hc.
    unfold buf. rewrite <- !app_assoc. rewrite (bind_Ok _ _ _ _ _ Hc).
    rewrite to_u_id by lia.
    replace (what_of c =? NODE) with (is_struct c) by by destruct c.
    cbn [map existsb]. rewrite orb_assoc.
    destruct cs as [|c' cs].
    + (* the last item ends the loop even when more bytes were reported *)
      change (enc_list []) with (@nil Z) in *. simpl in Hsz.
      rewrite (proj2 (Z.ltb_ge _ _)) by lia.
      destruct fuel; simpl; rewrite (proj2 (Z.ltb_ge _ _)) by lia; by rewrite orb_false_r.
    + destruct (is_string c) eqn:Es; [by specialize (Hlast eq_refl)|].
      assert (Hcc : consumed_by c = len c) by by destruct c.
      pose proof (len_ge c' (proj1 Hrs)) as Hge'.
      assert (Z.of_nat (length (enc_list (c' :: cs))) >= 12).
      { unfold enc_list. simpl. rewrite length_app. unfold len in Hge'. lia. }
      rewrite Hcc, (proj2 (Z.ltb_lt _ _)) by lia.
      specialize (IH pre (done_ ++ enc c) post fuel ((inner +:+ render c) +:+ ",")
        (nodes || is_struct c) s Hcs Hrs ltac:(simpl in *; lia)).
      cbv zeta in IH.
      assert (Hs1 : Z.of_nat (length ((done_ ++ enc c) ++ enc_list (c' :: cs))) = size)
        by (unfold size; by rewrite <- app_assoc).
      assert (Hs2 : Z.of_nat (length (done_ ++ enc c)) = Z.of_nat (length done_) + len c)
        by (rewrite length_app; unfold len; lia).
      rewrite Hs1, Hs2, <- !app_assoc in IH. rewrite IH by done.
      by rewrite !string_app_assoc.
Qed.

Lemma list_sum_ge {A} (f : A -> nat) xs x : x ∈ xs -> (f x <= list_sum (map f xs))%nat.
Proof.
  induction 1 as [|x y xs Hx IH]; simpl; lia.
Qed.

Lemma readable_list_Forall cs : readable_list cs -> Forall readable cs.
Proof. induction cs as [|c cs IH]; [constructor|]. intros (? & _ & ?). constructor; auto. Qed.

(** Reading the header of a node. *)
Lemma rd_header kind sz body pre post s :
  in_range U32 kind = true -> in_range U64 sz = true ->
  let buf := pre ++ (encode U32 kind ++ encode U64 sz ++ body) ++ post in
  rd_what buf (Z.of_nat (length pre)) s = Ok kind s /\
  rd_size buf (Z.of_nat (length pre)) s = Ok sz s.
Proof.
  intros Hk Hsz buf. unfold buf, rd_what, rd_size. rewrite <- !app_assoc. split.
  - by apply rd_app.
  - rewrite (app_assoc pre).
    replace (Z.of_nat (length pre) + 4) with (Z.of_nat (length (pre ++ encode U32 kind)))
      by (rewrite length_app, encode_length; simpl; lia).
    by apply rd_app.
Qed.

(** The body of a node starts twelve bytes in. *)
Lemma body_at kind sz body pre post :
  exists pre', Z.of_nat (length pre') = Z.of_nat (length pre) + sizeof_msg_node /\
  pre ++ (encode U32 kind ++ encode U64 sz ++ body) ++ post = pre' ++ body ++ post.
Proof.
  exists (pre ++ encode U32 kind ++ encode U64 sz). split; [|by rewrite <- !app_assoc].
  rewrite !length_app, !encode_length. unfold sizeof_msg_node. simpl. lia.
Qed.

Lemma reads_int32 fuel v : (1 <= fuel)%nat -> in_range I32 v = true ->
  reads (deserialize_event_payload fuel) (IntLiteral v).
Proof.
  intros Hf Hv pre post size s Hsz. destruct fuel as [|fuel]; [lia|].
  change (len (IntLiteral v)) with 16 in Hsz. cbn [deserialize_event_payload].
  rewrite (proj2 (Z.eqb_neq size 0)) by lia.
  rewrite (proj2 (Z.ltb_ge size sizeof_msg_node)) by (unfold sizeof_msg_node; lia).
  cbn [enc]. unfold enc_int32.
  destruct (rd_header INT32 sizeof_msg_node_int32 (encode I32 v) pre post s eq_refl eq_refl) as [Hw Hs].
  destruct (body_at INT32 sizeof_msg_node_int32 (encode I32 v) pre post) as (pre' & Hp & Hb).
  rewrite (bind_Ok _ _ _ _ _ Hw). cbn [Z.eqb INT32 NODE Pos.eqb]. rewrite bind_ret_l, (bind_Ok _ _ _ _ _ Hs).
  replace (sizeof_msg_node_int32 <? sizeof_msg_node + 0) with false by done.
  cbn [Z.eqb INT32 NODE ROOT Pos.eqb orb]. rewrite <- Hp, Hb.
  by rewrite (bind_Ok _ _ _ _ _ (rd_app I32 v pre' post s Hv)).
Qed.

Lemma reads_sz fuel t : (1 <= fuel)%nat -> no_nul t -> no_drop t ->
  reads (deserialize_event_payload fuel) (StringLiteral t).
Proof.
  intros Hf Hn Hd pre post size s Hsz. destruct fuel as [|fuel]; [lia|].
  assert (Hlen : len (StringLiteral t) = sizeof_msg_node + 1 + size_of t) by apply enc_sz_length.
  rewrite Hlen in Hsz. unfold sizeof_msg_node, size_of in Hsz. cbn [deserialize_event_payload].
  rewrite (proj2 (Z.eqb_neq size 0)) by lia.
  rewrite (proj2 (Z.ltb_ge size sizeof_msg_node)) by (unfold sizeof_msg_node; lia).
  cbn [enc]. unfold enc_sz. set (sz := sizeof_msg_node + 1 + size_of t).
  assert (Hr : in_range U64 sz = true)
    by (apply fits_u_spec; unfold sz, sizeof_msg_node, size_of; change (2 ^ bits U64) with (2 ^ 64); lia).
  destruct (rd_header SZ sz (strncpy_bytes t) pre post s eq_refl Hr) as [Hw Hs].
  destruct (body_at SZ sz (strncpy_bytes t) pre post) as (pre' & Hp & Hb).
  rewrite (bind_Ok _ _ _ _ _ Hw). cbn [Z.eqb SZ NODE Pos.eqb]. rewrite bind_ret_l, (bind_Ok _ _ _ _ _ Hs).
  rewrite (proj2 (Z.ltb_ge sz (sizeof_msg_node + 0))) by (unfold sz, sizeof_msg_node, size_of; lia).
  cbn [Z.eqb SZ NODE ROOT INT32 INT64 PF64 Pos.eqb orb].
  rewrite <- Hp, Hb. rewrite (bind_Ok _ _ _ _ _ (rd_sz_app t pre' post s Hn)).
  unfold ret. cbn [consumed_by render]. rewrite !string_app_length. do 2 f_equal. simpl. lia.
Qed.

Lemma steps_child name cs c fuel :
  c ∈ cs -> (steps (StructDef name cs) <= Datatypes.S fuel)%nat -> (steps c <= fuel)%nat.
Proof. intros Hc. pose proof (list_sum_ge steps cs c Hc). cbn [steps]. lia. Qed.

Lemma deserialize_reads m : readable m -> forall fuel, (steps m <= fuel)%nat ->
  reads (deserialize_event_payload fuel) m.
Proof.
  induction m as [name cs IH|k args|v|t|] using node_ind_list; intros Hr fuel Hfuel; try done.
  2: { by apply reads_int32. }
  2: { destruct Hr. by apply reads_sz. }
  destruct Hr as [Hn Hr]. change (readable_list cs) in Hr.
  destruct fuel as [|fuel]; [cbn [steps] in Hfuel; lia|].
  assert (Hreads : Forall (reads (deserialize_event_payload fuel)) cs).
  { apply Forall_forall. intros c Hc. rewrite Forall_forall in IH.
    apply IH; [done| |by eapply steps_child].
    pose proof (readable_list_Forall cs Hr) as Hall. rewrite Forall_forall in Hall. auto. }
  intros pre post size s Hsz. cbn [enc]. fold (enc_list cs).
  assert (Hlen : len (StructDef name cs) = size_of name + 1 + sizeof_msg_node + Z.of_nat (length (enc_list cs)))
    by apply enc_node_length.
  rewrite Hlen in Hsz. unfold sizeof_msg_node, size_of in Hsz. cbn [deserialize_event_payload].
  rewrite (proj2 (Z.eqb_neq size 0)) by lia.
  rewrite (proj2 (Z.ltb_ge size sizeof_msg_node)) by (unfold sizeof_msg_node; lia).
  unfold enc_node. set (sz := size_of name + 1 + sizeof_msg_node + Z.of_nat (length (enc_list cs))).
  assert (Hrg : in_range U64 sz = true)
    by (apply fits_u_spec; unfold sz, sizeof_msg_node, size_of; change (2 ^ bits U64) with (2 ^ 64); lia).
  set (body := strncpy_bytes name ++ enc_list cs).
  destruct (rd_header NODE sz body pre post s eq_refl Hrg) as [Hw Hs].
  destruct (body_at NODE sz body pre post) as (pre' & Hp & Hb).
  rewrite (bind_Ok _ _ _ _ _ Hw). cbn [Z.eqb NODE Pos.eqb].
  set (buf := pre ++ _ ++ post) in *. rewrite <- Hp.
  assert (Hbuf : buf = pre' ++ strncpy_bytes name ++ enc_list cs ++ post)
    by (rewrite Hb; unfold body; by rewrite <- !app_assoc).
  assert (Hz : find_trailing_zero_at buf (Z.of_nat (length pre')) (size - sizeof_msg_node) s
               = Ok (size_of name) s).
  { rewrite Hbuf. apply find_zero_app; [done|]. unfold size_of, sizeof_msg_node. lia. }
  rewrite bind_assoc, (bind_Ok _ _ _ _ _ Hz), bind_ret_l, (bind_Ok _ _ _ _ _ Hs).
  rewrite (proj2 (Z.ltb_ge sz _)) by (unfold sz, sizeof_msg_node; lia).
  cbn [Z.eqb NODE ROOT Pos.eqb orb].
  assert (Hnm : rd_sz buf (Z.of_nat (length pre')) s = Ok name s) by (rewrite Hbuf; by apply rd_sz_app).
  rewrite bind_assoc, (bind_Ok _ _ _ _ _ Hnm), bind_ret_l.
  pose proof (content_loop_reads (deserialize_event_payload fuel) cs (pre' ++ strncpy_bytes name) [] post
    fuel EmptyString false s Hreads Hr) as Hloop. cbv zeta in Hloop.
  rewrite !app_nil_l, <- !app_assoc, <- Hbuf in Hloop.
  replace (sz - (sizeof_msg_node + (size_of name + 1))) with (Z.of_nat (length (enc_list cs)))
    by (unfold sz; lia).
  replace (Z.of_nat (length pre) + (sizeof_msg_node + (size_of name + 1)))
    with (Z.of_nat (length (pre' ++ strncpy_bytes name)))
    by (rewrite length_app, Nat2Z.inj_add, strncpy_size; lia).
  assert (Hcs : (length cs <= fuel)%nat) by (cbn [steps] in Hfuel; lia).
  change (Z.of_nat (length [])) with 0 in Hloop.
  rewrite (bind_Ok _ _ _ _ _ (Hloop Hcs ltac:(lia))).
  unfold ret. cbn [consumed_by render]. rewrite Hlen, string_app_nil_r. f_equal. f_equal; [unfold sz; lia|].
  rewrite !string_app_assoc. by destruct (join _), (existsb _ _).
Qed.

Lemma deserialize_root children pre post fuel size s : readable_list children ->
  (steps (StructDef EmptyString children) < fuel)%nat ->
  Z.of_nat (length (enc_msg children)) <= size < 2 ^ 60 ->
  deserialize_event_payload fuel (pre ++ enc_msg children ++ post) (Z.of_nat (length pre)) size s
  = Ok (Z.of_nat (length (enc_msg children)), render_msg children) s.
Proof.
  intros Hr Hfuel Hsz. destruct fuel as [|fuel]; [lia|]. cbn [steps] in Hfuel.
  assert (Hreads : Forall (reads (deserialize_event_payload fuel)) children).
  { pose proof (readable_list_Forall children Hr) as Hall. rewrite Forall_forall in Hall |- *.
    intros c Hc. apply deserialize_reads; [by apply Hall|].
    pose proof (list_sum_ge steps children c Hc). lia. }
  rewrite enc_msg_length in *. unfold sizeof_msg_node in Hsz. cbn [deserialize_event_payload].
  rewrite (proj2 (Z.eqb_neq size 0)) by lia.
  rewrite (proj2 (Z.ltb_ge size sizeof_msg_node)) by (unfold sizeof_msg_node; lia).
  unfold enc_msg. set (sz := sizeof_msg_node + Z.of_nat (length (enc_list children))).
  assert (Hrg : in_range U64 sz = true)
    by (apply fits_u_spec; unfold sz, sizeof_msg_node; change (2 ^ bits U64) with (2 ^ 64); lia).
  destruct (rd_header ROOT sz (enc_list children) pre post s eq_refl Hrg) as [Hw Hs].
  destruct (body_at ROOT sz (enc_list children) pre post) as (pre' & Hp & Hb).
  rewrite (bind_Ok _ _ _ _ _ Hw). cbn [Z.eqb ROOT NODE Pos.eqb].
  rewrite bind_ret_l, (bind_Ok _ _ _ _ _ Hs).
  rewrite (proj2 (Z.ltb_ge sz _)) by (unfold sz, sizeof_msg_node; lia).
  cbn [Z.eqb NODE ROOT Pos.eqb orb]. rewrite bind_ret_l.
  pose proof (content_loop_reads (deserialize_event_payload fuel) children pre' [] post
    fuel EmptyString false s Hreads Hr ltac:(lia)) as Hloop. cbv zeta in Hloop.
  rewrite !app_nil_l, <- Hb in Hloop. change (Z.of_nat (length [])) with 0 in Hloop.
  replace (sz - (sizeof_msg_node + 0)) with (Z.of_nat (length (enc_list children))) by (unfold sz; lia).
  replace (Z.of_nat (length pre) + (sizeof_msg_node + 0)) with (Z.of_nat (length pre')) by lia.
  rewrite (bind_Ok _ _ _ _ _ (Hloop ltac:(lia))). done.
Qed.

(** C10: a message survives the way through the bytes when it consists of integers of 32 bits,
    strings that are the last item of their block, and nested blocks, when its strings have
    no NUL and only characters that the JSON text renders (printable ASCII and those with an
    escape of their own), and when no name of a block has a NUL; items with a tag are not
    among them. Reading what serialize_oblectamenta_msg wrote, wherever it lies in memory and
    with enough fuel for the nesting and the number of items, consumes exactly the message
    and gives its JSON text. *)
Theorem message_roundtrip children : readable_list children ->
  forall pre mid post remaining fuel size s,
  length mid = length (enc_msg children) -> Z.of_nat (length mid) <= remaining < 2 ^ 64 ->
  (steps (StructDef EmptyString children) < fuel)%nat ->
  Z.of_nat (length mid) <= size < 2 ^ 60 ->
  exists n buf,
    serialize_oblectamenta_msg children (Some (Z.of_nat (length pre))) remaining (pre ++ mid ++ post)
      = Ok n buf /\
    deserialize_event_payload fuel buf (Z.of_nat (length pre)) size s = Ok (n, render_msg children) s.
Proof.
  intros Hr pre mid post remaining fuel size s Hl Hrem Hfuel Hsz.
  destruct (serialize_root children) as [_ Hwr]. rewrite Hl in Hrem, Hsz.
  exists (Z.of_nat (length (enc_msg children))), (pre ++ enc_msg children ++ post).
  split; [by apply Hwr|]. by apply deserialize_root.
Qed.
End reading.

(** ** Where the reader goes wrong *)

(** A string item is taken to be longer than it is (the reader counts the quotes
    and escapes of the text it produces instead of the bytes it read), so an item
    behind it is lost: the message with the items "ab" and 5 reads back as the first
    item and an empty second one. *)
Theorem string_not_last_lost `{Target} :
  deserialize_event_payload (St := unit) 10 (enc_msg [StringLiteral "ab"; IntLiteral 5]) 0 43 tt
  = Ok (43, "{" +:+ dquote +:+ "ab" +:+ dquote +:+ ",}") tt.
Proof. vm_compute. reflexivity. Qed.

Lemma stuck_loop `{Target} {S} fuel : forall buf content size inner nodes n rest (s : S),
  0 < size < sizeof_msg_node -> slice_get buf content 4 = Some rest -> (fuel <= n)%nat ->
  content_loop (deserialize_event_payload n buf) buf content size fuel 0 inner nodes s = OutOfFuel.
Proof.
  induction fuel as [|fuel IH]; intros buf content size inner nodes n rest s Hsz Hget Hn;
    cbn [content_loop]; rewrite (proj2 (Z.ltb_lt 0 size)) by lia; [done|].
  destruct n as [|n]; [lia|].
  assert (Hw : rd_what buf (content + 0) s = Ok (decode U32 rest) s).
  { unfold rd_what, rd. rewrite Z.add_0_r. change (sizeof U32) with 4%nat.
    unfold bind, of_option. by rewrite Hget. }
  rewrite (bind_Ok _ _ _ _ _ Hw).
  assert (Hd : deserialize_event_payload (Datatypes.S n) buf (content + 0) (size - 0) s = Ok (0, EmptyString) s).
  { cbn [deserialize_event_payload]. destruct (size - 0 =? 0); [done|].
    by rewrite (proj2 (Z.ltb_lt _ _)) by lia. }
  rewrite (bind_Ok _ _ _ _ _ Hd). eapply IH; [done|done|lia].
Qed.

(** The reader does not return on a message whose content has fewer bytes than a
    node header: the content loop calls itself on the same bytes, which consume
    nothing, so no amount of fuel is enough. *)
Theorem short_content_diverges `{Target} {S} buf a size sz rest (s : S) :
  rd_what buf a s = Ok ROOT s -> rd_size buf a s = Ok sz s ->
  sizeof_msg_node < sz < 2 * sizeof_msg_node -> sizeof_msg_node <= size ->
  slice_get buf (a + sizeof_msg_node) 4 = Some rest ->
  forall fuel, deserialize_event_payload fuel buf a size s = OutOfFuel.
Proof.
  intros Hw Hs Hsz Hsize Hget [|fuel]; [done|]. cbn [deserialize_event_payload].
  unfold sizeof_msg_node in Hsz, Hsize.
  rewrite (proj2 (Z.eqb_neq size 0)) by lia.
  rewrite (proj2 (Z.ltb_ge size sizeof_msg_node)) by (unfold sizeof_msg_node; lia).
  rewrite (bind_Ok _ _ _ _ _ Hw). cbn [Z.eqb ROOT NODE Pos.eqb].
  rewrite bind_ret_l, (bind_Ok _ _ _ _ _ Hs).
  rewrite (proj2 (Z.ltb_ge sz _)) by (unfold sizeof_msg_node; lia).
  cbn [Z.eqb NODE ROOT Pos.eqb orb]. rewrite bind_ret_l, bind_unfold.
  rewrite Z.add_0_r. erewrite stuck_loop; [done|unfold sizeof_msg_node; lia|done|lia].
Qed.

(** ** The theorems at concrete inputs *)

Section message_witnesses.
#[local] Existing Instance test_platform.

(** event { level { 7; } text { "hi"; } } *)
Definition sample_msg : list node :=
  [StructDef "level" [IntLiteral 7]; StructDef "text" [StringLiteral "hi"]].

Lemma serialize_writes_encoding_witness :
  serialize_oblectamenta_msg sample_msg (Some 3) 100 (replicate 3 9 ++ replicate 78 0 ++ [1])
  = Ok 78 (replicate 3 9 ++ enc_msg sample_msg ++ [1]).
Proof.
  apply (proj2 (serialize_writes_encoding sample_msg) (replicate 3 9) (replicate 78 0) [1] 100);
    [reflexivity|]. split; vm_compute; [discriminate|reflexivity].
Defined.

Lemma sample_readable : readable_list sample_msg.
Proof. repeat split; try done; repeat constructor; done. Qed.

Lemma message_roundtrip_witness :
  exists n buf,
    serialize_oblectamenta_msg sample_msg (Some 3) 100 (replicate 3 9 ++ replicate 78 0 ++ [1]) = Ok n buf /\
    deserialize_event_payload 20 buf 3 78 tt = Ok (n, render_msg sample_msg) tt.
Proof.
  apply (message_roundtrip sample_msg sample_readable (replicate 3 9) (replicate 78 0) [1] 100 20 78 tt);
    [reflexivity|split; vm_compute; [discriminate|reflexivity]|simpl; lia
    |split; vm_compute; [discriminate|reflexivity]].
Defined.

Lemma short_content_diverges_witness :
  rd_size (encode U32 ROOT ++ encode U64 14 ++ [0; 0; 0; 0]) 0 tt = Ok 14 tt /\
  deserialize_event_payload 1000 (encode U32 ROOT ++ encode U64 14 ++ [0; 0; 0; 0]) 0 16 tt
  = OutOfFuel.
Proof.
  split; [reflexivity|].
  apply (short_content_diverges _ 0 16 14 [0; 0; 0; 0] tt);
    [reflexivity|reflexivity|split; reflexivity|discriminate|reflexivity].
Defined.
End message_witnesses.
