(* ===== verification/Ast.v ===== *)
(** * Ast: the syntax trees and events the execution engine looks at

    The ceps syntax tree is a library outside the repository; the engine
    distinguishes the node kinds below, reads literals and walks children.
    [Variant], [event_t] and [event_signature] are the data of
    core/include/state_machine_simulation_core_plugin_interface.hpp and
    core/include/state_machine_simulation_core.hpp. *)

From S2P Require Import Prelude.

(** ** Syntax trees *)

Inductive node :=
| Int_literal (v : Z)
| Float_literal (v : Z)                    (* the bits of the double *)
| String_literal (v : string)
| Symbol (name kind : string)
| Identifier (name : string)
| Binary_operator (op : string) (left right : node)
| Unary_operator (op : string) (operands : list node)
| Func_call (parts : list node)
| Structdef (name : string) (content : list node)
| Scope (content : list node)
| Long_literal (v : Z)
| Uint8_literal (v : Z)
| Other_node (kind : Z) (content : list node).

Inductive Ast_node_kind :=
| k_undefined | k_int_literal | k_float_literal | k_string_literal | k_symbol | k_identifier
| k_binary_operator | k_unary_operator | k_func_call | k_structdef | k_scope | k_long_literal | k_uint8
| k_other (n : Z).

#[export] Instance Ast_node_kind_eq_dec : EqDecision Ast_node_kind.
Proof. solve_decision. Defined.

Definition kind_of (n : node) : Ast_node_kind :=
  match n with
  | Int_literal _ => k_int_literal
  | Float_literal _ => k_float_literal
  | String_literal _ => k_string_literal
  | Symbol _ _ => k_symbol
  | Identifier _ => k_identifier
  | Binary_operator _ _ _ => k_binary_operator
  | Unary_operator _ _ => k_unary_operator
  | Func_call _ => k_func_call
  | Structdef _ _ => k_structdef
  | Scope _ => k_scope
  | Long_literal _ => k_long_literal
  | Uint8_literal _ => k_uint8
  | Other_node k _ => k_other k
  end.

Definition node_children (n : node) : list node :=
  match n with
  | Binary_operator _ l r => [l; r]
  | Unary_operator _ cs | Func_call cs | Structdef _ cs | Scope cs | Other_node _ cs => cs
  | _ => []
  end.

(** ** Values exchanged with native code *)

Inductive What := What_Int | What_Double | What_String | What_Undefined.

#[export] Instance What_eq_dec : EqDecision What.
Proof. solve_decision. Defined.

Record Variant := mkVariant { what_ : What; dv_ : Z; iv_ : Z; sv_ : string }.

Definition Variant_double (v : Z) : Variant := mkVariant What_Double v 0 "".
Definition Variant_int (v : Z) : Variant := mkVariant What_Int 0 v "".
Definition Variant_string (v : string) : Variant := mkVariant What_String 0 0 v.
Definition Variant_default : Variant := mkVariant What_Undefined 0 0 "".

(** ** Events *)

Record error_t := mkError { error_what : string; error_errno : Z }.

Record event_t := mkEvent {
  id_ : string;
  iid_ : Z;
  str_id_valid_ : bool;
  protobufish_msg : option (list Z);      (* the bytes, [None]: null pointer *)
  payload_ : list node;
  payload_native_ : list Variant;
  error_ : option error_t
}.

(** What [fetch_event] hands out. [valid_] and [smp_] are not read by the loop. *)
Record event_rep_t := mkEventRep {
  sid_ : string;
  rep_iid_ : Z;
  sid_valid_ : bool;
  rep_protobufish_msg : option (list Z);
  rep_payload_ : list node;
  rep_payload_native_ : list Variant;
  glob_func_ : Z;
  error_token_ : option error_t
}.

Definition event_none : event_t := mkEvent "" 0 true None [] [] None.

(** [event_t & operator = (event_rep_t const &)] *)
Definition event_of_rep (rhs : event_rep_t) : event_t :=
  mkEvent (sid_ rhs) (rep_iid_ rhs) (sid_valid_ rhs) (rep_protobufish_msg rhs)
    (rep_payload_ rhs) (rep_payload_native_ rhs) (error_token_ rhs).

Definition with_id_ (x : string) (e : event_t) : event_t :=
  mkEvent x (iid_ e) (str_id_valid_ e) (protobufish_msg e) (payload_ e) (payload_native_ e)
    (error_ e).

Record sig_entry := mkEntry { arg_name : string; entry_kind : Ast_node_kind }.
Definition event_signature : Type := list sig_entry.

(** One signature against one payload. *)
Fixpoint entries_match (es : event_signature) (payload : list node) : bool :=
  match es, payload with
  | [], [] => true
  | e :: es', p :: payload' =>
    (bool_decide (entry_kind e = k_undefined) || bool_decide (entry_kind e = kind_of p))
    && entries_match es' payload'
  | _, _ => false
  end.

(** The first overload that fits. *)
Fixpoint compute_event_signature_match (v : list event_signature) (payload : list node) : option event_signature :=
  match v with
  | [] => None
  | e :: v' => if entries_match e payload then Some e else compute_event_signature_match v' payload
  end.

Definition map_ev_payload_to_variant (ev : event_t) : list Variant :=
  match payload_native_ ev with
  | [] => omap (fun v => match v with
                         | Int_literal z => Some (Variant_int z)
                         | Float_literal z => Some (Variant_double z)
                         | String_literal z => Some (Variant_string z)
                         | _ => None
                         end) (payload_ ev)
  | l => l
  end.

(** ** Directives of a simulation script *)

Definition simulation_directives : list string :=
  ["Start"; "start"; "ASSERT_EVENTUALLY_VISIT_STATES"; "ASSERT_CURRENT_STATES_CONTAINS";
   "ASSERT_CURRENT_STATES_CONTAIN"; "ASSERT_CURRENT_STATES_CONTAINS_NOT";
   "ASSERT_CURRENT_STATES_CONTAIN_NOT"; "ASSERT_END_STATES_CONTAINS";
   "ASSERT_END_STATES_CONTAIN"; "ASSERT_END_STATES_CONTAINS_NOT";
   "ASSERT_END_STATES_CONTAIN_NOT"].

Definition is_a_simulation_directive (n : node) : bool :=
  match n with
  | Structdef nm _ => bool_decide (nm ∈ simulation_directives)
  | _ => false
  end.
