(* ===== verification/Machines.v ===== *)
(** * Machines: state machine objects

    core/include/state_machine.hpp, core/src/state_machines.cpp: classes State_machine,
    State_machine::State and Transition, state_rep_t. The objects live on a heap;
    pointers are numbers. A std::set of pointers is the list of its elements in
    ascending order, a std::set of events and a std::map the list in ascending order of
    the keys: the code iterates over them. Then the naming of states in
    core/src/state_machine_simulation_core.cpp: qualified names and their lookup. *)

From S2P Require Import Prelude Ast.

(** ** Ordered containers *)

(** [std::set<T*>::insert] *)
Fixpoint ptrs_insert (x : Z) (l : list Z) : list Z :=
  match l with
  | [] => [x]
  | y :: l' => if x <? y then x :: l else if x =? y then l else y :: ptrs_insert x l'
  end.

Definition ptrs_erase (x : Z) (l : list Z) : list Z := filter (fun y => y <> x) l.

(** [std::set<std::string>::insert], also of events, which are compared by their id *)
Fixpoint names_insert (x : string) (l : list string) : list string :=
  match l with
  | [] => [x]
  | y :: l' => if String.ltb x y then x :: l else if String.eqb x y then l else y :: names_insert x l'
  end.

(** [m[k] = v] for a [std::map<std::string, V>] *)
Fixpoint smap_set {V} (k : string) (v : V) (m : list (string * V)) : list (string * V) :=
  match m with
  | [] => [(k, v)]
  | (k', v') :: m' =>
    if String.ltb k k' then (k, v) :: m
    else if String.eqb k k' then (k, v) :: m' else (k', v') :: smap_set k v m'
  end.

Fixpoint smap_find {V} (k : string) (m : list (string * V)) : option V :=
  match m with
  | [] => None
  | (k', v') :: m' => if String.eqb k k' then Some v' else smap_find k m'
  end.

(** ** Data *)

(** [tag1_] is never read. *)
Record state_rep_t := mkRep {
  r_valid : bool;
  r_is_sm : bool;
  r_smp : Z;
  r_sid : string;
  r_id : Z
}.

Definition state_rep_none : state_rep_t := mkRep false false 0 "" (-1).

(** State_machine::State *)
Record mstate := mkState {
  s_order : Z;
  s_id : string;
  s_shadow : state_rep_t;
  s_is_sm : bool;
  s_smp : Z;
  s_parent : Z;
  s_q_id : list string;
  s_unresolved : bool;
  s_idx : Z;
  s_dont_cover : bool;
  s_categories : list string;
  s_label : string
}.

Definition state_default : mstate :=
  mkState 0 "" state_rep_none false 0 0 [] false 0 false [] "".

(** [State(std::string const & id)] *)
Definition state_of_id (id : string) : mstate :=
  mkState 0 id state_rep_none false 0 0 [] false 0 false [] "".

(** [State(std::vector<std::string> const & q_id)] *)
Definition state_of_q_id (q_id : list string) : mstate :=
  mkState 0 "" state_rep_none false 0 0 q_id true 0 false [] "".

Definition mstate_eta (s : mstate) : mstate :=
  mkState (s_order s) (s_id s) (s_shadow s) (s_is_sm s) (s_smp s) (s_parent s) (s_q_id s)
    (s_unresolved s) (s_idx s) (s_dont_cover s) (s_categories s) (s_label s).

Definition with_s_order (x : Z) (s : mstate) : mstate := ltac:(record_update mstate_eta s_order x s).
Definition with_s_id (x : string) (s : mstate) : mstate := ltac:(record_update mstate_eta s_id x s).
Definition with_s_shadow (x : state_rep_t) (s : mstate) : mstate := ltac:(record_update mstate_eta s_shadow x s).
Definition with_s_is_sm (x : bool) (s : mstate) : mstate := ltac:(record_update mstate_eta s_is_sm x s).
Definition with_s_smp (x : Z) (s : mstate) : mstate := ltac:(record_update mstate_eta s_smp x s).
Definition with_s_parent (x : Z) (s : mstate) : mstate := ltac:(record_update mstate_eta s_parent x s).
Definition with_s_q_id (x : list string) (s : mstate) : mstate := ltac:(record_update mstate_eta s_q_id x s).
Definition with_s_unresolved (x : bool) (s : mstate) : mstate := ltac:(record_update mstate_eta s_unresolved x s).
Definition with_s_idx (x : Z) (s : mstate) : mstate := ltac:(record_update mstate_eta s_idx x s).
Definition with_s_dont_cover (x : bool) (s : mstate) : mstate := ltac:(record_update mstate_eta s_dont_cover x s).
Definition with_s_categories (x : list string) (s : mstate) : mstate := ltac:(record_update mstate_eta s_categories x s).
Definition with_s_label (x : string) (s : mstate) : mstate := ltac:(record_update mstate_eta s_label x s).

(** Transition::Action: [a_body] is a pointer to a syntax tree. *)
Record maction := mkMaction {
  a_id : string;
  a_associated_sm : Z;
  a_body : Z;
  a_native : Z
}.

(** Transition. [t_events] are the ids of the events ([evid_] is never read). *)
Record mtransition := mkMtransition {
  t_id : Z;
  t_abstract : bool;
  t_from : mstate;
  t_to : mstate;
  t_guard : string;
  t_orig_parent : Z;
  t_events : list string;
  t_actions : list maction
}.

Definition transition_of (from to : mstate) : mtransition :=
  mkMtransition (-1) false from to "" 0 [] [].

Definition mtransition_eta (t : mtransition) : mtransition :=
  mkMtransition (t_id t) (t_abstract t) (t_from t) (t_to t) (t_guard t) (t_orig_parent t)
    (t_events t) (t_actions t).

Definition with_t_id (x : Z) (t : mtransition) : mtransition := ltac:(record_update mtransition_eta t_id x t).
Definition with_t_abstract (x : bool) (t : mtransition) : mtransition := ltac:(record_update mtransition_eta t_abstract x t).
Definition with_t_from (x : mstate) (t : mtransition) : mtransition := ltac:(record_update mtransition_eta t_from x t).
Definition with_t_to (x : mstate) (t : mtransition) : mtransition := ltac:(record_update mtransition_eta t_to x t).
Definition with_t_guard (x : string) (t : mtransition) : mtransition := ltac:(record_update mtransition_eta t_guard x t).
Definition with_t_events (x : list string) (t : mtransition) : mtransition := ltac:(record_update mtransition_eta t_events x t).
Definition with_t_actions (x : list maction) (t : mtransition) : mtransition := ltac:(record_update mtransition_eta t_actions x t).

Definition has_guard (t : mtransition) : bool := negb (String.length (t_guard t) =? 0)%nat.

(** unresolve_import_t: the name of the imported machine, its alias, the machine. *)
Record unresolved_import := mkImport { ui_name : string; ui_alias : string; ui_sm : Z }.

(** State_machine. Left out: [threads_], which only plugins write, and [global_scope]
    and [visited_flag], which belong to the execution loop. *)
Record machine := mkMachine {
  m_cover : bool;
  m_dont_cover_loops : bool;
  m_hidden : bool;
  m_is_concept : bool;
  m_shadowing_me : gset Z;
  m_log_enter_state : bool;
  m_log_exit_state : bool;
  m_label : string;
  m_state_counter : Z;
  m_shadow : state_rep_t;
  m_is_thread : bool;
  m_contains_threads : bool;
  m_complete : bool;
  m_order : Z;
  m_id : string;
  m_parent : Z;
  m_depth : Z;
  m_children : list Z;
  m_actions : list maction;
  m_events : list string;
  m_unresolved_imports : list unresolved_import;
  m_transitions : list mtransition;
  m_states : list Z;
  m_join : bool;
  m_join_state : mstate;
  m_idx : Z;
  m_smps_containing_moved_transitions : list Z
}.

(** The constructor. *)
Definition new_machine (order : Z) (id : string) (parent depth : Z) : machine :=
  mkMachine false false false false ∅ false false "" 0 state_rep_none false false true order id
    parent depth [] [] [] [] [] [] false state_default (-1) [].

Definition machine_eta (m : machine) : machine :=
  mkMachine (m_cover m) (m_dont_cover_loops m) (m_hidden m) (m_is_concept m) (m_shadowing_me m)
    (m_log_enter_state m) (m_log_exit_state m) (m_label m) (m_state_counter m) (m_shadow m)
    (m_is_thread m) (m_contains_threads m) (m_complete m) (m_order m) (m_id m) (m_parent m)
    (m_depth m) (m_children m) (m_actions m) (m_events m) (m_unresolved_imports m)
    (m_transitions m) (m_states m) (m_join m) (m_join_state m) (m_idx m)
    (m_smps_containing_moved_transitions m).

Definition with_m_cover (x : bool) (m : machine) : machine := ltac:(record_update machine_eta m_cover x m).
Definition with_m_dont_cover_loops (x : bool) (m : machine) : machine := ltac:(record_update machine_eta m_dont_cover_loops x m).
Definition with_m_hidden (x : bool) (m : machine) : machine := ltac:(record_update machine_eta m_hidden x m).
Definition with_m_is_concept (x : bool) (m : machine) : machine := ltac:(record_update machine_eta m_is_concept x m).
Definition with_m_shadowing_me (x : gset Z) (m : machine) : machine := ltac:(record_update machine_eta m_shadowing_me x m).
Definition with_m_log_enter_state (x : bool) (m : machine) : machine := ltac:(record_update machine_eta m_log_enter_state x m).
Definition with_m_log_exit_state (x : bool) (m : machine) : machine := ltac:(record_update machine_eta m_log_exit_state x m).
Definition with_m_label (x : string) (m : machine) : machine := ltac:(record_update machine_eta m_label x m).
Definition with_m_state_counter (x : Z) (m : machine) : machine := ltac:(record_update machine_eta m_state_counter x m).
Definition with_m_shadow (x : state_rep_t) (m : machine) : machine := ltac:(record_update machine_eta m_shadow x m).
Definition with_m_is_thread (x : bool) (m : machine) : machine := ltac:(record_update machine_eta m_is_thread x m).
Definition with_m_contains_threads (x : bool) (m : machine) : machine := ltac:(record_update machine_eta m_contains_threads x m).
Definition with_m_complete (x : bool) (m : machine) : machine := ltac:(record_update machine_eta m_complete x m).
Definition with_m_id (x : string) (m : machine) : machine := ltac:(record_update machine_eta m_id x m).
Definition with_m_parent (x : Z) (m : machine) : machine := ltac:(record_update machine_eta m_parent x m).
Definition with_m_children (x : list Z) (m : machine) : machine := ltac:(record_update machine_eta m_children x m).
Definition with_m_actions (x : list maction) (m : machine) : machine := ltac:(record_update machine_eta m_actions x m).
Definition with_m_events (x : list string) (m : machine) : machine := ltac:(record_update machine_eta m_events x m).
Definition with_m_unresolved_imports (x : list unresolved_import) (m : machine) : machine := ltac:(record_update machine_eta m_unresolved_imports x m).
Definition with_m_transitions (x : list mtransition) (m : machine) : machine := ltac:(record_update machine_eta m_transitions x m).
Definition with_m_states (x : list Z) (m : machine) : machine := ltac:(record_update machine_eta m_states x m).
Definition with_m_join (x : bool) (m : machine) : machine := ltac:(record_update machine_eta m_join x m).
Definition with_m_join_state (x : mstate) (m : machine) : machine := ltac:(record_update machine_eta m_join_state x m).
Definition with_m_idx (x : Z) (m : machine) : machine := ltac:(record_update machine_eta m_idx x m).
Definition with_m_smps_containing_moved_transitions (x : list Z) (m : machine) : machine :=
  ltac:(record_update machine_eta m_smps_containing_moved_transitions x m).

(** ** The heap

    With the static members State_machine::statemachines and
    State_machine_simulation_core::SM_COUNTER, and the map [sm_to_id_] of the core. *)
Record smheap := mkHeap {
  h_machines : gmap Z machine;
  h_states : gmap Z mstate;
  statemachines : list (string * Z);
  SM_COUNTER : Z;
  sm_to_id : gmap Z string
}.

Definition with_h_machines (x : gmap Z machine) (h : smheap) : smheap :=
  mkHeap x (h_states h) (statemachines h) (SM_COUNTER h) (sm_to_id h).
Definition with_h_states (x : gmap Z mstate) (h : smheap) : smheap :=
  mkHeap (h_machines h) x (statemachines h) (SM_COUNTER h) (sm_to_id h).
Definition with_statemachines (x : list (string * Z)) (h : smheap) : smheap :=
  mkHeap (h_machines h) (h_states h) x (SM_COUNTER h) (sm_to_id h).
Definition with_SM_COUNTER (x : Z) (h : smheap) : smheap :=
  mkHeap (h_machines h) (h_states h) (statemachines h) x (sm_to_id h).
Definition with_sm_to_id (x : gmap Z string) (h : smheap) : smheap :=
  mkHeap (h_machines h) (h_states h) (statemachines h) (SM_COUNTER h) x.

(** Where [new] puts an object. *)
Class Allocator := {
  machine_address : smheap -> Z;
  state_address : smheap -> Z
}.

Class AllocatorLaws `{Allocator} := {
  machine_address_fresh h : h_machines h !! machine_address h = None;
  machine_address_nonnull h : machine_address h <> 0;
  state_address_fresh h : h_states h !! state_address h = None;
  state_address_nonnull h : state_address h <> 0
}.

(** [*p] *)
Definition sm_at (p : Z) : M smheap machine := fun h => of_option (h_machines h !! p) h.
Definition state_at (p : Z) : M smheap mstate := fun h => of_option (h_states h !! p) h.

Definition sm_upd (p : Z) (f : machine -> machine) : M smheap unit :=
  let! m := sm_at p in modify (fun h => with_h_machines (<[p := f m]> (h_machines h)) h).
Definition state_upd (p : Z) (f : mstate -> mstate) : M smheap unit :=
  let! s := state_at p in modify (fun h => with_h_states (<[p := f s]> (h_states h)) h).

Definition set_statemachine (k : string) (p : Z) : M smheap unit :=
  modify (fun h => with_statemachines (smap_set k p (statemachines h)) h).

(** [statemachines[k]]: a new key gets a null pointer. *)
Definition get_statemachine (k : string) : M smheap Z := fun h =>
  match smap_find k (statemachines h) with
  | Some p => Ok p h
  | None => Ok 0 (with_statemachines (smap_set k 0 (statemachines h)) h)
  end.

Definition abort {S A} : M S A := throw Aborted.
Definition assert_ {S} (b : bool) : M S unit := if b then ret tt else abort.

(** The first element that [f] accepts. *)
Fixpoint findM {S A} (xs : list A) (f : A -> M S bool) : M S (option A) :=
  match xs with
  | [] => ret None
  | x :: xs' => let! b := f x in if b then ret (Some x) else findM xs' f
  end.

(** ** Strings: [find_first_of('.')], [substr] *)

Fixpoint split_at_dot (s : string) : string * option string :=
  match s with
  | EmptyString => (EmptyString, None)
  | String c s' =>
    if Ascii.eqb c (Ascii.ascii_of_nat 46) then (EmptyString, Some s')
    else let '(a, b) := split_at_dot s' in (String c a, b)
  end.

Fixpoint qualified_id_to_str (q_id : list string) : string :=
  match q_id with
  | [] => ""
  | [x] => x
  | x :: q => x +:+ "." +:+ qualified_id_to_str q
  end.

(** ** Class State, class Transition *)

Definition initial_name (id : string) : bool := String.eqb id "initial" || String.eqb id "Initial".
Definition final_name (id : string) : bool := String.eqb id "final" || String.eqb id "Final".

Definition is_initial (s : mstate) : bool := initial_name (s_id s).
Definition is_final (s : mstate) : bool := final_name (s_id s).

(** [State::id()] *)
Definition state_name (s : mstate) : M smheap string :=
  if negb (s_is_sm s) || (s_smp s =? 0) then ret (s_id s)
  else let! m := sm_at (s_smp s) in ret (m_id m).

(** The name of the state at an address. *)
Definition name_at (p : Z) : M smheap string := let! s := state_at p in state_name s.

(** ** Class State_machine *)

(** A state of [this] with the name [id]. *)
Definition state_named (this : Z) (id : string) : M smheap (option Z) :=
  let! m := sm_at this in
  findM (m_states m) (fun p => let! n := name_at p in ret (String.eqb n id)).

(** A child of [this] with the name [id]. *)
Definition child_named (this : Z) (id : string) : M smheap (option Z) :=
  let! m := sm_at this in
  findM (m_children m) (fun p => let! c := sm_at p in ret (String.eqb (m_id c) id)).

Definition add_child (this smp : Z) : M smheap unit :=
  if smp =? 0 then ret tt
  else sm_upd this (fun m =>
    if bool_decide (smp ∈ m_children m) then m else with_m_children (m_children m ++ [smp]) m).

Definition has_child (this smp : Z) : M smheap bool :=
  if smp =? 0 then ret false else let! m := sm_at this in ret (bool_decide (smp ∈ m_children m)).

Definition get_sub_machine_by_name (this : Z) (name : string) : M smheap Z :=
  let! o := child_named this name in ret (default 0 o).

Definition get_initial_state (this : Z) : M smheap mstate :=
  let! m := sm_at this in
  let! o := findM (m_states m) (fun p => let! s := state_at p in ret (is_initial s)) in
  match o with Some p => state_at p | None => ret state_default end.

(** [insert_action]: an action with the same id is replaced. *)
Fixpoint put_action (act : maction) (l : list maction) : list maction :=
  match l with
  | [] => [act]
  | a :: l' => if String.eqb (a_id a) (a_id act) then act :: l' else a :: put_action act l'
  end.

Definition insert_action (this : Z) (act : maction) : M smheap unit :=
  sm_upd this (fun m => with_m_actions (put_action act (m_actions m)) m).

(** [lookup(s)]: [s] is an in-out parameter. The recursion goes to the parent. *)
Fixpoint lookup (fuel : nat) (this : Z) (s : mstate) : M smheap (bool * mstate) :=
  match fuel with
  | O => out_of_fuel
  | S fuel' =>
    let! id := state_name s in
    let! st := state_named this id in
    match st with
    | Some p => let! s' := state_at p in ret (true, s')
    | None =>
      let! c := child_named this id in
      match c with
      | Some t => ret (true, with_s_is_sm true (with_s_smp t s))
      | None =>
        let! m := sm_at this in
        if negb (m_parent m =? 0) then lookup fuel' (m_parent m) s
        else
          let! ms := gets statemachines in
          match smap_find id ms with
          | Some t => ret (true, with_s_is_sm true (with_s_smp t s))
          | None => ret (false, s)
          end
      end
    end
  end.

(** [lookup_info(s, cont)]: the parents are asked with the same container. *)
Fixpoint lookup_info {A} (fuel : nat) (this : Z) (id : string) (find : string -> option A) : M smheap (option A) :=
  match fuel with
  | O => out_of_fuel
  | S fuel' =>
    if (String.length id =? 0)%nat then ret None
    else match find id with
    | Some a => ret (Some a)
    | None =>
      let! m := sm_at this in
      if negb (m_parent m =? 0) then lookup_info fuel' (m_parent m) id find else ret None
    end
  end.

Definition find_event (events : list string) (id : string) : option string :=
  List.find (fun e => String.eqb e id) events.
Definition find_maction (l : list maction) (id : string) : option maction :=
  List.find (fun a => String.eqb (a_id a) id) l.

(** [find(compound_id)]: the first name is looked up among the states, then among the
    children. A plain state in front of a dot is passed over. *)
Fixpoint find_compound (fuel : nat) (this : Z) (compound_id : string) : M smheap state_rep_t :=
  match fuel with
  | O => out_of_fuel
  | S fuel' =>
    let '(prefix, r) := split_at_dot compound_id in
    let rest := default "" r in
    let empty := (String.length rest =? 0)%nat in
    let! m := sm_at this in
    let! st := findM (m_states m) (fun p =>
      let! s := state_at p in
      ret (String.eqb (s_id s) prefix && Bool.eqb empty (negb (s_is_sm s)))) in
    match st with
    | Some p =>
      let! s := state_at p in
      if empty then ret (mkRep true false this (s_id s) (s_idx s))
      else find_compound fuel' (s_smp s) rest
    | None =>
      if empty then ret state_rep_none
      else
        let! c := child_named this prefix in
        match c with Some q => find_compound fuel' q rest | None => ret state_rep_none end
    end
  end.

(** [state_rep_t::id()]: the index, computed when it is not known yet. *)
Definition rep_id (r : state_rep_t) : M smheap Z :=
  if negb (r_id r =? -1) then ret (r_id r)
  else if r_is_sm r then let! m := sm_at (r_smp r) in ret (m_idx m)
  else
    let! st := state_named (r_smp r) (r_sid r) in
    let! id := match st with Some p => let! s := state_at p in ret (s_idx s) | None => ret (-1) end in
    if negb (id =? -1) then ret id
    else
      let! c := child_named (r_smp r) (r_sid r) in
      match c with Some q => let! m := sm_at q in ret (m_idx m) | None => ret (-1) end.

Definition containing_sm (r : state_rep_t) : M smheap Z :=
  if negb (r_is_sm r) then ret (r_smp r) else let! m := sm_at (r_smp r) in ret (m_parent m).

(** ** Allocation, insertion, cloning *)

Section alloc.
Context `{Allocator}.

Definition new_sm (m : machine) : M smheap Z := fun h =>
  Ok (machine_address h) (with_h_machines (<[machine_address h := m]> (h_machines h)) h).

Definition new_state (s : mstate) : M smheap Z := fun h =>
  Ok (state_address h) (with_h_states (<[state_address h := s]> (h_states h)) h).

(** [SM_COUNTER++] *)
Definition next_order : M smheap Z := fun h => Ok (SM_COUNTER h) (with_SM_COUNTER (SM_COUNTER h + 1) h).

Definition insert_state (this : Z) (s : mstate) : M smheap unit :=
  let! m := sm_at this in
  let! p := new_state (with_s_order (m_state_counter m) (with_s_smp this (with_s_is_sm false s))) in
  sm_upd this (fun m => with_m_states (ptrs_insert p (m_states m))
                          (with_m_state_counter (m_state_counter m + 1) m)).

(** [merge(rhs)]: the initial and the final state of [rhs] are left out. *)
Definition merge (this rhs : Z) : M smheap unit :=
  let! r := sm_at rhs in
  do! forM (m_states r) (fun p =>
    let! s := state_at p in
    if is_initial s || is_final s then ret tt
    else sm_upd this (fun m => with_m_states (ptrs_insert p (m_states m)) m)) in
  do! sm_upd this (fun m => with_m_transitions (m_transitions m ++ m_transitions r) m) in
  sm_upd this (fun m => with_m_children (m_children m ++ m_children r) m).

(** The assertions at the beginning and at the end of [clone_from]. *)
Definition has_end (s : mstate) : bool := negb (String.length (s_id s) =? 0)%nat || s_unresolved s.

Definition assert_transitions : M smheap unit :=
  let! ms := gets statemachines in
  forM ms (fun e =>
    let! m := sm_at e.2 in
    forM (m_transitions m) (fun t =>
      do! assert_ (has_end (t_from t)) in assert_ (has_end (t_to t)))).

Section clone.
Context (this rhs : Z) (q_id : string).
Context (clone : Z -> Z -> string -> M smheap unit).      (* the recursive call *)
Context (resolve : Z -> M smheap bool).

(** A clone of the machine [src], as a child of [this]; [before] and [after] run
    before and after the recursive call. *)
Definition clone_child (src : Z) (new_q_id : string) (registered : bool)
    (before after : M smheap unit) : M smheap Z :=
  let! order := next_order in
  let! m := sm_at src in
  let! me := sm_at this in
  let! temp := new_sm (new_machine order (m_id m) this (m_depth me + 1)) in
  do! (if registered then set_statemachine new_q_id temp else ret tt) in
  do! before in
  do! clone temp src new_q_id in
  do! after in
  do! sm_upd this (fun m => with_m_children (m_children m ++ [temp]) m) in
  ret temp.

Definition complete_or_abort (src : Z) : M smheap unit :=
  let! m := sm_at src in assert_ (m_complete m).

(** [assert(resolve_imports(...))] *)
Definition resolve_or_abort (src : Z) : M smheap unit :=
  let! m := sm_at src in
  if m_complete m then ret tt else let! b := resolve src in assert_ b.

(** [map_state] *)
Definition map_state (cloned : gmap Z Z) (s : mstate) : M smheap (gmap Z Z * mstate) :=
  match cloned !! s_smp s with
  | Some c => ret (cloned, with_s_smp c s)
  | None =>
    let! temp := clone_child (s_smp s) q_id false (ret tt) (ret tt) in
    ret (<[s_smp s := temp]> cloned, with_s_smp temp s)
  end.

(** An end of a transition, or the join state. *)
Definition clone_end (before after : Z -> M smheap unit) (cloned : gmap Z Z) (s : mstate) : M smheap (gmap Z Z * mstate) :=
  if s_unresolved s then ret (cloned, s)
  else if s_is_sm s then
    do! assert_ (negb (s_smp s =? 0)) in
    match cloned !! s_smp s with
    | Some c => ret (cloned, with_s_smp c s)
    | None =>
      let! b := has_child rhs (s_smp s) in
      if negb b then ret (cloned, s)
      else
        let! m := sm_at (s_smp s) in
        let! temp := clone_child (s_smp s) (q_id +:+ "." +:+ m_id m) true
                       (before (s_smp s)) (after (s_smp s)) in
        ret (<[s_smp s := temp]> cloned, with_s_smp temp s)
    end
  else ret (cloned, with_s_smp this s).

Definition clone_states : M smheap (gmap Z Z) :=
  let! me := sm_at this in
  do! forM (m_states me) (fun p =>
    let! _ := state_at p in modify (fun h => with_h_states (delete p (h_states h)) h)) in
  do! sm_upd this (with_m_states []) in
  let! r := sm_at rhs in
  foldM (m_states r) (fun cloned p =>
    let! s := state_at p in
    let! d := (if s_is_sm s then map_state cloned s else ret (cloned, with_s_smp this s)) in
    let! q := new_state d.2 in
    do! sm_upd this (fun m => with_m_states (ptrs_insert q (m_states m)) m) in
    ret d.1) ∅.

Definition clone_transitions (cloned : gmap Z Z) : M smheap (gmap Z Z) :=
  let! r := sm_at rhs in
  foldM (m_transitions r) (fun cloned t =>
    let! f := clone_end (fun _ => ret tt) complete_or_abort cloned (t_from t) in
    let! d := clone_end (fun src => do! resolve_or_abort src in complete_or_abort src)
                (fun _ => ret tt) f.1 (t_to t) in
    do! sm_upd this (fun m => with_m_transitions (m_transitions m ++ [with_t_to d.2 (with_t_from f.2 t)]) m) in
    ret d.1) cloned.

Definition clone_children (cloned : gmap Z Z) : M smheap (gmap Z Z) :=
  let! r := sm_at rhs in
  foldM (m_children r) (fun cloned child =>
    match cloned !! child with
    | Some c => do! sm_upd this (fun m => with_m_children (m_children m ++ [c]) m) in ret cloned
    | None =>
      let! c := sm_at child in
      let! temp := clone_child child (q_id +:+ "." +:+ m_id c) true (resolve_or_abort child) (ret tt) in
      ret (<[child := temp]> cloned)
    end) cloned.

(** The members that are copied. *)
Definition copy_members (r : machine) (m : machine) : machine :=
  with_m_cover (m_cover r) (with_m_is_concept (m_is_concept r)
    (with_m_contains_threads (m_contains_threads r) (with_m_join_state (m_join_state r)
      (with_m_join (m_join r) (with_m_is_thread (m_is_thread r)
        (with_m_actions (map (fun a => mkMaction (a_id a) this (a_body a) (a_native a)) (m_actions r))
          (with_m_events (m_events r) m))))))).

Definition clone_body : M smheap unit :=
  do! assert_transitions in
  let! r := sm_at rhs in
  do! sm_upd this (copy_members r) in
  do! assert_ (m_complete r) in
  let! cloned := clone_states in
  let! cloned := clone_transitions cloned in
  let! cloned := clone_children cloned in
  let! me := sm_at this in
  let! d := clone_end complete_or_abort (fun _ => ret tt) cloned (m_join_state me) in
  do! sm_upd this (with_m_join_state d.2) in
  assert_transitions.
End clone.

(** [rhs->clone_from(...)]: [fuel] bounds the nesting of machines. *)
Fixpoint clone_from (fuel : nat) (resolve : Z -> M smheap bool) (this rhs : Z) (q_id : string) : M smheap unit :=
  match fuel with
  | O => out_of_fuel
  | S fuel' => clone_body this rhs q_id (clone_from fuel' resolve) resolve
  end.

(** The machines around the machine [p], from the inside out. *)
Fixpoint ancestors (fuel : nat) (p : Z) : M smheap (list Z) :=
  match fuel with
  | O => out_of_fuel
  | S fuel' =>
    let! m := sm_at p in
    if m_parent m =? 0 then ret []
    else let! l := ancestors fuel' (m_parent m) in ret (m_parent m :: l)
  end.

Definition ids_of (l : list Z) : M smheap (list string) :=
  foldM l (fun acc p => let! m := sm_at p in ret (acc ++ [m_id m])) [].

(** [get_qualified_id(sm)], for a machine that is not null. *)
Definition get_qualified_id (fuel : nat) (sm : Z) : M smheap string :=
  let! ids := gets sm_to_id in
  match ids !! sm with
  | Some s => ret s
  | None =>
    let! m := sm_at sm in
    let! l := ancestors fuel sm in
    let! names := ids_of l in
    ret (foldl (fun s x => x +:+ "." +:+ s) (m_id m) names)
  end.

Definition set_qualified_id (sm : Z) (id : string) : M smheap unit :=
  modify (fun h => with_sm_to_id (<[sm := id]> (sm_to_id h)) h).

(** [resolve_imports(sm)] *)
Fixpoint resolve_imports (fuel : nat) (sm : Z) : M smheap bool :=
  match fuel with
  | O => out_of_fuel
  | S fuel' =>
    let! m := sm_at sm in
    let! failed := findM (m_children m) (fun sub =>
      let! s := sm_at sub in
      if m_complete s then ret false
      else
        let! m := sm_at sm in
        match List.find (fun e => ui_sm e =? sub) (m_unresolved_imports m) with
        | None => ret true
        | Some import_clause =>
          let! template_sm := get_statemachine (ui_alias import_clause) in
          if template_sm =? 0 then
            throw (Fatal (-1) ("State machine '" +:+ m_id m +:+ "': import: state machine '" +:+
                               ui_alias import_clause +:+ "' not found."))
          else
            let! t := sm_at template_sm in
            do! (if m_complete t then ret tt else let! _ := resolve_imports fuel' template_sm in ret tt) in
            let! rr := get_qualified_id fuel' sub in
            do! clone_from fuel' (resolve_imports fuel') sub template_sm rr in
            do! sm_upd sub (with_m_complete true) in
            ret false
        end) in
    match failed with
    | Some _ => ret false
    | None => do! sm_upd sm (with_m_complete true) in ret true
    end
  end.
End alloc.

(** [walk_sm(sm, f)] *)
Fixpoint walk_sm (fuel : nat) (sm : Z) (f : Z -> M smheap unit) : M smheap unit :=
  match fuel with
  | O => out_of_fuel
  | S fuel' =>
    do! f sm in
    let! m := sm_at sm in
    do! forM (m_states m) (fun p =>
      let! s := state_at p in
      if negb (s_is_sm s) || (s_smp s =? 0) then ret tt else walk_sm fuel' (s_smp s) f) in
    forM (m_children m) (fun c => walk_sm fuel' c f)
  end.
