(* ===== verification/Names.v ===== *)
(** * Names: qualified names of states

    core/src/state_machine_simulation_core.cpp (get_fullqualified_id, find_state,
    resolve_state_qualified_id, resolve_state_or_transition_given_a_qualified_id,
    resolve_q_id): a state is named by the machines around it, the machine it is in,
    and its own id, joined by dots; the resolvers walk down from a top-level machine. *)

From S2P Require Import Prelude Ast Machines.

(** ** From states to names *)

(** [get_fullqualified_id(s, delim)] *)
Definition get_fullqualified_id (fuel : nat) (delim : string) (s : state_rep_t) : M smheap string :=
  if negb (r_valid s) then ret ""
  else
    let! root := (if r_smp s =? 0 then ret None else let! m := sm_at (r_smp s) in ret (Some m)) in
    match root with
    | Some m =>
      if (m_parent m =? 0) && r_is_sm s then ret (r_sid s)
      else if m_parent m =? 0 then ret (m_id m +:+ delim +:+ r_sid s)
      else
        let! v := ancestors fuel (r_smp s) in
        let! names := ids_of (reverse v) in
        let r := String.concat delim names in
        if r_is_sm s then ret (r +:+ delim +:+ r_sid s)
        else ret (r +:+ delim +:+ m_id m +:+ delim +:+ r_sid s)
    | None => do! assert_ (r_is_sm s) in ret (delim +:+ r_sid s)
    end.

(** [get_full_qualified_id(State const &)] *)
Definition get_full_qualified_id (fuel : nat) (s : mstate) : M smheap string :=
  get_fullqualified_id fuel "." (mkRep true (s_is_sm s) (s_smp s) (s_id s) (-1)).

(** ** From names to states *)

(** The child machine, or the machine behind a state, with the id [base_id]. *)
Definition step_into (parent : Z) (base_id : string) : M smheap (option Z) :=
  let! c := child_named parent base_id in
  match c with
  | Some q => ret (Some q)
  | None =>
    let! m := sm_at parent in
    let! st := findM (m_states m) (fun p =>
      let! s := state_at p in ret (s_is_sm s && String.eqb (s_id s) base_id)) in
    match st with
    | Some p => let! s := state_at p in ret (Some (s_smp s))
    | None => ret None
    end
  end.

(** [find_state(compound_id, parent)]; [parent] may be null. *)
Fixpoint find_state (fuel : nat) (compound_id : string) (parent : Z) : M smheap (option Z) :=
  match fuel with
  | O => out_of_fuel
  | S fuel' =>
    if (String.length compound_id =? 0)%nat then ret None
    else match split_at_dot compound_id with
    | (_, None) => if parent =? 0 then ret None else state_named parent compound_id
    | (base_id, Some rest) =>
      if parent =? 0 then
        let! ms := gets statemachines in
        match smap_find base_id ms with Some q => find_state fuel' rest q | None => ret None end
      else
        let! q := step_into parent base_id in
        match q with Some q => find_state fuel' rest q | None => ret None end
    end
  end.

(** The representation of the machine at [p]. *)
Definition rep_of_sm (p : Z) : M smheap state_rep_t :=
  let! m := sm_at p in ret (mkRep true true p (m_id m) (m_idx m)).

(** One name, without a dot: a top-level machine, a child, or a state. *)
Definition resolve_id (id : string) (parent : Z) : M smheap state_rep_t :=
  if parent =? 0 then
    let! ms := gets statemachines in
    match smap_find id ms with Some q => rep_of_sm q | None => ret state_rep_none end
  else
    let! c := child_named parent id in
    match c with
    | Some q => rep_of_sm q
    | None =>
      let! st := state_named parent id in
      match st with
      | Some p => let! s := state_at p in ret (mkRep true false parent (s_id s) (s_idx s))
      | None => ret state_rep_none
      end
    end.

Fixpoint resolve_state_qualified_id (fuel : nat) (compound_id : string) (parent : Z) : M smheap state_rep_t :=
  match fuel with
  | O => out_of_fuel
  | S fuel' =>
    if (String.length compound_id =? 0)%nat then ret state_rep_none
    else match split_at_dot compound_id with
    | (_, None) => resolve_id compound_id parent
    | (base_id, Some rest) =>
      if parent =? 0 then
        let! ms := gets statemachines in
        match smap_find base_id ms with
        | Some q => resolve_state_qualified_id fuel' rest q
        | None => ret state_rep_none
        end
      else
        let! q := step_into parent base_id in
        match q with
        | Some q => resolve_state_qualified_id fuel' rest q
        | None => ret state_rep_none
        end
    end
  end.

(** The same for a name given as a syntax tree. [want_number]: the caller passes
    [transition_number]; the result has the number that was read. *)
Fixpoint resolve_state_or_transition_given_a_qualified_id (p : node) (parent : Z) (want_number : bool)
  : M smheap (state_rep_t * option Z) :=
  match p with
  | Identifier id | Symbol id _ => let! r := resolve_id id parent in ret (r, None)
  | Binary_operator op lhs rhs =>
    if negb (String.eqb op ".") then ret (state_rep_none, None)
    else
      let! l := resolve_state_or_transition_given_a_qualified_id lhs 0 false in
      if negb (r_valid l.1) then ret (l.1, None)
      else if negb (r_is_sm l.1) then ret (state_rep_none, None)
      else match want_number, rhs with
      | true, Int_literal v => ret (l.1, Some v)
      | _, _ => resolve_state_or_transition_given_a_qualified_id rhs (r_smp l.1) false
      end
  | _ => ret (state_rep_none, None)
  end.

(** [resolve_q_id(smp, q_id, s)] returns true or reports an error; here the new value
    of [s], which the callers default-construct. *)
Definition not_a_state (q_id : list string) : string := qualified_id_to_str q_id +:+ " is not a state.".

Definition resolve_q_id (fuel : nat) (smp : Z) (q_id : list string) : M smheap mstate :=
  do! assert_ (negb (smp =? 0)) in
  match q_id with
  | [] => throw (Fatal (-1) "resolve_q_id(): invalid arguments.")
  | [x] =>
    let! r := lookup fuel smp (state_of_id x) in
    if r.1 then ret (with_s_unresolved false (with_s_parent smp r.2))
    else
      let! temp_sm := get_statemachine x in
      if temp_sm =? 0 then throw (Fatal (-1) (not_a_state q_id))
      else
        let! m := sm_at temp_sm in
        ret (with_s_smp temp_sm (with_s_id (m_id m) (with_s_is_sm true
              (with_s_parent (m_parent m) state_default))))
  | x :: rest =>
    let! sub := get_sub_machine_by_name smp x in
    let! top := (if sub =? 0 then get_statemachine x else ret smp) in
    let steps := removelast (if sub =? 0 then rest else q_id) in
    let! current_parent := foldM steps (fun p id =>
      if p =? 0 then ret 0 else get_sub_machine_by_name p id) top in
    if current_parent =? 0 then throw (Fatal (-1) (not_a_state q_id))
    else
      let last_step := List.last q_id "" in
      let! st := state_named current_parent last_step in
      match st with
      | Some p =>
        let! s := state_at p in ret (with_s_unresolved false (with_s_parent current_parent s))
      | None =>
        let! pp := get_sub_machine_by_name current_parent last_step in
        if pp =? 0 then
          throw (Fatal (-1) ("'" +:+ qualified_id_to_str q_id +:+ "'is not a state/submachine"))
        else
          let! m := sm_at pp in
          ret (with_s_unresolved false (with_s_parent current_parent (with_s_smp pp
                (with_s_id (m_id m) (with_s_is_sm true state_default)))))
      end
  end.
