(* ===== verification/Link.v ===== *)
(** * Link: from the machines of a script to linked machines

    core/src/state_machine_simulation_core_buildsms.cpp, the middle of processs_content:
    imports are cloned, names of states are resolved, a transition that starts in
    another machine moves there, and machines are instantiated. *)

From S2P Require Import Prelude Ast Machines Names.

Section link.
Context `{Allocator}.
Context (fuel : nat).

(** ** Imports *)

(** One pass over a copy of [statemachines]: whether an import was resolved. *)
Definition import_pass : M smheap bool :=
  let! s_t := gets statemachines in
  foldM s_t (fun imports_resolved e =>
    let! sim := sm_at e.2 in
    if m_complete sim || bool_decide (m_unresolved_imports sim = []) then ret imports_resolved
    else
      let! b := resolve_imports fuel e.2 in
      if negb b then throw (Fatal (-1) (m_id sim +:+ ": Error while resolving imports"))
      else ret true) false.

Fixpoint back_patch_imports (rounds : nat) : M smheap unit :=
  match rounds with
  | O => out_of_fuel
  | S rounds' =>
    let! imports_resolved := import_pass in
    if imports_resolved then back_patch_imports rounds' else ret tt
  end.

(** ** Joins and transitions *)

Definition back_patch_joins : M smheap unit :=
  let! ms := gets statemachines in
  forM ms (fun e =>
    let! m := sm_at e.2 in
    if negb (m_join m) || negb (s_unresolved (m_join_state m)) then ret tt
    else
      let! s := resolve_q_id fuel e.2 (s_q_id (m_join_state m)) in
      sm_upd e.2 (with_m_join_state s)).

Definition assert_resolved (s : mstate) : M smheap unit :=
  do! assert_ (s_is_sm s || negb (s_smp s =? 0)) in
  do! assert_ (negb (String.length (s_id s) =? 0)%nat) in
  assert_ (negb (s_unresolved s)).

(** The two ends of the transition [t] of the machine [sm]; whether the source was
    resolved. *)
Definition resolve_transition (sm : Z) (t : mtransition) : M smheap (mtransition * bool) :=
  let! t := (if s_unresolved (t_from t) then
      let! s := resolve_q_id fuel sm (s_q_id (t_from t)) in
      do! assert_resolved s in
      ret (with_t_from (if s_parent s =? sm then with_s_parent 0 s else s) t, true)
    else ret (t, false)) in
  if s_unresolved (t_to t.1) then
    let! s := resolve_q_id fuel sm (s_q_id (t_to t.1)) in
    do! assert_resolved s in
    ret (with_t_to s t.1, t.2)
  else ret t.

(** All transitions; the machines that may have a transition with a foreign source. *)
Definition resolve_transitions : M smheap (list Z) :=
  let! ms := gets statemachines in
  foldM ms (fun foreign e =>
    let! m := sm_at e.2 in
    let! r := foldM (m_transitions m) (fun acc t =>
      let! r := resolve_transition e.2 t in ret (acc.1 ++ [r.1], acc.2 || r.2)) ([], false) in
    do! sm_upd e.2 (with_m_transitions r.1) in
    ret (if r.2 then ptrs_insert e.2 foreign else foreign)) [].

Definition is_foreign (s : mstate) (sm : Z) : bool :=
  negb (s_parent s =? 0) && negb (s_parent s =? sm).

(** A transition goes to the end of the transitions of the machine its source is in. *)
Definition move_transition (sm : Z) (t : mtransition) : M smheap unit :=
  let parent := s_parent (t_from t) in
  let from := with_s_q_id [] (with_s_parent 0 (t_from t)) in
  let from := if s_is_sm from then from else with_s_smp parent from in
  do! assert_ (negb (sm =? parent)) in
  let t := mkMtransition (t_id t) (t_abstract t) from (t_to t) (t_guard t) sm (t_events t) (t_actions t) in
  do! sm_upd parent (fun m => with_m_transitions (m_transitions m ++ [t]) m) in
  sm_upd sm (fun m => with_m_smps_containing_moved_transitions
                        (m_smps_containing_moved_transitions m ++ [parent]) m).

Definition move_foreign_transitions (machines : list Z) : M smheap unit :=
  forM machines (fun sm =>
    let! m := sm_at sm in
    do! forM (filter (fun t => is_foreign (t_from t) sm = true) (m_transitions m)) (move_transition sm) in
    sm_upd sm (fun m => with_m_transitions
      (filter (fun t => is_foreign (t_from t) sm = false) (m_transitions m)) m)).

(** The checks at the end. *)
Definition check_consistency : M smheap unit :=
  let! ms := gets statemachines in
  forM ms (fun e =>
    let! m := sm_at e.2 in
    forM (m_transitions m) (fun t =>
      do! assert_ (negb (s_unresolved (t_from t))) in
      do! assert_ (negb (s_unresolved (t_to t))) in
      do! assert_ (negb (String.length (s_id (t_from t)) =? 0)%nat) in
      assert_ (negb (String.length (s_id (t_to t)) =? 0)%nat))).

(** ** Instantiation: [x = A(y = B, ...)] *)

Fixpoint flatten_args (op_val : string) (r : node) : list node :=
  match r with
  | Binary_operator op lhs rhs =>
    if String.eqb op op_val then flatten_args op_val lhs ++ flatten_args op_val rhs else [r]
  | _ => [r]
  end.

(** The name and the arguments of a call. *)
Definition is_func_call (p : node) : M smheap (option (string * list node)) :=
  match p with
  | Func_call (Identifier fid :: params :: _) =>
    ret (Some (fid, match node_children params with [] => [] | a :: _ => flatten_args "," a end))
  | Func_call _ => undef
  | _ => ret None
  end.

Definition id_or_symbol (p : node) : option (string * string) :=
  match p with
  | Identifier n => Some (n, "")
  | Symbol n k => Some (n, k)
  | _ => None
  end.

(** [is_id(p, result, base_kind)]: a dotted name; the kind of its first part. *)
Fixpoint is_id (p : node) : option (string * string) :=
  match p with
  | Binary_operator op lhs rhs =>
    if String.eqb op "." then
      k ← id_or_symbol rhs; l ← is_id lhs; Some (l.1 +:+ "." +:+ k.1, l.2)
    else None
  | _ => id_or_symbol p
  end.

Record instantiation := mkInst {
  in_lhs : string;
  in_rhs : string;
  in_args : list node;
  in_base : Z
}.

Definition is_sm_instantiation (p : node) : M smheap (option instantiation) :=
  match p with
  | Binary_operator "=" lhs rhs =>
    match is_id lhs with
    | None => ret None
    | Some (lhs_id, _) =>
      let! call := is_func_call rhs in
      let r := match call with Some c => Some c | None => (fun x => (x.1, [])) <$> is_id rhs end in
      match r with
      | None => ret None
      | Some (rhs_id, args) =>
        let! ms := gets statemachines in
        ret ((fun base => mkInst lhs_id rhs_id args base) <$> smap_find rhs_id ms)
      end
    end
  | _ => ret None
  end.

(** [if (t.id_ == id) { t.is_sm_ = true; t.smp_ = sub_sm; }] *)
Definition redirect (id : string) (sub_sm : Z) (s : mstate) : mstate :=
  if String.eqb (s_id s) id then with_s_smp sub_sm (with_s_is_sm true s) else s.

(** [resolve] is a null pointer here. *)
Fixpoint handle_instantiation (n : nat) (base_sm : Z) (rhs_id sm_id : string) (args : list node) : M smheap Z :=
  match n with
  | O => out_of_fuel
  | S n' =>
    let! sm := new_sm (new_machine 0 sm_id 0 0) in
    do! clone_from fuel (fun _ => undef) sm base_sm rhs_id in
    do! forM args (fun p =>
      let! r := is_sm_instantiation p in
      match r with
      | None => ret tt
      | Some i =>
        let! sub_sm := handle_instantiation n' (in_base i) (in_rhs i) (in_lhs i) (in_args i) in
        do! sm_upd sub_sm (with_m_parent sm) in
        do! set_statemachine (sm_id +:+ "." +:+ in_lhs i) sub_sm in
        let! st := state_named sm (in_lhs i) in
        do! (match st with
             | Some q => sm_upd sm (fun m => with_m_states (ptrs_erase q (m_states m)) m)
             | None => ret tt
             end) in
        do! add_child sm sub_sm in
        sm_upd sm (fun m => with_m_transitions
          (map (fun t => with_t_to (redirect (in_lhs i) sub_sm (t_to t))
                           (with_t_from (redirect (in_lhs i) sub_sm (t_from t)) t))
             (m_transitions m)) m)
      end) in
    ret sm
  end.

Definition handle_instantiations (n : nat) (ns : list node) : M smheap unit :=
  forM ns (fun p =>
    let! r := is_sm_instantiation p in
    match r with
    | None => ret tt
    | Some i =>
      let! sm := handle_instantiation n (in_base i) (in_rhs i) (in_lhs i) (in_args i) in
      set_statemachine (in_lhs i) sm
    end).

(** Lines 1030 to 1169 of processs_content, for the nodes [ns] of the script. *)
Definition link (ns : list node) : M smheap unit :=
  do! back_patch_imports fuel in
  do! back_patch_joins in
  let! machines := resolve_transitions in
  do! move_foreign_transitions machines in
  do! handle_instantiations fuel ns in
  check_consistency.
End link.

(** ** Native actions *)

(** All actions with the id [action] get the function [fn]; whether there is one. *)
Definition set_native (action : string) (fn : Z) (l : list maction) : list maction * bool :=
  (map (fun a => if String.eqb (a_id a) action then mkMaction (a_id a) (a_associated_sm a) (a_body a) fn else a) l,
   existsb (fun a => String.eqb (a_id a) action) l).

Definition set_native_transitions (keep : mtransition -> bool) (action : string) (fn : Z)
    (l : list mtransition) : list mtransition * bool :=
  (map (fun t => if keep t then with_t_actions (set_native action fn (t_actions t)).1 t else t) l,
   existsb (fun t => keep t && (set_native action fn (t_actions t)).2) l).

(** The actions of [parent] and of its transitions, also of those that were moved. *)
Definition register_in (action : string) (fn parent : Z) : M smheap bool :=
  let! m := sm_at parent in
  let r1 := set_native action fn (m_actions m) in
  let r2 := set_native_transitions (fun t => (t_orig_parent t =? 0) || (parent =? t_orig_parent t))
              action fn (m_transitions m) in
  do! sm_upd parent (fun m => with_m_transitions r2.1 (with_m_actions r1.1 m)) in
  foldM (m_smps_containing_moved_transitions m) (fun r foreign_smp =>
    let! f := sm_at foreign_smp in
    let r3 := set_native_transitions (fun t => t_orig_parent t =? parent) action fn (m_transitions f) in
    do! sm_upd foreign_smp (with_m_transitions r3.1) in
    ret (r || r3.2)) (r1.2 || r2.2).

(** [register_action_impl(state_machine_id, action, fn, parent)] *)
Fixpoint register_action_impl (fuel : nat) (state_machine_id action : string) (fn parent : Z) : M smheap bool :=
  match fuel with
  | O => out_of_fuel
  | S fuel' =>
    if (String.length state_machine_id =? 0)%nat then
      if parent =? 0 then ret false else register_in action fn parent
    else
      let '(base, rest) := split_at_dot state_machine_id in
      let rest := default "" rest in
      if parent =? 0 then
        let! ms := gets statemachines in
        match smap_find base ms with
        | Some q => register_action_impl fuel' rest action fn q
        | None => ret false
        end
      else
        let! c := child_named parent base in
        match c with
        | Some q => register_action_impl fuel' rest action fn q
        | None =>
          let! m := sm_at parent in
          let! st := findM (m_states m) (fun p =>
            let! s := state_at p in
            if negb (s_is_sm s) then ret false else let! n := state_name s in ret (String.eqb n base)) in
          match st with
          | Some p => let! s := state_at p in register_action_impl fuel' rest action fn (s_smp s)
          | None => ret false
          end
        end
  end.

Definition register_action (fuel : nat) (state_machine_id action : string) (fn : Z) : M smheap unit :=
  let! r := register_action_impl fuel state_machine_id action fn 0 in
  if r then ret tt
  else throw (Fatal (-1) ("Failed to register native implementation for '" +:+ state_machine_id +:+
                          "." +:+ action +:+ "'")).
