(* ===== verification/AsmMacros.v ===== *)
(** * AsmMacros: the macros of the Oblectamenta assembler

    core/src/vm/oblectamenta-assembler.cpp, up to oblectamenta_assembler_impl: before
    an assembler text is assembled, its directives are expanded. A message definition
    becomes code that writes the message into memory, a message read becomes code that
    finds and reads nodes of a message, an expression becomes code that leaves its value
    in the register RES. The code is a list of syntax trees, which the assembler then
    reads like hand-written text. *)

From S2P Require Import Prelude MachineInt VMEnv VMTable Protobufish Ast.

(** ** The syntax tree library

    Syntax trees belong to the ceps library. The assembler asks it whether a tree is a
    symbol applied to arguments, builds such trees and prints trees.
    [as_int_of_long] is what reading a long literal as an int literal gives, and
    [string_object] are the bytes of a std::string object. *)
Class Ceps := {
  is_a_symbol_with_arguments : node -> option (string * string * list node);
  mk_func_call : node -> node -> node;
  show : node -> string;
  as_int_of_long : Z -> Z;
  string_object : string -> list Z
}.

(** Not a sequence of arguments. *)
Definition single_argument (a : node) : Prop :=
  match a with Binary_operator op _ _ => op <> "," | _ => True end.

Class CepsLaws `{Ceps} := {
  symbol_with_arguments_call n :
    is_a_symbol_with_arguments n <> None -> kind_of n = k_func_call;
  symbol_with_arguments_mk n k a : single_argument a ->
    is_a_symbol_with_arguments (mk_func_call (Symbol n k) a) = Some (n, k, [a]);
  mk_func_call_call f a : kind_of (mk_func_call f a) = k_func_call
}.

(** ** Sizes of the message structs *)

Definition sizeof_what : Z := 4.
Definition sizeof_size : Z := 8.
Definition sizeof_addr : Z := 8.
Definition sizeof_msg_node_sz : Z := sizeof_msg_node + 0xFFFFFFFFFF.
Definition rel_addr_root : Z := 8.            (* sizeof(registers_t::file[0]) *)
Definition rel_addr_content_size : Z := rel_addr_root + sizeof_addr.

(** ** Recognising directives *)

Definition symbol_kind (n : node) : option string :=
  match n with Symbol _ k => Some k | _ => None end.

Definition is_symbol_of_kind (k : string) (n : node) : bool :=
  bool_decide (symbol_kind n = Some k).

Definition first_child_kind (k : string) (n : node) : bool :=
  match n with
  | Structdef _ (c :: _) => is_symbol_of_kind k c
  | _ => false
  end.

Definition is_a_msgdefdirective : node -> bool := first_child_kind "OblectamentaMsgDefDirective".
Definition is_a_msgreaddirective : node -> bool := first_child_kind "OblectamentaMsgReadDirective".

(** The first data label of the directive that is known to the machine. *)
Definition static_mem_location (labels : gmap string Z) (msg_directive : node) : option string :=
  (fun n => match n with Symbol s _ => s | _ => "" end) <$>
  List.find (fun e => match e with
    | Symbol s k => bool_decide (k = "OblectamentaDataLabel") && bool_decide (is_Some (labels !! s))
    | _ => false
    end) (node_children msg_directive).

(** The code given for errors: the first struct with the marker OblectamentaMsgOnError,
    less the markers. *)
Definition global_error_handler (msg_directive : node) : option (list node) :=
  (fun e => filter (fun n => is_symbol_of_kind "OblectamentaMsgOnError" n = false) (node_children e)) <$>
  List.find (fun e => match e with
    | Structdef _ cs => existsb (is_symbol_of_kind "OblectamentaMsgOnError") cs
    | _ => false
    end) (node_children msg_directive).

Definition all_modfifier (v : list node) : bool :=
  existsb (fun e => match e with
    | Symbol s k => bool_decide (k = "OblectamentaMessageModifier") && bool_decide (s = "all")
    | _ => false
    end) v.

Section macros.
Context `{Target} `{Ceps}.

Definition is_expression (n : node) : bool :=
  match n with
  | Structdef _ _ | Scope _ => false
  | Symbol _ k => bool_decide (k = "OblectamentaDataLabel")
  | _ => match is_a_symbol_with_arguments n with Some _ => false | None => true end
  end.

(** ** Generating mnemonics *)

Definition gen_mnemonic (name : string) : node := Symbol name "OblectamentaOpcode".

(** The number is passed as an int. *)
Definition gen_mnemonic_int (name : string) (v : Z) : node :=
  mk_func_call (Symbol name "OblectamentaOpcode") (Int_literal (s32 v)).

Definition gen_mnemonic_sym_arg (name sym_name sym_kind : string) : node :=
  mk_func_call (Symbol name "OblectamentaOpcode") (Symbol sym_name sym_kind).

Definition em (name : string) : node := gen_mnemonic name.
Definition emwa (name : string) (v : Z) : node := gen_mnemonic_int name v.
Definition emwsa (name sym kind : string) : node := gen_mnemonic_sym_arg name sym kind.
Definition emlbl (name : string) : node := Symbol name "OblectamentaCodeLabel".

(** With a register, a code label, a data label as the argument. *)
Definition emwsr (name reg : string) : node := emwsa name reg "OblectamentaReg".
Definition emwsl (name label : string) : node := emwsa name label "OblectamentaCodeLabel".
Definition emwsd (name label : string) : node := emwsa name label "OblectamentaDataLabel".

(** [string{"__msgdef_"} + to_string(vm.lbl_counter++)] *)
Definition fresh_label : M vm string :=
  let! n := gets lbl_counter in
  do! modify (fun v => mkVM (file v) (mem v) (mem_base v) (heap v) (compute_stack v) (text v)
                 (text_loc v) (lbl_counter v + 1) (exfuncs v) (label2loc v) (event_queue v)
                 (fired v) (cons_out v)) in
  ret ("__msgdef_" +:+ pretty n).

(** Code for one element after the other. *)
Fixpoint concatM {S A B} (f : A -> M S (list B)) (l : list A) : M S (list B) :=
  match l with
  | [] => ret []
  | x :: l' => let! r := f x in let! rs := concatM f l' in ret (r ++ rs)
  end.

(** [vm.store(s); vm.store('\0');], the offset is the heap before. *)
Definition store_sz (s : string) : M vm Z :=
  let! addr := gets heap in
  do! store_string (bytes_of_string s) in
  do! store I8 0 in
  ret addr.

Definition node_name_of (n : node) : string :=
  match n with Structdef s _ => s | _ => "" end.

(** ** Writing a message

    The code for a node expects its address in ARG0. It copies the name into the
    message, opens a stack frame with the address of the node ([FP - 8]) and the size of
    its content so far ([FP - 16]), writes the children, updates the size field and
    leaves the size in RES. [hd] is the size of the header with the name. *)

Definition write_open (hd addr_node_name : Z) (lbl : string) : list node :=
  [emwa "ldi32" NODE; emwsr "ldi64" "ARG0"; em "stsi32"; emwa "ldi64" hd;
   emwsr "ldi64" "ARG0"; emwa "ldi64" sizeof_what; em "addi64"; em "stsi64"; emwa "ldi64" 0;
   emlbl lbl; em "duptopi64"; em "duptopi64"; emwa "ldi64" addr_node_name; em "addi64";
   em "swpi64"; emwsr "ldi64" "ARG0"; emwa "ldi64" sizeof_msg_node; em "addi64"; em "addi64";
   em "swpi64"; em "ldsi8"; em "duptopi8"; em "swpi16i64"; em "stsi8"; em "ui8toui64";
   em "swpi64"; emwa "ldi64" 1; em "addi64"; em "swpi64"; emwsl "bnzeroi64" lbl;
   em "discardtopi64"; emwsr "pushi64" "FP"; emwsr "ldi64" "SP"; emwsr "sti64" "FP";
   emwa "ldi64" (sizeof_addr + sizeof_size); emwsr "ldi64" "SP"; em "subi64";
   emwsr "sti64" "SP"; emwa "ldi64" 0; emwa "ldi64" rel_addr_content_size; emwsr "ldi64" "FP";
   em "subi64"; em "stsi64"; emwsr "ldi64" "ARG0"; emwa "ldi64" rel_addr_root;
   emwsr "ldi64" "FP"; em "subi64"; em "stsi64"].

(** ARG0 := the next free address; and, after a child, the content size grows by RES. *)
Definition write_child_before (hd : Z) : list node :=
  [emwa "ldi64" rel_addr_root; emwsr "ldi64" "FP"; em "subi64"; em "ldsi64"; emwa "ldi64" hd;
   em "addi64"; emwa "ldi64" rel_addr_content_size; emwsr "ldi64" "FP"; em "subi64";
   em "ldsi64"; em "addi64"; emwsr "sti64" "ARG0"].

Definition write_child_after : list node :=
  [emwsr "ldi64" "RES"; emwa "ldi64" rel_addr_content_size; emwsr "ldi64" "FP"; em "subi64";
   em "ldsi64"; em "addi64"; emwa "ldi64" rel_addr_content_size; emwsr "ldi64" "FP";
   em "subi64"; em "stsi64"].

(** A value from the compute stack. *)
Definition write_i32 (hd : Z) : list node :=
  [emwa "ldi64" rel_addr_root; emwsr "ldi64" "FP"; em "subi64"; em "ldsi64"; emwa "ldi64" hd;
   em "addi64"; emwa "ldi64" rel_addr_content_size; emwsr "ldi64" "FP"; em "subi64";
   em "ldsi64"; em "addi64"; em "duptopi64"; emwa "ldi32" INT32; em "swpi32i64"; em "stsi32";
   em "duptopi64"; emwa "ldi64" sizeof_what; em "addi64"; emwa "ldi64" sizeof_msg_node_int32;
   em "swpi64"; em "stsi64"; emwa "ldi64" sizeof_msg_node; em "addi64"; em "stsi32";
   emwa "ldi64" sizeof_msg_node_int32; emwa "ldi64" rel_addr_content_size; emwsr "ldi64" "FP";
   em "subi64"; em "ldsi64"; em "addi64"; emwa "ldi64" rel_addr_content_size;
   emwsr "ldi64" "FP"; em "subi64"; em "stsi64"].

Definition write_i64 (hd : Z) : list node :=
  [emwa "ldi64" rel_addr_root; emwsr "ldi64" "FP"; em "subi64"; em "ldsi64"; emwa "ldi64" hd;
   em "addi64"; emwa "ldi64" rel_addr_content_size; emwsr "ldi64" "FP"; em "subi64";
   em "ldsi64"; em "addi64"; em "duptopi64"; emwa "ldi32" INT64; em "swpi32i64"; em "stsi32";
   em "duptopi64"; emwa "ldi64" sizeof_what; em "addi64"; emwa "ldi64" sizeof_msg_node_int64;
   em "swpi64"; em "stsi64"; emwa "ldi64" sizeof_msg_node; em "addi64"; em "stsi64";
   emwa "ldi64" sizeof_msg_node_int64; emwa "ldi64" rel_addr_content_size; emwsr "ldi64" "FP";
   em "subi64"; em "ldsi64"; em "addi64"; emwa "ldi64" rel_addr_content_size;
   emwsr "ldi64" "FP"; em "subi64"; em "stsi64"].

Definition write_f64 (hd : Z) : list node :=
  [emwa "ldi64" rel_addr_root; emwsr "ldi64" "FP"; em "subi64"; em "ldsi64"; emwa "ldi64" hd;
   em "addi64"; emwa "ldi64" rel_addr_content_size; emwsr "ldi64" "FP"; em "subi64";
   em "ldsi64"; em "addi64"; em "duptopi64"; emwa "ldi32" PF64; em "swpi32i64"; em "stsi32";
   em "duptopi64"; emwa "ldi64" sizeof_what; em "addi64"; emwa "ldi64" sizeof_msg_node_f64;
   em "swpi64"; em "stsi64"; emwa "ldi64" sizeof_msg_node; em "addi64"; em "stsdbl";
   emwa "ldi64" sizeof_msg_node_f64; emwa "ldi64" rel_addr_content_size; emwsr "ldi64" "FP";
   em "subi64"; em "ldsi64"; em "addi64"; emwa "ldi64" rel_addr_content_size;
   emwsr "ldi64" "FP"; em "subi64"; em "stsi64"].

Definition write_sz (hd : Z) (lbl : string) : list node :=
  [emwa "ldi64" rel_addr_root; emwsr "ldi64" "FP"; em "subi64"; em "ldsi64"; emwa "ldi64" hd;
   em "addi64"; emwa "ldi64" rel_addr_content_size; emwsr "ldi64" "FP"; em "subi64";
   em "ldsi64"; em "addi64"; em "duptopi64"; emwa "ldi32" SZ; em "swpi32i64"; em "stsi32";
   emwa "ldi64" sizeof_msg_node; em "addi64"; em "swpi64"; em "duptopi64"; em "swp128i64";
   emlbl lbl; em "swpi64"; em "duptopi64"; em "ldsi8"; em "duptopi8"; em "swp80i64";
   em "duptopi64"; em "swpi64b72"; em "stsi8"; emwa "ldi64" 1; em "addi64"; em "swp72i64";
   emwa "ldi64" 1; em "addi64"; em "swpi64"; em "swp128b8"; em "ui8toui32";
   emwsl "bnzeroi32" lbl; em "discardtopi64"; em "subi64"; em "duptopi64";
   emwa "ldi64" rel_addr_content_size; emwsr "ldi64" "FP"; em "subi64"; em "ldsi64";
   em "addi64"; emwa "ldi64" sizeof_msg_node; em "addi64"; emwa "ldi64" rel_addr_content_size;
   emwsr "ldi64" "FP"; em "subi64"; em "stsi64"; em "duptopi64"; emwa "ldi64" rel_addr_root;
   emwsr "ldi64" "FP"; em "subi64"; em "ldsi64"; emwa "ldi64" hd; em "addi64";
   emwa "ldi64" rel_addr_content_size; emwsr "ldi64" "FP"; em "subi64"; em "ldsi64";
   em "addi64"; em "subi64"; emwa "ldi64" sizeof_size; em "swpi64"; em "subi64"; em "swpi64";
   emwa "ldi64" sizeof_msg_node; em "addi64"; em "swpi64"; em "stsi64"].

Definition write_close : list node :=
  [emwa "ldi64" rel_addr_content_size; emwsr "ldi64" "FP"; em "subi64"; em "ldsi64";
   emwa "ldi64" rel_addr_root; emwsr "ldi64" "FP"; em "subi64"; em "ldsi64";
   emwa "ldi64" sizeof_what; em "addi64"; em "ldsi64"; em "addi64"; emwsr "sti64" "RES";
   emwsr "ldi64" "RES"; emwa "ldi64" rel_addr_root; emwsr "ldi64" "FP"; em "subi64";
   em "ldsi64"; emwa "ldi64" sizeof_what; em "addi64"; em "stsi64"; emwsr "ldi64" "FP";
   emwsr "sti64" "SP"; emwsr "popi64" "FP"].

(** A message tag, or code of the user. *)
Definition write_item (hd : Z) (child : node) : M vm (list node) :=
  match child with
  | Symbol nm k =>
    if bool_decide (k = "OblectamentaMessageTag") then
      if bool_decide (nm = "i32") then ret (write_i32 hd)
      else if bool_decide (nm = "i64") then ret (write_i64 hd)
      else if bool_decide (nm = "f64") then ret (write_f64 hd)
      else if bool_decide (nm = "sz") then let! lbl := fresh_label in ret (write_sz hd lbl)
      else ret []
    else ret [child]
  | _ => ret [child]
  end.

Fixpoint write_node (mnemonic : node) : M vm (list node) :=
  match mnemonic with
  | Structdef _ chldrn | Scope chldrn =>
    let node_name := node_name_of mnemonic in
    let hd := sizeof_msg_node + Z.of_nat (String.length node_name) + 1 in
    let! addr_node_name := store_sz node_name in
    let! lbl := fresh_label in
    let! body := concatM (fun child =>
      match child with
      | Structdef _ _ | Scope _ =>
        let! code := write_node child in
        ret (write_child_before hd ++ code ++ write_child_after)
      | _ => write_item hd child
      end) chldrn in
    ret (write_open hd addr_node_name lbl ++ body ++ write_close)
  | _ => undef                       (* as_scope_ref of another kind of node *)
  end.

(** The root of a message at the data label [mem_loc]. *)
Definition write_root_open (mem_loc : string) : list node :=
  [emwa "ldi32" ROOT; emwsd "lea" mem_loc; em "stsi32"; emwa "ldi32" sizeof_msg_node;
   em "ui32toui64"; emwa "ldi32" sizeof_what; em "ui32toui64"; emwsd "lea" mem_loc;
   em "addi64"; em "stsi64"; emwsr "pushi64" "FP"; emwsr "ldi64" "SP"; emwsr "sti64" "FP";
   emwa "ldi64" (sizeof_addr + sizeof_size); emwsr "ldi64" "SP"; em "subi64";
   emwsr "sti64" "SP"; emwsd "lea" mem_loc; emwa "ldi64" sizeof_what; em "addi64";
   emwa "ldi64" rel_addr_root; emwsr "ldi64" "FP"; em "subi64"; em "stsi64"; emwa "ldi64" 0;
   emwa "ldi64" rel_addr_content_size; emwsr "ldi64" "FP"; em "subi64"; em "stsi64"].

Definition write_root_child_before (mem_loc : string) : list node :=
  [emwsd "lea" mem_loc; emwa "ldi64" sizeof_msg_node; em "addi64";
   emwa "ldi64" rel_addr_content_size; emwsr "ldi64" "FP"; em "subi64"; em "ldsi64";
   em "addi64"; emwsr "sti64" "ARG0"].

Definition write_root_child_after : list node :=
  [emwsr "ldi64" "RES"; emwa "ldi64" rel_addr_content_size; emwsr "ldi64" "FP"; em "subi64";
   em "ldsi64"; em "addi64"; emwa "ldi64" rel_addr_content_size; emwsr "ldi64" "FP";
   em "subi64"; em "stsi64"].

Definition write_root_close (mem_loc : string) : list node :=
  [emwa "ldi64" rel_addr_content_size; emwsr "ldi64" "FP"; em "subi64"; em "ldsi64";
   emwsd "lea" mem_loc; emwa "ldi64" sizeof_what; em "addi64"; em "ldsi64"; em "addi64";
   emwsd "lea" mem_loc; emwa "ldi64" sizeof_what; em "addi64"; em "stsi64";
   emwsr "ldi64" "FP"; emwsr "sti64" "SP"; emwsr "popi64" "FP"].

Definition write_message (mem_loc : string) (chldrn : list node) : M vm (list node) :=
  let! body := concatM (fun child =>
    match child with
    | Structdef _ _ | Scope _ =>
      let! code := write_node child in
      ret (write_root_child_before mem_loc ++ code ++ write_root_child_after)
    | _ => ret []
    end) chldrn in
  ret (write_root_open mem_loc ++ body ++ write_root_close mem_loc).

(** ** Reading a message

    The code for a node finds the next child with the given name on the compute stack
    (address of the current child, remaining content size), reads its items and leaves
    the address of the node, the remaining size and whether it was found. *)

Record match_labels := mkMatchLabels {
  lbl_start : string; lbl_next_node : string; lbl_names_equal : string;
  lbl_check_strings : string; lbl_check_strings_unequal : string;
  lbl_wrong_node_type_i32_expected : string; lbl_wrong_node_type_i64_expected : string;
  lbl_not_enough_space : string; lbl_done : string; lbl_not_found : string;
  lbl_match_failed : string }.

Definition new_match_labels : M vm match_labels :=
  let! a := fresh_label in let! b := fresh_label in let! c := fresh_label in
  let! d := fresh_label in let! e := fresh_label in let! f := fresh_label in
  let! g := fresh_label in let! h := fresh_label in let! i := fresh_label in
  let! j := fresh_label in let! k := fresh_label in
  ret (mkMatchLabels a b c d e f g h i j k).

Definition match_open (addr_node_name : Z) (l : match_labels) : list node :=
  [em "swpi64"; emlbl (lbl_next_node l); em "swpi64"; em "duptopi64";
   emwsl "bzeroi64" (lbl_not_found l); em "swpi64"; em "duptopi64"; em "ldsi32";
   emwa "ldi32" NODE; em "subi32"; emwsl "bnzeroi32" (lbl_next_node l); em "duptopi64";
   emwa "ldi64" sizeof_msg_node; em "addi64"; emwa "ldi64" addr_node_name;
   emlbl (lbl_check_strings l); em "duptopi128"; em "ldsi8"; em "swpi8i64"; em "ldsi8";
   emwsl "bneqi8" (lbl_check_strings_unequal l); em "duptopi64"; em "ldsi8";
   emwsl "bzeroi8" (lbl_names_equal l); emwa "ldi64" 1; em "addi64"; em "swpi64"; emwa "ldi64" 1;
   em "addi64"; em "swpi64"; emwsl "buc" (lbl_check_strings l); emlbl (lbl_check_strings_unequal l);
   em "discardtopi64"; em "discardtopi64"; em "duptopi64"; emwa "ldi64" sizeof_what;
   em "addi64"; em "ldsi64"; em "swp128i64"; em "subi64"; em "swpi64"; em "duptopi64";
   emwa "ldi64" sizeof_what; em "addi64"; em "ldsi64"; em "addi64"; emwsl "buc" (lbl_next_node l);
   emlbl (lbl_names_equal l); em "discardtopi64"; em "swpi64"; em "duptopi64"; em "swp128i64";
   em "swpi64"; emwa "ldi64" sizeof_msg_node; em "addi64"; em "swpi64"; em "subi64";
   emwa "ldi64" 1; em "addi64"; em "duptopi128"; emwa "ldi64" sizeof_msg_node; em "addi64";
   em "addi64"; em "swpi64b128"; em "swpi64"; em "duptopi64"; emwa "ldi64" sizeof_what;
   em "addi64"; em "ldsi64"; em "swp128i64"; em "swpi64"; em "subi64";
   emwa "ldi64" sizeof_msg_node; em "swpi64"; em "subi64"; em "swp128i64"; em "swpi64";
   emwa "ldi64" 0].

(** Around the code that matches a node inside. *)
Definition match_child_before : list node :=
  [em "swpi64i192"].

Definition match_child_after (l : match_labels) : list node :=
  [em "bzeroi32"; emwsl "bzeroi64" (lbl_match_failed l); em "swpi64"; em "duptopi64";
   emwa "ldi64" (sizeof_msg_node - sizeof_size); em "addi64"; em "ldsi64"; em "duptopi64";
   em "swp128i64"; em "addi64"; em "swpi64b128"; em "swpi64"; em "subi64"; em "swp192i64"].

Definition match_i32 (l : match_labels) : list node :=
  [em "swp128i64"; em "duptopi64"; em "ldsi32"; emwa "ldi32" INT32;
   emwsl "bneq" (lbl_wrong_node_type_i32_expected l); emwa "ldi64" sizeof_msg_node; em "addi64";
   em "duptopi64"; em "ldsi32"; em "swpi32i64"; emwa "ldi64" 4; em "addi64"; em "swp96i64";
   emwa "ldi64" sizeof_msg_node_int32; em "addi64"; em "swpi160i64"; em "swpi64";
   em "swpi192i32"].

Definition match_i64 (l : match_labels) : list node :=
  [em "swp128i64"; em "duptopi64"; em "ldsi32"; emwa "ldi32" INT64;
   emwsl "bneq" (lbl_wrong_node_type_i64_expected l); emwa "ldi64" sizeof_msg_node; em "addi64";
   em "duptopi64"; em "ldsi64"; em "swpi64"; emwa "ldi64" 8; em "addi64"; em "swp128i64";
   emwa "ldi64" sizeof_msg_node_int64; em "addi64"; em "swp192i64"; em "swpi64";
   em "swp192i64"].

Definition match_f64 (l : match_labels) : list node :=
  [em "swp128i64"; em "duptopi64"; em "ldsi32"; emwa "ldi32" PF64;
   emwsl "bneq" (lbl_wrong_node_type_i32_expected l); emwa "ldi64" sizeof_msg_node; em "addi64";
   em "duptopi64"; em "ldsdbl"; em "swpi64"; emwa "ldi64" 8; em "addi64"; em "swp128i64";
   emwa "ldi64" sizeof_msg_node_f64; em "addi64"; em "swp192i64"; em "swpi64"; em "swp192i64"].

Definition match_sz (l : match_labels) : list node :=
  [em "swp128i64"; em "duptopi64"; em "ldsi32"; emwa "ldi32" SZ;
   emwsl "bneq" (lbl_wrong_node_type_i32_expected l); emwa "ldi64" sizeof_msg_node; em "addi64";
   em "duptopi64"; em "swpi64"; emwa "ldi64" sizeof_size; em "swpi64"; em "subi64";
   em "duptopi64"; em "ldsi64"; em "swpi64"; emwa "ldi64" sizeof_what; em "swpi64";
   em "subi64"; em "addi64"; em "swp128i64"; emwa "ldi64" sizeof_msg_node_sz; em "addi64";
   em "swp192i64"; em "swpi64"; em "swp192i64"].

(** After at least one item has been read. *)
Definition match_read : list node :=
  [em "discardtopi64"; em "discardtopi64"; em "discardtopi64"; em "swpi64"].

Definition match_close (l : match_labels) : list node :=
  [emwa "ldi64" 1; emwsl "buc" (lbl_done l); emlbl (lbl_not_enough_space l);
   emlbl (lbl_wrong_node_type_i32_expected l); emlbl (lbl_wrong_node_type_i64_expected l);
   emlbl (lbl_next_node l); emlbl (lbl_not_found l); em "swpi64"; emwa "ldi64" 0;
   emwsl "buc" (lbl_done l); emlbl (lbl_match_failed l); em "discardtopi64"; em "discardtopi64";
   em "swpi64"; em "discardtopi64"; emwa "ldi64" 0; emwsl "buc" (lbl_done l); emlbl (lbl_done l);
   em "noop"].

(** The code for one item that is not a node. *)
Definition match_item (l : match_labels) (mn : node) : list node :=
  match mn with
  | Symbol nm k =>
    if bool_decide (k = "OblectamentaMessageTag") then
      if bool_decide (nm = "i32") then match_i32 l
      else if bool_decide (nm = "i64") then match_i64 l
      else if bool_decide (nm = "f64") then match_f64 l
      else if bool_decide (nm = "sz") then match_sz l
      else []
    else [mn]
  | _ => [mn]
  end.

(** [tag_read] *)
Definition counts_as_read (mn : node) : bool :=
  match mn with
  | Structdef _ _ | Scope _ => true
  | Symbol nm k => bool_decide (k = "OblectamentaMessageTag") && bool_decide (nm ∈ ["i32"; "i64"; "f64"; "sz"])
  | _ => false
  end.

Fixpoint match_node (n : node) : M vm (list node) :=
  match n with
  | Structdef _ items | Scope items =>
    let! addr_node_name := store_sz (node_name_of n) in
    let! l := new_match_labels in
    let! body := concatM (fun mn =>
      match mn with
      | Structdef _ _ | Scope _ =>
        let! code := match_node mn in
        ret (match_child_before ++ code ++ match_child_after l)
      | _ => ret (match_item l mn)
      end) items in
    ret (match_open addr_node_name l ++ body
         ++ (if existsb counts_as_read items then match_read else []) ++ match_close l)
  | _ => undef
  end.

Definition read_open (mem_loc lbl_error_root_type_wrong : string) : list node :=
  [emwsd "lea" mem_loc; em "duptopi64"; em "ldsi32"; emwa "ldi32" ROOT; em "subi32";
   emwsl "bnzeroi32" lbl_error_root_type_wrong; em "duptopi64"; emwa "ldi64" sizeof_what;
   em "addi64"; em "ldsi64"; emwa "ldi64" sizeof_msg_node; em "swpi64"; em "subi64";
   em "swpi64"; em "duptopi64"; em "swp128i64"; em "swpi64"; emwa "ldi64" sizeof_msg_node;
   em "addi64"; em "swpi64"].

(** After a node of the directive: on failure leave, otherwise go on behind the node. *)
Definition read_child_failed (lbl_continue lbl_error : string) (loop_over_all : bool)
    (lbl_loop_end : string) : list node :=
  [emwsl "bnzeroi64" lbl_continue]
  ++ (if loop_over_all then [emwsl "buc" lbl_loop_end] else [])
  ++ [em "discardtopi64"; em "discardtopi64"; em "discardtopi64"; emwsl "buc" lbl_error].

Definition read_child_next (lbl_continue : string) : list node :=
  [emlbl lbl_continue; em "swpi64"; em "duptopi64"; emwa "ldi64" sizeof_what; em "addi64";
   em "ldsi64"; em "swpi64"; em "swpi64b128"; em "swpi64"; em "subi64"; em "swpi64";
   em "duptopi64"; emwa "ldi64" sizeof_what; em "addi64"; em "ldsi64"; em "addi64";
   em "swpi64"].

Definition read_child (lbl_error : string) (child : node) : M vm (list node) :=
  match child with
  | Structdef _ chldrn | Scope chldrn =>
    let loop_over_all := all_modfifier chldrn in
    let! lbl_loop := if loop_over_all then fresh_label else ret "" in
    let! lbl_loop_end := if loop_over_all then fresh_label else ret "" in
    let! code := match_node child in
    let! lbl_continue := fresh_label in
    ret ((if loop_over_all then [emlbl lbl_loop] else [])
         ++ code ++ read_child_failed lbl_continue lbl_error loop_over_all lbl_loop_end
         ++ read_child_next lbl_continue
         ++ (if loop_over_all then [emwsl "buc" lbl_loop; emlbl lbl_loop_end; em "noop"] else []))
  | _ => ret []
  end.

Definition read_message (mem_loc : string) (mnem : node) : M vm (list node) :=
  let glb_err_handler := global_error_handler mnem in
  let! lbl_error_root_type_wrong := fresh_label in
  let! lbl_done := fresh_label in
  let! lbl_error := fresh_label in
  let! body := concatM (read_child lbl_error) (node_children mnem) in
  ret (read_open mem_loc lbl_error_root_type_wrong ++ body
       ++ [em "discardtopi64"; em "discardtopi64"; em "discardtopi64"; emwsl "buc" lbl_done;
           emlbl lbl_error_root_type_wrong; em "halt"; emlbl lbl_error]
       ++ default [] glb_err_handler ++ [emlbl lbl_done]).

(** ** Expressions *)

(** [for(; reg_idx <= max_reg && regs & (1 << reg_idx); ++reg_idx)] *)
Definition get_free_reg (regs max_reg : Z) (alloc : bool) : option (Z * Z) :=
  match List.find (fun i => negb (Z.testbit regs i)) (zrange 0 (max_reg + 1)) with
  | Some reg_idx => Some (reg_idx, if alloc then Z.lor regs (Z.shiftl 1 reg_idx) else regs)
  | None => None
  end.

Definition get_reg_name (i : Z) : string :=
  if (0 <=? i) && (i <=? 15) then "R" +:+ pretty i else "".

(** The register with the value ([None]: given up) and the code. *)
Fixpoint gen_expr (regs max_reg : Z) (expr : node) : M vm (option Z * list node) :=
  match expr with
  | Symbol nm k =>
    if bool_decide (k = "OblectamentaDataLabel") then
      match get_free_reg regs max_reg true with
      | None => ret (None, [])
      | Some (dest_reg, _) =>
        ret (Some dest_reg, [emwsd "ldi32" nm; emwsr "sti32" (get_reg_name dest_reg)])
      end
    else ret (None, [])
  | Unary_operator operation operands =>
    match operands with
    | [] => undef                                  (* children()[0] *)
    | operand :: _ =>
      let! '(dest_reg_req, code) := gen_expr regs max_reg operand in
      match dest_reg_req with
      | None => ret (None, code)
      | Some dest_reg =>
        if bool_decide (operation = "!") then
          ret (Some dest_reg, code ++ [emwsr "ldi32" (get_reg_name dest_reg); em "noti32";
                                       emwsr "sti32" (get_reg_name dest_reg)])
        else ret (None, code)
      end
    end
  | _ => ret (None, [])
  end.

Definition gen_statement_expr (expr : node) : M vm (list node) :=
  let! '(result_reg, code) := gen_expr 0 15 expr in
  match result_reg with
  | None => throw (ThrownString ("oblectamenta_assembler: Expression failed to compile. Offending expression is >>>"
                                 +:+ show expr +:+ "<<<"))
  | Some r => ret (code ++ [emwsr "ldi32" (get_reg_name r); emwsr "sti32" "RES"])
  end.

(** ** oblectamenta_assembler_preproccess

    The code goes in front of its directive, which stays in the list. *)
Definition expand (mnem : node) : M vm (list node) :=
  if is_expression mnem then gen_statement_expr mnem
  else if is_a_msgreaddirective mnem then
    let! labels := gets data_labels in
    match static_mem_location labels mnem with
    | None => throw (ThrownString ("oblectamenta_assembler: Message Directive contains no data label (hence I don't know where to read the bytes from). Offending message directive is >>>"
                                   +:+ show mnem +:+ "<<<"))
    | Some mem_loc => read_message mem_loc mnem
    end
  else if is_a_msgdefdirective mnem then
    let! labels := gets data_labels in
    match static_mem_location labels mnem with
    | None => throw (ThrownString ("oblectamenta_assembler: Message Dirctive contains no data label (hence I don't know where to write the bytes to). Offending message directive is >>>"
                                   +:+ show mnem +:+ "<<<"))
    | Some mem_loc => write_message mem_loc (node_children mnem)
    end
  else ret [].

Definition preprocess (mnemonics : list node) : M vm (list node) :=
  concatM (fun mnem => let! r := expand mnem in ret (r ++ [mnem])) mnemonics.
End macros.

(** The library as a concrete function: a call is its target followed by its arguments. *)
Definition test_ceps : Ceps :=
  {| is_a_symbol_with_arguments n :=
       match n with Func_call (Symbol n k :: args) => Some (n, k, args) | _ => None end;
     mk_func_call f a := Func_call [f; a];
     show n := "";
     as_int_of_long v := v;
     string_object s := replicate 32 0 |}.

Lemma test_ceps_laws : @CepsLaws test_ceps.
Proof.
  split; [|done..]. intros n Hn. destruct n as [| | | | | | |parts| | | | |]; cbn in Hn; done.
Qed.
