(* ===== verification/Asm.v ===== *)
(** * Asm: the Oblectamenta assembler

    core/src/vm/oblectamenta-assembler.cpp (oblectamenta_assembler_impl and
    oblectamenta_assembler): one pass over the statements of an assembler text. An
    opcode is looked up in the table of mnemonics and emitted; a branch to a label that
    is not known yet is emitted with address 0 and patched when the label is met. The
    list of open patches is a static variable: it outlives a call and is shared by all
    machines. *)

From S2P Require Import Prelude MachineInt F64 VMEnv VMOps VMTable Protobufish Ast AsmMacros.

(** ** State *)

(** [id] is a char[64]: here the characters before its first NUL, all 64 when there is
    none. An entry with an empty id is free. *)
Record patch_entry := mkPatch { pe_id : string; pe_text_loc : Z }.

Record asm_state := mkAsm { avm : vm; patch_entries : list patch_entry }.

Definition with_avm (v : vm) (s : asm_state) : asm_state := mkAsm v (patch_entries s).
Definition with_patch_entries (p : list patch_entry) (s : asm_state) : asm_state := mkAsm (avm s) p.

Definition in_vm {A} (m : M vm A) : M asm_state A := zoom avm with_avm m.

(** The characters of a string before a NUL ([c_str]). *)
Fixpoint c_str (s : string) : string :=
  match s with
  | EmptyString => EmptyString
  | String c s' => if byte_of c =? 0 then EmptyString else String c (c_str s')
  end.

Definition id_size : nat := 64.

(** [strcmp(id, lbl) == 0]; an id without a NUL is read past its end when the label
    agrees with all of it. *)
Definition id_equals (id lbl : string) : option bool :=
  if (String.length id <? id_size)%nat then Some (bool_decide (id = c_str lbl))
  else if bool_decide (id = String.substring 0 id_size (c_str lbl)) then None
  else Some false.

(** [strncpy(id, name, sizeof(id))] *)
Definition id_of (name : string) : string := String.substring 0 id_size (c_str name).

Section assembler.
Context `{Target} `{Ceps}.
Context (ev_to_id : gmap string Z).

Definition asm_error {S A} (what : string) : M S A :=
  throw (ThrownString ("oblectamenta_assembler: " +:+ what)).

Definition quoted (s : string) : string := "'" +:+ s +:+ "'".

(** ** Room in the text *)

Definition max_opcode_width : Z := 16.
Definition text_growth_factor : Z := 0x3FF6666666666666.     (* 1.4 *)

(** [10*max_opcode_width + text_growth_factor * (double)text_size] as a size_t. *)
Definition grown_text_size (size : Z) : Z :=
  f64_to_z (f64_add nan_bits (f64_of_z nan_bits (10 * max_opcode_width))
              (f64_mul nan_bits text_growth_factor (f64_of_z nan_bits size))).

Definition make_room : M vm unit :=
  let! v := get in
  if text_size v <=? u64 (text_loc v + 10 * max_opcode_width)
  then resize_text (Z.to_nat (grown_text_size (text_size v)))
  else ret tt.

(** ** Labels and patches *)

(** A label is met at [loc]: branches that wait for it are patched. *)
Fixpoint resolve (lbl : string) (loc : Z) (ps : list patch_entry) : M vm (list patch_entry) :=
  match ps with
  | [] => ret []
  | p :: ps' =>
    let! eq := of_option (id_equals (pe_id p) lbl) in
    let! p := if eq then do! patch U64 (pe_text_loc p - addr_width) loc in
                         ret (mkPatch "" (pe_text_loc p))
              else ret p in
    let! ps' := resolve lbl loc ps' in
    ret (p :: ps')
  end.

Definition resolve_label (lbl : string) (loc : Z) : M asm_state unit := fun s =>
  (let! ps := in_vm (resolve lbl loc (patch_entries s)) in
   modify (with_patch_entries ps)) s.

(** A branch to an unknown label: the first free entry is used. *)
Fixpoint put_entry (e : patch_entry) (ps : list patch_entry) : list patch_entry :=
  match ps with
  | [] => [e]
  | p :: ps' => if bool_decide (pe_id p = "") then e :: ps' else p :: put_entry e ps'
  end.

Definition add_patch (name : string) (loc : Z) : M asm_state unit :=
  modify (fun s => with_patch_entries (put_entry (mkPatch (id_of name) loc) (patch_entries s)) s).

(** ** Emission *)

(** The emitter of a mnemonic is one of five; calling another one is an error, which
    the code reports in some places and ignores in others. *)
Definition emitter_of_args (args : emit_args) : emitter :=
  match args with
  | ANone => NoArg | AImm _ => Imm | ARegOfs _ _ => RegOfs | ADbl _ => Dbl | AImmImm _ _ => ImmImm
  end.

Definition has_emitter (m : mnemonic) (e : emitter) : bool := bool_decide (mn_emit m = e).

Definition emit_at (m : mnemonic) (args : emit_args) : M vm unit :=
  let! pos := gets text_loc in
  let! pos' := emit (mn_opcode m) args pos in
  modify (set_text_loc pos').

Definition emit_or_ignore (m : mnemonic) (args : emit_args) : M vm unit :=
  if has_emitter m (emitter_of_args args) then emit_at m args else ret tt.

Definition emit_or_fail (mnemonic_name : string) (m : mnemonic) (args : emit_args) : M vm unit :=
  if has_emitter m (emitter_of_args args) then emit_at m args
  else asm_error ("illformed parameter list for " +:+ quoted mnemonic_name).

Definition lookup_mnemonic {S} (name : string) : M S mnemonic :=
  match find_mnemonic name with
  | Some m => ret m
  | None => asm_error ("unknown opcode: " +:+ quoted name)
  end.

(** ** Operands *)

(** [reg_mnemonic2idx[name]]: operator[] puts in 0, the number of SP, for an unknown name. *)
Definition reg_idx (name : string) : Z :=
  default 0 (snd <$> List.find (fun e => String.eqb (fst e) name) reg_mnemonic2idx).

Definition find_reg (name : string) : option Z :=
  snd <$> List.find (fun e => String.eqb (fst e) name) reg_mnemonic2idx.

(** A register, or a register with an offset: every operator but - adds. *)
Definition is_register_offset_expression (args : list node) : option (Z * Z) :=
  match args with
  | [Symbol r k] => if bool_decide (k = "OblectamentaReg") then Some (reg_idx r, 0) else None
  | [Binary_operator op (Symbol r k) (Int_literal offs)] =>
    if bool_decide (k = "OblectamentaReg")
    then Some (reg_idx r, if bool_decide (op = "-") then - offs else offs) else None
  | _ => None
  end.

Definition data_label_loc (name : string) : M vm Z :=
  let! labels := gets data_labels in
  match labels !! name with
  | Some loc => ret loc
  | None => asm_error ("unknown data label: " +:+ quoted name)
  end.

(** [vm.store(value); vm.store('\0')]: the offset of the string. *)
Definition store_literal (s : string) : M vm Z :=
  let! t := store_string (bytes_of_string s) in
  do! store I8 0 in
  ret t.

(** ** One opcode with arguments *)

Definition asm_imm (mnemonic_name : string) (v : Z) : M vm unit :=
  let! m := lookup_mnemonic (mnemonic_name +:+ "imm") in
  emit_or_fail mnemonic_name m (AImm v).

Definition asm_dbl (mnemonic_name : string) (v : Z) : M vm unit :=
  let! m := lookup_mnemonic (mnemonic_name +:+ "imm") in
  emit_or_fail mnemonic_name m (ADbl v).

Definition asm_reg (mnemonic_name : string) (reg offs : Z) : M vm unit :=
  match find_mnemonic (mnemonic_name +:+ "reg") with
  | Some m => emit_or_ignore m (ARegOfs reg offs)
  | None => asm_error ("unknown opcode: '" +:+ mnemonic_name +:+ "reg'")
  end.

Definition asm_data_label (mnemonic_name label : string) : M vm unit :=
  let! loc := data_label_loc label in
  match find_mnemonic mnemonic_name with
  | Some m => emit_or_fail mnemonic_name m (AImm loc)
  | None =>
    let mnemonic_name := mnemonic_name +:+ "@OblectamentaDataLabel@" in
    let! m := lookup_mnemonic mnemonic_name in
    emit_or_fail mnemonic_name m (AImm loc)
  end.

Definition asm_code_label (codelabel2loc : gmap string Z) (mnemonic_name label : string)
    : M asm_state unit :=
  let backpatch := bool_decide (codelabel2loc !! label = None) in
  let loc := default 0 (codelabel2loc !! label) in
  do! in_vm (let! m := lookup_mnemonic mnemonic_name in
             emit_or_fail mnemonic_name m (AImm loc)) in
  if backpatch then
    let! backpatch_loc := in_vm (gets text_loc) in
    add_patch label backpatch_loc
  else ret tt.

Definition asm_external (mnemonic_name ref_ext_name : string) : M vm unit :=
  match find_mnemonic (mnemonic_name +:+ "x") with
  | None => asm_error ("Opcode doesn't support external references: " +:+ quoted mnemonic_name)
  | Some m =>
    let! fs := gets exfuncs in
    match List.find (fun f => String.eqb (exf_name f) ref_ext_name) fs with
    | None => asm_error (quoted ref_ext_name +:+ "not declared as external")
    | Some f => emit_or_fail mnemonic_name m (AImm (exf_addr f))
    end
  end.

(** [addr(n)] and [reg(r)]; anything else is passed over. *)
Definition asm_modifier (mnemonic_name sym_name sym_kind : string) (args : list node) : M vm unit :=
  if bool_decide (sym_kind = "OblectamentaModifier") then
    match args with
    | [Int_literal v] =>
      if bool_decide (sym_name = "addr") then
        let! m := lookup_mnemonic mnemonic_name in
        emit_or_fail mnemonic_name m (AImm v)
      else ret tt
    | [Symbol reg_name k] =>
      if bool_decide (sym_name = "reg") && bool_decide (k = "OblectamentaReg") then
        match find_reg reg_name with
        | None => asm_error ("unknown register: " +:+ quoted reg_name)
        | Some r =>
          match find_mnemonic (mnemonic_name +:+ "reg") with
          | None => asm_error ("Opcode doesn't support register access: " +:+ quoted mnemonic_name)
          | Some m => emit_or_fail mnemonic_name m (AImm r)
          end
        end
      else ret tt
    | _ => ret tt
    end
  else ret tt.

(** The remaining one-argument forms: a long and a string literal. *)
Definition asm_literal (e : node) (mnemonic_name : string) (a : node) : M vm unit :=
  let! mangled :=
    match a with
    | Int_literal _ | Long_literal _ => ret (mnemonic_name +:+ "imm")
    | String_literal _ => ret (mnemonic_name +:+ "sz")
    | _ => throw (ThrownString ("Illformed opcode. In '" +:+ show e +:+ " the offending argument is "
                                +:+ show a +:+ nl))
    end in
  let! m := lookup_mnemonic mangled in
  if has_emitter m Imm then
    let! imm := match a with
      | String_literal s => store_literal s
      | Int_literal v => ret v
      | Long_literal v => ret (as_int_of_long v)
      | _ => undef
      end in
    emit_at m (AImm imm)
  else asm_error ("illformed parameter list for " +:+ quoted mnemonic_name).

(** ** Two arguments *)

Definition mangle (mnemonic_name : string) (a : node) : string :=
  match a with
  | Int_literal _ | Long_literal _ => mnemonic_name +:+ "imm"
  | String_literal _ => mnemonic_name +:+ "sz"
  | Symbol _ k => mnemonic_name +:+ "@" +:+ k +:+ "@"
  | _ => mnemonic_name
  end.

(** [addr_t imm[2]], not initialised. The location of a data label goes into imm[1],
    whichever argument it is. *)
Definition pair_operand (i : bool) (imm : option Z * option Z) (a : node)
    : M vm (option Z * option Z) :=
  let set v := if i then (imm.1, Some v) else (Some v, imm.2) in
  match a with
  | Int_literal v => ret (set v)
  | Long_literal v => ret (set (as_int_of_long v))
  | String_literal s => let! t := store_literal s in ret (set t)
  | Symbol nm k =>
    if bool_decide (k = "OblectamentaDataLabel") then
      let! loc := data_label_loc nm in ret (imm.1, Some loc)
    else if bool_decide (k = "OblectamentaReg") then
      match find_reg nm with
      | None => asm_error ("unknown register " +:+ quoted nm +:+ " in " +:+ show a +:+ nl)
      | Some r => ret (set r)
      end
    else ret imm
  | _ => ret imm
  end.

Definition asm_pair (mnemonic_name : string) (a b : node) : M vm unit :=
  let! m := lookup_mnemonic (mangle (mangle mnemonic_name a) b) in
  if has_emitter m ImmImm then
    let! imm := pair_operand false (None, None) a in
    let! imm := pair_operand true imm b in
    let! v := of_option imm.1 in
    let! vv := of_option imm.2 in
    emit_at m (AImmImm v vv)
  else asm_error ("illformed parameter list for " +:+ quoted mnemonic_name).

(** An opcode with its arguments; the forms are tried in this order. *)
Definition asm_opcode (codelabel2loc : gmap string Z) (e : node) (mnemonic_name : string)
    (args : list node) : M asm_state unit :=
  match is_register_offset_expression args with
  | Some (reg, offs) => in_vm (asm_reg mnemonic_name reg offs)
  | None =>
    match args with
    | [Int_literal v] => in_vm (asm_imm mnemonic_name v)
    | [Float_literal v] => in_vm (asm_dbl mnemonic_name v)
    | [a] =>
      if is_symbol_of_kind "OblectamentaDataLabel" a then
        in_vm (asm_data_label mnemonic_name (match a with Symbol s _ => s | _ => "" end))
      else if is_symbol_of_kind "OblectamentaCodeLabel" a then
        asm_code_label codelabel2loc mnemonic_name (match a with Symbol s _ => s | _ => "" end)
      else if is_symbol_of_kind "OblectamentaExternalFunc" a then
        in_vm (asm_external mnemonic_name (match a with Symbol s _ => s | _ => "" end))
      else match is_a_symbol_with_arguments a with
           | Some (sym_name, sym_kind, args2) => in_vm (asm_modifier mnemonic_name sym_name sym_kind args2)
           | None => in_vm (asm_literal e mnemonic_name a)
           end
    | [a; b] => in_vm (asm_pair mnemonic_name a b)
    | _ => asm_error ("illformed mnemonic " +:+ quoted mnemonic_name)
    end
  end.

(** ** Events *)

Definition event_id {S} (event_name : string) : M S Z :=
  match ev_to_id !! event_name with
  | Some i => ret i
  | None => asm_error ("event " +:+ quoted event_name +:+ " has no encoding")
  end.

(** What is left to do after the code of a message: fire the event with the buffer. *)
Record postponed := mkPostponed {
  postponed_mnem : mnemonic; postponed_ev : Z; postponed_buffer : Z; postponed_insert_after : Z }.

Definition missing_mnemonic {S A} (name : string) : M S A :=
  asm_error ("Internal Error (" +:+ name +:+ " opcode not found)").

Definition find_internal {S} (name : string) : M S mnemonic :=
  match find_mnemonic name with Some m => ret m | None => missing_mnemonic name end.

Definition asm_event (event_name : string) : M vm unit :=
  let! m := find_internal "msg" in
  let! ev := event_id event_name in
  emit_or_ignore m (AImm ev).

(** [event(msg{...})] at position [stmt_pos]: the statements to insert behind it. *)
Definition asm_event_msg (e : node) (event_name : string) (args : list node) (stmt_pos : Z)
    : M vm (list node * postponed) :=
  match args with
  | Structdef nm content as a :: _ =>
    if bool_decide (nm = "msg") then
      let! mnems := preprocess [a] in
      let! m := find_internal "msg@Event@@OblectamentaDataLabel@" in
      let! ev := event_id event_name in
      let buffer_name := match List.find (is_symbol_of_kind "OblectamentaDataLabel") content with
                         | Some (Symbol s _) => s | _ => "" end in
      if bool_decide (buffer_name = "") then
        asm_error ("Message Directive contains no data label (hence I don't know where to read the bytes from). Offending message directive is >>>"
                   +:+ show a +:+ "<<<")
      else
        let! buffer := data_label_loc buffer_name in
        ret (mnems, mkPostponed m ev buffer (stmt_pos + Z.of_nat (length mnems)))
    else asm_error ("Expected msg{...} as argument to event. >>>" +:+ show e +:+ "<<<")
  | _ => asm_error ("Expected msg{...} as argument to event. >>>" +:+ show e +:+ "<<<")
  end.

(** ** Statements *)

(** The local variables of a call. *)
Record locals := mkLocals { codelabel2loc : gmap string Z; pending_msg : option postponed }.

Definition asm_with_arguments (l : locals) (stmt_pos : Z) (e : node)
    : M asm_state (locals * list node) :=
  match is_a_symbol_with_arguments e with
  | Some (sym_name, sym_kind, args) =>
    if bool_decide (sym_kind = "Event") then
      let! '(mnems, p) := in_vm (asm_event_msg e sym_name args stmt_pos) in
      ret (mkLocals (codelabel2loc l) (Some p), mnems)
    else if bool_decide (sym_kind = "OblectamentaOpcode") then
      do! asm_opcode (codelabel2loc l) e sym_name args in ret (l, [])
    else ret (l, [])
  | None => ret (l, [])
  end.

(** One statement: the locals and the statements inserted behind it. x86-64 code is
    accepted and dropped. *)
Definition asm_statement (assemble : list node -> M asm_state unit) (l : locals) (stmt_pos : Z)
    (e : node) : M asm_state (locals * list node) :=
  match e with
  | Scope cs => do! assemble cs in ret (l, [])
  | Structdef nm _ =>
    if bool_decide (nm = "x86_64") then ret (l, []) else asm_with_arguments l stmt_pos e
  | Symbol nm k =>
    if bool_decide (k = "OblectamentaCodeLabel") then
      let! loc := in_vm (gets text_loc) in
      do! resolve_label nm loc in
      ret (mkLocals (<[nm := loc]> (codelabel2loc l)) (pending_msg l), [])
    else if bool_decide (k = "OblectamentaOpcode") then
      do! in_vm (let! m := lookup_mnemonic nm in emit_or_ignore m ANone) in
      ret (l, [])
    else if bool_decide (k = "Event") then
      do! in_vm (asm_event nm) in ret (l, [])
    else asm_with_arguments l stmt_pos e
  | _ => asm_with_arguments l stmt_pos e
  end.

(** The event of a message whose code has been assembled. *)
Definition fire_postponed (l : locals) (stmt_pos : Z) : M asm_state locals :=
  match pending_msg l with
  | Some p =>
    if postponed_insert_after p =? stmt_pos then
      do! in_vm (if has_emitter (postponed_mnem p) ImmImm
                 then emit_at (postponed_mnem p) (AImmImm (postponed_ev p) (postponed_buffer p))
                 else asm_error "Internal Error (msg@Event@@OblectamentaDataLabel@ opcode emitter not found)") in
      ret (mkLocals (codelabel2loc l) None)
    else ret l
  | None => ret l
  end.

(** The loop over the statements. [fuel] bounds the statements of this list, also the
    inserted ones. *)
Fixpoint asm_loop (fuel : nat) (assemble : list node -> M asm_state unit) (l : locals)
    (stmt_pos : Z) (mnemonics : list node) : M asm_state locals :=
  match mnemonics with
  | [] => ret l
  | e :: rest =>
    match fuel with
    | O => out_of_fuel
    | S fuel' =>
      do! in_vm make_room in
      let! '(l, inserted) := asm_statement assemble l stmt_pos e in
      let! l := fire_postponed l stmt_pos in
      asm_loop fuel' assemble l (stmt_pos + 1) (inserted ++ rest)
    end
  end.

(** [fuel] bounds the nesting of scopes, [rounds] the length of each list. *)
Fixpoint oblectamenta_assembler_impl (fuel rounds : nat) (mnemonics : list node)
    : M asm_state unit :=
  match fuel with
  | O => out_of_fuel
  | S fuel' =>
    let! mnemonics := in_vm (preprocess mnemonics) in
    do! asm_loop rounds (oblectamenta_assembler_impl fuel' rounds) (mkLocals ∅ None) 0 mnemonics in
    ret tt
  end.

Definition oblectamenta_assembler (fuel rounds : nat) (mnemonics : list node) (append_halt : bool)
    : M asm_state unit :=
  do! oblectamenta_assembler_impl fuel rounds mnemonics in
  if append_halt then
    in_vm (let! pos := gets text_loc in
           let! pos := emit0 (opcode_num Op.halt) pos in
           modify (set_text_loc pos))
  else ret tt.
End assembler.
