(* ===== verification/VMAst.v ===== *)
(** * VMAst: machines as syntax trees

    The second half of core/src/vm/oblectamenta-assembler.cpp: a machine is written out
    as a syntax tree (ast_rep) and a machine is built from a tree (fetch), part by part:
    stack, data with its labels, text, compute stack, registers. *)

From S2P Require Import Prelude MachineInt VMEnv VMOps VMTable Ast AsmMacros Asm.

Section vm_ast.
Context `{Target} `{Ceps}.

(** ** A machine from a tree *)

(** [VMEnv r{}; m; return r;] *)
Definition on_new_vm {S} (m : M vm unit) : M S vm := fun s =>
  match (do! (fun _ => VMEnv_init (alloc_junk (default_text_size + 100))
                         (alloc_base default_mem_size)) in m)
          (empty_vm [] 0) with
  | Ok _ v => Ok v s
  | Throw e _ => Throw e s
  | Undef => Undef
  | OutOfFuel => OutOfFuel
  end.

Definition push_at_sp (t : ctype) (x : Z) : M vm unit :=
  let! sp := get_reg SP in
  let sp := s64 (sp - Z.of_nat (sizeof t)) in
  do! set_reg SP sp in
  mem_wr t sp x.

Definition fetch_stack (content : list node) : M vm unit :=
  forM (reverse content) (fun e => match e with
    | Int_literal v => push_at_sp I32 v
    | Uint8_literal v => push_at_sp U8 v
    | _ => ret tt
    end).

Definition add_data_label (name : string) : M vm unit :=
  let! h := gets heap in
  modify (fun v => set_data_labels (<[name := h]> (data_labels v)) v).

Definition fetch_data (content : list node) : M vm unit :=
  forM content (fun e => match e with
    | Int_literal v => do! store I32 v in ret tt
    | Float_literal v => do! store F64 v in ret tt
    | String_literal s => do! store_string (bytes_of_string s) in ret tt
    | Symbol nm k =>
      if bool_decide (k = "OblectamentaDataLabel") then add_data_label nm else ret tt
    | Uint8_literal v => do! store U8 v in ret tt
    | _ => ret tt
    end).

(** [push_cs] of a std::string: the bytes of the object. *)
Definition push_cs_object (bs : list Z) : M vm unit :=
  let! c := get_reg CSP in
  let! st := gets compute_stack in
  let st' := if u64 (c + Z.of_nat (length bs)) >=? Z.of_nat (length st)
             then st ++ replicate (length bs) 0 else st in
  let! st'' := of_option (slice_set st' c bs) in
  do! modify (set_compute_stack st'') in
  set_reg CSP (s64 (c + Z.of_nat (length bs))).

Definition fetch_compute_stack (content : list node) : M vm unit :=
  forM content (fun e => match e with
    | Int_literal v => do! push_cs I32 v in ret tt
    | Float_literal v => do! push_cs F64 v in ret tt
    | String_literal s => push_cs_object (string_object s)
    | Uint8_literal v => do! push_cs U8 v in ret tt
    | _ => ret tt
    end).

Definition append_text (b : Z) : M vm unit :=
  let! loc := gets text_loc in
  do! text_wr U8 loc b in
  modify (set_text_loc (loc + 1)).

(** The loop of both overloads, with its handler for errors of the assembler. *)
Definition fetch_text_loop (fuel rounds : nat) (content : list node) : M asm_state unit :=
  try_catch
    (forM content (fun e => match e with
       | Structdef nm cs =>
         if bool_decide (nm = "asm") then oblectamenta_assembler ∅ fuel rounds cs false else ret tt
       | Uint8_literal v => in_vm (append_text v)
       | _ => ret tt
       end))
    (fun e => match e with
     | ThrownString msg =>
       in_vm (print ("***Error oblectamenta_assembler:" +:+ msg +:+ nl +:+ nl +:+ "Erroneous segment:"
                     +:+ nl +:+ show (Structdef "text" content) +:+ nl +:+ nl))
     | _ => throw e
     end).

Definition is_uint8 (e : node) : bool :=
  match e with Uint8_literal _ => true | _ => false end.

Definition fetch_text (fuel rounds : nat) (content : list node) : M asm_state unit :=
  let tot_size := length (filter (fun e => is_uint8 e = true) content) in
  let! size := in_vm (gets text_size) in
  do! (if Z.of_nat tot_size >? size then in_vm (resize_text tot_size) else ret tt) in
  fetch_text_loop fuel rounds content.

(** The registers of a new machine, overwritten by what the tree holds. *)
Definition fetch_register (e : node) (file : list Z) : M vm (list Z) :=
  match e with
  | Structdef nm (c :: _) =>
    match find_reg nm, c with
    | Some r, Int_literal v | Some r, Long_literal v => of_option (zinsert file r v)
    | _, _ => ret file
    end
  | _ => ret file
  end.

Definition fetch_registers {S} (content : list node) : M S (list Z) :=
  let! v := on_new_vm (let! f := gets file in
                       let! f := foldM content (fun f e => fetch_register e f) f in
                       modify (set_file f)) in
  ret (file v).

(** The parts are read into machines of their own and copied into the new machine;
    the text goes there directly, the registers are not read. *)
Definition fetch_part (fuel rounds : nat) (e : node) : M asm_state unit :=
  match e with
  | Structdef nm cs =>
    if bool_decide (nm = "stack") then
      let! part := on_new_vm (fetch_stack cs) in
      do! in_vm (copy_stack part) in ret tt
    else if bool_decide (nm = "data") then
      let! part := on_new_vm (fetch_data cs) in
      do! in_vm (copy_data part) in ret tt
    else if bool_decide (nm = "compute_stack") then
      let! part := on_new_vm (fetch_compute_stack cs) in
      do! in_vm (copy_compute_stack part) in ret tt
    else if bool_decide (nm = "text") then fetch_text fuel rounds cs
    else ret tt
  | _ => ret tt
  end.

Definition fetch_VMEnv (fuel rounds : nat) (content : list node) : M (list patch_entry) vm := fun ps =>
  match on_new_vm (ret tt) ps with
  | Ok r _ =>
    match forM content (fetch_part fuel rounds) (mkAsm r ps) with
    | Ok _ s => Ok (avm s) (patch_entries s)
    | Throw e s => Throw e (patch_entries s)
    | Undef => Undef
    | OutOfFuel => OutOfFuel
    end
  | Throw e _ => Throw e ps
  | Undef => Undef
  | OutOfFuel => OutOfFuel
  end.

(** ** A tree from a machine *)

Definition uint8_nodes (bs : list Z) : list node := map Uint8_literal bs.

Definition ast_rep_stack (v : vm) : option node :=
  sp ← zlookup (file v) SP;
  bs ← (if mem_size v - sp <=? 0 then Some [] else slice_get (mem v) sp (Z.to_nat (mem_size v - sp)));
  Some (Structdef "stack" (uint8_nodes bs)).

(** The labels at the front that point to [i], and the others. *)
Fixpoint labels_at (i : Z) (lbls : list (string * Z)) : list (string * Z) * list (string * Z) :=
  match lbls with
  | l :: lbls' =>
    if snd l =? i then let p := labels_at i lbls' in (l :: p.1, p.2) else ([], lbls)
  | [] => ([], [])
  end.

(** Bytes with the labels in front of the byte they point to; [lbls] is in ascending
    order. *)
Fixpoint data_nodes (lbls : list (string * Z)) (i : Z) (bs : list Z) : list node :=
  match bs with
  | [] => []
  | b :: bs' =>
    let p := labels_at i lbls in
    map (fun l => Symbol (fst l) "OblectamentaDataLabel") p.1
    ++ Uint8_literal b :: data_nodes p.2 (i + 1) bs'
  end.

(** [std::sort] by location. What it does with equal locations is not specified. *)
Context (sort_by_loc : list (string * Z) -> list (string * Z)).

Definition ast_rep_data (v : vm) : option node :=
  let lbls := sort_by_loc (reverse (merge_sort (fun a b => String.le (fst a) (fst b))
                                      (map_to_list (data_labels v)))) in
  bs ← slice_get (mem v) 0 (Z.to_nat (heap v));
  Some (Structdef "data" (data_nodes lbls 0 bs)).

Definition ast_rep_compute_stack (v : vm) : option node :=
  c ← zlookup (file v) CSP;
  bs ← (if c <? 0 then None else slice_get (compute_stack v) 0 (Z.to_nat c));
  Some (Structdef "compute_stack" (uint8_nodes bs)).

Definition ast_rep_text (v : vm) : option node :=
  bs ← slice_get (text v) 0 (Z.to_nat (text_loc v));
  Some (Structdef "text" (uint8_nodes bs)).

Definition ast_rep_registers (file : list Z) : option node :=
  cs ← mapM (fun r => (fun v => Structdef (fst r) [Long_literal v]) <$> zlookup file (snd r))
         reg_mnemonic2idx;
  Some (Structdef "registers" cs).

Definition ast_rep (v : vm) : option node :=
  stack ← ast_rep_stack v;
  data ← ast_rep_data v;
  text ← ast_rep_text v;
  cstack ← ast_rep_compute_stack v;
  regs ← ast_rep_registers (file v);
  Some (Structdef "vm" [stack; data; text; cstack; regs]).
End vm_ast.
