(* ===== verification/AsmSpec.v ===== *)
(** * AsmSpec: the assembler lays out its statements and resolves its labels

    A reference for the assembler: a list of items (labels, instructions, branches) is
    laid out from a position on, and the operand of a branch is found by looking back
    and then ahead in the list. The assembler reaches the same text in one pass with its
    list of open patches. *)

From S2P Require Import Prelude MachineInt F64 VMEnv VMOps VMTable VMInv VMCode Protobufish Ast.
From S2P Require Import AsmMacros Asm.

(** ** The reference *)

Inductive item :=
| Lbl (l : string)
| Ins (o : Op.Opcode) (a : emit_args)
| Br (o : Op.Opcode) (l : string).

Definition item_width (i : item) : Z :=
  match i with
  | Lbl _ => 0
  | Ins _ a => emitted_length (emitter_of a)
  | Br _ _ => emitted_length Imm
  end.

Fixpoint items_width (items : list item) : Z :=
  match items with [] => 0 | i :: items' => item_width i + items_width items' end.

(** Where [l] is defined first. *)
Fixpoint first_def (l : string) (p : Z) (items : list item) : option Z :=
  match items with
  | [] => None
  | Lbl l' :: items' => if bool_decide (l = l') then Some p else first_def l p items'
  | i :: items' => first_def l (p + item_width i) items'
  end.

(** The target of a branch to [l]: the last definition before it, which [env] holds, or
    the first one behind it, or 0. *)
Definition branch_target (env : gmap string Z) (l : string) (p : Z) (behind : list item) : Z :=
  match env !! l with Some t => t | None => default 0 (first_def l p behind) end.

Definition after_item (env : gmap string Z) (p : Z) (i : item) : gmap string Z :=
  match i with Lbl l => <[l := p]> env | _ => env end.

Definition item_bytes (env : gmap string Z) (p : Z) (i : item) (behind : list item) : list Z :=
  match i with
  | Lbl _ => []
  | Ins o a => instr_bytes o a
  | Br o l => instr_bytes o (AImm (branch_target env l (p + item_width i) behind))
  end.

Fixpoint code_of (env : gmap string Z) (p : Z) (items : list item) : list Z :=
  match items with
  | [] => []
  | i :: items' =>
    item_bytes env p i items' ++ code_of (after_item env p i) (p + item_width i) items'
  end.

(** The branches whose label is not defined anywhere: they stay open. *)
Fixpoint open_branches (env : gmap string Z) (p : Z) (items : list item) : list patch_entry :=
  match items with
  | [] => []
  | i :: items' =>
    let q := p + item_width i in
    match i with
    | Br _ l =>
      if bool_decide (env !! l = None) && bool_decide (first_def l q items' = None)
      then [mkPatch l q] else []
    | _ => []
    end ++ open_branches (after_item env p i) q items'
  end.

(** A label fits into an entry of the list of patches. *)
Definition label_ok (l : string) : Prop :=
  l <> "" /\ c_str l = l /\ (String.length l < id_size)%nat.

Definition item_ok (i : item) : Prop :=
  match i with Lbl l | Br _ l => label_ok l | Ins _ _ => True end.

Lemma item_width_nonneg i : 0 <= item_width i.
Proof. destruct i as [|? a|]; [done|destruct a|]; done. Qed.

Lemma items_width_nonneg items : 0 <= items_width items.
Proof. induction items as [|i items IH]; cbn; [done|]. pose proof (item_width_nonneg i). lia. Qed.

Lemma item_bytes_length env p i behind :
  Z.of_nat (length (item_bytes env p i behind)) = item_width i.
Proof. destruct i; cbn [item_bytes item_width]; [done|by rewrite instr_bytes_length..]. Qed.

Lemma code_of_length items : forall env p, Z.of_nat (length (code_of env p items)) = items_width items.
Proof.
  induction items as [|i items IH]; intros env p; cbn [code_of items_width]; [done|].
  by rewrite length_app, Nat2Z.inj_add, item_bytes_length, IH.
Qed.

(** ** Sites of open patches *)

Definition is_open (e : patch_entry) : Prop := pe_id e <> "".
#[global] Instance is_open_dec e : Decision (is_open e) := _.

Definition sites (ps : list patch_entry) : list patch_entry := filter is_open ps.

Definition apart (e e' : patch_entry) : Prop :=
  pe_text_loc e + 8 <= pe_text_loc e' \/ pe_text_loc e' + 8 <= pe_text_loc e.

(** Open sites lie below [p], do not overlap and have a label that fits. *)
Record sites_ok (p : Z) (ps : list patch_entry) : Prop := mkSitesOk {
  so_range : Forall (fun e => 8 <= pe_text_loc e <= p) (sites ps);
  so_apart : ForallOrdPairs apart (sites ps);
  so_label : Forall (fun e => (String.length (pe_id e) < id_size)%nat) ps
}.

Lemma sites_cons e ps : sites (e :: ps) = if bool_decide (is_open e) then e :: sites ps else sites ps.
Proof. unfold sites. rewrite filter_cons. by case_decide; case_bool_decide. Qed.

Lemma apart_sym e e' : apart e e' -> apart e' e.
Proof. unfold apart. lia. Qed.

Lemma pairs_perm l l' : l ≡ₚ l' -> ForallOrdPairs apart l -> ForallOrdPairs apart l'.
Proof.
  induction 1 as [|x l l' Hl IH|x y l|l1 l2 l3 H1 IH1 H2 IH2]; intros Hp.
  - done.
  - inversion Hp as [|?? Hx Hr]; subst. constructor; [|by apply IH]. by rewrite <- Hl.
  - inversion Hp as [|?? Hy Hr]; subst. inversion Hr as [|?? Hx Hr']; subst.
    inversion Hy; subst. constructor; [constructor; [by apply apart_sym|done]|by constructor].
  - by apply IH2, IH1.
Qed.

Lemma pairs_filter (P : patch_entry -> Prop) `{forall x, Decision (P x)} l :
  ForallOrdPairs apart l -> ForallOrdPairs apart (filter P l).
Proof.
  induction 1 as [|x l Hx Hl IH]; [constructor|]. rewrite filter_cons.
  case_decide; [|done]. constructor; [|done]. rewrite Forall_forall in *.
  intros y Hy. apply Hx. rewrite list_elem_of_filter in Hy. tauto.
Qed.

Lemma sites_put e ps : is_open e -> sites (put_entry e ps) ≡ₚ e :: sites ps.
Proof.
  intros He. induction ps as [|q ps IH]; cbn [put_entry].
  - by rewrite sites_cons, bool_decide_true.
  - rewrite (sites_cons q). case_bool_decide as Hq.
    + rewrite sites_cons, bool_decide_true by done.
      rewrite bool_decide_false by (intros Ho; by apply Ho). done.
    + rewrite sites_cons, !bool_decide_true by done. rewrite IH. apply Permutation_swap.
Qed.

Lemma put_entry_labels (P : patch_entry -> Prop) e ps :
  P e -> Forall P ps -> Forall P (put_entry e ps).
Proof.
  intros He. induction 1 as [|q ps Hq Hps IH]; cbn [put_entry]; [by constructor|].
  case_bool_decide; by repeat constructor.
Qed.

Lemma sites_ok_put p q l ps :
  sites_ok p ps -> label_ok l -> 0 <= p -> q = p + 12 ->
  sites_ok q (put_entry (mkPatch (id_of l) q) ps) /\ sites (put_entry (mkPatch (id_of l) q) ps) ≡ₚ mkPatch l q :: sites ps.
Proof.
  intros [Hr Ha Hl] (Hne & Hc & Hlen) Hp ->.
  assert (id_of l = l) as ->.
  { unfold id_of. rewrite Hc. revert Hlen. generalize id_size. clear.
    induction l as [|c l IH]; intros [|n] Hn; cbn in *; [done|done|lia|]. f_equal. apply IH. lia. }
  pose proof (sites_put (mkPatch l (p + 12)) ps Hne) as Hperm. split; [|done]. constructor.
  - rewrite Hperm. constructor; [cbn; lia|]. eapply Forall_impl; [exact Hr|]. cbn. lia.
  - eapply pairs_perm; [by symmetry|]. constructor; [|done].
    eapply Forall_impl; [exact Hr|]. unfold apart. cbn. lia.
  - by apply put_entry_labels.
Qed.

Lemma sites_free ps : Forall (fun e => pe_id e = "") ps -> sites ps = [].
Proof.
  induction 1 as [|e ps He Hps IH]; [done|]. rewrite sites_cons, bool_decide_false; [done|].
  by intros Ho.
Qed.

Lemma sites_ok_free p ps : Forall (fun e => pe_id e = "") ps -> sites_ok p ps.
Proof.
  intros Hf. constructor; rewrite ?sites_free by done; [constructor..|].
  eapply Forall_impl; [exact Hf|]. intros e ->. cbn. unfold id_size. lia.
Qed.

Lemma sites_ok_mono p q ps : sites_ok p ps -> p <= q -> sites_ok q ps.
Proof. intros [Hr Ha Hl] Hpq. constructor; [|done..]. eapply Forall_impl; [exact Hr|]. cbn. lia. Qed.

(** ** Text outside the open sites *)

(** [[b, b+n)] overlaps no open site. *)
Definition clear_of (ps : list patch_entry) (b : Z) (n : nat) : Prop :=
  Forall (fun e => b + Z.of_nat n <= pe_text_loc e - 8 \/ pe_text_loc e <= b) (sites ps).

Definition site_bytes (t : list Z) (e : patch_entry) : option (list Z) :=
  slice_get t (pe_text_loc e - 8) 8.

(** ** Resolving a label *)

Lemma id_equals_short id lbl : (String.length id < id_size)%nat -> c_str lbl = lbl ->
  id_equals id lbl = Some (bool_decide (id = lbl)).
Proof.
  intros Hl Hc. unfold id_equals. rewrite (proj2 (Nat.ltb_lt _ _) Hl). by rewrite Hc.
Qed.

(** The sites of [l] get [loc], nothing else changes. *)
Record resolved (l : string) (loc : Z) (ps : list patch_entry) (t : list Z)
    (ps' : list patch_entry) (t' : list Z) : Prop := mkResolved {
  rs_sites : sites ps' = filter (fun e => pe_id e <> l) (sites ps);
  rs_labels : Forall (fun e => (String.length (pe_id e) < id_size)%nat) ps';
  rs_length : length t' = length t;
  rs_patched e : e ∈ sites ps -> pe_id e = l -> site_bytes t' e = Some (encode U64 loc);
  rs_other b n : clear_of (filter (fun e => pe_id e = l) (sites ps)) b n ->
                 slice_get t' b n = slice_get t b n
}.

Lemma sites_filter (P : patch_entry -> Prop) `{forall x, Decision (P x)} ps :
  sites (filter P (sites ps)) = filter P (sites ps).
Proof.
  unfold sites. induction ps as [|e ps IH]; [done|]. rewrite filter_cons. case_decide as Ho; [|done].
  rewrite !filter_cons. case_decide; [|done]. rewrite filter_cons, decide_True by done. by f_equal.
Qed.

Lemma resolve_runs l loc ps v t :
  label_ok l -> text v = t ->
  ForallOrdPairs apart (sites ps) ->
  Forall (fun e => 8 <= pe_text_loc e <= Z.of_nat (length t)) (sites ps) ->
  Forall (fun e => (String.length (pe_id e) < id_size)%nat) ps ->
  exists ps' t', resolve l loc ps v = Ok ps' (set_text t' v) /\ resolved l loc ps t ps' t'.
Proof.
  intros (Hne & Hc & Hll). revert v t. induction ps as [|e ps IH]; intros v t Ht Ha Hr Hl.
  - exists [], t. cbn. split; [unfold ret; rewrite <- Ht; by destruct v|].
    constructor; [done|done|done|by intros e He%elem_of_nil|done].
  - inversion Hl as [|?? Hle Hl']; subst. cbn [resolve].
    unfold bind at 1. rewrite (id_equals_short _ _ Hle Hc). cbn [of_option]. unfold ret at 1.
    rewrite sites_cons in Ha, Hr.
    destruct (decide (pe_id e = l)) as [Heq|Heq];
      [rewrite (bool_decide_true (pe_id e = l)) by done|rewrite (bool_decide_false (pe_id e = l)) by done].
    + assert (Ho : is_open e) by (unfold is_open; by rewrite Heq).
      rewrite bool_decide_true in Ha, Hr by done.
      inversion Ha as [|?? Hae Ha']; subst. inversion Hr as [|?? Hre Hr']; subst.
      destruct (slice_set (text v) (pe_text_loc e - 8) (encode U64 loc)) as [t1|] eqn:E1.
      2:{ exfalso. rewrite slice_set_Some in E1 by (rewrite ?encode_length; cbn; lia). done. }
      pose proof (slice_set_length _ _ _ _ E1) as HL.
      destruct (IH (set_text t1 v) t1) as (ps' & t' & He & Hs); [done|done|by rewrite HL|done|].
      destruct Hs as [Hs1 Hs2 Hs3 Hs4 Hs5].
      exists (mkPatch "" (pe_text_loc e) :: ps'), t'. split.
      * unfold patch, addr_width, bind. rewrite text_wr_spec, E1. unfold ret. rewrite He. done.
      * constructor.
        { rewrite !sites_cons, bool_decide_false, bool_decide_true; [|done|].
          - rewrite filter_cons, decide_False by tauto. done.
          - intros Hx. by apply Hx. }
        { constructor; [cbn; unfold id_size; lia|done]. }
        { lia. }
        { intros e' He' Hid. rewrite sites_cons, bool_decide_true in He' by done.
          apply elem_of_cons in He' as [->|He']; [|by apply Hs4].
          unfold site_bytes. rewrite Hs5.
          - pose proof (slice_get_set_same _ _ _ _ E1) as Hg. by rewrite encode_length in Hg.
          - unfold clear_of. rewrite sites_filter. rewrite Forall_forall. intros x Hx.
            rewrite list_elem_of_filter in Hx. rewrite Forall_forall in Hae.
            specialize (Hae x ltac:(tauto)). unfold apart in Hae. lia. }
        { intros b n Hclear. rewrite sites_cons, bool_decide_true in Hclear by done.
          rewrite filter_cons, decide_True in Hclear by done. unfold clear_of in Hclear.
          rewrite sites_cons, bool_decide_true in Hclear by done.
          inversion Hclear as [|?? Hc1 Hc2]; subst. rewrite Hs5 by done.
          eapply slice_get_set_other; [exact E1|]. rewrite encode_length. cbn. lia. }
    + assert (Ha' : ForallOrdPairs apart (sites ps)) by (case_bool_decide; [by inversion Ha|done]).
      assert (Hr' : Forall (fun e => 8 <= pe_text_loc e <= Z.of_nat (length (text v))) (sites ps))
        by (case_bool_decide; [by inversion Hr|done]).
      destruct (IH v (text v)) as (ps' & t' & He & [Hs1 Hs2 Hs3 Hs4 Hs5]); [done..|].
      exists (e :: ps'), t'. split.
      * unfold bind, ret. by rewrite He.
      * constructor.
        { rewrite !sites_cons. case_bool_decide; [|done].
          rewrite filter_cons, decide_True by done. by f_equal. }
        { by constructor. }
        { done. }
        { intros e' He' Hid. apply Hs4; [|done]. rewrite sites_cons in He'.
          case_bool_decide; [|done]. apply elem_of_cons in He' as [->|He']; [done|done]. }
        { intros b n Hclear. apply Hs5. rewrite sites_cons in Hclear.
          case_bool_decide; [|done]. by rewrite filter_cons, decide_False in Hclear by done. }
Qed.

(** ** What a statement means *)

#[local] Arguments find_mnemonic : simpl never.
#[local] Arguments String.append : simpl never.

Section meaning.
Context `{Target} `{!Ceps}.
Context (ev_to_id : gmap string Z) (dl : gmap string Z).

(** The instruction of a mnemonic that takes these arguments. *)
Definition ins_of (name : string) (args : emit_args) : option item :=
  m ← find_mnemonic name;
  if has_emitter m (emitter_of_args args) then Some (Ins (mn_opcode m) args) else None.

(** An opcode with arguments, apart from string literals and external functions. *)
Definition item_of_args (name : string) (args : list node) : option item :=
  match is_register_offset_expression args with
  | Some (reg, offs) => ins_of (name +:+ "reg") (ARegOfs reg offs)
  | None =>
    match args with
    | [Int_literal v] => ins_of (name +:+ "imm") (AImm v)
    | [Float_literal v] => ins_of (name +:+ "imm") (ADbl v)
    | [Symbol s k] =>
      if bool_decide (k = "OblectamentaDataLabel") then
        loc ← dl !! s;
        match find_mnemonic name with
        | Some _ => ins_of name (AImm loc)
        | None => ins_of (name +:+ "@OblectamentaDataLabel@") (AImm loc)
        end
      else if bool_decide (k = "OblectamentaCodeLabel") then
        m ← find_mnemonic name;
        if has_emitter m Imm then Some (Br (mn_opcode m) s) else None
      else None
    | _ => None
    end
  end.

Definition item_of (e : node) : option item :=
  match e with
  | Symbol nm k =>
    if bool_decide (k = "OblectamentaCodeLabel") then Some (Lbl nm)
    else if bool_decide (k = "OblectamentaOpcode") then ins_of nm ANone
    else if bool_decide (k = "Event") then ev ← ev_to_id !! nm; ins_of "msg" (AImm ev)
    else None
  | Scope _ | Structdef _ _ => None
  | _ =>
    match is_a_symbol_with_arguments e with
    | Some (nm, k, args) => if bool_decide (k = "OblectamentaOpcode") then item_of_args nm args else None
    | None => None
    end
  end.

Definition emit_op (o : Op.Opcode) (args : emit_args) : M vm unit :=
  let! pos := gets text_loc in
  let! pos' := emit o args pos in
  modify (set_text_loc pos').

(** The effect of an item on the state and the labels. *)
Definition item_step (env : gmap string Z) (i : item) : M asm_state unit :=
  match i with
  | Lbl l => let! loc := in_vm (gets text_loc) in resolve_label l loc
  | Ins o args => in_vm (emit_op o args)
  | Br o l =>
    do! in_vm (emit_op o (AImm (default 0 (env !! l)))) in
    if bool_decide (env !! l = None) then let! q := in_vm (gets text_loc) in add_patch l q else ret tt
  end.

Lemma ins_of_inv name args i : ins_of name args = Some i ->
  exists m, find_mnemonic name = Some m /\ has_emitter m (emitter_of_args args) = true /\
            i = Ins (mn_opcode m) args.
Proof.
  unfold ins_of. destruct (find_mnemonic name) as [m|] eqn:Em; [|done]. cbn.
  destruct (has_emitter _ _) eqn:Eh; [|done]. intros [= <-]. eauto.
Qed.

Lemma ins_of_fail name name' args i : ins_of name args = Some i ->
  exists o, i = Ins o args /\
    forall v, (let! m := lookup_mnemonic name in emit_or_fail name' m args) v = emit_op o args v.
Proof.
  intros (m & Hm & Hh & ->)%ins_of_inv. exists (mn_opcode m). split; [done|]. intros v.
  unfold lookup_mnemonic. rewrite Hm. unfold bind at 1, ret. unfold emit_or_fail. by rewrite Hh.
Qed.

Lemma ins_of_ignore name args i : ins_of name args = Some i ->
  exists o m, i = Ins o args /\ find_mnemonic name = Some m /\ forall v, emit_or_ignore m args v = emit_op o args v.
Proof.
  intros (m & Hm & Hh & ->)%ins_of_inv. exists (mn_opcode m), m. split; [done|]. split; [done|]. intros v.
  unfold emit_or_ignore. by rewrite Hh.
Qed.

Lemma in_vm_ext {A} (m m' : M vm A) s : m (avm s) = m' (avm s) -> in_vm m s = in_vm m' s.
Proof. unfold in_vm, zoom. by intros ->. Qed.

Lemma bind_ext {S A B} (m m' : M S A) (k : A -> M S B) s : m s = m' s -> bind m k s = bind m' k s.
Proof. unfold bind. by intros ->. Qed.

(** An opcode with arguments acts like its item. *)
Lemma asm_opcode_step env e nm args i s :
  item_of_args nm args = Some i -> data_labels (avm s) = dl ->
  asm_opcode env e nm args s = item_step env i s /\ forall p, after_item env p i = env.
Proof.
  unfold item_of_args, asm_opcode. intros Hi Hdl.
  destruct (is_register_offset_expression args) as [[reg offs]|] eqn:Er.
  { apply ins_of_ignore in Hi as (o & m & -> & Hm & He). split; [|done].
    apply in_vm_ext. unfold asm_reg. rewrite Hm. apply He. }
  destruct args as [|a [|b args]]; [done| |by destruct a].
  destruct a as [v|v| |s0 k| | | | | | | | |]; try done.
  3: {
    clear Er. unfold is_symbol_of_kind, symbol_kind.
    destruct (decide (k = "OblectamentaDataLabel")) as [->|Hd].
    + rewrite bool_decide_true in Hi by done. cbn [bool_decide decide_rel].
      rewrite bool_decide_true by done.
      destruct (dl !! s0) as [loc|] eqn:El; [|done]. cbn in Hi.
      assert (Hd : forall k, (let! loc := data_label_loc s0 in k loc) (avm s) = k loc (avm s) :> outcome vm unit).
      { intros k0. unfold data_label_loc, bind, gets. by rewrite Hdl, El. }
      unfold asm_data_label. destruct (find_mnemonic nm) as [m|] eqn:Em.
      * apply ins_of_inv in Hi as (m' & Hm' & Hh & ->). rewrite Em in Hm'. injection Hm' as <-.
        split; [|done]. apply in_vm_ext. rewrite Hd. unfold emit_or_fail. by rewrite Hh.
      * apply ins_of_fail with (name' := nm +:+ "@OblectamentaDataLabel@") in Hi as (o & -> & He).
        split; [|done]. apply in_vm_ext. rewrite Hd. apply He.
    + rewrite bool_decide_false in Hi by done. rewrite (bool_decide_false (Some k = _)) by congruence.
      destruct (decide (k = "OblectamentaCodeLabel")) as [->|Hc].
      * rewrite bool_decide_true in Hi by done. rewrite bool_decide_true by done.
        destruct (find_mnemonic nm) as [m|] eqn:Em; [|done]. cbn in Hi.
        destruct (has_emitter m Imm) eqn:Eh; [|done]. injection Hi as <-. split; [|done].
        unfold asm_code_label, item_step. apply bind_ext, in_vm_ext.
        unfold lookup_mnemonic. rewrite Em. unfold bind at 1, ret. unfold emit_or_fail. cbn [emitter_of_args]. by rewrite Eh.
      * by rewrite bool_decide_false in Hi by done. }
  - apply ins_of_fail with (name' := nm) in Hi as (o & -> & He). split; [|done]. apply in_vm_ext, He.
  - apply ins_of_fail with (name' := nm) in Hi as (o & -> & He). split; [|done]. apply in_vm_ext, He.
Qed.
End meaning.

(** ** What the text must look like *)

Definition defined_in (p : Z) (items : list item) (e : patch_entry) : Prop :=
  is_Some (first_def (pe_id e) p items).
#[global] Instance defined_in_dec p items e : Decision (defined_in p items e) := _.

(** [items] laid out at [p] on top of the text [t] with the open sites of [ps]. *)
Record laid_out (env : gmap string Z) (p : Z) (items : list item) (ps : list patch_entry)
    (t : list Z) (ps' : list patch_entry) (t' : list Z) : Prop := mkLaidOut {
  lo_length : length t' = length t;
  lo_sites_ok : sites_ok (p + items_width items) ps';
  lo_code : slice_get t' p (length (code_of env p items)) = Some (code_of env p items);
  lo_patched e a : e ∈ sites ps -> first_def (pe_id e) p items = Some a ->
    site_bytes t' e = Some (encode U64 a);
  lo_other b n : b + Z.of_nat n <= p \/ p + items_width items <= b ->
    clear_of (filter (defined_in p items) (sites ps)) b n -> slice_get t' b n = slice_get t b n;
  lo_sites : sites ps' ≡ₚ filter (fun e => ~ defined_in p items e) (sites ps) ++ open_branches env p items
}.

Lemma clear_of_filter (P : patch_entry -> Prop) `{forall x, Decision (P x)} ps b n :
  clear_of (filter P (sites ps)) b n <->
  forall e, e ∈ sites ps -> P e -> b + Z.of_nat n <= pe_text_loc e - 8 \/ pe_text_loc e <= b.
Proof.
  unfold clear_of. rewrite sites_filter, Forall_forall.
  split; intros Hc e.
  - intros He HP. apply Hc. by rewrite list_elem_of_filter.
  - rewrite list_elem_of_filter. intros [HP He]. by apply Hc.
Qed.

Lemma pairs_apart l e e' : ForallOrdPairs apart l -> e ∈ l -> e' ∈ l -> e <> e' -> apart e e'.
Proof.
  induction 1 as [|x l Hx Hl IH]; [by intros ?%elem_of_nil|]. rewrite Forall_forall in Hx.
  rewrite !elem_of_cons. intros [->|He] [->|He'] Hne; [done|by apply Hx|by apply apart_sym, Hx|by apply IH].
Qed.

(** Every site of a resolved entry lies below [p]. *)
Lemma clear_above p ps b n (P : patch_entry -> Prop) `{forall x, Decision (P x)} :
  sites_ok p ps -> p <= b -> clear_of (filter P (sites ps)) b n.
Proof.
  intros [Hr _ _] Hb. apply clear_of_filter. intros e He _.
  rewrite Forall_forall in Hr. specialize (Hr e He). cbn in Hr. lia.
Qed.

Lemma defined_after p i items e : first_def (pe_id e) p (i :: items) =
  match i with
  | Lbl l => if bool_decide (pe_id e = l) then Some p else first_def (pe_id e) (p + item_width i) items
  | _ => first_def (pe_id e) (p + item_width i) items
  end.
Proof. destruct i; cbn; [|done..]. case_bool_decide; [done|]. by rewrite Z.add_0_r. Qed.

Lemma filter_iff {A} (P Q : A -> Prop) `{forall x, Decision (P x)} `{forall x, Decision (Q x)} (l : list A) :
  (forall x, x ∈ l -> P x <-> Q x) -> filter P l ≡ₚ filter Q l.
Proof.
  intros Hpq. apply reflexive_eq. revert Hpq.
  induction l as [|x l IH]; intros Hpq; [done|]. rewrite !filter_cons.
  pose proof (Hpq x ltac:(set_solver)). rewrite IH by (intros; apply Hpq; set_solver).
  case_decide; case_decide; tauto || done.
Qed.

(** *** A label *)

Lemma laid_out_label env p l items ps t ps1 t1 ps' t' :
  sites_ok p ps -> resolved l p ps t ps1 t1 ->
  laid_out (<[l := p]> env) p items ps1 t1 ps' t' ->
  laid_out env p (Lbl l :: items) ps t ps' t'.
Proof.
  intros Hok [Rs _ Rl Rp Ro] [L1 L2 L3 L4 L5 L6]. pose proof (so_range _ _ Hok) as Hrange.
  rewrite Forall_forall in Hrange.
  assert (Hd : forall e, defined_in p (Lbl l :: items) e <-> pe_id e = l \/ defined_in p items e).
  { intros e. unfold defined_in. rewrite defined_after. cbn [item_width]. rewrite Z.add_0_r.
    case_bool_decide; naive_solver. }
  constructor; cbn [items_width item_width code_of item_bytes after_item app open_branches].
  - lia.
  - by rewrite Z.add_0_l.
  - by rewrite Z.add_0_r.
  - intros e a He Ha. rewrite defined_after in Ha. cbn [item_width] in Ha. rewrite Z.add_0_r in Ha.
    specialize (Hrange e He). cbn in Hrange.
    case_bool_decide as Hid.
    + injection Ha as <-. rewrite <- (Rp e He Hid). apply L5; [left; lia|].
      apply clear_of_filter. intros e' He' _. rewrite Rs, list_elem_of_filter in He'.
      destruct He' as [Hn He']. pose proof (pairs_apart _ e e' (so_apart _ _ Hok) He He' ltac:(naive_solver)) as Hap.
      unfold apart in Hap. lia.
    + apply L4; [|done]. rewrite Rs, list_elem_of_filter. done.
  - intros b n Hb Hc. rewrite clear_of_filter in Hc. rewrite L5, Ro; [done|..].
    + apply clear_of_filter. intros e He Hid. apply Hc; [done|]. apply Hd. by left.
    + lia.
    + apply clear_of_filter. intros e He Hdef. rewrite Rs, list_elem_of_filter in He.
      apply Hc; [tauto|]. apply Hd. by right.
  - rewrite L6, Rs, list_filter_filter, Z.add_0_r. f_equiv. apply filter_iff.
    intros e He. rewrite Hd. tauto.
Qed.

(** *** Bytes *)

Lemma laid_out_bytes env p i items ps t t1 ps' t' bs :
  sites_ok p ps -> (forall l, i <> Lbl l) ->
  Z.of_nat (length bs) = item_width i -> bs = item_bytes env p i items ->
  slice_set t p bs = Some t1 ->
  open_branches env p (i :: items) = open_branches env (p + item_width i) items ->
  laid_out env (p + item_width i) items ps t1 ps' t' ->
  laid_out env p (i :: items) ps t ps' t'.
Proof.
  intros Hok Hi Hlen Hbs Hset Hop [L1 L2 L3 L4 L5 L6].
  pose proof (slice_set_length _ _ _ _ Hset) as HL. pose proof (item_width_nonneg i) as Hw.
  pose proof (items_width_nonneg items) as Hws. pose proof (so_range _ _ Hok) as Hr.
  rewrite Forall_forall in Hr.
  assert (Hd : forall e, first_def (pe_id e) p (i :: items) = first_def (pe_id e) (p + item_width i) items).
  { intros e. rewrite defined_after. by destruct i as [l| |]; [destruct (Hi l)|..]. }
  assert (Ha : after_item env p i = env) by (by destruct i as [l| |]; [destruct (Hi l)|..]).
  assert (Hdd : forall e, defined_in p (i :: items) e <-> defined_in (p + item_width i) items e).
  { intros e. unfold defined_in. by rewrite Hd. }
  constructor; cbn [items_width].
  - lia.
  - by rewrite Z.add_assoc.
  - cbn [code_of]. rewrite Ha, <- Hbs. set (rest := code_of _ _ _) in *.
    rewrite length_app. replace p with (p + 0) at 1 by lia.
    assert (Hfirst : slice_get t' p (length bs) = Some bs).
    { rewrite L5; [by apply slice_get_set_same in Hset|left; lia|].
      apply clear_of_filter. intros e He Hdef. specialize (Hr e He). cbn in Hr. lia. }
    rewrite Z.add_0_r. apply slice_get_join; [done|]. by rewrite Hlen.
  - intros e a He Ha'. rewrite Hd in Ha'. by apply L4.
  - intros b n Hb Hc. rewrite L5.
    + eapply slice_get_set_other; [exact Hset|]. lia.
    + lia.
    + rewrite clear_of_filter in *. intros e He Hdef. apply Hc; [done|]. by apply Hdd.
  - rewrite L6, Hop. f_equiv. apply filter_iff. intros e _. by rewrite Hdd.
Qed.

(** *** A branch to a label that is not known yet *)

Lemma instr_bytes_imm o z : instr_bytes o (AImm z) = encode U32 (opcode_num o) ++ encode U64 z.
Proof. done. Qed.

Lemma laid_out_branch env p o l items ps t t1 ps1 ps' t' :
  sites_ok p ps -> 0 <= p -> env !! l = None ->
  slice_set t p (instr_bytes o (AImm 0)) = Some t1 ->
  sites_ok (p + 12) ps1 -> sites ps1 ≡ₚ mkPatch l (p + 12) :: sites ps ->
  laid_out env (p + 12) items ps1 t1 ps' t' ->
  laid_out env p (Br o l :: items) ps t ps' t'.
Proof.
  intros Hok Hp Hl Hset Hok1 Hperm [L1 L2 L3 L4 L5 L6].
  pose proof (slice_set_length _ _ _ _ Hset) as HL. pose proof (items_width_nonneg items) as Hws.
  pose proof (so_range _ _ Hok) as Hr. rewrite Forall_forall in Hr.
  set (e0 := mkPatch l (p + 12)) in *.
  assert (Hin : forall e, e ∈ sites ps1 <-> e = e0 \/ e ∈ sites ps) by (intros e; by rewrite Hperm, elem_of_cons).
  assert (Hdd : forall e, defined_in p (Br o l :: items) e <-> defined_in (p + 12) items e) by done.
  assert (Hop : slice_get t1 p 4 = Some (encode U32 (opcode_num o)) /\
                slice_get t1 (p + 4) 8 = Some (encode U64 0)).
  { apply slice_get_set_same in Hset. rewrite instr_bytes_imm, length_app, !encode_length in Hset. split.
    - erewrite slice_get_prefix; [|exact Hset|cbn; lia]. by f_equal.
    - change (p + 4) with (p + Z.of_nat 4). erewrite (slice_get_suffix t1 p 4 8); [|exact Hset]. by f_equal. }
  destruct Hop as [Hop1 Hop2].
  assert (Hfirst : slice_get t' p 12 =
            Some (instr_bytes o (AImm (branch_target env l (p + 12) items)))).
  { rewrite instr_bytes_imm.
    replace 12%nat with (length (encode U32 (opcode_num o)) + 8)%nat by (by rewrite encode_length).
    apply slice_get_join; rewrite encode_length.
    - rewrite L5; [done|left; cbn; lia|]. apply clear_of_filter. intros e He _.
      apply Hin in He as [->|He]; [cbn; lia|]. specialize (Hr e He). cbn in Hr |- *. lia.
    - unfold branch_target. rewrite Hl. change (p + Z.of_nat (sizeof U32)) with (p + 4).
      assert (He0 : pe_text_loc e0 - 8 = p + 4) by (cbn; lia).
      destruct (first_def l (p + 12) items) as [a|] eqn:Ef; cbn [default].
      + rewrite <- He0. apply L4; [|done]. apply Hin. by left.
      + rewrite L5; [done|left; lia|]. apply clear_of_filter. intros e He Hdef.
        apply Hin in He as [->|He].
        * unfold defined_in in Hdef. cbn in Hdef. rewrite Ef in Hdef. by destruct Hdef.
        * specialize (Hr e He). cbn in Hr. lia. }
  constructor; cbn [items_width item_width emitted_length].
  - lia.
  - by rewrite Z.add_assoc.
  - cbn [code_of item_bytes after_item item_width emitted_length]. set (rest := code_of _ _ _) in *.
    rewrite length_app.
    assert (H12 : forall z, length (instr_bytes o (AImm z)) = 12%nat)
      by (intros z; by rewrite instr_bytes_imm, length_app, !encode_length).
    apply slice_get_join; rewrite H12; [exact Hfirst|exact L3].
  - intros e a He Ha. apply L4; [apply Hin; by right|done].
  - intros b n Hb Hc. rewrite L5.
    + eapply slice_get_set_other; [exact Hset|]. rewrite instr_bytes_imm, length_app, !encode_length.
      cbn. lia.
    + lia.
    + rewrite clear_of_filter in *. intros e He Hdef. apply Hin in He as [->|He].
      * cbn. lia.
      * apply Hc; [done|]. by apply Hdd.
  - rewrite L6, Hperm. cbn [open_branches after_item item_width emitted_length].
    rewrite Hl, (bool_decide_true (None = None)) by done. cbn [andb].
    rewrite filter_cons.
    assert (Hf : filter (fun e => ~ defined_in (p + 12) items e) (sites ps)
                 ≡ₚ filter (fun e => ~ defined_in p (Br o l :: items) e) (sites ps)) by done.
    destruct (decide (defined_in (p + 12) items e0)) as [Hd|Hd].
    + rewrite decide_False by tauto. rewrite bool_decide_false by (intros Hn; destruct Hd as [? Hd]; cbn in Hd; congruence).
      by rewrite Hf.
    + rewrite decide_True by done. rewrite bool_decide_true.
      2:{ destruct (first_def l (p + 12) items) eqn:E; [|done]. destruct Hd. by eexists. }
      rewrite Hf. cbn [app]. apply Permutation_middle.
Qed.

(** ** One pass *)

Definition at_text (v : vm) (t : list Z) (q : Z) : vm := set_text_loc q (set_text t v).

Lemma laid_out_nil env p ps t :
  0 <= p <= Z.of_nat (length t) -> sites_ok p ps -> laid_out env p [] ps t ps t.
Proof.
  intros Hp Hok. constructor; cbn [items_width code_of first_def open_branches].
  - done.
  - by rewrite Z.add_0_r.
  - by rewrite slice_get_Some by (cbn; lia).
  - done.
  - done.
  - rewrite app_nil_r. induction (sites ps) as [|e l IH]; [done|].
    rewrite filter_cons, decide_True by (by intros []). by rewrite <- IH.
Qed.

Lemma emit_op_runs o a v : 0 <= text_loc v ->
  text_loc v + emitted_length (emitter_of a) <= Z.of_nat (length (text v)) ->
  exists t1, slice_set (text v) (text_loc v) (instr_bytes o a) = Some t1 /\
    emit_op o a v = Ok tt (at_text v t1 (text_loc v + emitted_length (emitter_of a))).
Proof.
  intros Hp Hroom.
  destruct (slice_set (text v) (text_loc v) (instr_bytes o a)) as [t1|] eqn:E.
  2:{ by rewrite slice_set_Some in E by (rewrite ?instr_bytes_length; lia). }
  exists t1. split; [done|]. unfold emit_op, bind, gets. by rewrite emit_spec, E.
Qed.

(** What one item contributes. *)
Lemma item_step_runs env i v ps :
  item_ok i -> sites_ok (text_loc v) ps -> 0 <= text_loc v ->
  text_loc v + item_width i <= Z.of_nat (length (text v)) ->
  exists t1 ps1,
    item_step env i (mkAsm v ps) = Ok tt (mkAsm (at_text v t1 (text_loc v + item_width i)) ps1) /\
    length t1 = length (text v) /\ sites_ok (text_loc v + item_width i) ps1 /\
    forall items ps' t',
      laid_out (after_item env (text_loc v) i) (text_loc v + item_width i) items ps1 t1 ps' t' ->
      laid_out env (text_loc v) (i :: items) ps (text v) ps' t'.
Proof.
  intros Hi Hok Hp Hroom. destruct i as [l|o a|o l]; cbn [item_width item_ok] in *.
  - pose proof Hok as [Hr Ha Hl].
    destruct (resolve_runs l (text_loc v) ps v (text v)) as (ps1 & t1 & Hrun & Hres); [done..| |done|].
    { eapply Forall_impl; [exact Hr|]. cbn. lia. }
    exists t1, ps1. rewrite Z.add_0_r. split; [|split; [apply Hres|split]].
    + unfold item_step, resolve_label, in_vm, zoom, bind, gets, modify. cbn. by rewrite Hrun.
    + destruct Hres as [Rs Rl _ _ _]. constructor; [| |done]; rewrite Rs.
      * rewrite Forall_forall in *. intros e He. apply Hr. rewrite list_elem_of_filter in He. tauto.
      * by apply pairs_filter.
    + intros items ps' t' Hlo. by eapply laid_out_label.
  - destruct (emit_op_runs o a v Hp Hroom) as (t1 & Hset & Hrun).
    exists t1, ps. split; [|split; [by eapply slice_set_length|split]].
    + unfold item_step, in_vm, zoom. cbn [avm]. by rewrite Hrun.
    + eapply sites_ok_mono; [done|]. by destruct a; cbn; lia.
    + intros items ps' t' Hlo. eapply laid_out_bytes; [done|done|apply instr_bytes_length|done..].
  - destruct (emit_op_runs o (AImm (default 0 (env !! l))) v Hp Hroom) as (t1 & Hset & Hrun).
    pose proof (slice_set_length _ _ _ _ Hset) as HL. destruct (env !! l) as [t0|] eqn:El.
    + exists t1, ps. split; [|split; [done|split]].
      * unfold item_step, in_vm, zoom. rewrite El. unfold bind. cbn [avm].
        rewrite Hrun. by rewrite (bool_decide_false (Some t0 = None)).
      * eapply sites_ok_mono; [done|]. cbn. lia.
      * intros items ps' t' Hlo. eapply (laid_out_bytes _ _ (Br o l)); [done|done|apply (instr_bytes_length o (AImm t0))| |done| |done].
        { cbn [item_bytes]. unfold branch_target. by rewrite El. }
        { cbn [open_branches]. rewrite El. by rewrite (bool_decide_false (Some t0 = None)). }
    + destruct (sites_ok_put (text_loc v) (text_loc v + 12) l ps Hok Hi Hp eq_refl) as [Hok1 Hperm].
      exists t1, (put_entry (mkPatch (id_of l) (text_loc v + 12)) ps). split; [|split; [done|split; [done|]]].
      * unfold item_step, in_vm, zoom. rewrite El. unfold bind. cbn [avm]. by rewrite Hrun.
      * intros items ps' t' Hlo. by eapply laid_out_branch.
Qed.

Section assembler.
Context `{Target} `{!Ceps}.
Context (ev_to_id : gmap string Z).

(** A statement acts like its item; nothing is inserted behind it. *)
Lemma asm_statement_step assemble l pos e i s :
  item_of ev_to_id (data_labels (avm s)) e = Some i ->
  asm_statement ev_to_id assemble l pos e s =
  (do! item_step (codelabel2loc l) i in
   Prelude.ret (mkLocals (after_item (codelabel2loc l) (text_loc (avm s)) i) (pending_msg l), [])) s.
Proof.
  intros Hi. destruct l as [env pend]; cbn [codelabel2loc pending_msg]. set (l := mkLocals env pend).
  assert (Hargs : forall nm k args, is_a_symbol_with_arguments e = Some (nm, k, args) ->
    (if bool_decide (k = "OblectamentaOpcode") then item_of_args (data_labels (avm s)) nm args else None) = Some i ->
    asm_with_arguments ev_to_id l pos e s =
    (do! item_step env i in
     Prelude.ret (mkLocals (after_item env (text_loc (avm s)) i) pend, [])) s).
  { intros nm k args Hs Hk. unfold asm_with_arguments. rewrite Hs.
    destruct (decide (k = "OblectamentaOpcode")) as [->|Hn]; [|by rewrite bool_decide_false in Hk by done].
    rewrite bool_decide_true in Hk by done.
    rewrite (bool_decide_false (_ = "Event")), (bool_decide_true (_ = "OblectamentaOpcode")) by done.
    destruct (asm_opcode_step (data_labels (avm s)) env e nm args i s Hk eq_refl) as [Hstep Hafter].
    rewrite (bind_ext _ _ _ _ Hstep). unfold bind. destruct (item_step _ _ _); [|done..].
    by rewrite Hafter. }
  destruct e as [v|v|st|nm k|nm|op a b|op as_|parts|nm cs|cs|v|v|k cs]; cbn [item_of] in Hi; try done.
  4: { case_bool_decide as Hl.
       { injection Hi as <-. cbn [asm_statement]. by rewrite (bool_decide_true (k = _)) by done. }
       cbn [asm_statement]. rewrite (bool_decide_false (k = "OblectamentaCodeLabel")) by done.
       case_bool_decide as Ho.
       { apply ins_of_ignore in Hi as (o & m & -> & Hm & He).
         unfold item_step. apply bind_ext, in_vm_ext. unfold lookup_mnemonic. rewrite Hm. apply He. }
       case_bool_decide as Hev; [|done].
       destruct (ev_to_id !! nm) as [ev|] eqn:Eev; [|done]. cbn in Hi.
       apply ins_of_ignore in Hi as (o & m & -> & Hm & He).
       unfold item_step. apply bind_ext, in_vm_ext. unfold asm_event, find_internal, event_id.
       rewrite Hm, Eev. apply He. }
  all: cbn [asm_statement];
    match goal with |- asm_with_arguments _ _ _ ?e _ = _ =>
      destruct (is_a_symbol_with_arguments e) as [[[nm' k'] args]|] eqn:Es; [|done] end;
    by eapply Hargs.
Qed.

Lemma make_room_enough v : 0 <= text_loc v -> text_loc v + 160 < text_size v < 2 ^ 63 ->
  make_room v = Ok tt v.
Proof.
  intros Hp Hs. unfold make_room, bind, get, max_opcode_width.
  rewrite to_u_id by lia. by rewrite (proj2 (Z.leb_gt _ _)) by lia.
Qed.

(** The loop over the statements, from any state of its locals. *)
Lemma asm_loop_lays_out assemble rounds ms : forall items env stmt_pos v ps,
  Forall2 (fun m i => item_of ev_to_id (data_labels v) m = Some i) ms items ->
  Forall item_ok items -> (length ms <= rounds)%nat ->
  sites_ok (text_loc v) ps -> 0 <= text_loc v ->
  text_loc v + items_width items + 160 < text_size v < 2 ^ 63 ->
  exists t' ps' env',
    asm_loop ev_to_id rounds assemble (mkLocals env None) stmt_pos ms (mkAsm v ps) =
      Ok (mkLocals env' None) (mkAsm (at_text v t' (text_loc v + items_width items)) ps') /\
    laid_out env (text_loc v) items ps (text v) ps' t'.
Proof.
  revert ms. induction rounds as [|rounds IH]; intros ms items env stmt_pos v ps Hms Hok Hf Hps Hp Hroom.
  - destruct ms; [|cbn in Hf; lia]. inversion Hms; subst. exists (text v), ps, env.
    cbn [items_width] in *. split; [by rewrite Z.add_0_r; destruct v|].
    apply laid_out_nil; [unfold text_size in Hroom; lia|done].
  - inversion Hms as [|m i ms' items' Hm Hms']; subst; cbn [items_width] in *.
    + exists (text v), ps, env. split; [by rewrite Z.add_0_r; destruct v|].
      apply laid_out_nil; [unfold text_size in Hroom; lia|done].
    + inversion Hok as [|?? Hi Hok']; subst. pose proof (item_width_nonneg i) as Hw.
      pose proof (items_width_nonneg items') as Hws.
      destruct (item_step_runs env i v ps) as (t1 & ps1 & Hrun & HL & Hps1 & Hlo);
        [done..|unfold text_size in Hroom; lia|].
      set (v1 := at_text v t1 (text_loc v + item_width i)) in *.
      destruct (IH ms' items' (after_item env (text_loc v) i) (stmt_pos + 1) v1 ps1)
        as (t' & ps' & env' & Hrest & Hlo'); [done|done|cbn in Hf; lia|done|cbn; lia| |].
      { unfold text_size in *. cbn. rewrite HL. lia. }
      exists t', ps', env'. split; [|by apply Hlo].
      cbn [asm_loop]. unfold bind at 1. unfold in_vm at 1, zoom at 1. cbn [avm].
      rewrite make_room_enough by (unfold text_size in *; lia).
      change (with_avm v (mkAsm v ps)) with (mkAsm v ps).
      rewrite (bind_ext _ _ _ _ (asm_statement_step assemble (mkLocals env None) stmt_pos m i (mkAsm v ps) Hm)).
      cbn [codelabel2loc pending_msg avm]. unfold bind at 1 2. rewrite Hrun. unfold Prelude.ret at 1.
      unfold fire_postponed. cbn [pending_msg]. unfold bind at 1, Prelude.ret at 1. cbn [app].
      rewrite Hrest. by rewrite Z.add_assoc.
Qed.

(** Statements without directives stay as they are. *)
Lemma expand_plain dl m i v : item_of ev_to_id dl m = Some i -> expand m v = Ok [] v.
Proof.
  intros Hi. unfold expand.
  assert (Hd : forall k, first_child_kind k m = false) by (by destruct m).
  assert (He : is_expression m = false).
  { destruct m; cbn [item_of is_expression] in *; try done.
    all: try (destruct (is_a_symbol_with_arguments _) as [[[??]?]|]; done).
    repeat case_bool_decide; congruence. }
  unfold is_a_msgreaddirective, is_a_msgdefdirective. by rewrite He, !Hd.
Qed.

Lemma preprocess_plain dl ms items v :
  Forall2 (fun m i => item_of ev_to_id dl m = Some i) ms items -> preprocess ms v = Ok ms v.
Proof.
  unfold preprocess. induction 1 as [|m i ms items Hm Hms IH]; [done|]. cbn [concatM].
  rewrite (bind_Ok _ _ _ [m] v); [by rewrite (bind_Ok _ _ _ _ _ IH)|].
  by rewrite (bind_Ok _ _ _ _ _ (expand_plain _ _ _ _ Hm)).
Qed.

(** ** The assembler *)

Definition halt_bytes (append_halt : bool) : list Z :=
  if append_halt then instr_bytes Op.halt ANone else [].

(** What assembling [ms] gives: the new text and the new list of patches. *)
Lemma assembler_runs fuel rounds ms items append_halt v ps :
  Forall2 (fun m i => item_of ev_to_id (data_labels v) m = Some i) ms items ->
  Forall item_ok items -> (length ms <= rounds)%nat ->
  sites_ok (text_loc v) ps -> 0 <= text_loc v ->
  text_loc v + items_width items + 160 < text_size v < 2 ^ 63 ->
  let code := code_of ∅ (text_loc v) items ++ halt_bytes append_halt in
  exists t' ps',
    oblectamenta_assembler ev_to_id (S fuel) rounds ms append_halt (mkAsm v ps) =
      Ok tt (mkAsm (at_text v t' (text_loc v + Z.of_nat (length code))) ps') /\
    slice_get t' (text_loc v) (length code) = Some code /\
    sites ps' ≡ₚ filter (fun e => ~ defined_in (text_loc v) items e) (sites ps)
                 ++ open_branches ∅ (text_loc v) items /\
    (forall e a, e ∈ sites ps -> first_def (pe_id e) (text_loc v) items = Some a ->
       site_bytes t' e = Some (encode U64 a)) /\
    (forall b n, b + Z.of_nat n <= text_loc v \/ text_loc v + Z.of_nat (length code) <= b ->
       clear_of (filter (defined_in (text_loc v) items) (sites ps)) b n ->
       slice_get t' b n = slice_get (text v) b n).
Proof.
  intros Hms Hok Hf Hps Hp Hroom code.
  destruct (asm_loop_lays_out (oblectamenta_assembler_impl ev_to_id fuel rounds) rounds ms items ∅ 0 v ps)
    as (t' & ps' & env' & Hrun & [L1 L2 L3 L4 L5 L6]); [done..|].
  assert (Himpl : oblectamenta_assembler_impl ev_to_id (S fuel) rounds ms (mkAsm v ps) =
                  Ok tt (mkAsm (at_text v t' (text_loc v + items_width items)) ps')).
  { cbn [oblectamenta_assembler_impl]. unfold bind at 1, in_vm, zoom. cbn [avm].
    rewrite (preprocess_plain _ _ _ _ Hms). change (with_avm v (mkAsm v ps)) with (mkAsm v ps).
    unfold bind. by rewrite Hrun. }
  assert (Hcl : Z.of_nat (length (code_of ∅ (text_loc v) items)) = items_width items) by apply code_of_length.
  pose proof (items_width_nonneg items) as Hws.
  unfold oblectamenta_assembler, bind at 1. rewrite Himpl. destruct append_halt.
  - destruct (emit_op_runs Op.halt ANone (at_text v t' (text_loc v + items_width items)))
      as (t2 & Hset & Hemit); [cbn; lia|unfold text_size in *; cbn; lia|]. cbn [text_loc at_text text set_text set_text_loc] in Hset.
    assert (H4 : length code = (length (code_of ∅ (text_loc v) items) + 4)%nat) by (unfold code; by rewrite length_app).
    exists t2, ps'. split; [|split; [|split; [done|split]]].
    + change (in_vm (emit_op Op.halt ANone) (mkAsm (at_text v t' (text_loc v + items_width items)) ps') =
        Ok tt (mkAsm (at_text v t2 (text_loc v + Z.of_nat (length code))) ps')).
      unfold in_vm, zoom. cbn [avm]. rewrite Hemit. rewrite H4, Nat2Z.inj_add, Hcl, Z.add_assoc. done.
    + rewrite H4. apply slice_get_join.
      * rewrite <- L3. eapply slice_get_set_other; [exact Hset|]. lia.
      * rewrite Hcl. by apply slice_get_set_same in Hset.
    + intros e a He Ha. rewrite <- (L4 e a He Ha). eapply slice_get_set_other; [exact Hset|].
      destruct Hps as [Hr _ _]. rewrite Forall_forall in Hr. specialize (Hr e He). cbn in Hr |- *. lia.
    + intros b n Hb Hc. rewrite <- (L5 b n); [|lia|done]. eapply slice_get_set_other; [exact Hset|].
      change (length (instr_bytes Op.halt ANone)) with 4%nat. lia.
  - unfold code. rewrite app_nil_r. exists t', ps'. rewrite Hcl. split; [done|]. split; [done|]. done.
Qed.

Definition code_image (items : list item) (p : Z) (append_halt : bool) : list Z :=
  code_of ∅ p items ++ halt_bytes append_halt.

(** C8: the assembler refines the reference layout: a text of opcodes, operands, labels
    and branches is assembled into the bytes of its instructions one after the other;
    every branch holds the position of its label, the last definition before the branch
    or else the first one behind it, although the assembler makes one pass. The labels
    that are defined nowhere are what is left in the list of patches, with operand 0. *)
Theorem assembler_lays_out fuel rounds ms items append_halt v ps :
  Forall2 (fun m i => item_of ev_to_id (data_labels v) m = Some i) ms items ->
  Forall item_ok items -> (length ms <= rounds)%nat ->
  sites_ok (text_loc v) ps -> 0 <= text_loc v ->
  text_loc v + items_width items + 160 < text_size v < 2 ^ 63 ->
  exists v' ps',
    oblectamenta_assembler ev_to_id (S fuel) rounds ms append_halt (mkAsm v ps) = Ok tt (mkAsm v' ps') /\
    code_at (code_image items (text_loc v) append_halt) (text_loc v) v' /\
    text_loc v' = text_loc v + Z.of_nat (length (code_image items (text_loc v) append_halt)) /\
    sites ps' ≡ₚ filter (fun e => ~ defined_in (text_loc v) items e) (sites ps)
                 ++ open_branches ∅ (text_loc v) items.
Proof.
  intros Hms Hok Hf Hps Hp Hroom.
  destruct (assembler_runs fuel rounds ms items append_halt v ps Hms Hok Hf Hps Hp Hroom)
    as (t' & ps' & Hrun & Hcode & Hsites & _).
  eexists _, ps'. split; [exact Hrun|]. split; [exact Hcode|]. split; [done|exact Hsites].
Qed.

(** C37: the assembler writes nowhere else: when no branch of an earlier text is still
    open, the machine differs afterwards only in the text position and in the bytes of
    the new code; registers, memory, labels and the text around the code are kept. *)
Theorem assembler_safe fuel rounds ms items append_halt v ps :
  Forall2 (fun m i => item_of ev_to_id (data_labels v) m = Some i) ms items ->
  Forall item_ok items -> (length ms <= rounds)%nat ->
  Forall (fun e => pe_id e = "") ps -> 0 <= text_loc v ->
  text_loc v + items_width items + 160 < text_size v < 2 ^ 63 ->
  let n := Z.of_nat (length (code_image items (text_loc v) append_halt)) in
  exists t' ps',
    oblectamenta_assembler ev_to_id (S fuel) rounds ms append_halt (mkAsm v ps) =
      Ok tt (mkAsm (set_text_loc (text_loc v + n) (set_text t' v)) ps') /\
    forall b k, b + Z.of_nat k <= text_loc v \/ text_loc v + n <= b ->
      slice_get t' b k = slice_get (text v) b k.
Proof.
  intros Hms Hok Hf Hps Hp Hroom n. pose proof (sites_free ps Hps) as Hs.
  destruct (assembler_runs fuel rounds ms items append_halt v ps Hms Hok Hf) as (t' & ps' & Hrun & _ & _ & _ & Ho);
    [by apply sites_ok_free|done|done|].
  exists t', ps'. split; [exact Hrun|]. intros b k Hb. apply Ho; [exact Hb|]. unfold clear_of. by rewrite Hs.
Qed.

(** The list of patches is shared by all machines and never cleared: a branch that
    an earlier text (of any machine) left open is resolved by a label of the same name
    in this text. The eight bytes in front of the recorded position are overwritten
    with the position of the label, in the text of this machine. *)
Theorem stale_patch_overwrites fuel rounds ms items append_halt v ps e a :
  Forall2 (fun m i => item_of ev_to_id (data_labels v) m = Some i) ms items ->
  Forall item_ok items -> (length ms <= rounds)%nat ->
  sites_ok (text_loc v) ps -> 0 <= text_loc v ->
  text_loc v + items_width items + 160 < text_size v < 2 ^ 63 ->
  e ∈ ps -> pe_id e <> "" -> first_def (pe_id e) (text_loc v) items = Some a ->
  exists v' ps',
    oblectamenta_assembler ev_to_id (S fuel) rounds ms append_halt (mkAsm v ps) = Ok tt (mkAsm v' ps') /\
    code_at (encode U64 a) (pe_text_loc e - 8) v'.
Proof.
  intros Hms Hok Hf Hps Hp Hroom He Hne Ha.
  destruct (assembler_runs fuel rounds ms items append_halt v ps Hms Hok Hf Hps Hp Hroom)
    as (t' & ps' & Hrun & _ & _ & Hp' & _).
  eexists _, ps'. split; [exact Hrun|]. apply Hp'; [|done]. by apply list_elem_of_filter.
Qed.
End assembler.

(** ** An assembler text with branches in both directions *)

Definition loop_text : list node :=
  let call o a := Func_call [Symbol o "OblectamentaOpcode"; a] in
  [call "ldi32" (Int_literal 5); Symbol "again" "OblectamentaCodeLabel";
   call "ldi32" (Int_literal 1); Symbol "subi32" "OblectamentaOpcode";
   call "ldi32" (Symbol "R0" "OblectamentaReg");
   call "bzeroi32" (Symbol "done" "OblectamentaCodeLabel");
   call "buc" (Symbol "again" "OblectamentaCodeLabel");
   Symbol "done" "OblectamentaCodeLabel"; Symbol "noop" "OblectamentaOpcode"].

Definition loop_items : list item :=
  [Ins Op.ldi32imm (AImm 5); Lbl "again"; Ins Op.ldi32imm (AImm 1); Ins Op.subi32 ANone;
   Ins Op.ldi32reg (ARegOfs 11 0); Br Op.bzeroi32 "done"; Br Op.buc "again"; Lbl "done";
   Ins Op.noop ANone].

Definition loop_vm : vm := empty_vm (replicate 400 0) 0.

Lemma loop_items_ok : Forall item_ok loop_items.
Proof. repeat constructor; done. Qed.

Lemma assembler_lays_out_witness :
  let v := loop_vm in
  items_width loop_items + 4 + 160 < text_size v /\
  exists v' ps',
    @oblectamenta_assembler test_platform test_ceps ∅ 1 9 loop_text true (mkAsm v [])
      = Ok tt (mkAsm v' ps') /\
    code_at (code_image loop_items 4 true) 4 v' /\
    text_loc v' = 4 + Z.of_nat (length (code_image loop_items 4 true)) /\
    sites ps' ≡ₚ [].
Proof.
  split; [vm_compute; done|].
  refine (@assembler_lays_out test_platform test_ceps ∅ 0 9 loop_text loop_items true loop_vm [] _ _ _ _ _ _).
  - repeat constructor.
  - apply loop_items_ok.
  - cbn. lia.
  - by apply sites_ok_free.
  - done.
  - vm_compute. done.
Defined.

Lemma assembler_safe_witness :
  exists t' ps',
    @oblectamenta_assembler test_platform test_ceps ∅ 1 9 loop_text false (mkAsm loop_vm [])
      = Ok tt (mkAsm (set_text_loc (4 + 72) (set_text t' loop_vm)) ps') /\
    forall b k, b + Z.of_nat k <= 4 \/ 76 <= b -> slice_get t' b k = slice_get (text loop_vm) b k.
Proof.
  refine (@assembler_safe test_platform test_ceps ∅ 0 9 loop_text loop_items false loop_vm [] _ _ _ _ _ _).
  - repeat constructor.
  - apply loop_items_ok.
  - cbn. lia.
  - done.
  - done.
  - vm_compute. done.
Defined.

Lemma stale_patch_overwrites_witness :
  exists v' ps',
    @oblectamenta_assembler test_platform test_ceps ∅ 1 9 loop_text false
      (mkAsm (set_text_loc 20 loop_vm) [mkPatch "done" 12]) = Ok tt (mkAsm v' ps') /\
    code_at (encode U64 88) 4 v'.
Proof.
  refine (@stale_patch_overwrites test_platform test_ceps ∅ 0 9 loop_text loop_items false
            (set_text_loc 20 loop_vm) [mkPatch "done" 12] (mkPatch "done" 12) 88 _ _ _ _ _ _ _ _ _).
  - repeat constructor.
  - apply loop_items_ok.
  - cbn. lia.
  - split; repeat constructor; cbn; lia.
  - done.
  - vm_compute. done.
  - by left.
  - done.
  - done.
Defined.
