(* ===== verification/RawFrame.v ===== *)
(** * RawFrame: frames of bit fields

    core/src/sm_raw_frame.cpp: a frame is described by a tree whose inner nodes name
    integer types ("int12", "bit") and whose leaves are values or system states. The
    writer ([fill_raw_chunk]) packs the values into bytes, the reader
    ([read_raw_chunk]) compares literals and stores system states. Sizes and offsets
    are numbers of bits. *)

From S2P Require Import Prelude MachineInt F64 Ast.
From Stdlib Require Import Floats.SpecFloat.

(** ** Types *)

Definition typename2descr : list (string * (Z * bool)) :=
  [("bit", (1, true)); ("byte", (8, true))]
  ++ map (fun n => ("int" +:+ pretty n, (n, true))) (zrange 1 65)
  ++ map (fun n => ("uint" +:+ pretty n, (n, false))) (zrange 1 65).

(** The names the reader knows, in the order of its tests. *)
Definition read_types : list (string * (Z * bool)) :=
  [("byte", (8, true)); ("int8", (8, true)); ("ubyte", (8, false)); ("uint8", (8, false));
   ("ushort", (16, false)); ("uint16", (16, false)); ("short", (16, true));
   ("int16", (16, true)); ("uint", (32, false)); ("uint32", (32, false)); ("int", (32, true));
   ("int32", (32, true)); ("ulonglong", (64, false)); ("uint64", (64, false));
   ("longlong", (64, true)); ("int64", (64, true)); ("uint25", (25, false));
   ("uint26", (26, false)); ("uint27", (27, false)); ("uint28", (28, false));
   ("uint29", (29, false)); ("uint30", (30, false)); ("uint31", (31, false));
   ("int25", (25, true)); ("int26", (26, true)); ("int27", (27, true)); ("int28", (28, true));
   ("int29", (29, true)); ("int30", (30, true)); ("uint31", (31, true));
   ("uint24", (24, false)); ("int24", (24, true)); ("uint23", (23, false));
   ("int23", (23, true)); ("uint22", (22, false)); ("int22", (22, true));
   ("uint21", (21, false)); ("int21", (21, true)); ("uint20", (20, false));
   ("int20", (20, true)); ("uint19", (19, false)); ("int19", (19, true));
   ("uint18", (18, false)); ("int18", (18, true)); ("uint17", (17, false));
   ("int17", (17, true)); ("uint15", (15, false)); ("int15", (15, true));
   ("uint14", (14, false)); ("int14", (14, true)); ("uint13", (13, false));
   ("int13", (13, true)); ("uint12", (12, false)); ("int12", (12, true));
   ("uint11", (11, false)); ("int11", (11, true)); ("uint10", (10, false));
   ("int10", (10, true)); ("uint9", (9, false)); ("int9", (9, true)); ("uint7", (7, false));
   ("int7", (7, true)); ("uint6", (6, false)); ("int6", (6, true)); ("uint5", (5, false));
   ("int5", (8, true)); ("uint4", (4, false)); ("int4", (4, true)); ("uint3", (3, false));
   ("int3", (3, true)); ("uint2", (2, false)); ("int2", (2, true)); ("bit", (1, true))].

Definition find_type (types : list (string * (Z * bool))) (nm : string) : option (Z * bool) :=
  snd <$> List.find (fun e => String.eqb (fst e) nm) types.

(** ** Masks *)

(** [k] times [c |= c << 1] in an unsigned type of [w] bits. *)
Fixpoint smear (w : Z) (k : nat) (c : Z) : Z :=
  match k with O => c | S k' => smear w k' (to_u w (Z.lor c (Z.shiftl c 1))) end.

(** ** Writing one value *)

Definition mask_value (bit_width v : Z) : Z :=
  if bit_width <? 64 then
    if bit_width =? 1 then (if v =? 0 then 0 else 1)
    else if bit_width =? 4 then Z.land v 0xF
    else if bit_width =? 8 then Z.land v 0xFF
    else if bit_width =? 12 then Z.land v 0xFFF
    else if bit_width =? 16 then Z.land v 0xFFFF
    else if bit_width =? 20 then Z.land v 0xFFFFF
    else if bit_width =? 24 then Z.land v 0xFFFFFF
    else if bit_width =? 28 then Z.land v 0xFFFFFFF
    else if bit_width =? 32 then Z.land v 0xFFFFFFFF
    else Z.land v (smear 64 (Z.to_nat bit_width) 1)
  else v.

(** The rest of a byte: [d] bits from bit [o] on. *)
Definition write_head (data : list Z) (bit_offs bit_width v : Z) : option (list Z * Z) :=
  let o := bit_offs mod 8 in
  let d := Z.min (8 - o) bit_width in
  w ← zlookup data (bit_offs / 8);
  let c1 := smear 8 (Z.to_nat d) 1 in
  let c2 := smear 8 (Z.to_nat (o - 1)) 1 in
  let w := to_u 8 (Z.lor (Z.land w c2) (Z.shiftl (Z.land (to_u 8 v) c1) o)) in
  data ← zinsert data (bit_offs / 8) w;
  Some (data, d).

(** [n] bytes from a byte address on. *)
Fixpoint write_bytes (n : nat) (data : list Z) (pos v : Z) : option (list Z) :=
  match n with
  | O => Some data
  | S n' => data ← zinsert data pos (to_u 8 v); write_bytes n' data (pos + 1) (Z.shiftr v 8)
  end.

(** Less than a byte at a byte address. *)
Definition write_tail (data : list Z) (pos left v : Z) : option (list Z) :=
  target ← zlookup data pos;
  if left =? 1 then zinsert data pos (if Z.odd v then Z.lor target 1 else Z.land target 0xFE)
  else zinsert data pos (Z.land (smear 8 (Z.to_nat (left - 1)) 1) (to_u 8 v)).

(** A value of [bit_width] bits at [bit_offs]; [None] is an access outside the data. *)
Definition write_value (data : list Z) (bit_offs bit_width v : Z) : option (list Z) :=
  let v := mask_value bit_width v in
  '(data, bits_written) ←
    (if bit_offs mod 8 =? 0 then Some (data, 0) else write_head data bit_offs bit_width v);
  let bit_offs := bit_offs + bits_written in
  let v := Z.shiftr v bits_written in
  let n := (bit_width - bits_written) / 8 in
  data ← write_bytes (Z.to_nat n) data (bit_offs / 8) v;
  let left := bit_width - bits_written - 8 * n in
  if left =? 0 then Some data
  else write_tail data (bit_offs / 8 + n) left (Z.shiftr v (8 * n)).

(** ** Reading one value *)

Definition read_head (data : list Z) (bit_offs bit_width : Z) : option (Z * Z) :=
  let o := bit_offs mod 8 in
  let d := 8 - o in
  w ← zlookup data (bit_offs / 8);
  let v := Z.shiftr w o in
  Some (if d >? bit_width then (Z.land v (smear 8 (Z.to_nat (bit_width - 1)) 1), bit_width)
        else (v, d)).

Fixpoint read_bytes (n : nat) (data : list Z) (pos bits_read : Z) : option Z :=
  match n with
  | O => Some 0
  | S n' =>
    b ← zlookup data pos;
    v ← read_bytes n' data (pos + 1) (bits_read + 8);
    Some (Z.lor (to_u 64 (Z.shiftl b bits_read)) v)
  end.

(** The last bits are shifted by the number of bits read in whole bytes, without those
    read in front of them. *)
Definition read_value (data : list Z) (bit_offs bit_width : Z) : option Z :=
  '(v, bits_read) ←
    (if bit_offs mod 8 =? 0 then Some (0, 0) else read_head data bit_offs bit_width);
  let bit_offs := bit_offs + bits_read in
  let n := (bit_width - bits_read) / 8 in
  v_temp ← read_bytes (Z.to_nat n) data (bit_offs / 8) bits_read;
  let v := Z.lor v v_temp in
  let left := bit_width - bits_read - 8 * n in
  if left =? 0 then Some v
  else
    target ← zlookup data (bit_offs / 8 + n);
    let target := Z.land target (smear 64 (Z.to_nat (left - 1)) 1) in
    Some (Z.lor v (to_u 64 (Z.shiftl target (8 * n)))).

(** What a value of a signed type becomes; a shift by 64 is undefined. *)
Definition sign_extend (bit_width v : Z) : option Z :=
  if bit_width =? 8 then Some (to_u 64 (to_s 8 v))
  else if bit_width =? 16 then Some (to_u 64 (to_s 16 v))
  else if bit_width =? 32 then Some (to_u 64 (to_s 32 v))
  else if bit_width <? 64 then Some (Z.lor v (to_u 64 (Z.shiftl (-1) bit_width)))
  else None.

(** ** The generator *)

Section generator.
Context {W : Type}.

(** The interpreter of expressions; how the syntax tree library stores and shows. *)
Context (eval_locked_ceps_expr : node -> M W (option node)).
Context (int_node : Z -> node) (show_node : node -> string).

Record frame_state := mkFrame {
  data : list Z;
  info : option Z;                     (* of the caller, when it gave one *)
  header_length : Z;
  global_states : gmap string node;
  global_systemstates_prev : gmap string (option node);
  world : W
}.

Definition with_data d s := mkFrame d (info s) (header_length s) (global_states s) (global_systemstates_prev s) (world s).
Definition with_info i s := mkFrame (data s) i (header_length s) (global_states s) (global_systemstates_prev s) (world s).
Definition with_header_length h s := mkFrame (data s) (info s) h (global_states s) (global_systemstates_prev s) (world s).
Definition with_global_states g s := mkFrame (data s) (info s) (header_length s) g (global_systemstates_prev s) (world s).
Definition with_prev p s := mkFrame (data s) (info s) (header_length s) (global_states s) p (world s).
Definition with_world w s := mkFrame (data s) (info s) (header_length s) (global_states s) (global_systemstates_prev s) w.

Definition IS_ASCII : Z := 1.
Definition IS_BINARY : Z := 4.

Definition eval (n : node) : M frame_state (option node) := zoom world with_world (eval_locked_ceps_expr n).

(** The parameters that are handed down. *)
Record chunk := mkChunk { data_size : Z; bit_width : Z; signed_value : bool }.

Definition as_type (d : Z * bool) (c : chunk) : chunk := mkChunk (data_size c) d.1 d.2.

(** [(std::uint64_t)value]: a double out of range is undefined behaviour. *)
Definition u64_of_literal (p : node) : option Z :=
  match p with
  | Int_literal v => Some (to_u 64 v)
  | Float_literal b =>
    match f64_of_bits b with
    | S754_infinity _ | S754_nan => None
    | _ => let z := f64_to_z b in if (0 <=? z) && (z <? 2 ^ 64) then Some z else None
    end
  | _ => None
  end.

Definition write_literal (p : node) (bit_offs : Z) (c : chunk) : M frame_state unit :=
  do! modify (fun s => with_info ((fun i => Z.lor i IS_BINARY) <$> info s) s) in
  let! v := of_option (u64_of_literal p) in
  let! d := gets data in
  let! d := of_option (write_value d bit_offs (bit_width c) v) in
  modify (with_data d).

Definition write_string (st : string) (bit_offs : Z) (write_data : bool) : M frame_state Z :=
  do! modify (fun s => with_info ((fun i => Z.lor i IS_ASCII) <$> info s) s) in
  let corr := if bit_offs mod 8 =? 0 then 0 else 8 - bit_offs mod 8 in
  let bs := bytes_of_string st in
  do! (if write_data then
         let! d := gets data in
         let! d := of_option (slice_set d ((bit_offs + corr) / 8) bs) in
         modify (with_data d)
       else ret tt) in
  ret (Z.of_nat (length bs) * 8 + corr).

(** [for (auto p : pattern)]: the sum of the sizes; [chunk_of] handles one node. *)
Definition is_header (p : node) : bool :=
  match p with Structdef nm _ => bool_decide (nm = "header") | _ => false end.

Definition fill_pattern (one : Z -> node -> M frame_state Z) (write_data : bool) (pattern : list node)
    (bit_offs : Z) : M frame_state Z :=
  let! r := foldM pattern (fun r p =>
    let! rr := one (bit_offs + r) p in
    do! (if negb write_data && is_header p then modify (with_header_length rr) else ret tt) in
    ret (r + rr)) 0 in
  ret r.

(** The encodings of system states: an expression per state and type. *)
Definition encoding_t : Type := gmap string (gmap Z node).

Definition encoding_expr (encoding : encoding_t) (c : chunk) (st : string) (state : node) : node :=
  default state (by_type ← encoding !! st;
                 by_type !! (if signed_value c then - bit_width c else bit_width c)).

Fixpoint fill_raw_chunk (fuel : nat) (encoding : encoding_t) (write_data : bool) (c : chunk)
    (bit_offs : Z) (p : node) : M frame_state Z :=
  match fuel with
  | O => out_of_fuel
  | S fuel' =>
    let children c cs := fill_pattern (fill_raw_chunk fuel' encoding write_data c) write_data cs bit_offs in
    match p with
    | Structdef nm cs =>
      if bool_decide (nm = "in") then ret 0
      else if bool_decide (nm = "out") then children c cs
      else children (default c ((fun d => as_type d c) <$> find_type typename2descr nm)) cs
    | Identifier nm =>
      if bool_decide (nm = "any") then ret (bit_width c)
      else if bool_decide (nm = "__current_frame_size") then
        fill_raw_chunk fuel' encoding write_data c bit_offs (int_node (data_size c))
      else throw (Fatal (-1) ("Raw frame:  Unknown identifier '" +:+ nm +:+ "'"))
    | Int_literal _ | Float_literal _ =>
      do! (if write_data then write_literal p bit_offs c else ret tt) in
      ret (bit_width c)
    | String_literal st => write_string st bit_offs write_data
    | Symbol st k =>
      if bool_decide (k = "Systemstate") then
        if write_data then
          let! r := eval (encoding_expr encoding c st p) in
          match r with
          | Some r => fill_raw_chunk fuel' encoding write_data c bit_offs r
          | None => ret (bit_width c)
          end
        else ret (bit_width c)
      else throw (Fatal (-1) ("Serialization of raw frame: Illformed expression:" +:+ show_node p))
    | _ => throw (Fatal (-1) ("Serialization of raw frame: Illformed expression:" +:+ show_node p))
    end
  end.

Definition start_chunk (size : Z) : chunk := mkChunk size 64 true.

(** A size in bytes; the width of the walk is 0. *)
Definition compute_size (fuel : nat) (pattern : list node) : M frame_state Z :=
  do! modify (with_info None) in
  let! bits := fill_pattern (fill_raw_chunk fuel ∅ false (mkChunk 0 0 true)) false pattern 0 in
  ret ((bits + 7) / 8).

(** The pattern is evaluated, the data is zeroed, then the values are written. *)
Definition gen_msg (fuel : nat) (encoding : encoding_t) (data_format : list node)
    : M frame_state (Z * option (list Z)) :=
  match data_format with
  | [] => ret (0, None)
  | _ =>
    let! frame_pattern := eval (Scope data_format) in
    match frame_pattern with
    | None => ret (0, None)
    | Some frame_pattern =>
      let pattern := node_children frame_pattern in
      let! chunk_size := compute_size fuel pattern in
      do! modify (with_data (replicate (Z.to_nat chunk_size) 0)) in
      do! modify (with_info (Some 0)) in
      do! fill_pattern (fill_raw_chunk fuel encoding true (start_chunk chunk_size)) true pattern 0 in
      let! i := gets info in
      let! d := gets data in
      let i := default 0 i in
      ret (if Z.land i IS_BINARY =? 0 then i else IS_BINARY, Some d)
    end
  end.

(** ** Reading *)

Definition node_isrw_state (p : node) : bool :=
  match p with
  | Symbol _ k => bool_decide (k = "Systemstate") || bool_decide (k = "Systemparameter")
  | _ => false
  end.

Definition mismatch : Z := -2.

(** A literal must agree with what was read. *)
Definition check_literal (lit bit_width v : Z) : bool :=
  if bit_width =? 1 then bool_decide ((lit = 0) <-> (v = 0)) else to_s 64 v =? lit.

Definition store_state (st : string) (v : Z) : M frame_state unit :=
  let! g := gets global_states in
  let w := g !! st in
  do! modify (fun s => with_prev (<[st := w]> (global_systemstates_prev s)) s) in
  do! (match w with
       | Some (Int_literal old_value) =>
         if old_value =? to_s 64 v then ret tt
         else modify (fun s => with_prev (<[st := None]> (global_systemstates_prev s)) s)
       | _ => ret tt
       end) in
  modify (fun s => with_global_states (<[st := int_node (to_s 64 v)]> (global_states s)) s).

Definition read_leaf (c : chunk) (bit_offs : Z) (p : node) : M frame_state Z :=
  let! d := gets data in
  let! v := of_option (read_value d bit_offs (bit_width c)) in
  match p with
  | Int_literal lit => ret (if check_literal lit (bit_width c) v then bit_width c else mismatch)
  | Symbol st _ =>
    let! v := of_option (if signed_value c then sign_extend (bit_width c) v else Some v) in
    do! store_state st v in
    ret (bit_width c)
  | _ => ret (bit_width c)
  end.

(** The first negative result ends the walk. *)
Fixpoint read_pattern (one : Z -> node -> M frame_state Z) (pattern : list node) (bit_offs r : Z)
    : M frame_state Z :=
  match pattern with
  | [] => ret r
  | p :: pattern' =>
    let! rr := one bit_offs p in
    if rr <? 0 then ret rr else read_pattern one pattern' (bit_offs + rr) (r + rr)
  end.

Fixpoint read_raw_chunk (fuel : nat) (read_data : bool) (c : chunk) (bit_offs : Z) (p : node)
    : M frame_state Z :=
  match fuel with
  | O => out_of_fuel
  | S fuel' =>
    let children c cs := read_pattern (read_raw_chunk fuel' read_data c) cs bit_offs 0 in
    match p with
    | Structdef nm cs =>
      if bool_decide (nm = "out") then ret 0
      else if bool_decide (nm = "in") then children c cs
      else match find_type read_types nm with
           | Some d => children (as_type d c) cs
           | None =>
             if bool_decide (nm = "header") then
               let! r := children (as_type (1, true) c) cs in
               do! modify (with_header_length (to_u 64 r)) in
               ret r
             else children c cs
           end
    | Identifier nm =>
      if bool_decide (nm = "any") then ret (bit_width c)
      else if bool_decide (nm = "__current_frame_size") then
        read_raw_chunk fuel' read_data c bit_offs (int_node (data_size c))
      else throw (Fatal (-1) ("Raw frame:  Unknown identifier '" +:+ nm +:+ "'"))
    | Float_literal _ => throw (Fatal (-1) "Floating point numbers not supported in raw frames.")
    | String_literal _ => throw (Fatal (-1) "Strings not supported in raw frames.")
    | _ =>
      if match p with Int_literal _ => true | _ => node_isrw_state p end then
        if read_data then read_leaf c bit_offs p else ret (bit_width c)
      else throw (Fatal (-1) ("Reading of raw frame: Illformed expression:" +:+ show_node p))
    end
  end.

(** [read_msg]: whether the frame agrees with its description. *)
Definition read_msg (fuel : nat) (id : string) (pattern : list node) : M frame_state bool :=
  let! d := gets data in
  match d with
  | [] => ret true
  | _ =>
    match pattern with
    | [] => throw (Fatal (-1) ("Frame '" +:+ id +:+ "' doesn't contain a data section."))
    | _ =>
      let! r := read_pattern (read_raw_chunk fuel true (start_chunk (Z.of_nat (length d)))) pattern 0 0 in
      ret (0 <=? r)
    end
  end.
End generator.
