(* ===== verification/RawFrameSpec.v ===== *)
(** * RawFrameSpec: fields of a frame

    A frame is a number in little-endian bytes; a field is a range of its bits. Writing
    a value sets its field and keeps the fields below; reading gives the field, unless
    it starts inside a byte and ends inside another. *)

From S2P Require Import Prelude MachineInt F64 Ast RawFrame.

(** The field of [w] bits at bit [off]. *)
Definition field (d : list Z) (off w : Z) : Z := (le_dec d / 2 ^ off) mod 2 ^ w.

(** ** Bits *)

Definition bit_at (d : list Z) (i : Z) : bool :=
  Z.testbit (nth (Z.to_nat (i / 8)) d 0) (i mod 8).

Lemma testbit_byte b j : is_byte b -> 8 <= j -> Z.testbit b j = false.
Proof.
  intros Hb Hj. unfold is_byte in Hb. destruct (decide (b = 0)) as [->|]; [apply Z.testbit_0_l|].
  apply Z.bits_above_log2; [lia|]. assert (Z.log2 b < 8); [apply Z.log2_lt_pow2; lia|lia].
Qed.

Lemma byte_of_testbit b : (forall j, 8 <= j -> Z.testbit b j = false) -> is_byte b.
Proof.
  intros Hb. assert (b = b mod 2 ^ 8) as ->; [|unfold is_byte; apply Z.mod_pos_bound; lia].
  apply Z.bits_inj'. intros j Hj. destruct (Z.lt_ge_cases j 8).
  - by rewrite Z.mod_pow2_bits_low by lia.
  - by rewrite Z.mod_pow2_bits_high, Hb by lia.
Qed.

Lemma testbit_le_dec d : Forall is_byte d -> forall i, 0 <= i -> Z.testbit (le_dec d) i = bit_at d i.
Proof.
  induction 1 as [|b d Hb Hd IH]; intros i Hi; unfold bit_at.
  - cbn. rewrite Z.testbit_0_l. by destruct (Z.to_nat (i / 8)); rewrite Z.testbit_0_l.
  - cbn [le_dec]. pose proof (le_dec_bound d Hd) as Hpos. unfold is_byte in Hb.
    destruct (Z.lt_ge_cases i 8) as [Hlt|Hge].
    + rewrite Z.div_small, Z.mod_small by lia. cbn [Z.to_nat nth].
      rewrite <- (Z.mod_pow2_bits_low _ 8) by lia. change (2 ^ 8) with 256.
      rewrite Z.mul_comm, Z.mod_add by lia. by rewrite Z.mod_small by lia.
    + replace i with ((i - 8) + 8) at 1 by lia.
      rewrite <- Z.div_pow2_bits by lia. change (2 ^ 8) with 256.
      rewrite Z.mul_comm, Z.div_add, Z.div_small, Z.add_0_l, IH by lia. unfold bit_at.
      replace (i / 8) with ((i - 8) / 8 + 1) by (rewrite <- Z.div_add by lia; f_equal; lia).
      rewrite Z2Nat.inj_add by (try apply Z.div_pos; lia). rewrite Nat.add_1_r. cbn [nth].
      f_equal. rewrite <- (Z.mod_add (i - 8) 1 8) by lia. f_equal. lia.
Qed.

Lemma testbit_field d off w j : Forall is_byte d -> 0 <= off -> 0 <= w -> 0 <= j ->
  Z.testbit (field d off w) j = (j <? w) && bit_at d (off + j).
Proof.
  intros Hd Ho Hw Hj. unfold field. destruct (Z.ltb_spec j w).
  - rewrite Z.mod_pow2_bits_low, Z.div_pow2_bits, Z.add_comm by lia. by apply testbit_le_dec; [|lia].
  - by rewrite Z.mod_pow2_bits_high by lia.
Qed.

(** Bits of the byte that holds position [8 * q + b]. *)
Lemma bit_at_byte d q b : 0 <= q -> 0 <= b < 8 -> bit_at d (8 * q + b) = Z.testbit (nth (Z.to_nat q) d 0) b.
Proof.
  intros Hq Hb. unfold bit_at. rewrite Z.mul_comm, Z.add_comm, Z.div_add, Z.div_small, Z.mod_add, Z.mod_small by lia.
  done.
Qed.

Lemma nth_zlookup d q x : zlookup d q = Some x -> nth (Z.to_nat q) d 0 = x.
Proof.
  unfold zlookup. destruct (q <? 0); [done|]. intros Hx. by apply nth_lookup_Some with (d := 0) in Hx.
Qed.

Lemma bit_at_insert d q x d' i : zinsert d q x = Some d' -> 0 <= i ->
  bit_at d' i = if i / 8 =? q then Z.testbit x (i mod 8) else bit_at d i.
Proof.
  unfold zinsert. destruct (in_bounds d q 1) eqn:Eb; [|done]. intros [= <-] Hi.
  apply in_bounds_spec in Eb. unfold bit_at.
  assert (0 <= i / 8) by (apply Z.div_pos; lia).
  destruct (Z.eqb_spec (i / 8) q) as [->|Hne].
  - f_equal. apply nth_lookup_Some. rewrite list_lookup_insert_eq; [done|lia].
  - f_equal. rewrite !nth_lookup. rewrite list_lookup_insert_ne; [done|]. lia.
Qed.

(** ** Masks *)

Lemma smear_ones w k m : 1 <= m <= w -> smear w k (Z.ones m) = Z.ones (Z.min (m + Z.of_nat k) w).
Proof.
  revert m. induction k as [|k IH]; intros m Hm.
  - cbn. f_equal. lia.
  - cbn [smear]. replace (to_u w (Z.lor (Z.ones m) (Z.shiftl (Z.ones m) 1))) with (Z.ones (Z.min (m + 1) w)).
    { rewrite IH by lia. f_equal. lia. }
    apply Z.bits_inj'. intros j Hj. unfold to_u.
    destruct (Z.lt_ge_cases j w) as [Hw|Hw].
    + rewrite Z.mod_pow2_bits_low, Z.lor_spec, Z.shiftl_spec by lia.
      rewrite !Z.testbit_ones by lia.
      destruct (Z.leb_spec 0 j), (Z.leb_spec 0 (j - 1)), (Z.ltb_spec j m), (Z.ltb_spec (j - 1) m),
        (Z.ltb_spec j (Z.min (m + 1) w)); cbn; lia.
    + rewrite Z.mod_pow2_bits_high by lia. rewrite Z.testbit_ones by lia.
      destruct (Z.ltb_spec j (Z.min (m + 1) w)); [lia|]. by rewrite andb_false_r.
Qed.

Lemma smear_one w k : 1 <= w -> smear w k 1 = Z.ones (Z.min (1 + Z.of_nat k) w).
Proof. intros Hw. change 1 with (Z.ones 1) at 1. by apply smear_ones. Qed.

Lemma testbit_smear w k j : 1 <= w -> 0 <= j ->
  Z.testbit (smear w k 1) j = (j <=? Z.of_nat k) && (j <? w).
Proof.
  intros Hw Hj. rewrite smear_one, Z.testbit_ones by lia.
  destruct (Z.leb_spec 0 j), (Z.leb_spec j (Z.of_nat k)), (Z.ltb_spec j w),
    (Z.ltb_spec j (Z.min (1 + Z.of_nat k) w)); cbn; lia.
Qed.

(** What is written for a value. *)
Definition field_value (w v : Z) : Z :=
  if w =? 1 then (if v =? 0 then 0 else 1) else v mod 2 ^ w.

Lemma testbit_mask_value w v j : 1 <= w <= 64 -> 0 <= v < 2 ^ 64 -> 0 <= j < w ->
  Z.testbit (mask_value w v) j = Z.testbit (field_value w v) j.
Proof.
  intros Hw Hv Hj. unfold mask_value, field_value.
  destruct (Z.ltb_spec w 64).
  2:{ replace w with 64 by lia. cbn [Z.eqb]. by rewrite Z.mod_small. }
  destruct (Z.eqb_spec w 1) as [|]; [done|].
  assert (Hones : forall n, 0 <= n -> Z.land v (Z.ones n) = v mod 2 ^ n) by (intros; by apply Z.land_ones).
  repeat lazymatch goal with
  | |- context [if w =? ?n then _ else _] =>
    destruct (Z.eqb_spec w n) as [->|]; [rewrite <- (Hones n) by lia; reflexivity|]
  end.
  rewrite Z.land_spec, testbit_smear, Z.mod_pow2_bits_low by lia.
  destruct (Z.leb_spec j (Z.of_nat (Z.to_nat w))), (Z.ltb_spec j 64); cbn; try lia. by rewrite andb_true_r.
Qed.

(** ** Writing *)

(** [d'] is [d] with the [w] low bits of [v] at [off]; what follows may change. *)
Record writes_bits (d : list Z) (off w v : Z) (d' : list Z) : Prop := mkWritesBits {
  wb_length : length d' = length d;
  wb_bytes : Forall is_byte d -> Forall is_byte d';
  wb_before i : 0 <= i < off -> bit_at d' i = bit_at d i;
  wb_field j : 0 <= j < w -> bit_at d' (off + j) = Z.testbit v j
}.

Lemma writes_none d off v : writes_bits d off 0 v d.
Proof. split; intros; done || lia. Qed.

Lemma writes_app d off w1 w2 v d1 d2 : 0 <= off -> 0 <= w1 ->
  writes_bits d off w1 v d1 -> writes_bits d1 (off + w1) w2 (Z.shiftr v w1) d2 ->
  writes_bits d off (w1 + w2) v d2.
Proof.
  intros Ho Hw [L1 B1 P1 F1] [L2 B2 P2 F2]. split.
  - congruence.
  - auto.
  - intros i Hi. rewrite P2, P1 by lia. done.
  - intros j Hj. destruct (Z.lt_ge_cases j w1).
    + rewrite P2, F1 by lia. done.
    + replace (off + j) with (off + w1 + (j - w1)) by lia. rewrite F2, Z.shiftr_spec by lia. f_equal. lia.
Qed.

Lemma zinsert_bytes d q x d' : zinsert d q x = Some d' -> is_byte x -> Forall is_byte d -> Forall is_byte d'.
Proof.
  unfold zinsert. destruct (in_bounds d q 1); [|done]. intros [= <-] Hx Hd. by apply Forall_insert.
Qed.

Lemma to_u8_byte z : is_byte (to_u 8 z).
Proof. pose proof (to_u_range 8 z). unfold is_byte. lia. Qed.

Lemma testbit_to_u8 z b : 0 <= b < 8 -> Z.testbit (to_u 8 z) b = Z.testbit z b.
Proof. intros Hb. unfold to_u. by rewrite Z.mod_pow2_bits_low by lia. Qed.

(** Position of bit [off + j] when it is in the byte of [off]. *)
Lemma same_byte off j : 0 <= off -> 0 <= j -> off mod 8 + j < 8 ->
  (off + j) / 8 = off / 8 /\ (off + j) mod 8 = off mod 8 + j.
Proof.
  intros Ho Hj Hlt. pose proof (Z.div_mod off 8 ltac:(lia)) as Hdm.
  pose proof (Z.mod_pos_bound off 8 ltac:(lia)).
  split; [symmetry; apply (Z.div_unique_pos _ _ _ (off mod 8 + j)); lia
         |symmetry; apply (Z.mod_unique_pos _ _ (off / 8)); lia].
Qed.

Lemma write_head_bits d off w v : 0 <= off -> 1 <= w -> off mod 8 <> 0 ->
  off / 8 < Z.of_nat (length d) ->
  exists d', write_head d off w v = Some (d', Z.min (8 - off mod 8) w) /\
             writes_bits d off (Z.min (8 - off mod 8) w) v d'.
Proof.
  intros Ho Hw Hne Hlen. set (o := off mod 8) in *. set (k := Z.min (8 - o) w).
  pose proof (Z.mod_pos_bound off 8 ltac:(lia)) as Hoo. fold o in Hoo.
  assert (Hq : 0 <= off / 8) by (apply Z.div_pos; lia).
  destruct (zlookup_is_Some d (off / 8)) as [b El]; [lia|].
  unfold write_head. fold o k. rewrite El. cbn [mbind option_bind].
  set (x := to_u 8 _). destruct (zinsert d (off / 8) x) as [d'|] eqn:Ei.
  2:{ by rewrite zinsert_Some in Ei by lia. }
  cbn. exists d'. split; [done|].
  assert (Hx : forall c, 0 <= c < 8 -> Z.testbit x c =
    if c <? o then Z.testbit b c else Z.testbit v (c - o) && (c - o <=? k)).
  { intros c Hc. unfold x. rewrite testbit_to_u8, Z.lor_spec, Z.land_spec, Z.shiftl_spec, testbit_smear by lia.
    destruct (Z.ltb_spec c o).
    - rewrite (Z.testbit_neg_r _ (c - o)), orb_false_r by lia.
      destruct (Z.leb_spec c (Z.of_nat (Z.to_nat (o - 1)))), (Z.ltb_spec c 8); cbn; try lia. by rewrite andb_true_r.
    - rewrite Z.land_spec, testbit_to_u8, testbit_smear by lia.
      destruct (Z.leb_spec c (Z.of_nat (Z.to_nat (o - 1)))); [lia|]. cbn [andb]. rewrite andb_false_r. cbn [orb].
      destruct (Z.ltb_spec (c - o) 8); [|lia]. rewrite andb_true_r. f_equal.
      destruct (Z.leb_spec (c - o) (Z.of_nat (Z.to_nat k))), (Z.leb_spec (c - o) k); done || lia. }
  split.
  - by eapply zinsert_length.
  - eapply zinsert_bytes; [done|apply to_u8_byte].
  - intros i Hi. rewrite (bit_at_insert _ _ _ _ _ Ei) by lia. destruct (Z.eqb_spec (i / 8) (off / 8)) as [Heq|]; [|done].
    pose proof (Z.mod_pos_bound i 8 ltac:(lia)). pose proof (Z.div_mod i 8 ltac:(lia)). pose proof (Z.div_mod off 8 ltac:(lia)).
    rewrite Hx by lia. destruct (Z.ltb_spec (i mod 8) o); [|unfold o in *; lia].
    unfold bit_at. by rewrite Heq, (nth_zlookup _ _ _ El).
  - intros j Hj. destruct (same_byte off j) as [H1 H2]; [lia..|].
    rewrite (bit_at_insert _ _ _ _ _ Ei), H1, H2, Z.eqb_refl by lia. fold o. rewrite Hx by lia.
    destruct (Z.ltb_spec (o + j) o); [lia|]. replace (o + j - o) with j by lia.
    destruct (Z.leb_spec j k); [apply andb_true_r|lia].
Qed.

Lemma bit_pos q j : 0 <= q -> 0 <= j -> (8 * q + j) / 8 = q + j / 8 /\ (8 * q + j) mod 8 = j mod 8.
Proof.
  intros Hq Hj. rewrite (Z.mul_comm 8), Z.add_comm, Z.div_add, Z.mod_add by lia. split; [lia|done].
Qed.

(** A whole byte. *)
Lemma write_byte_bits d q v : 0 <= q < Z.of_nat (length d) ->
  exists d', zinsert d q (to_u 8 v) = Some d' /\ writes_bits d (8 * q) 8 v d'.
Proof.
  intros Hq. destruct (zinsert d q (to_u 8 v)) as [d'|] eqn:Ei.
  2:{ by rewrite zinsert_Some in Ei by lia. }
  exists d'. split; [done|]. split.
  - by eapply zinsert_length.
  - eapply zinsert_bytes; [done|apply to_u8_byte].
  - intros i Hi. rewrite (bit_at_insert _ _ _ _ _ Ei) by lia.
    destruct (Z.eqb_spec (i / 8) q) as [Heq|]; [|done]. pose proof (Z.div_mod i 8 ltac:(lia)).
    pose proof (Z.mod_pos_bound i 8 ltac:(lia)). lia.
  - intros j Hj. rewrite (bit_at_insert _ _ _ _ _ Ei) by lia. destruct (bit_pos q j) as [-> ->]; [lia..|].
    rewrite Z.div_small, Z.add_0_r, Z.eqb_refl, Z.mod_small by lia. by apply testbit_to_u8.
Qed.

Lemma write_bytes_bits n : forall d q v, 0 <= q -> q + Z.of_nat n <= Z.of_nat (length d) ->
  exists d', write_bytes n d q v = Some d' /\ writes_bits d (8 * q) (8 * Z.of_nat n) v d'.
Proof.
  induction n as [|n IH]; intros d q v Hq Hlen; cbn [write_bytes].
  - exists d. split; [done|apply writes_none].
  - destruct (write_byte_bits d q v) as (d1 & -> & H1); [lia|]. cbn [mbind option_bind].
    destruct (IH d1 (q + 1) (Z.shiftr v 8)) as (d2 & -> & H2); [lia|rewrite (wb_length _ _ _ _ _ H1); lia|].
    exists d2. split; [done|]. replace (8 * Z.of_nat (S n)) with (8 + 8 * Z.of_nat n) by lia.
    eapply writes_app; [lia|lia|done|]. by replace (8 * q + 8) with (8 * (q + 1)) by lia.
Qed.

Lemma write_tail_bits d q left v : Forall is_byte d -> 0 <= q < Z.of_nat (length d) -> 1 <= left < 8 ->
  exists d', write_tail d q left v = Some d' /\ writes_bits d (8 * q) left v d'.
Proof.
  intros Hd Hq Hl. unfold write_tail.
  destruct (zlookup_is_Some d q) as [b El]; [lia|]. rewrite El. cbn [mbind option_bind].
  assert (Hb : is_byte b).
  { unfold zlookup in El. destruct (q <? 0); [done|]. rewrite Forall_lookup in Hd. by apply Hd in El. }
  set (x := if left =? 1 then (if Z.odd v then Z.lor b 1 else Z.land b 0xFE)
            else Z.land (smear 8 (Z.to_nat (left - 1)) 1) (to_u 8 v)).
  assert (Hxb : is_byte x /\ forall j, 0 <= j < left -> Z.testbit x j = Z.testbit v j).
  { unfold x. destruct (Z.eqb_spec left 1) as [->|].
    - split.
      + apply byte_of_testbit. intros j Hj.
        destruct (Z.odd v); by rewrite ?Z.lor_spec, ?Z.land_spec, (testbit_byte b), ?(testbit_byte 1) by done || lia.
      + intros j Hj. replace j with 0 by lia. rewrite (Z.bit0_odd v). destruct (Z.odd v).
        * by rewrite Z.lor_spec, orb_true_r.
        * by rewrite Z.land_spec, andb_false_r.
    - split.
      + apply byte_of_testbit. intros j Hj. rewrite Z.land_spec, (testbit_byte (to_u 8 v)) by (apply to_u8_byte || lia).
        apply andb_false_r.
      + intros j Hj. rewrite Z.land_spec, testbit_smear, testbit_to_u8 by lia.
        destruct (Z.leb_spec j (Z.of_nat (Z.to_nat (left - 1)))), (Z.ltb_spec j 8); cbn; try lia. done. }
  destruct Hxb as [Hxb Hxv].
  destruct (zinsert d q x) as [d'|] eqn:Ei.
  2:{ by rewrite zinsert_Some in Ei by lia. }
  exists d'. split; [unfold x in Ei; by destruct (left =? 1)|]. split.
  - by eapply zinsert_length.
  - by eapply zinsert_bytes.
  - intros i Hi. rewrite (bit_at_insert _ _ _ _ _ Ei) by lia.
    destruct (Z.eqb_spec (i / 8) q) as [Heq|]; [|done]. pose proof (Z.div_mod i 8 ltac:(lia)).
    pose proof (Z.mod_pos_bound i 8 ltac:(lia)). lia.
  - intros j Hj. rewrite (bit_at_insert _ _ _ _ _ Ei) by lia. destruct (bit_pos q j) as [-> ->]; [lia..|].
    rewrite Z.div_small, Z.add_0_r, Z.eqb_refl, Z.mod_small by lia. by apply Hxv.
Qed.

Lemma byte_pos off : 0 <= off -> off mod 8 = 0 -> 8 * (off / 8) = off.
Proof. intros Ho Hm. pose proof (Z.div_mod off 8 ltac:(lia)). lia. Qed.

(** The whole bytes and the last bits, from a byte address on. *)
Lemma write_rest_bits d off w v : Forall is_byte d -> 0 <= off -> 0 <= w -> off mod 8 = 0 \/ w = 0 ->
  off + w <= 8 * Z.of_nat (length d) ->
  exists d', (d ← write_bytes (Z.to_nat (w / 8)) d (off / 8) v;
              if w - 8 * (w / 8) =? 0 then Some d
              else write_tail d (off / 8 + w / 8) (w - 8 * (w / 8)) (Z.shiftr v (8 * (w / 8)))) = Some d' /\
             writes_bits d off w v d'.
Proof.
  intros Hd Ho Hw Hoff Hlen.
  destruct (decide (w = 0)) as [->|Hw0].
  { exists d. split; [done|apply writes_none]. }
  assert (Hm : off mod 8 = 0) by tauto. pose proof (byte_pos off Ho Hm) as Hq.
  pose proof (Z.div_mod w 8 ltac:(lia)) as Hdm. pose proof (Z.mod_pos_bound w 8 ltac:(lia)) as Hmod.
  assert (0 <= w / 8) by (apply Z.div_pos; lia). assert (0 <= off / 8) by (apply Z.div_pos; lia).
  replace (w - 8 * (w / 8)) with (w mod 8) by lia.
  destruct (write_bytes_bits (Z.to_nat (w / 8)) d (off / 8) v) as (d1 & -> & H1); [lia|lia|].
  rewrite Z2Nat.id, Hq in H1 by lia. cbn [mbind option_bind].
  destruct (Z.eqb_spec (w mod 8) 0) as [Hz|Hz].
  - exists d1. split; [done|]. by replace w with (8 * (w / 8)) at 1 by lia.
  - pose proof (wb_length _ _ _ _ _ H1) as HL1.
    destruct (write_tail_bits d1 (off / 8 + w / 8) (w mod 8) (Z.shiftr v (8 * (w / 8)))) as (d2 & -> & H2);
      [by apply H1|lia|lia|].
    exists d2. split; [done|]. replace w with (8 * (w / 8) + w mod 8) at 1 by lia.
    eapply writes_app; [done|lia|done|]. by replace (off + 8 * (w / 8)) with (8 * (off / 8 + w / 8)) by lia.
Qed.

Lemma write_value_bits d off w v : Forall is_byte d -> 0 <= off -> 1 <= w <= 64 ->
  off + w <= 8 * Z.of_nat (length d) ->
  exists d', write_value d off w v = Some d' /\ writes_bits d off w (mask_value w v) d'.
Proof.
  intros Hd Ho Hw Hlen. unfold write_value. set (v' := mask_value w v).
  destruct (Z.eqb_spec (off mod 8) 0) as [Hm|Hm]; cbn [mbind option_bind].
  - rewrite !Z.add_0_r, Z.shiftr_0_r, Z.sub_0_r. apply write_rest_bits; [done|lia|lia|by left|lia].
  - pose proof (Z.mod_pos_bound off 8 ltac:(lia)). pose proof (Z.div_mod off 8 ltac:(lia)).
    destruct (write_head_bits d off w v') as (d1 & -> & H1); [lia|lia|lia| |].
    { apply Z.div_lt_upper_bound; lia. }
    cbn [mbind option_bind]. set (k := Z.min (8 - off mod 8) w) in *.
    destruct (write_rest_bits d1 (off + k) (w - k) (Z.shiftr v' k)) as (d2 & -> & H2);
      [by apply H1|lia|lia| |rewrite (wb_length _ _ _ _ _ H1); lia|].
    { destruct (decide (w - k = 0)); [by right|left].
      replace (off + k) with ((off / 8 + 1) * 8) by lia. apply Z.mod_mul. lia. }
    exists d2. split; [done|]. replace w with (k + (w - k)) by lia. by eapply writes_app; [lia|lia| |].
Qed.

(** ** Reading *)

(** Where the reader's three parts fit together. *)
Definition readable (off w : Z) : Prop :=
  off mod 8 = 0 \/ w <= 8 - off mod 8 \/ (w - (8 - off mod 8)) mod 8 = 0.

Lemma read_bytes_bits n : forall d q r, Forall is_byte d -> 0 <= q -> 0 <= r ->
  q + Z.of_nat n <= Z.of_nat (length d) -> r + 8 * Z.of_nat n <= 64 ->
  exists v, read_bytes n d q r = Some v /\ forall j, 0 <= j ->
    Z.testbit v j = (r <=? j) && (j <? r + 8 * Z.of_nat n) && bit_at d (8 * q + (j - r)).
Proof.
  induction n as [|n IH]; intros d q r Hd Hq Hr Hlen Hfit; cbn [read_bytes].
  - exists 0. split; [done|]. intros j Hj. rewrite Z.testbit_0_l.
    destruct (Z.leb_spec r j), (Z.ltb_spec j (r + 8 * Z.of_nat 0)); cbn; done || lia.
  - destruct (zlookup_is_Some d q) as [b El]; [lia|]. rewrite El. cbn [mbind option_bind].
    assert (Hb : is_byte b).
    { unfold zlookup in El. destruct (q <? 0); [done|]. rewrite Forall_lookup in Hd. by apply Hd in El. }
    destruct (IH d (q + 1) (r + 8)) as (v & -> & Hv); [done|lia..|]. cbn [mbind option_bind].
    eexists. split; [done|]. intros j Hj. rewrite Z.lor_spec, Hv by done. unfold to_u.
    destruct (Z.lt_ge_cases j (r + 8)) as [Hlt|Hge].
    + rewrite Z.mod_pow2_bits_low, Z.shiftl_spec by lia.
      rewrite (proj2 (Z.leb_gt (r + 8) j)) by lia. cbn [andb]. rewrite orb_false_r.
      destruct (Z.leb_spec r j).
      * rewrite (proj2 (Z.ltb_lt j _)) by lia. cbn [andb]. rewrite bit_at_byte by lia.
        by rewrite (nth_zlookup _ _ _ El).
      * by rewrite Z.testbit_neg_r by lia.
    + assert (Hz : Z.testbit (Z.shiftl b r mod 2 ^ 64) j = false).
      { destruct (Z.lt_ge_cases j 64).
        - rewrite Z.mod_pow2_bits_low, Z.shiftl_spec by lia. apply testbit_byte; [done|lia].
        - by rewrite Z.mod_pow2_bits_high by lia. }
      rewrite Hz. cbn [orb]. rewrite (proj2 (Z.leb_le (r + 8) j)), (proj2 (Z.leb_le r j)) by lia. cbn [andb].
      replace (r + 8 + 8 * Z.of_nat n) with (r + 8 * Z.of_nat (S n)) by lia.
      f_equal. f_equal. lia.
Qed.

Lemma read_head_bits d off w : Forall is_byte d -> 0 <= off -> 1 <= w -> off mod 8 <> 0 ->
  off / 8 < Z.of_nat (length d) ->
  exists v, read_head d off w = Some (v, Z.min (8 - off mod 8) w) /\
    forall j, 0 <= j -> Z.testbit v j = (j <? Z.min (8 - off mod 8) w) && bit_at d (off + j).
Proof.
  intros Hd Ho Hw Hne Hlen. pose proof (Z.mod_pos_bound off 8 ltac:(lia)) as Hoo.
  assert (Hq : 0 <= off / 8) by (apply Z.div_pos; lia).
  destruct (zlookup_is_Some d (off / 8)) as [b El]; [lia|]. unfold read_head. rewrite El. cbn [mbind option_bind].
  assert (Hb : is_byte b).
  { unfold zlookup in El. destruct (off / 8 <? 0); [done|]. rewrite Forall_lookup in Hd. by apply Hd in El. }
  assert (Hbit : forall j, 0 <= j < 8 - off mod 8 -> bit_at d (off + j) = Z.testbit b (off mod 8 + j)).
  { intros j Hj. unfold bit_at. destruct (same_byte off j) as [-> ->]; [lia..|].
    by rewrite (nth_zlookup _ _ _ El). }
  destruct (Z.gtb_spec (8 - off mod 8) w) as [Hgt|Hle].
  - eexists. split; [do 2 f_equal; lia|]. intros j Hj.
    rewrite Z.land_spec, testbit_smear, Z.shiftr_spec by lia.
    destruct (Z.ltb_spec j (Z.min (8 - off mod 8) w)); cbn [andb].
    + rewrite Hbit by lia. rewrite (proj2 (Z.leb_le j _)), (proj2 (Z.ltb_lt j 8)) by lia.
      rewrite andb_true_r. f_equal. lia.
    + rewrite (proj2 (Z.leb_gt j _)) by lia. apply andb_false_r.
  - eexists. split; [do 2 f_equal; lia|]. intros j Hj. rewrite Z.shiftr_spec by lia.
    destruct (Z.ltb_spec j (Z.min (8 - off mod 8) w)); cbn [andb].
    + rewrite Hbit by lia. f_equal. lia.
    + apply testbit_byte; [done|lia].
Qed.

(** Reading gives the field when the parts fit together. *)
Lemma read_value_field d off w : Forall is_byte d -> 0 <= off -> 1 <= w <= 64 ->
  off + w <= 8 * Z.of_nat (length d) -> readable off w -> read_value d off w = Some (field d off w).
Proof.
  intros Hd Ho Hw Hlen Hfit. unfold read_value.
  pose proof (Z.mod_pos_bound off 8 ltac:(lia)) as Hoo. pose proof (Z.div_mod off 8 ltac:(lia)) as Hdm.
  assert (Hhead : exists v k, (if off mod 8 =? 0 then Some (0, 0) else read_head d off w) = Some (v, k) /\
    k = (if off mod 8 =? 0 then 0 else Z.min (8 - off mod 8) w) /\
    forall j, 0 <= j -> Z.testbit v j = (j <? k) && bit_at d (off + j)).
  { destruct (Z.eqb_spec (off mod 8) 0) as [Hm|Hm].
    - exists 0, 0. split; [done|]. split; [done|]. intros j Hj. rewrite Z.testbit_0_l.
      by rewrite (proj2 (Z.ltb_ge j 0)) by lia.
    - destruct (read_head_bits d off w) as (v & -> & Hv); [done|lia|lia|lia|apply Z.div_lt_upper_bound; lia|].
      exists v, (Z.min (8 - off mod 8) w). done. }
  destruct Hhead as (v & k & -> & Hk & Hv). cbn [mbind option_bind].
  assert (Hkw : 0 <= k <= w) by (destruct (off mod 8 =? 0); lia).
  set (n := (w - k) / 8). pose proof (Z.div_mod (w - k) 8 ltac:(lia)) as Hdw. fold n in Hdw.
  pose proof (Z.mod_pos_bound (w - k) 8 ltac:(lia)) as Hmw.
  assert (0 <= n) by (apply Z.div_pos; lia). assert (0 <= off / 8) by (apply Z.div_pos; lia).
  assert (Hpos : w - k <> 0 -> 8 * ((off + k) / 8) = off + k).
  { intros Hne. apply byte_pos; [lia|]. destruct (Z.eqb_spec (off mod 8) 0); [by rewrite Hk, Z.add_0_r|].
    replace (off + k) with ((off / 8 + 1) * 8) by lia. apply Z.mod_mul. lia. }
  assert (0 <= (off + k) / 8) by (apply Z.div_pos; lia).
  assert (Hbytes : (off + k) / 8 + n <= Z.of_nat (length d)).
  { destruct (decide (w - k = 0)) as [Hz|Hnz]; [|specialize (Hpos Hnz); lia].
    assert (n = 0) as -> by lia. rewrite Z.add_0_r. apply Z.div_le_upper_bound; lia. }
  destruct (read_bytes_bits (Z.to_nat n) d ((off + k) / 8) k) as (vt & -> & Hvt); [done|lia..|].
  rewrite Z2Nat.id in Hvt by lia. cbn [mbind option_bind].
  assert (Hmid : forall j, 0 <= j -> Z.testbit (Z.lor v vt) j = (j <? k + 8 * n) && bit_at d (off + j)).
  { intros j Hj. rewrite Z.lor_spec, Hv, Hvt by done.
    destruct (Z.ltb_spec j k), (Z.leb_spec k j), (Z.ltb_spec j (k + 8 * n)); cbn [andb orb]; try lia; try done.
    - apply orb_false_r.
    - f_equal. assert (w - k <> 0) by lia. lia. }
  replace (w - k - 8 * n) with ((w - k) mod 8) by lia.
  destruct (Z.eqb_spec ((w - k) mod 8) 0) as [Hz|Hnz].
  - f_equal. apply Z.bits_inj'. intros j Hj. rewrite Hmid, testbit_field by (done || lia).
    by replace (k + 8 * n) with w by lia.
  - assert (Hk0 : k = 0).
    { destruct Hfit as [Hm|[Hs|Hd8]]; destruct (Z.eqb_spec (off mod 8) 0); try lia.
      destruct (Z.le_ge_cases w (8 - off mod 8)); [replace (w - k) with 0 in Hnz by lia; done|].
        by replace k with (8 - off mod 8) in Hnz by lia. }
    assert (Hpos' : 8 * ((off + k) / 8) = off + k).
    { apply Hpos. intros Hx. by rewrite Hx in Hnz. }
    destruct (zlookup_is_Some d ((off + k) / 8 + n)) as [b El]; [lia|]. rewrite El. cbn [mbind option_bind].
    f_equal. apply Z.bits_inj'. intros j Hj. rewrite Z.lor_spec, Hmid, testbit_field by (done || lia).
    unfold to_u. rewrite Hk0 in *. rewrite Z.add_0_r, Z.add_0_l, Z.sub_0_r in *.
    destruct (Z.ltb_spec j (8 * n)); cbn [andb].
    + rewrite (proj2 (Z.ltb_lt j w)) by lia. cbn [andb].
      assert (Z.testbit (Z.shiftl (Z.land b (smear 64 (Z.to_nat (w mod 8 - 1)) 1)) (8 * n) mod 2 ^ 64) j = false) as ->.
      { rewrite Z.mod_pow2_bits_low, Z.shiftl_spec by lia. by rewrite Z.testbit_neg_r by lia. }
      apply orb_false_r.
    + cbn [orb]. destruct (Z.lt_ge_cases j 64).
      * rewrite Z.mod_pow2_bits_low, Z.shiftl_spec, Z.land_spec, testbit_smear by lia.
        destruct (Z.ltb_spec j w); cbn [andb].
        -- rewrite (proj2 (Z.leb_le (j - 8 * n) _)), (proj2 (Z.ltb_lt (j - 8 * n) 64)) by lia.
           rewrite andb_true_r. rewrite <- (nth_zlookup _ _ _ El), <- bit_at_byte by lia. f_equal. lia.
        -- rewrite (proj2 (Z.leb_gt (j - 8 * n) _)) by lia. apply andb_false_r.
      * rewrite Z.mod_pow2_bits_high by lia. by rewrite (proj2 (Z.ltb_ge j w)) by lia.
Qed.

Lemma writes_field d off w v d' : Forall is_byte d -> 0 <= off -> 0 <= w ->
  writes_bits d off w v d' -> field d' off w = v mod 2 ^ w.
Proof.
  intros Hd Ho Hw Hwb. apply Z.bits_inj'. intros j Hj.
  rewrite testbit_field by (done || apply Hwb, Hd).
  destruct (Z.ltb_spec j w); cbn [andb].
  - rewrite Z.mod_pow2_bits_low by lia. by apply Hwb.
  - by rewrite Z.mod_pow2_bits_high by lia.
Qed.

Lemma writes_field_before d off w v d' a k : Forall is_byte d -> 0 <= a -> 0 <= k -> a + k <= off ->
  writes_bits d off w v d' -> field d' a k = field d a k.
Proof.
  intros Hd Ha Hk Hle Hwb. apply Z.bits_inj'. intros j Hj.
  rewrite !testbit_field by (done || apply Hwb, Hd).
  destruct (Z.ltb_spec j k); [|done]. cbn [andb]. apply Hwb. lia.
Qed.

Lemma field_value_bound w v : 1 <= w -> 0 <= field_value w v < 2 ^ w.
Proof.
  intros Hw. unfold field_value. destruct (Z.eqb_spec w 1) as [->|]; [by destruct (v =? 0)|].
  apply Z.mod_pos_bound, Z.pow_pos_nonneg; lia.
Qed.

(** What is written for a value is what its field holds. *)
Lemma write_value_field d off w v : Forall is_byte d -> 0 <= off -> 1 <= w <= 64 -> 0 <= v < 2 ^ 64 ->
  off + w <= 8 * Z.of_nat (length d) ->
  exists d', write_value d off w v = Some d' /\ length d' = length d /\ Forall is_byte d' /\
    field d' off w = field_value w v /\
    forall a k, 0 <= a -> 0 <= k -> a + k <= off -> field d' a k = field d a k.
Proof.
  intros Hd Ho Hw Hv Hlen. destruct (write_value_bits d off w v) as (d' & Hwr & Hwb); [done..|].
  exists d'. split; [done|]. split; [apply Hwb|]. split; [by apply Hwb|]. split.
  - rewrite (writes_field d off w (mask_value w v)) by (done || lia).
    rewrite <- (Z.mod_small (field_value w v) (2 ^ w)) by (apply field_value_bound; lia).
    apply Z.bits_inj'. intros j Hj. destruct (Z.lt_ge_cases j w).
    + rewrite !Z.mod_pow2_bits_low by lia. by apply testbit_mask_value.
    + by rewrite !Z.mod_pow2_bits_high by lia.
  - intros a k Ha Hk Hle. by eapply writes_field_before.
Qed.

(** A value written into a frame is read back: for every width from 1 to 64 and every
    bit offset inside the data, writing a value and reading the same range gives the
    value modulo 2^w (for one bit, whether it is not zero), when the field does not start
    inside a byte and end inside another one; the fields below are not changed. *)
Theorem field_roundtrip d off w v :
  Forall is_byte d -> 0 <= off -> 1 <= w <= 64 -> 0 <= v < 2 ^ 64 ->
  off + w <= 8 * Z.of_nat (length d) -> readable off w ->
  exists d', write_value d off w v = Some d' /\ length d' = length d /\
    read_value d' off w = Some (field_value w v) /\
    forall a k, 0 <= a -> 1 <= k <= 64 -> a + k <= off -> readable a k ->
      read_value d' a k = read_value d a k.
Proof.
  intros Hd Ho Hw Hv Hlen Hr.
  destruct (write_value_field d off w v) as (d' & Hwr & HL & Hb & Hf & Hold); [done..|].
  exists d'. split; [done|]. split; [done|]. split.
  - rewrite read_value_field by (done || lia). by rewrite Hf.
  - intros a k Ha Hk Hle Hra. rewrite !read_value_field by (done || lia). f_equal. apply Hold; lia.
Qed.

(** The reader shifts the last bits of a field by the bits of the whole bytes only: a
    field of 8 bits that starts inside a byte is read as the disjunction of its two
    parts, so the byte 0x35 written at bit 4 is read as 7. *)
Theorem unaligned_field_misread :
  write_value [0; 0] 4 8 0x35 = Some [0x50; 0x03] /\ field [0x50; 0x03] 4 8 = 0x35 /\
  read_value [0x50; 0x03] 4 8 = Some 7.
Proof. done. Qed.

(** ** Frames *)

Record frame_field := mkField { fl_type : string; fl_width : Z; fl_value : Z; fl_state : string }.

Definition written (fs : list frame_field) : list node :=
  map (fun f => Structdef (fl_type f) [Int_literal (fl_value f)]) fs.

Definition expected (fs : list frame_field) : list node :=
  map (fun f => Structdef (fl_type f) [Symbol (fl_state f) "Systemstate"]) fs.

Fixpoint width (fs : list frame_field) : Z :=
  match fs with [] => 0 | f :: fs' => fl_width f + width fs' end.

(** A type the writer and the reader agree on, without a sign. *)
Definition field_ok (f : frame_field) : Prop :=
  find_type typename2descr (fl_type f) = Some (fl_width f, false) /\
  find_type read_types (fl_type f) = Some (fl_width f, false) /\
  1 <= fl_width f <= 64 /\ fl_type f <> "in" /\ fl_type f <> "out".

Definition content (f : frame_field) : Z := field_value (fl_width f) (to_u 64 (fl_value f)).

Fixpoint all_readable (off : Z) (fs : list frame_field) : Prop :=
  match fs with [] => True | f :: fs' => readable off (fl_width f) /\ all_readable (off + fl_width f) fs' end.

Fixpoint holds_fields (d : list Z) (off : Z) (fs : list frame_field) : Prop :=
  match fs with
  | [] => True
  | f :: fs' => field d off (fl_width f) = content f /\ holds_fields d (off + fl_width f) fs'
  end.

Lemma width_nonneg fs : Forall field_ok fs -> 0 <= width fs.
Proof. induction 1 as [|f fs Hf Hfs IH]; cbn; [done|]. destruct Hf as (_ & _ & Hw & _). lia. Qed.

Section frames.
Context {W : Type} (eval_expr : node -> M W (option node)) (int_node : Z -> node) (show_node : node -> string).
Implicit Types s : @frame_state W.

Abbreviation fill := (fill_raw_chunk eval_expr int_node show_node).
Abbreviation rd := (read_raw_chunk int_node show_node).

(** One written field. *)
Lemma fill_field fuel enc c off f s : field_ok f -> Forall is_byte (data s) -> 0 <= off ->
  off + fl_width f <= 8 * Z.of_nat (length (data s)) -> is_Some (info s) ->
  exists d' i', fill (S (S fuel)) enc true c off (Structdef (fl_type f) [Int_literal (fl_value f)]) s
              = Ok (fl_width f) (with_data d' (with_info (Some i') s)) /\
    Z.land i' IS_BINARY <> 0 /\
    length d' = length (data s) /\ Forall is_byte d' /\ field d' off (fl_width f) = content f /\
    forall a k, 0 <= a -> 0 <= k -> a + k <= off -> field d' a k = field (data s) a k.
Proof.
  intros (Ht & _ & Hw & Hin & Hout) Hd Ho Hlen [i Hi].
  destruct (write_value_field (data s) off (fl_width f) (to_u 64 (fl_value f))) as (d' & Hwr & Hrest);
    [done|done|done|apply to_u_range; lia|done|].
  exists d', (Z.lor i IS_BINARY). split; [|split; [|exact Hrest]].
  - cbn [fill_raw_chunk]. rewrite !bool_decide_false by done. rewrite Ht.
    unfold fill_pattern. cbn [foldM is_header negb andb fmap option_fmap option_map default].
    unfold bind, ret, write_literal, bind, modify, gets, of_option, ret. cbn [u64_of_literal data with_info info].
    rewrite Z.add_0_r. cbn [bit_width as_type fst id].
    change (bit_width (id (as_type (fl_width f, false) c))) with (fl_width f). rewrite Hwr, Hi. cbn. by rewrite Z.add_0_l.
  - intros Hz. assert (Hb : Z.testbit (Z.land (Z.lor i IS_BINARY) IS_BINARY) 2 = false) by (rewrite Hz; apply Z.testbit_0_l).
    rewrite Z.land_spec, Z.lor_spec in Hb. cbn in Hb. by rewrite orb_true_r in Hb.
Qed.

Lemma with_data_info_id s i : info s = Some i -> with_data (data s) (with_info (Some i) s) = s.
Proof. intros <-. by destruct s. Qed.

Lemma fill_fields fuel enc c off fs : forall r s i,
  Forall field_ok fs -> Forall is_byte (data s) -> 0 <= off + r ->
  off + r + width fs <= 8 * Z.of_nat (length (data s)) -> info s = Some i ->
  exists d' i',
    foldM (written fs) (fun r p =>
      let! rr := fill (S (S fuel)) enc true c (off + r) p in
      do! (if negb true && is_header p then modify (with_header_length rr) else ret tt) in
      ret (r + rr)) r s
    = Ok (r + width fs) (with_data d' (with_info (Some i') s)) /\
    (fs <> [] \/ Z.land i IS_BINARY <> 0 -> Z.land i' IS_BINARY <> 0) /\
    length d' = length (data s) /\ Forall is_byte d' /\ holds_fields d' (off + r) fs /\
    forall a k, 0 <= a -> 0 <= k -> a + k <= off + r -> field d' a k = field (data s) a k.
Proof.
  induction fs as [|f fs IH]; intros r s i Hok Hd Ho Hlen Hi; cbn [written map foldM width holds_fields] in *.
  - exists (data s), i. rewrite with_data_info_id by done. rewrite Z.add_0_r. repeat split; try done. by intros [|].
  - inversion Hok as [|?? Hf Hfs]; subst. pose proof (width_nonneg fs Hfs) as Hw.
    pose proof Hf as (_ & _ & Hfw & _).
    destruct (fill_field fuel enc c (off + r) f s) as (d1 & i1 & Hrun & Hb1 & HL1 & HB1 & HF1 & HP1);
      [done|done|lia|lia|by eexists|].
    destruct (IH (r + fl_width f) (with_data d1 (with_info (Some i1) s)) i1)
      as (d2 & i2 & Hrest & Hb2 & HL2 & HB2 & HF2 & HP2);
      [done|done|lia|cbn [data with_data]; lia|done|].
    exists d2, i2. split; [|split; [|split; [|split; [done|split]]]].
    + rewrite (bind_Ok _ _ _ (r + fl_width f) (with_data d1 (with_info (Some i1) s))).
      * unfold written in Hrest. rewrite Hrest. f_equal. lia.
      * by rewrite (bind_Ok _ _ _ _ _ Hrun).
    + intros _. apply Hb2. by right.
    + cbn in HL2. lia.
    + split; [|by rewrite Z.add_assoc in HF2]. rewrite HP2 by lia. exact HF1.
    + intros a k Ha Hk Hle. rewrite HP2 by lia. by apply HP1.
Qed.

Lemma size_fields fuel enc c off fs : forall r s, Forall field_ok fs ->
  foldM (written fs) (fun r p =>
      let! rr := fill (S (S fuel)) enc false c (off + r) p in
      do! (if negb false && is_header p then modify (with_header_length rr) else ret tt) in
      ret (r + rr)) r s = Ok (r + width fs) s.
Proof.
  induction fs as [|f fs IH]; intros r s Hok; cbn [written map foldM width].
  - by rewrite Z.add_0_r.
  - inversion Hok as [|?? (Ht & _ & Hw & Hin & Hout) Hfs]; subst.
    assert (Hh : is_header (Structdef (fl_type f) [Int_literal (fl_value f)]) = false).
    { cbn. apply bool_decide_false. intros Hx. rewrite Hx in Ht. vm_compute in Ht. done. }
    assert (Hone : forall off, fill (S (S fuel)) enc false c off (Structdef (fl_type f) [Int_literal (fl_value f)]) s
                   = Ok (fl_width f) s).
    { intros o. cbn [fill_raw_chunk]. rewrite !bool_decide_false by done. rewrite Ht. reflexivity. }
    rewrite (bind_Ok _ _ _ (r + fl_width f) s).
    + unfold written in IH. rewrite IH by done. f_equal. lia.
    + by rewrite (bind_Ok _ _ _ _ _ (Hone _)), Hh.
Qed.

(** *** Reading the fields back *)

Lemma store_state_runs st v s : exists p,
  store_state int_node st v s =
  Ok tt (with_prev p (with_global_states (<[st := int_node (to_s 64 v)]> (global_states s)) s)).
Proof.
  unfold store_state, bind, gets, modify. cbn.
  destruct (global_states s !! st) as [[]|]; cbn; try (eexists; reflexivity).
  destruct (_ =? _); eexists; reflexivity.
Qed.

Definition store_fields (fs : list frame_field) (g : gmap string node) : gmap string node :=
  fold_left (fun g f => <[fl_state f := int_node (to_s 64 (content f))]> g) fs g.

Lemma read_fields fuel c fs : forall off r s,
  Forall field_ok fs -> Forall is_byte (data s) -> 0 <= off ->
  off + width fs <= 8 * Z.of_nat (length (data s)) ->
  all_readable off fs -> holds_fields (data s) off fs ->
  exists s', read_pattern (rd (S (S fuel)) true c) (expected fs) off r s = Ok (r + width fs) s' /\
    data s' = data s /\ global_states s' = store_fields fs (global_states s).
Proof.
  induction fs as [|f fs IH]; intros off r s Hok Hd Ho Hlen Hr Hh; cbn [expected map read_pattern width].
  - exists s. rewrite Z.add_0_r. done.
  - inversion Hok as [|?? Hf Hfs]; subst. pose proof Hf as (_ & Ht & Hw & Hin & Hout).
    cbn in Hr, Hh, Hlen. destruct Hr as [Hr Hrs], Hh as [Hh Hhs]. pose proof (width_nonneg fs Hfs) as Hws.
    destruct (store_state_runs (fl_state f) (content f) s) as (pv & Hst).
    set (s1 := with_prev pv _) in Hst.
    assert (Hone : rd (S (S fuel)) true c off (Structdef (fl_type f) [Symbol (fl_state f) "Systemstate"]) s
                   = Ok (fl_width f) s1).
    { cbn [read_raw_chunk]. rewrite !bool_decide_false by done. rewrite Ht.
      cbn [read_pattern node_isrw_state]. rewrite (bool_decide_true ("Systemstate" = "Systemstate")) by done.
      cbn [orb]. unfold read_leaf, bind, gets, of_option.
      change (bit_width (as_type (fl_width f, false) c)) with (fl_width f).
      rewrite read_value_field by (done || lia). rewrite Hh. unfold ret at 1.
      cbn [signed_value as_type snd]. unfold ret at 1. rewrite Hst. unfold ret.
      rewrite (proj2 (Z.ltb_ge _ _)) by lia. by rewrite Z.add_0_l. }
    destruct (IH (off + fl_width f) (r + fl_width f) s1) as (s' & Hrest & Hd' & Hg'); [done|done|lia|cbn; lia|done|done|].
    exists s'. split; [|split; [done|done]].
    unfold bind. rewrite Hone. rewrite (proj2 (Z.ltb_ge _ _)) by lia.
    unfold expected in Hrest. rewrite Hrest. f_equal. lia.
Qed.

(** C11: a frame is read back by its own description: when the writer evaluates its pattern to
    unsigned integer fields of 1 to 64 bits of types that writer and reader agree on, it
    returns a binary frame of the fields' total size rounded up to bytes, and the reader, run
    on these bytes with a description that names a system state for every field, accepts the
    frame and gives every state the value of its field. Every field must start at a byte, lie
    in one byte, or end at a byte: one that begins inside a byte and ends inside another is
    misread (unaligned_field_misread). *)
Theorem frame_roundtrip fuel enc data_format fs s w' r s0 id :
  data_format <> [] ->
  eval_expr (Scope data_format) (world s) = Ok (Some r) w' -> node_children r = written fs ->
  fs <> [] -> Forall field_ok fs -> all_readable 0 fs ->
  exists bytes s1,
    gen_msg eval_expr int_node show_node (S (S fuel)) enc data_format s = Ok (IS_BINARY, Some bytes) s1 /\
    Z.of_nat (length bytes) = (width fs + 7) / 8 /\
    exists s2, read_msg int_node show_node (S (S fuel)) id (expected fs) (with_data bytes s0) = Ok true s2 /\
      global_states s2 = store_fields fs (global_states s0).
Proof.
  intros Hdf Hev Hch Hne Hok Hr. pose proof (width_nonneg fs Hok) as Hw.
  assert (Hw1 : 1 <= width fs).
  { destruct fs as [|f fs]; [done|]. inversion Hok as [|?? (_ & _ & Hf & _) Hfs]; subst. cbn.
    pose proof (width_nonneg fs Hfs). lia. }
  assert (H8 : width fs <= 8 * ((width fs + 7) / 8) /\ 1 <= (width fs + 7) / 8).
  { pose proof (Z.div_mod (width fs + 7) 8 ltac:(lia)). pose proof (Z.mod_pos_bound (width fs + 7) 8 ltac:(lia)). lia. }
  set (n := (width fs + 7) / 8) in *.
  set (sz := with_info (Some 0) (with_data (replicate (Z.to_nat n) 0) (with_info None (with_world w' s)))).
  destruct (fill_fields fuel enc (start_chunk n) 0 fs 0 sz 0) as (d' & i' & Hfill & Hbin & HL & HB & HF & _);
    [done|by apply Forall_replicate|done|cbn; rewrite length_replicate; lia|done|].
  cbn in HL. rewrite length_replicate in HL.
  exists d', (with_data d' (with_info (Some i') sz)). split; [|split; [lia|]].
  - unfold gen_msg. destruct data_format as [|x l]; [done|].
    unfold eval, zoom, bind at 1. rewrite Hev, Hch. unfold bind at 1, compute_size, fill_pattern.
    unfold bind at 1 2, modify at 1. unfold bind at 1. rewrite size_fields by done. rewrite Z.add_0_l.
    unfold bind, modify, ret, gets in *. fold n. fold sz. rewrite Hfill. cbn.
    rewrite (proj2 (Z.eqb_neq _ _)) by (apply Hbin; by left). done.
  - destruct (read_fields fuel (start_chunk (Z.of_nat (length d'))) fs 0 0 (with_data d' s0))
      as (s2 & Hrun & _ & Hg); [done|done|done|cbn; lia|done|done|].
    exists s2. split; [|done]. unfold read_msg, bind, gets. cbn [data with_data].
    destruct d' as [|b d']; [cbn in HL; lia|].
    destruct (expected fs) as [|p ps] eqn:Ep; [by destruct fs|]. rewrite Hrun. unfold ret.
    by rewrite (proj2 (Z.leb_le _ _)) by lia.
Qed.
End frames.

(** A system state of a signed type other than 8, 16 and 32 bits never gets a positive
    value: the reader sets all bits above the field without looking at its sign, so the
    field [v] is stored as [v - 2^w]; for 64 bits the shift is undefined behaviour. *)
Theorem signed_states_negative w v :
  1 <= w <= 64 -> 0 <= v < 2 ^ w -> w <> 8 -> w <> 16 -> w <> 32 ->
  sign_extend w v = if w =? 64 then None else Some (to_u 64 (v - 2 ^ w)).
Proof.
  intros Hw Hv H8 H16 H32. unfold sign_extend.
  rewrite (proj2 (Z.eqb_neq w 8)), (proj2 (Z.eqb_neq w 16)), (proj2 (Z.eqb_neq w 32)) by done.
  destruct (Z.eqb_spec w 64) as [->|Hne]; [done|]. rewrite (proj2 (Z.ltb_lt w 64)) by lia. f_equal.
  rewrite Z.shiftl_mul_pow2 by lia. unfold to_u.
  assert (Hpow : 2 ^ 64 = 2 ^ w * 2 ^ (64 - w)) by (rewrite <- Z.pow_add_r by lia; f_equal; lia).
  assert (0 < 2 ^ w) by (apply Z.pow_pos_nonneg; lia). assert (0 < 2 ^ (64 - w)) by (apply Z.pow_pos_nonneg; lia).
  assert (Hle : 2 ^ w <= 2 ^ 64) by (apply Z.pow_le_mono_r; lia).
  assert (Hmod : forall x, - 2 ^ 64 <= x < 0 -> x mod 2 ^ 64 = x + 2 ^ 64).
  { intros x Hx. symmetry. apply (Z.mod_unique_pos _ _ (-1)); lia. }
  rewrite !Hmod by lia.
  assert (Hdis : forall j, 0 <= j -> Z.testbit v j = true -> Z.testbit (-1 * 2 ^ w + 2 ^ 64) j = true -> False).
  { intros j Hj Hvj Hhj. destruct (Z.lt_ge_cases j w).
    - replace (-1 * 2 ^ w + 2 ^ 64) with ((2 ^ (64 - w) - 1) * 2 ^ w) in Hhj by lia.
      by rewrite Z.mul_pow2_bits_low in Hhj by lia.
    - rewrite <- (Z.mod_small v (2 ^ w)), Z.mod_pow2_bits_high in Hvj by lia. done. }
  rewrite <- Z.lxor_lor, <- Z.add_nocarry_lxor; [lia|..];
    apply Z.bits_inj'; intros j Hj; rewrite Z.land_spec, Z.testbit_0_l;
    specialize (Hdis j Hj); destruct (Z.testbit v j), (Z.testbit _ j); naive_solver.
Qed.

Lemma signed_states_negative_witness : sign_extend 12 5 = Some (2 ^ 64 - 4091).
Proof. rewrite (signed_states_negative 12 5) by lia. reflexivity. Defined.

Lemma field_roundtrip_witness :
  exists d', write_value [0xFF; 0; 0; 0] 8 12 0xABC = Some d' /\ length d' = 4%nat /\
    read_value d' 8 12 = Some 0xABC /\
    forall a k, 0 <= a -> 1 <= k <= 64 -> a + k <= 8 -> readable a k ->
      read_value d' a k = read_value [0xFF; 0; 0; 0] a k.
Proof.
  refine (field_roundtrip [0xFF; 0; 0; 0] 8 12 0xABC _ _ _ _ _ _); [|lia|lia|lia|cbn; lia|by left].
  repeat constructor; unfold is_byte; lia.
Defined.

Definition sample_fields : list frame_field :=
  [mkField "uint12" 12 0xABC "A"; mkField "uint4" 4 7 "B"; mkField "uint16" 16 1000 "C"].

Lemma frame_roundtrip_witness :
  let s0 := mkFrame [] None 0 ∅ ∅ tt in
  let echo n w := Ok (Some n) w in
  exists bytes s1,
    gen_msg echo Int_literal (fun _ => "") 2 ∅ (written sample_fields) s0 = Ok (IS_BINARY, Some bytes) s1 /\
    Z.of_nat (length bytes) = 4 /\
    exists s2, read_msg Int_literal (fun _ => "") 2 "frame" (expected sample_fields) (with_data bytes s0) = Ok true s2 /\
      global_states s2 = store_fields Int_literal sample_fields ∅.
Proof.
  refine (frame_roundtrip (fun n w => Ok (Some n) w) Int_literal (fun _ => "") 0 ∅ (written sample_fields) sample_fields
            (mkFrame [] None 0 ∅ ∅ tt) tt (Scope (written sample_fields)) (mkFrame [] None 0 ∅ ∅ tt) "frame" _ _ _ _ _ _); try done.
  - repeat constructor; try lia; done.
  - cbn. unfold readable. repeat split; [by left|right; left; vm_compute; done|by left].
Defined.
