(* ===== verification/Digest.v ===== *)
(** * Digest: SHA-1 and Base64

    The functions the websocket handshake needs: compute_sha1 and base64_encoded_sha1
    of core/src/api/websocket/ws_api.cpp, encode_base64 of core/src/websocket.cpp (the
    text of the copy in ws_api.cpp is the same). Memory is a list of bytes. At the end: how
    they compare with the standards. *)

From S2P Require Import Prelude MachineInt.

(** ** Base64 *)

Definition base64set : list Z :=
  bytes_of_string "ABCDEFGHIJKLMNOPQRSTUVWXYZabcdefghijklmnopqrstuvwxyz0123456789+/".

Definition equals_sign : Z := 61.

Section base64.
Context {S : Type}.

Definition letter (i : Z) : M S Z := of_option (zlookup base64set i).
Definition put (jo : Z) (c : Z) (r : list Z) : M S (list Z) := of_option (zinsert r jo c).
Definition mem_at (memory : list Z) (j : Z) : M S Z := of_option (zlookup memory j).

(** The first two characters of a group with at least two bytes. *)
Definition encode_two (memory : list Z) (j jo : Z) (r : list Z) : M S (list Z) :=
  let! m0 := mem_at memory j in
  let! m1 := mem_at memory (j + 1) in
  let! c0 := letter (Z.shiftr m0 2) in
  let! c1 := letter (Z.lor (Z.shiftl (Z.land m0 3) 4) (Z.shiftr m1 4)) in
  let! r := put jo c0 r in
  put (jo + 1) c1 r.

Definition encode_group (memory : list Z) (j jo : Z) (r : list Z) : M S (list Z) :=
  let! r := encode_two memory j jo r in
  let! m1 := mem_at memory (j + 1) in
  let! m2 := mem_at memory (j + 2) in
  let! c2 := letter (Z.lor (Z.shiftl (Z.land m1 0xF) 2) (Z.shiftr m2 6)) in
  let! c3 := letter (Z.land m2 0x3F) in
  let! r := put (jo + 2) c2 r in
  put (jo + 3) c3 r.

(** [for(; j < main_part; j+=3,jo+=4)], with [n] groups left. *)
Fixpoint encode_groups (n : nat) (memory : list Z) (j jo : Z) (r : list Z) : M S (list Z) :=
  match n with
  | O => ret r
  | Datatypes.S n' =>
    let! r := encode_group memory j jo r in
    encode_groups n' memory (j + 3) (jo + 4) r
  end.

(** The bytes after the last group, and the padding. *)
Definition encode_rest (memory : list Z) (rest j jo : Z) (r : list Z) : M S (list Z) :=
  if rest =? 1 then
    let! m0 := mem_at memory j in
    let! c0 := letter (Z.shiftr m0 2) in
    let! c1 := letter (Z.shiftl (Z.land m0 3) 4) in
    let! r := put jo c0 r in
    let! r := put (jo + 1) c1 r in
    let! r := put (jo + 2) equals_sign r in
    put (jo + 3) equals_sign r
  else if rest =? 2 then
    let! r := encode_two memory j jo r in
    let! m1 := mem_at memory (j + 1) in
    let! c2 := letter (Z.shiftl (Z.land m1 0xF) 2) in
    let! r := put (jo + 2) c2 r in
    put (jo + 3) equals_sign r
  else ret r.

(** [out_len] is an int; a negative one is a huge argument of resize. *)
Definition encode_base64 (memory : list Z) : M S (list Z) :=
  let len := Z.of_nat (length memory) in
  if len =? 0 then ret []
  else
    let rest := len mod 3 in
    let out_len := to_s 32 ((len / 3) * 4) in
    let! out_len := if rest =? 0 then ret out_len else checked I32 (out_len + 4) in
    if out_len <? 0 then throw (RuntimeError "basic_string::_M_replace_aux")
    else
      let r := replicate (Z.to_nat out_len) 0 in
      let! r := encode_groups (Z.to_nat (len / 3)) memory 0 0 r in
      encode_rest memory rest (3 * (len / 3)) (4 * (len / 3)) r.
End base64.

(** ** SHA-1 *)

Definition rotl5 (value : Z) : Z := Z.lor (to_u 32 (Z.shiftl value 5)) (Z.shiftr value 27).
Definition rotl1 (value : Z) : Z := Z.lor (to_u 32 (Z.shiftl value 1)) (Z.shiftr value 31).
Definition rotl30 (value : Z) : Z := Z.lor (to_u 32 (Z.shiftl value 30)) (Z.shiftr value 2).

(** [~x] of a uint32_t. *)
Definition not32 (x : Z) : Z := to_u 32 (Z.lnot x).

(** Words and sizes are stored with the highest byte first. *)
Definition htobe (n : nat) (v : Z) : list Z := rev (le_enc n v).
Definition betoh (bs : list Z) : Z := le_dec (rev bs).

Record sha1_state := mkSha1 { sa : Z; sb : Z; sc : Z; sd : Z; se : Z }.

Definition sha1_start : sha1_state :=
  mkSha1 0x67452301 0xefcdab89 0x98badcfe 0x10325476 0xc3d2e1f0.

(** One pass of a loop over [t]; [f] is the function of b, c, d it adds. *)
Definition sha1_pass (f : Z -> Z -> Z -> Z) (k : Z) (W : list Z) (s : sha1_state) (t : Z) : sha1_state :=
  let temp := to_u 32 (rotl5 (sa s) + f (sb s) (sc s) (sd s) + se s + W !!! Z.to_nat t + k) in
  mkSha1 temp (sa s) (rotl30 (sb s)) (sc s) (sd s).

Definition choose (b c d : Z) : Z := Z.lor (Z.land b c) (Z.land (not32 b) d).
Definition parity (b c d : Z) : Z := Z.lxor (Z.lxor b c) d.
Definition majority (b c d : Z) : Z := Z.lor (Z.lor (Z.land b c) (Z.land b d)) (Z.land c d).

(** The four loops. *)
Definition sha1_rounds (W : list Z) (s : sha1_state) : sha1_state :=
  let s := foldl (sha1_pass choose 0x5a827999 W) s (zrange 0 20) in
  let s := foldl (sha1_pass parity 0x6ed9eba1 W) s (zrange 20 40) in
  let s := foldl (sha1_pass majority 0x8f1bbcdc W) s (zrange 40 60) in
  foldl (sha1_pass parity 0xca62c1d6 W) s (zrange 60 80).

(** The array W: the 16 words of the fragment, then W[16] to W[79]. *)
Definition words (frag : list Z) : list Z :=
  map (fun j => betoh (take 4 (drop (4 * j) frag))) (seq 0 16).

Definition extend_word (W : list Z) (t : Z) : list Z :=
  W ++ [rotl1 (Z.lxor (Z.lxor (Z.lxor (W !!! Z.to_nat (t - 3)) (W !!! Z.to_nat (t - 8)))
                              (W !!! Z.to_nat (t - 14))) (W !!! Z.to_nat (t - 16)))].

Definition schedule (frag : list Z) : list Z := foldl extend_word (words frag) (zrange 16 80).

Definition add_state (s s' : sha1_state) : sha1_state :=
  mkSha1 (to_u 32 (sa s + sa s')) (to_u 32 (sb s + sb s')) (to_u 32 (sc s + sc s'))
         (to_u 32 (sd s + sd s')) (to_u 32 (se s + se s')).

Section sha1.
Context {S : Type}.

Definition sha1_block (data : list Z) (s : sha1_state) (i : Z) : M S sha1_state :=
  let! frag := of_option (slice_get data i 64) in
  ret (add_state s (sha1_rounds (schedule frag) s)).

Definition padded_bit_length (bit_length : Z) : Z :=
  let ext_bit_length := to_u 64 (bit_length + 1 + 64) in
  to_u 64 ((512 - ext_bit_length mod 512) + ext_bit_length).

(** [data]: len + 64 bytes, the message followed by zeros; the length goes to the last
    8 bytes of the padded message. *)
Definition compute_sha1 (msg : list Z) : M S (list Z) :=
  let len := Z.of_nat (length msg) in
  let data := msg ++ replicate 64 0 in
  let bit_length := to_u 64 (len * 8) in
  let! data := of_option (zinsert data len 0x80) in
  let padded_data_len := Z.shiftr (padded_bit_length bit_length) 3 in
  let! data := of_option (slice_set data (padded_data_len - 8) (htobe 8 bit_length)) in
  let! s := foldM (map (fun k => 64 * k) (zrange 0 ((padded_data_len + 63) / 64)))
                  (sha1_block data) sha1_start in
  ret (htobe 4 (sa s) ++ htobe 4 (sb s) ++ htobe 4 (sc s) ++ htobe 4 (sd s) ++ htobe 4 (se s)).

Definition base64_encoded_sha1 (s : list Z) : M S (list Z) :=
  let! digest := compute_sha1 s in
  encode_base64 digest.
End sha1.

(** * SHA-1 and Base64 against their standards

    [sha1] is the function of FIPS 180-4 on whole bytes, [decode] the Base64 decoding of
    RFC 4648. *)

(** ** The standards *)

Definition ROTL (n x : Z) : Z := Z.lor (to_u 32 (Z.shiftl x n)) (Z.shiftr x (32 - n)).
Definition Ch (x y z : Z) : Z := Z.lxor (Z.land x y) (Z.land (not32 x) z).
Definition Parity (x y z : Z) : Z := Z.lxor (Z.lxor x y) z.
Definition Maj (x y z : Z) : Z := Z.lxor (Z.lxor (Z.land x y) (Z.land x z)) (Z.land y z).

Definition f_ (t : Z) : Z -> Z -> Z -> Z :=
  if t <? 20 then Ch else if t <? 40 then Parity else if t <? 60 then Maj else Parity.
Definition K_ (t : Z) : Z :=
  if t <? 20 then 0x5a827999 else if t <? 40 then 0x6ed9eba1 else if t <? 60 then 0x8f1bbcdc else 0xca62c1d6.

(** The message schedule: W_t of the words M. *)
Fixpoint W_ (fuel : nat) (M : nat -> Z) (t : nat) : Z :=
  match fuel with
  | O => 0
  | S fuel' =>
    if (t <? 16)%nat then M t
    else ROTL 1 (Z.lxor (Z.lxor (Z.lxor (W_ fuel' M (t - 3)) (W_ fuel' M (t - 8)))
                                (W_ fuel' M (t - 14))) (W_ fuel' M (t - 16)))
  end.

(** The words of a block. *)
Definition word_of (block : list Z) (j : nat) : Z := betoh (take 4 (drop (4 * j) block)).

Definition step_ (M : nat -> Z) (h : sha1_state) (t : Z) : sha1_state :=
  let T := to_u 32 (ROTL 5 (sa h) + f_ t (sb h) (sc h) (sd h) + se h + K_ t + W_ (S (Z.to_nat t)) M (Z.to_nat t)) in
  mkSha1 T (sa h) (ROTL 30 (sb h)) (sc h) (sd h).

Definition block_ (h : sha1_state) (block : list Z) : sha1_state :=
  add_state h (foldl (step_ (word_of block)) h (zrange 0 80)).

(** A one, the fewest zeros that leave 64 bits to a multiple of 512, and the length. *)
Definition pad (msg : list Z) : list Z :=
  let len := Z.of_nat (length msg) in
  msg ++ 0x80 :: replicate (Z.to_nat ((55 - len) mod 64)) 0 ++ htobe 8 (8 * len).

Definition blocks (l : list Z) : list (list Z) :=
  map (fun k => take 64 (drop (64 * k) l)) (seq 0 (length l / 64)).

Definition digest_of (h : sha1_state) : list Z :=
  htobe 4 (sa h) ++ htobe 4 (sb h) ++ htobe 4 (sc h) ++ htobe 4 (sd h) ++ htobe 4 (se h).

Definition sha1 (msg : list Z) : list Z := digest_of (foldl block_ sha1_start (blocks (pad msg))).

(** ** Rounds *)

Lemma testbit_not32 b j : 0 <= j -> Z.testbit (not32 b) j = (j <? 32) && negb (Z.testbit b j).
Proof.
  intros Hj. unfold not32, to_u. destruct (Z.ltb_spec j 32).
  - by rewrite Z.mod_pow2_bits_low, Z.lnot_spec by lia.
  - by rewrite Z.mod_pow2_bits_high by lia.
Qed.

Lemma choose_Ch b c d : choose b c d = Ch b c d.
Proof.
  apply Z.bits_inj'. intros j Hj. unfold choose, Ch.
  rewrite Z.lor_spec, Z.lxor_spec, !Z.land_spec, testbit_not32 by done.
  by destruct (Z.testbit b j), (Z.testbit c j), (Z.testbit d j), (j <? 32).
Qed.

Lemma majority_Maj b c d : majority b c d = Maj b c d.
Proof.
  apply Z.bits_inj'. intros j Hj. unfold majority, Maj.
  rewrite !Z.lor_spec, !Z.lxor_spec, !Z.land_spec.
  by destruct (Z.testbit b j), (Z.testbit c j), (Z.testbit d j).
Qed.

Lemma W_fuel M t : forall n m, (t < n)%nat -> (t < m)%nat -> W_ n M t = W_ m M t.
Proof.
  induction t as [t IH] using lt_wf_ind. intros [|n] [|m] Hn Hm; try lia. cbn [W_].
  destruct (Nat.ltb_spec t 16); [done|].
  rewrite (IH (t - 3)%nat) with (n := n) (m := m), (IH (t - 8)%nat) with (n := n) (m := m),
    (IH (t - 14)%nat) with (n := n) (m := m), (IH (t - 16)%nat) with (n := n) (m := m) by lia.
  done.
Qed.

Lemma W_unfold M t : (16 <= t)%nat ->
  W_ (S t) M t = ROTL 1 (Z.lxor (Z.lxor (Z.lxor (W_ (S (t - 3)) M (t - 3)) (W_ (S (t - 8)) M (t - 8)))
                                (W_ (S (t - 14)) M (t - 14))) (W_ (S (t - 16)) M (t - 16))).
Proof.
  intros Ht. rewrite !(fun d Hd => W_fuel M (t - d) (S (t - d)) t Hd) by lia. cbn [W_].
  by rewrite (proj2 (Nat.ltb_ge t 16)) by lia.
Qed.

Lemma zrange_snoc a b : a <= b -> zrange a (b + 1) = zrange a b ++ [b].
Proof.
  intros Hab. unfold zrange. replace (Z.to_nat (b + 1 - a)) with (S (Z.to_nat (b - a))) by lia.
  rewrite seq_S, map_app. cbn. do 2 f_equal. lia.
Qed.

Lemma rotl1_ROTL x : rotl1 x = ROTL 1 x.
Proof. done. Qed.

Lemma rotl5_ROTL x : rotl5 x = ROTL 5 x.
Proof. done. Qed.
Lemma rotl30_ROTL x : rotl30 x = ROTL 30 x.
Proof. done. Qed.

Lemma extend_length W t : length (extend_word W t) = S (length W).
Proof. unfold extend_word. rewrite length_app. cbn. lia. Qed.

Lemma schedule_prefix frag n : (n <= 64)%nat ->
  length (foldl extend_word (words frag) (zrange 16 (16 + Z.of_nat n))) = (16 + n)%nat /\
  forall k, (k < 16 + n)%nat ->
    foldl extend_word (words frag) (zrange 16 (16 + Z.of_nat n)) !!! k = W_ (S k) (word_of frag) k.
Proof.
  induction n as [|n IH]; intros Hn.
  - rewrite zrange_nil by lia. cbn [foldl]. split; [done|]. intros k Hk.
    cbn [W_]. rewrite (proj2 (Nat.ltb_lt k 16)) by lia.
    unfold words. by rewrite list_lookup_total_alt, list_lookup_fmap, lookup_seq_lt by lia.
  - destruct (IH ltac:(lia)) as [HL HW]. replace (16 + Z.of_nat (S n)) with (16 + Z.of_nat n + 1) by lia.
    rewrite zrange_snoc, foldl_app by lia. cbn [foldl].
    set (W := foldl _ _ _) in *. rewrite extend_length, HL. split; [lia|].
    intros k Hk. unfold extend_word. destruct (decide (k < 16 + n)%nat) as [Hlt|Hge].
    + rewrite lookup_total_app_l by lia. auto.
    + assert (k = (16 + n)%nat) as -> by lia.
      rewrite lookup_total_app_r, HL, Nat.sub_diag by lia. cbn [lookup_total list_lookup_total].
      replace (Z.to_nat (16 + Z.of_nat n - 3)) with (16 + n - 3)%nat by lia.
      replace (Z.to_nat (16 + Z.of_nat n - 8)) with (16 + n - 8)%nat by lia.
      replace (Z.to_nat (16 + Z.of_nat n - 14)) with (16 + n - 14)%nat by lia.
      replace (Z.to_nat (16 + Z.of_nat n - 16)) with (16 + n - 16)%nat by lia.
      rewrite !HW, rotl1_ROTL by lia. by rewrite (W_unfold (word_of frag) (16 + n)) by lia.
Qed.

Lemma schedule_W frag t : (t < 80)%nat -> schedule frag !!! t = W_ (S t) (word_of frag) t.
Proof.
  intros Ht. destruct (schedule_prefix frag 64) as [_ HW]; [lia|].
  unfold schedule. replace 80 with (16 + Z.of_nat 64) by lia. by apply HW.
Qed.

Lemma foldl_eq {A B} (f g : A -> B -> A) (l : list B) : forall a,
  (forall a x, x ∈ l -> f a x = g a x) -> foldl f a l = foldl g a l.
Proof.
  induction l as [|x l IH]; intros a H; [done|]. cbn. rewrite H by left. apply IH.
  intros. apply H. by right.
Qed.

Lemma rounds_steps frag s :
  sha1_rounds (schedule frag) s
  = foldl (step_ (word_of frag)) s (zrange 0 80).
Proof.
  change (zrange 0 80) with (zrange 0 20 ++ zrange 20 40 ++ zrange 40 60 ++ zrange 60 80).
  rewrite !foldl_app. unfold sha1_rounds.
  assert (H : forall lo hi f k s0, 0 <= lo -> hi <= 80 ->
    (forall t b c d, lo <= t < hi -> f b c d = f_ t b c d /\ k = K_ t) ->
    foldl (sha1_pass f k (schedule frag)) s0 (zrange lo hi)
    = foldl (step_ (word_of frag)) s0 (zrange lo hi)).
  { intros lo hi f k s0 Hlo Hhi Hf. apply foldl_eq. intros h t Ht%elem_of_zrange.
    unfold sha1_pass, step_. destruct (Hf t (sb h) (sc h) (sd h) Ht) as [-> ->].
    rewrite (schedule_W frag (Z.to_nat t)) by lia. rewrite rotl5_ROTL, rotl30_ROTL.
    f_equal. f_equal. ring. }
  rewrite !H; try done; try lia; intros t b c d Ht; unfold f_, K_;
    repeat match goal with |- context [t <? ?n] => destruct (Z.ltb_spec t n); try lia end;
    by rewrite ?choose_Ch, ?majority_Maj.
Qed.

(** ** Padding *)

Lemma htobe_length n v : length (htobe n v) = n.
Proof. unfold htobe. by rewrite length_rev, le_enc_length. Qed.

Lemma foldM_pure {S A B} (f : B -> A -> M S B) (g : B -> A -> B) (l : list A) : forall b s,
  (forall b x s, x ∈ l -> f b x s = Ok (g b x) s) -> foldM l f b s = Ok (foldl g b l) s.
Proof.
  induction l as [|x l IH]; intros b s H; [done|]. cbn. rewrite (bind_Ok _ _ _ _ _ (H b x s ltac:(left))).
  apply IH. intros. apply H. by right.
Qed.

Section lengths.
Context (q r : Z) (Hq : 0 <= q) (Hr : 0 <= r < 64) (Hfit : 8 * (64 * q + r) + 577 < 2 ^ 64).

Lemma padded_length :
  Z.shiftr (padded_bit_length (8 * (64 * q + r))) 3 = if r <? 56 then 64 * (q + 1) else 64 * (q + 2).
Proof.
  unfold padded_bit_length. rewrite (to_u_id 64 (_ + 1 + 64)) by lia.
  rewrite Z.shiftr_div_pow2 by lia. change (2 ^ 3) with 8.
  destruct (Z.ltb_spec r 56).
  - replace ((8 * (64 * q + r) + 1 + 64) mod 512) with (8 * r + 65)
      by (apply (Z.mod_unique_pos _ _ q); lia).
    rewrite to_u_id by lia. symmetry. apply (Z.div_unique_pos _ _ _ 0); lia.
  - replace ((8 * (64 * q + r) + 1 + 64) mod 512) with (8 * r + 65 - 512)
      by (apply (Z.mod_unique_pos _ _ (q + 1)); lia).
    rewrite to_u_id by lia. symmetry. apply (Z.div_unique_pos _ _ _ 0); lia.
Qed.

Lemma zeros_length : r < 56 -> (55 - (64 * q + r)) mod 64 = 55 - r.
Proof. intros. symmetry. apply (Z.mod_unique_pos _ _ (- q)); lia. Qed.
End lengths.

Lemma zinsert_app {A} (l1 l2 : list A) x y :
  zinsert (l1 ++ x :: l2) (Z.of_nat (length l1)) y = Some (l1 ++ y :: l2).
Proof.
  unfold zinsert. rewrite (proj2 (in_bounds_spec _ _ _)) by (rewrite length_app; cbn; lia).
  rewrite Nat2Z.id. rewrite <- (Nat.add_0_r (length l1)) at 1. by rewrite insert_app_r.
Qed.

Lemma slice_get_take {A} (l : list A) (a : Z) (n : nat) : 0 <= a -> a + Z.of_nat n <= Z.of_nat (length l) ->
  slice_get l a n = Some (take n (drop (Z.to_nat a) l)).
Proof. intros. unfold slice_get. by rewrite (proj2 (in_bounds_spec _ _ _)) by lia. Qed.

Lemma htobe_bytes n v : Forall is_byte (htobe n v).
Proof. unfold htobe. apply Forall_rev, le_enc_bytes. Qed.

Lemma sha1_bytes msg : Forall is_byte (sha1 msg).
Proof. unfold sha1, digest_of. rewrite !Forall_app. repeat split; apply htobe_bytes. Qed.

Lemma sha1_length msg : length (sha1 msg) = 20%nat.
Proof. unfold sha1, digest_of. by rewrite !length_app, !htobe_length. Qed.

Lemma fold_blocks (p rest : list Z) n s : length p = (64 * Z.to_nat n)%nat -> 0 <= n ->
  foldl (fun h i => block_ h (take 64 (drop (Z.to_nat i) (p ++ rest)))) s (map (fun k => 64 * k) (zrange 0 n))
  = foldl block_ s (blocks p).
Proof.
  intros HL Hn. unfold blocks, zrange. rewrite HL, Nat.mul_comm, Nat.div_mul, Z.sub_0_r by lia.
  change @map with (fun A B => @fmap list _ A B). cbv beta. rewrite !foldl_fmap.
  apply foldl_eq. intros h k Hk%elem_of_seq. f_equal.
  replace (Z.to_nat (64 * (0 + Z.of_nat k))) with (64 * k)%nat by lia.
  rewrite drop_app_le, take_app_le by (rewrite ?length_drop; lia). done.
Qed.

(** C28: compute_sha1 is SHA-1 for messages whose length modulo 64 is below 56; for the
    other lengths the padded message has a block more than the buffer of len + 64 bytes
    holds, and the length is written behind the buffer. *)
Theorem sha1_correct {S} msg (s : S) :
  8 * Z.of_nat (length msg) + 577 < 2 ^ 64 ->
  compute_sha1 msg s =
    if Z.of_nat (length msg) mod 64 <? 56 then Ok (sha1 msg) s else Undef.
Proof.
  intros Hfit. unfold compute_sha1. set (len := Z.of_nat (length msg)) in *.
  set (q := len / 64). set (r := len mod 64).
  assert (Hlen : len = 64 * q + r) by (apply Z.div_mod; lia).
  assert (Hr : 0 <= r < 64) by (apply Z.mod_pos_bound; lia).
  assert (Hq : 0 <= q) by (apply Z.div_pos; lia).
  rewrite (to_u_id 64 (len * 8)), (Z.mul_comm len 8) by lia.
  assert (Hpl : Z.shiftr (padded_bit_length (8 * len)) 3 = if r <? 56 then 64 * (q + 1) else 64 * (q + 2)).
  { rewrite Hlen in Hfit |- *. by apply padded_length. }
  rewrite Hpl.
  change (replicate 64 0) with (0 :: replicate 63 0).
  unfold len at 1. rewrite zinsert_app. cbn [of_option]. rewrite bind_ret_l.
  destruct (Z.ltb_spec r 56) as [Hs|Hs].
  - pose proof (zeros_length q r Hr Hs) as Hz. rewrite <- Hlen in Hz.
    assert (Hdata : msg ++ 0x80 :: replicate 63 0
                    = (msg ++ 0x80 :: replicate (Z.to_nat (55 - r)) 0) ++ replicate 8 0 ++ replicate (Z.to_nat r) 0).
    { rewrite <- app_assoc. f_equal. cbn [app]. f_equal. rewrite <- !replicate_add. f_equal. lia. }
    rewrite Hdata.
    assert (Hpre : Z.of_nat (length (msg ++ 0x80 :: replicate (Z.to_nat (55 - r)) 0)) = 64 * (q + 1) - 8).
    { rewrite length_app. cbn [length]. rewrite length_replicate. lia. }
    rewrite <- Hpre at 1. rewrite slice_set_app by (rewrite htobe_length; done).
    cbn [of_option]. rewrite bind_ret_l.
    set (data := _ ++ htobe 8 (8 * len) ++ _).
    assert (Hpad : data = pad msg ++ replicate (Z.to_nat r) 0).
    { unfold data, pad. fold len. rewrite Hz, <- !app_assoc. cbn [app]. by rewrite <- app_assoc. }
    assert (HL : length (pad msg) = (64 * Z.to_nat (q + 1))%nat).
    { unfold pad. fold len. rewrite Hz, length_app. cbn [length]. rewrite length_app, length_replicate, htobe_length. lia. }
    replace ((64 * (q + 1) + 63) / 64) with (q + 1) by (apply (Z.div_unique_pos _ _ _ 63); lia).
    erewrite bind_Ok; [|apply (foldM_pure _ (fun h i => block_ h (take 64 (drop (Z.to_nat i) data))))].
    + unfold ret, sha1, digest_of. rewrite Hpad, fold_blocks; [done|exact HL|lia].
    + intros h i s0 Hi. apply list_elem_of_fmap in Hi as (k & -> & Hk%elem_of_zrange).
      unfold sha1_block. rewrite slice_get_take by (rewrite ?Hpad, ?length_app, ?HL; lia). cbn [of_option].
      by rewrite bind_ret_l, rounds_steps.
  - unfold slice_set. rewrite htobe_length.
    destruct (in_bounds _ _ 8) eqn:E; [|done]. apply in_bounds_spec in E.
    rewrite length_app in E. cbn [length] in E. rewrite length_replicate in E. lia.
Qed.

(** ** Base64 *)

Definition sextet (i : Z) : Z := nth (Z.to_nat i) base64set 0.

(** RFC 4648, section 4: three bytes are four digits to the base 64. *)
Fixpoint base64 (bs : list Z) : list Z :=
  match bs with
  | a :: b :: c :: bs' =>
    sextet (a / 4) :: sextet (a mod 4 * 16 + b / 16) :: sextet (b mod 16 * 4 + c / 64) :: sextet (c mod 64)
    :: base64 bs'
  | [a; b] => [sextet (a / 4); sextet (a mod 4 * 16 + b / 16); sextet (b mod 16 * 4); equals_sign]
  | [a] => [sextet (a / 4); sextet (a mod 4 * 16); equals_sign; equals_sign]
  | [] => []
  end.

Definition digit_of (c : Z) : option Z := 
  '(i, _) ← list_find (fun d => c = d) base64set; Some (Z.of_nat i).

Fixpoint decode64 (cs : list Z) : option (list Z) :=
  match cs with
  | [] => Some []
  | c0 :: c1 :: c2 :: c3 :: cs' =>
    v0 ← digit_of c0; v1 ← digit_of c1;
    match digit_of c2, digit_of c3 with
    | Some v2, Some v3 =>
      bs ← decode64 cs';
      Some (v0 * 4 + v1 / 16 :: v1 mod 16 * 16 + v2 / 4 :: v2 mod 4 * 64 + v3 :: bs)
    | Some v2, None =>
      if bool_decide (c3 = equals_sign /\ cs' = []) then Some [v0 * 4 + v1 / 16; v1 mod 16 * 16 + v2 / 4] else None
    | None, _ =>
      if bool_decide (c2 = equals_sign /\ c3 = equals_sign /\ cs' = []) then Some [v0 * 4 + v1 / 16] else None
    end
  | _ => None
  end.

#[local] Ltac Zify.zify_post_hook ::= Z.div_mod_to_equations.

(** Induction in steps of three. *)
Lemma three_ind (P : list Z -> Prop) :
  P [] -> (forall a, P [a]) -> (forall a b, P [a; b]) ->
  (forall a b c l, P l -> P (a :: b :: c :: l)) -> forall l, P l.
Proof.
  intros H0 H1 H2 H3. fix IH 1. intros [|a [|b [|c l]]]; [done|done|done|apply H3, IH].
Qed.

Lemma digit_sextet i : 0 <= i < 64 -> digit_of (sextet i) = Some i.
Proof.
  intros Hi. assert (H : forallb (fun i => bool_decide (digit_of (sextet i) = Some i)) (zrange 0 64) = true)
    by (vm_compute; done).
  rewrite forallb_forall in H. apply (bool_decide_eq_true_1 _), H, list_elem_of_In, elem_of_zrange. lia.
Qed.

Lemma decode_base64 bs : Forall is_byte bs -> decode64 (base64 bs) = Some bs.
Proof.
  induction bs as [|a|a b|a b c l IH] using three_ind; intros Hbs; [done|..];
    repeat match goal with H : Forall _ (_ :: _) |- _ => apply Forall_cons in H as [? H] end; unfold is_byte in *;
    cbn [base64 decode64]; rewrite !digit_sextet by lia; cbn [mbind option_bind].
  - change (digit_of equals_sign) with (@None Z). rewrite bool_decide_true by done. do 2 f_equal. lia.
  - change (digit_of equals_sign) with (@None Z). rewrite bool_decide_true by done. do 2 f_equal; [lia|f_equal; lia].
  - rewrite IH by done. cbn [mbind option_bind]. do 2 f_equal; [lia|f_equal; [lia|f_equal; lia]].
Qed.

Lemma base64_length bs : Z.of_nat (length (base64 bs)) = 4 * ((Z.of_nat (length bs) + 2) / 3).
Proof.
  induction bs as [|a|a b|a b c l IH] using three_ind; [done..|]. cbn [base64 length].
  rewrite !Nat2Z.inj_succ, IH. lia.
Qed.

(** The expressions on bits are quotients and remainders. *)
Lemma lor_add x y k : 0 <= k -> 0 <= y < 2 ^ k -> Z.lor (Z.shiftl x k) y = x * 2 ^ k + y.
Proof.
  intros Hk Hy. rewrite <- Z.shiftl_mul_pow2 by done.
  assert (Hd : Z.land (Z.shiftl x k) y = 0).
  { apply Z.bits_inj'. intros j Hj. rewrite Z.land_spec, Z.shiftl_spec, Z.testbit_0_l by done.
    destruct (Z.lt_ge_cases j k).
    - by rewrite Z.testbit_neg_r by lia.
    - rewrite <- (Z.mod_small y (2 ^ k)), Z.mod_pow2_bits_high by lia. apply andb_false_r. }
  by rewrite Z.add_nocarry_lxor, Z.lxor_lor.
Qed.

Lemma sextet_bits a b : is_byte a -> is_byte b ->
  Z.shiftr a 2 = a / 4 /\ Z.land a 0x3F = a mod 64 /\ Z.shiftl (Z.land a 3) 4 = a mod 4 * 16 /\
  Z.shiftl (Z.land a 0xF) 2 = a mod 16 * 4 /\
  Z.lor (Z.shiftl (Z.land a 3) 4) (Z.shiftr b 4) = a mod 4 * 16 + b / 16 /\
  Z.lor (Z.shiftl (Z.land a 0xF) 2) (Z.shiftr b 6) = a mod 16 * 4 + b / 64.
Proof.
  intros Ha Hb. unfold is_byte in *.
  change 0x3F with (Z.ones 6). change 3 with (Z.ones 2). change 0xF with (Z.ones 4).
  rewrite !Z.land_ones, !Z.shiftr_div_pow2 by lia. rewrite !lor_add, !Z.shiftl_mul_pow2 by lia. done.
Qed.

Section encoder.
Context {S : Type}.
Implicit Types s : S.

Lemma letter_run i s : 0 <= i < 64 -> letter i s = Ok (sextet i) s.
Proof.
  intros Hi. unfold letter, sextet. destruct (zlookup_is_Some base64set i) as [x Hx]; [cbn; lia|].
  rewrite Hx. cbn [of_option]. unfold ret. f_equal. unfold zlookup in Hx. destruct (i <? 0); [done|].
  symmetry. by apply nth_lookup_Some.
Qed.

Lemma put_run pre post k c s jo : jo = Z.of_nat (length pre + k) -> (k < length post)%nat ->
  put jo c (pre ++ post) s = Ok (pre ++ <[k := c]> post) s.
Proof.
  intros -> Hk. unfold put, zinsert. rewrite (proj2 (in_bounds_spec _ _ _)) by (rewrite length_app; lia).
  by rewrite Nat2Z.id, insert_app_r.
Qed.

Lemma mem_run pre post k x j s : j = Z.of_nat (length pre + k) -> post !! k = Some x ->
  mem_at (pre ++ post) j s = Ok x s.
Proof.
  intros -> Hx. unfold mem_at. rewrite zlookup_of_nat, lookup_app_r by lia.
  by replace (length pre + k - length pre)%nat with k by lia; rewrite Hx.
Qed.

(** One step of an encoder whose next bytes and next places are given by [k]. *)
Ltac step64 k :=
  cbv beta;
  match goal with
  | |- context [bind (mem_at _ _) _ _] => erewrite bind_Ok; [|apply (mem_run _ _ k); [lia|reflexivity]]
  | |- context [bind (letter _) _ _] => erewrite bind_Ok; [|apply letter_run; lia]
  | |- context [bind (put _ _ _) _ _] =>
    erewrite bind_Ok; [|apply (put_run _ _ k); [lia|cbn [length]; lia]]; cbn [insert list_insert]
  | |- context [put _ _ _ _] =>
    rewrite (put_run _ _ k) by (cbn [length]; lia); cbn [insert list_insert]
  end.

Lemma encode_two_run m0 a b l pre x0 x1 post s j jo :
  is_byte a -> is_byte b -> j = Z.of_nat (length m0) -> jo = Z.of_nat (length pre) ->
  encode_two (m0 ++ a :: b :: l) j jo (pre ++ x0 :: x1 :: post) s
  = Ok (pre ++ sextet (a / 4) :: sextet (a mod 4 * 16 + b / 16) :: post) s.
Proof.
  intros Ha Hb Hj Hjo. unfold encode_two. destruct (sextet_bits a b Ha Hb) as (E & _ & _ & _ & E' & _).
  unfold is_byte in *. step64 0%nat. step64 1%nat. rewrite E, E'. step64 0%nat. step64 0%nat. step64 0%nat.
  by step64 1%nat.
Qed.

Lemma encode_group_run m0 a b c l pre x0 x1 x2 x3 post s j jo :
  is_byte a -> is_byte b -> is_byte c -> j = Z.of_nat (length m0) -> jo = Z.of_nat (length pre) ->
  encode_group (m0 ++ a :: b :: c :: l) j jo (pre ++ x0 :: x1 :: x2 :: x3 :: post) s
  = Ok (pre ++ sextet (a / 4) :: sextet (a mod 4 * 16 + b / 16) :: sextet (b mod 16 * 4 + c / 64)
            :: sextet (c mod 64) :: post) s.
Proof.
  intros Ha Hb Hc Hj Hjo. unfold encode_group.
  rewrite (bind_Ok _ _ _ _ _ (encode_two_run _ _ _ _ _ _ _ _ _ _ _ Ha Hb Hj Hjo)).
  destruct (sextet_bits b c Hb Hc) as (_ & _ & _ & _ & _ & E). destruct (sextet_bits c c Hc Hc) as (_ & E' & _).
  unfold is_byte in *. step64 1%nat. step64 2%nat. rewrite E, E'. step64 0%nat. step64 0%nat. step64 2%nat.
  by step64 3%nat.
Qed.

Lemma encode_groups_run bs : forall n m0 l pre post s j jo,
  Forall is_byte bs -> length bs = (3 * n)%nat -> j = Z.of_nat (length m0) -> jo = Z.of_nat (length pre) ->
  encode_groups n (m0 ++ bs ++ l) j jo (pre ++ replicate (4 * n) 0 ++ post) s
  = Ok (pre ++ base64 bs ++ post) s.
Proof.
  induction bs as [|a|a b|a b c bs IH] using three_ind; intros n m0 l pre post s j jo Hbs Hn Hj Hjo;
    destruct n as [|n]; cbn [length] in Hn; try lia; [done|].
  repeat match goal with H : Forall _ (_ :: _) |- _ => apply Forall_cons in H as [? H] end.
  replace (4 * Datatypes.S n)%nat with (Datatypes.S (Datatypes.S (Datatypes.S (Datatypes.S (4 * n))))) by lia.
  cbn [replicate app encode_groups base64].
  rewrite (bind_Ok _ _ _ _ _ (encode_group_run m0 a b c (bs ++ l) pre 0 0 0 0 _ s j jo ltac:(done) ltac:(done) ltac:(done) Hj Hjo)).
  specialize (IH n (m0 ++ [a; b; c]) l (pre ++ [sextet (a / 4); sextet (a mod 4 * 16 + b / 16);
    sextet (b mod 16 * 4 + c / 64); sextet (c mod 64)]) post s (j + 3) (jo + 4)).
  rewrite <- !app_assoc in IH. cbn [app] in IH. apply IH; rewrite ?length_app; cbn [length]; done || lia.
Qed.

Lemma base64_app n : forall bs l, length bs = (3 * n)%nat -> base64 (bs ++ l) = base64 bs ++ base64 l.
Proof.
  induction n as [|n IH]; intros [|a [|b [|c bs]]] l Hn; cbn [length] in Hn; try lia; [done|].
  cbn [base64 app]. rewrite IH by lia. done.
Qed.

(** The size of the text. *)
Lemma out_len_run (n r : nat) s : (r < 3)%nat -> 4 * Z.of_nat n + 4 <= 2 ^ 31 - 1 \/ r = 0%nat /\ 4 * Z.of_nat n <= 2 ^ 31 - 1 ->
  (if Z.of_nat r =? 0 then ret (to_s 32 (Z.of_nat n * 4)) else checked I32 (to_s 32 (Z.of_nat n * 4) + 4)) s
  = Ok (Z.of_nat (4 * n + (if (r =? 0)%nat then 0 else 4))) s.
Proof.
  intros Hr Hn. rewrite to_s_id by lia. destruct r as [|r].
  - cbn [Nat.eqb]. change (Z.of_nat 0 =? 0) with true. cbv iota. unfold ret. f_equal. lia.
  - cbn [Nat.eqb]. rewrite (proj2 (Z.eqb_neq _ _)) by lia. unfold checked.
    replace (in_range I32 _) with true.
    2:{ symmetry. apply andb_true_iff. rewrite Z.leb_le, Z.ltb_lt. change (bits I32) with 32. lia. }
    unfold ret. f_equal. lia.
Qed.

Lemma encode_rest_run bs l pre s j jo :
  Forall is_byte l -> (length l < 3)%nat -> j = Z.of_nat (length bs) -> jo = Z.of_nat (length pre) ->
  encode_rest (bs ++ l) (Z.of_nat (length l)) j jo (pre ++ replicate (if (length l =? 0)%nat then 0 else 4) 0) s
  = Ok (pre ++ base64 l) s.
Proof.
  intros Hl Hlen Hj Hjo. destruct l as [|a [|b [|c l]]]; cbn [length] in Hlen; try lia.
  - cbn. by rewrite app_nil_r.
  - apply Forall_cons in Hl as [Ha _]. destruct (sextet_bits a a Ha Ha) as (E & _ & E' & _).
    unfold is_byte in Ha. cbn [length Nat.eqb replicate]. unfold encode_rest. change (Z.of_nat 1 =? 1) with true. cbv iota.
    step64 0%nat. rewrite E, E'. step64 0%nat. step64 0%nat. step64 0%nat. step64 1%nat. step64 2%nat. by step64 3%nat.
  - apply Forall_cons in Hl as [Ha Hl]. apply Forall_cons in Hl as [Hb _].
    destruct (sextet_bits b b Hb Hb) as (_ & _ & _ & E & _).
    cbn [length Nat.eqb replicate]. unfold encode_rest. change (Z.of_nat 2 =? 1) with false. change (Z.of_nat 2 =? 2) with true. cbv iota.
    rewrite (bind_Ok _ _ _ _ _ (encode_two_run _ _ _ _ _ _ _ _ _ _ _ Ha Hb Hj Hjo)).
    unfold is_byte in *. step64 1%nat. rewrite E. step64 0%nat. step64 2%nat. by step64 3%nat.
Qed.
End encoder.

Lemma encode_base64_run {S} bs (s : S) :
  Forall is_byte bs -> 4 * ((Z.of_nat (length bs) + 2) / 3) < 2 ^ 31 ->
  encode_base64 bs s = Ok (base64 bs) s.
Proof.
  intros Hbs Hlen. unfold encode_base64. set (len := Z.of_nat (length bs)) in *.
  destruct (Z.eqb_spec len 0) as [H0|H0]; [by destruct bs|].
  set (n := (length bs / 3)%nat). pose proof (Nat.div_mod (length bs) 3 ltac:(lia)) as Hdm. fold n in Hdm.
  pose proof (Nat.mod_upper_bound (length bs) 3 ltac:(lia)) as Hmod.
  assert (Hn : len / 3 = Z.of_nat n) by (unfold len, n; by rewrite Nat2Z.inj_div).
  assert (Hr : len mod 3 = Z.of_nat (length bs mod 3)) by (unfold len; by rewrite Nat2Z.inj_mod).
  rewrite Hr, Hn. erewrite bind_Ok; [|apply out_len_run; lia].
  cbv beta. rewrite (proj2 (Z.ltb_ge _ _)), !Nat2Z.id, replicate_add by lia.
  set (bs1 := take (3 * n) bs). set (bs2 := drop (3 * n) bs).
  assert (Ebs : bs = bs1 ++ bs2) by (symmetry; apply take_drop).
  assert (L1 : length bs1 = (3 * n)%nat) by (unfold bs1; rewrite length_take; lia).
  assert (L2 : length bs2 = (length bs mod 3)%nat) by (unfold bs2; rewrite length_drop; lia).
  assert (Hb12 : Forall is_byte bs1 /\ Forall is_byte bs2) by (by rewrite Ebs, Forall_app in Hbs).
  rewrite <- L2, Ebs, (base64_app n bs1 bs2 L1).
  erewrite bind_Ok; [|by apply (encode_groups_run bs1 n [] bs2 []); [tauto|..]].
  cbn [app]. apply encode_rest_run; [tauto|lia|lia|].
  rewrite base64_length, L1. lia.
Qed.

(** Encode_base64 of a block of bytes is its Base64 text, of 4 * ceil(n / 3)
    characters, and decoding it gives the bytes back; sizes whose text is longer than an
    int can say are excluded. *)
Theorem base64_roundtrip {S} bs (s : S) :
  Forall is_byte bs -> 4 * ((Z.of_nat (length bs) + 2) / 3) < 2 ^ 31 ->
  exists cs, encode_base64 bs s = Ok cs s /\ decode64 cs = Some bs /\
    Z.of_nat (length cs) = 4 * ((Z.of_nat (length bs) + 2) / 3).
Proof.
  intros Hbs Hlen. exists (base64 bs). rewrite encode_base64_run by done. by rewrite decode_base64, base64_length.
Qed.

(** ** Witnesses *)

Lemma sha1_correct_witness :
  compute_sha1 (bytes_of_string "abc") tt
  = Ok [0xa9; 0x99; 0x3e; 0x36; 0x47; 0x06; 0x81; 0x6a; 0xba; 0x3e; 0x25; 0x71; 0x78; 0x50; 0xc2; 0x6c;
        0x9c; 0xd0; 0xd8; 0x9d] tt /\
  compute_sha1 (bytes_of_string "abc") tt = Ok (sha1 (bytes_of_string "abc")) tt /\
  compute_sha1 (bytes_of_string "dGhlIHNhbXBsZSBub25jZQ==258EAFA5-E914-47DA-95CA-C5AB0DC85B11") tt = Undef.
Proof.
  split; [vm_compute; reflexivity|].
  split.
  - exact (sha1_correct (bytes_of_string "abc") tt eq_refl).
  - exact (sha1_correct (bytes_of_string "dGhlIHNhbXBsZSBub25jZQ==258EAFA5-E914-47DA-95CA-C5AB0DC85B11") tt eq_refl).
Defined.

Lemma base64_roundtrip_witness :
  exists cs, encode_base64 (bytes_of_string "carnal pleas") tt = Ok cs tt /\
    decode64 cs = Some (bytes_of_string "carnal pleas").
Proof.
  destruct (base64_roundtrip (bytes_of_string "carnal pleas") tt) as (cs & H1 & H2 & _).
  - repeat constructor; vm_compute; discriminate.
  - vm_compute. reflexivity.
  - exists cs. split; assumption.
Defined.
