(* ===== verification/Websocket.v ===== *)
(** * Websocket: HTTP requests, websocket frames and the server of a connection

    core/src/websocket.cpp (reading requests and frames), send_ws of
    core/src/state_machine_simulation_core_event_handling.cpp (writing a frame) and
    comm_act_as_websocket_server of core/src/sockets/generic_tcp_communication.cpp.

    A socket holds what will arrive as a list of segments: a call of recv gets at most
    one of them. [room] is the number of bytes the connection still takes. Text is a
    list of bytes. *)

From S2P Require Import Prelude MachineInt Ast Digest.

(** ** Sockets *)

Record socket := mkSocket { incoming : list (list Z); outgoing : list Z; room : Z }.

Definition with_incoming x (s : socket) := mkSocket x (outgoing s) (room s).

(** recv(sck, buf, n, 0); nothing is read from a closed connection. *)
Definition recv (n : Z) : M socket (list Z) := fun s =>
  match incoming s with
  | [] => Ok [] s
  | seg :: segs =>
    let rest := drop (Z.to_nat n) seg in
    Ok (take (Z.to_nat n) seg) (with_incoming (match rest with [] => segs | _ => rest :: segs end) s)
  end.

(** write(sck, bs, |bs|): the number of bytes written, -1 for an error. *)
Definition write (bs : list Z) : M socket Z := fun s =>
  match bs with
  | [] => Ok 0 s
  | _ =>
    if room s <=? 0 then Ok (-1) s
    else
      let sent := take (Z.to_nat (room s)) bs in
      let n := Z.of_nat (length sent) in
      Ok n (mkSocket (incoming s) (outgoing s ++ sent) (room s - n))
  end.

(** ** HTTP *)

Definition http_header_t : Type := list (list Z * list Z).

Definition get_http_attribute_content (attr : list Z) (http_header : http_header_t) : option (list Z) :=
  snd <$> List.find (fun v => bool_decide (fst v = attr)) http_header.

Definition field_with_content (attr value : list Z) (http_header : http_header_t) : bool :=
  match get_http_attribute_content attr http_header with
  | Some c => bool_decide (c = value)
  | None => false
  end.

Definition CR : Z := 13.
Definition LF : Z := 10.
Definition SP : Z := 32.
Definition COLON : Z := 58.
Definition eom : list Z := [CR; LF; CR; LF].

(** [for(buf_pos = 0; buf_pos < readbytes; ++buf_pos)]: [eom_pos] behind the bytes, and the
    position of the last byte of the request when it is there. *)
Fixpoint scan_eom (eom_pos : nat) (buf : list Z) (buf_pos : Z) : nat * option Z :=
  match buf with
  | [] => (eom_pos, None)
  | b :: buf' =>
    let eom_pos := if bool_decide (eom !! eom_pos = Some b) then S eom_pos else O in
    if (eom_pos =? length eom)%nat then (eom_pos, Some buf_pos)
    else scan_eom eom_pos buf' (buf_pos + 1)
  end.

(** The C string at the start of a block, which a zero ends. *)
Definition c_str (bs : list Z) : list Z := default [] (until_nul (bs ++ [0])).

Definition buf_size : Z := 4096.

(** The loop over recv: the text of the request and the unconsumed data. *)
Fixpoint http_loop (fuel : nat) (eom_pos : nat) (buffer : list Z) : M socket (option (list Z * list Z)) :=
  match fuel with
  | O => out_of_fuel
  | S fuel' =>
    let! buf := recv (buf_size - 1) in
    match buf with
    | [] => ret None
    | _ =>
      match scan_eom eom_pos buf 0 with
      | (_, Some buf_pos) =>
        let rest := drop (Z.to_nat (buf_pos + 1)) buf in
        ret (Some (buffer ++ c_str (take (Z.to_nat (buf_pos + 1)) buf), c_str rest))
      | (eom_pos, None) => http_loop fuel' eom_pos (buffer ++ c_str buf)
      end
    end
  end.

Section parser.
Context {S : Type}.

(** [buffer[i]] of a std::string. *)
Definition char_at (buffer : list Z) (i : Z) : M S Z :=
  if i =? Z.of_nat (length buffer) then ret 0 else of_option (zlookup buffer i).

Definition substr (buffer : list Z) (pos n : Z) : M S (list Z) :=
  if Z.of_nat (length buffer) <? pos then throw (RuntimeError "basic_string::substr")
  else ret (take (Z.to_nat n) (drop (Z.to_nat pos) buffer)).

(** [for(;j < i && p(buffer[j]);++j)] *)
Fixpoint skip (p : Z -> bool) (n : nat) (buffer : list Z) (j i : Z) : M S Z :=
  match n with
  | O => ret j
  | Datatypes.S n' =>
    if j <? i then
      let! c := char_at buffer j in
      if p c then skip p n' buffer (j + 1) i else ret j
    else ret j
  end.

(** [for(;buffer[cont_end] == ' ';--cont_end)] *)
Fixpoint back (n : nat) (buffer : list Z) (cont_end : Z) : M S Z :=
  match n with
  | O => ret cont_end
  | Datatypes.S n' =>
    let! c := char_at buffer cont_end in
    if c =? SP then back n' buffer (cont_end - 1) else ret cont_end
  end.

(** A line of the header, from [line_start] up to [i]. *)
Definition parse_line (buffer : list Z) (line_start i : Z) : M S (list Z * list Z) :=
  let n := length buffer in
  let! attr_start := skip (fun c => c =? SP) n buffer line_start i in
  let! j := skip (fun c => negb (c =? COLON)) n buffer attr_start i in
  let! attribute := substr buffer attr_start (j - attr_start) in
  let! cont_start := skip (fun c => c =? SP) n buffer (j + 1) i in
  let! cont_end := back n buffer (i - 1) in
  let! content := substr buffer cont_start (to_u 64 (cont_end - cont_start + 1)) in
  ret (attribute, content).

(** [for(size_t i = 0; i < buffer.length();++i)] *)
Fixpoint parse_lines (n : nat) (buffer : list Z) (i line_start : Z) (first_line : list Z)
    (header : http_header_t) : M S (list Z * http_header_t) :=
  match n with
  | O => ret (first_line, header)
  | Datatypes.S n' =>
    if i <? Z.of_nat (length buffer) then
      if (i + 1 <? Z.of_nat (length buffer)) && bool_decide (zlookup buffer i = Some CR)
         && bool_decide (zlookup buffer (i + 1) = Some LF) then
        let! x :=
          if line_start =? 0 then
            let! l := substr buffer line_start i in ret (l, header)
          else if line_start =? i then ret (first_line, header)
          else let! a := parse_line buffer line_start i in ret (first_line, header ++ [a]) in
        parse_lines n' buffer (i + 2) (i + 2) x.1 x.2
      else parse_lines n' buffer (i + 1) line_start first_line header
    else ret (first_line, header)
  end.

Definition parse_request (buffer : list Z) : M S (list Z * http_header_t) :=
  parse_lines (length buffer) buffer 0 0 [] [].
End parser.

(** All that can still be read, and the calls of recv it can take. *)
Definition pending (s : socket) : nat := length (concat (incoming s)) + length (incoming s).

(** The first line, the header and the unconsumed data. *)
Definition read_http_request (unconsumed_data : list Z)
    : M socket (option (list Z * http_header_t) * list Z) :=
  let! s := get in
  let! r := http_loop (S (pending s)) 0 unconsumed_data in
  match r with
  | None => ret (None, [])
  | Some (buffer, unconsumed_data) =>
    let! x := parse_request buffer in
    ret (Some x, unconsumed_data)
  end.

(** ** Frames *)

Record websocket_frame := mkFrame {
  payload : list Z; fin : bool; rsv1 : bool; rsv2 : bool; rsv3 : bool; opcode : Z
}.

(** A read that must give all its bytes. *)
Definition recv_all (n : Z) : M socket (option (list Z)) :=
  let! bs := recv n in
  ret (if Z.of_nat (length bs) =? n then Some bs else None).

(** The largest block operator new gives. *)
Class Memory := { max_alloc : Z }.

Section frames.
Context `{Memory}.

(** The payload, four bytes at a time; [acc]: what has been read. *)
Fixpoint read_payload (fuel : nat) (mask_key : list Z) (payload_len : Z) (acc : list Z)
    : M socket (option (list Z)) :=
  match fuel with
  | O => out_of_fuel
  | S fuel' =>
    let payload_bytes_read := Z.of_nat (length acc) in
    if payload_bytes_read <? payload_len then
      let! buf := recv_all (Z.min (payload_len - payload_bytes_read) 4) in
      match buf with
      | None => ret None
      | Some buf =>
        read_payload fuel' mask_key payload_len
          (acc ++ imap (fun i b => Z.lxor b (mask_key !!! ((length acc + i) mod 4)%nat)) buf)
      end
    else ret (Some acc)
  end.

Definition payload_length (payload_len_1 : Z) : M socket (option Z) :=
  if payload_len_1 =? 126 then
    let! v := recv_all 2 in ret (betoh <$> v)
  else if payload_len_1 =? 127 then
    let! v := recv_all 8 in ret (betoh <$> v)
  else ret (Some payload_len_1).

Definition bit_of (header mask : Z) : bool := negb (Z.land header mask =? 0).

(** [None]: the connection is closed, or a read was short. *)
Definition read_websocket_frame : M socket (option websocket_frame) :=
  let! h := recv_all 2 in
  match h with
  | None => ret None
  | Some h =>
    let header := le_dec h in
    let mask := negb (Z.shiftr header 15 =? 0) in
    let payload_len_1 := Z.land (Z.shiftr header 8) 0x7F in
    let! payload_len := payload_length payload_len_1 in
    match payload_len with
    | None => ret None
    | Some payload_len =>
      let! mask_key := if mask then recv_all 4 else ret (Some [0; 0; 0; 0]) in
      match mask_key with
      | None => ret None
      | Some mask_key =>
        if max_alloc <? payload_len then throw (RuntimeError "vector::_M_default_append")
        else
          let! p := read_payload (S (Z.to_nat payload_len)) mask_key payload_len [] in
          match p with
          | None => ret None
          | Some p =>
            ret (Some (mkFrame p (bit_of header 0x80) (bit_of header 0x40) (bit_of header 0x20)
                               (bit_of header 0x10) (Z.land header 0xF)))
          end
      end
    end
  end.

(** The two bytes in front of a message of [len] bytes. *)
Definition ws_header (len : Z) : Z :=
  let ext1_len := (126 <=? len) && (len <=? 65535) in
  let ext2_len := 65535 <? len in
  let header := 0x80 in
  let header :=
    if negb ext1_len && negb ext2_len then to_u 16 (Z.lor header (Z.shiftl len 8))
    else if ext1_len then Z.lor header (Z.shiftl 126 8)
    else Z.lor header (Z.shiftl 127 8) in
  Z.lor header 1.

(** [write(..) != n] *)
Definition write_all (bs : list Z) (n : Z) : M socket bool :=
  let! wr := write bs in ret (wr =? n).

(** A text message in one frame. *)
Definition send_ws (reply : list Z) : M socket bool :=
  let len := Z.of_nat (length reply) in
  let! b := write_all (le_enc 2 (ws_header len)) 2 in
  if negb b then ret false
  else
    let! b := if (126 <=? len) && (len <=? 65535) then write_all (htobe 2 len) 2 else ret true in
    if negb b then ret false
    else
      let! b := if 65535 <? len then write_all (htobe 8 len) 8 else ret true in
      if negb b then ret false
      else write_all reply (to_s 32 len).

(** ** The server of a connection *)

Record server := mkServer {
  sck : socket;
  reg_socks : gmap string (Z * bool);  (* a name: the descriptor, whether it is valid *)
  main_event_queue : list event_t;
  closed : bool
}.

Definition with_sck x (v : server) := mkServer x (reg_socks v) (main_event_queue v) (closed v).
Definition with_reg_socks x (v : server) := mkServer (sck v) x (main_event_queue v) (closed v).
Definition push_event (e : event_t) (v : server) := mkServer (sck v) (reg_socks v) (main_event_queue v ++ [e]) (closed v).
Definition with_closed (v : server) := mkServer (sck v) (reg_socks v) (main_event_queue v) true.

Definition on_sck {A} (m : M socket A) : M server A := zoom sck with_sck m.

(** The frames up to one with [fin]: the payload of all, the last frame. *)
Fixpoint read_fragments (fuel : nat) (frm : websocket_frame) (acc : list Z)
    : M server (option (websocket_frame * list Z)) :=
  match fuel with
  | O => out_of_fuel
  | S fuel' =>
    if fin frm then ret (Some (frm, acc))
    else
      let! frm := on_sck read_websocket_frame in
      match frm with
      | None => ret None
      | Some frm => read_fragments fuel' frm (acc ++ payload frm)
      end
  end.

Definition text_event (ev_id : string) (text : list Z) : event_t :=
  mkEvent ev_id 0 true None [String_literal (string_of_bytes text)] [] None.

(** [for(;;)]: messages until the connection ends. *)
Fixpoint serve_messages (fuel : nat) (ev_id : string) : M server unit :=
  match fuel with
  | O => out_of_fuel
  | S fuel' =>
    let! frm := on_sck read_websocket_frame in
    match frm with
    | None => ret tt
    | Some frm =>
      let! r := read_fragments (S fuel') frm (payload frm) in
      match r with
      | None => ret tt
      | Some (frm, payload) =>
        do! (if opcode frm =? 1 then modify (push_event (text_event ev_id payload)) else ret tt) in
        serve_messages fuel' ev_id
      end
    end
  end.

Definition upgrade_response (hash : list Z) : list Z :=
  bytes_of_string "HTTP/1.1 101 Switching Protocols" ++ [CR; LF] ++
  bytes_of_string "Upgrade: websocket" ++ [CR; LF] ++
  bytes_of_string "Connection: Upgrade" ++ [CR; LF] ++
  bytes_of_string "Sec-WebSocket-Accept: " ++ hash ++ eom.

Definition websocket_guid : list Z := bytes_of_string "258EAFA5-E914-47DA-95CA-C5AB0DC85B11".

(** The answer to a request for a connection; [None]: there is none. *)
Definition handshake (attrs : http_header_t) : M server (option (list Z)) :=
  if negb (field_with_content (bytes_of_string "Upgrade") (bytes_of_string "websocket") attrs)
     || negb (field_with_content (bytes_of_string "Connection") (bytes_of_string "Upgrade") attrs)
  then ret None
  else
    match get_http_attribute_content (bytes_of_string "Sec-WebSocket-Key") attrs with
    | None => ret None
    | Some key =>
      let! hash := base64_encoded_sha1 (key ++ websocket_guid) in
      ret (Some (upgrade_response hash))
    end.

(** The destructor of the cleanup object. *)
Definition cleanup (sock_name : string) (reg_sock : bool) (v : server) : server :=
  with_closed (if reg_sock then with_reg_socks (<[sock_name := (-1, false)]> (reg_socks v)) v else v).

Definition serve_connection (fd : Z) (ev_id sock_name : string) (reg_sock : bool) : M server unit :=
  let! rhr := on_sck (read_http_request []) in
  match rhr.1 with
  | None => ret tt
  | Some (_, attrs) =>
    let! response := handshake attrs in
    match response with
    | None => ret tt
    | Some response =>
      let! ok := on_sck (write_all response (Z.of_nat (length response))) in
      if negb ok then ret tt
      else
        do! (if reg_sock then modify (fun v => with_reg_socks (<[sock_name := (fd, true)]> (reg_socks v)) v)
             else ret tt) in
        let! v := get in
        serve_messages (S (pending (sck v))) ev_id
    end
  end.

(** The cleanup runs at every return; an exception leaves the function through it. *)
Definition comm_act_as_websocket_server (fd : Z) (ev_id sock_name : string) (reg_sock : bool) : M server unit := fun v =>
  match serve_connection fd ev_id sock_name reg_sock v with
  | Ok _ v' => Ok tt (cleanup sock_name reg_sock v')
  | Throw e v' => Throw e (cleanup sock_name reg_sock v')
  | Undef => Undef
  | OutOfFuel => OutOfFuel
  end.
End frames.
