(* ===== verification/WebsocketSpec.v ===== *)
(** * WebsocketSpec: frames and messages

    [wire] is the encoding of a frame of RFC 6455; the reader inverts it, the writer
    produces it, and the server turns the messages of a connection into events. *)

From S2P Require Import Prelude MachineInt Ast Digest Websocket.

(** ** Frames on the wire *)

Record frame := mkF { f_fin : bool; f_opcode : Z; f_key : option (list Z); f_data : list Z }.

(** The bytes of the data, from position [off] on, with the key. *)
Definition mask (key : list Z) (off : nat) (data : list Z) : list Z :=
  imap (fun i b => Z.lxor b (key !!! ((off + i) mod 4)%nat)) data.

Definition len7 (len : Z) : Z := if len <? 126 then len else if len <=? 65535 then 126 else 127.
Definition len_ext (len : Z) : list Z :=
  if len <? 126 then [] else if len <=? 65535 then htobe 2 len else htobe 8 len.

Definition wire (f : frame) : list Z :=
  let len := Z.of_nat (length (f_data f)) in
  [(if f_fin f then 128 else 0) + f_opcode f; (if f_key f is Some _ then 128 else 0) + len7 len]
  ++ len_ext len
  ++ match f_key f with Some key => key ++ mask key 0 (f_data f) | None => f_data f end.

(** ** Reading *)

(** The socket [s] with [bs] arrived, [segs] to come. *)
Definition feed (s : socket) (bs : list Z) (segs : list (list Z)) : socket :=
  with_incoming (match bs with [] => segs | _ => bs :: segs end) s.

Lemma recv_feed s bs rest segs n : (0 < length bs)%nat -> n = Z.of_nat (length bs) ->
  recv n (feed s (bs ++ rest) segs) = Ok bs (feed s rest segs).
Proof.
  intros Hn ->. unfold feed, recv. destruct bs as [|b bs]; [cbn in Hn; lia|]. cbn [app incoming with_incoming].
  rewrite Nat2Z.id, app_comm_cons, take_app_length, drop_app_length. by destruct rest.
Qed.

Lemma recv_all_feed s bs rest segs n : (0 < length bs)%nat -> n = Z.of_nat (length bs) ->
  recv_all n (feed s (bs ++ rest) segs) = Ok (Some bs) (feed s rest segs).
Proof.
  intros Hn He. unfold recv_all. rewrite (bind_Ok _ _ _ _ _ (recv_feed s bs rest segs n Hn He)).
  rewrite He, Z.eqb_refl. done.
Qed.

Lemma mask_length key off data : length (mask key off data) = length data.
Proof. apply length_imap. Qed.

Lemma mask_app key off l1 l2 : mask key off (l1 ++ l2) = mask key off l1 ++ mask key (off + length l1) l2.
Proof.
  unfold mask. rewrite imap_app. f_equal. apply imap_ext. intros i x _. cbn [compose]. by rewrite Nat.add_assoc.
Qed.

Lemma mask_mask key off data : mask key off (mask key off data) = data.
Proof.
  unfold mask. apply list_eq. intros i. rewrite !list_lookup_imap. destruct (data !! i); cbn; [|done].
  by rewrite Z.lxor_assoc, Z.lxor_nilpotent, Z.lxor_0_r.
Qed.

Lemma mask_zero off data : mask [0; 0; 0; 0] off data = data.
Proof.
  unfold mask. apply list_eq. intros i. rewrite list_lookup_imap. destruct (data !! i); cbn [fmap option_fmap option_map]; [|done].
  pose proof (Nat.mod_upper_bound (off + i) 4 ltac:(lia)) as Hm. revert Hm.
  destruct ((off + i) mod 4)%nat as [|[|[|[|k]]]]; intros Hm;
    [apply f_equal, Z.lxor_0_r..|lia].
Qed.

Lemma read_payload_feed key s rest segs data : forall fuel acc n,
  n = Z.of_nat (length acc + length data) -> (length data < fuel)%nat ->
  read_payload fuel key n acc (feed s (data ++ rest) segs)
  = Ok (Some (acc ++ mask key (length acc) data)) (feed s rest segs).
Proof.
  induction data as [data IH] using (induction_ltof1 _ (@length Z)). unfold ltof in IH.
  intros [|fuel] acc n Hn Hf; [lia|]. cbn [read_payload].
  destruct (Z.ltb_spec (Z.of_nat (length acc)) n) as [Hlt|Hge].
  - set (k := Z.min (n - Z.of_nat (length acc)) 4).
    assert (Hk : (0 < Z.to_nat k <= length data)%nat) by lia.
    rewrite <- (take_drop (Z.to_nat k) data) at 1. rewrite <- app_assoc.
    rewrite (bind_Ok _ _ _ _ _ (recv_all_feed s (take (Z.to_nat k) data) _ segs k
      ltac:(rewrite length_take; lia) ltac:(rewrite length_take; lia))).
    rewrite IH; [|rewrite length_drop; lia|rewrite length_app, length_imap, length_take, length_drop; lia
                 |rewrite length_drop; lia].
    do 2 f_equal. rewrite <- app_assoc. f_equal. rewrite length_app, length_imap.
    fold (mask key (length acc) (take (Z.to_nat k) data)). rewrite <- mask_app. by rewrite take_drop.
  - assert (data = []) as -> by (apply nil_length_inv; lia). cbn. by rewrite app_nil_r.
Qed.

(** The fields of the header. *)
Lemma land_bit h k : 0 <= k -> negb (Z.land h (2 ^ k) =? 0) = Z.testbit h k.
Proof.
  intros Hk. destruct (Z.testbit h k) eqn:E.
  - apply negb_true_iff, Z.eqb_neq. intros H0. apply (f_equal (fun z => Z.testbit z k)) in H0.
    by rewrite Z.land_spec, E, Z.pow2_bits_true, Z.testbit_0_l in H0 by done.
  - apply negb_false_iff, Z.eqb_eq, Z.bits_inj'. intros j Hj. rewrite Z.land_spec, Z.testbit_0_l.
    destruct (decide (j = k)) as [->|Hne]; [by rewrite E|]. by rewrite Z.pow2_bits_false, andb_false_r by done.
Qed.

Lemma odd_eqb n : Z.odd n = (n mod 2 =? 1).
Proof. rewrite Zmod_odd. by destruct (Z.odd n). Qed.

Lemma header_fields (fin mask : bool) op l7 h : 0 <= op < 16 -> 0 <= l7 < 128 ->
  h = le_dec [(if fin then 128 else 0) + op; (if mask then 128 else 0) + l7] ->
  Z.land h 0xF = op /\ bit_of h 0x80 = fin /\ bit_of h 0x40 = false /\ bit_of h 0x20 = false /\
  bit_of h 0x10 = false /\ negb (Z.shiftr h 15 =? 0) = mask /\ Z.land (Z.shiftr h 8) 0x7F = l7.
Proof.
  intros Hop Hl ->. cbn [le_dec]. set (h := _ + 256 * _).
  assert (Hb : forall k, 0 <= k -> bit_of h (2 ^ k) = Z.odd (h / 2 ^ k)).
  { intros k Hk. unfold bit_of. rewrite land_bit by done. by rewrite Z.testbit_odd, Z.shiftr_div_pow2. }
  change 0x80 with (2 ^ 7). change 0x40 with (2 ^ 6). change 0x20 with (2 ^ 5). change 0x10 with (2 ^ 4).
  rewrite !Hb by lia. change (Z.land h 0xF) with (Z.land h (Z.ones 4)). change 0x7F with (Z.ones 7).
  rewrite !Z.land_ones, !Z.shiftr_div_pow2 by lia. rewrite !odd_eqb. unfold h.
  destruct fin, mask; repeat split;
    repeat match goal with
    | |- negb _ = true => apply negb_true_iff
    | |- negb _ = false => apply negb_false_iff
    | |- (_ =? _) = true => apply Z.eqb_eq
    | |- (_ =? _) = false => apply Z.eqb_neq
    end; Z.div_mod_to_equations; lia.
Qed.

Lemma htobe_betoh n v : betoh (htobe n v) = v mod 2 ^ (8 * Z.of_nat n).
Proof. unfold betoh, htobe. by rewrite rev_involutive, le_dec_enc. Qed.

Section reader.
Context `{Memory}.

Lemma payload_length_feed s rest segs len : 0 <= len < 2 ^ 64 ->
  payload_length (len7 len) (feed s (len_ext len ++ rest) segs) = Ok (Some len) (feed s rest segs).
Proof.
  intros Hl. unfold payload_length, len7, len_ext.
  destruct (Z.ltb_spec len 126).
  - rewrite (proj2 (Z.eqb_neq len 126)), (proj2 (Z.eqb_neq len 127)) by lia. done.
  - destruct (Z.leb_spec len 65535); cbn [Z.eqb Pos.eqb].
    + rewrite (bind_Ok _ _ _ _ _ (recv_all_feed s (htobe 2 len) _ segs 2
        ltac:(rewrite htobe_length; lia) ltac:(by rewrite htobe_length))).
      unfold ret. cbn [fmap option_fmap option_map]. rewrite htobe_betoh, Z.mod_small by lia. done.
    + rewrite (bind_Ok _ _ _ _ _ (recv_all_feed s (htobe 8 len) _ segs 8
        ltac:(rewrite htobe_length; lia) ltac:(by rewrite htobe_length))).
      unfold ret. cbn [fmap option_fmap option_map]. rewrite htobe_betoh, Z.mod_small by lia. done.
Qed.

Definition frame_ok (f : frame) : Prop :=
  0 <= f_opcode f < 16 /\ match f_key f with Some key => length key = 4%nat | None => True end /\
  Z.of_nat (length (f_data f)) <= max_alloc /\ Z.of_nat (length (f_data f)) < 2 ^ 64.

Definition read_of (f : frame) : websocket_frame :=
  mkFrame (f_data f) (f_fin f) false false false (f_opcode f).

Lemma len7_range len : 0 <= len -> 0 <= len7 len < 128.
Proof. unfold len7. case_ifs; zbool; lia. Qed.

(** A frame that arrives in one segment is read. *)
Lemma read_wire f s rest segs : frame_ok f ->
  read_websocket_frame (feed s (wire f ++ rest) segs) = Ok (Some (read_of f)) (feed s rest segs).
Proof.
  intros (Hop & Hkey & Hmem & H64). unfold read_websocket_frame, wire. rewrite <- !app_assoc.
  set (len := Z.of_nat (length (f_data f))) in *.
  erewrite bind_Ok; [|apply recv_all_feed; [cbn; lia|done]]. cbv beta iota.
  destruct (header_fields (f_fin f) (if f_key f is Some _ then true else false) (f_opcode f) (len7 len) _
    Hop (len7_range len ltac:(lia)) eq_refl) as (E0 & E1 & E2 & E3 & E4 & E5 & E6).
  replace (if f_key f is Some _ then 128 else 0)
    with (if (if f_key f is Some _ then true else false) then 128 else 0) by by destruct (f_key f).
  rewrite E0, E1, E2, E3, E4, E5, E6.
  erewrite bind_Ok; [|apply payload_length_feed; lia]. cbv beta iota.
  assert (Hm : (max_alloc <? len) = false) by (apply Z.ltb_ge; lia).
  destruct (f_key f) as [key|].
  - rewrite <- app_assoc. erewrite bind_Ok; [|apply recv_all_feed; [lia|by rewrite Hkey]]. cbv beta iota.
    rewrite Hm. erewrite bind_Ok; [|apply read_payload_feed; rewrite ?mask_length; cbn [length]; lia].
    cbn [app length]. by rewrite mask_mask.
  - cbn [ret]. unfold bind at 1, ret at 1. cbv beta iota. rewrite Hm.
    erewrite bind_Ok; [|apply read_payload_feed; cbn [length]; lia]. cbn [app length]. by rewrite mask_zero.
Qed.
End reader.

(** ** Writing *)

Definition sent (s : socket) (bs : list Z) : socket :=
  mkSocket (incoming s) (outgoing s ++ bs) (room s - Z.of_nat (length bs)).

Lemma write_run s bs : Z.of_nat (length bs) <= room s -> write bs s = Ok (Z.of_nat (length bs)) (sent s bs).
Proof.
  intros Hr. unfold write, sent. destruct bs as [|b bs].
  - cbn. rewrite app_nil_r, Z.sub_0_r. by destruct s.
  - rewrite (proj2 (Z.leb_gt _ _)) by (cbn [length] in Hr; lia). by rewrite take_ge by lia.
Qed.

Lemma write_all_run s bs n : Z.of_nat (length bs) <= room s -> n = Z.of_nat (length bs) ->
  write_all bs n s = Ok true (sent s bs).
Proof.
  intros Hr ->. unfold write_all. rewrite (bind_Ok _ _ _ _ _ (write_run s bs Hr)). by rewrite Z.eqb_refl.
Qed.

Lemma sent_app s l1 l2 : sent (sent s l1) l2 = sent s (l1 ++ l2).
Proof.
  unfold sent. cbn [incoming outgoing room]. rewrite <- app_assoc, length_app. f_equal. lia.
Qed.

Definition message (text : list Z) : frame := mkF true 1 None text.

Lemma ws_header_bytes len : 0 <= len -> le_enc 2 (ws_header len) = [129; len7 len].
Proof.
  intros Hl. assert (H : ws_header len = 129 + 256 * len7 len).
  { unfold ws_header, len7. destruct (Z.leb_spec 126 len), (Z.leb_spec len 65535), (Z.ltb_spec 65535 len),
      (Z.ltb_spec len 126); cbn [andb negb]; try lia; [done..|].
    replace (Z.lor 0x80 (Z.shiftl len 8)) with (128 + 256 * len).
    2:{ rewrite Z.lor_comm, (lor_add len 0x80 8) by lia. lia. }
    rewrite to_u_id by lia. replace (128 + 256 * len) with (Z.shiftl (64 + 128 * len) 1)
      by (rewrite Z.shiftl_mul_pow2 by lia; lia).
    rewrite lor_add by lia. lia. }
  rewrite H. pose proof (len7_range len Hl). cbn [le_enc]. f_equal; [|f_equal]; Z.div_mod_to_equations; lia.
Qed.

(** What send_ws writes is one final text frame of RFC 6455, with the length in 7
    bits, 2 bytes or 8 bytes, and a peer that has received it in one piece reads the text
    back; the reply must be shorter than 2^31 bytes and fit in the connection. *)
Theorem send_ws_roundtrip `{Memory} text s peer segs :
  Z.of_nat (length text) < 2 ^ 31 -> Z.of_nat (length text) <= max_alloc ->
  Z.of_nat (length text) + 10 <= room s ->
  exists s', send_ws text s = Ok true s' /\ outgoing s' = outgoing s ++ wire (message text) /\
    read_websocket_frame (with_incoming (wire (message text) :: segs) peer)
    = Ok (Some (mkFrame text true false false false 1)) (with_incoming segs peer).
Proof.
  intros H31 Hmem Hroom. exists (sent s (wire (message text))).
  assert (Hrd : read_websocket_frame (with_incoming (wire (message text) :: segs) peer)
    = Ok (Some (mkFrame text true false false false 1)) (with_incoming segs peer)).
  { pose proof (read_wire (message text) peer [] segs) as Hr. rewrite app_nil_r in Hr. unfold feed in Hr.
    apply Hr. repeat split; cbn [message f_data f_opcode f_key]; lia. }
  split; [|done]. unfold send_ws, wire. set (len := Z.of_nat (length text)) in *.
  cbn [message f_fin f_opcode f_key f_data].
  rewrite ws_header_bytes by lia. fold len. rewrite Z.add_0_l. change (128 + 1) with 129.
  erewrite bind_Ok; [|apply write_all_run; [cbn [length]; lia|done]]. cbv beta. cbn [negb].
  set (s1 := sent s [129; len7 len]).
  assert (Hr1 : room s1 = room s - 2) by done.
  assert (Hext : bind (if (126 <=? len) && (len <=? 65535) then write_all (htobe 2 len) 2 else ret true)
    (fun b => if negb b then ret false
              else let! b := if 65535 <? len then write_all (htobe 8 len) 8 else ret true in
                   if negb b then ret false else write_all text (to_s 32 len)) s1
    = write_all text (to_s 32 len) (sent s1 (len_ext len))).
  { assert (H0 : sent s1 [] = s1) by (unfold sent; cbn; rewrite !app_nil_r, Z.sub_0_r; done).
    unfold len_ext. destruct (Z.ltb_spec len 126).
    - rewrite (proj2 (Z.leb_gt 126 len)), (proj2 (Z.ltb_ge 65535 len)), H0 by lia. done.
    - rewrite (proj2 (Z.leb_le 126 len)) by lia. destruct (Z.leb_spec len 65535); cbn [andb].
      + erewrite bind_Ok; [|apply write_all_run; rewrite htobe_length; lia]. cbv beta. cbn [negb].
        by rewrite (proj2 (Z.ltb_ge 65535 len)) by lia.
      + rewrite (proj2 (Z.ltb_lt 65535 len)) by lia. unfold bind at 1, ret at 1. cbn [negb].
        erewrite bind_Ok; [|apply write_all_run; rewrite htobe_length; lia]. done. }
  rewrite Hext, write_all_run; [by unfold s1; rewrite !sent_app| |by rewrite to_s_id by lia].
  assert (He : Z.of_nat (length (len_ext len)) <= 8)
    by (unfold len_ext; case_ifs; rewrite ?htobe_length; cbn; lia).
  unfold sent, s1. cbn [room sent length]. lia.
Qed.

Lemma recv_all_short s bs segs n : (0 < length bs)%nat -> Z.of_nat (length bs) < n ->
  recv_all n (with_incoming (bs :: segs) s) = Ok None (with_incoming segs s).
Proof.
  intros H0 Hn. unfold recv_all, recv, bind, ret. cbn [incoming with_incoming].
  rewrite take_ge, drop_ge, (proj2 (Z.eqb_neq _ _)) by lia. done.
Qed.

(** Whole groups arrive, then fewer bytes than the next group has. *)
Lemma read_payload_short key s d2 segs n q : forall d1 acc fuel,
  length d1 = (4 * q)%nat -> (0 < length d2 < 4)%nat ->
  Z.of_nat (length acc + length d1 + length d2) < n -> (q < fuel)%nat ->
  read_payload fuel key n acc (with_incoming ((d1 ++ d2) :: segs) s) = Ok None (with_incoming segs s).
Proof.
  induction q as [|q IH]; intros d1 acc [|fuel] H1 H2 Hn Hf; try lia; cbn [read_payload];
    rewrite (proj2 (Z.ltb_lt _ _)) by lia.
  - assert (d1 = []) as -> by (apply nil_length_inv; lia). cbn [app length] in *.
    erewrite bind_Ok; [|apply recv_all_short; lia]. done.
  - assert (Hfeed : with_incoming ((d1 ++ d2) :: segs) s = feed s (take 4 d1 ++ (drop 4 d1 ++ d2)) segs).
    { rewrite app_assoc, take_drop. unfold feed. destruct d1; [cbn in H1; lia|done]. }
    rewrite Hfeed. erewrite bind_Ok; [|apply recv_all_feed; rewrite length_take; lia]. cbv beta iota.
    assert (Hne : feed s (drop 4 d1 ++ d2) segs = with_incoming ((drop 4 d1 ++ d2) :: segs) s).
    { unfold feed. destruct (drop 4 d1 ++ d2) eqn:E; [|done].
      apply (f_equal length) in E. rewrite length_app in E. cbn in E. lia. }
    rewrite Hne. apply IH; rewrite ?length_app, ?length_imap, ?length_drop, ?length_take; lia.
Qed.

(** A frame is lost when it arrives in two segments and the cut is not at a multiple
    of four bytes of its payload: recv gives what has arrived, the reader takes the short
    read for the end of the connection, and what is left of the frame stays unread. *)
Theorem split_frame_lost `{Memory} text s k :
  Z.of_nat (length text) < 126 -> Z.of_nat (length text) <= max_alloc ->
  (k < length text)%nat -> (k mod 4 <> 0)%nat ->
  wire (message text) = 129 :: Z.of_nat (length text) :: text /\
  read_websocket_frame (with_incoming [129 :: Z.of_nat (length text) :: take k text; drop k text] s)
  = Ok None (with_incoming [drop k text] s) /\
  read_websocket_frame (with_incoming [[129]; Z.of_nat (length text) :: text] s)
  = Ok None (with_incoming [Z.of_nat (length text) :: text] s).
Proof.
  intros Hlen Hmem Hk Hmod. set (len := Z.of_nat (length text)) in *.
  assert (H7 : len7 len = len) by (unfold len7; by rewrite (proj2 (Z.ltb_lt _ _)) by lia).
  split; [|split].
  - unfold wire. cbn [message f_fin f_opcode f_key f_data]. fold len. rewrite H7. unfold len_ext.
    by rewrite (proj2 (Z.ltb_lt _ _)) by lia.
  - unfold read_websocket_frame.
    change (with_incoming (_ :: ?segs) s) with (feed s ([129; len] ++ take k text) [drop k text]) at 1.
    erewrite bind_Ok; [|apply recv_all_feed; [cbn; lia|done]]. cbv beta iota.
    destruct (header_fields true false 1 len _ ltac:(lia) ltac:(lia) eq_refl) as (_ & _ & _ & _ & _ & E5 & E6).
    rewrite Z.add_0_l in E5, E6. change (128 + 1) with 129 in E5, E6. rewrite E5, E6.
    unfold payload_length. rewrite (proj2 (Z.eqb_neq len 126)), (proj2 (Z.eqb_neq len 127)) by lia.
    unfold bind at 1, ret at 1. unfold bind at 1, ret at 1.
    rewrite (proj2 (Z.ltb_ge max_alloc len)) by lia.
    pose proof (Nat.div_mod k 4 ltac:(lia)). pose proof (Nat.mod_upper_bound k 4 ltac:(lia)).
    assert (Hsplit : take k text = take (4 * (k / 4)) (take k text) ++ drop (4 * (k / 4)) (take k text))
      by (by rewrite take_drop).
    assert (Hfeed : feed s (take k text) [drop k text] = with_incoming (take k text :: [drop k text]) s).
    { unfold feed. destruct (take k text) eqn:E; [|done]. apply (f_equal length) in E.
      rewrite length_take in E. cbn in E. lia. }
    rewrite Hfeed, Hsplit. erewrite bind_Ok;
      [|apply (read_payload_short _ _ _ _ _ (k / 4)); rewrite ?length_drop, ?length_take; cbn [length]; lia].
    done.
  - unfold read_websocket_frame. erewrite bind_Ok; [|apply recv_all_short; cbn; lia]. done.
Qed.

(** ** Messages *)

(** The frames before the last one, and the last one. *)
Definition ws_message : Type := list frame * frame.

Definition message_data (m : ws_message) : list Z := concat (map f_data m.1) ++ f_data m.2.
Definition message_frames (m : ws_message) : list frame := m.1 ++ [m.2].
Definition stream (fs : list frame) : list Z := concat (map wire fs).

(** The event of a message: the opcode of its last frame decides. *)
Definition event_of (ev_id : string) (m : ws_message) : option event_t :=
  if f_opcode m.2 =? 1 then Some (text_event ev_id (message_data m)) else None.

Section server.
Context `{Memory}.
Implicit Types v : server.

Definition message_ok (m : ws_message) : Prop :=
  Forall (fun f => frame_ok f /\ f_fin f = false) m.1 /\ frame_ok m.2 /\ f_fin m.2 = true.

Definition fed v (bs : list Z) : server := with_sck (feed (sck v) bs []) v.

Lemma fed_fed v a b : fed (fed v a) b = fed v b.
Proof. unfold fed, feed. by destruct v as [[] ? ? ?]. Qed.

Lemma on_sck_run {A} (m : M socket A) v a s' : m (sck v) = Ok a s' -> on_sck m v = Ok a (with_sck s' v).
Proof. intros E. unfold on_sck, zoom. by rewrite E. Qed.

Lemma on_sck_frame f v rest : frame_ok f ->
  on_sck read_websocket_frame (fed v (wire f ++ rest)) = Ok (Some (read_of f)) (fed v rest).
Proof.
  intros Hf. erewrite on_sck_run; [|by apply read_wire]. by destruct v as [[] ? ? ?].
Qed.

Lemma read_fragments_run fs last : forall fuel f v acc rest,
  Forall (fun f => frame_ok f /\ f_fin f = false) fs -> frame_ok last -> f_fin last = true ->
  f_fin f = false -> (length fs + 1 < fuel)%nat ->
  read_fragments fuel (read_of f) acc (fed v (stream (fs ++ [last]) ++ rest))
  = Ok (Some (read_of last, acc ++ concat (map f_data fs) ++ f_data last)) (fed v rest).
Proof.
  induction fs as [|f1 fs IH]; intros [|fuel] f v acc rest Hfs Hl Hfin Hf Hfuel; cbn [length] in Hfuel; try lia;
    cbn [read_fragments read_of fin]; rewrite Hf; unfold stream; cbn [map concat app]; rewrite <- app_assoc.
  - erewrite bind_Ok; [|by apply on_sck_frame]. cbv beta iota.
    destruct fuel; [lia|]. cbn [read_fragments]. unfold read_of at 1. cbn [fin]. by rewrite Hfin.
  - apply Forall_cons in Hfs as [[Hf1 Hn1] Hfs]. erewrite bind_Ok; [|by apply on_sck_frame]. cbv beta iota.
    fold (stream (fs ++ [last])). rewrite IH by (done || lia). cbn [read_of payload]. by rewrite <- !app_assoc.
Qed.

Definition push_events (es : list event_t) v : server :=
  mkServer (sck v) (reg_socks v) (main_event_queue v ++ es) (closed v).

Lemma serve_one m fuel v ev_id rest : message_ok m -> (length (message_frames m) <= fuel)%nat ->
  serve_messages (S fuel) ev_id (fed v (stream (message_frames m) ++ rest))
  = serve_messages fuel ev_id (push_events (option_list (event_of ev_id m)) (fed v rest)).
Proof.
  intros (Hfs & Hl & Hfin) Hfuel. destruct m as [fs last]. unfold message_frames, event_of, message_data in *.
  cbn [fst snd] in *. rewrite length_app in Hfuel. cbn [length] in Hfuel. cbn [serve_messages].
  assert (Hend : forall v', (do! if opcode (read_of last) =? 1
      then modify (push_event (text_event ev_id (concat (map f_data fs) ++ f_data last))) else ret tt in
      serve_messages fuel ev_id) v'
    = serve_messages fuel ev_id (push_events (option_list
        (if f_opcode last =? 1 then Some (text_event ev_id (concat (map f_data fs) ++ f_data last)) else None)) v')).
  { intros v'. cbn [read_of opcode]. destruct (f_opcode last =? 1); [done|].
    unfold push_events. cbn [option_list]. rewrite app_nil_r. by destruct v'. }
  unfold stream. destruct fs as [|f1 fs]; cbn [app map concat] in *; rewrite <- app_assoc.
  - erewrite bind_Ok; [|by apply on_sck_frame]. cbv beta iota. rewrite <- Hend.
    cbn [read_fragments]. unfold read_of at 1. cbn [fin]. by rewrite Hfin.
  - apply Forall_cons in Hfs as [[Hf1 Hn1] Hfs]. erewrite bind_Ok; [|by apply on_sck_frame]. cbv beta iota.
    erewrite bind_Ok; [|apply (read_fragments_run fs last); try done; cbn [length] in Hfuel; lia].
    cbv beta iota. cbn [read_of payload]. rewrite <- Hend. by rewrite <- app_assoc.
Qed.

Lemma serve_all ms : forall fuel v ev_id, Forall message_ok ms ->
  (length (concat (map message_frames ms)) < fuel)%nat ->
  exists v', serve_messages fuel ev_id (fed v (stream (concat (map message_frames ms)))) = Ok tt v' /\
    v' = push_events (omap (event_of ev_id) ms) (fed v []).
Proof.
  induction ms as [|m ms IH]; intros fuel v ev_id Hms Hfuel; cbn [map concat] in *.
  - destruct fuel as [|fuel]; [cbn in Hfuel; lia|]. eexists. split; [|done]. cbn.
    unfold push_events. rewrite app_nil_r. by destruct v as [[] ? ? ?].
  - apply Forall_cons in Hms as [Hm Hms]. rewrite length_app in Hfuel.
    assert (Hlen : (0 < length (message_frames m))%nat) by (unfold message_frames; rewrite length_app; cbn; lia).
    destruct fuel as [|fuel]; [lia|]. unfold stream. rewrite map_app, concat_app. fold (stream (message_frames m)).
    rewrite serve_one by (done || lia).
    set (v1 := push_events (option_list (event_of ev_id m)) v).
    replace (push_events _ (fed v _)) with (fed v1 (stream (concat (map message_frames ms)))) by by destruct v.
    destruct (IH fuel v1 ev_id Hms ltac:(lia)) as (v' & -> & ->). eexists. split; [done|].
    unfold v1, push_events, fed, with_sck. cbn [sck reg_socks main_event_queue closed]. f_equal. rewrite <- app_assoc.
    cbn [omap list_omap]. by destruct (event_of ev_id m).
Qed.
End server.

(** C24: the messages of a connection become events in their order: a connection that has
    received any sequence of messages, each in any number of fragments, masked or not,
    pushes one event for each message whose last frame has opcode 1, with the joined
    payload as its text, and ends. A text message of more than one fragment, whose last
    frame has opcode 0 by RFC 6455, gives no event. *)
Theorem messages_to_events `{Memory} ms ev_id v :
  Forall message_ok ms -> incoming (sck v) = [stream (concat (map message_frames ms))] ->
  exists v', serve_messages (S (pending (sck v))) ev_id v = Ok tt v' /\
    main_event_queue v' = main_event_queue v ++ omap (event_of ev_id) ms /\ incoming (sck v') = [].
Proof.
  intros Hms Hin. set (fs := concat (map message_frames ms)) in *.
  assert (Hlen : forall fs, (length fs <= length (stream fs))%nat).
  { induction fs0 as [|f fs0 IH]; [done|]. unfold stream in *. cbn [map concat]. rewrite length_app.
    unfold wire at 1. cbn [length app]. lia. }
  destruct (serve_all ms (S (pending (sck v))) v ev_id Hms) as (v' & Hrun & ->).
  { unfold pending. rewrite Hin. cbn [concat length]. rewrite app_nil_r. pose proof (Hlen fs). unfold fs in *. lia. }
  fold fs in Hrun. destruct (decide (stream fs = [])) as [Hnil|Hne].
  - assert (ms = []) as ->.
    { destruct ms as [|[? ?] ?]; [done|]. pose proof (Hlen fs) as Hl. rewrite Hnil in Hl. unfold fs, message_frames in Hl.
      cbn in Hl. rewrite !length_app in Hl. cbn in Hl. lia. }
    rewrite Hnil in Hin. exists (with_sck (with_incoming [] (sck v)) v).
    destruct v as [[inc out rm] regs q cl]. cbn in Hin |- *. subst inc. split; [done|]. by rewrite app_nil_r.
  - exists (push_events (omap (event_of ev_id) ms) (fed v [])). split; [|done].
    rewrite <- Hrun. f_equal. unfold fed, feed. destruct (stream fs) eqn:E; [done|]. rewrite <- Hin. by destruct v as [[] ? ? ?].
Qed.

(** ** Witnesses *)

#[local] Instance megabyte : Memory := { max_alloc := 2 ^ 20 }.

Definition quiet : socket := mkSocket [] [] 100.

Lemma send_ws_roundtrip_witness :
  exists s', send_ws [104; 105] quiet = Ok true s' /\ outgoing s' = [129; 2; 104; 105].
Proof.
  destruct (send_ws_roundtrip [104; 105] quiet quiet []) as (s' & H1 & H2 & _).
  - vm_compute. reflexivity.
  - vm_compute. discriminate.
  - vm_compute. discriminate.
  - exists s'. split; [exact H1|exact H2].
Defined.

Lemma split_frame_lost_witness :
  read_websocket_frame (with_incoming [[129; 4; 104]; [105; 33; 10]] quiet)
  = Ok None (with_incoming [[105; 33; 10]] quiet).
Proof.
  destruct (split_frame_lost [104; 105; 33; 10] quiet 1) as (_ & H & _).
  - vm_compute. reflexivity.
  - vm_compute. discriminate.
  - apply Nat.ltb_lt. reflexivity.
  - discriminate.
  - exact H.
Defined.

(** A masked text message in one frame, and one in two fragments. *)
Definition hello : list ws_message :=
  [([], mkF true 1 (Some [1; 2; 3; 4]) [104; 105]);
   ([mkF false 1 None [97]], mkF true 0 None [98])].

Lemma messages_to_events_witness :
  exists v', serve_messages 15 "ev" (mkServer (with_incoming [stream (concat (map message_frames hello))] quiet) ∅ [] false)
             = Ok tt v' /\ main_event_queue v' = [text_event "ev" [104; 105]].
Proof.
  destruct (messages_to_events hello "ev"
    (mkServer (with_incoming [stream (concat (map message_frames hello))] quiet) ∅ [] false)) as (v' & H1 & H2 & _).
  - repeat constructor; vm_compute; congruence.
  - reflexivity.
  - exists v'. split; [exact H1|exact H2].
Defined.
