(* ===== verification/HttpSpec.v ===== *)
(** * HttpSpec: reading a request, answering a handshake

    A request is read the same however it is split into segments, and its lines are
    parsed into names and contents. *)

From S2P Require Import Prelude MachineInt Ast Digest Websocket.

(** ** Requests *)

Record field := mkField { name : list Z; blanks : nat; value : list Z; trailing : nat }.

Definition line_of (f : field) : list Z :=
  name f ++ COLON :: replicate (blanks f) SP ++ value f ++ replicate (trailing f) SP.

Definition request (first_line : list Z) (fields : list field) : list Z :=
  first_line ++ [CR; LF] ++ concat (map (fun f => line_of f ++ [CR; LF]) fields) ++ [CR; LF].

Definition not_in (cs : list Z) (l : list Z) : Prop := Forall (fun c => c ∉ cs) l.

Record field_ok (f : field) : Prop := mkFieldOk {
  name_chars : not_in [0; CR; COLON] (name f);
  name_start : head (name f) <> Some SP;
  value_chars : not_in [0; CR] (value f);
  value_start : head (value f) <> Some SP;
  value_end : last (value f) <> Some SP;
  value_some : value f <> []
}.

(** ** The end of the request *)

Lemma scan_app e a b pos :
  scan_eom e (a ++ b) pos =
    match scan_eom e a pos with
    | (e', None) => scan_eom e' b (pos + Z.of_nat (length a))
    | r => r
    end.
Proof.
  revert e pos. induction a as [|x a IH]; intros e pos; cbn [app scan_eom length].
  - by rewrite Z.add_0_r.
  - destruct (_ =? length eom)%nat; [done|]. rewrite IH. destruct (scan_eom _ a _) as [? [?|]]; [done|].
    f_equal. lia.
Qed.

(** [done_ e l e']: after [l] the automaton is in state [e'] and the end was not seen. *)
Definition scans (e : nat) (l : list Z) (e' : nat) : Prop := forall pos, scan_eom e l pos = (e', None).

Lemma scans_app e a e1 b e2 : scans e a e1 -> scans e1 b e2 -> scans e (a ++ b) e2.
Proof. intros Ha Hb pos. by rewrite scan_app, Ha. Qed.

Lemma scans_nil e : scans e [] e.
Proof. done. Qed.

(** Text without CR resets the automaton. *)
Lemma scans_text e l : e = 0%nat \/ e = 2%nat -> not_in [CR] l -> l <> [] -> scans e l 0.
Proof.
  intros He Hl. revert e He. induction Hl as [|c l Hc Hl IH]; intros e He Hne pos; [done|].
  cbn [scan_eom]. rewrite bool_decide_false.
  2:{ destruct He as [-> | ->]; intros [= <-]; by apply Hc; left. }
  cbn [Nat.eqb length eom]. destruct l as [|c' l]; [done|]. apply IH; [by left|done].
Qed.

Lemma scans_crlf : scans 0 [CR; LF] 2.
Proof. done. Qed.

Lemma scans_line l : not_in [CR] l -> l <> [] -> scans 2 (l ++ [CR; LF]) 2.
Proof. intros Hl Hne. eapply scans_app; [apply scans_text; [by right|done|done]|apply scans_crlf]. Qed.

Lemma scans_first l : not_in [CR] l -> scans 0 (l ++ [CR; LF]) 2.
Proof.
  intros Hl. destruct (decide (l = [])) as [->|Hne]; [apply scans_crlf|].
  eapply scans_app; [apply scans_text; [by left|done|done]|apply scans_crlf].
Qed.

(** A constant is not in a list of constants. *)
Ltac char_notin := unfold CR, LF, SP, COLON; set_unfold; lia.

Lemma not_in_weaken cs cs' l : cs' ⊆ cs -> not_in cs l -> not_in cs' l.
Proof. intros Hs Hl. eapply Forall_impl; [exact Hl|]. set_solver. Qed.

Lemma line_of_chars f : field_ok f -> not_in [0; CR] (line_of f) /\ line_of f <> [].
Proof.
  intros Hf. split.
  - unfold line_of, not_in. rewrite Forall_app, Forall_cons, !Forall_app. split.
    { eapply not_in_weaken; [|apply (name_chars f Hf)]. set_solver. }
    split; [char_notin|]. split; [|split; [apply (value_chars f Hf)|]].
    all: apply Forall_replicate; char_notin.
  - unfold line_of. by destruct (name f).
Qed.

(** The automaton finds the end of a request at its last byte. *)
Lemma scan_request fl fs : not_in [0; CR] fl -> Forall field_ok fs ->
  scan_eom 0 (request fl fs) 0 = (4%nat, Some (Z.of_nat (length (request fl fs)) - 1)).
Proof.
  intros Hfl Hfs. unfold request.
  assert (Hlines : scans 2 (concat (map (fun f => line_of f ++ [CR; LF]) fs)) 2).
  { induction Hfs as [|f fs Hf Hfs IH]; [apply scans_nil|]. cbn [map concat]. eapply scans_app; [|done].
    destruct (line_of_chars f Hf) as [Hc Hne]. apply scans_line; [|done].
    eapply not_in_weaken; [|done]. set_solver. }
  assert (Hpre : scans 0 ((fl ++ [CR; LF]) ++ concat (map (fun f => line_of f ++ [CR; LF]) fs)) 2).
  { eapply scans_app; [|done]. apply scans_first. eapply not_in_weaken; [|done]. set_solver. }
  rewrite (app_assoc fl), (app_assoc (fl ++ _)), scan_app, Hpre. cbn -[Z.of_nat Z.sub Z.add].
  f_equal. f_equal. rewrite !length_app. cbn [length]. lia.
Qed.

(** What is found in a text is found in what begins with it. *)
Lemma scan_prefix e a b pos k : scan_eom e a pos = (4%nat, Some k) -> scan_eom e (a ++ b) pos = (4%nat, Some k).
Proof. intros E. by rewrite scan_app, E. Qed.

Lemma scan_bound e l pos e' k : scan_eom e l pos = (e', Some k) -> e' = 4%nat /\ pos <= k < pos + Z.of_nat (length l).
Proof.
  revert e pos. induction l as [|x l IH]; intros e pos; cbn [scan_eom length]; [done|].
  destruct (Nat.eqb_spec (if bool_decide (eom !! e = Some x) then S e else 0%nat) (length eom)) as [->|].
  - intros [= <- <-]. split; [done|lia].
  - intros H%IH. destruct H. split; [done|lia].
Qed.

(** ** The loop over recv *)

Definition no_nul (l : list Z) : Prop := 0 ∉ l.

Lemma no_nul_split n l : no_nul l -> no_nul (take n l) /\ no_nul (drop n l).
Proof. unfold no_nul. rewrite <- (take_drop n l) at 1. rewrite elem_of_app. tauto. Qed.

Lemma until_nul_end l : no_nul l -> until_nul (l ++ [0]) = Some l.
Proof.
  unfold no_nul. induction l as [|x l IH]; intros Hl; [done|]. cbn [app until_nul].
  rewrite (proj2 (Z.eqb_neq x 0)) by set_solver. rewrite IH by set_solver. done.
Qed.

Lemma c_str_no_nul l : no_nul l -> c_str l = l.
Proof. intros Hl. unfold c_str. by rewrite until_nul_end. Qed.

Lemma scan_shift e l pos d : scan_eom e l (pos + d) = prod_map id (fmap (fun k => k + d)) (scan_eom e l pos).
Proof.
  revert e pos. induction l as [|x l IH]; intros e pos; cbn [scan_eom]; [done|].
  destruct (_ =? length eom)%nat; [done|]. replace (pos + d + 1) with (pos + 1 + d) by lia. apply IH.
Qed.

Definition nonempty_segments (s : socket) : Prop := Forall (fun seg => seg <> []) (incoming s).

(** A call of recv takes bytes from what is pending. *)
Lemma recv_some s : nonempty_segments s -> incoming s <> [] ->
  exists buf s1, recv (buf_size - 1) s = Ok buf s1 /\ buf <> [] /\ concat (incoming s) = buf ++ concat (incoming s1) /\
    nonempty_segments s1 /\ (pending s1 < pending s)%nat /\ outgoing s1 = outgoing s /\ room s1 = room s.
Proof.
  unfold nonempty_segments, recv, pending. intros Hs Hne. destruct (incoming s) as [|seg segs] eqn:E; [done|].
  apply Forall_cons in Hs as [Hseg Hsegs]. set (n := Z.to_nat (buf_size - 1)).
  assert (Hn : (0 < n)%nat) by (unfold n, buf_size; lia).
  eexists _, _. split; [done|]. cbn [concat incoming with_incoming outgoing room].
  assert (Hl : (0 < length seg)%nat) by (destruct seg; cbn; [done|lia]).
  split; [intros H0; apply (f_equal length) in H0; rewrite length_take in H0; cbn in H0; lia|].
  pose proof (take_drop n seg) as Htd. destruct (drop n seg) as [|x rest] eqn:Ed; cbn [concat].
  - rewrite app_nil_r in Htd. rewrite Htd. repeat split; try done. rewrite length_app. cbn [length]. lia.
  - split; [by rewrite <- Htd at 1; rewrite <- app_assoc|]. split; [by apply Forall_cons|]. split; [|done].
    apply (f_equal length) in Htd. rewrite length_app, length_take in Htd. cbn [length app] in *.
    rewrite !length_app. lia.
Qed.

Lemma http_loop_run T extra : scan_eom 0 T 0 = (4%nat, Some (Z.of_nat (length T) - 1)) -> no_nul (T ++ extra) ->
  forall fuel s P e, scan_eom 0 P 0 = (e, None) -> P ++ concat (incoming s) = T ++ extra ->
  nonempty_segments s -> (pending s < fuel)%nat ->
  exists x s', http_loop fuel e P s = Ok (Some (T, x)) s' /\ x ++ concat (incoming s') = extra /\
    outgoing s' = outgoing s /\ room s' = room s.
Proof.
  intros HT Hnul. induction fuel as [|fuel IH]; intros s P e HP Heq Hs Hf; [lia|]. cbn [http_loop].
  assert (Hall : scan_eom 0 (P ++ concat (incoming s)) 0 = (4%nat, Some (Z.of_nat (length T) - 1)))
    by (rewrite Heq; by apply scan_prefix).
  destruct (decide (incoming s = [])) as [E|Hne]; [by rewrite E, app_nil_r, HP in Hall|].
  destruct (recv_some s Hs Hne) as (buf & s1 & Hrecv & Hbuf & Hcat & Hs1 & Hlt & Ho & Hr).
  rewrite (bind_Ok _ _ _ _ _ Hrecv). destruct buf as [|b buf0]; [done|]. set (buf := b :: buf0) in *. cbv beta iota.
  rewrite Hcat in Hall, Heq. rewrite scan_app, HP, scan_app, (scan_shift e buf 0) in Hall.
  assert (Hn : no_nul buf) by (unfold no_nul in *; rewrite <- Heq in Hnul; set_solver).
  destruct (scan_eom e buf 0) as [e' [k|]] eqn:Ek; cbn in Hall.
  - apply scan_bound in Ek as (_ & Hk). injection Hall as _ Hpos.
    assert (Hlen : length T = (length P + Z.to_nat (k + 1))%nat) by lia.
    assert (HTe : T = P ++ take (Z.to_nat (k + 1)) buf).
    { apply (f_equal (take (length T))) in Heq. rewrite take_app_length in Heq.
      rewrite <- Heq, Hlen, take_app_add', take_app_le by (done || lia). done. }
    eexists _, s1. split; [|split; [|done]].
    + rewrite (c_str_no_nul (take _ buf)), (c_str_no_nul (drop _ buf)), <- HTe by (by apply no_nul_split). done.
    + apply (app_inv_head T). rewrite <- Heq, HTe. rewrite <- !app_assoc. f_equal. rewrite app_assoc. by rewrite take_drop.
  - rewrite c_str_no_nul by done. destruct (IH s1 (P ++ buf) e') as (x & s' & H1 & H2 & H3 & H4).
    + by rewrite scan_app, HP, (scan_shift e buf 0), Ek.
    + by rewrite <- app_assoc.
    + done.
    + lia.
    + exists x, s'. repeat split; congruence.
Qed.

(** ** Parsing *)

Section parsing.
Context {S : Type}.
Implicit Types s : S.

Lemma char_at_app A x R j s : j = Z.of_nat (length A) -> char_at (A ++ x :: R) j s = Ok x s.
Proof.
  intros ->. unfold char_at. rewrite (proj2 (Z.eqb_neq _ _)) by (rewrite length_app; cbn [length]; lia).
  by rewrite zlookup_of_nat, list_lookup_middle.
Qed.

Lemma skip_run p run : forall A R i n j s, Forall (fun c => p c = true) run ->
  j = Z.of_nat (length A) -> j + Z.of_nat (length run) <= i ->
  j + Z.of_nat (length run) = i \/ (exists x R', R = x :: R' /\ p x = false) -> (length run <= n)%nat ->
  skip p n (A ++ run ++ R) j i s = Ok (j + Z.of_nat (length run)) s.
Proof.
  induction run as [|c run IH]; intros A R i n j s Hrun Hj Hi Hend Hn; cbn [length] in *.
  - rewrite Z.add_0_r in *. destruct n as [|n]; [done|]. cbn [skip app].
    destruct (Z.ltb_spec j i); [|done]. destruct Hend as [|(x & R' & -> & Hx)]; [lia|].
    rewrite (bind_Ok _ _ _ _ _ (char_at_app _ _ _ _ _ Hj)), Hx. done.
  - apply Forall_cons in Hrun as [Hc Hrun]. destruct n as [|n]; [lia|]. cbn [skip app].
    rewrite (proj2 (Z.ltb_lt j i)) by lia. rewrite (bind_Ok _ _ _ _ _ (char_at_app _ _ _ _ _ Hj)), Hc.
    specialize (IH (A ++ [c]) R i n (j + 1) s Hrun). rewrite <- app_assoc in IH. cbn [app] in IH.
    rewrite IH; [f_equal; lia|rewrite length_app; cbn [length]; lia|lia| |lia].
    destruct Hend; [left; lia|by right].
Qed.

Lemma back_run k : forall A x R n e s, x <> SP -> e = Z.of_nat (length A + k) -> (k <= n)%nat ->
  back n (A ++ x :: replicate k SP ++ R) e s = Ok (Z.of_nat (length A)) s.
Proof.
  induction k as [|k IH]; intros A x R n e s Hx He Hn.
  - destruct n as [|n]; cbn [back]; [rewrite He; unfold ret; f_equal; lia|].
    cbn [replicate app]. rewrite (bind_Ok _ _ _ _ _ (char_at_app A x R e s ltac:(lia))).
    rewrite (proj2 (Z.eqb_neq _ _)) by done. unfold ret. f_equal. lia.
  - destruct n as [|n]; [lia|].
    assert (E : replicate (Datatypes.S k) SP ++ R = replicate k SP ++ SP :: R)
      by (rewrite replicate_S_end, <- app_assoc; done).
    rewrite E. cbn [back]. erewrite bind_Ok.
    2:{ rewrite (app_comm_cons _ _ x), app_assoc. apply char_at_app.
        rewrite length_app. cbn [length]. rewrite length_replicate. lia. }
    rewrite Z.eqb_refl. apply IH; [done|lia|lia].
Qed.

Lemma substr_run A X R pos n s : pos = Z.of_nat (length A) -> n = Z.of_nat (length X) ->
  substr (A ++ X ++ R) pos n s = Ok X s.
Proof.
  intros -> ->. unfold substr. rewrite (proj2 (Z.ltb_ge _ _)) by (rewrite length_app; lia).
  by rewrite !Nat2Z.id, drop_app_length, take_app_length.
Qed.

Lemma last_split (l : list Z) : l <> [] -> exists l' x, l = l' ++ [x] /\ last l = Some x.
Proof.
  intros Hl. destruct l as [|x l] using rev_ind; [done|]. exists l, x. by rewrite last_snoc.
Qed.

Lemma parse_line_run f A R s : field_ok f ->
  Z.of_nat (length (A ++ line_of f ++ CR :: LF :: R)) < 2 ^ 64 ->
  parse_line (A ++ line_of f ++ CR :: LF :: R) (Z.of_nat (length A))
    (Z.of_nat (length A + length (line_of f))) s = Ok (name f, value f) s.
Proof.
  intros Hf H64. unfold parse_line. set (i := Z.of_nat (length A + _)). set (n := length (A ++ _)) in *.
  destruct f as [nm k v m]. destruct Hf as [Hn1 Hn2 Hv1 Hv2 Hv3 Hv4].
  unfold line_of in *. cbn [name blanks value trailing] in *.
  assert (Hlen : i = Z.of_nat (length A + length nm + 1 + k + length v + m)).
  { unfold i. rewrite length_app. cbn [length]. rewrite !length_app, !length_replicate. lia. }
  assert (Hnn : (length A + length nm + 1 + k + length v + m + 2 <= n)%nat).
  { unfold n. rewrite !length_app. cbn [length]. rewrite !length_app, !length_replicate. cbn [length]. lia. }
  destruct (last_split v Hv4) as (v' & x & Ev & Hlast).
  assert (Hbuf : A ++ (nm ++ COLON :: replicate k SP ++ v ++ replicate m SP) ++ CR :: LF :: R
    = A ++ nm ++ COLON :: replicate k SP ++ v ++ replicate m SP ++ CR :: LF :: R).
  { rewrite <- !app_assoc. cbn [app]. by rewrite <- !app_assoc. }
  rewrite Hbuf.
  erewrite bind_Ok; [|apply (skip_run _ [] A); [constructor|done|cbn [length]; lia| |cbn; lia]].
  2:{ right. destruct nm as [|c nm]; [by eexists _, _|]. eexists _, _. split; [done|].
      apply Z.eqb_neq. intros ->. by apply Hn2. }
  cbn [length]. rewrite Z.add_0_r.
  erewrite bind_Ok; [|apply (skip_run _ nm A); [|done|lia| |lia]].
  2:{ eapply Forall_impl; [exact Hn1|]. intros c Hc. apply negb_true_iff, Z.eqb_neq. intros ->. apply Hc. set_solver. }
  2:{ right. by eexists _, _. }
  erewrite bind_Ok; [|apply substr_run; lia].
  set (T := CR :: LF :: R) in *. set (B := A ++ nm ++ _) in *.
  assert (E1 : B = (A ++ nm ++ [COLON]) ++ replicate k SP ++ v ++ replicate m SP ++ T)
    by (unfold B; by rewrite <- !app_assoc).
  assert (E2 : B = (A ++ nm ++ COLON :: replicate k SP ++ v') ++ x :: replicate m SP ++ T).
  { unfold B. rewrite Ev, <- !app_assoc. cbn [app]. by rewrite <- !app_assoc. }
  assert (E3 : B = (A ++ nm ++ COLON :: replicate k SP) ++ v ++ replicate m SP ++ T).
  { unfold B. rewrite <- !app_assoc. cbn [app]. done. }
  assert (L1 : Z.of_nat (length (A ++ nm ++ [COLON])) = Z.of_nat (length A) + Z.of_nat (length nm) + 1)
    by (rewrite !length_app; cbn [length]; lia).
  assert (L2 : Z.of_nat (length (A ++ nm ++ COLON :: replicate k SP ++ v')) + 1 + Z.of_nat m = i).
  { apply (f_equal length) in Ev. rewrite length_app in Ev. cbn [length] in Ev.
    rewrite !length_app. cbn [length]. rewrite length_app, length_replicate. lia. }
  assert (L3 : Z.of_nat (length (A ++ nm ++ COLON :: replicate k SP)) = Z.of_nat (length A) + Z.of_nat (length nm) + 1 + Z.of_nat k)
    by (rewrite !length_app; cbn [length]; rewrite length_replicate; lia).
  erewrite bind_Ok.
  2:{ rewrite E1. apply (skip_run _ (replicate k SP)); rewrite ?length_replicate; [by apply Forall_replicate|lia|lia| |lia].
      right. destruct v as [|c v0]; [done|]. eexists _, _. split; [done|].
      apply Z.eqb_neq. intros ->. by apply Hv2. }
  erewrite bind_Ok; [|rewrite E2; apply back_run; [intros ->; by apply Hv3|lia|lia]].
  erewrite bind_Ok; [|rewrite E3; apply substr_run; rewrite ?length_replicate; [lia|]].
  { done. }
  apply (f_equal length) in Ev. rewrite length_app in Ev. cbn [length] in Ev. rewrite to_u_id; lia.
Qed.
Lemma zlookup_app_middle (A R : list Z) x j : j = Z.of_nat (length A) -> zlookup (A ++ x :: R) j = Some x.
Proof. intros ->. by rewrite zlookup_of_nat, list_lookup_middle. Qed.

(** Up to the end of a line. *)
Lemma walk_line l : forall n A R ls fl h s, not_in [CR] l -> (length l <= n)%nat ->
  parse_lines n (A ++ l ++ R) (Z.of_nat (length A)) ls fl h s
  = parse_lines (n - length l) (A ++ l ++ R) (Z.of_nat (length A + length l)) ls fl h s.
Proof.
  induction l as [|c l IH]; intros n A R ls fl h s Hl Hn; cbn [length] in *.
  - by rewrite Nat.add_0_r, Nat.sub_0_r.
  - apply Forall_cons in Hl as [Hc Hl]. destruct n as [|n]; [lia|]. cbn [parse_lines Nat.sub app].
    rewrite (proj2 (Z.ltb_lt _ _)) by (rewrite length_app; cbn [length]; lia).
    rewrite (zlookup_app_middle A (l ++ R) c _ eq_refl), (bool_decide_false (Some c = Some CR)), andb_false_r.
    2:{ intros [= ->]. apply Hc. by left. }
    cbn [andb]. specialize (IH n (A ++ [c]) R ls fl h s Hl ltac:(lia)). rewrite <- app_assoc in IH. cbn [app] in IH.
    rewrite length_app in IH. cbn [length] in IH. replace (Z.of_nat (length A) + 1) with (Z.of_nat (length A + 1)) by lia.
    rewrite IH. f_equal. lia.
Qed.

(** The end of a line. *)
Lemma end_of_line A R n ls fl h s :
  parse_lines (Datatypes.S n) (A ++ CR :: LF :: R) (Z.of_nat (length A)) ls fl h s
  = bind (if ls =? 0 then let! l := substr (A ++ CR :: LF :: R) ls (Z.of_nat (length A)) in ret (l, h)
          else if ls =? Z.of_nat (length A) then ret (fl, h)
          else let! a := parse_line (A ++ CR :: LF :: R) ls (Z.of_nat (length A)) in ret (fl, h ++ [a]))
      (fun x => parse_lines n (A ++ CR :: LF :: R) (Z.of_nat (length A + 2)) (Z.of_nat (length A + 2)) x.1 x.2) s.
Proof.
  cbn [parse_lines]. rewrite (proj2 (Z.ltb_lt _ _)) by (rewrite length_app; cbn [length]; lia).
  rewrite (proj2 (Z.ltb_lt (_ + 1) _)) by (rewrite length_app; cbn [length]; lia).
  rewrite (zlookup_app_middle A (LF :: R) CR _ eq_refl).
  assert (E : zlookup (A ++ CR :: LF :: R) (Z.of_nat (length A) + 1) = Some LF).
  { change (A ++ CR :: LF :: R) with (A ++ [CR] ++ LF :: R). rewrite app_assoc.
    apply zlookup_app_middle. rewrite length_app. cbn [length]. lia. }
  rewrite E, !bool_decide_true by done. cbn [andb].
  replace (Z.of_nat (length A) + 2) with (Z.of_nat (length A + 2)) by lia. done.
Qed.

Lemma parse_field f A R n fl h s : field_ok f -> A <> [] -> (length (line_of f) < n)%nat ->
  Z.of_nat (length (A ++ (line_of f ++ [CR; LF]) ++ R)) < 2 ^ 64 ->
  parse_lines n (A ++ (line_of f ++ [CR; LF]) ++ R) (Z.of_nat (length A)) (Z.of_nat (length A)) fl h s
  = parse_lines (n - length (line_of f) - 1) (A ++ (line_of f ++ [CR; LF]) ++ R)
      (Z.of_nat (length A + length (line_of f ++ [CR; LF]))) (Z.of_nat (length A + length (line_of f ++ [CR; LF])))
      fl (h ++ [(name f, value f)]) s.
Proof.
  intros Hf HA Hn H64. destruct (line_of_chars f Hf) as [Hc Hne]. rewrite <- app_assoc in *. cbn [app] in *.
  rewrite walk_line; [|eapply not_in_weaken; [|done]; set_solver|lia].
  destruct (n - length (line_of f))%nat as [|n'] eqn:En; [lia|]. cbn [Nat.sub]. rewrite Nat.sub_0_r.
  pose proof (end_of_line (A ++ line_of f) R n' (Z.of_nat (length A)) fl h s) as He.
  rewrite <- app_assoc, length_app in He. rewrite He.
  assert (HA0 : length A <> 0%nat) by (by destruct A).
  assert (Hl0 : length (line_of f) <> 0%nat) by (by destruct (line_of f)).
  rewrite (proj2 (Z.eqb_neq _ 0)), (proj2 (Z.eqb_neq _ (Z.of_nat _))) by lia.
  rewrite bind_assoc. rewrite (bind_Ok _ _ _ _ _ (parse_line_run f A R s Hf H64)).
  rewrite bind_ret_l. cbn [fst snd]. rewrite length_app. cbn [length].
  by rewrite <- Nat.add_assoc.
Qed.

Lemma parse_fields fs : forall A n fl h s, Forall field_ok fs -> A <> [] ->
  (length (concat (map (fun f => line_of f ++ [CR; LF]) fs) ++ [CR; LF]) <= n)%nat ->
  Z.of_nat (length (A ++ concat (map (fun f => line_of f ++ [CR; LF]) fs) ++ [CR; LF])) < 2 ^ 64 ->
  parse_lines n (A ++ concat (map (fun f => line_of f ++ [CR; LF]) fs) ++ [CR; LF])
    (Z.of_nat (length A)) (Z.of_nat (length A)) fl h s
  = Ok (fl, h ++ map (fun f => (name f, value f)) fs) s.
Proof.
  induction fs as [|f fs IH]; intros A n fl h s Hfs HA Hn H64; cbn [map concat] in *.
  - cbn [app length] in *. destruct n as [|n]; [lia|]. rewrite end_of_line.
    assert (length A <> 0%nat) by (by destruct A).
    rewrite (proj2 (Z.eqb_neq _ 0)), Z.eqb_refl, bind_ret_l by lia. cbn [fst snd].
    destruct n as [|n]; [lia|]. cbn [parse_lines].
    rewrite (proj2 (Z.ltb_ge _ _)) by (rewrite length_app; cbn [length]; lia). by rewrite app_nil_r.
  - apply Forall_cons in Hfs as [Hf Hfs]. rewrite <- !app_assoc in *. cbn [app] in *.
    set (rest := concat _ ++ [CR; LF]) in *.
    pose proof (parse_field f A rest n fl h s Hf HA) as Hp. rewrite <- !app_assoc in Hp. cbn [app] in Hp.
    rewrite !length_app in Hn. cbn [length] in Hn. rewrite Hp by (done || lia). clear Hp.
    specialize (IH (A ++ line_of f ++ [CR; LF]) (n - length (line_of f) - 1)%nat fl (h ++ [(name f, value f)]) s Hfs).
    fold rest in IH. rewrite <- !app_assoc in IH. cbn [app] in IH. rewrite (length_app A (line_of f ++ [CR; LF])) in IH.
    rewrite IH; [done|by destruct A|lia|done].
Qed.

(** The lines of a request. *)
Lemma parse_request_run fl fs s : not_in [0; CR] fl -> Forall field_ok fs ->
  Z.of_nat (length (request fl fs)) < 2 ^ 64 ->
  parse_request (request fl fs) s = Ok (fl, map (fun f => (name f, value f)) fs) s.
Proof.
  intros Hfl Hfs H64. unfold parse_request, request in *. set (rest := concat _ ++ [CR; LF]) in *.
  cbn [app] in *. assert (Hlen : length (fl ++ CR :: LF :: rest) = (length fl + 2 + length rest)%nat)
    by (rewrite length_app; cbn [length]; lia).
  pose proof (walk_line fl (length (fl ++ CR :: LF :: rest)) [] (CR :: LF :: rest) 0 [] [] s) as Hw.
  cbn [app length Nat.add] in Hw. change (Z.of_nat 0) with 0 in Hw. rewrite Hw; clear Hw.
  2:{ eapply not_in_weaken; [|done]. set_solver. }
  2:{ lia. }
  rewrite Hlen. replace (length fl + 2 + length rest - length fl)%nat with (Datatypes.S (Datatypes.S (length rest))) by lia.
  rewrite end_of_line. cbn [Z.eqb]. rewrite bind_assoc.
  pose proof (substr_run [] fl (CR :: LF :: rest) 0 (Z.of_nat (length fl)) s eq_refl eq_refl) as Hsub.
  cbn [app] in Hsub. rewrite (bind_Ok _ _ _ _ _ Hsub), bind_ret_l. cbn [fst snd].
  pose proof (parse_fields fs (fl ++ [CR; LF]) (Datatypes.S (length rest)) fl [] s Hfs) as Hp.
  fold rest in Hp. rewrite <- app_assoc, (length_app fl [CR; LF]) in Hp. cbn [app length] in Hp.
  apply Hp; [by destruct fl|lia|done].
Qed.
End parsing.

Lemma request_no_nul fl fs : not_in [0; CR] fl -> Forall field_ok fs -> no_nul (request fl fs).
Proof.
  intros Hfl Hfs. assert (Hn : forall l, not_in [0; CR] l -> 0 ∉ l).
  { intros l Hl Hin. eapply Forall_forall in Hl; [|exact Hin]. apply Hl. by left. }
  assert (Hc : forall R, 0 ∉ R -> 0 ∉ CR :: LF :: R) by (intros R HR; rewrite !not_elem_of_cons; unfold CR, LF; repeat split; lia || done).
  unfold no_nul, request. rewrite elem_of_app. intros [H|H]; [by apply (Hn fl)|]. revert H. cbn [app]. apply Hc.
  induction Hfs as [|f fs Hf _ IH]; cbn [map concat]; [by apply Hc; intros ?%elem_of_nil|].
  rewrite <- !app_assoc. rewrite elem_of_app. intros [H|H]; [|by revert H; cbn [app]; apply Hc].
  by apply (Hn (line_of f)); [apply line_of_chars|].
Qed.

(** C25: a request is read and parsed whatever the segments it arrives in: the first line and
    the names and contents of the fields, without the blanks around the contents, in their
    order; what follows the request in the same read is handed back, the rest stays in the
    socket. Lines have no CR and no NUL, a name has no colon and does not begin with a blank,
    and a content does not consist of blanks only (such a field would take the rest of
    the request as its content), and what follows the request has no NUL (it is handed back
    as a C string). *)
Theorem read_http_request_parses fl fs extra s :
  not_in [0; CR] fl -> Forall field_ok fs -> no_nul extra -> Z.of_nat (length (request fl fs)) < 2 ^ 64 ->
  nonempty_segments s -> concat (incoming s) = request fl fs ++ extra ->
  exists unconsumed_data s',
    read_http_request [] s = Ok (Some (fl, map (fun f => (name f, value f)) fs), unconsumed_data) s' /\
    unconsumed_data ++ concat (incoming s') = extra /\ outgoing s' = outgoing s /\ room s' = room s.
Proof.
  intros Hfl Hfs Hex H64 Hs Hcat.
  destruct (http_loop_run (request fl fs) extra (scan_request fl fs Hfl Hfs)) with (fuel := S (pending s)) (s := s)
    (P := @nil Z) (e := 0%nat) as (x & s' & Hrun & Hx & Ho & Hr); try done; [|lia|].
  - unfold no_nul. rewrite elem_of_app. intros [H|H]; [|done]. by eapply request_no_nul in H.
  - exists x, s'. split; [|done]. unfold read_http_request, get. unfold bind at 1.
    rewrite (bind_Ok _ _ _ _ _ Hrun). by rewrite (bind_Ok _ _ _ _ _ (parse_request_run fl fs s' Hfl Hfs H64)).
Qed.

(** ** The answer *)

(** The answer to an upgrade request carries the Base64 text of the SHA-1 digest of
    the key and the GUID of RFC 6455, for keys whose length plus 36 modulo 64 is below
    56; for the other lengths, among them the 24 characters every key of RFC 6455 has,
    computing the digest writes behind its buffer. *)
Theorem handshake_correct attrs key v :
  field_with_content (bytes_of_string "Upgrade") (bytes_of_string "websocket") attrs = true ->
  field_with_content (bytes_of_string "Connection") (bytes_of_string "Upgrade") attrs = true ->
  get_http_attribute_content (bytes_of_string "Sec-WebSocket-Key") attrs = Some key ->
  Z.of_nat (length key) < 2 ^ 32 ->
  handshake attrs v =
    if (Z.of_nat (length key) + 36) mod 64 <? 56
    then Ok (Some (upgrade_response (base64 (sha1 (key ++ websocket_guid))))) v
    else Undef.
Proof.
  intros H1 H2 H3 Hlen. unfold handshake. rewrite H1, H2, H3. cbn [negb orb].
  unfold base64_encoded_sha1.
  assert (HL : Z.of_nat (length (key ++ websocket_guid)) = Z.of_nat (length key) + 36)
    by (rewrite length_app; change (length websocket_guid) with 36%nat; lia).
  unfold bind at 1. unfold bind at 1. rewrite sha1_correct, HL by (rewrite HL; lia).
  destruct (_ <? 56); [|done].
  by rewrite encode_base64_run by (apply sha1_bytes || rewrite sha1_length; vm_compute; reflexivity).
Qed.

(** ** Witnesses *)

Definition upgrade_fields (key : list Z) : list field :=
  [mkField (bytes_of_string "Upgrade") 1 (bytes_of_string "websocket") 0;
   mkField (bytes_of_string "Connection") 1 (bytes_of_string "Upgrade") 0;
   mkField (bytes_of_string "Sec-WebSocket-Key") 1 key 0].

Definition upgrade_attrs (key : list Z) : http_header_t :=
  map (fun f => (name f, value f)) (upgrade_fields key).

Definition upgrade_text (key : list Z) : list Z :=
  request (bytes_of_string "GET /chat HTTP/1.1") (upgrade_fields key).

Lemma read_http_request_parses_witness :
  exists rest s',
    read_http_request [] (mkSocket [take 30 (upgrade_text [65]); drop 30 (upgrade_text [65]) ++ [129; 1]] [] 0)
    = Ok (Some (bytes_of_string "GET /chat HTTP/1.1", upgrade_attrs [65]), rest) s'.
Proof.
  destruct (read_http_request_parses (bytes_of_string "GET /chat HTTP/1.1") (upgrade_fields [65]) [129; 1]
    (mkSocket [take 30 (upgrade_text [65]); drop 30 (upgrade_text [65]) ++ [129; 1]] [] 0)) as (x & s' & H & _).
  - apply (bool_decide_unpack _). vm_compute. exact I.
  - repeat constructor; vm_compute; intros H; try discriminate; by repeat (apply elem_of_cons in H as [H|H]; [discriminate|]); apply elem_of_nil in H.
  - intros H. by repeat (apply elem_of_cons in H as [H|H]; [discriminate|]); apply elem_of_nil in H.
  - vm_compute. reflexivity.
  - repeat constructor; discriminate.
  - vm_compute. reflexivity.
  - exists x, s'. exact H.
Defined.

Definition idle : server := mkServer (mkSocket [] [] 0) ∅ [] false.

(** The key of the example of RFC 6455 has 24 characters. *)
Lemma handshake_correct_witness :
  handshake (upgrade_attrs (bytes_of_string "dGhlIHNhbXBsZSBub25jZQ==")) idle = Undef /\
  handshake (upgrade_attrs (bytes_of_string "abc")) idle
  = Ok (Some (upgrade_response (base64 (sha1 (bytes_of_string "abc" ++ websocket_guid))))) idle.
Proof.
  split.
  - exact (handshake_correct (upgrade_attrs (bytes_of_string "dGhlIHNhbXBsZSBub25jZQ=="))
      (bytes_of_string "dGhlIHNhbXBsZSBub25jZQ==") idle eq_refl eq_refl eq_refl eq_refl).
  - exact (handshake_correct (upgrade_attrs (bytes_of_string "abc")) (bytes_of_string "abc") idle
      eq_refl eq_refl eq_refl eq_refl).
Defined.
