(* ===== verification/EventQueue.v ===== *)
(** * EventQueue: the ring buffer of records and the queue of events

    core/include/events.hpp: class templates Ringbuffer and Eventqueue, and
    core/include/threadsafequeue.hpp. Offsets are in bytes, as in the code; [sz] is the
    size of a record. The memory of a ring buffer is the map of the objects that live in
    it: reading where no object lives is undefined. *)

From S2P Require Import Prelude.

(** ** Ringbuffer *)

Record ringbuffer (A : Type) := mkRing {
  rb_data : gmap Z A;
  rb_capacity : Z;
  rb_start : Z;
  rb_end : Z;
  rb_n_elems : Z
}.

Arguments mkRing {A}.
Arguments rb_data {A}.
Arguments rb_capacity {A}.
Arguments rb_start {A}.
Arguments rb_end {A}.
Arguments rb_n_elems {A}.

Section ring.
Context {A : Type} (sz : Z).

Definition with_rb_data (x : gmap Z A) (r : ringbuffer A) : ringbuffer A :=
  mkRing x (rb_capacity r) (rb_start r) (rb_end r) (rb_n_elems r).
Definition with_rb_start (x : Z) (r : ringbuffer A) : ringbuffer A :=
  mkRing (rb_data r) (rb_capacity r) x (rb_end r) (rb_n_elems r).
Definition with_rb_end (x : Z) (r : ringbuffer A) : ringbuffer A :=
  mkRing (rb_data r) (rb_capacity r) (rb_start r) x (rb_n_elems r).
Definition with_rb_n_elems (x : Z) (r : ringbuffer A) : ringbuffer A :=
  mkRing (rb_data r) (rb_capacity r) (rb_start r) (rb_end r) x.

(** [Ringbuffer(size_t capacity)]; [None]: it throws. *)
Definition new_ring (capacity : Z) : option (ringbuffer A) :=
  if capacity <? sz then None else Some (mkRing ∅ capacity 0 0 0).

(** The object at an offset. *)
Definition rb_get (ofs : Z) : M (ringbuffer A) A := fun r => of_option (rb_data r !! ofs) r.

(** An assignment to the object at an offset. *)
Definition rb_set (ofs : Z) (x : A) : M (ringbuffer A) unit :=
  let! _ := rb_get ofs in modify (fun r => with_rb_data (<[ofs := x]> (rb_data r)) r).

Definition rb_empty : M (ringbuffer A) bool := gets (fun r => rb_n_elems r =? 0).

(** The number of records is left alone. *)
Definition rb_clear : M (ringbuffer A) unit :=
  do! modify (with_rb_start 0) in modify (with_rb_end 0).

Definition available_space (r : ringbuffer A) : Z := rb_capacity r - rb_n_elems r * sz.
Definition allocated_space (r : ringbuffer A) : Z := rb_capacity r - available_space r.

(** [append_record]: a new object at the end; behind the buffer is undefined. *)
Definition append_record (rec : A) (size : Z) : M (ringbuffer A) Z :=
  let! t := gets rb_end in
  let! cap := gets rb_capacity in
  if cap <? t + size then undef
  else
    do! modify (fun r => with_rb_data (<[t := rec]> (rb_data r)) r) in
    do! modify (fun r => with_rb_end (rb_end r + size) r) in
    do! modify (fun r => if rb_end r >=? rb_capacity r then with_rb_end 0 r else r) in
    ret t.

Definition rb_pop : M (ringbuffer A) bool :=
  let! e := rb_empty in
  if e then ret false
  else
    let! start := gets rb_start in
    let! _ := rb_get start in                                     (* the destructor *)
    do! modify (fun r => with_rb_data (delete start (rb_data r)) r) in
    do! modify (fun r => with_rb_start (rb_start r + sz) r) in
    do! modify (fun r => if rb_start r >=? rb_capacity r then with_rb_start 0 r else r) in
    do! modify (fun r => with_rb_n_elems (rb_n_elems r - 1) r) in
    let! e := rb_empty in
    do! (if e then rb_clear else ret tt) in
    ret true.

(** [append], [push] *)
Definition rb_append (rec : A) : M (ringbuffer A) Z :=
  let! cap := gets rb_capacity in
  if cap <? sz then throw (RuntimeError "insert: Record too large.")
  else
    let! free_space := gets available_space in
    do! modify (fun r => with_rb_n_elems (rb_n_elems r + 1) r) in
    if sz <=? free_space then append_record rec sz
    else let! _ := rb_pop in append_record rec sz.

Definition get_at_index (i : Z) : M (ringbuffer A) A :=
  let! r := get in rb_get ((rb_start r + i * sz) mod rb_capacity r).

Definition valid_ofs (i : Z) : M (ringbuffer A) bool := gets (fun r => i <? rb_capacity r).

Definition rb_front : M (ringbuffer A) A :=
  let! e := rb_empty in
  if e then throw (RuntimeError "Ringbuffer empty.")
  else let! s := gets rb_start in rb_get s.

(** The loop of [find]: [n] more records, the next one at [ofs]. *)
Fixpoint find_loop (eqb : A -> bool) (n : nat) (ofs : Z) : M (ringbuffer A) Z :=
  let! cap := gets rb_capacity in
  match n with
  | O => ret cap
  | S n' =>
    let ofs := if ofs >=? cap then 0 else ofs in
    let! x := rb_get ofs in
    if eqb x then ret ofs else find_loop eqb n' (ofs + sz)
  end.

(** The offset of a record that [eqb] accepts, or the capacity. *)
Definition rb_find (eqb : A -> bool) (offset : Z) : M (ringbuffer A) Z :=
  let! r := get in
  if rb_n_elems r =? 0 then ret (rb_capacity r)
  else
    let s := rb_start r in
    let s := if offset =? 0 then s else if s + offset >=? rb_capacity r then 0 else s + offset in
    find_loop eqb (Z.to_nat (rb_n_elems r)) s.

Definition swap_to_front_and_pop (ofs : Z) : M (ringbuffer A) unit :=
  let! r := get in
  if (ofs >=? rb_capacity r) || (rb_n_elems r =? 0) then ret tt
  else if ofs =? rb_start r then let! _ := rb_pop in ret tt
  else
    let! temp := rb_front in
    let! x := rb_get ofs in
    do! rb_set (rb_start r) x in
    do! rb_set ofs temp in
    let! _ := rb_pop in ret tt.

(** The loop of the destructor: the bound is read again in every round. *)
Fixpoint cleanup_loop (fuel : nat) (i : Z) : M (ringbuffer A) unit :=
  match fuel with
  | O => out_of_fuel
  | S fuel' =>
    let! n := gets rb_n_elems in
    if i <? n then let! _ := rb_pop in cleanup_loop fuel' (i + 1) else ret tt
  end.

Definition cleanup : M (ringbuffer A) unit :=
  let! e := rb_empty in
  let! n := gets rb_n_elems in
  if e then ret tt else cleanup_loop (S (Z.to_nat n)) 0.
End ring.

(** ** Eventqueue *)

(** What the queue asks of an event. *)
Class Queueable (E : Type) := {
  is_unique_event : E -> bool;
  event_id : E -> string
}.

Record ev_info := mkEvInfo { info_id : string; stored_at : Z }.

(** [ev_size] and [info_size]: the sizes of an event and of an [ev_info]. *)
Record eventqueue (E : Type) := mkEventqueue {
  eq_data : ringbuffer E;
  stored_unique_events : ringbuffer ev_info
}.

Arguments mkEventqueue {E}.
Arguments eq_data {E}.
Arguments stored_unique_events {E}.

Section eventqueue.
Context {E : Type} `{Queueable E} (ev_size info_size : Z).

Definition on_data {B} (m : M (ringbuffer E) B) : M (eventqueue E) B :=
  zoom eq_data (fun d q => mkEventqueue d (stored_unique_events q)) m.
Definition on_infos {B} (m : M (ringbuffer ev_info) B) : M (eventqueue E) B :=
  zoom stored_unique_events (fun d q => mkEventqueue (eq_data q) d) m.

(** The two rings of the default constructor, with [n] and [m] records. *)
Definition new_eventqueue (n m : Z) : option (eventqueue E) :=
  match new_ring ev_size (n * ev_size), new_ring info_size (m * info_size) with
  | Some d, Some u => Some (mkEventqueue d u)
  | _, _ => None
  end.

Definition find_unique (id : string) : M (eventqueue E) Z :=
  on_infos (rb_find info_size (fun i => String.eqb (info_id i) id) 0).

Definition eq_push (elem : E) : M (eventqueue E) unit :=
  if is_unique_event elem then
    let! ofs := find_unique (event_id elem) in
    let! valid := on_infos (valid_ofs ofs) in
    if valid then
      let! i := on_infos (rb_get ofs) in
      on_data (rb_set (stored_at i) elem)
    else
      let! at_ := on_data (rb_append ev_size elem) in
      let! _ := on_infos (rb_append info_size (mkEvInfo (event_id elem) at_)) in
      ret tt
  else let! _ := on_data (rb_append ev_size elem) in ret tt.

Definition eq_front : M (eventqueue E) E := on_data rb_front.

Definition eq_pop : M (eventqueue E) unit :=
  let! e := on_data rb_empty in
  if e then ret tt
  else
    let pop_data := let! _ := on_data (rb_pop ev_size) in ret tt in
    let! u := on_infos rb_empty in
    if u then pop_data
    else
      let! f := eq_front in
      if negb (is_unique_event f) then pop_data
      else
        let! ofs := find_unique (event_id f) in
        do! pop_data in
        let! valid := on_infos (valid_ofs ofs) in
        if valid then on_infos (swap_to_front_and_pop info_size ofs) else ret tt.

Definition eq_count : M (eventqueue E) Z := on_data (gets rb_n_elems).
Definition eq_empty : M (eventqueue E) bool := let! n := eq_count in ret (n =? 0).
Definition eq_get_at_index (i : Z) : M (eventqueue E) E := on_data (get_at_index ev_size i).
Definition number_of_unique_events : M (eventqueue E) Z := on_infos (gets rb_n_elems).

(** ** threadsafe_queue

    The operations run under one mutex: a run of the program is a sequence of them.
    [wait_and_pop] is enabled when there is data. *)

Inductive queue_op := q_push (elem : E) | q_wait_and_pop (elem : E).

Definition wait_and_pop : M (eventqueue E) (option E) :=
  let! e := eq_empty in
  if e then ret None
  else let! elem := eq_front in do! eq_pop in ret (Some elem).

Inductive queue_step : eventqueue E -> queue_op -> eventqueue E -> Prop :=
| step_push elem q q' : eq_push elem q = Ok tt q' -> queue_step q (q_push elem) q'
| step_wait_and_pop elem q q' :
    wait_and_pop q = Ok (Some elem) q' -> queue_step q (q_wait_and_pop elem) q'.

Inductive queue_steps : eventqueue E -> list queue_op -> eventqueue E -> Prop :=
| steps_nil q : queue_steps q [] q
| steps_cons q o q1 os q2 : queue_step q o q1 -> queue_steps q1 os q2 -> queue_steps q (o :: os) q2.
End eventqueue.

Arguments queue_op : clear implicits.
