(* ===== verification/Nmp.v ===== *)
(** * Nmp: serialization and the message protocol between nodes

    core/include/serialization.hpp, core/src/serialization.cpp: values to bytes and back.
    core/src/sm_comm_naive_msg_prot.cpp: the thread that sends events to another node and
    the thread that receives them; process_event_from_remote of
    core/src/state_machine_simulation_core.cpp: from the bytes of a message to an event.
    Buffers are lists of bytes; a literal is paired with its unit, which the syntax trees
    of [Ast] leave out. [sc_size] is the size of the type of an exponent of a unit, which
    the ceps library defines. *)

From S2P Require Import Prelude MachineInt Ast HexFloat Websocket.

(** ** Serialization *)

Inductive exception_policy := throw_exception_policy | nothrow_exception_policy.

Section serialize.
Context {S : Type}.

(** [serialize_value] for a type whose bytes are [bs], with [write_data]. *)
Definition serialize_value (policy : exception_policy) (bs : list Z) (max_buffer_size : Z) : M S (list Z) :=
  if max_buffer_size <? Z.of_nat (length bs) then
    match policy with
    | throw_exception_policy => throw (RuntimeError "Buffer overflow.")
    | nothrow_exception_policy => ret []
    end
  else ret bs.

Definition fixed_bytes (n : nat) (v : Z) : list Z := le_enc n v.
Definition string_bytes (v : list Z) : list Z := v ++ [0].
(** The specialization for double, which does not look at the size of the buffer. *)
Definition double_bytes (v : Z) : list Z := print_la v ++ [0].

(** The specialization for vectors: [None] stands for the size of a buffer that was too
    small, 0. *)
Fixpoint vector_size (elems : list (list Z)) (n max_buffer_size : Z) : option Z :=
  match elems with
  | [] => Some n
  | e :: elems' =>
    if max_buffer_size <? n then None else vector_size elems' (n + Z.of_nat (length e)) max_buffer_size
  end.

Definition serialize_vector (elems : list (list Z)) (max_buffer_size : Z) : M S (list Z) :=
  match vector_size elems 8 max_buffer_size with
  | None => ret []
  | Some _ =>
    let! bs := foldM elems (fun acc e =>
      let! w := serialize_value nothrow_exception_policy e max_buffer_size in ret (acc ++ w)) [] in
    ret (le_enc 8 (Z.of_nat (length elems)) ++ bs)
  end.

(** [deserialize_value] at [offs] of [data]: the value and how many bytes it has. *)
Definition deserialize_fixed (n : nat) (data : list Z) (offs max_buffer_size : Z) : M S (Z * Z) :=
  if max_buffer_size <? Z.of_nat n then throw (RuntimeError "Buffer overflow.")
  else let! bs := of_option (slice_get data offs n) in ret (le_dec bs, Z.of_nat n).

Definition deserialize_string (data : list Z) (offs max_buffer_size : Z) : M S (list Z * Z) :=
  let! s := of_option (c_string data offs) in
  let n := Z.of_nat (length s) + 1 in
  if max_buffer_size <? n then throw (RuntimeError "Buffer overflow.") else ret (s, n).

(** A text without a number leaves [v] uninitialised. *)
Definition deserialize_double (data : list Z) (offs max_buffer_size : Z) : M S (Z * Z) :=
  let! s := of_option (c_string data offs) in
  let! v := of_option (scan_la s) in
  ret (v, Z.of_nat (length s) + 1).

(** The elements of a vector of strings, with [n] bytes read so far. *)
Fixpoint deserialize_elems (k : nat) (data : list Z) (offs max_buffer_size n : Z) (v : list (list Z))
  : M S (list (list Z) * Z) :=
  match k with
  | O => ret (v, n)
  | Datatypes.S k' =>
    let! r := deserialize_string data offs (to_u 64 (max_buffer_size - n)) in
    let n := n + r.2 in
    if max_buffer_size <? n then throw (RuntimeError "Buffer overflow.")
    else deserialize_elems k' data (offs + r.2) max_buffer_size n (v ++ [r.1])
  end.

Definition deserialize_string_vector (data : list Z) (offs max_buffer_size : Z) : M S (list (list Z) * Z) :=
  if max_buffer_size <? 8 then throw (RuntimeError "Buffer overflow.")
  else
    let! bs := of_option (slice_get data offs 8) in
    deserialize_elems (Z.to_nat (le_dec bs)) data (offs + 8) max_buffer_size 8 [].
End serialize.

(** ** Byte order *)

Definition bswap (n : nat) (v : Z) : Z := le_dec (rev (le_enc n v)).
Definition htonl (v : Z) : Z := bswap 4 v.
Definition ntohl (v : Z) : Z := bswap 4 v.
Definition htons (v : Z) : Z := bswap 2 v.

(** ** Messages *)

Definition NMP_PAYLOAD_INT : Z := 0.
Definition NMP_PAYLOAD_DOUBLE : Z := 1.
Definition NMP_PAYLOAD_STRING : Z := 2.
Definition NMP_PAYLOAD_SYSTEMSTATE : Z := 3.
Definition NMP_SYSTEMSTATES : Z := 101.
Definition NMP_USER_DEFINED : Z := 9999.
Definition NMP_SIMPLE_EVENT : Z := NMP_USER_DEFINED + 1.
Definition NMP_EVENT_FLAT_PAYLOAD : Z := NMP_SIMPLE_EVENT + 1.

Record nmp_header := mkHeader { h_id : Z; h_len : Z }.

Definition header_bytes (h : nmp_header) : list Z := le_enc 4 (h_id h) ++ le_enc 4 (h_len h).
Definition header_of (bs : list Z) : nmp_header := mkHeader (le_dec (take 4 bs)) (le_dec (drop 4 bs)).

Record unit_rep := mkUnit {
  u_m : Z; u_kg : Z; u_s : Z; u_ampere : Z; u_kelvin : Z; u_mol : Z; u_candela : Z
}.

Definition all_zero_unit : unit_rep := mkUnit 0 0 0 0 0 0 0.

Definition unit_fields (u : unit_rep) : list Z :=
  [u_m u; u_kg u; u_s u; u_ampere u; u_kelvin u; u_mol u; u_candela u].

(** A literal with its unit. *)
Definition value_t : Type := node * unit_rep.

(** strncpy of the [n] bytes of a std::string: behind a zero only zeros. *)
Definition strncpy_n (bs : list Z) : list Z :=
  let s := c_str bs in s ++ replicate (length bs - length s) 0.

Section protocol.
Context (sc_size : nat).

Definition tag (t : Z) : list Z := le_enc 4 (htonl t).
Definition int_bytes (v : Z) : list Z := fixed_bytes 4 (htonl (to_u 32 v)).

(** ** Writing an event with a payload *)

Definition flat_size (p : value_t) : Z :=
  match p.1 with
  | Int_literal _ => 4 + 7 * Z.of_nat sc_size
  | Float_literal v => Z.of_nat (length (double_bytes v)) + 7 * Z.of_nat sc_size
  | String_literal s => Z.of_nat (String.length s) + 1
  | _ => 0
  end.

Definition flat_unit (u : unit_rep) : list Z := List.concat (map (fixed_bytes sc_size) (unit_fields u)).

Definition flat_value {S} (p : value_t) : M S (list Z) :=
  match p.1 with
  | Int_literal v => ret (tag NMP_PAYLOAD_INT ++ int_bytes v ++ flat_unit p.2)
  | Float_literal v => ret (tag NMP_PAYLOAD_DOUBLE ++ double_bytes v ++ flat_unit p.2)
  | String_literal s => ret (tag NMP_PAYLOAD_STRING ++ string_bytes (bytes_of_string s))
  | _ => throw (Fatal (-1) ("Not Implemented." +:+ String (Ascii.ascii_of_nat 10) ""))
  end.

(** The block is allocated with [buffer_size] bytes; writing behind it is undefined. *)
Definition serialize_flat_payload {S} (id : string) (in_ : list value_t) : M S (list Z) :=
  let name := bytes_of_string id in
  let data_size := foldl (fun n p => n + flat_size p) 0 in_ in
  let buffer_size := data_size + Z.of_nat (length in_) * 4 + 8 + 4 + Z.of_nat (length name) in
  let! body := foldM in_ (fun acc p => let! w := flat_value p in ret (acc ++ w)) [] in
  let data := header_bytes (mkHeader (htonl NMP_EVENT_FLAT_PAYLOAD) (htonl (to_u 32 (buffer_size - 8)))) ++
              le_enc 4 (htonl (to_u 32 (Z.of_nat (length name)))) ++ strncpy_n name ++ body in
  if Z.of_nat (length data) =? buffer_size then ret data else undef.

(** ** Writing the system states: exponents of units have two bytes here *)

Definition is_flat (n : node) : bool :=
  match n with Int_literal _ | Float_literal _ | String_literal _ => true | _ => false end.

Definition state_unit (u : unit_rep) : list Z := List.concat (map (fun x => fixed_bytes 2 (htons (to_u 16 x))) (unit_fields u)).

Definition state_value (p : value_t) : list Z :=
  match p.1 with
  | Int_literal v => tag NMP_PAYLOAD_INT ++ int_bytes v ++ state_unit p.2
  | Float_literal v => tag NMP_PAYLOAD_DOUBLE ++ double_bytes v ++ state_unit p.2
  | String_literal s => tag NMP_PAYLOAD_STRING ++ string_bytes (bytes_of_string s)
  | _ => []
  end.

Definition state_size (name : string) (p : value_t) : Z :=
  Z.of_nat (String.length name) + 1 +
  match p.1 with
  | Int_literal _ => 4 + 7 * 2
  | Float_literal v => Z.of_nat (length (double_bytes v)) + 7 * 2
  | String_literal s => Z.of_nat (String.length s) + 1
  | _ => 0
  end.

(** [states]: the names and values in the order of the map, null pointers left out. *)
Definition serialize_system_state_block {S} (states : list (string * value_t)) : M S (list Z) :=
  let written := List.filter (fun e => is_flat e.2.1) states in
  let data_size := foldl (fun n e => n + state_size e.1 e.2) 0 written in
  let buffer_size := data_size + Z.of_nat (length written) * 4 * 2 + 8 in
  let data := header_bytes (mkHeader (htonl NMP_SYSTEMSTATES) (htonl (to_u 32 (buffer_size - 8)))) ++
              List.concat (map (fun e => tag NMP_PAYLOAD_SYSTEMSTATE ++ string_bytes (bytes_of_string e.1) ++ state_value e.2) written) in
  if Z.of_nat (length data) =? buffer_size then ret data else undef.

(** ** The sender *)

(** Native values go into literals made in advance: 32 integers, 32 doubles, 16
    strings. *)
Definition map_native {S} (l : list Variant) : M S (list value_t) :=
  let! r := foldM l (fun '(iint, idouble, istr, acc) e =>
    match what_ e with
    | What_Int => if iint <? 32 then ret (iint + 1, idouble, istr, acc ++ [(Int_literal (iv_ e), all_zero_unit)]) else undef
    | What_Double => if idouble <? 32 then ret (iint, idouble + 1, istr, acc ++ [(Float_literal (dv_ e), all_zero_unit)]) else undef
    | What_String => if istr <? 16 then ret (iint, idouble, istr + 1, acc ++ [(String_literal (sv_ e), all_zero_unit)]) else undef
    | What_Undefined => ret (iint, idouble, istr, acc)
    end) (0, 0, 0, []) in
  ret r.2.

(** What comm_sender_thread writes for an event, over a connection that takes all of
    it. Events whose name starts with @ are not sent. *)
Definition send_event {S} (id : string) (payload : list value_t) (native : list Variant) : M S (list Z) :=
  if bool_decide (head (bytes_of_string id) = Some 64) then ret []
  else
    let! payload := (match native with [] => ret payload | _ => map_native native end) in
    match payload with
    | [] =>
      let data := bytes_of_string id in
      ret (header_bytes (mkHeader (htonl NMP_SIMPLE_EVENT) (htonl (to_u 32 (Z.of_nat (length data))))) ++ data)
    | _ =>
      if forallb (fun p => is_flat p.1) payload then serialize_flat_payload id payload
      else throw (Fatal (-1) ("Not Implemented." +:+ String (Ascii.ascii_of_nat 10) ""))
    end.

(** ** The receiver *)

(** strncpy into a zeroed buffer of 1024 bytes, at most [n] bytes from [offs]. *)
Definition read_name {S} (data : list Z) (offs n : Z) : M S string :=
  if n <? 0 then undef
  else
    let s := take (Z.to_nat n) (drop (Z.to_nat offs) data) in
    match until_nul s with
    | Some t => ret (string_of_bytes t)
    | None => if Z.of_nat (length s) =? n then ret (string_of_bytes s) else undef
    end.

(** An exponent: [ntohl], then the conversion to its type. *)
Definition read_exponent {S} (data : list Z) (offs max : Z) : M S (Z * Z) :=
  let! r := deserialize_fixed sc_size data offs max in
  let w := 8 * Z.of_nat sc_size in
  ret (to_s w (ntohl (to_u 32 (to_s w r.1))), r.2).

Definition read_unit {S} (data : list Z) (offs len : Z) : M S (unit_rep * Z) :=
  let! e := foldM (seq 0 7) (fun '(l, offs) _ =>
    let! r := read_exponent data offs (to_u 64 (len - offs)) in ret (l ++ [r.1], offs + r.2)) ([], offs) in
  match e.1 with
  | [m; kg; s; ampere; kelvin; mol; candela] => ret (mkUnit m kg s ampere kelvin mol candela, e.2)
  | _ => undef
  end.

(** One element at [offs]: its value, if the tag is known, and the next offset. *)
Definition read_element {S} (data : list Z) (len offs : Z) : M S (option (value_t * Z)) :=
  let! t := of_option (slice_get data offs 4) in
  let id := to_s 32 (ntohl (le_dec t)) in
  let offs := offs + 4 in
  if id =? NMP_PAYLOAD_INT then
    let! r := deserialize_fixed 4 data offs (to_u 64 (len - offs)) in
    let! u := read_unit data (offs + r.2) len in
    ret (Some ((Int_literal (to_s 32 (ntohl r.1)), u.1), u.2))
  else if id =? NMP_PAYLOAD_DOUBLE then
    let! r := deserialize_double data offs (to_u 64 (len - offs)) in
    let! u := read_unit data (offs + r.2) len in
    ret (Some ((Float_literal r.1, u.1), u.2))
  else if id =? NMP_PAYLOAD_STRING then
    let! r := deserialize_string data offs (to_u 64 (len - offs)) in
    ret (Some ((String_literal (string_of_bytes r.1), all_zero_unit), offs + r.2))
  else ret None.

(** [None]: an unknown tag, the event is dropped. *)
Fixpoint read_elements {S} (fuel : nat) (data : list Z) (len offs : Z) (acc : list value_t) : M S (option (list value_t)) :=
  match fuel with
  | O => out_of_fuel
  | Datatypes.S fuel' =>
    if offs <? len then
      let! r := read_element data len offs in
      match r with
      | Some (v, offs) => read_elements fuel' data len offs (acc ++ [v])
      | None => ret None
      end
    else ret (Some acc)
  end.

Record remote_event := mkRemote {
  re_id : string;
  re_payload : list value_t;
  re_payload_native : list Variant;
  re_unique : bool
}.

Definition variant_of (v : value_t) : Variant :=
  match v.1 with
  | Int_literal z => Variant_int z
  | Float_literal z => Variant_double z
  | String_literal s => Variant_string s
  | _ => Variant_default
  end.

(** [process_event_from_remote]: the event that is pushed to the main queue. *)
Definition process_event_from_remote {S} (enforce_native : bool) (unique_events : gset string)
    (h : nmp_header) (data : list Z) : M S (option remote_event) :=
  if h_id h =? NMP_EVENT_FLAT_PAYLOAD then
    let! l := of_option (slice_get data 0 4) in
    let ev_name_len := to_s 32 (ntohl (le_dec l)) in
    let! name := read_name data 4 (Z.min 1023 ev_name_len) in
    let! v := read_elements (Datatypes.S (length data)) data (h_len h) (to_u 64 (ev_name_len + 4)) [] in
    match v with
    | None => ret None
    | Some v => ret (Some (if enforce_native then mkRemote name [] (map variant_of v) false else mkRemote name v [] false))
    end
  else
    let! name := read_name data 0 (Z.min 1023 (to_s 32 (h_len h))) in
    ret (Some (mkRemote name [] [] (bool_decide (name ∈ unique_events)))).

(** ** The thread of a connection *)

(** The socket and the events pushed to the main queue. *)
Record consumer := mkConsumer { c_sock : socket; c_events : list remote_event }.

Definition on_sock {A} (m : M socket A) : M consumer A :=
  zoom c_sock (fun s c => mkConsumer s (c_events c)) m.

(** The bytes of a message, over several calls of recv. *)
Fixpoint read_data (fuel : nat) (len : Z) (acc : list Z) : M socket (option (list Z)) :=
  match fuel with
  | O => out_of_fuel
  | Datatypes.S fuel' =>
    if Z.of_nat (length acc) <? len then
      let! bs := recv (len - Z.of_nat (length acc)) in
      match bs with [] => ret None | _ => read_data fuel' len (acc ++ bs) end
    else ret (Some acc)
  end.

Definition registered (id : Z) : bool := (id =? NMP_SIMPLE_EVENT) || (id =? NMP_EVENT_FLAT_PAYLOAD).

(** One message: [false] when the connection is closed. A header that arrives in pieces
    is used as far as it was read. *)
Definition consume_message (enforce_native : bool) (unique_events : gset string) : M consumer bool :=
  let! hb := on_sock (recv 8) in
  match hb with
  | [] => ret false
  | _ =>
    if Z.of_nat (length hb) <? 8 then undef
    else
      let h := header_of hb in
      let h := mkHeader (ntohl (h_id h)) (ntohl (h_len h)) in
      let! data := (if h_len h =? 0 then ret (Some [])
                    else on_sock (read_data (Datatypes.S (Z.to_nat (h_len h))) (h_len h) [])) in
      match data with
      | None => ret false
      | Some data =>
        do! (if registered (h_id h) then
               try_catch
                 (let! ev := process_event_from_remote enforce_native unique_events h data in
                  match ev with
                  | Some ev => modify (fun c => mkConsumer (c_sock c) (c_events c ++ [ev]))
                  | None => ret tt
                  end)
                 (fun _ => ret tt)
             else ret tt) in
        ret true
      end
  end.

(** [nmp_consumer_thread_fn], until the connection is closed. *)
Fixpoint nmp_consumer_thread_fn (fuel : nat) (enforce_native : bool) (unique_events : gset string) : M consumer unit :=
  match fuel with
  | O => out_of_fuel
  | Datatypes.S fuel' =>
    let! b := consume_message enforce_native unique_events in
    if b then nmp_consumer_thread_fn fuel' enforce_native unique_events else ret tt
  end.
End protocol.
