(* ===== verification/FastJson.v ===== *)
(** * FastJson: JSON text to Protobufish messages

    core/include/fast-json.hpp: the tokenizer, the parser that writes a message into a
    block of an arena, and the use of it for events that arrive over a websocket
    (core/src/api/websocket/ws_api.cpp). Text is a list of bytes; the tests isdigit,
    isalpha and isspace are false for bytes from 128 on, as in the C locale. *)

From S2P Require Import Prelude MachineInt F64 VMEnv Protobufish Websocket.

(** ** Tokens *)

Inductive token_type :=
| t_undef | t_id | t_number | t_string | t_boolean | t_null | t_lbrace | t_rbrace
| t_lsqrbra | t_rsqrbra | t_comma | t_colon | t_eoi.

#[export] Instance token_type_eq_dec : EqDecision token_type.
Proof. solve_decision. Defined.

Record json_token := mkToken {
  tok_type : token_type;
  tok_from : Z;
  tok_end : Z;
  value_f : Z;
  value_i : Z;
  value_b : bool;
  is_int : bool
}.

Definition simple_token (t : token_type) (from end_ : Z) : json_token := mkToken t from end_ 0 0 false false.

Definition isdigit (c : Z) : bool := (48 <=? c) && (c <=? 57).
Definition isalpha (c : Z) : bool := ((65 <=? c) && (c <=? 90)) || ((97 <=? c) && (c <=? 122)).
Definition isalnum (c : Z) : bool := isdigit c || isalpha c.
Definition isspace (c : Z) : bool := (c =? 32) || ((9 <=? c) && (c <=? 13)).

Definition hexvalue (c : Z) : option Z :=
  if isdigit c then Some (c - 48)
  else if (97 <=? c) && (c <=? 102) then Some (c - 97 + 10)
  else if (65 <=? c) && (c <=? 70) then Some (c - 65 + 10)
  else None.

(** The libraries' pow. *)
Class Pow := { libm_pow : Z -> Z -> Z }.

Definition f64_tenth : Z := 0x3FB999999999999A.    (* 0.1 *)
Definition f64_ten : Z := 0x4024000000000000.
Definition f64_one : Z := 0x3FF0000000000000.

Section tokenizer.
Context `{Target} `{Pow} {S : Type}.
Context (buffer : list Z).

Let n : Z := Z.of_nat (length buffer).
Let at_ (i : Z) : M S Z := char_at buffer i.

(** The digits from [loc] on: the value [r] so far, the position. *)
Fixpoint match_digits (fuel : nat) (loc r : Z) : M S (Z * Z) :=
  match fuel with
  | O => out_of_fuel
  | Datatypes.S fuel' =>
    if loc <? n then
      let! c := at_ loc in
      if isdigit c then match_digits fuel' (loc + 1) (to_u 64 (10 * r + (c - 48))) else ret (r, loc)
    else ret (r, loc)
  end.

(** The value, and the position in any case. *)
Definition match_json_integer (loc : Z) : M S (option Z * Z) :=
  let! r := match_digits (Datatypes.S (length buffer)) loc 0 in
  if (r.2 =? loc) && (loc <? n) then ret (None, loc)
  else if loc + 1 <? r.2 then
    let! c := at_ loc in
    ret (if c =? 48 then None else Some r.1, r.2)
  else ret (Some r.1, r.2).

Fixpoint match_fraction (fuel : nat) (loc r pre : Z) : M S (Z * Z) :=
  match fuel with
  | O => out_of_fuel
  | Datatypes.S fuel' =>
    if loc <? n then
      let! c := at_ loc in
      if isdigit c then
        let pre := f64_mul nan_bits pre f64_tenth in
        let digit := c - 48 in
        let r := if digit =? 0 then r else f64_add nan_bits r (f64_mul nan_bits pre (f64_of_z nan_bits digit)) in
        match_fraction fuel' (loc + 1) r pre
      else ret (r, loc)
    else ret (r, loc)
  end.

Definition match_json_fraction (loc : Z) : M S (option Z * Z) :=
  let! r := match_fraction (Datatypes.S (length buffer)) loc f64_zero f64_one in
  if (r.2 =? loc) && (loc <? n) then ret (None, loc) else ret (Some r.1, r.2).

(** A step that can fail: the position is kept. *)
Definition or_fail {A} (m : M S (option A * Z)) (k : A -> Z -> M S (option json_token * Z)) : M S (option json_token * Z) :=
  let! r := m in match r.1 with Some a => k a r.2 | None => ret (None, r.2) end.

(** The value of a number from its parts. *)
Definition number_token (sign_neg : bool) (integer_part fraction_part : Z) (exp_part : Z) (sign_neg_exp_part int : bool)
  : M S json_token :=
  let value_f := f64_of_z nan_bits integer_part in
  let value_i := to_s 64 integer_part in
  let! value_i := (if sign_neg then checked I64 (value_i * -1) else ret value_i) in
  let value_f := f64_add nan_bits value_f fraction_part in
  let value_f :=
    if exp_part =? 0 then value_f
    else if sign_neg_exp_part then f64_mul nan_bits value_f (libm_pow f64_tenth (f64_of_z nan_bits exp_part))
    else f64_mul nan_bits value_f (libm_pow f64_ten (f64_of_z nan_bits exp_part)) in
  let value_f := if sign_neg then f64_mul nan_bits value_f f64_minus_one else value_f in
  ret (mkToken t_number 0 0 value_f value_i false int).

(** The exponent from [loc] on: its value, its sign. *)
Definition match_exponent (loc : Z) : M S (option (Z * bool) * Z) :=
  let! c := at_ loc in
  if (c =? 101) || (c =? 69) then
    let loc := loc + 1 in
    if loc >=? n then ret (None, loc)
    else
      let! c := at_ loc in
      let signed := (c =? 45) || (c =? 43) in
      let loc := if signed then loc + 1 else loc in
      if signed && (loc >=? n) then ret (None, loc)
      else
        let! r := match_json_integer loc in
        ret ((fun e => (e, c =? 45)) <$> r.1, r.2)
  else ret (Some (0, false), loc).

Definition get_number (loc : Z) : M S (option json_token * Z) :=
  let! c := at_ loc in
  let sign_neg := c =? 45 in
  let loc := if sign_neg then loc + 1 else loc in
  if sign_neg && (loc >=? n) then ret (None, loc)
  else
    let! c := at_ loc in
    if sign_neg && negb (isdigit c) then ret (None, loc)
    else
      or_fail (if isdigit c then match_json_integer loc else ret (Some 0, loc)) (fun integer_part loc =>
      let! c := at_ loc in
      let point := c =? 46 in
      or_fail (if point then match_json_fraction (loc + 1) else ret (Some f64_zero, loc)) (fun fraction_part loc =>
      or_fail (match_exponent loc) (fun e loc =>
      let int := negb point || (negb (e.1 =? 0) && e.2) in
      let! t := number_token sign_neg integer_part fraction_part e.1 e.2 int in
      ret (Some t, loc)))).

(** The four hexadecimal digits behind a backslash and u. *)
Definition hexdigits_at (loc : Z) : M S bool :=
  let! a := at_ (loc + 1) in let! b := at_ (loc + 2) in let! c := at_ (loc + 3) in let! d := at_ (loc + 4) in
  ret (bool_decide (is_Some (hexvalue a)) && bool_decide (is_Some (hexvalue b)) &&
       bool_decide (is_Some (hexvalue c)) && bool_decide (is_Some (hexvalue d))).

Definition is_escape (c : Z) : bool := bool_decide (c ∈ [34; 92; 47; 98; 102; 110; 114; 116]).

(** The position of the closing quote, or of the end of the text. *)
Fixpoint scan_string (fuel : nat) (loc : Z) : M S (option Z * Z) :=
  match fuel with
  | O => out_of_fuel
  | Datatypes.S fuel' =>
    if loc <? n then
      let! c := at_ loc in
      if c =? 34 then ret (Some loc, loc)
      else if c =? 92 then
        let loc := loc + 1 in
        if loc >=? n then ret (None, loc)
        else
          let! c := at_ loc in
          if is_escape c then scan_string fuel' (loc + 1)
          else if negb (c =? 117) then ret (None, loc)
          else if loc + 4 >=? n then ret (None, loc)
          else let! h := hexdigits_at loc in if h then scan_string fuel' (loc + 1) else ret (None, loc)
      else scan_string fuel' (loc + 1)
    else ret (Some loc, loc)
  end.

Definition get_string (loc : Z) : M S (option json_token * Z) :=
  let loc := loc + 1 in
  if loc >=? n then ret (None, loc)
  else
    or_fail (scan_string (Datatypes.S (length buffer)) loc) (fun end_ _ =>
    let! c := at_ end_ in
    if c =? 34 then ret (Some (simple_token t_string loc end_), end_ + 1) else ret (None, end_)).

(** A word at [loc]. *)
Definition word_at (word : list Z) (loc : Z) : bool :=
  (loc + Z.of_nat (length word) <=? n) && bool_decide (take (length word) (drop (Z.to_nat loc) buffer) = word).

Definition word_true : list Z := [116; 114; 117; 101].
Definition word_false : list Z := [102; 97; 108; 115; 101].
Definition word_null : list Z := [110; 117; 108; 108].

(** A word must not go on with a letter or a digit. *)
Definition get_word (word : list Z) (t : token_type) (b : bool) (loc : Z) : M S (option json_token * Z) :=
  let loc := loc + Z.of_nat (length word) in
  let tok := mkToken t (loc - 4) loc 0 0 b false in
  if loc >=? n then ret (Some tok, loc)
  else let! c := at_ loc in if isspace c || negb (isalnum c) then ret (Some tok, loc) else ret (None, loc).

Fixpoint scan_id (fuel : nat) (loc : Z) : M S Z :=
  match fuel with
  | O => out_of_fuel
  | Datatypes.S fuel' =>
    if loc <? n then let! c := at_ loc in if isalnum c then scan_id fuel' (loc + 1) else ret loc else ret loc
  end.

Fixpoint get_token_loop (fuel : nat) (loc : Z) : M S (option json_token * Z) :=
  match fuel with
  | O => out_of_fuel
  | Datatypes.S fuel' =>
    if loc <? n then
      let! c := at_ loc in
      if isspace c then get_token_loop fuel' (loc + 1)
      else if isdigit c || (c =? 46) || (c =? 45) then get_number loc
      else if c =? 34 then get_string loc
      else if word_at word_true loc then get_word word_true t_boolean true loc
      else if word_at word_false loc then get_word word_false t_boolean false loc
      else if word_at word_null loc then get_word word_null t_null false loc
      else
        let punct t := ret (Some (simple_token t loc (loc + 1)), loc + 1) in
        if c =? 123 then punct t_lbrace
        else if c =? 125 then punct t_rbrace
        else if c =? 44 then punct t_comma
        else if c =? 58 then punct t_colon
        else if c =? 91 then punct t_lsqrbra
        else if c =? 93 then punct t_rsqrbra
        else if isalpha c then
          let! e := scan_id (Datatypes.S (length buffer)) (loc + 1) in
          ret (Some (simple_token t_id loc e), e)
        else ret (None, loc)
    else ret (Some (simple_token t_eoi 0 0), loc)
  end.

(** The next token, if there is one, and the position behind it. *)
Definition get_token (loc : Z) : M S (option json_token * Z) := get_token_loop (Datatypes.S (length buffer)) loc.

(** ** The text of a string token *)

Definition unescape (c : Z) : list Z :=
  if c =? 98 then [8] else if c =? 102 then [12] else if c =? 110 then [10]
  else if c =? 114 then [13] else if c =? 116 then [9]
  else if (c =? 34) || (c =? 47) || (c =? 92) then [c] else [].

(** The 16-bit number of a \u escape at [i], the letter u. *)
Definition unicode_at (i : Z) : M S (option Z) :=
  let! a := at_ (i + 4) in let! b := at_ (i + 3) in let! c := at_ (i + 2) in let! d := at_ (i + 1) in
  ret (a ← hexvalue a; b ← hexvalue b; c ← hexvalue c; d ← hexvalue d;
       Some (to_u 16 (a + Z.shiftl b 4 + Z.shiftl c 8 + Z.shiftl d 12))).

Fixpoint extract_loop (fuel : nat) (i end_ : Z) (r : list Z) : M S (option (list Z)) :=
  match fuel with
  | O => out_of_fuel
  | Datatypes.S fuel' =>
    if i <? end_ then
      let! c := at_ i in
      if negb (c =? 92) then extract_loop fuel' (i + 1) end_ (r ++ [c])
      else
        let i := i + 1 in
        if i >=? end_ then ret None
        else
          let! c := at_ i in
          if c =? 117 then
            if i + 4 >=? end_ then ret None
            else
              let! v := unicode_at i in
              match v with
              | Some v => extract_loop fuel' (i + 5) end_ (r ++ le_enc 2 v)
              | None => ret None
              end
          else extract_loop fuel' (i + 1) end_ (r ++ unescape c)
    else ret (Some r)
  end.

Definition extract_str_value (tok : json_token) : M S (option (list Z)) :=
  if negb (bool_decide (tok_type tok = t_string)) || (tok_end tok <? tok_from tok) || (n <? tok_end tok) then ret None
  else extract_loop (Datatypes.S (length buffer)) (tok_from tok) (tok_end tok) [].
End tokenizer.

(** ** The parser *)

(** What the parser asks of an arena: a block, [None] for a null pointer. The second
    operation copies the first [n_old] bytes of a block into a new one. *)
Class ArenaOps (A : Type) := {
  allocate : Z -> Z -> M A (option (list Z));
  reallocate : list Z -> Z -> Z -> Z -> M A (option (list Z))
}.

(** ser_ctxt_t *)
Record ser_ctxt_t (A : Type) := mkSer {
  cur_tok : json_token;
  lookahead : json_token;
  ser_loc : Z;
  ser_buffer : list Z;
  ser_total : Z;
  ser_used : Z;
  cur_node_ofs : Z;
  ser_arena : A
}.

Arguments mkSer {A}.
Arguments cur_tok {A}.
Arguments lookahead {A}.
Arguments ser_loc {A}.
Arguments ser_buffer {A}.
Arguments ser_total {A}.
Arguments ser_used {A}.
Arguments cur_node_ofs {A}.
Arguments ser_arena {A}.

Definition undef_token : json_token := simple_token t_undef 0 0.

(** (size_t)(x * 1.1) *)
Definition grown (x : Z) : Z := f64_to_z (f64_mul 0 (f64_of_z 0 x) 0x3FF199999999999A).

Definition sizeof_msg_node_bool : Z := 16.

Section parser.
Context `{Target} `{Pow} {A : Type} `{ArenaOps A}.
Context (input : list Z) (arena_id : Z).

Abbreviation P := (M (ser_ctxt_t A)).

Definition with_cur_tok x (c : ser_ctxt_t A) : ser_ctxt_t A :=
  mkSer x (lookahead c) (ser_loc c) (ser_buffer c) (ser_total c) (ser_used c) (cur_node_ofs c) (ser_arena c).
Definition with_lookahead x (c : ser_ctxt_t A) : ser_ctxt_t A :=
  mkSer (cur_tok c) x (ser_loc c) (ser_buffer c) (ser_total c) (ser_used c) (cur_node_ofs c) (ser_arena c).
Definition with_loc x (c : ser_ctxt_t A) : ser_ctxt_t A :=
  mkSer (cur_tok c) (lookahead c) x (ser_buffer c) (ser_total c) (ser_used c) (cur_node_ofs c) (ser_arena c).
Definition with_buffer x (c : ser_ctxt_t A) : ser_ctxt_t A :=
  mkSer (cur_tok c) (lookahead c) (ser_loc c) x (ser_total c) (ser_used c) (cur_node_ofs c) (ser_arena c).
Definition with_total x (c : ser_ctxt_t A) : ser_ctxt_t A :=
  mkSer (cur_tok c) (lookahead c) (ser_loc c) (ser_buffer c) x (ser_used c) (cur_node_ofs c) (ser_arena c).
Definition with_used x (c : ser_ctxt_t A) : ser_ctxt_t A :=
  mkSer (cur_tok c) (lookahead c) (ser_loc c) (ser_buffer c) (ser_total c) x (cur_node_ofs c) (ser_arena c).
Definition with_cur_node_ofs x (c : ser_ctxt_t A) : ser_ctxt_t A :=
  mkSer (cur_tok c) (lookahead c) (ser_loc c) (ser_buffer c) (ser_total c) (ser_used c) x (ser_arena c).
Definition with_arena x (c : ser_ctxt_t A) : ser_ctxt_t A :=
  mkSer (cur_tok c) (lookahead c) (ser_loc c) (ser_buffer c) (ser_total c) (ser_used c) (cur_node_ofs c) x.

Definition next_token : P (option json_token) :=
  let! loc := gets ser_loc in
  let! r := get_token input loc in
  do! modify (with_loc r.2) in ret r.1.

Definition read_token : P bool :=
  let! la := gets lookahead in
  if negb (bool_decide (tok_type la = t_undef)) then
    do! modify (with_cur_tok la) in do! modify (with_lookahead undef_token) in ret true
  else
    let! t := next_token in
    match t with
    | Some t => do! modify (with_cur_tok t) in ret true
    | None => ret false
    end.

Definition peek : P json_token :=
  let! la := gets lookahead in
  if negb (bool_decide (tok_type la = t_undef)) then ret la
  else
    let! t := next_token in
    do! modify (with_lookahead (default undef_token t)) in
    gets lookahead.

(** A step that the parser leaves with false when it fails. *)
Definition and_then (m k : P bool) : P bool := let! b := m in if b then k else ret false.

Definition available (c : ser_ctxt_t A) : Z := to_u 64 (ser_total c - ser_used c).

(** Room for [need] bytes; otherwise a block of [grown size] bytes. *)
Definition make_room (need size : Z) : P bool :=
  let! c := get in
  if available c <? need then
    let new_size := grown size in
    let! b := zoom ser_arena with_arena (reallocate (ser_buffer c) (ser_total c) new_size arena_id) in
    match b with
    | None => ret false
    | Some b => do! modify (with_buffer b) in do! modify (with_total new_size) in ret true
    end
  else ret true.

Definition wr (a : Z) (bs : list Z) : P unit :=
  let! b := gets ser_buffer in
  let! b := of_option (slice_set b a bs) in
  modify (with_buffer b).

Definition get_size (ofs : Z) : P Z :=
  let! b := gets ser_buffer in rd_size b ofs.

Definition add_size (ofs d : Z) : P unit :=
  let! s := get_size ofs in wr (ofs + 4) (encode U64 (to_u 64 (s + d))).

Definition write_node (ofs what size : Z) : P unit :=
  do! wr ofs (encode U32 what) in wr (ofs + 4) (encode U64 size).

(** A node without children: [body] follows its header. *)
Definition leaf (need size what node_size : Z) (body : list Z) : P bool :=
  and_then (make_room need size)
    (let! c := get in
     do! write_node (ser_used c) what node_size in
     do! wr (ser_used c + sizeof_msg_node) body in
     do! modify (with_used (ser_used c + node_size)) in
     do! add_size (cur_node_ofs c) node_size in
     read_token).

Definition consume_number : P bool :=
  let! c := get in
  leaf sizeof_msg_node_f64 (sizeof_msg_node_f64 + ser_total c) PF64 sizeof_msg_node_f64 (encode F64 (value_f (cur_tok c))).

(** The copy of the value stops at a zero. *)
Definition sz_body (value : list Z) : list Z := c_str value ++ replicate (length value - length (c_str value)) 0 ++ [0].

Definition consume_string : P bool :=
  let! c := get in
  let! v := extract_str_value input (cur_tok c) in
  match v with
  | None => ret false
  | Some value =>
    let len := Z.of_nat (length value) in
    leaf (sizeof_msg_node + len + 1) (sizeof_msg_node + len + ser_total c) SZ (sizeof_msg_node + len + 1) (sz_body value)
  end.

Definition consume_null : P bool :=
  let! c := get in leaf sizeof_msg_node (sizeof_msg_node + ser_total c) NIL sizeof_msg_node [].

Definition consume_boolean : P bool :=
  let! c := get in
  leaf sizeof_msg_node_bool (sizeof_msg_node_bool + ser_total c) BOOLEAN sizeof_msg_node_bool
    (encode I32 (if value_b (cur_tok c) then 1 else 0)).

Section nested.
Context (consume_object consume_array : P bool).

Definition consume_element (read : bool) : P bool :=
  and_then (if read then read_token else ret true)
    (let! c := get in
     match tok_type (cur_tok c) with
     | t_eoi => ret false
     | t_number => consume_number
     | t_string => consume_string
     | t_null => consume_null
     | t_boolean => consume_boolean
     | t_lbrace => consume_object
     | t_lsqrbra => consume_array
     | _ => ret true
     end).

(** A node with children: [content] is read with the node as current node; then the
    size the node got is added to the node around it. *)
Definition nested_node (what node_size : Z) (body : list Z) (content : P bool) : P bool :=
  let! c := get in
  let new_ofs := ser_used c in
  do! write_node new_ofs what node_size in
  do! wr (new_ofs + sizeof_msg_node) body in
  do! add_size (cur_node_ofs c) node_size in
  do! modify (with_cur_node_ofs new_ofs) in
  do! modify (with_used (new_ofs + node_size)) in
  and_then content
    (do! modify (with_cur_node_ofs (cur_node_ofs c)) in
     let! s := get_size new_ofs in
     do! add_size (cur_node_ofs c) (to_u 64 (s - node_size)) in
     ret true).

Definition consume_member : P bool :=
  let! c := get in
  let! v := extract_str_value input (cur_tok c) in
  match v with
  | None => ret false
  | Some value =>
    let len := Z.of_nat (length value) in
    and_then (make_room (sizeof_msg_node + len + 1) (ser_total c + sizeof_msg_node + len + 1))
      (and_then read_token
         (let! c := get in
          if bool_decide (tok_type (cur_tok c) = t_colon)
          then nested_node NODE (sizeof_msg_node + len + 1) (sz_body value) (consume_element true)
          else ret false))
  end.

(** The loop over the members. *)
Fixpoint members_loop (fuel : nat) : P bool :=
  match fuel with
  | O => out_of_fuel
  | S fuel' =>
    let! c := get in
    match tok_type (cur_tok c) with
    | t_string => and_then consume_member (members_loop fuel')
    | t_comma => and_then read_token (members_loop fuel')
    | _ => ret true
    end
  end.

Definition expect (t : token_type) : P bool :=
  let! c := get in if bool_decide (tok_type (cur_tok c) = t) then read_token else ret false.

Definition consume_object_with (fuel : nat) : P bool :=
  let! c := get in
  and_then (make_room (sizeof_msg_node + 1) (ser_total c + sizeof_msg_node + 1))
    (and_then (nested_node NODE (sizeof_msg_node + 1) [0] (and_then read_token (members_loop fuel)))
       (expect t_rbrace)).

(** The loop over the elements. *)
Fixpoint elements_loop (fuel : nat) : P bool :=
  match fuel with
  | O => out_of_fuel
  | S fuel' =>
    and_then (consume_element false)
      (let! c := get in
       if bool_decide (tok_type (cur_tok c) = t_comma) then and_then read_token (elements_loop fuel') else ret true)
  end.

Definition consume_array_with (fuel : nat) : P bool :=
  let! c := get in
  and_then (make_room sizeof_msg_node (ser_total c + sizeof_msg_node))
    (and_then
       (nested_node ARRAY sizeof_msg_node []
          (and_then read_token
             (let! c := get in
              if bool_decide (tok_type (cur_tok c) = t_rsqrbra) then ret true else elements_loop fuel)))
       (expect t_rsqrbra)).
End nested.

(** [fuel] bounds the nesting, and the number of members of an object and of elements of
    an array. *)
Fixpoint consume_object (fuel : nat) : P bool :=
  match fuel with
  | O => out_of_fuel
  | S fuel' => consume_object_with (consume_object fuel') (consume_array fuel') fuel
  end
with consume_array (fuel : nat) : P bool :=
  match fuel with
  | O => out_of_fuel
  | S fuel' => consume_array_with (consume_object fuel') (consume_array fuel') fuel
  end.

Definition read_internal (fuel : nat) : P bool :=
  and_then read_token
    (let! c := get in
     let value (m : P bool) := and_then m (let! c := get in ret (bool_decide (tok_type (cur_tok c) = t_eoi))) in
     match tok_type (cur_tok c) with
     | t_number => value consume_number
     | t_string => value consume_string
     | t_null => value consume_null
     | t_boolean => value consume_boolean
     | t_lbrace => value (consume_object fuel)
     | t_lsqrbra => value (consume_array fuel)
     | _ => ret false
     end).

(** [read(json, arena, arena_id)]: the block, its size and how much of it is used. *)
Definition read (fuel : nat) : M A (option (list Z * (Z * Z))) := fun a =>
  let total := sizeof_msg_node in
  match allocate total arena_id a with
  | Ok None a => Ok None a
  | Ok (Some b) a =>
    let start := do! write_node 0 ROOT sizeof_msg_node in read_internal fuel in
    match start (mkSer undef_token undef_token 0 b total sizeof_msg_node 0 a) with
    | Ok true c => Ok (Some (ser_buffer c, (ser_total c, ser_used c))) (ser_arena c)
    | Ok false c => Ok None (ser_arena c)
    | Throw e c => Throw e (ser_arena c)
    | Undef => Undef
    | OutOfFuel => OutOfFuel
    end
  | Throw e a => Throw e a
  | Undef => Undef
  | OutOfFuel => OutOfFuel
  end.
End parser.

(** ** Events over a websocket

    The EVENT command with a JSON text (ws_api.cpp): a field with the number of the
    socket goes behind the message. *)

Definition origin_field : list Z := bytes_of_string "origin_websocket_sock".

Section origin.
Context {A : Type} `{ArenaOps A}.

(** [None]: the event is not fired. The byte behind the name is not written. *)
Definition add_origin_info (sck : Z) (r : list Z * (Z * Z)) : M A (option (list Z * (Z * Z))) :=
  let '(block, (total, used)) := r in
  let name_len := Z.of_nat (length origin_field) in
  let additional_space := sizeof_msg_node + sizeof_msg_node_int32 + name_len + 1 in
  if total <=? used + additional_space then
    let! b := reallocate block total (used + additional_space) 0 in
    match b with
    | None => ret None
    | Some b =>
      let int_field := used + sizeof_msg_node + name_len + 1 in
      let put (a : Z) (bs b : list Z) : M A (list Z) := of_option (slice_set b a bs) in
      let! b := put used (encode U32 NODE ++ encode U64 additional_space ++ origin_field) b in
      let! b := put int_field (encode U32 INT32 ++ encode U64 sizeof_msg_node_int32 ++ encode I32 sck) b in
      let! root_size := rd_size b 0 in
      let! b := put 4 (encode U64 (to_u 64 (root_size + additional_space))) b in
      ret (Some (b, (total, used + additional_space)))
    end
  else ret (Some r).
End origin.
