(* ===== verification/F64Spec.v ===== *)
(** * F64Spec: facts on the arithmetic of doubles

    Conversion of small integers is exact; a product is within one unit of the last
    place; the growth (size_t)(x * 1.1) of a buffer, which the JSON reader computes in
    doubles, is an actual growth. *)

From S2P Require Import Prelude MachineInt F64 HexFloat.
From Stdlib Require Import Floats.SpecFloat.

#[local] Transparent f64_add f64_mul.

(** ** Normal numbers *)

Definition normal (q : positive) (e : Z) : Prop := 2 ^ 52 <= Z.pos q < 2 ^ 53 /\ -1074 <= e <= 971.

Lemma normal_fexp q e : normal q e -> fexp 53 1024 (Z.pos (digits2_pos q) + e) = e.
Proof.
  intros [Hq He]. rewrite (digits2_pos_unique q 53) by lia. unfold fexp, emin. lia.
Qed.

Lemma bits_normal nan s q e : normal q e ->
  bits_of_f64 nan (S754_finite s q e) = sign_bit s + (e + 1075) * 2 ^ 52 + (Z.pos q - 2 ^ 52).
Proof. intros [Hq He]. unfold bits_of_f64. by rewrite (proj2 (Z.ltb_ge _ _)) by lia. Qed.

Lemma f64_of_bits_normal nan s q e : normal q e ->
  f64_of_bits (bits_of_f64 nan (S754_finite s q e)) = S754_finite s q e.
Proof.
  intros Hn. rewrite bits_normal by done. destruct Hn as [Hq He].
  set (b := sign_bit s + (e + 1075) * 2 ^ 52 + (Z.pos q - 2 ^ 52)).
  assert (Hb : 0 <= b < 2 ^ 64) by (unfold b, sign_bit; destruct s; lia).
  destruct (f64_fields b Hb) as (Hbits & HE & HF).
  assert (Hs : Z.testbit b 63 = s /\ f64_exponent b = e + 1075 /\ f64_fraction b = Z.pos q - 2 ^ 52).
  { unfold b at 1 in Hbits. unfold sign_bit in Hbits. destruct (Z.testbit b 63), s; repeat split; try done; lia. }
  destruct Hs as (H1 & H2 & H3). unfold f64_of_bits. fold (f64_exponent b) (f64_fraction b).
  rewrite H1, H2, H3. rewrite (proj2 (Z.eqb_neq _ _)), (proj2 (Z.eqb_neq _ _)) by lia.
  replace (Z.pos q - 2 ^ 52 + 2 ^ 52) with (Z.pos q) by lia. f_equal. lia.
Qed.

(** An integer of at most 53 bits. *)
Lemma normalize_small (s : bool) p : Z.pos p < 2 ^ 53 ->
  exists q k, 0 <= k <= 52 /\ normal q (- k) /\ Z.pos q = Z.pos p * 2 ^ k /\
    binary_normalize 53 1024 (if s then - Z.pos p else Z.pos p) 0 s = S754_finite s q (- k).
Proof.
  intros Hp. pose proof (digits2_pos_bounds p) as Hd. set (d := Z.pos (digits2_pos p)) in *.
  assert (Hd53 : d - 1 < 53) by (apply (Z.pow_lt_mono_r_iff 2); lia).
  assert (Hk : 0 <= 53 - d <= 52) by lia.
  pose proof (Z.pow_pos_nonneg 2 (53 - d) ltac:(lia) ltac:(lia)) as Hpp.
  exists (Z.to_pos (Z.pos p * 2 ^ (53 - d))), (53 - d). split; [done|].
  assert (Hq : Z.pos (Z.to_pos (Z.pos p * 2 ^ (53 - d))) = Z.pos p * 2 ^ (53 - d)) by (apply Z2Pos.id; lia).
  assert (Hn : normal (Z.to_pos (Z.pos p * 2 ^ (53 - d))) (- (53 - d))).
  { split; [|lia]. rewrite Hq. replace (2 ^ 52) with (2 ^ (d - 1) * 2 ^ (53 - d)) by (rewrite <- Z.pow_add_r by lia; f_equal; lia).
    replace (2 ^ 53) with (2 ^ d * 2 ^ (53 - d)) by (rewrite <- Z.pow_add_r by lia; f_equal; lia). nia. }
  split; [done|]. split; [done|]. rewrite <- (binary_normalize_exact s p _ (- (53 - d)) (53 - d)); [|lia|done|by apply normal_fexp|lia].
  f_equal. lia.
Qed.

Lemma f64_of_z_pos nan p : Z.pos p < 2 ^ 53 ->
  exists q k, 0 <= k <= 52 /\ normal q (- k) /\ Z.pos q = Z.pos p * 2 ^ k /\
    f64_of_z nan (Z.pos p) = bits_of_f64 nan (S754_finite false q (- k)).
Proof.
  intros Hp. destruct (normalize_small false p Hp) as (q & k & Hk & Hn & Hq & He).
  exists q, k. unfold f64_of_z. by rewrite He.
Qed.

(** ** Shifting right *)

Lemma iter_pos_peano {A} (f : A -> A) p : forall x, iter_pos f (Pos.succ p) x = f (iter_pos f p x).
Proof.
  assert (Hc : forall p x, iter_pos f p (f x) = f (iter_pos f p x)).
  { induction p0 as [p0 IH|p0 IH|]; intros x; cbn; rewrite ?IH; done. }
  induction p as [p IH|p IH|]; intros x.
  - change (Pos.succ p~1) with (Pos.succ p)~0%positive. cbn [iter_pos]. by rewrite !IH, <- !Hc.
  - change (Pos.succ p~0) with p~1%positive. cbn [iter_pos]. by rewrite <- !Hc.
  - done.
Qed.

Lemma shr_1_m mrs : 0 <= shr_m mrs -> shr_m (shr_1 mrs) = shr_m mrs / 2.
Proof.
  destruct mrs as [[|[p|p|]|] r s]; cbn; intros; try done; try lia.
  - rewrite Pos2Z.inj_xI. replace (2 * Z.pos p + 1) with (1 + Z.pos p * 2) by lia. by rewrite Z.div_add by lia.
  - rewrite Pos2Z.inj_xO, Z.mul_comm. by rewrite Z.div_mul by lia.
Qed.

Lemma shr_iter_m p mrs : 0 <= shr_m mrs -> shr_m (iter_pos shr_1 p mrs) = shr_m mrs / 2 ^ Z.pos p.
Proof.
  intros Hm. induction p as [|p IH] using Pos.peano_ind.
  - cbn. by apply shr_1_m.
  - rewrite iter_pos_peano, shr_1_m by (rewrite IH; apply Z.div_pos; lia).
    rewrite IH, Z.div_div by lia. f_equal. rewrite Pos2Z.inj_succ, Z.pow_succ_r by lia. lia.
Qed.

Lemma shr_iter_exact p m : 0 <= m ->
  iter_pos shr_1 p (Build_shr_record (m * 2 ^ Z.pos p) false false) = Build_shr_record m false false.
Proof.
  intros Hm. induction p as [|p IH] using Pos.peano_ind in m, Hm |- *.
  - cbn. destruct m as [|m|m]; [done| |lia]. rewrite Z.mul_comm. by cbn.
  - rewrite iter_pos_peano. rewrite Pos2Z.inj_succ, Z.pow_succ_r by lia.
    rewrite (Z.mul_assoc m 2), IH by lia. destruct m as [|m|m]; [done| |lia]. rewrite Z.mul_comm. by cbn.
Qed.

(** ** Rounding *)

(** A mantissa of [53 + n] bits: the result is the quotient by [2^n] or one more. *)
Lemma round_aux_bounds s P ex n :
  0 < n -> 2 ^ (52 + n) <= Z.pos P < 2 ^ (53 + n) -> -1074 <= ex + n -> ex + n + 1 <= 971 ->
  exists m c, (c = 0 \/ c = 1) /\ normal m (ex + n + c) /\
    binary_round_aux 53 1024 s (Z.pos P) ex loc_Exact = S754_finite s m (ex + n + c) /\
    Z.pos P / 2 ^ n <= Z.pos m * 2 ^ c <= Z.pos P / 2 ^ n + 1.
Proof.
  intros Hn HP Hlo Hhi. destruct n as [|n|n]; [lia| |lia].
  assert (Hd : Z.pos (digits2_pos P) = 53 + Z.pos n).
  { apply digits2_pos_unique; [lia|]. replace (53 + Z.pos n - 1) with (52 + Z.pos n) by lia. done. }
  unfold binary_round_aux, shr_fexp. cbn [Zdigits2 shr_record_of_loc]. rewrite Hd.
  replace (fexp 53 1024 (53 + Z.pos n + ex) - ex) with (Z.pos n) by (unfold fexp, emin; lia). cbn [shr].
  set (mrs := iter_pos shr_1 n _).
  assert (HM : shr_m mrs = Z.pos P / 2 ^ Z.pos n) by (unfold mrs; rewrite shr_iter_m by (cbn; lia); done).
  assert (HMr : 2 ^ 52 <= shr_m mrs < 2 ^ 53).
  { rewrite HM. pose proof (Z.pow_pos_nonneg 2 (Z.pos n) ltac:(lia) ltac:(lia)). rewrite !Z.pow_add_r in HP by lia. split.
    - apply Z.div_le_lower_bound; lia.
    - apply Z.div_lt_upper_bound; lia. }
  set (M1 := round_nearest_even (shr_m mrs) (loc_of_shr_record mrs)).
  assert (HM1 : M1 = shr_m mrs \/ M1 = shr_m mrs + 1).
  { unfold M1, round_nearest_even. destruct (loc_of_shr_record mrs) as [|[]]; try destruct (Z.even _); auto. }
  destruct M1 as [|m|m] eqn:EM; [lia| |lia]. cbn [Zdigits2].
  destruct (decide (Z.pos m < 2 ^ 53)).
  - rewrite (digits2_pos_unique m 53) by lia.
    replace (fexp 53 1024 (53 + (ex + Z.pos n)) - (ex + Z.pos n)) with 0 by (unfold fexp, emin; lia). cbn [shr shr_m].
    rewrite (proj2 (Z.leb_le _ _)) by lia. exists m, 0. rewrite !Z.add_0_r. split; [auto|]. split; [split; lia|].
    split; [done|]. rewrite <- HM. lia.
  - assert (m = 9007199254740992%positive) as -> by lia. rewrite (digits2_pos_unique _ 54) by lia.
    replace (fexp 53 1024 (54 + (ex + Z.pos n)) - (ex + Z.pos n)) with 1 by (unfold fexp, emin; lia). cbn [shr shr_m iter_pos shr_1 orb].
    rewrite (proj2 (Z.leb_le _ _)) by lia. exists 4503599627370496%positive, 1. split; [auto|]. split; [split; lia|].
    split; [done|]. rewrite <- HM. lia.
Qed.

(** ** Sums with zero, products with minus one *)

Lemma f64_add_zero nan p : Z.pos p < 2 ^ 53 -> f64_add nan (f64_of_z nan (Z.pos p)) f64_zero = f64_of_z nan (Z.pos p).
Proof.
  intros Hp. destruct (f64_of_z_pos nan p Hp) as (q & k & Hk & Hn & Hq & ->).
  unfold f64_add, f64_lift2. by rewrite f64_of_bits_normal.
Qed.

Lemma f64_mul_minus_one nan p : Z.pos p < 2 ^ 53 ->
  f64_mul nan (f64_of_z nan (Z.pos p)) f64_minus_one = f64_of_z nan (- Z.pos p).
Proof.
  intros Hp. destruct (f64_of_z_pos nan p Hp) as (q & k & Hk & Hn & Hq & ->).
  assert (Hneg : f64_of_z nan (- Z.pos p) = bits_of_f64 nan (S754_finite true q (- k))).
  { destruct (normalize_small true p Hp) as (q' & k' & Hk' & Hn' & Hq' & He).
    unfold f64_of_z. change (- Z.pos p) with (Z.neg p) in *. cbn [binary_normalize] in *. rewrite He. f_equal.
    destruct Hn as [Hn _], Hn' as [Hn' _].
    assert (k = k') as <-.
    { assert (~ k < k'); [|assert (~ k' < k); [|lia]]; intros Hlt.
      - assert (Z.pos q' >= 2 * Z.pos q) as H2; [|lia]. rewrite Hq, Hq'.
        replace k' with (k + 1 + (k' - k - 1)) by lia. rewrite !Z.pow_add_r by lia.
        pose proof (Z.pow_pos_nonneg 2 (k' - k - 1)). pose proof (Z.pow_pos_nonneg 2 k). nia.
      - assert (Z.pos q >= 2 * Z.pos q') as H2; [|lia]. rewrite Hq, Hq'.
        replace k with (k' + 1 + (k - k' - 1)) by lia. rewrite !Z.pow_add_r by lia.
        pose proof (Z.pow_pos_nonneg 2 (k - k' - 1)). pose proof (Z.pow_pos_nonneg 2 k'). nia. }
    by assert (q' = q) as -> by lia. }
  rewrite Hneg. unfold f64_mul, f64_lift2. rewrite f64_of_bits_normal by done.
  change (f64_of_bits f64_minus_one) with (S754_finite true 4503599627370496 (-52)). cbn [SFmul xorb]. f_equal.
  unfold binary_round_aux at 1, shr_fexp at 1. cbn [Zdigits2 shr_record_of_loc].
  destruct Hn as [Hq2 Hkn].
  assert (Hd : Z.pos (digits2_pos (q * 4503599627370496)) = 105).
  { apply digits2_pos_unique; [lia|]. rewrite Pos2Z.inj_mul. lia. }
  rewrite Hd. replace (fexp 53 1024 (105 + (- k + -52)) - (- k + -52)) with 52 by (unfold fexp, emin; lia).
  cbn [shr]. rewrite Pos2Z.inj_mul. change (Z.pos 4503599627370496) with (2 ^ 52).
  rewrite (shr_iter_exact 52 (Z.pos q)) by lia. cbn [shr_m loc_of_shr_record round_nearest_even].
  unfold shr_fexp. cbn [Zdigits2 shr_record_of_loc]. rewrite (digits2_pos_unique q 53) by lia.
  replace (fexp 53 1024 (53 + (- k + -52 + 52)) - (- k + -52 + 52)) with 0 by (unfold fexp, emin; lia).
  cbn [shr shr_m]. rewrite (proj2 (Z.leb_le _ _)) by lia. f_equal. lia.
Qed.

(** ** Growing by a tenth *)

(** The integer part of a number is a quotient. *)
Lemma to_z_scaled m c D : (c = 0 \/ c = 1) -> 0 <= D ->
  f64_to_z (bits_of_f64 0 (S754_finite false m (c - D))) = (Z.pos m * 2 ^ c) / 2 ^ D \/ ~ normal m (c - D).
Proof.
  intros Hc HD. destruct (decide (2 ^ 52 <= Z.pos m < 2 ^ 53 /\ -1074 <= c - D <= 971)) as [Hn|Hn]; [left|right; exact Hn].
  unfold f64_to_z. rewrite f64_of_bits_normal by exact Hn. destruct (Z.leb_spec 0 (c - D)).
  - replace (2 ^ c) with (2 ^ (c - D) * 2 ^ D) by (rewrite <- Z.pow_add_r by lia; f_equal; lia).
    rewrite Z.mul_assoc, Z.div_mul by (pose proof (Z.pow_pos_nonneg 2 D); lia). done.
  - replace (- (c - D)) with (D - c) by lia.
    replace (2 ^ D) with (2 ^ (D - c) * 2 ^ c) by (rewrite <- Z.pow_add_r by lia; f_equal; lia).
    symmetry. apply Z.div_mul_cancel_r; [pose proof (Z.pow_pos_nonneg 2 (D - c))|pose proof (Z.pow_pos_nonneg 2 c)]; lia.
Qed.

Definition mant_1_1 : positive := 4953959590107546.

(** A tenth more is more, and at most twice as much. *)
Lemma f64_grow x : 24 <= x < 2 ^ 52 ->
  x + 1 <= f64_to_z (f64_mul 0 (f64_of_z 0 x) 0x3FF199999999999A) <= 2 * x.
Proof.
  intros Hx. destruct x as [|p|p]; [lia| |lia].
  destruct (f64_of_z_pos 0 p ltac:(lia)) as (q & k & Hk & Hn & Hq & ->).
  unfold f64_mul, f64_lift2. rewrite f64_of_bits_normal by done.
  change (f64_of_bits 0x3FF199999999999A) with (S754_finite false mant_1_1 (-52)). cbn [SFmul xorb].
  destruct Hn as [Hqn _]. pose proof (Z.pow_pos_nonneg 2 k ltac:(lia) ltac:(lia)) as Hp2.
  assert (Hk1 : 1 <= k <= 48).
  { split; [destruct (decide (k = 0)) as [->|]; [|lia]; cbn in Hq; lia|].
    destruct (decide (49 <= k)); [|lia]. replace k with (49 + (k - 49)) in Hq by lia. rewrite Z.pow_add_r in Hq by lia.
    pose proof (Z.pow_pos_nonneg 2 (k - 49) ltac:(lia) ltac:(lia)). nia. }
  assert (Hn : exists n, (n = 52 \/ n = 53) /\ 2 ^ (52 + n) <= Z.pos (q * mant_1_1) < 2 ^ (53 + n)).
  { assert (HP : 2 ^ 104 <= Z.pos (q * mant_1_1) < 2 ^ 106) by (rewrite Pos2Z.inj_mul; unfold mant_1_1; lia).
    destruct (decide (Z.pos (q * mant_1_1) < 2 ^ 105)); [exists 52|exists 53]; (split; [auto|]); cbn [Z.add Pos.add Pos.succ]; lia. }
  destruct Hn as (n & Hn & HP).
  destruct (round_aux_bounds false _ (- k + -52) n ltac:(lia) HP ltac:(lia) ltac:(lia)) as (m & c & Hc & Hmn & -> & Hm).
  replace (- k + -52 + n + c) with (c - (k + 52 - n)) in * by lia. set (D := k + 52 - n) in *.
  destruct (to_z_scaled m c D Hc ltac:(lia)) as [->|]; [|done]. clear Hmn.
  pose proof (Z.pow_pos_nonneg 2 D ltac:(lia) ltac:(lia)). pose proof (Z.pow_pos_nonneg 2 n ltac:(lia) ltac:(lia)).
  assert (Hfl : Z.pos (q * mant_1_1) / 2 ^ n / 2 ^ D = (Z.pos p * 4953959590107546) / 2 ^ 52).
  { rewrite Z.div_div by lia. rewrite <- Z.pow_add_r by lia. replace (n + D) with (52 + k) by lia.
    rewrite Pos2Z.inj_mul, Hq, Z.pow_add_r by lia.
    replace (Z.pos p * 2 ^ k * Z.pos mant_1_1) with (Z.pos p * 4953959590107546 * 2 ^ k) by (unfold mant_1_1; lia).
    apply Z.div_mul_cancel_r; lia. }
  pose proof (Z.div_le_mono _ _ (2 ^ D) ltac:(lia) (proj1 Hm)) as H1.
  pose proof (Z.div_le_mono _ _ (2 ^ D) ltac:(lia) (proj2 Hm)) as H2.
  assert (H3 : (Z.pos (q * mant_1_1) / 2 ^ n + 1) / 2 ^ D <= Z.pos (q * mant_1_1) / 2 ^ n / 2 ^ D + 1).
  { rewrite <- (Z.div_add _ 1 (2 ^ D)) by lia. apply Z.div_le_mono; lia. }
  rewrite Hfl in *. split; [etransitivity; [|exact H1]|etransitivity; [exact H2|etransitivity; [exact H3|]]].
  - apply Z.div_le_lower_bound; lia.
  - enough ((Z.pos p * 4953959590107546) / 2 ^ 52 <= 2 * Z.pos p - 1) by lia. apply Z.div_le_upper_bound; lia.
Qed.
