(* ===== verification/ExecCtx.v ===== *)
(** * ExecCtx: the tables of a compiled state machine

    core/include/sm_execution_ctxt.hpp (class executionloop_context_t): the vectors
    the execution loop works on, indexed by state and by transition, the bounded
    queue of synchronous events, and the methods on them. States, transitions,
    events and function pointers are integers, 0 is the null pointer; an index
    outside a vector is undefined behaviour. *)

From S2P Require Import Prelude MachineInt.

(** ** Data *)

(** Bits of [inf_vec]. *)
Definition INIT : Z := 0.
Definition FINAL : Z := 1.
Definition SM : Z := 2.
Definition EXIT : Z := 3.
Definition ENTER : Z := 4.
Definition VISITED : Z := 5.
Definition VISITING : Z := 6.
Definition THREAD : Z := 7.
Definition JOIN : Z := 8.
Definition IN_THREAD : Z := 9.
Definition REGION : Z := 10.
Definition DONT_COVER : Z := 11.
Definition DONT_COVER_LOOPS : Z := 12.
Definition HIDDEN : Z := 13.
Definition LOG_ENTER_TIME : Z := 14.
Definition LOG_EXIT_TIME : Z := 15.
Definition HAS_LABEL : Z := 16.

Definition TRANS_PROP_ABSTRACT : Z := 1.

(** One slot of the three actions of a transition: [oblectamenta[i]], the native
    function (or the address of Oblectamenta code) and the script. *)
Record action_slot := mkAction {
  oblectamenta : bool;
  a_fn : Z;
  a_script : Z
}.

Record transition_t := mkTransition {
  props : Z;
  root_sms : Z;
  smp : Z;
  from : Z;
  to : Z;
  ev : Z;
  rel_idx : Z;
  is_native : bool;
  oblectamenta_guard_valid : bool;
  oblectamenta_guard : Z;
  guard : Z;                   (* bool( ** )() *)
  a1 : action_slot;
  a2 : action_slot;
  a3 : action_slot;
  script_guard : string
}.

Definition no_action : action_slot := mkAction false 0 0.

(** The default constructor. *)
Definition transition_default : transition_t :=
  mkTransition 0 0 0 0 0 0 (-1) true false 0 0 no_action no_action no_action "".

Definition start (t : transition_t) : bool :=
  negb (smp t =? 0) && (from t =? 0) && (to t =? 0).

(** [std::numeric_limits<size_t>::max()] *)
Definition SIZE_MAX : Z := 2 ^ 64 - 1.

Record ectx := mkCtx {
  log_timing : bool;
  number_of_states : Z;
  current_ev_id : Z;
  ev_to_id : gmap string Z;
  id_to_ev : gmap Z string;
  transitions : list transition_t;
  shadow_transitions : list Z;
  current_states : list Z;
  shadow_state : list Z;
  ev_sync_queue : list Z;
  ev_sync_queue_start : Z;
  ev_sync_queue_end : Z;
  parent_vec : list Z;
  inf_vec : list Z;
  on_enter : list Z;
  on_exit : list Z;
  on_enter_oblectamenta : list Z;
  on_exit_oblectamenta : list Z;
  initial_state : list Z;
  final_state : list Z;
  children : list Z;                (* 0-terminated groups *)
  state_to_children : list Z;       (* where the group of a state starts *)
  join_states : list Z;
  exported_events : gset Z;
  assoc_sm : list Z;
  triggered_shadow_transitions : list Z;
  enter_times : gmap Z Z;
  exit_times : gmap Z Z;
  time_stamp : Z;
  start_of_covering_states : Z;
  start_of_covering_transitions : Z;
  coverage_state_table : list Z;
  coverage_transitions_table : list Z;
  states2transitions_slot_start : list Z;
  states2transitions_slots : list Z;
  state_to_first_transition : gmap Z Z;
  state_id_to_idx : list (string * Z);      (* std::map: ascending keys *)
  idx_to_state_id : gmap Z string;
  state_labels : gmap Z string
}.

(** The constructor: everything empty, the queue of synchronous events resized. *)
Definition executionloop_context_init : ectx :=
  mkCtx false 0 0 ∅ ∅ [] [] [] [] (vec_resize 1024 0 []) 0 0 [] [] [] [] [] [] [] [] [] [] [] ∅ []
    [] ∅ ∅ 0 SIZE_MAX SIZE_MAX [] [] [] [] ∅ [] ∅ ∅.

Definition ectx_eta (c : ectx) : ectx :=
  mkCtx (log_timing c) (number_of_states c) (current_ev_id c) (ev_to_id c) (id_to_ev c)
    (transitions c) (shadow_transitions c) (current_states c) (shadow_state c)
    (ev_sync_queue c) (ev_sync_queue_start c) (ev_sync_queue_end c) (parent_vec c) (inf_vec c)
    (on_enter c) (on_exit c) (on_enter_oblectamenta c) (on_exit_oblectamenta c)
    (initial_state c) (final_state c) (children c) (state_to_children c) (join_states c)
    (exported_events c) (assoc_sm c) (triggered_shadow_transitions c) (enter_times c)
    (exit_times c) (time_stamp c) (start_of_covering_states c)
    (start_of_covering_transitions c) (coverage_state_table c) (coverage_transitions_table c)
    (states2transitions_slot_start c) (states2transitions_slots c)
    (state_to_first_transition c) (state_id_to_idx c) (idx_to_state_id c) (state_labels c).

Definition with_log_timing (x : bool) (c : ectx) : ectx := ltac:(record_update ectx_eta log_timing x c).
Definition with_current_ev_id (x : Z) (c : ectx) : ectx := ltac:(record_update ectx_eta current_ev_id x c).
Definition with_current_states (x : list Z) (c : ectx) : ectx := ltac:(record_update ectx_eta current_states x c).
Definition with_ev_sync_queue (x : list Z) (c : ectx) : ectx := ltac:(record_update ectx_eta ev_sync_queue x c).
Definition with_ev_sync_queue_start (x : Z) (c : ectx) : ectx := ltac:(record_update ectx_eta ev_sync_queue_start x c).
Definition with_ev_sync_queue_end (x : Z) (c : ectx) : ectx := ltac:(record_update ectx_eta ev_sync_queue_end x c).
Definition with_parent_vec (x : list Z) (c : ectx) : ectx := ltac:(record_update ectx_eta parent_vec x c).
Definition with_inf_vec (x : list Z) (c : ectx) : ectx := ltac:(record_update ectx_eta inf_vec x c).
Definition with_on_enter (x : list Z) (c : ectx) : ectx := ltac:(record_update ectx_eta on_enter x c).
Definition with_on_exit (x : list Z) (c : ectx) : ectx := ltac:(record_update ectx_eta on_exit x c).
Definition with_on_enter_oblectamenta (x : list Z) (c : ectx) : ectx := ltac:(record_update ectx_eta on_enter_oblectamenta x c).
Definition with_on_exit_oblectamenta (x : list Z) (c : ectx) : ectx := ltac:(record_update ectx_eta on_exit_oblectamenta x c).
Definition with_initial_state (x : list Z) (c : ectx) : ectx := ltac:(record_update ectx_eta initial_state x c).
Definition with_final_state (x : list Z) (c : ectx) : ectx := ltac:(record_update ectx_eta final_state x c).
Definition with_state_to_children (x : list Z) (c : ectx) : ectx := ltac:(record_update ectx_eta state_to_children x c).
Definition with_join_states (x : list Z) (c : ectx) : ectx := ltac:(record_update ectx_eta join_states x c).
Definition with_assoc_sm (x : list Z) (c : ectx) : ectx := ltac:(record_update ectx_eta assoc_sm x c).
Definition with_shadow_transitions (x : list Z) (c : ectx) : ectx := ltac:(record_update ectx_eta shadow_transitions x c).
Definition with_triggered_shadow_transitions (x : list Z) (c : ectx) : ectx := ltac:(record_update ectx_eta triggered_shadow_transitions x c).
Definition with_enter_times (x : gmap Z Z) (c : ectx) : ectx := ltac:(record_update ectx_eta enter_times x c).
Definition with_exit_times (x : gmap Z Z) (c : ectx) : ectx := ltac:(record_update ectx_eta exit_times x c).
Definition with_time_stamp (x : Z) (c : ectx) : ectx := ltac:(record_update ectx_eta time_stamp x c).
Definition with_coverage_state_table (x : list Z) (c : ectx) : ectx := ltac:(record_update ectx_eta coverage_state_table x c).
Definition with_coverage_transitions_table (x : list Z) (c : ectx) : ectx := ltac:(record_update ectx_eta coverage_transitions_table x c).
Definition with_states2transitions_slot_start (x : list Z) (c : ectx) : ectx := ltac:(record_update ectx_eta states2transitions_slot_start x c).
Definition with_states2transitions_slots (x : list Z) (c : ectx) : ectx := ltac:(record_update ectx_eta states2transitions_slots x c).
Definition with_transitions (x : list transition_t) (c : ectx) : ectx := ltac:(record_update ectx_eta transitions x c).
Definition with_children (x : list Z) (c : ectx) : ectx := ltac:(record_update ectx_eta children x c).
Definition with_shadow_state (x : list Z) (c : ectx) : ectx := ltac:(record_update ectx_eta shadow_state x c).
Definition with_number_of_states (x : Z) (c : ectx) : ectx := ltac:(record_update ectx_eta number_of_states x c).
Definition with_start_of_covering_states (x : Z) (c : ectx) : ectx := ltac:(record_update ectx_eta start_of_covering_states x c).
Definition with_start_of_covering_transitions (x : Z) (c : ectx) : ectx := ltac:(record_update ectx_eta start_of_covering_transitions x c).
Definition with_state_to_first_transition (x : gmap Z Z) (c : ectx) : ectx := ltac:(record_update ectx_eta state_to_first_transition x c).
Definition with_state_id_to_idx (x : list (string * Z)) (c : ectx) : ectx := ltac:(record_update ectx_eta state_id_to_idx x c).
Definition with_idx_to_state_id (x : gmap Z string) (c : ectx) : ectx := ltac:(record_update ectx_eta idx_to_state_id x c).
Definition with_state_labels (x : gmap Z string) (c : ectx) : ectx := ltac:(record_update ectx_eta state_labels x c).
Definition with_exported_events (x : gset Z) (c : ectx) : ectx := ltac:(record_update ectx_eta exported_events x c).
Definition with_ev_to_id (x : gmap string Z) (c : ectx) : ectx := ltac:(record_update ectx_eta ev_to_id x c).
Definition with_id_to_ev (x : gmap Z string) (c : ectx) : ectx := ltac:(record_update ectx_eta id_to_ev x c).

(** ** Access to the vectors *)

Definition vget {St A} (f : St -> list A) (i : Z) : M St A := fun c =>
  match zlookup (f c) i with Some a => Ok a c | None => Undef end.

Definition vset {St A} (f : St -> list A) (w : list A -> St -> St) (i : Z) (x : A) : M St unit :=
  fun c => match zinsert (f c) i x with Some l => Ok tt (w l c) | None => Undef end.

(** ** The queue of synchronous events *)

Definition push_ev_sync_queue (ev_id : Z) : M ectx unit :=
  let! e := gets ev_sync_queue_end in
  do! vset ev_sync_queue with_ev_sync_queue e ev_id in
  let! size := gets (fun c => Z.of_nat (length (ev_sync_queue c))) in
  let e := if e + 1 =? size then 0 else e + 1 in
  do! modify (with_ev_sync_queue_end e) in
  let! s := gets ev_sync_queue_start in
  if e =? s then
    modify (with_ev_sync_queue_start (if s + 1 =? size then 0 else s + 1))
  else ret tt.

Definition front_ev_sync_queue : M ectx Z :=
  let! s := gets ev_sync_queue_start in
  vget ev_sync_queue s.

Definition ev_sync_queue_empty (c : ectx) : bool :=
  ev_sync_queue_start c =? ev_sync_queue_end c.

Definition pop_ev_sync_queue : M ectx bool :=
  let! e := gets ev_sync_queue_empty in
  if e then ret false
  else
    let! s := gets ev_sync_queue_start in
    let! size := gets (fun c => Z.of_nat (length (ev_sync_queue c))) in
    do! modify (with_ev_sync_queue_start (if s + 1 =? size then 0 else s + 1)) in
    ret true.

(** ** Tables indexed by state *)

(** The non-const overload, [int&]. *)
Definition get_parent (state : Z) : M ectx Z := vget parent_vec state.

(** Also the const overload of [get_parent]. *)
Definition get_parent_read (state : Z) : M ectx Z :=
  let! size := gets (fun c => Z.of_nat (length (parent_vec c))) in
  if size <? u64 state then ret 0 else vget parent_vec state.

(** The common shape of the setters: grow the vector when it is too small. *)
Definition grow_and_set (f : ectx -> list Z) (w : list Z -> ectx -> ectx) (i x : Z) : M ectx unit :=
  do! modify (fun c =>
    if Z.of_nat (length (f c)) <? u64 (number_of_states c)
    then w (vec_resize (number_of_states c + 1) 0 (f c)) c else c) in
  vset f w i x.

Definition set_parent (child state : Z) : M ectx unit :=
  grow_and_set parent_vec with_parent_vec child state.

Definition current_states_init_and_clear : M ectx unit :=
  modify (fun c => with_current_states (replicate (Z.to_nat (number_of_states c + 1)) 0) c).

Definition set_inf (state what : Z) (value : bool) : M ectx unit :=
  do! modify (fun c =>
    if Z.of_nat (length (inf_vec c)) <? u64 (number_of_states c)
    then with_inf_vec (vec_resize (number_of_states c + 1) 0 (inf_vec c)) c else c) in
  let! w := vget inf_vec state in
  do! vset inf_vec with_inf_vec state
        (if value then Z.lor w (Z.shiftl 1 what) else Z.land w (Z.lnot (Z.shiftl 1 what))) in
  if (what =? LOG_ENTER_TIME) || (what =? LOG_EXIT_TIME)
  then modify (with_log_timing true) else ret tt.

Definition get_inf (state what : Z) : M ectx bool :=
  let! w := vget inf_vec state in
  ret (negb (Z.land w (Z.shiftl 1 what) =? 0)).

Definition set_on_enter (state fn : Z) : M ectx unit :=
  grow_and_set on_enter with_on_enter state fn.
Definition set_on_exit (state fn : Z) : M ectx unit :=
  grow_and_set on_exit with_on_exit state fn.
Definition set_on_enter_oblectamenta (state loc : Z) : M ectx unit :=
  grow_and_set on_enter_oblectamenta with_on_enter_oblectamenta state loc.
Definition set_on_exit_oblectamenta (state loc : Z) : M ectx unit :=
  grow_and_set on_exit_oblectamenta with_on_exit_oblectamenta state loc.
Definition set_initial_state (state initial : Z) : M ectx unit :=
  grow_and_set initial_state with_initial_state state initial.
Definition set_final_state (state final : Z) : M ectx unit :=
  grow_and_set final_state with_final_state state final.
Definition set_assoc_sm (state sm : Z) : M ectx unit :=
  grow_and_set assoc_sm with_assoc_sm state sm.
Definition set_join_state (state join : Z) : M ectx unit :=
  grow_and_set join_states with_join_states state join.

Definition init_state_to_children : M ectx unit :=
  modify (fun c => with_state_to_children
    (vec_resize (number_of_states c + 1) 0 (state_to_children c)) c).

(** The getters that grow the vector as well. *)
Definition grow_and_get (f : ectx -> list Z) (w : list Z -> ectx -> ectx) (i : Z) : M ectx Z :=
  do! modify (fun c =>
    if Z.of_nat (length (f c)) <? u64 (number_of_states c)
    then w (vec_resize (number_of_states c + 1) 0 (f c)) c else c) in
  vget f i.

Definition get_assoc_sm (state : Z) : M ectx Z := grow_and_get assoc_sm with_assoc_sm state.
Definition get_join_state (state : Z) : M ectx Z := grow_and_get join_states with_join_states state.

Definition is_sm (state : Z) : M ectx bool := get_inf state SM.

(** ** Children *)

(** [for (auto i = i0; children[i]; ++i) { if (body(i)) break; }], where [getc] finds
    the vector [children] in the state. The index grows, so one round more than the
    vector is long is enough fuel: past the end the access is undefined. *)
Fixpoint children_loop {St} (getc : St -> list Z) (rounds : nat) (i : Z)
    (body : Z -> M St bool) : M St unit :=
  match rounds with
  | O => out_of_fuel
  | S rounds' =>
    let! child := vget getc i in
    if child =? 0 then ret tt
    else
      let! brk := body child in
      if brk then ret tt else children_loop getc rounds' (i + 1) body
  end.

Definition for_children {St} (getc gets2c : St -> list Z) (sms : Z)
    (body : Z -> M St bool) : M St unit :=
  let! i := vget gets2c sms in
  let! n := gets (fun c => length (getc c)) in
  children_loop getc (S n) (i + 1) body.

(** [remove_children(sms, v)]: [v] is the caller's vector of present states, so it is
    the second half of the state here. The recursion follows the containment
    relation; [fuel] bounds its depth. *)
Fixpoint remove_children (fuel : nat) (sms : Z) : M (ectx * list Z) unit :=
  match fuel with
  | O => out_of_fuel
  | S fuel' =>
    for_children (fun p => children p.1) (fun p => state_to_children p.1) sms (fun child =>
      do! vset snd (fun v p => (p.1, v)) child 0 in
      do! zoom fst (fun c p => (c, p.2)) (set_inf child VISITED true) in
      let! sm := zoom fst (fun c p => (c, p.2)) (is_sm child) in
      if negb sm then ret false
      else do! remove_children fuel' child in ret false)
  end.

(** [empty(sms, v)]: no child of [sms] is present in [v]. *)
Fixpoint is_empty_loop (cs : list Z) (rounds : nat) (i : Z) (v : list Z) : option bool :=
  match rounds with
  | O => None
  | S rounds' =>
    match zlookup cs i with
    | None => None
    | Some child =>
      if child =? 0 then Some true
      else match zlookup v child with
           | None => None
           | Some present => if present =? 0 then is_empty_loop cs rounds' (i + 1) v else Some false
           end
    end
  end.

Definition is_empty (sms : Z) (v : list Z) : M ectx bool :=
  let! i := vget state_to_children sms in
  let! cs := gets children in
  of_option (is_empty_loop cs (S (length cs)) (i + 1) v).

(** ** Coverage *)

Definition start_of_covering_states_valid (c : ectx) : bool :=
  negb (start_of_covering_states c =? SIZE_MAX).
Definition start_of_covering_transitions_valid (c : ectx) : bool :=
  negb (start_of_covering_transitions c =? SIZE_MAX).

Definition init_coverage_structures : M ectx unit :=
  do! modify (fun c => if start_of_covering_states_valid c
    then with_coverage_state_table
           (vec_resize (u64 (number_of_states c - start_of_covering_states c + 1)) 0
              (coverage_state_table c)) c
    else c) in
  modify (fun c => if start_of_covering_transitions_valid c
    then with_coverage_transitions_table
           (vec_resize (u64 (Z.of_nat (length (transitions c)) - start_of_covering_transitions c)) 0
              (coverage_transitions_table c)) c
    else c).

(** The argument is converted to size_t. *)
Definition visit_state (idx : Z) : M ectx unit :=
  let! s := gets start_of_covering_states in
  if u64 idx <? s then ret tt
  else
    let! k := vget coverage_state_table (u64 (u64 idx - s)) in
    let! k := checked I32 (k + 1) in
    vset coverage_state_table with_coverage_state_table (u64 (u64 idx - s)) k.

Definition visit_transition (idx : Z) : M ectx unit :=
  let! s := gets start_of_covering_transitions in
  if u64 idx <? s then ret tt
  else
    let! k := vget coverage_transitions_table (u64 (u64 idx - s)) in
    let! k := checked I32 (k + 1) in
    vset coverage_transitions_table with_coverage_transitions_table (u64 (u64 idx - s)) k.
