(* ===== verification/ExecLoop.v ===== *)
(** * ExecLoop: the execution loop of a compiled state machine

    core/src/sm_sim_core_simulation_loop.cpp: entering and leaving state machines,
    computing the triggered transitions and the next set of states, and one round of
    State_machine_simulation_core::run_simulation. What the loop calls through
    function pointers, the script interpreter and the input queue is the interface
    [Host]; Oblectamenta code runs on the machine of [VMTable]. *)

From S2P Require Import Prelude MachineInt VMEnv VMTable Ast ExecCtx.

(** ** The state of the simulation core *)

Record Action := mkSmAction {
  act_id : string;
  body_ : Z;                  (* ceps::ast::Nodebase_ptr *)
  native_func_ : Z;
  associated_sm_ : Z
}.

Record State_machine := mkSM {
  sm_id : string;
  sm_idx : Z;
  actions : list Action;
  visited_flag : bool;
  global_scope : option (gmap string node)
}.

Definition find_action (name : string) (sm : State_machine) : option Action :=
  list_find (fun a => act_id a = name) (actions sm) ≫= fun p => Some p.2.

(** execution_context_loop_handler_cover_state_changed_handler_info_t *)
Record handler_info := mkHandler { active : bool; handler : Z; data : Z }.

(** What [fetch_event] reports: whether there is an event, the event, and otherwise
    whether a Start directive made states active, which, and which state machines
    were entered by it. *)
Record fetched := mkFetched {
  fe_result : bool;
  fe_ev : event_rep_t;
  fe_new_states : list Z;
  fe_states_updated : bool;
  fe_on_enter_seq : list Z
}.

Record smc (W : Type) := mkSmc {
  ctx : ectx;
  vmst : vm;
  current_smp : Z;                         (* State_machine*, 0: nullptr *)
  machines : gmap Z State_machine;         (* the objects behind State_machine* *)
  current_event : event_t;
  enforce_native : bool;
  shutdown : bool;
  event_signatures : gmap Z (list event_signature);
  global_states : gmap string Z;           (* Nodebase_ptr, 0: nullptr *)
  global_systemstates_prev : gmap string Z;
  nodes : gmap Z node;                     (* the objects behind those pointers *)
  event_triggered_sender : list (string * Z);
  oblectamenta_global_event_buffer_offs : Z;
  dangling_handler_call : bool;
  handler_infos : list handler_info;
  has_global_event_call_back : bool;
  world : W                                (* everything outside the core *)
}.

Arguments mkSmc {W}.
Arguments ctx {W}.
Arguments vmst {W}.
Arguments current_smp {W}.
Arguments machines {W}.
Arguments current_event {W}.
Arguments enforce_native {W}.
Arguments shutdown {W}.
Arguments event_signatures {W}.
Arguments global_states {W}.
Arguments global_systemstates_prev {W}.
Arguments nodes {W}.
Arguments event_triggered_sender {W}.
Arguments oblectamenta_global_event_buffer_offs {W}.
Arguments dangling_handler_call {W}.
Arguments handler_infos {W}.
Arguments has_global_event_call_back {W}.
Arguments world {W}.

(** ** What the loop calls *)

Class Host (W : Type) := {
  native : Z -> M (smc W) unit;                          (* void( *fn)() *)
  native_guard : Z -> M (smc W) bool;                    (* bool( ** guard)() *)
  execute_action_seq : Z -> Z -> M (smc W) unit;
  execute_queued_action : list node -> M (smc W) unit;
  eval_guard : string -> M (smc W) bool;
  fetch_event : M (smc W) fetched;
  send_frame : Z -> M (smc W) unit;
  cover_handler : Z -> list Z -> Z -> Z -> M (smc W) (bool * Z);  (* handler(states, data, status) *)
  global_event_call_back_fn : string -> list node -> M (smc W) unit;
  high_resolution_clock_now : M (smc W) Z
}.

Section core.
Context {W : Type}.

Definition smc_eta (s : smc W) : smc W :=
  mkSmc (ctx s) (vmst s) (current_smp s) (machines s) (current_event s) (enforce_native s)
    (shutdown s) (event_signatures s) (global_states s) (global_systemstates_prev s) (nodes s)
    (event_triggered_sender s) (oblectamenta_global_event_buffer_offs s)
    (dangling_handler_call s) (handler_infos s) (has_global_event_call_back s) (world s).

Definition with_ctx (x : ectx) (s : smc W) : smc W := ltac:(record_update smc_eta (@ctx W) x s).
Definition with_vmst (x : vm) (s : smc W) : smc W := ltac:(record_update smc_eta (@vmst W) x s).
Definition with_current_smp (x : Z) (s : smc W) : smc W := ltac:(record_update smc_eta (@current_smp W) x s).
Definition with_machines (x : gmap Z State_machine) (s : smc W) : smc W := ltac:(record_update smc_eta (@machines W) x s).
Definition with_current_event (x : event_t) (s : smc W) : smc W := ltac:(record_update smc_eta (@current_event W) x s).
Definition with_global_states (x : gmap string Z) (s : smc W) : smc W := ltac:(record_update smc_eta (@global_states W) x s).
Definition with_global_systemstates_prev (x : gmap string Z) (s : smc W) : smc W := ltac:(record_update smc_eta (@global_systemstates_prev W) x s).
Definition with_nodes (x : gmap Z node) (s : smc W) : smc W := ltac:(record_update smc_eta (@nodes W) x s).
Definition with_dangling_handler_call (x : bool) (s : smc W) : smc W := ltac:(record_update smc_eta (@dangling_handler_call W) x s).
Definition with_handler_infos (x : list handler_info) (s : smc W) : smc W := ltac:(record_update smc_eta (@handler_infos W) x s).
Definition with_world (x : W) (s : smc W) : smc W := ltac:(record_update smc_eta (@world W) x s).

(** Code that works on a part of the core. *)
Definition on_ctx {A} (m : M ectx A) : M (smc W) A := zoom ctx with_ctx m.
Definition on_vm {A} (m : M vm A) : M (smc W) A := zoom vmst with_vmst m.

(** Following a State_machine pointer. *)
Definition deref_sm (p : Z) : M (smc W) State_machine :=
  let! ms := gets machines in of_option (ms !! p).

Section loop.
Context `{Target} `{Host W}.

(** How many instructions one call of Oblectamenta code may take. *)
Context (vm_rounds : nat).

Definition vm_run (loc : Z) : M (smc W) unit :=
  do! on_vm (VMTable.run vm_rounds vm_rounds loc) in ret tt.

(** [vec.size() > (size_t)i && vec[i]]: the entry, 0 when there is none. *)
Definition table_entry (f : ectx -> list Z) (i : Z) : M (smc W) Z :=
  let! t := gets (fun s => f (ctx s)) in
  if u64 i <? Z.of_nat (length t) then of_option (zlookup t (u64 i)) else ret 0.

(** The script fallback: [find_action(name)], run when it has a body. *)
Definition run_script_action (name : string) : M (smc W) unit :=
  let! p := gets current_smp in
  let! sm := deref_sm p in
  match find_action name sm with
  | Some it => if body_ it =? 0 then ret tt else execute_action_seq p (body_ it)
  | None => ret tt
  end.

(** ** Entering and leaving state machines *)

Definition run_on_enter (sms : Z) : M (smc W) unit :=
  let! p := on_ctx (get_assoc_sm sms) in
  do! modify (with_current_smp p) in
  let! fn := table_entry on_enter sms in
  if negb (fn =? 0) then native fn
  else
    let! loc := table_entry on_enter_oblectamenta sms in
    if negb (loc =? 0) then vm_run loc
    else run_script_action "on_enter".

Fixpoint do_enter_impl (fuel : nat) (sms : Z) (v : list Z) : M (smc W) unit :=
  match fuel with
  | O => out_of_fuel
  | S fuel' =>
    let! visited := on_ctx (get_inf sms VISITED) in
    if visited then ret tt
    else
      do! on_ctx (set_inf sms VISITED true) in
      let! present := of_option (zlookup v sms) in
      if present =? 0 then ret tt
      else
        do! for_children (fun s => children (ctx s)) (fun s => state_to_children (ctx s)) sms
              (fun child =>
                 let! sm := on_ctx (is_sm child) in
                 if negb sm then ret false
                 else do! do_enter_impl fuel' child v in ret false) in
        let! cur := on_ctx (vget current_states sms) in
        if cur =? 0 then run_on_enter sms else ret tt
  end.

(** [for (int i = 0; i != number_of_states + 1; ++i) set_inf(i, VISITED, false)] *)
Definition clear_visited : M ectx unit :=
  let! n := gets number_of_states in
  forM (zrange 0 (n + 1)) (fun i => set_inf i VISITED false).

Definition do_enter (fuel : nat) (sms : list Z) (v : list Z) : M (smc W) unit :=
  match sms with
  | [] => ret tt
  | _ =>
    do! on_ctx clear_visited in
    forM sms (fun s => do_enter_impl fuel s v)
  end.

Definition run_on_exit (sms : Z) : M (smc W) unit :=
  let! fn := table_entry on_exit sms in
  if negb (fn =? 0) then
    let! p := on_ctx (get_assoc_sm sms) in
    do! modify (with_current_smp p) in
    native fn
  else
    let! loc := table_entry on_exit_oblectamenta sms in
    if negb (loc =? 0) then vm_run loc
    else
      let! p := on_ctx (get_assoc_sm sms) in
      do! modify (with_current_smp p) in
      run_script_action "on_exit".

Fixpoint do_exit_impl (fuel : nat) (sms : Z) : M (smc W) unit :=
  match fuel with
  | O => out_of_fuel
  | S fuel' =>
    let! visited := on_ctx (get_inf sms VISITED) in
    if visited then ret tt
    else
      do! on_ctx (set_inf sms VISITED true) in
      let! cur := on_ctx (vget current_states sms) in
      if cur =? 0 then ret tt
      else
        do! for_children (fun s => children (ctx s)) (fun s => state_to_children (ctx s)) sms
              (fun child =>
                 let! sm := on_ctx (is_sm child) in
                 if negb sm then ret false
                 else do! do_exit_impl fuel' child in ret false) in
        run_on_exit sms
  end.

Definition do_exit (fuel : nat) (sms : list Z) : M (smc W) unit :=
  match sms with
  | [] => ret tt
  | _ =>
    do! on_ctx clear_visited in
    forM sms (fun s => do_exit_impl fuel s)
  end.
End loop.
End core.

(** ** The stack frame of run_simulation

    The vectors the loop reuses from one round to the next. *)

Record frame (W : Type) := mkFrame {
  core : smc W;
  temp : list Z;                            (* the states after the step *)
  triggered_transitions : list Z;
  triggered_transitions_end : Z;
  triggered_thread_regions : list Z;
  triggered_thread_regions_end : Z;
  entering_sms : list Z;
  entering_sms_next : Z;
  exiting_sms : list Z;
  exiting_sms_next : Z
}.

Arguments mkFrame {W}.
Arguments core {W}.
Arguments temp {W}.
Arguments triggered_transitions {W}.
Arguments triggered_transitions_end {W}.
Arguments triggered_thread_regions {W}.
Arguments triggered_thread_regions_end {W}.
Arguments entering_sms {W}.
Arguments entering_sms_next {W}.
Arguments exiting_sms {W}.
Arguments exiting_sms_next {W}.

Definition max_number_of_active_transitions : Z := 4096.

Section step.
Context {W : Type}.

Definition frame_eta (f : frame W) : frame W :=
  mkFrame (core f) (temp f) (triggered_transitions f) (triggered_transitions_end f)
    (triggered_thread_regions f) (triggered_thread_regions_end f) (entering_sms f)
    (entering_sms_next f) (exiting_sms f) (exiting_sms_next f).

Definition with_core (x : smc W) (f : frame W) : frame W := ltac:(record_update frame_eta (@core W) x f).
Definition with_temp (x : list Z) (f : frame W) : frame W := ltac:(record_update frame_eta (@temp W) x f).
Definition with_triggered_transitions (x : list Z) (f : frame W) : frame W := ltac:(record_update frame_eta (@triggered_transitions W) x f).
Definition with_triggered_transitions_end (x : Z) (f : frame W) : frame W := ltac:(record_update frame_eta (@triggered_transitions_end W) x f).
Definition with_triggered_thread_regions (x : list Z) (f : frame W) : frame W := ltac:(record_update frame_eta (@triggered_thread_regions W) x f).
Definition with_triggered_thread_regions_end (x : Z) (f : frame W) : frame W := ltac:(record_update frame_eta (@triggered_thread_regions_end W) x f).
Definition with_entering_sms (x : list Z) (f : frame W) : frame W := ltac:(record_update frame_eta (@entering_sms W) x f).
Definition with_entering_sms_next (x : Z) (f : frame W) : frame W := ltac:(record_update frame_eta (@entering_sms_next W) x f).
Definition with_exiting_sms (x : list Z) (f : frame W) : frame W := ltac:(record_update frame_eta (@exiting_sms W) x f).
Definition with_exiting_sms_next (x : Z) (f : frame W) : frame W := ltac:(record_update frame_eta (@exiting_sms_next W) x f).

Definition on_core {A} (m : M (smc W) A) : M (frame W) A := zoom core with_core m.
Definition in_ctx {A} (m : M ectx A) : M (frame W) A := on_core (on_ctx m).
Definition set_temp (i x : Z) : M (frame W) unit := vset temp with_temp i x.
Definition get_temp (i : Z) : M (frame W) Z := vget temp i.

(** ** Which transitions fire *)

Section triggered.
Context `{Target} `{Host W} (vm_rounds : nat).

(** The guard of a transition: Oblectamenta code, a script guard, a native guard. *)
Definition eval_transition_guard (t : transition_t) : M (smc W) bool :=
  if oblectamenta_guard_valid t then
    do! vm_run vm_rounds (oblectamenta_guard t) in
    let! r := gets (fun s => file (vmst s) !! Z.to_nat RES) in
    let! r := of_option r in
    ret (negb (r =? 0))
  else if negb (bool_decide (script_guard t = "")) then eval_guard (script_guard t)
  else if guard t =? 0 then ret true
  else native_guard (guard t).

Definition push_triggered (t : Z) : M (frame W) unit :=
  let! e := gets triggered_transitions_end in
  do! vset triggered_transitions with_triggered_transitions e t in
  modify (with_triggered_transitions_end (e + 1)).

(** [for (; slots[i] != -1; ++i)]: the transitions that leave [s]. *)
Fixpoint triggered_of_state (rounds : nat) (s ev_id smp0 i : Z) (triggered : bool) : M (frame W) bool :=
  match rounds with
  | O => out_of_fuel
  | S rounds' =>
    let! ti := in_ctx (vget states2transitions_slots i) in
    if ti =? -1 then ret triggered
    else
      let! t := in_ctx (vget transitions ti) in
      if negb (Z.land (props t) TRANS_PROP_ABSTRACT =? 0)
      then triggered_of_state rounds' s ev_id smp0 (i + 1) triggered
      else if negb (smp t =? smp0) then ret triggered
      else
        let! there := get_temp (to t) in
        if negb (there =? 0) && (ev_id =? 0) && (ev t =? 0) && (from t =? to t) && (guard t =? 0)
           && bool_decide (script_guard t = "")
        then triggered_of_state rounds' s ev_id smp0 (i + 1) triggered
        else if (ev t =? ev_id) && (from t =? s) then
          let! r := on_core (eval_transition_guard t) in
          do! (if r then push_triggered ti else ret tt) in
          let triggered := triggered || r in
          do! (if triggered then in_ctx (visit_transition ti) else ret tt) in
          triggered_of_state rounds' s ev_id smp0 (i + 1) triggered
        else triggered_of_state rounds' s ev_id smp0 (i + 1) triggered
  end.

Definition triggered_step (ev_id s : Z) : M (frame W) unit :=
  let! e := gets triggered_transitions_end in
  if e =? max_number_of_active_transitions then ret tt
  else
    let! cur := in_ctx (vget current_states s) in
    if cur =? 0 then ret tt
    else
      let! i := in_ctx (vget states2transitions_slot_start s) in
      let! ti := in_ctx (vget states2transitions_slots i) in
      if ti =? -1 then ret tt
      else
        let! t := in_ctx (vget transitions ti) in
        let! n := gets (fun f => length (states2transitions_slots (ctx (core f)))) in
        let! triggered := triggered_of_state (S n) s ev_id (smp t) i false in
        if triggered then ret tt else set_temp s 1.

Definition compute_triggered_transitions (cur_states_size ev_id : Z) : M (frame W) unit :=
  forM (zrange 0 cur_states_size) (triggered_step ev_id).

(** ** Running the actions *)

Definition run_action (s : action_slot) : M (smc W) unit :=
  if oblectamenta s then vm_run vm_rounds (a_fn s)
  else if a_script s =? 0 then ret tt
  else let! p := gets current_smp in execute_action_seq p (a_script s).

Definition run_native_action (s : action_slot) : M (smc W) unit :=
  if a_fn s =? 0 then ret tt else native (a_fn s).

Definition run_transition_actions (t : Z) : M (smc W) unit :=
  let! trans := on_ctx (vget transitions t) in
  let! p := on_ctx (get_assoc_sm (smp trans)) in
  do! modify (with_current_smp p) in
  try_catch
    (if is_native trans then
       do! run_native_action (a1 trans) in
       do! run_native_action (a2 trans) in
       run_native_action (a3 trans)
     else
       do! run_action (a1 trans) in
       do! run_action (a2 trans) in
       run_action (a3 trans))
    (fun e => match e with
     | RuntimeError _ =>
       let! p := gets current_smp in
       let! _ := deref_sm p in
       throw e
     | _ => throw e
     end).

Definition run_triggered_actions (ts : list Z) : M (smc W) unit :=
  forM ts run_transition_actions.
End triggered.

(** ** The next set of states *)

(** [for (st = shadow(t); st > 0; st = shadow(st)) push_back(st)] *)
Fixpoint shadow_chain (fuel : nat) (t : Z) : M ectx unit :=
  match fuel with
  | O => out_of_fuel
  | S fuel' =>
    let! st := vget shadow_transitions t in
    if 0 <? st then
      do! modify (fun c => with_triggered_shadow_transitions
                             (triggered_shadow_transitions c ++ [st]) c) in
      shadow_chain fuel' st
    else ret tt
  end.

(** [for (i = 0; i != end; ++i) if (regions[i] == region) break;]: was it found? *)
Fixpoint find_region (n : nat) (i region : Z) : M (frame W) bool :=
  match n with
  | O => ret false
  | S n' =>
    let! r := vget triggered_thread_regions i in
    if r =? region then ret true else find_region n' (i + 1) region
  end.

Definition handle_final_states (to : Z) : M (frame W) unit :=
  let! in_thread := in_ctx (get_inf to IN_THREAD) in
  let! final := if in_thread then in_ctx (get_inf to FINAL) else ret false in
  if in_thread && final then
    let! p := in_ctx (get_parent to) in
    let! region := in_ctx (get_parent p) in
    let! e := gets triggered_thread_regions_end in
    let! found := find_region (Z.to_nat e) 0 region in
    if found then ret tt
    else
      do! vset triggered_thread_regions with_triggered_thread_regions e region in
      modify (with_triggered_thread_regions_end (e + 1))
  else ret tt.

Definition process_transition (possible : bool) (t : Z) : M (frame W) bool :=
  let! trans := in_ctx (vget transitions t) in
  let! possible :=
    if possible then ret true
    else
      let! p1 := in_ctx (get_parent (to trans)) in
      let! p2 := in_ctx (get_parent (from trans)) in
      if negb (p1 =? p2) then ret true
      else
        let! b := in_ctx (is_sm (to trans)) in
        if b then ret true else in_ctx (is_sm (from trans)) in
  do! set_temp (from trans) 0 in
  do! set_temp (to trans) 1 in
  do! in_ctx (visit_state (to trans)) in
  do! handle_final_states (to trans) in
  ret possible.

(** [for (auto st = st0; st > 0; st = shadow_state[st]) body(st)] *)
Fixpoint shadow_states_loop (fuel : nat) (st : Z) (body : Z -> M (frame W) unit) : M (frame W) unit :=
  match fuel with
  | O => out_of_fuel
  | S fuel' =>
    if 0 <? st then
      do! body st in
      let! st' := in_ctx (vget shadow_state st) in
      shadow_states_loop fuel' st' body
    else ret tt
  end.

Definition take_transition (fuel : nat) (possible : bool) (ti : Z) : M (frame W) bool :=
  let! t := in_ctx (vget transitions ti) in
  let! possible := process_transition possible ti in
  let! shadow_from := in_ctx (vget shadow_state (from t)) in
  let! shadow_to := in_ctx (vget shadow_state (to t)) in
  if (shadow_from <=? 0) && (shadow_to <=? 0) then ret possible
  else if (shadow_from <=? 0) && (0 <? shadow_to) then
    do! shadow_states_loop fuel shadow_to (fun st =>
          do! set_temp st 1 in
          do! in_ctx (visit_state st) in
          handle_final_states st) in
    ret true
  else if (0 <? shadow_from) && (shadow_to <=? 0) then
    do! shadow_states_loop fuel shadow_from (fun st => set_temp st 0) in
    ret true
  else ret possible.

Definition take_shadow_transition (possible : bool) (t : Z) : M (frame W) bool :=
  let! possible := process_transition possible t in
  do! in_ctx (visit_transition t) in
  ret possible.

(** The threads among the children of a region. *)
Definition for_threads (region : Z) (body : Z -> M (frame W) bool) : M (frame W) unit :=
  for_children (fun f => children (ctx (core f))) (fun f => state_to_children (ctx (core f))) region
    (fun child =>
       let! sm := in_ctx (is_sm child) in
       if negb sm then ret false
       else
         let! thread := in_ctx (get_inf child THREAD) in
         if negb thread then ret false else body child).

(** The first loop over the threads of a region: are all in their final state? *)
Fixpoint all_threads_final (rounds : nat) (i : Z) : M (frame W) bool :=
  match rounds with
  | O => out_of_fuel
  | S rounds' =>
    let! child := in_ctx (vget children i) in
    if child =? 0 then ret true
    else
      let! sm := in_ctx (is_sm child) in
      if negb sm then all_threads_final rounds' (i + 1)
      else
        let! thread := in_ctx (get_inf child THREAD) in
        if negb thread then all_threads_final rounds' (i + 1)
        else
          let! fs := in_ctx (vget final_state child) in
          if fs =? 0 then ret false
          else
            let! there := get_temp fs in
            if there =? 0 then ret false else all_threads_final rounds' (i + 1)
  end.

Definition join_region (possible : bool) (region : Z) : M (frame W) bool :=
  let! join := in_ctx (get_inf region JOIN) in
  if negb join then ret possible
  else
    let! js := in_ctx (vget join_states region) in
    if js =? 0 then ret possible
    else
      let! i := in_ctx (vget state_to_children region) in
      let! n := gets (fun f => length (children (ctx (core f)))) in
      let! all_threads_in_final := all_threads_final (S n) (i + 1) in
      if all_threads_in_final then
        do! for_threads region (fun child => do! set_temp child 0 in ret false) in
        do! set_temp js 1 in
        do! in_ctx (visit_state js) in
        ret true
      else ret possible.

(** [ts]: the triggered transitions up to [end_of_trans_it]. The shadow transitions
    are collected from the whole vector. *)
Definition compute_transition_kernel (fuel : nat) (ts : list Z) : M (frame W) bool :=
  do! in_ctx (modify (with_triggered_shadow_transitions [])) in
  let! all := gets triggered_transitions in
  do! forM all (fun i => in_ctx (shadow_chain fuel i)) in
  let! possible := foldM ts (take_transition fuel) false in
  let! sts := gets (fun f => triggered_shadow_transitions (ctx (core f))) in
  let! possible := foldM sts take_shadow_transition possible in
  let! e := gets triggered_thread_regions_end in
  let! regions := gets triggered_thread_regions in
  let! regions := of_option (slice_get regions 0 (Z.to_nat e)) in
  foldM regions join_region possible.

(** ** Entered and left state machines *)

(** Make a state active: [temp[s] = 1; visit_state(s);]. *)
Definition activate (s : Z) : M (frame W) unit :=
  do! set_temp s 1 in
  in_ctx (visit_state s).

Definition mark (s : Z) : M (frame W) unit := in_ctx (set_inf s VISITED true).

(** The initial state of [s], when it has one. *)
Definition enter_initial (s : Z) : M (frame W) unit :=
  let! init := in_ctx (vget initial_state s) in
  if init =? 0 then ret tt
  else
    do! activate init in
    mark init.

(** [for (;;)]: the ancestors of [p], up to one that is active or a root. *)
Fixpoint enter_ancestors (fuel : nat) (p : Z) : M (frame W) Z :=
  match fuel with
  | O => out_of_fuel
  | S fuel' =>
    let! prnt := in_ctx (get_parent p) in
    if prnt =? 0 then ret p
    else
      let! cur := in_ctx (vget current_states prnt) in
      if cur =? 1 then ret p
      else
        do! activate prnt in
        do! mark prnt in
        do! enter_initial prnt in
        enter_ancestors fuel' prnt
  end.

Definition push_entering (p : Z) : M (frame W) unit :=
  let! e := gets entering_sms_next in
  do! vset entering_sms with_entering_sms e p in
  modify (with_entering_sms_next (e + 1)).

(** A new state machine: its initial state and, for a region, its threads. *)
Definition enter_sm (state : Z) : M (frame W) unit :=
  do! activate state in
  do! enter_initial state in
  let! region := in_ctx (get_inf state REGION) in
  if region then
    for_threads state (fun thread =>
      do! activate thread in
      do! mark thread in
      do! enter_initial thread in
      ret false)
  else ret tt.

Definition finish_entered (fuel : nat) (state : Z) : M (frame W) unit :=
  let! p := enter_ancestors fuel state in
  let! sm := in_ctx (is_sm p) in
  if sm then push_entering p else ret tt.

Definition entered_step (fuel : nat) (state : Z) : M (frame W) unit :=
  let! visited := in_ctx (get_inf state VISITED) in
  if visited then ret tt
  else
    let! there := get_temp state in
    let! cur := if there =? 0 then ret 0 else in_ctx (vget current_states state) in
    if (there =? 0) || negb (cur =? 0) then ret tt
    else
      do! mark state in
      let! sm := in_ctx (is_sm state) in
      if sm then
        do! enter_sm state in
        finish_entered fuel state
      else
        let! prnt := in_ctx (get_parent state) in
        let! cur := in_ctx (vget current_states prnt) in
        if negb (cur =? 0) then ret tt
        else
          do! activate prnt in
          do! mark prnt in
          finish_entered fuel state.

Definition compute_entered_states (fuel : nat) : M (frame W) unit :=
  do! in_ctx clear_visited in
  let! n := gets (fun f => length (temp f)) in
  forM (zrange 0 (Z.of_nat n)) (entered_step fuel).

(** [empty(s, temp)] and [remove_children(s, temp)] on the frame. *)
Definition temp_empty (s : Z) : M (frame W) bool :=
  let! v := gets temp in in_ctx (is_empty s v).

Definition with_ctx_temp (p : ectx * list Z) (f : frame W) : frame W :=
  with_temp p.2 (with_core (with_ctx p.1 (core f)) f).

Definition temp_remove_children (fuel : nat) (s : Z) : M (frame W) unit :=
  zoom (fun f => (ctx (core f), temp f)) with_ctx_temp (remove_children fuel s).

(** [for (; parent(p) != 0 && current_states[parent(p)];)] *)
Fixpoint exit_ancestors (fuel : nat) (p : Z) : M (frame W) Z :=
  match fuel with
  | O => out_of_fuel
  | S fuel' =>
    let! pp := in_ctx (get_parent p) in
    if pp =? 0 then ret p
    else
      let! cur := in_ctx (vget current_states pp) in
      if cur =? 0 then ret p
      else
        let! e := temp_empty pp in
        if negb e then ret p
        else
          do! set_temp pp 0 in
          exit_ancestors fuel' pp
  end.

Definition push_exiting (p : Z) : M (frame W) unit :=
  let! e := gets exiting_sms_next in
  do! vset exiting_sms with_exiting_sms e p in
  modify (with_exiting_sms_next (e + 1)).

(** Does [state] have to be left? *)
Definition leave_sm (fuel : nat) (state : Z) : M (frame W) bool :=
  let! there := get_temp state in
  if negb (there =? 0) then
    let! e := temp_empty state in
    if negb e then ret false
    else do! set_temp state 0 in ret true
  else
    let! cur := in_ctx (vget current_states state) in
    if negb (cur =? 0) then do! temp_remove_children fuel state in ret true
    else ret false.

Definition exit_step (fuel : nat) (state : Z) : M (frame W) unit :=
  let! sm := in_ctx (is_sm state) in
  if negb sm then ret tt
  else
    let! visited := in_ctx (get_inf state VISITED) in
    if visited then ret tt
    else
      do! mark state in
      let! leave := leave_sm fuel state in
      if leave then
        let! p := exit_ancestors fuel state in
        push_exiting p
      else ret tt.

Definition compute_exit_states (fuel : nat) : M (frame W) unit :=
  do! in_ctx clear_visited in
  let! n := gets (fun f => length (temp f)) in
  forM (zrange 0 (Z.of_nat n)) (exit_step fuel).
End step.
