(* ===== verification/SimLoop.v ===== *)
(** * SimLoop: one run of the simulation

    State_machine_simulation_core::run_simulation
    (core/src/sm_sim_core_simulation_loop.cpp): the table of outgoing transitions,
    the covered state machines that are active from the start, fetching events, one
    round of the loop, and the exit handlers at the end; and the handlers for
    changes of covered states. *)

From S2P Require Import Prelude MachineInt F64 VMEnv VMTable Ast ExecCtx ExecLoop.

(** ** The transitions of each state *)

Section slots.
Implicit Types (ts : list transition_t).

(** The fallback when there is no memory: every transition is inspected for every
    state. Result: where the transitions of a state start, and the transitions, each
    group closed by -1. *)
Definition slots_of_state ts (i : Z) : list Z :=
  map (fun p => Z.of_nat p.1)
    (filter (fun p => ~ from p.2 = 0 /\ from p.2 = i) (imap pair ts)).

Fixpoint slots_naive_loop ts (states : list Z) (start slots : list Z) : list Z * list Z :=
  match states with
  | [] => (start, slots)
  | i :: states' =>
    slots_naive_loop ts states' (start ++ [Z.of_nat (length slots)])
      (slots ++ slots_of_state ts i ++ [-1])
  end.

Definition slots_naive (number_of_states : Z) ts : list Z * list Z :=
  slots_naive_loop ts (zrange 0 (number_of_states + 1)) [] [].

(** [v]: the number of transitions that leave each state. *)
Fixpoint count_outgoing ts (v : list Z) : option (list Z) :=
  match ts with
  | [] => Some v
  | t :: ts' =>
    if from t =? 0 then count_outgoing ts' v
    else k ← zlookup v (from t); v ← zinsert v (from t) (k + 1); count_outgoing ts' v
  end.

Definition max_outgoing (v : list Z) : Z := foldl (fun m e => if m <? e then e else m) 0 v.

(** [vv]: a row of [m + 1] entries per state, the first counts the others. *)
Fixpoint fill_rows (m : Z) ts (j : Z) (vv : list Z) : option (list Z) :=
  match ts with
  | [] => Some vv
  | t :: ts' =>
    if from t =? 0 then fill_rows m ts' (j + 1) vv
    else
      let s_i := (from t - 1) * (m + 1) in
      k ← zlookup vv s_i;
      vv ← zinsert vv s_i (k + 1);
      vv ← zinsert vv (s_i + (k + 1)) j;
      fill_rows m ts' (j + 1) vv
  end.

(** The rows, one state after the other. *)
Fixpoint collect_rows (m : Z) (vv states start slots : list Z) : option (list Z * list Z) :=
  match states with
  | [] => Some (start, slots)
  | s :: states' =>
    k ← zlookup vv ((s - 1) * (m + 1));
    row ← (if 0 <? k then slice_get vv ((s - 1) * (m + 1) + 1) (Z.to_nat k) else Some []);
    collect_rows m vv states' (start ++ [Z.of_nat (length slots)]) (slots ++ row ++ [-1])
  end.

(** The block of [vv_n] integers is assumed to be allocated; without it the code
    takes [slots_naive]. *)
Definition slots_optimised (number_of_states : Z) ts : option (list Z * list Z) :=
  v ← count_outgoing ts (replicate (Z.to_nat (number_of_states + 1)) 0);
  let m := max_outgoing v in
  let vv_n := (m + 1) * number_of_states in
  if in_range I32 vv_n then
    vv ← fill_rows m ts 0 (replicate (Z.to_nat vv_n) 0);
    collect_rows m vv (zrange 1 (number_of_states + 1)) [0] [-1]
  else None.
End slots.

(** [malloc_ok]: whether malloc returned a block. *)
Definition compute_slots (malloc_ok : bool) : M ectx unit :=
  let! n := gets number_of_states in
  let! ts := gets transitions in
  let! r := of_option (if malloc_ok then slots_optimised n ts else Some (slots_naive n ts)) in
  modify (fun c => with_states2transitions_slots r.2 (with_states2transitions_slot_start r.1 c)).

Section simulation.
Context {W : Type} `{Target} `{Host W} (vm_rounds fuel : nat).

(** ** Fetching an event *)

Inductive flow := Continue | Break | Proceed.

(** The by-reference results of [check_for_events]. *)
Record checked_event := mkChecked {
  ce_flow : flow;
  ce_taking_epsilon_transitions : bool;
  ce_ev_read : bool;
  ce_ev_id : Z;
  ce_quit : bool;
  ce_ev_sig : option event_signature
}.

(** A Start directive made [s] active. *)
Definition start_state (s : Z) : M (smc W) unit :=
  let! log := gets (fun x => log_timing (ctx x)) in
  let! log := if log then on_ctx (get_inf s LOG_ENTER_TIME) else ret false in
  do! (if log then
         let! cur := on_ctx (vget current_states s) in
         if cur =? 0 then
           on_ctx (modify (fun c => with_enter_times (<[s := time_stamp c]> (enter_times c)) c))
         else ret tt
       else ret tt) in
  do! on_ctx (vset current_states with_current_states s 1) in
  on_ctx (visit_state s).

Definition start_on_enter (p : Z) : M (smc W) unit :=
  let! sm := deref_sm p in
  let! loc := table_entry on_enter_oblectamenta (sm_idx sm) in
  if negb (loc =? 0) then vm_run vm_rounds loc
  else
    match find_action "on_enter" sm with
    | None => ret tt
    | Some it =>
      if negb (native_func_ it =? 0) then
        do! modify (with_current_smp (associated_sm_ it)) in
        native (native_func_ it)
      else if body_ it =? 0 then ret tt
      else
        let! en := gets enforce_native in
        if en then throw (Fatal (-1) ("Expecting native implementation (--enforce_native) (on_enter_1):" +:+ act_id it))
        else execute_action_seq p (body_ it)
    end.

(** The internal event @@set_state. The previous value of a system state is the node
    its current value was in; a changed double is written into that node, so the
    previous value is forgotten. *)
Definition set_global_state (s : string) (x : Z) : M (smc W) unit :=
  let! w := gets (fun c => default 0 (global_states c !! s)) in
  do! modify (fun c => with_global_states (<[s := w]> (global_states c)) c) in
  do! modify (fun c => with_global_systemstates_prev (<[s := w]> (global_systemstates_prev c)) c) in
  let! old := gets (fun c => if w =? 0 then None else Some (nodes c !! w)) in
  match old with
  | Some None => undef
  | Some (Some (Float_literal old_value)) =>
    do! (if F64.f64_eq old_value x then ret tt
         else modify (fun c => with_global_systemstates_prev
                                 (<[s := 0]> (global_systemstates_prev c)) c)) in
    modify (fun c => with_nodes (<[w := Float_literal x]> (nodes c)) c)
  | _ =>
    let! p := gets (fun c => fresh ({[0]} ∪ dom (nodes c) : gset Z)) in
    do! modify (fun c => with_nodes (<[p := Float_literal x]> (nodes c)) c) in
    modify (fun c => with_global_states (<[s := p]> (global_states c)) c)
  end.

Definition handle_set_state (ev : event_rep_t) : M (smc W) unit :=
  let! en := gets enforce_native in
  if en then ret tt
  else
    let! a := of_option (rep_payload_native_ ev !! 0%nat) in
    let! b := of_option (rep_payload_native_ ev !! 1%nat) in
    set_global_state (sv_ a) (dv_ b).

(** The number of an event. [ev_to_id[...]] inserts 0 for an unknown event. *)
Definition event_number : M (smc W) Z :=
  let! e := gets current_event in
  if negb (str_id_valid_ e) then ret (iid_ e)
  else
    let! ids := gets (fun s => ev_to_id (ctx s)) in
    match ids !! id_ e with
    | Some k => ret k
    | None => do! on_ctx (modify (with_ev_to_id (<[id_ e := 0]> ids))) in ret 0
    end.

Definition check_for_events (taking_epsilon_transitions : bool) : M (smc W) checked_event :=
  do! modify (fun s => with_current_event (with_id_ "" (current_event s)) s) in
  let! f := fetch_event in
  let ev := fe_ev f in
  let skip fl eps := ret (mkChecked fl eps false 0 false None) in
  if negb (fe_result f) then
    if fe_states_updated f then
      do! forM (fe_new_states f) start_state in
      do! forM (fe_on_enter_seq f) start_on_enter in
      skip Continue true
    else skip Break taking_epsilon_transitions
  else if bool_decide (sid_ ev = "@@queued_action") then
    do! (if negb (glob_func_ ev =? 0) then native (glob_func_ ev)
         else
           let! en := gets enforce_native in
           if en then throw (Fatal (-1) "Expecting native implementation (--enforce_native):@@queued_action")
           else execute_queued_action (rep_payload_ ev)) in
    skip Continue taking_epsilon_transitions
  else if bool_decide (sid_ ev = "@@set_state") then
    do! handle_set_state ev in
    skip Continue true
  else
    do! modify (with_current_event (event_of_rep ev)) in
    let! ev_id := event_number in
    let go quit sig := ret (mkChecked Proceed taking_epsilon_transitions true ev_id quit sig) in
    if bool_decide (sid_ ev = "EXIT") then go true None
    else if ev_id <=? 0 then go false None
    else
      let! sigs := gets event_signatures in
      match sigs !! ev_id with
      | None => go false None
      | Some v =>
        match compute_event_signature_match v (rep_payload_ ev) with
        | Some e => go false (Some e)
        | None => throw (Fatal (-1) "No matching overload (event signature declaration) found for event-ctor ")
        end
      end.

(** The message of an event is copied into the buffer of the virtual machine. *)
Definition deliver_protobufish_msg : M (smc W) unit :=
  let! e := gets current_event in
  let! offs := gets oblectamenta_global_event_buffer_offs in
  match protobufish_msg e with
  | Some bytes =>
    if offs =? SIZE_MAX then ret tt
    else
      let! m := gets (fun s => mem (vmst s)) in
      let! m' := of_option (slice_set m offs bytes) in
      on_vm (modify (set_mem m'))
  | None => ret tt
  end.

(** ** Handlers and callbacks *)

(** The first sender registered for the event sends its frame. *)
Definition handle_event_triggered_senders (ev_read : bool) : M (smc W) bool :=
  let! senders := gets event_triggered_sender in
  let! e := gets current_event in
  if ev_read && negb (bool_decide (id_ e = "")) then
    match list_find (fun p => p.1 = id_ e) senders with
    | Some (_, p) => do! send_frame p.2 in ret true
    | None => ret false
    end
  else ret false.

Definition register_execution_context_loop_handler_cover_state_changed (h d : Z) : M (smc W) unit :=
  if h =? 0 then ret tt
  else
    let! states := gets (fun s => current_states (ctx s)) in
    let! r := cover_handler h states d 1 in
    if negb r.1 then ret tt
    else modify (fun s =>
      let infos := handler_infos s in
      match list_find (fun e => active e = false) infos with
      | Some (i, _) => with_handler_infos (<[i := mkHandler true h d]> infos) s
      | None => with_handler_infos (infos ++ [mkHandler true h d]) s
      end).

Definition run_cover_handler (new_states : list Z) (i : nat) : M (smc W) unit :=
  let! infos := gets handler_infos in
  let! e := of_option (infos !! i) in
  if negb (active e) then ret tt
  else
    let! r := cover_handler (handler e) new_states (data e) 0 in
    do! modify (fun s => with_handler_infos
          (alter (fun e => mkHandler r.1 (handler e) (data e)) i (handler_infos s)) s) in
    if r.2 =? 4 then modify (with_dangling_handler_call true) else ret tt.

Definition run_execution_context_loop_cover_state_changed_handlers (new_states : list Z) : M (smc W) unit :=
  do! modify (with_dangling_handler_call false) in
  let! n := gets (fun s => length (handler_infos s)) in
  forM (seq 0 n) (run_cover_handler new_states).

(** The payload of the event that is handed to the global callback: at most 16
    integers (the rest is dropped); a 17th double or string is outside the buffer. *)
Fixpoint callback_payload (vs : list Variant) (iint idouble istr : nat) : option (list node) :=
  match vs with
  | [] => Some []
  | v :: vs' =>
    match what_ v with
    | What_Int =>
      if (iint <? 16)%nat
      then cons (Int_literal (iv_ v)) <$> callback_payload vs' (S iint) idouble istr
      else callback_payload vs' iint idouble istr
    | What_Double =>
      if (idouble <? 16)%nat
      then cons (Float_literal (dv_ v)) <$> callback_payload vs' iint (S idouble) istr
      else None
    | What_String =>
      if (istr <? 16)%nat
      then cons (String_literal (sv_ v)) <$> callback_payload vs' iint idouble (S istr)
      else None
    | What_Undefined => callback_payload vs' iint idouble istr
    end
  end.

(** [id_to_ev[...]] inserts the empty string for an unknown event. *)
Definition event_name (ev_id : Z) : M (smc W) string :=
  let! ids := gets (fun s => id_to_ev (ctx s)) in
  match ids !! ev_id with
  | Some n => ret n
  | None => do! on_ctx (modify (with_id_to_ev (<[ev_id := ""]> ids))) in ret ""
  end.

Definition global_ev_cllbck (ev_id : Z) : M (smc W) unit :=
  let! cur := gets (fun s => current_ev_id (ctx s)) in
  let! n := event_name ev_id in
  if cur =? ev_id then global_event_call_back_fn n []
  else
    let! e := gets current_event in
    let! payload := of_option (callback_payload (payload_native_ e) 0 0 0) in
    global_event_call_back_fn n payload.

Definition post_process (post_proc_native : Z) (ev_read : bool) (ev_id : Z) : M (smc W) unit :=
  do! (if ev_read && negb (post_proc_native =? 0) then native post_proc_native else ret tt) in
  let! cb := gets has_global_event_call_back in
  let! exported := gets (fun s => exported_events (ctx s)) in
  if cb && negb (ev_id =? 0) && bool_decide (ev_id ∈ exported)
  then global_ev_cllbck ev_id else ret tt.

(** ** One round of the loop *)

Definition set_visited_flag (b : bool) (ti : Z) : M (smc W) unit :=
  let! t := on_ctx (vget transitions ti) in
  let! p := on_ctx (get_assoc_sm (root_sms t)) in
  let! sm := deref_sm p in
  modify (fun s => with_machines
    (<[p := mkSM (sm_id sm) (sm_idx sm) (actions sm) b (global_scope sm)]> (machines s)) s).

(** Bind the arguments of the event in the scope of the transition's machine. *)
Definition update_scope (sig : event_signature) (ti : Z) : M (smc W) unit :=
  let! t := on_ctx (vget transitions ti) in
  let! p := on_ctx (get_assoc_sm (root_sms t)) in
  let! sm := deref_sm p in
  if visited_flag sm then ret tt
  else
    let! e := gets current_event in
    let! vals := of_option (mapM (fun i => payload_ e !! i) (seq 0 (length sig))) in
    let scope := foldl (fun sc p => <[arg_name p.1 := p.2]> sc)
                   (default ∅ (global_scope sm)) (zip sig vals) in
    modify (fun s => with_machines
      (<[p := mkSM (sm_id sm) (sm_idx sm) (actions sm) true (Some scope)]> (machines s)) s).

Definition update_scopes (ts : list Z) (sig : event_signature) : M (smc W) unit :=
  do! forM ts (set_visited_flag false) in
  forM ts (update_scope sig).

(** [std::sort] and [std::unique] on the first [triggered_transitions_end] entries;
    the result is the range up to [end_of_trans_it]. The entries [std::unique] leaves
    behind that iterator keep their values. *)
Fixpoint unique (l : list Z) : list Z :=
  match l with
  | x :: ((y :: _) as l') => if x =? y then unique l' else x :: unique l'
  | _ => l
  end.

Definition sort_triggered : M (frame W) (list Z) :=
  let! e := gets triggered_transitions_end in
  let! all := gets triggered_transitions in
  let! ts := of_option (slice_get all 0 (Z.to_nat e)) in
  let sorted := merge_sort Z.le ts in
  let u := unique sorted in
  let! all := of_option (slice_set all 0 (u ++ drop (length u) sorted)) in
  do! modify (with_triggered_transitions all) in
  ret u.

(** [memcpy] between the current states and [temp]. *)
Definition load_temp (cur_states_size : Z) : M (frame W) unit :=
  let! cur := gets (fun f => current_states (ctx (core f))) in
  let! t := gets temp in
  let! bytes := of_option (slice_get cur 0 (Z.to_nat cur_states_size)) in
  let! t := of_option (slice_set t 0 bytes) in
  modify (with_temp t).

Definition store_temp (cur_states_size : Z) : M (frame W) unit :=
  let! cur := gets (fun f => current_states (ctx (core f))) in
  let! t := gets temp in
  let! bytes := of_option (slice_get t 0 (Z.to_nat cur_states_size)) in
  let! cur := of_option (slice_set cur 0 bytes) in
  in_ctx (modify (with_current_states cur)).

Definition enter_and_exit (run_actions : M (smc W) unit) : M (frame W) unit :=
  do! compute_entered_states fuel in
  do! compute_exit_states fuel in
  let! ex := gets (fun f => slice_get (exiting_sms f) 0 (Z.to_nat (exiting_sms_next f))) in
  let! ex := of_option ex in
  do! on_core (do_exit vm_rounds fuel ex) in
  do! on_core run_actions in
  let! en := gets (fun f => slice_get (entering_sms f) 0 (Z.to_nat (entering_sms_next f))) in
  let! en := of_option en in
  let! v := gets temp in
  on_core (do_enter vm_rounds fuel en v).

Definition compute_enter_and_exit_states (ts : list Z) : M (frame W) unit :=
  enter_and_exit (run_triggered_actions vm_rounds ts).

(** [set_inf(i, VISITED, false)] with [i] the position of the child, as the code has
    it. *)
Fixpoint clear_visited_positions (rounds : nat) (i : Z) : M ectx unit :=
  match rounds with
  | O => out_of_fuel
  | S rounds' =>
    let! child := vget children i in
    if child =? 0 then ret tt
    else do! set_inf i VISITED false in clear_visited_positions rounds' (i + 1)
  end.

Definition stop_machine (v : Variant) : M (frame W) unit :=
  do! set_temp (iv_ v) 0 in
  in_ctx (let! i := vget state_to_children (iv_ v) in
          let! n := gets (fun c => length (children c)) in
          clear_visited_positions (S n) (i + 1)).

Definition restart (cur_states_size : Z) (ts : list Z) : M (frame W) unit :=
  let! e := gets (fun f => payload_native_ (current_event (core f))) in
  do! forM e stop_machine in
  do! compute_enter_and_exit_states ts in
  do! store_temp cur_states_size in
  let! e := gets (fun f => payload_native_ (current_event (core f))) in
  do! forM e (fun v => set_temp (iv_ v) 1) in
  do! compute_enter_and_exit_states ts in
  store_temp cur_states_size.

(** The times of entered and left states whose log bit is set. *)
Definition log_time (i : Z) : M (frame W) unit :=
  let! le := in_ctx (get_inf i LOG_ENTER_TIME) in
  let! lx := in_ctx (get_inf i LOG_EXIT_TIME) in
  if negb le && negb lx then ret tt
  else
    let! t := get_temp i in
    let! c := in_ctx (vget current_states i) in
    do! (if negb (t =? 0) && (c =? 0) && le then
           in_ctx (modify (fun c => with_enter_times (<[i := time_stamp c]> (enter_times c)) c))
         else ret tt) in
    if (t =? 0) && negb (c =? 0) && lx then
      in_ctx (modify (fun c => with_exit_times (<[i := time_stamp c]> (exit_times c)) c))
    else ret tt.

Definition log_times : M (frame W) unit :=
  let! log := gets (fun f => log_timing (ctx (core f))) in
  let! n := gets (fun f => length (current_states (ctx (core f)))) in
  if log then forM (zrange 0 (Z.of_nat n)) log_time else ret tt.

(** Did a covered state change? The scan stops at the first one. *)
Fixpoint covered_change (states : list Z) : M (frame W) bool :=
  match states with
  | [] => ret false
  | i :: states' =>
    let! t := get_temp i in
    let! c := in_ctx (vget current_states i) in
    if t =? c then covered_change states' else ret true
  end.

Definition notify_cover_handlers : M (frame W) unit :=
  let! valid := gets (fun f => start_of_covering_states_valid (ctx (core f))) in
  if negb valid then ret tt
  else
    let! dangling := gets (fun f => dangling_handler_call (core f)) in
    let! s := gets (fun f => start_of_covering_states (ctx (core f))) in
    let! n := gets (fun f => length (current_states (ctx (core f)))) in
    let! changes := if dangling then ret true else covered_change (zrange s (Z.of_nat n)) in
    if changes then
      let! t := gets temp in
      on_core (run_execution_context_loop_cover_state_changed_handlers t)
    else ret tt.

(** Take the step: the new states, leaving and entering state machines, actions. *)
Definition take_step (cur_states_size : Z) (restart_event : bool) (ts : list Z) : M (frame W) unit :=
  let! possible := if restart_event then ret true else compute_transition_kernel fuel ts in
  if negb possible then on_core (run_triggered_actions vm_rounds ts)
  else
    do! modify (fun f => with_entering_sms_next 0 (with_exiting_sms_next 0 f)) in
    if restart_event then restart cur_states_size ts
    else compute_enter_and_exit_states ts.

(** The next event: none while epsilon transitions are taken, then a synchronous
    event, then an event from outside. *)
Definition next_event (taking_epsilon_transitions : bool) : M (smc W) checked_event :=
  if taking_epsilon_transitions then
    ret (mkChecked Proceed taking_epsilon_transitions false 0 false None)
  else
    let! e := gets (fun s => ev_sync_queue_empty (ctx s)) in
    if e then
      let! c := check_for_events taking_epsilon_transitions in
      do! (match ce_flow c with Proceed => deliver_protobufish_msg | _ => ret tt end) in
      ret c
    else
      let! ev_id := on_ctx front_ev_sync_queue in
      do! on_ctx pop_ev_sync_queue in
      do! on_ctx (modify (with_current_ev_id ev_id)) in
      ret (mkChecked Proceed taking_epsilon_transitions true ev_id false None).

(** The rest of a round, once it is known which event there is. *)
Definition process_event (cur_states_size post_proc_native : Z) (ei : checked_event) : M (frame W) (flow * bool) :=
  let! ev := gets (fun f => current_event (core f)) in
  let restart_event := ce_ev_read ei && bool_decide (id_ ev = "@@restart_state_machine") in
  let! _ := on_core (handle_event_triggered_senders (ce_ev_read ei)) in
  do! load_temp cur_states_size in
  do! modify (fun f => with_triggered_transitions_end 0 (with_triggered_thread_regions_end 0 f)) in
  do! compute_triggered_transitions vm_rounds cur_states_size (ce_ev_id ei) in
  let! e := gets triggered_transitions_end in
  let! err := gets (fun f => error_ (current_event (core f))) in
  if (e =? 0) && negb restart_event then
    if bool_decide (is_Some err) then ret (Break, ce_taking_epsilon_transitions ei)
    else
      do! on_core (post_process post_proc_native (ce_ev_read ei) (ce_ev_id ei)) in
      ret (Continue, negb (ce_taking_epsilon_transitions ei))
  else
    let! ts := sort_triggered in
    do! (match ce_ev_sig ei with
         | Some sig => if 0 <? ce_ev_id ei then on_core (update_scopes ts sig) else ret tt
         | None => ret tt
         end) in
    do! take_step cur_states_size restart_event ts in
    do! log_times in
    do! notify_cover_handlers in
    do! store_temp cur_states_size in
    do! on_core (post_process post_proc_native (ce_ev_read ei) (ce_ev_id ei)) in
    ret (Proceed, true).

Definition loop_round (cur_states_size post_proc_native : Z) (taking_epsilon_transitions : bool) :
    M (frame W) (flow * bool * bool) :=
  do! on_core (modify (with_current_smp 0)) in
  do! in_ctx (modify (with_current_ev_id 0)) in
  let! log := gets (fun f => log_timing (ctx (core f))) in
  do! (if log then on_core (let! t := high_resolution_clock_now in on_ctx (modify (with_time_stamp t)))
       else ret tt) in
  let! ei := on_core (next_event taking_epsilon_transitions) in
  match ce_flow ei with
  | Proceed =>
    let! r := process_event cur_states_size post_proc_native ei in
    ret (r.1, r.2, ce_quit ei)
  | fl => ret (fl, ce_taking_epsilon_transitions ei, ce_quit ei)
  end.

(** ** The whole run *)

Fixpoint event_loop (rounds : nat) (cur_states_size post_proc_native : Z)
    (taking_epsilon_transitions quit : bool) : M (frame W) unit :=
  match rounds with
  | O => out_of_fuel
  | S rounds' =>
    let! stop := gets (fun f => shutdown (core f)) in
    if quit || stop then ret tt
    else
      let! r := loop_round cur_states_size post_proc_native taking_epsilon_transitions in
      match r.1.1 with
      | Break => ret tt
      | _ => event_loop rounds' cur_states_size post_proc_native r.1.2 r.2
      end
  end.

(** Covered state machines at the top level are active from the start. *)
Definition start_covered (i : Z) (changed : bool) : M (frame W) bool :=
  let! sm := in_ctx (get_inf i SM) in
  if negb sm then ret changed
  else
    let! p := in_ctx (get_parent i) in
    if negb (p =? 0) then ret changed
    else
      let! t := get_temp i in
      do! set_temp i 1 in
      ret (changed || (t =? 0)).

Definition init_covered (cur_states_size : Z) : M (frame W) bool :=
  let! valid := gets (fun f => start_of_covering_states_valid (ctx (core f))) in
  if negb valid then ret false
  else
    let! s := gets (fun f => to_s 32 (start_of_covering_states (ctx (core f)))) in
    let! n := gets (fun f => number_of_states (ctx (core f))) in
    let! changed := if n <? s then undef
                    else foldM (zrange s n) (fun b i => start_covered i b) false in
    if negb changed then ret false
    else
      do! modify (fun f => with_entering_sms_next 0 (with_exiting_sms_next 0 f)) in
      do! enter_and_exit (ret tt) in
      do! store_temp cur_states_size in
      ret true.

Definition final_exit_step (i : Z) : M (smc W) unit :=
  let! cur := on_ctx (vget current_states i) in
  if cur =? 0 then ret tt
  else
    let! sm := on_ctx (get_inf i SM) in
    if negb sm then ret tt
    else
      let! p := on_ctx (get_parent_read i) in
      if p =? 0 then do_exit_impl vm_rounds fuel i else ret tt.

Definition final_exit : M (smc W) unit :=
  let! n := gets (fun s => Nat.min (length (current_states (ctx s))) (length (inf_vec (ctx s)))) in
  forM (zrange 0 (Z.of_nat n)) final_exit_step.

(** The frame the loop starts with, once the initialisations of the simulation
    script (AST code) have run. *)
Definition initial_frame (s : smc W) : frame W :=
  let cur := current_states (ctx s) in
  let zeros := replicate (length cur) 0 in
  mkFrame s cur (replicate (Z.to_nat max_number_of_active_transitions) 0) 0 zeros 0 zeros 0 zeros 0.

Definition run_simulation (malloc_ok : bool) (rounds : nat) (post_proc_native : Z) : M (smc W) unit :=
  do! on_ctx (compute_slots malloc_ok) in
  do! on_ctx current_states_init_and_clear in
  do! (fun s =>
    let size := Z.of_nat (length (current_states (ctx s))) in
    zoom initial_frame (fun f _ => core f)
      (let! eps := init_covered size in
       event_loop rounds size post_proc_native eps false) s) in
  final_exit.
End simulation.
