(* ===== verification/ExecCtxSpec.v ===== *)
(** * ExecCtxSpec: the queue of synchronous events and the tables of states

    The ring buffer of executionloop_context_t is a bounded FIFO that drops its
    oldest entry, and the effect of the methods that the proofs about the execution
    loop rely on. *)

From S2P Require Import Prelude MachineInt ExecCtx.

(** ** The ring buffer *)

Section ring.
Implicit Types c : ectx.

Definition qsize c : Z := Z.of_nat (length (ev_sync_queue c)).

Definition queue_ok c : Prop :=
  2 <= qsize c /\ 0 <= ev_sync_queue_start c < qsize c /\ 0 <= ev_sync_queue_end c < qsize c.

(** Positions run around the buffer. *)
Definition wrap (n i : Z) : Z := if i <? n then i else i - n.

Definition queue_length c : Z :=
  if ev_sync_queue_start c <=? ev_sync_queue_end c
  then ev_sync_queue_end c - ev_sync_queue_start c
  else ev_sync_queue_end c - ev_sync_queue_start c + qsize c.

(** The abstract queue, oldest event first. *)
Definition queue_contents c : list Z :=
  map (fun k => default 0 (zlookup (ev_sync_queue c) (wrap (qsize c) (ev_sync_queue_start c + k))))
    (zrange 0 (queue_length c)).

(** Enqueueing at most [cap] entries: a full queue loses its oldest. *)
Definition bounded_push (cap : nat) (x : Z) (q : list Z) : list Z :=
  if decide (length q = cap) then drop 1 q ++ [x] else q ++ [x].

Lemma queue_contents_lookup c i :
  queue_contents c !! i =
  if decide (i < Z.to_nat (queue_length c))%nat
  then Some (default 0 (zlookup (ev_sync_queue c) (wrap (qsize c) (ev_sync_queue_start c + Z.of_nat i))))
  else None.
Proof.
  unfold queue_contents. rewrite list_lookup_fmap, zrange_lookup.
  replace (queue_length c - 0) with (queue_length c) by lia.
  destruct (decide _); done.
Qed.

Lemma queue_contents_length c : length (queue_contents c) = Z.to_nat (queue_length c).
Proof. unfold queue_contents. rewrite length_map, zrange_length. f_equal. lia. Qed.

(** What [push] leaves behind. *)
Definition pushed (x : Z) c : ectx :=
  let e := wrap (qsize c) (ev_sync_queue_end c + 1) in
  with_ev_sync_queue_start
    (if e =? ev_sync_queue_start c then wrap (qsize c) (ev_sync_queue_start c + 1) else ev_sync_queue_start c)
    (with_ev_sync_queue_end e
      (with_ev_sync_queue (<[Z.to_nat (ev_sync_queue_end c) := x]> (ev_sync_queue c)) c)).

Lemma wrap_eqb n i : i < n -> (if i + 1 =? n then 0 else i + 1) = wrap n (i + 1).
Proof. intros. unfold wrap. case_ifs; zbool; lia. Qed.

Lemma push_run c x : queue_ok c -> push_ev_sync_queue x c = Ok tt (pushed x c).
Proof.
  intros (Hn & Hs & He). unfold push_ev_sync_queue, pushed, bind, gets, modify, vset, qsize in *.
  rewrite zinsert_Some by lia. cbn.
  rewrite length_insert, wrap_eqb by lia.
  destruct (_ =? ev_sync_queue_start c); [by rewrite wrap_eqb by lia|done].
Qed.

Lemma pushed_ok c x : queue_ok c -> queue_ok (pushed x c).
Proof.
  intros (Hn & Hs & He). unfold queue_ok, pushed, qsize, wrap in *. cbn.
  rewrite length_insert. case_ifs; zbool; lia.
Qed.

Lemma pushed_contents c x :
  queue_ok c ->
  queue_contents (pushed x c) = bounded_push (length (ev_sync_queue c) - 1) x (queue_contents c).
Proof.
  intros (Hn & Hs & He). unfold bounded_push. apply list_eq. intros i.
  rewrite queue_contents_length.
  assert (Hold : forall k, 0 <= k -> k <> queue_length c -> k < qsize c ->
    zlookup (ev_sync_queue (pushed x c)) (wrap (qsize c) (ev_sync_queue_start c + k))
    = zlookup (ev_sync_queue c) (wrap (qsize c) (ev_sync_queue_start c + k))).
  { intros k H0 H1 H2. apply zlookup_insert_ne; [lia|].
    unfold wrap, queue_length, qsize in *. case_ifs; zbool; lia. }
  assert (Hnew : zlookup (ev_sync_queue (pushed x c)) (ev_sync_queue_end c) = Some x).
  { apply zlookup_insert_eq. unfold qsize in *. lia. }
  assert (Hlen : length (ev_sync_queue c) = Z.to_nat (qsize c)) by (unfold qsize; lia).
  assert (Hq : qsize (pushed x c) = qsize c) by (unfold qsize, pushed; cbn; by rewrite length_insert).
  destruct (decide _) as [Hfull|Hnfull].
  - assert (Hqs : queue_length (pushed x c) = queue_length c /\
                  ev_sync_queue_start (pushed x c) = wrap (qsize c) (ev_sync_queue_start c + 1)).
    { unfold queue_length in *. rewrite Hq. cbn. unfold wrap in *. case_ifs; zbool; lia. }
    destruct Hqs as [Hql Hst]. rewrite queue_contents_lookup, Hql, Hst, Hq.
    destruct (decide (i < length (drop 1 (queue_contents c)))%nat) as [Hi|Hi];
      rewrite length_drop, queue_contents_length in Hi.
    + rewrite lookup_app_l by (rewrite length_drop, queue_contents_length; lia).
      rewrite lookup_drop, queue_contents_lookup, !decide_True by lia. f_equal. f_equal.
      rewrite <- Hold by lia. f_equal. unfold wrap. case_ifs; zbool; lia.
    + rewrite lookup_app_r by (rewrite length_drop, queue_contents_length; lia).
      rewrite length_drop, queue_contents_length. destruct (decide _).
      * replace (i - _)%nat with 0%nat by lia. cbn [lookup list_lookup]. f_equal.
        replace (wrap _ _) with (ev_sync_queue_end c); [by rewrite Hnew|].
        unfold queue_length, wrap in *. case_ifs; zbool; lia.
      * destruct (i - _)%nat eqn:E; [lia|done].
  - assert (Hqs : queue_length (pushed x c) = queue_length c + 1 /\
                  ev_sync_queue_start (pushed x c) = ev_sync_queue_start c).
    { unfold queue_length in *. rewrite Hq. cbn. unfold wrap in *. case_ifs; zbool; lia. }
    assert (0 <= queue_length c < qsize c) by (unfold queue_length; case_ifs; zbool; lia).
    destruct Hqs as [Hql Hst]. rewrite queue_contents_lookup, Hql, Hst, Hq.
    destruct (decide (i < length (queue_contents c))%nat) as [Hi|Hi];
      rewrite queue_contents_length in Hi.
    + rewrite lookup_app_l by (rewrite queue_contents_length; lia).
      rewrite queue_contents_lookup, !decide_True by lia. by rewrite Hold by lia.
    + rewrite lookup_app_r by (rewrite queue_contents_length; lia).
      rewrite queue_contents_length. destruct (decide _).
      * replace (i - _)%nat with 0%nat by lia. cbn [lookup list_lookup]. f_equal.
        replace (wrap _ _) with (ev_sync_queue_end c); [by rewrite Hnew|].
        unfold queue_length, wrap in *. case_ifs; zbool; lia.
      * destruct (i - _)%nat eqn:E; [lia|done].
Qed.

(** What [pop] leaves behind. *)
Definition popped c : ectx :=
  with_ev_sync_queue_start (wrap (qsize c) (ev_sync_queue_start c + 1)) c.

Lemma popped_contents c :
  queue_ok c -> queue_contents c <> [] ->
  queue_ok (popped c) /\ queue_contents (popped c) = drop 1 (queue_contents c).
Proof.
  intros (Hn & Hs & He) Hne.
  assert (Hlen : 0 < queue_length c).
  { destruct (decide (0 < queue_length c)) as [|Hd]; [done|]. exfalso. apply Hne.
    apply nil_length_inv. rewrite queue_contents_length. lia. }
  assert (Hq : qsize (popped c) = qsize c) by done. split.
  { unfold queue_ok. rewrite Hq. cbn. unfold wrap. case_ifs; zbool; lia. }
  apply list_eq. intros i. rewrite lookup_drop, !queue_contents_lookup, Hq.
  assert (Hl : queue_length (popped c) = queue_length c - 1).
  { unfold queue_length in *. rewrite Hq. cbn. unfold wrap. case_ifs; zbool; lia. }
  rewrite Hl. cbn [ev_sync_queue popped with_ev_sync_queue_start ev_sync_queue_start].
  destruct (decide _); [rewrite decide_True by lia|by rewrite decide_False by lia].
  do 3 f_equal. unfold wrap, queue_length in *. case_ifs; zbool; lia.
Qed.

(** The queue of synchronous events is a FIFO of capacity size - 1. Pushing
    appends the event and drops the oldest one exactly when the buffer is full; the
    queue is reported empty exactly when the FIFO is; front reads the oldest event;
    pop removes it and reports success, or does nothing on an empty queue. *)
Theorem ev_sync_queue_fifo c x :
  queue_ok c ->
  (exists c', push_ev_sync_queue x c = Ok tt c' /\ queue_ok c' /\
     queue_contents c' = bounded_push (length (ev_sync_queue c) - 1) x (queue_contents c)) /\
  ev_sync_queue_empty c = bool_decide (queue_contents c = []) /\
  (forall y q, queue_contents c = y :: q ->
     front_ev_sync_queue c = Ok y c /\
     exists c', pop_ev_sync_queue c = Ok true c' /\ queue_ok c' /\ queue_contents c' = q) /\
  (queue_contents c = [] -> pop_ev_sync_queue c = Ok false c).
Proof.
  intros Hok. pose proof Hok as (Hn & Hs & He).
  assert (Hempty : ev_sync_queue_empty c = bool_decide (queue_contents c = [])).
  { unfold ev_sync_queue_empty. symmetry.
    destruct (Z.eqb_spec (ev_sync_queue_start c) (ev_sync_queue_end c)) as [E|E].
    - apply bool_decide_eq_true. apply nil_length_inv. rewrite queue_contents_length.
      unfold queue_length. case_ifs; zbool; lia.
    - apply bool_decide_eq_false. intros Hl%(f_equal length). revert Hl.
      rewrite queue_contents_length. unfold queue_length. cbn. case_ifs; zbool; lia. }
  split; [|split; [done|split]].
  - exists (pushed x c). auto using push_run, pushed_ok, pushed_contents.
  - intros y q Hq. split.
    + unfold front_ev_sync_queue, bind, gets, vget.
      pose proof (f_equal (fun l => l !! 0%nat) Hq) as Hh.
      rewrite queue_contents_lookup in Hh. destruct (decide _); [|done]. cbn in Hh.
      replace (wrap _ _) with (ev_sync_queue_start c) in Hh by (unfold wrap; case_ifs; zbool; lia).
      destruct (zlookup _ _) as [z|] eqn:Ez; [cbn in Hh; congruence|].
      exfalso. unfold zlookup in Ez. case_ifs; zbool; [lia|].
      apply lookup_ge_None in Ez. unfold qsize in *. lia.
    + exists (popped c).
      destruct (popped_contents c Hok) as [Hok' Hc]; [by rewrite Hq|].
      split; [|split; [done|by rewrite Hc, Hq]].
      unfold pop_ev_sync_queue, bind, gets, modify, ret. rewrite Hempty, Hq. cbn.
      unfold popped, qsize in *. by rewrite wrap_eqb by lia.
  - intros Hq. unfold pop_ev_sync_queue, bind, gets. by rewrite Hempty, Hq.
Qed.
End ring.

(** The constructed context, after three events: the FIFO holds them. *)
Lemma ev_sync_queue_fifo_witness :
  queue_ok executionloop_context_init /\
  exists c', push_ev_sync_queue 7 executionloop_context_init = Ok tt c' /\ queue_ok c' /\
    queue_contents c' = bounded_push 1023 7 (queue_contents executionloop_context_init).
Proof.
  assert (Hok : queue_ok executionloop_context_init) by (vm_compute; repeat split; congruence).
  split; [exact Hok|].
  destruct (ev_sync_queue_fifo executionloop_context_init 7 Hok) as [Hp _]. exact Hp.
Defined.

(** ** Flags *)

(** Bit [what] of state [s]. *)
Definition flag (c : ectx) (s what : Z) : bool :=
  match zlookup (inf_vec c) s with Some w => Z.testbit w what | None => false end.

(** The states of [c] are 0, ..., [number_of_states c]. *)
Definition is_state (c : ectx) (s : Z) : Prop := 0 <= s <= number_of_states c.

(** The vectors of flags and of current states have an entry per state. *)
Definition flags_ok (c : ectx) : Prop :=
  0 <= number_of_states c < 2 ^ 31 /\
  Z.of_nat (length (inf_vec c)) = number_of_states c + 1.

Lemma testbit_land_shiftl w k : 0 <= k -> negb (Z.land w (Z.shiftl 1 k) =? 0) = Z.testbit w k.
Proof.
  intros Hk. destruct (Z.testbit w k) eqn:E.
  - apply negb_true_iff, Z.eqb_neq. intros H0.
    pose proof (f_equal (fun z => Z.testbit z k) H0) as Hb. cbv beta in Hb.
    rewrite Z.land_spec, Z.shiftl_spec, Z.sub_diag, E, Z.bits_0 in Hb by done. done.
  - apply negb_false_iff, Z.eqb_eq. apply Z.bits_inj'. intros j Hj.
    rewrite Z.land_spec, Z.bits_0, Z.shiftl_spec by done.
    destruct (decide (j = k)) as [->|Hne]; [by rewrite E|].
    replace (Z.testbit 1 (j - k)) with false; [apply andb_false_r|].
    destruct (decide (j < k)); [by rewrite Z.testbit_neg_r by lia|].
    symmetry. apply Z.bits_above_log2; cbn; lia.
Qed.

Lemma testbit_update w k j (b : bool) :
  0 <= k -> 0 <= j ->
  Z.testbit (if b then Z.lor w (Z.shiftl 1 k) else Z.land w (Z.lnot (Z.shiftl 1 k))) j
  = if j =? k then b else Z.testbit w j.
Proof.
  intros Hk Hj.
  assert (H1 : Z.testbit (Z.shiftl 1 k) j = (j =? k)).
  { rewrite Z.shiftl_spec by done. destruct (Z.eqb_spec j k) as [->|Hne]; [by rewrite Z.sub_diag|].
    destruct (decide (j < k)); [by rewrite Z.testbit_neg_r by lia|].
    apply Z.bits_above_log2; cbn; lia. }
  destruct b.
  - rewrite Z.lor_spec, H1. destruct (j =? k); [apply orb_true_r|apply orb_false_r].
  - rewrite Z.land_spec, Z.lnot_spec, H1 by done.
    destruct (j =? k); [apply andb_false_r|apply andb_true_r].
Qed.

Lemma get_inf_run c s what :
  flags_ok c -> is_state c s -> 0 <= what -> get_inf s what c = Ok (flag c s what) c.
Proof.
  intros [Hn Hl] Hs Hw. unfold get_inf, bind, vget, flag, ret, is_state in *.
  destruct (zlookup_is_Some (inf_vec c) s ltac:(lia)) as [w ->].
  by rewrite testbit_land_shiftl.
Qed.

(** [set_inf] on a state within bounds changes one bit. *)
Definition inf_set (s what : Z) (b : bool) (c : ectx) : ectx :=
  match zlookup (inf_vec c) s with
  | Some w => with_inf_vec (<[Z.to_nat s :=
      if b then Z.lor w (Z.shiftl 1 what) else Z.land w (Z.lnot (Z.shiftl 1 what))]> (inf_vec c)) c
  | None => c
  end.

Lemma set_inf_run c s what b :
  flags_ok c -> is_state c s -> what <> LOG_ENTER_TIME -> what <> LOG_EXIT_TIME ->
  set_inf s what b c = Ok tt (inf_set s what b c).
Proof.
  intros [Hn Hl] Hs Hw1 Hw2. unfold set_inf, bind, modify, is_state in *.
  assert (Hu : u64 (number_of_states c) = number_of_states c) by (apply Z.mod_small; lia).
  rewrite Hu. destruct (_ <? _) eqn:E; zbool; [lia|].
  unfold vget, vset, inf_set. destruct (zlookup_is_Some (inf_vec c) s ltac:(lia)) as [w Hw].
  rewrite Hw. rewrite zinsert_Some by lia.
  apply Z.eqb_neq in Hw1, Hw2. by rewrite Hw1, Hw2.
Qed.

Lemma flag_inf_set c s what b s' k :
  flags_ok c -> is_state c s -> 0 <= what -> 0 <= k ->
  flag (inf_set s what b c) s' k = if (s' =? s) && (k =? what) then b else flag c s' k.
Proof.
  intros [Hn Hl] Hs Hw Hk. unfold flag, inf_set, is_state in *.
  destruct (zlookup_is_Some (inf_vec c) s ltac:(lia)) as [w E]. rewrite E. cbn.
  destruct (Z.eqb_spec s' s) as [->|Hne].
  - rewrite zlookup_insert_eq by lia. cbn [andb]. rewrite testbit_update by done. by rewrite E.
  - by rewrite zlookup_insert_ne by lia.
Qed.

Lemma inf_set_ok c s what b : flags_ok c -> flags_ok (inf_set s what b c).
Proof.
  unfold flags_ok, inf_set. destruct (zlookup _ _); [|done]. cbn. by rewrite length_insert.
Qed.

(** [c'] is [c] except for the VISITED bits. *)
Record same_but_visited (c c' : ectx) : Prop := {
  sv_ok : flags_ok c';
  sv_number : number_of_states c' = number_of_states c;
  sv_current : current_states c' = current_states c;
  sv_children : children c' = children c;
  sv_s2c : state_to_children c' = state_to_children c;
  sv_parent : parent_vec c' = parent_vec c;
  sv_flags s k : 0 <= k -> k <> VISITED -> flag c' s k = flag c s k
}.

#[export] Instance same_but_visited_trans : Transitive same_but_visited.
Proof.
  intros c1 c2 c3 [? ? ? ? ? ? H1] [? ? ? ? ? ? H2]. split; try congruence.
  intros s k Hk Hv. rewrite H2, H1; done.
Qed.

Lemma same_but_visited_refl c : flags_ok c -> same_but_visited c c.
Proof. by split. Qed.

Lemma same_but_visited_inf_set c c' s b :
  same_but_visited c c' -> is_state c s -> same_but_visited c (inf_set s VISITED b c').
Proof.
  intros [Hok Hn Hc Hch Hs2 Hp Hf] Hs.
  assert (Hs' : is_state c' s) by (unfold is_state in *; lia).
  split; try (unfold inf_set; destruct (zlookup _ _); done).
  - by apply inf_set_ok.
  - intros s' k Hk Hv. rewrite flag_inf_set by done.
    apply Z.eqb_neq in Hv as Hv'. rewrite Hv', andb_false_r. by apply Hf.
Qed.

(** Clearing all VISITED bits. *)
Lemma clear_visited_run c :
  flags_ok c ->
  exists c', forM (zrange 0 (number_of_states c + 1)) (fun i => set_inf i VISITED false) c = Ok tt c' /\
    same_but_visited c c' /\ forall s, is_state c s -> flag c' s VISITED = false.
Proof.
  intros Hok.
  assert (Hgen : forall l c0, same_but_visited c c0 -> Forall (is_state c) l ->
    exists c', forM l (fun i => set_inf i VISITED false) c0 = Ok tt c' /\ same_but_visited c c' /\
      forall s, s ∈ l \/ flag c0 s VISITED = false -> flag c' s VISITED = false).
  { induction l as [|i l IH]; intros c0 Hsame Hl.
    { exists c0. split; [done|]. split; [done|]. intros s [Hs|Hs]; [by apply elem_of_nil in Hs|done]. }
    apply Forall_cons in Hl as [Hi Hl]. cbn [forM].
    assert (Hi0 : is_state c0 i) by (unfold is_state; by rewrite (sv_number _ _ Hsame)).
    unfold bind. rewrite set_inf_run by (done || apply Hsame).
    destruct (IH (inf_set i VISITED false c0)) as (c' & Hr & Hs' & Hf);
      [by apply same_but_visited_inf_set|done|].
    exists c'. split; [done|]. split; [done|]. intros s Hs. apply Hf.
    rewrite flag_inf_set by (done || apply Hsame). rewrite Z.eqb_refl, andb_true_r.
    destruct (Z.eqb_spec s i) as [->|Hne]; [by right|].
    destruct Hs as [[|Hs]%elem_of_cons|Hs]; [done|by left|by right]. }
  destruct (Hgen (zrange 0 (number_of_states c + 1)) c) as (c' & Hr & Hs & Hf).
  - by apply same_but_visited_refl.
  - apply Forall_forall. intros i Hi%elem_of_zrange. unfold is_state. lia.
  - exists c'. split; [done|]. split; [done|]. intros s Hst. apply Hf. left.
    apply elem_of_zrange. unfold is_state in Hst. lia.
Qed.

(** ** Children *)

Fixpoint until0 (l : list Z) : option (list Z) :=
  match l with
  | [] => None
  | x :: l' => if x =? 0 then Some [] else cons x <$> until0 l'
  end.

(** The group of children that starts at [i]. *)
Definition group (cs : list Z) (i : Z) : option (list Z) :=
  if i <? 0 then None else until0 (drop (Z.to_nat i) cs).

(** The children of a state. *)
Definition kids (c : ectx) (s : Z) : option (list Z) :=
  i ← zlookup (state_to_children c) s; group (children c) (i + 1).

Lemma group_step cs i l :
  group cs i = Some l ->
  match l with
  | [] => zlookup cs i = Some 0
  | x :: l' => zlookup cs i = Some x /\ x <> 0 /\ group cs (i + 1) = Some l'
  end.
Proof.
  unfold group, zlookup. destruct (i <? 0) eqn:E; [done|]. zbool.
  destruct (i + 1 <? 0) eqn:E'; zbool; [lia|].
  replace (Z.to_nat (i + 1)) with (S (Z.to_nat i)) by lia.
  destruct (cs !! Z.to_nat i) as [x|] eqn:Ex.
  - rewrite (drop_S cs x (Z.to_nat i) Ex). cbn. destruct (Z.eqb_spec x 0) as [->|Hx].
    + by intros [= <-].
    + destruct (until0 _) as [l'|]; [|done]. cbn. by intros [= <-].
  - apply lookup_ge_None in Ex. by rewrite drop_ge by done.
Qed.

Lemma group_length cs i l : group cs i = Some l -> (length l < length cs)%nat.
Proof.
  unfold group. destruct (i <? 0); [done|]. intros H.
  assert (Hu : forall us l, until0 us = Some l -> (length l < length us)%nat).
  { induction us as [|u us IH]; [done|]. intros l' Hl'. cbn in *. destruct (u =? 0).
    - injection Hl' as <-. cbn. lia.
    - destruct (until0 us) as [r|] eqn:Er; [|done]. injection Hl' as <-. cbn.
      specialize (IH r eq_refl). lia. }
  apply Hu in H. rewrite length_drop in H. lia.
Qed.

(** A loop over the children whose body never breaks is a loop over the list, as long
    as the body keeps an invariant under which the table of children is [cs]. *)
Lemma children_loop_forM {St} (getc : St -> list Z) (body : Z -> M St bool) (g : Z -> M St unit)
    cs (I : St -> Prop) l :
  (forall s, I s -> getc s = cs) ->
  (forall x s, x ∈ l -> I s -> body x s = (do! g x in ret false) s) ->
  (forall x s a s', x ∈ l -> I s -> g x s = Ok a s' -> I s') ->
  forall rounds i s, I s -> group cs i = Some l -> (length l < rounds)%nat ->
  children_loop getc rounds i body s = forM l g s.
Proof.
  intros HI. induction l as [|x l IH]; intros Hb Hg rounds i s Hs Hgr Hr.
  - destruct rounds as [|rounds]; [lia|]. apply group_step in Hgr. cbn [children_loop forM].
    unfold bind, vget. by rewrite (HI s Hs), Hgr.
  - destruct rounds as [|rounds]; [cbn in Hr; lia|].
    apply group_step in Hgr as (Hx & Hx0 & Hgr). cbn [children_loop forM].
    unfold bind at 1, vget. rewrite (HI s Hs), Hx. apply Z.eqb_neq in Hx0. rewrite Hx0.
    unfold bind at 1. rewrite Hb by (done || by left). unfold bind.
    destruct (g x s) as [a s'|e s'| |] eqn:Eg; [|done..].
    cbn [ret]. unfold ret. apply (IH ltac:(intros; apply Hb; [by right|done])
      ltac:(intros y t b t' Hy; apply Hg; by right) rounds (i + 1) s').
    + eapply Hg; [left|exact Hs|exact Eg].
    + done.
    + cbn in Hr. lia.
Qed.

Lemma for_children_forM {St} (getc gets2c : St -> list Z) (body : Z -> M St bool) (g : Z -> M St unit)
    sms cs l i (I : St -> Prop) s :
  (forall s, I s -> getc s = cs) ->
  (forall x s, x ∈ l -> I s -> body x s = (do! g x in ret false) s) ->
  (forall x s a s', x ∈ l -> I s -> g x s = Ok a s' -> I s') ->
  I s -> zlookup (gets2c s) sms = Some i -> group cs (i + 1) = Some l ->
  for_children getc gets2c sms body s = forM l g s.
Proof.
  intros HI Hb Hg Hs Hi Hgr. unfold for_children, bind, vget, gets. rewrite Hi.
  apply (children_loop_forM getc body g cs I l); [done..|].
  rewrite (HI s Hs). apply group_length in Hgr. lia.
Qed.
