(* ===== verification/SlotSpec.v ===== *)
(** * SlotSpec: the table of outgoing transitions

    run_simulation sorts the transitions by the state they leave, with a counting
    table; the two nested loops it falls back to without memory are the reference
    definition. The theorems: both build the same table, and a walk from the start
    of a state's group to -1 meets exactly the transitions that leave the state. *)

From S2P Require Import Prelude MachineInt Ast ExecCtx ExecLoop SimLoop.

(** ** The transitions that leave a state, from position [j] on *)

Fixpoint outgoing (j : Z) (ts : list transition_t) (s : Z) : list Z :=
  match ts with
  | [] => []
  | t :: ts' => (if from t =? s then [j] else []) ++ outgoing (j + 1) ts' s
  end.

Lemma outgoing_imap ts s j :
  s <> 0 ->
  outgoing (Z.of_nat j) ts s =
  map (fun p => Z.of_nat p.1)
    (filter (fun p => ~ from p.2 = 0 /\ from p.2 = s) (imap (fun k t => ((j + k)%nat, t)) ts)).
Proof.
  intros Hs. revert j. induction ts as [|t ts IH]; intros j; [done|].
  cbn [outgoing imap]. replace (Z.of_nat j + 1) with (Z.of_nat (S j)) by lia. rewrite IH.
  rewrite filter_cons. cbn [fst snd].
  assert (Himap : imap ((fun k t => ((j + k)%nat, t)) ∘ S) ts = imap (fun k t => ((S j + k)%nat, t)) ts).
  { apply imap_ext. intros. cbn. f_equal. lia. }
  rewrite Himap. destruct (Z.eqb_spec (from t) s) as [->|Hne].
  - rewrite decide_True by done. cbn. by replace (j + 0)%nat with j by lia.
  - rewrite decide_False by tauto. done.
Qed.

Lemma slots_of_state_outgoing ts s :
  slots_of_state ts s = if s =? 0 then [] else outgoing 0 ts s.
Proof.
  unfold slots_of_state. destruct (Z.eqb_spec s 0) as [->|Hs].
  - assert (Hn : forall l : list (nat * transition_t), filter (fun p => ~ from p.2 = 0 /\ from p.2 = 0) l = []).
    { induction l as [|p l IH]; [done|]. rewrite filter_cons, decide_False by tauto. done. }
    by rewrite Hn.
  - change 0 with (Z.of_nat 0). by rewrite outgoing_imap by done.
Qed.

Lemma outgoing_at ts s j i :
  i ∈ outgoing j ts s <-> exists t, zlookup ts (i - j) = Some t /\ from t = s.
Proof.
  revert j. induction ts as [|t ts IH]; intros j; cbn.
  - rewrite elem_of_nil. split; [done|]. intros (t & Ht & _).
    apply zlookup_Some in Ht. cbn in Ht. lia.
  - rewrite elem_of_app, IH.
    assert (Hz : zlookup (t :: ts) (i - j) = if i =? j then Some t else zlookup ts (i - (j + 1))).
    { unfold zlookup. destruct (Z.eqb_spec i j) as [->|Hne].
      - by replace (j - j) with 0 by lia.
      - case_ifs; zbool; try lia; try done.
        replace (Z.to_nat (i - j)) with (S (Z.to_nat (i - (j + 1)))) by lia. done. }
    rewrite Hz. split.
    + intros [Hi|(t' & Ht' & <-)].
      * destruct (Z.eqb_spec (from t) s); [|by apply elem_of_nil in Hi].
        apply list_elem_of_singleton in Hi as ->. rewrite Z.eqb_refl. eauto.
      * apply zlookup_Some in Ht' as Hb. destruct (Z.eqb_spec i j); [lia|]. eauto.
    + intros (t' & Ht' & <-). destruct (Z.eqb_spec i j) as [->|].
      * left. injection Ht' as <-. rewrite Z.eqb_refl. by left.
      * right. eauto.
Qed.

(** ** Counting *)

Definition well_formed (n : Z) (ts : list transition_t) : Prop :=
  0 <= n /\ Forall (fun t => 0 <= from t <= n) ts.

Lemma count_outgoing_spec n ts v :
  Forall (fun t => 0 <= from t <= n) ts -> Z.of_nat (length v) = n + 1 ->
  exists v', count_outgoing ts v = Some v' /\ length v' = length v /\
    forall s, zlookup v' s =
      (fun k => if s =? 0 then k else k + Z.of_nat (length (outgoing 0 ts s))) <$> zlookup v s.
Proof.
  assert (Hj : forall s ts j, length (outgoing j ts s) = length (outgoing 0 ts s)).
  { intros s us. induction us as [|u us IH]; intros j; [done|]. cbn. rewrite !length_app.
    rewrite (IH (j + 1)), (IH (0 + 1)). by destruct (_ =? _). }
  intros Hts. revert v. induction Hts as [|t ts Ht Hts IH]; intros v Hv.
  { exists v. split; [done|]. split; [done|]. intros s. cbn.
    destruct (zlookup v s); cbn; [|done]. f_equal. case_ifs; lia. }
  cbn [count_outgoing]. destruct (Z.eqb_spec (from t) 0) as [E|E].
  { destruct (IH v Hv) as (v' & Hc & Hl & Hs). exists v'. split; [done|]. split; [done|].
    intros s. rewrite Hs. destruct (zlookup v s); [|done]. cbn. f_equal.
    destruct (Z.eqb_spec s 0); [done|]. rewrite length_app, (Hj s ts (0 + 1)).
    destruct (Z.eqb_spec (from t) s); [lia|done]. }
  destruct (zlookup v (from t)) as [k|] eqn:Hk.
  2:{ unfold zlookup in Hk. case_ifs; zbool; [lia|]. apply lookup_ge_None in Hk. lia. }
  cbn. rewrite zinsert_Some by lia. cbn.
  destruct (IH (<[Z.to_nat (from t) := k + 1]> v)) as (v' & Hc & Hl & Hs).
  { by rewrite length_insert. }
  exists v'. split; [done|]. split; [by rewrite Hl, length_insert|].
  intros s. rewrite Hs. destruct (Z.eqb_spec (from t) s) as [<-|Hne].
  - rewrite zlookup_insert_eq by lia. rewrite Hk. cbn [fmap option_fmap option_map outgoing].
    f_equal. destruct (Z.eqb_spec (from t) 0); [done|].
    rewrite length_app, (Hj _ ts (0 + 1)). cbn. lia.
  - rewrite zlookup_insert_ne by lia. destruct (zlookup v s); [|done].
    cbn [fmap option_fmap option_map outgoing]. f_equal.
    destruct (Z.eqb_spec s 0); [done|].
    destruct (Z.eqb_spec (from t) s); [done|]. by rewrite length_app, (Hj _ ts (0 + 1)).
Qed.

Lemma max_outgoing_ge v : forall m, m <= foldl (fun m e => if m <? e then e else m) m v.
Proof.
  induction v as [|e v IH]; intros m; cbn; [lia|].
  etransitivity; [|apply IH]. case_ifs; zbool; lia.
Qed.

Lemma max_outgoing_upper v e : e ∈ v -> e <= max_outgoing v.
Proof.
  unfold max_outgoing. generalize 0. induction v as [|x v IH]; intros m He; [by apply elem_of_nil in He|].
  apply elem_of_cons in He as [->|He]; cbn; [|by apply IH].
  etransitivity; [|apply max_outgoing_ge]. case_ifs; zbool; lia.
Qed.

Lemma max_outgoing_reached v : max_outgoing v = 0 \/ max_outgoing v ∈ v.
Proof.
  unfold max_outgoing. assert (H : forall m, foldl (fun m e => if m <? e then e else m) m v = m \/
    foldl (fun m e => if m <? e then e else m) m v ∈ v); [|apply H].
  induction v as [|x v IH]; intros m; cbn; [by left|].
  destruct (IH (if m <? x then x else m)) as [E|Hin]; [|right; by right].
  rewrite E. case_ifs; [right; by left|by left].
Qed.

(** ** Rows *)

Section rows.
Context (n m : Z) (Hm : 0 <= m).

Definition row_ok (vv : list Z) (s : Z) (l : list Z) : Prop :=
  zlookup vv ((s - 1) * (m + 1)) = Some (Z.of_nat (length l)) /\
  forall (k : nat) x, l !! k = Some x -> zlookup vv ((s - 1) * (m + 1) + 1 + Z.of_nat k) = Some x.

(** The rows of different states do not meet. *)
Lemma rows_disjoint s s' k k' :
  0 <= k <= m -> 0 <= k' <= m ->
  (s - 1) * (m + 1) + k = (s' - 1) * (m + 1) + k' -> s = s'.
Proof. intros. nia. Qed.

Lemma row_ok_insert vv s l j vv1 vv2 :
  row_ok vv s l -> Z.of_nat (length l) < m -> 1 <= s ->
  zinsert vv ((s - 1) * (m + 1)) (Z.of_nat (length l) + 1) = Some vv1 ->
  zinsert vv1 ((s - 1) * (m + 1) + (Z.of_nat (length l) + 1)) j = Some vv2 ->
  row_ok vv2 s (l ++ [j]) /\
  forall s' l', s' <> s -> Z.of_nat (length l') <= m -> row_ok vv s' l' -> row_ok vv2 s' l'.
Proof.
  unfold zinsert. intros [Hk Hl] Hlen Hs H1 H2.
  destruct (in_bounds vv _ 1) eqn:Hb1 in H1; [|done]. injection H1 as <-.
  destruct (in_bounds _ _ 1) eqn:Hb2 in H2; [|done]. injection H2 as <-.
  apply in_bounds_spec in Hb1, Hb2. rewrite length_insert in Hb2.
  set (b := (s - 1) * (m + 1)) in *.
  assert (Hat : forall i, i <> b -> i <> b + (Z.of_nat (length l) + 1) ->
    zlookup (<[Z.to_nat (b + (Z.of_nat (length l) + 1)):=j]>
              (<[Z.to_nat b:=Z.of_nat (length l) + 1]> vv)) i = zlookup vv i).
  { intros i Hi1 Hi2. by rewrite !zlookup_insert_ne by lia. }
  split; [split|].
  - rewrite zlookup_insert_ne, zlookup_insert_eq by lia. rewrite length_app. cbn. f_equal. lia.
  - intros k x Hx. destruct (decide (k = length l)) as [->|Hne].
    + rewrite lookup_app_r, Nat.sub_diag in Hx by lia. injection Hx as <-.
      replace ((s - 1) * (m + 1) + 1 + _) with (b + (Z.of_nat (length l) + 1)) by (unfold b; lia).
      apply zlookup_insert_eq. rewrite length_insert. lia.
    + assert (k < length l)%nat.
      { apply lookup_lt_Some in Hx. rewrite length_app in Hx. cbn in Hx. lia. }
      rewrite lookup_app_l in Hx by lia. rewrite Hat by (unfold b; lia). by apply Hl.
  - intros s' l' Hne Hlen' [Hk' Hl']. split.
    + rewrite Hat; [done| |]; intros E; apply Hne.
      * eapply (rows_disjoint s' s 0 0); unfold b in *; lia.
      * eapply (rows_disjoint s' s 0 (Z.of_nat (length l) + 1)); unfold b in *; lia.
    + intros k x Hx. apply lookup_lt_Some in Hx as Hkl.
      rewrite Hat; [by apply Hl'| |]; intros E; apply Hne.
      * eapply (rows_disjoint s' s (1 + Z.of_nat k) 0); unfold b in *; lia.
      * eapply (rows_disjoint s' s (1 + Z.of_nat k) (Z.of_nat (length l) + 1)); unfold b in *; lia.
Qed.

Lemma fill_rows_spec ts j vv (L : Z -> list Z) :
  Forall (fun t => 0 <= from t <= n) ts ->
  Z.of_nat (length vv) = (m + 1) * n ->
  (forall s, 1 <= s <= n -> row_ok vv s (L s)) ->
  (forall s, 1 <= s <= n -> Z.of_nat (length (L s ++ outgoing j ts s)) <= m) ->
  exists vv', fill_rows m ts j vv = Some vv' /\ length vv' = length vv /\
    forall s, 1 <= s <= n -> row_ok vv' s (L s ++ outgoing j ts s).
Proof.
  intros Hts. revert j vv L. induction Hts as [|t ts Ht Hts IH]; intros j vv L Hvv HL Hlen.
  { exists vv. split; [done|]. split; [done|]. intros s Hs. cbn. rewrite app_nil_r. auto. }
  cbn [fill_rows]. destruct (Z.eqb_spec (from t) 0) as [E|E].
  { assert (Hs0 : forall s, 1 <= s <= n -> outgoing j (t :: ts) s = outgoing (j + 1) ts s).
    { intros s Hs. cbn. destruct (Z.eqb_spec (from t) s); [lia|done]. }
    destruct (IH (j + 1) vv L) as (vv' & Hf & Hl & Hr); [done|done| |].
    { intros s Hs. rewrite <- Hs0 by done. auto. }
    exists vv'. split; [done|]. split; [done|]. intros s Hs. rewrite Hs0 by done. auto. }
  pose proof (HL (from t) ltac:(lia)) as Hrow. destruct Hrow as [Hk _]. rewrite Hk. cbn.
  assert (Hlt : Z.of_nat (length (L (from t))) < m).
  { specialize (Hlen (from t) ltac:(lia)). cbn in Hlen. rewrite Z.eqb_refl, !length_app in Hlen.
    cbn in Hlen. lia. }
  assert (Hb : 0 <= (from t - 1) * (m + 1) /\ (from t - 1) * (m + 1) + m < (m + 1) * n) by nia.
  rewrite zinsert_Some by lia. cbn. rewrite zinsert_Some by (rewrite length_insert; lia). cbn.
  set (vv2 := <[_ := j]> _).
  destruct (row_ok_insert vv (from t) (L (from t)) j (<[Z.to_nat ((from t - 1) * (m + 1)):=Z.of_nat (length (L (from t))) + 1]> vv) vv2)
    as [Hsame Hother]; [apply HL; lia|done|lia|by rewrite zinsert_Some by lia| |].
  { by rewrite zinsert_Some by (rewrite length_insert; lia). }
  destruct (IH (j + 1) vv2 (fun s => L s ++ (if from t =? s then [j] else []))) as (vv' & Hf & Hl & Hr).
  - unfold vv2. by rewrite !length_insert.
  - intros s Hs. destruct (Z.eqb_spec (from t) s) as [<-|Hne]; [done|].
    rewrite app_nil_r. apply Hother; [done| |auto].
    specialize (Hlen s Hs). rewrite length_app in Hlen. lia.
  - intros s Hs. rewrite <- app_assoc. by apply Hlen.
  - exists vv'. split; [done|]. split; [unfold vv2 in Hl; by rewrite !length_insert in Hl|].
    intros s Hs. cbn [outgoing]. rewrite app_assoc. by apply Hr.
Qed.

Lemma row_ok_slice vv s l :
  row_ok vv s l -> 1 <= s -> Z.of_nat (length l) <= m ->
  (s - 1) * (m + 1) + m < Z.of_nat (length vv) ->
  slice_get vv ((s - 1) * (m + 1) + 1) (length l) = Some l.
Proof.
  intros [_ Hl] Hs Hlen Hb. rewrite slice_get_Some by nia. f_equal.
  apply list_eq. intros i. destruct (decide (i < length l)%nat) as [Hi|Hi].
  - rewrite lookup_take_lt, lookup_drop by done.
    destruct (lookup_lt_is_Some_2 l i Hi) as [x Hx]. rewrite Hx.
    specialize (Hl i x Hx). unfold zlookup in Hl. case_ifs; zbool; [done|].
    rewrite <- Hl. f_equal. nia.
  - rewrite lookup_take_ge by lia. symmetry. apply lookup_ge_None. lia.
Qed.

Lemma collect_rows_spec ts vv : forall states starts slots,
  Z.of_nat (length vv) = (m + 1) * n ->
  (forall s, 1 <= s <= n -> row_ok vv s (outgoing 0 ts s) /\ Z.of_nat (length (outgoing 0 ts s)) <= m) ->
  Forall (fun s => 1 <= s <= n) states ->
  collect_rows m vv states starts slots = Some (slots_naive_loop ts states starts slots).
Proof.
  induction states as [|s states IH]; intros starts slots Hvv Hr Hs; [done|].
  apply Forall_cons in Hs as [Hs Hss]. destruct (Hr s Hs) as [Hrow Hlen].
  cbn [collect_rows slots_naive_loop]. rewrite (proj1 Hrow). cbn.
  rewrite slots_of_state_outgoing. destruct (Z.eqb_spec s 0); [lia|].
  destruct (0 <? _) eqn:E; zbool.
  - rewrite Nat2Z.id, row_ok_slice by (done || nia). cbn. by rewrite IH.
  - assert (Hnil : outgoing 0 ts s = []) by (apply nil_length_inv; lia). rewrite Hnil.
    cbn. by rewrite IH.
Qed.
End rows.

(** ** The theorems *)

(** C29: The counting table and the nested loops build the same table of outgoing
    transitions: for states within bounds and a table whose size fits an int, the
    optimised construction stays inside its block and yields exactly what the
    reference construction yields. *)
Theorem slots_optimised_correct n ts :
  well_formed n ts ->
  (forall s, (Z.of_nat (length (slots_of_state ts s)) + 1) * n < 2 ^ 31) ->
  slots_optimised n ts = Some (slots_naive n ts).
Proof.
  intros [Hn Hts] Hsz. unfold slots_optimised.
  destruct (count_outgoing_spec n ts (replicate (Z.to_nat (n + 1)) 0)) as (v & Hc & Hvl & Hv); [done| |].
  { rewrite length_replicate. lia. }
  rewrite Hc. cbn. set (m := max_outgoing v).
  assert (Hm : 0 <= m) by apply (max_outgoing_ge v 0).
  assert (Hzero : forall s, 0 <= s <= n -> zlookup (replicate (Z.to_nat (n + 1)) 0) s = Some 0).
  { intros s Hs. unfold zlookup. case_ifs; zbool; [lia|]. rewrite lookup_replicate. split; [done|lia]. }
  assert (Hout : forall s, 1 <= s <= n -> Z.of_nat (length (outgoing 0 ts s)) <= m).
  { intros s Hs. apply max_outgoing_upper. specialize (Hv s). rewrite Hzero in Hv by lia.
    cbn in Hv. destruct (Z.eqb_spec s 0); [lia|]. rewrite Z.add_0_l in Hv.
    unfold zlookup in Hv. case_ifs; zbool; [done|]. by eapply list_elem_of_lookup_2. }
  assert (Hfit : (m + 1) * n < 2 ^ 31).
  { destruct (max_outgoing_reached v) as [E|Hin]; [change (m = 0) in E|change (m ∈ v) in Hin].
    - specialize (Hsz 0). rewrite slots_of_state_outgoing in Hsz. cbn [Z.eqb length] in Hsz. lia.
    - apply list_elem_of_lookup in Hin as [i Hi]. specialize (Hv (Z.of_nat i)).
      rewrite zlookup_of_nat, Hi in Hv.
      assert (Z.of_nat i <= n).
      { apply lookup_lt_Some in Hi. rewrite Hvl, length_replicate in Hi. lia. }
      rewrite Hzero in Hv by lia. cbn in Hv. injection Hv as Hv.
      specialize (Hsz (Z.of_nat i)). rewrite slots_of_state_outgoing in Hsz.
      rewrite Hv. destruct (Z.eqb_spec (Z.of_nat i) 0); cbn [length] in Hsz; lia. }
  assert (Hr : in_range I32 ((m + 1) * n) = true).
  { assert (0 <= (m + 1) * n) by nia. unfold in_range, fits_s. cbn [is_signed].
    change (2 ^ (bits I32 - 1)) with (2 ^ 31). apply andb_true_iff.
    split; [apply Z.leb_le|apply Z.ltb_lt]; lia. }
  rewrite Hr.
  destruct (fill_rows_spec n m Hm ts 0 (replicate (Z.to_nat ((m + 1) * n)) 0) (fun _ => []))
    as (vv & Hf & Hl & Hrow); [done| | |done|].
  { rewrite length_replicate. nia. }
  { intros s Hs. split; [|done]. cbn. unfold zlookup. case_ifs; zbool; [nia|].
    rewrite lookup_replicate. split; [done|]. apply Z2Nat.inj_lt; nia. }
  rewrite Hf. cbn. rewrite (collect_rows_spec n m Hm ts vv); [..|].
  - unfold slots_naive. rewrite (zrange_cons 0) by lia. cbn [slots_naive_loop].
    rewrite slots_of_state_outgoing. done.
  - rewrite Hl, length_replicate. nia.
  - intros s Hs. specialize (Hrow s Hs). auto.
  - apply Forall_forall. intros s Hs%elem_of_zrange. lia.
Qed.

Definition three_states : list transition_t :=
  let t f g := mkTransition 0 1 1 f g 0 (-1) true false 0 0 no_action no_action no_action "" in
  [transition_default; t 2 3; t 1 2; t 2 1; t 3 3].

Lemma slots_optimised_correct_witness :
  well_formed 3 three_states /\
  slots_optimised 3 three_states = Some ([0; 1; 3; 6], [-1; 2; -1; 1; 3; -1; 4; -1]).
Proof.
  assert (Hw : well_formed 3 three_states).
  { split; [lia|]. repeat constructor; cbn; lia. }
  split; [exact Hw|].
  rewrite (slots_optimised_correct 3 three_states Hw); [reflexivity|].
  intros s. assert (length (slots_of_state three_states s) <= 5)%nat; [|lia].
  unfold slots_of_state. rewrite length_map. etransitivity; [apply length_filter|]. done.
Defined.

Lemma outgoing_sorted s : forall us j,
  StronglySorted Z.lt (outgoing j us s) /\ Forall (Z.le j) (outgoing j us s).
Proof.
  induction us as [|u us IH]; intros j; cbn; [split; constructor|].
  destruct (IH (j + 1)) as [Hss Hge]. destruct (_ =? _); cbn.
  - split; [constructor; [done|]|constructor; [lia|]]; (eapply Forall_impl; [exact Hge|]; cbn; lia).
  - split; [done|]. eapply Forall_impl; [exact Hge|]; cbn; lia.
Qed.

Lemma outgoing_NoDup s us j : NoDup (outgoing j us s).
Proof.
  destruct (outgoing_sorted s us j) as [Hs _]. induction Hs as [|x l _ IH Hx]; constructor; [|done].
  intros Hin. rewrite Forall_forall in Hx. specialize (Hx x Hin). lia.
Qed.

Lemma slots_naive_loop_shape ts : forall states starts slots,
  exists ss more, slots_naive_loop ts states starts slots = (starts ++ ss, slots ++ more) /\
    length ss = length states /\
    forall (i : nat) s, states !! i = Some s ->
      exists k, ss !! i = Some k /\ Z.of_nat (length slots) <= k /\
        slice_get (slots ++ more) k (length (slots_of_state ts s) + 1)
          = Some (slots_of_state ts s ++ [-1]).
Proof.
  induction states as [|s states IH]; intros starts slots.
  { exists [], []. rewrite !app_nil_r. split; [done|]. split; [done|]. intros i s Hs. done. }
  cbn [slots_naive_loop].
  destruct (IH (starts ++ [Z.of_nat (length slots)]) (slots ++ slots_of_state ts s ++ [-1]))
    as (ss & more & Heq & Hlen & Hat).
  exists (Z.of_nat (length slots) :: ss), ((slots_of_state ts s ++ [-1]) ++ more).
  rewrite Heq. split; [by rewrite <- !app_assoc|]. split; [cbn; lia|].
  intros [|i] s' Hs'.
  - injection Hs' as <-. exists (Z.of_nat (length slots)). split; [done|]. split; [lia|].
    replace (length (slots_of_state ts s) + 1)%nat with (length (slots_of_state ts s ++ [-1]))
      by (rewrite length_app; cbn; lia).
    apply slice_get_app.
  - destruct (Hat i s' Hs') as (k & Hk & Hle & Hsl). exists k. split; [done|].
    rewrite !length_app in Hle. split; [lia|]. by rewrite !app_assoc in *.
Qed.

Lemma slots_naive_lookup n ts s :
  0 <= s <= n ->
  exists k, zlookup (slots_naive n ts).1 s = Some k /\ 0 <= k /\
    slice_get (slots_naive n ts).2 k (length (slots_of_state ts s) + 1)
      = Some (slots_of_state ts s ++ [-1]).
Proof.
  intros Hs. unfold slots_naive.
  destruct (slots_naive_loop_shape ts (zrange 0 (n + 1)) [] []) as (ss & more & Heq & Hlen & Hat).
  destruct (Hat (Z.to_nat s) s) as (k & Hk & Hk0 & Hsl).
  { rewrite zrange_lookup, decide_True by lia. f_equal. lia. }
  exists k. rewrite Heq. cbn [fst snd app length] in *. split; [|split; [lia|done]].
  unfold zlookup. case_ifs; zbool; [lia|]. done.
Qed.

(** The table is an index of the transitions by source state: every state from 0
    to the number of states has a group, read up to its -1 the group lists
    transitions in increasing order without repetition, and a transition is in the
    group of a state exactly when the state is not 0 and the transition leaves it. *)
Theorem slots_index n ts s :
  0 <= s <= n ->
  exists k, zlookup (slots_naive n ts).1 s = Some k /\
    slice_get (slots_naive n ts).2 k (length (slots_of_state ts s) + 1)
      = Some (slots_of_state ts s ++ [-1]) /\
    StronglySorted Z.lt (slots_of_state ts s) /\
    forall i, i ∈ slots_of_state ts s <->
      s <> 0 /\ exists t, zlookup ts i = Some t /\ from t = s.
Proof.
  intros Hs. destruct (slots_naive_lookup n ts s Hs) as (k & Hk & _ & Hsl).
  exists k. split; [done|]. split; [done|].
  rewrite slots_of_state_outgoing. destruct (Z.eqb_spec s 0) as [->|Hne].
  { split; [constructor|]. intros i. rewrite elem_of_nil. tauto. }
  split.
  - apply outgoing_sorted.
  - intros i. rewrite outgoing_at, Z.sub_0_r. tauto.
Qed.

Lemma slots_index_witness :
  0 <= 2 <= 3 /\
  exists k, zlookup (slots_naive 3 three_states).1 2 = Some k /\
    slice_get (slots_naive 3 three_states).2 k 3 = Some [1; 3; -1].
Proof.
  split; [lia|]. destruct (slots_index 3 three_states 2 ltac:(lia)) as (k & Hk & Hsl & _).
  exists k. split; [exact Hk|exact Hsl].
Defined.
