(* ===== verification/EnterExit.v ===== *)
(** * EnterExit: entering and leaving nested state machines

    do_enter and do_exit walk the containment relation with VISITED flags in the
    tables. The reference definition is a pure depth-first search that lists what is
    marked and whose handler is called; the theorems: the code performs exactly that
    list, and in it every state machine is called at most once, after everything it
    contains, and only when it is entered (or left). *)

From S2P Require Import Prelude MachineInt VMEnv VMTable Ast ExecCtx ExecLoop ExecCtxSpec.

(** ** The search *)

Inductive step := Mark (s : Z) | Call (s : Z).

#[export] Instance step_eq_dec : EqDecision step.
Proof. solve_decision. Defined.

Definition called (st : step) : option Z := match st with Call s => Some s | Mark _ => None end.
Definition marked (st : step) : option Z := match st with Mark s => Some s | Call _ => None end.

Fixpoint visit_all (f : gset Z -> Z -> gset Z * list step) (vis : gset Z) (l : list Z) : gset Z * list step :=
  match l with
  | [] => (vis, [])
  | x :: l' =>
    let r := f vis x in
    let r' := visit_all f r.1 l' in
    (r'.1, r.2 ++ r'.2)
  end.

Section search.
Context (subs : Z -> list Z).      (* the state machines directly inside *)
Context (descend : Z -> bool).     (* is the machine present? *)
Context (calls : Z -> bool).       (* does its handler run? *)

Fixpoint dfs (fuel : nat) (vis : gset Z) (s : Z) : gset Z * list step :=
  match fuel with
  | O => (vis, [])
  | S fuel' =>
    if decide (s ∈ vis) then (vis, [])
    else if descend s then
      let r := visit_all (dfs fuel') ({[s]} ∪ vis) (subs s) in
      (r.1, Mark s :: r.2 ++ (if calls s then [Call s] else []))
    else ({[s]} ∪ vis, [Mark s])
  end.

(** What the search marks. *)
Definition marks (l : list step) : gset Z := list_to_set (omap marked l).
#[local] Arguments marks : simpl never.

Lemma elem_of_marks s (l : list step) : s ∈ marks l <-> Mark s ∈ l.
Proof.
  unfold marks. rewrite elem_of_list_to_set, list_elem_of_omap.
  split; [intros ([]&?&?); naive_solver|eauto].
Qed.

Lemma elem_of_called s (l : list step) : s ∈ omap called l <-> Call s ∈ l.
Proof. rewrite list_elem_of_omap. split; [intros ([]&?&?); naive_solver|eauto]. Qed.

Lemma visit_all_marks f l : forall vis,
  (forall vis x, (f vis x).1 ≡ vis ∪ marks (f vis x).2) ->
  (visit_all f vis l).1 ≡ vis ∪ marks (visit_all f vis l).2.
Proof.
  induction l as [|x l IH]; intros vis Hf; cbn; intros y; rewrite elem_of_union, elem_of_marks.
  - rewrite elem_of_nil. tauto.
  - rewrite (IH _ Hf y), elem_of_union, (Hf vis x y), elem_of_union, !elem_of_marks, elem_of_app.
    tauto.
Qed.

Lemma dfs_marks fuel : forall vis s, (dfs fuel vis s).1 ≡ vis ∪ marks (dfs fuel vis s).2.
Proof.
  induction fuel as [|fuel IH]; intros vis s; cbn; intros y; rewrite elem_of_union, elem_of_marks.
  { rewrite elem_of_nil. tauto. }
  case_decide; [cbn; rewrite elem_of_nil; tauto|]. destruct (descend s); cbn.
  - rewrite (visit_all_marks _ _ _ IH y), elem_of_cons, elem_of_app, !elem_of_union,
      elem_of_singleton, elem_of_marks.
    destruct (calls s); rewrite ?elem_of_cons, ?elem_of_nil; intuition congruence.
  - rewrite elem_of_union, elem_of_singleton, list_elem_of_singleton. intuition congruence.
Qed.

(** ** Properties of the search *)

(** The machines are nested, so the depth of the search is bounded. *)
Context (rank : Z -> nat) (Hrank : forall s x, x ∈ subs s -> (rank x < rank s)%nat).

(** From a machine that is present to one directly inside. *)
Definition inside (s x : Z) : Prop := descend s = true /\ x ∈ subs s.

(** The steps [l] of a search that started with [vis] visited. *)
Record good (vis : gset Z) (l : list step) : Prop := {
  g_nodup : NoDup (omap called l);
  g_fresh x : Mark x ∈ l -> x ∉ vis;
  g_called x : Call x ∈ l -> Mark x ∈ l /\ descend x = true /\ calls x = true;
  g_complete x : Mark x ∈ l -> descend x = true -> calls x = true -> Call x ∈ l;
  g_closed y x : Mark y ∈ l -> inside y x -> x ∈ vis \/ Mark x ∈ l;
  g_order l1 y l2 x : l = l1 ++ Call y :: l2 -> inside y x -> Call x ∈ l -> Call x ∈ l1
}.

Lemma good_nil vis : good vis [].
Proof.
  split; [constructor|intros *; rewrite elem_of_nil; done..|].
  intros l1 y l2 x H. by destruct l1.
Qed.

Lemma good_app vis vis' la lb :
  good vis la -> vis' ≡ vis ∪ marks la -> good vis' lb -> good vis (la ++ lb).
Proof.
  intros [A1 A2 A3 A4 A5 A6] Hv [B1 B2 B3 B4 B5 B6].
  assert (Hdisj : forall x, Mark x ∈ lb -> Mark x ∉ la).
  { intros x Hx Hla. apply (B2 x Hx). rewrite Hv, elem_of_union, elem_of_marks. tauto. }
  split.
  - rewrite omap_app. apply NoDup_app. split; [done|]. split; [|done].
    intros x Hxa Hxb. rewrite elem_of_called in Hxa, Hxb. eapply Hdisj; [by apply B3|by apply A3].
  - intros x [Hx|Hx]%elem_of_app; [auto|]. intros Hin. apply (B2 x Hx). rewrite Hv. set_solver.
  - intros x. rewrite !elem_of_app. intros [Hx|Hx]; [apply A3 in Hx|apply B3 in Hx]; tauto.
  - intros x. rewrite !elem_of_app. intros [Hx|Hx]; auto.
  - intros y x [Hy|Hy]%elem_of_app Hin; rewrite elem_of_app.
    + destruct (A5 y x Hy Hin); tauto.
    + destruct (B5 y x Hy Hin) as [Hx|Hx]; [|tauto].
      rewrite Hv, elem_of_union, elem_of_marks in Hx. tauto.
  - intros l1 y l2 x Heq Hin Hx.
    apply app_eq_app in Heq as (k & [[-> Heq]|[-> Heq]]).
    + destruct k as [|z k]; cbn in Heq.
      * subst lb. rewrite app_nil_r in *. rewrite elem_of_app in Hx. destruct Hx as [Hx|Hx]; [done|].
        exfalso. eapply elem_of_nil. apply (B6 [] y l2 x eq_refl Hin Hx).
      * injection Heq as <- ->. rewrite elem_of_app in Hx. destruct Hx as [Hx|Hx].
        -- by apply (A6 l1 y k x).
        -- exfalso. assert (Hy : Call y ∈ l1 ++ Call y :: k) by set_solver.
           destruct (A5 y x (proj1 (A3 y Hy)) Hin) as [Hv'|Hm].
           ++ apply (B2 x (proj1 (B3 x Hx))). rewrite Hv. set_solver.
           ++ by apply (Hdisj x (proj1 (B3 x Hx))).
    + subst lb. rewrite elem_of_app in Hx |- *. destruct Hx as [Hx|Hx]; [by left|]. right.
      by apply (B6 k y l2 x).
Qed.

(** The steps stay within what is reachable from the roots. *)
Definition within (roots : list Z) (l : list step) : Prop :=
  forall x, Mark x ∈ l -> exists r, r ∈ roots /\ rtc inside r x.

Lemma visit_all_good f : forall (l : list Z) (vis : gset Z),
  (forall vis x, (f vis x).1 ≡ vis ∪ marks (f vis x).2) ->
  (forall vis x, x ∈ l -> good vis (f vis x).2 /\ (x ∈ vis \/ Mark x ∈ (f vis x).2) /\
     within [x] (f vis x).2) ->
  good vis (visit_all f vis l).2 /\
  (forall x, x ∈ l -> x ∈ vis \/ Mark x ∈ (visit_all f vis l).2) /\
  within l (visit_all f vis l).2.
Proof.
  induction l as [|x l IH]; intros vis Hm Hf; cbn.
  { split; [apply good_nil|]. split; intros y; by rewrite elem_of_nil. }
  destruct (Hf vis x) as (Hg & Hx & Hw); [by left|].
  destruct (IH (f vis x).1 Hm) as (Hg' & Hl & Hw'); [intros; apply Hf; by right|].
  split; [by apply (good_app _ _ _ _ Hg (Hm vis x) Hg')|]. split.
  - intros y [->|Hy]%elem_of_cons; rewrite elem_of_app; [tauto|].
    destruct (Hl y Hy) as [Hy'|Hy']; [|tauto].
    rewrite Hm, elem_of_union, elem_of_marks in Hy'. tauto.
  - intros y [Hy|Hy]%elem_of_app.
    + destruct (Hw y Hy) as (r & ->%list_elem_of_singleton & Hr). exists x. split; [by left|done].
    + destruct (Hw' y Hy) as (r & Hr & Hrt). exists r. split; [by right|done].
Qed.

Lemma rank_rtc s x : rtc inside s x -> (rank x <= rank s)%nat.
Proof. induction 1 as [|a b c [_ Hin%Hrank] _ IH]; lia. Qed.

Lemma dfs_good fuel : forall vis s, (rank s < fuel)%nat ->
  good vis (dfs fuel vis s).2 /\ (s ∈ vis \/ Mark s ∈ (dfs fuel vis s).2) /\
  within [s] (dfs fuel vis s).2.
Proof.
  induction fuel as [|fuel IH]; intros vis s Hs; [lia|]. cbn. case_decide as Hv; cbn.
  { split; [apply good_nil|]. split; [by left|]. intros x Hx. by apply elem_of_nil in Hx. }
  destruct (descend s) eqn:Ed; cbn.
  2:{ split; [|split; [right; by left|]].
      - split; [constructor|intros *; rewrite list_elem_of_singleton..|].
        + by intros [= ->].
        + done.
        + intros [= ->]. congruence.
        + intros [= ->] [? _]. congruence.
        + intros l1 y l2 x H. destruct l1 as [|? [|]]; by discriminate H.
      - intros x [= ->]%list_elem_of_singleton. exists s. split; [by left|done]. }
  destruct (visit_all_good (dfs fuel) (subs s) ({[s]} ∪ vis) (dfs_marks fuel)) as (Hg & Hl & Hw).
  { intros vis' x Hx. apply IH. apply Hrank in Hx. lia. }
  set (r := (visit_all _ _ _).2) in *.
  assert (Hrs : forall x, Mark x ∈ r -> x <> s /\ (rank x < rank s)%nat).
  { intros x Hx. split; [intros ->; apply (g_fresh _ _ Hg s Hx); set_solver|].
    destruct (Hw x Hx) as (y & Hy%Hrank & Hr%rank_rtc). lia. }
  assert (Hnin : Call s ∉ r). { intros Hc%Hg. by destruct (Hrs s (proj1 Hc)). }
  split; [|split; [right; by left|]].
  - destruct Hg as [G1 G2 G3 G4 G5 G6]. set (tl := if calls s then [Call s] else []).
    assert (Htl : forall st, st ∈ tl -> st = Call s /\ calls s = true).
    { unfold tl. intros st. destruct (calls s); rewrite ?list_elem_of_singleton, ?elem_of_nil; tauto. }
    split.
    + cbn. rewrite omap_app. apply NoDup_app. split; [done|]. split.
      * intros x Hx%elem_of_called Hx'%elem_of_called. apply Htl in Hx' as [[= ->] _]. done.
      * unfold tl. destruct (calls s); cbn; [apply NoDup_singleton|constructor].
    + intros x. rewrite elem_of_cons, elem_of_app. intros [[= ->]|[Hx|Hx]]; [done| |].
      * apply G2 in Hx. set_solver.
      * by apply Htl in Hx as [? _].
    + intros x. rewrite !elem_of_cons, !elem_of_app. intros [?|[Hx|Hx]]; [done| |].
      * apply G3 in Hx. tauto.
      * apply Htl in Hx as [[= ->] Hc]. tauto.
    + intros x. rewrite !elem_of_cons, !elem_of_app. intros [[= ->]|[Hx|Hx]] Hd Hc.
      * right. right. unfold tl. rewrite Hc. by left.
      * auto.
      * by apply Htl in Hx as [? _].
    + intros y x. rewrite !elem_of_cons, !elem_of_app. intros [[= ->]|[Hy|Hy]] Hin.
      * destruct (Hl x (proj2 Hin)) as [Hx|Hx]; [|tauto].
        apply elem_of_union in Hx as [->%elem_of_singleton|Hx]; tauto.
      * destruct (G5 y x Hy Hin) as [Hx|Hx]; [|tauto].
        apply elem_of_union in Hx as [->%elem_of_singleton|Hx]; tauto.
      * by apply Htl in Hy as [? _].
    + intros l1 y l2 x Heq Hin Hx. destruct l1 as [|st l1]; [done|].
      injection Heq as <- Heq. right.
      rewrite elem_of_cons, elem_of_app in Hx. destruct Hx as [?|Hx]; [done|].
      apply app_eq_app in Heq as (k & [[Hr Heq]|[-> Heq]]).
      * destruct k as [|z k]; cbn in Heq.
        -- rewrite app_nil_r in Hr. subst l1. destruct Hx as [Hx|Hx]; [done|].
           assert (Hy : Call y ∈ tl) by (rewrite <- Heq; by left).
           apply Htl in Hy as [[= ->] _]. apply Htl in Hx as [[= ->] _].
           exfalso. apply (Nat.lt_irrefl (rank s)), Hrank, Hin.
        -- injection Heq as <- Heq. destruct Hx as [Hx|Hx]; [by eapply G6|].
           apply Htl in Hx as [[= ->] _]. exfalso.
           assert (Hy : Call y ∈ r) by (rewrite Hr; set_solver).
           apply G3 in Hy as [Hy _]. apply Hrs in Hy as [_ Hy]. destruct Hin as [_ Hin%Hrank]. lia.
      * unfold tl in Heq. destruct (calls s) eqn:Ec; [|by destruct k].
        destruct k as [|z k]; cbn in Heq; [|injection Heq as _ Heq; by destruct k].
        injection Heq as <- _. rewrite app_nil_r.
        destruct Hx as [Hx|Hx]; [done|]. exfalso. apply Htl in Hx as [[= ->] _].
        apply (Nat.lt_irrefl (rank s)), Hrank, Hin.
  - intros x. rewrite elem_of_cons, elem_of_app. intros [[= ->]|[Hx|Hx]].
    + exists s. split; [by left|done].
    + destruct (Hw x Hx) as (y & Hy & Hr). exists s. split; [by left|].
      eapply rtc_l; [by split|done].
    + unfold r in Hx. destruct (calls s); [apply list_elem_of_singleton in Hx|apply elem_of_nil in Hx]; done.
Qed.

(** The whole search from a list of roots: each handler at most once, the handlers
    of the reachable machines that are present and have to be called, and inner
    machines first. *)
Definition trace (fuel : nat) (roots : list Z) : list step := (visit_all (dfs fuel) ∅ roots).2.

Lemma trace_spec fuel roots :
  Forall (fun r => rank r < fuel)%nat roots ->
  let order := omap called (trace fuel roots) in
  NoDup order /\
  (forall x, x ∈ order <->
     (exists r, r ∈ roots /\ rtc inside r x) /\ descend x = true /\ calls x = true) /\
  (forall o1 y o2 x, order = o1 ++ y :: o2 -> x ∈ subs y -> x ∈ order -> x ∈ o1).
Proof.
  intros Hroots order.
  destruct (visit_all_good (dfs fuel) roots ∅ (dfs_marks fuel)) as (Hg & Hl & Hw).
  { intros vis x Hx. apply dfs_good. by eapply Forall_forall in Hroots. }
  fold (trace fuel roots) in *.
  assert (Hreach : forall r x, rtc inside r x -> Mark r ∈ trace fuel roots -> Mark x ∈ trace fuel roots).
  { induction 1 as [|a b c Hin _ IH]; [done|]. intros Ha. apply IH.
    destruct (g_closed _ _ Hg a b Ha Hin) as [Hb|]; [by apply elem_of_empty in Hb|done]. }
  split; [apply Hg|]. split.
  - intros x. unfold order. rewrite elem_of_called. split.
    + intros Hx. destruct (g_called _ _ Hg x Hx) as (Hm & Hd & Hc). eauto.
    + intros ((r & Hr & Hrt) & Hd & Hc). apply (g_complete _ _ Hg); [|done|done].
      apply (Hreach r x Hrt). destruct (Hl r Hr) as [Hb|]; [by apply elem_of_empty in Hb|done].
  - intros o1 y o2 x Heq Hin Hx. unfold order in *.
    assert (Hsplit : exists l1 l2, trace fuel roots = l1 ++ Call y :: l2 /\ omap called l1 = o1).
    { clear -Heq. revert o1 Heq. induction (trace fuel roots) as [|st l IH]; intros o1 Heq; [by destruct o1|].
      destruct st as [z|z]; cbn in Heq.
      - destruct (IH o1 Heq) as (l1 & l2 & -> & <-). by exists (Mark z :: l1), l2.
      - destruct o1 as [|w o1]; injection Heq as -> Heq; [by exists [], l|].
        destruct (IH o1 Heq) as (l1 & l2 & -> & <-). by exists (Call w :: l1), l2. }
    destruct Hsplit as (l1 & l2 & Hl12 & <-). apply elem_of_called in Hx. apply elem_of_called.
    apply (g_order _ _ Hg l1 y l2 x Hl12); [|done]. split; [|done].
    apply (g_called _ _ Hg y). rewrite Hl12. set_solver.
Qed.
End search.

(** ** Well-formed tables *)

(** Every state has a group of children, which are states; containment is acyclic. *)
Record tables_ok (c : ectx) : Prop := {
  to_flags : flags_ok c;
  to_current : Z.of_nat (length (current_states c)) = number_of_states c + 1;
  to_kids s : is_state c s -> exists l, kids c s = Some l /\ Forall (is_state c) l
}.

(** The state machines directly inside [s]. *)
Definition sub_machines (c : ectx) (s : Z) : list Z :=
  filter (fun x => flag c x SM = true) (default [] (kids c s)).

(** A depth for every state, which bounds the nesting. *)
Definition nesting (c : ectx) (rank : Z -> nat) : Prop :=
  forall s x, x ∈ sub_machines c s -> (rank x < rank s)%nat.

(** The part of the tables that handlers leave alone: what they may do is run code,
    queue events and change what is outside. *)
Definition same_tables (c c' : ectx) : Prop :=
  number_of_states c' = number_of_states c /\ inf_vec c' = inf_vec c /\
  current_states c' = current_states c /\ children c' = children c /\
  state_to_children c' = state_to_children c /\ parent_vec c' = parent_vec c.

Lemma same_tables_visited c c' : flags_ok c -> same_tables c c' -> same_but_visited c c'.
Proof.
  intros Hok (Hn & Hi & ? & ? & ? & ?). split; try done.
  - unfold flags_ok in *. by rewrite Hn, Hi.
  - intros. unfold flag. by rewrite Hi.
Qed.

(** A handler of the host that returns has left the tables alone. *)
Class Calm (W : Type) `{Host W} : Prop := {
  calm_native f (s s' : smc W) : native f s = Ok tt s' -> same_tables (ctx s) (ctx s');
  calm_script p b (s s' : smc W) : execute_action_seq p b s = Ok tt s' -> same_tables (ctx s) (ctx s')
}.

Section refinement.
Context {W : Type} `{Target} `{Host W} `{!Calm W} (vm_rounds : nat).

(** [m] leaves the tables alone when it returns. *)
Definition calm {A} (m : M (smc W) A) : Prop :=
  forall s a s', m s = Ok a s' -> same_tables (ctx s) (ctx s').

Lemma calm_bind {A B} (m : M (smc W) A) (k : A -> M (smc W) B) :
  calm m -> (forall a, calm (k a)) -> calm (bind m k).
Proof.
  intros Hm Hk s b s'' (a & s' & H1 & H2)%bind_inv_Ok.
  apply Hm in H1. apply Hk in H2. unfold same_tables in *. intuition congruence.
Qed.

Lemma calm_refl {A} (m : M (smc W) A) : (forall s a s', m s = Ok a s' -> s' = s) -> calm m.
Proof. intros Hm s a s' ->%Hm. by repeat split. Qed.

Lemma calm_ret {A} (a : A) : calm (ret a).
Proof. apply calm_refl. by intros s b s' [= _ ->]. Qed.

Lemma calm_gets {A} (f : smc W -> A) : calm (gets f).
Proof. apply calm_refl. by intros s b s' [= _ ->]. Qed.

Lemma calm_of_option {A} (o : option A) : calm (of_option o).
Proof. destruct o; [apply calm_ret|done]. Qed.

Lemma calm_current_smp p : calm (modify (with_current_smp p)).
Proof. intros s a s' [= _ <-]. by repeat split. Qed.

Lemma calm_get_assoc_sm x : calm (on_ctx (get_assoc_sm x)).
Proof.
  intros s a s'. unfold on_ctx, zoom, get_assoc_sm, grow_and_get, bind, modify, vget.
  destruct (_ <? _); (destruct (zlookup _ _); [|done]); intros [= _ <-]; by repeat split.
Qed.

Lemma calm_vm_run loc : calm (vm_run vm_rounds loc).
Proof.
  apply calm_bind; [|intros; apply calm_ret]. intros s a s'. unfold on_vm, zoom.
  destruct (VMTable.run _ _ _ _); [|done..]. intros [= _ <-]. by repeat split.
Qed.

Lemma calm_table_entry f x : calm (table_entry (W:=W) f x).
Proof.
  apply calm_bind; [apply calm_gets|]. intros t. destruct (_ <? _); [apply calm_of_option|apply calm_ret].
Qed.

Lemma calm_script_action name : calm (run_script_action name).
Proof.
  apply calm_bind; [apply calm_gets|]. intros p.
  apply calm_bind; [apply calm_bind; [apply calm_gets|intros; apply calm_of_option]|].
  intros sm. destruct (find_action name sm) as [it|]; [|apply calm_ret].
  destruct (_ =? _); [apply calm_ret|]. intros s [] s'. apply calm_script.
Qed.

Lemma calm_native_fn f : calm (native f).
Proof. intros s [] s'. apply calm_native. Qed.

#[local] Hint Resolve calm_ret calm_gets calm_of_option calm_current_smp calm_get_assoc_sm
  calm_vm_run calm_table_entry calm_script_action calm_native_fn calm_bind : calm.

Lemma calm_on_enter x : calm (run_on_enter vm_rounds x).
Proof.
  unfold run_on_enter. repeat (apply calm_bind; [auto with calm|intros]).
  destruct (negb _); auto with calm. apply calm_bind; [auto with calm|intros].
  destruct (negb _); auto with calm.
Qed.

Lemma calm_on_exit x : calm (run_on_exit vm_rounds x).
Proof.
  unfold run_on_exit. repeat (apply calm_bind; [auto with calm|intros]).
  destruct (negb _); auto with calm. apply calm_bind; [auto with calm|intros].
  destruct (negb _); auto with calm.
Qed.

(** ** The walk of the code *)

(** The state during a walk: the tables of [c] except for the VISITED bits, which
    are the set [vis]. *)
Definition walking (c : ectx) (vis : gset Z) (s : smc W) : Prop :=
  same_but_visited c (ctx s) /\
  forall x, is_state c x -> flag (ctx s) x VISITED = bool_decide (x ∈ vis).

Context (c : ectx) (Hc : tables_ok c).
Context (run : Z -> M (smc W) unit) (Hrun : forall x, calm (run x)).

(** One step of the list. *)
Definition do_step (st : step) : M (smc W) unit :=
  match st with
  | Mark x => on_ctx (set_inf x VISITED true)
  | Call x => run x
  end.

Lemma walking_mark vis x s :
  walking c vis s -> is_state c x ->
  do_step (Mark x) s = Ok tt (with_ctx (inf_set x VISITED true (ctx s)) s) /\
  walking c ({[x]} ∪ vis) (with_ctx (inf_set x VISITED true (ctx s)) s).
Proof.
  intros [Hs Hv] Hx.
  assert (Hx' : is_state (ctx s) x) by (unfold is_state; by rewrite (sv_number _ _ Hs)).
  split.
  - cbn. unfold on_ctx, zoom. by rewrite set_inf_run by (done || apply Hs).
  - split; [by apply same_but_visited_inf_set|]. intros y Hy. cbn.
    rewrite flag_inf_set by (done || apply Hs). rewrite Z.eqb_refl, andb_true_r.
    destruct (Z.eqb_spec y x) as [->|Hne].
    + symmetry. apply bool_decide_eq_true. set_solver.
    + rewrite Hv by done. apply bool_decide_ext. set_solver.
Qed.

Lemma walking_call vis x s s' :
  walking c vis s -> do_step (Call x) s = Ok tt s' -> walking c vis s'.
Proof.
  intros [Hs Hv] Hr%Hrun. split.
  - transitivity (ctx s); [done|]. apply same_tables_visited; [apply Hs|done].
  - intros y Hy. rewrite <- Hv by done. unfold flag. by rewrite (proj1 (proj2 Hr)).
Qed.

Lemma walking_steps l : forall vis s s',
  walking c vis s -> (forall x, Mark x ∈ l -> is_state c x) ->
  forM l do_step s = Ok tt s' -> walking c (vis ∪ marks l) s'.
Proof.
  induction l as [|st l IH]; intros vis s s' Hw Hl Hr.
  { injection Hr as <-. unfold marks. cbn. by rewrite (union_empty_r_L vis). }
  cbn [forM] in Hr. apply bind_inv_Ok in Hr as ([] & s1 & H1 & H2). destruct st as [x|x].
  - destruct (walking_mark vis x s Hw) as [He Hw']; [apply Hl; by left|].
    rewrite He in H1. injection H1 as <-.
    replace (vis ∪ marks (Mark x :: l)) with ({[x]} ∪ vis ∪ marks l).
    + apply (IH _ _ _ Hw'); [|done]. intros y Hy. apply Hl. by right.
    + apply set_eq. intros y. unfold marks. cbn. set_solver.
  - apply (IH vis s1 s'); [by eapply walking_call| |done]. intros y Hy. apply Hl. by right.
Qed.

Lemma walking_get_inf vis s x k :
  walking c vis s -> is_state c x -> 0 <= k ->
  on_ctx (get_inf x k) s
  = Ok (if k =? VISITED then bool_decide (x ∈ vis) else flag c x k) s.
Proof.
  intros [Hs Hv] Hx Hk. unfold on_ctx, zoom.
  rewrite get_inf_run; [|apply Hs|unfold is_state; by rewrite (sv_number _ _ Hs)|done].
  destruct (Z.eqb_spec k VISITED) as [->|Hne].
  - by rewrite Hv; destruct s.
  - rewrite (sv_flags _ _ Hs) by done. by destruct s.
Qed.

(** ** The code performs the search *)

Context (rank : Z -> nat) (Hrank : nesting c rank).
Context (descend calls : Z -> bool).
Context (impl : nat -> Z -> M (smc W) unit) (cond : Z -> M (smc W) bool) (finish : Z -> M (smc W) unit).

Abbreviation search := (dfs (sub_machines c) descend calls).

(** One call of the recursive function. *)
Context (impl_S : forall f x s, impl (S f) x s =
  (let! visited := on_ctx (get_inf x VISITED) in
   if visited then ret tt
   else
     do! on_ctx (set_inf x VISITED true) in
     let! b := cond x in
     if b then
       do! for_children (fun s => children (ctx s)) (fun s => state_to_children (ctx s)) x
             (fun child =>
                let! sm := on_ctx (is_sm child) in
                if negb sm then ret false
                else do! impl f child in ret false) in
       finish x
     else ret tt) s).
Context (cond_ok : forall vis s x, walking c vis s -> is_state c x -> cond x s = Ok (descend x) s).
Context (finish_ok : forall vis s x, walking c vis s -> is_state c x ->
  finish x s = (if calls x then run x else ret tt) s).

Lemma sub_machines_kids x l :
  kids c x = Some l -> sub_machines c x = filter (fun x => flag c x SM = true) l.
Proof. intros Hk. unfold sub_machines. by rewrite Hk. Qed.

Lemma sub_machines_state x y : is_state c x -> y ∈ sub_machines c x -> is_state c y.
Proof.
  intros Hx. destruct (to_kids c Hc x Hx) as (l & Hk & Hl). rewrite (sub_machines_kids x l Hk).
  intros [_ Hy]%list_elem_of_filter. rewrite Forall_forall in Hl. auto.
Qed.

Lemma search_states fuel : forall vis x y, is_state c x -> Mark y ∈ (search fuel vis x).2 -> is_state c y.
Proof.
  assert (Hall : forall f l vis y, Forall (is_state c) l ->
    (forall vis x y, is_state c x -> Mark y ∈ (f vis x).2 -> is_state c y) ->
    Mark y ∈ (visit_all f vis l).2 -> is_state c y).
  { intros f. induction l as [|x l IH]; intros vis y Hl Hf; cbn; [by rewrite elem_of_nil|].
    apply Forall_cons in Hl as [Hx Hl]. rewrite elem_of_app. intros [Hy|Hy]; eauto. }
  induction fuel as [|fuel IH]; intros vis x y Hx; cbn; [by rewrite elem_of_nil|].
  case_decide; [by rewrite elem_of_nil|]. destruct (descend x); cbn.
  - rewrite elem_of_cons, elem_of_app. intros [[= ->]|[Hy|Hy]]; [done| |].
    + eapply Hall; [|exact IH|exact Hy]. apply Forall_forall. intros z. by apply sub_machines_state.
    + destruct (calls x); [by apply list_elem_of_singleton in Hy|by apply elem_of_nil in Hy].
  - by intros [= ->]%list_elem_of_singleton.
Qed.

(** The body of the loop over the children. *)
Definition into_child (f : nat) (child : Z) : M (smc W) unit :=
  let! sm := on_ctx (is_sm child) in if sm then impl f child else ret tt.

Definition refines (f : nat) : Prop := forall vis s x,
  (rank x < f)%nat -> is_state c x -> walking c vis s ->
  impl f x s = forM (search f vis x).2 do_step s.

Lemma search_walking f vis s x s' :
  is_state c x -> walking c vis s -> forM (search f vis x).2 do_step s = Ok tt s' ->
  walking c (search f vis x).1 s'.
Proof.
  intros Hx Hw Hr.
  replace (search f vis x).1 with (vis ∪ marks (search f vis x).2).
  - eapply walking_steps; [done| |done]. intros y. by apply search_states.
  - apply leibniz_equiv. by rewrite dfs_marks.
Qed.

Lemma into_children f l : refines f -> Forall (is_state c) l ->
  Forall (fun x => flag c x SM = true -> (rank x < f)%nat) l ->
  forall vis s, walking c vis s ->
  forM l (into_child f) s
  = forM (visit_all (search f) vis (filter (fun x => flag c x SM = true) l)).2 do_step s.
Proof.
  intros IH. induction l as [|x l IHl]; intros Hl Hr vis s Hw; [done|].
  apply Forall_cons in Hl as [Hx Hl]. apply Forall_cons in Hr as [Hrx Hr].
  rewrite filter_cons. cbn [forM]. unfold into_child at 1, is_sm.
  unfold bind at 1. unfold bind at 1. rewrite (walking_get_inf vis s x SM Hw Hx) by done.
  cbn [Z.eqb]. change (SM =? VISITED) with false. cbv iota.
  destruct (flag c x SM) eqn:Esm.
  - rewrite decide_True by done. cbn [visit_all snd]. rewrite forM_app.
    rewrite (IH vis s x) by auto. unfold bind.
    destruct (forM (search f vis x).2 do_step s) as [[] s1|e s1| |] eqn:E1; [|done..].
    apply IHl; [done|done|]. by eapply search_walking.
  - rewrite decide_False by done. unfold ret. by apply IHl.
Qed.

Lemma into_child_walking f x s a s' :
  refines f -> is_state c x -> (flag c x SM = true -> (rank x < f)%nat) ->
  (exists vis, walking c vis s) -> into_child f x s = Ok a s' -> exists vis, walking c vis s'.
Proof.
  intros IH Hx Hr [vis Hw]. unfold into_child, is_sm, bind.
  rewrite (walking_get_inf vis s x SM Hw Hx) by done. change (SM =? VISITED) with false. cbv iota.
  destruct (flag c x SM) eqn:Esm.
  - rewrite (IH vis s x) by auto. destruct a. intros Hs. eexists. by eapply search_walking.
  - intros [= _ <-]. by exists vis.
Qed.

Lemma into_child_body f x s : is_state c x -> (exists vis, walking c vis s) ->
  (let! sm := on_ctx (is_sm x) in
   if negb sm then ret false else do! impl f x in ret false) s
  = (do! into_child f x in ret false) s.
Proof.
  intros Hx [vis Hw]. unfold into_child, is_sm. rewrite bind_assoc. unfold bind.
  rewrite (walking_get_inf vis s x SM Hw Hx) by done. change (SM =? VISITED) with false. cbv iota.
  by destruct (flag c x SM).
Qed.

Lemma impl_refines f : refines f.
Proof.
  induction f as [|f IH]; intros vis s x Hr Hx Hw; [lia|].
  rewrite impl_S. cbn [dfs]. unfold bind at 1.
  rewrite (walking_get_inf vis s x VISITED Hw Hx) by done. rewrite Z.eqb_refl.
  destruct (decide (x ∈ vis)) as [Hin|Hin].
  { by rewrite bool_decide_eq_true_2. }
  rewrite bool_decide_eq_false_2 by done.
  destruct (walking_mark vis x s Hw Hx) as [Hm0 Hw']. pose proof Hm0 as Hm. cbn [do_step] in Hm.
  unfold bind at 1. rewrite Hm. unfold bind at 1. rewrite (cond_ok _ _ _ Hw' Hx).
  set (s1 := with_ctx _ s) in *.
  destruct (descend x) eqn:Ed; cbn [snd forM]; rewrite (bind_Ok _ _ _ _ _ Hm0); [|done].
  destruct (to_kids c Hc x Hx) as (l & Hk & Hl).
  assert (Hrl : Forall (fun y => flag c y SM = true -> (rank y < f)%nat) l).
  { apply Forall_forall. intros y Hy Hsm. assert (y ∈ sub_machines c x) as Hs.
    { rewrite (sub_machines_kids x l Hk). by apply list_elem_of_filter. }
    apply Hrank in Hs. lia. }
  unfold kids in Hk. destruct (zlookup (state_to_children c) x) as [i|] eqn:Ei; [|done]. cbn in Hk.
  rewrite bind_unfold, (for_children_forM _ _ _ (into_child f) x (children c) l i
             (fun s => exists vis, walking c vis s)).
  - rewrite forM_app, bind_unfold.
    rewrite (into_children f l IH Hl Hrl ({[x]} ∪ vis) s1 Hw').
    rewrite (sub_machines_kids x l) by (unfold kids; by rewrite Ei).
    destruct (forM _ do_step s1) as [[] s2|e s2| |] eqn:E2; [|done..].
    rewrite (finish_ok (({[x]} ∪ vis) ∪ marks (visit_all (search f) ({[x]} ∪ vis) (filter (fun x => flag c x SM = true) l)).2)).
    + destruct (calls x); [|done]. cbn [forM do_step]. unfold bind. by destruct (run x s2) as [[]| | |].
    + eapply walking_steps; [exact Hw'| |exact E2]. intros y Hy.
      apply (search_states (S f) vis x y Hx). cbn [dfs]. rewrite decide_False by done. rewrite Ed.
      cbn [snd]. rewrite elem_of_cons, elem_of_app. right. left.
      by rewrite (sub_machines_kids x l) by (unfold kids; by rewrite Ei).
    + done.
  - intros s' [vis' Hw2]. apply (proj1 Hw2).
  - intros y s' Hy. rewrite Forall_forall in Hl. by apply into_child_body, Hl.
  - intros y s' a s'' Hy. rewrite Forall_forall in Hl, Hrl. apply into_child_walking; auto.
  - by eexists.
  - by rewrite (sv_s2c _ _ (proj1 Hw')).
  - done.
Qed.

Lemma roots_refine f l : Forall (is_state c) l -> Forall (fun x => rank x < f)%nat l ->
  forall vis s, walking c vis s ->
  forM l (impl f) s = forM (visit_all (search f) vis l).2 do_step s.
Proof.
  induction l as [|x l IHl]; intros Hl Hr vis s Hw; [done|].
  apply Forall_cons in Hl as [Hx Hl]. apply Forall_cons in Hr as [Hrx Hr].
  cbn [forM visit_all snd]. rewrite forM_app, !bind_unfold.
  rewrite (impl_refines f vis s x Hrx Hx Hw).
  destruct (forM (search f vis x).2 do_step s) as [[] s1|e s1| |] eqn:E1; [|done..].
  apply IHl; [done..|]. by eapply search_walking.
Qed.
End refinement.

(** ** do_enter and do_exit *)

(** Is [x] present in the vector [v]? *)
Definition present (v : list Z) (x : Z) : bool := negb (default 0 (zlookup v x) =? 0).

Section main.
Context {W : Type} `{Target} `{Host W} `{!Calm W} (vm_rounds : nat).

(** What do_enter does, as a list: machines that are present in [v] are walked, the
    handler runs for those that were not active. *)
Definition enter_steps (c : ectx) (fuel : nat) (sms v : list Z) : list step :=
  trace (sub_machines c) (present v) (fun x => negb (present (current_states c) x)) fuel sms.

(** What do_exit does: active machines are walked, and all their handlers run. *)
Definition exit_steps (c : ectx) (fuel : nat) (sms : list Z) : list step :=
  trace (sub_machines c) (present (current_states c)) (fun _ => true) fuel sms.

Lemma start_walking (s : smc W) :
  flags_ok (ctx s) ->
  exists s1, on_ctx clear_visited s = Ok tt s1 /\ walking (ctx s) ∅ s1.
Proof.
  intros Hok. destruct (clear_visited_run (ctx s) Hok) as (c' & Hr & Hs & Hf).
  exists (with_ctx c' s). split.
  - unfold on_ctx, zoom, clear_visited, bind, gets. by rewrite Hr.
  - split; [done|]. intros x Hx. by rewrite Hf.
Qed.

Lemma state_lookup (v : list Z) n x :
  Z.of_nat (length v) = n + 1 -> 0 <= x <= n -> zlookup v x = Some (default 0 (zlookup v x)).
Proof. intros Hv Hx. destruct (zlookup_is_Some v x ltac:(lia)) as [y Hy]. by rewrite Hy. Qed.

(** C4: do_enter runs the on_enter handlers of exactly those state machines that are
    nested in the given ones through present machines, are present in the new states
    and were not active before: each of them once, inner machines before the machine
    that contains them. The flags it sets and the handlers it calls are the steps of
    the reference search, whatever the handlers do or throw. *)
Theorem do_enter_correct (rank : Z -> nat) fuel sms v (s : smc W) :
  tables_ok (ctx s) -> nesting (ctx s) rank ->
  Z.of_nat (length v) = number_of_states (ctx s) + 1 ->
  sms <> [] -> Forall (is_state (ctx s)) sms -> Forall (fun x => rank x < fuel)%nat sms ->
  let steps := enter_steps (ctx s) fuel sms v in
  let order := omap called steps in
  do_enter vm_rounds fuel sms v s
    = (do! on_ctx clear_visited in forM steps (do_step (run_on_enter vm_rounds))) s /\
  NoDup order /\
  (forall x, x ∈ order <->
     (exists r, r ∈ sms /\ rtc (inside (sub_machines (ctx s)) (present v)) r x) /\
     present v x = true /\ present (current_states (ctx s)) x = false) /\
  (forall o1 y o2 x, order = o1 ++ y :: o2 -> x ∈ sub_machines (ctx s) y -> x ∈ order -> x ∈ o1).
Proof.
  intros Hok Hnest Hv Hne Hsms Hfuel steps order. split.
  - assert (Hd : do_enter vm_rounds fuel sms v s
      = (do! on_ctx clear_visited in forM sms (fun x => do_enter_impl vm_rounds fuel x v)) s)
      by (by destruct sms).
    rewrite Hd. destruct (start_walking s (to_flags _ Hok)) as (s1 & Hr & Hw).
    rewrite !(bind_Ok _ _ _ _ _ Hr).
    apply (roots_refine (ctx s) Hok (run_on_enter vm_rounds) (calm_on_enter vm_rounds) rank Hnest
             (present v) (fun x => negb (present (current_states (ctx s)) x))
             (fun f x => do_enter_impl vm_rounds f x v)
             (fun x => let! p := of_option (zlookup v x) in ret (negb (p =? 0)))
             (fun x => let! cur := on_ctx (vget current_states x) in
                       if cur =? 0 then run_on_enter vm_rounds x else ret tt)); try done.
    + intros f x s'. cbn [do_enter_impl]. unfold bind, ret.
      destruct (on_ctx (get_inf x VISITED) s') as [[] s2| | |]; [done| |done..].
      destruct (on_ctx (set_inf x VISITED true) s2) as [[] s3| | |]; [|done..].
      destruct (zlookup v x) as [p|]; [|done]. cbn. by destruct (p =? 0).
    + intros vis s' x _ Hx. rewrite (state_lookup v _ x Hv Hx). done.
    + intros vis s' x [Hsv _] Hx. unfold bind, on_ctx, zoom, vget. rewrite (sv_current _ _ Hsv).
      rewrite (state_lookup _ _ x (to_current _ Hok) Hx).
      unfold present. rewrite negb_involutive. replace (with_ctx (ctx s') s') with s' by (by destruct s').
      done.
  - destruct (trace_spec (sub_machines (ctx s)) (present v)
      (fun x => negb (present (current_states (ctx s)) x)) rank Hnest fuel sms Hfuel) as (H1 & H2 & H3).
    split; [exact H1|]. split; [|exact H3]. intros x. unfold order, steps, enter_steps.
    cbv zeta in H2. rewrite (H2 x). by rewrite negb_true_iff.
Qed.

(** C6: do_exit runs the on_exit handlers of exactly the active state machines nested
    in the given ones through active machines, each once, inner machines before the
    machine that contains them. *)
Theorem do_exit_correct (rank : Z -> nat) fuel sms (s : smc W) :
  tables_ok (ctx s) -> nesting (ctx s) rank ->
  sms <> [] -> Forall (is_state (ctx s)) sms -> Forall (fun x => rank x < fuel)%nat sms ->
  let steps := exit_steps (ctx s) fuel sms in
  let order := omap called steps in
  do_exit vm_rounds fuel sms s
    = (do! on_ctx clear_visited in forM steps (do_step (run_on_exit vm_rounds))) s /\
  NoDup order /\
  (forall x, x ∈ order <->
     (exists r, r ∈ sms /\
        rtc (inside (sub_machines (ctx s)) (present (current_states (ctx s)))) r x) /\
     present (current_states (ctx s)) x = true) /\
  (forall o1 y o2 x, order = o1 ++ y :: o2 -> x ∈ sub_machines (ctx s) y -> x ∈ order -> x ∈ o1).
Proof.
  intros Hok Hnest Hne Hsms Hfuel steps order. split.
  - assert (Hd : do_exit vm_rounds fuel sms s
      = (do! on_ctx clear_visited in forM sms (fun x => do_exit_impl vm_rounds fuel x)) s)
      by (by destruct sms).
    rewrite Hd. destruct (start_walking s (to_flags _ Hok)) as (s1 & Hr & Hw).
    rewrite !(bind_Ok _ _ _ _ _ Hr).
    apply (roots_refine (ctx s) Hok (run_on_exit vm_rounds) (calm_on_exit vm_rounds) rank Hnest
             (present (current_states (ctx s))) (fun _ => true)
             (fun f x => do_exit_impl vm_rounds f x)
             (fun x => let! cur := on_ctx (vget current_states x) in ret (negb (cur =? 0)))
             (run_on_exit vm_rounds)); try done.
    + intros f x s'. cbn [do_exit_impl]. unfold bind, ret.
      destruct (on_ctx (get_inf x VISITED) s') as [[] s2| | |]; [done| |done..].
      destruct (on_ctx (set_inf x VISITED true) s2) as [[] s3| | |]; [|done..].
      destruct (on_ctx (vget current_states x) s3) as [p s4| | |]; [|done..].
      by destruct (p =? 0).
    + intros vis s' x [Hsv _] Hx. unfold bind, on_ctx, zoom, vget. rewrite (sv_current _ _ Hsv).
      rewrite (state_lookup _ _ x (to_current _ Hok) Hx).
      replace (with_ctx (ctx s') s') with s' by (by destruct s'). done.
  - destruct (trace_spec (sub_machines (ctx s)) (present (current_states (ctx s)))
      (fun _ => true) rank Hnest fuel sms Hfuel) as (H1 & H2 & H3).
    split; [exact H1|]. split; [|exact H3]. intros x. unfold order, steps, exit_steps.
    cbv zeta in H2. rewrite (H2 x). tauto.
Qed.
End main.
