(* ===== verification/Merge.v ===== *)
(** * Merge: machines that implement or extend others

    The first half of core/src/sm_sim_process_sm.cpp: walks over machines, the tests on
    shadowed machines, and merge_state_machines, which clones the machines a new machine
    implements or extends, gives every clone an initial state of its own and puts their
    states and transitions into the first clone. *)

From S2P Require Import Prelude Ast Machines.

(** The elements of a std::unordered_set in the order the implementation chooses. *)
Class UnorderedSet := {
  unordered : gset Z -> list Z
}.

Class UnorderedSetLaws `{UnorderedSet} := {
  unordered_elements s : Permutation (unordered s) (elements s)
}.

(** ** Walks *)

(** [walk_sm(sm, f)] with a callback that changes a captured variable. *)
Fixpoint walk_fold {B} (fuel : nat) (sm : Z) (f : B -> Z -> M smheap B) (b : B) : M smheap B :=
  match fuel with
  | O => out_of_fuel
  | S fuel' =>
    let! b := f b sm in
    let! m := sm_at sm in
    let! b := foldM (m_states m) (fun b p =>
      let! s := state_at p in
      if negb (s_is_sm s) || (s_smp s =? 0) then ret b else walk_fold fuel' (s_smp s) f b) b in
    let! m := sm_at sm in
    foldM (m_children m) (fun b c => walk_fold fuel' c f b) b
  end.

Definition for_all_transitions (sm : Z) (f : mtransition -> mtransition) : M smheap unit :=
  sm_upd sm (fun m => with_m_transitions (map f (m_transitions m)) m).

Definition for_all_states (sm : Z) (f : mstate -> mstate) : M smheap unit :=
  let! m := sm_at sm in forM (m_states m) (fun p => state_upd p f).

Definition for_all_children (sm : Z) (f : machine -> machine) : M smheap unit :=
  let! m := sm_at sm in forM (m_children m) (fun p => sm_upd p f).

Definition map_ends (f : mstate -> mstate) (t : mtransition) : mtransition :=
  with_t_to (f (t_to t)) (with_t_from (f (t_from t)) t).

(** [replace_state(toplevel_sm, state_to_replace, state)] *)
Definition replace_state (fuel : nat) (toplevel_sm : Z) (id : string) (state : Z) : M smheap unit :=
  walk_sm fuel toplevel_sm (fun sm =>
    let! s := state_at state in
    for_all_transitions sm (map_ends (fun e =>
      if String.eqb (s_id e) id && (s_smp e =? toplevel_sm) then s else e))).

(** [set_owner(old_owner, new_owner)] *)
Definition set_owner (fuel : nat) (old_owner new_owner : Z) : M smheap unit :=
  let move s := if s_smp s =? old_owner then with_s_smp new_owner s else s in
  walk_sm fuel old_owner (fun sm =>
    do! for_all_children sm (fun c => if m_parent c =? old_owner then with_m_parent new_owner c else c) in
    do! for_all_states sm move in
    for_all_transitions sm (map_ends move)).

(** [shadow.valid_ = false] *)
Definition drop_shadow (s : mstate) : mstate :=
  let r := s_shadow s in with_s_shadow (mkRep false (r_is_sm r) (r_smp r) (r_sid r) (r_id r)) s.

Definition remove_all_shadowing (fuel : nat) (toplevel_sm : Z) : M smheap unit :=
  walk_sm fuel toplevel_sm (fun sm =>
    do! sm_upd sm (with_m_shadowing_me ∅) in
    do! for_all_states sm drop_shadow in
    for_all_transitions sm (map_ends drop_shadow)).

Fixpoint get_toplevel (fuel : nat) (sm : Z) : M smheap Z :=
  match fuel with
  | O => out_of_fuel
  | S fuel' => let! m := sm_at sm in if m_parent m =? 0 then ret sm else get_toplevel fuel' (m_parent m)
  end.

(** ** Shadowed and shadowing machines *)

(** [discover_shadowings(toplevel_sm)]: what it puts into the queue. *)
Definition discover_shadowings (fuel : nat) (toplevel_sm : Z) : M smheap (list Z) :=
  walk_fold fuel toplevel_sm (fun q sm =>
    let! m := sm_at sm in
    foldM (m_states m) (fun q p =>
      let! s := state_at p in
      if r_valid (s_shadow s) then let! t := get_toplevel fuel (r_smp (s_shadow s)) in ret (q ++ [t]) else ret q) q) [].

(** The loop over the queue [q]; [r] is the result so far. *)
Fixpoint shadowed_loop (rounds fuel : nat) (q : list Z) (r : gset Z) : M smheap (gset Z) :=
  match rounds with
  | O => out_of_fuel
  | S rounds' =>
    match q with
    | [] => ret r
    | x :: q' =>
      if bool_decide (x ∈ r) then shadowed_loop rounds' fuel q' r
      else
        let! found := discover_shadowings fuel x in
        shadowed_loop rounds' fuel (q' ++ found) ({[x]} ∪ r)
    end
  end.

Definition compute_all_shadowing_sms (fuel : nat) (sm : Z) : M smheap (gset Z) :=
  let! contained := walk_fold fuel sm (fun r s => ret ({[s]} ∪ r)) (∅ : gset Z) in
  let! ms := gets statemachines in
  foldM ms (fun r e =>
    let! m := sm_at e.2 in
    if negb (m_parent m =? 0) then ret r
    else if e.2 =? sm then ret r
    else
      walk_fold fuel e.2 (fun r stm =>
        let! m := sm_at stm in
        foldM (m_states m) (fun r p =>
          let! st := state_at p in
          ret (if r_valid (s_shadow st) && bool_decide (r_smp (s_shadow st) ∈ contained)
               then {[e.2]} ∪ r else r)) r) r) ∅.

Definition is_child_of (id : string) (sm2 : Z) : M smheap bool :=
  let! c := child_named sm2 id in ret (if c then true else false).

(** [walk_two_structurally_identical_sms(sm, sm_clone, f)] *)
Fixpoint walk_two {B} (fuel : nat) (sm clone : Z) (f : B -> Z -> Z -> M smheap B) (b : B) : M smheap B :=
  match fuel with
  | O => out_of_fuel
  | S fuel' =>
    let! b := f b sm clone in
    let! m := sm_at sm in
    let! c := sm_at clone in
    foldM (zip (m_children m) (m_children c)) (fun b e => walk_two fuel' e.1 e.2 f b) b
  end.

(** ** Merging *)

Section merging.
Context `{Allocator} `{UnorderedSet}.
Context (fuel : nat).

Definition compute_all_shadowed_sms_transitively (primary_sm : Z) : M smheap (list Z) :=
  let! q := discover_shadowings fuel primary_sm in
  let! r := shadowed_loop fuel fuel q ∅ in
  ret (unordered r).

(** Both functions are lambdas of merge_state_machines. *)
Definition set_shadowing_info (orig clone : Z) : M smheap unit :=
  walk_two fuel orig clone (fun _ sm_a sm_b =>
    let! a := sm_at sm_a in
    forM (m_states a) (fun p =>
      let! s := state_at p in
      if is_initial s || is_final s then ret tt
      else
        let! b := sm_at sm_b in
        let! s2 := findM (m_states b) (fun q => let! x := state_at q in ret (String.eqb (s_id x) (s_id s))) in
        match s2 with
        | Some q => state_upd q (with_s_shadow (mkRep true false sm_a (s_id s) (-1)))
        | None => ret tt
        end)) tt.

(** Cloning with a null pointer for the resolution of imports. *)
Definition clone_machine (this rhs : Z) (q_id : string) : M smheap unit :=
  clone_from fuel (fun _ => undef) this rhs q_id.

Definition clone_sm_mangle_name (depth orig : Z) : M smheap Z :=
  let! n := next_order in
  let! temp := new_sm (new_machine n "" 0 depth) in
  let! o := sm_at orig in
  let id := m_id o +:+ "__" +:+ pretty temp in
  do! sm_upd temp (with_m_id id) in
  do! clone_machine temp orig id in
  do! set_statemachine id temp in
  ret temp.

(** [orig_to_clone[p]]: a new key gets a null pointer. *)
Definition redirect_shadow (orig_to_clone : gmap Z Z) (st : mstate) : mstate :=
  let r := s_shadow st in
  if r_valid r
  then with_s_shadow (mkRep (r_valid r) (r_is_sm r) (default 0 (orig_to_clone !! r_smp r)) (r_sid r) (r_id r)) st
  else st.

Definition handle_shadowing (depth clone orig : Z) : M smheap unit :=
  let! o := sm_at orig in
  if negb (m_is_concept o) then ret tt
  else
    let! shadowing_sms := compute_all_shadowing_sms fuel orig in
    if bool_decide (shadowing_sms = ∅) then set_shadowing_info orig clone
    else
      let! shadowed := compute_all_shadowed_sms_transitively orig in
      match shadowed with
      | [] => let! temp := clone_sm_mangle_name depth orig in set_shadowing_info temp clone
      | _ =>
        let shadowed := shadowed ++ [orig] in
        let! clones := foldM shadowed (fun l sm => let! c := clone_sm_mangle_name depth sm in ret (l ++ [c])) [] in
        let orig_clone := List.last clones 0 in
        let! orig_to_clone := foldM (zip shadowed clones) (fun mp e =>
          walk_two fuel e.1 e.2 (fun mp o c => ret (<[o := c]> mp)) mp) (∅ : gmap Z Z) in
        do! forM clones (fun s => walk_sm fuel s (fun sm => for_all_states sm (redirect_shadow orig_to_clone))) in
        set_shadowing_info orig_clone clone
      end.

(** One more machine of the list. *)
Definition merge_one (depth main_sm orig cur_sm : Z) : M smheap unit :=
  let! cur := sm_at cur_sm in
  let! new_init := new_state (with_s_smp main_sm (with_s_dont_cover true (state_of_id ("Initial_" +:+ m_id cur)))) in
  do! sm_upd main_sm (fun m => with_m_states (ptrs_insert new_init (m_states m)) m) in
  do! replace_state fuel cur_sm "Initial" new_init in
  do! set_owner fuel cur_sm main_sm in
  do! handle_shadowing depth cur_sm orig in
  do! merge main_sm cur_sm in
  let! init := get_initial_state main_sm in
  let! target := state_at new_init in
  sm_upd main_sm (fun m => with_m_transitions (m_transitions m ++ [transition_of init target]) m).

Definition purely_abstract (t : mtransition) : bool :=
  t_abstract t && (String.length (t_guard t) =? 0)%nat && bool_decide (t_events t = []) && bool_decide (length (t_actions t) = 0%nat).

Definition delete_abstract (turn_to_normal : bool) (sm : Z) : M smheap unit :=
  sm_upd sm (fun m => with_m_transitions
    (map (fun t => if turn_to_normal then with_t_abstract false t else t)
       (List.filter (fun t => negb (purely_abstract t)) (m_transitions m))) m).

(** The parameter [order] is not used. *)
Definition merge_state_machines (sms : list Z)
    (delete_purely_abstract_transitions turn_abstract_transitions_to_normal : bool)
    (id : string) (parent depth : Z) : M smheap Z :=
  match sms with
  | [] => let! n := next_order in new_sm (new_machine n id parent depth)
  | _ =>
    let! clones := foldM sms (fun l sm =>
      let! n := next_order in
      let! m := sm_at sm in
      let! temp := new_sm (new_machine n (m_id m) parent depth) in
      do! clone_machine temp sm (m_id m) in
      do! remove_all_shadowing fuel temp in
      ret (l ++ [temp])) [] in
    match zip sms clones with
    | [] => undef
    | (sm0, main_sm) :: rest =>
      do! sm_upd main_sm (with_m_id id) in
      do! handle_shadowing depth main_sm sm0 in
      do! forM rest (fun e => merge_one depth main_sm e.1 e.2) in
      do! (if delete_purely_abstract_transitions
           then walk_sm fuel main_sm (delete_abstract turn_abstract_transitions_to_normal)
           else ret tt) in
      ret main_sm
    end
  end.
End merging.
