(* ===== verification/Script.v ===== *)
(** * Script: reading state machines from a script

    The second half of core/src/sm_sim_process_sm.cpp: process_statemachine turns the
    syntax tree of a machine into a machine with its states, children, events, actions
    and transitions. Selecting parts of a tree is the ceps library's Nodeset, a class
    here. *)

From S2P Require Import Prelude Ast Machines Names Guards Merge.

(** ** What the library provides *)

(** Nodeset: [ns_at ns k] is [ns[k]], [ns_all ns k] is [ns[all{k}]], [ns_items ns] are the
    node sets a range-based for runs through. *)
Class Nodesets := {
  ns_at : list node -> string -> list node;
  ns_all : list node -> string -> list node;
  ns_items : list node -> list (list node)
}.

(** Where a node of the tree is. *)
Class NodePtr := {
  node_address : node -> Z;
  node_deref : Z -> option node
}.

Class NodePtrLaws `{NodePtr} := {
  node_deref_address n : node_deref (node_address n) = Some n;
  node_address_nonnull n : node_address n <> 0
}.

(** ** Names *)

Definition gen_guard_id (qual_sim_id : string) (ctr : Z) : string :=
  qual_sim_id +:+ ".guard_" +:+ pretty ctr.

Fixpoint read_qualified_id (p : node) : option (list string) :=
  match p with
  | Identifier n => Some [n]
  | Binary_operator op l r =>
    if String.eqb op "." then
      match read_qualified_id l, r with
      | Some q, Identifier n => Some (q ++ [n])
      | _, _ => None
      end
    else None
  | _ => None
  end.

Definition is_id_or_symbol (p : node) : option (string * string) :=
  match p with
  | Identifier n => Some (n, "")
  | Symbol n k => Some (n, k)
  | _ => None
  end.

(** [name(as_id_ref(p))] without a test of the kind. *)
Definition name_of_id {St} (p : node) : M St string :=
  match p with Identifier n => ret n | _ => undef end.

(** ** The state of the front end *)

Record front := mkFront { f_heap : smheap; f_guards : guards_t }.

Definition with_f_heap (x : smheap) (f : front) : front := mkFront x (f_guards f).
Definition with_f_guards (x : guards_t) (f : front) : front := mkFront (f_heap f) x.

Definition on_machines {A} (m : M smheap A) : M front A := zoom f_heap with_f_heap m.

(** [global_guards[g] = node] *)
Definition set_guard (g : string) (n : node) : M front unit :=
  modify (fun f => with_f_guards (mkGuards (<[g := Some n]> (global_guards (f_guards f))) (warnings (f_guards f))) f).

Definition fatal {St A} (msg : string) : M St A := throw (Fatal (-1) msg).

(** ** Transitions *)

Definition upd_last {A} (f : A -> A) (l : list A) : list A :=
  match reverse l with [] => [] | x :: r => reverse (f x :: r) end.

(** [trans[trans.size()-1]] of the machine [sm]. *)
Definition last_transition (sm : Z) (f : mtransition -> mtransition) : M front unit :=
  on_machines (sm_upd sm (fun m => with_m_transitions (upd_last f (m_transitions m)) m)).

Definition is_transition_name (n : string) : bool :=
  String.eqb n "Transition" || String.eqb n "transition" || String.eqb n "t".

(** Nodes that are guards as they are. *)
Definition is_guard_expr (n : node) : bool :=
  match n with
  | Binary_operator _ _ _ | Unary_operator _ _ | Int_literal _ | String_literal _ | Float_literal _ | Func_call _ => true
  | _ => false
  end.

Section handle_transitions.
Context (fuel : nat) (sm : Z) (id : string) (is_abstract : bool).

Definition find_end (s : string) : M front mstate :=
  let! r := on_machines (lookup fuel sm (with_s_id s state_default)) in
  if r.1 then ret r.2
  else fatal ("Statemachine '" +:+ id +:+ "': " +:+ s +:+ " is not a state (or statemachine).").

(** Source and target of the transition number [t_ctr]. *)
Definition transition_ends (t_ctr : Z) (from_ to_ : node) : M front (mstate * mstate) :=
  let illformed what := fatal ("State machine '" +:+ id +:+ "', transition #" +:+ pretty t_ctr +:+ ": illformed " +:+ what +:+ " state") in
  match from_, to_ with
  | Identifier s1, Identifier s2 =>
    let! f := find_end s1 in let! t := find_end s2 in ret (f, t)
  | _, _ =>
    match read_qualified_id from_ with
    | None => illformed "origin"
    | Some q1 =>
      match read_qualified_id to_ with
      | None => illformed "destination"
      | Some q2 => ret (state_of_q_id q1, state_of_q_id q2)
      end
    end
  end.

(** An element behind the ends; the result is the counter of the guards. *)
Definition transition_part (t_ctr : Z) (guard_ctr : Z) (n : node) : M front Z :=
  match n with
  | Symbol nm k =>
    if String.eqb k "Guard" then do! last_transition sm (with_t_guard nm) in ret guard_ctr
    else if String.eqb k "Event" then
      do! last_transition sm (fun t => with_t_events (names_insert nm (t_events t)) t) in ret guard_ctr
    else fatal ("State machine '" +:+ id +:+ "', transition #" +:+ pretty t_ctr +:+
                ": Guards/Events must be of kind 'Guard'/'Event' not '" +:+ k +:+ "'.")
  | Identifier cur_id =>
    let! m := on_machines (sm_at sm) in
    let! ev := on_machines (lookup_info fuel sm cur_id (find_event (m_events m))) in
    do! (match ev with
         | Some e => last_transition sm (fun t => with_t_events (names_insert e (t_events t)) t)
         | None => ret tt
         end) in
    let! ac := on_machines (lookup_info fuel sm cur_id (find_maction (m_actions m))) in
    do! (match ac with
         | Some a => last_transition sm (fun t => with_t_actions (t_actions t ++ [a]) t)
         | None => ret tt
         end) in
    match ev, ac with
    | None, None => fatal ("Transition definition in state machine:'" +:+ id +:+ "': '" +:+ cur_id +:+
                           "' is neither an event nor an action")
    | _, _ => ret guard_ctr
    end
  | _ =>
    if is_guard_expr n then
      let g := gen_guard_id id guard_ctr in
      do! last_transition sm (with_t_guard g) in
      do! set_guard g n in
      ret (guard_ctr + 1)
    else ret guard_ctr
  end.

Definition handle_transition (ctrs : Z * Z) (content : list node) : M front (Z * Z) :=
  let t_ctr := ctrs.1 + 1 in
  match content with
  | from_ :: to_ :: parts =>
    let! ends := transition_ends t_ctr from_ to_ in
    do! on_machines (sm_upd sm (fun m => with_m_transitions (m_transitions m ++ [transition_of ends.1 ends.2]) m)) in
    do! (if negb (is_initial ends.1) && negb (is_final ends.2) then last_transition sm (with_t_abstract is_abstract) else ret tt) in
    let! g := foldM parts (transition_part t_ctr) ctrs.2 in
    ret (t_ctr, g)
  | _ => fatal ("Statemachine '" +:+ id +:+
                "' not enough parameters: Transitions contain at least two elements (source- and target-nodes).")
  end.

(** [process_statemachine_helper_handle_transitions]; [guard_ctr] is an in-out
    parameter. *)
Definition process_statemachine_helper_handle_transitions (sm_definition : list node) (guard_ctr : Z) : M front Z :=
  let! ctrs := foldM sm_definition (fun ctrs p =>
    match p with
    | Structdef n content => if is_transition_name n then handle_transition ctrs content else ret ctrs
    | _ => ret ctrs
    end) (0, guard_ctr) in
  ret ctrs.2.
End handle_transitions.

(** ** The sections of a machine *)

Record sections := mkSections {
  sc_states : list node; sc_events : list node; sc_actions : list node; sc_threads : list node;
  sc_imports : list node; sc_join : list node; sc_on_enter : list node; sc_on_exit : list node;
  sc_cover_method : list node; sc_implements : list node; sc_where : list node; sc_extends : list node;
  sc_log : list node; sc_labels : list node
}.

Section process.
Context `{Allocator} `{UnorderedSet} `{Nodesets} `{NodePtr}.

Definition extract_sm_sections (d : list node) : sections :=
  mkSections (ns_at d "States" ++ ns_at d "states") (ns_all d "Events" ++ ns_at d "events")
    (ns_all d "Actions" ++ ns_at d "actions") (ns_all d "thread") (ns_all d "import") (ns_all d "join")
    (ns_all d "on_enter") (ns_all d "on_exit") (ns_at d "cover") (ns_at d "implements") (ns_at d "where")
    (ns_at d "extends") (ns_at d "log") (ns_all d "label").

(** is_abstract, is_concept, is_hidden. *)
Definition extract_sm_modifiers (d : list node) (is_abstract : bool) : bool * bool * bool :=
  foldl (fun '(a, c, h) p =>
    match is_id_or_symbol p with
    | Some (n, _) =>
      if String.eqb n "abstract" then (true, c, h)
      else if String.eqb n "concept" then (true, true, h)
      else if String.eqb n "hidden" then (a, c, true)
      else (a, c, h)
    | None => (a, c, h)
    end) (is_abstract, false, false) d.

(** The id and the name of the machine. *)
Definition extract_sm_name_and_id (d : list node) (is_thread : bool) (prefix : string) (thread_ctr : Z)
  : M front (string * string) :=
  match ns_at d "id" with
  | [] =>
    if is_thread then let n := "thread_" +:+ pretty thread_ctr in ret (prefix +:+ n, n)
    else
      match (p ← head d; is_id_or_symbol p) with
      | Some (n, _) => ret (prefix +:+ n, n)
      | None => fatal "Statemachine definition: no id found."
      end
  | Identifier n :: _ => ret (prefix +:+ n, n)
  | _ => fatal "Statemachine definition: illformed id, expect an IDENTIFIER."
  end.

(** The machines that a section names. *)
Definition resolve_machines (ps : list node) : M front (list Z) :=
  foldM ps (fun l p =>
    let! r := on_machines (resolve_state_or_transition_given_a_qualified_id p 0 false) in
    if negb (r_valid r.1) then fatal "Invalid id."
    else if negb (r_is_sm r.1) then fatal "has to be state machine."
    else ret (l ++ [r_smp r.1])) [].

Section one.
Context (fuel : nat).

(** A machine that is not there yet. *)
Definition create_machine (s : sections) (id sm_name : string) (parent depth : Z) : M front Z :=
  let! implemented := resolve_machines (sc_implements s) in
  let! extended := resolve_machines (sc_extends s) in
  let! current :=
    (if negb (bool_decide (implemented = [])) then
       let! _ := on_machines next_order in
       on_machines (merge_state_machines fuel implemented true true sm_name parent depth)
     else if bool_decide (sc_extends s = []) then
       let! n := on_machines next_order in on_machines (new_sm (new_machine n sm_name parent depth))
     else ret 0) in
  let! current :=
    (if bool_decide (extended = []) then ret current
     else
       let! _ := on_machines next_order in
       on_machines (merge_state_machines fuel (if current =? 0 then extended else current :: extended)
                      false false sm_name parent depth)) in
  do! on_machines (set_statemachine id current) in
  do! on_machines (set_qualified_id current id) in
  ret current.

Definition has_identifier (n : string) (l : list node) : bool :=
  existsb (fun p => match p with Identifier x => String.eqb x n | _ => false end) l.

Definition set_properties (s : sections) (sm : Z) (is_concept is_hidden is_thread : bool) : M smheap unit :=
  do! sm_upd sm (fun m => with_m_hidden is_hidden (with_m_cover (negb (bool_decide (sc_cover_method s = [])) || is_concept) m)) in
  do! (if has_identifier "dont_cover_loops" (sc_cover_method s) then sm_upd sm (with_m_dont_cover_loops true) else ret tt) in
  do! (if has_identifier "state_enter_timestamp" (sc_log s) then sm_upd sm (with_m_log_enter_state true) else ret tt) in
  do! (if has_identifier "state_exit_timestamp" (sc_log s) then sm_upd sm (with_m_log_exit_state true) else ret tt) in
  sm_upd sm (fun m => with_m_is_thread is_thread (with_m_is_concept is_concept m)).

(** A state of the parent with the name of the machine goes away; [delete] *)
Definition attach_to_parent (sm parent : Z) (is_thread : bool) : M smheap unit :=
  if parent =? 0 then ret tt
  else
    do! (if is_thread then sm_upd parent (with_m_contains_threads true) else ret tt) in
    let! m := sm_at sm in
    let! st := state_named parent (m_id m) in
    do! (match st with
         | Some q =>
           let! x := state_at q in
           do! sm_upd parent (fun m => with_m_states (ptrs_erase q (m_states m)) m) in
           do! sm_upd sm (with_m_shadow (s_shadow x)) in
           modify (fun h => with_h_states (delete q (h_states h)) h)
         | None => ret tt
         end) in
    let! c := is_child_of (m_id m) parent in
    if c then ret tt else add_child parent sm.

(** One name of an import section; [done_] are the names seen. *)
Definition import_machine (sm : Z) (id : string) (depth : Z) (done_ : list string) (child : node)
  : M smheap (list string) :=
  match child with
  | Identifier alias =>
    if bool_decide (alias ∈ done_) then ret done_
    else
      let! n := next_order in
      let! ptr := new_sm (new_machine n alias sm depth) in
      do! sm_upd sm (fun m => with_m_unresolved_imports (m_unresolved_imports m ++ [mkImport alias alias ptr]) m) in
      do! sm_upd ptr (with_m_complete false) in
      do! add_child sm ptr in
      do! set_statemachine (id +:+ "." +:+ alias) ptr in
      do! set_qualified_id ptr (id +:+ "." +:+ alias) in
      ret (alias :: done_)
  | _ => ret done_
  end.

Definition process_imports (s : sections) (sm : Z) (id : string) (depth : Z) : M smheap unit :=
  let! m := sm_at sm in
  do! sm_upd sm (with_m_complete (bool_decide (sc_imports s = []))) in
  let! _ := foldM (ns_items (sc_imports s)) (fun done_ imp_ =>
    foldM (ns_at imp_ "import") (import_machine sm id depth) done_) (map ui_alias (m_unresolved_imports m)) in
  ret tt.

Definition process_events (s : sections) (sm : Z) : M smheap unit :=
  forM (ns_items (sc_events s)) (fun event_ =>
    forM (ns_at event_ "Events") (fun v =>
      let! n := name_of_id v in sm_upd sm (fun m => with_m_events (names_insert n (m_events m)) m))).

Definition action_of (n : string) (sm body : Z) : maction := mkMaction n sm body 0.

Definition process_actions (s : sections) (sm : Z) : M smheap unit :=
  forM (ns_items (sc_actions s)) (fun action_ =>
    forM (ns_at action_ "Actions") (fun v =>
      match v with
      | Identifier n => insert_action sm (action_of n 0 0)
      | Structdef n _ => insert_action sm (action_of n 0 (node_address v))
      | _ => ret tt
      end)).

(** on_enter and on_exit. *)
Definition process_handler (sm : Z) (l : list node) : M smheap unit :=
  match l with
  | [] => ret tt
  | v :: _ => match v with Structdef n _ => insert_action sm (action_of n sm (node_address v)) | _ => undef end
  end.

Definition process_handlers (s : sections) (id : string) (sm : Z) : M smheap unit :=
  let many what := fatal ("Statemachine '" +:+ id +:+ "': not more than one '" +:+ what +:+ "' allowed.") in
  if (1 <? length (sc_on_enter s))%nat then many "on_enter"
  else if (1 <? length (sc_on_exit s))%nat then many "on_exit"
  else
    do! process_handler sm (sc_on_enter s) in
    process_handler sm (sc_on_exit s).

(** categorization and dont_cover_states. *)
Definition state_info : Type := gmap string (list string) * list string.

Definition process_state (sm : Z) (info : state_info) (state : list node) : M smheap state_info :=
  match state with
  | [Structdef n content] =>
    if String.eqb n "categories" then
      ret (foldl (fun c e => match e with
                             | Symbol x k => <[x := default [] (c !! x) ++ [k]]> c
                             | _ => c
                             end) info.1 content, info.2)
    else if String.eqb n "dont_cover" || String.eqb n "dontcover" then
      ret (info.1, info.2 ++ omap (fun e => match e with Identifier x => Some x | _ => None end) content)
    else ret info
  | [Identifier n] => do! insert_state sm (state_of_id n) in ret info
  | _ => ret info
  end.

Definition process_states (s : sections) (sm : Z) : M smheap unit :=
  let! info := foldM (ns_items (sc_states s)) (process_state sm) (∅, []) in
  let! m := sm_at sm in
  forM (m_states m) (fun q =>
    let! n := name_at q in
    do! (if existsb (fun e => String.eqb e n) info.2 then state_upd q (with_s_dont_cover true) else ret tt) in
    match (info.1 : gmap string (list string)) !! n with
    | Some l => state_upd q (with_s_categories l)
    | None => ret tt
    end).

Definition process_join (s : sections) (id : string) (sm : Z) : M smheap unit :=
  match sc_join s with
  | [] => ret tt
  | [_] =>
    match ns_at (sc_join s) "join" with
    | [Identifier s1] =>
      do! sm_upd sm (fun m => with_m_join_state (with_s_id s1 (m_join_state m)) (with_m_join true m)) in
      let! m := sm_at sm in
      let! r := lookup fuel sm (m_join_state m) in
      do! sm_upd sm (with_m_join_state r.2) in
      if r.1 then ret tt
      else fatal ("Statemachine '" +:+ id +:+ "': '" +:+ s1 +:+ "' is not a state/state machine.")
    | [p] =>
      match read_qualified_id p with
      | None => fatal ("State machine '" +:+ id +:+ "', join: illformed state id." +:+ String (Ascii.ascii_of_nat 10) "")
      | Some q => sm_upd sm (fun m => with_m_join_state (state_of_q_id q) (with_m_join true m))
      end
    | _ => fatal ("State machine '" +:+ id +:+ "': illformed join statement: expected a single (qualified) state." +:+
                  String (Ascii.ascii_of_nat 10) "")
    end
  | _ => fatal ("State machine '" +:+ id +:+ "': Only one join allowed." +:+ String (Ascii.ascii_of_nat 10) "")
  end.

(** The last identifier and the last string of a label section. *)
Definition label_parts (l : list node) : string * string :=
  foldl (fun r e => match e with
                    | Identifier n => (n, r.2)
                    | String_literal t => (r.1, t)
                    | _ => r
                    end) ("", "") l.

Definition process_label (sm : Z) (p : list node) : M smheap unit :=
  let '(state_id, label_text) := label_parts (ns_at p "label") in
  if (String.length state_id =? 0)%nat then sm_upd sm (with_m_label label_text)
  else
    let! st := state_named sm state_id in
    do! (match st with Some q => state_upd q (with_s_label label_text) | None => ret tt end) in
    let! c := child_named sm state_id in
    match c with Some q => sm_upd q (with_m_label label_text) | None => ret tt end.
End one.

(** The machine [sm_definition] with the names of the machines around it in [prefix]. *)
Fixpoint process_statemachine (fuel : nat) (sm_definition : list node) (prefix : string) (parent depth thread_ctr : Z)
    (is_thread is_abstract : bool) : M front unit :=
  match fuel with
  | O => out_of_fuel
  | S fuel' =>
    let s := extract_sm_sections sm_definition in
    let '(is_abstract, is_concept, is_hidden) := extract_sm_modifiers sm_definition is_abstract in
    let! names := extract_sm_name_and_id sm_definition is_thread prefix thread_ctr in
    let '(id, sm_name) := names in
    let! ms := on_machines (gets statemachines) in
    let found := default 0 (smap_find id ms) in
    let! sm := (if found =? 0 then create_machine fuel s id sm_name parent depth else ret found) in
    do! on_machines (set_properties s sm is_concept is_hidden is_thread) in
    do! on_machines (attach_to_parent sm parent is_thread) in
    do! on_machines (process_imports s sm id depth) in
    do! forM (ns_items (ns_all sm_definition "Statemachine")) (fun sm_ =>
      process_statemachine fuel' (ns_at sm_ "Statemachine") (id +:+ ".") sm (depth + 1) 0 false is_abstract) in
    do! forM (ns_items (ns_all sm_definition "sm")) (fun sm_ =>
      process_statemachine fuel' (ns_at sm_ "sm") (id +:+ ".") sm (depth + 1) 0 false is_abstract) in
    let! _ := foldM (ns_items (sc_threads s)) (fun n sm_ =>
      do! process_statemachine fuel' (ns_at sm_ "thread") (id +:+ ".") sm (depth + 1) n true is_abstract in
      ret (n + 1)) 1 in
    do! on_machines (process_events s sm) in
    do! on_machines (process_actions s sm) in
    do! on_machines (process_handlers s id sm) in
    do! on_machines (process_states s sm) in
    let! _ := process_statemachine_helper_handle_transitions fuel sm id is_abstract sm_definition 1 in
    do! on_machines (process_join fuel s id sm) in
    forM (ns_items (sc_labels s)) (fun p => on_machines (process_label sm p))
  end.
End process.
