(* ===== verification/Compile.v ===== *)
(** * Compile: from state machine objects to tables

    core/src/state_machine_simulation_core_buildsms.cpp, compute_state_and_event_ids
    and its helpers: states, machines and events get numbers; transitions, containment,
    handlers and names are written to the tables of the execution context; guards,
    actions and handlers written in Oblectamenta are assembled. *)

From S2P Require Import Prelude MachineInt VMEnv VMTable Ast ExecCtx AsmMacros Asm VMAst Guards Machines Names.

(** ** State

    The objects, the tables, the machine with its assembler, the guards, and the
    local variables of compute_state_and_event_ids. *)
Record cstate := mkCstate {
  c_heap : smheap;
  c_ctx : ectx;
  c_asm : asm_state;
  c_guards : guards_t;
  c_ctr : Z;
  c_ev_ctr : Z;
  c_sm_ids : list (string * Z);       (* map_fullqualified_sm_id_to_computed_idx *)
  c_mmm : gmap Z (list Z)
}.

Definition with_c_heap (x : smheap) (c : cstate) : cstate :=
  mkCstate x (c_ctx c) (c_asm c) (c_guards c) (c_ctr c) (c_ev_ctr c) (c_sm_ids c) (c_mmm c).
Definition with_c_ctx (x : ectx) (c : cstate) : cstate :=
  mkCstate (c_heap c) x (c_asm c) (c_guards c) (c_ctr c) (c_ev_ctr c) (c_sm_ids c) (c_mmm c).
Definition with_c_asm (x : asm_state) (c : cstate) : cstate :=
  mkCstate (c_heap c) (c_ctx c) x (c_guards c) (c_ctr c) (c_ev_ctr c) (c_sm_ids c) (c_mmm c).
Definition with_c_guards (x : guards_t) (c : cstate) : cstate :=
  mkCstate (c_heap c) (c_ctx c) (c_asm c) x (c_ctr c) (c_ev_ctr c) (c_sm_ids c) (c_mmm c).
Definition with_c_ctr (x : Z) (c : cstate) : cstate :=
  mkCstate (c_heap c) (c_ctx c) (c_asm c) (c_guards c) x (c_ev_ctr c) (c_sm_ids c) (c_mmm c).
Definition with_c_ev_ctr (x : Z) (c : cstate) : cstate :=
  mkCstate (c_heap c) (c_ctx c) (c_asm c) (c_guards c) (c_ctr c) x (c_sm_ids c) (c_mmm c).
Definition with_c_sm_ids (x : list (string * Z)) (c : cstate) : cstate :=
  mkCstate (c_heap c) (c_ctx c) (c_asm c) (c_guards c) (c_ctr c) (c_ev_ctr c) x (c_mmm c).
Definition with_c_mmm (x : gmap Z (list Z)) (c : cstate) : cstate :=
  mkCstate (c_heap c) (c_ctx c) (c_asm c) (c_guards c) (c_ctr c) (c_ev_ctr c) (c_sm_ids c) x.

Definition on_heap {A} (m : M smheap A) : M cstate A := zoom c_heap with_c_heap m.
Definition on_tables {A} (m : M ectx A) : M cstate A := zoom c_ctx with_c_ctx m.
Definition on_asm {A} (m : M asm_state A) : M cstate A := zoom c_asm with_c_asm m.
Definition on_guards {A} (m : M guards_t A) : M cstate A := zoom c_guards with_c_guards m.

(** The numbers handed out are bounded by the number of objects in memory. *)
Definition next_ctr : M cstate Z := fun c => Ok (c_ctr c) (with_c_ctr (c_ctr c + 1) c).
Definition next_ev_ctr : M cstate Z := fun c => Ok (c_ev_ctr c) (with_c_ev_ctr (c_ev_ctr c + 1) c).

(** std::sort: what it does with elements neither of which is smaller is not fixed. *)
Class StdSort := {
  std_sort : forall {A : Type}, (A -> A -> bool) -> list A -> list A
}.

(** [lt] is a strict weak order on the elements of [l]. *)
Definition strict_weak {A} (lt : A -> A -> bool) (l : list A) : Prop :=
  (forall x, x ∈ l -> lt x x = false) /\
  (forall x y z, x ∈ l -> y ∈ l -> z ∈ l -> lt x y = true -> lt y z = true -> lt x z = true) /\
  (forall x y z, x ∈ l -> y ∈ l -> z ∈ l -> lt x y = false -> lt y z = false -> lt x z = false).

Class StdSortLaws `{StdSort} := {
  std_sort_perm {A} (lt : A -> A -> bool) l : strict_weak lt l -> Permutation (std_sort lt l) l;
  std_sort_sorted {A} (lt : A -> A -> bool) l : strict_weak lt l ->
    Sorting.Sorted.StronglySorted (fun x y => lt y x = false) (std_sort lt l)
}.

(** ** Walking over the machines

    [m], the machines that have been visited, is an in-out parameter. The callback
    runs before the states and the children of the machine are read. *)
Section traverse.
Context (f : Z -> M cstate unit).

Fixpoint traverse_sm (fuel : nat) (m : gset Z) (sm : Z) : M cstate (gset Z) :=
  match fuel with
  | O => out_of_fuel
  | S fuel' =>
    do! f sm in
    let! mach := on_heap (sm_at sm) in
    let! m := foldM (m_states mach) (fun m p =>
      let! s := on_heap (state_at p) in
      if negb (s_is_sm s) || (s_smp s =? 0) then ret m
      else if bool_decide (s_smp s ∈ m) then ret m
      else traverse_sm fuel' ({[s_smp s]} ∪ m) (s_smp s)) m in
    foldM (m_children mach) (fun m c =>
      if bool_decide (c ∈ m) then ret m else traverse_sm fuel' ({[c]} ∪ m) c) m
  end.

Definition traverse_sms (fuel : nat) (sms : list Z) : M cstate unit :=
  let! _ := foldM sms (fun m sm =>
    if bool_decide (sm ∈ m) then ret m
    else let! m := traverse_sm fuel m sm in ret ({[sm]} ∪ m)) ∅ in
  ret tt.
End traverse.

(** ** Oblectamenta code in guards, actions and handlers *)

(** An identifier has no children. *)
Fixpoint is_expression_compilable_to_oblectamenta (expr : node) : bool :=
  match expr with
  | String_literal _ | Int_literal _ | Float_literal _ | Long_literal _ | Uint8_literal _ => true
  | Symbol _ kind => String.eqb kind "OblectamentaDataLabel"
  | Identifier _ => true
  | Binary_operator _ l r =>
    is_expression_compilable_to_oblectamenta l && is_expression_compilable_to_oblectamenta r
  | Unary_operator _ cs | Func_call cs | Structdef _ cs | Scope cs | Other_node _ cs =>
    forallb is_expression_compilable_to_oblectamenta cs
  end.

(** The content of [oblectamenta{ text{...} }]. *)
Definition oblectamenta_assembly_code_guard_rhs (rhs : node) : option (list node) :=
  match rhs with
  | Structdef nm (Structdef nm' text :: _) =>
    if String.eqb nm "oblectamenta" && String.eqb nm' "text" then Some text else None
  | _ => None
  end.

(** The same as the first child of an action. *)
Definition oblectamenta_assembly_code (action : node) : option (list node) :=
  match action with
  | Structdef _ (e :: _) => oblectamenta_assembly_code_guard_rhs e
  | _ => None
  end.

(** ** Fields of a row of the transition table *)

Definition set_arrow (p sm f t e : Z) (r : transition_t) : transition_t :=
  mkTransition p (root_sms r) sm f t e (rel_idx r) (is_native r) (oblectamenta_guard_valid r)
    (oblectamenta_guard r) (guard r) (a1 r) (a2 r) (a3 r) (script_guard r).

Definition set_guard_fields (native : Z) (script : string) (valid : bool) (loc : Z) (r : transition_t) : transition_t :=
  mkTransition (props r) (root_sms r) (smp r) (from r) (to r) (ev r) (rel_idx r) (is_native r)
    valid loc native (a1 r) (a2 r) (a3 r) script.

Definition set_action_fields (native : bool) (x y z : action_slot) (r : transition_t) : transition_t :=
  mkTransition (props r) (root_sms r) (smp r) (from r) (to r) (ev r) (rel_idx r) native
    (oblectamenta_guard_valid r) (oblectamenta_guard r) (guard r) x y z (script_guard r).

Definition set_root_sms (x : Z) (r : transition_t) : transition_t :=
  mkTransition (props r) x (smp r) (from r) (to r) (ev r) (rel_idx r) (is_native r)
    (oblectamenta_guard_valid r) (oblectamenta_guard r) (guard r) (a1 r) (a2 r) (a3 r) (script_guard r).

Section compile.
Context `{Target} `{Ceps} `{StdSort}.
(** The syntax tree at an address (nothing at the null pointer), the native guards, and
    fuel: for recursions over machines, and for the assembler. *)
Context (ast : Z -> option node) (user_supplied_guards : gmap string Z).
Context (fuel asm_fuel asm_rounds : nat).

Definition body_code (body : Z) : option (list node) := ast body ≫= oblectamenta_assembly_code.

Definition run_oblectamenta_assembler (obl_block : list node) (ev_to_id : gmap string Z) : M cstate unit :=
  try_catch
    (forM obl_block (fun e => match e with
       | Structdef nm cs =>
         if String.eqb nm "asm" then
           on_asm (oblectamenta_assembler ev_to_id asm_fuel asm_rounds cs true)
         else ret tt
       | Uint8_literal v => on_asm (in_vm (append_text v))
       | _ => ret tt
       end))
    (fun e => match e with
     | ThrownString msg => throw (RuntimeError ("***Error oblectamenta_assembler:" +:+ msg +:+ " "))
     | _ => throw e
     end).

(** [x = smp->vm.text_loc; run_oblectamenta_assembler(...)]: where the code starts. *)
Definition assemble_at (text : list node) : M cstate Z :=
  let! loc := on_asm (in_vm (gets text_loc)) in
  let! evs := gets (fun c => ev_to_id (c_ctx c)) in
  do! run_oblectamenta_assembler text evs in
  ret loc.

(** ** Numbers of states and machines *)

Definition skip_cover (m : machine) (non_cover_sm : bool) : bool := Bool.eqb (m_cover m) non_cover_sm.

Definition states_of (sm : Z) : M cstate (list (Z * mstate)) :=
  let! m := on_heap (sm_at sm) in
  foldM (m_states m) (fun acc p => let! s := on_heap (state_at p) in ret (acc ++ [(p, s)])) [].

Definition number_state (p : Z) (s : mstate) : M cstate unit :=
  let! n := next_ctr in
  do! on_heap (state_upd p (with_s_idx n)) in
  if s_is_sm s then on_heap (sm_upd (s_smp s) (with_m_idx n)) else ret tt.

Definition compute_state_ids (non_cover_sm : bool) (cur_sm : Z) : M cstate unit :=
  let! m := on_heap (sm_at cur_sm) in
  if skip_cover m non_cover_sm then ret tt
  else
    let! n := next_ctr in
    do! on_heap (sm_upd cur_sm (with_m_idx n)) in
    let! ss := states_of cur_sm in
    forM (std_sort (fun a b => s_order a.2 <? s_order b.2) ss) (fun e => number_state e.1 e.2).

Definition set_assoc_sms (cur_sm : Z) : M cstate unit :=
  let! m := on_heap (sm_at cur_sm) in
  do! on_tables (set_assoc_sm (m_idx m) cur_sm) in
  forM (m_states m) (fun p =>
    let! s := on_heap (state_at p) in on_tables (set_assoc_sm (s_idx s) cur_sm)).

(** ** Numbers of events *)

(** The global symbols: name and kind, scope by scope. *)
Definition number_event_symbols (scopes : list (list (string * string))) : M cstate unit :=
  forM (mjoin scopes) (fun se =>
    if String.eqb se.2 "Event" then
      let! n := next_ev_ctr in
      on_tables (modify (fun c => with_ev_to_id (<[se.1 := n]> (ev_to_id c)) c))
    else ret tt).

Definition number_event (id : string) : M cstate unit :=
  let! evs := gets (fun c => ev_to_id (c_ctx c)) in
  match evs !! id with
  | Some _ => ret tt
  | None =>
    let! n := next_ev_ctr in
    on_tables (modify (fun c => with_ev_to_id (<[id := n]> (ev_to_id c)) c))
  end.

Definition number_events (cur_sm : Z) : M cstate unit :=
  let! m := on_heap (sm_at cur_sm) in
  forM (m_transitions m) (fun t => forM (t_events t) number_event).

(** ** Ends of transitions *)

(** The index of the machine behind an end. *)
Definition machine_end (s : mstate) : M smheap mstate :=
  let! m := sm_at (s_smp s) in
  do! assert_ (m_idx m >? 0) in
  ret (with_s_idx (m_idx m) s).

(** The index of the first state of [owner] with the same id. *)
Definition state_end (owner : Z) (s : mstate) : M smheap mstate :=
  let! m := sm_at owner in
  let! st := findM (m_states m) (fun p => let! x := state_at p in ret (String.eqb (s_id s) (s_id x))) in
  let! s := match st with
            | Some p => let! x := state_at p in ret (with_s_idx (s_idx x) s)
            | None => ret s
            end in
  do! assert_ (s_idx s >? 0) in
  ret s.

(** An end against one state of the machine. *)
Definition own_end (state s : mstate) : M smheap mstate :=
  if s_is_sm s then machine_end s
  else if String.eqb (s_id s) (s_id state) then
    do! assert_ (s_idx state >? 0) in ret (with_s_idx (s_idx state) s)
  else ret s.

Definition link_transition (cur_sm : Z) (state : mstate) (t : mtransition) : M smheap mtransition :=
  let! from := own_end state (t_from t) in
  let! to :=
    (if negb (t_orig_parent t =? 0) && negb (t_orig_parent t =? cur_sm) then
       if s_is_sm (t_to t) then machine_end (t_to t) else state_end (t_orig_parent t) (t_to t)
     else
       let! to := (if negb (s_is_sm (t_to t)) && negb (s_smp (t_to t) =? cur_sm)
                   then state_end (s_smp (t_to t)) (t_to t) else ret (t_to t)) in
       own_end state to) in
  ret (with_t_to to (with_t_from from t)).

Definition mapM_list {S A B} (f : A -> M S B) (l : list A) : M S (list B) :=
  foldM l (fun acc x => let! y := f x in ret (acc ++ [y])) [].

Definition link_transitions (cur_sm : Z) : M cstate unit :=
  let! m := on_heap (sm_at cur_sm) in
  forM (m_states m) (fun p =>
    let! state := on_heap (state_at p) in
    let! m := on_heap (sm_at cur_sm) in
    let! ts := on_heap (mapM_list (link_transition cur_sm state) (m_transitions m)) in
    on_heap (sm_upd cur_sm (with_m_transitions ts))).

(** [mmm]: for a machine A, the machines that hold a transition with source A. *)
Definition foreign_holders (sm : Z) : M cstate unit :=
  let! m := on_heap (sm_at sm) in
  forM (m_transitions m) (fun t =>
    if negb (s_is_sm (t_from t)) || (s_smp (t_from t) =? sm) then ret tt
    else
      let a := s_smp (t_from t) in
      modify (fun c => with_c_mmm (<[a := ptrs_insert sm (default [] (c_mmm c !! a))]> (c_mmm c)) c)).

(** ** The table of transitions *)

Definition push_transition (t : transition_t) : M cstate Z :=
  let! n := gets (fun c => Z.of_nat (length (transitions (c_ctx c)))) in
  do! on_tables (modify (fun c => with_transitions (transitions c ++ [t]) c)) in
  ret n.

(** The guard: a native one, or Oblectamenta code, or a script. The map of guards gets
    a null pointer for a name it does not have. *)
Definition compile_guard (t : mtransition) (tt' : transition_t) : M cstate transition_t :=
  let native := default 0 (user_supplied_guards !! t_guard t) in
  let tt' := set_guard_fields native "" false 0 tt' in
  if negb (native =? 0) || negb (has_guard t) then ret tt'
  else
    let! g := on_guards (guard_body (t_guard t)) in
    let tt' := set_guard_fields 0 (t_guard t) false 0 tt' in
    let at_text := fun text : list node =>
      let! loc := assemble_at text in ret (set_guard_fields 0 (t_guard t) true loc tt') in
    match g with
    | None => ret tt'
    | Some guard_expr =>
      match oblectamenta_assembly_code_guard_rhs guard_expr with
      | Some text => at_text text
      | None =>
        if is_expression_compilable_to_oblectamenta guard_expr then
          match oblectamenta_assembly_code_guard_rhs
                  (Structdef "oblectamenta" [Structdef "text" [Structdef "asm" [guard_expr]]]) with
          | Some text => at_text text
          | None => throw (RuntimeError "***Error oblectamenta_assembler: illformed guard")
          end
        else ret tt'
      end
    end.

(** Slot [i] of the actions, without native implementation. *)
Definition compile_slot (actions : list maction) (i : nat) : M cstate action_slot :=
  match actions !! i with
  | None => ret no_action
  | Some a =>
    match body_code (a_body a) with
    | Some text => let! loc := assemble_at text in ret (mkAction true loc (a_body a))
    | None => ret (mkAction false 0 (a_body a))
    end
  end.

Definition native_slot (actions : list maction) (i : nat) : action_slot :=
  match actions !! i with Some a => mkAction false (a_native a) 0 | None => no_action end.

Definition compile_actions (actions : list maction) (tt' : transition_t) : M cstate transition_t :=
  match actions with
  | a :: _ =>
    if a_native a =? 0 then
      let! s1 := compile_slot actions 0 in
      let! s2 := compile_slot actions 1 in
      let! s3 := compile_slot actions 2 in
      ret (set_action_fields false s1 s2 s3 tt')
    else ret (set_action_fields true (native_slot actions 0) (native_slot actions 1) (native_slot actions 2) tt')
  | [] => ret tt'
  end.

(** Whether the transition [t] of [sm_from] belongs to the rows of [sm_to]. *)
Definition row_of (sm_from sm_to : Z) (t : mtransition) : bool :=
  if negb (sm_from =? sm_to) then s_is_sm (t_from t) && (s_smp (t_from t) =? sm_to)
  else negb (s_is_sm (t_from t)) &&
       ((s_parent (t_from t) =? 0) || (s_parent (t_from t) =? sm_from)).

(** One row. Of the events of a transition only the first one counts. *)
Definition compile_transition (sm_to : Z) (t : mtransition) : M cstate mtransition :=
  let! m := on_heap (sm_at sm_to) in
  do! assert_ (s_idx (t_from t) >? 0) in
  do! assert_ (s_idx (t_to t) >? 0) in
  let! ev := match t_events t with
             | [] => ret 0
             | e :: _ =>
               let! evs := gets (fun c => ev_to_id (c_ctx c)) in
               do! assert_ (default 0 (evs !! e) >? 0) in ret (default 0 (evs !! e))
             end in
  let tt' := set_arrow (if t_abstract t then TRANS_PROP_ABSTRACT else 0) (m_idx m)
               (s_idx (t_from t)) (s_idx (t_to t)) ev transition_default in
  let! tt' := compile_guard t tt' in
  let! tt' := compile_actions (t_actions t) tt' in
  let! n := push_transition tt' in
  do! on_tables (modify (fun c =>
    match state_to_first_transition c !! from tt' with
    | Some _ => c
    | None => with_state_to_first_transition (<[from tt' := n]> (state_to_first_transition c)) c
    end)) in
  ret (with_t_id n t).

Definition insert_transitions (sm_from sm_to : Z) : M cstate unit :=
  let! m := on_heap (sm_at sm_from) in
  let! ts := mapM_list (fun t =>
    if row_of sm_from sm_to t then compile_transition sm_to t else ret t) (m_transitions m) in
  on_heap (sm_upd sm_from (with_m_transitions ts)).

(** The rows of a machine: a row that marks its start, transitions held by other
    machines, its own transitions. *)
Definition build_transitions_table (non_cover_sm : bool) (cur_sm : Z) : M cstate unit :=
  let! m := on_heap (sm_at cur_sm) in
  if skip_cover m non_cover_sm then ret tt
  else
    do! assert_ (m_idx m >? 0) in
    let! n := push_transition (set_arrow 0 (m_idx m) 0 0 0 transition_default) in
    do! on_tables (modify (fun c => with_state_to_first_transition
          (<[m_idx m := n]> (state_to_first_transition c)) c)) in
    let! mmm := gets c_mmm in
    do! forM (default [] (mmm !! cur_sm)) (fun sm => insert_transitions sm cur_sm) in
    insert_transitions cur_sm cur_sm.

(** ** Containment and flags *)

Definition set_label (idx : Z) (label : string) : M ectx unit :=
  if (String.length label =? 0)%nat then ret tt
  else
    do! set_inf idx HAS_LABEL true in
    modify (fun c => with_state_labels (<[idx := label]> (state_labels c)) c).

Definition set_log_flags (idx : Z) (m : machine) : M ectx unit :=
  do! set_inf idx LOG_ENTER_TIME (m_log_enter_state m) in
  set_inf idx LOG_EXIT_TIME (m_log_exit_state m).

Definition set_join (m : machine) : M cstate unit :=
  if negb (m_join m) then ret tt
  else
    let! st := on_heap (findM (m_states m) (fun p =>
      let! s := state_at p in ret (String.eqb (s_id s) (s_id (m_join_state m))))) in
    match st with
    | Some p => let! s := on_heap (state_at p) in on_tables (set_join_state (m_idx m) (s_idx s))
    | None => ret tt
    end.

Definition set_state_info (m : machine) (s : mstate) : M ectx unit :=
  do! set_parent (s_idx s) (m_idx m) in
  do! set_inf (s_idx s) INIT (is_initial s) in
  do! set_inf (s_idx s) DONT_COVER (s_dont_cover s) in
  do! set_inf (s_idx s) FINAL (is_final s) in
  do! set_inf (s_idx s) IN_THREAD (m_is_thread m) in
  do! set_log_flags (s_idx s) m in
  do! set_label (s_idx s) (s_label s) in
  do! (if is_initial s then set_initial_state (m_idx m) (s_idx s) else ret tt) in
  if is_final s then set_final_state (m_idx m) (s_idx s) else ret tt.

Definition set_child_info (m child : machine) : M ectx unit :=
  do! set_parent (m_idx child) (m_idx m) in
  do! (if m_is_thread child then set_inf (m_idx m) REGION true else ret tt) in
  do! set_log_flags (m_idx child) m in
  set_label (m_idx child) (m_label child).

Definition set_machine_info (m : machine) : M ectx unit :=
  do! set_log_flags (m_idx m) m in
  do! set_label (m_idx m) (m_label m) in
  do! set_inf (m_idx m) SM true in
  do! set_inf (m_idx m) THREAD (m_is_thread m) in
  do! set_inf (m_idx m) JOIN (m_join m) in
  do! (if m_dont_cover_loops m then set_inf (m_idx m) DONT_COVER_LOOPS true else ret tt) in
  if m_hidden m then set_inf (m_idx m) HIDDEN true else ret tt.

Definition set_parent_info (cur_sm : Z) : M cstate unit :=
  let! m := on_heap (sm_at cur_sm) in
  do! on_tables (set_machine_info m) in
  do! set_join m in
  do! forM (m_states m) (fun p =>
    let! s := on_heap (state_at p) in on_tables (set_state_info m s)) in
  forM (m_children m) (fun q =>
    let! child := on_heap (sm_at q) in on_tables (set_child_info m child)).

(** ** Handlers *)

Definition set_handler (sm : Z) (a : maction) (obl native : Z -> Z -> M ectx unit) (flag : Z) : M cstate unit :=
  let! m := on_heap (sm_at sm) in
  do! (match body_code (a_body a) with
       | Some text =>
         let! loc := on_asm (in_vm (gets text_loc)) in
         do! on_tables (obl (m_idx m) loc) in
         let! _ := assemble_at text in ret tt
       | None => on_tables (native (m_idx m) (a_native a))
       end) in
  on_tables (set_inf (m_idx m) flag true).

Definition set_handlers (cur_sm : Z) : M cstate unit :=
  let! m := on_heap (sm_at cur_sm) in
  forM (m_actions m) (fun a =>
    if String.eqb (a_id a) "on_enter" then
      set_handler cur_sm a set_on_enter_oblectamenta set_on_enter ENTER
    else if String.eqb (a_id a) "on_exit" then
      set_handler cur_sm a set_on_exit_oblectamenta set_on_exit EXIT
    else ret tt).

(** ** Children *)

Definition push_child (x : Z) : M ectx unit := modify (fun c => with_children (children c ++ [x]) c).

Definition set_children (cur_sm : Z) : M cstate unit :=
  let! m := on_heap (sm_at cur_sm) in
  let! n := gets (fun c => Z.of_nat (length (children (c_ctx c)))) in
  do! on_tables (vset state_to_children with_state_to_children (m_idx m) n) in
  do! on_tables (push_child (m_idx m)) in
  do! forM (m_states m) (fun p => let! s := on_heap (state_at p) in on_tables (push_child (s_idx s))) in
  do! forM (m_children m) (fun q => let! c := on_heap (sm_at q) in on_tables (push_child (m_idx c))) in
  on_tables (push_child 0).

(** ** Names *)

Definition name_index (name : string) (idx : Z) : M cstate unit :=
  modify (fun c => with_c_sm_ids (smap_set name idx (c_sm_ids c)) c).

Definition set_names (cur_sm : Z) : M cstate unit :=
  let! m := on_heap (sm_at cur_sm) in
  let! name := on_heap (get_fullqualified_id fuel "." (mkRep true true cur_sm (m_id m) (m_idx m))) in
  do! name_index name (m_idx m) in
  forM (m_states m) (fun p =>
    let! s := on_heap (state_at p) in
    let! name := on_heap (get_full_qualified_id fuel s) in
    name_index name (s_idx s)).

(** ** The outermost machine of each row *)

(** [for (; parent_vec[p]; p = parent_vec[p]);] *)
Fixpoint root_loop (n : nat) (p : Z) : M ectx Z :=
  match n with
  | O => out_of_fuel
  | S n' =>
    let! q := vget parent_vec p in
    if q =? 0 then ret p else root_loop n' q
  end.

Definition root_of (t : transition_t) : M ectx transition_t :=
  let! size := gets (fun c => Z.of_nat (length (parent_vec c))) in
  if size >? smp t then let! p := root_loop fuel (smp t) in ret (set_root_sms p t)
  else ret (set_root_sms (smp t) t).

Definition compute_roots : M ectx unit :=
  let! ts := gets transitions in
  let! ts' := mapM_list root_of ts in
  modify (with_transitions ts').

(** ** Shadow states *)

Definition get_state_idx (s : state_rep_t) : M smheap Z :=
  let! m := sm_at (r_smp s) in
  if r_is_sm s then ret (m_idx m)
  else
    let! st := findM (m_states m) (fun p => let! x := state_at p in ret (String.eqb (s_id x) (r_sid s))) in
    match st with Some p => let! x := state_at p in ret (s_idx x) | None => ret (-1) end.

Definition shadow_index (r : state_rep_t) : M smheap Z :=
  if r_valid r then get_state_idx r else ret (-1).

Definition set_shadow_states (cur_sm : Z) : M cstate unit :=
  let! m := on_heap (sm_at cur_sm) in
  let! x := on_heap (shadow_index (m_shadow m)) in
  do! on_tables (vset shadow_state with_shadow_state (m_idx m) x) in
  forM (m_states m) (fun p =>
    let! s := on_heap (state_at p) in
    if s_is_sm s then ret tt
    else
      let! x := on_heap (shadow_index (s_shadow s)) in
      on_tables (vset shadow_state with_shadow_state (s_idx s) x)).

(** ** compute_state_and_event_ids *)

Section main.
Context (scopes : list (list (string * string))).

Definition number_all (smsv : list Z) : M cstate unit :=
  do! traverse_sms (compute_state_ids true) fuel smsv in
  let! old_state_ctr := gets c_ctr in
  do! traverse_sms (compute_state_ids false) fuel smsv in
  let! ctr := gets c_ctr in
  do! (if old_state_ctr =? ctr then ret tt
       else on_tables (modify (with_start_of_covering_states old_state_ctr))) in
  on_tables (modify (with_number_of_states (ctr - 1))).

Definition build_all_transitions (smsv : list Z) : M cstate unit :=
  do! traverse_sms (build_transitions_table true) fuel smsv in
  let! count := gets (fun c => Z.of_nat (length (transitions (c_ctx c)))) in
  do! traverse_sms (build_transitions_table false) fuel smsv in
  let! n := gets (fun c => Z.of_nat (length (transitions (c_ctx c)))) in
  if count =? n then ret tt else on_tables (modify (with_start_of_covering_transitions count)).

(** Both counters start at 1. *)
Definition number_objects (smsv : list Z) : M cstate unit :=
  do! modify (fun c => with_c_mmm ∅ (with_c_ctr 1 (with_c_ev_ctr 1 c))) in
  do! number_event_symbols scopes in
  do! on_tables (modify (fun c => with_state_to_first_transition ∅ (with_transitions [] c))) in
  number_all smsv.

Definition build_rows (smsv : list Z) : M cstate unit :=
  do! traverse_sms set_assoc_sms fuel smsv in
  do! traverse_sms number_events fuel smsv in
  do! traverse_sms link_transitions fuel smsv in
  do! traverse_sms foreign_holders fuel smsv in
  build_all_transitions smsv.

Definition fill_tables (smsv : list Z) : M cstate unit :=
  do! traverse_sms set_parent_info fuel smsv in
  do! traverse_sms set_handlers fuel smsv in
  do! on_tables init_state_to_children in
  traverse_sms set_children fuel smsv.

Definition name_states (smsv : list Z) : M cstate Z :=
  do! traverse_sms set_names fuel smsv in
  do! on_tables compute_roots in
  let! ctr := gets c_ctr in
  do! on_tables (modify (fun c => with_shadow_state (vec_resize ctr 0 (shadow_state c)) c)) in
  do! traverse_sms set_shadow_states fuel smsv in
  ret ctr.

Definition compute_state_and_event_ids (sms : list (string * Z)) : M cstate Z :=
  let smsv := map snd sms in
  do! number_objects smsv in
  do! build_rows smsv in
  do! fill_tables smsv in
  name_states smsv.
End main.
End compile.
