(* ===== verification/Shadow.v ===== *)
(** * Shadow: shadow transitions, and the tables as a whole

    core/src/sm_sim_core_shadow_states.cpp: a transition between states that have
    shadow states triggers, when it fires, the most specific compatible transition
    between the shadow states. Then the end of processs_content in
    core/src/state_machine_simulation_core_buildsms.cpp, which fills the remaining
    tables. *)

From S2P Require Import Prelude MachineInt VMEnv VMTable Ast ExecCtx AsmMacros Asm Machines Compile.

(** ** The orders on transitions *)

(** Abstract, without event and guard: compatible with everything. *)
Definition wildcard (t : transition_t) : bool :=
  negb (Z.land (props t) TRANS_PROP_ABSTRACT =? 0) && (ev t <=? 0) &&
  (String.length (script_guard t) =? 0)%nat.

Definition trans_le (lhs rhs : transition_t) : bool :=
  if wildcard lhs then true
  else if (ev lhs =? ev rhs) && String.eqb (script_guard lhs) (script_guard rhs) then true
  else if negb (ev lhs =? ev rhs) then false
  else if (String.length (script_guard lhs) =? 0)%nat then true
  else String.eqb (script_guard lhs) (script_guard rhs).

Definition trans_eq (lhs rhs : transition_t) : bool :=
  if wildcard lhs && wildcard rhs then true
  else (ev lhs =? ev rhs) && String.eqb (script_guard lhs) (script_guard rhs).

Definition trans_lt (lhs rhs : transition_t) : bool := trans_le lhs rhs && negb (trans_eq lhs rhs).
Definition trans_gt (lhs rhs : transition_t) : bool := trans_le rhs lhs && negb (trans_eq lhs rhs).

Section shadow.
Context `{StdSort}.
(** The names of states and events in messages. *)
Context (state_name_of event_name_of : Z -> string).

(** [collect_matching_indices] *)
Definition collect_matching_indices (n : Z) (pred : Z -> M ectx bool) : M ectx (list Z) :=
  foldM (zrange 0 n) (fun acc j => let! b := pred j in ret (if b then acc ++ [j] else acc)) [].

Definition count_transitions : M ectx Z := gets (fun c => Z.of_nat (length (transitions c))).

Definition compute_compatible_transitions (t : transition_t) : M ectx (list Z) :=
  let! shadow_from := vget shadow_state (from t) in
  let! shadow_to := vget shadow_state (to t) in
  let! n := count_transitions in
  let! all := collect_matching_indices n (fun i =>
    let! x := vget transitions i in ret ((from x =? shadow_from) && (to x =? shadow_to))) in
  foldM all (fun r i => let! x := vget transitions i in ret (if trans_le x t then r ++ [i] else r)) [].

(** The beginning of both messages. *)
Definition describe (t : transition_t) : string :=
  " The transition " +:+ state_name_of (from t) +:+ " -> " +:+ state_name_of (to t) +:+ " " +:+
  (if ev t =? 0 then "" else "triggered by event " +:+ event_name_of (ev t) +:+ " ") +:+
  (if (String.length (script_guard t) =? 0)%nat then "" else "guarded by " +:+ script_guard t +:+ " ").

Definition shadow_error (t : transition_t) (what : string) : M ectx Z :=
  let! f := vget shadow_state (from t) in
  let! d := vget shadow_state (to t) in
  throw (Fatal (-1) (describe t +:+ what +:+ state_name_of f +:+ " -> " +:+ state_name_of d +:+ ".")).

Definition err_no_candidates (t : transition_t) : M ectx Z :=
  shadow_error t "requires a compatible transition ".
Definition err_ambiguous (t : transition_t) : M ectx Z :=
  shadow_error t " is ambiguous, there are multiple transitions of the form ".

(** The row with index [i]. *)
Definition row (ts : list transition_t) (i : Z) : transition_t := default transition_default (zlookup ts i).

Definition best_candidate (t : transition_t) (candidates : list Z) : M ectx Z :=
  match candidates with
  | [] => err_no_candidates t
  | [i] => ret i
  | _ =>
    let! ts := gets transitions in
    match reverse (std_sort (fun i j => trans_lt (row ts i) (row ts j)) candidates) with
    | i :: j :: _ => if trans_gt (row ts i) (row ts j) then ret i else err_ambiguous t
    | _ => undef
    end
  end.

(** [err_no_candidates] and [err_ambiguous] do not return. *)
Definition compute_shadow_transitions : M ectx unit :=
  let! n := count_transitions in
  let! shadowed := collect_matching_indices n (fun i =>
    let! x := vget transitions i in
    let! f := vget shadow_state (from x) in
    if f >? 0 then let! d := vget shadow_state (to x) in ret (d >? 0) else ret false) in
  forM shadowed (fun st =>
    let! t := vget transitions st in
    let! candidates := compute_compatible_transitions t in
    let! best := best_candidate t candidates in
    vset shadow_transitions with_shadow_transitions st best).
End shadow.

(** ** The tables of a script *)

Section tables.
Context `{Target} `{Ceps} `{StdSort}.
Context (ast : Z -> option node) (user_supplied_guards : gmap string Z).
Context (fuel asm_fuel asm_rounds : nat).
Context (scopes : list (list (string * string))) (exported : list string).

(** [ev_to_id[e]]: a new name gets the number 0. *)
Definition export_event (e : string) : M ectx unit :=
  modify (fun c =>
    let n := default 0 (ev_to_id c !! e) in
    with_exported_events ({[n]} ∪ exported_events c) (with_ev_to_id (<[e := n]> (ev_to_id c)) c)).

Definition invert (m : list (string * Z)) : gmap Z string :=
  foldl (fun r e => <[e.2 := e.1]> r) ∅ m.

(** The order of the events is the one of std::map; the numbers differ. *)
Definition build_tables : M cstate unit :=
  let! sms := on_heap (gets statemachines) in
  let! _ := compute_state_and_event_ids ast user_supplied_guards fuel asm_fuel asm_rounds scopes sms in
  let! ids := gets c_sm_ids in
  let names := invert ids in
  do! on_tables (modify (fun c => with_id_to_ev
        (<[0 := "null"]> (map_fold (fun e n r => <[n := e]> r) (id_to_ev c) (ev_to_id c))) c)) in
  do! on_tables (modify (fun c => with_state_id_to_idx ids (with_idx_to_state_id names c))) in
  do! on_tables (forM exported export_event) in
  do! on_tables (modify (fun c => with_shadow_transitions (replicate (length (transitions c)) (-1)) c)) in
  let! evs := gets (fun c => id_to_ev (c_ctx c)) in
  do! on_tables (compute_shadow_transitions (fun s => default "" (names !! s)) (fun e => default "" (evs !! e))) in
  on_tables init_coverage_structures.
End tables.
