(* ===== verification/EventQueueSpec.v ===== *)
(** * EventQueueSpec: the queue of events refines a list

    A ring buffer holds a list of records in consecutive slots. The queue of events is a
    FIFO in which a unique event replaces the queued event with its name; this needs
    that the buffers do not overflow. *)

From S2P Require Import Prelude EventQueue.

(** ** Slots *)

Section slots.
Context (sz n : Z).
Hypothesis (Hsz : 0 < sz).
Hypothesis (Hn : 0 < n).

(** The offset of the record number [k] when the first record is in slot [i]. *)
Definition slot (i k : Z) : Z := (i + k) mod n * sz.

Lemma slot_inj i k k' : 0 <= k < n -> 0 <= k' < n -> slot i k = slot i k' -> k = k'.
Proof.
  unfold slot. intros Hk Hk' Heq. apply Z.mul_reg_r in Heq; [|lia].
  pose proof (Z.div_mod (i + k) n). pose proof (Z.div_mod (i + k') n).
  assert ((i + k) / n = (i + k') / n \/ (i + k) / n - (i + k') / n <= -1 \/ (i + k) / n - (i + k') / n >= 1) as [He|[He|He]] by lia;
    [lia|nia..].
Qed.

Lemma slot_range i k : 0 <= slot i k /\ slot i k + sz <= n * sz.
Proof. unfold slot. pose proof (Z.mod_pos_bound (i + k) n). nia. Qed.

Lemma slot_shift i k : slot ((i + 1) mod n) k = slot i (k + 1).
Proof. unfold slot. rewrite Zplus_mod_idemp_l. do 2 f_equal. lia. Qed.

Lemma slot_wrap i k : slot i (k + n) = slot i k.
Proof.
  unfold slot. replace (i + (k + n)) with (i + k + 1 * n) by lia. by rewrite Z_mod_plus_full.
Qed.

(** The offset behind a slot. *)
Lemma slot_next i k :
  (if slot i k + sz >=? n * sz then 0 else slot i k + sz) = slot i (k + 1).
Proof.
  unfold slot. pose proof (Z.mod_pos_bound (i + k) n Hn).
  replace (i + (k + 1)) with (i + k + 1) by lia.
  rewrite <- (Zplus_mod_idemp_l (i + k) 1 n). set (a := (i + k) mod n) in *.
  destruct (decide (a + 1 = n)) as [Ha|].
  - rewrite Ha, Z_mod_same_full. case_ifs; zbool; nia.
  - rewrite (Z.mod_small (a + 1)) by lia. case_ifs; zbool; nia.
Qed.
End slots.

(** ** Ring buffers *)

Section ring.
Context {A : Type} (sz n : Z).
Hypothesis (Hsz : 0 < sz).
Hypothesis (Hn : 0 < n).
Implicit Types (r : ringbuffer A) (l : list A).

Local Notation sl := (slot sz n).

(** The ring [r] holds [l]; the first record is in slot [i]. *)
Record ring_at (i : Z) r l : Prop := mkRingAt {
  ra_capacity : rb_capacity r = n * sz;
  ra_index : 0 <= i < n;
  ra_length : Z.of_nat (length l) <= n;
  ra_n_elems : rb_n_elems r = Z.of_nat (length l);
  ra_start : rb_start r = sl i 0;
  ra_end : rb_end r = sl i (Z.of_nat (length l));
  ra_empty : l = [] -> i = 0;
  ra_data ofs x : rb_data r !! ofs = Some x <-> exists k, l !! k = Some x /\ ofs = sl i (Z.of_nat k)
}.

Lemma ring_at_new : exists r, new_ring sz (n * sz) = Some r /\ ring_at 0 r [].
Proof.
  unfold new_ring. case_ifs; zbool; [nia|]. eexists; split; [done|].
  split; cbn; try done; try lia.
  - intros ofs x. rewrite lookup_empty. naive_solver.
Qed.

Lemma ring_at_get i r l k x : ring_at i r l -> l !! k = Some x -> rb_get (sl i (Z.of_nat k)) r = Ok x r.
Proof.
  intros Hr Hk. unfold rb_get. assert (rb_data r !! sl i (Z.of_nat k) = Some x) as ->; [|done].
  apply Hr. eauto.
Qed.

Lemma ring_at_lookup i r l k x :
  ring_at i r l -> (k < length l)%nat -> rb_data r !! sl i (Z.of_nat k) = Some x -> l !! k = Some x.
Proof.
  intros Hr Hk Hx. apply Hr in Hx as (k' & Hk' & Heq). pose proof (ra_length _ _ _ Hr).
  pose proof (lookup_lt_Some _ _ _ Hk').
  apply (slot_inj sz n Hsz Hn) in Heq; [|lia..]. by assert (k = k') as -> by lia.
Qed.

Lemma slot_eq_iff i k k' : 0 <= k < n -> 0 <= k' < n -> sl i k = sl i k' <-> k = k'.
Proof. intros. split; [by apply slot_inj|congruence]. Qed.

(** The state after an append to the slot [t]. *)
Lemma append_record_eq x r :
  rb_end r + sz <= rb_capacity r ->
  append_record x sz r =
  Ok (rb_end r) (mkRing (<[rb_end r := x]> (rb_data r)) (rb_capacity r) (rb_start r)
                   (if rb_end r + sz >=? rb_capacity r then 0 else rb_end r + sz) (rb_n_elems r)).
Proof.
  intros Hle. unfold append_record, bind, gets, modify, ret. cbn.
  destruct (rb_capacity r <? rb_end r + sz) eqn:E; zbool; [lia|]. cbn. by case_ifs.
Qed.

Lemma ring_at_append_record i r l x :
  ring_at i (with_rb_n_elems (Z.of_nat (length l)) r) l -> Z.of_nat (length l) < n ->
  rb_n_elems r = Z.of_nat (length l) + 1 ->
  exists r', append_record x sz r = Ok (sl i (Z.of_nat (length l))) r' /\ ring_at i r' (l ++ [x]).
Proof.
  intros Hr Hl Hn'. destruct Hr as [Hc Hi Hlen Hne Hs He Hem Hd]; cbn in Hc, Hne, Hs, He, Hd.
  pose proof (slot_range sz n Hsz Hn i (Z.of_nat (length l))) as Hrange.
  rewrite append_record_eq by (rewrite He, Hc; apply Hrange). rewrite He, Hc.
  rewrite (slot_next sz n Hsz Hn).
  eexists; split; [done|].
  split; cbn; try done; rewrite ?length_app; cbn [length]; try lia.
  - by rewrite Nat2Z.inj_add.
  - intros []%app_eq_nil. done.
  - intros ofs y. destruct (decide (ofs = sl i (Z.of_nat (length l)))) as [->|Hne'].
    + rewrite lookup_insert_eq. split.
      * intros [= ->]. exists (length l). split; [|done]. by rewrite lookup_app_r, Nat.sub_diag by lia.
      * intros (k & Hk & Heq). pose proof (lookup_lt_Some _ _ _ Hk) as Hlt. rewrite length_app in Hlt. cbn in Hlt.
        apply slot_eq_iff in Heq; [|lia..]. assert (k = length l) as -> by lia.
        rewrite lookup_app_r, Nat.sub_diag in Hk by lia. by injection Hk as ->.
    + rewrite lookup_insert_ne by done. rewrite Hd. split; intros (k & Hk & Heq); exists k.
      * split; [|done]. by rewrite lookup_app_l by (eapply lookup_lt_Some; eauto).
      * split; [|done]. destruct (decide (k < length l)%nat); [by rewrite lookup_app_l in Hk|].
        pose proof (lookup_lt_Some _ _ _ Hk) as Hlt. rewrite length_app in Hlt. cbn in Hlt.
        by assert (k = length l) as -> by lia.
Qed.

Lemma rb_pop_eq r x :
  rb_n_elems r <> 0 -> rb_data r !! rb_start r = Some x ->
  rb_pop sz r =
  Ok true (mkRing (delete (rb_start r) (rb_data r)) (rb_capacity r)
             (if rb_n_elems r =? 1 then 0 else if rb_start r + sz >=? rb_capacity r then 0 else rb_start r + sz)
             (if rb_n_elems r =? 1 then 0 else rb_end r) (rb_n_elems r - 1)).
Proof.
  intros Hne Hx. unfold rb_pop, rb_empty, rb_get, rb_clear, bind, gets, modify, ret, of_option.
  cbn. rewrite (proj2 (Z.eqb_neq _ _) Hne), Hx. cbn.
  destruct (rb_n_elems r =? 1) eqn:E; zbool.
  - rewrite E. destruct (_ >=? _); by cbn; rewrite E.
  - destruct (_ >=? _); cbn; by rewrite (proj2 (Z.eqb_neq (rb_n_elems r - 1) 0)) by lia.
Qed.

(** The first slot after a pop. *)
Definition popped_index (i : Z) l : Z := if (length l =? 1)%nat then 0 else (i + 1) mod n.

Lemma ring_at_pop i r x l :
  ring_at i r (x :: l) -> exists r', rb_pop sz r = Ok true r' /\ ring_at (popped_index i (x :: l)) r' l.
Proof.
  intros Hr. destruct Hr as [Hc Hi Hlen Hne Hs He Hem Hd]. cbn [length] in *.
  rewrite (rb_pop_eq r x); [|rewrite Hne; lia|rewrite Hs, Hd; by exists O].
  eexists; split; [done|]. rewrite Hne, Hs, Hc, He. unfold popped_index. cbn [length].
  assert (Hdata : forall ofs y, delete (sl i 0) (rb_data r) !! ofs = Some y <->
                    exists k, l !! k = Some y /\ ofs = sl i (Z.of_nat (S k))).
  { intros ofs y. rewrite lookup_delete_Some, Hd. split.
    - intros (Hno & [|k] & Hk & ->); [done|by exists k].
    - intros (k & Hk & ->). pose proof (lookup_lt_Some _ _ _ Hk). split; [|by exists (S k)].
      intros Heq. apply slot_eq_iff in Heq; lia. }
  destruct l as [|y l]; cbn [length Nat.eqb].
  - split; cbn; try done; try lia. intros ofs z. rewrite Hdata. split; by intros (k & ? & _).
  - rewrite (proj2 (Z.eqb_neq _ _)) by lia. rewrite (slot_next sz n Hsz Hn).
    pose proof (Z.mod_pos_bound (i + 1) n Hn).
    split; cbn [rb_capacity rb_start rb_end rb_n_elems rb_data]; try done; try (cbn [length] in *; lia).
    + by rewrite (slot_shift sz n).
    + rewrite (slot_shift sz n). f_equal. cbn [length]. lia.
    + intros ofs z. rewrite Hdata. split; intros (k & Hk & ->); exists k; (split; [done|]);
        rewrite ?(slot_shift sz n); f_equal; lia.
Qed.

(** Appending to a buffer with room, and to a full one, which loses its first record. *)
Lemma ring_at_append i r l x :
  ring_at i r l -> Z.of_nat (length l) < n ->
  exists r', rb_append sz x r = Ok (sl i (Z.of_nat (length l))) r' /\ ring_at i r' (l ++ [x]).
Proof.
  intros Hr Hl. pose proof (ra_capacity _ _ _ Hr) as Hc. pose proof (ra_n_elems _ _ _ Hr) as Hne.
  cbv [rb_append bind gets]. rewrite Hc.
  destruct (n * sz <? sz) eqn:E1; zbool; [nia|]. cbv [available_space modify]. rewrite Hc, Hne.
  destruct (sz <=? _) eqn:E2; zbool; [|nia].
  apply ring_at_append_record; [|done|by cbn].
  destruct Hr. by split; cbn.
Qed.

Lemma ring_at_append_full i r y l x :
  ring_at i r (y :: l) -> Z.of_nat (length (y :: l)) = n -> 1 < n ->
  exists ofs r', rb_append sz x r = Ok ofs r' /\ ofs = sl i 0 /\
    ring_at ((i + 1) mod n) r' (l ++ [x]).
Proof.
  intros Hr Hl Hn1. pose proof (ra_capacity _ _ _ Hr) as Hc. pose proof (ra_n_elems _ _ _ Hr) as Hne.
  cbv [rb_append bind gets]. rewrite Hc.
  destruct (n * sz <? sz) eqn:E1; zbool; [nia|]. cbv [available_space modify]. rewrite Hc, Hne, Hl.
  destruct (sz <=? _) eqn:E2; zbool; [nia|].
  assert (Hx : rb_data r !! rb_start r = Some y).
  { rewrite (ra_start _ _ _ Hr). apply Hr. by exists O. }
  destruct (ring_at_pop i r y l Hr) as (r1 & H1 & Hr1).
  rewrite (rb_pop_eq r y) in H1; [|rewrite Hne; lia|done]. rewrite Hne, Hl in H1.
  rewrite (rb_pop_eq _ y); cbn [rb_n_elems with_rb_n_elems rb_data rb_start]; [|lia|done].
  unfold popped_index in Hr1. destruct (_ =? 1)%nat eqn:E in Hr1; [apply Nat.eqb_eq in E; lia|].
  rewrite (proj2 (Z.eqb_neq (n + 1) 1)) by lia. rewrite (proj2 (Z.eqb_neq n 1)) in H1 by lia.
  injection H1 as H1. set (r2 := mkRing _ _ _ _ _).
  assert (Hl' : Z.of_nat (length l) = n - 1) by (cbn [length] in Hl; lia).
  destruct (ring_at_append_record ((i + 1) mod n) r2 l x) as (r3 & H3 & Hr3).
  - subst r1. destruct Hr1. split; cbn in *; try done; lia.
  - lia.
  - cbn. lia.
  - exists (sl i 0), r3. split; [|done]. rewrite H3. f_equal.
    rewrite (slot_shift sz n). rewrite Hl'. replace (n - 1 + 1) with (0 + n) by lia. by rewrite (slot_wrap sz n).
Qed.

(** Reading and writing records. *)
Lemma ring_at_set i r l k x y :
  ring_at i r l -> l !! k = Some y ->
  exists r', rb_set (sl i (Z.of_nat k)) x r = Ok tt r' /\ ring_at i r' (<[k := x]> l).
Proof.
  intros Hr Hk. pose proof (ring_at_get _ _ _ _ _ Hr Hk) as Hg. pose proof (lookup_lt_Some _ _ _ Hk) as Hlt.
  unfold rb_set. rewrite (bind_read _ _ _ _ Hg). eexists; split; [done|].
  destruct Hr as [Hc Hi Hlen Hne Hs He Hem Hd].
  split; cbn [rb_capacity rb_start rb_end rb_n_elems rb_data with_rb_data]; rewrite ?length_insert; try done.
  - intros Hnil. apply Hem. apply nil_length_inv. rewrite <- (length_insert l k x). by rewrite Hnil.
  - intros ofs z. destruct (decide (ofs = sl i (Z.of_nat k))) as [->|Hno].
    + rewrite lookup_insert_eq. split.
      * intros [= ->]. exists k. by rewrite list_lookup_insert_eq.
      * intros (k' & Hk' & Heq). pose proof (lookup_lt_Some _ _ _ Hk') as Hlt'. rewrite length_insert in Hlt'.
        apply slot_eq_iff in Heq; [|lia..]. assert (k' = k) as -> by lia.
        rewrite list_lookup_insert_eq in Hk' by done. by injection Hk' as ->.
    + rewrite lookup_insert_ne by done. rewrite Hd. split; intros (k' & Hk' & ->); exists k'; split; try done.
      * rewrite list_lookup_insert_ne; [done|]. by intros ->.
      * rewrite list_lookup_insert_ne in Hk'; [done|]. by intros ->.
Qed.

Lemma ring_at_empty i r l : ring_at i r l -> rb_empty r = Ok (bool_decide (l = [])) r.
Proof.
  intros Hr. unfold rb_empty, gets. rewrite (ra_n_elems _ _ _ Hr). f_equal.
  destruct l; cbn [length]; [done|]. by rewrite (proj2 (Z.eqb_neq _ _)) by lia.
Qed.

Lemma ring_at_front i r x l : ring_at i r (x :: l) -> rb_front r = Ok x r.
Proof.
  intros Hr. unfold rb_front. rewrite (bind_read _ _ _ _ (ring_at_empty _ _ _ Hr)). cbn.
  unfold bind, gets. rewrite (ra_start _ _ _ Hr). by apply (ring_at_get _ _ _ 0 _ Hr).
Qed.

Lemma ring_at_get_at_index i r l k x :
  ring_at i r l -> l !! k = Some x -> get_at_index sz (Z.of_nat k) r = Ok x r.
Proof.
  intros Hr Hk. unfold get_at_index, get, bind. rewrite (ra_start _ _ _ Hr), (ra_capacity _ _ _ Hr).
  rewrite <- (ring_at_get _ _ _ _ _ Hr Hk). f_equal. unfold slot. rewrite Z.add_0_r, Z.mod_small with (a := i) by apply Hr.
  rewrite <- Z.mul_add_distr_r. by rewrite Z.mul_mod_distr_r by lia.
Qed.

Lemma find_loop_spec i r (f : A -> bool) suf : forall pre ofs,
  ring_at i r (pre ++ suf) ->
  (if ofs >=? n * sz then 0 else ofs) = sl i (Z.of_nat (length pre)) ->
  find_loop sz f (length suf) ofs r =
  Ok (match list_find (fun x => Is_true (f x)) suf with
      | Some (k, _) => sl i (Z.of_nat (length pre + k)) | None => n * sz end) r.
Proof.
  induction suf as [|x suf IH]; intros pre ofs Hr Hofs; cbn [find_loop length].
  - unfold bind, gets, ret. by rewrite (ra_capacity _ _ _ Hr).
  - unfold bind at 1, gets. rewrite (ra_capacity _ _ _ Hr), Hofs.
    assert (Hx : (pre ++ x :: suf) !! length pre = Some x) by (by rewrite lookup_app_r, Nat.sub_diag).
    rewrite (bind_read _ _ _ _ (ring_at_get _ _ _ _ _ Hr Hx)). cbn [list_find].
    destruct (f x) eqn:Ef.
    + rewrite decide_True by done. by rewrite Nat.add_0_r.
    + rewrite decide_False by (by intros []).
      rewrite (IH (pre ++ [x])).
      * destruct (list_find _ suf) as [[k y]|]; cbn; [|done]. do 2 f_equal. rewrite length_app. cbn. lia.
      * by rewrite <- app_assoc.
      * rewrite length_app, (slot_next sz n Hsz Hn). cbn. f_equal. lia.
Qed.

Lemma ring_at_find i r l (f : A -> bool) :
  ring_at i r l ->
  rb_find sz f 0 r =
  Ok (match list_find (fun x => Is_true (f x)) l with Some (k, _) => sl i (Z.of_nat k) | None => n * sz end) r.
Proof.
  intros Hr. unfold rb_find, get, bind. rewrite (ra_n_elems _ _ _ Hr), (ra_capacity _ _ _ Hr).
  destruct l as [|x l]; [done|].
  rewrite (proj2 (Z.eqb_neq _ _)) by (cbn; lia). cbn [Z.eqb]. rewrite Nat2Z.id.
  apply (find_loop_spec i r f (x :: l) []); [done|].
  rewrite (ra_start _ _ _ Hr). pose proof (slot_range sz n Hsz Hn i 0).
  destruct (_ >=? _) eqn:E; zbool; [lia|done].
Qed.

Lemma ring_at_swap_to_front_and_pop i r y l k :
  ring_at i r (y :: l) -> (k < length (y :: l))%nat ->
  exists r', swap_to_front_and_pop sz (sl i (Z.of_nat k)) r = Ok tt r' /\
    ring_at (popped_index i (y :: l)) r' (match k with O => l | S k' => <[k' := y]> l end).
Proof.
  intros Hr Hk. unfold swap_to_front_and_pop, get. unfold bind at 1.
  rewrite (ra_capacity _ _ _ Hr), (ra_n_elems _ _ _ Hr), (ra_start _ _ _ Hr).
  pose proof (slot_range sz n Hsz Hn i (Z.of_nat k)). pose proof (ra_length _ _ _ Hr).
  destruct (sl i (Z.of_nat k) >=? n * sz) eqn:E1; zbool; [lia|].
  rewrite (proj2 (Z.eqb_neq _ _)) by (cbn; lia). cbn [orb].
  destruct (sl i (Z.of_nat k) =? sl i 0) eqn:E2; zbool.
  - apply slot_eq_iff in E2; [|lia..]. destruct k; [|lia].
    destruct (ring_at_pop _ _ _ _ Hr) as (r' & Hp & Hr'). exists r'. by rewrite (bind_Ok _ _ _ _ _ Hp).
  - destruct k as [|k]; [done|]. cbn in Hk. destruct (lookup_lt_is_Some_2 l k) as [x Hx]; [lia|].
    rewrite (bind_read _ _ _ _ (ring_at_front _ _ _ _ Hr)).
    rewrite (bind_read _ _ _ _ (ring_at_get _ _ _ (S k) _ Hr Hx)).
    destruct (ring_at_set _ _ _ 0 x y Hr) as (r1 & H1 & Hr1); [done|]. rewrite (bind_Ok _ _ _ _ _ H1).
    destruct (ring_at_set _ _ _ (S k) y x Hr1 Hx) as (r2 & H2 & Hr2). rewrite (bind_Ok _ _ _ _ _ H2).
    change (<[S k := y]> (<[0%nat := x]> (y :: l))) with (x :: <[k := y]> l) in Hr2.
    destruct (ring_at_pop _ _ _ _ Hr2) as (r' & Hp & Hr'). exists r'. rewrite (bind_Ok _ _ _ _ _ Hp). split; [done|].
    unfold popped_index in *. cbn [length] in *. by rewrite length_insert in Hr'.
Qed.
End ring.

(** ** The queue of events *)

Lemma zoom_Ok {S T A} (g : S -> T) (p : T -> S -> S) (m : M T A) s a t :
  m (g s) = Ok a t -> zoom g p m s = Ok a (p t s).
Proof. intros H. unfold zoom. by rewrite H. Qed.

Section queue.
Context {E : Type} `{Queueable E}.
Implicit Types (e : E) (evs : list E) (us : list ev_info).

(** The abstract queue: a unique event replaces the queued event with its name. *)
Definition same_event e e' : bool := is_unique_event e' && String.eqb (event_id e') (event_id e).

Definition fifo_push e evs : list E :=
  if is_unique_event e then
    match list_find (fun e' => Is_true (same_event e e')) evs with
    | Some (k, _) => <[k := e]> evs
    | None => evs ++ [e]
    end
  else evs ++ [e].

Definition unique_count evs : nat := length (filter (fun e => Is_true (is_unique_event e)) evs).

Context (ev_size info_size n m : Z).
Hypothesis (Hev : 0 < ev_size).
Hypothesis (Hinfo : 0 < info_size).
Hypothesis (Hn : 0 < n).
Hypothesis (Hm : 0 < m).

Local Notation sl := (slot ev_size n).

Definition info_of (i k : Z) e : ev_info := mkEvInfo (event_id e) (sl i k).

(** The names and places of the unique events, from the record number [k]. *)
Fixpoint infos (i k : Z) evs : list ev_info :=
  match evs with
  | [] => []
  | e :: evs' => (if is_unique_event e then [info_of i k e] else []) ++ infos i (k + 1) evs'
  end.

Record queue_at (i j : Z) (q : eventqueue E) evs us : Prop := mkQueueAt {
  qa_data : ring_at ev_size n i (eq_data q) evs;
  qa_infos : ring_at info_size m j (stored_unique_events q) us;
  qa_perm : Permutation us (infos i 0 evs);
  qa_names : NoDup (map info_id us)
}.

Definition queue_rep (q : eventqueue E) evs : Prop := exists i j us, queue_at i j q evs us.

Lemma infos_shift i k evs : infos ((i + 1) mod n) k evs = infos i (k + 1) evs.
Proof.
  revert k. induction evs as [|e evs IH]; intros k; cbn [infos]; [done|].
  rewrite IH. unfold info_of. by rewrite (slot_shift ev_size n).
Qed.

Lemma infos_app i k l1 l2 : infos i k (l1 ++ l2) = infos i k l1 ++ infos i (k + Z.of_nat (length l1)) l2.
Proof.
  revert k. induction l1 as [|e l1 IH]; intros k; cbn [infos app length]; [f_equal; lia|].
  rewrite IH, <- app_assoc. do 3 f_equal. lia.
Qed.

Lemma infos_length i k evs : length (infos i k evs) = unique_count evs.
Proof.
  unfold unique_count. revert k. induction evs as [|e evs IH]; intros k; cbn [infos]; [done|].
  rewrite filter_cons. destruct (is_unique_event e); cbn.
  - by rewrite IH.
  - apply IH.
Qed.

Lemma elem_of_infos i k evs u :
  u ∈ infos i k evs <-> exists j e, evs !! j = Some e /\ is_unique_event e = true /\ u = info_of i (k + Z.of_nat j) e.
Proof.
  revert k. induction evs as [|e evs IH]; intros k; cbn [infos].
  - rewrite elem_of_nil. split; [done|]. by intros (j & e & Hj & _).
  - rewrite elem_of_app, IH. split.
    + intros [Hu|(j & e' & Hj & Hq & ->)].
      * destruct (is_unique_event e) eqn:He; [|by apply elem_of_nil in Hu]. apply list_elem_of_singleton in Hu as ->.
        exists 0%nat, e. by rewrite Z.add_0_r.
      * exists (S j), e'. split; [done|]. split; [done|]. f_equal. lia.
    + intros ([|j] & e' & Hj & Hq & ->).
      * injection Hj as ->. rewrite Hq. left. rewrite Z.add_0_r. by apply list_elem_of_singleton.
      * right. exists j, e'. split; [done|]. split; [done|]. f_equal. lia.
Qed.

Lemma infos_insert i k evs j e e' :
  evs !! j = Some e' -> same_event e e' = true -> is_unique_event e = true ->
  infos i k (<[j := e]> evs) = infos i k evs.
Proof.
  unfold same_event. intros Hj [Hu Hid]%andb_true_iff He. apply String.eqb_eq in Hid.
  revert j k Hj. induction evs as [|x evs IH]; intros [|j] k Hj; try done; cbn [infos insert list_insert].
  - injection Hj as ->. rewrite He, Hu. unfold info_of. by rewrite Hid.
  - f_equal. by apply IH.
Qed.

(** The information with a name is found exactly when the event is. *)
Lemma find_info i j q evs us e :
  queue_at i j q evs us ->
  match list_find (fun u => Is_true (String.eqb (info_id u) (event_id e))) us with
  | Some (ku, u) =>
    exists k e', list_find (fun e' => Is_true (same_event e e')) evs = Some (k, e') /\
      us !! ku = Some u /\ u = info_of i (Z.of_nat k) e'
  | None => list_find (fun e' => Is_true (same_event e e')) evs = None
  end.
Proof.
  intros [Hd Hi Hp Hnd]. destruct (list_find _ us) as [[ku u]|] eqn:Eu.
  - apply list_find_Some in Eu as (Hku & Hid & _).
    assert (Hu : u ∈ infos i 0 evs) by (rewrite <- Hp; by eapply list_elem_of_lookup_2).
    apply elem_of_infos in Hu as (k & e1 & Hk & Hq1 & Hu1). rewrite Z.add_0_l in Hu1.
    apply Is_true_true, String.eqb_eq in Hid. rewrite Hu1 in Hid. cbn in Hid.
    destruct (list_find _ evs) as [[k' e2]|] eqn:Ee.
    + apply list_find_Some in Ee as (Hk' & Hs & _). apply Is_true_true in Hs. unfold same_event in Hs.
      apply andb_true_iff in Hs as [Hq2 Hid2]. apply String.eqb_eq in Hid2.
      exists k', e2. split; [done|]. split; [done|].
      assert (Hu2 : info_of i (Z.of_nat k') e2 ∈ us).
      { rewrite Hp. apply elem_of_infos. exists k', e2. by rewrite Z.add_0_l. }
      apply list_elem_of_lookup in Hu2 as [ku2 Hku2].
      assert (ku2 = ku) as ->; [|congruence].
      eapply (NoDup_lookup _ _ _ (event_id e) Hnd); rewrite list_lookup_fmap.
      * rewrite Hku2. cbn. by rewrite Hid2.
      * rewrite Hku, Hu1. cbn. by rewrite Hid.
    + exfalso. apply list_find_None in Ee. rewrite Forall_lookup in Ee. apply (Ee k e1 Hk).
      unfold same_event. by rewrite Hq1, Hid, String.eqb_refl.
  - apply list_find_None. rewrite Forall_lookup. intros k e' Hk Hs. apply Is_true_true in Hs.
    unfold same_event in Hs. apply andb_true_iff in Hs as [Hq Hid].
    apply list_find_None in Eu. rewrite Forall_lookup in Eu.
    assert (Hu : info_of i (Z.of_nat k) e' ∈ us).
    { rewrite Hp. apply elem_of_infos. exists k, e'. by rewrite Z.add_0_l. }
    apply list_elem_of_lookup in Hu as [ku Hku]. by apply (Eu ku _ Hku), Is_true_true.
Qed.

Lemma find_unique_spec i j q evs us e :
  queue_at i j q evs us ->
  find_unique info_size (event_id e) q =
  Ok (match list_find (fun u => Is_true (String.eqb (info_id u) (event_id e))) us with
      | Some (k, _) => slot info_size m j (Z.of_nat k) | None => m * info_size end) q.
Proof.
  intros Hq. unfold find_unique, on_infos.
  rewrite (zoom_Ok _ _ _ _ _ _ (ring_at_find _ _ Hinfo Hm _ _ _ _ (qa_infos _ _ _ _ _ Hq))).
  by destruct q.
Qed.

Lemma valid_ofs_spec i j q evs us ofs :
  queue_at i j q evs us -> on_infos (E := E) (valid_ofs ofs) q = Ok (ofs <? m * info_size) q.
Proof.
  intros Hq. unfold on_infos, zoom, valid_ofs, gets. rewrite (ra_capacity _ _ _ _ _ (qa_infos _ _ _ _ _ Hq)).
  by destruct q.
Qed.

Lemma queue_append_data i j q evs us e :
  queue_at i j q evs us -> Z.of_nat (length evs) < n ->
  exists d, on_data (rb_append ev_size e) q = Ok (sl i (Z.of_nat (length evs))) (mkEventqueue d (stored_unique_events q)) /\
    ring_at ev_size n i d (evs ++ [e]).
Proof.
  intros Hq Hl. destruct (ring_at_append _ _ Hev Hn _ _ _ e (qa_data _ _ _ _ _ Hq) Hl) as (d & Ha & Hd).
  exists d. split; [|done]. unfold on_data. by rewrite (zoom_Ok _ _ _ _ _ _ Ha).
Qed.

Lemma push_plain i j q evs us e :
  queue_at i j q evs us -> is_unique_event e = false -> Z.of_nat (length evs) < n ->
  exists q', eq_push ev_size info_size e q = Ok tt q' /\ queue_at i j q' (evs ++ [e]) us.
Proof.
  intros Hq He Hl. destruct (queue_append_data _ _ _ _ _ e Hq Hl) as (d & Ha & Hd).
  eexists. unfold eq_push. rewrite He, (bind_Ok _ _ _ _ _ Ha). split; [done|].
  destruct Hq as [_ Hi Hp Hnd]. split; try done.
  rewrite infos_app. cbn [infos app]. rewrite He. cbn [app]. by rewrite app_nil_r.
Qed.

Lemma push_again i j q evs us e k e' :
  queue_at i j q evs us -> is_unique_event e = true ->
  list_find (fun e' => Is_true (same_event e e')) evs = Some (k, e') ->
  exists q', eq_push ev_size info_size e q = Ok tt q' /\ queue_at i j q' (<[k := e]> evs) us.
Proof.
  intros Hq He Hf. unfold eq_push. rewrite He.
  rewrite (bind_read _ _ _ _ (find_unique_spec _ _ _ _ _ e Hq)).
  pose proof (find_info _ _ _ _ _ e Hq) as Hfi.
  destruct (list_find _ us) as [[ku u]|]; [|congruence].
  destruct Hfi as (k1 & e1 & Hf1 & Hku & ->). rewrite Hf in Hf1. injection Hf1 as <- <-.
  rewrite (bind_read _ _ _ _ (valid_ofs_spec _ _ _ _ _ _ Hq)).
  pose proof (slot_range info_size m Hinfo Hm j (Z.of_nat ku)).
  destruct (_ <? _) eqn:E1; zbool; [|lia].
  assert (Hget : on_infos (E := E) (rb_get (slot info_size m j (Z.of_nat ku))) q = Ok (info_of i (Z.of_nat k) e') q).
  { unfold on_infos. rewrite (zoom_Ok _ _ _ _ _ _ (ring_at_get _ _ _ _ _ _ _ (qa_infos _ _ _ _ _ Hq) Hku)). by destruct q. }
  rewrite (bind_read _ _ _ _ Hget). cbn [stored_at info_of].
  apply list_find_Some in Hf as (Hk & Hs & _). apply Is_true_true in Hs.
  destruct (ring_at_set _ _ Hev Hn _ _ _ _ e e' (qa_data _ _ _ _ _ Hq) Hk) as (d & Ha & Hd).
  eexists. unfold on_data. rewrite (zoom_Ok _ _ _ _ _ _ Ha). split; [done|].
  destruct Hq as [_ Hi Hp Hnd]. split; try done. by rewrite (infos_insert _ _ _ _ _ _ Hk Hs He).
Qed.

Lemma push_new i j q evs us e :
  queue_at i j q evs us -> is_unique_event e = true ->
  list_find (fun e' => Is_true (same_event e e')) evs = None ->
  Z.of_nat (length evs) < n -> Z.of_nat (length us) < m ->
  exists q' us', eq_push ev_size info_size e q = Ok tt q' /\ queue_at i j q' (evs ++ [e]) us'.
Proof.
  intros Hq He Hf Hl Hlu. unfold eq_push. rewrite He.
  rewrite (bind_read _ _ _ _ (find_unique_spec _ _ _ _ _ e Hq)).
  pose proof (find_info _ _ _ _ _ e Hq) as Hfi.
  destruct (list_find _ us) as [[ku u]|] eqn:Eu; [destruct Hfi as (? & ? & ? & _); congruence|].
  rewrite (bind_read _ _ _ _ (valid_ofs_spec _ _ _ _ _ _ Hq)).
  rewrite (proj2 (Z.ltb_ge _ _)) by lia.
  destruct (queue_append_data _ _ _ _ _ e Hq Hl) as (d & Ha & Hd). rewrite (bind_Ok _ _ _ _ _ Ha).
  destruct Hq as [_ Hi Hp Hnd].
  destruct (ring_at_append _ _ Hinfo Hm _ _ _ (info_of i (Z.of_nat (length evs)) e) Hi Hlu) as (d' & Ha' & Hd').
  unfold on_infos. rewrite (bind_Ok _ _ _ _ _ (zoom_Ok _ _ _ (mkEventqueue d (stored_unique_events q)) _ _ Ha')).
  eexists _, _. split; [done|]. split; [done|exact Hd'|..].
  - rewrite infos_app, <- Hp. cbn [infos app]. by rewrite He, Z.add_0_l.
  - rewrite map_app. apply NoDup_app. split; [done|]. split; [|apply NoDup_singleton].
    intros x Hx ->%list_elem_of_singleton. apply list_elem_of_fmap in Hx as (u & Hid & Hu).
    apply list_find_None in Eu. rewrite Forall_forall in Eu. apply (Eu u).
    + exact Hu.
    + cbn in Hid. by rewrite <- Hid, String.eqb_refl.
Qed.

Lemma infos_tail i e evs :
  infos i 1 evs = infos (popped_index n i (e :: evs)) 0 evs.
Proof.
  unfold popped_index. destruct evs as [|e' evs]; [done|]. cbn [length Nat.eqb].
  by rewrite infos_shift.
Qed.

Lemma queue_pop_data i j q e evs us :
  queue_at i j q (e :: evs) us ->
  exists d, (let! _ := on_data (rb_pop ev_size) in ret tt) q = Ok tt (mkEventqueue d (stored_unique_events q)) /\
    ring_at ev_size n (popped_index n i (e :: evs)) d evs.
Proof.
  intros Hq. destruct (ring_at_pop _ _ Hev Hn _ _ _ _ (qa_data _ _ _ _ _ Hq)) as (d & Hp & Hd).
  exists d. split; [|done]. unfold on_data. by rewrite (bind_Ok _ _ _ _ _ (zoom_Ok _ _ _ _ _ _ Hp)).
Qed.

Lemma front_spec i j q e evs us : queue_at i j q (e :: evs) us -> eq_front q = Ok e q.
Proof.
  intros Hq. unfold eq_front, on_data.
  rewrite (zoom_Ok _ _ _ _ _ _ (ring_at_front _ _ _ _ _ _ (qa_data _ _ _ _ _ Hq))). by destruct q.
Qed.

(** Taking an element out by swapping it to the front. *)
Lemma swap_pop_perm (y u : ev_info) us k :
  (y :: us) !! k = Some u ->
  Permutation (y :: us) (u :: match k with O => us | S k' => <[k' := y]> us end).
Proof.
  destruct k as [|k]; [by intros [= ->]|]. intros Hk. cbn in Hk.
  rewrite insert_take_drop by (eapply lookup_lt_Some; eauto).
  rewrite <- (take_drop_middle us k u Hk) at 1.
  rewrite <- !Permutation_middle. apply perm_swap.
Qed.

Lemma queue_pop_spec i j q e evs us :
  queue_at i j q (e :: evs) us ->
  exists q' i' j' us', eq_pop ev_size info_size q = Ok tt q' /\ queue_at i' j' q' evs us'.
Proof.
  intros Hq. unfold eq_pop, on_data at 1, on_infos at 1.
  destruct (queue_pop_data _ _ _ _ _ _ Hq) as (d & Hpop & Hd). pose proof Hq as [Hqd Hqi Hp Hnd].
  rewrite (bind_Ok _ _ _ _ _ (zoom_Ok _ _ _ _ _ _ (ring_at_empty _ _ _ _ _ Hqd))). cbn [bool_decide].
  rewrite bool_decide_false by done. set (q1 := mkEventqueue _ _). assert (q1 = q) as -> by (by destruct q).
  rewrite (bind_Ok _ _ _ _ _ (zoom_Ok _ _ _ _ _ _ (ring_at_empty _ _ _ _ _ Hqi))).
  set (q2 := mkEventqueue _ _). assert (q2 = q) as -> by (by destruct q).
  assert (Hplain : is_unique_event e = false -> exists i' j' us',
            queue_at i' j' (mkEventqueue d (stored_unique_events q)) evs us').
  { intros He. exists (popped_index n i (e :: evs)), j, us. split; try done.
    rewrite <- infos_tail. rewrite Hp. cbn [infos]. by rewrite He. }
  case_bool_decide as Hus.
  - destruct Hplain as (i' & j' & us' & Hq').
    + destruct (is_unique_event e) eqn:He; [|done]. subst us. apply Permutation_length in Hp. cbn [infos] in Hp.
      by rewrite He in Hp.
    + eauto 10.
  - rewrite (bind_read _ _ _ _ (front_spec _ _ _ _ _ _ Hq)).
    destruct (is_unique_event e) eqn:He; cbn [negb].
    2: { destruct Hplain as (i' & j' & us' & Hq'); [done|]. eauto 10. }
    rewrite (bind_read _ _ _ _ (find_unique_spec _ _ _ _ _ e Hq)).
    pose proof (find_info _ _ _ _ _ e Hq) as Hfi. cbn [list_find] in Hfi.
    assert (Hsame : Is_true (same_event e e)) by (unfold same_event; by rewrite He, String.eqb_refl).
    rewrite decide_True in Hfi by done.
    destruct (list_find _ us) as [[ku u]|] eqn:Eu; [|done]. destruct Hfi as (k & e1 & Hf & Hku & Hu).
    injection Hf as <- <-.
    rewrite (bind_Ok _ _ _ _ _ Hpop).
    pose proof (slot_range info_size m Hinfo Hm j (Z.of_nat ku)).
    unfold on_infos at 1. erewrite (bind_Ok (zoom _ _ (valid_ofs _))).
    2: { apply zoom_Ok. unfold valid_ofs, gets. cbn [stored_unique_events].
         rewrite (ra_capacity _ _ _ _ _ Hqi). rewrite (proj2 (Z.ltb_lt _ _)) by lia. done. }
    cbn [eq_data stored_unique_events].
    destruct us as [|y us]; [done|].
    destruct (ring_at_swap_to_front_and_pop _ _ Hinfo Hm _ _ _ _ ku Hqi) as (r' & Hsw & Hr').
    { eapply lookup_lt_Some; eauto. }
    eexists _, _, _, _. split; [unfold on_infos; by rewrite (zoom_Ok _ _ _ (mkEventqueue d (stored_unique_events q)) _ _ Hsw)|].
    pose proof (swap_pop_perm _ _ _ _ Hku) as Hperm.
    split; [exact Hd|exact Hr'|..].
    + rewrite <- infos_tail. rewrite Hp in Hperm. cbn [infos] in Hperm. rewrite He, Hu in Hperm.
      cbn [app] in Hperm. by apply Permutation_cons_inv in Hperm.
    + rewrite Hperm in Hnd. cbn [map] in Hnd. by apply NoDup_cons in Hnd as [_ Hnd].
Qed.

(** ** The operations refine those of the list *)

Lemma queue_rep_new : exists q, new_eventqueue ev_size info_size n m = Some q /\ queue_rep q [].
Proof.
  unfold new_eventqueue.
  destruct (ring_at_new (A := E) _ _ Hev Hn) as (d & -> & Hd).
  destruct (ring_at_new (A := ev_info) _ _ Hinfo Hm) as (u & -> & Hu).
  eexists; split; [done|]. exists 0, 0, []. split; try done. constructor.
Qed.

Lemma unique_count_app l1 l2 : unique_count (l1 ++ l2) = (unique_count l1 + unique_count l2)%nat.
Proof. unfold unique_count. by rewrite filter_app, length_app. Qed.

Lemma unique_count_le evs : (unique_count evs <= length evs)%nat.
Proof. apply length_filter. Qed.

Lemma push_refines q evs e :
  queue_rep q evs -> Z.of_nat (length (fifo_push e evs)) <= n -> Z.of_nat (unique_count (fifo_push e evs)) <= m ->
  exists q', eq_push ev_size info_size e q = Ok tt q' /\ queue_rep q' (fifo_push e evs).
Proof.
  intros (i & j & us & Hq). unfold fifo_push. destruct (is_unique_event e) eqn:He.
  - destruct (list_find _ evs) as [[k e']|] eqn:Ef; intros Hl Hc.
    + destruct (push_again _ _ _ _ _ _ _ _ Hq He Ef) as (q' & H1 & H2). exists q'. split; [done|]. by exists i, j, us.
    + rewrite length_app in Hl. rewrite unique_count_app in Hc. unfold unique_count in Hc at 2.
      rewrite filter_cons_True in Hc by (by rewrite He). cbn in Hl, Hc.
      assert (length us = unique_count evs) as Hus by (by rewrite (qa_perm _ _ _ _ _ Hq), infos_length).
      destruct (push_new _ _ _ _ _ e Hq He Ef) as (q' & us' & H1 & H2); [lia..|].
      exists q'. split; [done|]. by exists i, j, us'.
  - rewrite length_app. cbn. intros Hl _.
    destruct (push_plain _ _ _ _ _ e Hq He) as (q' & H1 & H2); [lia|]. exists q'. split; [done|]. by exists i, j, us.
Qed.

Lemma pop_refines q e evs :
  queue_rep q (e :: evs) ->
  eq_front q = Ok e q /\ exists q', eq_pop ev_size info_size q = Ok tt q' /\ queue_rep q' evs.
Proof.
  intros (i & j & us & Hq). split; [by eapply front_spec|].
  destruct (queue_pop_spec _ _ _ _ _ _ Hq) as (q' & i' & j' & us' & H1 & H2). exists q'. split; [done|].
  by exists i', j', us'.
Qed.

Lemma count_refines q evs : queue_rep q evs -> eq_count q = Ok (Z.of_nat (length evs)) q.
Proof.
  intros (i & j & us & Hq). unfold eq_count, on_data, zoom, gets.
  rewrite (ra_n_elems _ _ _ _ _ (qa_data _ _ _ _ _ Hq)). by destruct q.
Qed.

Lemma empty_refines q evs : queue_rep q evs -> eq_empty q = Ok (bool_decide (evs = [])) q.
Proof.
  intros Hq. unfold eq_empty. rewrite (bind_read _ _ _ _ (count_refines _ _ Hq)). unfold ret. f_equal.
  destruct evs; cbn [length]; [done|]. by rewrite (proj2 (Z.eqb_neq _ _)) by lia.
Qed.

(** C13: the queue of events implements a FIFO in which a unique event takes the place
    of a queued unique event with the same name, as long as the two ring buffers do not
    overflow: push, front, pop, empty, count, the access by index and the number of
    unique events agree with the list. *)
Theorem eventqueue_refines_fifo q evs :
  queue_rep q evs ->
  (forall e, Z.of_nat (length (fifo_push e evs)) <= n -> Z.of_nat (unique_count (fifo_push e evs)) <= m ->
     exists q', eq_push ev_size info_size e q = Ok tt q' /\ queue_rep q' (fifo_push e evs)) /\
  (forall e evs', evs = e :: evs' ->
     eq_front q = Ok e q /\ exists q', eq_pop ev_size info_size q = Ok tt q' /\ queue_rep q' evs') /\
  eq_empty q = Ok (bool_decide (evs = [])) q /\
  eq_count q = Ok (Z.of_nat (length evs)) q /\
  (forall k e, evs !! k = Some e -> eq_get_at_index ev_size (Z.of_nat k) q = Ok e q) /\
  number_of_unique_events q = Ok (Z.of_nat (unique_count evs)) q.
Proof.
  intros Hq. split; [intros e; by apply push_refines|]. split; [intros e evs' ->; by apply pop_refines|].
  split; [by apply empty_refines|]. split; [by apply count_refines|].
  destruct Hq as (i & j & us & Hq). split.
  - intros k e Hk. unfold eq_get_at_index, on_data.
    rewrite (zoom_Ok _ _ _ _ _ _ (ring_at_get_at_index _ _ Hev Hn _ _ _ _ _ (qa_data _ _ _ _ _ Hq) Hk)). by destruct q.
  - unfold number_of_unique_events, on_infos, zoom, gets. rewrite (ra_n_elems _ _ _ _ _ (qa_infos _ _ _ _ _ Hq)).
    rewrite (qa_perm _ _ _ _ _ Hq), infos_length. by destruct q.
Qed.

(** ** Delivery *)

Fixpoint popped (os : list (queue_op E)) : list E :=
  match os with
  | [] => []
  | q_push _ :: os' => popped os'
  | q_wait_and_pop e :: os' => e :: popped os'
  end.

Definition pushes (os : list (queue_op E)) : nat := (length os - length (popped os))%nat.

(** What stands for an event: itself, or a unique event with its name. *)
Definition counterpart e e' : Prop :=
  e' = e \/ is_unique_event e = true /\ is_unique_event e' = true /\ event_id e' = event_id e.

Lemma counterpart_trans e1 e2 e3 : counterpart e1 e2 -> counterpart e2 e3 -> counterpart e1 e3.
Proof. unfold counterpart. intros [->|(?&?&?)] [->|(?&?&?)]; auto. right. repeat split; congruence. Qed.

Inductive fifo_run : list E -> list (queue_op E) -> list E -> Prop :=
| run_nil evs : fifo_run evs [] evs
| run_push e evs os evs' : fifo_run (fifo_push e evs) os evs' -> fifo_run evs (q_push e :: os) evs'
| run_pop e evs os evs' : fifo_run evs os evs' -> fifo_run (e :: evs) (q_wait_and_pop e :: os) evs'.

Lemma fifo_push_length e evs : (length (fifo_push e evs) <= S (length evs))%nat.
Proof.
  unfold fifo_push. destruct (is_unique_event e); [destruct (list_find _ _) as [[]|]|];
    rewrite ?length_insert, ?length_app; cbn; lia.
Qed.

Lemma popped_length os : (length (popped os) <= length os)%nat.
Proof. induction os as [|[] os IH]; cbn; lia. Qed.

Lemma fifo_push_lookup x evs k e :
  evs !! k = Some e -> exists e', fifo_push x evs !! k = Some e' /\ counterpart e e'.
Proof.
  intros Hk. pose proof (lookup_lt_Some _ _ _ Hk). unfold fifo_push.
  assert (Happ : exists e', (evs ++ [x]) !! k = Some e' /\ counterpart e e').
  { exists e. split; [by rewrite lookup_app_l|by left]. }
  destruct (is_unique_event x) eqn:Hx; [|done]. destruct (list_find _ evs) as [[k' e']|] eqn:Ef; [|done].
  apply list_find_Some in Ef as (Hk' & Hs & _). apply Is_true_true, andb_true_iff in Hs as [Hu Hid].
  apply String.eqb_eq in Hid. destruct (decide (k' = k)) as [->|].
  - exists x. rewrite list_lookup_insert_eq by done. split; [done|]. right. by simplify_eq.
  - exists e. rewrite list_lookup_insert_ne by done. split; [done|by left].
Qed.

Lemma fifo_push_in x evs : exists k, (k <= length evs)%nat /\ fifo_push x evs !! k = Some x.
Proof.
  unfold fifo_push. assert (Happ : (evs ++ [x]) !! length evs = Some x) by (by rewrite lookup_app_r, Nat.sub_diag).
  destruct (is_unique_event x); [|eauto]. destruct (list_find _ evs) as [[k e']|] eqn:Ef; [|eauto].
  apply list_find_Some in Ef as (Hk & _ & _). apply lookup_lt_Some in Hk.
  exists k. rewrite list_lookup_insert_eq by done. split; [lia|done].
Qed.

(** An element moves forward with every pop. *)
Lemma fifo_run_lookup evs os evs' : fifo_run evs os evs' -> forall k e, evs !! k = Some e ->
  (exists e', popped os !! k = Some e' /\ counterpart e e') \/
  (length (popped os) <= k)%nat /\ evs' <> [].
Proof.
  induction 1 as [evs|x evs os evs' Hr IH|x evs os evs' Hr IH]; intros k e Hk; cbn [popped length].
  - right. split; [lia|]. by intros ->.
  - destruct (fifo_push_lookup x _ _ _ Hk) as (e1 & Hk1 & Hc).
    destruct (IH _ _ Hk1) as [(e' & Hp & Hc')|Hr']; [left|by right].
    exists e'. split; [done|]. by eapply counterpart_trans.
  - destruct k as [|k].
    + injection Hk as ->. left. exists e. split; [done|by left].
    + destruct (IH _ _ Hk) as [(e' & Hp & Hc)|[Hl Hne]]; [left; eauto|right; split; [lia|done]].
Qed.

Lemma wait_and_pop_refines q e evs :
  queue_rep q (e :: evs) ->
  exists q', wait_and_pop ev_size info_size q = Ok (Some e) q' /\ queue_rep q' evs.
Proof.
  intros Hq. unfold wait_and_pop. rewrite (bind_read _ _ _ _ (empty_refines _ _ Hq)).
  rewrite bool_decide_false by done. destruct (pop_refines _ _ _ Hq) as (Hf & q' & Hp & Hq').
  rewrite (bind_read _ _ _ _ Hf), (bind_Ok _ _ _ _ _ Hp). by exists q'.
Qed.

Lemma steps_run q os q' : queue_steps ev_size info_size q os q' -> forall evs,
  queue_rep q evs -> Z.of_nat (length evs + pushes os) <= Z.min n m ->
  exists evs', fifo_run evs os evs' /\ queue_rep q' evs'.
Proof.
  induction 1 as [q|q o q1 os q2 Hstep Hs IH]; intros evs Hq Hroom.
  { exists evs. split; [constructor|done]. }
  pose proof (popped_length os). unfold pushes in *.
  destruct Hstep as [e q q1 Hpush|e q q1 Hpop]; cbn [popped length] in Hroom.
  - pose proof (fifo_push_length e evs). pose proof (unique_count_le (fifo_push e evs)).
    destruct (push_refines _ _ e Hq) as (q1' & Hpush' & Hq1); [lia..|].
    rewrite Hpush in Hpush'. injection Hpush' as <-.
    destruct (IH _ Hq1) as (evs' & Hr & Hq'); [lia|]. exists evs'. split; [by constructor|done].
  - destruct evs as [|x evs].
    + unfold wait_and_pop in Hpop. rewrite (bind_read _ _ _ _ (empty_refines _ _ Hq)) in Hpop. done.
    + destruct (wait_and_pop_refines _ _ _ Hq) as (q1' & Hpop' & Hq1).
      rewrite Hpop in Hpop'. injection Hpop' as <- <-. cbn [length] in Hroom.
      destruct (IH _ Hq1) as (evs' & Hr & Hq'); [lia|]. exists evs'. split; [by constructor|done].
Qed.

(** C31: delivery. Whatever threads push and take events after an event was pushed, as
    long as the buffers have room: once more elements were taken than were queued when it
    was pushed, the event itself, or a unique event that replaced it, was among them;
    and until then taking an element is possible. *)
Theorem pushed_event_is_delivered q evs e os q' :
  queue_rep q evs ->
  queue_steps ev_size info_size q (q_push e :: os) q' ->
  Z.of_nat (length evs + pushes (q_push e :: os)) <= Z.min n m ->
  (exists k e', (k <= length evs)%nat /\ popped os !! k = Some e' /\ counterpart e e') \/
  ((length (popped os) <= length evs)%nat /\ exists e' q2, queue_step ev_size info_size q' (q_wait_and_pop e') q2).
Proof.
  intros Hq Hs Hroom. destruct (steps_run _ _ _ Hs _ Hq Hroom) as (evs' & Hr & Hq').
  inversion Hr as [|? ? ? ? Hr'|]; subst. destruct (fifo_push_in e evs) as (k & Hk & He).
  destruct (fifo_run_lookup _ _ _ Hr' _ _ He) as [(e' & Hp & Hc)|[Hl Hne]].
  - left. by exists k, e'.
  - right. split; [lia|]. destruct evs' as [|x evs']; [done|].
    destruct (wait_and_pop_refines _ _ _ Hq') as (q2 & H2 & _). exists x, q2. by constructor.
Qed.

(** ** Overflow *)

(** When a full buffer drops a unique event, its name stays registered: the next
    event with this name is written over the event that got the place of the dropped one,
    and that event is lost although it was just pushed. *)
Theorem unique_overflow_overwrites i j q a evs us x a' :
  queue_at i j q (a :: evs) us -> Z.of_nat (length (a :: evs)) = n -> 1 < n ->
  is_unique_event a = true -> is_unique_event x = false -> same_event a a' = true ->
  exists q1 q2 i', eq_push ev_size info_size x q = Ok tt q1 /\ eq_push ev_size info_size a' q1 = Ok tt q2 /\
    ring_at ev_size n i' (eq_data q1) (evs ++ [x]) /\ ring_at ev_size n i' (eq_data q2) (evs ++ [a']).
Proof.
  intros Hq Hl Hn1 Ha Hx Hs. pose proof Hq as [Hd Hi Hp Hnd].
  destruct (ring_at_append_full _ _ Hev Hn _ _ _ _ x Hd Hl Hn1) as (ofs & d1 & Hap & -> & Hd1).
  unfold same_event in Hs. apply andb_true_iff in Hs as [Ha' Hid]. apply String.eqb_eq in Hid.
  set (q1 := mkEventqueue d1 (stored_unique_events q)).
  assert (Hpx : eq_push ev_size info_size x q = Ok tt q1).
  { unfold eq_push. rewrite Hx. unfold on_data. by rewrite (bind_Ok _ _ _ _ _ (zoom_Ok _ _ _ _ _ _ Hap)). }
  pose proof (find_info _ _ _ _ _ a' Hq) as Hfi. cbn [list_find] in Hfi.
  rewrite decide_True in Hfi by (unfold same_event; by rewrite Ha, Hid, String.eqb_refl).
  destruct (list_find _ us) as [[ku u]|] eqn:Eu; [|done]. destruct Hfi as (k & e1 & Hf & Hku & ->).
  injection Hf as <- <-.
  assert (Hlast : sl i 0 = sl ((i + 1) mod n) (Z.of_nat (length evs))).
  { rewrite (slot_shift ev_size n). replace (Z.of_nat (length evs) + 1) with (0 + n) by (cbn [length] in Hl; lia).
    by rewrite (slot_wrap ev_size n). }
  assert (Hxk : (evs ++ [x]) !! length evs = Some x) by (by rewrite lookup_app_r, Nat.sub_diag).
  destruct (ring_at_set _ _ Hev Hn _ _ _ _ a' x Hd1 Hxk) as (d2 & Hset & Hd2).
  exists q1, (mkEventqueue d2 (stored_unique_events q)), ((i + 1) mod n).
  split; [done|]. split; [|split; [done|]].
  - unfold eq_push. rewrite Ha'. unfold find_unique, on_infos.
    erewrite (bind_Ok (zoom _ _ (rb_find _ _ _))) by (apply zoom_Ok; exact (ring_at_find _ _ Hinfo Hm _ _ _ _ Hi)).
    cbv beta. rewrite Eu. pose proof (slot_range info_size m Hinfo Hm j (Z.of_nat ku)).
    erewrite (bind_Ok (zoom _ _ (valid_ofs _))).
    2: { apply zoom_Ok. unfold valid_ofs, gets. cbn [stored_unique_events q1].
         rewrite (ra_capacity _ _ _ _ _ Hi), (proj2 (Z.ltb_lt _ _)) by lia. done. }
    cbv beta iota. erewrite (bind_Ok (zoom _ _ (rb_get _))) by (apply zoom_Ok; exact (ring_at_get _ _ _ _ _ _ _ Hi Hku)).
    cbn [stored_at info_of eq_data stored_unique_events q1]. change (Z.of_nat 0) with 0; rewrite Hlast.
    unfold on_data. exact (zoom_Ok eq_data (fun d q => mkEventqueue d (stored_unique_events q)) _ (mkEventqueue d1 (stored_unique_events q)) _ _ Hset).
  - cbn [eq_data]. rewrite insert_app_r_alt in Hd2 by done. by rewrite Nat.sub_diag in Hd2.
Qed.
End queue.

(** The destructor of a buffer. *)
Section cleanup.
Context {A : Type} (sz n : Z).
Hypothesis (Hsz : 0 < sz).
Hypothesis (Hn : 0 < n).

Lemma cleanup_loop_spec fuel : forall i k r (l : list A),
  ring_at sz n i r l -> (length l - k < fuel)%nat ->
  exists i' r', cleanup_loop sz fuel (Z.of_nat k) r = Ok tt r' /\
    ring_at sz n i' r' (drop (Nat.div2 (S (length l - k))) l).
Proof.
  induction fuel as [|fuel IH]; intros i k r l Hr Hf; [lia|]. cbn [cleanup_loop].
  unfold bind at 1, gets. rewrite (ra_n_elems _ _ _ _ _ Hr).
  destruct (Z.of_nat k <? Z.of_nat (length l)) eqn:E; zbool.
  - destruct l as [|x l]; cbn [length] in *; [lia|].
    destruct (ring_at_pop _ _ Hsz Hn _ _ _ _ Hr) as (r1 & Hp & Hr1). rewrite (bind_Ok _ _ _ _ _ Hp).
    destruct (IH _ (S k) _ _ Hr1) as (i' & r' & Hc & Hr'); [lia|].
    exists i', r'. replace (Z.of_nat k + 1) with (Z.of_nat (S k)) by lia. split; [done|].
    destruct (S (length l) - k)%nat as [|d] eqn:Ed; [lia|]. cbn [Nat.div2 drop].
    destruct d as [|d].
    + by replace (length l - S k)%nat with 0%nat in Hr' by lia.
    + by replace (S d) with (S (length l - S k)) by lia.
  - exists i, r. split; [done|]. by replace (length l - k)%nat with 0%nat by lia.
Qed.

(** The destructor of a ring buffer destroys only half of its records (rounded up):
    the bound of its loop is the number of records, which every pop decreases. *)
Theorem cleanup_leaves_half i r (l : list A) :
  ring_at sz n i r l -> exists i' r', cleanup sz r = Ok tt r' /\ ring_at sz n i' r' (drop (Nat.div2 (S (length l))) l).
Proof.
  intros Hr. unfold cleanup. rewrite (bind_read _ _ _ _ (ring_at_empty _ _ _ _ _ Hr)).
  unfold bind, gets. rewrite (ra_n_elems _ _ _ _ _ Hr), Nat2Z.id. destruct l as [|x l].
  - by exists i, r.
  - rewrite bool_decide_false by done. 
    destruct (cleanup_loop_spec (S (length (x :: l))) i 0 r (x :: l) Hr) as (i' & r' & Hc & Hr'); [lia|].
    exists i', r'. by rewrite Nat.sub_0_r in Hr'.
Qed.
End cleanup.

(** ** Example: a queue of two events, with room for two unique names *)

Module QueueExample.
Definition ev : Type := string * bool * Z.

#[export] Instance ev_queueable : Queueable ev := {
  is_unique_event e := e.1.2;
  event_id e := e.1.1
}.

Definition a1 : ev := ("a", true, 1).
Definition a2 : ev := ("a", true, 2).
Definition b : ev := ("b", false, 3).
Definition c : ev := ("c", false, 4).

Definition rep (q : eventqueue ev) (evs : list ev) : Prop := queue_rep 48 40 2 2 q evs.

Definition after (m : M (eventqueue ev) unit) (q : eventqueue ev) : eventqueue ev :=
  match m q with Ok _ q' => q' | _ => q end.

Definition queue0 : eventqueue ev := default (mkEventqueue (mkRing ∅ 0 0 0 0) (mkRing ∅ 0 0 0 0)) (new_eventqueue 48 40 2 2).
Definition queue1 : eventqueue ev := after (eq_push 48 40 a1) queue0.
Definition queue2 : eventqueue ev := after (eq_push 48 40 b) queue1.

Lemma rep_after e q evs :
  rep q evs -> Z.of_nat (length (fifo_push e evs)) <= 2 -> Z.of_nat (unique_count (fifo_push e evs)) <= 2 ->
  eq_push 48 40 e q = Ok tt (after (eq_push 48 40 e) q) /\ rep (after (eq_push 48 40 e) q) (fifo_push e evs).
Proof.
  intros Hq Hl Hc. destruct (push_refines 48 40 2 2 ltac:(lia) ltac:(lia) ltac:(lia) ltac:(lia) q evs e Hq Hl Hc) as (q' & Hp & Hr).
  unfold after. by rewrite Hp.
Qed.

Lemma rep0 : rep queue0 [].
Proof.
  destruct (queue_rep_new (E := ev) 48 40 2 2 ltac:(lia) ltac:(lia) ltac:(lia) ltac:(lia)) as (q & Hq & Hr).
  unfold queue0. by rewrite Hq.
Qed.

Lemma rep1 : rep queue1 [a1].
Proof. by apply (rep_after a1 queue0 [] rep0). Qed.

Lemma rep2 : rep queue2 [a1; b].
Proof. by apply (rep_after b queue1 [a1] rep1). Qed.

(** The queue holds a and b: pushing a again replaces it, and a comes out first. *)
Lemma eventqueue_refines_fifo_witness :
  rep queue2 [a1; b] /\
  (exists q', eq_push 48 40 a2 queue2 = Ok tt q' /\ rep q' [a2; b]) /\
  eq_front queue2 = Ok a1 queue2 /\ number_of_unique_events queue2 = Ok 1 queue2.
Proof.
  split; [exact rep2|].
  pose proof (eventqueue_refines_fifo 48 40 2 2 ltac:(lia) ltac:(lia) ltac:(lia) ltac:(lia) queue2 [a1; b] rep2)
    as (Hpush & Hpop & _ & _ & _ & Hu).
  split; [apply (Hpush a2); vm_compute; congruence|]. split; [exact (proj1 (Hpop a1 [b] eq_refl))|exact Hu].
Defined.

(** Pushing c drops a; the next a overwrites c. *)
Lemma unique_overflow_overwrites_witness :
  exists q1 q2 i, eq_push 48 40 c queue2 = Ok tt q1 /\ eq_push 48 40 a2 q1 = Ok tt q2 /\
    ring_at 48 2 i (eq_data q1) [b; c] /\ ring_at 48 2 i (eq_data q2) [b; a2].
Proof.
  destruct rep2 as (i & j & us & Hq).
  exact (unique_overflow_overwrites 48 40 2 2 ltac:(lia) ltac:(lia) ltac:(lia) ltac:(lia)
           i j queue2 a1 [b] us c a2 Hq eq_refl ltac:(lia) eq_refl eq_refl eq_refl).
Defined.

(** b is pushed behind a, one event is taken: taking the next is possible. *)
Lemma pushed_event_is_delivered_witness :
  exists q', queue_steps 48 40 queue1 [q_push b; q_wait_and_pop a1] q' /\
  ((exists k e', (k <= 1)%nat /\ [a1] !! k = Some e' /\ counterpart b e') \/
   (1 <= 1)%nat /\ exists e' q2, queue_step 48 40 q' (q_wait_and_pop e') q2).
Proof.
  destruct (wait_and_pop_refines 48 40 2 2 ltac:(lia) ltac:(lia) ltac:(lia) ltac:(lia) _ _ _ rep2) as (q' & Hp & _).
  assert (Hs : queue_steps 48 40 queue1 [q_push b; q_wait_and_pop a1] q').
  { eapply steps_cons; [constructor; exact (proj1 (rep_after b queue1 [a1] rep1 ltac:(vm_compute; congruence) ltac:(vm_compute; congruence)))|].
    eapply steps_cons; [constructor; exact Hp|constructor]. }
  exists q'. split; [exact Hs|].
  exact (pushed_event_is_delivered 48 40 2 2 ltac:(lia) ltac:(lia) ltac:(lia) ltac:(lia)
           queue1 [a1] b [q_wait_and_pop a1] q' rep1 Hs ltac:(vm_compute; congruence)).
Defined.

(** Two records: the destructor destroys one. *)
Lemma cleanup_leaves_half_witness :
  exists i r, cleanup 48 (eq_data queue2) = Ok tt r /\ ring_at 48 2 i r [b].
Proof.
  destruct rep2 as (i & j & us & Hq).
  exact (cleanup_leaves_half 48 2 ltac:(lia) ltac:(lia) i _ _ (qa_data _ _ _ _ _ _ _ _ _ Hq)).
Defined.
End QueueExample.
