(* ===== verification/Fetch.v ===== *)
(** * Fetch: where the events of a run come from

    State_machine_simulation_core::fetch_event
    (core/src/state_machine_simulation_core_event_handling.cpp): the event of the main
    queue, or the next one of the simulation script, whose other entries are executed on
    the way: assignments to guards and states, Start and the assertions. With it the
    functions of core/src/state_machine_simulation_core.cpp it calls, and the
    initialisations at the begin of a run (core/src/sm_sim_core_simulation_loop.cpp).

    Other threads push events while the loop runs. What they do is a list of arrivals,
    one for each time the queue is looked at; a wait takes arrivals until there is an
    event. Left out: log output. *)

From S2P Require Import Prelude MachineInt F64 VMEnv Ast Machines Names ExecCtx ExecLoop EventQueue.

(** ** Data *)

(** event_t with the members the loop does not look at: they decide what becomes of the
    event here. *)
Record queued := mkQueued {
  q_event : event_t;
  q_unique : bool;
  q_already_sent : bool;
  q_frmctxt : Z;                           (* Framecontext*, 0: nullptr *)
  q_exec : Z;                              (* Executioncontext*, 0: nullptr *)
  q_glob_func : Z
}.

#[export] Instance queued_queueable : Queueable queued := {
  is_unique_event := q_unique;
  event_id q := id_ (q_event q)
}.

(** The types that a directive gives; ALWAYS and ASSERT are not used. *)
Inductive assert_type := EVENTUALLY | NEVER.

Record assert_t := mkAssert {
  satisfied_ : bool;
  type_ : assert_type;
  states_ : list state_rep_t
}.

(** A type definition. The values in it are objects: a state of the type points to them. *)
Inductive tnode :=
| T_struct (name : string) (content : list tnode)
| T_identifier (name : string)
| T_value (p : Z).

(** What other threads do between two looks at the queue. *)
Record arrival := mkArrival { arriving : list queued; timers_active : bool }.

(** The members of the core that only this part uses, and the script and the position in
    it. *)
Record session := mkSession {
  s_heap : smheap;
  main_event_queue : eventqueue queued;
  out_event_queues : list (list queued);
  arrivals : list arrival;
  timed_events_pending : bool;
  running_as_node : bool;
  map_ceps_payload_to_native : bool;
  ignore_unresolved : bool;                (* conf_ignore_unresolved_state_id_in_directives *)
  unique_events : gset string;
  sim : list node;
  pos : nat;
  active_asserts : list assert_t;
  assert_in_end_states : list state_rep_t;
  assert_not_in_end_states : list state_rep_t;
  global_guards : gmap string node;
  type_definitions : gmap string tnode
}.

Definition session_eta (s : session) : session :=
  mkSession (s_heap s) (main_event_queue s) (out_event_queues s) (arrivals s) (timed_events_pending s)
    (running_as_node s) (map_ceps_payload_to_native s) (ignore_unresolved s) (unique_events s) (sim s) (pos s)
    (active_asserts s) (assert_in_end_states s) (assert_not_in_end_states s) (global_guards s) (type_definitions s).

Definition with_s_heap (x : smheap) (s : session) : session := ltac:(record_update session_eta s_heap x s).
Definition with_main_event_queue (x : eventqueue queued) (s : session) : session := ltac:(record_update session_eta main_event_queue x s).
Definition with_out_event_queues (x : list (list queued)) (s : session) : session := ltac:(record_update session_eta out_event_queues x s).
Definition with_arrivals (x : list arrival) (s : session) : session := ltac:(record_update session_eta arrivals x s).
Definition with_timed_events_pending (x : bool) (s : session) : session := ltac:(record_update session_eta timed_events_pending x s).
Definition with_pos (x : nat) (s : session) : session := ltac:(record_update session_eta pos x s).
Definition with_active_asserts (x : list assert_t) (s : session) : session := ltac:(record_update session_eta active_asserts x s).
Definition with_assert_in_end_states (x : list state_rep_t) (s : session) : session := ltac:(record_update session_eta assert_in_end_states x s).
Definition with_assert_not_in_end_states (x : list state_rep_t) (s : session) : session := ltac:(record_update session_eta assert_not_in_end_states x s).
Definition with_global_guards (x : gmap string node) (s : session) : session := ltac:(record_update session_eta global_guards x s).

Abbreviation core := (smc session).

(** What the script calls. *)
Class ScriptHost := {
  eval_locked_ceps_expr : node -> node -> M core Z;       (* the value, an object *)
  execute_scope : node -> M core unit;                    (* execute_action_seq(nullptr, &scope) *)
  run_exec : Z -> M core unit;                            (* Executioncontext::run *)
  update_sysstates : Z -> M core unit;                    (* Framecontext::update_sysstates *)
  frame_handler : Z -> M core (option (M core unit));     (* Framecontext::get_handler *)
  cover_state_changed : M core unit;                      (* run_execution_context_loop_cover_state_changed_handlers *)
  func_call_target : list node -> option node;            (* ceps *)
  call_arguments : list node -> list node;                (* ceps: the arguments of a call *)
  show : node -> string                                   (* ceps: operator << *)
}.

Definition session_of {A} (f : session -> A) : M core A := gets (fun c => f (world c)).
Definition in_session (f : session -> session) : M core unit := modify (fun c => with_world (f (world c)) c).
Definition on_session {A} (m : M session A) : M core A := zoom world with_world m.
Definition on_heap {A} (m : M smheap A) : M core A := on_session (zoom s_heap with_s_heap m).

(** ** Sets of states *)

(** operator < of state_rep_t, and the sets ordered by it. *)
Definition rep_lt (a b : state_rep_t) : bool :=
  (r_smp a <? r_smp b) || ((r_smp a =? r_smp b) && bool_decide (String.compare (r_sid a) (r_sid b) = Lt)).

Definition rep_eq (a b : state_rep_t) : bool := (r_smp a =? r_smp b) && String.eqb (r_sid a) (r_sid b).

Fixpoint reps_insert (x : state_rep_t) (l : list state_rep_t) : list state_rep_t :=
  match l with
  | [] => [x]
  | y :: l' => if rep_eq x y then l else if rep_lt x y then x :: l else y :: reps_insert x l'
  end.

Definition reps_of (l : list state_rep_t) : list state_rep_t := foldl (fun s x => reps_insert x s) [] l.

(** The element an iterator at [k] goes on to. *)
Definition next_rep (k : option state_rep_t) (s : list state_rep_t) : option state_rep_t :=
  List.find (fun r => match k with None => true | Some k => rep_lt k r end) s.

(** ** The states a start makes active *)

Fixpoint mapM {S A B} (f : A -> M S B) (l : list A) : M S (list B) :=
  match l with
  | [] => ret []
  | x :: l' => let! y := f x in let! ys := mapM f l' in ret (y :: ys)
  end.

Section hull.
(** The machines that have a state of their own among the given ones. *)
Context (own : list Z).

Definition has_initial_state (p : Z) : M smheap bool :=
  let! m := sm_at p in
  let! r := findM (m_states m) (fun q => let! s := state_at q in ret (is_initial s)) in
  ret (bool_decide (is_Some r)).

(** The index of the state with the name Initial. *)
Definition initial_idx (p : Z) : M smheap Z :=
  let! m := sm_at p in
  let! r := findM (m_states m) (fun q => let! s := state_at q in ret (String.eqb (s_id s) "Initial")) in
  match r with Some q => let! s := state_at q in ret (s_idx s) | None => ret (-1) end.

(** The machine around it. *)
Definition implied_outer (r : state_rep_t) : M smheap (list state_rep_t) :=
  if r_smp r =? 0 then ret []
  else
    let! m := sm_at (r_smp r) in
    if m_parent m =? 0 then ret []
    else let! p := sm_at (m_parent m) in ret [mkRep true true (m_parent m) (m_id p) (m_idx p)].

Definition implied_initial (r : state_rep_t) : M smheap (list state_rep_t) :=
  if negb (r_smp r =? 0) && r_is_sm r then
    let! h := has_initial_state (r_smp r) in
    if h && negb (bool_decide (r_smp r ∈ own)) then
      let! idx := initial_idx (r_smp r) in ret [mkRep true false (r_smp r) "Initial" idx]
    else ret []
  else ret [].

Definition implied_threads (r : state_rep_t) : M smheap (list state_rep_t) :=
  if r_is_sm r then
    let! m := sm_at (r_smp r) in
    if m_contains_threads m then
      let! ms := mapM (fun p => let! c := sm_at p in ret (p, c)) (m_children m) in
      ret (omap (fun x => if m_is_thread x.2 then Some (mkRep true true x.1 (m_id x.2) (m_idx x.2)) else None) ms)
    else ret []
  else ret [].

(** What an element adds: the machine around it, the initial state, the threads. *)
Definition implied_by (r : state_rep_t) : M smheap (list state_rep_t) :=
  if negb (r_valid r) then ret []
  else
    let! outer := implied_outer r in
    let! init := implied_initial r in
    let! threads := implied_threads r in
    ret (outer ++ init ++ threads).

(** One walk over the set, which grows on the way. *)
Fixpoint hull_pass (fuel : nat) (k : option state_rep_t) (s : list state_rep_t) : M smheap (list state_rep_t) :=
  match fuel with
  | O => out_of_fuel
  | S fuel' =>
    match next_rep k s with
    | None => ret s
    | Some r => let! l := implied_by r in hull_pass fuel' (Some r) (foldl (fun s x => reps_insert x s) s l)
    end
  end.

Fixpoint hull_loop (fuel : nat) (s : list state_rep_t) : M smheap (list state_rep_t) :=
  match fuel with
  | O => out_of_fuel
  | S fuel' =>
    let! s' := hull_pass fuel None s in
    if (length s <? length s')%nat then hull_loop fuel' s' else ret s'
  end.
End hull.

Definition trans_hull_of_containment_rel (fuel : nat) (states_in : list state_rep_t) : M smheap (list state_rep_t) :=
  let s := reps_of states_in in
  let! own := mapM containing_sm s in
  hull_loop own fuel s.

(** ** Assignments *)

Section script.
Context `{ScriptHost}.

Definition is_assignment_op (n : node) : bool :=
  match n with Binary_operator op _ _ => String.eqb op "=" | _ => false end.

Definition is_assignment_to_guard (lhs : node) : bool :=
  match lhs with Symbol _ kind => String.eqb kind "Guard" | _ => false end.

(** The names behind the first one, in the order of the code: the last one first. *)
Fixpoint dotted_names (p : node) : M core (node * list string) :=
  match p with
  | Binary_operator op l r =>
    if String.eqb op "." then
      let! id := match r with
                 | Identifier id | Symbol id _ => ret id
                 | _ => throw (Fatal (-1) "Illformed qualified id (ERRSSSHNMNTSTT1055).")
                 end in
      let! x := dotted_names l in
      ret (x.1, id :: x.2)
    else ret (p, [])
  | _ => ret (p, [])
  end.

Definition node_isrw_state (n : node) : option string :=
  match n with
  | Symbol name kind => if String.eqb kind "Systemstate" || String.eqb kind "Systemparameter" then Some name else None
  | _ => None
  end.

(** The name of the state, if the left side names one. *)
Definition is_assignment_to_state (lhs : node) : M core (option string) :=
  match node_isrw_state lhs with
  | Some name => ret (Some name)
  | None =>
    match lhs with
    | Binary_operator op _ _ =>
      if negb (String.eqb op ".") then ret None
      else
        let! x := dotted_names lhs in
        match x.1 with
        | Symbol name _ => ret (Some (foldr (fun id acc => acc +:+ "." +:+ id) name x.2))
        | _ => ret None
        end
    | _ => ret None
    end
  end.

Definition eval_guard_assign (lhs rhs : node) : M core unit :=
  match lhs with
  | Symbol name _ => in_session (fun s => with_global_guards (<[name := rhs]> (global_guards s)) s)
  | _ => undef
  end.

(** A new object. *)
Definition new_node (n : node) : M core Z :=
  let! p := gets (fun c => fresh ({[0]} ∪ dom (nodes c) : gset Z)) in
  do! modify (fun c => with_nodes (<[p := n]> (nodes c)) c) in
  ret p.

(** A state that exists keeps its value. *)
Definition define_var (id : string) (value : M core Z) : M core unit :=
  let! vars := gets global_states in
  match vars !! id with
  | Some _ => ret tt
  | None => let! p := value in modify (fun c => with_global_states (<[id := p]> (global_states c)) c)
  end.

Definition is_scalar (t : tnode) : bool := match t with T_value _ => true | _ => false end.

(** The states of a type: one for each path to a value, an identifier or an empty struct. *)
Fixpoint define_a_struct (t : tnode) (prefix : string) : M core unit :=
  match t with
  | T_struct _ content =>
    let zero := new_node (Int_literal 0) in
    if (length content =? 0)%nat then define_var prefix zero
    else
      let contains_structs_or_ids := existsb (fun c => negb (is_scalar c)) content in
      (fix members (cs : list tnode) : M core unit :=
         match cs with
         | [] => ret tt
         | c :: cs' =>
           do! match c with
               | T_struct name _ => define_a_struct c (prefix +:+ "." +:+ name)
               | T_identifier name => define_var (prefix +:+ "." +:+ name) zero
               | T_value p =>
                 if contains_structs_or_ids
                 then throw (Fatal (-1) ("Structuredefinition  illformed (mixes scalars with substructs): " +:+ prefix))
                 else define_var prefix (ret p)
               end in
           members cs'
         end) content
  | _ => ret tt
  end.

(** The right side is a type or an expression. The previous value of a new state is its
    value. *)
Definition eval_state_assign (root rhs : node) (lhs_id : string) : M core unit :=
  match rhs with
  | Identifier id =>
    let! types := session_of type_definitions in
    match types !! id with
    | None => throw (Fatal (-1) (id +:+ " is not a type."))
    | Some t => define_a_struct t lhs_id
    end
  | _ =>
    let! value := eval_locked_ceps_expr rhs root in
    let! pp := gets (fun c => default 0 (global_states c !! lhs_id)) in
    do! (if negb (pp =? 0)
         then modify (fun c => with_global_systemstates_prev (<[lhs_id := pp]> (global_systemstates_prev c)) c)
         else ret tt) in
    do! modify (fun c => with_global_states (<[lhs_id := value]> (global_states c)) c) in
    if pp =? 0
    then modify (fun c => with_global_systemstates_prev (<[lhs_id := value]> (global_systemstates_prev c)) c)
    else ret tt
  end.

(** An assignment of a script. *)
Definition script_assignment (n : node) : M core unit :=
  match n with
  | Binary_operator _ lhs rhs =>
    if is_assignment_to_guard lhs then eval_guard_assign lhs rhs
    else
      let! id := is_assignment_to_state lhs in
      match id with
      | Some id => eval_state_assign n rhs id
      | None => throw (Fatal (-1) ("Unsupported assignment:" +:+ show n))
      end
  | _ => undef
  end.

(** ** Events of a script *)

(** event_rep_t with its validity; the machine is read while a name is resolved. *)
Record resolved_event := mkResolved { ev_valid : bool; ev_smp : Z; ev_sid : string; ev_payload : list node }.

Definition no_event : resolved_event := mkResolved false 0 "" [].

Fixpoint resolve_event_qualified_id (p : node) (parent : Z) : M core resolved_event :=
  match p with
  | Symbol name kind => ret (if String.eqb kind "Event" then mkResolved true 0 name [] else no_event)
  | Func_call parts =>
    match func_call_target parts with
    | Some (Symbol name kind) =>
      ret (if String.eqb kind "Event" then mkResolved true 0 name (call_arguments parts) else no_event)
    | Some _ => ret no_event
    | None => undef
    end
  | Identifier id =>
    if parent =? 0 then
      let! ms := on_heap (gets statemachines) in
      match smap_find id ms with Some q => ret (mkResolved true q "" []) | None => ret no_event end
    else
      let! c := on_heap (child_named parent id) in
      match c with
      | Some q => ret (mkResolved true q "" [])
      | None =>
        let! m := on_heap (sm_at parent) in
        match find_event (m_events m) id with
        | Some e => ret (mkResolved true parent e [])
        | None => ret no_event
        end
      end
  | Binary_operator op l r =>
    if negb (String.eqb op ".") then ret no_event
    else
      let! l := resolve_event_qualified_id l 0 in
      if negb (ev_valid l) then ret l
      else if ev_smp l =? 0 then ret no_event
      else resolve_event_qualified_id r (ev_smp l)
  | _ => ret no_event
  end.

(** The number of an event that has a name is not set. *)
Definition event_rep_of (e : resolved_event) : event_rep_t :=
  mkEventRep (ev_sid e) 0 true None (ev_payload e) [] 0 None.

(** ** States of a script *)

(** The entries of a directive that can name a state. *)
Definition names_state (symbols : bool) (n : node) : bool :=
  match n with
  | Identifier _ => true
  | Symbol _ _ => symbols
  | Binary_operator op _ _ => String.eqb op "."
  | _ => false
  end.

(** An entry that names no state is skipped or an error. *)
Definition resolve_state (what : string) (n : node) : M core (option state_rep_t) :=
  let! r := on_heap (resolve_state_or_transition_given_a_qualified_id n 0 false) in
  if r_valid r.1 then ret (Some r.1)
  else
    let! ignore := session_of ignore_unresolved in
    if ignore then ret None
    else throw (Fatal (-1) (what +:+ "Expression doesn't evaluate to an existing state: " +:+ show n)).

Fixpoint resolve_states (what : string) (symbols : bool) (cs : list node) : M core (list state_rep_t) :=
  match cs with
  | [] => ret []
  | n :: cs' =>
    if names_state symbols n then
      let! r := resolve_state what n in
      let! rs := resolve_states what symbols cs' in
      ret (match r with Some r => r :: rs | None => rs end)
    else resolve_states what symbols cs'
  end.

(** ** Assertions *)

Definition add_assert (satisfied : bool) (t : assert_type) (cs : list node) : M core unit :=
  let! rs := resolve_states "" false cs in
  in_session (fun s => with_active_asserts (active_asserts s ++ [mkAssert satisfied t rs]) s).

Definition err_msg_assert (what : string) : string := "ASSERTION not satisfied (" +:+ what +:+ ")".

(** update_asserts: a state of a NEVER assertion ends the program. Nothing calls it. *)
Fixpoint update_asserts_from (reached_states : list state_rep_t) (before after : list assert_t) : M core unit :=
  match after with
  | [] => in_session (with_active_asserts before)
  | ass :: after' =>
    let hit := existsb (fun s => existsb (rep_eq s) (states_ ass)) reached_states in
    match type_ ass with
    | NEVER =>
      if satisfied_ ass && hit then
        do! in_session (with_active_asserts (before ++ mkAssert false NEVER (states_ ass) :: after')) in
        throw (Fatal (-1) (err_msg_assert "ASSERT_NEVER_VISIT_STATES"))
      else update_asserts_from reached_states (before ++ [ass]) after'
    | EVENTUALLY =>
      update_asserts_from reached_states (before ++ [mkAssert (satisfied_ ass || hit) EVENTUALLY (states_ ass)]) after'
    end
  end.

Definition update_asserts (reached_states : list state_rep_t) : M core unit :=
  let! l := session_of active_asserts in
  update_asserts_from reached_states [] l.

(** [wrong]: for which states, active or not, the assertion fails. [states]: the states
    of fetch_event. After an entry that is skipped the others are not looked at. *)
Fixpoint handle_current_states_assertion (what : string) (wrong : bool -> bool) (states : list state_rep_t) (cs : list node)
  : M core unit :=
  match cs with
  | [] => ret tt
  | n :: cs' =>
    if names_state false n then
      let! r := resolve_state "" n in
      match r with
      | None => ret tt
      | Some state =>
        let! native := gets enforce_native in
        let! found := (if native then
                         let! v := on_ctx (vget current_states (r_id state)) in ret (negb (v =? 0))
                       else ret (existsb (rep_eq state) states)) in
        if wrong found then throw (Fatal (-1) (err_msg_assert what))
        else handle_current_states_assertion what wrong states cs'
      end
    else handle_current_states_assertion what wrong states cs'
  end.

(** ** The queue *)

Context (ev_size info_size : Z) (hull_fuel : nat).

Definition on_queue {A} (m : M (eventqueue queued) A) : M core A :=
  on_session (zoom main_event_queue with_main_event_queue m).

Definition push_queue (q : queued) : M core unit := on_queue (eq_push ev_size info_size q).

(** What has happened since the queue was looked at. *)
Definition absorb : M core bool :=
  let! l := session_of arrivals in
  match l with
  | [] => ret false
  | a :: l =>
    do! in_session (with_arrivals l) in
    do! in_session (with_timed_events_pending (timers_active a)) in
    do! forM (arriving a) push_queue in
    ret true
  end.

(** A wait that lasts for ever is one that does not end. *)
Fixpoint wait_for_data (fuel : nat) : M core unit :=
  match fuel with
  | O => out_of_fuel
  | S fuel' =>
    let! e := on_queue eq_empty in
    if e then let! more := absorb in if more then wait_for_data fuel' else out_of_fuel else ret tt
  end.

Definition push_out_queues (q : queued) : M core unit :=
  in_session (fun s => with_out_event_queues (map (fun oq => oq ++ [q]) (out_event_queues s)) s).

(** The payload as values: what is not a number or a text is dropped. *)
Definition map_payload (e : event_t) : event_t :=
  match payload_ e with
  | [] => e
  | l =>
    mkEvent (id_ e) (iid_ e) (str_id_valid_ e) (protobufish_msg e) []
      (omap (fun v => match v with
                      | Int_literal z => Some (Variant_int z)
                      | Float_literal z => Some (Variant_double z)
                      | String_literal z => Some (Variant_string z)
                      | _ => None
                      end) l) (error_ e)
  end.

(** The event as the out queues get it. *)
Definition sent_on (e : event_t) (q : queued) : queued :=
  mkQueued e (q_unique q) (q_already_sent q) (q_frmctxt q) 0 (q_glob_func q).

(** The event that is handed out for a queued one; [None]: the loop goes on. *)
Definition take_event (q : queued) : M core (option event_rep_t) :=
  match error_ (q_event q) with
  | Some e => ret (Some (mkEventRep "error" 0 true None [] [] 0 (Some e)))
  | None =>
    if negb (q_frmctxt q =? 0) then
      do! update_sysstates (q_frmctxt q) in
      let! h := frame_handler (q_frmctxt q) in
      do! (match h with Some h => h | None => ret tt end) in
      ret None
    else
      do! (if negb (q_exec q =? 0) then run_exec (q_exec q) else ret tt) in
      if str_id_valid_ (q_event q) && String.eqb (id_ (q_event q)) "" then ret None
      else
        let! m := session_of map_ceps_payload_to_native in
        let e := if m then map_payload (q_event q) else q_event q in
        do! (if q_already_sent q then ret tt else push_out_queues (sent_on e q)) in
        ret (Some (mkEventRep (id_ e) (iid_ e) (str_id_valid_ e) (protobufish_msg e) (payload_ e)
                     (payload_native_ e) (q_glob_func q) None))
  end.

(** ** The script *)

Inductive script_result :=
| Script_event (ev : event_rep_t)
| Script_started (states : list state_rep_t) (on_enter_seq : list Z)
| Script_restart                           (* an action was executed: the queue comes first *)
| Script_done.

Definition advance : M core unit := in_session (fun s => with_pos (S (pos s)) s).

(** Start: the states and what they imply, and the machines of the states. *)
Definition start_directive (states : list state_rep_t) (cs : list node) : M core (list state_rep_t * list Z) :=
  let! rs := resolve_states "Start-directive: " true cs in
  let! hull := on_heap (trans_hull_of_containment_rel hull_fuel rs) in
  ret (foldl (fun s x => reps_insert x s) (reps_of states) hull,
       foldl (fun s r => ptrs_insert (r_smp r) s) [] rs).

(** The assertions; [None]: another directive. *)
Definition assertion (states : list state_rep_t) (name : string) (cs : list node) : option (M core unit) :=
  if String.eqb name "ASSERT_EVENTUALLY_VISIT_STATES" then Some (add_assert false EVENTUALLY cs)
  else if String.eqb name "ASSERT_NEVER_VISIT_STATES" then Some (add_assert true NEVER cs)
  else if String.eqb name "ASSERT_END_STATES_CONTAINS" then
    Some (let! rs := resolve_states "" false cs in
          in_session (fun s => with_assert_in_end_states (foldl (fun s x => reps_insert x s) (assert_in_end_states s) rs) s))
  else if String.eqb name "ASSERT_END_STATES_CONTAINS_NOT" then
    Some (let! rs := resolve_states "" false cs in
          in_session (fun s => with_assert_not_in_end_states (foldl (fun s x => reps_insert x s) (assert_not_in_end_states s) rs) s))
  else if String.eqb name "ASSERT_CURRENT_STATES_CONTAINS" then
    Some (handle_current_states_assertion "ASSERT_CURRENT_STATES_CONTAINS" negb states cs)
  else if String.eqb name "ASSERT_CURRENT_STATES_CONTAINS_NOT" then
    Some (handle_current_states_assertion "ASSERT_CURRENT_STATES_CONTAINS" id states cs)
  else None.

(** What is neither an assignment nor a directive: an event, or an action. *)
Definition event_or_action (n : node) : M core script_result :=
  let! cev := resolve_event_qualified_id n 0 in
  if negb (ev_valid cev) || String.eqb (ev_sid cev) "" then
    let! native := gets enforce_native in
    if native then throw (Fatal (-1) "Expecting native implementation (--enforce_native):fetch_event")
    else
      do! execute_scope n in
      do! advance in
      ret Script_restart
  else
    let! node := session_of running_as_node in
    let! unique := session_of unique_events in
    let ev := event_rep_of cev in
    do! (if node
         then push_out_queues (mkQueued (mkEvent (sid_ ev) 0 true None [] [] None)
                                 (bool_decide (sid_ ev ∈ unique)) false 0 0 0)
         else ret tt) in
    do! advance in
    ret (Script_event ev).

(** [ns]: the script from the position on. *)
Fixpoint run_script (states : list state_rep_t) (ns : list node) : M core script_result :=
  match ns with
  | [] => ret Script_done
  | n :: ns' =>
    if is_assignment_op n then
      do! script_assignment n in do! advance in run_script states ns'
    else
      match n with
      | Structdef name cs =>
        if String.eqb name "Start" then
          let! r := start_directive states cs in
          do! advance in
          ret (Script_started r.1 r.2)
        else
          match assertion states name cs with
          | Some m => do! m in do! advance in run_script states ns'
          | None => event_or_action n
          end
      | _ => event_or_action n
      end
  end.

(** ** fetch_event *)

(** The end of the script: the handlers that follow the active states are served, and
    the thread waits when there can be more events. *)
Fixpoint serve_handlers (fuel : nat) : M core unit :=
  match fuel with
  | O => out_of_fuel
  | S fuel' =>
    let! _ := absorb in
    let! e := on_queue eq_empty in
    do! cover_state_changed in
    if negb e then ret tt
    else
      let! d := gets dangling_handler_call in
      if d then serve_handlers fuel' else ret tt
  end.

Definition wait_at_end (fuel : nat) : M core unit :=
  let! d := gets dangling_handler_call in
  if d then serve_handlers fuel
  else
    let! node := session_of running_as_node in
    let! timed := session_of timed_events_pending in
    if node || timed then wait_for_data fuel else ret tt.

Definition no_event_rep : event_rep_t := mkEventRep "" 0 true None [] [] 0 None.

Definition fetched_event (ev : event_rep_t) : fetched := mkFetched true ev [] false [].
Definition fetched_nothing : fetched := mkFetched false no_event_rep [] false [].

(** [fetch_event(ev, sim, pos, states, states_updated, on_enter_seq)] as the loop calls
    it: without states, with the queue and the Start directive. *)
Fixpoint fetch_event (fuel : nat) : M core fetched :=
  match fuel with
  | O => out_of_fuel
  | S fuel' =>
    let! pending := session_of timed_events_pending in
    let again :=
      let! node := session_of running_as_node in
      if pending || node then fetch_event fuel' else ret fetched_nothing in
    let! _ := absorb in
    let! e := on_queue eq_empty in
    if negb e then
      let! q := on_queue eq_front in
      do! on_queue (eq_pop ev_size info_size) in
      let! r := take_event q in
      match r with Some ev => ret (fetched_event ev) | None => again end
    else
      let! p := session_of pos in
      let! ns := session_of sim in
      let! r := run_script [] (drop p ns) in
      match r with
      | Script_event ev => ret (fetched_event ev)
      | Script_started states seq =>
        ret (mkFetched false no_event_rep (map r_id states) true seq)
      | Script_restart => fetch_event fuel'
      | Script_done => do! wait_at_end fuel' in again
      end
  end.

(** ** The begin of a run: the script up to the first directive or event. *)
Fixpoint run_initialisations (ns : list node) : M core unit :=
  match ns with
  | [] => ret tt
  | n :: ns' =>
    if is_a_simulation_directive n then ret tt
    else if is_assignment_op n then
      do! script_assignment n in do! advance in run_initialisations ns'
    else
      let! cev := resolve_event_qualified_id n 0 in
      if negb (ev_valid cev) || String.eqb (ev_sid cev) "" then
        do! execute_scope n in do! advance in run_initialisations ns'
      else ret tt
  end.

(** ** Raising events, and their arguments *)

Definition enqueue_event (ev : queued) (update_out_queues : bool) : M core unit :=
  let ev := mkQueued (q_event ev) (q_unique ev) update_out_queues (q_frmctxt ev) (q_exec ev) (q_glob_func ev) in
  do! push_queue ev in
  if update_out_queues then push_out_queues ev else ret tt.

Definition variant_node (v : Variant) : option node :=
  match what_ v with
  | What_String => Some (String_literal (sv_ v))
  | What_Int => Some (Int_literal (iv_ v))
  | What_Double => Some (Float_literal (dv_ v))
  | What_Undefined => None
  end.

Definition queue_event (ev_name : string) (vl : list Variant) : M core unit :=
  let! unique := session_of unique_events in
  enqueue_event (mkQueued (mkEvent ev_name 0 true None (omap variant_node vl) [] None)
                   (bool_decide (ev_name ∈ unique)) false 0 0 0) true.

(** The event has no name, and is looked up with the empty one. *)
Definition fire_event (id : Z) : M core unit :=
  let! unique := session_of unique_events in
  enqueue_event (mkQueued (mkEvent "" id false None [] [] None) (bool_decide (("" : string) ∈ unique)) false 0 0 0) true.

Definition queue_internal_event (ev_name : string) (args : list node) : M core unit :=
  enqueue_event (mkQueued (mkEvent ev_name 0 true None args [] None) false false 0 0 0) false.

Definition sync_queue_event (ev_id : Z) : M core unit := on_ctx (push_ev_sync_queue ev_id).

(** An event of a native machine that is processed by its number has no arguments. *)
Definition by_number : M core bool :=
  let! native := gets enforce_native in
  let! id := gets (fun c => current_ev_id (ctx c)) in
  ret (native && negb (id =? 0)).

Definition argc : M core Z :=
  let! b := by_number in
  if b then ret 0
  else gets (fun c => Z.of_nat (max (length (payload_ (current_event c))) (length (payload_native_ (current_event c))))).

(** [id_to_ev[...]] inserts an empty name for an unknown number. *)
Definition argv (j : nat) : M core Variant :=
  match j with
  | O =>
    let! b := by_number in
    if b then
      let! id := gets (fun c => current_ev_id (ctx c)) in
      let! names := gets (fun c => id_to_ev (ctx c)) in
      match names !! id with
      | Some name => ret (Variant_string name)
      | None => do! on_ctx (modify (with_id_to_ev (<[id := ""]> names))) in ret (Variant_string "")
      end
    else gets (fun c => Variant_string (id_ (current_event c)))
  | S i =>
    let! e := gets current_event in
    if (max (length (payload_ e)) (length (payload_native_ e)) <=? i)%nat
    then throw (Fatal (-1) "Access to argv: Out of bounds. (plugin interface)")
    else
      match payload_native_ e with
      | _ :: _ => of_option (payload_native_ e !! i)
      | [] =>
        let! r := of_option (payload_ e !! i) in
        match r with
        | Int_literal z => ret (Variant_int z)
        | Float_literal z => ret (Variant_double z)
        | String_literal z => ret (Variant_string z)
        | _ => throw (Fatal (-1) "Access to argv: Unsupported type.")
        end
      end
  end.
End script.
