(* ===== verification/FetchSpec.v ===== *)
(** * FetchSpec: what fetch_event hands out

    The states a Start directive makes active are the least set that contains the named
    ones and is closed under what each implies. Queued events are handed out in order, and
    before anything of the script; an event of a frame can end the run. *)

From S2P Require Import Prelude MachineInt F64 VMEnv Ast Machines Names ExecCtx ExecLoop SimLoop EventQueue EventQueueSpec Fetch.

(** ** Sets of states *)

Lemma rep_eq_iff a b : rep_eq a b = true <-> r_smp a = r_smp b /\ r_sid a = r_sid b.
Proof. unfold rep_eq. rewrite andb_true_iff, Z.eqb_eq, String.eqb_eq. done. Qed.

Definition rep_before (a b : state_rep_t) : Prop := rep_lt a b = true.

Lemma rep_lt_iff a b : rep_lt a b = true <-> r_smp a < r_smp b \/ r_smp a = r_smp b /\ String.compare (r_sid a) (r_sid b) = Lt.
Proof. unfold rep_lt. rewrite orb_true_iff, andb_true_iff, Z.ltb_lt, Z.eqb_eq, bool_decide_eq_true. done. Qed.

Lemma ascii_compare_cases x y :
  match Ascii.compare x y with Lt => (Ascii.N_of_ascii x < Ascii.N_of_ascii y)%N | Eq => x = y | Gt => (Ascii.N_of_ascii y < Ascii.N_of_ascii x)%N end.
Proof.
  unfold Ascii.compare. destruct (N.compare_spec (Ascii.N_of_ascii x) (Ascii.N_of_ascii y)) as [E|E|E]; [|done..].
  by rewrite <- (Ascii.ascii_N_embedding x), E, Ascii.ascii_N_embedding.
Qed.

Lemma ascii_compare_lt x y : (Ascii.N_of_ascii x < Ascii.N_of_ascii y)%N -> Ascii.compare x y = Lt.
Proof. intros Hlt. unfold Ascii.compare. by apply N.compare_lt_iff. Qed.

Lemma string_compare_refl s : String.compare s s = Eq.
Proof.
  induction s as [|c s IH]; [done|]. cbn. pose proof (ascii_compare_cases c c) as Hc.
  destruct (Ascii.compare c c); [done|lia..].
Qed.

Lemma string_compare_trans a : forall b c,
  String.compare a b = Lt -> String.compare b c = Lt -> String.compare a c = Lt.
Proof.
  induction a as [|x a IH]; intros [|y b] [|z c]; cbn; try done.
  pose proof (ascii_compare_cases x y) as Hxy. pose proof (ascii_compare_cases y z) as Hyz.
  destruct (Ascii.compare x y), (Ascii.compare y z); try done; subst; intros H1 H2.
  - pose proof (ascii_compare_cases z z) as Hz. destruct (Ascii.compare z z); [by apply (IH b)|lia..].
  - by rewrite ascii_compare_lt.
  - by rewrite ascii_compare_lt.
  - by rewrite ascii_compare_lt by lia.
Qed.

#[local] Instance rep_before_strict : StrictOrder rep_before.
Proof.
  split.
  - intros a. unfold complement, rep_before. rewrite rep_lt_iff, string_compare_refl. intros [?|[_ ?]]; [lia|done].
  - intros a b c. unfold rep_before. rewrite !rep_lt_iff. intros [H1|[H1 Hs1]] [H2|[H2 Hs2]]; try (left; lia).
    right. split; [lia|]. by apply (string_compare_trans _ (r_sid b)).
Qed.

Lemma rep_trichotomy a b : rep_before a b \/ rep_eq a b = true \/ rep_before b a.
Proof.
  unfold rep_before. rewrite !rep_lt_iff, rep_eq_iff. destruct (Z.lt_trichotomy (r_smp a) (r_smp b)) as [|[|]]; auto.
  destruct (String.compare (r_sid a) (r_sid b)) eqn:E; auto.
  - right; left. split; [done|]. by apply String.compare_eq_iff.
  - right; right; right. split; [done|]. by rewrite String.compare_antisym, E.
Qed.

Lemma rep_eq_before a b c : rep_eq a b = true -> rep_before b c -> rep_before a c.
Proof. unfold rep_before. rewrite rep_eq_iff, !rep_lt_iff. intros [-> ->]. done. Qed.

Definition insert_all (s l : list state_rep_t) : list state_rep_t := foldl (fun s x => reps_insert x s) s l.

Abbreviation ordered := (Sorting.Sorted.StronglySorted rep_before).

Lemma reps_insert_elem x y s : y ∈ reps_insert x s -> y = x \/ y ∈ s.
Proof.
  induction s as [|z s IH]; cbn; [set_solver|]. destruct (rep_eq x z); [auto|]. destruct (rep_lt x z); set_solver.
Qed.

Lemma reps_insert_keeps x y s : y ∈ s -> y ∈ reps_insert x s.
Proof.
  induction s as [|z s IH]; cbn; [set_solver|]. destruct (rep_eq x z); [auto|]. destruct (rep_lt x z); set_solver.
Qed.

Lemma reps_insert_has x s : exists y, y ∈ reps_insert x s /\ rep_eq x y = true.
Proof.
  assert (Hx : rep_eq x x = true) by (by apply rep_eq_iff).
  induction s as [|z s (y & Hy & E)]; cbn; [exists x; set_solver|]. destruct (rep_eq x z) eqn:Ez; [exists z; set_solver|].
  destruct (rep_lt x z); [exists x|exists y]; set_solver.
Qed.

Lemma reps_insert_length x s : (length s <= length (reps_insert x s))%nat /\
  (length (reps_insert x s) = length s -> reps_insert x s = s).
Proof.
  induction s as [|z s [IH1 IH2]]; cbn; [split; [lia|done]|]. destruct (rep_eq x z); [done|].
  destruct (rep_lt x z); cbn; split; try lia. intros [= E]. by rewrite IH2.
Qed.

Lemma reps_insert_ordered x s : ordered s -> ordered (reps_insert x s).
Proof.
  induction 1 as [|z s Hs IH Hz]; cbn; [by repeat constructor|].
  destruct (rep_eq x z) eqn:E; [by constructor|]. destruct (rep_lt x z) eqn:El.
  - constructor; [by constructor|]. constructor; [done|]. rewrite Forall_forall in Hz |- *. intros y Hy. etransitivity; [exact El|auto].
  - constructor; [done|]. apply Forall_forall. intros y [->|Hy]%reps_insert_elem.
    + destruct (rep_trichotomy x z) as [Hl|[Hl|]]; [congruence..|done].
    + rewrite Forall_forall in Hz. by apply Hz.
Qed.

Lemma insert_all_spec l : forall s, ordered s ->
  ordered (insert_all s l) /\ (forall y, y ∈ s -> y ∈ insert_all s l) /\
  (forall x, x ∈ l -> exists y, y ∈ insert_all s l /\ rep_eq x y = true) /\
  (forall y, y ∈ insert_all s l -> y ∈ s \/ y ∈ l) /\
  (length s <= length (insert_all s l))%nat /\ (length (insert_all s l) = length s -> insert_all s l = s).
Proof.
  induction l as [|x l IH]; intros s Hs; cbn.
  - split; [done|]. split; [done|]. split; [set_solver|]. split; [auto|]. split; [lia|done].
  - destruct (IH (reps_insert x s) (reps_insert_ordered x s Hs)) as (H1 & H2 & H3 & H4 & H5 & H6).
    pose proof (reps_insert_length x s) as [L1 L2]. fold (insert_all (reps_insert x s) l).
    split; [done|]. split; [intros y Hy; by apply H2, reps_insert_keeps|]. split; [|split; [|split; [lia|]]].
    + intros y [->|Hy]%elem_of_cons; [|by apply H3]. destruct (reps_insert_has x s) as (y & Hy & E). exists y. auto.
    + intros y Hy. destruct (H4 y Hy) as [[->|]%reps_insert_elem|]; set_solver.
    + intros E. rewrite H6 by lia. apply L2. lia.
Qed.

Definition after (k : option state_rep_t) (r : state_rep_t) : Prop :=
  match k with None => True | Some k => rep_before k r end.

Lemma next_rep_spec k s : ordered s ->
  match next_rep k s with
  | Some r => r ∈ s /\ after k r /\ forall r', r' ∈ s -> after k r' -> r' = r \/ rep_before r r'
  | None => forall r', r' ∈ s -> ~ after k r'
  end.
Proof.
  unfold next_rep. induction 1 as [|z s Hs IH Hz]; cbn; [set_solver|].
  destruct (match k with Some k0 => rep_lt k0 z | None => true end) eqn:E.
  - split; [set_solver|]. split; [by destruct k|]. intros r' [->|Hr]%elem_of_cons _; [by left|right].
    rewrite Forall_forall in Hz. by apply Hz.
  - assert (Hn : ~ after k z) by (destruct k; [cbn; unfold rep_before; congruence|done]).
    destruct (List.find _ s) as [r|].
    + destruct IH as (H1 & H2 & H3). split; [set_solver|]. split; [done|].
      intros r' [->|Hr]%elem_of_cons Ha; [done|]. by apply H3.
    + intros r' [->|Hr]%elem_of_cons Ha; [done|]. by apply (IH r').
Qed.

(** ** The states a start makes active *)

Section hull.
Context (own : list Z) (h : smheap).

(** [x] is implied by [r]. *)
Definition implies (r x : state_rep_t) : Prop := exists l, implied_by own r h = Ok l h /\ x ∈ l.

(** [x] comes from the states [s]. *)
Inductive implied_from (s : list state_rep_t) : state_rep_t -> Prop :=
| implied_given x : x ∈ s -> implied_from s x
| implied_step r x : implied_from s r -> implies r x -> implied_from s x.

Definition mentions (s : list state_rep_t) (x : state_rep_t) : Prop := exists y, y ∈ s /\ rep_eq x y = true.

Definition closed_at (s : list state_rep_t) (r : state_rep_t) : Prop := forall x, implies r x -> mentions s x.

Lemma heap_keeps_findM {A} (f : A -> M smheap bool) l :
  (forall x, keeps (eq h) (f x) (fun _ => True)) -> keeps (eq h) (findM l f) (fun _ => True).
Proof.
  intros Hf. induction l as [|x l IH]; cbn [findM]; [by apply keeps_ret|].
  eapply keeps_bind; [apply Hf|]. intros b _. by apply keeps_if; [apply keeps_ret|].
Qed.

Lemma keeps_mapM {A B} (f : A -> M smheap B) l :
  (forall x, keeps (eq h) (f x) (fun _ => True)) -> keeps (eq h) (mapM f l) (fun _ => True).
Proof.
  intros Hf. induction l as [|x l IH]; cbn [mapM]; [by apply keeps_ret|].
  eapply keeps_bind; [apply Hf|]. intros y _. eapply keeps_bind; [apply IH|]. intros ys _. by apply keeps_ret.
Qed.

Lemma keeps_sm_at p : keeps (eq h) (sm_at p) (fun _ => True).
Proof. intros s <-. unfold sm_at. by destruct (h_machines h !! p). Qed.

Lemma keeps_state_at p : keeps (eq h) (state_at p) (fun _ => True).
Proof. intros s <-. unfold state_at. by destruct (h_states h !! p). Qed.

#[local] Ltac reading :=
  repeat first
    [ apply keeps_ret; exact I | apply keeps_if | apply keeps_sm_at | apply keeps_state_at
    | apply heap_keeps_findM; intros ? | apply keeps_mapM; intros ?
    | apply (keeps_bind _ _ _ (fun _ => True)); [|intros ? _]
    | match goal with |- keeps _ (match ?o with Some _ => _ | None => _ end) _ => destruct o end ].

Lemma implied_by_reads r : keeps (eq h) (implied_by own r) (fun _ => True).
Proof. unfold implied_by, implied_outer, implied_initial, implied_threads, has_initial_state, initial_idx. reading.
Qed.

Lemma implied_by_heap r l h' : implied_by own r h = Ok l h' -> h' = h.
Proof. intros E. pose proof (implied_by_reads r h eq_refl) as Hr. rewrite E in Hr. by destruct Hr. Qed.

Lemma hull_pass_spec fuel : forall k s s' h', hull_pass own fuel k s h = Ok s' h' -> ordered s ->
  h' = h /\ ordered s' /\ (forall y, y ∈ s -> y ∈ s') /\ (length s <= length s')%nat /\
  (length s' = length s -> s' = s /\ forall r, r ∈ s -> after k r -> closed_at s r) /\
  (forall y, y ∈ s' -> implied_from s y).
Proof.
  induction fuel as [|fuel IH]; intros k s s' h' E Hs; [done|]. cbn [hull_pass] in E.
  pose proof (next_rep_spec k s Hs) as Hn. destruct (next_rep k s) as [r|].
  - destruct Hn as (Hr & Hk & Hnext). apply bind_inv_Ok in E as (l & h1 & El & E).
    pose proof (implied_by_heap _ _ _ El) as ->. fold (insert_all s l) in E.
    destruct (insert_all_spec l s Hs) as (O1 & K1 & M1 & F1 & L1 & S1).
    destruct (IH _ _ _ _ E O1) as (-> & O2 & K2 & L2 & S2 & F2).
    split; [done|]. split; [done|]. split; [auto|]. split; [lia|]. split.
    + intros Hlen. rewrite S1 in * by lia. destruct (S2 Hlen) as [-> Hc]. split; [done|].
      intros r' Hr' Ha. destruct (Hnext r' Hr' Ha) as [->|Hlt]; [|by apply Hc].
      intros x (l' & El' & Hx). rewrite El in El'. injection El' as <-.
      destruct (M1 x Hx) as (y & Hy & Ey). exists y. auto.
    + intros y Hy. assert (Hgen : forall z, implied_from (insert_all s l) z -> implied_from s z); [|by apply Hgen, F2].
      induction 1 as [z Hz|q z _ IHq Hz]; [|by apply implied_step with q].
      destruct (F1 z Hz); [by apply implied_given|]. apply implied_step with r; [by apply implied_given|]. by exists l.
  - injection E as <- <-. split; [done|]. split; [done|]. split; [done|]. split; [done|]. split; [|by intros; apply implied_given].
    intros _. split; [done|]. intros r Hr Ha. by destruct (Hn r Hr).
Qed.

Lemma hull_loop_spec fuel : forall s s' h', hull_loop own fuel s h = Ok s' h' -> ordered s ->
  h' = h /\ ordered s' /\ (forall y, y ∈ s -> y ∈ s') /\ (forall r, r ∈ s' -> closed_at s' r) /\
  (forall y, y ∈ s' -> implied_from s y).
Proof.
  induction fuel as [|fuel IH]; intros s s' h' E Hs; [done|]. cbn [hull_loop] in E.
  apply bind_inv_Ok in E as (s1 & h1 & E1 & E). destruct (hull_pass_spec _ _ _ _ _ E1 Hs) as (-> & O1 & K1 & L1 & S1 & F1).
  destruct (Nat.ltb_spec (length s) (length s1)).
  - destruct (IH _ _ _ E O1) as (-> & O2 & K2 & C2 & F2). split; [done|]. split; [done|]. split; [auto|]. split; [done|].
    intros y Hy. apply F2 in Hy. induction Hy as [z Hz|q z _ IHq Hz]; [by apply F1|by apply implied_step with q].
  - injection E as <- <-. destruct S1 as [-> Hc]; [lia|]. split; [done|]. split; [done|]. split; [done|].
    split; [intros r Hr; by apply Hc|done].
Qed.

(** The walk ends: the states it can meet are a finite set. *)
Section ends.
Context (U : list state_rep_t).
Hypothesis HU : forall r, r ∈ U -> exists l, implied_by own r h = Ok l h /\ forall x, x ∈ l -> x ∈ U.

Definition afterb (k : option state_rep_t) (r : state_rep_t) : bool :=
  match k with None => true | Some k => rep_lt k r end.

Definition ahead (k : option state_rep_t) : nat := length (List.filter (afterb k) U).

Lemma filter_length_lt {A} (f g : A -> bool) x l : x ∈ l -> f x = false -> g x = true ->
  (forall y, f y = true -> g y = true) -> (length (List.filter f l) < length (List.filter g l))%nat.
Proof.
  intros Hx Hf Hg Hfg.
  assert (Hle : forall l, (length (List.filter f l) <= length (List.filter g l))%nat).
  { clear -Hfg. induction l as [|y l IH]; cbn; [lia|]. specialize (Hfg y). destruct (f y); [rewrite Hfg by done; cbn; lia|].
    destruct (g y); cbn; lia. }
  induction Hx as [x l|x y l _ IH]; cbn.
  - rewrite Hf, Hg. cbn. specialize (Hle l). lia.
  - specialize (IH Hf Hg). specialize (Hfg y). destruct (f y); [rewrite Hfg by done; cbn; lia|]. destruct (g y); cbn; lia.
Qed.

Lemma ahead_lt k r : r ∈ U -> after k r -> (ahead (Some r) < ahead k)%nat.
Proof.
  intros Hr Hk. apply (filter_length_lt _ _ r); [done| |by destruct k|].
  - cbn. destruct (rep_lt r r) eqn:E; [|done]. by destruct (irreflexivity rep_before r).
  - intros y Hy. destruct k as [k|]; [|done]. exact (transitivity (R := rep_before) Hk Hy).
Qed.

Lemma hull_pass_total fuel : forall k s, ordered s -> (forall r, r ∈ s -> r ∈ U) -> (ahead k < fuel)%nat ->
  exists s', hull_pass own fuel k s h = Ok s' h /\ forall r, r ∈ s' -> r ∈ U.
Proof.
  induction fuel as [|fuel IH]; intros k s Hs Hu Hf; [lia|]. cbn [hull_pass].
  pose proof (next_rep_spec k s Hs) as Hn. destruct (next_rep k s) as [r|]; [|by exists s].
  destruct Hn as (Hr & Hk & _). destruct (HU r (Hu r Hr)) as (l & El & Hl). rewrite (bind_Ok _ _ _ _ _ El).
  fold (insert_all s l). destruct (insert_all_spec l s Hs) as (O1 & _ & _ & F1 & _).
  apply IH; [done| |pose proof (ahead_lt k r (Hu r Hr) Hk); lia].
  intros x Hx. destruct (F1 x Hx); auto.
Qed.

Lemma ordered_length s : ordered s -> (forall r, r ∈ s -> r ∈ U) -> (length s <= length U)%nat.
Proof.
  intros Hs Hu. apply submseteq_length, NoDup_submseteq; [|done].
  induction Hs as [|r s Hs IH Hr]; constructor; [|apply IH; set_solver].
  intros Hin. rewrite Forall_forall in Hr. by destruct (irreflexivity rep_before r (Hr r Hin)).
Qed.

Lemma hull_loop_total fuel : forall s, ordered s -> (forall r, r ∈ s -> r ∈ U) ->
  (2 * length U + 2 <= fuel + length s)%nat -> (length U < fuel)%nat ->
  exists s', hull_loop own fuel s h = Ok s' h.
Proof.
  induction fuel as [|fuel IH]; intros s Hs Hu Hf HfU; [lia|]. cbn [hull_loop].
  assert (Ha : (ahead None <= length U)%nat) by (unfold ahead; apply List.filter_length_le).
  destruct (hull_pass_total (S fuel) None s Hs Hu) as (s1 & E1 & Hu1); [lia|].
  rewrite (bind_Ok _ _ _ _ _ E1). destruct (hull_pass_spec _ _ _ _ _ E1 Hs) as (_ & O1 & _ & L1 & _).
  destruct (Nat.ltb_spec (length s) (length s1)); [|by exists s1].
  pose proof (ordered_length s1 O1 Hu1). apply IH; [done|done|lia|lia].
Qed.
End ends.
End hull.

Lemma reps_of_spec rs : ordered (reps_of rs) /\ (forall x, x ∈ reps_of rs -> x ∈ rs) /\ forall x, x ∈ rs -> mentions (reps_of rs) x.
Proof.
  unfold reps_of. fold (insert_all [] rs). destruct (insert_all_spec rs [] ltac:(constructor)) as (H1 & _ & H3 & H4 & _).
  split; [done|]. split; [intros x Hx; destruct (H4 x Hx); set_solver|done].
Qed.
(** ** A heap of machines whose pointers are valid *)

Record machines_ok (h : smheap) : Prop := {
  ok_parent p m : h_machines h !! p = Some m -> m_parent m = 0 \/ is_Some (h_machines h !! m_parent m);
  ok_children p m c : h_machines h !! p = Some m -> c ∈ m_children m -> is_Some (h_machines h !! c);
  ok_states p m q : h_machines h !! p = Some m -> q ∈ m_states m -> is_Some (h_states h !! q)
}.

(** ** What an active element needs

    Stated on the heap, apart from the code that collects it. *)
Section needs.
Context (h : smheap) (occupied : Z -> Prop) (r x : state_rep_t).

(** The machine around the machine of [r]. *)
Definition around : Prop := r_smp r <> 0 /\ exists m outer,
  h_machines h !! r_smp r = Some m /\ m_parent m <> 0 /\ h_machines h !! m_parent m = Some outer /\
  x = mkRep true true (m_parent m) (m_id outer) (m_idx outer).

(** The number of the first state that is called Initial. *)
Inductive initial_number : list Z -> Z -> Prop :=
| number_none : initial_number [] (-1)
| number_here q qs s : h_states h !! q = Some s -> s_id s = "Initial" -> initial_number (q :: qs) (s_idx s)
| number_later q qs s i : h_states h !! q = Some s -> s_id s <> "Initial" -> initial_number qs i ->
    initial_number (q :: qs) i.

(** The initial state of the machine [r], unless the machine is occupied. *)
Definition entry_state : Prop := r_smp r <> 0 /\ r_is_sm r = true /\ ~ occupied (r_smp r) /\ exists m i,
  h_machines h !! r_smp r = Some m /\
  (exists q s, q ∈ m_states m /\ h_states h !! q = Some s /\ is_initial s = true) /\
  initial_number (m_states m) i /\ x = mkRep true false (r_smp r) "Initial" i.

(** A thread of the machine [r]. *)
Definition thread_in : Prop := r_is_sm r = true /\ exists m p c,
  h_machines h !! r_smp r = Some m /\ m_contains_threads m = true /\ p ∈ m_children m /\
  h_machines h !! p = Some c /\ m_is_thread c = true /\ x = mkRep true true p (m_id c) (m_idx c).

Definition needs : Prop := r_valid r = true /\ (around \/ entry_state \/ thread_in).
End needs.

(** The machines around the given elements. *)
Definition occupied (h : smheap) (rs : list state_rep_t) (p : Z) : Prop := exists r, r ∈ rs /\
  if r_is_sm r then exists m, h_machines h !! r_smp r = Some m /\ p = m_parent m else p = r_smp r.

Lemma initial_number_fun h qs i j : initial_number h qs i -> initial_number h qs j -> i = j.
Proof. induction 1; inversion 1; simplify_eq; auto. Qed.

Section heap.
Context (h : smheap) (Hok : machines_ok h).

Lemma sm_at_ok p m : h_machines h !! p = Some m -> sm_at p h = Ok m h.
Proof. intros E. unfold sm_at. by rewrite E. Qed.

Lemma findM_total {A} (f : A -> M smheap bool) l :
  (forall x, x ∈ l -> exists b, f x h = Ok b h) -> exists r, findM l f h = Ok r h /\ forall x, r = Some x -> x ∈ l.
Proof.
  induction l as [|x l IH]; intros Hf; cbn [findM]; [by exists None|].
  destruct (Hf x ltac:(set_solver)) as (b & E). rewrite (bind_Ok _ _ _ _ _ E).
  destruct b; [exists (Some x); split; [done|set_solver]|].
  destruct IH as (r & Er & Hr); [set_solver|]. exists r. set_solver.
Qed.

Lemma state_test_total p m (t : mstate -> bool) : h_machines h !! p = Some m ->
  exists r, findM (m_states m) (fun q => let! s := state_at q in ret (t s)) h = Ok r h /\ forall q, r = Some q -> q ∈ m_states m.
Proof.
  intros Hp. apply findM_total. intros q Hq. destruct (ok_states h Hok p m q Hp Hq) as [s Es].
  exists (t s). unfold bind, state_at. by rewrite Es.
Qed.

Lemma state_test_at (t : mstate -> bool) q s : h_states h !! q = Some s ->
  (let! s := state_at q in ret (t s)) h = Ok (t s) h.
Proof. intros Hs. unfold bind, state_at. by rewrite Hs. Qed.

(** The test is met by some state exactly when one is found. *)
Lemma state_test_found t qs r : (forall q, q ∈ qs -> is_Some (h_states h !! q)) ->
  findM qs (fun q => let! s := state_at q in ret (t s)) h = Ok r h ->
  is_Some r <-> exists q s, q ∈ qs /\ h_states h !! q = Some s /\ t s = true.
Proof.
  induction qs as [|q qs IH]; intros Hex; cbn [findM].
  { intros [= <-]. split; [by intros [? ?]|by intros (? & ? & ?%elem_of_nil & _)]. }
  destruct (Hex q ltac:(set_solver)) as [s Hs]. rewrite (bind_Ok _ _ _ _ _ (state_test_at t q s Hs)).
  destruct (t s) eqn:Et.
  - intros [= <-]. split; [|done]. intros _. exists q, s. set_solver.
  - intros E. rewrite IH; [|set_solver|done]. setoid_rewrite elem_of_cons. naive_solver congruence.
Qed.

Lemma initial_number_found qs r : (forall q, q ∈ qs -> is_Some (h_states h !! q)) ->
  findM qs (fun q => let! s := state_at q in ret (String.eqb (s_id s) "Initial")) h = Ok r h ->
  exists i, (match r with Some q => let! s := state_at q in ret (s_idx s) | None => ret (-1) end) h = Ok i h /\
    initial_number h qs i.
Proof.
  induction qs as [|q qs IH]; intros Hex; cbn [findM].
  { intros [= <-]. exists (-1). split; [done|constructor]. }
  destruct (Hex q ltac:(set_solver)) as [s Hs]. rewrite (bind_Ok _ _ _ _ _ (state_test_at _ q s Hs)).
  destruct (String.eqb_spec (s_id s) "Initial") as [Ei|Ei].
  - intros [= <-]. exists (s_idx s). split; [|by constructor]. unfold bind, state_at. by rewrite Hs.
  - intros E. destruct (IH ltac:(set_solver) E) as (i & Ei' & Hi). exists i. split; [done|]. by apply (number_later _ q qs s).
Qed.

Definition idx_of (p : Z) : Z := match initial_idx p h with Ok z _ => z | _ => 0 end.

Lemma initial_idx_ok p m : h_machines h !! p = Some m -> initial_idx p h = Ok (idx_of p) h.
Proof.
  intros Hp. unfold idx_of, initial_idx. rewrite (bind_Ok _ _ _ _ _ (sm_at_ok p m Hp)).
  destruct (state_test_total p m (fun s => String.eqb (s_id s) "Initial") Hp) as (r & E & Hr).
  rewrite (bind_Ok _ _ _ _ _ E). destruct r as [q|]; [|done].
  destruct (ok_states h Hok p m q Hp (Hr q eq_refl)) as [s Es]. unfold bind, state_at. by rewrite Es.
Qed.

Lemma idx_of_number p m : h_machines h !! p = Some m -> initial_number h (m_states m) (idx_of p).
Proof.
  intros Hp. pose proof (initial_idx_ok p m Hp) as E. unfold initial_idx in E.
  rewrite (bind_Ok _ _ _ _ _ (sm_at_ok p m Hp)) in E. apply bind_inv_Ok in E as (r & h1 & E1 & E).
  destruct (state_test_total p m (fun s => String.eqb (s_id s) "Initial") Hp) as (r' & E' & _). rewrite E' in E1.
  injection E1 as <- <-. destruct (initial_number_found (m_states m) r') as (i & Ei & Hi); [|done|].
  - intros q. by apply (ok_states h Hok p m).
  - rewrite Ei in E. by injection E as <-.
Qed.

(** What a machine and its initial state are as elements. *)
Definition sm_reps (x : Z * machine) : list state_rep_t :=
  [mkRep true true x.1 (m_id x.2) (m_idx x.2); mkRep true false x.1 "Initial" (idx_of x.1)].

Definition universe (rs : list state_rep_t) : list state_rep_t := rs ++ concat (map sm_reps (map_to_list (h_machines h))).

Lemma universe_sm rs p m x : h_machines h !! p = Some m -> x ∈ sm_reps (p, m) -> x ∈ universe rs.
Proof.
  intros Hp Hx. apply elem_of_app. right. apply list_elem_of_In, in_concat. exists (sm_reps (p, m)).
  split; [|by apply list_elem_of_In]. apply in_map, list_elem_of_In. by apply elem_of_map_to_list.
Qed.

Lemma universe_inv rs r : (forall r, r ∈ rs -> is_Some (h_machines h !! r_smp r)) -> r ∈ universe rs ->
  is_Some (h_machines h !! r_smp r).
Proof.
  intros Hrs [Hr|Hr]%elem_of_app; [auto|]. apply list_elem_of_In, in_concat in Hr as (l & Hl & Hr).
  apply in_map_iff in Hl as ([p m] & <- & Hp%list_elem_of_In%elem_of_map_to_list).
  apply list_elem_of_In in Hr. unfold sm_reps in Hr. set_solver.
Qed.

Lemma children_total cs : (forall c, c ∈ cs -> is_Some (h_machines h !! c)) ->
  exists ms, mapM (fun p => let! c := sm_at p in ret (p, c)) cs h = Ok ms h /\
    forall p c, (p, c) ∈ ms <-> p ∈ cs /\ h_machines h !! p = Some c.
Proof.
  induction cs as [|c cs IH]; intros Hc; [exists []; split; [done|set_solver]|].
  destruct (Hc c ltac:(set_solver)) as [m Hm]. destruct IH as (ms & E & Hms); [set_solver|].
  exists ((c, m) :: ms). split; [|intros p c'; rewrite !elem_of_cons, Hms; naive_solver]. cbn [mapM].
  rewrite (bind_Ok _ _ _ (c, m) h) by (by rewrite (bind_Ok _ _ _ _ _ (sm_at_ok c m Hm))). by rewrite (bind_Ok _ _ _ _ _ E).
Qed.

Section implied.
Context (own : list Z) (rs : list state_rep_t).
Hypothesis Hrs : forall r, r ∈ rs -> is_Some (h_machines h !! r_smp r).

(** [m] gives the elements [P], which are in the universe. *)
Definition gives (m : M smheap (list state_rep_t)) (P : state_rep_t -> Prop) : Prop :=
  exists l, m h = Ok l h /\ (forall x, x ∈ l -> x ∈ universe rs) /\ forall x, x ∈ l <-> P x.

Lemma gives_nil (P : state_rep_t -> Prop) : (forall x, ~ P x) -> gives (ret []) P.
Proof. intros HP. exists []. split; [done|]. split; [set_solver|]. intros x. rewrite elem_of_nil. by split; [|intros ?%HP]. Qed.

Lemma outer_gives r m : h_machines h !! r_smp r = Some m -> gives (implied_outer r) (around h r).
Proof.
  intros Hm. unfold implied_outer. destruct (Z.eqb_spec (r_smp r) 0); [apply gives_nil; by intros x [? _]|].
  unfold gives. rewrite (bind_Ok _ _ _ _ _ (sm_at_ok _ _ Hm)).
  destruct (Z.eqb_spec (m_parent m) 0).
  { apply gives_nil. intros x (_ & m' & pm & Hm' & ? & _). by simplify_eq. }
  destruct (ok_parent h Hok _ _ Hm) as [?|[pm Hp]]; [done|]. rewrite (bind_Ok _ _ _ _ _ (sm_at_ok _ _ Hp)).
  eexists. split; [done|]. split.
  - intros x ->%list_elem_of_singleton. apply (universe_sm rs _ _ _ Hp). unfold sm_reps. set_solver.
  - intros x. rewrite list_elem_of_singleton. unfold around. split; [intros ->; eauto 10|].
    intros (_ & m' & pm' & Hm' & _ & Hp' & ->). by simplify_eq.
Qed.

Lemma initial_gives r m : h_machines h !! r_smp r = Some m ->
  gives (implied_initial own r) (entry_state h (fun p => p ∈ own) r).
Proof.
  intros Hm. unfold implied_initial. destruct (negb (r_smp r =? 0) && r_is_sm r) eqn:E0.
  2:{ apply gives_nil. intros x (Hn & Hs & _). rewrite Hs, (proj2 (Z.eqb_neq _ _) Hn) in E0. done. }
  apply andb_true_iff in E0 as [E0 E0']. apply negb_true_iff, Z.eqb_neq in E0.
  destruct (state_test_total _ _ is_initial Hm) as (q & E & _).
  assert (Eh : has_initial_state (r_smp r) h = Ok (bool_decide (is_Some q)) h).
  { unfold has_initial_state. rewrite (bind_Ok _ _ _ _ _ (sm_at_ok _ _ Hm)). by rewrite (bind_Ok _ _ _ _ _ E). }
  unfold gives. rewrite (bind_Ok _ _ _ _ _ Eh).
  pose proof (state_test_found is_initial (m_states m) q (fun q => ok_states h Hok _ _ q Hm) E) as Hq.
  destruct (bool_decide (is_Some q) && _) eqn:Eb.
  - apply andb_true_iff in Eb as [Eq Eo]. apply bool_decide_eq_true in Eq. apply negb_true_iff, bool_decide_eq_false in Eo.
    rewrite (bind_Ok _ _ _ _ _ (initial_idx_ok _ _ Hm)). eexists. split; [done|]. split.
    + intros x ->%list_elem_of_singleton. apply (universe_sm rs _ _ _ Hm). unfold sm_reps. set_solver.
    + intros x. rewrite list_elem_of_singleton. unfold entry_state. split.
      * intros ->. split; [done|]. split; [done|]. split; [done|]. exists m, (idx_of (r_smp r)).
        split; [done|]. split; [by apply Hq|]. split; [by apply idx_of_number|done].
      * intros (_ & _ & _ & m' & i & Hm' & _ & Hi & ->). simplify_eq. f_equal.
        by eapply initial_number_fun; [|apply idx_of_number].
  - apply gives_nil. intros x (_ & _ & Ho & m' & i & Hm' & Hex & _). simplify_eq. apply Hq in Hex.
    rewrite (bool_decide_true _ Hex), (bool_decide_false _ Ho) in Eb. done.
Qed.

Lemma threads_gives r m : h_machines h !! r_smp r = Some m -> gives (implied_threads r) (thread_in h r).
Proof.
  intros Hm. unfold implied_threads. destruct (r_is_sm r) eqn:Es; [|apply gives_nil; intros x [? _]; congruence].
  unfold gives. rewrite (bind_Ok _ _ _ _ _ (sm_at_ok _ _ Hm)). destruct (m_contains_threads m) eqn:Et.
  2:{ apply gives_nil. intros x (_ & m' & ? & ? & ? & ? & _). congruence. }
  destruct (children_total (m_children m)) as (ms & E & Hms); [intros c; by apply (ok_children h Hok _ _ c Hm)|].
  rewrite (bind_Ok _ _ _ _ _ E). eexists. split; [done|].
  assert (Hin : forall x, x ∈ omap (fun x => if m_is_thread x.2 then Some (mkRep true true x.1 (m_id x.2) (m_idx x.2)) else None) ms
    <-> exists p c, (p, c) ∈ ms /\ m_is_thread c = true /\ x = mkRep true true p (m_id c) (m_idx c)).
  { intros x. rewrite list_elem_of_omap. split.
    - intros ([p c] & Hin & Hx). cbn in Hx. destruct (m_is_thread c) eqn:Ec; [|done]. injection Hx as <-. by exists p, c.
    - intros (p & c & Hin & Hc & ->). exists (p, c). cbn. by rewrite Hc. }
  split; intros x; rewrite Hin.
  - intros (p & c & [_ Hc]%Hms & _ & ->). apply (universe_sm rs _ _ _ Hc). unfold sm_reps. set_solver.
  - setoid_rewrite Hms. unfold thread_in. naive_solver.
Qed.

(** What the code collects is what the element needs. *)
Lemma implied_by_gives r : r ∈ universe rs -> gives (implied_by own r) (needs h (fun p => p ∈ own) r).
Proof.
  intros Hr. destruct (universe_inv rs r Hrs Hr) as [m Hm]. unfold implied_by, needs.
  destruct (r_valid r); cbn [negb]; [|apply gives_nil; by intros x [? _]].
  destruct (outer_gives r m Hm) as (l1 & E1 & H1 & S1), (initial_gives r m Hm) as (l2 & E2 & H2 & S2),
    (threads_gives r m Hm) as (l3 & E3 & H3 & S3).
  unfold gives. rewrite (bind_Ok _ _ _ _ _ E1), (bind_Ok _ _ _ _ _ E2), (bind_Ok _ _ _ _ _ E3).
  eexists. split; [done|]. split; [intros x [?|[?|?]%elem_of_app]%elem_of_app; auto|].
  intros x. rewrite !elem_of_app, S1, S2, S3. naive_solver.
Qed.

Lemma implied_by_total r : r ∈ universe rs -> exists l, implied_by own r h = Ok l h /\ forall x, x ∈ l -> x ∈ universe rs.
Proof. intros Hr. destruct (implied_by_gives r Hr) as (l & E & Hl & _). by exists l. Qed.

Lemma implies_needs r x : r ∈ universe rs -> implies own h r x <-> needs h (fun p => p ∈ own) r x.
Proof.
  intros Hr. destruct (implied_by_gives r Hr) as (l & E & _ & Hl). rewrite <- Hl. unfold implies. split.
  - intros (l' & E' & Hx). congruence.
  - intros Hx. by exists l.
Qed.
End implied.

Lemma containing_total s : (forall r, r ∈ s -> is_Some (h_machines h !! r_smp r)) ->
  exists l, mapM containing_sm s h = Ok l h /\ forall p, p ∈ l <-> occupied h s p.
Proof.
  induction s as [|r s IH]; intros Hs.
  { exists []. split; [done|]. intros p. rewrite elem_of_nil. split; [done|]. by intros (r & ?%elem_of_nil & _). }
  destruct (Hs r ltac:(set_solver)) as [m Hm].
  destruct IH as (l & El & Hl); [set_solver|]. cbn [mapM].
  assert (Er : exists p, containing_sm r h = Ok p h /\ forall p', p' = p <->
    if r_is_sm r then exists m, h_machines h !! r_smp r = Some m /\ p' = m_parent m else p' = r_smp r).
  { unfold containing_sm. destruct (r_is_sm r); cbn [negb]; [|by eexists].
    rewrite (bind_Ok _ _ _ _ _ (sm_at_ok _ _ Hm)). eexists. split; [done|]. intros p'. rewrite Hm. naive_solver. }
  destruct Er as (p & Er & Hp). rewrite (bind_Ok _ _ _ _ _ Er), (bind_Ok _ _ _ _ _ El). eexists. split; [done|].
  intros p'. rewrite elem_of_cons, Hl, Hp. unfold occupied. setoid_rewrite elem_of_cons. naive_solver.
Qed.
End heap.

Lemma needs_occupied h (o1 o2 : Z -> Prop) r x : (forall p, o1 p <-> o2 p) -> needs h o1 r x <-> needs h o2 r x.
Proof. intros Ho. unfold needs, entry_state. by rewrite Ho. Qed.

(** C32: the states that a Start directive makes active: in a heap of machines with valid
    pointers the walk ends, with enough fuel for every element to be met, and gives the
    least set that contains the given states and with each valid element what it needs: the
    machine around its machine, the initial state of a machine, unless the machine is the
    one around a given element, and those children of a machine with threads that are
    threads. What is needed is read off the heap: the number of an initial state is that of
    the first state called Initial, -1 if it is called initial. Two elements with the same
    machine and name count as one. *)
Theorem start_states_least h rs fuel :
  machines_ok h -> (forall r, r ∈ rs -> is_Some (h_machines h !! r_smp r)) ->
  (2 * length (universe h rs) + 2 <= fuel)%nat ->
  let needs := needs h (occupied h (reps_of rs)) in
  exists s, trans_hull_of_containment_rel fuel rs h = Ok s h /\
    (forall r, r ∈ rs -> mentions s r) /\
    (forall r x, r ∈ s -> needs r x -> mentions s x) /\
    (forall x, x ∈ s -> exists r, r ∈ rs /\ rtc needs r x).
Proof.
  intros Hok Hrs Hf N. destruct (reps_of_spec rs) as (Ho & Hsub & Hm).
  destruct (containing_total h Hok (reps_of rs)) as (own & Eo & Hown); [auto|].
  pose proof (implied_by_total h Hok own rs Hrs) as Htot.
  destruct (hull_loop_total own h (universe h rs) Htot fuel (reps_of rs))
    as (s & Es); [done|intros r Hr; apply elem_of_app; auto|lia|lia|].
  destruct (hull_loop_spec own h fuel _ _ _ Es Ho) as (_ & _ & Hk & Hc & Hl).
  assert (Hstep : forall r x, r ∈ universe h rs -> implies own h r x <-> N r x).
  { intros r x Hr. rewrite (implies_needs h Hok own rs Hrs r x Hr). by apply needs_occupied. }
  assert (Hfrom : forall x, implied_from own h (reps_of rs) x -> x ∈ universe h rs /\ exists r, r ∈ rs /\ rtc N r x).
  { induction 1 as [x Hx|r x _ [Hu (r0 & Hr0 & Hr)] Hx].
    - split; [apply elem_of_app; auto|]. exists x. by split; [apply Hsub|].
    - split; [destruct (Htot r Hu) as (l & El & Hin), Hx as (l' & El' & Hx'); rewrite El in El'; injection El' as <-; auto|].
      exists r0. split; [done|]. eapply rtc_r; [done|]. by apply Hstep. }
  exists s. split; [unfold trans_hull_of_containment_rel; by rewrite (bind_Ok _ _ _ _ _ Eo)|].
  split; [|split].
  - intros r Hr. destruct (Hm r Hr) as (y & Hy & E). exists y. auto.
  - intros r x Hr Hx. apply (Hc r Hr), Hstep, Hx. by apply Hfrom, Hl.
  - intros x Hx. by apply Hfrom, Hl.
Qed.

(** ** The queue comes first *)

Section queue.
Context `{SH : ScriptHost} (ev_size info_size n m : Z) (hull_fuel : nat).
Hypothesis (Hev : 0 < ev_size).
Hypothesis (Hinfo : 0 < info_size).
Hypothesis (Hn : 0 < n).
Hypothesis (Hm : 0 < m).

Abbreviation zlen l := (Z.of_nat (length l)).
Abbreviation holds c evs := (queue_rep ev_size info_size n m (main_event_queue (world c)) evs).

Definition with_queue (q : eventqueue queued) (c : core) : core :=
  with_world (with_main_event_queue q (world c)) c.

Lemma on_queue_Ok {A} (f : M (eventqueue queued) A) (c : core) a q' :
  f (main_event_queue (world c)) = Ok a q' -> on_queue f c = Ok a (with_queue q' c).
Proof. intros E. unfold on_queue, on_session, zoom. by rewrite E. Qed.

Lemma on_queue_read {A} (f : M (eventqueue queued) A) (c : core) a :
  f (main_event_queue (world c)) = Ok a (main_event_queue (world c)) -> on_queue f c = Ok a c.
Proof.
  intros E. rewrite (on_queue_Ok f c a _ E). f_equal. destruct c as [? ? ? ? ? ? ? ? ? ? ? ? ? ? ? ? w].
  by destruct w.
Qed.

(** An event that is not for the core itself. *)
Definition ordinary (q : queued) : Prop :=
  error_ (q_event q) = None /\ q_frmctxt q = 0 /\ q_exec q = 0 /\
  str_id_valid_ (q_event q) && String.eqb (id_ (q_event q)) "" = false.

Definition as_handed (native : bool) (q : queued) : event_t := if native then map_payload (q_event q) else q_event q.

Definition handed_out (native : bool) (q : queued) : event_rep_t :=
  let e := as_handed native q in
  mkEventRep (id_ e) (iid_ e) (str_id_valid_ e) (protobufish_msg e) (payload_ e) (payload_native_ e) (q_glob_func q) None.

Definition after_event (q : queued) (q' : eventqueue queued) (c : core) : core :=
  let c := with_queue q' c in
  if q_already_sent q then c
  else with_world (with_out_event_queues
         (map (fun oq => oq ++ [sent_on (as_handed (map_ceps_payload_to_native (world c)) q) q]) (out_event_queues (world c)))
         (world c)) c.

(** The front of the queue, taken. *)
Lemma fetch_takes_front fuel c b c1 q evs :
  absorb ev_size info_size c = Ok b c1 -> holds c1 (q :: evs) ->
  exists q', queue_rep ev_size info_size n m q' evs /\
    Fetch.fetch_event ev_size info_size hull_fuel (S fuel) c =
    bind (take_event q) (fun r =>
      match r with
      | Some ev => ret (fetched_event ev)
      | None =>
        let! node := session_of running_as_node in
        if timed_events_pending (world c) || node
        then Fetch.fetch_event ev_size info_size hull_fuel fuel else ret fetched_nothing
      end) (with_queue q' c1).
Proof.
  intros Ha Hq. destruct (eventqueue_refines_fifo ev_size info_size n m Hev Hinfo Hn Hm _ _ Hq) as (_ & Hf & He & _).
  destruct (Hf q evs eq_refl) as (Efront & q' & Epop & Hq'). exists q'. split; [done|].
  cbn [Fetch.fetch_event]. unfold bind at 1, session_of at 1, gets at 1. cbv beta iota zeta.
  rewrite (bind_Ok _ _ _ _ _ Ha). rewrite (bind_Ok _ _ _ _ _ (on_queue_read _ _ _ He)).
  rewrite bool_decide_eq_false_2 by done. cbn [negb].
  rewrite (bind_Ok _ _ _ _ _ (on_queue_read _ _ _ Efront)). by rewrite (bind_Ok _ _ _ _ _ (on_queue_Ok _ _ _ _ Epop)).
Qed.

Lemma take_ordinary q (c : core) : ordinary q ->
  take_event q c = Ok (Some (handed_out (map_ceps_payload_to_native (world c)) q)) 
    (if q_already_sent q then c
     else with_world (with_out_event_queues
            (map (fun oq => oq ++ [sent_on (as_handed (map_ceps_payload_to_native (world c)) q) q]) (out_event_queues (world c)))
            (world c)) c).
Proof.
  intros (He & Hf & Hx & Hid). unfold take_event. rewrite He, Hf, Hx. cbn [Z.eqb negb].
  erewrite (bind_Ok (ret tt)) by reflexivity. rewrite Hid.
  unfold bind at 1, session_of, gets. cbv beta iota zeta. unfold handed_out. fold (as_handed (map_ceps_payload_to_native (world c)) q).
  by destruct (q_already_sent q).
Qed.

Lemma fetch_ordinary fuel c b c1 q evs :
  absorb ev_size info_size c = Ok b c1 -> holds c1 (q :: evs) -> ordinary q ->
  exists q', queue_rep ev_size info_size n m q' evs /\
    Fetch.fetch_event ev_size info_size hull_fuel (S fuel) c =
    Ok (fetched_event (handed_out (map_ceps_payload_to_native (world c1)) q)) (after_event q q' c1).
Proof.
  intros Ha Hq Ho. destruct (fetch_takes_front fuel c b c1 q evs Ha Hq) as (q' & Hq' & ->).
  exists q'. split; [done|]. by rewrite (bind_Ok _ _ _ _ _ (take_ordinary q (with_queue q' c1) Ho)).
Qed.

(** ** With the loop *)

(** The core around the loop, with fetch_event as modelled. *)
Definition with_fetch (H0 : Host session) (fuel : nat) : Host session := {|
  native := @native _ H0; native_guard := @native_guard _ H0;
  execute_action_seq := @execute_action_seq _ H0; execute_queued_action := @execute_queued_action _ H0;
  eval_guard := @eval_guard _ H0; ExecLoop.fetch_event := Fetch.fetch_event ev_size info_size hull_fuel fuel;
  send_frame := @send_frame _ H0; cover_handler := @cover_handler _ H0;
  global_event_call_back_fn := @global_event_call_back_fn _ H0;
  high_resolution_clock_now := @high_resolution_clock_now _ H0
|}.

Context `{HT : Target} (H0 : Host session) (vm_rounds : nat).

Definition no_current_event (c : core) : core := with_current_event (with_id_ "" (current_event c)) c.

(** The state when an event is about to be processed. *)
Definition at_event (q : queued) (q' : eventqueue queued) (c : core) : core :=
  with_current_event (event_of_rep (handed_out (map_ceps_payload_to_native (world c)) q)) (after_event q q' c).

Lemma absorb_ctx c b c1 : absorb ev_size info_size c = Ok b c1 -> ctx c1 = ctx c /\ event_signatures c1 = event_signatures c.
Proof.
  intros E. pose (I := fun x : core => ctx x = ctx c /\ event_signatures x = event_signatures c).
  assert (Hin : forall f, keeps I (in_session f) (fun _ => True)) by (intros f x Hx; by split).
  assert (Hpush : forall q, keeps I (push_queue ev_size info_size q) (fun _ => True)).
  { intros q x Hx. unfold push_queue, on_queue, on_session, zoom. by destruct (eq_push _ _ _ _). }
  assert (Ha : keeps I (absorb ev_size info_size) (fun _ => True)).
  { unfold absorb. apply (keeps_bind I _ _ (fun _ => True)); [by apply keeps_gets|]. intros [|a l] _; [by apply keeps_ret|].
    apply (keeps_bind I _ _ (fun _ => True)); [apply Hin|]. intros _ _.
    apply (keeps_bind I _ _ (fun _ => True)); [apply Hin|]. intros _ _.
    apply (keeps_bind I _ _ (fun _ => True)); [|intros _ _; by apply keeps_ret].
    induction (arriving a) as [|q qs IH]; cbn [forM]; [by apply keeps_ret|].
    apply (keeps_bind I _ _ (fun _ => True)); [apply Hpush|]. intros _ _. apply IH. }
  specialize (Ha c (conj eq_refl eq_refl)). rewrite E in Ha. apply Ha.
Qed.

Lemma handed_out_id nat_ q : sid_ (handed_out nat_ q) = id_ (q_event q) /\ sid_valid_ (handed_out nat_ q) = str_id_valid_ (q_event q).
Proof. unfold handed_out, as_handed, map_payload. destruct nat_; [|done]. cbv zeta. by destruct (payload_ (q_event q)) eqn:E. Qed.

(** C22: the loop and the queue: when the queue holds events, those that came in the meantime
    included, and the oldest one is an ordinary event with a name that has a number and no
    signature, the loop takes this one, leaves the others in their order and the script where
    it is, and hands the event on with its number; an EXIT event also asks for the end. An
    event is ordinary when it carries no error, no context of a frame and no queued function,
    and its name is not empty and not one of the special names @@queued_action and
    @@set_state. *)
Theorem oldest_event_is_taken fuel eps (c : core) b c1 q evs k :
  absorb ev_size info_size (no_current_event c) = Ok b c1 -> holds c1 (q :: evs) ->
  ordinary q -> str_id_valid_ (q_event q) = true ->
  id_ (q_event q) ∉ ["@@queued_action"; "@@set_state"] ->
  ev_to_id (ctx c) !! id_ (q_event q) = Some k -> event_signatures c !! k = None ->
  exists q', queue_rep ev_size info_size n m q' evs /\
    check_for_events (H0 := with_fetch H0 (S fuel)) vm_rounds eps c =
    Ok (mkChecked Proceed eps true k (bool_decide (id_ (q_event q) = "EXIT")) None) (at_event q q' c1).
Proof.
  intros Ha Hq Ho Hv Hid Hk Hs. destruct (fetch_ordinary fuel _ b c1 q evs Ha Hq Ho) as (q' & Hq' & Ef).
  exists q'. split; [done|]. unfold check_for_events. erewrite bind_Ok by reflexivity.
  rewrite (bind_Ok _ _ _ _ _ Ef). cbn [fe_result fe_ev fetched_event negb].
  destruct (handed_out_id (map_ceps_payload_to_native (world c1)) q) as [E1 E2]. rewrite E1.
  rewrite !elem_of_cons, elem_of_nil in Hid. rewrite !bool_decide_eq_false_2 by naive_solver.
  destruct (absorb_ctx _ _ _ Ha) as [Ectx Esig]. cbn [no_current_event ctx event_signatures with_current_event] in Ectx, Esig.
  assert (Eafter : ctx (at_event q q' c1) = ctx c /\ event_signatures (at_event q q' c1) = event_signatures c).
  { rewrite <- Ectx, <- Esig. unfold at_event, after_event. cbv zeta. by destruct (q_already_sent q). }
  destruct Eafter as [Ec Es]. erewrite bind_Ok by reflexivity. fold (at_event q q' c1).
  assert (En : event_number (at_event q q' c1) = Ok k (at_event q q' c1)).
  { unfold event_number, bind at 1, gets. cbv beta iota. change (current_event (at_event q q' c1)) with
      (event_of_rep (handed_out (map_ceps_payload_to_native (world c1)) q)).
    cbn [event_of_rep str_id_valid_ id_]. rewrite E1, E2, Hv. cbn [negb].
    unfold bind, gets. by rewrite Ec, Hk. }
  rewrite (bind_Ok _ _ _ _ _ En). case_bool_decide; [done|]. destruct (k <=? 0); [done|].
  unfold bind, gets. by rewrite Es, Hs.
Qed.

(** An event of a frame ends a run that is not kept alive by its role as a node or by
    a timer: fetch_event goes on with [continue], which leads to the test at the end of
    the loop; it reports nothing, although events are queued and the script has not been
    looked at, and the loop stops. *)
Theorem frame_event_ends_run fuel eps (c : core) b c1 q evs :
  timed_events_pending (world c) = false -> running_as_node (world c1) = false ->
  absorb ev_size info_size (no_current_event c) = Ok b c1 -> holds c1 (q :: evs) ->
  error_ (q_event q) = None -> q_frmctxt q <> 0 ->
  (forall x, update_sysstates (q_frmctxt q) x = Ok tt x) -> (forall x, frame_handler (q_frmctxt q) x = Ok None x) ->
  exists q', queue_rep ev_size info_size n m q' evs /\
    check_for_events (H0 := with_fetch H0 (S fuel)) vm_rounds eps c =
    Ok (mkChecked Break eps false 0 false None) (with_queue q' c1).
Proof.
  intros Ht Hnode Ha Hq He Hf Hu Hh. destruct (fetch_takes_front fuel _ b c1 q evs Ha Hq) as (q' & Hq' & Ef).
  exists q'. split; [done|]. unfold check_for_events. erewrite bind_Ok by reflexivity.
  assert (E : Fetch.fetch_event ev_size info_size hull_fuel (S fuel) (no_current_event c) = Ok fetched_nothing (with_queue q' c1)).
  { rewrite Ef. unfold take_event. rewrite He, (proj2 (Z.eqb_neq _ _) Hf). cbn [negb]. rewrite !bind_assoc, (bind_Ok _ _ _ _ _ (Hu _)).
    rewrite bind_assoc, (bind_Ok _ _ _ _ _ (Hh _)). erewrite bind_Ok by reflexivity.
    unfold bind, session_of, gets. cbn [no_current_event world with_current_event]. rewrite Ht.
    change (running_as_node (world (with_queue q' c1))) with (running_as_node (world c1)). by rewrite Hnode. }
  rewrite (bind_Ok _ _ _ _ _ E). done.
Qed.

(** ** Arguments of events *)

(** A number or a text. *)
Definition plain_value (v : Variant) : Prop :=
  match v with
  | mkVariant What_Int 0 _ "" | mkVariant What_Double _ 0 "" | mkVariant What_String 0 0 _ => True
  | _ => False
  end.

Lemma plain_cases v : plain_value v ->
  exists x, variant_node v = Some x /\
    match x with
    | Int_literal z => v = Variant_int z | Float_literal z => v = Variant_double z
    | String_literal z => v = Variant_string z | _ => False
    end.
Proof.
  destruct v as [[| | |] d i s]; cbn.
  - destruct d, s; try done. intros _. by eexists.
  - destruct i, s; try done. intros _. by eexists.
  - destruct d, i; try done. intros _. by eexists.
  - done.
Qed.

Lemma queue_event_sends name vl (c : core) : holds c [] -> arrivals (world c) = [] ->
  exists q c1, queue_event ev_size info_size name vl c = Ok tt c1 /\ holds c1 [q] /\
    q_event q = mkEvent name 0 true None (omap variant_node vl) [] None /\
    q_frmctxt q = 0 /\ q_exec q = 0 /\ arrivals (world c1) = [] /\
    ctx c1 = ctx c /\ event_signatures c1 = event_signatures c /\ enforce_native c1 = enforce_native c.
Proof.
  intros Hq Ha. set (q := mkQueued (mkEvent name 0 true None (omap variant_node vl) [] None) (bool_decide (name ∈ unique_events (world c))) true 0 0 0).
  destruct (push_refines ev_size info_size n m Hev Hinfo Hn Hm _ [] q Hq) as (q' & Ep & Hq').
  { unfold fifo_push. destruct (is_unique_event q); cbn; lia. }
  { unfold fifo_push, unique_count. replace (if is_unique_event q then _ else _) with [q] by (by destruct (is_unique_event q)).
    rewrite filter_cons. case_decide; cbn; lia. }
  assert (Hf : fifo_push q [] = [q]) by (unfold fifo_push; by destruct (is_unique_event q)). rewrite Hf in Hq'.
  eexists q, _. split; [|split; [|split; [|split; [|split; [|split; [|split; [|split]]]]]]].
  - unfold queue_event, bind at 1, session_of, gets. cbv beta iota. unfold enqueue_event. cbn [q_event q_unique q_frmctxt q_exec q_glob_func]. fold q.
    rewrite (bind_Ok _ _ _ _ _ (on_queue_Ok _ _ _ _ Ep)). unfold push_out_queues, in_session, modify. reflexivity.
  - exact Hq'.
  - reflexivity.
  - reflexivity.
  - reflexivity.
  - exact Ha.
  - reflexivity.
  - reflexivity.
  - reflexivity.
Qed.

Lemma omap_cons_Some {A B} (f : A -> option B) x l y : f x = Some y -> omap f (x :: l) = y :: omap f l.
Proof. cbn. by intros ->. Qed.

Lemma argv_plain (c : core) (vl : list Variant) i v :
  enforce_native c = false -> Forall plain_value vl ->
  payload_ (current_event c) = omap variant_node vl /\ payload_native_ (current_event c) = [] \/
  payload_ (current_event c) = [] /\ payload_native_ (current_event c) = vl ->
  argc c = Ok (zlen vl) c /\ (vl !! i = Some v -> argv (S i) c = Ok v c).
Proof.
  intros Hnat Hvl Hp.
  assert (Hl : length (omap variant_node vl) = length vl /\
    forall i v, vl !! i = Some v -> exists x, omap variant_node vl !! i = Some x /\ variant_node v = Some x).
  { clear Hp. induction Hvl as [|w vl Hw Hvl [IH1 IH2]]; [split; [done|intros []; done]|].
    destruct (plain_cases w Hw) as (x & Ex & _). rewrite (omap_cons_Some _ _ _ _ Ex).
    split; [cbn; by rewrite IH1|]. intros [|j] u; cbn; [|apply IH2]. intros [= <-]. by exists x. }
  destruct Hl as [Hl Hx]. split.
  - unfold argc, by_number, bind, gets, ret. rewrite Hnat. cbn [andb]. f_equal.
    destruct Hp as [[-> ->]|[-> ->]]; rewrite ?Hl; cbn [length]; lia.
  - intros Hv. unfold argv, bind at 1, gets. cbv beta iota. apply lookup_lt_Some in Hv as Hlt.
    rewrite (proj2 (Nat.leb_gt _ _)) by (destruct Hp as [[-> ->]|[-> ->]]; rewrite ?Hl; cbn [length]; lia).
    destruct Hp as [[Hp ->]|[_ ->]].
    + destruct (Hx i v Hv) as (x & Ex & Enode). rewrite Hp, Ex.
      rewrite Forall_lookup in Hvl. destruct (plain_cases v (Hvl i v Hv)) as (x' & Ex' & Hcase).
      rewrite Enode in Ex'. injection Ex' as <-. destruct x; try done; by rewrite Hcase.
    + destruct vl as [|w vl]; [done|]. by rewrite Hv.
Qed.

Lemma map_payload_values e vl : payload_ e = omap variant_node vl -> payload_native_ e = [] -> Forall plain_value vl ->
  payload_ (map_payload e) = [] /\ payload_native_ (map_payload e) = vl.
Proof.
  intros Hp Hnat Hvl. unfold map_payload. rewrite Hp. destruct Hvl as [|w vl Hw Hvl]; [done|].
  destruct (plain_cases w Hw) as (x & Ex & Hc). rewrite (omap_cons_Some _ _ _ _ Ex). split; [done|].
  cbn [payload_native_]. assert (Hv : forall l, Forall plain_value l ->
    omap (fun v => match v with Int_literal z => Some (Variant_int z) | Float_literal z => Some (Variant_double z)
                   | String_literal z => Some (Variant_string z) | _ => None end) (omap variant_node l) = l).
  { induction 1 as [|u l Hu _ IH]; [done|]. destruct (plain_cases u Hu) as (y & Ey & Hy).
    rewrite (omap_cons_Some _ _ _ _ Ey). cbn. destruct y; try done; by rewrite IH, Hy. }
  rewrite <- (omap_cons_Some variant_node w vl x Ex). apply Hv. by constructor.
Qed.

(** C23: the arguments of an event arrive: an event raised with numbers and texts is taken
    by the loop, and while it is the current event argc and argv give its name and these
    values, whether the payload is handed on as syntax trees or as native values. *)
Theorem event_arguments_arrive fuel eps name vl (c : core) k :
  holds c [] -> arrivals (world c) = [] -> enforce_native c = false -> Forall plain_value vl ->
  name ∉ [""; "@@queued_action"; "@@set_state"] ->
  ev_to_id (ctx c) !! name = Some k -> event_signatures c !! k = None ->
  exists c1 c2, queue_event ev_size info_size name vl c = Ok tt c1 /\
    check_for_events (H0 := with_fetch H0 (S fuel)) vm_rounds eps c1 =
    Ok (mkChecked Proceed eps true k (bool_decide (name = "EXIT")) None) c2 /\
    argc c2 = Ok (zlen vl) c2 /\ argv 0 c2 = Ok (Variant_string name) c2 /\
    forall i v, vl !! i = Some v -> argv (S i) c2 = Ok v c2.
Proof.
  intros Hq Ha Hnat Hvl Hname Hk Hs. rewrite !not_elem_of_cons in Hname. destruct Hname as (Hne & Hq1 & Hq2 & _).
  destruct (queue_event_sends name vl c Hq Ha) as (q & c1 & E1 & Hq' & Eq & Hf & Hx & Ha1 & Ec & Es & En).
  exists c1. set (c1' := no_current_event c1).
  assert (Hab : absorb ev_size info_size c1' = Ok false c1').
  { unfold absorb, bind, session_of, gets. change (world c1') with (world c1). by rewrite Ha1. }
  assert (Ho : ordinary q).
  { repeat split; try done; rewrite Eq; [done|]. cbn. by apply String.eqb_neq. }
  destruct (oldest_event_is_taken fuel eps c1 false c1' q [] k Hab Hq' Ho) as (q' & _ & E2); rewrite ?Eq, ?Ec, ?Es; [done|set_solver|done..|].
  rewrite Eq in E2. cbn [id_] in E2. eexists. split; [done|]. split; [exact E2|].
  set (c2 := at_event q q' c1').
  assert (Hn2 : enforce_native c2 = false).
  { rewrite <- Hnat, <- En. unfold c2, at_event, after_event. cbv zeta. by destruct (q_already_sent q). }
  assert (Hcur : current_event c2 = event_of_rep (handed_out (map_ceps_payload_to_native (world c1')) q)) by done.
  assert (Hpay : payload_ (current_event c2) = omap variant_node vl /\ payload_native_ (current_event c2) = [] \/
                 payload_ (current_event c2) = [] /\ payload_native_ (current_event c2) = vl).
  { rewrite Hcur. unfold handed_out, as_handed. cbn [event_of_rep payload_ payload_native_]. destruct (map_ceps_payload_to_native _).
    - right. cbv zeta. apply map_payload_values; [by rewrite Eq..|done].
    - left. by rewrite Eq. }
  split; [by apply (argv_plain c2 vl 0 Variant_default)|]. split; [|intros i v; by apply (argv_plain c2 vl i v)].
  unfold argv, by_number, bind, gets, ret. rewrite Hn2. cbn [andb]. rewrite Hcur. cbn [event_of_rep id_].
  by rewrite (proj1 (handed_out_id _ q)), Eq.
Qed.
End queue.

(** ** Assertions *)

Section assertions.
Context `{SH : ScriptHost} (hull_fuel : nat).

(** The assertions on the current states compare with the states that fetch_event is
    given, and the loop gives it none: interpreted, ASSERT_CURRENT_STATES_CONTAINS ends
    the program for every state and ASSERT_CURRENT_STATES_CONTAINS_NOT is passed over,
    whatever states are active. *)
Theorem current_states_assertions_see_nothing e (r : state_rep_t) (ns : list node) (c : core) :
  enforce_native c = false -> names_state false e = true ->
  on_heap (resolve_state_or_transition_given_a_qualified_id e 0 false) c = Ok (r, None) c -> r_valid r = true ->
  run_script hull_fuel [] (Structdef "ASSERT_CURRENT_STATES_CONTAINS" [e] :: ns) c
  = Throw (Fatal (-1) (err_msg_assert "ASSERT_CURRENT_STATES_CONTAINS")) c /\
  run_script hull_fuel [] (Structdef "ASSERT_CURRENT_STATES_CONTAINS_NOT" [e] :: ns) c
  = run_script hull_fuel [] ns (with_world (with_pos (S (pos (world c))) (world c)) c).
Proof.
  intros Hn He Hr Hv.
  assert (Es : forall wrong what, handle_current_states_assertion what wrong [] [e] c =
    if wrong false then Throw (Fatal (-1) (err_msg_assert what)) c else Ok tt c).
  { intros wrong what. cbn [handle_current_states_assertion]. rewrite He.
    assert (E : resolve_state "" e c = Ok (Some r) c) by (unfold resolve_state; rewrite (bind_Ok _ _ _ _ _ Hr); cbn [fst]; by rewrite Hv).
    rewrite (bind_Ok _ _ _ _ _ E). unfold bind at 1, gets. cbv beta iota. rewrite Hn.
    erewrite bind_Ok by reflexivity. cbn [existsb]. by destruct (wrong false). }
  split.
  - cbn [run_script is_assignment_op]. cbv zeta. change (String.eqb "ASSERT_CURRENT_STATES_CONTAINS" "Start") with false. cbv iota.
    cbn [assertion String.eqb Ascii.eqb Bool.eqb]. unfold bind at 1. by rewrite Es.
  - cbn [run_script is_assignment_op]. change (String.eqb "ASSERT_CURRENT_STATES_CONTAINS_NOT" "Start") with false. cbv iota.
    cbn [assertion String.eqb Ascii.eqb Bool.eqb]. erewrite bind_Ok by (by rewrite Es). done.
Qed.
End assertions.

(** ** Types *)

Lemma define_var_ret `{SH : ScriptHost} id p (c : core) : exists c1, define_var id (ret p) c = Ok tt c1 /\
  nodes c1 = nodes c /\ world c1 = world c /\ (forall s q, global_states c !! s = Some q -> global_states c1 !! s = Some q) /\
  (global_states c !! id = None -> global_states c1 !! id = Some p) /\ (forall s, s <> id -> global_states c1 !! s = global_states c !! s).
Proof.
  unfold define_var, bind at 1, gets. cbv beta iota. destruct (global_states c !! id) as [q|] eqn:E.
  - exists c. by repeat split; auto.
  - eexists. split; [reflexivity|]. split; [done|]. split; [done|]. cbn [global_states with_global_states]. split.
    + intros s q Hs. by rewrite lookup_insert_ne by (intros ->; congruence).
    + split; [intros _; apply lookup_insert_eq|]. intros s Hs. by apply lookup_insert_ne.
Qed.

Lemma assign_type `{SH : ScriptHost} root T tn f p a (c : core) :
  type_definitions (world c) !! T = Some (T_struct tn [T_struct f [T_value p]]) ->
  eval_state_assign root (Identifier T) a c = define_var (a +:+ "." +:+ f) (ret p) c.
Proof.
  intros HT. unfold eval_state_assign, bind at 1, session_of, gets. cbv beta iota. rewrite HT.
  cbn [define_a_struct length Nat.eqb existsb is_scalar negb orb].
  unfold bind. by destruct (define_var _ _ c) as [[]| | |].
Qed.

(** States of one type share their values: the states a.f and b.f of a type whose
    member f is a number are defined by the object of the type definition itself; when the
    internal event @@set_state sets the one, the other has the new value, too. *)
Theorem states_of_a_type_share `{SH : ScriptHost} (root : node) (T tn f : string) (p v x : Z) (a b : string) (c : core) :
  type_definitions (world c) !! T = Some (T_struct tn [T_struct f [T_value p]]) ->
  nodes c !! p = Some (Float_literal v) -> p <> 0 ->
  global_states c !! (a +:+ "." +:+ f) = None -> global_states c !! (b +:+ "." +:+ f) = None ->
  exists c2,
    (do! eval_state_assign root (Identifier T) a in
     do! eval_state_assign root (Identifier T) b in
     set_global_state (a +:+ "." +:+ f) x) c = Ok tt c2 /\
    global_states c2 !! (b +:+ "." +:+ f) = Some p /\ nodes c2 !! p = Some (Float_literal x).
Proof.
  intros HT Hp Hp0 Ha Hb. set (af := a +:+ "." +:+ f) in *. set (bf := b +:+ "." +:+ f) in *.
  destruct (define_var_ret af p c) as (c1 & E1 & N1 & W1 & K1 & D1 & O1). specialize (D1 Ha).
  destruct (define_var_ret bf p c1) as (c2 & E2 & N2 & W2 & K2 & D2 & _).
  assert (Eb : global_states c2 !! bf = Some p).
  { destruct (decide (bf = af)) as [E|E]; [apply K2; by rewrite E|]. apply D2. by rewrite O1. }
  assert (HT1 : type_definitions (world c1) !! T = Some (T_struct tn [T_struct f [T_value p]])) by (by rewrite W1).
  rewrite (bind_Ok _ _ c tt c1) by (by rewrite (assign_type root T tn f p a c HT)).
  rewrite (bind_Ok _ _ c1 tt c2) by (by rewrite (assign_type root T tn f p b c1 HT1)).
  assert (Ea2 : global_states c2 !! af = Some p) by (by apply K2).
  assert (Ep2 : nodes c2 !! p = Some (Float_literal v)) by (by rewrite N2, N1).
  unfold set_global_state, bind at 1, gets. cbv beta iota. rewrite Ea2. cbn [default].
  erewrite bind_Ok by reflexivity. erewrite bind_Ok by reflexivity.
  unfold bind at 1. cbn [nodes with_global_states with_global_systemstates_prev].
  unfold default, id. rewrite (proj2 (Z.eqb_neq _ _) Hp0), Ep2.
  destruct (F64.f64_eq v x); (erewrite bind_Ok by reflexivity); (eexists; split; [reflexivity|]);
    cbn [nodes global_states with_nodes with_global_states with_global_systemstates_prev];
    (split; [|apply lookup_insert_eq]); (destruct (decide (bf = af)) as [E|E]; [rewrite E; apply lookup_insert_eq|]);
    by rewrite lookup_insert_ne by auto.
Qed.
