(* ===== verification/Segments.v ===== *)
(** * Segments: a stream of bytes that arrives in pieces

    Reading messages with a header from a connection whose bytes come in segments of any
    length. *)

From S2P Require Import Prelude MachineInt Ast Websocket Nmp.

(** The segments after [n] bytes were taken. *)
Fixpoint drop_bytes (n : nat) (segs : list (list Z)) : list (list Z) :=
  match segs with
  | [] => []
  | seg :: rest => if (n <? length seg)%nat then drop n seg :: rest else drop_bytes (n - length seg) rest
  end.

Definition proper (segs : list (list Z)) : Prop := Forall (fun seg => seg <> []) segs.

(** The segments of messages with the lengths [ns], every header within one segment. *)
Fixpoint headers_whole (ns : list nat) (segs : list (list Z)) : Prop :=
  match ns with
  | [] => segs = []
  | n :: ns' => (exists seg rest, segs = seg :: rest /\ (8 <= length seg)%nat) /\ headers_whole ns' (drop_bytes n segs)
  end.

Lemma drop_bytes_concat segs : forall n, List.concat (drop_bytes n segs) = drop n (List.concat segs).
Proof.
  induction segs as [|seg segs IH]; intros n; cbn [drop_bytes List.concat]; [by rewrite drop_nil|].
  destruct (n <? length seg)%nat eqn:E.
  - apply Nat.ltb_lt in E. cbn [List.concat]. by rewrite drop_app_le by lia.
  - apply Nat.ltb_ge in E. by rewrite IH, drop_app_ge.
Qed.

Lemma drop_bytes_proper segs : forall n, proper segs -> proper (drop_bytes n segs).
Proof.
  induction segs as [|seg segs IH]; intros n Hp; cbn [drop_bytes]; [done|]. inversion_clear Hp as [|? ? H1 H2].
  destruct (n <? length seg)%nat eqn:E; [|by apply IH]. apply Nat.ltb_lt in E.
  constructor; [|done]. intros Hd. apply (f_equal length) in Hd. rewrite length_drop in Hd. cbn in Hd. lia.
Qed.

Lemma drop_bytes_0 segs : proper segs -> drop_bytes 0 segs = segs.
Proof.
  destruct segs as [|seg segs]; [done|]. intros Hp. inversion_clear Hp as [|? ? H1 H2]. cbn [drop_bytes].
  destruct seg; [done|]. done.
Qed.

Lemma drop_bytes_add segs : forall a b, proper segs -> drop_bytes (a + b) segs = drop_bytes b (drop_bytes a segs).
Proof.
  induction segs as [|seg segs IH]; intros a b Hp; cbn [drop_bytes]; [done|]. inversion_clear Hp as [|? ? H1 H2].
  destruct (a <? length seg)%nat eqn:E; cbn [drop_bytes].
  - apply Nat.ltb_lt in E. rewrite length_drop. destruct (a + b <? length seg)%nat eqn:E2.
    + apply Nat.ltb_lt in E2. rewrite (proj2 (Nat.ltb_lt _ _)) by lia. rewrite drop_drop. do 2 f_equal; lia.
    + apply Nat.ltb_ge in E2. rewrite (proj2 (Nat.ltb_ge _ _)) by lia. f_equal. lia.
  - apply Nat.ltb_ge in E. rewrite (proj2 (Nat.ltb_ge _ _)) by lia. rewrite <- IH by done. f_equal. lia.
Qed.

(** One call of recv takes what fits from the first segment. *)
Lemma recv_segment s seg rest n :
  incoming s = seg :: rest -> proper (incoming s) -> 0 <= n ->
  exists bs, recv n s = Ok bs (with_incoming (drop_bytes (length bs) (incoming s)) s) /\
    bs = take (Z.to_nat n) seg.
Proof.
  intros Hs Hp Hn. exists (take (Z.to_nat n) seg). split; [|done]. unfold recv. rewrite Hs. cbn [drop_bytes].
  rewrite Hs in Hp. inversion_clear Hp as [|? ? H1 H2]. rewrite length_take. do 2 f_equal.
  destruct (Nat.min (Z.to_nat n) (length seg) <? length seg)%nat eqn:E.
  - apply Nat.ltb_lt in E. rewrite Nat.min_l by lia. destruct (drop (Z.to_nat n) seg) eqn:Ed; [|done].
    apply (f_equal length) in Ed. rewrite length_drop in Ed. cbn in Ed. lia.
  - apply Nat.ltb_ge in E. rewrite drop_ge by lia. rewrite Nat.min_r, Nat.sub_diag by lia.
    by rewrite drop_bytes_0.
Qed.

Lemma with_incoming_twice x y s : with_incoming y (with_incoming x s) = with_incoming y s.
Proof. done. Qed.

Lemma read_data_run fuel : forall s len acc (n : nat),
  proper (incoming s) -> (n <= length (List.concat (incoming s)))%nat -> (n < fuel)%nat ->
  Z.of_nat (length acc) + Z.of_nat n = len ->
  read_data fuel len acc s =
  Ok (Some (acc ++ take n (List.concat (incoming s)))) (with_incoming (drop_bytes n (incoming s)) s).
Proof.
  induction fuel as [|fuel IH]; intros s len acc n Hp Hn Hf Hlen; [lia|]. cbn [read_data].
  destruct n as [|n].
  - rewrite (proj2 (Z.ltb_ge _ _)) by lia. rewrite drop_bytes_0 by done. unfold ret. rewrite app_nil_r. by destruct s.
  - rewrite (proj2 (Z.ltb_lt _ _)) by lia.
    destruct (incoming s) as [|seg rest] eqn:Es; [cbn in Hn; lia|].
    destruct (recv_segment s seg rest (len - Z.of_nat (length acc)) Es ltac:(by rewrite Es) ltac:(lia)) as (bs & Hr & Hbs).
    rewrite (bind_Ok _ _ _ _ _ Hr). rewrite Es in *. inversion_clear Hp as [|? ? H1 H2].
    replace (Z.to_nat (len - Z.of_nat (length acc))) with (S n) in Hbs by lia.
    assert (Hlb : (0 < length bs)%nat) by (rewrite Hbs; destruct seg; [done|cbn; lia]).
    assert (Hle : (length bs <= S n)%nat) by (rewrite Hbs, length_take; lia).
    destruct bs as [|b bs]; [cbn in Hlb; lia|]. set (bs' := b :: bs) in *.
    assert (Hpre : take (S n) (List.concat (seg :: rest)) = bs' ++ take (S n - length bs') (drop (length bs') (List.concat (seg :: rest)))).
    { assert (Hk : take (length bs') (List.concat (seg :: rest)) = bs').
      { cbn [List.concat]. assert (length bs' <= length seg)%nat by (rewrite Hbs, length_take; lia).
        rewrite take_app_le by done. rewrite Hbs at 2. rewrite Hbs, length_take.
        destruct (decide (S n <= length seg)%nat); [by rewrite Nat.min_l by lia|].
        rewrite Nat.min_r by lia. by rewrite !take_ge by lia. }
      rewrite <- Hk at 1. rewrite take_take_drop. f_equal. lia. }
    rewrite (IH _ len (acc ++ bs') (S n - length bs')%nat); cbn [incoming with_incoming].
    + rewrite with_incoming_twice, drop_bytes_concat, <- app_assoc, <- Hpre.
      rewrite <- drop_bytes_add by (by constructor). do 2 f_equal. f_equal. lia.
    + by apply drop_bytes_proper; constructor.
    + rewrite drop_bytes_concat, length_drop. lia.
    + lia.
    + rewrite length_app. lia.
Qed.
