(* ===== verification/NmpSpec.v ===== *)
(** * NmpSpec: events arrive at the other node

    The bytes an event is sent as are read back as the event, and the thread of a
    connection turns a stream of messages into the events in order, however the bytes of
    the messages are cut into segments behind the headers. *)

From S2P Require Import Prelude MachineInt F64 HexFloat Ast Protobufish ProtobufishSpec Websocket WebsocketSpec Nmp Segments.

(** ** Byte order *)

Lemma rev_bytes n v : Forall is_byte (rev (le_enc n v)).
Proof. apply Forall_rev, le_enc_bytes. Qed.

Lemma le_enc_bswap n v : le_enc n (bswap n v) = rev (le_enc n v).
Proof.
  unfold bswap. rewrite <- (le_enc_length n v) at 1. rewrite <- length_rev. apply le_enc_dec, rev_bytes.
Qed.

Lemma bswap_bswap n v : bswap n (bswap n v) = v mod 2 ^ (8 * Z.of_nat n).
Proof. unfold bswap at 1. by rewrite le_enc_bswap, rev_involutive, le_dec_enc. Qed.

Lemma bswap_bound n v : 0 <= bswap n v < 2 ^ (8 * Z.of_nat n).
Proof.
  unfold bswap. pose proof (le_dec_bound (rev (le_enc n v)) (rev_bytes n v)) as H.
  by rewrite length_rev, le_enc_length in H.
Qed.

Lemma ntohl_htonl v : 0 <= v < 2 ^ 32 -> ntohl (htonl v) = v.
Proof. intros Hv. unfold ntohl, htonl. rewrite bswap_bswap. by apply Z.mod_small. Qed.

Lemma htonl_bound v : 0 <= htonl v < 2 ^ 32.
Proof. apply (bswap_bound 4). Qed.

Lemma dec_htonl v : le_dec (le_enc 4 (htonl v)) = htonl v.
Proof. rewrite le_dec_enc. apply Z.mod_small, htonl_bound. Qed.

(** ** Reading at a place *)

Section at_place.
Context {S : Type}.

Lemma fixed_at n v pre post len (s : S) :
  0 <= v < 2 ^ (8 * Z.of_nat n) -> Z.of_nat n <= len ->
  deserialize_fixed n (pre ++ le_enc n v ++ post) (Z.of_nat (length pre)) len s = Ok (v, Z.of_nat n) s.
Proof.
  intros Hv Hlen. unfold deserialize_fixed. rewrite (proj2 (Z.ltb_ge _ _)) by lia.
  rewrite <- (le_enc_length n v) at 2. rewrite slice_get_app. unfold bind, of_option, ret.
  by rewrite le_dec_enc, Z.mod_small.
Qed.

Lemma c_string_at bs pre post :
  Forall (fun b => b <> 0) bs -> c_string (pre ++ bs ++ 0 :: post) (Z.of_nat (length pre)) = Some bs.
Proof.
  intros Hb. unfold c_string. rewrite (proj2 (Z.leb_le _ _)) by lia.
  rewrite (proj2 (Z.leb_le _ _)) by (rewrite length_app; lia). cbn [andb].
  rewrite Nat2Z.id, drop_app_length. by apply until_nul_app.
Qed.

Lemma string_at bs pre post len (s : S) :
  Forall (fun b => b <> 0) bs -> Z.of_nat (length bs) < len ->
  deserialize_string (pre ++ string_bytes bs ++ post) (Z.of_nat (length pre)) len s =
  Ok (bs, Z.of_nat (length (string_bytes bs))) s.
Proof.
  intros Hb Hlen. unfold deserialize_string, string_bytes. rewrite <- app_assoc. cbn [app].
  rewrite c_string_at by done. unfold bind, of_option, ret. cbn.
  rewrite (proj2 (Z.ltb_ge _ _)) by lia. rewrite length_app. cbn [length]. do 2 f_equal. lia.
Qed.

Lemma dec_digits_chars fuel n : 0 <= n -> Forall (fun b => b <> 0) (dec_digits fuel n).
Proof.
  revert n. induction fuel as [|fuel IH]; intros n Hn; cbn [dec_digits]; [constructor|].
  apply Forall_app. split.
  - case_ifs; [constructor|]. apply IH. by apply Z.div_pos.
  - constructor; [|constructor]. pose proof (Z.mod_pos_bound n 10). lia.
Qed.

Lemma frac_digits_chars n m : 0 <= m -> Forall (fun b => b <> 0) (frac_digits n m).
Proof.
  revert m. induction n as [|n IH]; intros m Hm; cbn [frac_digits]; [constructor|].
  pose proof (Z.pow_pos_nonneg 16 (Z.of_nat n) ltac:(lia) ltac:(lia)).
  case_ifs; constructor.
  - pose proof (Z.div_pos m (16 ^ Z.of_nat n)). unfold hex_char. case_ifs; lia.
  - apply IH. apply Z.mod_pos_bound. lia.
Qed.

Lemma print_la_chars b : 0 <= b < 2 ^ 64 -> Forall (fun b => b <> 0) (print_la b).
Proof.
  intros Hb. destruct (f64_fields b Hb) as (_ & He & Hf). unfold print_la.
  fold (f64_exponent b) (f64_fraction b). unfold print_exp, print_frac.
  repeat first [apply dec_digits_chars; lia | apply frac_digits_chars; lia | apply Forall_app; split
               | apply Forall_cons; split | apply Forall_nil_2 | lia | case_ifs].
Qed.

Lemma double_at v pre post len (s : S) :
  0 <= v < 2 ^ 64 -> is_nan v = false ->
  deserialize_double (pre ++ double_bytes v ++ post) (Z.of_nat (length pre)) len s =
  Ok (v, Z.of_nat (length (double_bytes v))) s.
Proof.
  intros Hv Hn. unfold deserialize_double, double_bytes. rewrite <- app_assoc. cbn [app].
  rewrite c_string_at by (by apply print_la_chars). unfold bind, of_option, ret.
  rewrite scan_la_print_la by done. rewrite length_app. cbn [length]. do 2 f_equal. lia.
Qed.
End at_place.

(** ** Payloads *)

Section payloads.
Context (sc_size : nat).
Hypothesis (Hsc : (0 < sc_size)%nat).

(** What a payload may hold: integers of 32 bits, no NaN, no zero in a string, no units. *)
Definition value_ok (p : value_t) : Prop :=
  match p.1 with
  | Int_literal v => -2 ^ 31 <= v < 2 ^ 31 /\ p.2 = all_zero_unit
  | Float_literal v => 0 <= v < 2 ^ 64 /\ is_nan v = false /\ p.2 = all_zero_unit
  | String_literal s => no_nul s /\ p.2 = all_zero_unit
  | _ => False
  end.

Definition value_bytes (p : value_t) : list Z :=
  match p.1 with
  | Int_literal v => tag NMP_PAYLOAD_INT ++ int_bytes v ++ flat_unit sc_size p.2
  | Float_literal v => tag NMP_PAYLOAD_DOUBLE ++ double_bytes v ++ flat_unit sc_size p.2
  | String_literal s => tag NMP_PAYLOAD_STRING ++ string_bytes (bytes_of_string s)
  | _ => []
  end.

Lemma flat_unit_length u : length (flat_unit sc_size u) = (7 * sc_size)%nat.
Proof. unfold flat_unit, fixed_bytes. cbn. rewrite !length_app, !le_enc_length. cbn. lia. Qed.

Lemma zero_exponent pre post len {S} (s : S) :
  Z.of_nat sc_size <= len ->
  read_exponent sc_size (pre ++ le_enc sc_size 0 ++ post) (Z.of_nat (length pre)) len s = Ok (0, Z.of_nat sc_size) s.
Proof.
  intros Hlen. unfold read_exponent.
  rewrite (bind_read _ _ _ _ (fixed_at sc_size 0 pre post len s ltac:(split; [lia|by apply pow2_pos; lia]) Hlen)).
  unfold ret. cbn [fst snd].
  assert (H0 : to_s (8 * Z.of_nat sc_size) 0 = 0).
  { apply to_s_id; [lia|]. pose proof (pow2_pos (8 * Z.of_nat sc_size - 1)). lia. }
  rewrite H0. change (ntohl (to_u 32 0)) with 0. by rewrite H0.
Qed.

(** The seven exponents, the first [k] of them read. *)
Lemma zero_exponents {S} (k : nat) : forall j pre post len l (s : S),
  Z.of_nat (length pre) + Z.of_nat (k * sc_size) <= len < 2 ^ 32 ->
  foldM (seq j k) (fun '(l, offs) _ =>
    let! r := read_exponent sc_size (pre ++ List.concat (replicate k (le_enc sc_size 0)) ++ post) offs (to_u 64 (len - offs)) in
    ret (l ++ [r.1], offs + r.2)) (l, Z.of_nat (length pre)) s =
  Ok (l ++ replicate k 0, Z.of_nat (length pre) + Z.of_nat (k * sc_size)) s.
Proof.
  induction k as [|k IH]; intros j pre post len l s Hlen; cbn [seq foldM replicate List.concat].
  - unfold ret. rewrite app_nil_r. do 2 f_equal. lia.
  - rewrite <- app_assoc. unfold bind at 1 2.
    rewrite (to_u_id 64) by lia. rewrite zero_exponent by lia. cbn [ret fst snd].
    rewrite (app_assoc pre).
    replace (Z.of_nat (length pre) + Z.of_nat sc_size) with (Z.of_nat (length (pre ++ le_enc sc_size 0)))
      by (rewrite length_app, le_enc_length; lia).
    rewrite IH by (rewrite length_app, le_enc_length; lia).
    rewrite <- app_assoc. do 2 f_equal. rewrite length_app, le_enc_length. lia.
Qed.

Lemma zero_unit_at pre post {S} (s : S) len :
  Z.of_nat (length pre) + Z.of_nat (7 * sc_size) <= len < 2 ^ 32 ->
  read_unit sc_size (pre ++ flat_unit sc_size all_zero_unit ++ post) (Z.of_nat (length pre)) len s =
  Ok (all_zero_unit, Z.of_nat (length pre) + Z.of_nat (7 * sc_size)) s.
Proof.
  intros Hlen. unfold read_unit.
  change (flat_unit sc_size all_zero_unit) with (List.concat (replicate 7 (le_enc sc_size 0))).
  rewrite (bind_read _ _ _ _ (zero_exponents 7 0 pre post len [] s Hlen)). done.
Qed.

Lemma tag_at t pre post : slice_get (pre ++ tag t ++ post) (Z.of_nat (length pre)) 4 = Some (tag t).
Proof. unfold tag. rewrite <- (le_enc_length 4 (htonl t)) at 2. apply slice_get_app. Qed.

Lemma tag_value t : 0 <= t < 4 -> to_s 32 (ntohl (le_dec (tag t))) = t.
Proof. intros Ht. unfold tag. rewrite dec_htonl, ntohl_htonl by lia. by rewrite to_s_id by lia. Qed.

(** One element. *)
Lemma read_element_at p pre post {S} (s : S) len :
  value_ok p -> Z.of_nat (length pre) + Z.of_nat (length (value_bytes p)) <= len < 2 ^ 32 ->
  read_element sc_size (pre ++ value_bytes p ++ post) len (Z.of_nat (length pre)) s =
  Ok (Some (p, Z.of_nat (length pre) + Z.of_nat (length (value_bytes p)))) s.
Proof.
  intros Hok Hlen. unfold read_element. destruct p as [v u]. unfold value_ok, value_bytes in *. cbn [fst snd] in *.
  assert (Ht : forall t, length (tag t) = 4%nat) by (intros; apply le_enc_length).
  assert (Hp : forall t, Z.of_nat (length pre) + 4 = Z.of_nat (length (pre ++ tag t))) by (intros; rewrite length_app, Ht; lia).
  destruct v as [v|v|v| | | | | | | | | |]; try done.
  - destruct Hok as [Hv ->]. assert (Hi : length (int_bytes v) = 4%nat) by apply le_enc_length.
    rewrite !length_app, flat_unit_length, Ht, Hi in Hlen.
    rewrite <- !app_assoc. rewrite tag_at. cbn [of_option]. rewrite bind_ret_l, tag_value by done.
    cbn [Z.eqb NMP_PAYLOAD_INT]. rewrite (app_assoc pre), (Hp NMP_PAYLOAD_INT).
    rewrite (to_u_id 64) by (rewrite length_app, Ht; lia).
    erewrite bind_read by (apply fixed_at; [apply htonl_bound|rewrite length_app, Ht; lia]). cbn [fst snd].
    rewrite (app_assoc (pre ++ tag _)).
    replace (Z.of_nat (length (pre ++ tag NMP_PAYLOAD_INT)) + Z.of_nat 4)
      with (Z.of_nat (length ((pre ++ tag NMP_PAYLOAD_INT) ++ int_bytes v))) by (rewrite !length_app, Hi; lia).
    erewrite bind_read by (apply zero_unit_at; rewrite !length_app, Ht, Hi; lia).
    unfold ret. rewrite ntohl_htonl by (by apply to_u_range). rewrite to_s_to_u, to_s_id by lia.
    cbn [fst snd]. do 3 f_equal. rewrite !length_app, flat_unit_length, Ht, Hi. lia.
  - destruct Hok as (Hv & Hn & ->). rewrite !length_app, flat_unit_length, Ht in Hlen.
    rewrite <- !app_assoc. rewrite tag_at. cbn [of_option]. rewrite bind_ret_l, tag_value by done.
    cbn [Z.eqb NMP_PAYLOAD_INT NMP_PAYLOAD_DOUBLE Pos.eqb]. rewrite (app_assoc pre), (Hp NMP_PAYLOAD_DOUBLE).
    erewrite bind_read by (by apply double_at). cbn [fst snd].
    rewrite (app_assoc (pre ++ tag _)).
    replace (Z.of_nat (length (pre ++ tag NMP_PAYLOAD_DOUBLE)) + Z.of_nat (length (double_bytes v)))
      with (Z.of_nat (length ((pre ++ tag NMP_PAYLOAD_DOUBLE) ++ double_bytes v))) by (rewrite !length_app; lia).
    erewrite bind_read by (apply zero_unit_at; rewrite !length_app, Ht; lia).
    unfold ret. cbn [fst snd]. do 3 f_equal. rewrite !length_app, flat_unit_length, Ht. lia.
  - destruct Hok as [Hv ->]. rewrite !length_app, Ht in Hlen.
    rewrite <- !app_assoc. rewrite tag_at. cbn [of_option]. rewrite bind_ret_l, tag_value by done.
    cbn [Z.eqb NMP_PAYLOAD_INT NMP_PAYLOAD_DOUBLE NMP_PAYLOAD_STRING Pos.eqb].
    rewrite (app_assoc pre), (Hp NMP_PAYLOAD_STRING).
    rewrite (to_u_id 64) by (rewrite length_app, Ht; lia).
    assert (Hs : Z.of_nat (length (string_bytes (bytes_of_string v))) = Z.of_nat (length (bytes_of_string v)) + 1)
      by (unfold string_bytes; rewrite length_app; cbn; lia).
    erewrite bind_read by (apply string_at; [done|rewrite length_app, Ht; lia]).
    unfold ret. cbn [fst snd]. rewrite string_of_bytes_of_string. do 3 f_equal. rewrite !length_app, Ht. lia.
Qed.

Definition values_bytes (ps : list value_t) : list Z := List.concat (map value_bytes ps).

Lemma value_bytes_length p : value_ok p -> (4 <= length (value_bytes p))%nat.
Proof.
  unfold value_ok, value_bytes. destruct p as [[] u]; cbn [fst snd]; try (by intros []); intros _;
    rewrite length_app; unfold tag; rewrite le_enc_length; lia.
Qed.

Lemma read_elements_at {S} ps : forall fuel pre acc (s : S),
  Forall value_ok ps -> (length ps < fuel)%nat -> Z.of_nat (length (pre ++ values_bytes ps)) < 2 ^ 32 ->
  read_elements sc_size fuel (pre ++ values_bytes ps) (Z.of_nat (length (pre ++ values_bytes ps))) (Z.of_nat (length pre)) acc s =
  Ok (Some (acc ++ ps)) s.
Proof.
  induction ps as [|p ps IH]; intros fuel pre acc s Hok Hf Hlen; (destruct fuel as [|fuel]; [cbn in Hf; lia|]);
    cbn [read_elements]; unfold values_bytes in *; cbn [map List.concat] in *.
  - rewrite (proj2 (Z.ltb_ge _ _)) by (rewrite length_app; cbn; lia). unfold ret. by rewrite app_nil_r.
  - inversion_clear Hok as [|? ? Hp Hps]. pose proof (value_bytes_length p Hp).
    rewrite !length_app in Hlen. rewrite (proj2 (Z.ltb_lt _ _)) by (rewrite !length_app; lia).
    erewrite bind_read by (apply read_element_at; [done|rewrite !length_app; lia]). cbn iota beta.
    rewrite (app_assoc pre). replace (Z.of_nat (length pre) + Z.of_nat (length (value_bytes p)))
      with (Z.of_nat (length (pre ++ value_bytes p))) by (rewrite length_app; lia).
    rewrite IH; [|done|cbn in Hf; lia|rewrite !length_app; lia]. by rewrite <- app_assoc.
Qed.

Lemma flat_value_run {S} ps : forall acc (s : S), Forall value_ok ps ->
  foldM ps (fun acc p => let! w := flat_value sc_size p in ret (acc ++ w)) acc s = Ok (acc ++ values_bytes ps) s.
Proof.
  induction ps as [|p ps IH]; intros acc s Hok; cbn [foldM]; unfold values_bytes; cbn [map List.concat].
  - by rewrite app_nil_r.
  - inversion_clear Hok as [|? ? Hp Hps].
    assert (Hw : flat_value sc_size p s = Ok (value_bytes p) s) by (destruct p as [[] u]; done).
    rewrite (bind_read _ _ s (acc ++ value_bytes p)) by (by rewrite (bind_read _ _ _ _ Hw)).
    rewrite IH by done. by rewrite <- app_assoc.
Qed.

Lemma flat_size_length p : value_ok p -> flat_size sc_size p + 4 = Z.of_nat (length (value_bytes p)).
Proof.
  unfold value_ok, value_bytes, flat_size. destruct p as [[v|v|v| | | | | | | | | |] u]; cbn [fst snd]; try (by intros []); intros _;
    rewrite !length_app, ?flat_unit_length; unfold tag, int_bytes, fixed_bytes, string_bytes; rewrite ?length_app, ?le_enc_length;
    rewrite ?bytes_of_string_length; cbn [length]; lia.
Qed.

Lemma flat_sizes ps : Forall value_ok ps -> forall n,
  foldl (fun n p => n + flat_size sc_size p) n ps + 4 * Z.of_nat (length ps) = n + Z.of_nat (length (values_bytes ps)).
Proof.
  induction 1 as [|p ps Hp Hps IH]; intros n; unfold values_bytes; cbn [foldl map List.concat length]; [lia|].
  pose proof (flat_size_length p Hp). rewrite length_app. unfold values_bytes in IH.
  specialize (IH (n + flat_size sc_size p)). lia.
Qed.

(** ** Events *)

Definition sent_event : Type := string * list value_t.

Definition sendable (e : sent_event) : Prop :=
  no_nul e.1 /\ (String.length e.1 <= 1023)%nat /\ head (bytes_of_string e.1) <> Some 64 /\
  Forall value_ok e.2 /\ Z.of_nat (length (values_bytes e.2)) + 4096 < 2 ^ 32.

(** The body of a message and its header, in the order of the host. *)
Definition body_of (e : sent_event) : list Z :=
  match e.2 with
  | [] => bytes_of_string e.1
  | _ => le_enc 4 (htonl (Z.of_nat (String.length e.1))) ++ bytes_of_string e.1 ++ values_bytes e.2
  end.

Definition header_for (e : sent_event) : nmp_header :=
  mkHeader (match e.2 with [] => NMP_SIMPLE_EVENT | _ => NMP_EVENT_FLAT_PAYLOAD end) (Z.of_nat (length (body_of e))).

Definition message_bytes (e : sent_event) : list Z :=
  header_bytes (mkHeader (htonl (h_id (header_for e))) (htonl (h_len (header_for e)))) ++ body_of e.

(** What the receiver makes of it. *)
Definition received (enforce_native : bool) (unique_events : gset string) (e : sent_event) : remote_event :=
  match e.2 with
  | [] => mkRemote e.1 [] [] (bool_decide (e.1 ∈ unique_events))
  | ps => if enforce_native then mkRemote e.1 [] (map variant_of ps) false else mkRemote e.1 ps [] false
  end.

Lemma until_nul_none bs : Forall (fun b => b <> 0) bs -> until_nul bs = None.
Proof. induction 1 as [|b bs Hb Hbs IH]; [done|]. cbn. rewrite (proj2 (Z.eqb_neq _ _)) by done. by rewrite IH. Qed.

Lemma c_str_bytes bs : Forall (fun b => b <> 0) bs -> c_str bs = bs.
Proof. intros Hb. unfold c_str. by rewrite until_nul_app. Qed.

Lemma strncpy_n_no_nul bs : Forall (fun b => b <> 0) bs -> strncpy_n bs = bs.
Proof. intros Hb. unfold strncpy_n. rewrite c_str_bytes, Nat.sub_diag by done. apply app_nil_r. Qed.

Lemma read_name_at {S} id pre post (s : S) n :
  no_nul id -> n = Z.of_nat (String.length id) ->
  read_name (pre ++ bytes_of_string id ++ post) (Z.of_nat (length pre)) n s = Ok id s.
Proof.
  intros Hid ->. unfold read_name. rewrite (proj2 (Z.ltb_ge _ _)) by lia.
  rewrite !Nat2Z.id, drop_app_length, <- bytes_of_string_length, take_app_length.
  rewrite until_nul_none by done. rewrite Z.eqb_refl. unfold ret. by rewrite string_of_bytes_of_string.
Qed.

Lemma send_event_bytes {S} e (s : S) : sendable e -> send_event sc_size e.1 e.2 [] s = Ok (message_bytes e) s.
Proof.
  intros (Hid & Hlen & Hat & Hok & Hsize). unfold send_event. rewrite bool_decide_false by done.
  rewrite bind_ret_l. unfold message_bytes, header_for, body_of. destruct e as [id [|p ps]]; cbn [fst snd h_id h_len] in *.
  - unfold ret. rewrite to_u_id by (rewrite bytes_of_string_length; lia). done.
  - assert (Hflat : forallb (fun p => is_flat p.1) (p :: ps) = true).
    { apply forallb_forall. intros x Hx%list_elem_of_In. rewrite Forall_forall in Hok.
      assert (Hx' : value_ok x) by (apply Hok; first [exact Hx|by apply list_elem_of_In]). by destruct x as [[] u]. }
    rewrite Hflat. unfold serialize_flat_payload.
    rewrite (bind_read _ _ _ _ (flat_value_run (p :: ps) [] s Hok)). cbn [app].
    pose proof (flat_sizes (p :: ps) Hok 0) as Hs.
    rewrite strncpy_n_no_nul by done. rewrite (to_u_id 32 (Z.of_nat _)) by (rewrite bytes_of_string_length; lia).
    rewrite !bytes_of_string_length in *.
    set (n := foldl _ _ _) in *. set (vb := values_bytes _) in *.
    replace (n + Z.of_nat (length (p :: ps)) * 4 + 8 + 4 + Z.of_nat (String.length id) - 8)
      with (Z.of_nat (length (le_enc 4 (htonl (Z.of_nat (String.length id))) ++ bytes_of_string id ++ vb)))
      by (rewrite !length_app, le_enc_length, bytes_of_string_length; lia).
    rewrite (to_u_id 32) by (rewrite !length_app, le_enc_length, bytes_of_string_length; lia).
    rewrite (proj2 (Z.eqb_eq _ _)); [done|].
    unfold header_bytes. rewrite !length_app, !le_enc_length, bytes_of_string_length. cbn [h_id h_len]. lia.
Qed.

Lemma process_body {S} native unique e (s : S) : sendable e ->
  process_event_from_remote sc_size native unique (header_for e) (body_of e) s = Ok (Some (received native unique e)) s.
Proof.
  intros (Hid & Hlen & Hat & Hok & Hsize). unfold process_event_from_remote, header_for, received, body_of.
  destruct e as [id [|p ps]]; cbn [fst snd h_id h_len] in *.
  - change (NMP_SIMPLE_EVENT =? NMP_EVENT_FLAT_PAYLOAD) with false. cbn iota. rewrite bytes_of_string_length.
    rewrite to_s_id by lia. rewrite Z.min_r by lia.
    pose proof (read_name_at id [] [] s _ Hid eq_refl) as Hr. cbn [app length] in Hr. rewrite app_nil_r in Hr.
    by rewrite (bind_read _ _ _ _ Hr).
  - change (NMP_EVENT_FLAT_PAYLOAD =? NMP_EVENT_FLAT_PAYLOAD) with true. cbn iota.
    set (L := Z.of_nat (String.length id)). set (lb := le_enc 4 (htonl L)).
    assert (Hlb : length lb = 4%nat) by apply le_enc_length.
    assert (Hsl : slice_get (lb ++ bytes_of_string id ++ values_bytes (p :: ps)) 0 4 = Some lb).
    { pose proof (slice_get_app [] lb (bytes_of_string id ++ values_bytes (p :: ps))) as Ha. rewrite Hlb in Ha. exact Ha. }
    rewrite Hsl. cbn [of_option]. rewrite bind_ret_l.
    assert (Hd : ntohl (le_dec lb) = L) by (unfold lb; rewrite dec_htonl, ntohl_htonl by lia; done). rewrite Hd.
    rewrite to_s_id by lia. rewrite Z.min_r by lia.
    pose proof (read_name_at id lb (values_bytes (p :: ps)) s L Hid eq_refl) as Hr. rewrite Hlb in Hr.
    rewrite (bind_read _ _ _ _ Hr). rewrite to_u_id by lia.
    pose proof (read_elements_at (p :: ps) (Datatypes.S (length (lb ++ bytes_of_string id ++ values_bytes (p :: ps))))
                  (lb ++ bytes_of_string id) [] s Hok) as He.
    rewrite <- !app_assoc in He.
    replace (Z.of_nat (length (lb ++ bytes_of_string id))) with (L + 4) in He
      by (rewrite length_app, Hlb, bytes_of_string_length; lia).
    assert (Hcount : forall l, Forall value_ok l -> (length l <= length (values_bytes l))%nat).
    { induction 1 as [|x l Hx Hl IH]; [done|]. unfold values_bytes in *. cbn [map List.concat length].
      pose proof (value_bytes_length x Hx). rewrite length_app. lia. }
    specialize (Hcount _ Hok).
    erewrite bind_read.
    2: { apply He; rewrite !length_app, Hlb, bytes_of_string_length; lia. }
    by destruct native.
Qed.

(** What the sender writes for an event is a header and a body, and the receiver
    makes the same event of them: its name, and its payload unless it converts it to
    native values. *)
Theorem nmp_event_roundtrip {S T} native unique id payload (s : S) (t : T) :
  sendable (id, payload) ->
  exists h body, send_event sc_size id payload [] s = Ok (header_bytes (mkHeader (htonl (h_id h)) (htonl (h_len h))) ++ body) s /\
    h_len h = Z.of_nat (length body) /\ registered (h_id h) = true /\
    process_event_from_remote sc_size native unique h body t = Ok (Some (received native unique (id, payload))) t.
Proof.
  intros Hs. exists (header_for (id, payload)), (body_of (id, payload)).
  split; [by apply (send_event_bytes (id, payload))|]. split; [done|].
  split; [by destruct payload|]. by apply process_body.
Qed.

(** ** Streams *)

Lemma header_of_bytes h : 0 <= h_id h < 2 ^ 32 -> 0 <= h_len h < 2 ^ 32 -> header_of (header_bytes h) = h.
Proof.
  intros H1 H2. unfold header_of, header_bytes. destruct h as [i l]; cbn [h_id h_len] in *.
  rewrite take_app_length', drop_app_length' by (by rewrite le_enc_length).
  rewrite !le_dec_enc. f_equal; by apply Z.mod_small.
Qed.

Lemma header_bytes_length h : length (header_bytes h) = 8%nat.
Proof. unfold header_bytes. by rewrite length_app, !le_enc_length. Qed.

Lemma body_length e : sendable e -> Z.of_nat (length (body_of e)) < 2 ^ 32.
Proof.
  intros (Hid & Hlen & Hat & Hok & Hsize). unfold body_of. destruct e as [id [|p ps]]; cbn [fst snd] in *;
    rewrite ?length_app, ?le_enc_length, bytes_of_string_length; lia.
Qed.

Definition with_segments (segs : list (list Z)) (c : consumer) : consumer :=
  mkConsumer (with_incoming segs (c_sock c)) (c_events c).

Lemma on_sock_Ok {A} (m : M socket A) c a segs :
  m (c_sock c) = Ok a (with_incoming segs (c_sock c)) -> on_sock m c = Ok a (with_segments segs c).
Proof. intros H. unfold on_sock, zoom. by rewrite H. Qed.

Lemma consume_message_run native unique e c seg rest more :
  sendable e -> incoming (c_sock c) = seg :: rest -> proper (incoming (c_sock c)) -> (8 <= length seg)%nat ->
  List.concat (incoming (c_sock c)) = message_bytes e ++ more ->
  consume_message sc_size native unique c =
  Ok true (mkConsumer (with_incoming (drop_bytes (length (message_bytes e)) (incoming (c_sock c))) (c_sock c))
             (c_events c ++ [received native unique e])).
Proof.
  intros Hs Hseg Hp H8 Hcat. set (segs := incoming (c_sock c)) in *.
  pose proof (body_length e Hs) as Hbl.
  assert (Hml : length (message_bytes e) = (8 + length (body_of e))%nat).
  { unfold message_bytes. by rewrite length_app, header_bytes_length. }
  destruct (recv_segment (c_sock c) seg rest 8 Hseg Hp ltac:(lia)) as (hb & Hr & Hhb).
  assert (Hh : hb = header_bytes (mkHeader (htonl (h_id (header_for e))) (htonl (h_len (header_for e))))).
  { rewrite Hhb. change (Z.to_nat 8) with 8%nat. transitivity (take 8 (List.concat segs)).
    - rewrite Hseg. cbn [List.concat]. by rewrite take_app_le by lia.
    - rewrite Hcat. unfold message_bytes. rewrite <- app_assoc. apply take_app_length'. by rewrite header_bytes_length. }
  assert (Hl8 : length hb = 8%nat) by (rewrite Hh; apply header_bytes_length).
  unfold consume_message. fold segs in Hr. rewrite Hl8 in Hr. rewrite (bind_Ok _ _ _ _ _ (on_sock_Ok _ _ _ _ Hr)).
  destruct hb as [|x hb]; [done|]. set (hb' := x :: hb) in *. rewrite Hl8. change (Z.of_nat 8 <? 8) with false. cbv iota.
  rewrite Hh, header_of_bytes by apply htonl_bound. cbn [h_id h_len].
  assert (Hid : 0 <= h_id (header_for e) < 2 ^ 32) by (unfold header_for; cbn [h_id]; by destruct e.2).
  assert (Hlen : 0 <= h_len (header_for e) < 2 ^ 32) by (change (h_len (header_for e)) with (Z.of_nat (length (body_of e))); lia).
  rewrite (ntohl_htonl (h_id (header_for e)) Hid), (ntohl_htonl (h_len (header_for e)) Hlen).
  assert (Hd : (if h_len (header_for e) =? 0 then ret (Some [])
                else on_sock (read_data (Datatypes.S (Z.to_nat (h_len (header_for e)))) (h_len (header_for e)) []))
               (with_segments (drop_bytes 8 segs) c) =
               Ok (Some (body_of e)) (with_segments (drop_bytes (length (message_bytes e)) segs) c)).
  { rewrite Hml. rewrite drop_bytes_add by done. unfold header_for; cbn [h_len].
    destruct (Z.of_nat (length (body_of e)) =? 0) eqn:E0; zbool.
    - destruct (body_of e) eqn:Eb; [|cbn in E0; lia]. cbn [length]. rewrite drop_bytes_0 by (by apply drop_bytes_proper). done.
    - assert (Hcat8 : List.concat (drop_bytes 8 segs) = body_of e ++ more).
      { rewrite drop_bytes_concat, Hcat. unfold message_bytes. rewrite <- app_assoc. apply drop_app_length'. by rewrite header_bytes_length. }
      unfold on_sock, zoom. rewrite (read_data_run _ _ _ [] (length (body_of e))); cbn [c_sock with_segments incoming with_incoming].
      + rewrite Hcat8, take_app_length. done.
      + by apply drop_bytes_proper.
      + rewrite Hcat8, length_app. lia.
      + lia.
      + cbn. lia. }
  rewrite (bind_Ok _ _ _ _ _ Hd).
  assert (Hreg : registered (h_id (header_for e)) = true) by (unfold header_for; cbn [h_id]; by destruct e.2).
  rewrite Hreg. unfold bind at 1, try_catch at 1. unfold header_for at 1 2. cbn [h_id h_len]. fold (header_for e).
  change (mkHeader _ _) with (header_for e).
  rewrite (bind_read _ _ _ _ (process_body native unique e _ Hs)). done.
Qed.

Lemma stream_received native unique es c :
  Forall sendable es -> proper (incoming (c_sock c)) ->
  List.concat (incoming (c_sock c)) = List.concat (map message_bytes es) ->
  headers_whole (map (fun e => length (message_bytes e)) es) (incoming (c_sock c)) ->
  nmp_consumer_thread_fn sc_size (Datatypes.S (length es)) native unique c =
  Ok tt (mkConsumer (with_incoming [] (c_sock c)) (c_events c ++ map (received native unique) es)).
Proof.
  assert (Hunfold : forall fuel, nmp_consumer_thread_fn sc_size (Datatypes.S fuel) native unique =
            let! b := consume_message sc_size native unique in
            if b then nmp_consumer_thread_fn sc_size fuel native unique else ret tt) by done.
  revert c. induction es as [|e es IH]; intros c Hs Hp Hcat Hw; cbn [length]; rewrite Hunfold.
  - cbn in Hw. assert (Hr : on_sock (recv 8) c = Ok [] (with_segments [] c)).
    { apply on_sock_Ok. unfold recv. rewrite Hw. f_equal. destruct c as [[i o r] ev]. cbn in Hw. by subst. }
    unfold consume_message. rewrite (bind_Ok _ _ _ (false) (with_segments [] c)) by (by rewrite (bind_Ok _ _ _ _ _ Hr)).
    unfold ret. cbn [map]. by rewrite app_nil_r.
  - inversion_clear Hs as [|? ? He Hes]. cbn [map headers_whole List.concat] in *.
    destruct Hw as [(seg & rest & Hseg & H8) Hw].
    rewrite (bind_Ok _ _ _ _ _ (consume_message_run native unique e c seg rest _ He Hseg Hp H8 Hcat)). cbv beta iota.
    rewrite IH; cbn [c_sock incoming with_incoming c_events].
    + rewrite with_incoming_twice, <- app_assoc. done.
    + done.
    + by apply drop_bytes_proper.
    + rewrite drop_bytes_concat, Hcat. apply drop_app_length.
    + done.
Qed.

(** C14: for events that can be sent, the sender has bytes for each of them, and however
    the bytes of all of them, one behind the other, are cut into segments, as long as every
    header arrives in one piece, the thread of the connection pushes exactly these events, in
    order, and ends with the connection. An event that can be sent has a name of at most 1023
    characters without NUL that does not begin with @, and a payload below 2^32 - 4096 bytes
    of 32-bit integers, doubles that are not NaN and strings without NUL, all without units.
    An event without payload is pushed as unique when the receiver lists its name; a
    payload is pushed as it is, or as native values where the receiver wants these. *)
Theorem nmp_stream_roundtrip native unique es :
  Forall sendable es ->
  exists sent, Forall2 (fun e bytes => forall S (s : S), send_event sc_size e.1 e.2 [] s = Ok bytes s) es sent /\
  forall c, proper (incoming (c_sock c)) -> List.concat (incoming (c_sock c)) = List.concat sent ->
  headers_whole (map length sent) (incoming (c_sock c)) ->
  nmp_consumer_thread_fn sc_size (Datatypes.S (length es)) native unique c =
  Ok tt (mkConsumer (with_incoming [] (c_sock c)) (c_events c ++ map (received native unique) es)).
Proof.
  intros Hs. exists (map message_bytes es). split.
  - induction Hs as [|e es He _ IH]; constructor; [|exact IH]. intros S s. by apply send_event_bytes.
  - intros c Hp Hcat Hw. rewrite map_map in Hw. by apply stream_received.
Qed.

(** The sender does not convert exponents of units to the order of the network but the
    receiver converts them back: with exponents of one byte, a unit comes out as 0. *)
Lemma unit_lost m : 0 < m < 128 -> to_s 8 (ntohl (to_u 32 m)) = 0.
Proof.
  intros Hm. rewrite to_u_id by lia. unfold ntohl, bswap, to_s.
  cbn [le_enc rev app le_dec]. rewrite !Z.div_div by lia.
  rewrite (Z.div_small m (256 * 256)), (Z.div_small m (256 * (256 * 256))), (Z.div_small m 256) by lia.
  rewrite (Z.mod_small m) by lia. rewrite !Z.mod_0_l by lia.
  replace (0 + 256 * (0 + 256 * (0 + 256 * (m + 256 * 0))) + 2 ^ (8 - 1)) with (2 ^ (8 - 1) + m * 65536 * 2 ^ 8) by lia.
  rewrite Z.mod_add by lia. done.
Qed.
End payloads.

(** ** Example: a measurement with three values, and an event without payload *)

Module NmpExample.
Definition reading : sent_event :=
  ("temp", [(Int_literal (-7), all_zero_unit); (Float_literal 0x3FF8000000000000, all_zero_unit);
            (String_literal "C", all_zero_unit)]).
Definition go : sent_event := ("go", []).

Lemma reading_sendable : sendable 1 reading.
Proof.
  unfold sendable, no_nul. cbn [fst snd reading]. split; [repeat constructor; discriminate|].
  split; [vm_compute; lia|]. split; [discriminate|]. split; [|vm_compute; reflexivity].
  repeat constructor; try (vm_compute; congruence).
Qed.

Lemma go_sendable : sendable 1 go.
Proof.
  unfold sendable, no_nul. cbn [fst snd go]. split; [repeat constructor; discriminate|].
  split; [vm_compute; lia|]. split; [discriminate|]. split; [constructor|vm_compute; reflexivity].
Qed.

Lemma nmp_event_roundtrip_witness :
  sendable 1 reading /\
  exists h body, send_event 1 "temp" reading.2 [] tt = Ok (header_bytes (mkHeader (htonl (h_id h)) (htonl (h_len h))) ++ body) tt /\
    h_len h = Z.of_nat (length body) /\ registered (h_id h) = true /\
    process_event_from_remote 1 false ∅ h body tt = Ok (Some (mkRemote "temp" reading.2 [] false)) tt.
Proof.
  split; [exact reading_sendable|].
  exact (nmp_event_roundtrip 1 ltac:(lia) false ∅ "temp" reading.2 tt tt reading_sendable).
Defined.

(** The first message is cut behind its header; its rest and the second message arrive
    together. *)
Definition stream : list Z := message_bytes 1 reading ++ message_bytes 1 go.
Definition connection : consumer := mkConsumer (mkSocket [take 11 stream; drop 11 stream] [] 0) [].

Lemma nmp_stream_roundtrip_witness :
  exists sent, Forall2 (fun e bytes => forall S (s : S), send_event 1 e.1 e.2 [] s = Ok bytes s) [reading; go] sent /\
  List.concat sent = stream /\ headers_whole (map length sent) (incoming (c_sock connection)) /\
  nmp_consumer_thread_fn 1 3 false ∅ connection =
  Ok tt (mkConsumer (mkSocket [] [] 0) [mkRemote "temp" reading.2 [] false; mkRemote "go" [] [] false]).
Proof.
  destruct (nmp_stream_roundtrip 1 ltac:(lia) false ∅ [reading; go]
    ltac:(constructor; [exact reading_sendable|constructor; [exact go_sendable|constructor]])) as (sent & Hsent & Hrun).
  exists sent. split; [exact Hsent|].
  assert (E : sent = [message_bytes 1 reading; message_bytes 1 go]).
  { inversion Hsent as [|? b1 ? rest H1 Hrest]; subst. inversion Hrest as [|? b2 ? rest' H2 Hnil]; subst. inversion Hnil; subst.
    specialize (H1 unit tt). specialize (H2 unit tt). vm_compute in H1, H2. injection H1 as <-. injection H2 as <-. vm_compute. reflexivity. }
  assert (Hw : headers_whole (map length sent) (incoming (c_sock connection))).
  { rewrite E. split; [eexists _, _; split; [reflexivity|vm_compute; lia]|].
    split; [eexists _, _; split; [vm_compute; reflexivity|vm_compute; lia]|vm_compute; reflexivity]. }
  split; [by rewrite E|]. split; [exact Hw|]. apply (Hrun connection); [|by rewrite E|exact Hw].
  repeat constructor; vm_compute; discriminate.
Defined.
End NmpExample.
