(* ===== verification/Livelog.v ===== *)
(** * Livelog: the block of log entries, the logger and its transfer thread

    core/include/livelog/livelogger.hpp, core/src/livelog/livelogger.cpp,
    core/src/sockets/rdwrn.cpp. A storage is a block of bytes in which packed chunks (a
    header and the data) follow each other, wrapping around at its end. The block is a
    list of bytes; an access behind it is undefined. A block has one owner at a time, so
    handing the pointer on is modelled as handing the bytes on. *)

From S2P Require Import Prelude MachineInt Websocket Nmp.

(** ** Storage *)

Record storage := mkStorage {
  data_ : option (list Z);                 (* None: nullptr *)
  start_ : Z;
  end_ : Z;
  skip_ : Z;
  len_ : Z;
  id_counter_ : Z;
  size_ : Z
}.

Definition storage_eta (s : storage) : storage :=
  mkStorage (data_ s) (start_ s) (end_ s) (skip_ s) (len_ s) (id_counter_ s) (size_ s).

Definition with_data (x : option (list Z)) (s : storage) : storage := ltac:(record_update storage_eta data_ x s).
Definition with_start (x : Z) (s : storage) : storage := ltac:(record_update storage_eta start_ x s).
Definition with_end (x : Z) (s : storage) : storage := ltac:(record_update storage_eta end_ x s).
Definition with_skip (x : Z) (s : storage) : storage := ltac:(record_update storage_eta skip_ x s).
Definition with_id_counter (x : Z) (s : storage) : storage := ltac:(record_update storage_eta id_counter_ x s).
Definition with_size (x : Z) (s : storage) : storage := ltac:(record_update storage_eta size_ x s).

(** Storage(len), on a fresh block; the default constructor. *)
Definition new_storage (block : list Z) : storage := mkStorage (Some block) 0 0 0 (Z.of_nat (length block)) 0 0.
Definition no_storage : storage := mkStorage None 0 0 0 0 0 0.

(** The header of a chunk: length, id, what, and the time; packed. *)
Definition sizeof_chunk : Z := 36.

Record header := mkChunk { c_len : Z; c_id : Z; c_what : Z; c_secs : Z; c_nsecs : Z }.

Definition chunk_bytes (c : header) : list Z :=
  encode U64 (c_len c) ++ encode I64 (c_id c) ++ encode I32 (c_what c) ++ encode U64 (c_secs c) ++ encode U64 (c_nsecs c).

Definition chunk_of (bs : list Z) : header :=
  mkChunk (decode U64 (take 8 bs)) (decode I64 (take 8 (drop 8 bs))) (decode I32 (take 4 (drop 16 bs)))
    (decode U64 (take 8 (drop 20 bs))) (decode U64 (take 8 (drop 28 bs))).

(** Reading and writing [n] bytes of the block. *)
Definition load (s : storage) (ofs n : Z) : option (list Z) :=
  match data_ s with Some d => slice_get d ofs (Z.to_nat n) | None => None end.

Definition store (ofs : Z) (bs : list Z) : M storage unit := fun s =>
  match data_ s with
  | Some d => match slice_set d ofs bs with Some d' => Ok tt (with_data (Some d') s) | None => Undef end
  | None => Undef
  end.

Definition chunk_len (s : storage) (ofs : Z) : option Z := decode U64 <$> load s ofs 8.
Definition chunk_at (s : storage) (ofs : Z) : option header := chunk_of <$> load s ofs sizeof_chunk.

Definition storage_empty (s : storage) : bool := start_ s =? end_ s.
Definition capacity (s : storage) : Z := if len_ s =? 0 then 0 else len_ s - 1.
Definition storage_clear (s : storage) : storage := with_size 0 (with_skip 0 (with_end 0 (with_start 0 s))).

Definition available_space (s : storage) : Z :=
  if storage_empty s then to_u 64 (len_ s - 1)
  else if start_ s <? end_ s then
    Z.max (to_u 64 (len_ s - to_u 64 (end_ s + 1))) (if start_ s =? 0 then 0 else start_ s - 1)
  else to_u 64 (start_ s - end_ s - 1).

(** The offset of the first chunk. *)
Definition front (s : storage) : option Z := if storage_empty s then None else Some (start_ s).

(** The offset of the chunk behind the one at [m]: the test for the end of the block
    compares with the length of the chunk. The outer [None]: undefined. *)
Definition next (s : storage) (m : Z) : option (option Z) :=
  match chunk_len s m with
  | None => None
  | Some l =>
    let ofs2 := to_u 64 (m + l + sizeof_chunk) in
    let ofs2 := if (negb (skip_ s =? 0) && (ofs2 =? skip_ s)) || (ofs2 =? l) then 0 else ofs2 in
    if ofs2 =? end_ s then Some None
    else match chunk_len s ofs2 with Some _ => Some (Some ofs2) | None => None end
  end.

Definition storage_pop : M storage unit :=
  let! s := get in
  if storage_empty s then ret tt
  else
    do! modify (fun s => with_size (to_u 64 (size_ s - 1)) s) in
    let! l := of_option (chunk_len s (start_ s)) in
    do! modify (fun s => with_start (to_u 64 (start_ s + l + sizeof_chunk)) s) in
    do! modify (fun s => if negb (skip_ s =? 0) && (start_ s =? skip_ s) then with_skip 0 (with_start 0 s) else s) in
    modify (fun s => if storage_empty s then with_end 0 (with_start 0 s) else s).

(** The loop of [push_back] that makes room. *)
Fixpoint make_room (fuel : nat) (tot_len : Z) : M storage unit :=
  match fuel with
  | O => out_of_fuel
  | S fuel' =>
    let! s := get in
    if available_space s <? tot_len then do! storage_pop in make_room fuel' tot_len else ret tt
  end.

(** [write_chunk]: a chunk without an id gets the next one, one without a time the time of
    the clock. *)
Definition write_chunk (now : Z * Z) (to len what id secs nsecs : Z) : M storage unit :=
  let! s := get in
  do! (if id >=? 0 then ret tt else modify (with_id_counter (id_counter_ s + 1))) in
  let id := if id >=? 0 then id else id_counter_ s in
  let t := if secs =? 0 then now else (secs, nsecs) in
  store to (chunk_bytes (mkChunk len id what t.1 t.2)).

(** The bytes at [mem] are copied, nullptr ([None]) leaves those of the block. *)
Definition copy_data (mem : option (list Z)) (ofs len : Z) : M storage unit :=
  match mem with
  | Some bs => let! bs := of_option (slice_get bs 0 (Z.to_nat len)) in store ofs bs
  | None => ret tt
  end.

(** The part of [push_back] behind the loop: the place of the chunk. *)
Definition append_chunk (now : Z * Z) (mem : option (list Z)) (tot_len len what id secs nsecs : Z) : M storage Z :=
  let! s := get in
  let fits := end_ s + tot_len <=? len_ s in
  do! (if fits then ret tt else do! modify (with_skip (end_ s)) in modify (with_end 0)) in
  let r := if fits then end_ s else 0 in
  do! write_chunk now r len what id secs nsecs in
  do! copy_data mem (r + sizeof_chunk) len in
  do! modify (with_end (if fits then (end_ s + tot_len) mod len_ s else tot_len)) in
  do! modify (fun s => with_size (to_u 64 (size_ s + 1)) s) in
  ret r.

(** The result is the place of the chunk, [None] when it does not fit. [now]: the time of
    the clock. *)
Definition push_back (now : Z * Z) (mem : option (list Z)) (len what id secs nsecs : Z) : M storage (option Z) :=
  let tot_len := to_u 64 (len + sizeof_chunk) in
  let! s := get in
  if len_ s <? to_u 64 (tot_len + 1) then ret None
  else
    do! make_room (S (Z.to_nat (len_ s))) tot_len in
    let! r := append_chunk now mem tot_len len what id secs nsecs in
    ret (Some r).

(** Storage::write_ext: [bs] is what the function writes into the [n] bytes it is given. *)
Definition storage_write_ext (now : Z * Z) (what : Z) (bs : list Z) (n id : Z) : M storage bool :=
  let! s := get in
  if capacity s <? to_u 64 (n + sizeof_chunk) then ret false
  else
    let! r := push_back now None n what id 0 0 in
    match r with
    | None => ret false
    | Some p => do! store (p + sizeof_chunk) bs in ret true
    end.

(** An entry as the functions of for_each get it: the chunk and its data. *)
Record entry := mkEntry { e_header : header; e_data : list Z }.

Definition entry_at (s : storage) (ofs : Z) : option entry :=
  match chunk_at s ofs with
  | None => None
  | Some c => mkEntry c <$> load s (ofs + sizeof_chunk) (c_len c)
  end.

Section for_each.
Context {T : Type}.

(** for_each_ext: [f] tells whether to go on; [cur] is the current chunk. *)
Fixpoint for_each_ext_from (fuel : nat) (s : storage) (f : entry -> M T bool) (cur : option Z) : M T bool :=
  match cur with
  | None => ret true
  | Some m =>
    match fuel with
    | O => out_of_fuel
    | S fuel' =>
      let! e := of_option (entry_at s m) in
      let! go := f e in
      if go then let! cur := of_option (next s m) in for_each_ext_from fuel' s f cur else ret false
    end
  end.

Definition for_each_ext (fuel : nat) (s : storage) (f : entry -> M T bool) : M T bool :=
  for_each_ext_from fuel s f (front s).

(** for_each2 *)
Definition for_each2 (fuel : nat) (s : storage) (f : entry -> M T unit) : M T unit :=
  do! for_each_ext fuel s (fun e => do! f e in ret true) in ret tt.
End for_each.

(** ** The logger *)

(** Storagesstorage: a ring of storages. *)
Record storages := mkStorages { storages_ : list storage; s_ : Z; e_ : Z }.

Definition no_storages : storages := mkStorages [] 0 0.
Definition ring_size (r : storages) : Z := Z.of_nat (length (storages_ r)).
Definition storages_empty (r : storages) : bool := s_ r =? e_ r.
Definition storages_size (r : storages) : Z :=
  if e_ r >=? s_ r then e_ r - s_ r else to_u 64 (ring_size r - s_ r + e_ r - 1).

Record logger := mkLogger {
  cis : storage;                           (* filled by the thread that logs *)
  trans : storage;                         (* read by the consumers *)
  pending : storages;                      (* storagesstorage_ *)
  moving : storages;                       (* storagesstorage2_ *)
  cis_moved_to_trans : bool;
  write_through : bool;
  reseted : bool
}.

Definition logger_eta (l : logger) : logger :=
  mkLogger (cis l) (trans l) (pending l) (moving l) (cis_moved_to_trans l) (write_through l) (reseted l).

Definition with_cis (x : storage) (l : logger) : logger := ltac:(record_update logger_eta cis x l).
Definition with_trans (x : storage) (l : logger) : logger := ltac:(record_update logger_eta trans x l).
Definition with_pending (x : storages) (l : logger) : logger := ltac:(record_update logger_eta pending x l).
Definition with_moving (x : storages) (l : logger) : logger := ltac:(record_update logger_eta moving x l).
Definition with_cis_moved_to_trans (x : bool) (l : logger) : logger := ltac:(record_update logger_eta cis_moved_to_trans x l).
Definition with_reseted (x : bool) (l : logger) : logger := ltac:(record_update logger_eta reseted x l).

Definition new_logger (cis_block trans_block : list Z) : logger :=
  mkLogger (new_storage cis_block) (new_storage trans_block) no_storages no_storages false true false.

Definition on_cis {A} (m : M storage A) : M logger A := zoom cis with_cis m.
Definition on_trans {A} (m : M storage A) : M logger A := zoom trans with_trans m.

Definition default_size : Z := 32.

(** The block operator new gives, with what happens to be in it. *)
Class NewChar := {
  new_char : Z -> list Z;
  new_char_length n : length (new_char n) = Z.to_nat n
}.

Section logger.
Context `{NewChar}.

Definition storage_at (r : storages) (i : Z) : option storage := zlookup (storages_ r) i.

Definition set_storage (i : Z) (s : storage) (r : storages) : option storages :=
  (fun l => mkStorages l (s_ r) (e_ r)) <$> zinsert (storages_ r) i s.

(** Storagesstorage::move_to_and_clear: the block goes into the ring, and the block that
    was there comes back; the members of [s] that are not reset keep their value. The
    result: the ring and [s]. *)
Definition move_to_and_clear (r : storages) (s : storage) : option (storages * storage) :=
  let r := if ring_size r =? 0 then mkStorages (vec_resize default_size no_storage (storages_ r)) (s_ r) (e_ r) else r in
  slot ← storage_at r (e_ r);
  r1 ← set_storage (e_ r) s r;
  let t := match data_ slot with Some d => d | None => new_char (len_ s) end in
  let s := with_end 0 (with_skip 0 (with_start 0 (with_data (Some t) s))) in
  let e := (e_ r1 + 1) mod ring_size r1 in
  Some (mkStorages (storages_ r1) (if e =? s_ r1 then (s_ r1 + 1) mod ring_size r1 else s_ r1) e, s).

Definition move_cis : M logger unit :=
  let! l := get in
  let! p := of_option (move_to_and_clear (pending l) (cis l)) in
  modify (fun l => with_cis p.2 (with_pending p.1 l)).

Definition flush : M logger unit :=
  let! l := get in
  if storage_empty (cis l) then ret tt
  else do! move_cis in modify (with_cis_moved_to_trans true).

Definition check_write_preconditions (n : Z) (l : logger) : bool :=
  negb (capacity (cis l) <? to_u 64 (n + sizeof_chunk)).

Definition if_space_low_do_cis_to_trans_transfer (n : Z) : M logger unit :=
  let! l := get in
  if (available_space (cis l) <? to_u 64 (n + sizeof_chunk)) && write_through l then
    do! move_cis in
    modify (fun l => if storages_size (pending l) >=? ring_size (pending l) / 2 then with_cis_moved_to_trans true l else l)
  else ret tt.

(** Livelogger::write; [reserve] is the case without bytes. *)
Definition logger_write (now : Z * Z) (what : Z) (mem : option (list Z)) (n id secs nsecs : Z) : M logger bool :=
  let! l := get in
  if negb (check_write_preconditions n l) then ret false
  else
    do! if_space_low_do_cis_to_trans_transfer n in
    do! on_cis (push_back now mem n what id secs nsecs) in
    ret true.

Definition reserve (now : Z * Z) (what n : Z) : M logger bool := logger_write now what None n (-1) 0 0.

(** Livelogger::write_ext *)
Definition logger_write_ext (now : Z * Z) (what : Z) (bs : list Z) (n id : Z) : M logger bool :=
  let! l := get in
  if negb (check_write_preconditions n l) then ret false
  else
    do! if_space_low_do_cis_to_trans_transfer n in
    let! r := on_cis (push_back now None n what id 0 0) in
    match r with
    | None => ret false
    | Some p => do! on_cis (store (p + sizeof_chunk) bs) in ret true
    end.

(** A walk over the ring from [i] to [e]. *)
Fixpoint ring_walk {S} (fuel : nat) (i e n : Z) (f : Z -> M S unit) : M S unit :=
  if i =? e then ret tt
  else
    match fuel with
    | O => out_of_fuel
    | Datatypes.S fuel' => do! f i in ring_walk fuel' ((i + 1) mod n) e n f
    end.

(** One storage goes from the ring of the logging thread to the ring of this thread. *)
Definition take_over (i : Z) : M logger unit :=
  let! l := get in
  let! s := of_option (storage_at (pending l) i) in
  let! slot := of_option (storage_at (moving l) i) in
  let t := match data_ slot with Some d => d | None => new_char (len_ s) end in
  let! m := of_option (set_storage i s (moving l)) in
  let! p := of_option (set_storage i (storage_clear (with_data (Some t) s)) (pending l)) in
  modify (fun l => with_moving m (with_pending p l)).

(** The entries of a storage go to the storage of the consumers. *)
Definition copy_storage (now : Z * Z) (i : Z) : M logger unit :=
  let! l := get in
  let! s := of_option (storage_at (moving l) i) in
  for_each2 (S (Z.to_nat (len_ s))) s (fun e =>
    on_trans (do! push_back now (Some (e_data e)) (c_len (e_header e)) (c_what (e_header e)) (c_id (e_header e))
                   (c_secs (e_header e)) (c_nsecs (e_header e)) in ret tt)).

(** One round of trans_thread_fn, once it is woken. *)
Definition trans_thread_round (now : Z * Z) : M logger unit :=
  do! modify (with_cis_moved_to_trans false) in
  let! l := get in
  if storages_empty (pending l) then ret tt
  else
    let n := ring_size (pending l) in
    let m := moving l in
    do! modify (with_moving (mkStorages
          (if ring_size m =? n then storages_ m else vec_resize n no_storage (storages_ m)) (s_ (pending l)) (e_ (pending l)))) in
    do! ring_walk (Z.to_nat n) (s_ (pending l)) (e_ (pending l)) n take_over in
    do! modify (fun l => with_pending (mkStorages (storages_ (pending l)) 0 0) l) in
    let! l := get in
    ring_walk (Z.to_nat n) (s_ (moving l)) (e_ (moving l)) n (copy_storage now).

Definition clear_all : M logger unit :=
  do! modify (with_reseted true) in
  do! modify (fun l => with_trans (storage_clear (trans l)) l) in
  do! modify (fun l => with_cis (storage_clear (cis l)) l) in
  modify (fun l => with_pending (mkStorages (map storage_clear (storages_ (pending l))) (s_ (pending l)) (e_ (pending l))) l).

(** ** Sending entries to another process *)

(** A write that must be complete. *)
Definition write_exactly {A} (bs : list Z) (k : M socket (option A)) : M socket (option A) :=
  let! n := write bs in if n =? Z.of_nat (length bs) then k else ret None.

(** Entries that the receiver has are left out; the new id of the last entry sent, [None]
    when a write failed. *)
Definition send_entry (filter_id : Z) (e : entry) : M (socket * Z) bool := fun x =>
  let c := e_header e in
  if (filter_id >=? 0) && (filter_id >? c_id c) then Ok true x
  else
    match write_exactly (encode U64 (to_u 64 (sizeof_chunk + c_len c)))
            (write_exactly (chunk_bytes c) (write_exactly (e_data e) (ret (Some tt)))) x.1 with
    | Ok (Some _) k => Ok true (k, c_id c)
    | Ok None k => Ok false (k, x.2)
    | Throw ex k => Throw ex (k, x.2)
    | Undef => Undef
    | OutOfFuel => OutOfFuel
    end.

Definition send_storage (last_transmitted_id : Z) (st : storage) : M socket (option Z) := fun k =>
  match for_each_ext (S (Z.to_nat (len_ st))) st (send_entry (last_transmitted_id + 1)) (k, last_transmitted_id) with
  | Ok true (k, last) => write_exactly (encode U64 0) (ret (Some last)) k
  | Ok false (k, _) => Ok None k
  | Throw ex (k, _) => Throw ex k
  | Undef => Undef
  | OutOfFuel => OutOfFuel
  end.

Definition CMD_FLUSH_MAIN_LOG_STORAGE : Z := 0.
Definition CMD_GET_NEW_LOG_ENTRIES : Z := 1.

(** The side that logs, with the storages that were registered. *)
Record server := mkServer { sv_logger : logger; sv_storages : gmap Z storage; sv_socket : socket }.

Definition handle_cmd (last_transmitted_id cmd : Z) : M server (option Z) := fun s =>
  let st := if cmd =? CMD_GET_NEW_LOG_ENTRIES then Some (trans (sv_logger s)) else sv_storages s !! to_s 32 cmd in
  match st with
  | None => Ok None s
  | Some st =>
    zoom sv_socket (fun k s => mkServer (sv_logger s) (sv_storages s) k) (send_storage last_transmitted_id st) s
  end.

(** One round of comm_stream_handler_fn; [false]: the connection is over. A command of which
    only a part arrives is read with the bytes that happen to be behind it. *)
Definition handler_round : M server bool :=
  let on_socket {A} (m : M socket A) := zoom sv_socket (fun k s => mkServer (sv_logger s) (sv_storages s) k) m in
  let! c := on_socket (recv 4) in
  if (length c =? 0)%nat then ret false
  else if negb (length c =? 4)%nat then undef
  else
    let cmd := ntohl (le_dec c) in
    if cmd =? CMD_FLUSH_MAIN_LOG_STORAGE then
      do! zoom sv_logger (fun l s => mkServer l (sv_storages s) (sv_socket s)) flush in ret true
    else
      let! t := on_socket (recv 8) in
      if (length t =? 0)%nat then ret false
      else if negb (length t =? 8)%nat then undef
      else
        let! r := handle_cmd (to_s 64 (bswap 8 (le_dec t))) cmd in
        match r with
        | Some _ => ret true
        | None =>
          let! n := on_socket (write (encode U64 0)) in ret (n =? 8)
        end.

(** ** Receiving entries *)

(** readn: until [n] bytes are there or nothing comes. *)
Fixpoint readn_loop (fuel : nat) (n : Z) (acc : list Z) : M socket (list Z) :=
  if Z.of_nat (length acc) <? n then
    match fuel with
    | O => out_of_fuel
    | S fuel' =>
      let! bs := recv (n - Z.of_nat (length acc)) in
      match bs with [] => ret acc | _ => readn_loop fuel' n (acc ++ bs) end
    end
  else ret acc.

Definition readn (n : Z) : M socket (list Z) := readn_loop (S (Z.to_nat n)) n [].

(** The side that collects: its logger, the connection and the id of the last entry. *)
Record sink := mkSink { sk_logger : logger; sk_socket : socket; sk_last : Z }.

Definition on_sink_socket {A} (m : M socket A) : M sink A :=
  zoom sk_socket (fun k s => mkSink (sk_logger s) k (sk_last s)) m.

(** The loop of comm_stream_fn that reads the entries of the main log: up to the
    sentinel, a short length or a short entry; the number of entries. *)
Fixpoint read_entries (fuel : nat) (now : Z * Z) (chunks_read : Z) : M sink Z :=
  match fuel with
  | O => out_of_fuel
  | S fuel' =>
    let! l := on_sink_socket (recv 8) in
    if negb (length l =? 8)%nat then ret chunks_read
    else
      let len := le_dec l in
      if len =? 0 then ret chunks_read
      else
        let! bs := on_sink_socket (readn len) in
        if negb (Z.of_nat (length bs) =? len) then ret chunks_read
        else
          let! hd := of_option (slice_get bs 0 (Z.to_nat sizeof_chunk)) in
          let c := chunk_of hd in
          do! zoom sk_logger (fun l s => mkSink l (sk_socket s) (sk_last s))
                (logger_write now (c_what c) (Some (drop (Z.to_nat sizeof_chunk) bs)) (c_len c) (c_id c) (c_secs c) (c_nsecs c)) in
          do! modify (fun s => mkSink (sk_logger s) (sk_socket s) (c_id c)) in
          read_entries fuel' now (chunks_read + 1)
  end.

(** A round for the main log: the command, the id of the last entry, the entries. *)
Definition fetch_log (fuel : nat) (now : Z * Z) (no_data_received : Z) : M sink (option Z) :=
  let! s := get in
  let send bs k := let! n := on_sink_socket (write bs) in if n =? Z.of_nat (length bs) then k else ret None in
  let k :=
    send (encode U32 (htonl CMD_GET_NEW_LOG_ENTRIES))
      (send (encode U64 (bswap 8 (to_u 64 (sk_last s))))
        (let! n := read_entries fuel now 0 in ret (Some (if n =? 0 then no_data_received + 1 else 0)))) in
  if no_data_received >=? 3 then send (encode U32 (htonl CMD_FLUSH_MAIN_LOG_STORAGE)) k else k.
End logger.
