(* ===== verification/LivelogSpec.v ===== *)
(** * LivelogSpec: the block of log entries is a queue

    What a storage holds as a list of entries; appending, popping and walking over a
    storage on that list. *)

From S2P Require Import Prelude MachineInt Websocket Nmp Livelog.

#[local] Abbreviation zlen l := (Z.of_nat (length l)).

(** ** Entries and their bytes *)

Definition good_header (h : header) : Prop :=
  in_range U64 (c_len h) = true /\ in_range I64 (c_id h) = true /\ in_range I32 (c_what h) = true /\
  in_range U64 (c_secs h) = true /\ in_range U64 (c_nsecs h) = true.

Definition good_entry (e : entry) : Prop := good_header (e_header e) /\ c_len (e_header e) = zlen (e_data e).

Definition entry_bytes (e : entry) : list Z := chunk_bytes (e_header e) ++ e_data e.
Definition esize (e : entry) : Z := 36 + zlen (e_data e).
Definition log_bytes (log : list entry) : list Z := concat (map entry_bytes log).
Definition lsize (log : list entry) : Z := zlen (log_bytes log).

Lemma chunk_bytes_length c : length (chunk_bytes c) = 36%nat.
Proof. unfold chunk_bytes. by rewrite !length_app, !encode_length. Qed.

Lemma entry_bytes_length e : zlen (entry_bytes e) = esize e.
Proof. unfold entry_bytes, esize. rewrite length_app, chunk_bytes_length. lia. Qed.

Lemma log_bytes_app l1 l2 : log_bytes (l1 ++ l2) = log_bytes l1 ++ log_bytes l2.
Proof. unfold log_bytes. by rewrite map_app, concat_app. Qed.

Lemma lsize_cons e log : lsize (e :: log) = esize e + lsize log.
Proof. unfold lsize, log_bytes. cbn. rewrite length_app, Nat2Z.inj_add, entry_bytes_length. done. Qed.

Lemma lsize_app l1 l2 : lsize (l1 ++ l2) = lsize l1 + lsize l2.
Proof. unfold lsize. rewrite log_bytes_app, length_app. lia. Qed.

Lemma lsize_nil : lsize [] = 0.
Proof. done. Qed.

Lemma lsize_length log : 36 * zlen log <= lsize log.
Proof. induction log as [|e log IH]; [done|]. rewrite lsize_cons. unfold esize. cbn [length]. lia. Qed.

Lemma esize_pos e : 36 <= esize e.
Proof. unfold esize. lia. Qed.

Lemma take_drop_app {A} n (l1 l2 l3 : list A) k : length l1 = k -> length l2 = n -> take n (drop k (l1 ++ l2 ++ l3)) = l2.
Proof. intros <- <-. by rewrite drop_app_length, take_app_length. Qed.

Lemma chunk_of_bytes c : good_header c -> chunk_of (chunk_bytes c) = c.
Proof.
  destruct c as [l i w s n]. intros (Hl & Hi & Hw & Hs & Hn). cbn in *. unfold chunk_of, chunk_bytes. cbn [c_len c_id c_what c_secs c_nsecs].
  pose proof (fun t z => encode_length t z) as L.
  f_equal.
  - rewrite (take_app_length' _ _ 8) by (by rewrite L). by apply decode_encode.
  - rewrite (take_drop_app 8) by (by rewrite L). by apply decode_encode.
  - rewrite (app_assoc (encode U64 l)), (take_drop_app 4); [by apply decode_encode|by rewrite length_app, !L|by rewrite L].
  - rewrite (app_assoc (encode I64 i)), (app_assoc (encode U64 l)), (take_drop_app 8);
      [by apply decode_encode|by rewrite !length_app, !L|by rewrite L].
  - rewrite <- (app_nil_r (encode U64 n)), (app_assoc (encode I32 w)), (app_assoc (encode I64 i)), (app_assoc (encode U64 l)), (take_drop_app 8);
      [by apply decode_encode|by rewrite !length_app, !L|by rewrite L].
Qed.

(** ** What a storage holds *)

(** The block up to the offset [o] and behind an entry there. *)
Definition at_ofs (s : storage) (o : Z) (e : entry) : Prop :=
  exists pre post, data_ s = Some (pre ++ entry_bytes e ++ post) /\ zlen pre = o.

Lemma at_ofs_load s o e : at_ofs s o e -> good_entry e ->
  chunk_len s o = Some (zlen (e_data e)) /\ entry_at s o = Some e.
Proof.
  intros (pre & post & Hd & <-) [Hg Hl]. pose proof (chunk_bytes_length (e_header e)) as Hc.
  assert (H36 : load s (zlen pre) 36 = Some (chunk_bytes (e_header e))).
  { unfold load. rewrite Hd. unfold entry_bytes. rewrite <- !app_assoc. change (Z.to_nat 36) with 36%nat. rewrite <- Hc. apply slice_get_app. }
  split.
  - unfold chunk_len, load. rewrite Hd. unfold entry_bytes, chunk_bytes. rewrite <- !app_assoc.
    change (Z.to_nat 8) with (sizeof U64). rewrite <- (encode_length U64 (c_len (e_header e))), slice_get_app. cbn.
    by rewrite decode_encode, Hl by apply Hg.
  - unfold entry_at, chunk_at. change sizeof_chunk with 36. rewrite H36. cbn [fmap option_fmap option_map].
    rewrite chunk_of_bytes, Hl by done. unfold load. rewrite Hd. unfold entry_bytes.
    replace (pre ++ (chunk_bytes (e_header e) ++ e_data e) ++ post) with ((pre ++ chunk_bytes (e_header e)) ++ e_data e ++ post)
      by (by rewrite <- !app_assoc).
    replace (zlen pre + 36) with (zlen (pre ++ chunk_bytes (e_header e))) by (rewrite length_app, Hc; lia).
    rewrite Nat2Z.id, slice_get_app. cbn. by destruct e.
Qed.

(** The block is one run of entries with space around it, or it has wrapped: the newer
    entries are at the front, the older ones end at [skip_]. *)
Inductive layout (s : storage) : list entry -> Prop :=
| run pre log post :
    data_ s = Some (pre ++ log_bytes log ++ post) ->
    start_ s = zlen pre -> end_ s = zlen pre + lsize log -> skip_ s = 0 -> post <> [] ->
    (log = [] -> pre = []) -> layout s log
| wrapped e1 l1 e2 l2 mid post :
    data_ s = Some (log_bytes (e2 :: l2) ++ mid ++ log_bytes (e1 :: l1) ++ post) ->
    start_ s = lsize (e2 :: l2) + zlen mid -> end_ s = lsize (e2 :: l2) ->
    skip_ s = lsize (e2 :: l2) + zlen mid + lsize (e1 :: l1) -> mid <> [] -> zlen post < esize e2 ->
    layout s ((e1 :: l1) ++ e2 :: l2).

Definition rep (s : storage) (log : list entry) : Prop :=
  layout s log /\ Forall good_entry log /\
  exists d, data_ s = Some d /\ len_ s = zlen d /\ 0 < len_ s < 2 ^ 63.

Lemma neq_nil_len {A} (l : list A) : l <> [] -> 0 < zlen l.
Proof. destruct l; [done|cbn; lia]. Qed.

Lemma layout_sizes s log : layout s log -> forall d, data_ s = Some d -> lsize log < zlen d /\ (end_ s = start_ s <-> log = []).
Proof.
  intros [pre l post Hd Hs He Hk Hp Hn|e1 l1 e2 l2 mid post Hd Hs He Hk Hm Hp] d Hd'; rewrite Hd in Hd'; apply (inj Some) in Hd'; subst d.
  - rewrite !length_app, !Nat2Z.inj_add. apply neq_nil_len in Hp. fold (lsize l). split; [lia|]. split; [|intros ->; rewrite lsize_nil in He; lia].
    destruct l as [|e l]; [done|]. rewrite lsize_cons in He. pose proof (esize_pos e). pose proof (lsize_length l). lia.
  - rewrite !length_app, !Nat2Z.inj_add. apply neq_nil_len in Hm. fold (lsize (e1 :: l1)) (lsize (e2 :: l2)). rewrite lsize_app. split; [lia|].
    split; [lia|done].
Qed.

Lemma rep_empty_iff s log : rep s log -> storage_empty s = bool_decide (log = []).
Proof.
  intros (Hl & _ & d & Hd & _). destruct (layout_sizes _ _ Hl _ Hd) as [_ Hn]. unfold storage_empty.
  destruct (bool_decide_reflect (log = [])); [apply Z.eqb_eq|apply Z.eqb_neq]; naive_solver.
Qed.

Lemma rep_new block : 0 < zlen block < 2 ^ 63 -> rep (new_storage block) [].
Proof.
  intros H. split; [|split; [done|by exists block]]. apply (run _ [] [] block); try done. intros ->. cbn in H. lia.
Qed.

(** What popping and making room leave alone. *)
Definition kept (s s' : storage) : Prop := data_ s' = data_ s /\ len_ s' = len_ s /\ id_counter_ s' = id_counter_ s.

Lemma to_u64_small z : 0 <= z < 2 ^ 63 -> to_u 64 z = z.
Proof. intros. apply to_u_id. lia. Qed.

Lemma log_bytes_cons e log : log_bytes (e :: log) = entry_bytes e ++ log_bytes log.
Proof. done. Qed.

(** The places of the entries. *)
Lemma run_at s pre log1 e log2 post : data_ s = Some (pre ++ log_bytes (log1 ++ e :: log2) ++ post) ->
  at_ofs s (zlen pre + lsize log1) e.
Proof.
  intros Hd. exists (pre ++ log_bytes log1), (log_bytes log2 ++ post). split; [|rewrite length_app; unfold lsize; lia].
  rewrite Hd, log_bytes_app, log_bytes_cons. by rewrite <- !app_assoc.
Qed.

Lemma storage_pop_rep s e log : rep s (e :: log) ->
  exists s', storage_pop s = Ok tt s' /\ rep s' log /\ kept s s' /\ (end_ s' = end_ s \/ log = []).
Proof.
  intros Hr. pose proof (rep_empty_iff _ _ Hr) as He. destruct Hr as (Hl & Hg & d & Hd & Hlen & Hpos).
  apply Forall_cons in Hg as [Hge Hg]. pose proof (esize_pos e) as Hpe.
  assert (Hat : at_ofs s (start_ s) e).
  { inversion Hl as [pre log' post Hd' Hs _ _ _ _|e1 l1 e2 l2 mid post Hd' Hs _ _ _ _]; subst.
    - rewrite Hs. replace (zlen pre) with (zlen pre + lsize []) by (rewrite lsize_nil; lia).
      by apply (run_at s pre [] e log post).
    - replace (start_ s) with (zlen (log_bytes (e2 :: l2) ++ mid) + lsize []) by (rewrite Hs, lsize_nil, length_app; unfold lsize; lia).
      apply (run_at s (log_bytes (e2 :: l2) ++ mid) [] e l1 post). by rewrite Hd', <- !app_assoc. }
  destruct (at_ofs_load s _ e Hat Hge) as [Hlen_e _].
  assert (Hbound : start_ s + esize e <= len_ s /\ 0 <= start_ s).
  { destruct Hat as (pre & post & Hd' & <-). rewrite Hd in Hd'. apply (inj Some) in Hd'. subst d.
    rewrite Hlen, !length_app, !Nat2Z.inj_add, entry_bytes_length. lia. }
  unfold storage_pop, bind at 1, get. cbv beta iota. rewrite He. cbn [bool_decide].
  rewrite bool_decide_eq_false_2 by done.
  rewrite !bind_unfold. unfold modify at 1. cbv beta iota.
  change (chunk_len (with_size ?n s)) with (chunk_len s). change (start_ (with_size ?n s)) with (start_ s).
  rewrite Hlen_e. cbn [of_option]. rewrite bind_ret_l, bind_unfold. unfold modify at 1. cbv beta iota.
  replace (to_u 64 (start_ _ + _ + _)) with (start_ s + esize e) by (rewrite to_u64_small; unfold esize in *; change sizeof_chunk with 36; cbn; lia).
  eexists. split; [reflexivity|]. unfold rep, kept. cbn [start_ skip_ end_ with_start with_size].
  inversion Hl as [pre log' post Hd' Hs He' Hk Hp Hn|e1 l1 e2 l2 mid post Hd' Hs He' Hk Hm Hp]; subst.
  - rewrite Hk. cbn [Z.eqb negb andb]. rewrite lsize_cons in He'.
    assert (Hend : storage_empty (with_start (start_ s + esize e) (with_size (to_u 64 (size_ s - 1)) s)) = bool_decide (log = [])).
    { unfold storage_empty. cbn. rewrite Hs, He'. destruct log as [|e' log]; [rewrite lsize_nil; apply Z.eqb_eq; lia|].
      rewrite lsize_cons. pose proof (esize_pos e'). pose proof (lsize_length log). apply Z.eqb_neq. lia. }
    rewrite Hend. destruct (bool_decide_reflect (log = [])) as [->|Hne]; cbn.
    + split; [|by repeat split; auto]. split; [|split; [done|by exists d]].
      apply (run _ [] [] (pre ++ entry_bytes e ++ post)); cbn; try done; [rewrite Hd'; cbn; by rewrite app_nil_r|by destruct pre].
    + split; [|by repeat split; auto]. split; [|split; [done|by exists d]].
      apply (run _ (pre ++ entry_bytes e) log post); cbn; try done.
      * by rewrite Hd', log_bytes_cons, <- !app_assoc.
      * rewrite length_app, Nat2Z.inj_add, entry_bytes_length. lia.
      * rewrite length_app, Nat2Z.inj_add, entry_bytes_length. lia.
  - assert (Hc : negb (skip_ s =? 0) && (start_ s + esize e =? skip_ s) = bool_decide (l1 = [])).
    { rewrite Hk, Hs, (lsize_cons e). pose proof (lsize_length (e2 :: l2)). cbn [length] in *.
      rewrite (proj2 (Z.eqb_neq (_ + (esize e + lsize l1)) 0)) by (pose proof (lsize_length l1); lia). cbn [negb andb].
      destruct l1 as [|e1 l1]; [apply Z.eqb_eq; rewrite lsize_nil; lia|].
      apply Z.eqb_neq. rewrite (lsize_cons e1). pose proof (esize_pos e1). pose proof (lsize_length l1). lia. }
    rewrite Hc. pose proof (lsize_length (e2 :: l2)) as Hl2. cbn [length] in Hl2. apply neq_nil_len in Hm as Hm'.
    destruct (bool_decide_reflect (l1 = [])) as [->|Hne].
    + assert (Hend : 0 =? end_ s = false) by (apply Z.eqb_neq; lia).
      unfold storage_empty. cbn -[Z.eqb]. rewrite Hend. cbn. split; [|by repeat split; auto]. split; [|split; [done|by exists d]].
      apply (run _ [] (e2 :: l2) (mid ++ log_bytes [e] ++ post)); cbn; try done. by destruct mid.
    + destruct l1 as [|e1 l1]; [done|].
      assert (Hend : start_ s + esize e =? end_ s = false) by (apply Z.eqb_neq; lia).
      unfold storage_empty. cbn -[Z.eqb]. rewrite Hend. split; [|by repeat split; auto]. split; [|split; [done|by exists d]].
      apply (wrapped _ e1 l1 e2 l2 (mid ++ entry_bytes e) post); cbn [data_ start_ end_ skip_ with_start with_size]; try done.
      * by rewrite Hd', (log_bytes_cons e), <- !app_assoc.
      * rewrite length_app, Nat2Z.inj_add, entry_bytes_length. lia.
      * rewrite length_app, Nat2Z.inj_add, entry_bytes_length. rewrite Hk, (lsize_cons e). lia.
      * by destruct mid.
Qed.

(** ** Appending *)

Lemma rep_len s log : rep s log -> 0 < len_ s < 2 ^ 63 /\ lsize log < len_ s.
Proof. intros (Hl & _ & d & Hd & Hlen & Hpos). destruct (layout_sizes _ _ Hl _ Hd). split; lia. Qed.

Lemma rep_kept s s' log : rep s log -> kept s s' -> layout s' log -> rep s' log.
Proof. intros (_ & Hg & d & Hd & Hlen & Hpos) (Hd' & Hlen' & _) Hl. split; [done|]. split; [done|]. exists d. by rewrite Hd', Hlen'. Qed.

Lemma kept_refl s : kept s s.
Proof. done. Qed.
Lemma kept_trans s1 s2 s3 : kept s1 s2 -> kept s2 s3 -> kept s1 s3.
Proof. intros (H1 & H2 & H3) (G1 & G2 & G3). unfold kept. by rewrite G1, G2, G3. Qed.

Lemma available_nil s : rep s [] -> available_space s = len_ s - 1 /\ start_ s = 0 /\ end_ s = 0 /\ skip_ s = 0.
Proof.
  intros Hr. pose proof (rep_empty_iff _ _ Hr) as He. destruct Hr as (Hl & _ & d & _ & _ & Hpos).
  unfold available_space. rewrite He. cbn. rewrite to_u64_small by lia.
  inversion Hl as [pre log' post Hd' Hs He' Hk Hp Hn|]; subst. rewrite Hn in * by done. rewrite lsize_nil in *. cbn in *. by repeat split.
Qed.

(** How much room there is at least. *)
Lemma available_half s log : rep s log -> len_ s - 2 * lsize log - 2 <= 2 * available_space s.
Proof.
  intros Hr. pose proof (rep_empty_iff _ _ Hr) as He. destruct Hr as (Hl & _ & d & Hd & Hlen & Hpos). unfold available_space. rewrite He.
  inversion Hl as [pre log' post Hd' Hs He' Hk Hp Hn|e1 l1 e2 l2 mid post Hd' Hs He' Hk Hm Hp]; subst;
    rewrite Hd' in Hd; apply (inj Some) in Hd; subst d; rewrite !length_app, !Nat2Z.inj_add in Hlen.
  - fold (lsize log) in Hlen. apply neq_nil_len in Hp. destruct (bool_decide_reflect (log = [])) as [->|Hne].
    + rewrite to_u64_small, lsize_nil by lia. lia.
    + assert (0 < lsize log) by (pose proof (lsize_length log); apply neq_nil_len in Hne; lia).
      rewrite (proj2 (Z.ltb_lt _ _)), (to_u64_small (end_ s + 1)), to_u64_small by lia. destruct (start_ s =? 0) eqn:Es; zbool; lia.
  - fold (lsize (e1 :: l1)) (lsize (e2 :: l2)) in Hlen. apply neq_nil_len in Hm. cbn [app]. rewrite bool_decide_eq_false_2 by done.
    pose proof (lsize_length (e1 :: l1)). pose proof (lsize_length (e2 :: l2)).
    rewrite (proj2 (Z.ltb_ge _ _)) by lia. rewrite to_u64_small by lia. change (e1 :: l1 ++ e2 :: l2) with ((e1 :: l1) ++ e2 :: l2).
    rewrite lsize_app. pose proof (lsize_cons e2 l2). pose proof (lsize_length l2). lia.
Qed.

Lemma make_room_rep fuel tot log : forall s, rep s log -> tot <= len_ s - 1 -> (length log < fuel)%nat ->
  exists k s', make_room fuel tot s = Ok tt s' /\ rep s' (drop k log) /\ kept s s' /\ tot <= available_space s' /\
    (end_ s' = end_ s \/ end_ s' = 0) /\ (tot <= available_space s -> k = 0%nat).
Proof.
  induction log as [|e log IH] in fuel |- *; intros s Hr Ht Hf; destruct fuel as [|fuel]; [lia| |lia|].
  - exists 0%nat, s. destruct (available_nil s Hr) as (Ha & _ & _ & _). cbn [make_room]. unfold bind at 1, get. cbv beta iota.
    rewrite (proj2 (Z.ltb_ge _ _)) by lia. split; [done|]. split; [done|]. split; [done|]. split; [lia|]. split; [by left|done].
  - cbn [make_room]. unfold bind at 1, get. cbv beta iota. destruct (Z.ltb_spec (available_space s) tot) as [Hlt|Hge].
    + destruct (storage_pop_rep s e log Hr) as (s1 & Ep & Hr1 & Hk1 & He1).
      rewrite (bind_Ok _ _ _ _ _ Ep). destruct (IH fuel s1 Hr1) as (k & s' & Em & Hr' & Hk' & Ha & He' & _); [destruct Hk1 as (_ & -> & _); lia|cbn in Hf; lia|].
      exists (S k), s'. split; [done|]. split; [done|]. split; [by apply (kept_trans s s1)|]. split; [done|].
      split; [|lia]. destruct He' as [->| ->]; [|by right]. destruct He1 as [->| ->]; [by left|].
      right. by destruct (available_nil s1 Hr1) as (_ & _ & -> & _).
    + exists 0%nat, s. split; [done|]. split; [done|]. split; [done|]. split; [lia|]. split; [by left|done].
Qed.

(** The header that [push_back] writes. *)
Definition header_for (s : storage) (now : Z * Z) (len what id secs nsecs : Z) : header :=
  mkChunk len (if id >=? 0 then id else id_counter_ s) what
    (if secs =? 0 then now.1 else secs) (if secs =? 0 then now.2 else nsecs).

Definition counted (id : Z) (s : storage) : storage :=
  if id >=? 0 then s else with_id_counter (id_counter_ s + 1) s.

Lemma store_app s A G B bs : data_ s = Some (A ++ G ++ B) -> length bs = length G ->
  store (zlen A) bs s = Ok tt (with_data (Some (A ++ bs ++ B)) s).
Proof. intros Hd Hl. unfold store. rewrite Hd. by rewrite slice_set_app. Qed.

(** The chunk and its data are written between [A] and [B]. *)
Lemma write_entry s now len what id secs nsecs bs A G B :
  data_ s = Some (A ++ G ++ B) -> zlen G = 36 + zlen bs -> len = zlen bs ->
  (do! write_chunk now (zlen A) len what id secs nsecs in
   do! copy_data (Some bs) (zlen A + sizeof_chunk) len in ret tt) s =
  Ok tt (with_data (Some (A ++ entry_bytes (mkEntry (header_for s now len what id secs nsecs) bs) ++ B)) (counted id s)).
Proof.
  intros Hd HG ->. set (h := header_for s now (zlen bs) what id secs nsecs).
  assert (Hw : write_chunk now (zlen A) (zlen bs) what id secs nsecs s =
    Ok tt (with_data (Some (A ++ chunk_bytes h ++ drop 36 G ++ B)) (counted id s))).
  { unfold write_chunk, bind at 1, get. cbv beta iota.
    rewrite (bind_Ok _ _ s tt (counted id s)) by (unfold counted; by destruct (id >=? 0)).
    rewrite (store_app _ A (take 36 G) (drop 36 G ++ B)).
    - do 3 f_equal. unfold h, header_for. by destruct (secs =? 0).
    - assert (data_ (counted id s) = data_ s) as -> by (unfold counted; by destruct (id >=? 0)).
      rewrite Hd. by rewrite (app_assoc (take 36 G)), take_drop.
    - rewrite chunk_bytes_length, length_take. lia. }
  rewrite (bind_Ok _ _ _ _ _ Hw). unfold copy_data. rewrite slice_get_Some, Nat2Z.id, drop_0, firstn_all by lia. cbn [of_option].
  replace (zlen A + sizeof_chunk) with (zlen (A ++ chunk_bytes h)) by (rewrite length_app, chunk_bytes_length; change sizeof_chunk with 36; lia).
  rewrite (bind_Ok _ _ _ tt (with_data (Some ((A ++ chunk_bytes h) ++ bs ++ B)) (counted id s))).
  - unfold ret, entry_bytes. cbn [e_header e_data]. do 3 f_equal. by rewrite <- !app_assoc.
  - rewrite bind_ret_l. rewrite (store_app _ (A ++ chunk_bytes h) (drop 36 G) B); [done|cbn; by rewrite <- app_assoc|].
    rewrite length_drop. lia.
Qed.

Lemma split_at {A} (l : list A) n : 0 <= n <= zlen l -> exists G B, l = G ++ B /\ zlen G = n.
Proof. intros H. exists (take (Z.to_nat n) l), (drop (Z.to_nat n) l). rewrite take_drop, length_take. split; [done|lia]. Qed.

(** The state behind an entry [e] that is written between [A] and [B]. *)
Definition appended (s : storage) (id : Z) (e : entry) (A B : list Z) : storage :=
  let fits := end_ s + esize e <=? len_ s in
  let s1 := if fits then s else with_end 0 (with_skip (end_ s) s) in
  with_size (to_u 64 (size_ s + 1)) (with_end (if fits then (end_ s + esize e) mod len_ s else esize e)
    (with_data (Some (A ++ entry_bytes e ++ B)) (counted id s1))).

Lemma append_chunk_runs s now len what id secs nsecs bs A G B :
  let e := mkEntry (header_for s now len what id secs nsecs) bs in
  len = zlen bs -> data_ s = Some (A ++ G ++ B) -> zlen G = esize e ->
  zlen A = (if end_ s + esize e <=? len_ s then end_ s else 0) ->
  append_chunk now (Some bs) (esize e) len what id secs nsecs s = Ok (zlen A) (appended s id e A B).
Proof.
  intros e Hlen Hd HG HA. unfold append_chunk, bind at 1, get. cbv beta iota zeta. unfold appended.
  set (fits := end_ s + esize e <=? len_ s) in *. set (s1 := if fits then s else with_end 0 (with_skip (end_ s) s)).
  assert (Hc : data_ s1 = data_ s /\ id_counter_ s1 = id_counter_ s /\ len_ s1 = len_ s /\ size_ s1 = size_ s) by (unfold s1; by destruct fits).
  destruct Hc as (Hc1 & Hc2 & Hc3 & Hc4).
  rewrite (bind_Ok _ _ s tt s1) by (unfold s1; by destruct fits). rewrite <- HA.
  pose proof (write_entry s1 now len what id secs nsecs bs A G B ltac:(by rewrite Hc1) HG Hlen) as Hw.
  rewrite bind_unfold in Hw. rewrite bind_unfold. destruct (write_chunk _ _ _ _ _ _ _ s1) as [[] s2| | |]; try done.
  rewrite bind_unfold in Hw. rewrite bind_unfold. destruct (copy_data _ _ _ s2) as [[] s3| | |]; try done.
  unfold ret in Hw. apply Ok_state in Hw as ->.
  assert (Hs2 : size_ (counted id s1) = size_ s) by (rewrite <- Hc4; unfold counted; by destruct (id >=? 0)).
  unfold modify, bind, ret. cbn [size_ with_end with_data]. rewrite Hs2. do 3 f_equal. unfold header_for, e. by rewrite Hc2.
Qed.

Lemma appended_fields s id e A B :
  data_ (appended s id e A B) = Some (A ++ entry_bytes e ++ B) /\ start_ (appended s id e A B) = start_ s /\
  len_ (appended s id e A B) = len_ s /\ id_counter_ (appended s id e A B) = id_counter_ (counted id s).
Proof. unfold appended, counted. destruct (_ <=? _), (id >=? 0); by cbn. Qed.

Lemma appended_fits s id e A B : end_ s + esize e < len_ s -> 0 <= end_ s ->
  end_ (appended s id e A B) = end_ s + esize e /\ skip_ (appended s id e A B) = skip_ s.
Proof.
  intros H H0. pose proof (esize_pos e). unfold appended, counted. rewrite (proj2 (Z.leb_le _ _)) by lia.
  destruct (id >=? 0); cbn [end_ skip_ with_size with_end with_data with_id_counter]; rewrite Z.mod_small by lia; done.
Qed.

Lemma appended_wraps s id e A B : len_ s < end_ s + esize e ->
  end_ (appended s id e A B) = esize e /\ skip_ (appended s id e A B) = end_ s.
Proof.
  intros H. unfold appended, counted. rewrite (proj2 (Z.leb_gt _ _)) by lia. by destruct (id >=? 0).
Qed.

Lemma lsize_one e : lsize [e] = esize e.
Proof. rewrite lsize_cons, lsize_nil. lia. Qed.

Lemma log_bytes_one e : log_bytes [e] = entry_bytes e.
Proof. unfold log_bytes. cbn. by rewrite app_nil_r. Qed.

(** Where the new entry goes. *)
Lemma append_layout s log id e : rep s log -> esize e <= available_space s -> end_ s + esize e <> len_ s ->
  exists A G B, data_ s = Some (A ++ G ++ B) /\ zlen G = esize e /\
    zlen A = (if end_ s + esize e <=? len_ s then end_ s else 0) /\ layout (appended s id e A B) (log ++ [e]).
Proof.
  intros Hr Hroom Hexact. pose proof (esize_pos e) as He36. pose proof (rep_empty_iff _ _ Hr) as Hemp.
  destruct Hr as (Hl & _ & d & Hd & Hlen & Hpos). pose proof (lsize_length log) as Hlog.
  inversion Hl as [pre log' post Hd' Hs He Hk Hp Hn|e1 l1 e2 l2 mid post Hd' Hs He Hk Hm Hp]; subst;
    rewrite Hd' in Hd; apply (inj Some) in Hd; subst d; rewrite !length_app, !Nat2Z.inj_add in Hlen.
  - fold (lsize log) in Hlen. destruct (Z.leb_spec (end_ s + esize e) (len_ s)) as [Hfit|Hfit].
    + destruct (split_at post (esize e) ltac:(lia)) as (G & B & -> & HG). rewrite length_app in Hlen.
      exists (pre ++ log_bytes log), G, B. split; [by rewrite Hd', <- !app_assoc|]. split; [done|].
      split; [rewrite length_app, Nat2Z.inj_add; fold (lsize log); lia|].
      destruct (appended_fields s id e (pre ++ log_bytes log) B) as (Ad & As & _ & _).
      destruct (appended_fits s id e (pre ++ log_bytes log) B ltac:(lia) ltac:(lia)) as (Ae & Ak).
      apply (run _ pre (log ++ [e]) B); [|by rewrite As|rewrite Ae, lsize_app, lsize_one; lia|by rewrite Ak| |by destruct log].
      * by rewrite Ad, log_bytes_app, log_bytes_one, <- !app_assoc.
      * intros ->. cbn in Hlen. lia.
    + unfold available_space in Hroom. rewrite Hemp in Hroom. destruct (bool_decide_reflect (log = [])) as [Hnil|Hne].
      { subst log. rewrite (Hn eq_refl), lsize_nil in *. rewrite to_u64_small in Hroom by lia. cbn in He. lia. }
      apply neq_nil_len in Hne as Hlt. apply neq_nil_len in Hp as Hp'.
      rewrite (proj2 (Z.ltb_lt _ _)) in Hroom by lia. rewrite (to_u64_small (end_ s + 1)), to_u64_small in Hroom by lia.
      assert (Hstart : esize e <= start_ s - 1) by (destruct (start_ s =? 0) eqn:Es; zbool; lia).
      destruct (split_at pre (esize e) ltac:(lia)) as (G & mid & -> & HG). rewrite length_app in *.
      exists [], G, (mid ++ log_bytes log ++ post). split; [by rewrite Hd', <- !app_assoc|]. split; [done|]. split; [done|].
      destruct (appended_fields s id e [] (mid ++ log_bytes log ++ post)) as (Ad & As & _ & _).
      destruct (appended_wraps s id e [] (mid ++ log_bytes log ++ post) ltac:(lia)) as (Ae & Ak).
      destruct log as [|e1 l1]; [done|]. apply (wrapped _ e1 l1 e [] mid post); rewrite ?lsize_one, ?log_bytes_one; try done.
      * rewrite As. lia.
      * rewrite Ak. lia.
      * intros ->. cbn in *. lia.
      * lia.
  - fold (lsize (e1 :: l1)) (lsize (e2 :: l2)) in Hlen. pose proof (lsize_length (e1 :: l1)). pose proof (lsize_length (e2 :: l2)).
    apply neq_nil_len in Hm as Hm'. unfold available_space in Hroom. rewrite Hemp in Hroom. cbn [app] in Hroom. rewrite bool_decide_eq_false_2 in Hroom by done.
    rewrite (proj2 (Z.ltb_ge _ _)) in Hroom by lia. rewrite to_u64_small in Hroom by lia.
    rewrite (proj2 (Z.leb_le _ _)) by lia.
    destruct (split_at mid (esize e) ltac:(lia)) as (G & mid' & -> & HG). rewrite length_app in *.
    exists (log_bytes (e2 :: l2)), G, (mid' ++ log_bytes (e1 :: l1) ++ post). split; [by rewrite Hd', <- !app_assoc|]. split; [done|].
    split; [by rewrite He|].
    destruct (appended_fields s id e (log_bytes (e2 :: l2)) (mid' ++ log_bytes (e1 :: l1) ++ post)) as (Ad & As & _ & _).
    destruct (appended_fits s id e (log_bytes (e2 :: l2)) (mid' ++ log_bytes (e1 :: l1) ++ post) ltac:(lia) ltac:(lia)) as (Ae & Ak).
    rewrite <- app_assoc. apply (wrapped _ e1 l1 e2 (l2 ++ [e]) mid' post); rewrite ?app_comm_cons, ?lsize_app, ?lsize_one; try done.
    * by rewrite Ad, log_bytes_app, log_bytes_one, <- !app_assoc.
    * rewrite As. lia.
    * rewrite Ae. lia.
    * rewrite Ak. lia.
    * intros ->. cbn in *. lia.
Qed.

(** The entry that [push_back] makes. *)
Definition pushed (s : storage) (now : Z * Z) (what id secs nsecs : Z) (bs : list Z) : entry :=
  mkEntry (header_for s now (zlen bs) what id secs nsecs) bs.

Lemma push_back_rep s log now what id secs nsecs bs :
  let e := pushed s now what id secs nsecs bs in
  rep s log -> good_entry e -> esize e + 1 <= len_ s -> end_ s + esize e <> len_ s ->
  exists k p s', push_back now (Some bs) (zlen bs) what id secs nsecs s = Ok (Some p) s' /\ rep s' (drop k log ++ [e]) /\
    len_ s' = len_ s /\ id_counter_ s' = id_counter_ (counted id s) /\
    (esize e <= available_space s -> k = 0%nat /\ start_ s' = start_ s).
Proof.
  intros e Hr Hg Hfit Hexact. destruct (rep_len _ _ Hr) as [Hpos Hlog]. pose proof (lsize_length log).
  pose proof (esize_pos e) as He36. unfold push_back, bind at 1, get. cbv beta iota zeta.
  assert (Htot : to_u 64 (zlen bs + sizeof_chunk) = esize e).
  { change sizeof_chunk with 36. unfold esize in *. change (e_data e) with bs in *. rewrite to_u64_small by lia. lia. }
  rewrite Htot, to_u64_small by lia. rewrite (proj2 (Z.ltb_ge _ _)) by lia.
  destruct (make_room_rep (S (Z.to_nat (len_ s))) (esize e) log s Hr) as (k & s1 & Em & Hr1 & Hk1 & Ha & He & Hk); [lia..|].
  rewrite (bind_Ok _ _ _ _ _ Em). destruct Hk1 as (Hd1 & Hl1 & Hi1).
  assert (Ee : e = mkEntry (header_for s1 now (zlen bs) what id secs nsecs) bs) by (unfold e, pushed, header_for; by rewrite Hi1).
  destruct (append_layout s1 (drop k log) id e Hr1 Ha) as (A & G & B & Hd & HG & HA & Hlay).
  { rewrite Hl1. destruct He as [->| ->]; [done|]. unfold esize in *. lia. }
  pose proof (append_chunk_runs s1 now (zlen bs) what id secs nsecs bs A G B eq_refl Hd) as Hrun.
  rewrite <- Ee in Hrun. specialize (Hrun HG HA). rewrite (bind_Ok _ _ _ _ _ Hrun).
  destruct (appended_fields s1 id e A B) as (Ad & As & Al & Ac).
  exists k, (zlen A), (appended s1 id e A B). split; [done|]. split; [|split; [by rewrite Al|split; [|]]].
  - split; [done|]. split; [apply Forall_app; split; [by apply Hr1|by constructor]|].
    eexists. split; [exact Ad|]. rewrite Al, Hl1. split; [|done]. destruct Hr1 as (_ & _ & d & Hd' & Hlen & _).
    rewrite <- Hl1, Hlen. rewrite Hd in Hd'. apply (inj Some) in Hd'. subst d.
    rewrite !length_app, !Nat2Z.inj_add, HG, entry_bytes_length. lia.
  - rewrite Ac. unfold counted. destruct (id >=? 0); cbn; by rewrite Hi1.
  - intros Hle. specialize (Hk Hle). subst k. split; [done|]. rewrite As.
    cbn [make_room] in Em. unfold bind at 1, get in Em. cbv beta iota in Em. rewrite (proj2 (Z.ltb_ge _ _)) in Em by lia.
    unfold ret in Em. by apply Ok_state in Em as ->.
Qed.

(** ** Walking *)

Section walk.
Context {T : Type} (f : entry -> M T bool).

(** The calls of [f], until one says stop. *)
Fixpoint visit (log : list entry) : M T bool :=
  match log with
  | [] => ret true
  | e :: log' => let! go := f e in if go then visit log' else ret false
  end.

(** The chunks from an offset on are those of the entries. *)
Inductive chain (s : storage) : option Z -> list entry -> Prop :=
| chain_end : chain s None []
| chain_step o e o' log : at_ofs s o e -> good_entry e -> next s o = Some o' -> chain s o' log -> chain s (Some o) (e :: log).

Lemma for_each_chain s o log fuel t : chain s o log -> (length log <= fuel)%nat ->
  for_each_ext_from fuel s f o t = visit log t.
Proof.
  intros Hc. revert fuel t. induction Hc as [|o e o' log Hat Hg Hn Hc IH]; intros fuel t Hf; destruct fuel; cbn in Hf; try done; [lia|].
  cbn [for_each_ext_from visit]. destruct (at_ofs_load s o e Hat Hg) as [_ ->]. cbn [of_option]. rewrite bind_ret_l, !bind_unfold.
  destruct (f e t) as [[] t'| | |]; try done. rewrite Hn. cbn [of_option]. rewrite bind_ret_l. apply IH. lia.
Qed.
End walk.

(** Where the walk goes from the end of a chunk. *)
Definition goes_to (s : storage) (o : Z) : option (option Z) :=
  let o := if negb (skip_ s =? 0) && (o =? skip_ s) then 0 else o in
  if o =? end_ s then Some None else match chunk_len s o with Some _ => Some (Some o) | None => None end.

Lemma next_goes s o e : at_ofs s o e -> good_entry e -> 0 <= o -> o + esize e < 2 ^ 63 -> next s o = goes_to s (o + esize e).
Proof.
  intros Hat Hg Ho Hs. destruct (at_ofs_load s o e Hat Hg) as [Hl _]. unfold next. rewrite Hl.
  replace (to_u 64 (o + zlen (e_data e) + sizeof_chunk)) with (o + esize e) by (rewrite to_u64_small; unfold esize in *; change sizeof_chunk with 36; lia).
  rewrite (proj2 (Z.eqb_neq (o + esize e) (zlen (e_data e)))) by (unfold esize; lia). by rewrite orb_false_r.
Qed.

Lemma chain_stretch s tl tgt Y log : forall X, data_ s = Some (X ++ log_bytes log ++ Y) -> Forall good_entry log -> log <> [] ->
  zlen X + lsize log < 2 ^ 63 ->
  (forall x, zlen X < x < zlen X + lsize log -> x <> end_ s /\ (skip_ s = 0 \/ x <> skip_ s)) ->
  goes_to s (zlen X + lsize log) = Some tgt -> chain s tgt tl -> chain s (Some (zlen X)) (log ++ tl).
Proof.
  induction log as [|e log IH]; intros X Hd Hg Hne Hb Hin Hlast Htl; [done|]. apply Forall_cons in Hg as [Hge Hg].
  pose proof (esize_pos e) as Hpe. rewrite lsize_cons in *.
  assert (Hat : at_ofs s (zlen X) e).
  { exists X, (log_bytes log ++ Y). by rewrite Hd, log_bytes_cons, <- !app_assoc. }
  assert (HX : zlen (X ++ entry_bytes e) = zlen X + esize e) by (rewrite length_app, Nat2Z.inj_add, entry_bytes_length; lia).
  assert (Hd' : data_ s = Some ((X ++ entry_bytes e) ++ log_bytes log ++ Y)) by (by rewrite Hd, log_bytes_cons, <- !app_assoc).
  destruct log as [|e' log].
  - rewrite lsize_nil, Z.add_0_r in Hlast. apply (chain_step s _ e tgt tl); [done|done| |done]. rewrite (next_goes s _ e); [done..|lia|rewrite lsize_nil in Hb; lia].
  - pose proof (esize_pos e'). rewrite (lsize_cons e' log) in *. pose proof (lsize_length log).
    destruct (Hin (zlen X + esize e) ltac:(lia)) as [Hend Hskip].
    assert (Hat' : at_ofs s (zlen X + esize e) e').
    { exists (X ++ entry_bytes e), (log_bytes log ++ Y). by rewrite Hd', log_bytes_cons, <- !app_assoc. }
    apply Forall_cons in Hg as Hg'. destruct (at_ofs_load s _ e' Hat' (proj1 Hg')) as [Hlen _].
    apply (chain_step s _ e (Some (zlen X + esize e))); [done|done| |].
    + rewrite (next_goes s _ e) by (done || lia). unfold goes_to.
      replace (negb (skip_ s =? 0) && _) with false by (symmetry; destruct Hskip as [->|Hk]; [done|]; apply andb_false_intro2; by apply Z.eqb_neq).
      cbv zeta. rewrite (proj2 (Z.eqb_neq _ (end_ s))) by done. by rewrite Hlen.
    + rewrite <- HX. apply IH; try done; rewrite HX, ?lsize_cons; [lia| |by rewrite <- Z.add_assoc].
      intros x Hx. apply Hin. lia.
Qed.

Lemma rep_chain s log : rep s log -> chain s (front s) log.
Proof.
  intros Hr. pose proof (rep_empty_iff _ _ Hr) as Hemp. unfold front. rewrite Hemp.
  destruct (bool_decide_reflect (log = [])) as [->|Hne]; [constructor|]. destruct (rep_len _ _ Hr) as [Hpos Hlog].
  destruct Hr as (Hl & Hg & d & Hd & Hlen & _).
  inversion Hl as [pre log' post Hd' Hs He Hk Hp Hn|e1 l1 e2 l2 mid post Hd' Hs He Hk Hm Hp]; subst;
    rewrite Hd' in Hd; apply (inj Some) in Hd; subst d; rewrite !length_app, !Nat2Z.inj_add in Hlen.
  - fold (lsize log) in Hlen. rewrite Hs. rewrite <- (app_nil_r log).
    apply (chain_stretch s [] None post log pre); try done; [lia| | |constructor].
    { intros x Hx. rewrite Hk. split; [lia|by left]. }
    unfold goes_to. rewrite Hk. cbn [Z.eqb negb andb]. by rewrite He, Z.eqb_refl.
  - fold (lsize (e1 :: l1)) (lsize (e2 :: l2)) in Hlen. apply neq_nil_len in Hm as Hm'. apply Forall_app in Hg as [Hg1 Hg2].
    pose proof (lsize_length (e1 :: l1)). pose proof (lsize_length (e2 :: l2)). cbn [length] in *.
    assert (Hstart : start_ s = zlen (log_bytes (e2 :: l2) ++ mid)) by (rewrite Hs, length_app; unfold lsize; lia). rewrite Hstart.
    apply (chain_stretch s _ (Some 0) post (e1 :: l1) (log_bytes (e2 :: l2) ++ mid)); try done; rewrite <- ?Hstart.
    + by rewrite Hd', <- !app_assoc.
    + lia.
    + intros x Hx. split; [lia|]. right. lia.
    + unfold goes_to. rewrite (proj2 (Z.eqb_neq (skip_ s) 0)) by lia. rewrite (proj2 (Z.eqb_eq _ (skip_ s))) by lia. cbn [negb andb].
      rewrite (proj2 (Z.eqb_neq 0 _)) by lia.
      assert (Hat : at_ofs s 0 e2) by (by eapply (run_at s [] [] e2 l2)).
      apply Forall_cons in Hg2 as [Hg2 _]. by destruct (at_ofs_load s 0 e2 Hat Hg2) as [-> _].
    + change (Some 0) with (Some (zlen (@nil Z))). rewrite <- (app_nil_r (e2 :: l2)).
      apply (chain_stretch s [] None (mid ++ log_bytes (e1 :: l1) ++ post) (e2 :: l2) []); try done; [cbn; lia| | |constructor].
      * intros x Hx. cbn in Hx. split; [lia|right; lia].
      * unfold goes_to. cbn [length Z.of_nat]. rewrite Z.add_0_l, (proj2 (Z.eqb_neq (lsize (e2 :: l2)) (skip_ s))) by lia.
        rewrite andb_false_r. by rewrite He, Z.eqb_refl.
Qed.

(** Walking over a storage calls the function for its entries. *)
Lemma for_each_rep {T} s log (f : entry -> M T bool) fuel t : rep s log -> (length log <= fuel)%nat ->
  for_each_ext fuel s f t = visit f log t.
Proof. intros Hr Hf. apply for_each_chain; [by apply rep_chain|done]. Qed.

(** C15: the block of log entries is a queue that forgets its oldest entries: appending
    drops as many of them as are in the way, and none as long as the block is less than
    half full; the new entry is the last one; walking over the block gives the entries in
    order and popping takes the first one, wherever the block wraps around. The one
    condition is that the new chunk does not end exactly at the end of the block. *)
Theorem storage_refines_log s log now what id secs nsecs bs :
  let e := pushed s now what id secs nsecs bs in
  rep s log -> good_entry e -> esize e + 1 <= len_ s -> end_ s + esize e <> len_ s ->
  exists k p s', push_back now (Some bs) (zlen bs) what id secs nsecs s = Ok (Some p) s' /\ rep s' (drop k log ++ [e]) /\
    (2 * (lsize log + esize e) + 2 <= len_ s -> k = 0%nat) /\
    (forall T (f : entry -> M T bool) t, for_each_ext (S (Z.to_nat (len_ s'))) s' f t = visit f (drop k log ++ [e]) t) /\
    (forall e1 log1, drop k log ++ [e] = e1 :: log1 ->
      front s' = Some (start_ s') /\ entry_at s' (start_ s') = Some e1 /\
      exists s'', storage_pop s' = Ok tt s'' /\ rep s'' log1).
Proof.
  intros e Hr Hg Hfit Hexact. destruct (push_back_rep s log now what id secs nsecs bs Hr Hg Hfit Hexact) as (k & p & s' & Ep & Hr' & Hl & _ & Hk).
  fold e in Hr', Hk.
  destruct (rep_len _ _ Hr') as [Hpos Hlog]. pose proof (lsize_length (drop k log ++ [e])).
  exists k, p, s'. split; [done|]. split; [done|]. split; [|split].
  - intros Hhalf. apply Hk. pose proof (available_half s log Hr). fold e. lia.
  - intros T f t. apply for_each_rep; [done|]. fold e. lia.
  - intros e1 log1 Heq. rewrite Heq in *. pose proof (rep_chain _ _ Hr') as Hc. inversion Hc as [|o e' o' l' Hat Hge Hn _ Ho]; subst.
    assert (Hst : o = start_ s') by (unfold front in Ho; destruct (storage_empty s'); congruence). subst o. split; [done|].
    split; [by apply at_ofs_load|]. destruct (storage_pop_rep s' e1 log1 Hr') as (s'' & E & Hr'' & _). by exists s''.
Qed.

(** ** A block that is filled to its last byte *)

Lemma stretch_runs_out {T} s Y log : forall X fuel (t : T), data_ s = Some (X ++ log_bytes log ++ Y) -> Forall good_entry log -> log <> [] ->
  zlen X + lsize log < 2 ^ 63 -> skip_ s = 0 -> (forall x, zlen X < x < zlen X + lsize log -> x <> end_ s) ->
  goes_to s (zlen X + lsize log) = None -> (length log <= fuel)%nat ->
  for_each_ext_from fuel s (fun _ => ret true) (Some (zlen X)) t = Undef.
Proof.
  induction log as [|e log IH]; intros X fuel t Hd Hg Hne Hb Hk Hin Hlast Hf; [done|]. apply Forall_cons in Hg as [Hge Hg].
  destruct fuel as [|fuel]; [cbn in Hf; lia|]. pose proof (esize_pos e) as Hpe. rewrite lsize_cons in *. pose proof (lsize_length log).
  assert (Hat : at_ofs s (zlen X) e).
  { exists X, (log_bytes log ++ Y). by rewrite Hd, log_bytes_cons, <- !app_assoc. }
  cbn [for_each_ext_from]. destruct (at_ofs_load s _ e Hat Hge) as [_ ->]. cbn [of_option]. rewrite !bind_ret_l.
  rewrite (next_goes s _ e) by (done || lia). destruct log as [|e' log].
  - rewrite lsize_nil, Z.add_0_r in Hlast. by rewrite Hlast.
  - pose proof (esize_pos e'). rewrite (lsize_cons e' log) in *. pose proof (lsize_length log).
    assert (HX : zlen (X ++ entry_bytes e) = zlen X + esize e) by (rewrite length_app, Nat2Z.inj_add, entry_bytes_length; lia).
    assert (Hd' : data_ s = Some ((X ++ entry_bytes e) ++ log_bytes (e' :: log) ++ Y)) by (by rewrite Hd, (log_bytes_cons e), <- !app_assoc).
    assert (Hat' : at_ofs s (zlen X + esize e) e').
    { exists (X ++ entry_bytes e), (log_bytes log ++ Y). by rewrite Hd', log_bytes_cons, <- !app_assoc. }
    apply Forall_cons in Hg as Hg'. destruct (at_ofs_load s _ e' Hat' (proj1 Hg')) as [Hlen _].
    unfold goes_to. rewrite Hk. cbn [Z.eqb negb andb]. cbv zeta.
    rewrite (proj2 (Z.eqb_neq _ (end_ s))) by (apply Hin; lia). rewrite Hlen. cbn [of_option]. rewrite bind_ret_l, <- HX.
    apply IH; try done; rewrite ?HX, ?(lsize_cons e'); [lia| |by rewrite <- Z.add_assoc|cbn in *; lia].
    intros x Hx. apply Hin. lia.
Qed.

(** A chunk that fills the block to its last byte breaks the walk: the end moves to the
    beginning of the block without a mark where the entries stop, and the code that looks
    for the next chunk reads behind the block. *)
Theorem full_block_misread s log now what id secs nsecs bs {T} (t : T) :
  let e := pushed s now what id secs nsecs bs in
  rep s log -> good_entry e -> esize e <= available_space s -> end_ s + esize e = len_ s ->
  exists p s', push_back now (Some bs) (zlen bs) what id secs nsecs s = Ok (Some p) s' /\ end_ s' = 0 /\
    for_each_ext (S (Z.to_nat (len_ s'))) s' (fun _ => ret true) t = Undef.
Proof.
  intros e Hr Hg Hroom Hexact. destruct (rep_len _ _ Hr) as [Hpos Hlog]. pose proof (esize_pos e) as He36.
  pose proof (rep_empty_iff _ _ Hr) as Hemp. destruct Hr as (Hl & Hgl & d & Hd & Hlen & _). pose proof (lsize_length log) as Hll.
  assert (Hrun : exists pre post, data_ s = Some (pre ++ log_bytes log ++ post) /\ start_ s = zlen pre /\ end_ s = zlen pre + lsize log /\
    skip_ s = 0 /\ log <> [] /\ zlen post = esize e /\ esize e <= start_ s - 1).
  { unfold available_space in Hroom. rewrite Hemp in Hroom.
    inversion Hl as [pre log' post Hd' Hs He Hk Hp Hn|e1 l1 e2 l2 mid post Hd' Hs He Hk Hm Hp]; subst;
      rewrite Hd' in Hd; apply (inj Some) in Hd; subst d; rewrite !length_app, !Nat2Z.inj_add in Hlen.
    - fold (lsize log) in Hlen. destruct (bool_decide_reflect (log = [])) as [Hnil|Hne].
      { subst log. rewrite (Hn eq_refl), lsize_nil in *. rewrite to_u64_small in Hroom by lia. cbn in *. lia. }
      apply neq_nil_len in Hne as Hlt. apply neq_nil_len in Hp as Hp'.
      rewrite (proj2 (Z.ltb_lt _ _)) in Hroom by lia. rewrite (to_u64_small (end_ s + 1)), to_u64_small in Hroom by lia.
      exists pre, post. repeat split; try done; [lia|]. destruct (start_ s =? 0) eqn:Es; zbool; lia.
    - fold (lsize (e1 :: l1)) (lsize (e2 :: l2)) in Hlen. apply neq_nil_len in Hm. cbn [app] in Hroom. rewrite bool_decide_eq_false_2 in Hroom by done.
      exfalso. pose proof (lsize_length (e1 :: l1)). pose proof (lsize_length (e2 :: l2)).
      rewrite (proj2 (Z.ltb_ge _ _)) in Hroom by lia. rewrite to_u64_small in Hroom by lia. lia. }
  destruct Hrun as (pre & post & Hd' & Hs & He & Hk & Hne & Hpost & Hstart).
  pose proof (append_chunk_runs s now (zlen bs) what id secs nsecs bs (pre ++ log_bytes log) post [] eq_refl) as Happ.
  fold (pushed s now what id secs nsecs bs) in Happ. fold e in Happ.
  assert (HA : zlen (pre ++ log_bytes log) = end_ s) by (rewrite length_app; unfold lsize in *; lia).
  specialize (Happ ltac:(by rewrite Hd', app_nil_r, <- app_assoc) Hpost).
  rewrite (proj2 (Z.leb_le _ _)) in Happ by lia. specialize (Happ HA).
  set (s' := appended s id e (pre ++ log_bytes log) []) in *. exists (zlen (pre ++ log_bytes log)), s'.
  destruct (appended_fields s id e (pre ++ log_bytes log) []) as (Ad & As & Al & _). fold s' in Ad, As, Al.
  assert (Hend : end_ s' = 0 /\ skip_ s' = 0).
  { unfold s', appended. rewrite (proj2 (Z.leb_le _ _)) by lia. rewrite Hexact, Z.mod_same by lia. unfold counted. by destruct (id >=? 0). }
  destruct Hend as [Hend Hskip]. split; [|split; [done|]].
  - unfold push_back, bind at 1, get. cbv beta iota zeta.
    assert (Htot : to_u 64 (zlen bs + sizeof_chunk) = esize e).
    { change sizeof_chunk with 36. unfold esize in *. change (e_data e) with bs in *. rewrite to_u64_small by lia. lia. }
    rewrite Htot, to_u64_small by lia. rewrite (proj2 (Z.ltb_ge _ _)) by lia.
    rewrite (bind_Ok _ _ s tt s).
    + by rewrite (bind_Ok _ _ _ _ _ Happ).
    + cbn [make_room]. unfold bind at 1, get. cbv beta iota. by rewrite (proj2 (Z.ltb_ge _ _)) by lia.
  - assert (Hfront : front s' = Some (zlen pre)).
    { unfold front, storage_empty. rewrite As, Hend, Hs. by rewrite (proj2 (Z.eqb_neq _ _)) by lia. }
    unfold for_each_ext. rewrite Hfront.
    assert (Hdl : data_ s' = Some (pre ++ log_bytes (log ++ [e]) ++ [])) by (by rewrite Ad, log_bytes_app, log_bytes_one, <- !app_assoc).
    apply (stretch_runs_out s' [] (log ++ [e]) pre); try done.
    + apply Forall_app. split; [done|by constructor].
    + by destruct log.
    + rewrite lsize_app, lsize_one. lia.
    + intros x Hx. lia.
    + unfold goes_to. rewrite Hskip. cbn [Z.eqb negb andb]. cbv zeta. rewrite Hend, lsize_app, lsize_one.
      rewrite (proj2 (Z.eqb_neq _ _)) by lia. unfold chunk_len, load. rewrite Hdl. unfold slice_get, in_bounds.
      replace (_ && _) with false; [done|]. symmetry. apply andb_false_intro2, Z.leb_gt.
      rewrite !length_app, log_bytes_app, log_bytes_one, length_app. cbn [length]. rewrite Nat.add_0_r, !Nat2Z.inj_add, entry_bytes_length.
      fold (lsize log). change (Z.of_nat (Z.to_nat 8)) with 8. lia.
    + rewrite length_app. cbn [length]. lia.
Qed.
