(* ===== verification/LivelogTransfer.v ===== *)
(** * LivelogTransfer: what is logged arrives

    The block of the logging thread, the ring of blocks and the storage of the consumers
    together hold what was logged, in order. *)

From S2P Require Import Prelude MachineInt Websocket Nmp Livelog LivelogSpec.

#[local] Abbreviation zlen l := (Z.of_nat (length l)).

(** ** write_ext is push_back with the bytes *)

Definition ext_result (o : outcome storage (option Z)) : outcome storage bool :=
  match o with
  | Ok (Some _) s => Ok true s
  | Ok None s => Ok false s
  | Throw e s => Throw e s
  | Undef => Undef
  | OutOfFuel => OutOfFuel
  end.

Lemma store_modify (g : storage -> storage) ofs bs s :
  (forall s, data_ (g s) = data_ s) -> (forall x s, g (with_data x s) = with_data x (g s)) ->
  store ofs bs (g s) = match store ofs bs s with Ok a s' => Ok a (g s') | o => o end.
Proof.
  intros Hd Hc. unfold store. rewrite Hd. destruct (data_ s) as [d|]; [|done]. destruct (slice_set d ofs bs); [|done]. by rewrite Hc.
Qed.

Lemma append_then_store now bs tot n what id secs nsecs s : n = zlen bs ->
  (let! p := append_chunk now None tot n what id secs nsecs in do! store (p + sizeof_chunk) bs in ret p) s =
  append_chunk now (Some bs) tot n what id secs nsecs s.
Proof.
  intros ->. unfold append_chunk, copy_data. rewrite slice_get_Some, Nat2Z.id, drop_0, firstn_all by lia. cbn [of_option].
  unfold bind, get, modify, ret. cbv beta iota zeta. set (fits := _ <=? _).
  destruct fits;
    (destruct (write_chunk _ _ _ _ _ _ _ _) as [[] s1| | |]; [|done..]);
    rewrite (store_modify (fun s => with_size (to_u 64 (size_ s + 1)) s)) by done;
    rewrite (store_modify (with_end _)) by done; by destruct (store _ bs s1) as [[]| | |].
Qed.

(** A function that writes all bytes of a new chunk does what [push_back] does with them. *)
Lemma write_ext_push now bs n what id s : n = zlen bs ->
  (let! r := push_back now None n what id 0 0 in
   match r with None => ret false | Some p => do! store (p + sizeof_chunk) bs in ret true end) s =
  ext_result (push_back now (Some bs) n what id 0 0 s).
Proof.
  intros Hn. pose proof (append_then_store now bs (to_u 64 (n + sizeof_chunk)) n what id 0 0) as Ha.
  unfold push_back. unfold bind, get, ret in *. cbv beta iota zeta in *. destruct (_ <? _); [done|].
  destruct (make_room _ _ s) as [[] s1| | |]; try done. rewrite <- (Ha s1 Hn).
  destruct (append_chunk _ _ _ _ _ _ _ _ s1) as [p s2| | |]; try done. by destruct (store _ bs s2) as [[]| | |].
Qed.

(** ** What a logger holds *)

Section logger.
Context `{NewChar} (L : Z).
Hypothesis HL : 37 <= L < 2 ^ 63.

Definition block_ok (s : storage) : Prop := match data_ s with Some d => zlen d = L | None => True end.

(** The ring of blocks that wait: it starts at 0 and holds the logs in order. *)
Record waiting (r : storages) (lp : list (list entry)) : Prop := {
  wt_start : s_ r = 0;
  wt_end : e_ r = zlen lp;
  wt_size : (storages_ r = [] /\ lp = []) \/ (length (storages_ r) = 32%nat /\ (length lp <= 31)%nat);
  wt_blocks : Forall block_ok (storages_ r);
  wt_logs i log : lp !! i = Some log -> exists s, storages_ r !! i = Some s /\ rep s log /\ len_ s = L
}.

Record holds (l : logger) (lc : list entry) (lp : list (list entry)) (lt : list entry) : Prop := {
  hd_cis : rep (cis l) lc;
  hd_cis_start : start_ (cis l) = 0;
  hd_cis_len : len_ (cis l) = L;
  hd_pending : waiting (pending l) lp;
  hd_moving : Forall block_ok (storages_ (moving l)) /\ (storages_ (moving l) = [] \/ length (storages_ (moving l)) = 32%nat);
  hd_trans : rep (trans l) lt;
  hd_trans_start : start_ (trans l) = 0;
  hd_through : write_through l = true
}.

(** All entries, the oldest first. *)
Definition in_order (lc : list entry) (lp : list (list entry)) (lt : list entry) : list entry := lt ++ concat lp ++ lc.

Lemma rep_block s log : rep s log -> len_ s = L -> block_ok s.
Proof. intros (_ & _ & d & Hd & Hlen & _) Hl. unfold block_ok. rewrite Hd. lia. Qed.

Lemma rep_fresh s t : zlen t = L -> data_ s = Some t -> len_ s = L -> start_ s = 0 -> end_ s = 0 -> skip_ s = 0 -> rep s [].
Proof.
  intros Ht Hd Hl Hs He Hk. split; [|split; [done|exists t; rewrite Hl; split; [done|lia]]].
  apply (run s [] [] t); try done. intros ->. cbn in Ht. lia.
Qed.

Lemma no_exact_fit s log e : rep s log -> start_ s = 0 -> esize e <= available_space s -> end_ s + esize e <> len_ s.
Proof.
  intros Hr Hs Hroom. destruct (rep_len _ _ Hr) as [Hpos _]. pose proof (esize_pos e). pose proof (rep_empty_iff _ _ Hr) as Hemp.
  destruct (bool_decide_reflect (log = [])) as [->|Hne].
  - destruct (available_nil _ Hr) as (Ha & _ & -> & _). lia.
  - unfold available_space in Hroom. rewrite Hemp, Hs in Hroom. destruct Hr as (Hl & _ & d & Hd & Hlen & _).
    inversion Hl as [pre log' post Hd' Hs' He Hk Hp Hn|e1 l1 e2 l2 mid post Hd' Hs' He Hk Hm Hp]; subst;
      rewrite Hd' in Hd; apply (inj Some) in Hd; subst d; rewrite !length_app, !Nat2Z.inj_add in Hlen.
    + fold (lsize log) in Hlen. apply neq_nil_len in Hne as Hlt. pose proof (lsize_length log). apply neq_nil_len in Hp.
      rewrite (proj2 (Z.ltb_lt _ _)) in Hroom by lia. rewrite (to_u64_small (end_ s + 1)), to_u64_small in Hroom by lia. cbn [Z.eqb] in Hroom. lia.
    + apply neq_nil_len in Hm. pose proof (lsize_length (e2 :: l2)). lia.
Qed.

Lemma move_cis_holds l lc lp lt : holds l lc lp lt -> (length lp < 31)%nat ->
  exists l', move_cis l = Ok tt l' /\ holds l' [] (lp ++ [lc]) lt /\ trans l' = trans l /\
    id_counter_ (cis l') = id_counter_ (cis l) /\ cis_moved_to_trans l' = cis_moved_to_trans l.
Proof.
  intros [Hc Hcs Hcl Hp Hm Ht Hts Hw] Hlen.
  destruct Hp as [Ps Pe Psz Pb Plog].
  (* the ring has its 32 slots *)
  set (r := if ring_size (pending l) =? 0 then mkStorages (vec_resize default_size no_storage (storages_ (pending l))) (s_ (pending l)) (e_ (pending l)) else pending l).
  assert (Hr : s_ r = 0 /\ e_ r = zlen lp /\ length (storages_ r) = 32%nat /\ Forall block_ok (storages_ r) /\
    forall i log, lp !! i = Some log -> exists s, storages_ r !! i = Some s /\ rep s log /\ len_ s = L).
  { unfold r, ring_size. destruct Psz as [[Es ->]|[Es Hlp]].
    - rewrite Es. cbn. repeat split; try done. by repeat constructor.
    - rewrite Es. cbn. by repeat split. }
  destruct Hr as (Rs & Re & Rl & Rb & Rlog).
  destruct (lookup_lt_is_Some_2 (storages_ r) (length lp)) as [slot Hslot]; [lia|].
  set (t := match data_ slot with Some d => d | None => new_char (len_ (cis l)) end).
  assert (Htl : zlen t = L).
  { rewrite Forall_lookup in Rb. specialize (Rb _ _ Hslot). unfold block_ok in Rb. unfold t. destruct (data_ slot); [done|]. rewrite new_char_length, Hcl. lia. }
  set (c := with_end 0 (with_skip 0 (with_start 0 (with_data (Some t) (cis l))))).
  set (r' := mkStorages (<[length lp := cis l]> (storages_ r)) 0 (zlen lp + 1)).
  assert (Hmove : move_to_and_clear (pending l) (cis l) = Some (r', c)).
  { unfold move_to_and_clear. fold r. unfold storage_at. rewrite Re, zlookup_of_nat, Hslot. cbn [mbind option_bind].
    unfold set_storage. rewrite zinsert_Some by lia. cbn [fmap option_fmap option_map mbind option_bind storages_ s_]. fold t. fold c.
    unfold ring_size. cbn [storages_ s_ e_]. rewrite length_insert, Rl, Nat2Z.id, Re. rewrite Z.mod_small by lia. rewrite (proj2 (Z.eqb_neq _ (s_ r))) by lia.
    by rewrite Rs. }
  exists (with_cis c (with_pending r' l)). split; [|split; [|done]].
  - unfold move_cis, bind at 1, get. cbv beta iota. by rewrite Hmove.
  - split; cbn [cis pending moving trans write_through with_cis with_pending]; try done.
    + by apply (rep_fresh c t).
    + split; cbn [s_ e_ storages_ r']; [done|rewrite length_app; cbn; lia| | |].
      * right. rewrite length_insert, length_app. cbn. lia.
      * apply Forall_insert; [done|]. by apply (rep_block _ lc).
      * intros i log. destruct (decide (i = length lp)) as [->|Hi].
        -- rewrite lookup_app_r, Nat.sub_diag by lia. intros [= <-]. exists (cis l). rewrite list_lookup_insert_eq by lia. done.
        -- intros Hl. assert (i < length lp)%nat by (apply lookup_lt_Some in Hl; rewrite length_app in Hl; cbn in Hl; lia).
           rewrite lookup_app_l in Hl by done. rewrite list_lookup_insert_ne by done. by apply Rlog.
Qed.

Lemma write_holds l lc lp lt now what bs id secs nsecs :
  let e := pushed (cis l) now what id secs nsecs bs in
  holds l lc lp lt -> (length lp < 31)%nat -> good_entry e -> esize e + 1 <= L ->
  exists l' lc' lp', logger_write now what (Some bs) (zlen bs) id secs nsecs l = Ok true l' /\ holds l' lc' lp' lt /\
    in_order lc' lp' lt = in_order lc lp lt ++ [e] /\ trans l' = trans l /\
    (length lp' <= Datatypes.S (length lp))%nat /\ id_counter_ (cis l') = id_counter_ (counted id (cis l)).
Proof.
  intros e Hh Hlp Hg Hfit. pose proof (esize_pos e) as He36. unfold logger_write, bind at 1, get. cbv beta iota.
  assert (Htot : to_u 64 (zlen bs + sizeof_chunk) = esize e).
  { change sizeof_chunk with 36. unfold esize in *. change (e_data e) with bs in *. rewrite to_u64_small by lia. lia. }
  unfold check_write_preconditions, capacity. rewrite (hd_cis_len _ _ _ _ Hh), Htot. rewrite (proj2 (Z.eqb_neq _ _)), (proj2 (Z.ltb_ge _ _)) by lia.
  cbn [negb]. unfold if_space_low_do_cis_to_trans_transfer. rewrite bind_assoc. unfold bind at 1, get. cbv beta iota.
  rewrite Htot, (hd_through _ _ _ _ Hh), andb_true_r.
  (* appending to a block with enough room *)
  assert (Hpush : forall l0 lc0 lp0, holds l0 lc0 lp0 lt -> esize e <= available_space (cis l0) -> id_counter_ (cis l0) = id_counter_ (cis l) ->
    exists l', (do! on_cis (push_back now (Some bs) (zlen bs) what id secs nsecs) in ret true) l0 = Ok true l' /\
      holds l' (lc0 ++ [e]) lp0 lt /\ trans l' = trans l0 /\ id_counter_ (cis l') = id_counter_ (counted id (cis l))).
  { intros l0 lc0 lp0 [Hc Hcs Hcl Hp Hm Ht Hts Hw] Hroom Hid.
    assert (Ee : e = pushed (cis l0) now what id secs nsecs bs) by (unfold e, pushed, header_for; by rewrite Hid).
    destruct (push_back_rep (cis l0) lc0 now what id secs nsecs bs Hc) as (k & p & s' & Ep & Hr & Hlen & Hid' & Hk); rewrite <- ?Ee; [done|lia|by apply (no_exact_fit _ lc0)|].
    rewrite <- Ee in Hr, Hk. destruct (Hk Hroom) as [-> Hst]. cbn [drop] in Hr.
    exists (with_cis s' l0). split; [|split; [|split; [done|]]].
    - unfold on_cis, bind, zoom. by rewrite Ep.
    - split; cbn [cis pending moving trans write_through with_cis]; try done; lia.
    - cbn. rewrite Hid'. unfold counted. destruct (id >=? 0); cbn; congruence. }
  destruct (Z.ltb_spec (available_space (cis l)) (esize e)) as [Hlow|Hroom].
  - destruct (move_cis_holds l lc lp lt Hh Hlp) as (l1 & Em & Hh1 & Ht1 & Hi1 & _). rewrite bind_assoc, (bind_Ok _ _ _ _ _ Em).
    rewrite bind_unfold. unfold modify at 1. set (l2 := if storages_size (pending l1) >=? _ then _ else l1).
    assert (Hl2 : cis l2 = cis l1 /\ pending l2 = pending l1 /\ moving l2 = moving l1 /\ trans l2 = trans l1 /\ write_through l2 = write_through l1) by (unfold l2; by destruct (_ >=? _)).
    destruct Hl2 as (H1 & H2 & H3 & H4 & H5).
    assert (Hh2 : holds l2 [] (lp ++ [lc]) lt) by (destruct Hh1; split; rewrite ?H1, ?H2, ?H3, ?H4, ?H5; done).
    destruct (Hpush l2 [] (lp ++ [lc]) Hh2) as (l' & E & Hh' & Ht' & Hid'); [|by rewrite H1|].
    { destruct (available_nil _ (hd_cis _ _ _ _ Hh2)) as (-> & _). rewrite (hd_cis_len _ _ _ _ Hh2). lia. }
    exists l', [e], (lp ++ [lc]). split; [exact E|]. split; [done|]. split; [|split; [by rewrite Ht', H4|split; [rewrite length_app; cbn; lia|done]]].
    unfold in_order. rewrite concat_app. cbn. by rewrite app_nil_r, <- !app_assoc.
  - rewrite bind_ret_l. destruct (Hpush l lc lp Hh ltac:(lia) eq_refl) as (l' & E & Hh' & Ht' & Hid').
    exists l', (lc ++ [e]), lp. split; [exact E|]. split; [done|]. split; [|split; [done|split; [lia|done]]]. unfold in_order. by rewrite <- !app_assoc.
Qed.

Lemma flush_holds l lc lp lt : holds l lc lp lt -> (length lp < 31)%nat ->
  exists l' lp', flush l = Ok tt l' /\ holds l' [] lp' lt /\ in_order [] lp' lt = in_order lc lp lt /\ trans l' = trans l.
Proof.
  intros Hh Hlp. unfold flush, bind at 1, get. cbv beta iota. rewrite (rep_empty_iff _ _ (hd_cis _ _ _ _ Hh)).
  destruct (bool_decide_reflect (lc = [])) as [->|Hne]; [by exists l, lp|].
  destruct (move_cis_holds l lc lp lt Hh Hlp) as (l1 & Em & [] & Ht1 & _). rewrite (bind_Ok _ _ _ _ _ Em).
  eexists _, (lp ++ [lc]). split; [reflexivity|]. split; [by split|]. split; [|done].
  unfold in_order. rewrite concat_app. cbn. by rewrite !app_nil_r.
Qed.

(** ** A round of the thread *)

Lemma ring_walk_up {S} (f : Z -> M S unit) (I : nat -> S -> Prop) (m : nat) (n : Z) :
  Z.of_nat m < n ->
  (forall i s, (i < m)%nat -> I i s -> exists s', f (Z.of_nat i) s = Ok tt s' /\ I (Datatypes.S i) s') ->
  forall k i fuel s, (i + k = m)%nat -> (k <= fuel)%nat -> I i s ->
  exists s', ring_walk fuel (Z.of_nat i) (Z.of_nat m) n f s = Ok tt s' /\ I m s'.
Proof.
  intros Hn Hstep k. induction k as [|k IH]; intros i fuel s Hi Hf HI.
  - assert (i = m) as -> by lia. exists s. split; [|done]. destruct fuel; cbn [ring_walk]; by rewrite Z.eqb_refl.
  - destruct fuel as [|fuel]; [lia|]. cbn [ring_walk]. rewrite (proj2 (Z.eqb_neq _ _)) by lia.
    destruct (Hstep i s ltac:(lia) HI) as (s1 & E & HI1). rewrite (bind_Ok _ _ _ _ _ E).
    replace ((Z.of_nat i + 1) mod n) with (Z.of_nat (Datatypes.S i)) by (rewrite Z.mod_small; lia). apply IH; [lia|lia|done].
Qed.

Lemma available_from_start s log : rep s log -> start_ s = 0 -> available_space s = len_ s - lsize log - 1.
Proof.
  intros Hr Hs. destruct (rep_len _ _ Hr) as [Hpos _]. pose proof (rep_empty_iff _ _ Hr) as Hemp.
  destruct (bool_decide_reflect (log = [])) as [->|Hne].
  - destruct (available_nil _ Hr) as (-> & _). rewrite lsize_nil. lia.
  - unfold available_space. rewrite Hemp, Hs. destruct Hr as (Hl & _ & d & Hd & Hlen & _).
    inversion Hl as [pre log' post Hd' Hs' He Hk Hp Hn|e1 l1 e2 l2 mid post Hd' Hs' He Hk Hm Hp]; subst;
      rewrite Hd' in Hd; apply (inj Some) in Hd; subst d; rewrite !length_app, !Nat2Z.inj_add in Hlen.
    + fold (lsize log) in Hlen. apply neq_nil_len in Hne as Hlt. pose proof (lsize_length log). apply neq_nil_len in Hp.
      rewrite (proj2 (Z.ltb_lt _ _)) by lia. rewrite (to_u64_small (end_ s + 1)), to_u64_small by lia. cbn [Z.eqb]. lia.
    + apply neq_nil_len in Hm. pose proof (lsize_length (e2 :: l2)). lia.
Qed.

(** An entry with an id and a time of its own. *)
Definition stamped (e : entry) : Prop := 0 <= c_id (e_header e) /\ c_secs (e_header e) <> 0.

Lemma pushed_stamped s now e : good_entry e -> stamped e ->
  let h := e_header e in pushed s now (c_what h) (c_id h) (c_secs h) (c_nsecs h) (e_data e) = e.
Proof.
  intros [_ Hl] [Hi Hs]. destruct e as [[l i w s1 n1] d]. cbn in *. unfold pushed, header_for.
  rewrite (proj2 (Z.geb_le _ _)), (proj2 (Z.eqb_neq _ _)) by done. by rewrite Hl.
Qed.

Lemma push_entries now log : forall l lt, rep (trans l) lt -> start_ (trans l) = 0 -> Forall good_entry log -> Forall stamped log ->
  lsize (lt ++ log) < len_ (trans l) ->
  exists s', rep s' (lt ++ log) /\ start_ s' = 0 /\ len_ s' = len_ (trans l) /\
  visit (fun e => do! on_trans (do! push_back now (Some (e_data e)) (c_len (e_header e)) (c_what (e_header e)) (c_id (e_header e))
                   (c_secs (e_header e)) (c_nsecs (e_header e)) in ret tt) in ret true) log l = Ok true (with_trans s' l).
Proof.
  induction log as [|e log IH]; intros l lt Hr Hs Hg Hst Hroom.
  - exists (trans l). rewrite app_nil_r. repeat split; try done; [by apply Hr..|]. by destruct l.
  - apply Forall_cons in Hg as [Hge Hg]. apply Forall_cons in Hst as [Hse Hst]. rewrite lsize_app, lsize_cons in Hroom.
    pose proof (lsize_length log). pose proof (lsize_length lt). pose proof (esize_pos e). pose proof (available_from_start _ _ Hr Hs) as Ha.
    pose proof (pushed_stamped (trans l) now e Hge Hse) as Ee. cbv zeta in Ee.
    destruct (push_back_rep (trans l) lt now (c_what (e_header e)) (c_id (e_header e)) (c_secs (e_header e)) (c_nsecs (e_header e)) (e_data e) Hr)
      as (k & p & s1 & Ep & Hr1 & Hl1 & _ & Hk); rewrite ?Ee; [done|lia|apply (no_exact_fit _ lt); [done..|lia]|].
    rewrite Ee in Hr1, Hk. destruct (Hk ltac:(lia)) as [-> Hst1]. cbn [drop] in Hr1.
    destruct (IH (with_trans s1 l) (lt ++ [e])) as (s' & Hr' & Hs' & Hl' & Ev); cbn [trans with_trans]; [done|lia|done|done| |].
    { rewrite !lsize_app, lsize_one, Hl1. lia. }
    exists s'. rewrite <- app_assoc in Hr'. split; [done|]. split; [done|]. split; [cbn in Hl'; lia|].
    cbn [visit]. destruct Hge as [_ Hlen_e]. rewrite Hlen_e.
    rewrite bind_assoc, (bind_Ok _ _ _ tt (with_trans s1 l)).
    + rewrite bind_ret_l. by rewrite Ev.
    + unfold on_trans, zoom. by rewrite (bind_Ok _ _ _ _ _ Ep).
Qed.

(** The two phases of a round: what has been taken over, what has been copied. *)
Record taking (l0 : logger) (lp : list (list entry)) (i : nat) (l : logger) : Prop := {
  tk_frame : cis l = cis l0 /\ trans l = trans l0 /\ write_through l = write_through l0;
  tk_pending : length (storages_ (pending l)) = 32%nat /\ Forall block_ok (storages_ (pending l));
  tk_moving : s_ (moving l) = 0 /\ e_ (moving l) = zlen lp /\ length (storages_ (moving l)) = 32%nat /\ Forall block_ok (storages_ (moving l));
  tk_left j log : (i <= j)%nat -> lp !! j = Some log -> exists s, storages_ (pending l) !! j = Some s /\ rep s log /\ len_ s = L;
  tk_taken j log : (j < i)%nat -> lp !! j = Some log -> exists s, storages_ (moving l) !! j = Some s /\ rep s log /\ len_ s = L
}.

Lemma take_over_step l0 lp i l : (length lp <= 31)%nat -> (i < length lp)%nat -> taking l0 lp i l ->
  exists l', take_over (Z.of_nat i) l = Ok tt l' /\ taking l0 lp (S i) l'.
Proof.
  intros Hlp Hi [Hf [Pl Pb] (Ms & Me & Ml & Mb) Hleft Htaken]. destruct (lookup_lt_is_Some_2 lp i Hi) as [log Hlog].
  destruct (Hleft i log ltac:(lia) Hlog) as (s & Hs & Hr & Hsl).
  destruct (lookup_lt_is_Some_2 (storages_ (moving l)) i ltac:(lia)) as [slot Hslot].
  set (t := match data_ slot with Some d => d | None => new_char (len_ s) end).
  assert (Htl : zlen t = L).
  { rewrite Forall_lookup in Mb. specialize (Mb _ _ Hslot). unfold block_ok in Mb. unfold t. destruct (data_ slot); [done|]. rewrite new_char_length, Hsl. lia. }
  eexists. split.
  - unfold take_over, bind at 1, get. cbv beta iota. unfold storage_at. rewrite !zlookup_of_nat, Hs, Hslot. cbn [of_option].
    rewrite !bind_ret_l. fold t. unfold set_storage. rewrite !zinsert_Some, Nat2Z.id by lia. cbn [fmap option_fmap option_map of_option].
    rewrite !bind_ret_l. reflexivity.
  - split; cbn [cis trans write_through pending moving with_moving with_pending storages_ s_ e_]; rewrite ?length_insert.
    + done.
    + split; [done|]. by apply Forall_insert.
    + repeat split; try done. apply Forall_insert; [done|]. by apply (rep_block _ log).
    + intros j log' Hj Hl. rewrite list_lookup_insert_ne by lia. apply Hleft; [lia|done].
    + intros j log' Hj Hl. destruct (decide (j = i)) as [->|Hne].
      * rewrite list_lookup_insert_eq by lia. exists s. assert (log' = log) as -> by congruence. done.
      * rewrite list_lookup_insert_ne by done. apply Htaken; [lia|done].
Qed.

Record copying (l0 : logger) (lp : list (list entry)) (lt : list entry) (i : nat) (l : logger) : Prop := {
  cp_frame : cis l = cis l0 /\ pending l = pending l0 /\ moving l = moving l0 /\ write_through l = write_through l0;
  cp_trans : rep (trans l) (lt ++ concat (take i lp));
  cp_start : start_ (trans l) = 0;
  cp_len : len_ (trans l) = len_ (trans l0)
}.

Lemma copy_storage_step now l0 lp lt i l :
  (forall log, lp !! i = Some log -> exists s, storages_ (moving l0) !! i = Some s /\ rep s log /\ len_ s = L) ->
  (i < length lp)%nat -> Forall stamped (concat lp) -> lsize (lt ++ concat lp) < len_ (trans l0) ->
  copying l0 lp lt i l -> exists l', copy_storage now (Z.of_nat i) l = Ok tt l' /\ copying l0 lp lt (S i) l'.
Proof.
  intros Hm Hi Hst Hroom [(F1 & F2 & F3 & F4) Ht Hts Htl]. destruct (lookup_lt_is_Some_2 lp i Hi) as [log Hlog].
  destruct (Hm log Hlog) as (s & Hs & Hr & Hsl). destruct (rep_len _ _ Hr) as [Hpos Hll]. pose proof (lsize_length log).
  assert (Hsplit : concat lp = concat (take i lp) ++ log ++ concat (drop (S i) lp)).
  { rewrite <- (take_drop_middle lp i log Hlog) at 1. by rewrite concat_app. }
  assert (Hg : Forall good_entry log) by apply Hr.
  destruct (push_entries now log l (lt ++ concat (take i lp)) Ht Hts Hg) as (s' & Hr' & Hs' & Hl' & Ev).
  { rewrite Hsplit, !Forall_app in Hst. apply Hst. }
  { rewrite Hsplit, !lsize_app in Hroom. pose proof (lsize_length (concat (drop (S i) lp))). rewrite !lsize_app, Htl. lia. }
  exists (with_trans s' l). split.
  - unfold copy_storage, bind at 1, get. cbv beta iota. unfold storage_at. rewrite zlookup_of_nat, F3, Hs. cbn [of_option]. rewrite bind_ret_l.
    unfold for_each2. rewrite bind_unfold, (for_each_rep s log) by (done || lia). by rewrite Ev.
  - split; cbn [cis pending moving write_through trans with_trans]; [done| |done|lia].
    rewrite (take_S_r _ _ _ Hlog), concat_app. cbn. by rewrite app_nil_r, app_assoc.
Qed.

Lemma round_holds now l lc lp lt : holds l lc lp lt -> Forall stamped (concat lp) -> lsize (lt ++ concat lp) < len_ (trans l) ->
  exists l', trans_thread_round now l = Ok tt l' /\ holds l' lc [] (lt ++ concat lp) /\ len_ (trans l') = len_ (trans l) /\ cis l' = cis l.
Proof.
  intros Hh Hst Hroom. destruct Hh as [Hc Hcs Hcl [Ps Pe Psz Pb Plog] [Mb Ml] Ht Hts Hw].
  unfold trans_thread_round. rewrite bind_unfold. unfold modify at 1. set (l1 := with_cis_moved_to_trans false l).
  unfold bind at 1, get. cbv beta iota. change (pending l1) with (pending l). change (moving l1) with (moving l).
  unfold storages_empty. rewrite Ps, Pe. destruct lp as [|log0 lp0].
  - exists l1. cbn. split; [done|]. split; [|done]. rewrite app_nil_r. by split.
  - rewrite (proj2 (Z.eqb_neq _ _)) by (cbn; lia). set (lp := log0 :: lp0) in *. destruct Psz as [[_ Hnil]|[Pl Hlp]]; [done|].
    rewrite bind_unfold. unfold modify at 1. unfold ring_size. rewrite Pl.
    set (l2 := with_moving _ l1).
    assert (Hm2 : length (storages_ (moving l2)) = 32%nat /\ Forall block_ok (storages_ (moving l2)) /\ s_ (moving l2) = 0 /\ e_ (moving l2) = zlen lp).
    { cbn [moving l2 with_moving storages_ s_ e_]. destruct Ml as [Em|Em]; rewrite Em; cbn.
      - repeat split; try done. by repeat constructor.
      - by repeat split. }
    destruct Hm2 as (M1 & M2 & M3 & M4).
    assert (H0 : taking l2 lp 0 l2).
    { split; [done|done|done|intros j log _; apply Plog|intros j log Hj; lia]. }
    destruct (ring_walk_up take_over (taking l2 lp) (length lp) (Z.of_nat 32) ltac:(lia) (fun i s Hi => take_over_step l2 lp i s Hlp Hi)
                (length lp) 0 32 l2 eq_refl ltac:(lia) H0) as (l3 & E3 & T3).
    change (Z.of_nat 0) with 0 in E3. rewrite (bind_Ok _ _ _ _ _ E3). rewrite bind_unfold. unfold modify at 1. set (l4 := with_pending _ l3).
    unfold bind at 1, get. cbv beta iota. destruct T3 as [(F1 & F2 & F3) [G1 G2] (K1 & K2 & K3 & K4) _ Htk].
    change (moving l4) with (moving l3). rewrite K1, K2.
    assert (C0 : copying l4 lp lt 0 l4).
    { split; [done| |cbn [trans l4 with_pending]; by rewrite F2|done]. cbn [take concat]. rewrite app_nil_r.
      cbn [trans l4 with_pending]. by rewrite F2. }
    assert (Htl : trans l4 = trans l) by (cbn [trans l4 with_pending]; by rewrite F2).
    destruct (ring_walk_up (copy_storage now) (copying l4 lp lt) (length lp) (Z.of_nat 32) ltac:(lia)
                (fun i s Hi => copy_storage_step now l4 lp lt i s (fun log => Htk i log Hi) Hi Hst ltac:(by rewrite Htl))
                (length lp) 0 32 l4 eq_refl ltac:(lia) C0) as (l5 & E5 & [(C1 & C2 & C3 & C4) C5 C6 C7]).
    change (Z.of_nat 0) with 0 in E5. exists l5. split; [exact E5|]. rewrite firstn_all in C5. split; [|split; [by rewrite C7, Htl|by rewrite C1; cbn [cis l4 with_pending]; rewrite F1]].
    assert (Hcis : cis l5 = cis l) by (rewrite C1; cbn [cis l4 with_pending]; by rewrite F1).
    split; rewrite ?Hcis, ?C2, ?C3, ?C4; try done.
    + split; cbn [pending l4 with_pending s_ e_ storages_]; try done. right. split; [done|cbn; lia].
    + cbn [moving l4 with_pending]. split; [done|by right].
    + cbn [write_through l4 with_pending]. by rewrite F3.
Qed.

(** ** A run of the logger *)

Context (T : Z).

(** A new logger, and what the logging thread and the thread beside it do; before a block is
    handed on there must be a free slot in the ring. *)
Inductive logged : logger -> list entry -> Prop :=
| logged_new cis_block trans_block : zlen cis_block = L -> zlen trans_block = T -> 0 < T < 2 ^ 63 ->
    logged (new_logger cis_block trans_block) []
| logged_write l log now what bs id secs nsecs l' :
    let e := pushed (cis l) now what id secs nsecs bs in
    logged l log -> e_ (pending l) < 31 -> good_entry e -> stamped e -> esize e + 1 <= L ->
    logger_write now what (Some bs) (zlen bs) id secs nsecs l = Ok true l' -> logged l' (log ++ [e])
| logged_flush l log l' : logged l log -> e_ (pending l) < 31 -> flush l = Ok tt l' -> logged l' log
| logged_round now l log l' : logged l log -> trans_thread_round now l = Ok tt l' -> logged l' log.

Lemma logged_holds l log : logged l log -> lsize log < T ->
  Forall stamped log /\ exists lc lp lt, holds l lc lp lt /\ in_order lc lp lt = log /\ len_ (trans l) = T.
Proof.
  induction 1 as [cb tb Hcb Htb HT|l log now what bs id secs nsecs l' e Hl IH He Hg Hs Hf E|l log l' Hl IH He E|now l log l' Hl IH E]; intros Hb.
  - split; [done|]. exists [], [], []. split; [|done].
    split; cbn; try done; [apply rep_new; lia| | |apply rep_new; lia].
    + split; cbn; try done. by left.
    + split; [done|by left].
  - rewrite lsize_app, lsize_one in Hb. pose proof (esize_pos e). destruct (IH ltac:(lia)) as (IHs & lc & lp & lt & Hh & Ho & Ht).
    split; [apply Forall_app; split; [done|by constructor]|].
    destruct (write_holds l lc lp lt now what bs id secs nsecs Hh) as (l1 & lc' & lp' & E' & Hh' & Ho' & Ht' & _); [destruct Hh as [_ _ _ [] _ _ _ _]; lia|done|done|].
    rewrite E in E'. apply Ok_state in E' as ->. exists lc', lp', lt. by rewrite Ho', Ho, Ht'.
  - destruct (IH Hb) as (IHs & lc & lp & lt & Hh & Ho & Ht). split; [done|].
    destruct (flush_holds l lc lp lt Hh) as (l1 & lp' & E' & Hh' & Ho' & Ht'); [destruct Hh as [_ _ _ [] _ _ _ _]; lia|].
    rewrite E in E'. apply Ok_state in E' as ->. exists [], lp', lt. by rewrite Ho', Ho, Ht'.
  - destruct (IH Hb) as (IHs & lc & lp & lt & Hh & Ho & Ht). split; [done|].
    unfold in_order in Ho. pose proof (lsize_length lc).
    destruct (round_holds now l lc lp lt Hh) as (l1 & E' & Hh' & Hlen & _).
    + rewrite <- Ho, !Forall_app in IHs. apply IHs.
    + rewrite <- Ho, !lsize_app in Hb. rewrite lsize_app. lia.
    + rewrite E in E'. apply Ok_state in E' as ->. exists lc, [], (lt ++ concat lp). split; [done|]. split; [|lia].
      unfold in_order. cbn. by rewrite <- app_assoc.
Qed.

(** C16: what is logged arrives: whatever the logging thread and the thread beside it do in
    whatever order, the logger accepts entries that fit into its block, and a flush and a
    round of the thread leave exactly the entries logged so far, in order, in the storage of
    the consumers, as long as it can hold them and the ring of blocks has a free slot. *)
Theorem logged_arrives l log now : logged l log -> e_ (pending l) < 31 -> lsize log < T ->
  (exists l1 l2, flush l = Ok tt l1 /\ trans_thread_round now l1 = Ok tt l2 /\ rep (trans l2) log /\ cis l2 = cis l1 /\ storage_empty (cis l2) = true) /\
  (forall now what bs id secs nsecs, good_entry (pushed (cis l) now what id secs nsecs bs) -> 37 + zlen bs <= L ->
     exists l', logger_write now what (Some bs) (zlen bs) id secs nsecs l = Ok true l').
Proof.
  intros Hl He Hb. destruct (logged_holds l log Hl Hb) as (Hst & lc & lp & lt & Hh & Ho & Ht).
  assert (Hlp : (length lp < 31)%nat) by (destruct Hh as [_ _ _ [] _ _ _ _]; lia). split.
  - destruct (flush_holds l lc lp lt Hh Hlp) as (l1 & lp1 & E1 & Hh1 & Ho1 & Ht1). rewrite Ho in Ho1. unfold in_order in Ho1.
    rewrite app_nil_r in Ho1. destruct (round_holds now l1 [] lp1 lt Hh1) as (l2 & E2 & Hh2 & _ & Hc2).
    + rewrite <- Ho1, Forall_app in Hst. apply Hst.
    + rewrite Ho1, Ht1. lia.
    + exists l1, l2. split; [done|]. split; [done|]. rewrite <- Ho1. split; [apply Hh2|]. split; [done|].
      by rewrite (rep_empty_iff _ _ (hd_cis _ _ _ _ Hh2)).
  - intros now' what bs id secs nsecs Hg Hf.
    destruct (write_holds l lc lp lt now' what bs id secs nsecs Hh Hlp Hg) as (l' & _ & _ & E & _); [unfold esize; cbn; lia|]. by exists l'.
Qed.
End logger.
