(* ===== verification/LivelogSync.v ===== *)
(** * LivelogSync: entries reach the log of another process

    send_storage on one side of a connection, the loop of comm_stream_fn on the other. *)

From S2P Require Import Prelude MachineInt Ast Websocket WebsocketSpec Nmp Segments Livelog LivelogSpec.

#[local] Abbreviation zlen l := (Z.of_nat (length l)).

(** ** Sending *)

(** The entries behind the one with the id [last]. *)
Definition newer (last : Z) (e : entry) : bool := negb ((last + 1 >=? 0) && (last + 1 >? c_id (e_header e))).

Definition frame (e : entry) : list Z := encode U64 (esize e) ++ entry_bytes e.
Definition sentinel : list Z := encode U64 0.

Definition stream (log : list entry) : list Z := concat (map frame log) ++ sentinel.

(** The id of the last entry sent. *)
Definition last_id (last : Z) (log : list entry) : Z := foldl (fun _ e => c_id (e_header e)) last log.

Lemma frame_length e : zlen (frame e) = 8 + esize e.
Proof. unfold frame. rewrite length_app, encode_length, Nat2Z.inj_add, entry_bytes_length. done. Qed.

Lemma write_exactly_run {A} bs (k : M socket (option A)) s : zlen bs <= room s -> write_exactly bs k s = k (sent s bs).
Proof. intros Hr. unfold write_exactly. rewrite (bind_Ok _ _ _ _ _ (write_run s bs Hr)). by rewrite Z.eqb_refl. Qed.

Lemma send_entry_run filter e k last : good_entry e -> esize e < 2 ^ 63 ->
  (filter >=? 0) && (filter >? c_id (e_header e)) = false -> zlen (frame e) <= room k ->
  send_entry filter e (k, last) = Ok true (sent k (frame e), c_id (e_header e)).
Proof.
  intros [_ Hl] Hs Hf Hr. unfold send_entry. rewrite Hf. cbn [fst]. rewrite Hl.
  replace (to_u 64 (sizeof_chunk + zlen (e_data e))) with (esize e) by (rewrite to_u64_small; unfold esize in *; change sizeof_chunk with 36; lia).
  pose proof (frame_length e) as Hfl. pose proof (encode_length U64 (esize e)) as He. pose proof (chunk_bytes_length (e_header e)) as Hc. unfold esize in Hfl.
  assert (zlen (encode U64 (esize e)) = 8) as He' by (rewrite He; done).
  rewrite write_exactly_run by lia. rewrite write_exactly_run by (cbn [sent room]; rewrite He'; lia).
  rewrite write_exactly_run by (cbn [sent room]; rewrite He', Hc; lia). unfold ret.
  by rewrite !sent_app.
Qed.

Lemma visit_sends last log : forall k l0, Forall good_entry log -> Forall (fun e => esize e < 2 ^ 63) log ->
  zlen (concat (map frame (List.filter (newer last) log))) <= room k ->
  visit (send_entry (last + 1)) log (k, l0) =
  Ok true (sent k (concat (map frame (List.filter (newer last) log))), last_id l0 (List.filter (newer last) log)).
Proof.
  induction log as [|e log IH]; intros k l0 Hg Hs Hr; cbn [visit List.filter].
  - cbn. unfold ret, sent. cbn. rewrite app_nil_r, Z.sub_0_r. by destruct k.
  - apply Forall_cons in Hg as [Hge Hg]. apply Forall_cons in Hs as [Hse Hs]. cbn [List.filter] in Hr. rewrite bind_unfold.
    destruct (newer last e) eqn:En; unfold newer in En; [apply negb_true_iff in En as E|apply negb_false_iff in En as E]; cycle 1.
    + unfold send_entry at 1. rewrite E. by apply IH.
    + cbn [map concat] in *. rewrite length_app in Hr. rewrite (send_entry_run _ e k l0 Hge Hse E) by lia.
      rewrite IH by (try done; cbn [sent room]; lia). cbn [last_id foldl]. by rewrite sent_app.
Qed.

Lemma send_storage_run last st log k : rep st log -> zlen (stream (List.filter (newer last) log)) <= room k ->
  send_storage last st k = Ok (Some (last_id last (List.filter (newer last) log))) (sent k (stream (List.filter (newer last) log))).
Proof.
  intros Hr Hroom. destruct (rep_len _ _ Hr) as [Hpos Hlog]. pose proof (lsize_length log). unfold stream in *. rewrite length_app in Hroom.
  unfold send_storage. rewrite (for_each_rep st log) by (done || lia). rewrite visit_sends; [|apply Hr| |lia].
  - rewrite write_exactly_run by (cbn [sent room]; unfold sentinel in Hroom; lia). unfold ret. by rewrite sent_app.
  - assert (Hall : forall l, lsize l < 2 ^ 63 -> Forall (fun e => esize e < 2 ^ 63) l).
    { induction l as [|e l IH]; [done|]. rewrite lsize_cons. pose proof (lsize_length l). pose proof (esize_pos e).
      intros Hl. constructor; [lia|]. apply IH. lia. }
    apply Hall. lia.
Qed.

(** ** Receiving *)

Lemma read_data_readn fuel : forall len acc s bs s', read_data fuel len acc s = Ok (Some bs) s' -> readn_loop fuel len acc s = Ok bs s'.
Proof.
  induction fuel as [|fuel IH]; intros len acc s bs s' H; [done|]. cbn [read_data readn_loop] in *.
  destruct (zlen acc <? len); [|unfold ret in *; congruence]. rewrite bind_unfold in H. rewrite bind_unfold.
  destruct (recv _ s) as [[|b l] s1| | |]; try done. by apply IH.
Qed.

Section receiver.
Context `{NewChar} (now : Z * Z).

(** What the receiver does with an entry. *)
Definition keep_entry (e : entry) : M logger unit :=
  let c := e_header e in
  do! logger_write now (c_what c) (Some (e_data e)) (c_len c) (c_id c) (c_secs c) (c_nsecs c) in ret tt.

Lemma recv_8 k bs : incoming k = bs :: tail (incoming k) -> (8 <= length bs)%nat -> proper (incoming k) ->
  recv 8 k = Ok (take 8 (concat (incoming k))) (with_incoming (drop_bytes 8 (incoming k)) k).
Proof.
  intros Hi Hl Hp. destruct (recv_segment k bs (tail (incoming k)) 8 Hi Hp ltac:(lia)) as (hb & Hr & ->).
  change (Z.to_nat 8) with 8%nat in Hr. rewrite length_take, Nat.min_l in Hr by lia. rewrite Hr. f_equal. rewrite Hi. cbn [concat].
  by rewrite take_app_le by lia.
Qed.

Lemma read_entries_run log : forall fuel n s lg,
  Forall good_entry log -> Forall (fun e => esize e < 2 ^ 63) log -> proper (incoming (sk_socket s)) ->
  concat (incoming (sk_socket s)) = stream log ->
  headers_whole (map (fun e => length (frame e)) log ++ [8%nat]) (incoming (sk_socket s)) ->
  forM log keep_entry (sk_logger s) = Ok tt lg -> (length log < fuel)%nat ->
  read_entries fuel now n s = Ok (n + zlen log) (mkSink lg (with_incoming [] (sk_socket s)) (last_id (sk_last s) log)).
Proof.
  induction log as [|e log IH]; intros fuel n [lg0 k last] lg Hg Hs Hp Hc Hw Hkeep Hf; (destruct fuel as [|fuel]; [cbn in Hf; lia|]);
    cbn [sk_socket sk_logger sk_last map app headers_whole] in *; destruct Hw as [(seg & rest & Hseg & H8) Hw];
    pose proof (recv_8 k seg ltac:(by rewrite Hseg) H8 Hp) as Hr; cbn [read_entries];
    rewrite (bind_Ok _ _ _ (take 8 (concat (incoming k))) (mkSink lg0 (with_incoming (drop_bytes 8 (incoming k)) k) last))
      by (unfold on_sink_socket, zoom; cbn [sk_socket]; by rewrite Hr).
  - rewrite Hw, Hc. unfold stream, sentinel. cbn. unfold ret. cbn in Hkeep. unfold ret in Hkeep. apply Ok_state in Hkeep as ->.
    f_equal. lia.
  - apply Forall_cons in Hg as [Hge Hg]. apply Forall_cons in Hs as [Hse Hs]. pose proof (esize_pos e) as He36.
    assert (Hst : stream (e :: log) = encode U64 (esize e) ++ entry_bytes e ++ stream log).
    { unfold stream. cbn [map concat]. unfold frame at 1. by rewrite <- !app_assoc. }
    assert (Ht8 : take 8 (concat (incoming k)) = encode U64 (esize e)) by (rewrite Hc, Hst; by apply take_app_length').
    rewrite Ht8. change (length (encode U64 (esize e)) =? 8)%nat with true. cbn [negb].
    assert (Hlen : le_dec (encode U64 (esize e)) = esize e) by (unfold encode; rewrite le_dec_enc; apply Z.mod_small; cbn; lia).
    rewrite Hlen, (proj2 (Z.eqb_neq (esize e) 0)) by lia.
    set (k1 := with_incoming (drop_bytes 8 (incoming k)) k).
    assert (Hc1 : concat (incoming k1) = entry_bytes e ++ stream log).
    { cbn [k1 incoming with_incoming]. rewrite drop_bytes_concat, Hc, Hst. by apply drop_app_length'. }
    assert (Hne : length (entry_bytes e) = Z.to_nat (esize e)) by (pose proof (entry_bytes_length e); lia).
    assert (Hrd : readn (esize e) k1 = Ok (entry_bytes e) (with_incoming (drop_bytes (length (frame e)) (incoming k)) k)).
    { unfold readn. apply read_data_readn. rewrite (read_data_run _ k1 (esize e) [] (length (entry_bytes e))).
      - rewrite Hc1, take_app_length. cbn [app]. unfold k1. rewrite with_incoming_twice. cbn [incoming with_incoming]. rewrite <- drop_bytes_add by done.
        unfold frame. by rewrite length_app, encode_length.
      - by apply drop_bytes_proper.
      - rewrite Hc1, length_app. lia.
      - lia.
      - cbn. lia. }
    rewrite (bind_Ok _ _ _ (entry_bytes e) (mkSink lg0 (with_incoming (drop_bytes (length (frame e)) (incoming k)) k) last))
      by (unfold on_sink_socket, zoom; cbn [sk_socket]; by rewrite Hrd).
    rewrite (proj2 (Z.eqb_eq _ (esize e))) by apply entry_bytes_length. cbn [negb].
    pose proof (chunk_bytes_length (e_header e)) as Hcl.
    assert (Hhd : slice_get (entry_bytes e) 0 (Z.to_nat sizeof_chunk) = Some (chunk_bytes (e_header e))).
    { change (Z.to_nat sizeof_chunk) with 36%nat. rewrite <- Hcl. apply (slice_get_app []). }
    rewrite Hhd. cbn [of_option]. rewrite bind_ret_l, (chunk_of_bytes _ (proj1 Hge)).
    assert (Hdt : drop (Z.to_nat sizeof_chunk) (entry_bytes e) = e_data e).
    { change (Z.to_nat sizeof_chunk) with 36%nat. unfold entry_bytes. by apply drop_app_length'. }
    rewrite Hdt. cbn [forM] in Hkeep. unfold keep_entry at 1 in Hkeep. rewrite !bind_unfold in Hkeep.
    destruct (logger_write _ _ _ _ _ _ _ lg0) as [b lg1| | |] eqn:Elw; try done. unfold ret in Hkeep. cbv beta iota in Hkeep.
    rewrite (bind_Ok _ _ _ b (mkSink lg1 (with_incoming (drop_bytes (length (frame e)) (incoming k)) k) last))
      by (unfold zoom; cbn [sk_logger]; by rewrite Elw).
    rewrite bind_unfold. unfold modify at 1. cbn [sk_logger sk_socket].
    rewrite (IH fuel (n + 1) _ lg); cbn [sk_logger sk_socket sk_last incoming with_incoming]; [|done|done|by apply drop_bytes_proper| |done|done|cbn in Hf; lia].
    + cbn [length last_id foldl]. rewrite with_incoming_twice. f_equal. lia.
    + rewrite drop_bytes_concat, Hc. unfold stream. cbn [map concat]. rewrite <- app_assoc. apply drop_app_length.
Qed.

(** C18: the entries of a log reach the log of another process: asked for the entries behind
    an id, the side that logs sends those of its storage; the other side writes exactly these
    to its own logger, in order, and knows the id of the last one, however the stream is cut
    into segments, as long as no length of a chunk is cut. *)
Theorem log_reaches_other_process st log k s lg :
  let new := List.filter (newer (sk_last s)) log in
  rep st log -> zlen (stream new) <= room k ->
  proper (incoming (sk_socket s)) -> outgoing k ++ concat (incoming (sk_socket s)) = outgoing (sent k (stream new)) ->
  headers_whole (map (fun e => length (frame e)) new ++ [8%nat]) (incoming (sk_socket s)) ->
  forM new keep_entry (sk_logger s) = Ok tt lg ->
  let last := last_id (sk_last s) new in
  exists k', send_storage (sk_last s) st k = Ok (Some last) k' /\ outgoing k' = outgoing k ++ concat (incoming (sk_socket s)) /\
    read_entries (S (length log)) now 0 s = Ok (zlen new) (mkSink lg (with_incoming [] (sk_socket s)) last).
Proof.
  intros new Hr Hroom Hp Hc Hw Hkeep last. destruct (rep_len _ _ Hr) as [Hpos Hlog].
  exists (sent k (stream new)). split; [by apply send_storage_run|]. split; [done|].
  cbn [outgoing sent] in Hc. apply app_inv_head in Hc.
  assert (Hsub : forall x, x ∈ new -> x ∈ log) by (intros x; rewrite !list_elem_of_In; unfold new; rewrite List.filter_In; tauto).
  apply (read_entries_run new (S (length log)) 0 s lg); try done.
  - destruct Hr as (_ & Hg & _). rewrite Forall_forall in *. auto.
  - apply Forall_forall. intros e He%Hsub. apply list_elem_of_split in He as (l1 & l2 & ->).
    rewrite lsize_app, lsize_cons in Hlog. pose proof (lsize_length l1). pose proof (lsize_length l2). lia.
  - unfold new. clear. induction log as [|e log IH]; cbn; [lia|]. destruct (newer _ e); cbn; lia.
Qed.
End receiver.
