(* ===== verification/LivelogStore.v ===== *)
(** * LivelogStore: what the simulator writes to its log

    core/src/sm_livelog_storage_utils.cpp, core/include/sm_livelog_storage_utils.hpp,
    sm_livelog_storage_ids.hpp: the bytes of events, active states and texts, the functions
    that write them to a logger and those that read them back. The writers make two passes,
    one that counts and one that writes. Offsets count from the data pointer; reading behind
    the bytes is undefined ([None]). *)

From S2P Require Import Prelude MachineInt Ast ExecCtx Websocket Nmp Livelog.

Definition DATA_INT64 : Z := 1.
Definition DATA_SZ : Z := 2.
Definition DATA_DOUBLE : Z := 3.
Definition DATA_VEC_OF_VARIANTS : Z := 4.

Definition STORAGE_WHAT_EVENT : Z := 3.
Definition STORAGE_WHAT_CURRENT_STATES : Z := 4.
Definition STORAGE_WHAT_CONSOLE : Z := 5.
Definition STORAGE_WHAT_INFO : Z := 6.
Definition STORAGE_WHAT_INT32_TO_STRING_MAP : Z := 10.

(** ** Writing: the pass that writes and the pass that counts *)

Definition sz_bytes (s : string) : list Z :=
  encode I16 DATA_SZ ++ encode U32 (to_u 32 (Z.of_nat (String.length s) + 1)) ++ bytes_of_string s ++ [0].
Definition int64_bytes (j : Z) : list Z := encode I16 DATA_INT64 ++ encode I64 j.
Definition double_bytes (v : Z) : list Z := encode I16 DATA_DOUBLE ++ encode U64 v.

Definition sz_size (s : string) : Z := 2 + 4 + (Z.of_nat (String.length s) + 1).
Definition int64_size : Z := 2 + 8.
Definition double_size : Z := 2 + 8.

Definition variant_bytes (e : Variant) : list Z :=
  match what_ e with
  | What_Int => int64_bytes (iv_ e)
  | What_Double => double_bytes (dv_ e)
  | What_String => sz_bytes (sv_ e)
  | What_Undefined => []
  end.

Definition variant_size (e : Variant) : Z :=
  match what_ e with
  | What_Int => int64_size
  | What_Double => double_size
  | What_String => sz_size (sv_ e)
  | What_Undefined => 0
  end.

Definition variants_bytes (v : list Variant) : list Z :=
  encode I16 DATA_VEC_OF_VARIANTS ++ encode U32 (to_u 32 (Z.of_nat (length v))) ++ concat (map variant_bytes v).
Definition variants_size (v : list Variant) : Z := 2 + 4 + foldr Z.add 0 (map variant_size v).

Definition event_bytes (ev_name : string) (params : list Variant) : list Z := sz_bytes ev_name ++ variants_bytes params.
Definition event_size (ev_name : string) (params : list Variant) : Z := sz_size ev_name + variants_size params.

(** The numbers of the active states. *)
Fixpoint states_from (counter : Z) (states : list Z) : list Z :=
  match states with
  | [] => []
  | s :: rest => (if s =? 0 then [] else encode U32 counter) ++ states_from (to_u 32 (counter + 1)) rest
  end.

Definition states_size (states : list Z) : Z := foldr (fun s len => if s =? 0 then len else len + 4) 0 states.

(** The entries of the map in the order of their keys; the length counts them twice. *)
Definition map_bytes (i2s : list (Z * string)) : list Z :=
  encode U64 (Z.of_nat (length i2s)) ++ concat (map (fun s => encode I32 s.1 ++ bytes_of_string s.2 ++ [0]) i2s).

Definition map_size (i2s : list (Z * string)) : Z :=
  8 + foldr (fun s len => len + 4 + (Z.of_nat (String.length s.2) + 1)) 0 i2s
    + foldr (fun s len => len + (4 + Z.of_nat (String.length s.2) + 4)) 0 i2s.

(** ** Reading *)

Definition read_at (t : ctype) (data : list Z) (ofs : Z) : option Z := decode t <$> slice_get data ofs (sizeof t).

(** A C string at an offset. *)
Definition read_text (data : list Z) (ofs : Z) : option string := string_of_bytes <$> c_string data ofs.

(** storage_read: the value and the offset behind it. *)
Definition read_string (data : list Z) (r : Z) : option (string * Z) :=
  let r := r + 4 in
  s ← read_text data r; Some (s, r + Z.of_nat (String.length s) + 1).

(** The variant starts as Variant{}; an unknown kind leaves it so. *)
Definition read_variant (data : list Z) (r : Z) : option (Variant * Z) :=
  what ← read_at I16 data r;
  let r := r + 2 in
  if what =? DATA_INT64 then vv ← read_at I64 data r; Some (mkVariant What_Int 0 (to_s 32 vv) "", r + 8)
  else if what =? DATA_DOUBLE then vv ← read_at U64 data r; Some (mkVariant What_Double vv 0 "", r + 8)
  else if what =? DATA_SZ then p ← read_string data r; Some (mkVariant What_String 0 0 p.1, p.2)
  else Some (Variant_default, r).

Fixpoint read_variant_list (n : nat) (data : list Z) (r : Z) : option (list Variant * Z) :=
  match n with
  | O => Some ([], r)
  | S n' =>
    vv ← read_variant data r;
    rest ← read_variant_list n' data vv.2;
    Some (vv.1 :: rest.1, rest.2)
  end.

Definition read_variants (data : list Z) (r : Z) : option (list Variant * Z) :=
  len ← read_at U32 data r; read_variant_list (Z.to_nat len) data (r + 4).

Definition read_event (data : list Z) : option (string * list Variant) :=
  name ← read_string data 2;
  params ← read_variants data (name.2 + 2);
  Some (name.1, params.1).

(** storage_read_entry: the entries go into [i2s]. *)
Fixpoint read_entry_loop (n : nat) (data : list Z) (r : Z) (i2s : gmap Z string) : option (gmap Z string) :=
  match n with
  | O => Some i2s
  | S n' =>
    a ← read_at I32 data r;
    s ← read_text data (r + 4);
    read_entry_loop n' data (r + 4 + (Z.of_nat (String.length s) + 1)) (<[a := s]> i2s)
  end.

Definition read_entry (i2s : gmap Z string) (data : list Z) : option (gmap Z string) :=
  num_elems ← read_at U64 data 0;
  if num_elems =? 0 then Some i2s else read_entry_loop (Z.to_nat num_elems) data 8 i2s.

(** extract_event_raw, extract_string_raw, extract_current_states_raw: what their function
    gets. *)
Definition extract_event_raw (data : list Z) : option (string * list Variant) := read_event data.
Definition extract_string_raw (data : list Z) : option string := fst <$> read_string data 2.
Definition extract_current_states_raw (data : list Z) (len : Z) : option (list Z) :=
  mapM (fun j => read_at I32 data (4 * j)) (seqZ 0 (len / 4)).

(** ** Writing to a logger *)

Section logging.
Context `{NewChar} (now : Z * Z).

Definition livelog_write_states (states : list Z) : M logger bool :=
  logger_write_ext now STORAGE_WHAT_CURRENT_STATES (states_from 0 states) (states_size states) (-1).

Definition livelog_write_event (event : string * list Variant) : M logger bool :=
  logger_write_ext now STORAGE_WHAT_EVENT (event_bytes event.1 event.2) (event_size event.1 event.2) (-1).

Definition livelog_write_console (s : string) : M logger bool :=
  logger_write_ext now STORAGE_WHAT_CONSOLE (sz_bytes s) (sz_size s) (-1).

Definition livelog_write_info (s : string) : M logger bool :=
  logger_write_ext now STORAGE_WHAT_INFO (sz_bytes s) (sz_size s) (-1).

(** storage_write of a map and storage_write_event, into a storage of its own. *)
Definition storage_write_map (i2s : list (Z * string)) : M storage bool :=
  storage_write_ext now STORAGE_WHAT_INT32_TO_STRING_MAP (map_bytes i2s) (map_size i2s) (-1).

Definition storage_write_event (ev_name : string) (params : list Variant) : M storage bool :=
  storage_write_ext now STORAGE_WHAT_EVENT (event_bytes ev_name params) (event_size ev_name params) (-1).

(** Livelogger_source: without a logger its functions throw. *)
Definition attached (m : M logger bool) : M (option logger) unit := fun l =>
  match l with
  | None => Throw (RuntimeError "Livelogger_source is detached") l
  | Some l => match m l with
              | Ok _ l' => Ok tt (Some l')
              | Throw e l' => Throw e (Some l')
              | Undef => Undef
              | OutOfFuel => OutOfFuel
              end
  end.

Definition source_log_current_states (ec : ectx) : M (option logger) unit := attached (livelog_write_states (current_states ec)).
Definition source_log_event (v : string * list Variant) : M (option logger) unit := attached (livelog_write_event v).
Definition source_log_console (v : string) : M (option logger) unit := attached (livelog_write_console v).
Definition source_log_info (v : string) : M (option logger) unit := attached (livelog_write_info v).

(** The simulation loop: active states and fetched events go to the logger when there is
    one; without one they are printed, which has no effect here. An event without a name gets
    the empty one. *)
Definition log_current_states (ec : ectx) : M (option logger) unit :=
  let! l := get in
  match l with Some _ => source_log_current_states ec | None => ret tt end.

Definition log_event (ec : ectx) (current_event : event_t) (ev_read : bool) (ev_id : Z) : M (option logger) unit :=
  let! l := get in
  match l with
  | Some _ => if ev_read then source_log_event (default "" (id_to_ev ec !! ev_id), map_ev_payload_to_variant current_event) else ret tt
  | None => ret tt
  end.
End logging.
