(* ===== verification/LivelogStoreSpec.v ===== *)
(** * LivelogStoreSpec: reading back what was logged

    The bytes of events, active states and maps of names are read back as they were written;
    what the simulation loop logs reaches the storage of the consumers. At the end the theorems on the log
    are applied. *)

From S2P Require Import Prelude MachineInt Ast ExecCtx Websocket Nmp Livelog ProtobufishSpec LivelogSpec LivelogTransfer LivelogStore.
From S2P Require Import Segments.
From S2P Require Import LivelogSync.

#[local] Abbreviation zlen l := (Z.of_nat (length l)).

(** ** Pieces of a block of bytes *)

Definition piece (data : list Z) (r : Z) (bs : list Z) : Prop := exists pre post, data = pre ++ bs ++ post /\ zlen pre = r.

Lemma piece_app data r a b : piece data r (a ++ b) -> piece data r a /\ piece data (r + zlen a) b.
Proof.
  intros (pre & post & -> & <-). split.
  - exists pre, (b ++ post). by rewrite <- app_assoc.
  - exists (pre ++ a), post. by rewrite <- !app_assoc, length_app, Nat2Z.inj_add.
Qed.

Lemma piece_all data rest : piece (data ++ rest) 0 data.
Proof. by exists [], rest. Qed.

Lemma read_at_piece t data r v : piece data r (encode t v) -> in_range t v = true -> read_at t data r = Some v.
Proof.
  intros (pre & post & -> & <-) Hv. unfold read_at. rewrite <- (encode_length t v), slice_get_app. cbn. by rewrite decode_encode.
Qed.

Lemma read_text_piece data r s : piece data r (bytes_of_string s ++ [0]) -> no_nul s -> read_text data r = Some s.
Proof.
  intros (pre & post & -> & <-) Hs. unfold read_text, c_string. rewrite (proj2 (Z.leb_le _ _)) by lia.
  rewrite (proj2 (Z.leb_le _ _)) by (rewrite length_app; lia). cbn [andb]. rewrite Nat2Z.id, drop_app_length, <- app_assoc.
  cbn [app]. rewrite until_nul_app by done. cbn. by rewrite string_of_bytes_of_string.
Qed.

Lemma in_u32 z : 0 <= z < 2 ^ 32 -> in_range U32 z = true.
Proof. intros H. unfold in_range, fits_u. cbn [is_signed]. change (bits U32) with 32. by rewrite (proj2 (Z.leb_le _ _)), (proj2 (Z.ltb_lt _ _)) by lia. Qed.

Lemma in_i32 z : 0 <= z < 2 ^ 31 -> in_range I32 z = true.
Proof.
  intros H. unfold in_range, fits_s. cbn [is_signed]. change (bits I32) with 32. change (2 ^ (32 - 1)) with (2 ^ 31).
  by rewrite (proj2 (Z.leb_le _ _)), (proj2 (Z.ltb_lt _ _)) by lia.
Qed.

(** ** The two passes agree *)

Lemma sz_bytes_size s : zlen (sz_bytes s) = sz_size s.
Proof. unfold sz_bytes, sz_size. rewrite !length_app, !encode_length, bytes_of_string_length. cbn. lia. Qed.

Lemma variant_bytes_size e : zlen (variant_bytes e) = variant_size e.
Proof.
  unfold variant_bytes, variant_size. destruct (what_ e); [| |apply sz_bytes_size|done];
    unfold int64_bytes, double_bytes; by rewrite length_app, !encode_length.
Qed.

Lemma variants_bytes_size v : zlen (variants_bytes v) = variants_size v.
Proof.
  unfold variants_bytes, variants_size. rewrite !length_app, !encode_length.
  assert (H : zlen (concat (map variant_bytes v)) = foldr Z.add 0 (map variant_size v)); [|cbn [sizeof]; lia].
  induction v as [|e v IH]; [done|]. cbn [map concat foldr]. rewrite length_app, Nat2Z.inj_add, variant_bytes_size, IH. done.
Qed.

Lemma event_bytes_size name params : zlen (event_bytes name params) = event_size name params.
Proof. unfold event_bytes, event_size. by rewrite length_app, Nat2Z.inj_add, sz_bytes_size, variants_bytes_size. Qed.

Lemma states_from_size states : forall c, zlen (states_from c states) = states_size states.
Proof.
  unfold states_size. induction states as [|s states IH]; intros c; [done|]. cbn [states_from foldr]. rewrite length_app, Nat2Z.inj_add, IH.
  destruct (s =? 0); [done|]. rewrite encode_length. cbn [sizeof]. lia.
Qed.

(** ** Events *)

(** What a value becomes: only the field of its kind is kept. *)
Definition stored (e : Variant) : Variant :=
  match what_ e with
  | What_Int => Variant_int (iv_ e)
  | What_Double => Variant_double (dv_ e)
  | What_String => Variant_string (sv_ e)
  | What_Undefined => Variant_default
  end.

Definition storable (e : Variant) : Prop :=
  match what_ e with
  | What_Int => in_range I32 (iv_ e) = true
  | What_Double => in_range U64 (dv_ e) = true
  | What_String => no_nul (sv_ e)
  | What_Undefined => False
  end.

Lemma I32_I64 z : in_range I32 z = true -> in_range I64 z = true /\ to_s 32 z = z.
Proof.
  unfold in_range, fits_s. cbn [is_signed bits]. intros H. apply andb_true_iff in H as [H1%Z.leb_le H2%Z.ltb_lt]. change (bits I32) with 32 in *.
  change (bits I64) with 64. split; [apply andb_true_iff; split; [apply Z.leb_le|apply Z.ltb_lt]; lia|].
  unfold to_s. rewrite Z.mod_small; lia.
Qed.

Lemma read_string_piece data r s : piece data r (sz_bytes s) -> no_nul s -> read_string data (r + 2) = Some (s, r + sz_size s).
Proof.
  intros Hp Hs. unfold sz_bytes in Hp. apply piece_app in Hp as [_ Hp]. apply piece_app in Hp as [_ Hp].
  rewrite !encode_length in Hp. cbn [sizeof] in Hp. unfold read_string.
  replace (r + Z.of_nat 2 + Z.of_nat 4) with (r + 2 + 4) in Hp by lia.
  rewrite (read_text_piece _ _ s) by done. cbn. do 2 f_equal. unfold sz_size. lia.
Qed.

Lemma read_variant_piece data r e : piece data r (variant_bytes e) -> storable e -> read_variant data r = Some (stored e, r + variant_size e).
Proof.
  unfold variant_bytes, storable, variant_size, stored, read_variant. destruct (what_ e); [| | |done]; intros Hp Hs.
  - unfold int64_bytes in Hp. apply piece_app in Hp as [H1 H2]. rewrite (read_at_piece _ _ _ _ H1) by done. cbn -[Z.add].
    destruct (I32_I64 _ Hs) as [H64 Hid]. rewrite encode_length in H2. change (Z.of_nat (sizeof I16)) with 2 in H2. rewrite (read_at_piece _ _ _ _ H2) by done. cbn -[Z.add].
    rewrite Hid. unfold int64_size. do 2 f_equal. lia.
  - unfold double_bytes in Hp. apply piece_app in Hp as [H1 H2]. rewrite (read_at_piece _ _ _ _ H1) by done. cbn -[Z.add].
    rewrite encode_length in H2. change (Z.of_nat (sizeof I16)) with 2 in H2. rewrite (read_at_piece _ _ _ _ H2) by done. cbn -[Z.add]. unfold double_size. do 2 f_equal. lia.
  - pose proof Hp as Hp'. unfold sz_bytes in Hp. apply piece_app in Hp as [H1 _]. rewrite (read_at_piece _ _ _ _ H1) by done. cbn -[Z.add sz_size].
    by rewrite (read_string_piece _ _ _ Hp').
Qed.

Lemma read_variant_list_piece data v : forall r, piece data r (concat (map variant_bytes v)) -> Forall storable v ->
  read_variant_list (length v) data r = Some (map stored v, r + foldr Z.add 0 (map variant_size v)).
Proof.
  induction v as [|e v IH]; intros r Hp Hs; cbn [length read_variant_list map concat foldr] in *; [do 2 f_equal; lia|].
  inversion_clear Hs. apply piece_app in Hp as [H1 H2]. rewrite (read_variant_piece _ _ _ H1) by done. cbn -[Z.add variant_size].
  rewrite variant_bytes_size in H2. rewrite IH by done. cbn -[Z.add variant_size]. do 2 f_equal. lia.
Qed.

Lemma read_event_bytes name params rest :
  no_nul name -> Forall storable params -> zlen params < 2 ^ 32 ->
  read_event (event_bytes name params ++ rest) = Some (name, map stored params).
Proof.
  intros Hn Hp Hl. pose proof (piece_all (event_bytes name params) rest) as H. set (data := _ ++ rest) in *.
  unfold event_bytes in H. apply piece_app in H as [H1 H2]. rewrite sz_bytes_size in H2. unfold read_event.
  change (read_string data 2) with (read_string data (0 + 2)). rewrite (read_string_piece data 0 name) by done. cbn -[Z.add sz_size]. unfold variants_bytes in H2.
  apply piece_app in H2 as [_ H2]. apply piece_app in H2 as [H2 H3]. rewrite !encode_length in H3. rewrite encode_length in H2.
  change (Z.of_nat (sizeof I16)) with 2 in H2, H3. change (Z.of_nat (sizeof U32)) with 4 in H3. unfold read_variants.
  replace (to_u 32 (zlen params)) with (zlen params) in H2 by (unfold to_u; rewrite Z.mod_small; lia).
  rewrite (read_at_piece U32 _ _ _ H2) by (apply in_u32; lia). cbn -[Z.add sz_size]. rewrite Nat2Z.id.
  rewrite (read_variant_list_piece data params) by done. done.
Qed.

(** ** Active states *)

Fixpoint active_from (c : Z) (states : list Z) : list Z :=
  match states with
  | [] => []
  | s :: rest => (if s =? 0 then [] else [c]) ++ active_from (c + 1) rest
  end.

Lemma elem_of_active states i : forall c, i ∈ active_from c states <-> exists v, c <= i /\ states !! Z.to_nat (i - c) = Some v /\ v <> 0.
Proof.
  induction states as [|s states IH]; intros c; cbn [active_from].
  - split; [by intros ?%not_elem_of_nil|]. by intros (v & _ & H & _).
  - rewrite elem_of_app, IH. split.
    + intros [H|(v & H1 & H2 & H3)].
      * destruct (Z.eqb_spec s 0); [by apply not_elem_of_nil in H|]. apply list_elem_of_singleton in H as ->. exists s. rewrite Z.sub_diag. split; [lia|done].
      * exists v. replace (Z.to_nat (i - c)) with (S (Z.to_nat (i - (c + 1)))) by lia. split; [lia|done].
    + intros (v & H1 & H2 & H3). destruct (decide (i = c)) as [->|Hne].
      * rewrite Z.sub_diag in H2. apply (inj Some) in H2 as ->. left. rewrite (proj2 (Z.eqb_neq _ _)) by done. by apply list_elem_of_singleton.
      * right. exists v. replace (Z.to_nat (i - c)) with (S (Z.to_nat (i - (c + 1)))) in H2 by lia. split; [lia|done].
Qed.

Lemma states_from_active states : forall c, 0 <= c -> c + zlen states < 2 ^ 31 ->
  states_from c states = concat (map (encode U32) (active_from c states)) /\ Forall (fun i => 0 <= i < 2 ^ 31) (active_from c states).
Proof.
  induction states as [|s states IH]; intros c Hc Hl; cbn [states_from active_from length] in *; [done|].
  assert (Hto : to_u 32 (c + 1) = c + 1) by (unfold to_u; rewrite Z.mod_small; lia). rewrite Hto.
  destruct (IH (c + 1)) as [-> H2]; [lia..|]. destruct (s =? 0); cbn [app map concat]; [done|]. split; [done|]. constructor; [lia|done].
Qed.

Lemma encode_I32_U32 i : encode I32 i = encode U32 i.
Proof. done. Qed.

Lemma mapM_read_at data l : forall k, piece data (4 * k) (concat (map (encode U32) l)) -> Forall (fun i => 0 <= i < 2 ^ 31) l ->
  mapM (fun j => read_at I32 data (4 * j)) (seqZ k (zlen l)) = Some l.
Proof.
  induction l as [|i l IH]; intros k Hp Hl; cbn [length map concat] in *; [done|]. inversion_clear Hl as [|? ? Hi Hl'].
  rewrite seqZ_cons by lia. cbn [mapM]. apply piece_app in Hp as [H1 H2]. rewrite <- encode_I32_U32 in H1.
  rewrite (read_at_piece _ _ _ _ H1) by (apply in_i32; lia). cbn [mbind option_bind].
  rewrite encode_length in H2. replace (4 * k + Z.of_nat (sizeof U32)) with (4 * Z.succ k) in H2 by (cbn [sizeof]; lia).
  replace (Z.pred (Z.of_nat (S (length l)))) with (zlen l) by lia. by rewrite (IH _ H2).
Qed.

Lemma extract_states states rest : zlen states < 2 ^ 31 ->
  extract_current_states_raw (states_from 0 states ++ rest) (states_size states) = Some (active_from 0 states).
Proof.
  intros Hl. destruct (states_from_active states 0) as [E Ha]; [lia..|]. unfold extract_current_states_raw.
  assert (Hn : states_size states / 4 = zlen (active_from 0 states)).
  { rewrite <- (states_from_size states 0), E. clear. generalize (active_from 0 states). intros l.
    assert (H : zlen (concat (map (encode U32) l)) = zlen l * 4); [|rewrite H; apply Z.div_mul; lia].
    induction l as [|i l IH]; [done|]. cbn [map concat]. rewrite length_app, encode_length, Nat2Z.inj_add, IH. cbn [sizeof length]. lia. }
  rewrite Hn, E. apply mapM_read_at; [apply piece_all|done].
Qed.

(** ** Maps of names *)

Lemma read_entry_loop_piece data i2s : forall r m, piece data r (concat (map (fun s => encode I32 s.1 ++ bytes_of_string s.2 ++ [0]) i2s)) ->
  Forall (fun s => in_range I32 s.1 = true /\ no_nul s.2) i2s ->
  read_entry_loop (length i2s) data r m = Some (foldl (fun m s => <[s.1 := s.2]> m) m i2s).
Proof.
  induction i2s as [|[a s] i2s IH]; intros r m Hp Hs; cbn [length read_entry_loop map concat foldl fst snd] in *; [done|].
  inversion_clear Hs as [|? ? [Ha Hn] Hs']. cbn [fst snd] in *. apply piece_app in Hp as [Hp H3]. apply piece_app in Hp as [H1 H2].
  rewrite encode_length in H2. change (Z.of_nat (sizeof I32)) with 4 in H2.
  rewrite (read_at_piece _ _ _ _ H1), (read_text_piece _ _ _ H2) by done. cbn [mbind option_bind].
  apply IH; [|done]. rewrite !length_app, encode_length, bytes_of_string_length in H3. cbn [length] in H3.
  by replace (r + 4 + (Z.of_nat (String.length s) + 1)) with (r + Z.of_nat (sizeof I32 + (String.length s + 1))) by (cbn [sizeof]; lia).
Qed.

(** The names that were in the map before stay unless they are overwritten. *)
Lemma read_map_bytes i2s m rest : zlen i2s < 2 ^ 64 -> Forall (fun s => in_range I32 s.1 = true /\ no_nul s.2) i2s ->
  read_entry m (map_bytes i2s ++ rest) = Some (foldl (fun m s => <[s.1 := s.2]> m) m i2s).
Proof.
  intros Hl Hs. pose proof (piece_all (map_bytes i2s) rest) as Hp. set (data := _ ++ rest) in *. unfold map_bytes in Hp.
  apply piece_app in Hp as [H1 H2]. rewrite encode_length in H2. unfold read_entry.
  rewrite (read_at_piece _ _ _ _ H1) by (unfold in_range, fits_u; cbn [is_signed]; change (bits U64) with 64; by rewrite (proj2 (Z.leb_le _ _)), (proj2 (Z.ltb_lt _ _)) by lia).
  cbn [mbind option_bind]. destruct (Z.eqb_spec (zlen i2s) 0); [by destruct i2s|]. rewrite Nat2Z.id. by apply read_entry_loop_piece.
Qed.

(** ** What the simulation loop logs *)

Lemma if_space_low_len `{NewChar} n l l2 : if_space_low_do_cis_to_trans_transfer n l = Ok tt l2 -> len_ (cis l2) = len_ (cis l).
Proof.
  unfold if_space_low_do_cis_to_trans_transfer, bind at 1, get. cbv beta iota. destruct (_ && _); [|by intros E%Ok_state; subst].
  intros ([] & l1 & E1 & E2)%bind_inv_Ok. assert (Hl1 : len_ (cis l1) = len_ (cis l)).
  { unfold move_cis, bind at 1, get in E1. cbv beta iota in E1. apply bind_inv_Ok in E1 as (p & l0 & E0 & E1).
    unfold of_option in E0. destruct (move_to_and_clear _ _) as [q|] eqn:Em; [|done]. injection E0 as -> <-. apply Ok_state in E1 as <-.
    unfold move_to_and_clear in Em. destruct (storage_at _ _) as [slot|]; [|done]. cbn [mbind option_bind] in Em.
    destruct (set_storage _ _ _) as [r1|]; [|done]. cbn [mbind option_bind] in Em. apply (inj Some) in Em as <-. done. }
  apply Ok_state in E2 as <-. by destruct (_ >=? _).
Qed.

Lemma push_back_room now mem n what s r s' : 0 < len_ s -> (capacity s <? to_u 64 (n + sizeof_chunk)) = false ->
  push_back now mem n what (-1) 0 0 s = Ok r s' -> r <> None.
Proof.
  unfold push_back, capacity, bind at 1, get. cbv beta iota zeta. intros Hl Hc. rewrite (proj2 (Z.eqb_neq _ _)) in Hc by lia. apply Z.ltb_ge in Hc.
  assert (Hu : to_u 64 (to_u 64 (n + sizeof_chunk) + 1) <= to_u 64 (n + sizeof_chunk) + 1).
  { pose proof (to_u_range 64 (n + sizeof_chunk) ltac:(lia)). apply (Z.mod_le (to_u 64 (n + sizeof_chunk) + 1) (2 ^ 64)); lia. }
  rewrite (proj2 (Z.ltb_ge _ _)) by lia. intros ([] & s1 & _ & E)%bind_inv_Ok. apply bind_inv_Ok in E as (p & s2 & _ & E). unfold ret in E. congruence.
Qed.

Lemma write_ext_of_write `{NewChar} now what bs n l l' : n = zlen bs -> 0 < len_ (cis l) ->
  logger_write now what (Some bs) n (-1) 0 0 l = Ok true l' -> logger_write_ext now what bs n (-1) l = Ok true l'.
Proof.
  intros Hn Hlen E. unfold logger_write, bind at 1, get in E. cbv beta iota in E. unfold logger_write_ext, bind at 1, get. cbv beta iota.
  destruct (check_write_preconditions n l) eqn:Hc; [|done]. cbn [negb] in *.
  apply bind_inv_Ok in E as ([] & l2 & E1 & E2). rewrite (bind_Ok _ _ _ _ _ E1). apply if_space_low_len in E1 as Hl2.
  apply bind_inv_Ok in E2 as (r & l3 & E2 & E3). apply Ok_state in E3 as ->.
  pose proof (write_ext_push now bs n what (-1) (cis l2) Hn) as Hp.
  unfold on_cis, zoom in *. destruct (push_back now (Some bs) n what (-1) 0 0 (cis l2)) as [r' s'| | |] eqn:Eb; try done.
  injection E2 as -> <-.
  assert (Hr : r <> None).
  { assert (Hlen2 : 0 < len_ (cis l2)) by lia. apply (push_back_room _ _ _ _ _ _ _ Hlen2) in Eb; [done|]. unfold check_write_preconditions, capacity in *. rewrite Hl2. by destruct (_ <? _). }
  destruct r as [q|]; [|done]. cbn [ext_result] in Hp. clear - Hp.
  unfold bind in *. destruct (push_back now None n what (-1) 0 0 (cis l2)) as [[p|] s1| | |]; try done. cbn [cis with_cis].
  destruct (store (p + sizeof_chunk) bs s1) as [[] s2| | |]; try done. unfold ret in *. by injection Hp as ->.
Qed.

Definition good_clock (now : Z * Z) : Prop := 0 < now.1 < 2 ^ 64 /\ 0 <= now.2 < 2 ^ 64.

Section logging.
Context `{NewChar} (L : Z).
Hypothesis HL : 37 <= L < 2 ^ 63.
Context (T : Z).

Lemma good_pushed now what bs s : good_clock now -> in_range I32 what = true -> 0 <= id_counter_ s < 2 ^ 63 -> 37 + zlen bs <= L ->
  let e := pushed s now what (-1) 0 0 bs in good_entry e /\ stamped e.
Proof.
  intros [H1 H2] Hw Hi Hl e. destruct HL as [_ HL']. unfold good_entry, good_header, stamped, e, pushed, header_for. cbn -[Z.of_nat].
  unfold in_range, fits_u, fits_s in *. cbn [is_signed] in *. change (bits U64) with 64. change (bits I64) with 64.
  rewrite !andb_true_iff, !Z.leb_le, !Z.ltb_lt. repeat split; try done; lia.
Qed.

(** An entry that is written by a function. *)
Lemma write_ext_logged l log now what bs n : n = zlen bs -> logged L T l log -> e_ (pending l) < 31 -> lsize log < T ->
  good_clock now -> in_range I32 what = true -> 0 <= id_counter_ (cis l) < 2 ^ 63 -> 37 + zlen bs <= L ->
  exists l' e, logger_write_ext now what bs n (-1) l = Ok true l' /\ logged L T l' (log ++ [e]) /\ esize e = 36 + zlen bs /\
    e_data e = bs /\ c_what (e_header e) = what /\ e_ (pending l') <= e_ (pending l) + 1 /\ id_counter_ (cis l') = id_counter_ (cis l) + 1.
Proof.
  intros Hn Hl He Hb Hnow Hw Hid Hfit. pose proof (logged_holds L HL T l log Hl Hb) as (_ & lc & lp & lt & Hh & _ & _).
  destruct (good_pushed now what bs (cis l) Hnow Hw Hid Hfit) as [Hg Hs].
  assert (Hlp : e_ (pending l) = zlen lp) by apply Hh.
  destruct (write_holds L HL l lc lp lt now what bs (-1) 0 0 Hh) as (l' & lc' & lp' & E & Hh' & _ & _ & Hlp' & Hid'); [lia|done|unfold esize; cbn -[Z.of_nat]; lia|].
  exists l', (pushed (cis l) now what (-1) 0 0 bs). split.
  { apply write_ext_of_write; [done|rewrite (hd_cis_len _ _ _ _ _ Hh); lia|by subst n]. }
  split; [apply (logged_write L T l log now what bs (-1) 0 0); try done; unfold esize; cbn -[Z.of_nat]; lia|].
  split; [done|]. split; [done|]. split; [done|]. split; [|exact Hid'].
  rewrite Hlp. assert (e_ (pending l') = zlen lp') by apply Hh'. lia.
Qed.

(** C17: what the simulation loop logs reaches the consumers: after it has logged a fetched
    event and the active states, a flush and a round of the thread leave the two entries as
    the last ones in the storage of the consumers; read back, the first one gives the event
    with its parameters, the second one the numbers of the states that are active. *)
Theorem simulation_log_arrives l log now now' ec ev ev_id name :
  let params := map_ev_payload_to_variant ev in let states := current_states ec in
  logged L T l log -> e_ (pending l) < 29 -> good_clock now -> 0 <= id_counter_ (cis l) < 2 ^ 62 ->
  id_to_ev ec !! ev_id = Some name -> no_nul name -> Forall storable params -> zlen params < 2 ^ 32 -> zlen states < 2 ^ 31 ->
  37 + event_size name params <= L -> 37 + states_size states <= L ->
  lsize log + event_size name params + states_size states + 72 < T ->
  exists l1 l2 l3 l4 e1 e2 idx,
    log_event now ec ev true ev_id (Some l) = Ok tt (Some l1) /\ log_current_states now ec (Some l1) = Ok tt (Some l2) /\
    flush l2 = Ok tt l3 /\ trans_thread_round now' l3 = Ok tt l4 /\ rep (trans l4) (log ++ [e1; e2]) /\
    c_what (e_header e1) = STORAGE_WHAT_EVENT /\ extract_event_raw (e_data e1) = Some (name, map stored params) /\
    c_what (e_header e2) = STORAGE_WHAT_CURRENT_STATES /\ extract_current_states_raw (e_data e2) (zlen (e_data e2)) = Some idx /\
    (forall i, i ∈ idx <-> exists v, 0 <= i /\ states !! Z.to_nat i = Some v /\ v <> 0).
Proof.
  intros params states Hl He Hnow Hid Hname Hn Hp Hpl Hsl Hf1 Hf2 HT.
  pose proof (event_bytes_size name params) as S1. pose proof (states_from_size states 0) as S2.
  destruct (write_ext_logged l log now STORAGE_WHAT_EVENT (event_bytes name params) (event_size name params))
    as (l1 & e1 & E1 & Hl1 & Hs1 & Hd1 & Hw1 & Hp1 & Hid1); try done; try lia.
  assert (Hb1 : lsize (log ++ [e1]) = lsize log + 36 + event_size name params) by (rewrite lsize_app, lsize_one; lia).
  destruct (write_ext_logged l1 (log ++ [e1]) now STORAGE_WHAT_CURRENT_STATES (states_from 0 states) (states_size states))
    as (l2 & e2 & E2 & Hl2 & Hs2 & Hd2 & Hw2 & Hp2 & Hid2); try done; try lia.
  assert (Hb2 : lsize ((log ++ [e1]) ++ [e2]) < T) by (rewrite lsize_app, lsize_one; lia).
  destruct (logged_arrives L HL T l2 _ now' Hl2 ltac:(lia) Hb2) as [(l3 & l4 & E3 & E4 & Hr & _) _].
  exists l1, l2, l3, l4, e1, e2, (active_from 0 states). split.
  { unfold log_event, bind, get, source_log_event, attached, livelog_write_event. cbn [fst snd]. rewrite Hname. cbn [default from_option id]. fold params. by rewrite E1. }
  split; [unfold log_current_states, bind, get, source_log_current_states, attached, livelog_write_states; fold states; by rewrite E2|].
  split; [done|]. split; [done|]. split; [by rewrite <- app_assoc in Hr|]. split; [done|]. split.
  { unfold extract_event_raw. rewrite Hd1, <- (app_nil_r (event_bytes _ _)). by apply read_event_bytes. }
  split; [done|]. split; [rewrite Hd2, S2, <- (app_nil_r (states_from _ _)); by apply extract_states|].
  intros i. rewrite elem_of_active, Z.sub_0_r. done.
Qed.
End logging.

(** * Small blocks and a small log

    The theorems about the live logger are applied to blocks of about a hundred bytes. *)

#[local] Instance zeros : NewChar := {| new_char n := replicate (Z.to_nat n) 0; new_char_length n := length_replicate (Z.to_nat n) 0 |}.

Definition clock : Z * Z := (7, 0).
Definition first_entry : entry := mkEntry (mkChunk 4 0 5 7 0) [1; 2; 3; 4].

(** One entry with [n] free bytes before and [m] behind it. *)
Definition block_with (n m : nat) : storage :=
  mkStorage (Some (replicate n 0 ++ entry_bytes first_entry ++ replicate m 0)) (Z.of_nat n) (Z.of_nat n + 40) 0 (Z.of_nat n + 40 + Z.of_nat m) 1 1.

Lemma block_with_rep n m : (0 < m < 1000)%nat -> (n < 1000)%nat -> rep (block_with n m) [first_entry].
Proof.
  intros Hm Hn. split; [|split].
  - apply (run _ (replicate n 0) _ (replicate m 0)); try done; cbn -[Z.of_nat].
    + by rewrite length_replicate.
    + by rewrite length_replicate.
    + destruct m; [lia|done].
  - repeat constructor.
  - eexists. split; [done|]. split; [|cbn -[Z.of_nat]; lia].
    rewrite !length_app, !length_replicate, !Nat2Z.inj_add. change (Z.of_nat (length (entry_bytes first_entry))) with 40. cbn [len_ block_with]. lia.
Qed.

(** The new entry goes to the front of the block. *)
Lemma storage_refines_log_witness :
  let s := block_with 41 20 in let e := pushed s clock 6 (-1) 0 0 [9; 9] in
  (exists k p s', push_back clock (Some [9; 9]) 2 6 (-1) 0 0 s = Ok (Some p) s' /\ rep s' (drop k [first_entry] ++ [e])) /\
  exists s', push_back clock (Some [9; 9]) 2 6 (-1) 0 0 s = Ok (Some 0) s' /\ end_ s' = 38 /\ skip_ s' = 81.
Proof.
  intros s e. split.
  - destruct (storage_refines_log s [first_entry] clock 6 (-1) 0 0 [9; 9]) as (k & p & s' & E & Hr & _).
    + apply block_with_rep; lia.
    + by repeat split.
    + vm_compute. discriminate.
    + vm_compute. discriminate.
    + by exists k, p, s'.
  - eexists. split; [vm_compute; reflexivity|done].
Defined.

Lemma full_block_misread_witness :
  let s := block_with 41 38 in
  exists p s', push_back clock (Some [9; 9]) 2 6 (-1) 0 0 s = Ok (Some p) s' /\ end_ s' = 0 /\
    for_each_ext (S (Z.to_nat (len_ s'))) s' (fun _ => ret true) tt = Undef.
Proof.
  intros s. apply (full_block_misread s [first_entry] clock 6 (-1) 0 0 [9; 9]).
  - apply block_with_rep; lia.
  - by repeat split.
  - vm_compute. discriminate.
  - reflexivity.
Defined.

(** ** A log of two entries *)

#[local] Ltac small_goal := lazymatch goal with |- _ = _ => vm_compute; reflexivity | |- _ < _ => reflexivity | |- _ <= _ => vm_compute; discriminate end.

Definition empty_logger : logger := new_logger (replicate 100 0) (replicate 200 0).
Definition state_after {A} (m : M logger A) (l : logger) : logger := match m l with Ok _ l' => l' | _ => l end.
Definition log_bytes_of (bs : list Z) (l : logger) : logger :=
  state_after (logger_write clock 5 (Some bs) (Z.of_nat (length bs)) (-1) 0 0) l.
Definition logged_1 : logger := log_bytes_of [1; 2; 3; 4] empty_logger.
Definition logged_2 : logger := state_after flush logged_1.
Definition logged_3 : logger := log_bytes_of [5; 6] logged_2.
Definition second_entry : entry := mkEntry (mkChunk 2 1 5 7 0) [5; 6].

Lemma logged_arrives_witness :
  exists l1 l2, flush logged_3 = Ok tt l1 /\ trans_thread_round clock l1 = Ok tt l2 /\ rep (trans l2) [first_entry; second_entry].
Proof.
  assert (Hl : logged 100 200 logged_3 [first_entry; second_entry]).
  { apply (logged_write 100 200 logged_2 [first_entry] clock 5 [5; 6] (-1) 0 0); try small_goal.
    - apply (logged_flush 100 200 logged_1); try small_goal.
      apply (logged_write 100 200 empty_logger [] clock 5 [1; 2; 3; 4] (-1) 0 0); try small_goal.
      + apply logged_new; [reflexivity|reflexivity|lia].
      + by repeat split.
      + by split.
    - by repeat split.
    - by split. }
  destruct (logged_arrives 100 ltac:(lia) 200 logged_3 [first_entry; second_entry] clock Hl) as [(l1 & l2 & E1 & E2 & Hr & _) _].
  - reflexivity.
  - reflexivity.
  - exists l1, l2. exact (conj E1 (conj E2 Hr)).
Defined.

(** ** One entry for another process *)

Definition answer : list Z := stream [first_entry].
Definition collector : sink := mkSink (new_logger (replicate 100 0) (replicate 200 0)) (mkSocket [take 20 answer; drop 20 answer] [] 1000) (-1).

Lemma log_reaches_other_process_witness :
  let k := mkSocket [] [] 1000 in
  exists lg k', send_storage (-1) (block_with 41 20) k = Ok (Some 0) k' /\ outgoing k' = answer /\
    read_entries 2 clock 0 collector = Ok 1 (mkSink lg (mkSocket [] [] 1000) 0).
Proof.
  intros k. exists (state_after (forM [first_entry] (keep_entry clock)) (sk_logger collector)).
  apply (log_reaches_other_process clock (block_with 41 20) [first_entry] k collector); try small_goal.
  - apply block_with_rep; lia.
  - repeat constructor; vm_compute; discriminate.
  - split; [|split; [|reflexivity]]; (eexists _, _; split; [vm_compute; reflexivity|cbn; lia]).
Defined.

(** ** An event and the active states *)

Definition go_ctx : ectx := with_id_to_ev {[3 := "go"]} (with_current_states [0; 0; 1; 1] executionloop_context_init).
Definition go_event : event_t := mkEvent "go" 3 true None [Int_literal 42; String_literal "left"] [] None.

Lemma simulation_log_arrives_witness :
  exists l1 l2 l3 l4 e1 e2,
    log_event clock go_ctx go_event true 3 (Some empty_logger) = Ok tt (Some l1) /\ log_current_states clock go_ctx (Some l1) = Ok tt (Some l2) /\
    flush l2 = Ok tt l3 /\ trans_thread_round clock l3 = Ok tt l4 /\ rep (trans l4) [e1; e2] /\
    extract_event_raw (e_data e1) = Some ("go", [Variant_int 42; Variant_string "left"]).
Proof.
  destruct (simulation_log_arrives 100 ltac:(lia) 200 empty_logger [] clock clock go_ctx go_event 3 "go") as (l1 & l2 & l3 & l4 & e1 & e2 & idx & E1 & E2 & E3 & E4 & Hr & _ & He & _);
    try small_goal.
  - apply logged_new; [reflexivity|reflexivity|lia].
  - repeat split; discriminate || reflexivity.
  - split; [discriminate|reflexivity].
  - repeat constructor; discriminate.
  - repeat constructor; discriminate.
  - exists l1, l2, l3, l4, e1, e2. exact (conj E1 (conj E2 (conj E3 (conj E4 (conj Hr He))))).
Defined.
