(* ===== verification/Timers.v ===== *)
(** * Timers: the table of timers and the threads that watch it

    core/src/sm_sim_core_timer.cpp, the timer functions of
    state_machine_simulation_core_action_handling.cpp and sm_global_functions.cpp, signal
    generators (core/src/signalgenerator.cpp). A timer is an entry of a table of 256 with a
    descriptor of the kernel; a thread polls the descriptors and puts the events of the
    timers that expired into the main queue. The steps of a thread are those between which
    it holds no lock, so that other threads can come in between. Left out: the end of the
    thread when the program shuts down; text of system errors. *)

From Stdlib Require Import SpecFloat.
From S2P Require Import Prelude MachineInt F64 HexFloat Ast Fetch Nmp.

(** ** Data *)

Record siggen := mkSiggen { sg_delta : Z; sg_values : list Z; sg_target : string }.

Definition new_siggen : siggen := mkSiggen 0x3FB999999999999A [] "".

Record timer := mkTimer {
  in_use : bool;
  kill : bool;
  is_fresh : bool;
  t_name : string;
  period_in_ms : Z;
  time_remaining_in_ms : Z;
  periodic : bool;
  t_fd : Z;
  t_siggen : option nat;                   (* nullptr, or which signal generator *)
  loc_storage : Z;
  t_event : queued
}.

Definition timer_eta (e : timer) : timer :=
  mkTimer (in_use e) (kill e) (is_fresh e) (t_name e) (period_in_ms e) (time_remaining_in_ms e) (periodic e) (t_fd e)
    (t_siggen e) (loc_storage e) (t_event e).

Definition with_in_use (x : bool) (e : timer) : timer := ltac:(record_update timer_eta in_use x e).
Definition with_kill (x : bool) (e : timer) : timer := ltac:(record_update timer_eta kill x e).
Definition with_periodic (x : bool) (e : timer) : timer := ltac:(record_update timer_eta periodic x e).
Definition with_t_fd (x : Z) (e : timer) : timer := ltac:(record_update timer_eta t_fd x e).
Definition with_t_siggen (x : option nat) (e : timer) : timer := ltac:(record_update timer_eta t_siggen x e).
Definition with_loc_storage (x : Z) (e : timer) : timer := ltac:(record_update timer_eta loc_storage x e).
Definition with_t_event (x : queued) (e : timer) : timer := ltac:(record_update timer_eta t_event x e).

Definition event_named (id : string) (args : list node) (native : list Variant) : event_t := mkEvent id 0 true None args native None.

Definition unused_timer : timer :=
  mkTimer false false false "" 0 0 false (-1) None 0 (mkQueued (event_named "" [] []) false false 0 0 0).

Definition timer_table_size : nat := 256.

(** Where a thread is: before it looks at the table; with descriptors to poll; with those
    that can be read; with a timer that has expired. *)
Inductive phase :=
| Idle
| Scanned (l : list (nat * Z))
| Polled (l : list (nat * Z))
| Fires (i : nat) (fd : Z) (l : list (nat * Z)).

(** timerfd_create, timerfd_settime (value and interval as seconds and nanoseconds; negative:
    an error), close, poll (what can be read; [None]: an error) and read. *)
Inductive read_result := Again | Expired | Failed.

Class TimerFd (K : Type) := {
  timerfd_create : M K Z;
  timerfd_settime : Z -> Z * Z -> Z * Z -> M K Z;
  close_fd : Z -> M K unit;
  poll_fds : list Z -> M K (option (list bool));
  read_fd : Z -> M K read_result
}.

(** [enqueue_event], with the state it works on; what the syntax tree says of units. *)
Class TimerHost (Q : Type) := {
  core_enqueue_event : queued -> bool -> M Q unit;
  unit_of : node -> unit_rep;
  call_target : list node -> option node;            (* ceps: func_call_target *)
  call_args : list node -> list node                 (* ceps: the arguments of a call *)
}.

Record timers {K Q : Type} := mkTimers {
  timer_table : list timer;
  timed_events_active : Z;
  fdtimer_api_thread_running : bool;
  threads : list phase;
  unique_names : gset string;
  sig_generators : list (string * siggen);
  kernel : K;
  queue : Q
}.
Arguments timers : clear implicits.

Section timers.
Context {K Q : Type} `{TimerFd K} `{TimerHost Q}.

Definition timers_eta (s : timers K Q) : timers K Q :=
  mkTimers K Q (timer_table s) (timed_events_active s) (fdtimer_api_thread_running s) (threads s) (unique_names s)
    (sig_generators s) (kernel s) (queue s).

Definition with_timer_table (x : list timer) (s : timers K Q) : timers K Q := ltac:(record_update timers_eta (@timer_table K Q) x s).
Definition with_active (x : Z) (s : timers K Q) : timers K Q := ltac:(record_update timers_eta (@timed_events_active K Q) x s).
Definition with_running (x : bool) (s : timers K Q) : timers K Q := ltac:(record_update timers_eta (@fdtimer_api_thread_running K Q) x s).
Definition with_threads (x : list phase) (s : timers K Q) : timers K Q := ltac:(record_update timers_eta (@threads K Q) x s).
Definition with_sig_generators (x : list (string * siggen)) (s : timers K Q) : timers K Q := ltac:(record_update timers_eta (@sig_generators K Q) x s).
Definition with_kernel (x : K) (s : timers K Q) : timers K Q := ltac:(record_update timers_eta (@kernel K Q) x s).
Definition with_queue (x : Q) (s : timers K Q) : timers K Q := ltac:(record_update timers_eta (@queue K Q) x s).

Definition on_kernel {A} (m : M K A) : M (timers K Q) A := zoom kernel with_kernel m.
Definition on_events {A} (m : M Q A) : M (timers K Q) A := zoom queue with_queue m.
Definition set_timer (i : nat) (f : timer -> timer) : M (timers K Q) unit :=
  modify (fun s => with_timer_table (alter f i (timer_table s)) s).

Definition fatal {A} (what : string) : M (timers K Q) A := throw (Fatal (-1) what).

Definition new_timers (unique : gset string) (k : K) (q : Q) : timers K Q := mkTimers K Q [] 0 false [] unique [] k q.

(** ** Durations *)

Definition thousand : Z := 0x408F400000000000.
Definition billion : Z := 0x41CDCD6500000000.

(** A double that is converted to long: undefined outside its range. *)
Definition to_long (b : Z) : M (timers K Q) Z :=
  match f64_of_bits b with
  | S754_infinity _ | S754_nan => undef
  | _ => if fits_s 64 (f64_to_z b) then ret (f64_to_z b) else undef
  end.

(** The seconds and the nanoseconds of a duration that is not negative. *)
Definition itimer_value (delta : Z) : M (timers K Q) (Z * Z) :=
  let nan := f64_quiet_nan false in
  let! sec := to_long delta in
  let! nsec := to_long (f64_mul nan (f64_sub nan delta (f64_of_z nan sec)) billion) in
  ret (sec, nsec).

(** ** Stopping timers *)

Definition named (id : string) (e : timer) : bool := (String.length id =? 0)%nat || String.eqb id (t_name e).

Definition kill_named_timer_main_timer_table (id : string) : M (timers K Q) unit :=
  modify (fun s =>
    with_active (Z.of_nat (length (List.filter (fun e => negb (named id e) && in_use e && negb (kill e)) (timer_table s))))
      (with_timer_table (map (fun e => if named id e then with_kill true e else e) (timer_table s)) s)).

Definition stop_timer (id : string) : M (timers K Q) unit := kill_named_timer_main_timer_table id.
Definition kill_named_timer (id : string) : M (timers K Q) unit := stop_timer id.

(** ** Starting timers *)

Fixpoint first_free (l : list timer) : option nat :=
  match l with
  | [] => None
  | e :: l' => if in_use e then S <$> first_free l' else Some O
  end.

Definition occupied (name : string) (ms : Z) (ev : queued) (e : timer) : timer :=
  mkTimer true false true name ms ms (periodic e) (t_fd e) (t_siggen e) (loc_storage e) ev.

Definition configured (per : bool) (g : option nat) (e : timer) : timer :=
  with_t_siggen g (with_loc_storage 0 (with_periodic per e)).

(** The clock of the timer is set; with it the timer counts as active. *)
Definition set_clock (fd delta : Z) (per : bool) : M (timers K Q) unit :=
  let! v := itimer_value delta in
  let! r := on_kernel (timerfd_settime fd v (if per then v else (0, 0))) in
  if r <? 0 then fatal "timerfd_settime failed"
  else modify (fun s => with_active (timed_events_active s + 1) s).

Definition no_slot : string := "Out of resources: no available timer slot left.".

(** The entry that is taken, in the two versions of [exec_action_timer]. *)
Definition take_slot (name : string) (delta : Z) (per : bool) (ev : queued) (g : option nat) : M (timers K Q) unit :=
  let! s := get in
  match first_free (timer_table s) with
  | None => fatal no_slot
  | Some i =>
    let! ms := to_long (f64_mul (f64_quiet_nan false) delta thousand) in
    do! set_timer i (occupied name ms ev) in
    let! fd := on_kernel timerfd_create in
    do! set_timer i (with_t_fd fd) in
    do! set_timer i (configured per g) in
    if fd <? 0 then fatal "timerfd_create failed." else set_clock fd delta per
  end.

Definition take_slot_args (name : string) (delta : Z) (per : bool) (ev : queued) (g : option nat) : M (timers K Q) unit :=
  let! s := get in
  match first_free (timer_table s) with
  | None => fatal no_slot
  | Some i =>
    let! ms := to_long (f64_mul (f64_quiet_nan false) delta thousand) in
    do! set_timer i (occupied name ms ev) in
    let! fd := on_kernel timerfd_create in
    do! set_timer i (with_t_fd fd) in
    if fd <? 0 then fatal "tried to start a timer, then timerfd_create() failed"
    else do! set_timer i (configured per g) in set_clock fd delta per
  end.

Definition init_table : M (timers K Q) unit :=
  modify (fun s => with_active 0 (with_timer_table (replicate timer_table_size unused_timer) s)).

(** exec_action_timer(double, ev, id, bool, fp, siggen). *)
Definition exec_action_timer (t : Z) (name : string) (args : list Variant) (id : string) (per : bool) (fp : Z) (g : option nat) : M (timers K Q) bool :=
  if f64_lt t f64_zero then ret true
  else
    let ev_id := match g with Some _ => "@@set_state" | None => if fp =? 0 then name else "@@queued_action" end in
    do! (if (String.length id =? 0)%nat then ret tt else kill_named_timer_main_timer_table id) in
    let! s := get in
    let! more := match g with
                 | None => ret []
                 | Some h => let! sg := of_option (sig_generators s !! h) in ret [Variant_string (sg_target sg.2); Variant_double f64_zero]
                 end in
    let ev := mkQueued (event_named ev_id [] (args ++ more)) (bool_decide (ev_id ∈ unique_names s)) false 0 0 fp in
    let create_thread := (length (timer_table s) =? 0)%nat in
    do! (if create_thread then init_table else ret tt) in
    do! take_slot id t per ev g in
    do! (if create_thread then modify (fun s => with_threads (threads s ++ [Idle]) s) else ret tt) in
    ret true.

Definition start_timer (t : Z) (name : string) (args : list Variant) (id : string) : M (timers K Q) bool :=
  exec_action_timer t name args id false 0 None.
Definition start_periodic_timer (t : Z) (name : string) (args : list Variant) (id : string) : M (timers K Q) bool :=
  exec_action_timer t name args id true 0 None.
Definition start_periodic_timer_fp (t fp : Z) (id : string) : M (timers K Q) bool :=
  exec_action_timer t "" [] id true fp None.

Definition is_second (u : unit_rep) : bool :=
  (u_ampere u =? 0) && (u_candela u =? 0) && (u_kelvin u =? 0) && (u_kg u =? 0) && (u_m u =? 0) && (u_mol u =? 0) && (u_s u =? 1).

(** What is done when the timer expires: an event with or without arguments, or a name the
    interpreter looks at; [None]: not the arguments of a timer. *)
Definition timer_event (n : node) : option (M (timers K Q) (string * list node)) :=
  match n with
  | Symbol name kind => if String.eqb kind "Event" then Some (ret (name, [])) else None
  | Identifier _ => Some (ret ("@@queued_action", [n]))
  | Func_call parts =>
    Some (match call_target parts with
          | Some (Symbol name kind) =>
            if String.eqb kind "Event" then ret (name, call_args parts)
            else fatal "start_timer/start_periodic_timer: second argument has to be an event."
          | _ => fatal "start_timer/start_periodic_timer: second argument has to be an event."
          end)
  | _ => None
  end.

(** The name of the timer, the third argument: timers of this name are stopped. *)
Definition timer_id (args : list node) : M (timers K Q) string :=
  match args with
  | [] => ret ""
  | Identifier name :: _ => do! kill_named_timer name in ret name
  | _ => fatal "start_timer: third argument (the timer id) has to be an unbound identifier."
  end.

(** The duration as a double; [None]: it is negative. *)
Definition duration (n : node) : M (timers K Q) (option Z) :=
  match n with
  | Int_literal v => let d := f64_of_z (f64_quiet_nan false) v in ret (if f64_lt d f64_zero then None else Some d)
  | Float_literal d => ret (if f64_lt d f64_zero then None else Some d)
  | _ => fatal "Timer expectes first argument to be a numerical value."
  end.

(** The part that fills an entry of the table. *)
Definition start_in_table (delta : Z) (name : string) (args : list node) (id : string) (per : bool) (g : option nat) : M (timers K Q) unit :=
  let! s := get in
  let ev := mkQueued (event_named name args []) (bool_decide (name ∈ unique_names s)) false 0 0 0 in
  do! (if (length (timer_table s) =? 0)%nat then init_table else ret tt) in
  do! take_slot_args id delta per ev g in
  modify (fun s => if fdtimer_api_thread_running s then s else with_running true (with_threads (threads s ++ [Idle]) s)).

(** exec_action_timer(args, bool, siggen): periodic timers with an event go to the other
    version, without the arguments of the event. *)
Definition exec_action_timer_args (args : list node) (per : bool) (g : option nat) : M (timers K Q) unit :=
  match args with
  | a0 :: a1 :: rest =>
    match timer_event a1 with
    | None => ret tt
    | Some event =>
      let! ev := event in
      let! id := timer_id rest in
      let! d := duration a0 in
      match d with
      | None => ret tt
      | Some delta =>
        if negb (is_second (unit_of a0)) then fatal "Timer function expects first argument to be a duration (SI unit seconds)."
        else if negb (String.eqb ev.1 "@@queued_action") && per then do! start_periodic_timer delta ev.1 [] id in ret tt
        else start_in_table delta ev.1 ev.2 id per g
      end
    end
  | _ => ret tt
  end.

(** The functions of scripts. *)
Definition timer_function (id : string) (args : list node) : M (timers K Q) unit :=
  if bool_decide (id ∈ ["timer"; "start_timer"; "start_periodic_timer"]) then
    exec_action_timer_args args (String.eqb id "start_periodic_timer") None
  else if bool_decide (id ∈ ["kill_timer"; "stop_timer"]) then
    match args with
    | [] => kill_named_timer ""
    | Identifier name :: _ => kill_named_timer name
    | _ => fatal "stop_timer: first argument (the timer id) has to be an unbound identifier."
    end
  else ret tt.

(** ** Signal generators *)

Fixpoint find_name (id : string) (l : list (string * siggen)) : option nat :=
  match l with
  | [] => None
  | e :: l' => if String.eqb e.1 id then Some O else S <$> find_name id l'
  end.

Definition find_sig_gen (id : string) : M (timers K Q) (option nat) := gets (fun s => find_name id (sig_generators s)).

Definition add_sig_gen (id : string) (sig : siggen) : M (timers K Q) nat :=
  let! s := get in
  match find_name id (sig_generators s) with
  | Some h => do! modify (with_sig_generators (<[h := (id, sig)]> (sig_generators s))) in ret h
  | None => do! modify (with_sig_generators (sig_generators s ++ [(id, sig)])) in ret (length (sig_generators s))
  end.

(** ceps_fn_start_signal_gen(id, args): the values of the generator become those of a state. *)
Definition ceps_fn_start_signal_gen (args : list node) : M (timers K Q) unit :=
  match args with
  | Identifier name :: a1 :: _ =>
    let! h := find_sig_gen name in
    match h, a1 with
    | None, _ => ret tt
    | Some h, Symbol target _ =>
      let! s := get in
      let! g := of_option (sig_generators s !! h) in
      do! modify (with_sig_generators (<[h := (g.1, mkSiggen (sg_delta g.2) (sg_values g.2) target)]> (sig_generators s))) in
      do! exec_action_timer (sg_delta g.2) "" [] "" true 0 (Some h) in ret tt
    | _, _ => undef
    end
  | _ => undef
  end.

(** build_signal_structures: the signals a script defines. *)
Definition signal_id (content : list node) (id : string) : string :=
  foldl (fun id f => match f with
    | Binary_operator "=" (Identifier "id") (Identifier name) => name
    | _ => id
    end) id content.

Definition signal_delta (content : list node) (d : Z) : Z :=
  foldl (fun d f => match f with
    | Binary_operator "=" (Identifier "delta_t") (Float_literal v) => v
    | _ => d
    end) d content.

Definition signal_values (content : list node) : list Z :=
  concat (map (fun f => match f with
    | Structdef "values" vs =>
      omap (fun v => match v with
                     | Int_literal z => Some (f64_of_z (f64_quiet_nan false) z)
                     | Float_literal z => Some z
                     | _ => None
                     end) vs
    | _ => []
    end) content).

Definition build_signal (n : node) : M (timers K Q) unit :=
  match n with
  | Structdef "signal" content =>
    do! add_sig_gen (signal_id content "")
          (mkSiggen (signal_delta content (sg_delta new_siggen)) (signal_values content) "") in ret tt
  | _ => ret tt
  end.

Definition build_signal_structures (universe : list node) : M (timers K Q) unit := forM universe build_signal.

(** ** The thread *)

(** The table is looked at: stopped timers are closed and their entries are free again. *)
Fixpoint scan_from (i : nat) (l : list timer) : M K (list timer * list (nat * Z)) :=
  match l with
  | [] => ret ([], [])
  | e :: l' =>
    let! e' := (if kill e && in_use e then do! close_fd (t_fd e) in ret (with_t_fd (-1) (with_in_use false e)) else ret e) in
    let! rest := scan_from (S i) l' in
    ret (e' :: rest.1,
         (if negb (in_use e') || kill e' || (t_fd e' <? 0) then [] else [(i, t_fd e')]) ++ rest.2)
  end.

Definition scan : M (timers K Q) (list (nat * Z)) :=
  let! s := get in
  let! r := on_kernel (scan_from 0 (timer_table s)) in
  do! modify (fun s => with_active (Z.of_nat (length r.2)) (with_timer_table r.1 s)) in
  ret r.2.

(** The next value of the signal, the second argument of the event. *)
Definition next_value (e : timer) : M (timers K Q) timer :=
  match t_siggen e with
  | None => ret e
  | Some h =>
    let! s := get in
    let! g := of_option (sig_generators s !! h) in
    let n := Z.of_nat (length (sg_values g.2)) in
    if n =? 0 then ret e
    else if loc_storage e =? 2 ^ 31 - 1 then undef
    else
      let! v := of_option (zlookup (sg_values g.2) (to_u 64 (loc_storage e) mod n)) in
      let ev := q_event (t_event e) in
      let! native := of_option (zinsert (payload_native_ ev) 1 (Variant_double v)) in
      ret (with_loc_storage (loc_storage e + 1)
        (with_t_event (mkQueued (mkEvent (id_ ev) (iid_ ev) (str_id_valid_ ev) (protobufish_msg ev) (payload_ ev) native (error_ ev))
           (q_unique (t_event e)) (q_already_sent (t_event e)) (q_frmctxt (t_event e)) (q_exec (t_event e)) (q_glob_func (t_event e))) e))
  end.

(** A timer has expired: what it was called and its event, unless it was stopped. *)
Definition fire (i : nat) : M (timers K Q) (option timer) :=
  let! s := get in
  let! e := of_option (timer_table s !! i) in
  let! fired := (if kill e then ret None
                 else
                   let! e := next_value e in
                   do! set_timer i (fun _ => e) in
                   do! on_events (core_enqueue_event (t_event e) false) in
                   ret (Some e)) in
  do! set_timer i (fun e => if periodic e then e else with_kill true e) in
  ret fired.

Definition readable (l : list (nat * Z)) (r : list bool) : list (nat * Z) :=
  omap (fun p : nat * Z * bool => if p.2 then Some p.1 else None) (zip l r).

(** A step of thread [k]; the timer that fired. *)
Definition thread_step (k : nat) : M (timers K Q) (option timer) :=
  let! s := get in
  let goto p := modify (fun s => with_threads (<[k := p]> (threads s)) s) in
  match threads s !! k with
  | None => ret None
  | Some Idle =>
    let! l := scan in
    do! goto (match l with [] => Idle | _ => Scanned l end) in ret None
  | Some (Scanned l) =>
    let! r := on_kernel (poll_fds (map snd l)) in
    match r with
    | None => fatal "main_timer_thread_fn: poll failed."
    | Some r => do! goto (Polled (readable l r)) in ret None
    end
  | Some (Polled []) => do! goto Idle in ret None
  | Some (Polled ((i, fd) :: l)) =>
    let! r := on_kernel (read_fd fd) in
    match r with
    | Again => do! goto (Polled l) in ret None
    | Expired => do! goto (Fires i fd l) in ret None
    | Failed => fatal "main_timer_thread_fn: read failed."
    end
  | Some (Fires i fd l) =>
    let! fired := fire i in
    do! goto (Polled l) in ret fired
  end.
End timers.
