(* ===== verification/TimersSpec.v ===== *)
(** * TimersSpec: runs of the timers

    Calls that start and stop timers and steps of the threads, in any order; what each of
    them does to the table; what the threads may and may not fire. *)

From S2P Require Import Prelude MachineInt F64 Ast Fetch Timers.

Section runs.
Context {K Q : Type} `{TimerFd K} `{TimerHost Q}.
Implicit Types s : timers K Q.
Implicit Types T : list timer.

(** ** Steps *)

Inductive label :=
| L_start (id : string)
| L_stop (id : string)
| L_thread
| L_fire (e : timer).

Definition id_arg (args : list node) : string :=
  match args with _ :: _ :: Identifier name :: _ => name | _ => "" end.

Inductive tstep : timers K Q -> label -> timers K Q -> Prop :=
| ts_start t name args id per fp g r s s' : exec_action_timer t name args id per fp g s = Ok r s' -> tstep s (L_start id) s'
| ts_script args per g s s' : exec_action_timer_args args per g s = Ok tt s' -> tstep s (L_start (id_arg args)) s'
| ts_stop id s s' : stop_timer id s = Ok tt s' -> tstep s (L_stop id) s'
| ts_thread k fired s s' : thread_step k s = Ok fired s' ->
    tstep s (match fired with Some e => L_fire e | None => L_thread end) s'.

Inductive run : timers K Q -> list label -> timers K Q -> Prop :=
| run_nil s : run s [] s
| run_cons s l s1 ls s2 : tstep s l s1 -> run s1 ls s2 -> run s (l :: ls) s2.

Lemma run_app s ls1 ls2 s2 : run s (ls1 ++ ls2) s2 -> exists s1, run s ls1 s1 /\ run s1 ls2 s2.
Proof.
  revert s. induction ls1 as [|l ls1 IH]; intros s Hr; [exists s; split; [constructor|done]|].
  inversion Hr as [|? ? s1 ? ? Hs Hr']; subst. destruct (IH _ Hr') as (s3 & H1 & H2). exists s3. split; [by econstructor|done].
Qed.

(** ** What a step does to the table and the number of active timers *)

Definition live (e : timer) : bool := in_use e && negb (kill e).
Definition live_count T : Z := Z.of_nat (length (List.filter live T)).
Definition stopped (id : string) T : list timer := map (fun e => if named id e then with_kill true e else e) T.
Definition freed (e : timer) : timer := if kill e && in_use e then with_t_fd (-1) (with_in_use false e) else e.
Definition pollable (e : timer) : bool := live e && (0 <=? t_fd e).

Definition initialised T : list timer := match T with [] => replicate timer_table_size unused_timer | _ => T end.

Inductive effect T (n : Z) : label -> list timer -> Z -> Prop :=
| ef_negative id : effect T n (L_start id) T n
| ef_stopped_only id : effect T n (L_start id) (stopped id T) (live_count (stopped id T))
| ef_start id T1 n1 i e :
    (id = "" /\ T1 = T /\ n1 = n \/ T1 = stopped id T /\ n1 = live_count T1) ->
    first_free (initialised T1) = Some i -> in_use e = true -> kill e = false -> t_name e = id -> 0 <= t_fd e ->
    effect T n (L_start id) (<[i := e]> (initialised T1)) ((match T1 with [] => 0 | _ => n1 end) + 1)
| ef_stop id : effect T n (L_stop id) (stopped id T) (live_count (stopped id T))
| ef_thread : effect T n L_thread T n
| ef_scan : effect T n L_thread (map freed T) (Z.of_nat (length (List.filter pollable (map freed T))))
| ef_fire i e e' : T !! i = Some e -> kill e = false -> t_name e' = t_name e -> in_use e' = in_use e -> t_fd e' = t_fd e ->
    periodic e' = periodic e -> kill e' = kill e ->
    effect T n (L_fire e') (<[i := if periodic e' then e' else with_kill true e']> T) n.

Lemma live_stopped id T : live_count (stopped id T) = Z.of_nat (length (List.filter (fun e => negb (named id e) && in_use e && negb (kill e)) T)).
Proof.
  unfold live_count, stopped. f_equal. induction T as [|e T IH]; [done|]. cbn [map List.filter].
  unfold live at 1. destruct (named id e); cbn [negb andb with_kill in_use kill]; [by rewrite andb_false_r|].
  destruct (in_use e && negb (kill e)); cbn; by rewrite IH.
Qed.

Lemma stop_effect id s s' : stop_timer id s = Ok tt s' ->
  timer_table s' = stopped id (timer_table s) /\ timed_events_active s' = live_count (stopped id (timer_table s)) /\
  threads s' = threads s /\ fdtimer_api_thread_running s' = fdtimer_api_thread_running s.
Proof. intros E. apply Ok_state in E as <-. cbn. by rewrite live_stopped. Qed.

Lemma first_free_Some T i : first_free T = Some i -> exists e, T !! i = Some e /\ in_use e = false.
Proof.
  revert i. induction T as [|e T IH]; intros i; cbn [first_free]; [done|]. destruct (in_use e) eqn:E.
  - destruct (first_free T) as [j|]; [|done]. intros [= <-]. by apply IH.
  - intros [= <-]. by exists e.
Qed.

Lemma alter_Some (f : timer -> timer) T i e : T !! i = Some e -> alter f i T = <[i := f e]> T.
Proof. intros He. apply list_eq. intros j. destruct (decide (i = j)) as [<-|Hne].
  - rewrite list_lookup_alter_eq, list_lookup_insert_eq by (by eapply lookup_lt_Some). by rewrite He.
  - by rewrite list_lookup_alter_ne, list_lookup_insert_ne.
Qed.

Lemma alter_alter (f g : timer -> timer) T i : alter f i (alter g i T) = alter (fun e => f (g e)) i T.
Proof. revert i. induction T as [|e T IH]; intros [|i]; try done. cbn. f_equal. apply IH. Qed.

Lemma to_long_same b r s s' : to_long b s = Ok r s' -> s' = s.
Proof.
  unfold to_long. destruct (f64_of_bits b); try done; (destruct (fits_s 64 _); [|done]); unfold ret; congruence.
Qed.

Lemma itimer_same d r s s' : itimer_value d s = Ok r s' -> s' = s.
Proof.
  unfold itimer_value. intros (a & s1 & ->%to_long_same & E)%bind_inv_Ok. apply bind_inv_Ok in E as (b & s2 & ->%to_long_same & E).
  unfold ret in E. congruence.
Qed.

(** What stays when the table and the number of active timers change. *)
Definition beside s s' : Prop := threads s' = threads s /\ fdtimer_api_thread_running s' = fdtimer_api_thread_running s.

Lemma on_kernel_inv {A} (m : M K A) a s s' : on_kernel m s = Ok a s' -> exists k, s' = with_kernel k s.
Proof. unfold on_kernel, zoom. destruct (m (kernel s)); try done. intros [= _ <-]. by eexists. Qed.

Lemma set_clock_inv fd d per s s' : set_clock fd d per s = Ok tt s' ->
  timer_table s' = timer_table s /\ timed_events_active s' = timed_events_active s + 1 /\ beside s s'.
Proof.
  unfold set_clock. intros (v & s1 & ->%itimer_same & E)%bind_inv_Ok. apply bind_inv_Ok in E as (r & s2 & (k & ->)%on_kernel_inv & E).
  destruct (r <? 0); [done|]. by apply Ok_state in E as <-.
Qed.

(** The entry a new timer gets. *)
Definition placed (name : string) (per : bool) (ev : queued) (g : option nat) (e : timer) : Prop :=
  in_use e = true /\ kill e = false /\ t_name e = name /\ 0 <= t_fd e /\ periodic e = per /\ t_event e = ev /\ t_siggen e = g.

Definition slot_taken name per ev g s s' : Prop := exists i e,
  first_free (timer_table s) = Some i /\ timer_table s' = <[i := e]> (timer_table s) /\ placed name per ev g e /\
  timed_events_active s' = timed_events_active s + 1 /\ beside s s'.

Lemma take_slot_inv name d per ev g s s' : take_slot name d per ev g s = Ok tt s' -> slot_taken name per ev g s s'.
Proof.
  unfold take_slot, bind at 1, get. cbv beta iota. destruct (first_free (timer_table s)) as [i|] eqn:Ef; [|done].
  intros (ms & s1 & ->%to_long_same & E)%bind_inv_Ok. rewrite bind_unfold in E. cbn [set_timer modify] in E.
  apply bind_inv_Ok in E as (fd & s2 & (k & ->)%on_kernel_inv & E). rewrite !bind_unfold in E. cbn [set_timer modify] in E.
  destruct (Z.ltb_spec fd 0) as [|Hfd]; [done|]. apply set_clock_inv in E as (Ht & Ha & Hb).
  destruct (first_free_Some _ _ Ef) as (e0 & He0 & _). cbn in Ht, Ha, Hb.
  exists i, (configured per g (with_t_fd fd (occupied name ms ev e0))). split; [done|]. split; [|split; [|split; [exact Ha|exact Hb]]].
  - rewrite Ht, !alter_alter. exact (alter_Some _ _ _ _ He0).
  - by repeat split.
Qed.

Lemma take_slot_args_inv name d per ev g s s' : take_slot_args name d per ev g s = Ok tt s' -> slot_taken name per ev g s s'.
Proof.
  unfold take_slot_args, bind at 1, get. cbv beta iota. destruct (first_free (timer_table s)) as [i|] eqn:Ef; [|done].
  intros (ms & s1 & ->%to_long_same & E)%bind_inv_Ok. rewrite bind_unfold in E. cbn [set_timer modify] in E.
  apply bind_inv_Ok in E as (fd & s2 & (k & ->)%on_kernel_inv & E). rewrite bind_unfold in E. cbn [set_timer modify] in E.
  destruct (Z.ltb_spec fd 0) as [|Hfd]; [done|]. rewrite bind_unfold in E. cbn [set_timer modify] in E. apply set_clock_inv in E as (Ht & Ha & Hb).
  destruct (first_free_Some _ _ Ef) as (e0 & He0 & _). cbn in Ht, Ha, Hb.
  exists i, (configured per g (with_t_fd fd (occupied name ms ev e0))). split; [done|]. split; [|split; [|split; [exact Ha|exact Hb]]].
  - rewrite Ht, !alter_alter. exact (alter_Some _ _ _ _ He0).
  - by repeat split.
Qed.

(** Where a start begins: the timers of this name are stopped. *)
Definition replaced (id : string) s s1 : Prop :=
  (id = "" /\ s1 = s) \/ (timer_table s1 = stopped id (timer_table s) /\ timed_events_active s1 = live_count (timer_table s1) /\ beside s s1).

Lemma replaced_effect id s s1 s2 s' per ev g : replaced id s s1 ->
  timer_table s2 = initialised (timer_table s1) -> timed_events_active s2 = (match timer_table s1 with [] => 0 | _ => timed_events_active s1 end) ->
  slot_taken id per ev g s2 s' -> effect (timer_table s) (timed_events_active s) (L_start id) (timer_table s') (timed_events_active s').
Proof.
  intros Hr Ht Ha (i & e & Hf & Ht' & (H1 & H2 & H3 & H4 & _) & Ha' & _). rewrite Ht', Ha', Ha, Ht in *.
  apply (ef_start _ _ id (timer_table s1) (timed_events_active s1)); try done.
  destruct Hr as [[? ->]|(? & ? & _)]; [by left|by right].
Qed.

Lemma init_if_empty s : exists s2, (if (length (timer_table s) =? 0)%nat then init_table else ret tt) s = Ok tt s2 /\
  timer_table s2 = initialised (timer_table s) /\ timed_events_active s2 = (match timer_table s with [] => 0 | _ => timed_events_active s end) /\ beside s s2.
Proof. destruct (timer_table s) as [|e T] eqn:E; cbn; eexists; (split; [done|]); rewrite ?E; done. Qed.

Lemma exec_action_timer_inv t name args id per fp g r s s' : exec_action_timer t name args id per fp g s = Ok r s' ->
  (f64_lt t f64_zero = true /\ s' = s) \/
  exists s1 s2 s3 ev, f64_lt t f64_zero = false /\ replaced id s s1 /\ timer_table s2 = initialised (timer_table s1) /\
    timed_events_active s2 = (match timer_table s1 with [] => 0 | _ => timed_events_active s1 end) /\ beside s1 s2 /\
    slot_taken id per ev g s2 s3 /\ (g = None -> fp = 0 -> q_event ev = event_named name [] args) /\
    s' = (if (length (timer_table s1) =? 0)%nat then with_threads (threads s3 ++ [Idle]) s3 else s3).
Proof.
  unfold exec_action_timer. destruct (f64_lt t f64_zero); [intros E; left; split; [done|by apply Ok_state in E]|].
  intros ([] & s1 & E1 & E)%bind_inv_Ok. right.
  assert (Hr : replaced id s s1).
  { destruct id as [|c id]; cbn [String.length Nat.eqb] in E1; [left; split; [done|by apply Ok_state in E1]|right].
    destruct (stop_effect _ _ _ E1) as (H1 & H2 & H3 & H4). rewrite H1. by repeat split. }
  rewrite bind_unfold in E. cbn [get] in E. apply bind_inv_Ok in E as (more & s1' & Em & E).
  assert (Hm : s1' = s1 /\ (g = None -> more = [])).
  { destruct g as [h|]; [|unfold ret in Em; split; [congruence|intros _; congruence]].
    apply bind_inv_Ok in Em as (sg & s4 & Eo & Em). unfold of_option in Eo. destruct (sig_generators s1 !! h); [|done].
    unfold ret in *. split; [congruence|done]. }
  destruct Hm as [-> Hm]. set (ev := mkQueued _ _ _ _ _ _) in E. set (create := (length (timer_table s1) =? 0)%nat) in *.
  destruct (init_if_empty s1) as (s2 & Ei & Ht & Ha & Hb). fold create in Ei. rewrite (bind_Ok _ _ _ _ _ Ei) in E.
  apply bind_inv_Ok in E as ([] & s3 & Es & E). apply take_slot_inv in Es.
  exists s1, s2, s3, ev. split; [done|]. split; [done|]. split; [done|]. split; [done|]. split; [done|]. split; [done|]. split.
  { intros -> ->. cbn. by rewrite Hm, app_nil_r by done. }
  unfold create in E. destruct (length (timer_table s1) =? 0)%nat; rewrite bind_unfold in E; cbn [modify ret] in E; by apply Ok_state in E.
Qed.

Lemma exec_action_timer_effect t name args id per fp g r s s' : exec_action_timer t name args id per fp g s = Ok r s' ->
  effect (timer_table s) (timed_events_active s) (L_start id) (timer_table s') (timed_events_active s').
Proof.
  intros [[_ ->]|(s1 & s2 & s3 & ev & _ & Hr & Ht & Ha & _ & Hs & _ & ->)]%exec_action_timer_inv; [apply ef_negative|].
  pose proof (replaced_effect id s s1 s2 s3 per ev g Hr Ht Ha Hs). by destruct (_ =? 0)%nat.
Qed.

Lemma stopped_twice id T : stopped id (stopped id T) = stopped id T.
Proof.
  unfold stopped. rewrite map_map. apply map_ext. intros e. destruct (named id e) eqn:E; [|by rewrite E].
  change (named id (with_kill true e)) with (named id e). by rewrite E.
Qed.

Lemma beside_trans s1 s2 s3 : beside s1 s2 -> beside s2 s3 -> beside s1 s3.
Proof. unfold beside. intros [-> ->] [-> ->]. done. Qed.

Lemma replaced_trans id s1 s2 s3 : replaced id s1 s2 -> replaced id s2 s3 -> replaced id s1 s3.
Proof.
  intros [[-> ->]|(H1 & H2 & H3)] [[? ->]|(H4 & H5 & H6)]; [by left| | |]; right; [done|done|].
  rewrite H1, stopped_twice in H4. split; [done|]. split; [done|]. by eapply beside_trans.
Qed.

Lemma timer_event_same a1 (event : M (timers K Q) _) ev s s1 : timer_event a1 = Some event -> event s = Ok ev s1 -> s1 = s.
Proof.
  unfold timer_event. destruct a1 as [| | |name kind| | | |parts| | | | |]; try done.
  - destruct (String.eqb kind "Event"); [|done]. intros [= <-]. unfold ret. congruence.
  - intros [= <-]. unfold ret. congruence.
  - intros [= <-]. destruct (call_target parts) as [[]|]; try done. destruct (String.eqb kind "Event"); [|done]. unfold ret. congruence.
Qed.

Lemma timer_id_inv a0 a1 rest id s s1 : timer_id rest s = Ok id s1 -> id = id_arg (a0 :: a1 :: rest) /\ replaced id s s1.
Proof.
  destruct rest as [|a2 rest]; [unfold ret; intros [= <- <-]; split; [done|by left]|].
  destruct a2; try done. intros ([] & s2 & E & E2)%bind_inv_Ok. unfold ret in E2. injection E2 as <- ->.
  destruct (stop_effect _ _ _ E) as (H1 & H2 & H3 & H4). split; [done|]. right. rewrite H1. by repeat split.
Qed.

Lemma duration_same a0 d s s1 : duration a0 s = Ok d s1 -> s1 = s.
Proof. destruct a0; try done; unfold duration, ret; congruence. Qed.

Lemma replaced_only id s s1 : replaced id s s1 -> effect (timer_table s) (timed_events_active s) (L_start id) (timer_table s1) (timed_events_active s1).
Proof. intros [[_ ->]|(H1 & H2 & _)]; [apply ef_negative|]. rewrite H2, H1. apply ef_stopped_only. Qed.

(** What a script can do with a timer: nothing, stop it only, start it through the other
    version, or start it itself. *)
Lemma exec_args_inv args per g s s' : exec_action_timer_args args per g s = Ok tt s' ->
  let id := id_arg args in
  s' = s \/ replaced id s s' \/
  (exists s1 delta name r, per = true /\ replaced id s s1 /\ start_periodic_timer delta name [] id s1 = Ok r s') \/
  (exists s1 s2 s3 ev, replaced id s s1 /\ timer_table s2 = initialised (timer_table s1) /\
    timed_events_active s2 = (match timer_table s1 with [] => 0 | _ => timed_events_active s1 end) /\ beside s1 s2 /\
    slot_taken id per ev g s2 s3 /\
    s' = (if fdtimer_api_thread_running s3 then s3 else with_running true (with_threads (threads s3 ++ [Idle]) s3))).
Proof.
  destruct args as [|a0 [|a1 rest]]; try (intros E; left; by apply Ok_state in E). intros E id. unfold exec_action_timer_args in E.
  destruct (timer_event a1) as [event|] eqn:Et; [|left; by apply Ok_state in E].
  apply bind_inv_Ok in E as (ev & s0 & E0 & E). apply (timer_event_same _ _ _ _ _ Et) in E0 as ->.
  apply bind_inv_Ok in E as (id' & s1 & E1 & E). apply (timer_id_inv a0 a1) in E1 as [-> Hr]. fold id in E, Hr.
  apply bind_inv_Ok in E as (d & s1' & ->%duration_same & E). right. destruct d as [delta|]; [|left; by apply Ok_state in E as <-].
  right. destruct (is_second _); [|done]. cbn [negb] in E. destruct (negb _ && per) eqn:Ep.
  - left. apply bind_inv_Ok in E as (r & s2 & E2 & E). apply Ok_state in E as <-. apply andb_true_iff in Ep as [_ ->]. by exists s1, delta, ev.1, r.
  - right. unfold start_in_table in E. rewrite bind_unfold in E. cbn [get] in E.
    set (q := mkQueued _ _ _ _ _ _) in E. destruct (init_if_empty s1) as (s2 & Ei & Ht & Ha & Hb). rewrite (bind_Ok _ _ _ _ _ Ei) in E.
    apply bind_inv_Ok in E as ([] & s3 & Es & E). apply take_slot_args_inv in Es. apply Ok_state in E.
    exists s1, s2, s3, q. by rewrite <- E.
Qed.

Lemma exec_args_effect args per g s s' : exec_action_timer_args args per g s = Ok tt s' ->
  effect (timer_table s) (timed_events_active s) (L_start (id_arg args)) (timer_table s') (timed_events_active s').
Proof.
  intros [->|[Hr|[(s1 & d & name & r & -> & Hr & E)|(s1 & s2 & s3 & ev & Hr & Ht & Ha & _ & Hs & ->)]]]%exec_args_inv.
  - apply ef_negative.
  - by apply replaced_only.
  - unfold start_periodic_timer in E. apply exec_action_timer_inv in E as [[_ ->]|(s2 & s3 & s4 & ev & _ & Hr' & Ht & Ha & _ & Hs & _ & ->)].
    + by apply replaced_only.
    + pose proof (replaced_effect _ s s2 s3 s4 true ev None (replaced_trans _ _ _ _ Hr Hr') Ht Ha Hs). by destruct (_ =? 0)%nat.
  - pose proof (replaced_effect _ s s1 s2 s3 per ev g Hr Ht Ha Hs). by destruct (fdtimer_api_thread_running s3).
Qed.

(** ** Steps of a thread *)

Fixpoint polled_from (i : nat) T : list (nat * Z) :=
  match T with
  | [] => []
  | e :: T' => (if pollable e then [(i, t_fd e)] else []) ++ polled_from (Datatypes.S i) T'
  end.

Lemma pollable_test e : negb (in_use e) || kill e || (t_fd e <? 0) = negb (pollable e).
Proof. unfold pollable, live. destruct (in_use e), (kill e); cbn; try done. by destruct (Z.ltb_spec (t_fd e) 0), (Z.leb_spec 0 (t_fd e)); try lia. Qed.

Lemma scan_from_inv T : forall i r k k', scan_from i T k = Ok r k' -> r = (map freed T, polled_from i (map freed T)).
Proof.
  induction T as [|e T IH]; intros i r k k' E; [unfold scan_from, ret in E; by injection E as <- <-|]. cbn [scan_from] in E.
  apply bind_inv_Ok in E as (e' & k1 & E1 & E). assert (e' = freed e) as ->.
  { unfold freed. destruct (kill e && in_use e); [|unfold ret in E1; congruence].
    apply bind_inv_Ok in E1 as ([] & k2 & _ & E1). unfold ret in E1. congruence. }
  apply bind_inv_Ok in E as (rest & k2 & E2 & E). apply IH in E2 as ->. unfold ret in E. injection E as <- _. cbn [fst snd map polled_from].
  rewrite pollable_test. by destruct (pollable (freed e)).
Qed.

Lemma polled_length T : forall i, length (polled_from i T) = length (List.filter pollable T).
Proof. induction T as [|e T IH]; intros i; [done|]. cbn [polled_from List.filter]. rewrite length_app, IH. by destruct (pollable e). Qed.

Lemma scan_inv s l s' : scan s = Ok l s' ->
  timer_table s' = map freed (timer_table s) /\ l = polled_from 0 (timer_table s') /\
  timed_events_active s' = Z.of_nat (length (List.filter pollable (timer_table s'))) /\ beside s s' /\ queue s' = queue s.
Proof.
  unfold scan. rewrite bind_unfold. cbn [get]. intros (r & s1 & E1 & E)%bind_inv_Ok.
  unfold on_kernel, zoom in E1. destruct (scan_from 0 (timer_table s) (kernel s)) as [r' k'| | |] eqn:Es; try done. injection E1 as -> <-.
  apply scan_from_inv in Es as ->. rewrite bind_unfold in E. cbn [modify ret] in E. injection E as <- <-. cbn. by rewrite polled_length.
Qed.

Lemma next_value_inv e e' s s' : next_value e s = Ok e' s' -> s' = s /\ t_name e' = t_name e /\ in_use e' = in_use e /\ t_fd e' = t_fd e /\
  periodic e' = periodic e /\ kill e' = kill e /\ (t_siggen e = None -> e' = e).
Proof.
  unfold next_value. destruct (t_siggen e) as [h|]; [|unfold ret; intros [= <- <-]; done]. rewrite bind_unfold. cbn [get].
  intros (g & s1 & E1 & E)%bind_inv_Ok. unfold of_option in E1. destruct (sig_generators s !! h); [|done]. injection E1 as -> <-.
  destruct (_ =? 0); [unfold ret in E; by injection E as <- <-|]. destruct (_ =? _); [done|].
  apply bind_inv_Ok in E as (v & s1 & E1 & E). unfold of_option in E1. destruct (zlookup _ _); [|done]. injection E1 as -> <-.
  apply bind_inv_Ok in E as (nat' & s1 & E1 & E). unfold of_option in E1. destruct (zinsert _ _ _); [|done]. injection E1 as -> <-.
  unfold ret in E. injection E as <- <-. done.
Qed.

Lemma fire_inv i s fired s' : fire i s = Ok fired s' -> exists e, timer_table s !! i = Some e /\
  timed_events_active s' = timed_events_active s /\ beside s s' /\
  ((kill e = true /\ fired = None /\ timer_table s' = timer_table s /\ queue s' = queue s) \/
   (kill e = false /\ exists e', fired = Some e' /\ next_value e s = Ok e' s /\
      timer_table s' = <[i := if periodic e' then e' else with_kill true e']> (timer_table s) /\
      core_enqueue_event (t_event e') false (queue s) = Ok tt (queue s'))).
Proof.
  unfold fire. rewrite bind_unfold. cbn [get]. intros (e & s1 & E1 & E)%bind_inv_Ok. unfold of_option in E1.
  destruct (timer_table s !! i) as [e0|] eqn:He; [|done]. injection E1 as -> <-. exists e. split; [done|].
  destruct (kill e) eqn:Hk.
  - rewrite bind_unfold in E. cbn [ret] in E. rewrite bind_unfold in E. cbn [set_timer modify ret] in E. injection E as <- <-. cbn.
    split; [done|]. split; [done|]. left. split; [done|]. split; [done|]. split; [|done]. rewrite (alter_Some _ _ _ _ He).
    apply list_insert_id. rewrite He. f_equal. destruct (periodic e); [done|]. unfold with_kill. rewrite <- Hk. by destruct e.
  - apply bind_inv_Ok in E as (f & s1 & E1 & E). apply bind_inv_Ok in E1 as (e' & s2 & Hn & E1). pose proof (next_value_inv _ _ _ _ Hn) as (-> & _).
    rewrite bind_unfold in E1. cbn [set_timer modify] in E1. apply bind_inv_Ok in E1 as ([] & s2 & Eq & E1).
    unfold ret in E1. injection E1 as <- ->. unfold on_events, zoom in Eq. cbn [queue] in Eq.
    match type of Eq with context [core_enqueue_event ?q ?b ?st] => destruct (core_enqueue_event q b st) as [[] q'| | |] eqn:Ec; try done end.
    injection Eq as <-. rewrite bind_unfold in E. cbn [set_timer modify ret] in E. injection E as <- <-. cbn.
    split; [done|]. split; [done|]. right. split; [done|]. exists e'. split; [done|]. split; [done|]. split; [|done].
    rewrite alter_alter. by rewrite (alter_Some _ _ _ _ He).
Qed.

Lemma goto_beside k p s : timer_table (with_threads (<[k := p]> (threads s)) s) = timer_table s.
Proof. done. Qed.

Lemma thread_step_effect k fired s s' : thread_step k s = Ok fired s' ->
  effect (timer_table s) (timed_events_active s) (match fired with Some e => L_fire e | None => L_thread end) (timer_table s') (timed_events_active s').
Proof.
  unfold thread_step. rewrite bind_unfold. cbn [get]. destruct (threads s !! k) as [[|l|l|i fd l]|]; [| | | |unfold ret; intros [= <- <-]; apply ef_thread].
  - intros (l & s1 & (H1 & _ & H3 & _)%scan_inv & E)%bind_inv_Ok. rewrite bind_unfold in E. cbn [modify ret] in E. injection E as <- <-. cbn.
    rewrite H3, H1. apply ef_scan.
  - intros (r & s1 & (k' & ->)%on_kernel_inv & E)%bind_inv_Ok. destruct r; [|done]. rewrite bind_unfold in E. cbn [modify ret] in E. injection E as <- <-. apply ef_thread.
  - destruct l as [|[i fd] l]; [rewrite bind_unfold; cbn [modify ret]; intros [= <- <-]; apply ef_thread|].
    intros (r & s1 & (k' & ->)%on_kernel_inv & E)%bind_inv_Ok. destruct r; try done; rewrite bind_unfold in E; cbn [modify ret] in E; injection E as <- <-; apply ef_thread.
  - intros (f & s1 & (e & He & Ha & _ & Hc)%fire_inv & E)%bind_inv_Ok. rewrite bind_unfold in E. cbn [modify ret] in E. injection E as <- <-. cbn. rewrite Ha.
    destruct Hc as [(_ & -> & -> & _)|(Hk & e' & -> & (_ & H2 & H3 & H4 & H5 & H6 & _)%next_value_inv & -> & _)]; [apply ef_thread|].
    by apply (ef_fire _ _ i e e').
Qed.

Lemma tstep_effect s l s' : tstep s l s' -> effect (timer_table s) (timed_events_active s) l (timer_table s') (timed_events_active s').
Proof.
  destruct 1 as [t name args id per fp g r s s' E|args per g s s' E|id s s' E|k fired s s' E].
  - by eapply exec_action_timer_effect.
  - by eapply exec_args_effect.
  - destruct (stop_effect _ _ _ E) as (-> & -> & _). apply ef_stop.
  - by eapply thread_step_effect.
Qed.

(** ** What holds in every run *)

Record table_ok T (n : Z) : Prop := {
  tk_size : T = [] \/ length T = timer_table_size;
  tk_fds : Forall (fun e => live e = true -> 0 <= t_fd e) T;
  tk_count : live_count T <= n;
  tk_names i j e e' : T !! i = Some e -> T !! j = Some e' -> kill e = false -> kill e' = false ->
    t_name e = t_name e' -> t_name e <> "" -> i = j
}.

Lemma named_covers id e : named id e = true <-> id = "" \/ id = t_name e.
Proof.
  unfold named. rewrite orb_true_iff, Nat.eqb_eq, String.eqb_eq. split; (intros [Hl|Hr]; [left|by right]); [by destruct id|by subst].
Qed.

Lemma lookup_stopped id T i e : stopped id T !! i = Some e ->
  exists e0, T !! i = Some e0 /\ t_name e = t_name e0 /\ in_use e = in_use e0 /\ t_fd e = t_fd e0 /\ (kill e = false -> kill e0 = false /\ named id e0 = false).
Proof.
  unfold stopped. rewrite list_lookup_fmap. destruct (T !! i) as [e0|]; [|done]. cbn. intros [= <-]. exists e0.
  by destruct (named id e0).
Qed.

Lemma live_count_insert T i e e0 : T !! i = Some e0 -> live_count (<[i := e]> T) <= live_count T + (if live e0 then 0 else if live e then 1 else 0).
Proof.
  unfold live_count. revert i. induction T as [|x T IH]; intros [|i]; try done.
  - intros [= ->]. change (<[0%nat := e]> (e0 :: T)) with (e :: T). cbn [List.filter]. destruct (live e), (live e0); cbn [length]; lia.
  - intros He. specialize (IH i He). change (<[Datatypes.S i := e]> (x :: T)) with (x :: <[i := e]> T). cbn [List.filter].
    destruct (live x); cbn [length]; lia.
Qed.

Lemma stopped_ok id T n : table_ok T n -> table_ok (stopped id T) (live_count (stopped id T)).
Proof.
  intros [Hs Hf _ Hn]. split.
  - destruct Hs as [->|Hs]; [by left|right]. by unfold stopped; rewrite length_map.
  - rewrite Forall_lookup in *. intros i e (e0 & H1 & _ & H2 & -> & H3)%lookup_stopped Hl. apply (Hf i _ H1). unfold live in *.
    apply andb_true_iff in Hl as [Hl ?%negb_true_iff]. rewrite <- H2, Hl. by destruct (H3 ltac:(done)) as [-> _].
  - done.
  - intros i j e e' (e0 & H1 & -> & _ & _ & H2)%lookup_stopped (e1 & H3 & -> & _ & _ & H4)%lookup_stopped Hk Hk'. apply (Hn i j); try done; [by apply H2|by apply H4].
Qed.

(** A new timer takes a free entry while no other timer of its name is alive. *)
Lemma place_ok id T n i e : table_ok T n -> first_free T = Some i -> in_use e = true -> kill e = false -> t_name e = id -> 0 <= t_fd e ->
  (id = "" \/ forall j e', T !! j = Some e' -> t_name e' = id -> kill e' = true) -> table_ok (<[i := e]> T) (n + 1).
Proof.
  intros [Hs Hf Hc Hn] (e0 & He0 & Hu)%first_free_Some He Hk Hname Hfd Hid. split.
  - rewrite length_insert. destruct Hs as [->|]; [done|by right].
  - rewrite Forall_lookup in *. intros j x Hx Hl. destruct (decide (i = j)) as [<-|Hne].
    + rewrite list_lookup_insert_eq in Hx by (by eapply lookup_lt_Some). by injection Hx as <-.
    + rewrite list_lookup_insert_ne in Hx by done. by apply (Hf j).
  - pose proof (live_count_insert T i e e0 He0). destruct (live e0), (live e); lia.
  - assert (Hsub : forall j x, <[i := e]> T !! j = Some x -> (j = i /\ x = e) \/ (j <> i /\ T !! j = Some x)).
    { intros j x Hx. destruct (decide (i = j)) as [<-|Hne].
      + rewrite list_lookup_insert_eq in Hx by (by eapply lookup_lt_Some). injection Hx as <-. by left.
      + rewrite list_lookup_insert_ne in Hx by done. right. split; [congruence|done]. }
    intros j k x y [[-> ->]|[Hj Hx]]%Hsub [[-> ->]|[Hk' Hy]]%Hsub Kx Ky Hxy Hne; try done.
    + destruct Hid as [Hid|Hid]; [congruence|]. specialize (Hid k y Hy ltac:(congruence)). congruence.
    + destruct Hid as [Hid|Hid]; [congruence|]. specialize (Hid j x Hx ltac:(congruence)). congruence.
    + by apply (Hn j k x y).
Qed.

Lemma initialised_ok T n : table_ok T n -> table_ok (initialised T) (match T with [] => 0 | _ => n end).
Proof.
  intros Ht. destruct T as [|e T]; [|done]. cbn [initialised]. split.
  - right. apply length_replicate.
  - apply Forall_replicate. done.
  - unfold live_count. assert (Hr : forall m, List.filter live (replicate m unused_timer) = []) by (induction m; done). by rewrite Hr.
  - intros i j e e' [-> _]%lookup_replicate _ _ _ _ Hne. done.
Qed.

Lemma lookup_freed T i e : map freed T !! i = Some e -> exists e0, T !! i = Some e0 /\ e = freed e0.
Proof. rewrite list_lookup_fmap. destruct (T !! i) as [e0|]; [|done]. intros [= <-]. by exists e0. Qed.

Lemma freed_fields e : t_name (freed e) = t_name e /\ kill (freed e) = kill e /\ live (freed e) = live e /\ (live e = true -> freed e = e).
Proof. unfold freed, live. destruct (kill e) eqn:Ek, (in_use e) eqn:Ei; cbn; rewrite ?Ek, ?Ei; done. Qed.

Lemma scan_ok T n : table_ok T n -> table_ok (map freed T) (Z.of_nat (length (List.filter pollable (map freed T)))).
Proof.
  intros [Hs Hf Hc Hn]. assert (Hf' : Forall (fun e => live e = true -> 0 <= t_fd e) (map freed T)).
  { rewrite Forall_lookup in *. intros i e (e0 & He & ->)%lookup_freed. destruct (freed_fields e0) as (_ & _ & -> & Hx). intros Hl. rewrite Hx by done. by apply (Hf i). }
  split.
  - rewrite length_map. destruct Hs as [->|]; [by left|by right].
  - done.
  - unfold live_count. apply inj_le, Nat.eq_le_incl. f_equal. clear - Hf'. induction Hf' as [|e T' He HT IH]; [done|]. cbn [List.filter].
    unfold pollable. destruct (live e) eqn:El; [|done]. rewrite (proj2 (Z.leb_le _ _)) by (by apply He). cbn [andb]. by rewrite IH.
  - intros i j e e' (e0 & H1 & ->)%lookup_freed (e1 & H2 & ->)%lookup_freed.
    destruct (freed_fields e0) as (-> & -> & _), (freed_fields e1) as (-> & -> & _). by apply Hn.
Qed.

Lemma effect_ok T n l T' n' : effect T n l T' n' -> table_ok T n -> table_ok T' n'.
Proof.
  intros Hf Hok. destruct Hf as [id|id|id T1 n1 i e Hr Hfree Hu Hk Hname Hfd|id| | |i e e' He Hk H1 H2 H3 H4 H5].
  - done.
  - by eapply stopped_ok.
  - assert (Hok1 : table_ok T1 n1) by (destruct Hr as [(_ & -> & ->)|[-> ->]]; [done|by eapply stopped_ok]).
    apply (place_ok id); try done; [by apply initialised_ok|]. destruct (decide (id = "")) as [|Hid]; [by left|right].
    destruct Hr as [(? & _)|[-> _]]; [done|]. intros j e' Hj Hn. destruct T as [|e0 T].
    { unfold stopped in Hj. cbn [map initialised] in Hj. apply lookup_replicate in Hj as [-> _]. by subst id. }
    change (initialised (stopped id (e0 :: T))) with (stopped id (e0 :: T)) in Hj. apply lookup_stopped in Hj as (x & Hx & Hnx & _ & _ & Hkx).
    destruct (kill e') eqn:Ek; [done|]. destruct (Hkx eq_refl) as [_ Hc]. assert (named id x = true); [|congruence].
    apply named_covers. right. congruence.
  - by eapply stopped_ok.
  - done.
  - by eapply scan_ok.
  - destruct Hok as [Hs Hf Hc Hn]. set (x := if periodic e' then e' else with_kill true e').
    assert (Hx : t_name x = t_name e /\ in_use x = in_use e /\ t_fd x = t_fd e) by (unfold x; by destruct (periodic e')). destruct Hx as (Hx1 & Hx2 & Hx3).
    assert (Hlive : live x = true -> live e = true) by (unfold live; rewrite Hx2, Hk; by destruct (in_use e)).
    split.
    + rewrite length_insert. destruct Hs as [->|]; [done|by right].
    + apply Forall_insert; [done|]. intros Hl. rewrite Hx3. rewrite Forall_lookup in Hf. by apply (Hf i); auto.
    + pose proof (live_count_insert T i x e He). unfold x in *. destruct (live e), (live (if periodic e' then _ else _)); lia.
    + assert (Hsub : forall j y, <[i := x]> T !! j = Some y -> kill y = false -> exists y0, T !! j = Some y0 /\ t_name y = t_name y0 /\ kill y0 = false).
      { intros j y Hy Ky. destruct (decide (i = j)) as [<-|Hne].
        - rewrite list_lookup_insert_eq in Hy by (by eapply lookup_lt_Some). injection Hy as <-. by exists e.
        - rewrite list_lookup_insert_ne in Hy by done. by exists y. }
      intros j k y z Hy Hz Ky Kz Hyz Hne. destruct (Hsub j y Hy Ky) as (y0 & ? & ? & ?), (Hsub k z Hz Kz) as (z0 & ? & ? & ?).
      apply (Hn j k y0 z0); congruence.
Qed.

Definition run_ok s : Prop := table_ok (timer_table s) (timed_events_active s).

Lemma run_keeps s ls s' : run s ls s' -> run_ok s -> run_ok s'.
Proof. induction 1 as [|s l s1 ls s2 Hs%tstep_effect Hr IH]; [done|]. intros Hok. apply IH. by eapply effect_ok. Qed.

Lemma new_ok unique k q : run_ok (new_timers unique k q).
Proof. split; [by left|done|done|]. intros i j e e' He. done. Qed.

(** ** What does not fire *)

Definition covers (id name : string) : Prop := id = "" \/ id = name.

(** No entry of such a name can fire. *)
Definition quiet (id : string) T : Prop := forall e, e ∈ T -> covers id (t_name e) -> kill e = true.

Lemma stopped_quiet id T : quiet id (stopped id T).
Proof.
  intros e (i & He)%list_elem_of_lookup Hc. apply lookup_stopped in He as (e0 & _ & Hn & _ & _ & Hk). destruct (kill e); [done|].
  destruct (Hk eq_refl) as [_ Hk']. rewrite Hn in Hc. apply named_covers in Hc. congruence.
Qed.

Lemma stopped_stays id id' T : quiet id T -> quiet id (stopped id' T).
Proof.
  intros Hq e (i & He)%list_elem_of_lookup Hc. apply lookup_stopped in He as (e0 & He & Hn & _ & _ & Hk). destruct (kill e); [done|].
  destruct (Hk eq_refl) as [Hk' _]. rewrite Hn in Hc. apply list_elem_of_lookup_2 in He. specialize (Hq _ He Hc). congruence.
Qed.

Lemma effect_quiet id T n l T' n' : effect T n l T' n' -> (forall id', l = L_start id' -> ~ covers id id') -> quiet id T ->
  quiet id T' /\ (forall e, l = L_fire e -> ~ covers id (t_name e)).
Proof.
  intros Hf Hl Hq. destruct Hf as [id'|id'|id' T1 n1 i e Hr Hfree Hu Hk Hname Hfd|id'| | |i e e' He Hk H1 H2 H3 H4 H5]; (split; [|try done]).
  - done.
  - by apply stopped_stays.
  - assert (Hid : ~ covers id id') by (by apply Hl). assert (Hq1 : quiet id (initialised T1)).
    { assert (quiet id T1) by (destruct Hr as [(_ & -> & _)|[-> _]]; [done|by apply stopped_stays]). destruct T1; [|done].
      intros x [-> _]%elem_of_replicate Hc. exfalso. destruct Hc as [->|Hc]; [by apply Hid; left|]. cbn in Hc. subst id. by apply Hid; left. }
    intros x Hx Hc. apply list_elem_of_lookup in Hx as (j & Hx). destruct (decide (i = j)) as [<-|Hne].
    + rewrite list_lookup_insert_eq in Hx by (apply first_free_Some in Hfree as (y & Hy & _); by eapply lookup_lt_Some). injection Hx as <-. by rewrite Hname in Hc.
    + rewrite list_lookup_insert_ne in Hx by done. apply (Hq1 x); [by eapply list_elem_of_lookup_2|done].
  - by apply stopped_stays.
  - done.
  - intros x (j & (y & Hy & ->)%lookup_freed)%list_elem_of_lookup Hc. destruct (freed_fields y) as (Hn & -> & _). rewrite Hn in Hc.
    apply Hq; [by eapply list_elem_of_lookup_2|done].
  - intros x (j & Hx)%list_elem_of_lookup Hc. destruct (decide (i = j)) as [<-|Hne].
    + rewrite list_lookup_insert_eq in Hx by (by eapply lookup_lt_Some). injection Hx as <-.
      destruct (periodic e'); [|done]. rewrite H1 in Hc. rewrite H5. apply Hq; [by eapply list_elem_of_lookup_2|done].
    + rewrite list_lookup_insert_ne in Hx by done. apply Hq; [by eapply list_elem_of_lookup_2|done].
  - intros x [= <-] Hc. rewrite H1 in Hc. rewrite (Hq e) in Hk by (try done; by eapply list_elem_of_lookup_2). done.
Qed.

Lemma run_quiet id s ls s' : run s ls s' -> (forall id', L_start id' ∈ ls -> ~ covers id id') -> quiet id (timer_table s) ->
  forall e, L_fire e ∈ ls -> ~ covers id (t_name e).
Proof.
  induction 1 as [s|s l s1 ls s2 Hs%tstep_effect Hr IH]; intros Hl Hq e He; [by apply not_elem_of_nil in He|].
  destruct (effect_quiet id _ _ _ _ _ Hs) as [Hq1 Hfire]; [|done|].
  { intros id' ->. apply Hl. constructor. }
  apply elem_of_cons in He as [He|He]; [by apply Hfire|]. apply IH; try done. intros id' Hin. apply Hl. by constructor.
Qed.

(** C20: a timer that was stopped, or that has expired and is not periodic, stays silent until
    a timer of its name is started again, even when a thread had seen it expire before:
    stopping without a name silences all timers. *)
Theorem silent_timers_stay_silent unique k q ls0 s0 l ls s id : run (new_timers unique k q) ls0 s0 -> run s0 (l :: ls) s ->
  l = L_stop id \/ (exists e, l = L_fire e /\ periodic e = false /\ t_name e = id /\ id <> "") ->
  (forall id', L_start id' ∈ ls -> ~ covers id id') -> forall e, L_fire e ∈ ls -> ~ covers id (t_name e).
Proof.
  intros H0' Hr Hc Hl. apply run_keeps in H0'; [|apply new_ok]. inversion Hr as [|? ? s1 ? ? Hs Hr']; subst. apply tstep_effect in Hs.
  apply (run_quiet id s1 ls s Hr' Hl). destruct Hc as [->|(e & -> & Hp & <- & Hne)].
  - inversion Hs; subst. apply stopped_quiet.
  - destruct (effect_ok _ _ _ _ _ Hs H0') as [_ _ _ Hn]. inversion Hs as [| | | | | |i e0 e' He Hk E1 E2 E3 E4 E5]; subst. rewrite Hp in *.
    intros x (j & Hx)%list_elem_of_lookup Hcov. destruct Hcov as [|Hcov]; [done|]. destruct (kill x) eqn:Kx; [done|exfalso].
    destruct H0' as [_ _ _ Hn0]. destruct (decide (i = j)) as [<-|Hij].
    + rewrite list_lookup_insert_eq in Hx by (by eapply lookup_lt_Some). injection Hx as <-. done.
    + rewrite list_lookup_insert_ne in Hx by done. apply Hij. apply (Hn0 i j e0 x); congruence.
Qed.
End runs.
