(* ===== verification/TimersRound.v ===== *)
(** * TimersRound: what a thread fires

    A round of the one thread that watches the table, and what holds for it between its
    steps while other threads start and stop timers. At the end the theorems are applied. *)

From S2P Require Import Prelude MachineInt Ast Fetch Timers TimersSpec.
From S2P Require Import EventQueue Nmp.

Section round.
Context {K Q : Type} `{TimerFd K} `{TimerHost Q}.
Implicit Types s : timers K Q.
Implicit Types T : list timer.

(** ** One thread *)

Definition watches T (p : nat * Z) : Prop := exists e, T !! p.1 = Some e /\ in_use e = true /\ t_fd e = p.2.

(** The entries a thread remembers are still those it has seen. *)
Definition phase_ok T (p : phase) : Prop :=
  match p with
  | Idle => True
  | Scanned l | Polled l => Forall (watches T) l
  | Fires i fd l => watches T (i, fd) /\ Forall (watches T) l
  end.

Definition one_thread_ok s : Prop := forall p, threads s = [p] -> phase_ok (timer_table s) p.

Lemma phase_ok_mono T T' p : (forall x, watches T x -> watches T' x) -> phase_ok T p -> phase_ok T' p.
Proof.
  intros Hw. destruct p; cbn; [done| | |intros [? ?]; split; [by apply Hw|]]; intros; by eapply Forall_impl.
Qed.

Lemma watches_stopped id T x : watches T x -> watches (stopped id T) x.
Proof.
  intros (e & He & Hu & Hf). unfold watches, stopped. rewrite list_lookup_fmap, He. cbn. eexists. split; [done|]. by destruct (named id e).
Qed.

Lemma watches_placed T i e x : first_free T = Some i -> watches T x -> watches (<[i := e]> T) x.
Proof.
  intros (e0 & He0 & Hu0)%first_free_Some (y & Hy & Hu & Hf). exists y. split; [|done]. rewrite list_lookup_insert_ne; [done|]. intros ->. congruence.
Qed.

Lemma watches_initialised T x : watches T x -> watches (initialised T) x.
Proof. destruct T; [|done]. by intros (e & He & _). Qed.

Lemma polled_watches T : forall i pre, length pre = i -> Forall (watches (pre ++ T)) (polled_from i T).
Proof.
  induction T as [|e T IH]; intros i pre Hi; cbn [polled_from]; [done|]. apply Forall_app. split.
  - destruct (pollable e) eqn:Ep; [|done]. constructor; [|done]. exists e. split; [|].
    + cbn. subst i. by rewrite lookup_app_r, Nat.sub_diag by lia.
    + unfold pollable, live in Ep. apply andb_true_iff in Ep as [[? _]%andb_true_iff _]. done.
  - specialize (IH (S i) (pre ++ [e])). rewrite <- app_assoc in IH. apply IH. rewrite length_app. cbn. lia.
Qed.

Lemma readable_watches T l r : Forall (watches T) l -> Forall (watches T) (readable l r).
Proof.
  unfold readable. revert r. induction l as [|x l IH]; intros r Hl; [done|]. inversion_clear Hl. destruct r as [|b r]; [done|]. cbn.
  destruct b; [constructor; [done|]|]; by apply IH.
Qed.

Lemma effect_watches T n l T' n' x : effect T n l T' n' -> l <> L_thread -> watches T x -> watches T' x.
Proof.
  intros Hf Hl Hw. destruct Hf as [id|id|id T1 n1 i e Hr Hfree Hu Hk Hname Hfd|id| | |i e e' He Hk H1 H2 H3 H4 H5]; try done.
  - by apply watches_stopped.
  - apply watches_placed; [done|]. apply watches_initialised. destruct Hr as [(_ & -> & _)|[-> _]]; [done|by apply watches_stopped].
  - by apply watches_stopped.
  - destruct Hw as (y & Hy & Hu & Hfd). destruct (decide (i = x.1)) as [->|Hne].
    + exists (if periodic e' then e' else with_kill true e'). rewrite list_lookup_insert_eq by (by eapply lookup_lt_Some).
      rewrite He in Hy. injection Hy as <-. split; [done|]. destruct (periodic e'); cbn; by rewrite H2, H3.
    + exists y. by rewrite list_lookup_insert_ne.
Qed.

Definition threads_added s s' : Prop := threads s' = threads s \/ threads s' = threads s ++ [Idle].

Lemma beside_taken s s1 s2 s3 id name per ev g : replaced id s s1 -> beside s1 s2 -> slot_taken name per ev g s2 s3 -> threads s3 = threads s.
Proof. intros [[_ ->]|(_ & _ & [<- _])] [<- _] (i & e & _ & _ & _ & _ & [<- _]); done. Qed.

Lemma start_threads t name args id per fp g r s s' : exec_action_timer t name args id per fp g s = Ok r s' -> threads_added s s'.
Proof.
  intros [[_ ->]|(s1 & s2 & s3 & ev & _ & Hr & _ & _ & Hb & Hs & _ & ->)]%exec_action_timer_inv; [by left|].
  pose proof (beside_taken _ _ _ _ _ _ _ _ _ Hr Hb Hs) as E. destruct (_ =? 0)%nat; [right|left]; cbn; by rewrite E.
Qed.

Lemma script_threads args per g s s' : exec_action_timer_args args per g s = Ok tt s' -> threads_added s s'.
Proof.
  intros [->|[Hr|[(s1 & d & name & r & -> & Hr & E)|(s1 & s2 & s3 & ev & Hr & _ & _ & Hb & Hs & ->)]]]%exec_args_inv.
  - by left.
  - left. by destruct Hr as [[_ ->]|(_ & _ & [-> _])].
  - assert (E1 : threads s1 = threads s) by (by destruct Hr as [[_ ->]|(_ & _ & [-> _])]).
    apply start_threads in E. unfold threads_added in *. by rewrite E1 in E.
  - pose proof (beside_taken _ _ _ _ _ _ _ _ _ Hr Hb Hs) as E. destruct (fdtimer_api_thread_running s3); [left|right]; cbn; by rewrite E.
Qed.

Lemma one_thread_added s s' : threads_added s s' -> (forall x, watches (timer_table s) x -> watches (timer_table s') x) ->
  one_thread_ok s -> one_thread_ok s'.
Proof.
  intros Ha Hw Hok p Hp. destruct Ha as [E|E]; rewrite E in Hp; [apply (phase_ok_mono (timer_table s)); [done|by apply Hok]|].
  destruct (threads s) as [|p0 [|]]; cbn in Hp; injection Hp as <-; done.
Qed.

Lemma thread_step_one k fired s s' : thread_step k s = Ok fired s' -> one_thread_ok s -> one_thread_ok s'.
Proof.
  intros E Hok p Hp. pose proof (thread_step_effect _ _ _ _ E) as Hf. revert E Hf. unfold thread_step. rewrite bind_unfold. cbn [get].
  destruct (threads s !! k) as [ph|] eqn:Ek; [|unfold ret; intros [= <- <-] _; by apply Hok].
  assert (Hgoto : forall s1 p', threads s1 = threads s -> s' = with_threads (<[k := p']> (threads s1)) s1 -> threads s = [ph] /\ p = p').
  { intros s1 p' Hs1 ->. cbn in Hp. rewrite Hs1 in Hp. apply (f_equal length) in Hp as Hlen. rewrite length_insert in Hlen.
    destruct (threads s) as [|p0 [|]]; try done. destruct k as [|k]; [|done]. cbn in Ek, Hp. injection Ek as ->. by injection Hp. }
  destruct ph as [|l|l|i fd l].
  - intros (l & s1 & (H1 & -> & _ & [H3 _] & _)%scan_inv & E)%bind_inv_Ok Hf. rewrite bind_unfold in E. cbn [modify ret] in E. injection E as <- <-.
    destruct (Hgoto s1 _ H3 eq_refl) as [_ ->]. pose proof (polled_watches (timer_table s1) 0 [] eq_refl) as Hw. cbn in *.
    by destruct (polled_from 0 (timer_table s1)).
  - intros (r & s1 & (k' & ->)%on_kernel_inv & E)%bind_inv_Ok _. destruct r as [r|]; [|done]. rewrite bind_unfold in E. cbn [modify ret] in E. injection E as <- <-.
    destruct (Hgoto (with_kernel k' s) _ eq_refl eq_refl) as [Ht ->]. cbn. apply readable_watches. apply (Hok _ Ht).
  - destruct l as [|[i fd] l].
    { rewrite bind_unfold; cbn [modify ret]. intros [= <- <-] _. by destruct (Hgoto s _ eq_refl eq_refl) as [_ ->]. }
    intros (r & s1 & (k' & ->)%on_kernel_inv & E)%bind_inv_Ok _. destruct r; try done; rewrite bind_unfold in E; cbn [modify ret] in E; injection E as <- <-;
      destruct (Hgoto (with_kernel k' s) _ eq_refl eq_refl) as [Ht ->]; pose proof (Hok _ Ht) as Hw; inversion_clear Hw; cbn; done.
  - intros (f & s1 & (e & He & _ & [H3 _] & Hc)%fire_inv & E)%bind_inv_Ok Hf. rewrite bind_unfold in E. cbn [modify ret] in E. injection E as <- <-.
    destruct (Hgoto s1 _ H3 eq_refl) as [Ht ->]. destruct (Hok _ Ht) as [_ Hw]. cbn in *.
    destruct Hc as [(_ & -> & -> & _)|(_ & e' & -> & _ & _ & _)]; [done|].
    eapply Forall_impl; [exact Hw|]. intros x. by apply (effect_watches _ _ _ _ _ x Hf).
Qed.

Lemma tstep_one s l s' : tstep s l s' -> one_thread_ok s -> one_thread_ok s'.
Proof.
  intros Hs. pose proof (tstep_effect _ _ _ Hs) as Hf. destruct Hs as [t name args id per fp g r s s' E|args per g s s' E|id s s' E|k fired s s' E].
  - apply one_thread_added; [by eapply start_threads|]. intros x. by apply (effect_watches _ _ _ _ _ x Hf).
  - apply one_thread_added; [by eapply script_threads|]. intros x. by apply (effect_watches _ _ _ _ _ x Hf).
  - apply one_thread_added; [left; by apply stop_effect in E as (_ & _ & -> & _)|]. intros x. by apply (effect_watches _ _ _ _ _ x Hf).
  - by eapply thread_step_one.
Qed.

Lemma run_one s ls s' : run s ls s' -> one_thread_ok s -> one_thread_ok s'.
Proof. induction 1 as [|s l s1 ls s2 Hs Hr IH]; [done|]. intros Hok. apply IH. by eapply tstep_one. Qed.

(** C19: in every run, whatever is called and whatever the threads do in between, the table
    has its 256 entries, there is at most one timer of a name that has not been stopped or
    expired, a timer in use has a descriptor, and the number of active timers is at least
    the number of timers that can still fire: a program that waits for events while timers
    are active never stops waiting too early. As long as there is one thread, the timer that
    it is about to fire is the one whose descriptor it has read. *)
Theorem timers_stay_consistent unique k q ls s : run (new_timers unique k q) ls s ->
  (timer_table s = [] \/ length (timer_table s) = timer_table_size) /\
  (forall i j e e', timer_table s !! i = Some e -> timer_table s !! j = Some e' ->
     live e = true -> live e' = true -> t_name e = t_name e' -> t_name e <> "" -> i = j) /\
  (forall e, e ∈ timer_table s -> live e = true -> 0 <= t_fd e) /\
  live_count (timer_table s) <= timed_events_active s /\
  (forall i fd l, threads s = [Fires i fd l] -> exists e, timer_table s !! i = Some e /\ in_use e = true /\ t_fd e = fd).
Proof.
  intros Hr. assert (Hone : one_thread_ok s) by (eapply run_one; [exact Hr|by intros p]). destruct (run_keeps _ _ _ Hr (new_ok _ _ _)) as [Hs Hf Hc Hn]. split; [done|]. split; [|split; [|split; [done|]]].
  - intros i j e e' Hi Hj [_ ?%negb_true_iff]%andb_true_iff [_ ?%negb_true_iff]%andb_true_iff. by apply Hn.
  - rewrite Forall_forall in Hf. done.
  - intros i fd l Ht. apply (Hone _ Ht).
Qed.


(** ** A round *)

Fixpoint thread_steps (n : nat) : M (timers K Q) (list timer) :=
  match n with
  | O => ret []
  | S n' => let! f := thread_step 0 in let! r := thread_steps n' in ret (match f with Some e => e :: r | None => r end)
  end.

(** What the thread relies on: [ready k fd] says that the timer with the descriptor has
    expired and was not read since. *)
Record kernel_laws (ready : K -> Z -> bool) : Prop := {
  kl_close fd k : exists k', close_fd fd k = Ok tt k' /\ forall fd', fd' <> fd -> ready k' fd' = ready k fd';
  kl_poll fds k : poll_fds fds k = Ok (Some (map (ready k) fds)) k;
  kl_read fd k : ready k fd = true -> exists k', read_fd fd k = Ok Expired k' /\ forall fd', fd' <> fd -> ready k' fd' = ready k fd'
}.

Context (ready : K -> Z -> bool) (Hk : kernel_laws ready).

Lemma scan_runs T : forall i k, exists k', scan_from i T k = Ok (map freed T, polled_from i (map freed T)) k' /\
  forall fd, (forall e, e ∈ T -> kill e && in_use e = true -> t_fd e <> fd) -> ready k' fd = ready k fd.
Proof.
  induction T as [|e T IH]; intros i k; [by exists k|]. cbn [scan_from map polled_from].
  assert (E1 : exists k1, (if kill e && in_use e then do! close_fd (t_fd e) in ret (with_t_fd (-1) (with_in_use false e)) else ret e) k = Ok (freed e) k1 /\
    forall fd, (kill e && in_use e = true -> t_fd e <> fd) -> ready k1 fd = ready k fd).
  { unfold freed. destruct (kill e && in_use e); [|by exists k]. destruct (kl_close ready Hk (t_fd e) k) as (k1 & E & Hr). exists k1.
    rewrite (bind_Ok _ _ _ _ _ E). split; [done|]. intros fd Hne. apply Hr. intros ->. by apply Hne. }
  destruct E1 as (k1 & E1 & H1). destruct (IH (S i) k1) as (k2 & E2 & H2). exists k2.
  rewrite (bind_Ok _ _ _ _ _ E1), (bind_Ok _ _ _ _ _ E2). cbn [fst snd]. rewrite pollable_test. split.
  - by destruct (pollable (freed e)).
  - intros fd Hfd. rewrite H2 by (intros x Hx; apply Hfd; by constructor). apply H1. apply Hfd. by constructor.
Qed.

Definition expire (e : timer) : timer := if periodic e then e else with_kill true e.
Definition expire_all T (l : list (nat * Z)) : list timer := foldl (fun T p => alter expire p.1 T) T l.

Lemma Forall2_in {A B} (P R : A -> B -> Prop) l k : Forall2 P l k -> (forall x y, x ∈ l -> y ∈ k -> P x y -> R x y) -> Forall2 R l k.
Proof.
  induction 1 as [|x y l k Hx Hl IH]; intros Hi; constructor; [apply Hi; [constructor|constructor|done]|].
  apply IH. intros. apply Hi; [by constructor|by constructor|done].
Qed.

Lemma step_read s i fd l k' : threads s = [Polled ((i, fd) :: l)] -> read_fd fd (kernel s) = Ok Expired k' ->
  thread_step 0 s = Ok None (with_threads [Fires i fd l] (with_kernel k' s)).
Proof. intros Ht Er. unfold thread_step. rewrite bind_unfold. cbn [get]. rewrite Ht. cbn [lookup list_lookup]. unfold bind, on_kernel, zoom. rewrite Er. cbn. by rewrite Ht. Qed.

Lemma step_fire s i fd l e q : threads s = [Fires i fd l] -> timer_table s !! i = Some e -> kill e = false -> t_siggen e = None ->
  core_enqueue_event (t_event e) false (queue s) = Ok tt q ->
  thread_step 0 s = Ok (Some e) (with_threads [Polled l] (with_timer_table (<[i := expire e]> (timer_table s)) (with_queue q s))).
Proof.
  intros Ht He Hke Hg Eq. unfold thread_step. rewrite bind_unfold. cbn [get]. rewrite Ht. cbn [lookup list_lookup].
  unfold fire, next_value, on_events, zoom, bind, get, set_timer, modify, of_option. rewrite He. cbn. rewrite Hke. cbn. rewrite Hg. cbn. rewrite Eq. cbn. rewrite Ht. cbn. f_equal.
  rewrite alter_alter. rewrite (alter_Some _ _ _ _ He). done.
Qed.

(** The thread works off what it has read. *)
Lemma polled_runs l : forall es s q, threads s = [Polled l] -> NoDup l.*1 -> NoDup l.*2 -> Forall (fun p => ready (kernel s) p.2 = true) l ->
  Forall2 (fun p e => timer_table s !! p.1 = Some e /\ kill e = false /\ t_siggen e = None) l es ->
  forM es (fun e => core_enqueue_event (t_event e) false) (queue s) = Ok tt q ->
  exists n s', thread_steps n s = Ok es s' /\ threads s' = [Idle] /\ queue s' = q /\ timer_table s' = expire_all (timer_table s) l.
Proof.
  induction l as [|[i fd] l IH]; intros es s q Ht Hn1 Hn2 Hr He Hq.
  - apply Forall2_nil_inv_l in He as ->. exists 1%nat, (with_threads [Idle] s). apply Ok_state in Hq as <-. split; [|done].
    cbn [thread_steps]. unfold thread_step. unfold bind, get. rewrite Ht. cbn. by rewrite Ht.
  - apply Forall2_cons_inv_l in He as (e & es' & (He & Hke & Hg) & Hes & ->). cbn [fst snd] in *. inversion_clear Hr as [|? ? Hr1 Hr2].
    destruct (kl_read ready Hk fd (kernel s) Hr1) as (k' & Er & Hr'). cbn [forM] in Hq. apply bind_inv_Ok in Hq as ([] & q1 & Eq & Hq).
    set (s2 := with_threads [Polled l] (with_timer_table (<[i := expire e]> (timer_table s)) (with_queue q1 (with_kernel k' s)))).
    cbn [fmap list_fmap] in Hn1, Hn2. apply NoDup_cons in Hn1 as [Hi1 Hn1], Hn2 as [Hi2 Hn2].
    destruct (IH es' s2 q) as (n & s' & E & H1 & H2 & H3); try done.
    { rewrite Forall_forall in *. intros p Hp. cbn. rewrite Hr'; [by apply Hr2|]. intros Hp2. apply Hi2. apply list_elem_of_fmap. by exists p. }
    { apply (Forall2_in _ _ _ _ Hes). intros p x Hp _ (Hx & ? & ?). split; [|done]. cbn. rewrite list_lookup_insert_ne; [done|].
      intros ->. apply Hi1. apply list_elem_of_fmap. by exists p. }
    exists (S (S n)), s'. split; [|split; [done|split; [done|]]].
    + cbn [thread_steps]. rewrite (bind_Ok _ _ _ _ _ (step_read s i fd l k' Ht Er)).
      rewrite bind_assoc. rewrite (bind_Ok _ _ _ _ _ (step_fire (with_threads [Fires i fd l] (with_kernel k' s)) i fd l e q1 eq_refl He Hke Hg Eq)).
      rewrite bind_assoc. fold s2. rewrite (bind_Ok _ _ _ _ _ E). done.
    + rewrite H3. cbn. by rewrite (alter_Some _ _ _ _ He).
Qed.

(** ** The entries a round visits *)

Definition readable_in (r : Z -> bool) (e : timer) : bool := pollable e && r (t_fd e).
Definition visited (r : Z -> bool) (i : nat) T : list (nat * Z) := List.filter (fun p => r p.2) (polled_from i T).

Lemma visited_cons r i e T : visited r i (e :: T) = (if readable_in r e then [(i, t_fd e)] else []) ++ visited r (S i) T.
Proof. unfold visited, readable_in. cbn [polled_from]. destruct (pollable e); [|done]. cbn. by destruct (r (t_fd e)). Qed.

Lemma visited_entries r T : forall i pre, length pre = i ->
  Forall2 (fun p e => (pre ++ T) !! p.1 = Some e) (visited r i T) (List.filter (readable_in r) T).
Proof.
  induction T as [|e T IH]; intros i pre Hi; [constructor|]. rewrite visited_cons. cbn [List.filter].
  specialize (IH (S i) (pre ++ [e]) ltac:(rewrite length_app; cbn; lia)). rewrite <- app_assoc in IH. cbn [app] in IH.
  destruct (readable_in r e); cbn [app]; [constructor; [|done]|done]. cbn. subst i. by rewrite lookup_app_r, Nat.sub_diag by lia.
Qed.

Lemma visited_from r T : forall i j, j ∈ (visited r i T).*1 -> (i <= j)%nat.
Proof.
  induction T as [|e T IH]; intros i j Hj; [by apply not_elem_of_nil in Hj|]. rewrite visited_cons, fmap_app in Hj.
  apply elem_of_app in Hj as [Hj|Hj%IH]; [|lia]. destruct (readable_in r e); [|by apply not_elem_of_nil in Hj].
  cbn in Hj. apply list_elem_of_singleton in Hj as ->. done.
Qed.

Lemma visited_once r T : forall i, NoDup (visited r i T).*1.
Proof.
  induction T as [|e T IH]; intros i; [constructor|]. rewrite visited_cons, fmap_app. destruct (readable_in r e); [|apply IH].
  cbn [fmap list_fmap app]. constructor; [|apply IH]. intros Hj%visited_from. cbn in Hj. lia.
Qed.

Lemma visited_fds r T : forall i, (visited r i T).*2 = map t_fd (List.filter (readable_in r) T).
Proof.
  induction T as [|e T IH]; intros i; [done|]. rewrite visited_cons, fmap_app, IH. cbn [List.filter]. by destruct (readable_in r e).
Qed.

Lemma visited_expire r T : forall i pre, length pre = i ->
  expire_all (pre ++ T) (visited r i T) = pre ++ map (fun e => if readable_in r e then expire e else e) T.
Proof.
  unfold expire_all. induction T as [|e T IH]; intros i pre Hi; [done|]. rewrite visited_cons, foldl_app. cbn [map].
  assert (Hl : forall x, length (pre ++ [x]) = S i) by (intros x; rewrite length_app; cbn; lia).
  destruct (readable_in r e); cbn [foldl fst].
  - rewrite list.alter_app_r_alt by (rewrite Hi; done). subst i. rewrite Nat.sub_diag. cbn [alter list_alter].
    rewrite (cons_middle _ pre T), (cons_middle _ pre (map _ T)), !app_assoc. by apply IH.
  - rewrite (cons_middle _ pre T), (cons_middle _ pre (map _ T)), !app_assoc. by apply IH.
Qed.

Lemma readable_filter (r : Z -> bool) l : readable l (map r (map snd l)) = List.filter (fun p => r p.2) l.
Proof. unfold readable. induction l as [|p l IH]; [done|]. cbn. destruct (r p.2); cbn; by rewrite IH. Qed.

Lemma fd_inj T x y : NoDup (map t_fd T) -> x ∈ T -> y ∈ T -> t_fd x = t_fd y -> x = y.
Proof.
  induction T as [|e T IH]; intros Hn Hx Hy Hxy; [by apply not_elem_of_nil in Hx|]. cbn [map] in Hn. apply NoDup_cons in Hn as [He Hn].
  assert (Hin : forall z, z ∈ T -> t_fd z ∈ map t_fd T) by (intros z Hz; apply list_elem_of_fmap; by exists z).
  apply elem_of_cons in Hx as [->|Hx], Hy as [->|Hy]; try done; [| |by apply IH].
  - rewrite Hxy in He. by apply Hin in Hy.
  - rewrite <- Hxy in He. by apply Hin in Hx.
Qed.

(** What becomes of an entry in a round. *)
Definition after_round (r : Z -> bool) (e : timer) : timer :=
  if kill e && in_use e then with_t_fd (-1) (with_in_use false e)
  else if live e && r (t_fd e) then expire e else e.

Lemma due_readable r T : Forall (fun e => live e = true -> 0 <= t_fd e) T ->
  List.filter (readable_in r) (map freed T) = List.filter (fun e => live e && r (t_fd e)) T /\
  map (fun e => if readable_in r e then expire e else e) (map freed T) = map (after_round r) T.
Proof.
  induction 1 as [|e T He HT [IH1 IH2]]; [done|]. cbn [map List.filter]. rewrite IH1, IH2. clear IH1 IH2.
  destruct (freed_fields e) as (_ & _ & Hl & Hx). unfold readable_in, pollable, after_round. rewrite Hl. destruct (live e) eqn:El; cbn [andb].
  - rewrite (Hx eq_refl), (proj2 (Z.leb_le _ _)) by (by apply He). cbn [andb].
    assert (Hke : kill e && in_use e = false) by (unfold live in El; destruct (in_use e), (kill e); done). rewrite Hke. by destruct (r (t_fd e)).
  - unfold freed. by destruct (kill e && in_use e).
Qed.

Lemma step_idle s k' : threads s = [Idle] -> scan_from 0 (timer_table s) (kernel s) = Ok (map freed (timer_table s), polled_from 0 (map freed (timer_table s))) k' ->
  exists n, thread_step 0 s = Ok None (with_threads [match polled_from 0 (map freed (timer_table s)) with [] => Idle | l => Scanned l end]
    (with_active n (with_timer_table (map freed (timer_table s)) (with_kernel k' s)))).
Proof.
  intros Ht E. exists (Z.of_nat (length (polled_from 0 (map freed (timer_table s))))). unfold thread_step, scan. rewrite bind_unfold. cbn [get]. rewrite Ht. cbn [lookup list_lookup].
  unfold bind, get, on_kernel, zoom, modify. rewrite E. cbn. rewrite Ht. cbn. by destruct (polled_from 0 (map freed (timer_table s))).
Qed.

Lemma step_poll s l : threads s = [Scanned l] -> thread_step 0 s = Ok None (with_threads [Polled (List.filter (fun p => ready (kernel s) p.2) l)] s).
Proof.
  intros Ht. unfold thread_step. rewrite bind_unfold. cbn [get]. rewrite Ht. cbn [lookup list_lookup]. unfold bind, on_kernel, zoom.
  rewrite (kl_poll ready Hk), readable_filter. cbn. by rewrite Ht.
Qed.

Lemma in_filter (f : timer -> bool) T x : x ∈ T -> f x = true -> x ∈ List.filter f T.
Proof. rewrite !list_elem_of_In, List.filter_In. done. Qed.

Lemma fds_once (f : timer -> bool) T : NoDup (map t_fd (List.filter in_use T)) -> (forall e, f e = true -> in_use e = true) ->
  NoDup (map t_fd (List.filter f T)).
Proof.
  intros Hn Hf. induction T as [|e T IH]; [done|]. cbn [List.filter] in *. destruct (f e) eqn:Ef.
  - rewrite (Hf e Ef) in Hn. cbn [map] in *. apply NoDup_cons in Hn as [He Hn]. constructor; [|by apply IH].
    intros (x & Hx & Hin)%list_elem_of_fmap. apply He. apply list_elem_of_fmap. exists x. split; [done|]. rewrite list_elem_of_In, List.filter_In in *. naive_solver.
  - apply IH. destruct (in_use e); [|done]. cbn [map] in Hn. by apply NoDup_cons in Hn as [_ Hn].
Qed.

(** C21: no timer that is due is forgotten: when nobody else interferes, the thread comes
    back to its beginning, and the events it has put into the queue are those of the timers
    that are alive and have expired, each once and in the order of the table; those of them
    that are not periodic are stopped, the entries of stopped timers are free again, and the
    others are as they were. *)
Theorem due_timers_fire s q :
  let r := ready (kernel s) in
  let due := List.filter (fun e => live e && r (t_fd e)) (timer_table s) in
  threads s = [Idle] -> NoDup (map t_fd (List.filter in_use (timer_table s))) ->
  Forall (fun e => live e = true -> 0 <= t_fd e) (timer_table s) -> Forall (fun e => t_siggen e = None) due ->
  forM due (fun e => core_enqueue_event (t_event e) false) (queue s) = Ok tt q ->
  exists n s', thread_steps n s = Ok due s' /\ threads s' = [Idle] /\ queue s' = q /\ timer_table s' = map (after_round r) (timer_table s).
Proof.
  intros r due Ht Hn Hfd Hsg Hq. destruct (scan_runs (timer_table s) 0 (kernel s)) as (k1 & Es & Hr1).
  destruct (due_readable r _ Hfd) as [Hdue Hafter]. fold due in Hdue. destruct (step_idle s k1 Ht Es) as (act & Est).
  set (T1 := map freed (timer_table s)) in *. set (l := polled_from 0 T1) in *.
  assert (Hsame : forall p, p ∈ l -> ready k1 p.2 = r p.2).
  { intros p Hp. apply Hr1. intros e He Hke Heq. pose proof (polled_watches T1 0 [] eq_refl) as Hw. rewrite Forall_forall in Hw.
    destruct (Hw p Hp) as (x & Hx & Hu & Hf). apply lookup_freed in Hx as (y & Hy & ->). destruct (kill y && in_use y) eqn:Ey.
    { unfold freed in Hu. rewrite Ey in Hu. done. }
    unfold freed in Hu, Hf. rewrite Ey in Hu, Hf. apply list_elem_of_lookup_2 in Hy. apply andb_true_iff in Hke as [Hke Hue].
    assert (e = y) as ->; [|by rewrite Hke, Hue in Ey]. apply (fd_inj _ e y Hn); [by apply in_filter|by apply in_filter|congruence]. }
  destruct (decide (l = [])) as [Hl|Hl].
  - (* nothing to poll *)
    assert (Hd : List.filter (readable_in r) T1 = []).
    { pose proof (visited_fds r T1 0) as Hv. unfold visited in Hv. fold l in Hv. rewrite Hl in Hv. symmetry in Hv. by apply fmap_nil_inv in Hv. }
    rewrite Hd in Hdue. rewrite <- Hdue in Hq |- *. apply Ok_state in Hq as <-. rewrite Hl in Est.
    exists 1%nat. eexists. split; [cbn [thread_steps]; rewrite (bind_Ok _ _ _ _ _ Est); reflexivity|]. split; [done|]. split; [done|]. cbn.
    rewrite <- Hafter. pose proof (visited_expire r T1 0 [] eq_refl) as Hv. unfold visited in Hv. fold l in Hv. rewrite Hl in Hv. exact Hv.
  - set (s1 := with_active act (with_timer_table T1 (with_kernel k1 s))).
    assert (Hfil : List.filter (fun p => ready k1 p.2) l = visited r 0 T1).
    { unfold visited. fold l. clear - Hsame. induction l as [|p l' IH]; [done|]. cbn [List.filter]. rewrite Hsame by constructor.
      rewrite IH; [done|]. intros x Hx. apply Hsame. by constructor. }
    destruct (polled_runs (visited r 0 T1) due (with_threads [Polled (visited r 0 T1)] s1) q) as (n & s' & E & H1 & H2 & H3); try done.
    + apply visited_once.
    + rewrite visited_fds, Hdue. apply (fds_once _ _ Hn). intros e [[? _]%andb_true_iff _]%andb_true_iff. done.
    + rewrite <- Hfil. cbn. apply Forall_forall. intros p Hp. rewrite list_elem_of_In, List.filter_In in Hp. apply Hp.
    + rewrite <- Hdue. apply (Forall2_in _ _ _ _ (visited_entries r T1 0 [] eq_refl)). intros p e _ Hin He. split; [done|]. rewrite Hdue in Hin.
      split; [|rewrite Forall_forall in Hsg; by apply Hsg]. unfold due in Hin. rewrite list_elem_of_In, List.filter_In in Hin.
      destruct Hin as [_ [[_ ?%negb_true_iff]%andb_true_iff _]%andb_true_iff]. done.
    + exists (S (S n)), s'. split; [|split; [done|split; [done|]]].
      * cbn [thread_steps]. rewrite (bind_Ok _ _ _ _ _ Est). destruct l as [|p l'] eqn:El; [done|].
        rewrite bind_assoc, (bind_Ok _ _ _ _ _ (step_poll (with_threads [Scanned (p :: l')] s1) (p :: l') eq_refl)).
        change (kernel (with_threads [Scanned (p :: l')] s1)) with k1. rewrite Hfil.
        change (with_threads [Polled (visited r 0 T1)] (with_threads [Scanned (p :: l')] s1)) with (with_threads [Polled (visited r 0 T1)] s1).
        by rewrite bind_assoc, (bind_Ok _ _ _ _ _ E).
      * rewrite H3, <- Hafter. apply (visited_expire r T1 0 []). done.
Qed.
End round.

(** * Timers on a small kernel

    A kernel in which chosen descriptors expire; the theorems about timers are applied to
    runs on it, and two threads get in each other's way. *)

(** The next descriptor, and those that have expired. *)
Definition small_kernel : Type := Z * list Z.

#[local] Instance small_timerfd : TimerFd small_kernel := {|
  timerfd_create := fun k => Ok k.1 (k.1 + 1, k.2);
  timerfd_settime _ _ _ := ret 0;
  close_fd fd := fun k => Ok tt (k.1, List.filter (fun x => negb (x =? fd)) k.2);
  poll_fds fds := fun k => Ok (Some (map (fun fd => bool_decide (fd ∈ k.2)) fds)) k;
  read_fd fd := fun k =>
    if bool_decide (fd ∈ k.2) then Ok Expired (k.1, List.filter (fun x => negb (x =? fd)) k.2) else Ok Again k
|}.

#[local] Instance small_host : TimerHost (eventqueue queued) := {|
  core_enqueue_event ev upd := eq_push 48 40 (mkQueued (q_event ev) (q_unique ev) upd (q_frmctxt ev) (q_exec ev) (q_glob_func ev));
  unit_of _ := mkUnit 0 0 1 0 0 0 0;
  call_target := head;
  call_args := tail
|}.

Definition has_expired (k : small_kernel) (fd : Z) : bool := bool_decide (fd ∈ k.2).

Lemma small_laws : kernel_laws has_expired.
Proof.
  assert (Hf : forall fd fd' (l : list Z), fd' <> fd -> bool_decide (fd' ∈ List.filter (fun x => negb (x =? fd)) l) = bool_decide (fd' ∈ l)).
  { intros fd fd' l Hne. apply bool_decide_ext. rewrite !list_elem_of_In, List.filter_In. split; [by intros [? _]|].
    intros Hin. split; [done|]. by rewrite (proj2 (Z.eqb_neq _ _)). }
  split.
  - intros fd k. eexists. split; [done|]. intros fd' Hne. by apply Hf.
  - done.
  - intros fd k Hr. eexists. cbn. unfold has_expired in Hr. rewrite Hr. split; [done|]. intros fd' Hne. by apply Hf.
Qed.

Definition empty_queue : eventqueue queued :=
  default (mkEventqueue (mkRing ∅ 0 0 0 0) (mkRing ∅ 0 0 0 0)) (new_eventqueue 48 40 4 4).

Definition one_second : Z := 0x3FF0000000000000.
Definition state_of {A} (m : M (timers small_kernel (eventqueue queued)) A) (s : timers small_kernel (eventqueue queued)) :=
  match m s with Ok _ s' => s' | _ => s end.

(** Descriptor 3 has expired as soon as there is one. *)
Definition begin : timers small_kernel (eventqueue queued) := new_timers ∅ (3, [3]) empty_queue.
Definition started_a := state_of (exec_action_timer one_second "ea" [] "a" false 0 None) begin.
Definition started_p := state_of (exec_action_timer one_second "ep" [] "p" true 0 None) started_a.
Definition watched := state_of (thread_steps 3) started_p.
Definition stopped_a := state_of (stop_timer "a") watched.

Lemma watched_run : run begin [L_start "a"; L_start "p"; L_thread; L_thread; L_thread] watched.
Proof.
  apply (run_cons _ _ started_a); [apply (ts_start one_second "ea" [] "a" false 0 None true); vm_compute; reflexivity|].
  apply (run_cons _ _ started_p); [apply (ts_start one_second "ep" [] "p" true 0 None true); vm_compute; reflexivity|].
  apply (run_cons _ _ (state_of (thread_steps 1) started_p)); [apply (ts_thread 0 None); vm_compute; reflexivity|].
  apply (run_cons _ _ (state_of (thread_steps 2) started_p)); [apply (ts_thread 0 None); vm_compute; reflexivity|].
  apply (run_cons _ _ watched); [apply (ts_thread 0 None); vm_compute; reflexivity|]. apply run_nil.
Qed.

Lemma timers_stay_consistent_witness :
  exists e, timer_table watched !! 0%nat = Some e /\ threads watched = [Fires 0 3 []] /\ in_use e = true /\ t_fd e = 3.
Proof.
  destruct (timers_stay_consistent ∅ (3, [3]) empty_queue _ _ watched_run) as (_ & _ & _ & _ & Hf).
  assert (Ht : threads watched = [Fires 0 3 []]) by (vm_compute; reflexivity).
  destruct (Hf 0%nat 3 [] Ht) as (e & He & Hu & Hfd). exists e. exact (conj He (conj Ht (conj Hu Hfd))).
Defined.

(** The timer is stopped between its expiry and its event. *)
Lemma silent_timers_stay_silent_witness :
  let s := state_of (thread_step 0) stopped_a in
  run watched [L_stop "a"; L_thread] s /\ threads watched = [Fires 0 3 []] /\ forall e, L_fire e ∈ [L_thread] -> ~ covers "a" (t_name e).
Proof.
  intros s. assert (Hr : run watched [L_stop "a"; L_thread] s).
  { apply (run_cons _ _ stopped_a); [apply ts_stop; vm_compute; reflexivity|].
    apply (run_cons _ _ s); [apply (ts_thread 0 None); vm_compute; reflexivity|apply run_nil]. }
  split; [exact Hr|]. split; [vm_compute; reflexivity|].
  apply (silent_timers_stay_silent ∅ (3, [3]) empty_queue _ watched (L_stop "a") [L_thread] s "a" watched_run Hr).
  - by left.
  - intros id' Hin. apply list_elem_of_singleton in Hin. discriminate.
Defined.

Definition timer_a : timer := default unused_timer (head (timer_table started_p)).

Lemma due_timers_fire_witness :
  exists n s' e, thread_steps n started_p = Ok [e] s' /\ t_name e = "a" /\ threads s' = [Idle] /\
    timer_table s' = map (after_round (has_expired (kernel started_p))) (timer_table started_p).
Proof.
  destruct (due_timers_fire has_expired small_laws started_p (queue (state_of (on_events (eq_push 48 40 (mkQueued (event_named "ea" [] []) false false 0 0 0))) started_p))) as (n & s' & E & Ht & _ & Htab).
  - vm_compute; reflexivity.
  - vm_compute. repeat constructor; intros Hin; repeat (apply elem_of_cons in Hin as [Hin|Hin]; [discriminate|]); by apply not_elem_of_nil in Hin.
  - apply Forall_forall. intros e He. vm_compute in He. repeat (apply elem_of_cons in He as [->|He]; [vm_compute; discriminate|]). by apply not_elem_of_nil in He.
  - vm_compute. repeat constructor.
  - vm_compute. reflexivity.
  - assert (Hd : List.filter (fun e => live e && has_expired (kernel started_p) (t_fd e)) (timer_table started_p) = [timer_a]) by (vm_compute; reflexivity).
    cbv beta zeta in E. rewrite Hd in E. exists n, s', timer_a. exact (conj E (conj eq_refl (conj Ht Htab))).
Defined.

(** ** Two threads *)

Definition started_c := state_of (exec_action_timer_args [Int_literal 1; Symbol "ec" "Event"; Identifier "c"] false None) started_a.
Definition seen_by_0 := state_of (thread_steps 3) started_c.
Definition a_stopped := state_of (stop_timer "a") seen_by_0.
Definition freed_by_1 := state_of (thread_step 1) a_stopped.
Definition started_b := state_of (exec_action_timer one_second "eb" [] "b" false 0 None) freed_by_1.

(** Timers of native code and timers of scripts each start a thread of their own for the
    same table. Then a timer can fire before its time: one thread has read that a timer
    expired, the other one frees its entry after it was stopped, a new timer gets the entry,
    and the first thread fires the new timer, whose descriptor never expires. *)
Theorem two_threads_fire_early :
  exists s0 s1 s e, run begin [L_start "a"; L_start "c"] s0 /\ threads s0 = [Idle; Idle] /\
    run s0 [L_thread; L_thread; L_thread; L_stop "a"; L_thread; L_start "b"] s1 /\ (forall fd, has_expired (kernel s1) fd = false) /\
    tstep s1 (L_fire e) s /\ t_name e = "b".
Proof.
  exists started_c, started_b, (state_of (thread_step 0) started_b). eexists. split; [|split; [vm_compute; reflexivity|split; [|split; [|split]]]].
  - apply (run_cons _ _ started_a); [apply (ts_start one_second "ea" [] "a" false 0 None true); vm_compute; reflexivity|].
    apply (run_cons _ _ started_c); [|apply run_nil].
    apply (ts_script [Int_literal 1; Symbol "ec" "Event"; Identifier "c"] false None); vm_compute; reflexivity.
  - apply (run_cons _ _ (state_of (thread_steps 1) started_c)); [apply (ts_thread 0 None); vm_compute; reflexivity|].
    apply (run_cons _ _ (state_of (thread_steps 2) started_c)); [apply (ts_thread 0 None); vm_compute; reflexivity|].
    apply (run_cons _ _ seen_by_0); [apply (ts_thread 0 None); vm_compute; reflexivity|].
    apply (run_cons _ _ a_stopped); [apply ts_stop; vm_compute; reflexivity|].
    apply (run_cons _ _ freed_by_1); [apply (ts_thread 1 None); vm_compute; reflexivity|].
    apply (run_cons _ _ started_b); [apply (ts_start one_second "eb" [] "b" false 0 None true); vm_compute; reflexivity|]. apply run_nil.
  - intros fd. assert (Hk : kernel started_b = (6, [])) by (vm_compute; reflexivity). rewrite Hk. apply bool_decide_eq_false_2, not_elem_of_nil.
  - apply (ts_thread 0 (Some _)). vm_compute. reflexivity.
  - reflexivity.
Qed.
