(* ===== verification/CmdLine.v ===== *)
(** * CmdLine: the command line

    core/src/cmdline_utils.cpp, core/include/cmdline_utils.hpp: process_cmd_line turns the
    arguments into the settings of a run. The options are a table in the order in which the
    code tests them; directories are read through an interface. Left out: the Windows
    variants, mk_directories, which nothing calls. At the end: no option is
    hidden by an earlier one, and a directory gives the definition files of its tree. *)

From Stdlib Require Import Ascii.
From S2P Require Import Prelude.

(** ** Settings *)

Record settings := mkSettings {
  attributes : list (string * list string);
  valid : bool;
  version_flag_set : bool;
  debug_mode : bool;
  interactive_mode : bool;
  out_path : string;
  server_port : string;
  monitor : string;
  monitored_node_ip : string;
  monitored_node_port : string;
  timeout : string;
  port : string;
  live_log_port : string;
  package_file : string;
  ws_api_port : string;
  vcan_api_port : string;
  sleep_before_ws_delta_ms : string;
  push_dir : string;
  create_plugin_project_name : string;
  create_plugin_ceps_root : string;
  definition_file_rel_paths : list string;
  post_processing_rel_paths : list string;
  root_struct : list string;
  root_struct_post : list string;
  plugins : list string;
  output_format_flags : list string;
  shard_objects : list string;
  remote_nodes : list (string * string);
  start_in_server_mode : bool;
  quiet : bool;
  logtrace : bool;
  run_as_monitor : bool;
  print_transition_tables : bool;
  ignore_unresolved_state_id_in_directives : bool;
  cppgen : bool;
  cppgen_ignore_print : bool;
  cppgen_statemachines : bool;
  enforce_native : bool;
  ignore_simulations : bool;
  print_statemachines : bool;
  dot_gen : bool;
  dot_gen_one_file_per_top_level_statemachine : bool;
  print_evaluated_input_tree : bool;
  print_raw_input_tree : bool;
  print_evaluated_postprocessing_tree : bool;
  print_signal_generators : bool;
  live_log : bool;
  report_format_sexpression : bool;
  report_verbose : bool;
  report_format_xml : bool;
  report_format_json : bool;
  report_format_ceps : bool;
  report_includes_cat : bool;
  dump_asciidoc_can_layer : bool;
  no_warn : bool;
  print_event_signatures : bool;
  ws_api_on : bool;
  vcan_api_on : bool;
  dump_stddoc_canlayer : bool;
  stddoc_canlayer_no_header_no_footer : bool;
  no_file_output : bool;
  start_paused : bool;
  sleep_before_ws_api_on : bool;
  print_help : bool;
  create_plugin_project : bool
}.

(** Result_process_cmd_line(). *)
Definition default_settings : settings :=
  mkSettings [] false false false false "" "" "" "" "" "" "" "3000" "" "8181" "8182" "" "" "INSERT_PROJECT_NAME_HERE" "../" [] [] [] [] [] [] [] [] false false false false false false false false false false false false false false false false false false false false false false false false false false false false false false false true false false false false false.

Definition settings_eta (r : settings) : settings :=
  mkSettings (attributes r) (valid r) (version_flag_set r) (debug_mode r) (interactive_mode r) (out_path r) (server_port r) (monitor r) (monitored_node_ip r) (monitored_node_port r) (timeout r) (port r) (live_log_port r) (package_file r) (ws_api_port r) (vcan_api_port r) (sleep_before_ws_delta_ms r) (push_dir r) (create_plugin_project_name r) (create_plugin_ceps_root r) (definition_file_rel_paths r) (post_processing_rel_paths r) (root_struct r) (root_struct_post r) (plugins r) (output_format_flags r) (shard_objects r) (remote_nodes r) (start_in_server_mode r) (quiet r) (logtrace r) (run_as_monitor r) (print_transition_tables r) (ignore_unresolved_state_id_in_directives r) (cppgen r) (cppgen_ignore_print r) (cppgen_statemachines r) (enforce_native r) (ignore_simulations r) (print_statemachines r) (dot_gen r) (dot_gen_one_file_per_top_level_statemachine r) (print_evaluated_input_tree r) (print_raw_input_tree r) (print_evaluated_postprocessing_tree r) (print_signal_generators r) (live_log r) (report_format_sexpression r) (report_verbose r) (report_format_xml r) (report_format_json r) (report_format_ceps r) (report_includes_cat r) (dump_asciidoc_can_layer r) (no_warn r) (print_event_signatures r) (ws_api_on r) (vcan_api_on r) (dump_stddoc_canlayer r) (stddoc_canlayer_no_header_no_footer r) (no_file_output r) (start_paused r) (sleep_before_ws_api_on r) (print_help r) (create_plugin_project r).

Definition with_attributes (x : list (string * list string)) (r : settings) : settings := ltac:(record_update settings_eta attributes x r).
Definition with_valid (x : bool) (r : settings) : settings := ltac:(record_update settings_eta valid x r).
Definition with_version_flag_set (x : bool) (r : settings) : settings := ltac:(record_update settings_eta version_flag_set x r).
Definition with_debug_mode (x : bool) (r : settings) : settings := ltac:(record_update settings_eta debug_mode x r).
Definition with_interactive_mode (x : bool) (r : settings) : settings := ltac:(record_update settings_eta interactive_mode x r).
Definition with_out_path (x : string) (r : settings) : settings := ltac:(record_update settings_eta out_path x r).
Definition with_server_port (x : string) (r : settings) : settings := ltac:(record_update settings_eta server_port x r).
Definition with_monitor (x : string) (r : settings) : settings := ltac:(record_update settings_eta monitor x r).
Definition with_monitored_node_ip (x : string) (r : settings) : settings := ltac:(record_update settings_eta monitored_node_ip x r).
Definition with_monitored_node_port (x : string) (r : settings) : settings := ltac:(record_update settings_eta monitored_node_port x r).
Definition with_timeout (x : string) (r : settings) : settings := ltac:(record_update settings_eta timeout x r).
Definition with_port (x : string) (r : settings) : settings := ltac:(record_update settings_eta port x r).
Definition with_package_file (x : string) (r : settings) : settings := ltac:(record_update settings_eta package_file x r).
Definition with_ws_api_port (x : string) (r : settings) : settings := ltac:(record_update settings_eta ws_api_port x r).
Definition with_vcan_api_port (x : string) (r : settings) : settings := ltac:(record_update settings_eta vcan_api_port x r).
Definition with_sleep_before_ws_delta_ms (x : string) (r : settings) : settings := ltac:(record_update settings_eta sleep_before_ws_delta_ms x r).
Definition with_push_dir (x : string) (r : settings) : settings := ltac:(record_update settings_eta push_dir x r).
Definition with_create_plugin_project_name (x : string) (r : settings) : settings := ltac:(record_update settings_eta create_plugin_project_name x r).
Definition with_create_plugin_ceps_root (x : string) (r : settings) : settings := ltac:(record_update settings_eta create_plugin_ceps_root x r).
Definition with_definition_file_rel_paths (x : list string) (r : settings) : settings := ltac:(record_update settings_eta definition_file_rel_paths x r).
Definition with_post_processing_rel_paths (x : list string) (r : settings) : settings := ltac:(record_update settings_eta post_processing_rel_paths x r).
Definition with_root_struct (x : list string) (r : settings) : settings := ltac:(record_update settings_eta root_struct x r).
Definition with_root_struct_post (x : list string) (r : settings) : settings := ltac:(record_update settings_eta root_struct_post x r).
Definition with_plugins (x : list string) (r : settings) : settings := ltac:(record_update settings_eta plugins x r).
Definition with_output_format_flags (x : list string) (r : settings) : settings := ltac:(record_update settings_eta output_format_flags x r).
Definition with_shard_objects (x : list string) (r : settings) : settings := ltac:(record_update settings_eta shard_objects x r).
Definition with_remote_nodes (x : list (string * string)) (r : settings) : settings := ltac:(record_update settings_eta remote_nodes x r).
Definition with_start_in_server_mode (x : bool) (r : settings) : settings := ltac:(record_update settings_eta start_in_server_mode x r).
Definition with_quiet (x : bool) (r : settings) : settings := ltac:(record_update settings_eta quiet x r).
Definition with_logtrace (x : bool) (r : settings) : settings := ltac:(record_update settings_eta logtrace x r).
Definition with_run_as_monitor (x : bool) (r : settings) : settings := ltac:(record_update settings_eta run_as_monitor x r).
Definition with_print_transition_tables (x : bool) (r : settings) : settings := ltac:(record_update settings_eta print_transition_tables x r).
Definition with_ignore_unresolved_state_id_in_directives (x : bool) (r : settings) : settings := ltac:(record_update settings_eta ignore_unresolved_state_id_in_directives x r).
Definition with_cppgen (x : bool) (r : settings) : settings := ltac:(record_update settings_eta cppgen x r).
Definition with_cppgen_ignore_print (x : bool) (r : settings) : settings := ltac:(record_update settings_eta cppgen_ignore_print x r).
Definition with_cppgen_statemachines (x : bool) (r : settings) : settings := ltac:(record_update settings_eta cppgen_statemachines x r).
Definition with_enforce_native (x : bool) (r : settings) : settings := ltac:(record_update settings_eta enforce_native x r).
Definition with_ignore_simulations (x : bool) (r : settings) : settings := ltac:(record_update settings_eta ignore_simulations x r).
Definition with_print_statemachines (x : bool) (r : settings) : settings := ltac:(record_update settings_eta print_statemachines x r).
Definition with_dot_gen (x : bool) (r : settings) : settings := ltac:(record_update settings_eta dot_gen x r).
Definition with_dot_gen_one_file_per_top_level_statemachine (x : bool) (r : settings) : settings := ltac:(record_update settings_eta dot_gen_one_file_per_top_level_statemachine x r).
Definition with_print_evaluated_input_tree (x : bool) (r : settings) : settings := ltac:(record_update settings_eta print_evaluated_input_tree x r).
Definition with_print_raw_input_tree (x : bool) (r : settings) : settings := ltac:(record_update settings_eta print_raw_input_tree x r).
Definition with_print_evaluated_postprocessing_tree (x : bool) (r : settings) : settings := ltac:(record_update settings_eta print_evaluated_postprocessing_tree x r).
Definition with_print_signal_generators (x : bool) (r : settings) : settings := ltac:(record_update settings_eta print_signal_generators x r).
Definition with_live_log (x : bool) (r : settings) : settings := ltac:(record_update settings_eta live_log x r).
Definition with_report_format_sexpression (x : bool) (r : settings) : settings := ltac:(record_update settings_eta report_format_sexpression x r).
Definition with_report_verbose (x : bool) (r : settings) : settings := ltac:(record_update settings_eta report_verbose x r).
Definition with_report_format_xml (x : bool) (r : settings) : settings := ltac:(record_update settings_eta report_format_xml x r).
Definition with_report_format_json (x : bool) (r : settings) : settings := ltac:(record_update settings_eta report_format_json x r).
Definition with_report_format_ceps (x : bool) (r : settings) : settings := ltac:(record_update settings_eta report_format_ceps x r).
Definition with_report_includes_cat (x : bool) (r : settings) : settings := ltac:(record_update settings_eta report_includes_cat x r).
Definition with_dump_asciidoc_can_layer (x : bool) (r : settings) : settings := ltac:(record_update settings_eta dump_asciidoc_can_layer x r).
Definition with_no_warn (x : bool) (r : settings) : settings := ltac:(record_update settings_eta no_warn x r).
Definition with_print_event_signatures (x : bool) (r : settings) : settings := ltac:(record_update settings_eta print_event_signatures x r).
Definition with_ws_api_on (x : bool) (r : settings) : settings := ltac:(record_update settings_eta ws_api_on x r).
Definition with_vcan_api_on (x : bool) (r : settings) : settings := ltac:(record_update settings_eta vcan_api_on x r).
Definition with_dump_stddoc_canlayer (x : bool) (r : settings) : settings := ltac:(record_update settings_eta dump_stddoc_canlayer x r).
Definition with_stddoc_canlayer_no_header_no_footer (x : bool) (r : settings) : settings := ltac:(record_update settings_eta stddoc_canlayer_no_header_no_footer x r).
Definition with_no_file_output (x : bool) (r : settings) : settings := ltac:(record_update settings_eta no_file_output x r).
Definition with_start_paused (x : bool) (r : settings) : settings := ltac:(record_update settings_eta start_paused x r).
Definition with_sleep_before_ws_api_on (x : bool) (r : settings) : settings := ltac:(record_update settings_eta sleep_before_ws_api_on x r).
Definition with_print_help (x : bool) (r : settings) : settings := ltac:(record_update settings_eta print_help x r).
Definition with_create_plugin_project (x : bool) (r : settings) : settings := ltac:(record_update settings_eta create_plugin_project x r).

(** What the loop keeps besides: static variables of the program (DEBUG_MODE,
    print_header_in_sql_files, DONT_INCREMENT_SEQUENCER, output_directory) and locals. *)
Record parsing := mkParsing {
  res : settings;
  DEBUG_MODE : bool;
  print_header_in_sql_files : bool;
  DONT_INCREMENT_SEQUENCER : bool;
  output_directory : gmap string string;
  version_flag : bool;
  interactive : bool;
  post_processing : bool;
  definition_files : list string;
  post_files : list string;
  current_root_struct_name : string
}.

Definition parsing_eta (p : parsing) : parsing :=
  mkParsing (res p) (DEBUG_MODE p) (print_header_in_sql_files p) (DONT_INCREMENT_SEQUENCER p) (output_directory p)
    (version_flag p) (interactive p) (post_processing p) (definition_files p) (post_files p) (current_root_struct_name p).

Definition with_res (x : settings) (p : parsing) : parsing := ltac:(record_update parsing_eta res x p).
Definition with_DEBUG_MODE (x : bool) (p : parsing) : parsing := ltac:(record_update parsing_eta DEBUG_MODE x p).
Definition with_print_header_in_sql_files (x : bool) (p : parsing) : parsing := ltac:(record_update parsing_eta print_header_in_sql_files x p).
Definition with_DONT_INCREMENT_SEQUENCER (x : bool) (p : parsing) : parsing := ltac:(record_update parsing_eta DONT_INCREMENT_SEQUENCER x p).
Definition with_output_directory (x : gmap string string) (p : parsing) : parsing := ltac:(record_update parsing_eta output_directory x p).
Definition with_version_flag (x : bool) (p : parsing) : parsing := ltac:(record_update parsing_eta version_flag x p).
Definition with_interactive (x : bool) (p : parsing) : parsing := ltac:(record_update parsing_eta interactive x p).
Definition with_post_processing (x : bool) (p : parsing) : parsing := ltac:(record_update parsing_eta post_processing x p).
Definition with_definition_files (x : list string) (p : parsing) : parsing := ltac:(record_update parsing_eta definition_files x p).
Definition with_post_files (x : list string) (p : parsing) : parsing := ltac:(record_update parsing_eta post_files x p).
Definition with_current_root_struct_name (x : string) (p : parsing) : parsing := ltac:(record_update parsing_eta current_root_struct_name x p).

(** opendir and readdir ([None]: the directory cannot be opened), stat with S_ISDIR. *)
Class Directories := {
  read_directory : string -> option (list string);
  is_dir : string -> bool
}.

(** ** Options *)

(** [arg == a] for one of the names, or [arg.substr(0, n) == a]. *)
Inductive matcher := Exact (names : list string) | Prefix (name : string).

Definition matches (m : matcher) (arg : string) : bool :=
  match m with
  | Exact names => bool_decide (arg ∈ names)
  | Prefix name => String.prefix name arg
  end.

(** What an option does: it needs nothing else; the rest of the argument behind the name;
    the next argument, without which the loop ends; or something of its own. *)
Inductive action :=
| Plain (f : parsing -> parsing)
| Rest_of_arg (f : string -> settings -> settings)
| Next_arg (f : string -> parsing -> parsing)
| Out_path
| Report_state_machines
| Create_plugin_project
| Create_plugin_ceps_root
| Port.

Definition flag (f : settings -> settings) : action := Plain (fun p => with_res (f (res p)) p).
Definition next (f : string -> settings -> settings) : action := Next_arg (fun a p => with_res (f a (res p)) p).

(** --rport belongs to the --rip before it. *)
Definition last_port (a : string) (l : list (string * string)) : list (string * string) :=
  match reverse l with
  | [] => []
  | x :: l' => reverse l' ++ [(x.1, a)]
  end.

Definition options : list (matcher * action) := [
  (Exact ["-o"], Out_path);
  (Prefix "-i", Plain (with_interactive true));
  (Prefix "-v", Plain (with_version_flag true));
  (Prefix "--version", Plain (with_version_flag true));
  (Exact ["-d"; "--debug"], Plain (with_DEBUG_MODE true));
  (Exact ["--print-no-header-in-sql"], Plain (with_print_header_in_sql_files false));
  (Exact ["--print-header-in-sql"], Plain (with_print_header_in_sql_files true));
  (Exact ["--dont_increment_sequencer"], Plain (with_DONT_INCREMENT_SEQUENCER true));
  (Exact ["--server"], flag (with_start_in_server_mode true));
  (Prefix "--rip", Rest_of_arg (fun a r => with_remote_nodes (remote_nodes r ++ [(a, "")]) r));
  (Prefix "--rport", Rest_of_arg (fun a r => with_remote_nodes (last_port a (remote_nodes r)) r));
  (Exact ["--quiet"], flag (with_quiet true));
  (Exact ["--run_as_monitor"], flag (with_run_as_monitor true));
  (Exact ["--logtrace"], flag (with_logtrace true));
  (Prefix "--rmip", Rest_of_arg with_monitored_node_ip);
  (Prefix "--rmport", Rest_of_arg with_monitored_node_port);
  (Prefix "--monitor", Rest_of_arg with_monitor);
  (Prefix "--plugin", Rest_of_arg (fun a r => with_plugins (plugins r ++ [a]) r));
  (Prefix "--timeout", next with_timeout);
  (Exact ["--print_transition_tables"; "--ptt"], flag (with_print_transition_tables true));
  (Exact ["--cppgen"], flag (with_cppgen true));
  (Exact ["--enforce_native"], flag (with_enforce_native true));
  (Exact ["--ignore_unresolved_state_id_in_directives"; "--iursd"], flag (with_ignore_unresolved_state_id_in_directives true));
  (Exact ["--ignore_simulations"], flag (with_ignore_simulations true));
  (Exact ["--cppgen_ignore_print"], flag (with_cppgen_ignore_print true));
  (Exact ["--cppgen_statemachines"], flag (with_cppgen_statemachines true));
  (Exact ["--live_log"], flag (with_live_log true));
  (Exact ["--print_statemachines"], flag (with_print_statemachines true));
  (Exact ["--dot_gen"], flag (with_dot_gen true));
  (Exact ["--dot_gen_one_file_per_top_level_statemachine"], flag (with_dot_gen_one_file_per_top_level_statemachine true));
  (Exact ["--print_evaluated_input_tree"], flag (with_print_evaluated_input_tree true));
  (Exact ["--print_signal_generators"], flag (with_print_signal_generators true));
  (Exact ["--report_format_sexpression"], flag (with_report_format_sexpression true));
  (Exact ["--report_verbose"], flag (with_report_verbose true));
  (Exact ["--report_format_xml"], flag (with_report_format_xml true));
  (Exact ["--report_format_json"], flag (with_report_format_json true));
  (Exact ["--report_format_ceps"], flag (with_report_format_ceps true));
  (Exact ["--print_evaluated_postprocessing_tree"], flag (with_print_evaluated_postprocessing_tree true));
  (Exact ["--dump_asciidoc_can_layer"], flag (with_dump_asciidoc_can_layer true));
  (Exact ["--dump_stddoc_canlayer"], flag (with_dump_stddoc_canlayer true));
  (Exact ["--stddoc_canlayer_complete_html_page"], flag (with_stddoc_canlayer_no_header_no_footer false));
  (Exact ["--no_warn"], flag (with_no_warn true));
  (Exact ["--print_event_signatures"], flag (with_print_event_signatures true));
  (Exact ["--post_processing"], Plain (with_post_processing true));
  (Exact ["--package_file"], next with_package_file);
  (Exact ["--ws_api"], next (fun a r => with_ws_api_port a (with_ws_api_on true r)));
  (Exact ["--sleep_before_ws_api"], next (fun a r => with_sleep_before_ws_delta_ms a (with_sleep_before_ws_api_on true r)));
  (Exact ["--vcan_api"], next (fun a r => with_vcan_api_port a (with_vcan_api_on true r)));
  (Exact ["--push_dir"], next with_push_dir);
  (Exact ["--no_file_output"], flag (with_no_file_output true));
  (Exact ["--report_includes_cat"], flag (with_report_includes_cat true));
  (Exact ["--start_paused"], flag (with_start_paused true));
  (Exact ["--print_raw_input_tree"], flag (with_print_raw_input_tree true));
  (Exact ["--pr"], flag (with_print_raw_input_tree true));
  (Exact ["--pre"], flag (fun r => with_print_raw_input_tree true (with_print_evaluated_input_tree true r)));
  (Exact ["--pe"], flag (with_print_evaluated_input_tree true));
  (Exact ["--ppe"], flag (with_print_evaluated_postprocessing_tree true));
  (Exact ["--format"], next (fun a r => with_output_format_flags (output_format_flags r ++ [a]) r));
  (Exact ["--link"; "-l"], next (fun a r => with_shard_objects (shard_objects r ++ [a]) r));
  (Exact ["--report_state_machines_only"], flag (fun r => with_attributes (attributes r ++ [("report_state_machines_only", [])]) r));
  (Exact ["--report_state_machines"], Report_state_machines);
  (Exact ["--root_struct"], Next_arg with_current_root_struct_name);
  (Exact ["--doc-option"], next (fun a r => with_output_format_flags (output_format_flags r ++ ["doc-option-" +:+ a]) r));
  (Exact ["--help"], flag (with_print_help true));
  (Exact ["--create_plugin_project"], Create_plugin_project);
  (Exact ["--create_plugin_ceps_root"], Create_plugin_ceps_root);
  (Prefix "--port", Port)
].

Definition find_option (arg : string) : option (matcher * action) :=
  snd <$> list_find (fun o => matches o.1 arg = true) options.

Fixpoint skip_chars (n : nat) (s : string) : string :=
  match n, s with
  | S n', String _ s' => skip_chars n' s'
  | _, _ => s
  end.

(** The argument behind the name of the option. *)
Definition rest_of_arg (m : matcher) (arg : string) : string :=
  match m with Prefix name => skip_chars (String.length name) arg | Exact _ => "" end.

Definition starts_with_dash (s : string) : bool :=
  match s with String c _ => Ascii.eqb c "-"%char | EmptyString => false end.

Definition update (f : settings -> settings) : M parsing unit := modify (fun p => with_res (f (res p)) p).

(** The arguments of --report_state_machines, and what is behind them. *)
Fixpoint until_dash (l : list string) : list string * list string :=
  match l with
  | [] => ([], [])
  | a :: l' => if starts_with_dash a then ([], l) else ((a :: (until_dash l').1), (until_dash l').2)
  end.

Definition set_port (a : string) (r : settings) : settings := with_server_port a (with_port a r).

(** One option; the arguments behind it, [None] when the loop ends. A missing path for -o
    is the null pointer. *)
Definition do_action (m : matcher) (act : action) (arg : string) (rest : list string) : M parsing (option (list string)) :=
  match act with
  | Plain f => do! modify f in ret (Some rest)
  | Rest_of_arg f => do! update (f (rest_of_arg m arg)) in ret (Some rest)
  | Next_arg f =>
    match rest with [] => ret None | a :: rest' => do! modify (f a) in ret (Some rest') end
  | Out_path =>
    match rest with [] => undef | a :: rest' => do! update (with_out_path a) in ret (Some rest') end
  | Report_state_machines =>
    let p := until_dash rest in
    do! update (fun r => with_attributes (attributes r ++ [("report_state_machines", p.1)]) r) in ret (Some p.2)
  | Create_plugin_project =>
    do! update (with_create_plugin_project true) in
    match rest with
    | a :: rest' =>
      if negb (String.eqb a "") && negb (starts_with_dash a)
      then do! update (with_create_plugin_project_name a) in ret (Some rest')
      else ret (Some rest)
    | [] => ret (Some [])
    end
  | Create_plugin_ceps_root =>
    match rest with
    | a :: rest' => do! update (with_create_plugin_ceps_root a) in ret (Some rest')
    | [] => ret (Some [])
    end
  | Port =>
    if (6 <? String.length arg)%nat then do! update (set_port (rest_of_arg m arg)) in ret (Some rest)
    else match rest with [] => ret None | a :: rest' => do! update (set_port a) in ret (Some rest') end
  end.

(** ** Files *)

Section files.
Context `{Directories}.

Definition ends_with (c : Ascii.ascii) (s : string) : bool :=
  match last (String.list_ascii_of_string s) with Some d => Ascii.eqb c d | None => false end.

(** normalize_path *)
Definition normalize_path (path : string) : string :=
  if negb (String.eqb path "") && negb (ends_with "/"%char path) then path +:+ "/" else path.

Definition is_definition_file (name : string) : bool :=
  (4 <? String.length name)%nat && String.eqb (skip_chars (String.length name - 4) name) ".def".

(** traverse_directories: the definition files below a directory. *)
Fixpoint traverse_directories (fuel : nat) (current_path rel_out_path : string) : M parsing unit :=
  match fuel with
  | O => out_of_fuel
  | S fuel' =>
    match read_directory current_path with
    | None => throw (Fatal 1 ("***Error: Couldn't open directory '" +:+ current_path +:+ "'"))
    | Some entries =>
      forM entries (fun entry =>
        let full := current_path +:+ entry in
        if bool_decide (entry = "." \/ entry = "..") then ret tt
        else if is_dir full then
          traverse_directories fuel' (full +:+ "/") (rel_out_path +:+ (if String.eqb rel_out_path "" then "" else "/") +:+ entry)
        else if is_definition_file entry then
          do! modify (fun p => with_output_directory (<[full := rel_out_path]> (output_directory p)) p) in
          modify (fun p => with_definition_files (definition_files p ++ [full]) p)
        else ret tt)
    end
  end.

(** An argument that is no option: a directory or a file. *)
Definition file_argument (fuel : nat) (arg : string) : M parsing unit :=
  let! p := get in
  let root := current_root_struct_name p in
  do! (if is_dir arg then
         let before := length (definition_files p) in
         do! traverse_directories fuel (normalize_path arg) "" in
         let! p := get in
         update (fun r => with_root_struct (root_struct r ++ replicate (length (definition_files p) - before) root) r)
       else if post_processing p then
         do! modify (fun p => with_post_files (post_files p ++ [arg]) p) in
         update (fun r => with_root_struct_post (root_struct_post r ++ [root]) r)
       else
         do! modify (fun p => with_definition_files (definition_files p ++ [arg]) p) in
         update (fun r => with_root_struct (root_struct r ++ [root]) r)) in
  modify (with_current_root_struct_name "").

(** The loop over the arguments; [fuel] bounds the depth of directories. *)
Fixpoint cmd_line_loop (n fuel : nat) (args : list string) : M parsing unit :=
  match args with
  | [] => ret tt
  | arg :: rest =>
    match n with
    | O => out_of_fuel
    | S n' =>
      match find_option arg with
      | Some o =>
        let! next := do_action o.1 o.2 arg rest in
        match next with
        | Some rest' => cmd_line_loop n' fuel rest'
        | None => ret tt
        end
      | None => do! file_argument fuel arg in cmd_line_loop n' fuel rest
      end
    end
  end.

(** process_cmd_line(argc, argv, r_init); [args]: the arguments behind the program's name. *)
Definition process_cmd_line (fuel : nat) (args : list string) (r_init : settings) : M parsing settings :=
  do! modify (fun p => mkParsing (with_valid true r_init) (DEBUG_MODE p) (print_header_in_sql_files p) (DONT_INCREMENT_SEQUENCER p)
                         (output_directory p) false false false [] [] "") in
  do! cmd_line_loop (length args) fuel args in
  gets (fun p =>
    with_post_processing_rel_paths (post_files p) (with_definition_file_rel_paths (definition_files p)
      (with_interactive_mode (interactive p) (with_debug_mode (DEBUG_MODE p) (with_version_flag_set (version_flag p) (res p)))))).
End files.

(** * Options and files of the command line

    No option is hidden by an earlier one; a directory gives the definition files of its
    tree. *)

(** ** Options *)

Definition names_of (m : matcher) : list string := match m with Exact names => names | Prefix name => [name] end.

(** The position of the first option that fits. *)
Fixpoint position (arg : string) (l : list (matcher * action)) : option nat :=
  match l with
  | [] => None
  | o :: l' => if matches o.1 arg then Some O else S <$> position arg l'
  end.

Lemma position_find arg l : forall i, position arg l = Some i -> exists o, l !! i = Some o /\ snd <$> list_find (fun o => matches o.1 arg = true) l = Some o.
Proof.
  induction l as [|o l IH]; intros i; cbn [position]; [done|]. cbn [list_find]. destruct (matches o.1 arg) eqn:Em.
  - intros [= <-]. exists o. split; [done|]. destruct (decide (true = true)); done.
  - destruct (position arg l) as [j|]; [|done]. intros [= <-]. destruct (IH j eq_refl) as (x & Hx & Hf). exists x. split; [done|].
    destruct (decide (false = true)); [done|]. destruct (list_find _ l) as [[k y]|]; [|done]. cbn in *. congruence.
Qed.

(** Every name of an option finds that option, none is hidden by an earlier one. *)
Lemma option_found i o name : options !! i = Some o -> name ∈ names_of o.1 -> find_option name = Some o.
Proof.
  intros Ho Hn. assert (Hall : forallb (fun io => forallb (fun n => bool_decide (position n options = Some io.1)) (names_of io.2.1)) (imap pair options) = true)
    by (vm_compute; reflexivity).
  rewrite forallb_forall in Hall. specialize (Hall (i, o)).
  assert (Hin : In (i, o) (imap pair options)).
  { apply list_elem_of_In. apply list_elem_of_lookup. exists i. by rewrite list_lookup_imap, Ho. }
  specialize (Hall Hin). rewrite forallb_forall in Hall. cbn [fst snd] in Hall. specialize (Hall name). rewrite <- list_elem_of_In in Hall.
  specialize (Hall Hn). apply bool_decide_eq_true in Hall. destruct (position_find _ _ _ Hall) as (x & Hx & Hf). unfold find_option. congruence.
Qed.

(** ** Directories *)

Inductive tree := File (name : string) | Dir (name : string) (content : list tree).

Definition name_of (t : tree) : string := match t with File n | Dir n _ => n end.
Definition below (rel name : string) : string := rel +:+ (if String.eqb rel "" then "" else "/") +:+ name.

(** The definition files with the directories they are in, depth first. *)
Fixpoint found (path rel : string) (t : tree) : list (string * string) :=
  match t with
  | File n => if is_definition_file n then [(path +:+ n, rel)] else []
  | Dir n content => List.flat_map (found ((path +:+ n) +:+ "/") (below rel n)) content
  end.

Fixpoint depth (t : tree) : nat :=
  match t with File _ => 0 | Dir _ content => S (foldr max 0 (map depth content))%nat end.

Definition dots (s : string) : Prop := s = "." \/ s = "..".
#[local] Instance dots_dec s : Decision (dots s).
Proof. unfold dots. apply _. Defined.

Section directories.
Context `{Directories}.

(** The tree is what the file system has. *)
Fixpoint stored (path : string) (t : tree) : Prop :=
  ~ dots (name_of t) /\
  match t with
  | File n => is_dir (path +:+ n) = false
  | Dir n content =>
    is_dir (path +:+ n) = true /\
    (exists entries, read_directory ((path +:+ n) +:+ "/") = Some entries /\ filter (fun e => ~ dots e) entries = map name_of content) /\
    (fix all (l : list tree) : Prop := match l with [] => True | t :: l' => stored ((path +:+ n) +:+ "/") t /\ all l' end) content
  end.

Definition stored_all (path : string) (l : list tree) : Prop := Forall (stored path) l.

Definition add_found (l : list (string * string)) (p : parsing) : parsing :=
  with_definition_files (definition_files p ++ map fst l)
    (with_output_directory (foldl (fun m f => <[f.1 := f.2]> m) (output_directory p) l) p).

Lemma add_found_nil p : add_found [] p = p.
Proof. unfold add_found. cbn. rewrite app_nil_r. by destruct p. Qed.

Lemma add_found_app l1 l2 p : add_found l2 (add_found l1 p) = add_found (l1 ++ l2) p.
Proof. unfold add_found. cbn. by rewrite map_app, foldl_app, <- app_assoc. Qed.

Lemma forM_dots (f : string -> M parsing unit) entries p :
  forM entries (fun e => if bool_decide (dots e) then ret tt else f e) p = forM (filter (fun e => ~ dots e) entries) f p.
Proof.
  revert p. induction entries as [|e l IH]; intros p; [done|]. cbn [forM]. rewrite filter_cons. case_bool_decide as Hd.
  - rewrite decide_False by (intros Hn; by apply Hn). by rewrite bind_ret_l.
  - rewrite decide_True by done. cbn [forM]. unfold bind. destruct (f e p); [apply IH|done..].
Qed.

Lemma stored_inner path n content : stored path (Dir n content) ->
  is_dir (path +:+ n) = true /\ stored_all ((path +:+ n) +:+ "/") content /\
  exists entries, read_directory ((path +:+ n) +:+ "/") = Some entries /\ filter (fun e => ~ dots e) entries = map name_of content.
Proof.
  cbn [stored]. intros (_ & Hd & He & Hall). split; [done|]. split; [|done]. clear - Hall. unfold stored_all. induction content as [|t l IH]; [done|].
  destruct Hall as [H1 H2]. constructor; [done|by apply IH].
Qed.

(** A directory on the command line stands for the definition files of its tree: they
    are collected depth first, and for each the path relative to that directory is recorded,
    whatever is in the tree besides. *)
Theorem directory_gives_its_files content fuel path rel p entries :
  read_directory path = Some entries -> filter (fun e => ~ dots e) entries = map name_of content ->
  stored_all path content -> (foldr max 0 (map depth content) < fuel)%nat ->
  traverse_directories fuel path rel p = Ok tt (add_found (List.flat_map (found path rel) content) p).
Proof.
  revert content path rel p entries. induction fuel as [|fuel IH]; intros content path rel p entries Hr Hf Hs Hfuel; [lia|].
  cbn [traverse_directories]. rewrite Hr.
  change (forM entries (fun entry => if bool_decide (dots entry) then ret tt else
     (let full := path +:+ entry in
      if is_dir full then traverse_directories fuel (full +:+ "/") (below rel entry)
      else if is_definition_file entry then
        do! modify (fun p => with_output_directory (<[full := rel]> (output_directory p)) p) in
        modify (fun p => with_definition_files (definition_files p ++ [full]) p)
      else ret tt)) p = Ok tt (add_found (List.flat_map (found path rel) content) p)).
  rewrite forM_dots, Hf. clear Hr Hf entries. revert p. induction Hs as [|t content Ht Hs IHc]; intros p; [cbn; by rewrite add_found_nil|].
  cbn [map forM List.flat_map]. cbn [map foldr] in Hfuel. rewrite <- add_found_app.
  assert (E : (let full := path +:+ name_of t in
      if is_dir full then traverse_directories fuel (full +:+ "/") (below rel (name_of t))
      else if is_definition_file (name_of t) then
        do! modify (fun p => with_output_directory (<[full := rel]> (output_directory p)) p) in
        modify (fun p => with_definition_files (definition_files p ++ [full]) p)
      else ret tt) p = Ok tt (add_found (found path rel t) p)); [|rewrite (bind_Ok _ _ _ _ _ E); apply IHc; lia].
  cbv zeta. destruct t as [n|n inner]; cbn [name_of found].
  - destruct Ht as [_ ->]. destruct (is_definition_file n); [done|]. unfold ret. by rewrite add_found_nil.
  - destruct (stored_inner _ _ _ Ht) as (-> & Hin & entries & Hr & Hf). apply (IH _ _ _ _ entries); try done. cbn [depth] in Hfuel. lia.
Qed.
End directories.
