(* ===== verification/Actions.v ===== *)
(** * Actions: running actions

    core/src/sm_sim_execute_action_seq.cpp and the part of
    state_machine_simulation_core_action_handling.cpp that connects the core with the
    interpreter of ceps: actions as sequences of statements, the callbacks the interpreter
    is given for one evaluation, what they do with events and assignments. The interpreter
    itself is a parameter. Left out: sm_action_print, raw frames, the tables of registered
    functions. *)

From S2P Require Import Prelude MachineInt F64 VMEnv Ast Machines Names ExecCtx ExecLoop EventQueue Fetch.

(** ** The interpreter's environment *)

(** A callback: none, that of the core with the machine that is active, or another one. *)
Inductive callback := No_callback | Interface (active_smp : Z) | Other_callback (id : Z).

(** A scope: a copy of one that was given, the one of a machine, or the parameters of a
    function. *)
Inductive scope_ref := Copy_of (scope : Z) | Scope_of_machine (smp : Z) | Locals (bound : list (string * Z)).

Record interp_env := mkEnv {
  func_callback : callback;
  binop_resolver : callback;
  binop_resolver_predicate : bool;         (* whether that of the core is set *)
  func_stmt_claimer : option Z;            (* the active machine of the callback *)
  symbol_mapping : gset string;
  inside_func_call_ctr : Z;
  scopes : list scope_ref
}.

Definition env_eta (e : interp_env) : interp_env :=
  mkEnv (func_callback e) (binop_resolver e) (binop_resolver_predicate e) (func_stmt_claimer e) (symbol_mapping e)
    (inside_func_call_ctr e) (scopes e).

Definition with_func_callback (x : callback) (e : interp_env) : interp_env := ltac:(record_update env_eta func_callback x e).
Definition with_binop_resolver (x : callback) (e : interp_env) : interp_env := ltac:(record_update env_eta binop_resolver x e).
Definition with_binop_resolver_predicate (x : bool) (e : interp_env) : interp_env := ltac:(record_update env_eta binop_resolver_predicate x e).
Definition with_func_stmt_claimer (x : option Z) (e : interp_env) : interp_env := ltac:(record_update env_eta func_stmt_claimer x e).
Definition with_symbol_mapping (x : gset string) (e : interp_env) : interp_env := ltac:(record_update env_eta symbol_mapping x e).
Definition with_scopes (x : list scope_ref) (e : interp_env) : interp_env := ltac:(record_update env_eta scopes x e).

Record acts := mkActs {
  a_core : core;
  a_env : interp_env;
  global_funcs : gmap string Z             (* the objects of their bodies *)
}.

Definition on_core {A} (m : M core A) : M acts A := zoom a_core (fun c a => mkActs c (a_env a) (global_funcs a)) m.
Definition in_env (f : interp_env -> interp_env) : M acts unit := modify (fun a => mkActs (a_core a) (f (a_env a)) (global_funcs a)).

(** What ceps provides: the evaluation of a node in the environment (with the node around
    it, if there is one), the kinds of nodes the core asks for, and printing. *)
Class Ceps := {
  evaluate_generic : node -> option node -> M acts Z;
  is_macro_definition : node -> bool;
  return_value : node -> option node;                (* of a return statement *)
  event_call : node -> option (node * list node);    (* func_call_target, get_args *)
  show_node : node -> string
}.

Section actions.
Context `{Ceps} (ev_size info_size : Z).

(** ** Evaluating an expression *)

Fixpoint root_machine (fuel : nat) (p : Z) : M core Z :=
  match fuel with
  | O => out_of_fuel
  | S fuel' => let! m := on_heap (sm_at p) in if m_parent m =? 0 then ret p else root_machine fuel' (m_parent m)
  end.

(** The scope of the outermost machine, when it has one. *)
Definition sms_global_scope (fuel : nat) (smp : Z) : M core (option Z) :=
  if smp =? 0 then ret None
  else
    let! root := root_machine fuel smp in
    let! sm := deref_sm root in
    ret (if global_scope sm then Some root else None).

Definition push_scope (s : option scope_ref) : M acts unit :=
  match s with Some s => in_env (fun e => with_scopes (scopes e ++ [s]) e) | None => ret tt end.
Definition pop_scope (s : option scope_ref) : M acts unit :=
  match s with Some _ => in_env (fun e => with_scopes (removelast (scopes e)) e) | None => ret tt end.

(** eval_locked_ceps_expr; [expand] is false for the variant without the callbacks. *)
Definition eval_locked (expand : bool) (fuel : nat) (smp : Z) (n : node) (root : option node) (scope : Z) : M acts Z :=
  let! global := on_core (sms_global_scope fuel smp) in
  do! in_env (fun e => with_symbol_mapping ({["Systemstate"; "Systemparameter"]} ∪ symbol_mapping e) e) in
  let! a := get in
  let old_callback := func_callback (a_env a) in
  let old_binop_res := binop_resolver (a_env a) in
  do! (if expand then
         in_env (fun e => with_func_stmt_claimer (Some smp) (with_binop_resolver (Interface 0)
                            (with_binop_resolver_predicate true (with_func_callback (Interface smp) e))))
       else ret tt) in
  let copy := if scope =? 0 then None else Some (Copy_of scope) in
  do! push_scope copy in
  do! push_scope (Scope_of_machine <$> global) in
  let! r := evaluate_generic n root in
  do! pop_scope (Scope_of_machine <$> global) in
  do! pop_scope copy in
  do! in_env (fun e => with_symbol_mapping ∅ (with_binop_resolver old_binop_res
                         ((if expand then with_binop_resolver_predicate false else id)
                           (with_func_callback old_callback (with_func_stmt_claimer None e))))) in
  ret r.

Definition eval_locked_ceps_expr (fuel : nat) (smp : Z) (n : node) (root : option node) : M acts Z :=
  eval_locked true fuel smp n root 0.

Definition eval_locked_ceps_expr_no_symbol_expansion (fuel : nat) (smp : Z) (n : node) (root : option node) (scope : Z) : M acts Z :=
  eval_locked false fuel smp n root scope.

(** The functions for fragments; a null pointer comes back as it is. *)
Definition evaluate_fragment_in_global_context (fuel : nat) (n : option node) (scope : Z) : M acts Z :=
  match n with None => ret 0 | Some n => eval_locked true fuel 0 n None scope end.

Definition evaluate_fragment_in_global_context_no_symbol_expansion (fuel : nat) (n : option node) (scope : Z) : M acts Z :=
  match n with None => ret 0 | Some n => eval_locked_ceps_expr_no_symbol_expansion fuel 0 n None scope end.

(** ** The callbacks *)

(** Statements that are events: they are put into the main queue and the queues of the
    senders. *)
Definition fire_named (name : string) (args : list node) : M acts unit :=
  on_core (
    let! unique := session_of unique_events in
    Fetch.enqueue_event ev_size info_size (mkQueued (mkEvent name 0 true None args [] None) (bool_decide (name ∈ unique)) false 0 0 0) true).

Definition stmt_claimer (n : node) : M acts unit :=
  let! a := get in
  match func_stmt_claimer (a_env a) with
  | None => ret tt
  | Some _ =>
    if negb (inside_func_call_ctr (a_env a) =? 0) then ret tt
    else
      match n with
      | Symbol name kind => if String.eqb kind "Event" then fire_named name [] else ret tt
      | Func_call _ =>
        match event_call n with
        | Some (Symbol name kind, args) => if String.eqb kind "Event" then fire_named name args else ret tt
        | _ => ret tt
        end
      | _ => ret tt
      end
  end.

(** Whether the right side is evaluated before the resolver gets it. *)
Definition ceps_interface_binop_resolver_pred (op : string) (lhs : node) : bool :=
  negb (String.eqb op "=" && is_assignment_to_guard lhs).

Definition delete_node (p : Z) : M core unit := modify (fun c => with_nodes (delete p (nodes c)) c).

Definition set_state_value (name : string) (p : Z) : M core unit :=
  modify (fun c => with_global_states (<[name := p]> (global_states c)) c).

(** sm_action_assignment: [rhs] is an object. A state gets a clone of it, and its old object
    is deleted. *)
Definition sm_action_assignment (binop lhs : node) (rhs : Z) : M core Z :=
  match lhs with
  | Symbol name kind =>
    if String.eqb kind "Guard" then
      let! n := gets nodes in let! n := of_option (n !! rhs) in
      do! eval_guard_assign lhs n in ret rhs
    else if String.eqb kind "Systemstate" then
      let! c := get in
      let old_value := default 0 (global_states c !! name) in
      let! n := of_option (nodes c !! rhs) in
      let! p := new_node n in
      do! set_state_value name p in
      do! (if old_value =? 0 then ret tt else delete_node old_value) in
      ret rhs
    else throw (Fatal (-1) ("Unsupported assignment:" +:+ show_node binop +:+ "
"))
  | _ => throw (Fatal (-1) ("Unsupported assignment:" +:+ show_node binop +:+ "
"))
  end.

Definition member_name (n : node) : string := match n with Identifier name | Symbol name _ => name | _ => "" end.

Definition is_dot_operator (n : option node) : bool :=
  match n with Some (Binary_operator op _ _) => String.eqb op "." | _ => false end.

(** ceps_interface_binop_resolver: [left] and [right] are the operands as they were written,
    [lhs] the evaluated left one, [rhs] the object of the evaluated right one; 0: it does
    not know the operator. For a guard the right side as it was written is stored. *)
Definition ceps_interface_binop_resolver (binop : node) (lhs : node) (rhs : Z) (parent : option node) : M core Z :=
  match binop with
  | Binary_operator op _ written =>
    if String.eqb op "=" then
      if is_assignment_to_guard lhs then let! p := new_node written in sm_action_assignment binop lhs p
      else sm_action_assignment binop lhs rhs
    else
      match node_isrw_state lhs with
      | Some name =>
        if String.eqb op "." then
          let! n := gets nodes in let! r := of_option (n !! rhs) in
          let full := name +:+ "." +:+ member_name r in
          if is_dot_operator parent then new_node (Symbol full "Systemstate")
          else
            let! states := gets global_states in
            match states !! full with
            | Some p => ret p
            | None => throw (Fatal (-1) ("Systemstate/Systemparameter '" +:+ full +:+ "' not defined."))
            end
        else ret 0
      | None => ret 0
      end
  | _ => undef
  end.

(** ** Sequences of statements *)

Definition statements_of (n : node) : option (list node) :=
  match n with Structdef _ content | Scope content => Some content | _ => None end.

Definition is_structdef (n : node) : bool := match n with Structdef _ _ => true | _ => false end.

(** The object of the body that a name stands for: an action of the machine with a body, or
    a global function. [None]: neither. *)
Definition body_of (smp : Z) (name : string) : M acts (option (Z * Z)) :=
  let! own := (if smp =? 0 then ret None
               else
                 let! sm := on_core (deref_sm smp) in
                 ret (match find_action name sm with
                      | Some it => if body_ it =? 0 then None else Some (body_ it)
                      | None => None
                      end)) in
  match own with
  | Some b => ret (Some (smp, b))
  | None => let! a := get in ret ((fun b => (0, b)) <$> global_funcs a !! name)
  end.

Section statements.
Context (run_body : Z -> Z -> M acts Z) (root_fuel : nat) (smp : Z).

(** One statement; the result of the sequence when it ends it. *)
Definition statement (n : node) : M acts (option Z) :=
  if is_structdef n || is_macro_definition n then ret None
  else
    match return_value n with
    | Some e => let! r := eval_locked_ceps_expr root_fuel smp e (Some n) in ret (Some r)
    | None =>
      match n with
      | Identifier name =>
        let! b := body_of smp name in
        match b with
        | Some b => do! run_body b.1 b.2 in ret None
        | None => throw (Fatal (-1) ("Invalid statement:" +:+ show_node n))
        end
      | _ => do! eval_locked_ceps_expr root_fuel smp n None in ret None
      end
    end.

Fixpoint statements (l : list node) : M acts Z :=
  match l with
  | [] => ret 0
  | n :: l' => let! r := statement n in match r with Some v => ret v | None => statements l' end
  end.
End statements.

(** execute_action_seq: [fuel] bounds the nesting of actions; [p] is the object of the
    sequence, 0 the null pointer. *)
Fixpoint execute_action_seq (fuel root_fuel : nat) (smp p : Z) : M acts Z :=
  match fuel with
  | O => out_of_fuel
  | S fuel' =>
    if p =? 0 then ret 0
    else
      let! a := get in
      let! n := of_option (nodes (a_core a) !! p) in
      match statements_of n with
      | None => ret 0
      | Some l => statements (execute_action_seq fuel' root_fuel) root_fuel smp l
      end
  end.

(** ** Asking for states *)

(** in_state: [current] is the member current_states_, which nothing writes. *)
Fixpoint in_state (fuel : nat) (current : list state_rep_t) (ids : list string) : M core bool :=
  match ids with
  | [] => ret false
  | id :: ids' =>
    let! smp := gets current_smp in
    let! state := on_heap (resolve_state_qualified_id fuel id smp) in
    if negb (r_valid state) then throw (Fatal (-1) ("in_state : illformed argument, unknown state: " +:+ id))
    else
      let! c := get in
      let! found := (if enforce_native c then let! v := of_option (zlookup (current_states (ctx c)) (r_id state)) in ret (negb (v =? 0))
                     else ret (existsb (rep_eq state) current)) in
      if found then ret true else in_state fuel current ids'
  end.
End actions.
