(* ===== verification/GuardSpec.v ===== *)
(** * GuardSpec: theorems about guard evaluation *)

From S2P Require Import Prelude MachineInt F64 Ast Guards.

(** ** Which expressions have a truth value *)

Inductive ty := TValue | TSymbol.

(** Literals are values, symbols are symbols; the comparisons take two of a kind, the
    disjunction two values, and all of them give a value. *)
Inductive has_type : node -> ty -> Prop :=
| ht_int v : has_type (Int_literal v) TValue
| ht_float v : has_type (Float_literal v) TValue
| ht_string v : has_type (String_literal v) TValue
| ht_symbol n k : has_type (Symbol n k) TSymbol
| ht_cmp op l r t : op ∈ ["=="; "="; "&&"; "!="] -> has_type l t -> has_type r t ->
    has_type (Binary_operator op l r) TValue
| ht_or l r : has_type l TValue -> has_type r TValue -> has_type (Binary_operator "||" l r) TValue.

Definition type_of_result (r : guard_reduce_result_t) : ty :=
  if is_symbol r then TSymbol else TValue.

(** C36: An expression reduces exactly when it is well typed, and it reduces to a symbol
    exactly when it has the type of symbols; everything else has no truth value. *)
Theorem reduce_expr_tree_typed n t :
  has_type n t <-> exists r, reduce_expr_tree n = Some r /\ type_of_result r = t.
Proof.
  split.
  - induction 1 as [v|v|v|n k|op l r t Hop _ (a & Ha & Ht) _ (b & Hb & Ht')|l r _ (a & Ha & Ht) _ (b & Hb & Ht')].
    1-4: by eexists.
    + cbn. rewrite Ha, Hb. unfold type_of_result in *.
      case_bool_decide as H1; [|case_bool_decide as H2; [|by set_solver]];
        unfold reduce_op; destruct (is_symbol a), (is_symbol b); cbn; try congruence; by eexists.
    + cbn. rewrite Ha, Hb. unfold type_of_result in *.
      destruct (is_symbol a), (is_symbol b); cbn; try congruence; by eexists.
  - intros (r & Hr & <-). revert r Hr.
    induction n as [v|v|v|n k|n|op l IHl r' IHr|op cs|cs|n cs|cs|v|v|k cs]; intros r Hr; cbn in Hr;
      try discriminate Hr; try (injection Hr as <-; cbn; by constructor).
    destruct (reduce_expr_tree l) as [a|]; [|done]. destruct (reduce_expr_tree r') as [b|]; [|done].
    specialize (IHl a eq_refl). specialize (IHr b eq_refl). unfold type_of_result in IHl, IHr.
    unfold reduce_op in Hr.
    case_bool_decide as H1; [|case_bool_decide as H2; [|case_bool_decide as H3; [|done]]].
    1-2: destruct (is_symbol a), (is_symbol b); cbn in Hr; try discriminate Hr;
      injection Hr as <-; (eapply ht_cmp; [set_solver|exact IHl|exact IHr]).
    subst op. destruct (is_symbol a), (is_symbol b); cbn in Hr; try discriminate Hr.
    injection Hr as <-. by constructor.
Qed.

(** Between two values the operators == and = are the conjunction: two zeros do not
    compare equal, two different non-zero numbers do, and != is the negated
    conjunction. Only between symbols is == an equality. *)
Theorem equality_is_conjunction a b n1 k1 n2 k2 :
  a <> 0 -> b <> 0 ->
  eval_to_bool (Some (Binary_operator "==" (Int_literal a) (Int_literal b))) (mkGuards ∅ 0) = Ok true (mkGuards ∅ 0) /\
  eval_to_bool (Some (Binary_operator "==" (Int_literal 0) (Int_literal 0))) (mkGuards ∅ 0) = Ok false (mkGuards ∅ 0) /\
  eval_to_bool (Some (Binary_operator "!=" (Int_literal 0) (Int_literal 0))) (mkGuards ∅ 0) = Ok true (mkGuards ∅ 0) /\
  eval_to_bool (Some (Binary_operator "==" (Symbol n1 k1) (Symbol n2 k2))) (mkGuards ∅ 0)
    = Ok (bool_decide (n1 = n2 /\ k1 = k2)) (mkGuards ∅ 0).
Proof.
  intros Ha%Z.eqb_neq Hb%Z.eqb_neq. cbn. unfold ret. cbn. rewrite Ha, Hb.
  split; [done|]. split; [done|]. split; [done|].
  rewrite bool_decide_and. done.
Qed.

Lemma equality_is_conjunction_witness :
  eval_to_bool (Some (Binary_operator "==" (Int_literal 1) (Int_literal 2))) (mkGuards ∅ 0) = Ok true (mkGuards ∅ 0).
Proof.
  destruct (equality_is_conjunction 1 2 "" "" "" "" ltac:(lia) ltac:(lia)) as [H _]. exact H.
Defined.

(** ** Unfolding *)

(** No guard is left where unfolding looks: calls and structs are not looked into. *)
Fixpoint guard_free (n : node) : bool :=
  match n with
  | Symbol _ k => negb (bool_decide (k = "Guard"))
  | Binary_operator _ l r => guard_free l && guard_free r
  | Unary_operator _ cs => forallb guard_free cs
  | _ => true
  end.

(** How deep unfolding goes without entering a guard. *)
Fixpoint height (n : node) : nat :=
  match n with
  | Binary_operator _ l r => S (Nat.max (height l) (height r))
  | Unary_operator _ cs => S (foldr (fun c h => Nat.max (height c) h) 0%nat cs)
  | _ => 0
  end.

(** What an expression stands for: a guard for what its body stands for, an operator for
    the same operator on what its operands stand for, everything else, a call with its
    arguments included, for itself. *)
Section expansion.
Context (unary_operands : list node) (G : gmap string (option node)).

Definition atomic (n : node) : Prop :=
  match n with Symbol _ _ | Binary_operator _ _ _ | Unary_operator _ _ => False | _ => True end.

Inductive expands : node -> node -> Prop :=
| expands_guard n b r : G !! n = Some (Some b) -> expands b r -> expands (Symbol n "Guard") r
| expands_symbol n k : k <> "Guard" -> expands (Symbol n k) (Symbol n k)
| expands_binary op l r l' r' : expands l l' -> expands r r' ->
    expands (Binary_operator op l r) (Binary_operator op l' r')
| expands_unary op cs cs' : Forall2 expands cs cs' ->
    expands (Unary_operator op cs) (Unary_operator op (unary_operands ++ cs'))
| expands_atomic n : atomic n -> expands n n.
End expansion.

Section unfolding.
Context (unary_operands : list node) (Hops : forallb guard_free unary_operands = true).
Context (G : gmap string (option node)) (H : nat).
Context (Hheight : forall n b, G !! n = Some (Some b) -> (height b <= H)%nat).

(** The guards of [G] that are not being unfolded. *)
Definition remaining (path : gset string) : nat := size (dom G ∖ path).

Definition unfold_fuel (path : gset string) (n : node) : nat :=
  remaining path * S H + S (height n).

(** [r] is what [n] stands for, and mentions no guard. *)
Definition unfolded (n r : node) : Prop := expands unary_operands G n r /\ guard_free r = true.

(** Between calls: the guards are [G], all interpretations are what the guards stand for. *)
Definition unfold_inv (s : unfold_t) : Prop :=
  global_guards s.1 = G /\ map_Forall (fun g r => unfolded (Symbol g "Guard") r) s.2.

Definition unfolds {A} (m : M unfold_t A) (Q : A -> Prop) : Prop :=
  forall s, unfold_inv s -> m s <> OutOfFuel /\ forall a s', m s = Ok a s' -> unfold_inv s' /\ Q a.

Lemma unfolds_ret {A} (a : A) (Q : A -> Prop) : Q a -> unfolds (ret a) Q.
Proof. intros HQ s Hs. split; [done|]. by intros b s' [= <- <-]. Qed.

Lemma unfolds_bind {A B} (m : M unfold_t A) (k : A -> M unfold_t B) P Q :
  unfolds m P -> (forall a, P a -> unfolds (k a) Q) -> unfolds (bind m k) Q.
Proof.
  intros Hm Hk s Hs. destruct (Hm s Hs) as [Hne Hok]. unfold bind.
  destruct (m s) as [a s1|e s1| |]; [|done..].
  destruct (Hok a s1 eq_refl) as [Hs1 Ha]. by apply Hk.
Qed.

Lemma unfolds_children f cs :
  (forall c, c ∈ cs -> unfolds (f c) (unfolded c)) ->
  unfolds (unfold_children f cs) (fun l => Forall2 (expands unary_operands G) cs l /\ forallb guard_free l = true).
Proof.
  induction cs as [|c cs IH]; intros Hf; cbn; [apply unfolds_ret; by split|].
  eapply unfolds_bind; [apply Hf; by left|]. intros n [He Hn].
  eapply unfolds_bind; [apply IH; intros; apply Hf; by right|]. intros l [Hes Hl].
  apply unfolds_ret. cbn. rewrite Hn. split; [by constructor|done].
Qed.

Lemma height_child c cs : c ∈ cs -> (height c <= foldr (fun c h => Nat.max (height c) h) 0%nat cs)%nat.
Proof. induction 1; cbn; lia. Qed.

Lemma remaining_step path n b :
  G !! n = Some (Some b) -> n ∉ path -> (remaining ({[n]} ∪ path) < remaining path)%nat.
Proof.
  intros Hn Hp. unfold remaining. apply subset_size. split; [set_solver|].
  intros Hsub. assert (Hin : n ∈ dom G ∖ path).
  { apply elem_of_difference. split; [|done]. apply elem_of_dom. eauto. }
  apply Hsub in Hin. set_solver.
Qed.

Lemma unfold_unfolds fuel : forall path n,
  (unfold_fuel path n <= fuel)%nat ->
  unfolds (unfold unary_operands fuel path n) (unfolded n).
Proof.
  induction fuel as [|fuel IH]; intros path n Hf; [unfold unfold_fuel in Hf; lia|].
  destruct n as [v|v|v|g k|i|op l r|op cs|cs|s cs|cs|v|v|k cs]; cbn [unfold]; try by (apply unfolds_ret; split; [by constructor|]).
  - case_bool_decide as Hk; [subst k|apply unfolds_ret; split; [by constructor|cbn; by rewrite bool_decide_eq_false_2]].
    case_bool_decide as Hp; [by intros s Hs|].
    intros s [HG Hm]. unfold bind, gets.
    destruct (s.2 !! g) as [r|] eqn:Er.
    { split; [done|]. intros a s' [= <- <-]. split; [done|]. by apply (Hm g). }
    unfold zoom, guard_body. rewrite HG.
    destruct (G !! g) as [[b|]|] eqn:Eb; [|done..]. cbn.
    destruct (IH ({[g]} ∪ path) b) with (s := (s.1, s.2)) as [Hne Hok].
    { pose proof (remaining_step path g b Eb Hp). pose proof (Hheight g b Eb).
      unfold unfold_fuel in *. cbn [height] in Hf. nia. }
    { done. }
    destruct (unfold unary_operands fuel _ b (s.1, s.2)) as [r s1|e s1| |]; [|done..].
    destruct (Hok r s1 eq_refl) as [[HG1 Hm1] [He Hr]]. split; [done|].
    assert (Hg : unfolded (Symbol g "Guard") r) by (split; [by apply (expands_guard _ _ g b)|done]).
    intros a s' [= <- <-]. split; [|done]. split; [done|]. cbn. by apply map_Forall_insert_2.
  - cbn [unfold_fuel height] in Hf. unfold unfold_fuel in *. cbn [height] in Hf.
    eapply unfolds_bind; [apply IH; lia|]. intros l' [El Hl].
    eapply unfolds_bind; [apply IH; lia|]. intros r' [Er Hr]. apply unfolds_ret. split; [by constructor|]. cbn. by rewrite Hl.
  - unfold unfold_fuel in *. cbn [height] in Hf.
    eapply unfolds_bind.
    + apply unfolds_children. intros c Hc%height_child. apply IH. lia.
    + intros cs' [Ecs Hcs]. apply unfolds_ret. split; [by constructor|]. cbn. by rewrite forallb_app, Hops.
Qed.
End unfolding.

(** C34: Unfolding a guard ends: the depth of the recursion is bounded by the number of
    guards that are not yet being unfolded times the height of their bodies, because a
    guard that is met again on the way ends it with an error. When it returns, the result is
    what the expression stands for, every guard replaced by its unfolded body, whatever
    bodies were unfolded before; no guard is left in the operands of its operators, and the
    table of guards is unchanged. Calls are not unfolded: guards in their arguments stay. *)
Theorem unfold_terminates_guard_free unary_operands g H path n :
  forallb guard_free unary_operands = true ->
  (forall m b, global_guards g !! m = Some (Some b) -> (height b <= H)%nat) ->
  let fuel := unfold_fuel (global_guards g) H path n in
  unfold unary_operands fuel path n (g, ∅) <> OutOfFuel /\
  forall r s, unfold unary_operands fuel path n (g, ∅) = Ok r s ->
    expands unary_operands (global_guards g) n r /\ guard_free r = true /\ global_guards s.1 = global_guards g.
Proof.
  intros Hops Hh fuel.
  destruct (unfold_unfolds unary_operands Hops (global_guards g) H Hh fuel path n (Nat.le_refl _) (g, ∅))
    as [Hne Hok].
  { split; [done|]. apply map_Forall_empty. }
  split; [done|]. intros r s Hr. destruct (Hok r s Hr) as [[HG _] [He Hg]]. done.
Qed.

Definition two_guards : guards_t :=
  mkGuards {["a" := Some (Binary_operator "&&" (Symbol "b" "Guard") (Int_literal 1));
             "b" := Some (Binary_operator "==" (Symbol "x" "State") (Symbol "y" "State"))]} 0.

Lemma unfold_terminates_guard_free_witness :
  guard_free (Symbol "a" "Guard") = false /\
  exists r, (exists s, unfold [] (unfold_fuel (global_guards two_guards) 1 ∅ (Symbol "a" "Guard")) ∅
                (Symbol "a" "Guard") (two_guards, ∅) = Ok r s) /\
    expands [] (global_guards two_guards) (Symbol "a" "Guard") r /\ guard_free r = true.
Proof.
  split; [reflexivity|].
  destruct (unfold_terminates_guard_free [] two_guards 1 ∅ (Symbol "a" "Guard")) as [_ Hok].
  - reflexivity.
  - intros m b Hm. unfold two_guards in Hm. cbn in Hm.
    apply lookup_insert_Some in Hm as [[_ [= <-]]|[_ Hm]]; [cbn; lia|].
    apply lookup_singleton_Some in Hm as [_ [= <-]]. cbn. lia.
  - destruct (unfold [] _ ∅ (Symbol "a" "Guard") (two_guards, ∅)) as [r s|e s| |] eqn:E;
      [|vm_compute in E; discriminate E..].
    exists r. split; [exists s; reflexivity|]. destruct (Hok r s eq_refl) as (He & Hg & _). split; [exact He|exact Hg].
Defined.

(** A guard that depends on itself is reported. *)
Example cyclic_guard_reported :
  unfold [] 10 {["a"]} (Symbol "a" "Guard") (mkGuards ∅ 0, ∅)
  = Throw (Fatal (-1) "Cyclic dependence of guards detected.") (mkGuards ∅ 0, ∅).
Proof. reflexivity. Qed.

(** A comparison of two disjunctions is well typed. *)
Lemma reduce_expr_tree_typed_witness :
  exists r, reduce_expr_tree (Binary_operator "==" (Binary_operator "||" (Int_literal 0) (Int_literal 2))
    (String_literal "x")) = Some r /\ type_of_result r = TValue.
Proof.
  apply reduce_expr_tree_typed. eapply (ht_cmp _ _ _ TValue); [set_solver| |constructor].
  constructor; constructor.
Defined.
