(* ===== verification/FlatStep.v ===== *)
(** * FlatStep: one step between states of the same machines

    When no fired transition crosses the border of a state machine, a round of the
    loop fires exactly the enabled transitions, runs their actions in the order of
    their numbers and moves every fired transition's source to its target. *)

From S2P Require Import Prelude MachineInt VMEnv VMTable Ast ExecCtx ExecLoop SimLoop.
From S2P Require Import ExecCtxSpec SlotSpec EnterExit.

(** ** What fires *)

Lemma elem_of_concat_map {A B} (f : A -> list B) l y :
  y ∈ concat (map f l) <-> exists x, x ∈ l /\ y ∈ f x.
Proof.
  induction l as [|a l IH]; cbn; [rewrite elem_of_nil; split; [done|intros (? & ?%elem_of_nil & _); done]|].
  rewrite elem_of_app, IH. setoid_rewrite elem_of_cons. naive_solver.
Qed.

Section fires.
Context (c : ectx) (g : transition_t -> bool) (e : Z).

(** An epsilon transition from a state to itself without condition never fires when
    the state is already there. *)
Definition idle_loop (cur : list Z) (t : transition_t) : bool :=
  present cur (to t) && (e =? 0) && (ev t =? 0) && (from t =? to t) && (guard t =? 0)
  && bool_decide (script_guard t = "").

Definition fires (cur : list Z) (t : transition_t) : bool :=
  (Z.land (props t) TRANS_PROP_ABSTRACT =? 0) && negb (idle_loop cur t) && (ev t =? e) && g t.

Definition fires_at (cur : list Z) (i : Z) : bool :=
  match zlookup (transitions c) i with Some t => fires cur t | None => false end.

(** The fired transitions, state by state. *)
Definition fired_of (cur : list Z) (s : Z) : list Z :=
  if present cur s then filter (fun i => fires_at cur i = true) (slots_of_state (transitions c) s) else [].

Definition fired (cur : list Z) : list Z :=
  concat (map (fired_of cur) (zrange 0 (number_of_states c + 1))).
End fires.

(** ** The tables of a machine *)

Record step_tables_ok (c : ectx) : Prop := {
  st_tables : tables_ok c;
  st_transitions : well_formed (number_of_states c) (transitions c);
  st_count : Z.of_nat (length (transitions c)) < 2 ^ 31;
  st_bits : Forall (fun x => x = 0 \/ x = 1) (current_states c);
  st_targets : Forall (fun t => is_state c (to t)) (transitions c);
  st_slots : (states2transitions_slot_start c, states2transitions_slots c)
             = slots_naive (number_of_states c) (transitions c);
  st_machine t1 t2 : t1 ∈ transitions c -> t2 ∈ transitions c -> from t1 = from t2 -> smp t1 = smp t2;
  st_uncovered : start_of_covering_states c = SIZE_MAX /\ start_of_covering_transitions c = SIZE_MAX;
  st_no_shadow_state : length (shadow_state c) = length (current_states c) /\
                       Forall (fun x => x <= 0) (shadow_state c);
  st_no_shadow_transition : length (shadow_transitions c) = length (transitions c) /\
                            Forall (fun x => x <= 0) (shadow_transitions c)
}.

Lemma visit_transition_uncovered c i :
  start_of_covering_transitions c = SIZE_MAX -> 0 <= i < SIZE_MAX -> visit_transition i c = Ok tt c.
Proof.
  intros Hs Hi. unfold visit_transition, bind, gets. rewrite Hs.
  replace (u64 i) with i by (symmetry; apply Z.mod_small; unfold SIZE_MAX in *; lia).
  destruct (i <? SIZE_MAX) eqn:E; zbool; [done|lia].
Qed.

Lemma visit_state_uncovered c i :
  start_of_covering_states c = SIZE_MAX -> 0 <= i < SIZE_MAX -> visit_state i c = Ok tt c.
Proof.
  intros Hs Hi. unfold visit_state, bind, gets. rewrite Hs.
  replace (u64 i) with i by (symmetry; apply Z.mod_small; unfold SIZE_MAX in *; lia).
  destruct (i <? SIZE_MAX) eqn:E; zbool; [done|lia].
Qed.

Section step.
Context {W : Type} `{Target} `{Host W} (vm_rounds : nat).

(** ** Reading on the frame *)

Lemma in_ctx_vget {A} (fld : ectx -> list A) i x (f : frame W) :
  zlookup (fld (ctx (core f))) i = Some x -> in_ctx (vget fld i) f = Ok x f.
Proof.
  intros Hx. unfold in_ctx, on_core, on_ctx, zoom, vget. rewrite Hx. by destruct f as [[]].
Qed.

Lemma in_ctx_id {A} (m : M ectx A) a (f : frame W) :
  m (ctx (core f)) = Ok a (ctx (core f)) -> in_ctx m f = Ok a f.
Proof. intros Hm. unfold in_ctx, on_core, on_ctx, zoom. rewrite Hm. by destruct f as [[]]. Qed.

Lemma get_temp_run i (f : frame W) :
  0 <= i < Z.of_nat (length (temp f)) -> get_temp i f = Ok (default 0 (zlookup (temp f) i)) f.
Proof. intros Hi. unfold get_temp, vget. by destruct (zlookup_is_Some (temp f) i Hi) as [x ->]. Qed.

Lemma set_temp_run i x (f : frame W) :
  0 <= i < Z.of_nat (length (temp f)) ->
  set_temp i x f = Ok tt (with_temp (<[Z.to_nat i := x]> (temp f)) f).
Proof. intros Hi. unfold set_temp, vset. by rewrite zinsert_Some. Qed.

(** ** Collecting the fired transitions *)

Section collect.
Context (c : ectx) (Hc : step_tables_ok c).
Context (g : transition_t -> bool) (e : Z).

(** The guards are predicates: evaluating one returns and leaves the tables alone. *)
Context (Hguard : forall t (s : smc W), t ∈ transitions c -> ctx s = c ->
  exists s', eval_transition_guard vm_rounds t s = Ok (g t) s' /\ ctx s' = c).

(** [F] has been collected. *)
Record collected (F : list Z) (f : frame W) : Prop := {
  co_ctx : ctx (core f) = c;
  co_temp : temp f = current_states c;
  co_end : triggered_transitions_end f = Z.of_nat (length F);
  co_size : Z.of_nat (length (triggered_transitions f)) = max_number_of_active_transitions;
  co_list : take (length F) (triggered_transitions f) = F;
  co_valid : Forall (fun i => 0 <= i < Z.of_nat (length (transitions c))) (triggered_transitions f);
  co_regions : triggered_thread_regions_end f = 0
}.

Lemma push_triggered_runs F i :
  Z.of_nat (length F) < max_number_of_active_transitions ->
  0 <= i < Z.of_nat (length (transitions c)) ->
  runs (collected F) (push_triggered i) (fun _ => collected (F ++ [i])).
Proof.
  intros HF Hi f [C1 C2 C3 C4 C5 C6 C7]. unfold push_triggered, bind, gets, vset, modify.
  rewrite C3. rewrite zinsert_Some by lia. rewrite Nat2Z.id. eexists _, _. split; [reflexivity|].
  split; cbn; try done.
  - rewrite length_app. cbn. lia.
  - by rewrite length_insert.
  - rewrite length_app. cbn. rewrite Nat.add_1_r, (take_S_r _ _ i).
    + f_equal. by rewrite take_insert_ge.
    + apply list_lookup_insert_eq. lia.
  - by apply Forall_insert.
Qed.

Lemma guard_runs F t :
  t ∈ transitions c ->
  runs (collected F) (on_core (eval_transition_guard vm_rounds t)) (fun r f => r = g t /\ collected F f).
Proof.
  intros Ht f [C1 C2 C3 C4 C5 C6 C7]. unfold on_core, zoom.
  destruct (Hguard t (core f) Ht C1) as (s' & Hr & Hs'). rewrite Hr.
  eexists _, _. split; [reflexivity|]. by repeat split.
Qed.

Lemma transition_lookup i t : zlookup (transitions c) i = Some t -> t ∈ transitions c.
Proof. unfold zlookup. case_ifs; [done|]. apply list_elem_of_lookup_2. Qed.

(** The transitions of [s] that are left: [l], at position [i] of the slots. *)
Lemma triggered_of_state_runs s smp0 l : forall rounds i F trig,
  (forall (j : nat) x, (l ++ [-1]) !! j = Some x ->
     zlookup (states2transitions_slots c) (i + Z.of_nat j) = Some x) ->
  (forall x, x ∈ l -> exists t, zlookup (transitions c) x = Some t /\ from t = s /\ smp t = smp0) ->
  (length l < rounds)%nat ->
  let F' := filter (fun i => fires_at c g e (current_states c) i = true) l in
  Z.of_nat (length (F ++ F')) <= max_number_of_active_transitions ->
  runs (collected F) (triggered_of_state vm_rounds rounds s e smp0 i trig)
    (fun r => collected (F ++ F')).
Proof.
  induction l as [|x l IH]; intros rounds i F trig Hi Hl Hr F' Hlen; (destruct rounds as [|rounds]; [cbn in Hr; lia|]);
    cbn [triggered_of_state].
  - apply (runs_read _ _ (-1)).
    { intros f Hf. apply in_ctx_vget. rewrite (co_ctx _ _ Hf). specialize (Hi 0%nat (-1) eq_refl).
      by rewrite Z.add_0_r in Hi. }
    cbn [Z.eqb Pos.eqb]. apply runs_ret. intros f Hf. unfold F'. cbn. by rewrite app_nil_r.
  - destruct (Hl x) as (t & Ht & Hfrom & Hsmp); [by left|]. pose proof (zlookup_Some _ _ _ Ht) as Hx.
    apply (runs_read _ _ x).
    { intros f Hf. apply in_ctx_vget. rewrite (co_ctx _ _ Hf). specialize (Hi 0%nat x eq_refl).
      by rewrite Z.add_0_r in Hi. }
    destruct (Z.eqb_spec x (-1)); [lia|].
    apply (runs_read _ _ t). { intros f Hf. apply in_ctx_vget. by rewrite (co_ctx _ _ Hf). }
    assert (Hto : is_state c (to t)).
    { pose proof (st_targets _ Hc) as HT. rewrite Forall_forall in HT. by apply HT, (transition_lookup x). }
    assert (HF' : F' = (if fires_at c g e (current_states c) x then [x] else [])
      ++ filter (fun i => fires_at c g e (current_states c) i = true) l).
    { unfold F'. rewrite filter_cons. by destruct (fires_at _ _ _ _ x). }
    assert (Hnext : forall trig F1, F1 = F ++ (if fires_at c g e (current_states c) x then [x] else []) ->
      runs (collected F1) (triggered_of_state vm_rounds rounds s e smp0 (i + 1) trig)
        (fun _ => collected (F ++ F'))).
    { intros trig1 F1 ->. rewrite HF', app_assoc in *. apply IH.
      - intros j y Hy. replace (i + 1 + Z.of_nat j) with (i + Z.of_nat (S j)) by lia. by apply Hi.
      - intros y Hy. apply Hl. by right.
      - cbn in Hr. lia.
      - done. }
    assert (Hroom : Z.of_nat (length F) +
        Z.of_nat (length (if fires_at c g e (current_states c) x then [x] else []))
        <= max_number_of_active_transitions).
    { rewrite HF', !length_app in Hlen. lia. }
    unfold fires_at in Hnext, Hroom. rewrite Ht in Hnext, Hroom. unfold fires in Hnext, Hroom.
    destruct (Z.land (props t) TRANS_PROP_ABSTRACT =? 0); cbn [negb andb] in *;
      [|apply Hnext; by rewrite app_nil_r].
    destruct (Z.eqb_spec (smp t) smp0); [|done]. cbn [negb].
    apply (runs_read _ _ (default 0 (zlookup (current_states c) (to t)))).
    { intros f Hf. rewrite get_temp_run; [by rewrite (co_temp _ _ Hf)|].
      rewrite (co_temp _ _ Hf), (to_current _ (st_tables _ Hc)). unfold is_state in Hto. lia. }
    unfold idle_loop, present in Hnext, Hroom.
    destruct (negb (default 0 _ =? 0) && _ && _ && _ && _ && _); cbn [negb andb] in *;
      [apply Hnext; by rewrite app_nil_r|].
    destruct (ev t =? e); cbn [andb] in *; [|apply Hnext; by rewrite app_nil_r].
    rewrite (proj2 (Z.eqb_eq (from t) s) Hfrom).
    eapply runs_bind; [by apply guard_runs, (transition_lookup x)|]. intros r.
    intros f [-> Hf]. revert f Hf. change (runs (collected F) (do! if g t then push_triggered x else ret tt in
      do! if trig || g t then in_ctx (visit_transition x) else ret tt in
      triggered_of_state vm_rounds rounds s e smp0 (i + 1) (trig || g t)) (fun _ => collected (F ++ F'))).
    eapply (runs_bind _ _ _ (fun _ => collected (F ++ if g t then [x] else []))).
    { destruct (g t).
      - apply push_triggered_runs; [|done]. cbn in Hroom. lia.
      - apply runs_ret. intros f Hf. by rewrite app_nil_r. }
    intros []. apply (runs_read _ _ tt); [|by apply Hnext].
    intros f Hf. destruct (trig || g t); [|done]. apply in_ctx_id. rewrite (co_ctx _ _ Hf).
    apply visit_transition_uncovered; [apply (st_uncovered _ Hc)|].
    pose proof (st_count _ Hc). unfold SIZE_MAX. lia.
Qed.

Lemma slot_group s : is_state c s ->
  exists k, zlookup (states2transitions_slot_start c) s = Some k /\ 0 <= k /\
    forall (j : nat) x, (slots_of_state (transitions c) s ++ [-1]) !! j = Some x ->
      zlookup (states2transitions_slots c) (k + Z.of_nat j) = Some x.
Proof.
  intros Hs. destruct (slots_naive_lookup (number_of_states c) (transitions c) s Hs) as (k & Hk & Hk0 & Hsl).
  pose proof (st_slots _ Hc) as Heq. rewrite <- Heq in Hk, Hsl. cbn in Hk, Hsl.
  exists k. split; [done|]. split; [done|]. intros j x Hx. unfold slice_get in Hsl.
  destruct (in_bounds _ _ _) eqn:Hb; [|done]. apply in_bounds_spec in Hb. injection Hsl as Hsl.
  rewrite <- Hsl in Hx. pose proof (lookup_lt_Some _ _ _ Hx) as Hj. rewrite length_take in Hj.
  rewrite lookup_take_lt, lookup_drop in Hx by lia. unfold zlookup. case_ifs; zbool; [lia|].
  rewrite <- Hx. f_equal. lia.
Qed.

Lemma slots_of_state_transitions s x : x ∈ slots_of_state (transitions c) s ->
  exists t, zlookup (transitions c) x = Some t /\ from t = s.
Proof.
  rewrite slots_of_state_outgoing. destruct (s =? 0); [by rewrite elem_of_nil|].
  rewrite outgoing_at, Z.sub_0_r. done.
Qed.

Lemma triggered_step_runs s F :
  is_state c s ->
  Z.of_nat (length (F ++ fired_of c g e (current_states c) s)) <= max_number_of_active_transitions ->
  runs (collected F) (triggered_step vm_rounds e s)
    (fun _ => collected (F ++ fired_of c g e (current_states c) s)).
Proof.
  intros Hs Hlen. pose proof (to_current _ (st_tables _ Hc)) as Hcur.
  apply (runs_read _ _ (Z.of_nat (length F))).
  { intros f Hf. unfold gets. by rewrite (co_end _ _ Hf). }
  destruct (slot_group s Hs) as (k & Hk & Hk0 & Hgroup).
  destruct (Z.eqb_spec (Z.of_nat (length F)) max_number_of_active_transitions) as [Hfull|Hnfull].
  { apply runs_ret. intros f Hf. rewrite length_app in Hlen.
    assert (Hnil : fired_of c g e (current_states c) s = []) by (apply nil_length_inv; lia).
    by rewrite Hnil, app_nil_r. }
  pose proof (state_lookup (current_states c) _ s Hcur Hs) as Hl.
  apply (runs_read _ _ (default 0 (zlookup (current_states c) s))).
  { intros f Hf. apply in_ctx_vget. by rewrite (co_ctx _ _ Hf). }
  unfold fired_of, present in *.
  destruct (Z.eqb_spec (default 0 (zlookup (current_states c) s)) 0) as [E0|E0]; cbn [negb] in *.
  { apply runs_ret. intros f Hf. by rewrite app_nil_r. }
  apply (runs_read _ _ k). { intros f Hf. apply in_ctx_vget. by rewrite (co_ctx _ _ Hf). }
  destruct (slots_of_state (transitions c) s) as [|x l] eqn:El.
  { apply (runs_read _ _ (-1)).
    { intros f Hf. apply in_ctx_vget. rewrite (co_ctx _ _ Hf).
      specialize (Hgroup 0%nat (-1) eq_refl). by rewrite Z.add_0_r in Hgroup. }
    cbn [Z.eqb Pos.eqb]. apply runs_ret. intros f Hf. cbn. by rewrite app_nil_r. }
  destruct (slots_of_state_transitions s x) as (t & Ht & Hfrom); [rewrite El; by left|].
  pose proof (zlookup_Some _ _ _ Ht) as Hx.
  apply (runs_read _ _ x).
  { intros f Hf. apply in_ctx_vget. rewrite (co_ctx _ _ Hf).
    specialize (Hgroup 0%nat x eq_refl). by rewrite Z.add_0_r in Hgroup. }
  destruct (Z.eqb_spec x (-1)); [lia|].
  apply (runs_read _ _ t). { intros f Hf. apply in_ctx_vget. by rewrite (co_ctx _ _ Hf). }
  apply (runs_read _ _ (length (states2transitions_slots c))).
  { intros f Hf. unfold gets. by rewrite (co_ctx _ _ Hf). }
  eapply runs_bind.
  - apply (triggered_of_state_runs s (smp t) (x :: l)).
    + exact Hgroup.
    + intros y Hy. rewrite <- El in Hy. destruct (slots_of_state_transitions s y Hy) as (t' & Ht' & Hfrom').
      exists t'. split; [done|]. split; [done|]. eapply (st_machine _ Hc); [by eapply transition_lookup..|congruence].
    + specialize (Hgroup (length (x :: l)) (-1)). rewrite lookup_app_r, Nat.sub_diag in Hgroup by lia.
      specialize (Hgroup eq_refl). apply zlookup_Some in Hgroup.
      lia.
    + exact Hlen.
  - intros [|]; [by apply runs_ret|]. intros f Hf. rewrite set_temp_run.
    + eexists _, _. split; [reflexivity|]. destruct Hf as [C1 C2 C3 C4 C5 C6 C7]. split; try done.
      cbn. rewrite C2. apply list_insert_id.
      destruct (zlookup (current_states c) s) as [y|] eqn:Ey; [|done]. cbn in E0.
      unfold zlookup in Ey. case_ifs; zbool; [done|]. rewrite Ey.
      pose proof (st_bits _ Hc) as Hb. rewrite Forall_forall in Hb.
      destruct (Hb y) as [->| ->]; [by eapply list_elem_of_lookup_2|done|done].
    + rewrite (co_temp _ _ Hf), Hcur. unfold is_state in Hs. lia.
Qed.

Lemma compute_triggered_runs :
  Z.of_nat (length (fired c g e (current_states c))) <= max_number_of_active_transitions ->
  runs (collected []) (compute_triggered_transitions vm_rounds (number_of_states c + 1) e)
    (fun _ => collected (fired c g e (current_states c))).
Proof.
  intros Hlen. unfold compute_triggered_transitions.
  set (part := fun d => concat (map (fired_of c g e (current_states c)) d)).
  apply (runs_forM (fun d => collected (part d)) _ _ []). intros d x l' Heq. cbn [app] in Heq.
  assert (Hpart : part (d ++ [x]) = part d ++ fired_of c g e (current_states c) x).
  { unfold part. by rewrite map_app, concat_app; cbn; rewrite app_nil_r. }
  rewrite Hpart. apply triggered_step_runs.
  - assert (Hx : x ∈ zrange 0 (number_of_states c + 1)) by (rewrite Heq; set_solver).
    apply elem_of_zrange in Hx. unfold is_state. lia.
  - rewrite <- Hpart. unfold fired in Hlen. rewrite Heq in Hlen.
    replace (d ++ x :: l') with ((d ++ [x]) ++ l') in Hlen by (by rewrite <- app_assoc).
    rewrite map_app, concat_app, length_app in Hlen. fold (part (d ++ [x])) in Hlen. lia.
Qed.

(** ** Sorting *)

Lemma fired_of_elem s i : i ∈ fired_of c g e (current_states c) s ->
  fires_at c g e (current_states c) i = true /\
  exists t, zlookup (transitions c) i = Some t /\ from t = s.
Proof.
  unfold fired_of. destruct (present _ s); [|by rewrite elem_of_nil].
  intros [Hf Hi]%list_elem_of_filter. eauto using slots_of_state_transitions.
Qed.

Lemma fired_elem i : i ∈ fired c g e (current_states c) ->
  fires_at c g e (current_states c) i = true /\ exists t, zlookup (transitions c) i = Some t.
Proof.
  unfold fired. intros (s & Hs & Hi)%elem_of_concat_map.
  destruct (fired_of_elem s i Hi) as (Hf & t & Ht & _). eauto.
Qed.

Lemma fired_NoDup : NoDup (fired c g e (current_states c)).
Proof.
  unfold fired. assert (Hgen : forall l, NoDup l ->
    NoDup (concat (map (fired_of c g e (current_states c)) l))).
  { induction 1 as [|s l Hs Hl IH]; [constructor|]. cbn. apply NoDup_app. split; [|split; [|done]].
    - unfold fired_of. destruct (present _ s); [|constructor]. apply NoDup_filter.
      rewrite slots_of_state_outgoing. destruct (s =? 0); [constructor|]. apply outgoing_NoDup.
    - intros i Hi (s' & Hs' & Hin)%elem_of_concat_map.
      apply fired_of_elem in Hi as (_ & t & Ht & <-), Hin as (_ & t' & Ht' & <-).
      rewrite Ht in Ht'. injection Ht' as <-. done. }
  apply Hgen. unfold zrange. apply NoDup_fmap_2; [|apply NoDup_seq]. intros ? ?. lia.
Qed.

Lemma unique_sorted l : StronglySorted Z.le l -> NoDup l -> unique l = l.
Proof.
  induction l as [|x [|y l] IH]; [done..|]. intros Hs Hn.
  apply NoDup_cons in Hn as [Hx Hn]. apply StronglySorted_inv in Hs as [Hs _].
  cbn [unique]. destruct (Z.eqb_spec x y) as [->|_]; [exfalso; apply Hx; by left|].
  f_equal. by apply IH.
Qed.

(** The transitions in the order in which their actions run. *)
Definition fired_sorted : list Z := merge_sort Z.le (fired c g e (current_states c)).

Lemma fired_sorted_elem i : i ∈ fired_sorted <-> i ∈ fired c g e (current_states c).
Proof. unfold fired_sorted. by rewrite merge_sort_Permutation. Qed.

Lemma sort_triggered_runs :
  runs (collected (fired c g e (current_states c))) sort_triggered
    (fun ts f => ts = fired_sorted /\ ctx (core f) = c /\ temp f = current_states c /\
       Forall (fun i => 0 <= i < Z.of_nat (length (transitions c))) (triggered_transitions f) /\
       triggered_thread_regions_end f = 0).
Proof.
  intros f [C1 C2 C3 C4 C5 C6 C7]. set (F := fired c g e (current_states c)) in *.
  assert (HF : (length F <= length (triggered_transitions f))%nat).
  { rewrite <- C5, length_take. lia. }
  assert (Hu : unique (merge_sort Z.le F) = merge_sort Z.le F).
  { apply unique_sorted; [apply StronglySorted_merge_sort; typeclasses eauto|].
    rewrite merge_sort_Permutation. apply fired_NoDup. }
  unfold sort_triggered, bind, gets, modify. rewrite C3, Nat2Z.id.
  rewrite slice_get_Some by lia. cbn [of_option ret]. unfold ret.
  change (Z.to_nat 0) with 0%nat. rewrite drop_0, C5, Hu, drop_all, app_nil_r.
  assert (Hl : length (merge_sort Z.le F) = length F) by (by rewrite merge_sort_Permutation).
  rewrite slice_set_Some by lia. cbn. rewrite Hl. eexists _, _. split; [reflexivity|].
  split; [done|]. cbn. split; [done|]. split; [done|]. split; [|done].
  rewrite !Forall_app. split; [constructor|]. split; [|by apply Forall_drop].
  rewrite merge_sort_Permutation, <- C5. by apply Forall_take.
Qed.

(** ** Taking flat transitions *)

(** Between two states of one machine, neither of them a machine itself, and not into
    the final state of a thread. *)
Definition flat (i : Z) : Prop := exists t, zlookup (transitions c) i = Some t /\
  (exists p, zlookup (parent_vec c) (from t) = Some p /\ zlookup (parent_vec c) (to t) = Some p) /\
  flag c (from t) SM = false /\ flag c (to t) SM = false /\
  flag c (to t) IN_THREAD && flag c (to t) FINAL = false.

(** The states after transition [i]. *)
Definition move (cur : list Z) (i : Z) : list Z :=
  match zlookup (transitions c) i with
  | Some t => <[Z.to_nat (to t) := 1]> (<[Z.to_nat (from t) := 0]> cur)
  | None => cur
  end.

(** The tables while the step is taken. *)
Definition c1 : ectx := with_triggered_shadow_transitions [] c.

Record moving (t : list Z) (f : frame W) : Prop := {
  mv_ctx : ctx (core f) = c1;
  mv_temp : temp f = t;
  mv_regions : triggered_thread_regions_end f = 0
}.

Lemma in_ctx_flag i k (f : frame W) :
  ctx (core f) = c1 -> is_state c i -> 0 <= k -> in_ctx (get_inf i k) f = Ok (flag c i k) f.
Proof.
  intros Hf Hi Hk. apply in_ctx_id. rewrite Hf.
  by apply (get_inf_run c1 i k (to_flags _ (st_tables _ Hc))).
Qed.

Lemma take_flat fuel i cur :
  flat i -> Z.of_nat (length cur) = number_of_states c + 1 ->
  runs (moving cur) (take_transition (S fuel) false i)
    (fun r f => r = false /\ moving (move cur i) f).
Proof.
  intros (t & Ht & (p & Hp1 & Hp2) & Hsm1 & Hsm2 & Hfin) Hlen f [M1 M2 M3].
  pose proof (transition_lookup i t Ht) as Hin.
  assert (Hto : is_state c (to t)).
  { pose proof (st_targets _ Hc) as HT. rewrite Forall_forall in HT. by apply HT. }
  assert (Hfrom : is_state c (from t)).
  { pose proof (proj2 (st_transitions _ Hc)) as HT. rewrite Forall_forall in HT. by apply HT. }
  pose proof (to_flags _ (st_tables _ Hc)) as [Hn _].
  unfold is_state in Hto, Hfrom.
  unfold take_transition, process_transition.
  rewrite (bind_read _ _ f t) by (apply in_ctx_vget; by rewrite M1).
  rewrite bind_assoc, (bind_read _ _ f t) by (apply in_ctx_vget; by rewrite M1).
  rewrite bind_assoc. unfold get_parent.
  assert (Hpos : (let! p1 := in_ctx (vget parent_vec (to t)) in
     let! p2 := in_ctx (vget parent_vec (from t)) in
     if negb (p1 =? p2) then ret true
     else let! b := in_ctx (is_sm (to t)) in if b then ret true else in_ctx (is_sm (from t))) f = Ok false f).
  { rewrite (bind_read _ _ f p) by (apply in_ctx_vget; by rewrite M1).
    rewrite (bind_read _ _ f p) by (apply in_ctx_vget; by rewrite M1).
    rewrite Z.eqb_refl. cbn [negb]. unfold is_sm.
    rewrite (bind_read _ _ f false) by (rewrite in_ctx_flag by done; by rewrite Hsm2).
    rewrite in_ctx_flag by done. by rewrite Hsm1. }
  rewrite (bind_read _ _ f false Hpos). rewrite bind_assoc.
  rewrite (bind_Ok _ _ _ _ _ (set_temp_run (from t) 0 f ltac:(rewrite M2; lia))).
  set (f1 := with_temp _ f). rewrite bind_assoc.
  rewrite (bind_Ok _ _ _ _ _ (set_temp_run (to t) 1 f1 ltac:(unfold f1; cbn; rewrite length_insert, M2; lia))).
  set (f2 := with_temp _ f1). rewrite bind_assoc.
  assert (Hc2 : ctx (core f2) = c1) by done.
  rewrite (bind_read _ _ f2 tt).
  2:{ apply in_ctx_id. rewrite Hc2. apply visit_state_uncovered; [apply (st_uncovered _ Hc)|].
      unfold SIZE_MAX. lia. }
  rewrite bind_assoc. unfold handle_final_states.
  rewrite (bind_read _ _ f2 tt).
  2:{ rewrite (bind_read _ _ f2 (flag c (to t) IN_THREAD)) by (by apply in_ctx_flag).
      destruct (flag c (to t) IN_THREAD); [|done].
      rewrite (bind_read _ _ f2 (flag c (to t) FINAL)) by (by apply in_ctx_flag).
      cbn in Hfin. by rewrite Hfin. }
  rewrite bind_ret_l.
  destruct (st_no_shadow_state _ Hc) as [Hsl Hsh]. pose proof (to_current _ (st_tables _ Hc)) as Hcl.
  destruct (zlookup_is_Some (shadow_state c) (from t) ltac:(lia)) as [sf Hsf].
  destruct (zlookup_is_Some (shadow_state c) (to t) ltac:(lia)) as [st Hst].
  rewrite (bind_read _ _ f2 sf) by (apply in_ctx_vget; by rewrite Hc2).
  rewrite (bind_read _ _ f2 st) by (apply in_ctx_vget; by rewrite Hc2).
  assert (Hle : sf <= 0 /\ st <= 0).
  { unfold zlookup in Hsf, Hst. case_ifs; zbool; [lia..|]. rewrite Forall_forall in Hsh.
    split; apply Hsh; by eapply list_elem_of_lookup_2. }
  destruct Hle as [Hle1%Z.leb_le Hle2%Z.leb_le]. rewrite Hle1, Hle2. cbn [andb].
  exists false, f2. split; [done|]. split; [done|]. split; [done| |done].
  unfold move, f2, f1. rewrite Ht. cbn. by rewrite M2.
Qed.

Lemma move_length cur i : length (move cur i) = length cur.
Proof. unfold move. destruct (zlookup _ _); [by rewrite !length_insert|done]. Qed.

Lemma take_all_flat fuel ts : forall cur,
  Forall flat ts -> Z.of_nat (length cur) = number_of_states c + 1 ->
  runs (moving cur) (foldM ts (take_transition (S fuel)) false)
    (fun r f => r = false /\ moving (foldl move cur ts) f).
Proof.
  induction ts as [|i ts IH]; intros cur Hts Hlen; cbn [foldM foldl].
  { apply runs_ret. done. }
  apply Forall_cons in Hts as [Hi Hts].
  eapply runs_bind; [by apply take_flat|]. intros r f [-> Hf].
  apply IH; [done|by rewrite move_length|done].
Qed.

(** No transition has a shadow. *)
Lemma shadow_chains_run fuel l (f : frame W) :
  ctx (core f) = c1 -> Forall (fun i => 0 <= i < Z.of_nat (length (transitions c))) l ->
  forM l (fun i => in_ctx (shadow_chain (S fuel) i)) f = Ok tt f.
Proof.
  intros Hf. induction 1 as [|i l Hi Hl IH]; [done|]. cbn [forM].
  destruct (st_no_shadow_transition _ Hc) as [Hlen Hsh].
  rewrite (bind_read _ _ f tt); [exact IH|]. apply in_ctx_id. rewrite Hf. cbn [shadow_chain].
  destruct (zlookup_is_Some (shadow_transitions c) i ltac:(lia)) as [st Hst].
  unfold bind, vget. cbn [shadow_transitions c1 with_triggered_shadow_transitions]. rewrite Hst.
  assert (Hle : st <= 0).
  { unfold zlookup in Hst. case_ifs; zbool; [lia|]. rewrite Forall_forall in Hsh.
    apply Hsh. by eapply list_elem_of_lookup_2. }
  destruct (0 <? st) eqn:E; zbool; [lia|done].
Qed.

Lemma kernel_runs fuel ts :
  Forall flat ts ->
  runs (fun f => ctx (core f) = c /\ temp f = current_states c /\
          Forall (fun i => 0 <= i < Z.of_nat (length (transitions c))) (triggered_transitions f) /\
          triggered_thread_regions_end f = 0)
    (compute_transition_kernel (S fuel) ts)
    (fun r f => r = false /\ moving (foldl move (current_states c) ts) f).
Proof.
  intros Hts f (H1 & H2 & H3 & H4). unfold compute_transition_kernel.
  set (f1 := with_core (with_ctx c1 (core f)) f).
  rewrite (bind_Ok _ _ f tt f1).
  2:{ unfold in_ctx, on_core, on_ctx, zoom, modify. by rewrite H1. }
  unfold gets at 1. rewrite (bind_read _ _ f1 (triggered_transitions f)) by done.
  rewrite (bind_read _ _ f1 tt) by (by apply shadow_chains_run).
  destruct (take_all_flat fuel ts (current_states c) Hts (to_current _ (st_tables _ Hc)) f1)
    as (r & f2 & Hr & -> & Hf2); [by split|].
  rewrite (bind_Ok _ _ _ _ _ Hr). destruct Hf2 as [M1 M2 M3].
  rewrite (bind_read _ _ f2 []) by (unfold gets; by rewrite M1). cbn [foldM]. rewrite bind_ret_l.
  rewrite (bind_read _ _ f2 0) by (unfold gets; by rewrite M3).
  rewrite (bind_read _ _ f2 (triggered_thread_regions f2)) by done.
  rewrite (bind_read _ _ f2 []).
  2:{ rewrite slice_get_Some by lia. done. }
  cbn [foldM]. exists false, f2. split; [done|]. split; [done|]. by split.
Qed.

(** The fired transitions, spelled out. *)
Lemma fired_sorted_spec i :
  i ∈ fired_sorted <->
  exists t, zlookup (transitions c) i = Some t /\ from t <> 0 /\
    present (current_states c) (from t) = true /\ fires g e (current_states c) t = true.
Proof.
  rewrite fired_sorted_elem. unfold fired. rewrite elem_of_concat_map. split.
  - intros (s & Hs & Hi). unfold fired_of in Hi.
    destruct (present (current_states c) s) eqn:Ep; [|by apply elem_of_nil in Hi].
    apply list_elem_of_filter in Hi as [Hf Hi]. rewrite slots_of_state_outgoing in Hi.
    destruct (Z.eqb_spec s 0); [by apply elem_of_nil in Hi|].
    apply outgoing_at in Hi as (t & Ht & <-). rewrite Z.sub_0_r in Ht. exists t.
    unfold fires_at in Hf. rewrite Ht in Hf. done.
  - intros (t & Ht & Hn0 & Hp & Hf). exists (from t).
    pose proof (proj2 (st_transitions _ Hc)) as HT. rewrite Forall_forall in HT.
    specialize (HT t (transition_lookup i t Ht)). split; [apply elem_of_zrange; lia|].
    unfold fired_of. rewrite Hp. apply list_elem_of_filter. unfold fires_at. rewrite Ht.
    split; [done|]. rewrite slots_of_state_outgoing. destruct (Z.eqb_spec (from t) 0); [done|].
    apply outgoing_at. rewrite Z.sub_0_r. eauto.
Qed.

Lemma load_temp_runs (f : frame W) :
  ctx (core f) = c -> length (temp f) = length (current_states c) ->
  load_temp (number_of_states c + 1) f = Ok tt (with_temp (current_states c) f).
Proof.
  intros Hf Hl. pose proof (to_current _ (st_tables _ Hc)) as Hn.
  unfold load_temp, bind, gets, modify. rewrite Hf, <- Hn, Nat2Z.id.
  rewrite slice_get_Some by lia. cbn [of_option]. unfold ret. change (Z.to_nat 0) with 0%nat.
  rewrite drop_0, firstn_all, slice_set_Some by lia. cbn [of_option]. unfold ret.
  change (Z.to_nat 0) with 0%nat. cbn [take app Nat.add].
  by rewrite drop_ge, app_nil_r by lia.
Qed.

Lemma store_temp_runs (f : frame W) :
  length (temp f) = length (current_states (ctx (core f))) ->
  Z.of_nat (length (temp f)) = number_of_states c + 1 ->
  store_temp (number_of_states c + 1) f
  = Ok tt (with_core (with_ctx (with_current_states (temp f) (ctx (core f))) (core f)) f).
Proof.
  intros Hl Hn. unfold store_temp, bind, gets, modify. rewrite <- Hn, Nat2Z.id.
  rewrite slice_get_Some by lia. cbn [of_option]. unfold ret. change (Z.to_nat 0) with 0%nat.
  rewrite drop_0, firstn_all, slice_set_Some by lia. cbn [of_option]. unfold ret.
  change (Z.to_nat 0) with 0%nat. cbn [take app Nat.add].
  by rewrite drop_ge, app_nil_r by lia.
Qed.

Lemma moves_length ts : forall cur, length (foldl move cur ts) = length cur.
Proof. induction ts as [|i ts IH]; intros cur; [done|]. cbn. by rewrite IH, move_length. Qed.
End collect.
End step.

(** ** The step *)

(** Nothing follows an event that is not exported. *)
Lemma no_callback {W : Type} `{Host W} b ev_id (f : frame W) :
  ev_id ∉ exported_events (ctx (core f)) -> on_core (post_process 0 b ev_id) f = Ok tt f.
Proof.
  intros He. unfold on_core, zoom, post_process, bind, gets, ret. cbn [Z.eqb negb].
  rewrite andb_false_r. cbn. rewrite (bool_decide_eq_false_2 _ He), andb_false_r. by destruct f.
Qed.

(** No sender is registered. *)
Lemma no_senders {W : Type} `{Host W} b (f : frame W) :
  event_triggered_sender (core f) = [] -> on_core (handle_event_triggered_senders b) f = Ok false f.
Proof.
  intros Hs. unfold on_core, zoom, handle_event_triggered_senders, bind, gets. rewrite Hs.
  destruct f as [s]. cbn [core]. destruct (_ && _); reflexivity.
Qed.

Section flat.
Context {W : Type} `{Target} `{Host W} (vm_rounds fuel : nat).
Context (c : ectx) (g : transition_t -> bool) (ei : checked_event).

(** The first part of a round, up to the sorted list of transitions. *)
Lemma fire_runs (f : frame W) :
  step_tables_ok c -> ctx (core f) = c ->
  (forall t (s : smc W), t ∈ transitions c -> ctx s = c ->
     exists s', eval_transition_guard vm_rounds t s = Ok (g t) s' /\ ctx s' = c) ->
  length (temp f) = length (current_states c) ->
  Z.of_nat (length (triggered_transitions f)) = max_number_of_active_transitions ->
  Forall (fun i => 0 <= i < Z.of_nat (length (transitions c))) (triggered_transitions f) ->
  Z.of_nat (length (fired c g (ce_ev_id ei) (current_states c))) <= max_number_of_active_transitions ->
  let f0 := with_triggered_transitions_end 0 (with_triggered_thread_regions_end 0
              (with_temp (current_states c) f)) in
  exists f1 f2,
    compute_triggered_transitions vm_rounds (number_of_states c + 1) (ce_ev_id ei) f0 = Ok tt f1 /\
    triggered_transitions_end f1 = Z.of_nat (length (fired c g (ce_ev_id ei) (current_states c))) /\
    sort_triggered f1 = Ok (fired_sorted c g (ce_ev_id ei)) f2 /\
    ctx (core f2) = c /\ temp f2 = current_states c /\
    Forall (fun i => 0 <= i < Z.of_nat (length (transitions c))) (triggered_transitions f2) /\
    triggered_thread_regions_end f2 = 0.
Proof.
  intros Hc Hf Hg Hl Hsz Hv Hlen f0.
  destruct (compute_triggered_runs vm_rounds c Hc g (ce_ev_id ei) Hg Hlen f0) as ([] & f1 & Hr & Hf1).
  { by split. }
  destruct (sort_triggered_runs c g (ce_ev_id ei) f1 Hf1) as (ts & f2 & Hs & -> & H1 & H2 & H3 & H4).
  exists f1, f2. split; [exact Hr|]. split; [apply Hf1|]. done.
Qed.
End flat.

(** C1: One round of the loop between the plain states of a program without coverage. When
    every enabled transition goes from a state to a state with the same parent, neither of
    them a machine and the target no final state of a thread, the transitions that fire are
    exactly those of the active states that are enabled for the event and whose guard holds;
    their actions run in ascending order of their numbers; when they return, the new states
    are the old ones with, in that order, the source of each fired transition left and its
    target entered; when an action throws, the exception leaves the round. The tables are
    well formed and hold no shadow states, no shadow transitions and no covering states or
    transitions, and the transitions from one state belong to one machine; guards leave the
    tables alone; at least one transition and at most as many as the buffer has entries fire;
    the event has no signature and is not the restart event, and no event-triggered sender
    is registered; the actions, as far as they return, leave the active states alone, start
    no coverage and no timing, and do not export the event. *)
Theorem flat_step {W : Type} `{Target} `{Host W} vm_rounds fuel c g ei (f : frame W) :
  step_tables_ok c -> ctx (core f) = c ->
  (forall t (s : smc W), t ∈ transitions c -> ctx s = c ->
     exists s', eval_transition_guard vm_rounds t s = Ok (g t) s' /\ ctx s' = c) ->
  length (temp f) = length (current_states c) ->
  Z.of_nat (length (triggered_transitions f)) = max_number_of_active_transitions ->
  Forall (fun i => 0 <= i < Z.of_nat (length (transitions c))) (triggered_transitions f) ->
  event_triggered_sender (core f) = [] -> ce_ev_sig ei = None ->
  (ce_ev_read ei && bool_decide (id_ (current_event (core f)) = "@@restart_state_machine")) = false ->
  let F := fired c g (ce_ev_id ei) (current_states c) in
  let ts := fired_sorted c g (ce_ev_id ei) in
  F <> [] -> Z.of_nat (length F) <= max_number_of_active_transitions -> Forall (flat c) F ->
  (forall s1 s2 : smc W, ctx s1 = c1 c -> run_triggered_actions vm_rounds ts s1 = Ok tt s2 ->
     current_states (ctx s2) = current_states c /\ log_timing (ctx s2) = false /\
     start_of_covering_states (ctx s2) = SIZE_MAX /\ ce_ev_id ei ∉ exported_events (ctx s2)) ->
  StronglySorted Z.le ts /\
  (forall i, i ∈ ts <-> exists t, zlookup (transitions c) i = Some t /\ from t <> 0 /\
     present (current_states c) (from t) = true /\
     fires g (ce_ev_id ei) (current_states c) t = true) /\
  exists s1, ctx s1 = c1 c /\
    let round := process_event vm_rounds (S fuel) (number_of_states c + 1) 0 ei f in
    (forall s2, run_triggered_actions vm_rounds ts s1 = Ok tt s2 ->
       exists f', round = Ok (Proceed, true) f' /\
         core f' = with_ctx (with_current_states (foldl (move c) (current_states c) ts) (ctx s2)) s2) /\
    (forall x s2, run_triggered_actions vm_rounds ts s1 = Throw x s2 ->
       exists f', round = Throw x f' /\ core f' = s2).
Proof.
  intros Hc Hf Hg Hl Hsz Hv Hsend Hsig Hre F ts HF Hlen Hflat Hact.
  split; [apply StronglySorted_merge_sort; typeclasses eauto|].
  split; [by apply fired_sorted_spec|].
  destruct (fire_runs vm_rounds c g ei f Hc Hf Hg Hl Hsz Hv Hlen)
    as (f1 & f2 & Hfire & Hend & Hsort & Hc2 & Ht2 & Hv2 & Hr2).
  assert (Hflat' : Forall (flat c) ts).
  { unfold ts, fired_sorted. by rewrite merge_sort_Permutation. }
  destruct (kernel_runs c Hc fuel ts Hflat' f2) as (r & f3 & Hk & -> & [M1 M2 M3]); [done|].
  exists (core f3). split; [done|]. intros round.
  set (tail := fun (_ : unit) =>
     do! log_times in do! notify_cover_handlers in do! store_temp (number_of_states c + 1) in
     do! on_core (post_process 0 (ce_ev_read ei) (ce_ev_id ei)) in ret (Proceed, true)).
  assert (Hround : round = bind (on_core (run_triggered_actions vm_rounds ts)) tail f3).
  { unfold round, process_event. rewrite (bind_read _ _ f (current_event (core f))) by done.
    cbv zeta. rewrite Hre.
    rewrite (bind_read _ _ f false).
    2:{ by apply no_senders. }
    rewrite (bind_Ok _ _ _ _ _ (load_temp_runs c Hc f Hf Hl)).
    rewrite (bind_Ok _ _ _ tt (with_triggered_transitions_end 0 (with_triggered_thread_regions_end 0
      (with_temp (current_states c) f)))) by done.
    rewrite (bind_Ok _ _ _ _ _ Hfire).
    rewrite (bind_read _ _ f1 (Z.of_nat (length F))) by (unfold gets; by rewrite Hend).
    rewrite (bind_read _ _ f1 (error_ (current_event (core f1)))) by done.
    destruct (Z.eqb_spec (Z.of_nat (length F)) 0) as [E|_]; [destruct F; done|]. cbn [andb].
    rewrite (bind_Ok _ _ _ _ _ Hsort). rewrite Hsig.
    rewrite (bind_read _ _ f2 tt) by done. unfold take_step. rewrite bind_assoc.
    rewrite (bind_Ok _ _ _ _ _ Hk). done. }
  rewrite Hround. split.
  - intros s2 Hs2. destruct (Hact _ _ M1 Hs2) as (A1 & A2 & A3 & A4).
    rewrite (bind_Ok _ _ f3 tt (with_core s2 f3)) by (unfold on_core, zoom; by rewrite Hs2).
    unfold tail, log_times, notify_cover_handlers. set (f4 := with_core s2 f3).
    rewrite (bind_read _ _ f4 tt) by (unfold bind, gets, f4; cbn [core with_core]; by rewrite A2).
    rewrite (bind_read _ _ f4 tt).
    2:{ unfold bind, gets, start_of_covering_states_valid, f4. cbn [core with_core]. by rewrite A3. }
    assert (Htemp : temp f4 = foldl (move c) (current_states c) ts) by done.
    assert (Hcur4 : current_states (ctx (core f4)) = current_states c) by done.
    rewrite (bind_Ok _ _ _ _ _ (store_temp_runs c f4 ltac:(by rewrite Htemp, moves_length, Hcur4)
      ltac:(rewrite Htemp, moves_length; apply (to_current _ (st_tables _ Hc))))).
    set (f5 := with_core _ f4).
    rewrite (bind_read _ _ f5 tt).
    2:{ apply (no_callback (ce_ev_read ei) (ce_ev_id ei) f5). exact A4. }
    exists f5. split; [done|]. unfold f5. cbn [core with_core]. by rewrite Htemp.
  - intros x s2 Hs2. exists (with_core s2 f3). split; [|done].
    unfold bind, on_core, zoom. by rewrite Hs2.
Qed.
