(* ===== verification/EnteredSpec.v ===== *)
(** * EnteredSpec: entering is closed under containment

    compute_entered_states completes the states after a step: a state that becomes
    active brings its machine, the machines around it, and their initial states. *)

From S2P Require Import Prelude MachineInt VMEnv VMTable Ast ExecCtx ExecLoop.
From S2P Require Import ExecCtxSpec EnterExit FlatStep.

(** ** The tables *)

Definition par (c : ectx) (s : Z) : Z := default 0 (zlookup (parent_vec c) s).
Definition ini (c : ectx) (s : Z) : Z := default 0 (zlookup (initial_state c) s).

(** Parents, initial states and children agree, and parents do not form a cycle. *)
Record containment_ok (c : ectx) (depth : Z -> nat) : Prop := {
  cn_tables : tables_ok c;
  cn_bits : Forall (fun x => x = 0 \/ x = 1) (current_states c);
  cn_parents : Z.of_nat (length (parent_vec c)) = number_of_states c + 1;
  cn_initials : Z.of_nat (length (initial_state c)) = number_of_states c + 1;
  cn_par s : is_state c s -> is_state c (par c s);
  cn_par0 : par c 0 = 0;
  cn_ini s : is_state c s -> ini c s <> 0 -> is_state c (ini c s) /\ par c (ini c s) = s;
  cn_kids s l x : is_state c s -> flag c s REGION = true -> kids c s = Some l -> x ∈ l -> par c x = s;
  cn_depth s : is_state c s -> par c s <> 0 -> (depth (par c s) < depth s)%nat;
  cn_uncovered : start_of_covering_states c = SIZE_MAX
}.

(** In the states [t], [x] is not active, or was active, or is at the top, or its
    parent is or was active. *)
Definition closed_at (c : ectx) (t : list Z) (x : Z) : Prop :=
  present t x = true ->
  present (current_states c) x = true \/ par c x = 0 \/
  present t (par c x) = true \/ present (current_states c) (par c x) = true.

Section entered.
Context {W : Type}.
Context (c : ectx) (depth : Z -> nat) (Hc : containment_ok c depth) (t0 : list Z).

(** During the computation: closed except at the states [P]; [act] are active; [done_]
    have been looked at; at most [K] machines have been noted as entered. *)
Record entering (P act done_ : list Z) (K : Z) (f : frame W) : Prop := {
  en_ctx : exists iv, ctx (core f) = with_inf_vec iv c;
  en_same : same_but_visited c (ctx (core f));
  en_temp : Z.of_nat (length (temp f)) = number_of_states c + 1;
  en_mono x : present t0 x = true -> present (temp f) x = true;
  en_new x : is_state c x -> flag (ctx (core f)) x VISITED = false ->
    zlookup (temp f) x = zlookup t0 x;
  en_closed x : is_state c x -> flag (ctx (core f)) x VISITED = true -> x ∉ P ->
    closed_at c (temp f) x;
  en_act x : x ∈ act -> present (temp f) x = true;
  en_done x : x ∈ done_ -> flag (ctx (core f)) x VISITED = true \/ present t0 x = false \/
    present (current_states c) x = true;
  en_next : 0 <= entering_sms_next f <= K;
  en_size : Z.of_nat (length (entering_sms f)) = number_of_states c + 1;
  en_list : Forall (is_state c) (take (Z.to_nat (entering_sms_next f)) (entering_sms f))
}.

Lemma entering_change P P' act act' done_ K f :
  entering P act done_ K f ->
  (forall x, x ∈ P -> is_state c x -> x ∉ P' -> closed_at c (temp f) x) ->
  (forall x, x ∈ act' -> present (temp f) x = true) ->
  entering P' act' done_ K f.
Proof.
  intros [] HP Ha. split; try done. intros x Hx Hv Hn.
  destruct (decide (x ∈ P)); auto.
Qed.

(** Fewer states known to be active. *)
Lemma entering_forget P act act' done_ K f :
  entering P act done_ K f -> act' ⊆ act -> entering P act' done_ K f.
Proof.
  intros Hf Ha. eapply entering_change; [exact Hf|done|].
  intros x Hx. apply (en_act _ _ _ _ _ Hf), Ha, Hx.
Qed.

(** ** Reading *)

Lemma vget_same {A} (fld : ectx -> list A) i x P act done_ K f :
  (forall iv, fld (with_inf_vec iv c) = fld c) -> zlookup (fld c) i = Some x ->
  entering P act done_ K f -> in_ctx (vget fld i) f = Ok x f.
Proof.
  intros Hf Hx He. destruct (en_ctx _ _ _ _ _ He) as [iv Hiv].
  apply in_ctx_vget. by rewrite Hiv, Hf.
Qed.

Lemma parent_runs s P act done_ K f :
  is_state c s -> entering P act done_ K f -> in_ctx (get_parent s) f = Ok (par c s) f.
Proof.
  intros Hs. apply vget_same; [done|]. pose proof (cn_parents _ _ Hc). unfold par, is_state in *.
  destruct (zlookup_is_Some (parent_vec c) s ltac:(lia)) as [x Hx]. by rewrite Hx.
Qed.

Lemma initial_runs s P act done_ K f :
  is_state c s -> entering P act done_ K f -> in_ctx (vget initial_state s) f = Ok (ini c s) f.
Proof.
  intros Hs. apply vget_same; [done|]. pose proof (cn_initials _ _ Hc). unfold ini, is_state in *.
  destruct (zlookup_is_Some (initial_state c) s ltac:(lia)) as [x Hx]. by rewrite Hx.
Qed.

Lemma current_runs s P act done_ K f :
  is_state c s -> entering P act done_ K f ->
  in_ctx (vget current_states s) f = Ok (default 0 (zlookup (current_states c) s)) f.
Proof.
  intros Hs. apply vget_same; [done|]. eapply state_lookup; [|exact Hs].
  apply (to_current _ (cn_tables _ _ Hc)).
Qed.

Lemma inf_runs s k P act done_ K f :
  is_state c s -> 0 <= k -> entering P act done_ K f ->
  in_ctx (get_inf s k) f = Ok (flag (ctx (core f)) s k) f.
Proof.
  intros Hs Hk He. apply in_ctx_id. pose proof (en_same _ _ _ _ _ He) as Hsv.
  apply get_inf_run; [apply Hsv| |done]. unfold is_state. by rewrite (sv_number _ _ Hsv).
Qed.

Lemma state_bit s : is_state c s ->
  let x := default 0 (zlookup (current_states c) s) in x = 0 \/ x = 1.
Proof.
  intros _. cbn. destruct (zlookup (current_states c) s) as [x|] eqn:E; [|by left].
  pose proof (cn_bits _ _ Hc) as Hb. rewrite Forall_forall in Hb. cbn. apply Hb.
  unfold zlookup in E. destruct (s <? 0); [done|]. by apply list_elem_of_lookup_2 in E.
Qed.

(** ** Activating *)

Definition activated (x : Z) (f : frame W) : frame W := with_temp (<[Z.to_nat x := 1]> (temp f)) f.

Definition marked_frame (x : Z) (f : frame W) : frame W :=
  with_core (with_ctx (inf_set x VISITED true (ctx (core f))) (core f)) f.

Lemma activate_run x P act done_ K f :
  is_state c x -> entering P act done_ K f -> activate x f = Ok tt (activated x f).
Proof.
  intros Hx He. pose proof (en_temp _ _ _ _ _ He). unfold is_state in *. unfold activate.
  rewrite (bind_Ok _ _ f tt (activated x f)) by (apply set_temp_run; lia).
  apply in_ctx_id. destruct (en_ctx _ _ _ _ _ He) as [iv Hiv].
  apply visit_state_uncovered.
  - cbn [activated core with_temp]. rewrite Hiv. apply (cn_uncovered _ _ Hc).
  - pose proof (to_flags _ (cn_tables _ _ Hc)) as [Hn _]. unfold SIZE_MAX. lia.
Qed.

Lemma mark_run x P act done_ K f :
  is_state c x -> entering P act done_ K f -> mark x f = Ok tt (marked_frame x f).
Proof.
  intros Hx He. pose proof (en_same _ _ _ _ _ He) as Hsv.
  unfold mark, in_ctx, on_core, on_ctx, zoom.
  rewrite set_inf_run; [done|apply Hsv| |done|done]. unfold is_state. by rewrite (sv_number _ _ Hsv).
Qed.

Lemma present_insert (t : list Z) x y :
  0 <= x < Z.of_nat (length t) ->
  present (<[Z.to_nat x := 1]> t) y = if y =? x then true else present t y.
Proof.
  intros Hx. unfold present. destruct (Z.eqb_spec y x) as [->|Hne].
  - by rewrite zlookup_insert_eq.
  - by rewrite zlookup_insert_ne by lia.
Qed.

Lemma closed_mono t t' x :
  (forall y, present t y = true -> present t' y = true) ->
  (present t' x = true -> present t x = true) -> closed_at c t x -> closed_at c t' x.
Proof. unfold closed_at. intros H1 H2 H3 H4. destruct (H3 (H2 H4)) as [?|[?|[?|?]]]; auto. Qed.

(** [marked_frame] of a state that is active: it may not be closed yet. *)
Lemma entering_mark x P act done_ K f :
  is_state c x -> entering P act done_ K f ->
  entering (x :: P) act done_ K (marked_frame x f).
Proof.
  intros Hx He. destruct He as [[iv Hiv] Hsv Ht Hm Hnew Hcl Ha Hd Hn Hsz Hl].
  assert (Hxc : is_state (ctx (core f)) x) by (unfold is_state; by rewrite (sv_number _ _ Hsv)).
  assert (Hflag : forall y, flag (inf_set x VISITED true (ctx (core f))) y VISITED
                            = if y =? x then true else flag (ctx (core f)) y VISITED).
  { intros y. rewrite flag_inf_set by (done || apply Hsv). by rewrite Z.eqb_refl, andb_true_r. }
  split; cbn [core ctx temp entering_sms entering_sms_next marked_frame with_core with_ctx]; try done.
  - unfold inf_set. destruct (zlookup _ x); [|by exists iv]. rewrite Hiv. by eexists.
  - by apply same_but_visited_inf_set.
  - intros y Hy. rewrite Hflag. destruct (y =? x); [done|]. by apply Hnew.
  - intros y Hy. rewrite Hflag. rewrite elem_of_cons. destruct (Z.eqb_spec y x); [tauto|].
    intros Hv Hp. apply Hcl; tauto.
  - intros y Hy. rewrite Hflag. destruct (y =? x); [by left|]. by apply Hd.
Qed.

(** Activating a state that is marked, or is about to be marked. *)
Lemma entering_activate x P act done_ K f :
  is_state c x -> entering P act done_ K f -> flag (ctx (core f)) x VISITED = true ->
  entering (x :: P) (x :: act) done_ K (activated x f).
Proof.
  intros Hx He Hv. destruct He as [Hiv Hsv Ht Hm Hnew Hcl Ha Hd Hn Hsz Hl].
  assert (Hp : forall y, present (temp (activated x f)) y = if y =? x then true else present (temp f) y).
  { intros y. apply present_insert. unfold is_state in *. lia. }
  split; cbn [core ctx entering_sms entering_sms_next activated with_temp]; try done.
  - cbn. by rewrite length_insert.
  - intros y Hy. rewrite Hp. destruct (y =? x); auto.
  - intros y Hy Hvy. cbn. rewrite zlookup_insert_ne; [by apply Hnew|unfold is_state in Hx; lia|].
    intros ->. congruence.
  - intros y Hy Hvy HP. rewrite elem_of_cons in HP. apply (closed_mono (temp f)).
    + intros z Hz. rewrite Hp. by destruct (z =? x).
    + rewrite Hp. destruct (Z.eqb_spec y x); [tauto|done].
    + apply Hcl; tauto.
  - intros y [->|Hy]%elem_of_cons; rewrite Hp; [by rewrite Z.eqb_refl|]. destruct (y =? x); auto.
Qed.

(** The two orders commute. *)
Lemma activated_marked x f : marked_frame x (activated x f) = activated x (marked_frame x f).
Proof. done. Qed.

(** [activate(x); mark(x);] then the rest. *)
Lemma activate_mark_runs {A} x P act done_ K (k : M (frame W) A) Q :
  is_state c x ->
  runs (entering (x :: P) (x :: act) done_ K) k Q ->
  runs (entering P act done_ K) (do! activate x in do! mark x in k) Q.
Proof.
  intros Hx Hk f He. rewrite (bind_Ok _ _ _ _ _ (activate_run x _ _ _ _ f Hx He)).
  assert (Hm : mark x (activated x f) = Ok tt (marked_frame x (activated x f))).
  { pose proof (en_same _ _ _ _ _ He) as Hsv. unfold mark, in_ctx, on_core, on_ctx, zoom.
    cbn [core activated with_temp].
    rewrite set_inf_run; [done|apply Hsv| |done|done]. unfold is_state. by rewrite (sv_number _ _ Hsv). }
  rewrite (bind_Ok _ _ _ _ _ Hm), activated_marked. apply Hk.
  pose proof (en_same _ _ _ _ _ He) as Hsv.
  assert (Hv : flag (ctx (core (marked_frame x f))) x VISITED = true).
  { cbn [core ctx marked_frame with_core with_ctx].
    rewrite flag_inf_set by (done || apply Hsv || (unfold is_state; by rewrite (sv_number _ _ Hsv))).
    by rewrite !Z.eqb_refl. }
  pose proof (entering_activate x _ _ _ _ _ Hx (entering_mark x _ _ _ _ f Hx He) Hv) as He'.
  eapply entering_change; [exact He'| |apply He'].
  intros y Hy _ Hn. exfalso. apply Hn. set_solver.
Qed.

(** ** The parts of the computation *)

(** [activate(x); mark(x);] where the parent of [x] is active: [x] is closed. *)
Lemma activate_child_runs x s P act done_ K :
  is_state c x -> s ∈ act -> par c x = s ->
  runs (entering P act done_ K) (do! activate x in mark x) (fun _ => entering P (x :: act) done_ K).
Proof.
  intros Hx Hs Hp f Hf.
  destruct (activate_mark_runs x P act done_ K (ret tt) (fun _ => entering P (x :: act) done_ K) Hx) with f as (a & f' & Hr & Hf').
  - apply runs_ret. intros f1 Hf1. eapply entering_change; [exact Hf1| |].
    + intros y Hy _ Hn. rewrite elem_of_cons in Hy. destruct Hy as [->|Hy]; [|done]. intros _. right. right. left. rewrite Hp.
      apply (en_act _ _ _ _ _ Hf1). by right.
    + apply (en_act _ _ _ _ _ Hf1).
  - done.
  - exists tt, f'. split; [|done]. unfold bind in *.
    destruct (activate x f) as [[] f1| | |]; [|done..].
    destruct (mark x f1) as [[] f2| | |]; [|done..]. unfold ret in Hr. injection Hr as -> ->. done.
Qed.

Lemma enter_initial_runs s P act done_ K :
  is_state c s -> s ∈ act ->
  runs (entering P act done_ K) (enter_initial s) (fun _ => entering P act done_ K).
Proof.
  intros Hs Ha. apply (runs_read _ _ (ini c s)); [intros f; by apply initial_runs|].
  destruct (Z.eqb_spec (ini c s) 0) as [E|E]; [by apply runs_ret|].
  destruct (cn_ini _ _ Hc s Hs E) as [Hi Hp]. eapply runs_post; [by apply (activate_child_runs _ s)|].
  intros [] f Hf. eapply entering_forget; [exact Hf|set_solver].
Qed.

(** *** The threads of a region *)

Lemma entering_kids s l P act done_ K f :
  kids c s = Some l -> entering P act done_ K f ->
  exists i, zlookup (state_to_children (ctx (core f))) s = Some i /\
            group (children (ctx (core f))) (i + 1) = Some l.
Proof.
  intros Hk He. rewrite (sv_s2c _ _ (en_same _ _ _ _ _ He)), (sv_children _ _ (en_same _ _ _ _ _ He)).
  unfold kids in Hk. destruct (zlookup (state_to_children c) s) as [i|]; [|done]. by exists i.
Qed.

Lemma for_threads_runs s P act done_ K body (g : Z -> M (frame W) unit) :
  is_state c s -> (forall x f, body x f = (do! g x in ret false) f) ->
  (forall l x, kids c s = Some l -> x ∈ l ->
    runs (entering P act done_ K) (g x) (fun _ => entering P act done_ K)) ->
  runs (entering P act done_ K) (for_threads s body)
    (fun _ => entering P act done_ K).
Proof.
  intros Hs Hb Hg f Hf. destruct (to_kids _ (cn_tables _ _ Hc) s Hs) as (l & Hk & Hl).
  destruct (entering_kids s l _ _ _ _ f Hk Hf) as (i & Hi & Hgr).
  pose (g' := fun x : Z => let! sm := in_ctx (is_sm x) in
    if negb sm then ret tt
    else let! thread := in_ctx (get_inf x THREAD) in if negb thread then ret tt else g x).
  assert (Hg' : forall x, x ∈ l ->
    runs (entering P act done_ K) (g' x) (fun _ => entering P act done_ K)).
  { intros x Hx f1 Hf1. rewrite Forall_forall in Hl. specialize (Hl x Hx). unfold g'.
    rewrite (bind_Ok _ _ _ _ _ (inf_runs x SM _ _ _ _ f1 Hl ltac:(done) Hf1)).
    destruct (negb _); [by exists tt, f1|].
    rewrite (bind_Ok _ _ _ _ _ (inf_runs x THREAD _ _ _ _ f1 Hl ltac:(done) Hf1)).
    destruct (negb _); [by exists tt, f1|]. by apply (Hg l x Hk Hx). }
  unfold for_threads.
  rewrite (for_children_forM _ _ _ g' s (children (ctx (core f))) l i (entering P act done_ K)); try done.
  - apply (runs_forM (fun _ => entering P act done_ K) g' l []); [|done].
    intros d x l' Heq. apply Hg'. rewrite app_nil_l in Heq. rewrite Heq. set_solver.
  - intros f1 Hf1. by rewrite (sv_children _ _ (en_same _ _ _ _ _ Hf1)),
      (sv_children _ _ (en_same _ _ _ _ _ Hf)).
  - intros x f1 Hx Hf1. unfold g', bind. destruct (in_ctx (is_sm x) f1) as [[] f2| | |]; try done.
    cbn. destruct (in_ctx (get_inf x THREAD) f2) as [[] f3| | |]; cbn; done.
  - intros x f1 a f2 Hx Hf1 Hr. destruct (Hg' x Hx f1 Hf1) as (a' & f2' & Hr' & Hf2). rewrite Hr in Hr'. by injection Hr' as <- <-.
Qed.

Lemma enter_sm_runs s done_ K :
  is_state c s ->
  runs (fun f => entering [s] [] done_ K f /\ flag (ctx (core f)) s VISITED = true)
    (enter_sm s) (fun _ => entering [s] [s] done_ K).
Proof.
  intros Hs f [Hf Hv]. unfold enter_sm.
  rewrite (bind_Ok _ _ _ _ _ (activate_run s _ _ _ _ f Hs Hf)).
  assert (Hf1 : entering [s] [s] done_ K (activated s f)).
  { eapply entering_change; [by apply entering_activate| |].
    - intros x Hx _ Hn. set_solver.
    - intros x Hx. apply list_elem_of_singleton in Hx as ->. unfold activated. cbn [temp with_temp].
      pose proof (en_temp _ _ _ _ _ Hf). unfold is_state in Hs. rewrite present_insert by lia.
      by rewrite Z.eqb_refl. }
  revert Hf1. generalize (activated s f). clear f Hf Hv.
  apply runs_bind with (Q := fun _ => entering [s] [s] done_ K);
    [apply enter_initial_runs; [done|by left]|]. intros [] f Hf.
  rewrite (bind_Ok _ _ _ _ _ (inf_runs s REGION _ _ _ _ f Hs ltac:(done) Hf)).
  rewrite (sv_flags _ _ (en_same _ _ _ _ _ Hf)) by done.
  destruct (flag c s REGION) eqn:Hreg; [|by exists tt, f]. revert f Hf.
  apply (for_threads_runs _ _ _ _ _ _
           (fun x : Z => do! (do! activate x in mark x) in enter_initial x)); [done| |].
  - intros x f. unfold bind. destruct (activate x f) as [[] f1| | |]; [|done..].
    destruct (mark x f1) as [[] f2| | |]; [|done..]. by destruct (enter_initial x f2) as [[] f3| | |].
  - intros l x Hk Hx. assert (Hxs : is_state c x).
    { destruct (to_kids _ (cn_tables _ _ Hc) s Hs) as (l' & Hk' & Hl). rewrite Hk in Hk'.
      simplify_eq. rewrite Forall_forall in Hl. by apply Hl. }
    eapply runs_bind; [apply (activate_child_runs x s); [done|by left|by eapply cn_kids]|].
    intros []. eapply runs_post; [apply enter_initial_runs; [done|by left]|].
    intros [] f Hf. eapply entering_forget; [exact Hf|set_solver].
Qed.

(** *** The machines around a state *)

Lemma enter_ancestors_runs done_ K fuel : forall p,
  is_state c p -> (depth p < fuel)%nat ->
  runs (entering [p; par c p] [p] done_ K) (enter_ancestors fuel p)
    (fun r f => is_state c r /\ entering [] [] done_ K f).
Proof.
  induction fuel as [|fuel IH]; intros p Hp Hd; [lia|]. cbn [enter_ancestors].
  pose proof (cn_par _ _ Hc p Hp) as Hpp.
  apply (runs_read _ _ (par c p)); [intros f; by apply parent_runs|].
  destruct (Z.eqb_spec (par c p) 0) as [E|E].
  { apply runs_ret. intros f Hf. split; [done|]. rewrite E in Hf.
    eapply entering_change; [exact Hf| |by intros x ?%elem_of_nil].
    intros x Hx _ _ _. right. left. rewrite !elem_of_cons in Hx.
    destruct Hx as [->|[->|Hx%elem_of_nil]]; [done|apply (cn_par0 _ _ Hc)|done]. }
  apply (runs_read _ _ _ _ _ (fun f => current_runs (par c p) _ _ _ _ f Hpp)).
  pose proof (state_bit (par c p) Hpp) as Hbit.
  destruct (Z.eqb_spec (default 0 (zlookup (current_states c) (par c p))) 1) as [E1|E1].
  - apply runs_ret. intros f Hf. split; [done|].
    assert (Hpres : present (current_states c) (par c p) = true) by (unfold present; by rewrite E1).
    eapply entering_change; [exact Hf| |by intros x ?%elem_of_nil].
    intros x Hx _ _ _. rewrite !elem_of_cons in Hx. destruct Hx as [->|[->|Hx%elem_of_nil]]; auto.
  - apply activate_mark_runs; [done|].
    apply runs_bind with (Q := fun _ => entering [par c p; par c (par c p)] [par c p] done_ K).
    + eapply runs_post; [eapply runs_pre; [apply (enter_initial_runs (par c p) [par c p] [par c p] done_ K); [done|by left]|]|].
      * intros f Hf. eapply entering_change; [exact Hf| |].
        -- intros x Hx _ Hn _. rewrite !elem_of_cons in Hx. rewrite elem_of_cons in Hn.
           assert (x = p) as -> by (destruct Hx as [?|[?|[?|?%elem_of_nil]]]; tauto).
           right. right. left. apply (en_act _ _ _ _ _ Hf). by left.
        -- intros x Hx. apply (en_act _ _ _ _ _ Hf). set_solver.
      * intros [] f Hf. eapply entering_change; [exact Hf|set_solver|apply (en_act _ _ _ _ _ Hf)].
    + intros []. apply IH; [done|]. pose proof (cn_depth _ _ Hc p Hp E). lia.
Qed.

Lemma push_entering_runs p done_ K :
  is_state c p -> K <= number_of_states c ->
  runs (entering [] [] done_ K) (push_entering p) (fun _ => entering [] [] done_ (K + 1)).
Proof.
  intros Hp HK f [Hiv Hsv Ht Hm Hnew Hcl Ha Hd Hn Hsz Hl].
  unfold push_entering, bind, gets, vset, modify. rewrite zinsert_Some by lia.
  eexists _, _. split; [reflexivity|].
  split; cbn; try done; [lia|by rewrite length_insert|].
  replace (Z.to_nat (entering_sms_next f + 1)) with (S (Z.to_nat (entering_sms_next f))) by lia.
  rewrite (take_S_r _ _ p) by (apply list_lookup_insert_eq; lia).
  rewrite take_insert_ge by lia. apply Forall_app. split; [done|by constructor].
Qed.

Lemma finish_entered_runs fuel s done_ K :
  is_state c s -> (depth s < fuel)%nat -> K <= number_of_states c ->
  runs (entering [s; par c s] [s] done_ K) (finish_entered fuel s)
    (fun _ => entering [] [] done_ (K + 1)).
Proof.
  intros Hs Hd HK. eapply runs_bind; [by apply enter_ancestors_runs|]. intros p f [Hp Hf].
  rewrite (bind_Ok _ _ _ _ _ (inf_runs p SM _ _ _ _ f Hp ltac:(done) Hf)).
  destruct (flag _ p SM); [by apply (push_entering_runs p done_ K)|].
  exists tt, f. split; [done|]. destruct Hf. split; try done. lia.
Qed.

(** *** One state *)

Lemma get_temp_runs s P act done_ K f :
  is_state c s -> entering P act done_ K f -> get_temp s f = Ok (default 0 (zlookup (temp f) s)) f.
Proof. intros Hs Hf. apply get_temp_run. rewrite (en_temp _ _ _ _ _ Hf). unfold is_state in Hs. lia. Qed.

(** A state that needs nothing. *)
Lemma entering_skip s done_ K f :
  is_state c s -> entering [] [] done_ K f ->
  flag (ctx (core f)) s VISITED = true \/ present (temp f) s = false \/
    present (current_states c) s = true ->
  entering [] [] (done_ ++ [s]) (K + 1) f.
Proof.
  intros Hs [Hiv Hsv Ht Hm Hnew Hcl Ha Hd Hn Hsz Hl] Hskip. split; try done; [|lia].
  intros x [Hx| ->%list_elem_of_singleton]%elem_of_app; [by apply Hd|].
  destruct (flag (ctx (core f)) s VISITED) eqn:E; [by left|]. right.
  destruct Hskip as [?|[Hp|?]]; [done| |by right]. left.
  unfold present in *. by rewrite <- (Hnew s Hs E).
Qed.

(** [mark(s)] of a state that is active. *)
Lemma mark_runs s done_ K :
  is_state c s ->
  runs (fun f => entering [] [] done_ K f /\ present (temp f) s = true) (mark s)
    (fun _ f => entering [s] [s] (done_ ++ [s]) K f /\ flag (ctx (core f)) s VISITED = true).
Proof.
  intros Hs f [Hf Hp]. eexists _, _. split; [by eapply mark_run|].
  pose proof (entering_mark s _ _ _ _ f Hs Hf) as He.
  assert (Hv : flag (ctx (core (marked_frame s f))) s VISITED = true).
  { pose proof (en_same _ _ _ _ _ Hf) as Hsv. cbn [core ctx marked_frame with_core with_ctx].
    rewrite flag_inf_set by (done || apply Hsv || (unfold is_state; by rewrite (sv_number _ _ Hsv))).
    by rewrite !Z.eqb_refl. }
  split; [|done]. destruct He as [Hiv Hsv Ht Hm Hnew Hcl Ha Hd Hn Hsz Hl]. split; try done.
  - by intros x ->%list_elem_of_singleton.
  - intros x [Hx| ->%list_elem_of_singleton]%elem_of_app; [by apply Hd|by left].
Qed.

Lemma leaf_runs fuel s done_ K :
  is_state c s -> (depth s < fuel)%nat -> K <= number_of_states c ->
  runs (entering [s] [s] done_ K)
    (let! prnt := in_ctx (get_parent s) in
     let! cur := in_ctx (vget current_states prnt) in
     if negb (cur =? 0) then ret tt
     else
       do! activate prnt in
       do! mark prnt in
       finish_entered fuel s)
    (fun _ => entering [] [] done_ (K + 1)).
Proof.
  intros Hs Hd HK. pose proof (cn_par _ _ Hc s Hs) as Hp.
  apply (runs_read _ _ (par c s)); [intros f; by apply parent_runs|].
  apply (runs_read _ _ _ _ _ (fun f => current_runs (par c s) _ _ _ _ f Hp)).
  destruct (Z.eqb_spec (default 0 (zlookup (current_states c) (par c s))) 0) as [Ec|Ec]; cbn [negb].
  - apply activate_mark_runs; [done|]. eapply runs_pre; [by apply finish_entered_runs|].
    intros f Hf. eapply entering_change; [exact Hf|set_solver|].
    intros x Hx. apply (en_act _ _ _ _ _ Hf). set_solver.
  - apply runs_ret. intros f Hf.
    assert (He : entering [] [] done_ K f).
    { eapply entering_change; [exact Hf| |by intros x ?%elem_of_nil].
      intros x -> %list_elem_of_singleton _ _ _. right. right. right.
      unfold present. by apply negb_true_iff, Z.eqb_neq. }
    destruct He. split; try done. lia.
Qed.

Lemma entered_step_runs fuel s done_ :
  is_state c s -> (depth s < fuel)%nat ->
  runs (entering [] [] done_ s) (entered_step fuel s)
    (fun _ => entering [] [] (done_ ++ [s]) (s + 1)).
Proof.
  intros Hs Hd f Hf. unfold entered_step.
  rewrite (bind_Ok _ _ _ _ _ (inf_runs s VISITED _ _ _ _ f Hs ltac:(done) Hf)).
  destruct (flag _ s VISITED) eqn:Ev.
  { exists tt, f. split; [done|]. apply entering_skip; auto. }
  rewrite (bind_Ok _ _ _ _ _ (get_temp_runs s _ _ _ _ f Hs Hf)).
  destruct (Z.eqb_spec (default 0 (zlookup (temp f) s)) 0) as [E0|E0].
  { exists tt, f. split; [done|]. apply entering_skip; [done..|].
    right. left. unfold present. by rewrite E0. }
  rewrite (bind_Ok _ _ _ _ _ (current_runs s _ _ _ _ f Hs Hf)). cbn [orb].
  destruct (Z.eqb_spec (default 0 (zlookup (current_states c) s)) 0) as [Ec|Ec]; cbn [negb].
  2: { exists tt, f. split; [done|]. apply entering_skip; [done..|].
       right. right. unfold present. by apply negb_true_iff, Z.eqb_neq. }
  assert (Hp : present (temp f) s = true) by (unfold present; by apply negb_true_iff, Z.eqb_neq).
  assert (HK : s <= number_of_states c) by apply Hs.
  destruct (mark_runs s done_ s Hs f (conj Hf Hp)) as ([] & f1 & Hr1 & Hf1 & Hv1).
  rewrite (bind_Ok _ _ _ _ _ Hr1).
  rewrite (bind_Ok _ _ _ _ _ (inf_runs s SM _ _ _ _ f1 Hs ltac:(done) Hf1)).
  destruct (flag _ s SM).
  - destruct (enter_sm_runs s (done_ ++ [s]) s Hs f1) as ([] & f2 & Hr2 & Hf2).
    { split; [|done]. eapply entering_forget; [exact Hf1|set_solver]. }
    rewrite (bind_Ok _ _ _ _ _ Hr2). apply (finish_entered_runs fuel s); [done..|].
    eapply entering_change; [exact Hf2|set_solver|apply (en_act _ _ _ _ _ Hf2)].
  - by apply (leaf_runs fuel s (done_ ++ [s]) s Hs Hd HK).
Qed.

(** ** The theorem *)

Lemma entered_loop_runs fuel :
  (forall s, is_state c s -> (depth s < fuel)%nat) ->
  runs (entering [] [] [] 0)
    (forM (zrange 0 (number_of_states c + 1)) (entered_step fuel))
    (fun _ => entering [] [] (zrange 0 (number_of_states c + 1)) (number_of_states c + 1)).
Proof.
  intros Hd. assert (Hn : 0 <= number_of_states c) by apply (to_flags _ (cn_tables _ _ Hc)).
  assert (Hall : forall l done_ K, K = Z.of_nat (length done_) ->
    done_ ++ l = zrange 0 (number_of_states c + 1) ->
    runs (entering [] [] done_ K) (forM l (entered_step fuel))
      (fun _ => entering [] [] (zrange 0 (number_of_states c + 1)) (number_of_states c + 1))).
  { induction l as [|s l IH]; intros done_ K HK Heq.
    - rewrite app_nil_r in Heq. subst. rewrite zrange_length.
      replace (Z.of_nat _) with (number_of_states c + 1) by lia. by apply runs_ret.
    - assert (s = K) as ->.
      { assert (Hl : zrange 0 (number_of_states c + 1) !! length done_ = Some s)
          by (rewrite <- Heq; by rewrite list_lookup_middle).
        rewrite zrange_lookup in Hl. case_decide; [|done]. injection Hl as <-. lia. }
      assert (is_state c K).
      { assert (K ∈ zrange 0 (number_of_states c + 1)) as ?%elem_of_zrange by (rewrite <- Heq; set_solver).
        unfold is_state. lia. }
      cbn [forM]. eapply runs_bind; [apply entered_step_runs; auto|]. intros [].
      apply IH; [rewrite length_app; cbn; lia|]. by rewrite <- app_assoc. }
  by apply (Hall _ []).
Qed.
End entered.

Lemma clear_visited_inf_vec c c' :
  clear_visited c = Ok tt c' -> flags_ok c -> exists iv, c' = with_inf_vec iv c.
Proof.
  intros Hr Hok. unfold clear_visited in Hr. unfold bind, gets in Hr.
  assert (Hgen : forall l c0 c1, Forall (is_state c) l -> (exists iv, c0 = with_inf_vec iv c) ->
    same_but_visited c c0 ->
    forM l (fun i => set_inf i VISITED false) c0 = Ok tt c1 -> exists iv, c1 = with_inf_vec iv c).
  { induction l as [|s l IH]; intros c0 c1 Hl Hiv Hsv Hf; cbn [forM] in Hf; [by injection Hf as <-|].
    apply Forall_cons in Hl as [Hs Hl].
    rewrite (bind_Ok _ _ _ _ _ (set_inf_run c0 s VISITED false (sv_ok _ _ Hsv)
      ltac:(unfold is_state; by rewrite (sv_number _ _ Hsv)) ltac:(done) ltac:(done))) in Hf.
    eapply IH; [done| |by apply same_but_visited_inf_set|exact Hf].
    destruct Hiv as [iv ->]. unfold inf_set. destruct (zlookup _ s); by eexists. }
  eapply Hgen; [| |by apply same_but_visited_refl|exact Hr].
  - apply Forall_forall. intros x ?%elem_of_zrange. unfold is_state. lia.
  - exists (inf_vec c). by destruct c.
Qed.

(** C7: Entering is closed under containment: compute_entered_states returns, keeps
    every state that was there, changes nothing of the tables but flags, and afterwards
    every present state was active before, is at the top, or has its parent among the
    present or the previously active states. The noted machines are states. *)
Theorem entered_closed {W} (fuel : nat) (depth : Z -> nat) (f : frame W) :
  let c := ctx (core f) in
  containment_ok c depth ->
  (forall s, is_state c s -> (depth s < fuel)%nat) ->
  Z.of_nat (length (temp f)) = number_of_states c + 1 ->
  Z.of_nat (length (entering_sms f)) = number_of_states c + 1 ->
  entering_sms_next f = 0 ->
  exists f', compute_entered_states fuel f = Ok tt f' /\
    (exists iv, ctx (core f') = with_inf_vec iv c) /\
    (forall x, present (temp f) x = true -> present (temp f') x = true) /\
    (forall x, is_state c x -> closed_at c (temp f') x) /\
    Forall (is_state c) (take (Z.to_nat (entering_sms_next f')) (entering_sms f')).
Proof.
  intros c Hc Hd Ht He Hn. pose proof (to_flags _ (cn_tables _ _ Hc)) as Hok.
  destruct (clear_visited_run c Hok) as (c1 & Hr1 & Hsv & Hv).
  assert (Hr : clear_visited c = Ok tt c1) by exact Hr1.
  destruct (clear_visited_inf_vec c c1 Hr Hok) as [iv Hiv].
  pose (f1 := with_core (with_ctx c1 (core f)) f).
  assert (H1 : in_ctx clear_visited f = Ok tt f1)
    by (unfold in_ctx, on_core, on_ctx, zoom; fold c; by rewrite Hr).
  assert (Hf1 : entering c (temp f) [] [] [] 0 f1).
  { split; cbn [f1 core ctx with_core with_ctx temp entering_sms entering_sms_next]; try done.
    - by exists iv.
    - intros x Hx. by rewrite Hv.
    - by intros x ?%elem_of_nil.
    - by intros x ?%elem_of_nil.
    - lia.
    - by rewrite Hn. }
  destruct (entered_loop_runs c depth Hc (temp f) fuel Hd f1 Hf1) as ([] & f' & Hr' & Hf').
  exists f'. unfold compute_entered_states. rewrite (bind_Ok _ _ _ _ _ H1).
  unfold bind, gets.
  replace (Z.of_nat (length (temp f1))) with (number_of_states c + 1) by (cbn; lia).
  split; [exact Hr'|]. destruct Hf' as [Hiv' _ _ Hm Hnew Hcl _ Hdn _ _ Hl].
  split; [exact Hiv'|]. split; [exact Hm|].
  split; [|done]. intros x Hx. destruct (flag (ctx (core f')) x VISITED) eqn:E.
  - apply Hcl; [done..|]. apply not_elem_of_nil.
  - intros Hp. destruct (Hdn x) as [?|[H0|?]]; [|congruence| |by left].
    + apply elem_of_zrange. unfold is_state in Hx. lia.
    + unfold present in *. rewrite (Hnew x Hx E) in Hp. congruence.
Qed.
