(* ===== verification/TraverseSpec.v ===== *)
(** * TraverseSpec: the machines are visited once each

    The walks of the compiler over the machines: a reference depth-first search gives
    the order, the walk runs its callback in that order, and every machine that can be
    reached is in it exactly once. *)

From S2P Require Import Prelude VMTable Ast ExecCtx AsmMacros Asm VMAst VMEnv Guards Machines Names Compile.

(** ** Access to objects *)

Lemma sm_at_run c p m : h_machines (c_heap c) !! p = Some m -> on_heap (sm_at p) c = Ok m c.
Proof. intros Hm. unfold on_heap, zoom, sm_at. rewrite Hm. cbn. by destruct c. Qed.

Lemma state_at_run c q s : h_states (c_heap c) !! q = Some s -> on_heap (state_at q) c = Ok s c.
Proof. intros Hm. unfold on_heap, zoom, state_at. rewrite Hm. cbn. by destruct c. Qed.

Lemma sm_upd_run c p m f : h_machines (c_heap c) !! p = Some m ->
  on_heap (sm_upd p f) c =
  Ok tt (with_c_heap (with_h_machines (<[p := f m]> (h_machines (c_heap c))) (c_heap c)) c).
Proof. intros Hm. unfold on_heap, zoom, sm_upd, sm_at, bind. by rewrite Hm. Qed.

Lemma state_upd_run c q s f : h_states (c_heap c) !! q = Some s ->
  on_heap (state_upd q f) c =
  Ok tt (with_c_heap (with_h_states (<[q := f s]> (h_states (c_heap c))) (c_heap c)) c).
Proof. intros Hm. unfold on_heap, zoom, state_upd, state_at, bind. by rewrite Hm. Qed.

(** ** The shape of the heap

    What a walk depends on: the states and children of machines, and which states stand
    for machines. *)
Definition machine_shape (h : smheap) (p : Z) : option (list Z * list Z) :=
  (fun m => (m_states m, m_children m)) <$> h_machines h !! p.
Definition state_shape (h : smheap) (q : Z) : option (bool * Z) :=
  (fun s => (s_is_sm s, s_smp s)) <$> h_states h !! q.

Definition same_shape (h h' : smheap) : Prop :=
  (forall p, machine_shape h' p = machine_shape h p) /\
  (forall q, state_shape h' q = state_shape h q).

#[export] Instance same_shape_equiv : Equivalence same_shape.
Proof.
  split.
  - by split.
  - intros h h' [H1 H2]. by split.
  - intros h1 h2 h3 [H1 H2] [H3 H4]. split; intros; [by rewrite H3, H1|by rewrite H4, H2].
Qed.

Lemma same_shape_upd_sm h p m m' :
  h_machines h !! p = Some m -> m_states m' = m_states m -> m_children m' = m_children m ->
  same_shape h (with_h_machines (<[p := m']> (h_machines h)) h).
Proof.
  intros Hm Hs Hc. split; [|done]. intros q. unfold machine_shape. cbn.
  destruct (decide (p = q)) as [<-|Hne].
  - rewrite lookup_insert_eq, Hm. cbn. by rewrite Hs, Hc.
  - by rewrite lookup_insert_ne.
Qed.

Lemma same_shape_upd_state h q s s' :
  h_states h !! q = Some s -> s_is_sm s' = s_is_sm s -> s_smp s' = s_smp s ->
  same_shape h (with_h_states (<[q := s']> (h_states h)) h).
Proof.
  intros Hm Hs Hc. split; [done|]. intros p. unfold state_shape. cbn.
  destruct (decide (q = p)) as [<-|Hne].
  - rewrite lookup_insert_eq, Hm. cbn. by rewrite Hs, Hc.
  - by rewrite lookup_insert_ne.
Qed.

(** The machines directly below a machine: those behind its states, then its children. *)
Definition state_target (x : bool * Z) : option Z :=
  if negb x.1 || (x.2 =? 0) then None else Some x.2.

Definition succs (h : smheap) (p : Z) : option (list Z) :=
  sc ← machine_shape h p; ts ← mapM (state_shape h) sc.1; Some (omap state_target ts ++ sc.2).

(** ** Reference search

    [visited] and the list of new machines in the order in which they are met. *)
Section dfs.
Context (h : smheap).

Section kids.
Context (search : gset Z -> Z -> option (gset Z * list Z)).

Fixpoint search_list (m : gset Z) (ks : list Z) : option (gset Z * list Z) :=
  match ks with
  | [] => Some (m, [])
  | k :: ks' =>
    if bool_decide (k ∈ m) then search_list m ks'
    else
      r ← search ({[k]} ∪ m) k; r' ← search_list r.1 ks'; Some (r'.1, r.2 ++ r'.2)
  end.
End kids.

Fixpoint search (fuel : nat) (m : gset Z) (p : Z) : option (gset Z * list Z) :=
  match fuel with
  | O => None
  | S fuel' =>
    ks ← succs h p; r ← search_list (search fuel') m ks; Some (r.1, p :: r.2)
  end.

(** All machines, from the roots. *)
Fixpoint search_roots (fuel : nat) (m : gset Z) (roots : list Z) : option (gset Z * list Z) :=
  match roots with
  | [] => Some (m, [])
  | k :: roots' =>
    if bool_decide (k ∈ m) then search_roots fuel m roots'
    else
      r ← search fuel m k; r' ← search_roots fuel ({[k]} ∪ r.1) roots'; Some (r'.1, r.2 ++ r'.2)
  end.

Definition visit_order (fuel : nat) (roots : list Z) : option (list Z) :=
  snd <$> search_roots fuel ∅ roots.
End dfs.

Lemma search_list_app srch m ks ks' m' l :
  search_list srch m (ks ++ ks') = Some (m', l) ->
  exists m1 l1 l2, search_list srch m ks = Some (m1, l1) /\ search_list srch m1 ks' = Some (m', l2) /\
    l = l1 ++ l2.
Proof.
  revert m l. induction ks as [|k ks IH]; intros m l; cbn [app search_list].
  { intros H. by exists m, [], l. }
  destruct (bool_decide (k ∈ m)); [apply IH|].
  destruct (srch _ k) as [[m1 l1]|]; [|done]. cbn.
  destruct (search_list srch m1 (ks ++ ks')) as [[m2 l2]|] eqn:E; [|done]. cbn. intros [= <- <-].
  destruct (IH _ _ E) as (m3 & l3 & l4 & E3 & E4 & ->).
  rewrite E3. cbn. eexists _, _, l4. split; [done|]. split; [done|]. by rewrite app_assoc.
Qed.

(** ** The walk follows the search *)

Section walk.
Context (h : smheap) (f : Z -> M cstate unit).
Context (Hf : forall x c c', same_shape h (c_heap c) -> f x c = Ok tt c' -> same_shape h (c_heap c')).

Lemma shape_machine c p sc :
  same_shape h (c_heap c) -> machine_shape h p = Some sc ->
  exists m, on_heap (sm_at p) c = Ok m c /\ (m_states m, m_children m) = sc.
Proof.
  intros [H1 _] Hp. rewrite <- (H1 p) in Hp. unfold machine_shape in Hp.
  destruct (h_machines (c_heap c) !! p) as [m|] eqn:Em; [|done]. exists m.
  unfold on_heap, zoom, sm_at. rewrite Em. cbn. unfold ret. split; [|by injection Hp].
  by destruct c as [[]].
Qed.

Lemma shape_state c q x :
  same_shape h (c_heap c) -> state_shape h q = Some x ->
  exists s, on_heap (state_at q) c = Ok s c /\ (s_is_sm s, s_smp s) = x.
Proof.
  intros [_ H1] Hp. rewrite <- (H1 q) in Hp. unfold state_shape in Hp.
  destruct (h_states (c_heap c) !! q) as [m|] eqn:Em; [|done]. exists m.
  unfold on_heap, zoom, state_at. rewrite Em. cbn. unfold ret. split; [|by injection Hp].
  by destruct c as [[]].
Qed.

Lemma forM_shape l c c' :
  same_shape h (c_heap c) -> forM l f c = Ok tt c' -> same_shape h (c_heap c').
Proof.
  revert c. induction l as [|x l IH]; intros c Hc; cbn [forM].
  - by intros [= <-].
  - intros ([] & c1 & H1 & H2)%bind_inv_Ok. apply (IH c1); [by eapply Hf|done].
Qed.

(** One step of the walk below a machine. *)
Definition step_below (fuel : nat) (m : gset Z) (k : Z) : M cstate (gset Z) :=
  if bool_decide (k ∈ m) then ret m else traverse_sm f fuel ({[k]} ∪ m) k.

Definition follows (walk : gset Z -> Z -> M cstate (gset Z)) (srch : gset Z -> Z -> option (gset Z * list Z)) : Prop :=
  forall m p m' l c, same_shape h (c_heap c) -> srch m p = Some (m', l) ->
    walk m p c = (do! forM l f in ret m') c.

Lemma foldM_follows srch fuel ks :
  follows (traverse_sm f fuel) srch ->
  forall m m' l c, same_shape h (c_heap c) -> search_list srch m ks = Some (m', l) ->
    foldM ks (step_below fuel) m c = (do! forM l f in ret m') c.
Proof.
  intros Hw. induction ks as [|k ks IH]; intros m m' l c Hc Hs; cbn in Hs |- *.
  { by simplify_eq. }
  unfold step_below at 1. destruct (bool_decide (k ∈ m)).
  { by apply IH. }
  destruct (srch _ k) as [[m1 l1]|] eqn:E1; [|done]. cbn in Hs.
  destruct (search_list srch m1 ks) as [[m2 l2]|] eqn:E2; [|done]. cbn in Hs. simplify_eq.
  rewrite bind_unfold, (Hw _ _ _ _ _ Hc E1), bind_unfold.
  rewrite bind_unfold, forM_app, bind_unfold.
  destruct (forM l1 f c) as [[] c1|e c1| |] eqn:Ef; cbn; try done.
  rewrite (IH _ _ _ c1 (forM_shape _ _ _ Hc Ef) E2). by rewrite bind_unfold.
Qed.

(** The loop over the states is a loop over the machines behind them. *)
Lemma states_follow srch fuel qs ts :
  follows (traverse_sm f fuel) srch -> mapM (state_shape h) qs = Some ts ->
  forall m m' l c, same_shape h (c_heap c) -> search_list srch m (omap state_target ts) = Some (m', l) ->
    foldM qs (fun m p =>
      let! s := on_heap (state_at p) in
      if negb (s_is_sm s) || (s_smp s =? 0) then ret m
      else if bool_decide (s_smp s ∈ m) then ret m
      else traverse_sm f fuel ({[s_smp s]} ∪ m) (s_smp s)) m c
    = (do! forM l f in ret m') c.
Proof.
  intros Hw Hts m m' l c Hc Hs. rewrite <- (foldM_follows srch fuel _ Hw _ _ _ _ Hc Hs).
  revert ts Hts m m' l c Hc Hs. induction qs as [|q qs IH]; intros ts Hts m m' l c Hc Hs.
  { injection Hts as <-. done. }
  cbn in Hts. destruct (state_shape h q) as [x|] eqn:Ex; [|done]. cbn in Hts.
  destruct (mapM (state_shape h) qs) as [ts'|] eqn:Ets; [|done]. cbn in Hts. injection Hts as <-.
  destruct (shape_state c q x Hc Ex) as (s & Hr & <-). cbn [foldM].
  rewrite bind_assoc, (bind_Ok _ _ _ _ _ Hr). cbn [omap list_omap] in Hs |- *.
  unfold state_target in Hs |- *. cbn [fst snd] in Hs |- *.
  destruct (negb (s_is_sm s) || (s_smp s =? 0)).
  { rewrite bind_ret_l. by eapply IH. }
  cbn [foldM]. unfold step_below at 1. fold state_target in Hs |- *.
  cbn [search_list] in Hs. destruct (bool_decide (s_smp s ∈ m)).
  { rewrite !bind_ret_l. by eapply IH. }
  destruct (srch _ (s_smp s)) as [[m1 l1]|] eqn:E1; [|done]. cbn in Hs.
  rewrite !bind_unfold, (Hw _ _ _ _ _ Hc E1), bind_unfold.
  destruct (forM l1 f c) as [[] c1|e c1| |] eqn:Ef; cbn; try done.
  destruct (search_list srch m1 _) as [[m2 l2]|] eqn:E2; [|done]. cbn in Hs. simplify_eq.
  eapply IH; [done| |exact E2]. by eapply forM_shape.
Qed.

Lemma traverse_sm_follows fuel : follows (traverse_sm f fuel) (search h fuel).
Proof.
  induction fuel as [|fuel IH]; intros m p m' l c Hc Hs; [done|]. cbn [search] in Hs.
  unfold succs in Hs. destruct (machine_shape h p) as [sc|] eqn:Esc; [|done]. cbn in Hs.
  destruct (mapM (state_shape h) sc.1) as [ts|] eqn:Ets; [|done]. cbn in Hs.
  destruct (search_list _ m _) as [[m1 l1]|] eqn:E1; [|done]. cbn in Hs. simplify_eq.
  cbn [traverse_sm]. rewrite bind_unfold. cbn [forM]. rewrite bind_unfold, (bind_unfold (f p)).
  destruct (f p c) as [[] c1|e c1| |] eqn:Ef; try done.
  assert (Hc1 : same_shape h (c_heap c1)) by (by eapply Hf).
  destruct (shape_machine c1 p sc Hc1 Esc) as (mach & Hr & <-).
  rewrite (bind_Ok _ _ _ _ _ Hr). cbn [fst snd] in Ets, E1.
  destruct (search_list_app _ _ _ _ _ _ E1) as (m2 & l2 & l3 & E2 & E3 & ->).
  rewrite bind_unfold, (states_follow _ _ _ _ IH Ets _ _ _ _ Hc1 E2), bind_unfold, forM_app, bind_unfold.
  destruct (forM l2 f c1) as [[] c2|e c2| |] eqn:Ef2; cbn; try done.
  pose proof (foldM_follows _ _ _ IH _ _ _ c2 (forM_shape _ _ _ Hc1 Ef2) E3) as Hk.
  unfold step_below in Hk. rewrite Hk. by rewrite bind_unfold.
Qed.

Lemma search_roots_follows fuel roots :
  forall m m' l c, same_shape h (c_heap c) -> search_roots h fuel m roots = Some (m', l) ->
    foldM roots (fun m sm => if bool_decide (sm ∈ m) then ret m
                             else let! m := traverse_sm f fuel m sm in ret ({[sm]} ∪ m)) m c
    = (do! forM l f in ret m') c.
Proof.
  induction roots as [|k roots IH]; intros m m' l c Hc Hs; cbn in Hs |- *.
  { by simplify_eq. }
  destruct (bool_decide (k ∈ m)); [by apply IH|].
  destruct (search h fuel m k) as [[m1 l1]|] eqn:E1; [|done]. cbn in Hs.
  destruct (search_roots h fuel _ roots) as [[m2 l2]|] eqn:E2; [|done]. cbn in Hs. simplify_eq.
  rewrite bind_assoc, bind_unfold, (traverse_sm_follows _ _ _ _ _ _ Hc E1), !bind_unfold, forM_app, bind_unfold.
  destruct (forM l1 f c) as [[] c1|e c1| |] eqn:Ef; cbn; try done.
  rewrite (IH _ _ _ c1 (forM_shape _ _ _ Hc Ef) E2). by rewrite bind_unfold.
Qed.

(** A walk is a loop over [visit_order]. *)
Lemma traverse_sms_forM fuel roots order c :
  same_shape h (c_heap c) -> visit_order h fuel roots = Some order ->
  traverse_sms f fuel roots c = forM order f c.
Proof.
  unfold visit_order. intros Hc Ho. destruct (search_roots h fuel ∅ roots) as [[m' l]|] eqn:E; [|done].
  cbn in Ho. simplify_eq. unfold traverse_sms.
  rewrite bind_unfold, (search_roots_follows _ _ _ _ _ _ Hc E), bind_unfold.
  by destruct (forM order f c) as [[] c1|e c1| |].
Qed.
End walk.

(** ** What the search finds *)

Definition below_of (h : smheap) (p k : Z) : Prop := exists ks, succs h p = Some ks /\ k ∈ ks.

(** States and children of machines exist, and no machine contains itself: [rank]
    decreases from a machine to the machines below it. *)
Record acyclic (h : smheap) (rank : Z -> nat) : Prop := {
  ac_succs p : is_Some (h_machines h !! p) ->
    exists ks, succs h p = Some ks /\ Forall (fun k => is_Some (h_machines h !! k)) ks;
  ac_rank p k : below_of h p k -> (rank k < rank p)%nat
}.

Section found.
Context (h : smheap) (rank : Z -> nat) (Hac : acyclic h rank).

(** What one search adds: new machines, each once, of smaller rank; all that is below
    them has been visited. *)
Record found (n : nat) (m m' : gset Z) (l : list Z) : Prop := {
  fd_set : m' = m ∪ list_to_set l;
  fd_nodup : NoDup l;
  fd_new x : x ∈ l -> x ∉ m;
  fd_rank x : x ∈ l -> (rank x < n)%nat;
  fd_closed x k : x ∈ l -> below_of h x k -> k ∈ m';
  fd_exists x : x ∈ l -> is_Some (h_machines h !! x)
}.

Lemma found_nil n m : found n m m [].
Proof.
  assert (Hn : forall x : Z, x ∈ [] -> False) by (by intros x Hx%elem_of_nil).
  split; [set_solver|apply NoDup_nil_2|intros; exfalso; eauto..].
Qed.

(** A machine, what the search from it finds, and what is found after that. *)
Lemma found_cons n m k ma m1 l1 mb m2 l2 :
  is_Some (h_machines h !! k) -> (rank k < n)%nat -> k ∉ m -> k ∉ l1 ->
  m ⊆ ma -> mb = ({[k]} ∪ m) ∪ list_to_set l1 -> m1 ⊆ mb ->
  found n ma m1 l1 -> found n mb m2 l2 -> (forall x, below_of h k x -> x ∈ mb) ->
  found n m m2 (k :: l1 ++ l2).
Proof.
  intros Hk Hr Hkm Hkl Hma Emb Hm1 H1 H2 Hb. pose proof (fd_set _ _ _ _ H2) as E2.
  assert (Hin2 : forall x, x ∈ l2 -> x <> k /\ x ∉ m /\ x ∉ l1).
  { intros x Hx%(fd_new _ _ _ _ H2). rewrite Emb in Hx. set_solver. }
  split.
  - rewrite E2, Emb. cbn. rewrite list_to_set_app_L. set_solver.
  - apply NoDup_cons. split; [intros [Hin|Hin%Hin2]%elem_of_app; tauto|].
    apply NoDup_app. split; [apply H1|]. split; [|apply H2]. intros x Hx Hx2%Hin2. tauto.
  - intros x [->|[Hx|Hx%Hin2]%elem_of_app]%elem_of_cons; [done| |tauto].
    apply (fd_new _ _ _ _ H1) in Hx. set_solver.
  - intros x [->|[Hx|Hx]%elem_of_app]%elem_of_cons; [done| |].
    + by apply (fd_rank _ _ _ _ H1).
    + by apply (fd_rank _ _ _ _ H2).
  - intros x y [->|[Hx|Hx]%elem_of_app]%elem_of_cons Hy.
    + apply Hb in Hy. rewrite E2. set_solver.
    + pose proof (fd_closed _ _ _ _ H1 x y Hx Hy). set_solver.
    + by apply (fd_closed _ _ _ _ H2 x y).
  - intros x [->|[Hx|Hx]%elem_of_app]%elem_of_cons; [done| |].
    + by apply (fd_exists _ _ _ _ H1).
    + by apply (fd_exists _ _ _ _ H2).
Qed.

Lemma search_list_found srch n ks :
  (forall k m, k ∈ ks -> k ∈ m -> exists m' l, srch m k = Some (m', k :: l) /\ found n m m' l /\
     forall x, below_of h k x -> x ∈ m') ->
  Forall (fun k => is_Some (h_machines h !! k) /\ (rank k < n)%nat) ks ->
  forall m, exists m' l, search_list srch m ks = Some (m', l) /\ found n m m' l /\
    (forall k, k ∈ ks -> k ∈ m').
Proof.
  intros Hs. induction ks as [|k ks IH]; intros Hks m.
  { exists m, []. split; [done|]. split; [apply found_nil|set_solver]. }
  apply Forall_cons in Hks as [[Hk Hr] Hks]. cbn [search_list].
  assert (IH' := fun m => IH (fun k' m0 H => Hs k' m0 ltac:(by right)) Hks m). clear IH.
  destruct (bool_decide (k ∈ m)) eqn:E.
  { apply bool_decide_eq_true in E. destruct (IH' m) as (m' & l & -> & Hf & Hin).
    exists m', l. split; [done|]. split; [done|]. intros k' [->|H]%elem_of_cons; [|auto].
    rewrite (fd_set _ _ _ _ Hf). set_solver. }
  apply bool_decide_eq_false in E.
  destruct (Hs k ({[k]} ∪ m)) as (m1 & l1 & -> & H1 & Hb); [by left|set_solver|].
  destruct (IH' m1) as (m2 & l2 & Hs2 & H2 & Hin2). cbn. rewrite Hs2. cbn.
  exists m2, (k :: l1 ++ l2). split; [done|].
  pose proof (fd_set _ _ _ _ H1) as E1. pose proof (fd_set _ _ _ _ H2) as E2. split.
  - eapply found_cons; [done|done|done| | | |reflexivity|exact H1|exact H2|exact Hb].
    + intros Hin%(fd_new _ _ _ _ H1). set_solver.
    + set_solver.
    + by rewrite E1.
  - intros k' [->|Hk']%elem_of_cons; [set_solver|]. by apply Hin2.
Qed.

Lemma search_found fuel : forall m p,
  is_Some (h_machines h !! p) -> (rank p < fuel)%nat ->
  exists m' l, search h fuel m p = Some (m', p :: l) /\ found (rank p) m m' l /\
    forall x, below_of h p x -> x ∈ m'.
Proof.
  induction fuel as [|fuel IH]; intros m p Hp Hr; [lia|]. cbn [search].
  destruct (ac_succs _ _ Hac p Hp) as (ks & Hks & Hex). rewrite Hks. cbn.
  assert (Hrk : forall k, k ∈ ks -> (rank k < rank p)%nat)
    by (intros k Hk; apply (ac_rank _ _ Hac); by exists ks).
  rewrite Forall_forall in Hex.
  destruct (search_list_found (search h fuel) (rank p) ks) with (m := m) as (m' & l & -> & Hf & Hin).
  - intros k m0 Hk Hm0. specialize (Hrk k Hk).
    destruct (IH m0 k (Hex k Hk) ltac:(lia)) as (m' & l & -> & Hf & Hb).
    exists m', l. split; [done|]. split; [|done]. destruct Hf as [? ? ? Hfr ? ?]. split; try done.
    intros x Hx. specialize (Hfr x Hx). lia.
  - apply Forall_forall. auto.
  - exists m', l. cbn. split; [done|]. split; [done|]. intros x (ks' & Hks' & Hx).
    rewrite Hks in Hks'. injection Hks' as <-. by apply Hin.
Qed.

Lemma search_roots_found n fuel roots : (n <= fuel)%nat ->
  Forall (fun k => is_Some (h_machines h !! k) /\ (rank k < n)%nat) roots ->
  forall m, (forall x k, x ∈ m -> below_of h x k -> k ∈ m) ->
  exists m' l, search_roots h fuel m roots = Some (m', l) /\ found n m m' l /\
    (forall k, k ∈ roots -> k ∈ m') /\ (forall x k, x ∈ m' -> below_of h x k -> k ∈ m').
Proof.
  intros Hn. induction roots as [|k ks IH]; intros Hks m Hm.
  { exists m, []. split; [done|]. split; [apply found_nil|]. split; [set_solver|done]. }
  apply Forall_cons in Hks as [[Hk Hr] Hks]. cbn [search_roots].
  destruct (bool_decide (k ∈ m)) eqn:E.
  { apply bool_decide_eq_true in E. destruct (IH Hks m Hm) as (m' & l & -> & Hf & Hin & Hcl).
    exists m', l. split; [done|]. split; [done|]. split; [|done].
    intros k' [->|H]%elem_of_cons; [|auto]. rewrite (fd_set _ _ _ _ Hf). set_solver. }
  apply bool_decide_eq_false in E.
  destruct (search_found fuel m k Hk ltac:(lia)) as (m1 & l1 & -> & H1 & Hb). cbn.
  pose proof (fd_set _ _ _ _ H1) as E1.
  assert (Hcl1 : forall x y, x ∈ {[k]} ∪ m1 -> below_of h x y -> y ∈ {[k]} ∪ m1).
  { intros x y Hx Hy. rewrite E1 in Hx. apply elem_of_union in Hx as [Hx|[Hx|Hx]%elem_of_union].
    - assert (x = k) by set_solver. subst x. apply Hb in Hy. set_solver.
    - specialize (Hm x y Hx Hy). set_solver.
    - apply elem_of_list_to_set in Hx. pose proof (fd_closed _ _ _ _ H1 x y Hx Hy). set_solver. }
  destruct (IH Hks ({[k]} ∪ m1) Hcl1) as (m2 & l2 & Hs2 & H2 & Hin2 & Hcl2). rewrite Hs2. cbn.
  pose proof (fd_set _ _ _ _ H2) as E2.
  exists m2, (k :: l1 ++ l2). split; [done|].
  assert (Hk1 : k ∉ l1).
  { intros Hin. pose proof (fd_rank _ _ _ _ H1 k Hin). lia. }
  split.
  - apply (found_cons n m k m m1 l1 ({[k]} ∪ m1)); [done|done|done|done|done| | | |exact H2|].
    + rewrite E1. set_solver.
    + set_solver.
    + destruct H1 as [? ? ? Hfr ? ?]. split; [done..| |done|done]. intros x Hx. specialize (Hfr x Hx). lia.
    + intros x Hx%Hb. set_solver.
  - split; [|done]. intros k' [->|Hk']%elem_of_cons; [set_solver|]. by apply Hin2.
Qed.
End found.

(** ** The order of the walk

    A depth-first walk without fuel or accumulated results: in [preorder m ks l], [l] lists
    what is new when the machines [ks] are walked one behind the other and those of [m] have
    been met: nothing for a machine that has been met, otherwise the machine, what is new
    below it (the machines behind its states, then its children), then what is new in the
    rest. *)
Inductive preorder (h : smheap) : gset Z -> list Z -> list Z -> Prop :=
| pre_end m : preorder h m [] []
| pre_met m k ks l : k ∈ m -> preorder h m ks l -> preorder h m (k :: ks) l
| pre_new m k ks below l1 l2 : k ∉ m -> succs h k = Some below ->
    preorder h ({[k]} ∪ m) below l1 -> preorder h (({[k]} ∪ m) ∪ list_to_set l1) ks l2 ->
    preorder h m (k :: ks) (k :: l1 ++ l2).

Section preorder.
Context (h : smheap).

Definition in_preorder (srch : gset Z -> Z -> option (gset Z * list Z)) : Prop :=
  forall m k m' l, srch m k = Some (m', l) -> exists ks l1, succs h k = Some ks /\ l = k :: l1 /\
    preorder h m ks l1 /\ m' = m ∪ list_to_set l1.

Lemma search_list_preorder srch ks : in_preorder srch -> forall m m' l,
  search_list srch m ks = Some (m', l) -> preorder h m ks l /\ m' = m ∪ list_to_set l.
Proof.
  intros Hs. induction ks as [|k ks IH]; intros m m' l; cbn [search_list].
  { intros [= <- <-]. split; [constructor|set_solver]. }
  destruct (bool_decide (k ∈ m)) eqn:E.
  { apply bool_decide_eq_true in E. intros [Hp ->]%IH. split; [by constructor|done]. }
  apply bool_decide_eq_false in E.
  destruct (srch _ k) as [[m1 l1]|] eqn:E1; [|done]. cbn.
  destruct (search_list srch m1 ks) as [[m2 l2]|] eqn:E2; [|done]. cbn. intros [= <- <-].
  apply Hs in E1 as (below & l0 & Hb & -> & Hp & ->). apply IH in E2 as [Hp2 ->]. cbn. split.
  - by econstructor.
  - rewrite list_to_set_app_L. set_solver.
Qed.

Lemma search_preorder fuel : in_preorder (search h fuel).
Proof.
  induction fuel as [|fuel IH]; intros m k m' l; cbn [search]; [done|].
  destruct (succs h k) as [ks|] eqn:Eks; [|done]. cbn.
  destruct (search_list _ m ks) as [[m1 l1]|] eqn:E; [|done]. cbn. intros [= <- <-].
  apply search_list_preorder in E as [Hp ->]; [|done]. by exists ks, l1.
Qed.

(** A machine that is not below makes no difference. *)
Lemma preorder_apart rank m ks l k : acyclic h rank ->
  preorder h m ks l -> (forall x, x ∈ ks -> (rank x < rank k)%nat) -> preorder h ({[k]} ∪ m) ks l.
Proof.
  intros Hac. induction 1 as [m|m x ks l Hx _ IH|m x ks below l1 l2 Hx Hb _ IH1 _ IH2]; intros Hr.
  - constructor.
  - constructor; [set_solver|]. apply IH. intros y Hy. apply Hr. by right.
  - pose proof (Hr x ltac:(by left)) as Hxk. econstructor; [|exact Hb| |].
    + assert (x <> k) by (intros ->; lia). set_solver.
    + replace ({[x]} ∪ ({[k]} ∪ m)) with ({[k]} ∪ ({[x]} ∪ m)) by set_solver. apply IH1.
      intros y Hy. pose proof (ac_rank _ _ Hac x y ltac:(by exists below)). lia.
    + replace ({[x]} ∪ ({[k]} ∪ m) ∪ list_to_set l1) with ({[k]} ∪ ({[x]} ∪ m ∪ list_to_set l1)) by set_solver.
      apply IH2. intros y Hy. apply Hr. by right.
Qed.

Lemma search_roots_preorder rank fuel roots : acyclic h rank -> forall m m' l,
  search_roots h fuel m roots = Some (m', l) -> preorder h m roots l.
Proof.
  intros Hac. induction roots as [|k roots IH]; intros m m' l; cbn [search_roots].
  { intros [= <- <-]. constructor. }
  destruct (bool_decide (k ∈ m)) eqn:E.
  { apply bool_decide_eq_true in E. intros Hp%IH. by constructor. }
  apply bool_decide_eq_false in E.
  destruct (search h fuel m k) as [[m1 l1]|] eqn:E1; [|done]. cbn.
  destruct (search_roots h fuel _ roots) as [[m2 l2]|] eqn:E2; [|done]. cbn. intros [= <- <-].
  apply search_preorder in E1 as (below & l0 & Hb & -> & Hp & ->). apply IH in E2.
  rewrite <- app_comm_cons. econstructor; [done|exact Hb| |].
  - eapply preorder_apart; [done..|]. intros x Hx. apply (ac_rank _ _ Hac). by exists below.
  - by rewrite <- (assoc_L (∪)).
Qed.

Lemma visit_order_preorder rank fuel roots order : acyclic h rank ->
  visit_order h fuel roots = Some order -> preorder h ∅ roots order.
Proof.
  intros Hac. unfold visit_order. destruct (search_roots h fuel ∅ roots) as [[m l]|] eqn:E; [|done].
  intros [= <-]. by eapply search_roots_preorder.
Qed.
End preorder.

(** ** What is found can be reached *)

Lemma search_list_reaches h srch p ks :
  (forall k m m' l, k ∈ ks -> srch m k = Some (m', l) -> forall x, x ∈ l -> rtc (below_of h) k x) ->
  (forall k, k ∈ ks -> below_of h p k) ->
  forall m m' l, search_list srch m ks = Some (m', l) -> forall x, x ∈ l -> rtc (below_of h) p x.
Proof.
  intros Hs. induction ks as [|k ks IH]; intros Hb m m' l; cbn [search_list].
  { intros [= <- <-] x Hx. by apply elem_of_nil in Hx. }
  assert (IH' := IH (fun k' m0 m1 l0 H => Hs k' m0 m1 l0 ltac:(by right)) (fun k' H => Hb k' ltac:(by right))).
  destruct (bool_decide _); [apply IH'|].
  destruct (srch _ k) as [[m1 l1]|] eqn:E1; [|done]. cbn.
  destruct (search_list srch m1 ks) as [[m2 l2]|] eqn:E2; [|done]. cbn. intros [= <- <-] x Hx.
  apply elem_of_app in Hx as [Hx|Hx].
  - eapply rtc_l; [apply Hb; by left|]. eapply (Hs k _ _ _ ltac:(by left) E1); done.
  - by eapply IH'.
Qed.

Lemma search_reaches h fuel : forall m p m' l,
  search h fuel m p = Some (m', l) -> forall x, x ∈ l -> rtc (below_of h) p x.
Proof.
  induction fuel as [|fuel IH]; [done|]. intros m p m' l. cbn [search].
  destruct (succs h p) as [ks|] eqn:Eks; [|done]. cbn.
  destruct (search_list _ m ks) as [[m1 l1]|] eqn:E; [|done]. cbn. intros [= <- <-] x.
  intros [->|Hx]%elem_of_cons; [done|].
  eapply (search_list_reaches h (search h fuel) p ks); [|intros k Hk; by exists ks|exact E|done].
  intros k m0 m2 l2 _ H y Hy. by eapply IH.
Qed.

Lemma search_roots_reaches h fuel roots : forall m m' l,
  search_roots h fuel m roots = Some (m', l) ->
  forall x, x ∈ l -> exists r, r ∈ roots /\ rtc (below_of h) r x.
Proof.
  induction roots as [|k roots IH]; intros m m' l; cbn [search_roots].
  { intros [= <- <-] x Hx. by apply elem_of_nil in Hx. }
  destruct (bool_decide _).
  { intros H x Hx. destruct (IH _ _ _ H x Hx) as (r & Hr & ?). exists r. split; [by right|done]. }
  destruct (search h fuel m k) as [[m1 l1]|] eqn:E1; [|done]. cbn.
  destruct (search_roots h fuel _ roots) as [[m2 l2]|] eqn:E2; [|done]. cbn. intros [= <- <-] x Hx.
  apply elem_of_app in Hx as [Hx|Hx].
  - exists k. split; [by left|]. by eapply search_reaches.
  - destruct (IH _ _ _ E2 x Hx) as (r & Hr & ?). exists r. split; [by right|done].
Qed.

(** The machines that can be reached from the roots. *)
Definition reached (h : smheap) (roots : list Z) (x : Z) : Prop :=
  exists r, r ∈ roots /\ rtc (below_of h) r x.

(** The order of the visits: every machine that can be reached, once. *)
Record order_ok (h : smheap) (roots order : list Z) : Prop := {
  or_nodup : NoDup order;
  or_reached x : x ∈ order <-> reached h roots x;
  or_exists x : x ∈ order -> is_Some (h_machines h !! x)
}.

Lemma visit_order_ok h rank fuel roots :
  acyclic h rank ->
  Forall (fun r => is_Some (h_machines h !! r) /\ (rank r < fuel)%nat) roots ->
  exists order, visit_order h fuel roots = Some order /\ order_ok h roots order.
Proof.
  intros Hac Hr.
  destruct (search_roots_found h rank Hac fuel fuel roots ltac:(lia) Hr ∅) as (m' & l & Hs & Hf & Hin & Hcl);
    [set_solver|].
  exists l. unfold visit_order. rewrite Hs. split; [done|].
  pose proof (fd_set _ _ _ _ _ _ Hf) as E. split.
  - apply Hf.
  - intros x. split; [by eapply search_roots_reaches|]. intros (r & Hroot & Hreach).
    assert (Hx : x ∈ m').
    { specialize (Hin r Hroot). clear Hroot. induction Hreach; [done|]. eauto. }
    rewrite E in Hx. set_solver.
  - apply Hf.
Qed.

(** A walk over the machines runs its callback for every machine that can be
    reached from the roots, and for each of them once, whatever the callback does as
    long as it leaves the shape of the machines alone; it ends when the fuel is above
    the nesting depth. *)
Theorem walk_visits_once h rank fuel roots f c :
  acyclic h rank ->
  Forall (fun r => is_Some (h_machines h !! r) /\ (rank r < fuel)%nat) roots ->
  (forall x c c', same_shape h (c_heap c) -> f x c = Ok tt c' -> same_shape h (c_heap c')) ->
  same_shape h (c_heap c) ->
  exists order, NoDup order /\ (forall x, x ∈ order <-> reached h roots x) /\
    traverse_sms f fuel roots c = forM order f c.
Proof.
  intros Hac Hr Hf Hc. destruct (visit_order_ok h rank fuel roots Hac Hr) as (order & Ho & [H1 H2 H3]).
  exists order. split; [done|]. split; [done|]. by eapply traverse_sms_forM.
Qed.

(** ** What the passes leave alone

    Automation for [keeps]: the code of the passes is taken apart; the leaves are
    lemmas in the database [frame]. *)

Definition anything {A} (_ : A) : Prop := True.

Create HintDb frame.

Lemma keeps_findM {S A} (I : S -> Prop) (xs : list A) (f : A -> M S bool) :
  (forall x, keeps I (f x) anything) -> keeps I (findM xs f) anything.
Proof.
  intros Hf. induction xs as [|x xs IH]; cbn [findM]; [by apply keeps_ret|].
  apply (keeps_bind _ _ _ anything); [apply Hf|]. intros [] _; [by apply keeps_ret|apply IH].
Qed.

Lemma keeps_mapM_list {S A B} (I : S -> Prop) (f : A -> M S B) (l : list A) :
  (forall x, keeps I (f x) anything) -> keeps I (mapM_list f l) anything.
Proof. 
  intros Hf. unfold mapM_list. apply (keeps_weaken _ _ anything); [|done].
  apply keeps_foldM; [done|]. intros acc x _ _. apply (keeps_bind _ _ _ anything); [apply Hf|].
  intros y _. by apply keeps_ret.
Qed.

Lemma keeps_zoom {S T A} (I : S -> Prop) (J : S -> T -> Prop) getter setter (m : M T A) Q :
  (forall s, I s -> J s (getter s)) -> (forall s t, I s -> J s t -> I (setter t s)) ->
  (forall s, keeps (J s) m Q) -> keeps I (zoom getter setter m) Q.
Proof.
  intros H1 H2 Hm s Hs. unfold zoom. specialize (Hm s (getter s) (H1 s Hs)).
  destruct (m (getter s)); [destruct Hm; auto|auto|done..].
Qed.

(** Code that only reads. *)
Definition only_reads {S A} (m : M S A) : Prop := forall s0, keeps (fun s => s = s0) m anything.

Lemma only_reads_sm_at p : only_reads (sm_at p).
Proof. intros h0 h ->. unfold sm_at. by destruct (_ !! _). Qed.
Lemma only_reads_state_at p : only_reads (state_at p).
Proof. intros h0 h ->. unfold state_at. by destruct (_ !! _). Qed.
#[export] Hint Extern 1 (keeps _ (sm_at _) _) => apply only_reads_sm_at : frame.
#[export] Hint Extern 1 (keeps _ (state_at _) _) => apply only_reads_state_at : frame.

Section frames.
Context (I : cstate -> Prop).

Lemma keeps_on_heap_read {A} (m : M smheap A) : only_reads m -> keeps I (on_heap m) anything.
Proof.
  intros Hm. apply (keeps_zoom _ (fun c h => h = c_heap c)); [done| |intros c; apply Hm].
  intros c h Hc ->. by destruct c.
Qed.

Lemma keeps_on_tables {A} (m : M ectx A) :
  (forall c x, I c -> I (with_c_ctx x c)) -> keeps I (on_tables m) anything.
Proof.
  intros HI. apply (keeps_zoom _ (fun _ _ => True)); [done|auto|]. intros c x _. by destruct (m x).
Qed.

Lemma keeps_on_asm {A} (m : M asm_state A) :
  (forall c x, I c -> I (with_c_asm x c)) -> keeps I (on_asm m) anything.
Proof.
  intros HI. apply (keeps_zoom _ (fun _ _ => True)); [done|auto|]. intros c x _. by destruct (m x).
Qed.

Lemma keeps_on_guards {A} (m : M guards_t A) :
  (forall c x, I c -> I (with_c_guards x c)) -> keeps I (on_guards m) anything.
Proof.
  intros HI. apply (keeps_zoom _ (fun _ _ => True)); [done|auto|]. intros c x _. by destruct (m x).
Qed.
End frames.

Ltac frame_step :=
  match goal with
  | |- keeps _ (bind _ _) _ => apply (keeps_bind _ _ _ anything); [|intros ? _]
  | |- keeps _ (forM _ _) _ => apply (keeps_weaken _ _ (fun _ => True)); [apply keeps_forM; intros ? _|done]
  | |- keeps _ (foldM _ _ _) _ => apply (keeps_weaken _ _ anything); [apply keeps_foldM; [done|intros ? ? _ _]|done]
  | |- keeps _ (ret _) _ => apply keeps_ret; done
  | |- keeps _ (throw _) _ => apply keeps_throw
  | |- keeps _ undef _ => apply keeps_undef
  | |- keeps _ out_of_fuel _ => apply keeps_fuel
  | |- keeps _ (try_catch _ _) _ => apply keeps_try; [|intros ?]
  | |- keeps _ (gets _) _ => apply keeps_gets; done
  | |- keeps _ (match ?x with _ => _ end) _ => destruct x
  | |- keeps _ _ _ => progress (auto with frame)
  | |- keeps _ (on_heap _) _ => apply keeps_on_heap_read; intros ?
  | |- keeps _ (findM _ _) _ => apply keeps_findM; intros ?
  | |- keeps _ (mapM_list _ _) _ => apply keeps_mapM_list; intros ?
  end.
Ltac frame := repeat frame_step.


(** ** The passes keep the shape *)

Definition shaped (h : smheap) (c : cstate) : Prop := same_shape h (c_heap c).

Lemma shaped_sm_upd h p f :
  (forall m, m_states (f m) = m_states m /\ m_children (f m) = m_children m) ->
  keeps (shaped h) (on_heap (sm_upd p f)) anything.
Proof.
  intros Hf c Hc. destruct (h_machines (c_heap c) !! p) as [m|] eqn:Em.
  - rewrite (sm_upd_run _ _ _ _ Em). split; [|done]. unfold shaped in *. etrans; [exact Hc|].
    eapply same_shape_upd_sm; [exact Em|apply Hf..].
  - unfold on_heap, zoom, sm_upd, sm_at, bind. by rewrite Em.
Qed.

Lemma shaped_state_upd h p f :
  (forall s, s_is_sm (f s) = s_is_sm s /\ s_smp (f s) = s_smp s) ->
  keeps (shaped h) (on_heap (state_upd p f)) anything.
Proof.
  intros Hf c Hc. destruct (h_states (c_heap c) !! p) as [m|] eqn:Em.
  - rewrite (state_upd_run _ _ _ _ Em). split; [|done]. unfold shaped in *. etrans; [exact Hc|].
    eapply same_shape_upd_state; [exact Em|apply Hf..].
  - unfold on_heap, zoom, state_upd, state_at, bind. by rewrite Em.
Qed.

Lemma keeps_modify_c (I : cstate -> Prop) f : (forall c, I c -> I (f c)) -> keeps I (modify f) anything.
Proof. intros Hf c Hc. split; [by apply Hf|done]. Qed.

#[export] Hint Extern 1 (keeps (shaped _) (on_heap (sm_upd _ _)) _) =>
  apply shaped_sm_upd; intros; by split : frame.
#[export] Hint Extern 1 (keeps (shaped _) (on_heap (state_upd _ _)) _) =>
  apply shaped_state_upd; intros; by split : frame.
#[export] Hint Extern 1 (keeps _ (on_tables _) _) => apply keeps_on_tables; by intros : frame.
#[export] Hint Extern 1 (keeps _ (on_asm _) _) => apply keeps_on_asm; by intros : frame.
#[export] Hint Extern 1 (keeps _ (on_guards _) _) => apply keeps_on_guards; by intros : frame.
#[export] Hint Extern 1 (keeps _ (modify _) _) => apply keeps_modify_c; by intros : frame.

Lemma keeps_next_ctr (I : cstate -> Prop) : (forall c x, I c -> I (with_c_ctr x c)) -> keeps I next_ctr anything.
Proof. intros HI c Hc. split; [by apply HI|done]. Qed.

Lemma keeps_next_ev_ctr (I : cstate -> Prop) : (forall c x, I c -> I (with_c_ev_ctr x c)) -> keeps I next_ev_ctr anything.
Proof. intros HI c Hc. split; [by apply HI|done]. Qed.
#[export] Hint Extern 1 (keeps _ next_ctr _) => apply keeps_next_ctr; by intros : frame.
#[export] Hint Extern 1 (keeps _ next_ev_ctr _) => apply keeps_next_ev_ctr; by intros : frame.

(** A callback that keeps the shape fits [walk_visits_once]. *)
Lemma keeps_callback h (f : Z -> M cstate unit) :
  (forall x, keeps (shaped h) (f x) anything) ->
  forall x c c', same_shape h (c_heap c) -> f x c = Ok tt c' -> same_shape h (c_heap c').
Proof. intros Hf x c c' Hc Hr. specialize (Hf x c Hc). rewrite Hr in Hf. by destruct Hf. Qed.

Section shapes.
Context `{Target} `{Ceps} `{StdSort}.
Context (ast : Z -> option node) (guards : gmap string Z) (fuel af ar : nat) (h : smheap).

Lemma shaped_compute_state_ids b x : keeps (shaped h) (compute_state_ids b x) anything.
Proof. unfold compute_state_ids, states_of, number_state. frame. Qed.

Lemma shaped_set_assoc_sms x : keeps (shaped h) (set_assoc_sms x) anything.
Proof. unfold set_assoc_sms. frame. Qed.

Lemma shaped_number_events x : keeps (shaped h) (number_events x) anything.
Proof. unfold number_events, number_event. frame. Qed.

Lemma shaped_link_transitions x : keeps (shaped h) (link_transitions x) anything.
Proof.
  unfold link_transitions, link_transition, own_end, state_end, machine_end, assert_, abort. frame.
Qed.

Lemma shaped_foreign_holders x : keeps (shaped h) (foreign_holders x) anything.
Proof. unfold foreign_holders. frame. Qed.

Lemma shaped_assemble_at text : keeps (shaped h) (assemble_at af ar text) anything.
Proof. unfold assemble_at, run_oblectamenta_assembler. frame. Qed.
#[local] Hint Resolve shaped_assemble_at : frame.

Lemma shaped_compile_transition sm t : keeps (shaped h) (compile_transition ast guards af ar sm t) anything.
Proof.
  unfold compile_transition, compile_guard, compile_actions, compile_slot, push_transition, assert_, abort.
  frame.
Qed.
#[local] Hint Resolve shaped_compile_transition : frame.

Lemma shaped_build_transitions_table b x :
  keeps (shaped h) (build_transitions_table ast guards af ar b x) anything.
Proof.
  unfold build_transitions_table, insert_transitions, push_transition, assert_, abort. frame.
Qed.

Lemma shaped_set_parent_info x : keeps (shaped h) (set_parent_info x) anything.
Proof. unfold set_parent_info, set_join. frame. Qed.

Lemma shaped_set_handlers x : keeps (shaped h) (set_handlers ast af ar x) anything.
Proof. unfold set_handlers, set_handler. frame. Qed.

Lemma shaped_set_children x : keeps (shaped h) (set_children x) anything.
Proof. unfold set_children. frame. Qed.

Lemma only_reads_ancestors n p : only_reads (ancestors n p).
Proof. revert p. induction n as [|n IH]; intros p h0; cbn [ancestors]; frame; apply IH. Qed.

Lemma only_reads_full_name n r : only_reads (get_fullqualified_id n "." r).
Proof.
  intros h0. unfold get_fullqualified_id, ids_of, assert_, abort. frame; apply only_reads_ancestors.
Qed.

Lemma shaped_set_names x : keeps (shaped h) (set_names fuel x) anything.
Proof.
  unfold set_names, name_index, get_full_qualified_id. frame; apply only_reads_full_name.
Qed.

Lemma shaped_set_shadow_states x : keeps (shaped h) (set_shadow_states x) anything.
Proof. unfold set_shadow_states, shadow_index, get_state_idx. frame. Qed.
End shapes.
