(* ===== verification/NumberSpec.v ===== *)
(** * NumberSpec: states and machines get the numbers 1, 2, 3, ...

    number_all of [Compile]: machines in the order of the walk, first those that are
    not covering, then the covering ones; behind each machine its states, sorted by the
    order of their definition. *)

From S2P Require Import Prelude MachineInt ExecCtx Machines Compile TraverseSpec.

(** ** Objects with a number *)

(** A machine or a state. *)
Notation object := (Z + Z)%type.

Definition object_idx (h : smheap) (o : object) : option Z :=
  match o with
  | inl p => m_idx <$> h_machines h !! p
  | inr q => s_idx <$> h_states h !! q
  end.

(** The position in a list. *)
Fixpoint index_of {A} `{EqDecision A} (x : A) (l : list A) : option nat :=
  match l with
  | [] => None
  | y :: l' => if decide (x = y) then Some O else S <$> index_of x l'
  end.

Section index.
Context {A} `{EqDecision A}.
Implicit Types l : list A.

Lemma index_of_None x l : index_of x l = None <-> x ∉ l.
Proof.
  induction l as [|y l IH]; cbn; [set_solver|]. destruct (decide (x = y)) as [->|Hne]; [set_solver|].
  destruct (index_of x l); cbn; set_solver.
Qed.

Lemma index_of_lookup x l i : NoDup l -> l !! i = Some x -> index_of x l = Some i.
Proof.
  revert i. induction l as [|y l IH]; intros i Hnd Hi; [done|]. cbn.
  apply NoDup_cons in Hnd as [Hy Hnd]. destruct i as [|i]; cbn in Hi.
  - injection Hi as ->. by rewrite decide_True.
  - rewrite decide_False; [by rewrite (IH i)|]. intros ->. by apply Hy, (list_elem_of_lookup_2 _ i).
Qed.

Lemma index_of_Some x l i : index_of x l = Some i -> l !! i = Some x.
Proof.
  revert i. induction l as [|y l IH]; intros i; [done|]. cbn.
  destruct (decide (x = y)) as [->|Hne]; [by intros [= <-]|].
  destruct (index_of x l) as [j|] eqn:E; [|done]. intros [= <-]. by apply IH.
Qed.

Lemma index_of_snoc x y l :
  y ∉ l -> index_of x (l ++ [y]) = if decide (x = y) then Some (length l) else index_of x l.
Proof.
  intros Hy. induction l as [|z l IH]; cbn.
  - by destruct (decide (x = y)).
  - apply not_elem_of_cons in Hy as [Hyz Hy]. rewrite IH by done.
    destruct (decide (x = z)) as [->|Hne].
    + by rewrite decide_False by done.
    + by destruct (decide (x = y)).
Qed.
End index.

(** ** Well-formed machines *)

(** The states of a machine are different, are no machines, and belong to no other
    machine. *)
Record states_ok (h : smheap) : Prop := {
  so_nodup p m : h_machines h !! p = Some m -> NoDup (m_states m);
  so_plain q s : h_states h !! q = Some s -> s_is_sm s = false;
  so_exists p m q : h_machines h !! p = Some m -> q ∈ m_states m -> is_Some (h_states h !! q);
  so_owner p1 m1 p2 m2 q : h_machines h !! p1 = Some m1 -> h_machines h !! p2 = Some m2 ->
    q ∈ m_states m1 -> q ∈ m_states m2 -> p1 = p2
}.

Section numbering.
Context `{StdSortLaws}.
Context (h : smheap) (Hso : states_ok h).

(** The states of a machine with what is at their addresses. *)
Definition snapshots (p : Z) : list (Z * mstate) :=
  match h_machines h !! p with
  | Some m => omap (fun q => pair q <$> h_states h !! q) (m_states m)
  | None => []
  end.

Definition by_order (a b : Z * mstate) : bool := s_order a.2 <? s_order b.2.

Definition sorted_states (p : Z) : list Z := map fst (std_sort by_order (snapshots p)).

(** The objects that the visit of a machine numbers. *)
Definition block (non_cover_sm : bool) (p : Z) : list object :=
  match h_machines h !! p with
  | Some m => if skip_cover m non_cover_sm then [] else inl p :: map inr (sorted_states p)
  | None => []
  end.

Lemma by_order_weak l : strict_weak by_order l.
Proof.
  unfold strict_weak, by_order. repeat split; intros; zbool; rewrite ?Z.ltb_lt, ?Z.ltb_ge in *; lia.
Qed.

Lemma snapshots_spec p m :
  h_machines h !! p = Some m -> map fst (snapshots p) = m_states m /\
    Forall (fun e => h_states h !! e.1 = Some e.2) (snapshots p).
Proof.
  intros Hm. unfold snapshots. rewrite Hm.
  assert (Hex : forall q, q ∈ m_states m -> is_Some (h_states h !! q)) by (intros; by eapply so_exists).
  revert Hex. generalize (m_states m). intros l. induction l as [|q l IH]; intros Hex; [done|].
  destruct (Hex q ltac:(by left)) as [s Hs]. cbn [omap list_omap]. rewrite Hs. cbn [fmap option_fmap option_map map fst].
  destruct IH as [IH1 IH2]; [intros; apply Hex; by right|]. split; [by rewrite IH1|]. by constructor.
Qed.

Lemma sorted_states_perm p m :
  h_machines h !! p = Some m -> Permutation (sorted_states p) (m_states m).
Proof.
  intros Hm. destruct (snapshots_spec p m Hm) as [<- _]. unfold sorted_states.
  apply Permutation_map, std_sort_perm, by_order_weak.
Qed.

(** ** The state when [ids] have been numbered *)

Definition numbered_machine (ids : list object) (p : Z) (m : machine) : machine :=
  match index_of (inl p) ids with Some i => with_m_idx (1 + Z.of_nat i) m | None => m end.
Definition numbered_state (ids : list object) (q : Z) (s : mstate) : mstate :=
  match index_of (inr q) ids with Some i => with_s_idx (1 + Z.of_nat i) s | None => s end.

Definition numbered_heap (ids : list object) : smheap :=
  with_h_machines (map_imap (fun p m => Some (numbered_machine ids p m)) (h_machines h))
    (with_h_states (map_imap (fun q s => Some (numbered_state ids q s)) (h_states h)) h).

Definition numbered (c0 : cstate) (ids : list object) : cstate :=
  with_c_heap (numbered_heap ids) (with_c_ctr (1 + Z.of_nat (length ids)) c0).

Lemma numbered_machine_lookup ids p :
  h_machines (numbered_heap ids) !! p = numbered_machine ids p <$> h_machines h !! p.
Proof. cbn. rewrite map_lookup_imap. by destruct (h_machines h !! p). Qed.

Lemma numbered_state_lookup ids q :
  h_states (numbered_heap ids) !! q = numbered_state ids q <$> h_states h !! q.
Proof. cbn. rewrite map_lookup_imap. by destruct (h_states h !! q). Qed.

Lemma numbered_shape ids : same_shape h (numbered_heap ids).
Proof.
  split; intros x.
  - unfold machine_shape. rewrite numbered_machine_lookup. destruct (h_machines h !! x); [|done]. cbn.
    unfold numbered_machine. by destruct (index_of _ _).
  - unfold state_shape. rewrite numbered_state_lookup. destruct (h_states h !! x); [|done]. cbn.
    unfold numbered_state. by destruct (index_of _ _).
Qed.

Lemma numbered_heap_sm ids p m :
  inl p ∉ ids -> h_machines h !! p = Some m ->
  with_h_machines (<[p := with_m_idx (1 + Z.of_nat (length ids)) (numbered_machine ids p m)]>
    (h_machines (numbered_heap ids))) (numbered_heap ids) = numbered_heap (ids ++ [inl p]).
Proof.
  intros Hp Hm. unfold numbered_heap at 2 3. unfold with_h_machines, with_h_states. cbn. f_equal.
  - apply map_eq. intros x. rewrite (map_lookup_imap _ _ x). destruct (decide (p = x)) as [<-|Hne].
    + rewrite lookup_insert_eq, Hm. cbn. f_equal. unfold numbered_machine at 2.
      rewrite index_of_snoc by done. rewrite decide_True by done.
      unfold numbered_machine. by rewrite (proj2 (index_of_None _ _) Hp).
    + rewrite lookup_insert_ne, map_lookup_imap by done. destruct (h_machines h !! x); [|done]. cbn. f_equal.
      unfold numbered_machine. rewrite index_of_snoc by done. rewrite decide_False; [done|congruence].
  - apply map_eq. intros x. rewrite !map_lookup_imap. destruct (h_states h !! x); [|done]. cbn. f_equal.
    unfold numbered_state. rewrite index_of_snoc by done. by rewrite decide_False.
Qed.

Lemma numbered_heap_state ids q s :
  inr q ∉ ids -> h_states h !! q = Some s ->
  with_h_states (<[q := with_s_idx (1 + Z.of_nat (length ids)) s]>
    (h_states (numbered_heap ids))) (numbered_heap ids) = numbered_heap (ids ++ [inr q]).
Proof.
  intros Hp Hm. unfold numbered_heap at 2 3. unfold with_h_machines, with_h_states. cbn. f_equal.
  - apply map_eq. intros x. rewrite !map_lookup_imap. destruct (h_machines h !! x); [|done]. cbn. f_equal.
    unfold numbered_machine. rewrite index_of_snoc by done. by rewrite decide_False.
  - apply map_eq. intros x. rewrite (map_lookup_imap _ _ x). destruct (decide (q = x)) as [<-|Hne].
    + rewrite lookup_insert_eq, Hm. cbn. f_equal. unfold numbered_state.
      rewrite index_of_snoc by done. by rewrite decide_True by done.
    + rewrite lookup_insert_ne, map_lookup_imap by done. destruct (h_states h !! x); [|done]. cbn. f_equal.
      unfold numbered_state. rewrite index_of_snoc by done. rewrite decide_False; [done|congruence].
Qed.

(** ** One visit *)

Context (c0 : cstate).

Lemma number_state_run ids q s :
  inr q ∉ ids -> h_states h !! q = Some s ->
  number_state q s (numbered c0 ids) = Ok tt (numbered c0 (ids ++ [inr q])).
Proof.
  intros Hq Hs. unfold number_state.
  assert (Hs' : h_states (numbered_heap ids) !! q = Some s).
  { rewrite numbered_state_lookup, Hs. cbn. unfold numbered_state.
    by rewrite (proj2 (index_of_None _ _) Hq). }
  rewrite (bind_Ok next_ctr _ _ (1 + Z.of_nat (length ids))
             (with_c_ctr (1 + Z.of_nat (length ids) + 1) (numbered c0 ids))) by done.
  rewrite (bind_Ok _ _ _ _ _ (state_upd_run (with_c_ctr (1 + Z.of_nat (length ids) + 1) (numbered c0 ids)) q s _ Hs')).
  rewrite (so_plain _ Hso q s Hs). unfold ret. f_equal. unfold numbered.
  rewrite length_app, <- (numbered_heap_state ids q s Hq Hs).
  unfold with_c_heap, with_c_ctr. cbn [length c_heap c_ctx c_asm c_guards c_ctr c_ev_ctr c_sm_ids c_mmm].
  f_equal. lia.
Qed.

Lemma number_states_run l : forall ids,
  NoDup (ids ++ map (inr ∘ fst) l) -> Forall (fun e => h_states h !! e.1 = Some e.2) l ->
  forM l (fun e => number_state e.1 e.2) (numbered c0 ids) = Ok tt (numbered c0 (ids ++ map (inr ∘ fst) l)).
Proof.
  induction l as [|[q s] l IH]; intros ids Hnd Hl; cbn [forM map].
  - by rewrite app_nil_r.
  - apply Forall_cons in Hl as [Hs Hl]. cbn [fst snd compose] in *.
    assert (Hq : inr q ∉ ids).
    { apply NoDup_app in Hnd as (_ & Hd & _). intros Hin. apply (Hd _ Hin). by left. }
    rewrite (bind_Ok _ _ _ _ _ (number_state_run ids q s Hq Hs)).
    rewrite IH; [|by rewrite <- app_assoc|done]. by rewrite <- app_assoc.
Qed.

Lemma states_of_run ids p m :
  h_machines h !! p = Some m -> (forall q, q ∈ m_states m -> inr q ∉ ids) -> forall c,
  c_heap c = numbered_heap ids -> states_of p c = Ok (snapshots p) c.
Proof.
  intros Hm Hq c Hc. unfold states_of.
  assert (Hm' : h_machines (c_heap c) !! p = Some (numbered_machine ids p m))
    by (by rewrite Hc, numbered_machine_lookup, Hm).
  rewrite (bind_Ok _ _ _ _ _ (sm_at_run _ _ _ Hm')).
  replace (m_states (numbered_machine ids p m)) with (m_states m)
    by (unfold numbered_machine; by destruct (index_of _ _)).
  assert (Hex : forall q, q ∈ m_states m -> is_Some (h_states h !! q)) by (intros; by eapply so_exists).
  unfold snapshots. rewrite Hm. revert Hq Hex. generalize (m_states m). intros l Hq Hex.
  enough (Hgen : forall acc, foldM l (fun acc p => let! s := on_heap (state_at p) in ret (acc ++ [(p, s)])) acc c
                 = Ok (acc ++ omap (fun q => pair q <$> h_states h !! q) l) c) by apply Hgen.
  induction l as [|q l IH]; intros acc.
  { cbn. by rewrite app_nil_r. }
  cbn [foldM omap list_omap]. destruct (Hex q ltac:(by left)) as [s Hs]. rewrite Hs.
  assert (Hs' : h_states (c_heap c) !! q = Some s).
  { assert (Hni : inr q ∉ ids) by (apply Hq; by left). apply index_of_None in Hni.
    rewrite Hc, numbered_state_lookup, Hs. cbn. unfold numbered_state. by rewrite Hni. }
  rewrite bind_assoc, (bind_Ok _ _ _ _ _ (state_at_run _ _ _ Hs')), bind_ret_l.
  rewrite IH; [|intros; apply Hq; by right|intros; apply Hex; by right].
  by rewrite <- app_assoc.
Qed.

(** The visit of a machine numbers its block. *)
Lemma compute_state_ids_run b p ids :
  is_Some (h_machines h !! p) -> NoDup (ids ++ block b p) ->
  compute_state_ids b p (numbered c0 ids) = Ok tt (numbered c0 (ids ++ block b p)).
Proof.
  intros [m Hm] Hnd. unfold compute_state_ids, block in *. rewrite Hm in *.
  assert (Hm' : h_machines (c_heap (numbered c0 ids)) !! p = Some (numbered_machine ids p m))
    by (cbn [numbered c_heap with_c_heap]; by rewrite numbered_machine_lookup, Hm).
  rewrite (bind_Ok _ _ _ _ _ (sm_at_run _ _ _ Hm')).
  replace (skip_cover (numbered_machine ids p m) b) with (skip_cover m b)
    by (unfold skip_cover, numbered_machine; by destruct (index_of _ _)).
  destruct (skip_cover m b); [by rewrite app_nil_r|].
  rewrite NoDup_app in Hnd. destruct Hnd as (Hids & Hd & Hb). apply NoDup_cons in Hb as [Hpb Hb].
  assert (Hp : inl p ∉ ids) by (intros Hin; apply (Hd _ Hin); by left).
  rewrite (bind_Ok next_ctr _ _ (1 + Z.of_nat (length ids))
             (with_c_ctr (1 + Z.of_nat (length ids) + 1) (numbered c0 ids))) by done.
  rewrite (bind_Ok _ _ _ _ _ (sm_upd_run (with_c_ctr (1 + Z.of_nat (length ids) + 1) (numbered c0 ids)) p _ _ Hm')).
  assert (Hc : with_c_heap
     (with_h_machines (<[p := with_m_idx (1 + Z.of_nat (length ids)) (numbered_machine ids p m)]>
        (h_machines (c_heap (with_c_ctr (1 + Z.of_nat (length ids) + 1) (numbered c0 ids)))))
        (c_heap (with_c_ctr (1 + Z.of_nat (length ids) + 1) (numbered c0 ids))))
     (with_c_ctr (1 + Z.of_nat (length ids) + 1) (numbered c0 ids)) = numbered c0 (ids ++ [inl p])).
  { unfold numbered. rewrite length_app, <- (numbered_heap_sm ids p m Hp Hm).
    unfold with_c_heap, with_c_ctr. cbn [length c_heap c_ctx c_asm c_guards c_ctr c_ev_ctr c_sm_ids c_mmm].
    f_equal. lia. }
  rewrite Hc. clear Hc.
  assert (Hperm := sorted_states_perm p m Hm).
  rewrite (bind_Ok _ _ _ (snapshots p) (numbered c0 (ids ++ [inl p]))).
  2:{ apply (states_of_run (ids ++ [inl p]) p m); [done| |done]. intros q Hq Hin.
      apply elem_of_app in Hin as [Hin|Hin]; [|set_solver].
      apply (Hd _ Hin). right. apply list_elem_of_fmap. exists q. split; [done|]. by rewrite Hperm. }
  assert (Hmap : map inr (sorted_states p) = map (inr ∘ fst) (std_sort by_order (snapshots p)) :> list object)
    by (unfold sorted_states; by rewrite map_map).
  change (fun a b0 : Z * mstate => s_order a.2 <? s_order b0.2) with by_order.
  rewrite number_states_run.
  - by rewrite <- Hmap, <- app_assoc.
  - rewrite <- Hmap, <- app_assoc. apply NoDup_app. split; [done|]. split; [|by apply NoDup_cons].
    intros x Hx Hx'. by apply (Hd x Hx).
  - rewrite std_sort_perm by apply by_order_weak. by apply snapshots_spec with (m := m).
Qed.

Lemma walk_numbers b order : forall ids,
  Forall (fun p => is_Some (h_machines h !! p)) order ->
  NoDup (ids ++ concat (map (block b) order)) ->
  forM order (compute_state_ids b) (numbered c0 ids)
    = Ok tt (numbered c0 (ids ++ concat (map (block b) order))).
Proof.
  induction order as [|p order IH]; intros ids Hex Hnd; cbn [forM map concat].
  { by rewrite app_nil_r. }
  apply Forall_cons in Hex as [Hp Hex]. cbn [map concat] in Hnd. rewrite app_assoc in Hnd.
  assert (Hnd1 : NoDup (ids ++ block b p)) by (by apply NoDup_app in Hnd as [? _]).
  rewrite (bind_Ok _ _ _ _ _ (compute_state_ids_run b p ids Hp Hnd1)).
  rewrite IH by done. by rewrite <- app_assoc.
Qed.

(** All numbered objects, in the order of their numbers. *)
Definition numbering (order : list Z) : list object :=
  concat (map (block true) order) ++ concat (map (block false) order).

Lemma elem_of_block b p o :
  o ∈ block b p -> (o = inl p \/ exists m q, h_machines h !! p = Some m /\ q ∈ m_states m /\ o = inr q).
Proof.
  unfold block. destruct (h_machines h !! p) as [m|] eqn:Em; [|by intros ?%elem_of_nil].
  destruct (skip_cover m b); [by intros ?%elem_of_nil|].
  intros [->|Hin]%elem_of_cons; [by left|]. apply list_elem_of_fmap in Hin as (q & -> & Hq).
  rewrite (sorted_states_perm p m Em) in Hq. right. by exists m, q.
Qed.

Lemma block_covers b p m :
  h_machines h !! p = Some m -> block b p <> [] -> m_cover m = negb b.
Proof.
  intros Hm. unfold block, skip_cover. rewrite Hm. by destruct (m_cover m), b.
Qed.

Lemma block_NoDup b p : NoDup (block b p).
Proof.
  unfold block. destruct (h_machines h !! p) as [m|] eqn:Em; [|apply NoDup_nil_2].
  destruct (skip_cover m b); [apply NoDup_nil_2|]. apply NoDup_cons. split.
  - intros Hin. by apply list_elem_of_fmap in Hin as (q & ? & _).
  - apply NoDup_fmap_2; [apply _|]. rewrite (sorted_states_perm p m Em). by eapply so_nodup.
Qed.

(** Blocks of different machines share nothing. *)
Lemma block_disjoint b1 b2 p1 p2 o : o ∈ block b1 p1 -> o ∈ block b2 p2 -> p1 = p2.
Proof.
  intros [->|(m1 & q1 & H1 & Hq1 & ->)]%elem_of_block [E|(m2 & q2 & H2 & Hq2 & E)]%elem_of_block;
    try congruence.
  injection E as <-. by eapply so_owner.
Qed.

Lemma blocks_NoDup b order : NoDup order -> NoDup (concat (map (block b) order)).
Proof.
  induction 1 as [|p order Hp Hnd IH]; [apply NoDup_nil_2|]. cbn. apply NoDup_app.
  split; [apply block_NoDup|]. split; [|done]. intros o Ho Hin.
  apply list_elem_of_In, in_concat in Hin as (l & Hl & Hin). apply list_elem_of_In in Hl, Hin.
  apply list_elem_of_fmap in Hl as (p' & -> & Hp'). by rewrite (block_disjoint _ _ _ _ _ Ho Hin) in Hp.
Qed.

Lemma elem_of_blocks b order o :
  o ∈ concat (map (block b) order) <-> exists p, p ∈ order /\ o ∈ block b p.
Proof.
  rewrite list_elem_of_In, in_concat. split.
  - intros (l & Hl & Hin). apply list_elem_of_In in Hl, Hin. apply list_elem_of_fmap in Hl as (p & -> & Hp). by exists p.
  - intros (p & Hp & Ho). exists (block b p). split; apply list_elem_of_In; [|done]. apply list_elem_of_fmap. by exists p.
Qed.

Lemma numbering_NoDup order : NoDup order -> NoDup (numbering order).
Proof.
  intros Hnd. apply NoDup_app. split; [by apply blocks_NoDup|]. split; [|by apply blocks_NoDup].
  intros o (p1 & Hp1 & Ho1)%elem_of_blocks (p2 & Hp2 & Ho2)%elem_of_blocks.
  assert (p1 = p2) as <- by (by eapply block_disjoint).
  assert (exists m, h_machines h !! p1 = Some m) as [m Hm].
  { unfold block in Ho1. destruct (h_machines h !! p1); [by eexists|]. by apply elem_of_nil in Ho1. }
  assert (H1 : m_cover m = negb true) by (apply (block_covers true p1); [done|intros E; rewrite E in Ho1; by apply elem_of_nil in Ho1]).
  assert (H2' : m_cover m = negb false) by (apply (block_covers false p1); [done|intros E; rewrite E in Ho2; by apply elem_of_nil in Ho2]).
  by rewrite H1 in H2'.
Qed.

Lemma elem_of_numbering order o :
  o ∈ numbering order <->
  (exists p, p ∈ order /\ is_Some (h_machines h !! p) /\ o = inl p) \/
  (exists p m q, p ∈ order /\ h_machines h !! p = Some m /\ q ∈ m_states m /\ o = inr q).
Proof.
  unfold numbering. rewrite elem_of_app, !elem_of_blocks. split.
  - intros [(p & Hp & Ho)|(p & Hp & Ho)].
    all: assert (Hm : is_Some (h_machines h !! p))
      by (unfold block in Ho; destruct (h_machines h !! p); [done|by apply elem_of_nil in Ho]).
    all: apply elem_of_block in Ho as [->|(m & q & Hmq & Hq & ->)]; [left; by exists p|right; by exists p, m, q].
  - intros Ho. assert (exists p m, p ∈ order /\ h_machines h !! p = Some m /\
      (o = inl p \/ exists q, q ∈ m_states m /\ o = inr q)) as (p & m & Hp & Hm & Ho').
    { destruct Ho as [(p & Hp & [m Hm] & ->)|(p & m & q & Hp & Hm & Hq & ->)]; exists p, m; naive_solver. }
    assert (Hin : forall b, skip_cover m b = false -> o ∈ block b p).
    { intros b Hb. unfold block. rewrite Hm, Hb. apply elem_of_cons.
      destruct Ho' as [->|(q & Hq & ->)]; [by left|right]. apply list_elem_of_fmap. exists q.
      split; [done|]. by rewrite (sorted_states_perm p m Hm). }
    unfold skip_cover in Hin. destruct (m_cover m).
    + right. exists p. split; [done|]. by apply Hin.
    + left. exists p. split; [done|]. by apply Hin.
Qed.

(** ** The whole pass *)

Lemma numbered_nil : c_ctr c0 = 1 -> c_heap c0 = h -> numbered c0 [] = c0.
Proof.
  intros Hc Hh. unfold numbered, numbered_heap. cbn [length].
  replace (map_imap _ (h_machines h)) with (h_machines h).
  2:{ apply map_eq. intros p. rewrite map_lookup_imap. by destruct (h_machines h !! p). }
  replace (map_imap _ (h_states h)) with (h_states h).
  2:{ apply map_eq. intros p. rewrite map_lookup_imap. by destruct (h_states h !! p). }
  destruct c0 as [h0 ? ? ? ctr ? ? ?]. cbn in Hc, Hh. subst. unfold with_c_heap, with_c_ctr. cbn. by destruct h.
Qed.

Lemma object_idx_numbered order i o :
  NoDup order -> numbering order !! i = Some o ->
  object_idx (numbered_heap (numbering order)) o = Some (1 + Z.of_nat i).
Proof.
  intros Hnd Hi. assert (Hidx : @index_of object _ o (numbering order) = Some i)
    by (apply index_of_lookup; [by apply numbering_NoDup|done]).
  apply list_elem_of_lookup_2, elem_of_numbering in Hi as [(p & _ & [m Hm] & ->)|(p & m & q & _ & Hm & Hq & ->)];
    cbn [object_idx].
  - rewrite numbered_machine_lookup, Hm. cbn. unfold numbered_machine. by rewrite Hidx.
  - destruct (so_exists _ Hso _ _ _ Hm Hq) as [s Hs].
    rewrite numbered_state_lookup, Hs. cbn. unfold numbered_state. by rewrite Hidx.
Qed.

(** The numbers given to covering machines and their states. *)
Definition covering (order : list Z) : list object := concat (map (block false) order).

Definition numbered_ctx (order : list Z) (c : ectx) : ectx :=
  with_number_of_states (Z.of_nat (length (numbering order)))
    (match covering order with
     | [] => c
     | _ => with_start_of_covering_states
              (1 + Z.of_nat (length (concat (map (block true) order)))) c
     end).

Lemma number_all_run fuel smsv order :
  visit_order h fuel smsv = Some order -> NoDup order ->
  Forall (fun p => is_Some (h_machines h !! p)) order ->
  c_ctr c0 = 1 -> c_heap c0 = h ->
  number_all fuel smsv c0 =
    Ok tt (with_c_ctx (numbered_ctx order (c_ctx c0)) (numbered c0 (numbering order))).
Proof.
  intros Ho Hnd Hex Hctr Hh. pose proof (numbering_NoDup order Hnd) as Hids. unfold numbering in *.
  unfold number_all. rewrite <- (numbered_nil Hctr Hh) at 1.
  assert (Hwalk : forall b ids, traverse_sms (compute_state_ids b) fuel smsv (numbered c0 ids)
                                = forM order (compute_state_ids b) (numbered c0 ids)).
  { intros b ids. eapply traverse_sms_forM; [|apply numbered_shape|done].
    apply keeps_callback. intros x. apply shaped_compute_state_ids. }
  assert (Hnd1 : NoDup ([] ++ concat (map (block true) order))) by (by apply NoDup_app in Hids as [? _]).
  assert (H1 : traverse_sms (compute_state_ids true) fuel smsv (numbered c0 [])
               = Ok tt (numbered c0 (concat (map (block true) order)))).
  { rewrite Hwalk. by rewrite (walk_numbers true order [] Hex Hnd1). }
  rewrite (bind_Ok _ _ _ _ _ H1). unfold gets. rewrite bind_unfold.
  assert (H2 : traverse_sms (compute_state_ids false) fuel smsv (numbered c0 (concat (map (block true) order)))
               = Ok tt (numbered c0 (numbering order))).
  { rewrite Hwalk. by rewrite (walk_numbers false order _ Hex Hids). }
  rewrite (bind_Ok _ _ _ _ _ H2), bind_unfold.
  cbn [numbered with_c_heap with_c_ctr c_ctr].
  unfold numbered_ctx, numbering. rewrite length_app. unfold covering.
  destruct (concat (map (block false) order)) as [|o l] eqn:Ec.
  - replace (_ =? _) with true by (symmetry; apply Z.eqb_eq; cbn [length]; lia).
    by rewrite Z.add_simpl_l.
  - replace (_ =? _) with false by (symmetry; apply Z.eqb_neq; cbn [length]; lia).
    by rewrite Z.add_simpl_l.
Qed.
End numbering.

