(* ===== verification/TablesSpec.v ===== *)
(** * TablesSpec: what the compiler writes into the tables

    The pass that sets parents, flags and initial states is a sequence of writes to
    cells of the tables; its effect is the log of these writes. At the end: the groups
    of the children of machines. *)

From S2P Require Import Prelude MachineInt Ast ExecCtx Machines Compile ExecCtxSpec TraverseSpec.

(** ** Cells and logs *)

Inductive cell :=
| CParent (s : Z) | CInitial (s : Z) | CFinal (s : Z) | CJoin (s : Z)
| CFlag (s what : Z).

#[export] Instance cell_eq_dec : EqDecision cell.
Proof. solve_decision. Defined.

Definition entry (v : list Z) (s : Z) : Z := default 0 (zlookup v s).

(** The value of a cell; a vector that has not grown yet reads as zeros. *)
Definition look (c : ectx) (k : cell) : Z :=
  match k with
  | CParent s => entry (parent_vec c) s
  | CInitial s => entry (initial_state c) s
  | CFinal s => entry (final_state c) s
  | CJoin s => entry (join_states c) s
  | CFlag s what => if flag c s what then 1 else 0
  end.

Definition log : Type := list (cell * Z).

Definition write (e : cell * Z) (f : cell -> Z) : cell -> Z :=
  fun k => if decide (k = e.1) then e.2 else f k.

Fixpoint assign (l : log) (f : cell -> Z) : cell -> Z :=
  match l with [] => f | e :: l' => assign l' (write e f) end.

Lemma assign_app l1 l2 f : assign (l1 ++ l2) f = assign l2 (assign l1 f).
Proof. revert f. induction l1 as [|e l1 IH]; intros f; [done|]. apply IH. Qed.

Lemma assign_ext l f g : (forall k, f k = g k) -> forall k, assign l f k = assign l g k.
Proof.
  revert f g. induction l as [|e l IH]; intros f g Hfg; [done|]. cbn. apply IH. intros k.
  unfold write. by destruct (decide _).
Qed.

(** A cell holds what was written last: the old value when there was no write, or the
    value of some write. *)
Lemma assign_cases l f k :
  (assign l f k = f k /\ forall v, (k, v) ∉ l) \/ (k, assign l f k) ∈ l.
Proof.
  revert f. induction l as [|[k' v] l IH]; intros f; cbn [assign].
  { left. split; [done|]. intros v. apply not_elem_of_nil. }
  destruct (IH (write (k', v) f)) as [[E Hn]|Hin]; [|right; by right].
  rewrite E. unfold write. cbn [fst snd]. destruct (decide (k = k')) as [->|Hne].
  - right. by left.
  - left. split; [done|]. intros v'. rewrite not_elem_of_cons. split; [congruence|apply Hn].
Qed.

(** All writes to a cell agree, and there is one. *)
Lemma assign_unique l f k v :
  (k, v) ∈ l -> (forall v', (k, v') ∈ l -> v' = v) -> assign l f k = v.
Proof.
  intros Hin Hu. destruct (assign_cases l f k) as [[_ Hn]|H]; [by apply Hn in Hin|by apply Hu].
Qed.

Lemma assign_none l f k : (forall v, (k, v) ∉ l) -> assign l f k = f k.
Proof. intros Hn. destruct (assign_cases l f k) as [[H _]|H]; [done|by apply Hn in H]. Qed.

(** ** Code that performs a log *)

Definition sized (N : Z) (v : list Z) : Prop := length v = O \/ Z.of_nat (length v) = N + 1.

Record vectors_ok (N : Z) (c : ectx) : Prop := {
  vo_number : number_of_states c = N;
  vo_parent : sized N (parent_vec c);
  vo_initial : sized N (initial_state c);
  vo_final : sized N (final_state c);
  vo_join : sized N (join_states c);
  vo_inf : sized N (inf_vec c)
}.

(** What the pass does not touch. *)
Definition others (c : ectx) :=
  (current_states c, children c, state_to_children c, start_of_covering_states c, transitions c).

Section performs.
Context (N : Z) (HN : 0 < N < 2 ^ 31).

Definition performs (m : M ectx unit) (l : log) : Prop :=
  forall c, vectors_ok N c -> exists c', m c = Ok tt c' /\ vectors_ok N c' /\
    (forall k, look c' k = assign l (look c) k) /\ others c' = others c.

Lemma performs_ret : performs (ret tt) [].
Proof. intros c Hc. by exists c. Qed.

Lemma performs_bind m1 m2 l1 l2 :
  performs m1 l1 -> performs m2 l2 -> performs (do! m1 in m2) (l1 ++ l2).
Proof.
  intros H1 H2 c Hc. destruct (H1 c Hc) as (c1 & R1 & W1 & L1 & O1).
  destruct (H2 c1 W1) as (c2 & R2 & W2 & L2 & O2). exists c2.
  rewrite (bind_Ok _ _ _ _ _ R1). split; [done|]. split; [done|]. split; [|by rewrite O2].
  intros k. rewrite L2, assign_app. by apply assign_ext.
Qed.

Lemma performs_if (b : bool) m1 m2 l1 l2 :
  performs m1 l1 -> performs m2 l2 -> performs (if b then m1 else m2) (if b then l1 else l2).
Proof. by destruct b. Qed.

Lemma grown_vector v i x :
  sized N v -> 0 <= i <= N ->
  let v0 := if Z.of_nat (length v) <? u64 N then vec_resize (N + 1) 0 v else v in
  zinsert v0 i x = Some (<[Z.to_nat i := x]> v0) /\
  Z.of_nat (length v0) = N + 1 /\ (forall j, entry v0 j = entry v j).
Proof.
  intros Hv Hi v0. assert (Hu : u64 N = N) by (apply Z.mod_small; lia).
  assert (Z.of_nat (length v0) = N + 1 /\ forall j, entry v0 j = entry v j) as [Hl He].
  { unfold v0. rewrite Hu. destruct Hv as [Hv|Hv].
    - apply nil_length_inv in Hv as ->. cbn [length]. rewrite (proj2 (Z.ltb_lt _ _)) by lia.
      unfold vec_resize. rewrite take_nil, Nat.sub_0_r. cbn [app]. rewrite length_replicate. split; [lia|].
      intros j. unfold entry, zlookup. destruct (j <? 0); [done|]. rewrite lookup_nil.
      destruct (replicate _ 0 !! Z.to_nat j) eqn:E; [|done]. apply lookup_replicate in E as [-> _]. done.
    - rewrite (proj2 (Z.ltb_ge _ _)) by lia. done. }
  split; [|done]. apply zinsert_Some. lia.
Qed.

Lemma entry_insert v i x j :
  0 <= i < Z.of_nat (length v) -> entry (<[Z.to_nat i := x]> v) j = if decide (j = i) then x else entry v j.
Proof.
  intros Hi. unfold entry. destruct (decide (j = i)) as [->|Hne].
  - by rewrite zlookup_insert_eq.
  - by rewrite zlookup_insert_ne by lia.
Qed.

(** The setters that grow their vector. *)
Lemma grow_and_set_run (f : ectx -> list Z) (w : list Z -> ectx -> ectx) i x c :
  (forall v c, f (w v c) = v) -> (forall v v' c, w v (w v' c) = w v c) -> (forall c, w (f c) c = c) ->
  (forall v c, number_of_states (w v c) = number_of_states c) ->
  number_of_states c = N -> sized N (f c) -> 0 <= i <= N ->
  exists v, grow_and_set f w i x c = Ok tt (w v c) /\ Z.of_nat (length v) = N + 1 /\
    forall j, entry v j = if decide (j = i) then x else entry (f c) j.
Proof.
  intros Hfw Hww Hwf Hn HcN Hs Hi. destruct (grown_vector (f c) i x Hs Hi) as (Hz & Hl & He).
  set (v0 := if Z.of_nat (length (f c)) <? u64 N then vec_resize (N + 1) 0 (f c) else f c) in *.
  exists (<[Z.to_nat i := x]> v0). split; [|split].
  - unfold grow_and_set, modify. rewrite bind_unfold, HcN.
    replace (if Z.of_nat (length (f c)) <? u64 N then w (vec_resize (N + 1) 0 (f c)) c else c)
      with (w v0 c) by (unfold v0; destruct (_ <? _); [done|apply Hwf]).
    unfold vset. by rewrite Hfw, Hz, Hww.
  - by rewrite length_insert.
  - intros j. rewrite entry_insert by lia. destruct (decide _); [done|apply He].
Qed.

(** *** The setters *)

(** A vector of the tables, with its setter and its cells. *)
Record column (f : ectx -> list Z) (w : list Z -> ectx -> ectx) (K : Z -> cell) : Prop := {
  co_get v c : f (w v c) = v;
  co_twice v v' c : w v (w v' c) = w v c;
  co_same c : w (f c) c = c;
  co_others v c : others (w v c) = others c;
  co_ok v c : vectors_ok N c -> sized N v -> vectors_ok N (w v c);
  co_sized c : vectors_ok N c -> sized N (f c);
  co_number v c : number_of_states (w v c) = number_of_states c;
  co_cell c s : look c (K s) = entry (f c) s;
  co_inj s s' : K s = K s' -> s = s';
  co_cells k : (exists s, k = K s) \/ ((forall s, k <> K s) /\ forall v c, look (w v c) k = look c k)
}.

Lemma performs_column f w K i x :
  column f w K -> 0 <= i <= N -> performs (grow_and_set f w i x) [(K i, x)].
Proof.
  intros [] Hi c W. destruct (grow_and_set_run f w i x c) as (v & Hr & Hl & He); try done; [apply W|auto|].
  exists (w v c). split; [done|]. split; [|split; [|done]].
  - apply co_ok0; [done|by right].
  - intros k. cbn [assign]. unfold write. cbn [fst snd]. destruct (co_cells0 k) as [[s ->]|[Hn Hk]].
    + rewrite !co_cell0, co_get0, He. destruct (decide (s = i)) as [->|Hne]; [by rewrite decide_True|].
      rewrite decide_False; [done|]. intros E. by apply Hne, co_inj0.
    + rewrite Hk. by rewrite decide_False.
Qed.

Ltac column := split;
  [done|done|by intros []|done|intros ? ? [] ?; by split|by intros ? []|done|done|by intros ? ? [=]|
   intros []; try (left; by eexists); right; by split].

Lemma performs_set_parent i x : 0 <= i <= N -> performs (set_parent i x) [(CParent i, x)].
Proof. apply (performs_column _ _ CParent). column. Qed.

Lemma performs_set_initial i x : 0 <= i <= N -> performs (set_initial_state i x) [(CInitial i, x)].
Proof. apply (performs_column _ _ CInitial). column. Qed.

Lemma performs_set_final i x : 0 <= i <= N -> performs (set_final_state i x) [(CFinal i, x)].
Proof. apply (performs_column _ _ CFinal). column. Qed.

Lemma performs_set_join i x : 0 <= i <= N -> performs (set_join_state i x) [(CJoin i, x)].
Proof. apply (performs_column _ _ CJoin). column. Qed.

Lemma flag_entry c s what : 0 <= what -> flag c s what = Z.testbit (entry (inf_vec c) s) what.
Proof.
  intros Hw. unfold flag, entry. destruct (zlookup _ s); [done|]. cbn. by rewrite Z.bits_0.
Qed.

Definition bool_Z (b : bool) : Z := if b then 1 else 0.

Lemma performs_set_inf i what b :
  0 <= i <= N -> 0 <= what -> performs (set_inf i what b) [(CFlag i what, bool_Z b)].
Proof.
  intros Hi Hw c W. pose proof W as [HcN ? ? ? ? Hs].
  destruct (grown_vector (inf_vec c) i 0 Hs Hi) as (_ & Hl & He).
  set (v0 := if Z.of_nat (length (inf_vec c)) <? u64 N then vec_resize (N + 1) 0 (inf_vec c) else inf_vec c) in *.
  destruct (zlookup_is_Some v0 i ltac:(lia)) as [w Hlk].
  set (w' := if b then Z.lor w (Z.shiftl 1 what) else Z.land w (Z.lnot (Z.shiftl 1 what))).
  pose (c1 := with_inf_vec (<[Z.to_nat i := w']> v0) c).
  pose (c2 := if (what =? LOG_ENTER_TIME) || (what =? LOG_EXIT_TIME) then with_log_timing true c1 else c1).
  assert (Hrun : set_inf i what b c = Ok tt c2).
  { unfold set_inf. rewrite (bind_Ok _ _ c tt (with_inf_vec v0 c)).
    2:{ unfold modify. rewrite HcN. unfold v0. destruct (_ <? _); [done|by destruct c]. }
    rewrite (bind_Ok _ _ _ w (with_inf_vec v0 c)) by (unfold vget; cbn [inf_vec with_inf_vec]; by rewrite Hlk).
    rewrite (bind_Ok _ _ _ tt c1).
    2:{ unfold vset. cbn [inf_vec with_inf_vec]. by rewrite zinsert_Some by lia. }
    unfold c2, ret, modify. by destruct (_ || _). }
  assert (Hv : forall s k, 0 <= k -> Z.testbit (entry (inf_vec c2) s) k
               = if decide (s = i /\ k = what) then b else Z.testbit (entry (inf_vec c) s) k).
  { intros s k Hk. replace (inf_vec c2) with (<[Z.to_nat i := w']> v0) by (unfold c2; by destruct (_ || _)).
    rewrite entry_insert by lia. destruct (decide (s = i)) as [->|Hne].
    - unfold w'. rewrite testbit_update by done. destruct (Z.eqb_spec k what) as [->|Hne].
      + by rewrite decide_True.
      + rewrite decide_False by tauto. rewrite <- He. unfold entry. by rewrite Hlk.
    - rewrite decide_False by tauto. by rewrite He. }
  exists c2. split; [exact Hrun|]. split; [|split].
  - unfold c2, c1. destruct (_ || _); split; try done; cbn; right; rewrite length_insert; lia.
  - intros [s|s|s|s|s k]; cbn [look assign]; unfold write; cbn [fst snd].
    1-4: rewrite decide_False by done; unfold c2; by destruct (_ || _).
    destruct (decide (0 <= k)) as [Hk|Hk].
    + rewrite flag_entry, Hv by done. destruct (decide (s = i /\ k = what)) as [[-> ->]|Hne].
      * by rewrite decide_True.
      * rewrite decide_False by (intros E; apply Hne; by injection E). cbn [look]. by rewrite flag_entry.
    + rewrite decide_False by (intros E; injection E; lia).
      assert (Hneg : forall c0, flag c0 s k = false).
      { intros c0. unfold flag. destruct (zlookup _ s); [|done]. apply Z.testbit_neg_r. lia. }
      cbn [look]. by rewrite !Hneg.
  - unfold c2, c1. by destruct (_ || _).
Qed.

(** *** The parts of the pass *)

Definition log_flags (idx : Z) (m : machine) : log :=
  [(CFlag idx LOG_ENTER_TIME, bool_Z (m_log_enter_state m));
   (CFlag idx LOG_EXIT_TIME, bool_Z (m_log_exit_state m))].

Definition label_log (idx : Z) (label : string) : log :=
  if (String.length label =? 0)%nat then [] else [(CFlag idx HAS_LABEL, 1)].

Definition state_log (m : machine) (s : mstate) : log :=
  [(CParent (s_idx s), m_idx m)] ++ [(CFlag (s_idx s) INIT, bool_Z (is_initial s))] ++
  [(CFlag (s_idx s) DONT_COVER, bool_Z (s_dont_cover s))] ++ [(CFlag (s_idx s) FINAL, bool_Z (is_final s))] ++
  [(CFlag (s_idx s) IN_THREAD, bool_Z (m_is_thread m))] ++ log_flags (s_idx s) m ++
  label_log (s_idx s) (s_label s) ++
  (if is_initial s then [(CInitial (m_idx m), s_idx s)] else []) ++
  (if is_final s then [(CFinal (m_idx m), s_idx s)] else []).

Definition child_log (m child : machine) : log :=
  [(CParent (m_idx child), m_idx m)] ++
  (if m_is_thread child then [(CFlag (m_idx m) REGION, 1)] else []) ++
  log_flags (m_idx child) m ++ label_log (m_idx child) (m_label child).

Definition machine_log (m : machine) : log :=
  log_flags (m_idx m) m ++ label_log (m_idx m) (m_label m) ++
  [(CFlag (m_idx m) SM, 1)] ++ [(CFlag (m_idx m) THREAD, bool_Z (m_is_thread m))] ++
  [(CFlag (m_idx m) JOIN, bool_Z (m_join m))] ++
  (if m_dont_cover_loops m then [(CFlag (m_idx m) DONT_COVER_LOOPS, 1)] else []) ++
  (if m_hidden m then [(CFlag (m_idx m) HIDDEN, 1)] else []).

Create HintDb performs.
#[local] Hint Resolve performs_ret performs_set_parent performs_set_initial performs_set_final
  performs_set_join : performs.

Lemma performs_flag i what b v :
  0 <= i <= N -> 0 <= what -> v = bool_Z b -> performs (set_inf i what b) [(CFlag i what, v)].
Proof. intros ? ? ->. by apply performs_set_inf. Qed.

Lemma performs_log_flags i m : 0 <= i <= N -> performs (set_log_flags i m) (log_flags i m).
Proof.
  intros Hi. apply (performs_bind _ _ [_] [_]); by apply performs_set_inf.
Qed.

Lemma performs_label i label : 0 <= i <= N -> performs (set_label i label) (label_log i label).
Proof.
  intros Hi. unfold set_label, label_log. apply performs_if; [apply performs_ret|].
  apply (performs_bind _ _ [_] []); [by apply (performs_set_inf i HAS_LABEL true)|].
  intros c W. eexists. split; [done|]. split; [by destruct W; split|done].
Qed.

Ltac perform := repeat first
  [ apply performs_ret | apply performs_log_flags; done | apply performs_label; done
  | apply performs_set_parent; done | apply performs_set_initial; done | apply performs_set_final; done
  | apply performs_flag; done | apply performs_if | eapply performs_bind ].

Lemma performs_state_info m s :
  0 <= m_idx m <= N -> 0 <= s_idx s <= N -> performs (set_state_info m s) (state_log m s).
Proof. intros Hm Hs. unfold set_state_info, state_log. perform. Qed.

Lemma performs_child_info m child :
  0 <= m_idx m <= N -> 0 <= m_idx child <= N -> performs (set_child_info m child) (child_log m child).
Proof. intros Hm Hs. unfold set_child_info, child_log. perform. Qed.

Lemma performs_machine_info m :
  0 <= m_idx m <= N -> performs (set_machine_info m) (machine_log m).
Proof. intros Hm. unfold set_machine_info, machine_log. perform. Qed.
End performs.

(** ** The pass over the machines

    The heap during the pass is [g] but for the transitions. *)

Definition erase (h : smheap) : smheap := with_h_machines (with_m_transitions [] <$> h_machines h) h.

(** The numbers of the machines in [order], of their states and of their children are
    states of the tables. *)
Record indices_ok (g : smheap) (order : list Z) (N : Z) : Prop := {
  io_machine p : p ∈ order -> exists m, h_machines g !! p = Some m /\ 0 < m_idx m <= N;
  io_state p m q : p ∈ order -> h_machines g !! p = Some m -> q ∈ m_states m ->
    exists s, h_states g !! q = Some s /\ 0 < s_idx s <= N;
  io_child p m q : p ∈ order -> h_machines g !! p = Some m -> q ∈ m_children m -> q ∈ order
}.

Section pass.
Context (N : Z) (HN : 0 < N < 2 ^ 31) (g : smheap) (order : list Z) (Hio : indices_ok g order N).

Lemma erased_machine c p m :
  erase (c_heap c) = g -> h_machines g !! p = Some m ->
  exists m', h_machines (c_heap c) !! p = Some m' /\ with_m_transitions [] m' = m.
Proof.
  intros Hc Hm. rewrite <- Hc in Hm. cbn in Hm. rewrite lookup_fmap in Hm.
  destruct (h_machines (c_heap c) !! p) as [m'|]; [|done]. exists m'. split; [done|]. by injection Hm.
Qed.

Lemma erased_state c q : erase (c_heap c) = g -> h_states (c_heap c) !! q = h_states g !! q.
Proof. intros Hc. by rewrite <- Hc. Qed.

Definition performs_c (m : M cstate unit) (l : log) : Prop :=
  forall c, erase (c_heap c) = g -> vectors_ok N (c_ctx c) ->
    exists x, m c = Ok tt (with_c_ctx x c) /\ vectors_ok N x /\
      (forall k, look x k = assign l (look (c_ctx c)) k) /\ others x = others (c_ctx c).

Lemma performs_c_ret : performs_c (ret tt) [].
Proof. intros c Hc Hv. exists (c_ctx c). split; [by destruct c|done]. Qed.

Lemma performs_c_tables m l : performs N m l -> performs_c (on_tables m) l.
Proof.
  intros Hm c Hc Hv. destruct (Hm (c_ctx c) Hv) as (x & Hr & Hx). exists x. split; [|done].
  unfold on_tables, zoom. by rewrite Hr.
Qed.

Lemma performs_c_bind m1 m2 l1 l2 :
  performs_c m1 l1 -> performs_c m2 l2 -> performs_c (do! m1 in m2) (l1 ++ l2).
Proof.
  intros H1 H2 c Hc Hv. destruct (H1 c Hc Hv) as (x1 & R1 & V1 & L1 & O1).
  destruct (H2 (with_c_ctx x1 c) Hc V1) as (x2 & R2 & V2 & L2 & O2). exists x2.
  rewrite (bind_Ok _ _ _ _ _ R1). split; [by rewrite R2; destruct c|]. split; [done|].
  split; [|by rewrite O2]. intros k. rewrite L2, assign_app. by apply assign_ext.
Qed.

(** A read of the heap. *)
Lemma performs_c_read {A} (m : M cstate A) (k : A -> M cstate unit) (P : A -> Prop) l :
  (forall c, erase (c_heap c) = g -> exists a, m c = Ok a c /\ P a) ->
  (forall a, P a -> performs_c (k a) l) -> performs_c (bind m k) l.
Proof.
  intros Hm Hk c Hc Hv. destruct (Hm c Hc) as (a & Hr & Ha). rewrite (bind_Ok _ _ _ _ _ Hr).
  by apply (Hk a Ha c).
Qed.

Lemma performs_c_machine p m (k : machine -> M cstate unit) l :
  h_machines g !! p = Some m ->
  (forall m', with_m_transitions [] m' = m -> performs_c (k m') l) ->
  performs_c (bind (on_heap (sm_at p)) k) l.
Proof.
  intros Hm. apply performs_c_read. intros c Hc.
  destruct (erased_machine c p m Hc Hm) as (m' & Hm' & <-). exists m'. by rewrite (sm_at_run _ _ _ Hm').
Qed.

Lemma performs_c_state q s (k : mstate -> M cstate unit) l :
  h_states g !! q = Some s -> performs_c (k s) l -> performs_c (bind (on_heap (state_at q)) k) l.
Proof.
  intros Hs Hk. apply (performs_c_read _ _ (fun s' => s' = s)); [|by intros ? ->].
  intros c Hc. exists s. rewrite <- (erased_state c q Hc) in Hs. by rewrite (state_at_run _ _ _ Hs).
Qed.

Lemma performs_c_forM {A} (xs : list A) f (l : A -> log) :
  (forall x, x ∈ xs -> performs_c (f x) (l x)) -> performs_c (forM xs f) (concat (map l xs)).
Proof.
  induction xs as [|x xs IH]; intros Hf; [apply performs_c_ret|]. cbn [forM map concat].
  apply performs_c_bind; [apply Hf; by left|]. apply IH. intros y Hy. apply Hf. by right.
Qed.

(** The join state: the first state with its id. *)
Definition join_log (m : machine) : log :=
  if negb (m_join m) then []
  else
    match List.find (fun q => match h_states g !! q with
                              | Some s => String.eqb (s_id s) (s_id (m_join_state m))
                              | None => false
                              end) (m_states m) with
    | Some q => match h_states g !! q with Some s => [(CJoin (m_idx m), s_idx s)] | None => [] end
    | None => []
    end.

Lemma findM_pure {S A} (xs : list A) (f : A -> M S bool) (p : A -> bool) s :
  (forall x, x ∈ xs -> f x s = Ok (p x) s) -> findM xs f s = Ok (List.find p xs) s.
Proof.
  induction xs as [|x xs IH]; intros Hf; [done|]. cbn [findM List.find].
  rewrite (bind_Ok _ _ _ _ _ (Hf x ltac:(by left))). destruct (p x); [done|].
  apply IH. intros y Hy. apply Hf. by right.
Qed.

Definition states_log (m : machine) (q : Z) : log :=
  match h_states g !! q with Some s => state_log m s | None => [] end.
Definition children_log (m : machine) (q : Z) : log :=
  match h_machines g !! q with Some child => child_log m child | None => [] end.

(** What the visit of a machine writes. *)
Definition visit_log (p : Z) : log :=
  match h_machines g !! p with
  | Some m => machine_log m ++ join_log m ++ concat (map (states_log m) (m_states m)) ++
              concat (map (children_log m) (m_children m))
  | None => []
  end.

Lemma performs_set_join_c p m :
  p ∈ order -> h_machines g !! p = Some m -> performs_c (set_join m) (join_log m).
Proof.
  intros Hp Hm. unfold set_join, join_log. destruct (negb (m_join m)); [apply performs_c_ret|].
  set (pr := fun q => match h_states g !! q with
                      | Some s => String.eqb (s_id s) (s_id (m_join_state m)) | None => false end).
  apply (performs_c_read _ _ (fun o => o = List.find pr (m_states m))).
  - intros c Hc. exists (List.find pr (m_states m)). split; [|done]. unfold on_heap, zoom.
    rewrite (findM_pure _ _ pr); [by destruct c|]. intros q Hq.
    destruct (io_state _ _ _ Hio p m q Hp Hm Hq) as (s & Hs & _). unfold pr, state_at.
    rewrite bind_unfold, (erased_state c q Hc), Hs. done.
  - intros o ->. destruct (List.find pr (m_states m)) as [q|] eqn:E; [|apply performs_c_ret].
    apply find_some in E as [Hq _]. apply list_elem_of_In in Hq.
    destruct (io_state _ _ _ Hio p m q Hp Hm Hq) as (s & Hs & Hi). rewrite Hs.
    apply (performs_c_state q s); [done|]. apply performs_c_tables, performs_set_join; [done|].
    destruct (io_machine _ _ _ Hio p Hp) as (m' & Hm' & Hi'). simplify_eq. lia.
Qed.

Lemma performs_visit p : p ∈ order -> performs_c (set_parent_info p) (visit_log p).
Proof.
  intros Hp. destruct (io_machine _ _ _ Hio p Hp) as (m & Hm & Hi). unfold visit_log. rewrite Hm.
  apply (performs_c_machine p m); [done|]. intros m' <-.
  apply performs_c_bind; [by apply performs_c_tables, (performs_machine_info N HN (with_m_transitions [] m')); lia|].
  apply performs_c_bind; [by apply (performs_set_join_c p (with_m_transitions [] m'))|].
  apply performs_c_bind.
  - apply (performs_c_forM _ _ (states_log (with_m_transitions [] m'))). intros q Hq.
    destruct (io_state _ _ _ Hio p _ q Hp Hm Hq) as (s & Hs & Hsi). unfold states_log. rewrite Hs.
    apply (performs_c_state q s); [done|].
    apply performs_c_tables, (performs_state_info N HN (with_m_transitions [] m')); lia.
  - apply (performs_c_forM _ _ (children_log (with_m_transitions [] m'))). intros q Hq.
    destruct (io_machine _ _ _ Hio q (io_child _ _ _ Hio p _ q Hp Hm Hq)) as (child & Hc & Hci).
    unfold children_log. rewrite Hc. apply (performs_c_machine q child); [done|]. intros ch <-.
    apply performs_c_tables, (performs_child_info N HN (with_m_transitions [] m') (with_m_transitions [] ch)); lia.
Qed.

(** The pass over all machines writes the logs of the visits. *)
Lemma performs_all : performs_c (forM order set_parent_info) (concat (map visit_log order)).
Proof. apply performs_c_forM, performs_visit. Qed.
End pass.

(** ** Reading the log *)

(** Numbers are handed out once; a state is in one machine, a machine is a child of at
    most one machine. *)
Record distinct_ok (g : smheap) (order : list Z) : Prop := {
  dn_machines p1 p2 m1 m2 : p1 ∈ order -> p2 ∈ order -> h_machines g !! p1 = Some m1 ->
    h_machines g !! p2 = Some m2 -> m_idx m1 = m_idx m2 -> p1 = p2;
  dn_states p1 p2 m1 m2 q1 q2 s1 s2 : p1 ∈ order -> p2 ∈ order -> h_machines g !! p1 = Some m1 ->
    h_machines g !! p2 = Some m2 -> q1 ∈ m_states m1 -> q2 ∈ m_states m2 ->
    h_states g !! q1 = Some s1 -> h_states g !! q2 = Some s2 -> s_idx s1 = s_idx s2 -> p1 = p2 /\ q1 = q2;
  dn_mixed p1 p2 m1 m2 q s : p1 ∈ order -> p2 ∈ order -> h_machines g !! p1 = Some m1 ->
    h_machines g !! p2 = Some m2 -> q ∈ m_states m2 -> h_states g !! q = Some s -> m_idx m1 <> s_idx s;
  dn_child p1 p2 m1 m2 q : p1 ∈ order -> p2 ∈ order -> h_machines g !! p1 = Some m1 ->
    h_machines g !! p2 = Some m2 -> q ∈ m_children m1 -> q ∈ m_children m2 -> p1 = p2
}.

Section read.
Context (N : Z) (g : smheap) (order : list Z) (Hio : indices_ok g order N) (Hd : distinct_ok g order).

Definition whole_log : log := concat (map (visit_log g) order).

(** Machine [m] of the walk, its state [s], its child [ch]. *)
Definition is_machine (p : Z) (m : machine) : Prop := p ∈ order /\ h_machines g !! p = Some m.
Definition has_state (m : machine) (q : Z) (s : mstate) : Prop := q ∈ m_states m /\ h_states g !! q = Some s.
Definition has_child_sm (m : machine) (q : Z) (ch : machine) : Prop := q ∈ m_children m /\ h_machines g !! q = Some ch.

Lemma in_whole_log e :
  e ∈ whole_log <-> exists p m, is_machine p m /\
    (e ∈ machine_log m \/ e ∈ join_log g m \/ (exists q s, has_state m q s /\ e ∈ state_log m s) \/
     (exists q ch, has_child_sm m q ch /\ e ∈ child_log m ch)).
Proof.
  unfold whole_log, is_machine, has_state, has_child_sm.
  assert (Hcc : forall (A : Type) (l : list A) (f : A -> log), e ∈ concat (map f l) <-> exists x, x ∈ l /\ e ∈ f x).
  { intros A l f. rewrite list_elem_of_In, in_concat. split.
    - intros (l' & Hl & Hin). apply list_elem_of_In in Hl, Hin. apply list_elem_of_fmap in Hl as (x & -> & Hx). by exists x.
    - intros (x & Hx & Hin). exists (f x). split; apply list_elem_of_In; [|done]. apply list_elem_of_fmap. by exists x. }
  rewrite Hcc. unfold visit_log. split.
  - intros (p & Hp & Hin). destruct (h_machines g !! p) as [m|] eqn:Em; [|by apply elem_of_nil in Hin].
    exists p, m. split; [done|]. rewrite !elem_of_app, !Hcc in Hin.
    destruct Hin as [?|[?|[(q & Hq & Hin)|(q & Hq & Hin)]]]; [by left|by right; left| |].
    + right. right. left. unfold states_log in Hin. destruct (h_states g !! q) as [s|] eqn:Es; [|by apply elem_of_nil in Hin].
      by exists q, s.
    + right. right. right. unfold children_log in Hin. destruct (h_machines g !! q) as [ch|] eqn:Es; [|by apply elem_of_nil in Hin].
      by exists q, ch.
  - intros (p & m & [Hp Hm] & Hin). exists p. split; [done|]. rewrite Hm, !elem_of_app, !Hcc.
    destruct Hin as [?|[?|[(q & s & [Hq Hs] & Hin)|(q & ch & [Hq Hc] & Hin)]]]; [by left|by right; left| |].
    + right. right. left. exists q. unfold states_log. by rewrite Hs.
    + right. right. right. exists q. unfold children_log. by rewrite Hc.
Qed.

(** Membership in the short logs, by cases. *)
Ltac log_cases H := repeat first
  [ apply elem_of_app in H as [H|H]
  | apply list_elem_of_singleton in H; first [discriminate H | injection H as ?; subst]
  | apply elem_of_cons in H as [H|H]; [first [discriminate H | injection H as ?; subst]|]
  | by apply elem_of_nil in H
  | progress unfold log_flags, label_log in H
  | match type of H with _ ∈ (if ?b then _ else _) => destruct b eqn:? end ].

Lemma join_log_cells m k v : (k, v) ∈ join_log g m -> exists s, k = CJoin s.
Proof.
  unfold join_log. destruct (negb _); [by intros ?%elem_of_nil|].
  destruct (List.find _ _) as [q|]; [|by intros ?%elem_of_nil].
  destruct (_ !! q); [|by intros ?%elem_of_nil]. intros [= -> _]%list_elem_of_singleton. by eexists.
Qed.

(** *** Writers of the cells *)

Lemma writes_parent i v :
  (CParent i, v) ∈ whole_log <-> exists p m, is_machine p m /\ v = m_idx m /\
    ((exists q s, has_state m q s /\ i = s_idx s) \/ (exists q ch, has_child_sm m q ch /\ i = m_idx ch)).
Proof.
  rewrite in_whole_log. split.
  - intros (p & m & Hm & Hin). exists p, m. split; [done|].
    destruct Hin as [Hin|[Hin|[(q & s & Hs & Hin)|(q & ch & Hc & Hin)]]].
    + unfold machine_log in Hin. by log_cases Hin.
    + by apply join_log_cells in Hin as [? ?].
    + unfold state_log in Hin. log_cases Hin. split; [done|]. left. by exists q, s.
    + unfold child_log in Hin. log_cases Hin. split; [done|]. right. by exists q, ch.
  - intros (p & m & Hm & -> & [(q & s & Hs & ->)|(q & ch & Hc & ->)]); exists p, m; (split; [done|]); right; right.
    + left. exists q, s. split; [done|]. unfold state_log. by left.
    + right. exists q, ch. split; [done|]. unfold child_log. by left.
Qed.

(** A flag that only the visit of the machine itself writes. *)
Definition machine_flag (m : machine) (what : Z) : option bool :=
  if what =? SM then Some true
  else if what =? THREAD then Some (m_is_thread m)
  else if what =? JOIN then Some (m_join m)
  else None.

(** A flag that only the visit of the machine around a state writes. *)
Definition state_flag (m : machine) (s : mstate) (what : Z) : option bool :=
  if what =? INIT then Some (is_initial s)
  else if what =? FINAL then Some (is_final s)
  else if what =? DONT_COVER then Some (s_dont_cover s)
  else if what =? IN_THREAD then Some (m_is_thread m)
  else None.

Lemma writes_flag i what v :
  what <> LOG_ENTER_TIME -> what <> LOG_EXIT_TIME -> what <> HAS_LABEL ->
  what <> DONT_COVER_LOOPS -> what <> HIDDEN -> what <> REGION ->
  (CFlag i what, v) ∈ whole_log <->
    (exists p m b, is_machine p m /\ i = m_idx m /\ machine_flag m what = Some b /\ v = bool_Z b) \/
    (exists p m q s b, is_machine p m /\ has_state m q s /\ i = s_idx s /\ state_flag m s what = Some b /\ v = bool_Z b).
Proof.
  intros H1 H2 H3 H4 H5 H6. rewrite in_whole_log. split.
  - intros (p & m & Hm & Hin). destruct Hin as [Hin|[Hin|[(q & s & Hs & Hin)|(q & ch & Hc & Hin)]]].
    + left. exists p, m. unfold machine_log in Hin. log_cases Hin; try done; by eexists.
    + by apply join_log_cells in Hin as [? ?].
    + right. exists p, m, q, s. unfold state_log in Hin. log_cases Hin; try done; by eexists.
    + unfold child_log in Hin. log_cases Hin; done.
  - intros [(p & m & b & Hm & -> & Hb & ->)|(p & m & q & s & b & Hm & Hs & -> & Hb & ->)]; exists p, m; (split; [done|]).
    + left. unfold machine_flag in Hb. unfold machine_log. rewrite !elem_of_app, !list_elem_of_singleton.
      repeat match type of Hb with
             | (if ?b then _ else _) = _ => destruct b eqn:?; [zbool; subst what; injection Hb as <-; cbn [bool_Z]; tauto|]
             end; done.
    + right. right. left. exists q, s. split; [done|]. unfold state_flag in Hb. unfold state_log.
      rewrite !elem_of_app, !list_elem_of_singleton.
      repeat match type of Hb with
             | (if ?b then _ else _) = _ => destruct b eqn:?; [zbool; subst what; injection Hb as <-; cbn [bool_Z]; tauto|]
             end; done.
Qed.

Lemma writes_region i v :
  (CFlag i REGION, v) ∈ whole_log <->
    exists p m q ch, is_machine p m /\ has_child_sm m q ch /\ m_is_thread ch = true /\ i = m_idx m /\ v = 1.
Proof.
  rewrite in_whole_log. split.
  - intros (p & m & Hm & Hin). destruct Hin as [Hin|[Hin|[(q & s & Hs & Hin)|(q & ch & Hc & Hin)]]].
    + unfold machine_log in Hin. log_cases Hin; done.
    + by apply join_log_cells in Hin as [? ?].
    + unfold state_log in Hin. log_cases Hin; done.
    + exists p, m, q, ch. unfold child_log in Hin. log_cases Hin; done.
  - intros (p & m & q & ch & Hm & Hc & Ht & -> & ->). exists p, m. split; [done|]. right. right. right.
    exists q, ch. split; [done|]. unfold child_log. rewrite Ht, !elem_of_app, !list_elem_of_singleton. tauto.
Qed.

Lemma writes_initial i v :
  (CInitial i, v) ∈ whole_log <->
    exists p m q s, is_machine p m /\ has_state m q s /\ is_initial s = true /\ i = m_idx m /\ v = s_idx s.
Proof.
  rewrite in_whole_log. split.
  - intros (p & m & Hm & Hin). destruct Hin as [Hin|[Hin|[(q & s & Hs & Hin)|(q & ch & Hc & Hin)]]].
    + unfold machine_log in Hin. log_cases Hin; done.
    + by apply join_log_cells in Hin as [? ?].
    + exists p, m, q, s. unfold state_log in Hin. log_cases Hin; done.
    + unfold child_log in Hin. log_cases Hin; done.
  - intros (p & m & q & s & Hm & Hs & Hi & -> & ->). exists p, m. split; [done|]. right. right. left.
    exists q, s. split; [done|]. unfold state_log. rewrite Hi, !elem_of_app, !list_elem_of_singleton. tauto.
Qed.

(** ** The values of the cells at the end *)

Section values.
Context (f L : cell -> Z) (Hf : forall k, f k = 0) (Hlook : forall k, L k = assign whole_log f k).

Lemma state_parent p m q s :
  is_machine p m -> has_state m q s -> L (CParent (s_idx s)) = m_idx m.
Proof.
  intros Hm Hs. rewrite Hlook. apply assign_unique.
  - apply writes_parent. exists p, m. split; [done|]. split; [done|]. left. by exists q, s.
  - intros v' (p' & m' & Hm' & -> & [(q' & s' & Hs' & E)|(q' & ch & Hc & E)])%writes_parent.
    + destruct Hm, Hm', Hs, Hs'.
      destruct (dn_states _ _ Hd p p' m m' q q' s s') as [<- _]; try done. by simplify_eq.
    + destruct Hm, Hm', Hs, Hc. exfalso.
      apply (dn_mixed _ _ Hd q' p ch m q s); try done. by apply (io_child _ _ _ Hio p' m').
Qed.

Lemma child_parent p m q ch :
  is_machine p m -> has_child_sm m q ch -> L (CParent (m_idx ch)) = m_idx m.
Proof.
  intros Hm Hc. rewrite Hlook. apply assign_unique.
  - apply writes_parent. exists p, m. split; [done|]. split; [done|]. right. by exists q, ch.
  - destruct Hm as [Hp Hm], Hc as [Hq Hc].
    assert (Hqo : q ∈ order) by (by apply (io_child _ _ _ Hio p m)).
    intros v' (p' & m' & [Hp' Hm'] & -> & [(q' & s' & [Hq' Hs'] & E)|(q' & ch' & [Hq' Hc'] & E)])%writes_parent.
    + exfalso. by apply (dn_mixed _ _ Hd q p' ch m' q' s').
    + assert (Hqo' : q' ∈ order) by (by apply (io_child _ _ _ Hio p' m')).
      assert (q = q') as <- by (by apply (dn_machines _ _ Hd q q' ch ch')).
      assert (p = p') as <- by (by apply (dn_child _ _ Hd p p' m m' q)). by simplify_eq.
Qed.

(** A machine that is no child has no parent. *)
Lemma root_parent p m :
  is_machine p m -> (forall p' m', is_machine p' m' -> p ∉ m_children m') -> L (CParent (m_idx m)) = 0.
Proof.
  intros [Hp Hm] Hroot. rewrite Hlook, assign_none; [done|].
  intros v' (p' & m' & [Hp' Hm'] & -> & [(q' & s' & [Hq' Hs'] & E)|(q' & ch' & [Hq' Hc'] & E)])%writes_parent.
  - by apply (dn_mixed _ _ Hd p p' m m' q' s').
  - assert (Hqo' : q' ∈ order) by (by apply (io_child _ _ _ Hio p' m')).
    assert (p = q') as <- by (by apply (dn_machines _ _ Hd p q' m ch')). by apply (Hroot p' m').
Qed.

Lemma no_parent : L (CParent 0) = 0.
Proof.
  rewrite Hlook, assign_none; [done|].
  intros v' (p' & m' & [Hp' Hm'] & -> & [(q' & s' & [Hq' Hs'] & E)|(q' & ch' & [Hq' Hc'] & E)])%writes_parent.
  - destruct (io_state _ _ _ Hio p' m' q' Hp' Hm' Hq') as (s & Hs & ?). simplify_eq. lia.
  - destruct (io_machine _ _ _ Hio q' (io_child _ _ _ Hio p' m' q' Hp' Hm' Hq')) as (s & Hs & ?). simplify_eq. lia.
Qed.

(** The flags in question. *)
Definition plain_flag (what : Z) : Prop :=
  what <> LOG_ENTER_TIME /\ what <> LOG_EXIT_TIME /\ what <> HAS_LABEL /\
  what <> DONT_COVER_LOOPS /\ what <> HIDDEN /\ what <> REGION.

Lemma machine_flag_value p m what :
  is_machine p m -> plain_flag what ->
  L (CFlag (m_idx m) what) = bool_Z (default false (machine_flag m what)).
Proof.
  intros [Hp Hm] (? & ? & ? & ? & ? & ?). rewrite Hlook.
  assert (Hw : forall v, (CFlag (m_idx m) what, v) ∈ whole_log -> exists b, machine_flag m what = Some b /\ v = bool_Z b).
  { intros v [(p' & m' & b & [Hp' Hm'] & E & Hb & ->)|(p' & m' & q & s & b & [Hp' Hm'] & [Hq Hs] & E & _)]%writes_flag;
      [|exfalso; by apply (dn_mixed _ _ Hd p p' m m' q s)|done..].
    assert (p = p') as <- by (by apply (dn_machines _ _ Hd p p' m m')). simplify_eq. by exists b. }
  destruct (machine_flag m what) as [b|] eqn:E; cbn.
  - apply assign_unique; [|intros v (b' & [= <-] & ->)%Hw; done].
    apply writes_flag; try done. left. by exists p, m, b.
  - rewrite assign_none; [done|]. by intros v (b & ? & _)%Hw.
Qed.

Lemma state_flag_value p m q s what :
  is_machine p m -> has_state m q s -> plain_flag what ->
  L (CFlag (s_idx s) what) = bool_Z (default false (state_flag m s what)).
Proof.
  intros [Hp Hm] [Hq Hs] (? & ? & ? & ? & ? & ?). rewrite Hlook.
  assert (Hw : forall v, (CFlag (s_idx s) what, v) ∈ whole_log -> exists b, state_flag m s what = Some b /\ v = bool_Z b).
  { intros v [(p' & m' & b & [Hp' Hm'] & E & Hb & ->)|(p' & m' & q' & s' & b & [Hp' Hm'] & [Hq' Hs'] & E & Hb & ->)]%writes_flag;
      [exfalso; by apply (dn_mixed _ _ Hd p' p m' m q s)| |done..].
    destruct (dn_states _ _ Hd p p' m m' q q' s s') as [<- <-]; try done. simplify_eq. by exists b. }
  destruct (state_flag m s what) as [b|] eqn:E; cbn.
  - apply assign_unique; [|intros v (b' & [= <-] & ->)%Hw; done].
    apply writes_flag; try done. right. by exists p, m, q, s, b.
  - rewrite assign_none; [done|]. by intros v (b & ? & _)%Hw.
Qed.

(** A machine with a thread among its children has regions. *)
Lemma region_value i :
  L (CFlag i REGION) = 0 \/
  L (CFlag i REGION) = 1 /\
    exists p m q ch, is_machine p m /\ has_child_sm m q ch /\ m_is_thread ch = true /\ i = m_idx m.
Proof.
  rewrite Hlook. destruct (assign_cases whole_log f (CFlag i REGION)) as [[-> _]|Hin]; [by left|right].
  apply writes_region in Hin as (p & m & q & ch & Hm & Hc & Ht & Hi & E). split; [done|]. by exists p, m, q, ch.
Qed.

Lemma region_set p m q ch :
  is_machine p m -> has_child_sm m q ch -> m_is_thread ch = true -> L (CFlag (m_idx m) REGION) = 1.
Proof.
  intros Hm Hc Ht. rewrite Hlook. apply assign_unique.
  - apply writes_region. by exists p, m, q, ch.
  - by intros v (p' & m' & q' & ch' & _ & _ & _ & _ & ->)%writes_region.
Qed.

(** The initial state of a machine is one of its states, with the name of an initial
    state; a machine without such a state has none. *)
Lemma initial_value i :
  (L (CInitial i) = 0 /\
     forall p m q s, is_machine p m -> has_state m q s -> is_initial s = true -> i <> m_idx m) \/
  exists p m q s, is_machine p m /\ has_state m q s /\ is_initial s = true /\ i = m_idx m /\
    L (CInitial i) = s_idx s.
Proof.
  rewrite Hlook. destruct (assign_cases whole_log f (CInitial i)) as [[-> Hn]|Hin].
  - left. split; [done|]. intros p m q s Hm Hs Hi ->. apply (Hn (s_idx s)), writes_initial. by exists p, m, q, s.
  - right. apply writes_initial in Hin as (p & m & q & s & Hm & Hs & Hi & Ei & Ev). by exists p, m, q, s.
Qed.
End values.
End read.

(** * The table of children

    The pass that writes the 0-terminated groups of children: every machine has the
    group of its states and child machines. *)

Section kids.
Context (N : Z) (HN : 0 < N < 2 ^ 31) (g : smheap) (order : list Z).
Context (Hio : indices_ok g order N) (Hd : distinct_ok g order).

(** The numbers of states and of machines. *)
Definition sidx (q : Z) : Z := match h_states g !! q with Some s => s_idx s | None => 0 end.
Definition midx (p : Z) : Z := match h_machines g !! p with Some m => m_idx m | None => 0 end.

(** The numbers of what is directly inside a machine. *)
Definition members (p : Z) : list Z :=
  match h_machines g !! p with
  | Some m => map sidx (m_states m) ++ map midx (m_children m)
  | None => []
  end.

Definition group_of (p : Z) : list Z := midx p :: members p ++ [0].

Definition groups (l : list Z) : list Z := concat (map group_of l).

Lemma push_child_run x c :
  on_tables (push_child x) c = Ok tt (with_c_ctx (with_children (children (c_ctx c) ++ [x]) (c_ctx c)) c).
Proof. done. Qed.

Lemma with_children_twice v v' c : with_children v (with_children v' c) = with_children v c.
Proof. done. Qed.

(** Pushing the numbers of a list of objects. *)
Lemma push_all (push : Z -> M cstate unit) (num : Z -> Z) l :
  (forall q c, q ∈ l -> erase (c_heap c) = g ->
     push q c = Ok tt (with_c_ctx (with_children (children (c_ctx c) ++ [num q]) (c_ctx c)) c)) ->
  forall c, erase (c_heap c) = g ->
  forM l push c = Ok tt (with_c_ctx (with_children (children (c_ctx c) ++ map num l) (c_ctx c)) c).
Proof.
  induction l as [|q l IH]; intros Hp c Hc; cbn [forM map].
  { rewrite app_nil_r. by destruct c as [? [] ? ? ? ? ? ?]. }
  rewrite (bind_Ok _ _ _ _ _ (Hp q c ltac:(by left) Hc)), IH; [|intros; apply Hp; [by right|done]|done].
  cbn. by rewrite <- app_assoc.
Qed.

Lemma set_children_run p c :
  p ∈ order -> erase (c_heap c) = g -> Z.of_nat (length (state_to_children (c_ctx c))) = N + 1 ->
  set_children p c = Ok tt (with_c_ctx
    (with_children (children (c_ctx c) ++ group_of p)
      (with_state_to_children
        (<[Z.to_nat (midx p) := Z.of_nat (length (children (c_ctx c)))]> (state_to_children (c_ctx c)))
        (c_ctx c))) c).
Proof.
  intros Hp Hc Hl. destruct (io_machine _ _ _ Hio p Hp) as (m & Hm & Hi).
  assert (Hst := fun q => io_state _ _ _ Hio p m q Hp Hm).
  assert (Hch := fun q => io_child _ _ _ Hio p m q Hp Hm).
  assert (Emp : midx p = m_idx m) by (unfold midx; by rewrite Hm).
  unfold group_of. rewrite Emp. unfold members. rewrite Hm.
  destruct (erased_machine g c p m Hc Hm) as (m' & Hm' & <-).
  unfold set_children. rewrite (bind_Ok _ _ _ _ _ (sm_at_run _ _ _ Hm')). unfold gets. rewrite bind_unfold.
  set (n := Z.of_nat (length (children (c_ctx c)))).
  set (v := <[Z.to_nat (m_idx m') := n]> (state_to_children (c_ctx c))).
  rewrite (bind_Ok _ _ _ tt (with_c_ctx (with_state_to_children v (c_ctx c)) c)).
  2:{ unfold on_tables, zoom, vset. cbn in Hi. by rewrite zinsert_Some by lia. }
  rewrite (bind_Ok _ _ _ _ _ (push_child_run _ _)).
  erewrite bind_Ok.
  2:{ apply (push_all _ sidx); [|exact Hc]. intros q c1 Hq Hc1. destruct (Hst q Hq) as (s & Hs & _). rewrite <- (erased_state g c1 q Hc1) in Hs.
      rewrite (bind_Ok _ _ _ _ _ (state_at_run _ _ _ Hs)), push_child_run. unfold sidx.
      by rewrite <- (erased_state g c1 q Hc1), Hs. }
  erewrite bind_Ok.
  2:{ apply (push_all _ midx); [|exact Hc]. intros q c1 Hq Hc1. destruct (io_machine _ _ _ Hio q (Hch q Hq)) as (ch & Hq' & _).
      destruct (erased_machine g c1 q ch Hc1 Hq') as (ch' & Hch' & <-).
      rewrite (bind_Ok _ _ _ _ _ (sm_at_run _ _ _ Hch')), push_child_run. unfold midx. by rewrite Hq'. }
  rewrite push_child_run. cbn. by rewrite <- !app_assoc.
Qed.

Lemma set_children_all l : forall c,
  (forall p, p ∈ l -> p ∈ order) -> NoDup l -> erase (c_heap c) = g ->
  Z.of_nat (length (state_to_children (c_ctx c))) = N + 1 ->
  exists v, forM l set_children c = Ok tt (with_c_ctx
      (with_children (children (c_ctx c) ++ groups l) (with_state_to_children v (c_ctx c))) c) /\
    Z.of_nat (length v) = N + 1 /\
    (forall i, (forall p, p ∈ l -> i <> midx p) -> entry v i = entry (state_to_children (c_ctx c)) i) /\
    (forall l1 p l2, l = l1 ++ p :: l2 ->
       entry v (midx p) = Z.of_nat (length (children (c_ctx c)) + length (groups l1))).
Proof.
  induction l as [|p l IH]; intros c Hsub Hnd Hc Hl; cbn [forM].
  { exists (state_to_children (c_ctx c)). unfold groups. cbn [map concat]. rewrite app_nil_r.
    split; [by destruct c as [? [] ? ? ? ? ? ?]|]. split; [done|]. split; [done|]. by intros []. }
  apply NoDup_cons in Hnd as [Hp Hnd]. assert (Hpo : p ∈ order) by (apply Hsub; by left).
  rewrite (bind_Ok _ _ _ _ _ (set_children_run p c Hpo Hc Hl)).
  match goal with |- context [forM l set_children ?d] => destruct (IH d) as (v & Hr & Hv & Hother & Hstart) end;
    [intros; apply Hsub; by right|done|done|cbn; by rewrite length_insert|].
  cbn in Hr, Hother, Hstart. exists v. split; [|split; [done|split]].
  - rewrite Hr. unfold groups. cbn [map concat]. by rewrite <- app_assoc.
  - intros i Hi. rewrite Hother by (intros; apply Hi; by right).
    destruct (io_machine _ _ _ Hio p Hpo) as (m & Hm & Hmi).
    assert (Hmp : midx p = m_idx m) by (unfold midx; by rewrite Hm).
    rewrite entry_insert by (rewrite Hmp; lia).
    rewrite decide_False; [done|]. apply Hi. by left.
  - intros [|p' l1] q l2 [= <- El].
    + rewrite Hother.
      * destruct (io_machine _ _ _ Hio p Hpo) as (m & Hm & Hmi).
        assert (Hmp : midx p = m_idx m) by (unfold midx; by rewrite Hm).
        rewrite entry_insert by (rewrite Hmp; lia). rewrite decide_True by done. cbn. lia.
      * intros p1 Hp1 E. assert (Hp1o : p1 ∈ order) by (apply Hsub; by right).
        destruct (io_machine _ _ _ Hio p Hpo) as (m & Hm & _), (io_machine _ _ _ Hio p1 Hp1o) as (m1 & Hm1 & _).
        unfold midx in E. rewrite Hm, Hm1 in E.
        assert (p = p1) as <- by (by apply (dn_machines _ _ Hd p p1 m m1)). done.
    + rewrite (Hstart l1 q l2 El). unfold groups. cbn [map concat]. rewrite !length_app. lia.
Qed.

(** ** Reading the groups *)

Lemma until0_app body rest : Forall (fun x => x <> 0) body -> until0 (body ++ 0 :: rest) = Some body.
Proof.
  induction 1 as [|x body Hx Hb IH]; [done|]. cbn. apply Z.eqb_neq in Hx. by rewrite Hx, IH.
Qed.

Lemma members_nonzero p : p ∈ order -> Forall (fun x => 0 < x <= N) (members p).
Proof.
  intros Hp. destruct (io_machine _ _ _ Hio p Hp) as (m & Hm & _). unfold members. rewrite Hm.
  apply Forall_app. split; apply Forall_forall; intros x (q & -> & Hq)%list_elem_of_fmap.
  - destruct (io_state _ _ _ Hio p m q Hp Hm Hq) as (s & Hs & ?). unfold sidx. by rewrite Hs.
  - destruct (io_machine _ _ _ Hio q (io_child _ _ _ Hio p m q Hp Hm Hq)) as (ch & Hch & ?).
    unfold midx. by rewrite Hch.
Qed.

Lemma group_at l1 p l2 :
  p ∈ order -> group (groups (l1 ++ p :: l2)) (Z.of_nat (length (groups l1)) + 1) = Some (members p).
Proof.
  intros Hp. unfold group. destruct (_ <? 0) eqn:E; zbool; [lia|]. clear E.
  replace (Z.to_nat _) with (length (groups l1) + 1)%nat by lia.
  unfold groups. rewrite map_app, concat_app. cbn [map concat]. rewrite drop_app_add. cbn [app drop group_of].
  rewrite <- app_assoc. apply until0_app. eapply Forall_impl; [by apply members_nonzero|]. intros x Hx. cbv beta in Hx |- *. lia.
Qed.

(** The first group. *)
Lemma group_first l p : p ∈ order -> group (groups (p :: l)) 1 = Some (members p).
Proof. intros Hp. exact (group_at [] p l Hp). Qed.
End kids.
