(* ===== verification/CompileSpec.v ===== *)
(** * CompileSpec: the compiler produces well-formed tables

    The passes of compute_state_and_event_ids put together: numbers, parents, flags,
    initial states and children of the compiled tables are those of the machines, and
    the tables satisfy what the theorems on the execution engine assume. *)

From S2P Require Import Prelude MachineInt VMEnv VMTable Ast ExecCtx ExecLoop AsmMacros Asm VMAst Guards Machines Names Compile.
From S2P Require Import ExecCtxSpec EnterExit EnteredSpec TraverseSpec NumberSpec TablesSpec.

(** ** Scripts *)

(** The machines of a script: no machine contains itself, states belong to one machine,
    a machine is a child of at most one machine, and there are less than 2^31 objects. *)
Record script_ok (h : smheap) (rank : Z -> nat) (fuel : nat) (roots : list Z) : Prop := {
  sc_acyclic : acyclic h rank;
  sc_states : states_ok h;
  sc_roots : Forall (fun r => is_Some (h_machines h !! r) /\ (rank r < fuel)%nat) roots;
  sc_child p1 p2 m1 m2 q : h_machines h !! p1 = Some m1 -> h_machines h !! p2 = Some m2 ->
    q ∈ m_children m1 -> q ∈ m_children m2 -> p1 = p2;
  sc_size : Z.of_nat (size (h_machines h) + size (h_states h)) < 2 ^ 31
}.

Section numbered.
Context `{StdSortLaws}.
Context (h : smheap) (rank : Z -> nat) (fuel : nat) (roots order : list Z).
Context (Hsc : script_ok h rank fuel roots) (Hor : order_ok h roots order).

(** The heap after the numbering, without the transitions. *)
Definition numbered_erased : smheap := erase (numbered_heap h (numbering h order)).
Definition largest : Z := Z.of_nat (length (numbering h order)).

Lemma numbered_machine_inv p m :
  h_machines numbered_erased !! p = Some m ->
  exists m0, h_machines h !! p = Some m0 /\ m_states m = m_states m0 /\ m_children m = m_children m0 /\
    m_cover m = m_cover m0 /\
    (p ∈ order -> exists i, numbering h order !! i = Some (inl p) /\ m_idx m = 1 + Z.of_nat i).
Proof.
  unfold numbered_erased, erase. cbn. rewrite lookup_fmap.
  change (map_imap _ (h_machines h)) with (h_machines (numbered_heap h (numbering h order))).
  rewrite numbered_machine_lookup. destruct (h_machines h !! p) as [m0|] eqn:Em; [|done]. cbn. intros [= <-].
  exists m0. split; [done|]. unfold numbered_machine.
  destruct (index_of (inl p) (numbering h order)) as [i|] eqn:E.
  - split; [done|]. split; [done|]. split; [done|]. intros _. apply index_of_Some in E. by exists i.
  - split; [done|]. split; [done|]. split; [done|]. intros Hp. exfalso.
    apply index_of_None in E. apply E, (elem_of_numbering h (sc_states _ _ _ _ Hsc)). left. exists p. by rewrite Em.
Qed.

Lemma numbered_state_inv q s :
  h_states numbered_erased !! q = Some s ->
  exists s0, h_states h !! q = Some s0 /\ s_id s = s_id s0 /\
    (forall p m, p ∈ order -> h_machines h !! p = Some m -> q ∈ m_states m ->
      exists i, numbering h order !! i = Some (inr q) /\ s_idx s = 1 + Z.of_nat i).
Proof.
  unfold numbered_erased, erase. cbn.
  change (map_imap _ (h_states h)) with (h_states (numbered_heap h (numbering h order))).
  rewrite numbered_state_lookup. destruct (h_states h !! q) as [s0|] eqn:Es; [|done]. cbn. intros [= <-].
  exists s0. split; [done|]. unfold numbered_state.
  destruct (index_of (inr q) (numbering h order)) as [i|] eqn:E.
  - split; [done|]. intros p m _ _ _. apply index_of_Some in E. by exists i.
  - split; [done|]. intros p m Hp Hm Hq. exfalso.
    apply index_of_None in E. apply E, (elem_of_numbering h (sc_states _ _ _ _ Hsc)). right. by exists p, m, q.
Qed.

Lemma children_in_order p m q : p ∈ order -> h_machines h !! p = Some m -> q ∈ m_children m -> q ∈ order.
Proof.
  intros Hp Hm Hq. apply (or_reached _ _ _ Hor) in Hp as (r & Hr & Hreach). apply (or_reached _ _ _ Hor).
  exists r. split; [done|]. eapply rtc_r; [exact Hreach|].
  destruct (ac_succs _ _ (sc_acyclic _ _ _ _ Hsc) p (mk_is_Some _ _ Hm)) as (ks & Hks & _).
  exists ks. split; [done|]. unfold succs, machine_shape in Hks. rewrite Hm in Hks. cbn in Hks.
  destruct (mapM (state_shape h) (m_states m)); [|done]. cbn in Hks. injection Hks as <-.
  apply elem_of_app. by right.
Qed.

Lemma indices_numbered : indices_ok numbered_erased order largest.
Proof.
  split.
  - intros p Hp. destruct (or_exists _ _ _ Hor p Hp) as [m0 Hm0].
    assert (exists m, h_machines numbered_erased !! p = Some m) as [m Hm].
    { unfold numbered_erased, erase. cbn. rewrite lookup_fmap, map_lookup_imap, Hm0. by eexists. }
    exists m. split; [done|]. destruct (numbered_machine_inv p m Hm) as (? & _ & _ & _ & _ & Hi).
    destruct (Hi Hp) as (i & Hi' & ->). apply lookup_lt_Some in Hi'. unfold largest. lia.
  - intros p m q Hp Hm Hq. destruct (numbered_machine_inv p m Hm) as (m0 & Hm0 & Es & _ & _ & _).
    rewrite Es in Hq. destruct (so_exists _ (sc_states _ _ _ _ Hsc) p m0 q Hm0 Hq) as [s0 Hs0].
    assert (exists s, h_states numbered_erased !! q = Some s) as [s Hs].
    { unfold numbered_erased, erase. cbn. rewrite map_lookup_imap, Hs0. by eexists. }
    exists s. split; [done|]. destruct (numbered_state_inv q s Hs) as (? & _ & _ & Hi).
    destruct (Hi p m0 Hp Hm0 Hq) as (i & Hi' & ->). apply lookup_lt_Some in Hi'. unfold largest. lia.
  - intros p m q Hp Hm Hq. destruct (numbered_machine_inv p m Hm) as (m0 & Hm0 & _ & Ec & _ & _).
    rewrite Ec in Hq. by apply (children_in_order p m0).
Qed.

Lemma distinct_numbered : distinct_ok numbered_erased order.
Proof.
  split.
  - intros p1 p2 m1 m2 Hp1 Hp2 Hm1 Hm2 E.
    destruct (numbered_machine_inv p1 m1 Hm1) as (_ & _ & _ & _ & _ & H1), (numbered_machine_inv p2 m2 Hm2) as (_ & _ & _ & _ & _ & H2).
    destruct (H1 Hp1) as (i1 & Hi1 & E1), (H2 Hp2) as (i2 & Hi2 & E2).
    assert (i1 = i2) as <- by lia. congruence.
  - intros p1 p2 m1 m2 q1 q2 s1 s2 Hp1 Hp2 Hm1 Hm2 Hq1 Hq2 Hs1 Hs2 E.
    destruct (numbered_machine_inv p1 m1 Hm1) as (n1 & Hn1 & Es1 & _), (numbered_machine_inv p2 m2 Hm2) as (n2 & Hn2 & Es2 & _).
    rewrite Es1 in Hq1. rewrite Es2 in Hq2.
    destruct (numbered_state_inv q1 s1 Hs1) as (_ & _ & _ & H1), (numbered_state_inv q2 s2 Hs2) as (_ & _ & _ & H2).
    destruct (H1 p1 n1 Hp1 Hn1 Hq1) as (i1 & Hi1 & E1), (H2 p2 n2 Hp2 Hn2 Hq2) as (i2 & Hi2 & E2).
    assert (i1 = i2) as <- by lia. assert (q1 = q2) as <- by congruence. split; [|done].
    by apply (so_owner _ (sc_states _ _ _ _ Hsc) p1 n1 p2 n2 q1).
  - intros p1 p2 m1 m2 q s Hp1 Hp2 Hm1 Hm2 Hq Hs E.
    destruct (numbered_machine_inv p1 m1 Hm1) as (_ & _ & _ & _ & _ & H1), (numbered_machine_inv p2 m2 Hm2) as (n2 & Hn2 & Es2 & _).
    rewrite Es2 in Hq. destruct (numbered_state_inv q s Hs) as (_ & _ & _ & H2).
    destruct (H1 Hp1) as (i1 & Hi1 & E1), (H2 p2 n2 Hp2 Hn2 Hq) as (i2 & Hi2 & E2).
    assert (i1 = i2) as <- by lia. congruence.
  - intros p1 p2 m1 m2 q _ _ Hm1 Hm2 Hq1 Hq2.
    destruct (numbered_machine_inv p1 m1 Hm1) as (n1 & Hn1 & _ & Ec1 & _), (numbered_machine_inv p2 m2 Hm2) as (n2 & Hn2 & _ & Ec2 & _).
    rewrite Ec1 in Hq1. rewrite Ec2 in Hq2. by apply (sc_child _ _ _ _ Hsc p1 p2 n1 n2 q).
Qed.

Lemma largest_bound : 0 <= largest < 2 ^ 31.
Proof.
  split; [unfold largest; lia|]. eapply Z.le_lt_trans; [|exact (sc_size _ _ _ _ Hsc)].
  unfold largest. apply Nat2Z.inj_le.
  pose (objs := map inl (map fst (map_to_list (h_machines h))) ++ map inr (map fst (map_to_list (h_states h))) : list object).
  assert (Hl : length objs = (size (h_machines h) + size (h_states h))%nat).
  { unfold objs. rewrite length_app, !length_map. by rewrite !length_map_to_list. }
  rewrite <- Hl. apply submseteq_length, NoDup_submseteq.
  - apply numbering_NoDup; [apply Hsc|apply Hor].
  - intros o Ho. apply (elem_of_numbering h (sc_states _ _ _ _ Hsc)) in Ho.
    assert (Hdom : forall A (m : gmap Z A) k x, m !! k = Some x -> k ∈ map fst (map_to_list m)).
    { intros A m k x Hk. apply list_elem_of_fmap. exists (k, x). split; [done|]. by apply elem_of_map_to_list. }
    unfold objs. apply elem_of_app. destruct Ho as [(p & _ & [m Hm] & ->)|(p & m & q & _ & Hm & Hq & ->)].
    + left. apply list_elem_of_fmap. exists p. split; [done|]. by eapply Hdom.
    + right. destruct (so_exists _ (sc_states _ _ _ _ Hsc) p m q Hm Hq) as [s Hs].
      apply list_elem_of_fmap. exists q. split; [done|]. by eapply Hdom.
Qed.
End numbered.

(** ** What the passes leave alone *)

(** The part of the tables the theorems are about. *)
Definition core_of (c : ectx) :=
  (number_of_states c, parent_vec c, inf_vec c, initial_state c, final_state c, join_states c,
   children c, state_to_children c, start_of_covering_states c, current_states c).

(** The heap is [g] but for transitions, and the core of the tables is [x]. *)
Definition at_core (g : smheap) (x : ectx) (c : cstate) : Prop :=
  erase (c_heap c) = g /\ core_of (c_ctx c) = core_of x.

Lemma keeps_traverse_sms I f fuel sms :
  (forall x, keeps I (f x) anything) -> keeps I (traverse_sms f fuel sms) anything.
Proof.
  intros Hf. assert (Ht : forall n m sm, keeps I (traverse_sm f n m sm) anything).
  { induction n as [|n IH]; intros m sm; cbn [traverse_sm]; [apply keeps_fuel|]. frame. }
  unfold traverse_sms. frame.
Qed.

Section cores.
Context (g : smheap) (x : ectx).

Lemma erase_transitions (h : smheap) p m ts :
  h_machines h !! p = Some m ->
  erase (with_h_machines (<[p := with_m_transitions ts m]> (h_machines h)) h) = erase h.
Proof.
  intros Hm. unfold erase, with_h_machines. cbn. f_equal. rewrite fmap_insert.
  apply insert_id. by rewrite lookup_fmap, Hm.
Qed.

Lemma at_core_transitions p ts : keeps (at_core g x) (on_heap (sm_upd p (with_m_transitions ts))) anything.
Proof.
  intros c [Hc Hx]. destruct (h_machines (c_heap c) !! p) as [m|] eqn:Em.
  - rewrite (sm_upd_run _ _ _ _ Em). split; [|done]. split; [|done]. cbn. by rewrite erase_transitions.
  - unfold on_heap, zoom, sm_upd, sm_at, bind. by rewrite Em.
Qed.

Lemma at_core_tables {A} (m : M ectx A) :
  (forall y, keeps (fun z => core_of z = y) m anything) -> keeps (at_core g x) (on_tables m) anything.
Proof.
  intros Hm c [Hc Hx]. unfold on_tables, zoom. specialize (Hm _ (c_ctx c) Hx).
  destruct (m (c_ctx c)); [|done..]. by destruct Hm.
Qed.

Lemma core_modify (f : ectx -> ectx) :
  (forall z, core_of (f z) = core_of z) -> forall y, keeps (fun z => core_of z = y) (modify f) anything.
Proof. intros Hf y z Hz. split; [by rewrite Hf|done]. Qed.

Lemma core_assoc i v y : keeps (fun z => core_of z = y) (set_assoc_sm i v) anything.
Proof.
  intros z Hz. unfold set_assoc_sm, grow_and_set, modify, vset, bind.
  destruct (_ <? _); destruct (zinsert _ _ _); done.
Qed.
End cores.

#[local] Hint Extern 1 (keeps (at_core _ _) (on_heap (sm_upd _ _)) _) => apply at_core_transitions : frame.
#[local] Hint Extern 0 (keeps (at_core _ _) (on_tables (modify _)) _) =>
  apply at_core_tables, core_modify; intros []; try done; cbn; by case_match : frame.
#[local] Hint Extern 0 (keeps (at_core _ _) (on_tables (set_assoc_sm _ _)) _) =>
  apply at_core_tables, core_assoc : frame.

Section passes.
Context `{Target} `{Ceps} `{StdSort}.
Context (ast : Z -> option node) (guards : gmap string Z) (fuel af ar : nat) (g : smheap) (x : ectx).

Lemma core_set_assoc_sms p : keeps (at_core g x) (set_assoc_sms p) anything.
Proof. unfold set_assoc_sms. frame. Qed.

Lemma core_number_events p : keeps (at_core g x) (number_events p) anything.
Proof. unfold number_events, number_event. frame. Qed.

Lemma core_link_transitions p : keeps (at_core g x) (link_transitions p) anything.
Proof.
  unfold link_transitions, link_transition, own_end, state_end, machine_end, assert_, abort. frame.
Qed.

Lemma core_foreign_holders p : keeps (at_core g x) (foreign_holders p) anything.
Proof. unfold foreign_holders. frame. Qed.

Lemma core_assemble_at text : keeps (at_core g x) (assemble_at af ar text) anything.
Proof. unfold assemble_at, run_oblectamenta_assembler. frame. Qed.
#[local] Hint Resolve core_assemble_at : frame.

Lemma core_compile_transition sm t : keeps (at_core g x) (compile_transition ast guards af ar sm t) anything.
Proof.
  unfold compile_transition, compile_guard, compile_actions, compile_slot, push_transition, assert_, abort.
  frame.
Qed.
#[local] Hint Resolve core_compile_transition : frame.

Lemma core_build_transitions_table b p :
  keeps (at_core g x) (build_transitions_table ast guards af ar b p) anything.
Proof.
  unfold build_transitions_table, insert_transitions, push_transition, assert_, abort. frame.
Qed.

Lemma core_set_names p : keeps (at_core g x) (set_names fuel p) anything.
Proof.
  unfold set_names, name_index, get_full_qualified_id. frame; apply only_reads_full_name.
Qed.

Lemma core_set_shadow_states p : keeps (at_core g x) (set_shadow_states p) anything.
Proof.
  assert (Hv : forall i v, keeps (at_core g x) (on_tables (vset shadow_state with_shadow_state i v)) anything).
  { intros i v. apply at_core_tables. intros y z Hz. unfold vset. by destruct (zinsert _ _ _). }
  unfold set_shadow_states, shadow_index, get_state_idx. frame.
Qed.

Lemma core_compute_roots : keeps (at_core g x) (on_tables (compute_roots fuel)) anything.
Proof.
  apply at_core_tables. intros y. unfold compute_roots, root_of.
  assert (Hl : forall n p, keeps (fun z => core_of z = y) (root_loop n p) anything).
  { induction n as [|n IH]; intros p; cbn [root_loop]; [apply keeps_fuel|].
    apply (keeps_bind _ _ _ anything); [|intros q _; destruct (q =? 0); [by apply keeps_ret|apply IH]].
    intros z Hz. unfold vget. by destruct (zlookup _ _). }
  frame. by apply core_modify.
Qed.
End passes.

(** ** Handlers *)

Definition handler_cell (k : cell) : Prop := exists s, k = CFlag s ENTER \/ k = CFlag s EXIT.

(** The heap is [g] but for transitions; the cells other than the ENTER and EXIT flags
    have the values [F]; [o] is what the pass over parents does not touch. *)
Record at_cells (g : smheap) (N : Z) (F : cell -> Z) (cs : list Z * list Z * list Z * Z) (c : cstate) : Prop := {
  ac_heap : erase (c_heap c) = g;
  ac_vectors : vectors_ok N (c_ctx c);
  ac_look k : ~ handler_cell k -> look (c_ctx c) k = F k;
  ac_others : (current_states (c_ctx c), children (c_ctx c), state_to_children (c_ctx c),
               start_of_covering_states (c_ctx c)) = cs
}.

Section handlers.
Context `{Target} `{Ceps} `{StdSort}.
Context (ast : Z -> option node) (af ar : nat) (g : smheap) (N : Z) (HN : 0 < N < 2 ^ 31).
Context (F : cell -> Z) (cs : list Z * list Z * list Z * Z).

(** A computation on the tables that leaves the cells alone. *)
Lemma at_cells_tables {A} (m : M ectx A) :
  (forall z, vectors_ok N z -> match m z with
     | Ok _ z' | Throw _ z' => vectors_ok N z' /\ (forall k, ~ handler_cell k -> look z' k = look z k) /\
         (current_states z', children z', state_to_children z', start_of_covering_states z')
           = (current_states z, children z, state_to_children z, start_of_covering_states z)
     | _ => True
     end) ->
  keeps (at_cells g N F cs) (on_tables m) anything.
Proof.
  intros Hm c [Hc Hv Hl Ho]. unfold on_tables, zoom. specialize (Hm _ Hv).
  assert (Hgoal : forall z', vectors_ok N z' /\ (forall k, ~ handler_cell k -> look z' k = look (c_ctx c) k) /\
         (current_states z', children z', state_to_children z', start_of_covering_states z')
           = (current_states (c_ctx c), children (c_ctx c), state_to_children (c_ctx c), start_of_covering_states (c_ctx c)) ->
         at_cells g N F cs (with_c_ctx z' c)).
  { intros z' (Hv' & Hl' & Ho'). split; [done|done| |by cbn; rewrite Ho'].
    intros k Hk. cbn. rewrite Hl' by done. by apply Hl. }
  destruct (m (c_ctx c)); [split; [by apply Hgoal|done]|by apply Hgoal|done|done].
Qed.

Lemma at_cells_grow (f : ectx -> list Z) (w : list Z -> ectx -> ectx) i v :
  (forall y z, vectors_ok N z -> vectors_ok N (w y z)) -> (forall y z k, look (w y z) k = look z k) ->
  (forall y z, (current_states (w y z), children (w y z), state_to_children (w y z), start_of_covering_states (w y z))
               = (current_states z, children z, state_to_children z, start_of_covering_states z)) ->
  keeps (at_cells g N F cs) (on_tables (grow_and_set f w i v)) anything.
Proof.
  intros H1' H2' H3'. apply at_cells_tables. intros z Hz. unfold grow_and_set, modify, bind, vset.
  destruct (_ <? _).
  - destruct (zinsert _ _ _) as [l|]; [|done]. split; [by apply H1', H1'|]. split; [|by rewrite !H3'].
    intros k _. by rewrite !H2'.
  - destruct (zinsert _ _ _) as [l|]; [|done]. split; [by apply H1'|]. split; [|by rewrite !H3'].
    intros k _. by rewrite !H2'.
Qed.

Lemma at_cells_flag i what b :
  what = ENTER \/ what = EXIT -> keeps (at_cells g N F cs) (on_tables (set_inf i what b)) anything.
Proof.
  intros Hw. apply at_cells_tables. intros z Hz. destruct (decide (0 <= i <= N)) as [Hi|Hi].
  - destruct (performs_set_inf N HN i what b Hi ltac:(by destruct Hw as [-> | ->]) z Hz) as (z' & -> & Hv & Hl & Ho).
    split; [done|]. unfold others in Ho. injection Ho as E1 E2 E3 E4 E5. split; [|by rewrite E1, E2, E3, E4].
    intros k Hk. rewrite Hl. cbn [assign]. unfold write. cbn [fst snd]. rewrite decide_False; [done|].
    intros ->. apply Hk. exists i. destruct Hw as [-> | ->]; auto.
  - assert (Hu : set_inf i what b z = Undef); [|by rewrite Hu].
    assert (Hg : forall v, sized N v -> zlookup (if Z.of_nat (length v) <? u64 N then vec_resize (N + 1) 0 v else v) i = None).
    { intros v Hv. destruct (grown_vector N HN v 0 0 Hv ltac:(lia)) as (_ & Hl & _).
      destruct (zlookup _ i) eqn:E; [|done]. apply zlookup_Some in E. lia. }
    destruct Hz as [HzN _ _ _ _ Hzi]. specialize (Hg _ Hzi). unfold set_inf, modify, bind, vget. rewrite HzN.
    destruct (_ <? u64 N); cbn [inf_vec with_inf_vec]; by rewrite Hg.
Qed.

Ltac column_kept := intros; apply at_cells_grow;
  [by intros ? ? []; split|by intros ? ? []|done].

Lemma cells_set_handlers p : keeps (at_cells g N F cs) (set_handlers ast af ar p) anything.
Proof.
  assert (E1 : forall i v, keeps (at_cells g N F cs) (on_tables (set_on_enter i v)) anything) by column_kept.
  assert (E2 : forall i v, keeps (at_cells g N F cs) (on_tables (set_on_exit i v)) anything) by column_kept.
  assert (E3 : forall i v, keeps (at_cells g N F cs) (on_tables (set_on_enter_oblectamenta i v)) anything) by column_kept.
  assert (E4 : forall i v, keeps (at_cells g N F cs) (on_tables (set_on_exit_oblectamenta i v)) anything) by column_kept.
  assert (E5 : forall what, what = ENTER \/ what = EXIT ->
    forall i, keeps (at_cells g N F cs) (on_tables (set_inf i what true)) anything)
    by (intros; by apply at_cells_flag).
  assert (E6 : forall text, keeps (at_cells g N F cs) (assemble_at af ar text) anything).
  { intros text. unfold assemble_at, run_oblectamenta_assembler. frame; apply keeps_on_asm; by intros ? ? []; split. }
  unfold set_handlers, set_handler. frame; auto; apply keeps_on_asm; by intros ? ? []; split.
Qed.
End handlers.

(** ** The whole compiler *)

Lemma keeps_Ok {S A} (I : S -> Prop) (m : M S A) Q s a s' : keeps I m Q -> I s -> m s = Ok a s' -> I s'.
Proof. intros Hm Hs Hr. specialize (Hm s Hs). rewrite Hr in Hm. by destruct Hm. Qed.

Lemma erase_shape h1 h2 : erase h1 = erase h2 -> same_shape h1 h2.
Proof.
  intros E. split.
  - intros p. unfold machine_shape.
    assert (Ep : h_machines (erase h1) !! p = h_machines (erase h2) !! p) by by rewrite E.
    pose proof (f_equal (fun o => (fun m => (m_states m, m_children m)) <$> o) Ep) as E'.
    cbn in E'. rewrite !lookup_fmap in E'.
    by destruct (h_machines h1 !! p), (h_machines h2 !! p).
  - intros q. unfold state_shape.
    assert (Ep : h_states (erase h1) = h_states (erase h2)) by by rewrite E. cbn in Ep. by rewrite Ep.
Qed.

(** Tables that have not been filled yet. *)
Definition fresh (c : ectx) : Prop :=
  (parent_vec c, inf_vec c, initial_state c, final_state c, join_states c, children c, state_to_children c)
    = ([], [], [], [], [], [], []) /\ start_of_covering_states c = SIZE_MAX.

(** The tables of the machines of [g], whose largest number is [N]. *)
Record compiled (g : smheap) (order : list Z) (N : Z) (c : ectx) : Prop := {
  cp_vectors : vectors_ok N c;
  cp_look k : ~ handler_cell k -> look c k = assign (whole_log g order) (fun _ => 0) k;
  cp_children : children c = groups g order;
  cp_starts : Z.of_nat (length (state_to_children c)) = N + 1;
  cp_other i : (forall p, p ∈ order -> i <> midx g p) -> entry (state_to_children c) i = 0;
  cp_start l1 p l2 : order = l1 ++ p :: l2 ->
    entry (state_to_children c) (midx g p) = Z.of_nat (length (groups g l1))
}.

Lemma core_compiled g order N c c' :
  core_of c' = core_of c -> compiled g order N c -> compiled g order N c'.
Proof.
  intros E [[] Hl Hch Hst Hot Hs]. unfold core_of in E. injection E as E1 E2 E3 E4 E5 E6 E7 E8 E9 E10.
  split; try (rewrite ?E7, ?E8; done).
  - split; congruence.
  - intros k Hk. rewrite <- Hl by done. unfold look, flag; by rewrite E2, E3, E4, E5, E6.
Qed.

Section compile.
Context `{Target} `{Ceps} `{StdSortLaws}.
Context (ast : Z -> option node) (guards : gmap string Z) (fuel af ar : nat).
Context (scopes : list (list (string * string))).

Lemma number_event_symbols_keeps c c' u :
  number_event_symbols scopes c = Ok u c' ->
  c_heap c' = c_heap c /\ c_ctr c' = c_ctr c /\ core_of (c_ctx c') = core_of (c_ctx c).
Proof.
  intros Hr.
  assert (K1 : keeps (fun d => c_heap d = c_heap c /\ c_ctr d = c_ctr c) (number_event_symbols scopes) anything).
  { unfold number_event_symbols. frame. }
  assert (K2 : keeps (at_core (erase (c_heap c)) (c_ctx c)) (number_event_symbols scopes) anything).
  { unfold number_event_symbols. frame. }
  destruct (keeps_Ok _ _ _ _ _ _ K1 (conj eq_refl eq_refl) Hr).
  destruct (keeps_Ok _ _ _ _ _ _ K2 (conj eq_refl eq_refl) Hr). done.
Qed.

Section stages.
Context (rank : Z -> nat) (h : smheap) (roots order : list Z).
Context (Hsc : script_ok h rank fuel roots) (Hor : order_ok h roots order).
Context (Hvo : visit_order h fuel roots = Some order).
Let g := numbered_erased h order.
Let N := largest h order.
Context (HN : 0 < N < 2 ^ 31).

Lemma shape_of_erased c : erase (c_heap c) = g -> same_shape h (c_heap c).
Proof.
  intros Hc. etrans; [apply (numbered_shape h (numbering h order))|]. apply erase_shape.
  symmetry. exact Hc.
Qed.

Lemma walk_is_loop f c :
  (forall x, keeps (shaped h) (f x) anything) -> erase (c_heap c) = g ->
  traverse_sms f fuel roots c = forM order f c.
Proof.
  intros Hf Hc. eapply traverse_sms_forM; [by apply keeps_callback|by apply shape_of_erased|exact Hvo].
Qed.

(** Numbers. *)
Lemma number_objects_ends c0 c :
  c_heap c0 = h -> number_objects fuel scopes roots c0 = Ok tt c ->
  exists x, core_of x = core_of (c_ctx c0) /\ at_core g (numbered_ctx h order x) c.
Proof.
  intros Hh Hr. unfold number_objects in Hr.
  rewrite (bind_Ok _ _ c0 tt (with_c_mmm ∅ (with_c_ctr 1 (with_c_ev_ctr 1 c0)))) in Hr by done.
  apply bind_inv_Ok in Hr as ([] & c1 & R1 & Hr). apply number_event_symbols_keeps in R1 as (Hh1 & Hctr1 & Hx1).
  cbn in Hh1, Hctr1, Hx1. rewrite Hh in Hh1.
  apply bind_inv_Ok in Hr as ([] & c2 & R2 & Hr).
  assert (H2' : c_heap c2 = h /\ c_ctr c2 = 1 /\ core_of (c_ctx c2) = core_of (c_ctx c0)).
  { unfold on_tables, zoom, modify in R2. injection R2 as <-. cbn. by rewrite <- Hx1. }
  destruct H2' as (Hh2 & Hctr2 & Hx2).
  rewrite (number_all_run h (sc_states _ _ _ _ Hsc) c2 fuel _ order Hvo (or_nodup _ _ _ Hor)) in Hr;
    [|apply Forall_forall; intros; by apply (or_exists _ _ _ Hor)|done|done].
  injection Hr as <-. by exists (c_ctx c2).
Qed.

(** The table of transitions. *)
Lemma build_rows_ends x c c' :
  at_core g x c -> build_rows ast guards fuel af ar roots c = Ok tt c' -> at_core g x c'.
Proof.
  intros Hc Hr. eapply keeps_Ok; [|exact Hc|exact Hr]. unfold build_rows, build_all_transitions.
  assert (Hw : forall f, (forall p, keeps (at_core g x) (f p) anything) ->
    keeps (at_core g x) (traverse_sms f fuel roots) anything) by (intros; by apply keeps_traverse_sms).
  assert (W1 := Hw _ (core_set_assoc_sms g x)). assert (W2 := Hw _ (core_number_events g x)).
  assert (W3 := Hw _ (core_link_transitions g x)). assert (W4 := Hw _ (core_foreign_holders g x)).
  assert (W5 := fun b => Hw _ (core_build_transitions_table ast guards af ar g x b)).
  frame; frame.
Qed.

Lemma fresh_numbered x y :
  fresh y -> core_of x = core_of y -> fresh (with_start_of_covering_states SIZE_MAX (numbered_ctx h order x)) /\
  number_of_states (numbered_ctx h order x) = N /\ current_states (numbered_ctx h order x) = current_states y /\
  start_of_covering_states (numbered_ctx h order x) = start_of_covering_states (numbered_ctx h order y).
Proof.
  intros [Hv Hcov] E. unfold core_of in E. injection E as E1 E2 E3 E4 E5 E6 E7 E8 E9 E10.
  injection Hv as V1 V2 V3 V4 V5 V6 V7.
  unfold fresh, numbered_ctx. destruct (covering h order); cbn; repeat split; congruence.
Qed.

(** A fresh context reads as zeros. *)
Lemma fresh_look c k :
  (parent_vec c, inf_vec c, initial_state c, final_state c, join_states c) = ([], [], [], [], []) -> look c k = 0.
Proof.
  intros [= V1 V2 V3 V4 V5]. unfold look, entry, flag. rewrite V1, V2, V3, V4, V5.
  assert (Hnil : forall s, zlookup (@nil Z) s = None) by (intros s; unfold zlookup; by destruct (s <? 0)).
  by destruct k; rewrite Hnil.
Qed.

(** Parents, flags, initial states, handlers. *)
Lemma parents_end c c' :
  erase (c_heap c) = g -> number_of_states (c_ctx c) = N ->
  (parent_vec (c_ctx c), inf_vec (c_ctx c), initial_state (c_ctx c), final_state (c_ctx c), join_states (c_ctx c))
    = ([], [], [], [], []) ->
  (do! traverse_sms set_parent_info fuel roots in traverse_sms (set_handlers ast af ar) fuel roots) c = Ok tt c' ->
  at_cells g N (assign (whole_log g order) (fun _ => 0))
    (current_states (c_ctx c), children (c_ctx c), state_to_children (c_ctx c), start_of_covering_states (c_ctx c)) c'.
Proof.
  intros Hg Hn Hv (u & c1 & R1 & R2)%bind_inv_Ok.
  assert (Hv8 : vectors_ok N (c_ctx c)).
  { injection Hv as V1 V2 V3 V4 V5. split; [done|..]; left; by rewrite ?V1, ?V2, ?V3, ?V4, ?V5. }
  rewrite (walk_is_loop _ c (shaped_set_parent_info h) Hg) in R1.
  destruct (performs_all N HN g order (indices_numbered h rank fuel _ order Hsc Hor) c Hg Hv8) as (x & R1' & Hvx & Hl & Ho).
  rewrite R1' in R1. injection R1 as <- <-.
  eapply keeps_Ok; [apply keeps_traverse_sms; intros p; by apply cells_set_handlers| |exact R2].
  split; [done|done| |].
  - intros k _. cbn. rewrite Hl. apply assign_ext. intros k'. by rewrite fresh_look.
  - unfold others in Ho. injection Ho as O1 O2 O3 O4 O5. cbn. by rewrite O1, O2, O3, O4.
Qed.

Lemma entry_zeros n i : entry (replicate n 0) i = 0.
Proof.
  unfold entry, zlookup. destruct (i <? 0); [done|].
  destruct (replicate _ 0 !! Z.to_nat i) eqn:E; [|done]. by apply lookup_replicate in E as [-> _].
Qed.

(** Children. *)
Lemma children_end cur cov c c' :
  at_cells g N (assign (whole_log g order) (fun _ => 0)) (cur, [], [], cov) c ->
  (do! on_tables init_state_to_children in traverse_sms set_children fuel roots) c = Ok tt c' ->
  erase (c_heap c') = g /\ compiled g order N (c_ctx c') /\
  current_states (c_ctx c') = cur /\ start_of_covering_states (c_ctx c') = cov.
Proof.
  intros [Hg Hv Hl Ho] (u & c1 & R1 & R2)%bind_inv_Ok. injection Ho as O1 O2 O3 O4.
  set (zeros := replicate (Z.to_nat (N + 1)) 0).
  assert (E1 : c1 = with_c_ctx (with_state_to_children zeros (c_ctx c)) c).
  { unfold init_state_to_children, on_tables, zoom, modify in R1. injection R1 as _ <-.
    rewrite (vo_number _ _ Hv), O3. unfold vec_resize. by rewrite take_nil, Nat.sub_0_r. }
  assert (Hz : Z.of_nat (length zeros) = N + 1) by (unfold zeros; rewrite length_replicate; lia).
  subst c1. rewrite walk_is_loop in R2; [|intros; apply shaped_set_children|done].
  destruct (set_children_all N g order (indices_numbered h rank fuel _ order Hsc Hor)
    (distinct_numbered h rank fuel _ order Hsc) order (with_c_ctx (with_state_to_children zeros (c_ctx c)) c))
    as (v & R2' & Hlv & Hother & Hstart); [done|apply Hor|done|done|].
  rewrite R2' in R2. injection R2 as <-. cbn in Hother, Hstart |- *.
  split; [done|]. split; [|done]. split; cbn.
  - destruct Hv. by split.
  - intros k Hk. transitivity (look (c_ctx c) k); [by destruct k|by apply Hl].
  - by rewrite O2.
  - done.
  - intros i Hi. rewrite Hother by done. apply entry_zeros.
  - intros l1 p l2 E. rewrite (Hstart l1 p l2 E). by rewrite O2.
Qed.

Lemma fill_tables_ends c c' :
  erase (c_heap c) = g -> number_of_states (c_ctx c) = N ->
  (parent_vec (c_ctx c), inf_vec (c_ctx c), initial_state (c_ctx c), final_state (c_ctx c), join_states (c_ctx c))
    = ([], [], [], [], []) -> children (c_ctx c) = [] -> state_to_children (c_ctx c) = [] ->
  fill_tables ast fuel af ar roots c = Ok tt c' ->
  erase (c_heap c') = g /\ compiled g order N (c_ctx c') /\
  current_states (c_ctx c') = current_states (c_ctx c) /\
  start_of_covering_states (c_ctx c') = start_of_covering_states (c_ctx c).
Proof.
  intros Hg Hn Hv Hch Hs2 Hr. unfold fill_tables in Hr. rewrite <- bind_assoc in Hr.
  apply bind_inv_Ok in Hr as ([] & c1 & R1 & R2). pose proof (parents_end c c1 Hg Hn Hv R1) as H1'.
  rewrite Hch, Hs2 in H1'. by apply (children_end _ _ c1).
Qed.

(** Names, roots, shadow states. *)
Lemma name_states_ends x c c' n : at_core g x c -> name_states fuel roots c = Ok n c' -> at_core g x c'.
Proof.
  intros Hc Hr. eapply (keeps_Ok _ _ anything); [|exact Hc|exact Hr]. unfold name_states.
  assert (Hw : forall f, (forall p, keeps (at_core g x) (f p) anything) ->
    keeps (at_core g x) (traverse_sms f fuel roots) anything) by (intros; by apply keeps_traverse_sms).
  assert (W1 := Hw _ (core_set_names fuel g x)). assert (W2 := Hw _ (core_set_shadow_states g x)).
  assert (W3 := core_compute_roots fuel g x). frame; frame.
Qed.
End stages.

Lemma compile_tables rank h sms c0 n c' :
  script_ok h rank fuel (map snd sms) -> c_heap c0 = h -> fresh (c_ctx c0) -> sms <> [] ->
  compute_state_and_event_ids ast guards fuel af ar scopes sms c0 = Ok n c' ->
  exists order, order_ok h (map snd sms) order /\
    erase (c_heap c') = numbered_erased h order /\ 0 < largest h order < 2 ^ 31 /\
    compiled (numbered_erased h order) order (largest h order) (c_ctx c') /\
    current_states (c_ctx c') = current_states (c_ctx c0) /\
    start_of_covering_states (c_ctx c') = start_of_covering_states (numbered_ctx h order (c_ctx c0)).
Proof.
  intros Hsc Hh Hfresh Hne Hr.
  destruct (visit_order_ok h rank fuel (map snd sms) (sc_acyclic _ _ _ _ Hsc) (sc_roots _ _ _ _ Hsc))
    as (order & Hvo & Hor).
  exists order. split; [done|].
  assert (HN : 0 < largest h order < 2 ^ 31).
  { pose proof (largest_bound h rank fuel _ order Hsc Hor). split; [|lia]. destruct sms as [|[k r] sms]; [done|].
    assert (Hro : r ∈ order) by (apply (or_reached _ _ _ Hor); exists r; split; [by left|done]).
    destruct (io_machine _ _ _ (indices_numbered h rank fuel _ order Hsc Hor) r Hro) as (m & _ & ?). lia. }
  unfold compute_state_and_event_ids in Hr.
  apply bind_inv_Ok in Hr as ([] & c1 & R1 & Hr). apply bind_inv_Ok in Hr as ([] & c2 & R2 & Hr).
  apply bind_inv_Ok in Hr as ([] & c3 & R3 & R4).
  destruct (number_objects_ends rank h _ order Hsc Hor Hvo c0 c1 Hh R1) as (x & Hx & H1').
  pose proof (build_rows_ends h _ order _ _ _ H1' R2) as [Hg2 Hx2].
  destruct (fresh_numbered h order x (c_ctx c0) Hfresh Hx) as ([Hf _] & Hn & Hcur & Hcov).
  remember (numbered_ctx h order x) as d eqn:Hd. clear Hd. cbn in Hf.
  unfold core_of in Hx2. injection Hx2 as E1 E2 E3 E4 E5 E6 E7 E8 E9 E10. injection Hf as V1 V2 V3 V4 V5 V6 V7.
  destruct (fill_tables_ends rank h _ order Hsc Hor Hvo HN c2 c3) as (Hg3 & Hc3 & Hcur3 & Hcov3);
    [done|congruence|congruence|congruence|congruence|done|].
  destruct (name_states_ends h (map snd sms) order (c_ctx c3) c3 c' n) as [Hg4 Hx4]; [done|done|].
  split; [done|]. split; [done|]. split; [by apply (core_compiled _ _ _ (c_ctx c3))|].
  unfold core_of in Hx4. injection Hx4 as F1 F2 F3 F4 F5 F6 F7 F8 F9 F10. split; congruence.
Qed.
End compile.
