(* ===== verification/ContainSpec.v ===== *)
(** * ContainSpec: the compiled tables are what the engine relies on

    The tables that compute_state_and_event_ids builds from the machines of a script
    satisfy the well-formedness conditions under which the theorems on the execution
    engine are stated: parents, initial states and children agree, and the nesting of
    machines is bounded. *)

From S2P Require Import Prelude MachineInt VMEnv VMTable Ast ExecCtx ExecLoop AsmMacros Asm VMAst Guards Machines Names Compile.
From S2P Require Import ExecCtxSpec EnterExit EnteredSpec TraverseSpec NumberSpec TablesSpec CompileSpec.

(** ** Tables described by the machines *)

(** What the proof needs of the numbered machines [g] besides distinct numbers: every
    number is taken, [rank] bounds the nesting, states are not machines. *)
Record nested (g : smheap) (order : list Z) (N : Z) (rank : Z -> nat) (fuel : nat) : Prop := {
  ne_all i : 0 < i <= N ->
    (exists p m, is_machine g order p m /\ i = m_idx m) \/
    (exists p m q s, is_machine g order p m /\ has_state g m q s /\ i = s_idx s);
  ne_rank p m q ch : is_machine g order p m -> has_child_sm g m q ch -> (rank q < rank p)%nat;
  ne_fuel p : p ∈ order -> (rank p < fuel)%nat
}.

Section contain.
Context (g : smheap) (order : list Z) (N : Z) (HN : 0 < N < 2 ^ 31).
Context (Hio : indices_ok g order N) (Hd : distinct_ok g order).
Context (rank : Z -> nat) (fuel : nat) (Hne : nested g order N rank fuel).
Context (c : ectx) (Hc : compiled g order N c).

Let L := assign (whole_log g order) (fun _ => 0).

Abbreviation is_machine := (is_machine g order).
Abbreviation has_state := (has_state g).
Abbreviation has_child_sm := (has_child_sm g).

Lemma midx_machine p m : is_machine p m -> midx g p = m_idx m.
Proof. intros [_ Hm]. unfold midx. by rewrite Hm. Qed.

Lemma machine_number p m : is_machine p m -> 0 < m_idx m <= N.
Proof. intros [Hp Hm]. destruct (io_machine _ _ _ Hio p Hp) as (m' & Hm' & ?). by simplify_eq. Qed.

Lemma state_number p m q s : is_machine p m -> has_state m q s -> 0 < s_idx s <= N.
Proof.
  intros [Hp Hm] [Hq Hs]. destruct (io_state _ _ _ Hio p m q Hp Hm Hq) as (s' & Hs' & ?). by simplify_eq.
Qed.

Lemma child_machine p m q ch : is_machine p m -> has_child_sm m q ch -> is_machine q ch.
Proof. intros [Hp Hm] [Hq Hch]. split; [|done]. by apply (io_child _ _ _ Hio p m). Qed.

(** *** The columns *)

Lemma par_look s : par c s = L (CParent s).
Proof. unfold L. rewrite <- (cp_look _ _ _ _ Hc) by (by intros [? [?|?]]). done. Qed.

Lemma ini_look s : ini c s = L (CInitial s).
Proof. unfold L. rewrite <- (cp_look _ _ _ _ Hc) by (by intros [? [?|?]]). done. Qed.

Lemma flag_look s what : what <> ENTER -> what <> EXIT -> flag c s what = true <-> L (CFlag s what) = 1.
Proof.
  intros H1 H2. unfold L. rewrite <- (cp_look _ _ _ _ Hc) by (by intros [? [[= _ ?]|[= _ ?]]]).
  cbn. by destruct (flag c s what).
Qed.

Lemma plain_SM : plain_flag SM.
Proof. by repeat split. Qed.

Lemma machine_SM p m : is_machine p m -> flag c (m_idx m) SM = true.
Proof.
  intros Hm. apply flag_look; [done..|].
  by rewrite (machine_flag_value g order Hd _ L (fun _ => eq_refl) (fun _ => eq_refl) p m SM Hm plain_SM).
Qed.

Lemma state_SM p m q s : is_machine p m -> has_state m q s -> flag c (s_idx s) SM = false.
Proof.
  intros Hm Hs. destruct (flag c (s_idx s) SM) eqn:E; [|done].
  apply flag_look in E; [|done..].
  by rewrite (state_flag_value g order Hd _ L (fun _ => eq_refl) (fun _ => eq_refl) p m q s SM Hm Hs plain_SM) in E.
Qed.

(** *** Children *)

Lemma start_entry i x : 0 <= i <= N -> entry (state_to_children c) i = x -> zlookup (state_to_children c) i = Some x.
Proof.
  intros Hi <-. pose proof (cp_starts _ _ _ _ Hc). unfold entry.
  destruct (zlookup_is_Some (state_to_children c) i ltac:(lia)) as [y Hy]. by rewrite Hy.
Qed.

Lemma kids_machine p m : is_machine p m -> kids c (m_idx m) = Some (members g p).
Proof.
  intros Hm. pose proof (machine_number p m Hm). pose proof (midx_machine p m Hm) as Em.
  assert (Hp := proj1 Hm). apply list_elem_of_split in Hp as (l1 & l2 & E).
  unfold kids. rewrite (start_entry _ (Z.of_nat (length (groups g l1)))); [|lia|].
  - cbn. rewrite (cp_children _ _ _ _ Hc), E. by apply (group_at N g order Hio), Hm.
  - rewrite <- Em. by eapply (cp_start _ _ _ _ Hc).
Qed.

(** Other states have the group of the first machine. *)
Lemma kids_other i p0 rest :
  order = p0 :: rest -> 0 <= i <= N -> (forall p, p ∈ order -> i <> midx g p) -> kids c i = Some (members g p0).
Proof.
  intros E Hi Hn. unfold kids. rewrite (start_entry i 0 Hi (cp_other _ _ _ _ Hc i Hn)). cbn.
  rewrite (cp_children _ _ _ _ Hc), E. apply (group_first N g order Hio). rewrite E. by left.
Qed.

Lemma order_first : exists p0 rest, order = p0 :: rest.
Proof.
  destruct order as [|p0 rest]; [|by eexists _, _]. exfalso.
  destruct (ne_all _ _ _ _ _ Hne 1 ltac:(lia)) as [(p & m & [Hp _] & _)|(p & m & q & s & [Hp _] & _)];
    by apply elem_of_nil in Hp.
Qed.

Lemma kids_any i : 0 <= i <= N ->
  exists p, p ∈ order /\ kids c i = Some (members g p) /\
    ((exists m, is_machine p m /\ i = m_idx m) \/ forall p' m, is_machine p' m -> i <> m_idx m).
Proof.
  intros Hi. destruct (decide (Exists (fun p => i = midx g p) order)) as [Hex|Hn].
  - apply Exists_exists in Hex as (p & Hp & ->). exists p. split; [done|].
    destruct (io_machine _ _ _ Hio p Hp) as (m & Hm & _). assert (Hpm : is_machine p m) by done.
    rewrite (midx_machine p m Hpm). split; [by apply kids_machine|]. left. by exists m.
  - destruct order_first as (p0 & rest & E). exists p0. split; [rewrite E; by left|].
    assert (Hno : forall p, p ∈ order -> i <> midx g p).
    { intros p Hp Ei. apply Hn, Exists_exists. by exists p. }
    split; [by eapply kids_other|]. right. intros p m Hm.
    rewrite <- (midx_machine p m Hm). apply Hno, Hm.
Qed.

Lemma members_cases p m x :
  is_machine p m -> x ∈ members g p ->
  (exists q s, has_state m q s /\ x = s_idx s) \/ (exists q ch, has_child_sm m q ch /\ x = m_idx ch).
Proof.
  intros [Hp Hm]. unfold members. rewrite Hm, elem_of_app. intros [Hx|Hx].
  - apply list_elem_of_fmap in Hx as (q & -> & Hq). left. destruct (io_state _ _ _ Hio p m q Hp Hm Hq) as (s & Hs & _).
    exists q, s. split; [done|]. unfold sidx. by rewrite Hs.
  - apply list_elem_of_fmap in Hx as (q & -> & Hq). right.
    destruct (io_machine _ _ _ Hio q (io_child _ _ _ Hio p m q Hp Hm Hq)) as (ch & Hch & _).
    exists q, ch. split; [done|]. unfold midx. by rewrite Hch.
Qed.

Lemma par_member p m x : is_machine p m -> x ∈ members g p -> par c x = m_idx m.
Proof.
  intros Hm Hx. rewrite par_look.
  destruct (members_cases p m x Hm Hx) as [(q & s & Hs & ->)|(q & ch & Hch & ->)].
  - by apply (state_parent N g order Hio Hd _ L (fun _ => eq_refl) p m q s).
  - by apply (child_parent N g order Hio Hd _ L (fun _ => eq_refl) p m q ch).
Qed.

(** The same for the objects of a heap that differs in its transitions only. *)
Lemma parents_compiled h' p m : erase h' = g -> p ∈ order -> h_machines h' !! p = Some m ->
  (forall q, q ∈ m_states m -> exists s, h_states h' !! q = Some s /\ par c (s_idx s) = m_idx m) /\
  (forall q, q ∈ m_children m -> exists ch, h_machines h' !! q = Some ch /\ par c (m_idx ch) = m_idx m).
Proof.
  intros Eg Hp Hm.
  assert (Hsts : h_states g = h_states h') by (by rewrite <- Eg).
  assert (Hms : h_machines g = with_m_transitions [] <$> h_machines h') by (by rewrite <- Eg).
  assert (Hpm : is_machine p (with_m_transitions [] m)) by (split; [done|by rewrite Hms, lookup_fmap, Hm]).
  split; intros q Hq.
  - destruct (io_state _ _ _ Hio p _ q Hp (proj2 Hpm) Hq) as (s & Hs & _). exists s. split; [by rewrite <- Hsts|].
    rewrite par_look. by apply (state_parent N g order Hio Hd _ L (fun _ => eq_refl) p (with_m_transitions [] m) q s).
  - destruct (io_machine _ _ _ Hio q (io_child _ _ _ Hio p _ q Hp (proj2 Hpm) Hq)) as (ch0 & Hch & _).
    pose proof Hch as Hch'. rewrite Hms, lookup_fmap in Hch'. destruct (h_machines h' !! q) as [ch|]; [|done].
    exists ch. split; [done|]. rewrite par_look. injection Hch' as <-.
    by apply (child_parent N g order Hio Hd _ L (fun _ => eq_refl) p (with_m_transitions [] m) q (with_m_transitions [] ch)).
Qed.

(** *** The bounds on nesting *)

(** The machine with a number. *)
Definition machine_of (i : Z) : option Z := List.find (fun p => midx g p =? i) order.

Lemma machine_of_machine p m : is_machine p m -> machine_of (m_idx m) = Some p.
Proof.
  intros Hm. unfold machine_of. destruct (List.find _ order) as [p'|] eqn:E.
  - apply find_some in E as [Hp' E]. zbool. apply list_elem_of_In in Hp'. f_equal.
    destruct (io_machine _ _ _ Hio p' Hp') as (m' & Hm' & _).
    apply (dn_machines _ _ Hd p' p m' m); try done; try apply Hm.
    by rewrite <- E, (midx_machine p' m').
  - eapply find_none in E; [|apply list_elem_of_In, Hm]. cbv beta in E.
    rewrite (midx_machine p m Hm), Z.eqb_refl in E. done.
Qed.

Lemma machine_of_other i : (forall p m, is_machine p m -> i <> m_idx m) -> machine_of i = None.
Proof.
  intros Hn. unfold machine_of. destruct (List.find _ order) as [p|] eqn:E; [|done].
  apply find_some in E as [Hp E]. zbool. apply list_elem_of_In in Hp.
  destruct (io_machine _ _ _ Hio p Hp) as (m & Hm & _). exfalso. apply (Hn p m); [done|].
  by rewrite <- E, (midx_machine p m).
Qed.

Lemma machine_of_state p m q s : is_machine p m -> has_state m q s -> machine_of (s_idx s) = None.
Proof.
  intros [Hp Hm] [Hq Hs]. apply machine_of_other. intros p' m' [Hp' Hm'] E.
  by apply (dn_mixed _ _ Hd p' p m' m q s).
Qed.

(** The height of a machine; plain states are as high as the fuel, because the code
    finds the children of the first machine under them. *)
Definition height (i : Z) : nat := match machine_of i with Some p => rank p | None => fuel end.
(** The depth under the roots. *)
Definition depth (i : Z) : nat := match machine_of i with Some p => fuel - rank p | None => S fuel end.

Lemma tables_compiled : length (inf_vec c) <> O -> Z.of_nat (length (current_states c)) = N + 1 -> tables_ok c.
Proof.
  intros Hinf Hcur. destruct (cp_vectors _ _ _ _ Hc) as [Hn _ _ _ _ Hi]. destruct Hi as [?|Hi]; [done|]. split.
  - split; [lia|]. by rewrite Hn.
  - by rewrite Hn.
  - unfold is_state. rewrite Hn. intros i Hin. destruct (kids_any i Hin) as (p & Hp & -> & _).
    exists (members g p). split; [done|]. eapply Forall_impl; [by apply (members_nonzero N g order Hio)|].
    intros x Hx. cbv beta in Hx. lia.
Qed.

Lemma nesting_compiled : nesting c height.
Proof.
  destruct (cp_vectors _ _ _ _ Hc) as [Hn _ _ _ _ _]. intros i x. unfold sub_machines. intros [Hx Hin]%list_elem_of_filter.
  assert (Hi : 0 <= i <= N).
  { pose proof (cp_starts _ _ _ _ Hc). destruct (kids c i) as [l|] eqn:E; [|by apply elem_of_nil in Hin].
    unfold kids in E. destruct (zlookup (state_to_children c) i) eqn:El; [|done]. apply zlookup_Some in El. lia. }
  destruct (kids_any i Hi) as (p & Hp & Hk & Hcase). rewrite Hk in Hin. cbn in Hin.
  destruct (io_machine _ _ _ Hio p Hp) as (m & Hm & _).
  destruct (members_cases p m x ltac:(done) Hin) as [(q & s & Hs & ->)|(q & ch & Hch & ->)].
  { by rewrite (state_SM p m q s) in Hx. }
  unfold height at 1. rewrite (machine_of_machine q ch) by (by apply (child_machine p m)).
  unfold height. destruct Hcase as [(m' & Hm' & ->)|Hno].
  - rewrite (machine_of_machine p m' Hm'). by apply (ne_rank _ _ _ _ _ Hne p m q ch).
  - rewrite (machine_of_other i Hno). apply (ne_fuel _ _ _ _ _ Hne), (child_machine p m q ch); done.
Qed.

Lemma containment_compiled :
  length (inf_vec c) <> O -> length (parent_vec c) <> O -> length (initial_state c) <> O ->
  Z.of_nat (length (current_states c)) = N + 1 -> Forall (fun x => x = 0 \/ x = 1) (current_states c) ->
  start_of_covering_states c = SIZE_MAX -> containment_ok c depth.
Proof.
  intros Hinf Hpar Hini Hcur Hbits Hcov. destruct (cp_vectors _ _ _ _ Hc) as [Hn Hps Hins _ _ _].
  assert (Hvalue : forall i, 0 <= i <= N -> par c i = 0 \/
            exists p m, is_machine p m /\ par c i = m_idx m /\ i ∈ members g p).
  { intros i Hi. rewrite par_look. unfold L.
    destruct (assign_cases (whole_log g order) (fun _ => 0) (CParent i)) as [[-> _]|Hin]; [by left|right].
    apply writes_parent in Hin as (p & m & Hm & -> & Hwhat). exists p, m. split; [done|]. split; [done|].
    unfold members. destruct Hm as [Hp Hm]. rewrite Hm, elem_of_app, !list_elem_of_fmap.
    destruct Hwhat as [(q & s & [Hq Hs] & ->)|(q & ch & [Hq Hch] & ->)].
    - left. exists q. unfold sidx. by rewrite Hs.
    - right. exists q. unfold midx. by rewrite Hch. }
  split; unfold is_state; rewrite ?Hn; try done.
  - by apply tables_compiled.
  - by destruct Hps.
  - by destruct Hins.
  - intros i Hi. destruct (Hvalue i Hi) as [->|(p & m & Hm & -> & _)]; [lia|].
    pose proof (machine_number p m Hm). lia.
  - rewrite par_look. by apply (no_parent N g order Hio _ L (fun _ => eq_refl) (fun _ => eq_refl)).
  - intros i Hi Hne0. rewrite ini_look in Hne0 |- *.
    destruct (initial_value g order _ L (fun _ => eq_refl) (fun _ => eq_refl) i) as [[H0 _]|(p & m & q & s & Hm & Hs & _ & -> & Ev)];
      [done|]. rewrite Ev. pose proof (state_number p m q s Hm Hs). split; [lia|]. rewrite par_look.
    by apply (state_parent N g order Hio Hd _ L (fun _ => eq_refl) p m q s).
  - intros i l x Hi Hreg Hk Hx. apply flag_look in Hreg; [|done..].
    destruct (region_value g order _ L (fun _ => eq_refl) (fun _ => eq_refl) i) as [E|(_ & p & m & q & ch & Hm & _ & _ & ->)];
      [lia|]. rewrite (kids_machine p m Hm) in Hk. injection Hk as <-. by apply (par_member p).
  - intros i Hi Hne0. destruct (Hvalue i Hi) as [?|(p & m & Hm & -> & Hin)]; [done|].
    unfold depth. rewrite (machine_of_machine p m Hm). pose proof (ne_fuel _ _ _ _ _ Hne p (proj1 Hm)).
    destruct (members_cases p m i Hm Hin) as [(q & s & Hs & ->)|(q & ch & Hch & ->)].
    + rewrite (machine_of_state p m q s) by done. lia.
    + rewrite (machine_of_machine q ch) by (by apply (child_machine p m)).
      pose proof (ne_rank _ _ _ _ _ Hne p m q ch Hm Hch). lia.
Qed.
End contain.

(** ** The theorem *)

Section script.
Context `{StdSortLaws}.
Context (h : smheap) (rank : Z -> nat) (fuel : nat) (roots order : list Z).
Context (Hsc : script_ok h rank fuel roots) (Hor : order_ok h roots order).

Let g := numbered_erased h order.

Lemma below_child p m q : h_machines h !! p = Some m -> q ∈ m_children m -> below_of h p q.
Proof.
  intros Hm Hq. destruct (ac_succs _ _ (sc_acyclic _ _ _ _ Hsc) p (mk_is_Some _ _ Hm)) as (ks & Hks & _).
  exists ks. split; [done|]. unfold succs, machine_shape in Hks. rewrite Hm in Hks. cbn in Hks.
  destruct (mapM (state_shape h) (m_states m)); [|done]. cbn in Hks. injection Hks as <-.
  apply elem_of_app. by right.
Qed.

Lemma rank_reached p : p ∈ order -> (rank p < fuel)%nat.
Proof.
  intros (r & Hr & Hreach)%(or_reached _ _ _ Hor). pose proof (sc_roots _ _ _ _ Hsc) as Hroots.
  rewrite Forall_forall in Hroots. destruct (Hroots r Hr) as [_ Hlt]. clear Hr.
  induction Hreach as [|x y z Hxy _ IH]; [done|]. apply IH.
  pose proof (ac_rank _ _ (sc_acyclic _ _ _ _ Hsc) x y Hxy). lia.
Qed.

Lemma numbered_objects p m0 q s0 :
  p ∈ order -> h_machines h !! p = Some m0 -> q ∈ m_states m0 -> h_states h !! q = Some s0 ->
  exists m s, is_machine g order p m /\ has_state g m q s /\ s_id s = s_id s0.
Proof.
  intros Hp Hm0 Hq Hs0. pose proof (indices_numbered h rank fuel _ order Hsc Hor) as Hio.
  destruct (io_machine _ _ _ Hio p Hp) as (m & Hm & _).
  destruct (numbered_machine_inv h rank fuel roots order Hsc p m Hm) as (m1 & Hm1 & Es & _).
  assert (m1 = m0) as -> by congruence. rewrite <- Es in Hq.
  destruct (io_state _ _ _ Hio p m q Hp Hm Hq) as (s & Hs & _). exists m, s. split; [done|]. split; [done|].
  destruct (numbered_state_inv h rank fuel roots order Hsc q s Hs) as (s1 & Hs1 & E & _). congruence.
Qed.

Lemma nested_numbered : nested g order (largest h order) rank fuel.
Proof.
  pose proof (indices_numbered h rank fuel _ order Hsc Hor) as Hio.
  pose proof (numbering_NoDup h (sc_states _ _ _ _ Hsc) order (or_nodup _ _ _ Hor)) as Hnd. split.
  - intros i Hi. unfold largest in Hi.
    destruct (lookup_lt_is_Some_2 (numbering h order) (Z.to_nat (i - 1))) as [o Ho]; [lia|].
    pose proof (list_elem_of_lookup_2 _ _ _ Ho) as Hin.
    apply (elem_of_numbering h (sc_states _ _ _ _ Hsc)) in Hin as [(p & Hp & _ & ->)|(p & m0 & q & Hp & Hm0 & Hq & ->)];
      destruct (io_machine _ _ _ Hio p Hp) as (m & Hm & _);
      destruct (numbered_machine_inv h rank fuel roots order Hsc p m Hm) as (m1 & Hm1 & Es & _ & _ & Hidx).
    + left. exists p, m. split; [done|]. destruct (Hidx Hp) as (j & Hj & ->).
      rewrite (NoDup_lookup _ _ _ _ Hnd Hj Ho). lia.
    + right. assert (m1 = m0) as -> by congruence. rewrite <- Es in Hq. destruct (io_state _ _ _ Hio p m q Hp Hm Hq) as (s & Hs & _).
      exists p, m, q, s. split; [done|]. split; [done|].
      destruct (numbered_state_inv h rank fuel roots order Hsc q s Hs) as (_ & _ & _ & Hst).
      rewrite Es in Hq. destruct (Hst p m0 Hp Hm0 Hq) as (j & Hj & ->).
      rewrite (NoDup_lookup _ _ _ _ Hnd Hj Ho). lia.
  - intros p m q ch [Hp Hm] [Hq _].
    destruct (numbered_machine_inv h rank fuel roots order Hsc p m Hm) as (m0 & Hm0 & _ & Ec & _).
    rewrite Ec in Hq. apply (ac_rank _ _ (sc_acyclic _ _ _ _ Hsc)). by apply (below_child p m0).
  - apply rank_reached.
Qed.

(** Without covering machines no state is numbered in the second round. *)
Lemma nothing_covers :
  (forall p m, p ∈ order -> h_machines h !! p = Some m -> m_cover m = false) -> covering h order = [].
Proof.
  intros Hcov. unfold covering. apply concat_nil_Forall, Forall_forall. intros l Hl.
  apply list_elem_of_fmap in Hl as (p & -> & Hp).
  unfold block. destruct (h_machines h !! p) as [m|] eqn:Em; [|done].
  unfold skip_cover. by rewrite (Hcov p m Hp Em).
Qed.
End script.

Lemma grown c k : look c k <> 0 ->
  match k with
  | CParent _ => length (parent_vec c) | CInitial _ => length (initial_state c)
  | CFinal _ => length (final_state c) | CJoin _ => length (join_states c)
  | CFlag _ _ => length (inf_vec c)
  end <> O.
Proof.
  assert (Hnil : forall v s, length v = O -> zlookup v s = @None Z).
  { intros v s ->%nil_length_inv. unfold zlookup. by destruct (s <? 0). }
  destruct k; cbn; unfold entry, flag; intros Hne Hl; by rewrite (Hnil _ _ Hl) in Hne.
Qed.

Section compile.
Context `{Target} `{Ceps} `{StdSortLaws}.

(** C2: The compiled tables are what the engine relies on: when the machines of a script
    do not contain themselves, share no states and have no covering machine, and some
    machine has an initial state, then in the tables that compute_state_and_event_ids
    writes every state and every child of a machine that can be reached has this machine as
    its parent, the initial state of a machine is one of its states, the groups of children
    of the machines with regions hold what has the machine as its parent, no chain of
    parents comes back, and the fuel that was enough for the walk bounds the nesting of the
    tables. This holds for whatever states are active. *)
Theorem compiled_tables_contain ast guards fuel af ar scopes rank h sms c0 n c' p m q s cs :
  script_ok h rank fuel (map snd sms) -> c_heap c0 = h -> fresh (c_ctx c0) ->
  (forall p m, reached h (map snd sms) p -> h_machines h !! p = Some m -> m_cover m = false) ->
  reached h (map snd sms) p -> h_machines h !! p = Some m ->
  q ∈ m_states m -> h_states h !! q = Some s -> is_initial s = true ->
  compute_state_and_event_ids ast guards fuel af ar scopes sms c0 = Ok n c' ->
  Z.of_nat (length cs) = number_of_states (c_ctx c') + 1 -> Forall (fun x => x = 0 \/ x = 1) cs ->
  let c := with_current_states cs (c_ctx c') in
  (forall p m, reached h (map snd sms) p -> h_machines (c_heap c') !! p = Some m ->
     (forall q, q ∈ m_states m -> exists s, h_states (c_heap c') !! q = Some s /\ par c (s_idx s) = m_idx m) /\
     (forall q, q ∈ m_children m -> exists ch, h_machines (c_heap c') !! q = Some ch /\ par c (m_idx ch) = m_idx m)) /\
  exists deep high : Z -> nat,
    containment_ok c deep /\ nesting c high /\ forall x, (high x <= fuel)%nat.
Proof.
  intros Hsc Hh Hfresh Hcov Hp Hm Hq Hs Hi Hr Hcs Hbits c.
  assert (Hsms : sms <> []) by (intros ->; destruct Hp as (? & Hin & _); by apply elem_of_nil in Hin).
  destruct (compile_tables ast guards fuel af ar scopes rank h sms c0 n c') as (order & Hor & Her & HN & Hcp & _ & Hst);
    [done..|].
  pose proof (indices_numbered h rank fuel _ order Hsc Hor) as Hio.
  pose proof (distinct_numbered h rank fuel _ order Hsc) as Hd.
  pose proof (nested_numbered h rank fuel _ order Hsc Hor) as Hne.
  set (g := numbered_erased h order) in *. set (N := largest h order) in *.
  assert (Hcp' : compiled g order N c) by (destruct Hcp as [[]]; by split).
  assert (Hn : number_of_states (c_ctx c') = N) by apply (cp_vectors _ _ _ _ Hcp').
  split; [intros p2 m2 Hp2 Hm2; eapply (parents_compiled g order); try done; by apply (or_reached _ _ _ Hor)|].
  destruct (numbered_objects h rank fuel _ order Hsc Hor p m q s) as (m1 & s1 & Hm1 & Hs1 & Eid);
    [by apply (or_reached _ _ _ Hor)|done..|].
  assert (Hgrown : forall k, ~ handler_cell k -> assign (whole_log g order) (fun _ => 0) k <> 0 -> look c k <> 0).
  { intros k Hk Hv. by rewrite (cp_look _ _ _ _ Hcp' k Hk). }
  pose proof (machine_number g order N Hio p m1 Hm1) as Hmi. pose proof (state_number g order N Hio p m1 q s1 Hm1 Hs1) as Hsi.
  exists (depth g order rank fuel), (height g order rank fuel). split; [|split].
  - apply (containment_compiled g order N HN Hio Hd rank fuel Hne c Hcp').
    + apply (grown c (CFlag (m_idx m1) SM)), Hgrown; [by intros [? [[=]|[=]]]|].
      by rewrite (machine_flag_value g order Hd _ _ (fun _ => eq_refl) (fun _ => eq_refl) p m1 SM Hm1 plain_SM).
    + apply (grown c (CParent (s_idx s1))), Hgrown; [by intros [? [[=]|[=]]]|].
      rewrite (state_parent N g order Hio Hd _ _ (fun _ => eq_refl) p m1 q s1 Hm1 Hs1). lia.
    + apply (grown c (CInitial (m_idx m1))), Hgrown; [by intros [? [[=]|[=]]]|].
      destruct (initial_value g order _ _ (fun _ => eq_refl) (fun _ => eq_refl) (m_idx m1))
        as [[_ Hno]|(p2 & m2 & q2 & s2 & Hm2 & Hs2 & _ & _ & ->)].
      * exfalso. apply (Hno p m1 q s1); [done|done| |done]. unfold is_initial. by rewrite Eid.
      * pose proof (state_number g order N Hio p2 m2 q2 s2 Hm2 Hs2). lia.
    + cbn. by rewrite <- Hn.
    + done.
    + cbn. rewrite Hst. unfold numbered_ctx. rewrite (nothing_covers h order); [by destruct Hfresh|].
      intros p' m' Hp'. by apply Hcov, (or_reached _ _ _ Hor).
  - by apply (nesting_compiled g order N HN Hio Hd rank fuel Hne c Hcp').
  - intros x. unfold height. destruct (machine_of g order x) as [p'|] eqn:E; [|done].
    apply find_some in E as [Hp' _]. apply list_elem_of_In in Hp'.
    pose proof (rank_reached h rank fuel _ order Hsc Hor p' Hp'). lia.
Qed.
End compile.
