(* ===== verification/ShadowSpec.v ===== *)
(** * ShadowSpec: the choice of shadow transitions

    compute_shadow_transitions gives every transition between states with shadows the
    unique most specific transition of the shadow machine that is compatible with it, and
    ends with an error when there is none. *)

From S2P Require Import Prelude MachineInt VMEnv VMTable Ast ExecCtx AsmMacros Asm Machines Compile Shadow.

(** ** What the code promises *)

(** [x] may stand behind [t]: it is abstract without event and guard, or it has the event
    of [t] and no other guard. *)
Definition stands_behind (x t : transition_t) : Prop :=
  wildcard x = true \/
  ev x = ev t /\ (script_guard x = "" \/ script_guard x = script_guard t).

(** One for an event, one for a guard. *)
Definition specificity (x : transition_t) : Z :=
  (if ev x =? 0 then 0 else 1) + (if (String.length (script_guard x) =? 0)%nat then 0 else 1).

Section spec.
Context (c : ectx).

Definition shadow_of (s : Z) : Z := default 0 (zlookup (shadow_state c) s).

(** Both ends have shadows. *)
Definition shadowed (t : transition_t) : Prop := 0 < shadow_of (from t) /\ 0 < shadow_of (to t).

(** Row [i] connects the shadows of the ends of [t] and may stand behind [t]. *)
Definition compatible (t : transition_t) (i : Z) : Prop :=
  exists x, zlookup (transitions c) i = Some x /\
    from x = shadow_of (from t) /\ to x = shadow_of (to t) /\ stands_behind x t.

Definition most_specific (t : transition_t) (i : Z) : Prop :=
  compatible t i /\ forall j, compatible t j -> j <> i ->
    specificity (row (transitions c) j) < specificity (row (transitions c) i).

(** The rows have numbers of states as their ends, numbers of events or none, and room for
    their shadow. *)
Record rows_ok : Prop := {
  ro_ev t : t ∈ transitions c -> 0 <= ev t;
  ro_ends t : t ∈ transitions c ->
    0 <= from t < Z.of_nat (length (shadow_state c)) /\ 0 <= to t < Z.of_nat (length (shadow_state c));
  ro_room : length (shadow_transitions c) = length (transitions c)
}.
End spec.

(** ** The orders *)

Lemma no_guard g : (String.length g =? 0)%nat = true <-> g = "".
Proof. rewrite Nat.eqb_eq. by destruct g. Qed.

Lemma trans_le_spec x t : trans_le x t = true <-> stands_behind x t.
Proof.
  unfold trans_le, stands_behind. destruct (wildcard x); [naive_solver|].
  destruct (Z.eqb_spec (ev x) (ev t)) as [->|Hne]; cbn; [|naive_solver].
  destruct (String.eqb_spec (script_guard x) (script_guard t)) as [Hg|Hg]; [naive_solver|].
  destruct (String.length (script_guard x) =? 0)%nat eqn:E.
  - apply no_guard in E. naive_solver.
  - split; [done|]. intros [?|[_ [Hg0|?]]]; [done| |done]. by rewrite Hg0 in E.
Qed.

Lemma wildcard_inv x : 0 <= ev x -> wildcard x = true -> ev x = 0 /\ script_guard x = "".
Proof.
  unfold wildcard. intros H [[_ He]%andb_true_iff Hg]%andb_true_iff. apply no_guard in Hg. zbool. split; [lia|done].
Qed.

(** Among the transitions that may stand behind [t] the order is the one of
    [specificity]. *)
Lemma trans_lt_specificity t x y :
  0 <= ev x -> 0 <= ev y -> stands_behind x t -> stands_behind y t ->
  trans_lt x y = (specificity x <? specificity y).
Proof.
  intros Ex Ey Hx Hy. apply eq_iff_eq_true. rewrite Z.ltb_lt. unfold trans_lt. rewrite andb_true_iff, negb_true_iff, trans_le_spec.
  assert (Hspec : forall z, specificity z = (if ev z =? 0 then 0 else 1) + (if decide (script_guard z = "") then 0 else 1)).
  { intros z. unfold specificity. destruct (String.length _ =? 0)%nat eqn:E.
    - apply no_guard in E. by rewrite decide_True.
    - rewrite decide_False; [done|]. intros E'. by rewrite E' in E. }
  assert (Heq : trans_eq x y = false <-> (ev x <> ev y \/ script_guard x <> script_guard y)).
  { unfold trans_eq. destruct (wildcard x) eqn:Wx, (wildcard y) eqn:Wy; cbn;
      [apply wildcard_inv in Wx as [-> ->], Wy as [-> ->]; naive_solver|..];
      by rewrite andb_false_iff, Z.eqb_neq, String.eqb_neq. }
  rewrite Heq, !Hspec. clear Heq Hspec. split.
  - intros [[W|[E [G|G]]] Hne].
    + apply wildcard_inv in W as [E0 G0]; [|done]. rewrite E0, (decide_True _ _ G0). cbn.
      destruct (Z.eqb_spec (ev y) 0); [|by case_decide]. rewrite decide_False; [done|]. intros G. destruct Hne; congruence.
    + rewrite E, decide_True by done. rewrite decide_False; [lia|]. destruct Hne; congruence.
    + destruct Hne; congruence.
  - intros Hlt. split; [|destruct (decide (ev x = ev y)) as [E|]; [right|by left]; intros G; rewrite E, G in Hlt; lia].
    destruct Hx as [W|[E G]]; [by left|]. destruct Hy as [W|[E' G']].
    { apply wildcard_inv in W as [E' G']; [|done]. rewrite E', (decide_True _ _ G') in Hlt. cbn in Hlt.
      destruct (ev x =? 0); case_decide; lia. }
    right. split; [congruence|]. destruct G as [G|G]; [by left|right]. destruct G' as [G'|G']; [|congruence].
    rewrite E, E', (decide_True _ _ G') in Hlt. case_decide; lia.
Qed.

(** ** The collected rows *)

Lemma foldM_at {S A B} (f : B -> A -> M S B) (g : B -> A -> B) (l : list A) b s :
  (forall b x, x ∈ l -> f b x s = Ok (g b x) s) -> foldM l f b s = Ok (foldl g b l) s.
Proof.
  revert b. induction l as [|x l IH]; intros b Hf; [done|]. cbn [foldM foldl].
  rewrite (bind_Ok _ _ _ _ _ (Hf b x ltac:(by left))). apply IH. intros b' y Hy. apply Hf. by right.
Qed.

Lemma foldl_filter {A} (p : A -> bool) l acc :
  foldl (fun r x => if p x then r ++ [x] else r) acc l = acc ++ List.filter p l.
Proof.
  revert acc. induction l as [|x l IH]; intros acc; cbn; [by rewrite app_nil_r|].
  rewrite IH. destruct (p x); [by rewrite <- app_assoc|done].
Qed.

Lemma elem_of_lfilter {A} (p : A -> bool) l x : x ∈ List.filter p l <-> x ∈ l /\ p x = true.
Proof. rewrite !list_elem_of_In. apply filter_In. Qed.

Lemma NoDup_lfilter {A} (p : A -> bool) l : NoDup l -> NoDup (List.filter p l).
Proof. rewrite !NoDup_ListNoDup. apply List.NoDup_filter. Qed.

Lemma NoDup_zrange a b : NoDup (zrange a b).
Proof. unfold zrange. apply NoDup_fmap_2; [|apply NoDup_seq]. intros x y E. lia. Qed.

Lemma collect_run n pred p (c : ectx) :
  (forall i, 0 <= i < n -> pred i c = Ok (p i) c) ->
  collect_matching_indices n pred c = Ok (List.filter p (zrange 0 n)) c.
Proof.
  intros Hp. unfold collect_matching_indices.
  rewrite (foldM_at _ (fun r i => if p i then r ++ [i] else r)).
  - by rewrite foldl_filter.
  - intros acc i Hi%elem_of_zrange. by rewrite (bind_Ok _ _ _ _ _ (Hp i ltac:(lia))).
Qed.

Lemma zlookup_elem {A} (l : list A) i x : zlookup l i = Some x -> x ∈ l.
Proof. unfold zlookup. destruct (i <? 0); [done|]. apply list_elem_of_lookup_2. Qed.

Section run.
Context `{StdSortLaws} (state_name_of event_name_of : Z -> string).
Context (c0 : ectx) (Hok : rows_ok c0).

Let ts := transitions c0.
Let n := Z.of_nat (length ts).
(** A context that differs from [c0] in the shadows only. *)
Let same (c : ectx) := exists v, c = with_shadow_transitions v c0.

Lemma row_at i : 0 <= i < n -> zlookup ts i = Some (row ts i) /\ row ts i ∈ ts.
Proof.
  intros Hi. unfold row. destruct (zlookup_is_Some ts i Hi) as [x E]. rewrite E. split; [done|].
  by eapply zlookup_elem.
Qed.

Lemma vget_row c i : same c -> 0 <= i < n -> vget transitions i c = Ok (row ts i) c.
Proof. intros [v ->] Hi. unfold vget. cbn. fold ts. by rewrite (proj1 (row_at i Hi)). Qed.

Lemma vget_shadow c s : same c -> 0 <= s < Z.of_nat (length (shadow_state c0)) ->
  vget shadow_state s c = Ok (shadow_of c0 s) c.
Proof.
  intros [v ->] Hs. unfold vget, shadow_of. cbn.
  by destruct (zlookup_is_Some (shadow_state c0) s Hs) as [x ->].
Qed.

Definition matches (t : transition_t) (i : Z) : bool :=
  (from (row ts i) =? shadow_of c0 (from t)) && (to (row ts i) =? shadow_of c0 (to t)).

Definition candidates (t : transition_t) : list Z :=
  List.filter (fun i => trans_le (row ts i) t) (List.filter (matches t) (zrange 0 n)).

Lemma elem_of_candidates t i : i ∈ candidates t <-> compatible c0 t i.
Proof.
  unfold candidates, compatible. rewrite !elem_of_lfilter, elem_of_zrange, trans_le_spec. unfold matches.
  rewrite andb_true_iff, !Z.eqb_eq. fold ts. split.
  - intros [[Hi [Hf Ht]] Hs]. exists (row ts i). split; [by apply row_at|done].
  - intros (x & Hx & ? & ? & ?). unfold row. rewrite Hx. cbn. split; [|done]. split; [|done].
    by apply zlookup_Some in Hx.
Qed.

Lemma compatible_run c t : same c -> t ∈ ts -> compute_compatible_transitions t c = Ok (candidates t) c.
Proof.
  intros Hc Ht. destruct (ro_ends _ Hok t Ht) as [Hf Hd]. unfold compute_compatible_transitions.
  rewrite (bind_Ok _ _ _ _ _ (vget_shadow c _ Hc Hf)), (bind_Ok _ _ _ _ _ (vget_shadow c _ Hc Hd)).
  rewrite (bind_Ok _ _ _ n c) by (by destruct Hc as [v ->]).
  erewrite bind_Ok; [|apply (collect_run n _ (matches t))]; cycle 1.
  { intros i Hi. by rewrite (bind_Ok _ _ _ _ _ (vget_row c i Hc Hi)). }
  rewrite (foldM_at _ (fun r i => if trans_le (row ts i) t then r ++ [i] else r)).
  - by rewrite foldl_filter.
  - intros acc i [Hi%elem_of_zrange _]%elem_of_lfilter. by rewrite (bind_Ok _ _ _ _ _ (vget_row c i Hc ltac:(lia))).
Qed.

(** ** The best candidate *)

Lemma candidate_facts t i : t ∈ ts -> i ∈ candidates t -> 0 <= ev (row ts i) /\ stands_behind (row ts i) t.
Proof.
  intros Ht Hi. split; [|by apply elem_of_lfilter in Hi as [_ ?%trans_le_spec]].
  apply (ro_ev _ Hok), row_at. apply elem_of_lfilter in Hi as [[Hi _]%elem_of_lfilter _].
  apply elem_of_zrange in Hi. lia.
Qed.

Definition less (i j : Z) : bool := trans_lt (row ts i) (row ts j).
Definition height (i : Z) : Z := specificity (row ts i).

Lemma less_height t i j : t ∈ ts -> i ∈ candidates t -> j ∈ candidates t -> less i j = (height i <? height j).
Proof.
  intros Ht Hi Hj. destruct (candidate_facts t i Ht Hi), (candidate_facts t j Ht Hj).
  by apply (trans_lt_specificity t).
Qed.

Lemma greater_height t i j : t ∈ ts -> i ∈ candidates t -> j ∈ candidates t ->
  trans_gt (row ts i) (row ts j) = (height j <? height i).
Proof.
  intros Ht Hi Hj. rewrite <- (less_height t) by done. unfold less, trans_gt, trans_lt. do 2 f_equal.
  unfold trans_eq. by rewrite (Z.eqb_sym (ev (row ts i))), (String.eqb_sym (script_guard (row ts i))), (andb_comm (wildcard (row ts i))).
Qed.

Lemma less_weak t : t ∈ ts -> strict_weak less (candidates t).
Proof.
  intros Ht. assert (E := less_height t). repeat split.
  - intros i Hi. rewrite E by done. apply Z.ltb_irrefl.
  - intros i j k Hi Hj Hk. rewrite !E, !Z.ltb_lt by done. lia.
  - intros i j k Hi Hj Hk. rewrite !E, !Z.ltb_ge by done. lia.
Qed.

Lemma StronglySorted_last {A} (R : A -> A -> Prop) l x :
  Sorting.Sorted.StronglySorted R (l ++ [x]) -> Sorting.Sorted.StronglySorted R l /\ forall y, y ∈ l -> R y x.
Proof.
  induction l as [|z l IH]; cbn; [intros; split; [constructor|by intros ? ?%elem_of_nil]|].
  intros Hs. inversion Hs as [|? ? Hs' Hf]; subst. destruct (IH Hs') as [H1 H2].
  rewrite Stdlib.Lists.List.Forall_forall in Hf.
  assert (Hin : forall y, y ∈ l ++ [x] -> R z y) by (intros; by apply Hf, list_elem_of_In). split.
  - constructor; [done|]. apply Stdlib.Lists.List.Forall_forall. intros y Hy. apply Hin, elem_of_app. left. by apply list_elem_of_In.
  - intros y [->|Hy]%elem_of_cons; [|by apply H2]. apply Hin, elem_of_app. right. by left.
Qed.

(** The two best candidates come last. *)
Lemma best_two t : t ∈ ts -> (2 <= length (candidates t))%nat ->
  exists i j rest, reverse (std_sort less (candidates t)) = i :: j :: rest /\ i <> j /\
    i ∈ candidates t /\ j ∈ candidates t /\
    forall k, k ∈ candidates t -> k <> i -> height k <= height j /\ height j <= height i.
Proof.
  intros Ht Hl. pose proof (std_sort_perm less _ (less_weak t Ht)) as Hp.
  pose proof (std_sort_sorted less _ (less_weak t Ht)) as Hs.
  assert (Hnd : NoDup (std_sort less (candidates t))) by (rewrite Hp; apply NoDup_lfilter, NoDup_lfilter, NoDup_zrange).
  set (l := std_sort less (candidates t)) in *.
  destruct (reverse l) as [|i [|j rest]] eqn:E.
  - apply (f_equal length) in E. rewrite length_reverse, Hp in E. cbn in E. lia.
  - apply (f_equal length) in E. rewrite length_reverse, Hp in E. cbn in E. lia.
  - apply (f_equal reverse) in E. rewrite reverse_involutive, !reverse_cons in E.
    assert (Hi : i ∈ candidates t) by (rewrite <- Hp, E; set_solver).
    assert (Hj : j ∈ candidates t) by (rewrite <- Hp, E; set_solver).
    exists i, j, rest. rewrite E in Hs, Hnd. apply StronglySorted_last in Hs as [Hs Hmax].
    apply StronglySorted_last in Hs as [_ Hmax'].
    assert (Hle : forall x y, x ∈ candidates t -> y ∈ candidates t -> less y x = false -> height x <= height y).
    { intros x y Hx Hy. rewrite (less_height t), Z.ltb_ge by done. done. }
    split; [done|]. split; [|split; [done|split; [done|]]].
    + intros ->. apply NoDup_app in Hnd as (_ & Hnd & _). apply (Hnd j); [set_solver|by left].
    + intros k Hk Hne. split; [|apply Hle, Hmax; [done|done|set_solver]].
      destruct (decide (k = j)) as [->|Hkj]; [done|]. apply Hle, Hmax'; [done|done|].
      rewrite <- Hp, E in Hk. set_solver.
Qed.

Lemma shadow_error_run c t what : same c -> t ∈ ts ->
  exists msg, shadow_error state_name_of event_name_of t what c = Throw (Fatal (-1) msg) c.
Proof.
  intros Hc Ht. destruct (ro_ends _ Hok t Ht) as [Hf Hd]. eexists. unfold shadow_error.
  by rewrite (bind_Ok _ _ _ _ _ (vget_shadow c _ Hc Hf)), (bind_Ok _ _ _ _ _ (vget_shadow c _ Hc Hd)).
Qed.

Lemma best_run c t : same c -> t ∈ ts ->
  (exists i, best_candidate state_name_of event_name_of t (candidates t) c = Ok i c /\ most_specific c0 t i) \/
  (exists msg, best_candidate state_name_of event_name_of t (candidates t) c = Throw (Fatal (-1) msg) c /\
     forall i, ~ most_specific c0 t i).
Proof.
  intros Hc Ht. unfold most_specific. fold ts. setoid_rewrite <- elem_of_candidates. unfold best_candidate.
  pose proof (best_two t Ht) as Htwo. pose proof (greater_height t) as Hgt. destruct (candidates t) as [|a [|b l]] eqn:E.
  - right. destruct (shadow_error_run c t "requires a compatible transition " Hc Ht) as [msg Hm].
    exists msg. split; [exact Hm|]. intros i [Hi _]. by apply elem_of_nil in Hi.
  - left. exists a. split; [done|]. split; [by left|]. intros j Hj Hne. by apply list_elem_of_singleton in Hj.
  - destruct Htwo as (i & j & rest & Er & Hij & Hi & Hj & Hmax); [cbn; lia|].
    rewrite (bind_Ok _ _ _ ts c) by (by destruct Hc as [v ->]). fold less. rewrite Er, Hgt by done.
    destruct (height j <? height i) eqn:Eh; zbool.
    + left. exists i. split; [done|]. split; [done|]. intros k Hk Hne. specialize (Hmax k Hk Hne). unfold height in *. lia.
    + right. destruct (shadow_error_run c t " is ambiguous, there are multiple transitions of the form " Hc Ht) as [msg Hm].
      exists msg. split; [exact Hm|]. intros k [Hk Hbest]. destruct (decide (k = i)) as [->|Hne].
      * specialize (Hbest j Hj ltac:(congruence)). unfold height in *. lia.
      * specialize (Hmax k Hk Hne). specialize (Hbest i Hi ltac:(congruence)). unfold height in *. lia.
Qed.

(** ** The loop over the shadowed rows *)

Definition is_shadowed (i : Z) : bool :=
  (shadow_of c0 (from (row ts i)) >? 0) && (shadow_of c0 (to (row ts i)) >? 0).

Definition shadowed_rows : list Z := List.filter is_shadowed (zrange 0 n).

Lemma shadowed_run :
  collect_matching_indices n (fun i =>
    let! x := vget transitions i in
    let! f := vget shadow_state (from x) in
    if f >? 0 then let! d := vget shadow_state (to x) in ret (d >? 0) else ret false) c0 = Ok shadowed_rows c0.
Proof.
  assert (Hc : same c0) by (exists (shadow_transitions c0); by destruct c0).
  apply collect_run. intros i Hi. destruct (row_at i Hi) as [_ Ht]. destruct (ro_ends _ Hok _ Ht) as [Hf Hd].
  rewrite (bind_Ok _ _ _ _ _ (vget_row c0 i Hc Hi)), (bind_Ok _ _ _ _ _ (vget_shadow c0 _ Hc Hf)).
  unfold is_shadowed. destruct (_ >? 0); [|done]. by rewrite (bind_Ok _ _ _ _ _ (vget_shadow c0 _ Hc Hd)).
Qed.

Definition set_shadow (st : Z) : M ectx unit :=
  let! t := vget transitions st in
  let! candidates := compute_compatible_transitions t in
  let! best := best_candidate state_name_of event_name_of t candidates in
  vset shadow_transitions with_shadow_transitions st best.

(** After the rows [l]: their shadows are written, the others as in [v]. *)
Lemma set_shadows_run l : forall v,
  length v = length ts -> NoDup l -> (forall i, i ∈ l -> 0 <= i < n) ->
  match forM l set_shadow (with_shadow_transitions v c0) with
  | Ok _ c => exists v', c = with_shadow_transitions v' c0 /\ length v' = length ts /\
      (forall i, i ∉ l -> zlookup v' i = zlookup v i) /\
      (forall i, i ∈ l -> exists b, zlookup v' i = Some b /\ most_specific c0 (row ts i) b)
  | Throw e _ => (exists msg, e = Fatal (-1) msg) /\
      exists i, i ∈ l /\ forall b, ~ most_specific c0 (row ts i) b
  | _ => False
  end.
Proof.
  induction l as [|i l IH]; intros v Hv Hnd Hl; cbn [forM].
  { exists v. split; [done|]. split; [done|]. split; [done|]. by intros i ?%elem_of_nil. }
  apply NoDup_cons in Hnd as [Hi Hnd]. assert (Hin : 0 <= i < n) by (apply Hl; by left).
  set (c := with_shadow_transitions v c0). assert (Hc : same c) by (by exists v).
  destruct (row_at i Hin) as [_ Ht]. unfold set_shadow at 1. rewrite !bind_assoc.
  rewrite (bind_Ok _ _ _ _ _ (vget_row c i Hc Hin)). rewrite !bind_assoc.
  rewrite (bind_Ok _ _ _ _ _ (compatible_run c _ Hc Ht)). rewrite !bind_assoc.
  destruct (best_run c _ Hc Ht) as [(b & Hr & Hb)|(msg & Hr & Hb)]; rewrite bind_unfold, Hr.
  2:{ split; [by exists msg|]. exists i. split; [by left|done]. }
  rewrite (bind_Ok _ _ _ tt (with_shadow_transitions (<[Z.to_nat i := b]> v) c0)).
  2:{ unfold vset. rewrite zinsert_Some; [done|]. cbn. rewrite Hv. done. }
  specialize (IH (<[Z.to_nat i := b]> v)). rewrite length_insert in IH.
  specialize (IH Hv Hnd ltac:(intros; apply Hl; by right)).
  destruct (forM l set_shadow _) as [[] c'|e c'| |]; [|destruct IH as [? (j & ? & ?)]; split; [done|]; exists j; split; [by right|done]|done..].
  destruct IH as (v' & -> & Hv' & Hother & Hset). exists v'. split; [done|]. split; [done|]. split.
  - intros j Hj. apply not_elem_of_cons in Hj as [Hne Hj]. rewrite Hother by done. apply zlookup_insert_ne; [lia|congruence].
  - intros j [->|Hj]%elem_of_cons; [|by apply Hset]. exists b. split; [|done]. rewrite Hother by done.
    apply zlookup_insert_eq. rewrite Hv. done.
Qed.
End run.

(** C26: A transition between states with shadows gets as its shadow the one transition
    between the shadows that may stand behind it (it is abstract without event and guard,
    or it has the same event and the same guard or none) and is more specific than all
    others that may; other transitions keep the shadow they have, and nothing else
    changes. The function ends with the error -1 exactly when some transition has no such
    shadow, because none may stand behind it or because the most specific ones are
    equally specific. *)
Theorem shadow_transitions_correct `{StdSortLaws} state_name_of event_name_of c :
  rows_ok c ->
  match compute_shadow_transitions state_name_of event_name_of c with
  | Ok _ c' => exists v, c' = with_shadow_transitions v c /\ length v = length (transitions c) /\
      forall i t, zlookup (transitions c) i = Some t ->
        (shadowed c t -> exists b, zlookup v i = Some b /\ most_specific c t b) /\
        (~ shadowed c t -> zlookup v i = zlookup (shadow_transitions c) i)
  | Throw e _ => (exists msg, e = Fatal (-1) msg) /\
      exists i t, zlookup (transitions c) i = Some t /\ shadowed c t /\ forall b, ~ most_specific c t b
  | _ => False
  end.
Proof.
  intros Hok. unfold compute_shadow_transitions.
  rewrite (bind_Ok _ _ _ (Z.of_nat (length (transitions c))) c) by done.
  rewrite (bind_Ok _ _ _ _ _ (shadowed_run c Hok)).
  assert (Hl : forall i, i ∈ shadowed_rows c <->
    0 <= i < Z.of_nat (length (transitions c)) /\ shadowed c (row (transitions c) i)).
  { intros i. unfold shadowed_rows, is_shadowed, shadowed. rewrite elem_of_lfilter, elem_of_zrange, andb_true_iff, !Z.gtb_lt. done. }
  pose proof (set_shadows_run state_name_of event_name_of c Hok (shadowed_rows c) (shadow_transitions c) (ro_room _ Hok)
    (NoDup_lfilter _ _ (NoDup_zrange _ _)) ltac:(by intros i [? _]%Hl)) as Hrun.
  replace (with_shadow_transitions (shadow_transitions c) c) with c in Hrun by (by destruct c).
  unfold set_shadow in Hrun. destruct (forM _ _ c) as [[] c'|e c'| |]; [| |done..].
  - destruct Hrun as (v & -> & Hv & Hother & Hset). exists v. split; [done|]. split; [done|].
    intros i t Ei. assert (Er : row (transitions c) i = t) by (unfold row; by rewrite Ei).
    pose proof (zlookup_Some _ _ _ Ei). split; intros Hs.
    + rewrite <- Er in *. apply Hset, Hl. done.
    + apply Hother. intros [_ Hs']%Hl. by rewrite Er in Hs'.
  - destruct Hrun as (He & i & [Hi Hs]%Hl & Hno). split; [done|]. exists i, (row (transitions c) i).
    split; [|done]. destruct (zlookup_is_Some (transitions c) i Hi) as [x Ex]. unfold row. by rewrite Ex.
Qed.
