(* ===== verification/CompileExample.v ===== *)
(** * CompileExample: a script compiled

    A concrete sorting function and a concrete allocator, and the machines of a small
    script carried from the objects the front end builds to the tables. The witnesses of
    the theorems on the compiler use it. At the end: what the pass over the ends of
    transitions does with a target in another machine. *)

From S2P Require Import Prelude MachineInt VMEnv VMTable Ast ExecCtx ExecLoop AsmMacros Asm VMAst VMSpec Guards Machines Names Link Compile Shadow.
From S2P Require Import ExecCtxSpec EnterExit EnteredSpec TraverseSpec NumberSpec TablesSpec CompileSpec ContainSpec ShadowSpec.

(** ** A sorting function *)

Section sort.
Context {A : Type} (lt : A -> A -> bool).

Fixpoint insert_sorted (x : A) (l : list A) : list A :=
  match l with
  | [] => [x]
  | y :: l' => if lt x y then x :: l else y :: insert_sorted x l'
  end.

Definition insertion_sort (l : list A) : list A := foldr insert_sorted [] l.

Lemma insert_sorted_perm x l : Permutation (insert_sorted x l) (x :: l).
Proof.
  induction l as [|y l IH]; [done|]. cbn. destruct (lt x y); [done|].
  rewrite IH. constructor.
Qed.

Lemma insertion_sort_perm l : Permutation (insertion_sort l) l.
Proof. induction l as [|x l IH]; [done|]. cbn. by rewrite insert_sorted_perm, IH. Qed.

Lemma insert_sorted_sorted x l u :
  strict_weak lt u -> x ∈ u -> (forall y, y ∈ l -> y ∈ u) ->
  Sorting.Sorted.StronglySorted (fun x y => lt y x = false) l ->
  Sorting.Sorted.StronglySorted (fun x y => lt y x = false) (insert_sorted x l).
Proof.
  intros (Hirr & Htrans & Hnot) Hx Hl Hs. induction Hs as [|y l Hs IH Hy]; cbn.
  { repeat constructor. }
  assert (Hyu : y ∈ u) by (apply Hl; by left).
  assert (Hlu : forall z, z ∈ l -> z ∈ u) by (intros; apply Hl; by right).
  rewrite Stdlib.Lists.List.Forall_forall in Hy.
  destruct (lt x y) eqn:E; constructor.
  - by constructor; [|apply Stdlib.Lists.List.Forall_forall].
  - assert (Hxy : lt y x = false).
    { destruct (lt y x) eqn:E'; [|done]. by rewrite <- (Hirr x Hx), (Htrans x y x). }
    apply Stdlib.Lists.List.Forall_forall. intros z [<-|Hz]; [done|].
    specialize (Hy z Hz). apply list_elem_of_In in Hz. by apply (Hnot z y x); [apply Hlu| | | |].
  - by apply IH.
  - apply Stdlib.Lists.List.Forall_forall. intros z Hz.
    apply (Permutation_in z (insert_sorted_perm x l)) in Hz as [<-|Hz]; [done|by apply Hy].
Qed.

Lemma insertion_sort_sorted l :
  strict_weak lt l -> Sorting.Sorted.StronglySorted (fun x y => lt y x = false) (insertion_sort l).
Proof.
  intros Hw. assert (Hsub : forall x, x ∈ l -> x ∈ l) by done. revert Hsub. generalize l at 1 3 as k.
  induction k as [|x k IH]; intros Hsub; cbn; [constructor|].
  apply (insert_sorted_sorted x _ l); [done|apply Hsub; by left| |apply IH; intros; apply Hsub; by right].
  intros y Hy. apply Hsub. right. apply list_elem_of_In. apply list_elem_of_In in Hy.
  by apply (Permutation_in y (insertion_sort_perm k)).
Qed.
End sort.

#[export] Instance insertion_sort_inst : StdSort := { std_sort := @insertion_sort }.

#[export] Instance insertion_sort_laws : StdSortLaws.
Proof. split; intros; [apply insertion_sort_perm|by apply insertion_sort_sorted]. Qed.

(** ** An allocator: the next address is free *)

Definition above {A} (m : gmap Z A) : Z := map_fold (fun p _ b => Z.max (p + 1) b) 1 m.

Lemma above_spec {A} (m : gmap Z A) : 0 < above m /\ forall p, is_Some (m !! p) -> p < above m.
Proof.
  apply (map_fold_weak_ind (fun b m => 0 < b /\ forall p, is_Some (m !! p) -> p < b) (fun p _ b => Z.max (p + 1) b)).
  - split; [done|]. intros p [? Hp]. by rewrite lookup_empty in Hp.
  - intros i x m' b _ [Hb Hp]. split; [lia|]. intros p. destruct (decide (i = p)) as [<-|Hne]; [lia|].
    rewrite lookup_insert_ne by done. intros H. apply Hp in H. lia.
Qed.

#[export] Instance next_address : Allocator := {
  machine_address h := above (h_machines h);
  state_address h := above (h_states h)
}.

#[export] Instance next_address_laws : AllocatorLaws.
Proof.
  assert (Hf : forall A (m : gmap Z A), m !! above m = None /\ above m <> 0).
  { intros A m. destruct (above_spec m) as [Hpos Hlt]. split; [|lia].
    destruct (m !! above m) eqn:E; [|done]. specialize (Hlt (above m) (mk_is_Some _ _ E)). lia. }
  split; intros h; apply Hf.
Qed.

(** ** Two scripts *)

#[local] Existing Instance test_platform.
#[local] Existing Instance test_ceps.

Definition no_machines : smheap := mkHeap ∅ ∅ [] 0 ∅.

Definition on_event (a b : list string) (ev : string) : mtransition :=
  with_t_events [ev] (transition_of (state_of_q_id a) (state_of_q_id b)).

Definition add_states (sm : Z) (ids : list string) : M smheap unit :=
  forM ids (fun id => insert_state sm (state_of_id id)).

(** Machine [A] with the states [Initial] and [s], and inside it the region [B] with the
    states [Initial] and [x]. *)
Definition build_nested : M smheap unit :=
  let! a := new_sm (new_machine 0 "A" 0 1) in
  do! set_statemachine "A" a in
  let! b := new_sm (with_m_is_thread true (new_machine 1 "B" a 2)) in
  do! set_statemachine "A.B" b in
  do! add_states a ["Initial"; "s"] in
  do! add_states b ["Initial"; "x"] in
  do! sm_upd a (fun m => with_m_children [b] (with_m_transitions [on_event ["Initial"] ["s"] "go"] m)) in
  do! sm_upd b (with_m_transitions [on_event ["Initial"] ["x"] "go"]) in
  link 10 [].

(** Two machines that both have a state [x]; [A] has a transition to [B.x]. *)
Definition build_foreign : M smheap unit :=
  let! a := new_sm (new_machine 0 "A" 0 1) in
  do! set_statemachine "A" a in
  let! b := new_sm (new_machine 1 "B" 0 1) in
  do! set_statemachine "B" b in
  do! add_states a ["Initial"; "s"; "x"] in
  do! add_states b ["Initial"; "x"] in
  do! sm_upd a (with_m_transitions [on_event ["Initial"] ["s"] "go"; on_event ["s"] ["B"; "x"] "jump"]) in
  link 10 [].

Definition heap_of (m : M smheap unit) : smheap :=
  match m no_machines with Ok _ h => h | _ => no_machines end.

Definition compiler_of (h : smheap) : cstate :=
  mkCstate h executionloop_context_init (mkAsm vm0 []) (mkGuards ∅ 0) 0 0 [] ∅.

Definition compile (h : smheap) : outcome cstate Z :=
  compute_state_and_event_ids (fun _ => None) ∅ 10 10 10 [] (statemachines h) (compiler_of h).

(** ** A decision procedure for scripts *)

Section check.
Context (h : smheap) (rank : Z -> nat) (fuel : nat) (roots : list Z).

Definition machines_list : list (Z * machine) := map_to_list (h_machines h).

Definition exists_machine (p : Z) : bool := bool_decide (is_Some (h_machines h !! p)).

Definition check_machine (pm : Z * machine) : bool :=
  match succs h pm.1 with
  | Some ks => forallb (fun k => exists_machine k && (rank k <? rank pm.1)%nat) ks
  | None => false
  end && bool_decide (NoDup (m_states pm.2)) &&
  forallb (fun q => bool_decide (is_Some (h_states h !! q))) (m_states pm.2).

Definition apart (f : machine -> list Z) (x y : Z * machine) : bool :=
  (x.1 =? y.1) || forallb (fun q => bool_decide (q ∉ f y.2)) (f x.2).

Definition check_script : bool :=
  forallb check_machine machines_list &&
  forallb (fun qs => negb (s_is_sm qs.2)) (map_to_list (h_states h)) &&
  forallb (fun x => forallb (fun y => apart m_states x y && apart m_children x y) machines_list) machines_list &&
  forallb (fun r => exists_machine r && (rank r <? fuel)%nat) roots &&
  (Z.of_nat (size (h_machines h) + size (h_states h)) <? 2 ^ 31).

Lemma apart_spec f x y q : apart f x y = true -> q ∈ f x.2 -> q ∈ f y.2 -> x.1 = y.1.
Proof.
  unfold apart. intros [E|E]%orb_true_iff Hx Hy; [by apply Z.eqb_eq|].
  rewrite forallb_forall in E. apply list_elem_of_In in Hx. specialize (E q Hx). by apply bool_decide_eq_true in E.
Qed.

Lemma check_script_ok : check_script = true -> script_ok h rank fuel roots.
Proof.
  unfold check_script. rewrite !andb_true_iff, !forallb_forall. intros ((((Hm & Hs) & Ha) & Hr) & Hz).
  assert (Hin : forall p m, h_machines h !! p = Some m -> In (p, m) machines_list).
  { intros p m E. by apply list_elem_of_In, elem_of_map_to_list. }
  assert (Hcheck : forall p m, h_machines h !! p = Some m ->
    (exists ks, succs h p = Some ks /\ forall k, k ∈ ks -> is_Some (h_machines h !! k) /\ (rank k < rank p)%nat) /\
    NoDup (m_states m) /\ forall q, q ∈ m_states m -> is_Some (h_states h !! q)).
  { intros p m E. specialize (Hm _ (Hin p m E)). unfold check_machine in Hm. cbn [fst snd] in Hm.
    apply andb_true_iff in Hm as [[H1 H2]%andb_true_iff H3]. rewrite forallb_forall in H3.
    apply bool_decide_eq_true in H2. split; [|split; [done|]].
    - destruct (succs h p) as [ks|]; [|done]. exists ks. split; [done|]. intros k Hk. rewrite forallb_forall in H1.
      apply list_elem_of_In in Hk. apply H1 in Hk as [Hk1 Hk2]%andb_true_iff.
      apply bool_decide_eq_true in Hk1. apply Nat.ltb_lt in Hk2. done.
    - intros q Hq. apply list_elem_of_In in Hq. by apply H3, bool_decide_eq_true in Hq. }
  assert (Hapart : forall f p1 p2 m1 m2 q, h_machines h !! p1 = Some m1 -> h_machines h !! p2 = Some m2 ->
    (f = m_states \/ f = m_children) -> q ∈ f m1 -> q ∈ f m2 -> p1 = p2).
  { intros f p1 p2 m1 m2 q E1 E2 Hf H1 H2. specialize (Ha _ (Hin p1 m1 E1)). rewrite forallb_forall in Ha.
    specialize (Ha _ (Hin p2 m2 E2)). apply andb_true_iff in Ha as [A1 A2].
    destruct Hf as [-> | ->]; [apply (apart_spec _ _ _ q A1)|apply (apart_spec _ _ _ q A2)]; done. }
  split.
  - split.
    + intros p [m E]. destruct (Hcheck p m E) as [(ks & Hks & Hk) _]. exists ks. split; [done|].
      apply Forall_forall. intros k Hin'. by apply Hk.
    + intros p k (ks & Hks & Hin'). destruct (h_machines h !! p) as [m|] eqn:E.
      * destruct (Hcheck p m E) as [(ks' & Hks' & Hk) _]. simplify_eq. by apply Hk.
      * unfold succs, machine_shape in Hks. by rewrite E in Hks.
  - split.
    + intros p m E. by destruct (Hcheck p m E) as (_ & ? & _).
    + intros q s E. apply negb_true_iff, (Hs (q, s)), list_elem_of_In. by apply elem_of_map_to_list.
    + intros p m q E. destruct (Hcheck p m E) as (_ & _ & Hq). apply Hq.
    + intros p1 m1 p2 m2 q E1 E2. apply (Hapart m_states p1 p2 m1 m2 q E1 E2). by left.
  - apply Forall_forall. intros r Hin'. apply list_elem_of_In, Hr in Hin'. apply andb_true_iff in Hin' as [H1 H2].
    apply bool_decide_eq_true in H1. by apply Nat.ltb_lt in H2.
  - intros p1 p2 m1 m2 q E1 E2. apply (Hapart m_children p1 p2 m1 m2 q E1 E2). by right.
  - by apply Z.ltb_lt.
Qed.
End check.

Lemma all_machines h (f : machine -> bool) :
  forallb (fun pm => f pm.2) (machines_list h) = true -> forall p m, h_machines h !! p = Some m -> f m = true.
Proof.
  rewrite forallb_forall. intros Hall p m E. apply (Hall (p, m)), list_elem_of_In. by apply elem_of_map_to_list.
Qed.

(** *** The nested script *)

Definition nested_heap : smheap := heap_of build_nested.
Definition nested_rank (p : Z) : nat := if p =? 1 then 1%nat else 0%nat.

Lemma nested_script_ok : script_ok nested_heap nested_rank 10 (map snd (statemachines nested_heap)).
Proof. apply check_script_ok. vm_compute. reflexivity. Qed.

(** State [s] of machine [A] and the region [B] with [B.x] are active. *)
Definition some_active : list Z := [0; 1; 0; 1; 1; 0; 1].

Lemma compiled_tables_contain_witness :
  match compile nested_heap with
  | Ok _ c' =>
    let c := with_current_states some_active (c_ctx c') in
    (forall p m, reached nested_heap (map snd (statemachines nested_heap)) p -> h_machines (c_heap c') !! p = Some m ->
       (forall q, q ∈ m_states m -> exists s, h_states (c_heap c') !! q = Some s /\ par c (s_idx s) = m_idx m) /\
       (forall q, q ∈ m_children m -> exists ch, h_machines (c_heap c') !! q = Some ch /\ par c (m_idx ch) = m_idx m)) /\
    exists deep high : Z -> nat,
      containment_ok c deep /\ nesting c high /\ forall x, (high x <= 10)%nat
  | _ => False
  end.
Proof.
  destruct (compile nested_heap) as [n c'|e c'| |] eqn:E;
    [|exfalso; assert (match compile nested_heap with Ok _ _ => True | _ => False end) by (vm_compute; done); by rewrite E in *..].
  assert (En : number_of_states (c_ctx c') = 6).
  { assert (H : match compile nested_heap with Ok _ c => number_of_states (c_ctx c) | _ => 0 end = 6) by (vm_compute; reflexivity).
    by rewrite E in H. }
  pose proof nested_script_ok as Hok.
  destruct (h_machines nested_heap !! 1) as [m|] eqn:Em; [|by vm_compute in Em].
  destruct (h_states nested_heap !! 1) as [s|] eqn:Es; [|by vm_compute in Es].
  apply (compiled_tables_contain (fun _ => None) ∅ 10 10 10 [] nested_rank nested_heap (statemachines nested_heap)
           (compiler_of nested_heap) n c' 1 m 1 s some_active).
  - exact Hok.
  - reflexivity.
  - vm_compute. split; reflexivity.
  - intros p m' _ Hm'. apply negb_true_iff.
    apply (all_machines nested_heap (fun m => negb (m_cover m))) with p; [vm_compute; reflexivity|exact Hm'].
  - exists 1. split; [vm_compute; left|constructor].
  - exact Em.
  - assert (H : m_states <$> h_machines nested_heap !! 1 = Some [1; 2]) by (vm_compute; reflexivity).
    rewrite Em in H. injection H as ->. left.
  - exact Es.
  - assert (H : is_initial <$> h_states nested_heap !! 1 = Some true) by (vm_compute; reflexivity).
    rewrite Es in H. injection H as ->. reflexivity.
  - exact E.
  - rewrite En. reflexivity.
  - repeat constructor; lia.
Defined.

(** The walk that numbers states, over the nested script. *)
Lemma walk_visits_once_witness :
  exists order, NoDup order /\ (forall x, x ∈ order <-> reached nested_heap [1; 2] x) /\
    traverse_sms set_assoc_sms 10 [1; 2] (compiler_of nested_heap)
      = forM order set_assoc_sms (compiler_of nested_heap).
Proof.
  apply (walk_visits_once nested_heap nested_rank 10 [1; 2] set_assoc_sms (compiler_of nested_heap)).
  - apply nested_script_ok.
  - exact (sc_roots _ _ _ _ nested_script_ok).
  - apply keeps_callback. intros x. apply shaped_set_assoc_sms.
  - split; intros; reflexivity.
Defined.


(** ** Shadow transitions *)

Definition edge (p a b e : Z) : transition_t :=
  mkTransition p 0 0 a b e (-1) true false 0 0 no_action no_action no_action "".

(** A transition on event 5 from state 1 to state 2, whose shadows are 3 and 4; between
    the shadows, an abstract transition and one on the same event. *)
Definition shadow_ctx : ectx :=
  with_shadow_transitions [-1; -1; -1] (with_shadow_state [0; 3; 4; 0; 0]
    (with_transitions [edge 0 1 2 5; edge TRANS_PROP_ABSTRACT 3 4 0; edge 0 3 4 5] executionloop_context_init)).

Lemma shadow_ctx_ok : rows_ok shadow_ctx.
Proof.
  split; [| |done]; cbn; intros t Ht;
    repeat (apply elem_of_cons in Ht as [->|Ht]; [cbn; lia|]); by apply elem_of_nil in Ht.
Qed.

(** Both rows may stand behind the transition; the one on the event is more specific. *)
Lemma shadow_transitions_correct_witness : most_specific shadow_ctx (edge 0 1 2 5) 2.
Proof.
  pose proof (shadow_transitions_correct (fun _ => "") (fun _ => "") shadow_ctx shadow_ctx_ok) as Hs.
  destruct (compute_shadow_transitions _ _ shadow_ctx) as [u c'|e c'| |] eqn:E; [|by vm_compute in E..].
  destruct Hs as (v & -> & _ & Hv).
  assert (Ev : v = [2; -1; -1]).
  { apply (f_equal (fun r => match r with Ok _ c => shadow_transitions c | _ => [] end)) in E. cbn in E.
    rewrite <- E. vm_compute. reflexivity. }
  destruct (Hv 0 (edge 0 1 2 5) eq_refl) as [Hsh _]. destruct Hsh as (b & Hb & Hbest); [vm_compute; split; reflexivity|].
  rewrite Ev in Hb. injection Hb as <-. exact Hbest.
Defined.

(** * Numbers of the ends of transitions

    The pass of compute_state_and_event_ids that gives the ends of the transitions the
    numbers of states compares names only: what it does with a target in another
    machine. *)

(** The first state of a machine with a name. *)
Definition state_called (h : smheap) (owner : Z) (id : string) : option mstate :=
  match h_machines h !! owner with
  | Some m => head (List.filter (fun s => String.eqb id (s_id s)) (omap (fun q => h_states h !! q) (m_states m)))
  | None => None
  end.

Lemma state_end_run owner s h s' h' :
  state_end owner s h = Ok s' h' ->
  h' = h /\ 0 < s_idx s' /\ s_idx s' = default (s_idx s) (s_idx <$> state_called h owner (s_id s)).
Proof.
  unfold state_end, state_called, sm_at. intros (m & h1 & H1 & Hr)%bind_inv_Ok.
  destruct (h_machines h !! owner) as [m0|]; [|done]. injection H1 as -> ->.
  apply bind_inv_Ok in Hr as (st & h2 & Hf & Hr).
  assert (Hst : h2 = h1 /\ (q ← st; h_states h1 !! q) =
    head (List.filter (fun x => String.eqb (s_id s) (s_id x)) (omap (fun q => h_states h1 !! q) (m_states m)))).
  { revert Hf. generalize (m_states m) as l. induction l as [|q l IH]; cbn [findM]; [by intros [= <- <-]|].
    intros (b & h3 & Hb & Hf)%bind_inv_Ok. apply bind_inv_Ok in Hb as (x & h4 & Hx & Hb).
    unfold state_at in Hx. destruct (h_states h1 !! q) as [x0|] eqn:Eq; [|done]. injection Hx as -> ->.
    injection Hb as <- <-. cbn. rewrite Eq. cbn. destruct (String.eqb _ _); [|by apply IH].
    injection Hf as <- <-. cbn. by rewrite Eq. }
  destruct Hst as [-> Hst]. rewrite <- Hst.
  apply bind_inv_Ok in Hr as (s1 & h3 & H1 & Hr). apply bind_inv_Ok in Hr as ([] & h4 & Ha & [= <- <-]).
  assert (Hs1 : h3 = h1 /\ s_idx s1 = default (s_idx s) (s_idx <$> (q ← st; h_states h1 !! q))).
  { destruct st as [q|]; [|by injection H1 as <- <-]. apply bind_inv_Ok in H1 as (x & h5 & Hx & [= <- <-]).
    unfold state_at in Hx. cbn. destruct (h_states h1 !! q); [|done]. by injection Hx as -> ->. }
  destruct Hs1 as [-> Hs1]. unfold assert_ in Ha. destruct (s_idx s1 >? 0) eqn:E; [|done]. injection Ha as ->.
  split; [done|]. split; [by apply Z.gtb_lt|done].
Qed.

Lemma own_end_run state s h s' h' :
  s_is_sm s = false -> own_end state s h = Ok s' h' ->
  h' = h /\ s_idx s' = if String.eqb (s_id s) (s_id state) then s_idx state else s_idx s.
Proof.
  intros Hs. unfold own_end. rewrite Hs. destruct (String.eqb _ _); [|by intros [= <- <-]].
  unfold assert_. destruct (_ >? 0); [|done]. by intros [= <- <-].
Qed.

Lemma own_end_heap state s h s' h' : own_end state s h = Ok s' h' -> h' = h.
Proof.
  unfold own_end, machine_end. destruct (s_is_sm s).
  - intros (m & h1 & H1 & Hr)%bind_inv_Ok. apply bind_inv_Ok in Hr as ([] & h2 & Ha & [= _ <-]).
    unfold sm_at in H1. destruct (h_machines h !! s_smp s); [|done]. injection H1 as _ ->.
    unfold assert_ in Ha. destruct (_ >? 0); [|done]. by injection Ha.
  - destruct (String.eqb _ _); [|by intros [= _ <-]]. unfold assert_. destruct (_ >? 0); [|done]. by intros [= _ <-].
Qed.

(** When a transition ends in a state of another machine, the pass over the states of
    its machine gives the target the number of the state with that name in the other
    machine, unless the state at hand has the same name: then the target gets the number
    of that state of the own machine. The pass goes over the states in the order of their
    addresses and the last one decides, so a transition to a state of another machine can
    end in the state with the same name in its own machine. *)
Theorem foreign_target_overwritten cur_sm state t h t' h' :
  t_orig_parent t = 0 -> s_is_sm (t_to t) = false -> s_smp (t_to t) <> cur_sm ->
  link_transition cur_sm state t h = Ok t' h' ->
  s_idx (t_to t') =
    if String.eqb (s_id (t_to t)) (s_id state) then s_idx state
    else default (s_idx (t_to t)) (s_idx <$> state_called h (s_smp (t_to t)) (s_id (t_to t))).
Proof.
  intros Ho Hs Hsmp. unfold link_transition. rewrite Ho, Hs. apply Z.eqb_neq in Hsmp. rewrite Hsmp. cbn.
  intros (from & h1 & H1%own_end_heap & Hr)%bind_inv_Ok. subst h1.
  apply bind_inv_Ok in Hr as (to & h2 & Hto & [= <- <-]). cbn.
  apply bind_inv_Ok in Hto as (to1 & h3 & H3 & Hown).
  assert (Hkeep : s_is_sm to1 = false /\ s_id to1 = s_id (t_to t)).
  { clear Hown. unfold state_end in H3. apply bind_inv_Ok in H3 as (m & h4 & _ & H3).
    apply bind_inv_Ok in H3 as (st & h5 & _ & H3). apply bind_inv_Ok in H3 as (s1 & h6 & H6 & H3).
    apply bind_inv_Ok in H3 as ([] & h7 & _ & [= -> ->]). destruct st as [q|]; [|by injection H6 as <- <-].
    apply bind_inv_Ok in H6 as (x & h8 & _ & [= <- <-]). done. }
  destruct Hkeep as [Hsm1 Hid1]. apply state_end_run in H3 as (-> & _ & E3).
  apply own_end_run in Hown as [_ ->]; [|done]. by rewrite Hid1, E3.
Qed.

(** The transition of [A] from [s] to [B.x]: what the machines say, and what the pass
    writes at the state [x] of [A], which has number 4; [B.x] has number 7. *)
Definition foreign_transition : mtransition :=
  with_t_to (with_s_smp 2 (state_of_id "x")) (with_t_from (with_s_idx 3 (state_of_id "s")) (transition_of state_default state_default)).

Definition numbered_foreign : smheap :=
  match compile (heap_of build_foreign) with Ok _ c => c_heap c | _ => no_machines end.
Definition state_x : mstate := default state_default (h_states numbered_foreign !! 3).

Lemma foreign_target_overwritten_witness :
  match link_transition 1 state_x foreign_transition numbered_foreign with
  | Ok t' _ => s_idx (t_to t') = 4
  | _ => False
  end /\ s_idx <$> state_called numbered_foreign 2 "x" = Some 7.
Proof.
  split; [|vm_compute; reflexivity].
  destruct (link_transition 1 state_x foreign_transition numbered_foreign) as [t' h'|e h'| |] eqn:E;
    [|exfalso; assert (H : match link_transition 1 state_x foreign_transition numbered_foreign with Ok _ _ => True | _ => False end)
        by (vm_compute; exact I); rewrite E in H; exact H..].
  rewrite (foreign_target_overwritten 1 state_x foreign_transition numbered_foreign t' h' eq_refl eq_refl ltac:(discriminate) E).
  vm_compute. reflexivity.
Defined.

(** The whole compiler, on the same script. *)
Example foreign_script_misdirected :
  match compile (heap_of build_foreign) with
  | Ok _ c => existsb (fun t => (ExecCtx.from t =? 3) && (ExecCtx.to t =? 4)) (ExecCtx.transitions (c_ctx c)) = true
              /\ smap_find "A.x" (c_sm_ids c) = Some 4 /\ smap_find "B.x" (c_sm_ids c) = Some 7
  | _ => False
  end.
Proof. vm_compute. repeat split. Qed.
