(* ===== verification/SimExample.v ===== *)
(** * SimExample: a small compiled machine

    Two nested state machines, with a host that records what it is asked to run. The
    theorems about the execution loop are applied to it, and a run of the whole
    simulation shows which exit handlers the end of a run reaches. *)

From S2P Require Import Prelude MachineInt VMEnv VMTable VMSpec Ast ExecCtx ExecLoop SimLoop.
From S2P Require Import ExecCtxSpec SlotSpec EnterExit FlatStep EnteredSpec.

(** ** A recording host *)

Record recorder := mkRecorder { log : list Z; pending : list fetched }.

Definition no_event : event_rep_t := mkEventRep "" 0 true None [] [] 0 None.

Section example.
#[local] Existing Instance test_platform.

Definition record (z : Z) : M (smc recorder) unit :=
  modify (fun s => with_world (mkRecorder (log (world s) ++ [z]) (pending (world s))) s).

Definition recording_host : Host recorder := {|
  native := record;
  native_guard g := do! record g in ret (Z.odd g);
  execute_action_seq _ b := record b;
  execute_queued_action _ := ret tt;
  eval_guard _ := ret true;
  fetch_event := fun s => match pending (world s) with
    | [] => Ok (mkFetched false no_event [] false []) s
    | e :: l => Ok e (with_world (mkRecorder (log (world s)) l) s)
    end;
  send_frame _ := ret tt;
  cover_handler _ _ _ _ := ret (true, 0);
  global_event_call_back_fn _ _ := ret tt;
  high_resolution_clock_now := ret 0
|}.
#[local] Existing Instance recording_host.

#[local] Instance recording_calm : Calm recorder.
Proof. split; intros * [= <-]; by repeat split. Qed.

(** ** The machine

    State machine 1 with states 2 (initial), 3 and the state machine 4, which has
    states 5 (initial) and 6. Event e is number 1. On_enter handlers are 100 + the
    machine, on_exit handlers 200 + the machine, the actions 10, 11, 12. *)
Definition arrow (sm f t e a : Z) : transition_t :=
  mkTransition 0 1 sm f t e (-1) true false 0 0 (mkAction false a 0) no_action no_action "".

Definition arrows : list transition_t :=
  [transition_default; arrow 1 2 3 1 10; arrow 1 3 4 1 11; arrow 4 5 6 0 12].

Definition bit (k : Z) : Z := Z.shiftl 1 k.

Definition machine (current : list Z) : ectx :=
  mkCtx false 6 0 {["e" := 1]} {[1 := "e"]} arrows (replicate 4 0) current
    (replicate 7 (-1)) (vec_resize 1024 0 []) 0 0 [0; 0; 1; 1; 1; 4; 4]
    [0; bit SM; bit INIT; 0; bit SM; bit INIT; 0]
    [0; 101; 0; 0; 104; 0; 0] [0; 201; 0; 0; 204; 0; 0] [] [] [0; 2; 0; 0; 5; 0; 0]
    (replicate 7 0) [0; 0; 2; 3; 4; 0; 0; 5; 6; 0] [0; 1; 0; 0; 6; 0; 0] [] ∅
    [0; 1; 0; 0; 4; 0; 0] [] ∅ ∅ 0 SIZE_MAX SIZE_MAX [] []
    (slots_naive 6 arrows).1 (slots_naive 6 arrows).2 ∅ [] ∅ ∅.

Definition sim (current : list Z) (input : list fetched) : smc recorder :=
  mkSmc (machine current) vm0 0
    {[1 := mkSM "top" 1 [] false None; 4 := mkSM "sub" 4 [] false None]}
    event_none false false ∅ ∅ ∅ ∅ [] SIZE_MAX false [] false (mkRecorder [] input).

(** Split a state of the machine into the seven cases. *)
Ltac seven s :=
  assert (s = 0 \/ s = 1 \/ s = 2 \/ s = 3 \/ s = 4 \/ s = 5 \/ s = 6)
    as [->|[->|[->|[->|[->|[->| ->]]]]]] by lia.

Lemma machine_tables current : length current = 7%nat -> tables_ok (machine current).
Proof.
  intros Hl. split.
  - split; [cbn; lia|reflexivity].
  - cbn [current_states machine]. rewrite Hl. reflexivity.
  - intros s Hs. unfold is_state in *. cbn [number_of_states machine] in *.
    seven s; (eexists; split; [reflexivity|]); repeat constructor; lia.
Qed.

Definition depth_of (s : Z) : nat := if s =? 1 then 1%nat else 0%nat.

Lemma machine_nesting current : nesting (machine current) depth_of.
Proof.
  intros s x. unfold sub_machines. destruct (decide (0 <= s <= 6)) as [Hs|Hs].
  - seven s; vm_compute; intros Hx; repeat (apply elem_of_cons in Hx as [->|Hx]; [lia|]);
      by apply elem_of_nil in Hx.
  - assert (Hk : kids (machine current) s = None).
    { unfold kids. replace (zlookup _ s) with (@None Z); [done|]. symmetry. unfold zlookup.
      case_ifs; zbool; [done|]. apply lookup_ge_None. cbn. lia. }
    rewrite Hk. cbn. by rewrite elem_of_nil.
Qed.

(** Machine 1 is active in state 3 and machine 4 is entered: its on_enter handler, and
    no other, runs. *)
Lemma do_enter_correct_witness :
  do_enter 10 10 [1] [0; 1; 0; 0; 1; 1; 0] (sim [0; 1; 0; 1; 0; 0; 0] [])
    = (do! on_ctx clear_visited in
       forM [Mark 1; Mark 4; Call 4] (do_step (run_on_enter 10))) (sim [0; 1; 0; 1; 0; 0; 0] []).
Proof.
  destruct (do_enter_correct 10 depth_of 10 [1] [0; 1; 0; 0; 1; 1; 0] (sim [0; 1; 0; 1; 0; 0; 0] []))
    as [Hd _].
  - by apply machine_tables.
  - apply machine_nesting.
  - reflexivity.
  - discriminate.
  - repeat constructor; cbn; lia.
  - repeat constructor; cbn; lia.
  - exact Hd.
Defined.

(** Machines 1 and 4 are active and machine 1 is left: 4 is left before 1. *)
Lemma do_exit_correct_witness :
  do_exit 10 10 [1] (sim [0; 1; 0; 0; 1; 0; 1] [])
    = (do! on_ctx clear_visited in
       forM [Mark 1; Mark 4; Call 4; Call 1] (do_step (run_on_exit 10))) (sim [0; 1; 0; 0; 1; 0; 1] []).
Proof.
  destruct (do_exit_correct 10 depth_of 10 [1] (sim [0; 1; 0; 0; 1; 0; 1] [])) as [Hd _].
  - by apply machine_tables.
  - apply machine_nesting.
  - discriminate.
  - repeat constructor; cbn; lia.
  - repeat constructor; cbn; lia.
  - exact Hd.
Defined.

(** From state 3 of machine 1 into machine 4: its initial state 5 comes with it. *)
Definition steps_up (s : Z) : nat := if s <=? 1 then 0%nat else if s <=? 4 then 1%nat else 2%nat.

Lemma machine_containment current :
  length current = 7%nat -> Forall (fun x => x = 0 \/ x = 1) current ->
  containment_ok (machine current) steps_up.
Proof.
  intros Hl Hb.
  assert (Hs7 : forall s, is_state (machine current) s ->
    s = 0 \/ s = 1 \/ s = 2 \/ s = 3 \/ s = 4 \/ s = 5 \/ s = 6)
    by (unfold is_state; cbn [number_of_states machine]; lia).
  split; try done.
  - by apply machine_tables.
  - intros s Hs%Hs7. by destruct_or! Hs; subst; vm_compute.
  - intros s Hs%Hs7 Hi. destruct_or! Hs; subst; try (by destruct Hi); by vm_compute.
  - intros s l x Hs%Hs7 _ Hk. destruct_or! Hs; subst; vm_compute in Hk; injection Hk as <-; intros Hx;
      repeat (apply elem_of_cons in Hx as [->|Hx]; [reflexivity|]); by apply elem_of_nil in Hx.
  - intros s Hs%Hs7 Hi. destruct_or! Hs; subst; try (by destruct Hi); vm_compute; lia.
Qed.

Definition entering_frame : frame recorder :=
  with_temp [0; 1; 0; 0; 1; 0; 0] (initial_frame (sim [0; 1; 0; 1; 0; 0; 0] [])).

Lemma entered_closed_witness :
  exists f', compute_entered_states 3 entering_frame = Ok tt f' /\ temp f' = [0; 1; 0; 0; 1; 1; 0] /\
    closed_at (machine [0; 1; 0; 1; 0; 0; 0]) (temp f') 5.
Proof.
  destruct (entered_closed 3 steps_up entering_frame) as (f' & Hr & _ & _ & Hc & _).
  - apply (machine_containment [0; 1; 0; 1; 0; 0; 0]); [done|].
    repeat (apply Forall_cons_2; [lia|]). apply Forall_nil_2.
  - intros s _. unfold steps_up. destruct (s <=? 1); [lia|]. destruct (s <=? 4); lia.
  - reflexivity.
  - reflexivity.
  - reflexivity.
  - exists f'. split; [exact Hr|]. split; [|apply Hc; unfold is_state; cbn; lia].
    vm_compute in Hr. injection Hr as <-. reflexivity.
Defined.

(** ** A flat step: from state 2 to state 3 on event e *)

Definition event_e : checked_event := mkChecked Proceed false true 1 false None.

Definition at_initial : list Z := [0; 1; 1; 0; 0; 0; 0].

Lemma machine_step_tables : step_tables_ok (machine at_initial).
Proof.
  split.
  - by apply machine_tables.
  - split; [cbn; lia|]. repeat constructor; cbn; lia.
  - cbn. lia.
  - repeat constructor; (by left) || (by right).
  - repeat constructor; unfold is_state; cbn; lia.
  - reflexivity.
  - intros t1 t2 H1 H2. cbn [transitions machine] in H1, H2. unfold arrows in H1, H2.
    rewrite !elem_of_cons, elem_of_nil in H1, H2.
    destruct H1 as [->|[->|[->|[->|[]]]]], H2 as [->|[->|[->|[->|[]]]]]; cbn; done || lia.
  - done.
  - split; [reflexivity|]. repeat constructor; lia.
  - split; [reflexivity|]. repeat constructor; lia.
Qed.

Lemma flat_step_witness :
  exists f', process_event 10 10 7 0 event_e (initial_frame (sim at_initial [])) = Ok (Proceed, true) f' /\
    current_states (ctx (core f')) = [0; 1; 0; 1; 0; 0; 0].
Proof.
  destruct (flat_step 10 9 (machine at_initial) (fun _ => true) event_e (initial_frame (sim at_initial [])))
    as (_ & _ & s1 & Hs1 & Hok & _).
  - exact machine_step_tables.
  - reflexivity.
  - intros t s Ht Hs. exists s. split; [|exact Hs]. cbn [transitions machine] in Ht.
    unfold arrows in Ht. rewrite !elem_of_cons, elem_of_nil in Ht.
    destruct Ht as [->|[->|[->|[->|[]]]]]; reflexivity.
  - reflexivity.
  - reflexivity.
  - apply Forall_forall. intros i Hi%elem_of_replicate_inv. subst i. cbn. lia.
  - reflexivity.
  - reflexivity.
  - reflexivity.
  - discriminate.
  - vm_compute. discriminate.
  - assert (Hf : fired (machine at_initial) (fun _ => true) 1 at_initial = [1]) by reflexivity.
    cbn [ce_ev_id event_e current_states machine]. rewrite Hf. repeat constructor.
    exists (arrow 1 2 3 1 10). split; [reflexivity|]. split; [exists 1; split; reflexivity|].
    repeat split; reflexivity.
  - intros t1 t2 H1 Hr. destruct t1 as [c0]. cbn in H1. subst c0. vm_compute in Hr.
    injection Hr as <-. repeat split; try reflexivity. vm_compute. discriminate.
  - assert (Hts : fired_sorted (machine at_initial) (fun _ => true) 1 = [1]) by reflexivity.
    cbn [ce_ev_id event_e] in Hok. rewrite Hts in Hok. destruct s1 as [c0]. cbn in Hs1. subst c0.
    edestruct Hok as (f' & Hr & Hc'); [vm_compute; reflexivity|].
    exists f'. split; [exact Hr|]. rewrite Hc'. reflexivity.
Defined.

(** ** A run that ends inside a nested machine *)

Definition start_directive (states : list Z) : fetched := mkFetched false no_event states true [].
Definition event_named (n : string) : fetched :=
  mkFetched true (mkEventRep n 0 true None [] [] 0 None) [] false [].

(** At the end of a run not every active machine is left properly. The run starts in
    state 3 and event e enters machine 4. At the end machines 1 and 4
    are active. The handlers that ran: action 11, on_enter of 4, action 12 and on_exit
    of 1; the on_exit handler of machine 4 is missing, because the VISITED flag that
    entering machine 4 has set is still there. *)
Example final_exit_skips_visited :
  exists s, run_simulation 100 100 true 100 0
              (sim [] [start_directive [1; 3]; event_named "e"]) = Ok tt s /\
    current_states (ctx s) = [0; 1; 0; 0; 1; 0; 1] /\
    log (world s) = [11; 104; 12; 201].
Proof. eexists. split; [vm_compute; reflexivity|]. split; reflexivity. Qed.
End example.
