(* ===== verification/FetchExample.v ===== *)
(** * FetchExample: a small session

    Two nested machines, a queue with an event, a script; the theorems of FetchSpec are
    applied to them. *)

From S2P Require Import VMSpec SimExample.
From S2P Require Import Prelude MachineInt F64 VMEnv Ast Machines Names ExecCtx ExecLoop SimLoop EventQueue EventQueueSpec Fetch FetchSpec.

Definition script_host : ScriptHost := {|
  eval_locked_ceps_expr _ _ := ret 1;
  execute_scope _ := ret tt;
  run_exec _ := ret tt;
  update_sysstates _ := ret tt;
  frame_handler _ := ret None;
  cover_state_changed := ret tt;
  func_call_target parts := head parts;
  call_arguments parts := tail parts;
  show _ := ""
|}.
#[local] Existing Instance script_host.

Definition loop_host : Host session := {|
  native _ := ret tt;
  native_guard _ := ret true;
  execute_action_seq _ _ := ret tt;
  execute_queued_action _ := ret tt;
  eval_guard _ := ret true;
  ExecLoop.fetch_event := ret fetched_nothing;
  send_frame _ := ret tt;
  cover_handler _ _ _ _ := ret (true, 0);
  global_event_call_back_fn _ _ := ret tt;
  high_resolution_clock_now := ret 0
|}.

(** ** Machines *)

Definition state_in (id : string) (smp idx : Z) : mstate := with_s_idx idx (with_s_smp smp (state_of_id id)).

Definition outer_sm : machine :=
  with_m_idx 1 (with_m_children [11] (with_m_states [20; 21] (new_machine 0 "A" 0 0))).
Definition inner_sm : machine := with_m_idx 4 (with_m_states [22] (new_machine 1 "B" 10 1)).

Definition heap0 : smheap :=
  mkHeap {[10 := outer_sm; 11 := inner_sm]}
    {[20 := state_in "Initial" 10 2; 21 := state_in "s" 10 3; 22 := state_in "Initial" 11 5]} [("A", 10)] 2 ∅.

Lemma heap0_ok : machines_ok heap0.
Proof.
  assert (Hl : forall p m, h_machines heap0 !! p = Some m -> p = 10 /\ m = outer_sm \/ p = 11 /\ m = inner_sm).
  { intros p m. cbn. rewrite !lookup_insert_Some, lookup_singleton_Some. naive_solver. }
  split.
  - intros p m [[-> ->]|[-> ->]]%Hl; [by left|right]. by exists outer_sm.
  - intros p m c [[-> ->]|[-> ->]]%Hl; cbn; [intros ->%list_elem_of_singleton; by exists inner_sm|set_solver].
  - intros p m q [[-> ->]|[-> ->]]%Hl; cbn; [|intros ->%list_elem_of_singleton; by eexists].
    rewrite !elem_of_cons, elem_of_nil. intros [->|[->|[]]]; by eexists.
Qed.

(** The machine B is started: the machine around it becomes active, and its initial state. *)
Definition started : list state_rep_t := [mkRep true true 11 "B" 4].

Lemma started_states : trans_hull_of_containment_rel 20 started heap0 =
  Ok [mkRep true true 10 "A" 1; mkRep true true 11 "B" 4; mkRep true false 11 "Initial" 5] heap0.
Proof. reflexivity. Qed.

Module FetchWitness.

Lemma start_states_least_witness :
  let needs := needs heap0 (occupied heap0 (reps_of started)) in
  exists s, trans_hull_of_containment_rel 20 started heap0 = Ok s heap0 /\
  (forall r, r ∈ started -> mentions s r) /\
  (forall r x, r ∈ s -> needs r x -> mentions s x) /\
  (forall x, x ∈ s -> exists r, r ∈ started /\ rtc needs r x).
Proof.
  apply (start_states_least heap0 started 20).
  - apply heap0_ok.
  - intros r ->%list_elem_of_singleton. by exists inner_sm.
  - vm_compute. lia.
Defined.

(** ** The queue *)

Definition event_e : queued := mkQueued (mkEvent "e" 0 true None [Int_literal 7] [] None) false true 0 0 0.
Definition event_of_frame : queued := mkQueued event_none false true 3 0 0.

Definition queue0 : eventqueue queued :=
  default (mkEventqueue (mkRing ∅ 0 0 0 0) (mkRing ∅ 0 0 0 0)) (new_eventqueue 48 40 4 4).
Definition push (e : queued) (q : eventqueue queued) : eventqueue queued :=
  match eq_push 48 40 e q with Ok _ q' => q' | _ => q end.

Abbreviation rep := (queue_rep 48 40 4 4).

Lemma rep_push e q evs : rep q evs -> q_unique e = false -> Z.of_nat (length (evs ++ [e])) <= 4 ->
  Z.of_nat (unique_count (evs ++ [e])) <= 4 -> rep (push e q) (evs ++ [e]).
Proof.
  intros Hq He Hl Hc. assert (Hp : fifo_push e evs = evs ++ [e]) by (unfold fifo_push; cbn; by rewrite He).
  rewrite <- Hp in *. destruct (push_refines 48 40 4 4 ltac:(lia) ltac:(lia) ltac:(lia) ltac:(lia) q evs e Hq Hl Hc) as (q' & Eq & Hr).
  unfold push. by rewrite Eq.
Qed.

Lemma rep_queue0 : rep queue0 [].
Proof.
  destruct (queue_rep_new (E := queued) 48 40 4 4 ltac:(lia) ltac:(lia) ltac:(lia) ltac:(lia)) as (q & Hq & Hr).
  unfold queue0. by rewrite Hq.
Qed.

Lemma plain_count l : Forall (fun e => q_unique e = false) l -> unique_count l = 0%nat.
Proof.
  induction 1 as [|e l He _ IH]; [done|]. unfold unique_count in *. rewrite filter_cons_False; [done|]. cbn. rewrite He. by intros [].
Qed.

Lemma rep_two e1 e2 : q_unique e1 = false -> q_unique e2 = false -> rep (push e2 (push e1 queue0)) [e1; e2].
Proof.
  intros H1 H2. apply (rep_push e2 (push e1 queue0) [e1]); [|done|cbn; lia|].
  - apply (rep_push e1 queue0 [] rep_queue0); [done|cbn; lia|]. rewrite plain_count by (by repeat constructor). lia.
  - rewrite plain_count by (by repeat constructor). lia.
Qed.

Definition script : list node := [Structdef "ASSERT_CURRENT_STATES_CONTAINS" [Identifier "A"]].

Definition session0 (q : eventqueue queued) : session :=
  mkSession heap0 q [] [] false false false false ∅ script 0 [] [] [] ∅
    {["T" := T_struct "T" [T_struct "speed" [T_value 1]]]}.

Definition core0 (q : eventqueue queued) : core :=
  mkSmc (SimExample.machine [0; 1; 1; 0; 0; 0; 0]) VMSpec.vm0 0 ∅ event_none false false ∅ ∅ ∅ {[1 := Float_literal 0]}
    [] SIZE_MAX false [] false (session0 q).

Definition two_events : core := core0 (push event_e (push event_e queue0)).

Lemma oldest_event_is_taken_witness : exists q', rep q' [event_e] /\
  check_for_events (H0 := with_fetch 48 40 20 loop_host 5) (H := test_platform) 9 true two_events =
  Ok (mkChecked Proceed true true 1 (bool_decide (id_ (q_event event_e) = "EXIT")) None)
    (at_event event_e q' (no_current_event two_events)).
Proof.
  apply (oldest_event_is_taken 48 40 4 4 20 ltac:(lia) ltac:(lia) ltac:(lia) ltac:(lia) (HT := test_platform) loop_host 9 4 true two_events
           false (no_current_event two_events) event_e [event_e] 1).
  - reflexivity.
  - by apply rep_two.
  - by repeat split.
  - reflexivity.
  - cbn. set_solver.
  - reflexivity.
  - reflexivity.
Defined.

Lemma event_arguments_arrive_witness : exists c1 c2,
  queue_event 48 40 "e" [Variant_int 7; Variant_string "x"] (core0 queue0) = Ok tt c1 /\
  check_for_events (H0 := with_fetch 48 40 20 loop_host 5) (H := test_platform) 9 true c1 =
  Ok (mkChecked Proceed true true 1 (bool_decide ("e" = "EXIT")) None) c2 /\
  argc c2 = Ok 2 c2 /\ argv 0 c2 = Ok (Variant_string "e") c2 /\
  forall i v, [Variant_int 7; Variant_string "x"] !! i = Some v -> argv (S i) c2 = Ok v c2.
Proof.
  apply (event_arguments_arrive 48 40 4 4 20 ltac:(lia) ltac:(lia) ltac:(lia) ltac:(lia) (HT := test_platform) loop_host 9 4 true "e"
           [Variant_int 7; Variant_string "x"] (core0 queue0) 1).
  - by apply rep_queue0.
  - reflexivity.
  - reflexivity.
  - repeat constructor.
  - cbn. set_solver.
  - reflexivity.
  - reflexivity.
Defined.

Definition frame_first : core := core0 (push event_e (push event_of_frame queue0)).

Lemma frame_event_ends_run_witness : exists q', rep q' [event_e] /\
  check_for_events (H0 := with_fetch 48 40 20 loop_host 5) (H := test_platform) 9 true frame_first =
  Ok (mkChecked Break true false 0 false None) (with_queue q' (no_current_event frame_first)).
Proof.
  apply (frame_event_ends_run 48 40 4 4 20 ltac:(lia) ltac:(lia) ltac:(lia) ltac:(lia) (HT := test_platform) loop_host 9 4 true frame_first
           false (no_current_event frame_first) event_of_frame [event_e]).
  - reflexivity.
  - reflexivity.
  - reflexivity.
  - by apply rep_two.
  - reflexivity.
  - discriminate.
  - intros x. reflexivity.
  - intros x. reflexivity.
Defined.

Lemma current_states_assertions_see_nothing_witness :
  run_script 20 [] (Structdef "ASSERT_CURRENT_STATES_CONTAINS" [Identifier "A"] :: []) two_events
  = Throw (Fatal (-1) (err_msg_assert "ASSERT_CURRENT_STATES_CONTAINS")) two_events /\
  run_script 20 [] (Structdef "ASSERT_CURRENT_STATES_CONTAINS_NOT" [Identifier "A"] :: []) two_events
  = run_script 20 [] [] (with_world (with_pos (S (pos (world two_events))) (world two_events)) two_events).
Proof.
  apply (current_states_assertions_see_nothing 20 (Identifier "A") (mkRep true true 10 "A" 1)).
  - reflexivity.
  - reflexivity.
  - reflexivity.
  - reflexivity.
Defined.

Lemma states_of_a_type_share_witness : exists c2,
  (do! eval_state_assign (Identifier "x") (Identifier "T") "left" in
   do! eval_state_assign (Identifier "x") (Identifier "T") "right" in
   set_global_state ("left" +:+ "." +:+ "speed") 5) two_events = Ok tt c2 /\
  global_states c2 !! ("right" +:+ "." +:+ "speed") = Some 1 /\ nodes c2 !! 1 = Some (Float_literal 5).
Proof.
  apply (states_of_a_type_share (Identifier "x") "T" "T" "speed" 1 0 5 "left" "right" two_events).
  - reflexivity.
  - reflexivity.
  - discriminate.
  - reflexivity.
  - reflexivity.
Defined.
End FetchWitness.
