(* ===== verification/ActionsSpec.v ===== *)
(** * ActionsSpec: what actions do

    Calling an action is running its statements; what an evaluation leaves behind in the
    environment of the interpreter; assigning to states that share a value; asking for
    states. At the end an action that fires events. *)

From S2P Require Import VMSpec SimExample FetchExample.
From S2P Require Import Prelude MachineInt F64 VMEnv Ast Machines Names ExecCtx ExecLoop SimLoop EventQueue Fetch Actions.

Section actions.
Context `{Ceps} (ev_size info_size : Z).

(** ** Sequences *)

Lemma statement_mono rb rb' rf smp n s r s' : (forall q b s r s', rb q b s = Ok r s' -> rb' q b s = Ok r s') ->
  statement rb rf smp n s = Ok r s' -> statement rb' rf smp n s = Ok r s'.
Proof.
  intros Hrb. unfold statement. destruct (is_structdef n || is_macro_definition n); [done|]. destruct (return_value n); [done|]. destruct n; try done.
  intros (b & s1 & E1 & E)%bind_inv_Ok. rewrite (bind_Ok _ _ _ _ _ E1). destruct b as [b|]; [|done].
  apply bind_inv_Ok in E as (v & s2 & E2 & E). by rewrite (bind_Ok _ _ _ _ _ (Hrb _ _ _ _ _ E2)).
Qed.

Lemma statements_mono rb rb' rf smp l : forall s r s', (forall q b s r s', rb q b s = Ok r s' -> rb' q b s = Ok r s') ->
  statements rb rf smp l s = Ok r s' -> statements rb' rf smp l s = Ok r s'.
Proof.
  induction l as [|n l IH]; intros s r s' Hrb; [done|]. cbn [statements]. intros (v & s1 & E1 & E)%bind_inv_Ok.
  rewrite (bind_Ok _ _ _ _ _ (statement_mono rb rb' rf smp n s v s1 Hrb E1)). destruct v; [done|]. by apply IH.
Qed.

(** More fuel does not change an answer. *)
Lemma execute_mono fuel : forall rf smp p s r s', execute_action_seq fuel rf smp p s = Ok r s' -> execute_action_seq (S fuel) rf smp p s = Ok r s'.
Proof.
  induction fuel as [|fuel IH]; intros rf smp p s r s'; [done|]. intros E. cbn [execute_action_seq] in E.
  change (execute_action_seq (S (S fuel)) rf smp p) with
    (if p =? 0 then ret 0 else let! a := get in let! n := of_option (nodes (a_core a) !! p) in
       match statements_of n with None => ret 0 | Some l => statements (execute_action_seq (S fuel) rf) rf smp l end).
  destruct (p =? 0); [done|]. rewrite bind_unfold in E |- *. cbn [get] in E |- *.
  apply bind_inv_Ok in E as (n & s1 & E1 & E). rewrite (bind_Ok _ _ _ _ _ E1). destruct (statements_of n) as [l|]; [|done].
  apply (statements_mono _ _ _ _ _ _ _ _ (fun q b s r s' => IH rf q b s r s') E).
Qed.

(** Statements that are no return statements are followed by those behind them. *)
Lemma statements_app rb rf smp B l2 : forall s v s1, Forall (fun n => return_value n = None) B ->
  statements rb rf smp B s = Ok v s1 -> statements rb rf smp (B ++ l2) s = statements rb rf smp l2 s1.
Proof.
  induction B as [|n B IH]; intros s v s1 HB; cbn [statements app]; [unfold ret; intros E; by injection E as _ ->|].
  inversion_clear HB as [|? ? Hn HB']. intros (w & s2 & E1 & E)%bind_inv_Ok. rewrite (bind_Ok _ _ _ _ _ E1).
  assert (w = None) as ->; [|by apply (IH s2 v)]. revert E1. unfold statement. rewrite Hn.
  destruct (is_structdef n || is_macro_definition n); [unfold ret; congruence|].
  destruct n; try (intros (x & s3 & _ & E1)%bind_inv_Ok; unfold ret in E1; congruence).
  intros (b & s3 & _ & E1)%bind_inv_Ok. destruct b; [|done]. apply bind_inv_Ok in E1 as (x & s4 & _ & E1). unfold ret in E1. congruence.
Qed.

(** Calling an action of the machine by its name is running its statements in its
    place, as long as none of them is a return statement. *)
Theorem action_is_inlined fuel rf smp name b body B l2 s r s' :
  is_macro_definition (Identifier name) = false -> return_value (Identifier name) = None ->
  body_of smp name s = Ok (Some (smp, b)) s -> b <> 0 -> nodes (a_core s) !! b = Some body -> statements_of body = Some B ->
  Forall (fun n => return_value n = None) B ->
  statements (execute_action_seq (S fuel) rf) rf smp (Identifier name :: l2) s = Ok r s' ->
  statements (execute_action_seq (S fuel) rf) rf smp (B ++ l2) s = Ok r s'.
Proof.
  intros Hm Hret Hb Hb0 Hbody HB Hno E. cbn [statements] in E. apply bind_inv_Ok in E as (w & s1 & E1 & E).
  unfold statement in E1. cbn [is_structdef orb] in E1. rewrite Hm, Hret in E1. rewrite (bind_Ok _ _ _ _ _ Hb) in E1. cbn [fst snd] in E1.
  apply bind_inv_Ok in E1 as (v & s2 & E1 & E2). unfold ret in E2. injection E2 as <- <-. cbn [execute_action_seq] in E1.
  rewrite (proj2 (Z.eqb_neq _ _)) in E1 by done. unfold bind at 1, get at 1 in E1. cbv beta iota in E1. rewrite Hbody in E1. unfold of_option in E1.
  rewrite bind_ret_l, HB in E1.
  rewrite (statements_app _ _ _ B l2 s v s2); [done|done|].
  apply (statements_mono _ _ _ _ _ _ _ _ (fun q b s r s' => execute_mono fuel rf q b s r s') E1).
Qed.

(** ** The environment after an evaluation *)

Lemma on_core_env {A} (m : M core A) a s s' : on_core m s = Ok a s' -> a_env s' = a_env s.
Proof. unfold on_core, zoom. destruct (m (a_core s)); try done. by intros [= _ <-]. Qed.

(** The callback for statements leaves the environment alone. *)
Lemma stmt_claimer_env n s u s' : stmt_claimer ev_size info_size n s = Ok u s' -> a_env s' = a_env s.
Proof.
  unfold stmt_claimer, fire_named. rewrite bind_unfold. cbn [get].
  repeat first [case_match; [|]|case_match]; try (intros [= _ <-]; done); try (intros E; by apply on_core_env in E).
Qed.

Lemma push_pop_scopes s : forall a a', push_scope s a = Ok tt a' ->
  func_callback (a_env a') = func_callback (a_env a) /\ binop_resolver (a_env a') = binop_resolver (a_env a) /\
  scopes (a_env a') = scopes (a_env a) ++ option_list s.
Proof. intros a a' E. destruct s; unfold push_scope, ret, in_env, modify in E; apply Ok_state in E as <-; cbn; by rewrite ?app_nil_r. Qed.

Lemma pop_scope_scopes s a a' l : pop_scope s a = Ok tt a' -> scopes (a_env a) = l ++ option_list s -> scopes (a_env a') = l.
Proof.
  intros E Hs. destruct s; unfold pop_scope, ret, in_env, modify in E; apply Ok_state in E as <-; cbn in *; [|by rewrite app_nil_r in Hs].
  rewrite Hs. apply removelast_last.
Qed.

(** C38: an evaluation gives the interpreter back the callback for functions, the resolver of
    operators and the scopes it found, as long as the interpreter pops the scopes it pushes.
    The callback for statements, the mapping of symbols and, after an evaluation with
    callbacks, the predicate of the resolver are not given back but removed: when an action
    evaluates something in the course of an evaluation, the rest of the outer one no longer
    recognises events. *)
Theorem evaluation_disarms_claimer expand fuel smp n root scope s r s' n' :
  (forall n root s r s', evaluate_generic n root s = Ok r s' -> scopes (a_env s') = scopes (a_env s)) ->
  eval_locked expand fuel smp n root scope s = Ok r s' ->
  func_callback (a_env s') = func_callback (a_env s) /\ binop_resolver (a_env s') = binop_resolver (a_env s) /\
  scopes (a_env s') = scopes (a_env s) /\ symbol_mapping (a_env s') = ∅ /\
  (expand = true -> binop_resolver_predicate (a_env s') = false) /\ stmt_claimer ev_size info_size n' s' = Ok tt s'.
Proof.
  intros Hlaw E. unfold eval_locked in E. apply bind_inv_Ok in E as (g & s1 & E1%on_core_env & E).
  rewrite bind_unfold in E. cbn [in_env modify] in E. rewrite bind_unfold in E. cbn [get] in E. cbn [a_env func_callback binop_resolver with_symbol_mapping] in E.
  apply bind_inv_Ok in E as ([] & s2 & E2 & E). apply bind_inv_Ok in E as ([] & s3 & E3 & E). apply bind_inv_Ok in E as ([] & s4 & E4 & E).
  apply bind_inv_Ok in E as (v & s5 & E5 & E). apply bind_inv_Ok in E as ([] & s6 & E6 & E). apply bind_inv_Ok in E as ([] & s7 & E7 & E).
  rewrite bind_unfold in E. cbn [in_env modify ret] in E. apply Ok_state in E as <-.
  apply push_pop_scopes in E3 as (_ & _ & H3), E4 as (_ & _ & H4). apply Hlaw in E5.
  assert (H2 : scopes (a_env s2) = scopes (a_env s)) by (rewrite <- E1; destruct expand; unfold in_env, modify, ret in E2; by apply Ok_state in E2 as <-).
  rewrite H2 in H3. rewrite H3 in H4. rewrite H4 in E5. pose proof (pop_scope_scopes _ _ _ _ E6 E5) as H6. pose proof (pop_scope_scopes _ _ _ _ E7 H6) as H7.
  cbn. rewrite E1. destruct expand; cbn; done.
Qed.
End actions.

(** ** Values that states share *)

Section values.
Context `{Ceps}.

(** Assigning to a state deletes the object of its old value, also when other states
    have the same object, which is the case for states of the same type: they are left with
    a dangling pointer. *)
Theorem assignment_frees_shared binop a b p rhs n (c : core) :
  global_states c !! a = Some p -> global_states c !! b = Some p -> a <> b -> p <> 0 -> nodes c !! rhs = Some n ->
  exists c', sm_action_assignment binop (Symbol a "Systemstate") rhs c = Ok rhs c' /\ global_states c' !! b = Some p /\ nodes c' !! p = None.
Proof.
  intros Ha Hb Hab Hp0 Hr. cbn [sm_action_assignment String.eqb Ascii.eqb Bool.eqb].
  rewrite bind_unfold. cbn [get]. rewrite Ha, Hr. cbn [of_option default from_option id]. rewrite bind_ret_l.
  unfold new_node, set_state_value, delete_node, bind, gets, modify, ret. rewrite (proj2 (Z.eqb_neq _ _)) by done.
  eexists. split; [reflexivity|]. cbn. rewrite lookup_insert_ne by done. split; [done|]. by rewrite lookup_delete_eq.
Qed.

(** Without native machines no state is ever active for in_state. *)
Lemma in_state_never fuel ids : forall (c : core) r c', enforce_native c = false -> in_state fuel [] ids c = Ok r c' -> r = false.
Proof.
  induction ids as [|id ids IH]; intros c r c' Hn E; [unfold in_state, ret in E; congruence|]. cbn [in_state] in E.
  apply bind_inv_Ok in E as (smp & c1 & E1 & E). unfold gets in E1. injection E1 as <- <-.
  apply bind_inv_Ok in E as (st & c2 & E2 & E). destruct (r_valid st); [|done]. cbn [negb] in E.
  assert (Hn2 : enforce_native c2 = false).
  { unfold on_heap, on_session, zoom in E2. destruct (resolve_state_qualified_id _ _ _ _) in E2; try done. injection E2 as _ <-. done. }
  unfold bind at 1, get at 1 in E. cbv beta iota in E. rewrite Hn2 in E. rewrite bind_ret_l in E. cbn [existsb] in E. by apply (IH c2 r c').
Qed.
End values.

(** * An action that fires events

    The theorems of ActionsSpec are applied to the session of FetchExample with an
    interpreter that knows names of actions and events. *)

(** The interpreter: a statement goes to the callback for statements. *)
Definition no_evaluation : Ceps := {|
  evaluate_generic _ _ := ret 0;
  is_macro_definition _ := false;
  return_value _ := None;
  event_call _ := None;
  show_node _ := ""
|}.

Definition event_interpreter : Ceps := {|
  evaluate_generic n _ := do! stmt_claimer (H := no_evaluation) 48 40 n in ret 0;
  is_macro_definition _ := false;
  return_value _ := None;
  event_call _ := None;
  show_node _ := ""
|}.
#[local] Existing Instance event_interpreter.

Definition env0 : interp_env := mkEnv No_callback No_callback false None ∅ 0 [].

(** An action of the machine B fires two events. *)
Definition with_action : core :=
  let c := FetchWitness.core0 FetchWitness.queue0 in
  with_machines {[10 := mkSM "A" 1 [] false (Some ∅); 11 := mkSM "B" 4 [mkSmAction "a" 7 0 11] false None]}
    (with_nodes (<[7 := Structdef "a" [Symbol "e" "Event"; Symbol "f" "Event"]]> (nodes c)) c).

Definition acts0 : acts := mkActs with_action env0 ∅.

Definition fire_e : node := Symbol "e" "Event".

Definition fires : bool := match eval_locked true 5 11 fire_e None 3 acts0 with Ok r _ => r =? 0 | _ => false end.

Lemma e_is_fired : exists a, eval_locked true 5 11 fire_e None 3 acts0 = Ok 0 a.
Proof.
  assert (H : fires = true) by (vm_compute; reflexivity). unfold fires in H.
  destruct (eval_locked _ _ _ _ _ _ _) as [r a| | |]; try done. exists a. by apply Z.eqb_eq in H as ->.
Qed.

Module ActionsWitness.
Lemma evaluation_disarms_claimer_witness : exists a, eval_locked true 5 11 fire_e None 3 acts0 = Ok 0 a /\ 
  func_callback (a_env a) = No_callback /\ binop_resolver (a_env a) = No_callback /\
  scopes (a_env a) = [] /\ symbol_mapping (a_env a) = ∅ /\
  (true = true -> binop_resolver_predicate (a_env a) = false) /\ stmt_claimer 48 40 fire_e a = Ok tt a.
Proof.
  destruct e_is_fired as [a E]. exists a. split; [exact E|].
  apply (evaluation_disarms_claimer 48 40 true 5 11 fire_e None 3 acts0 0 a fire_e); [|exact E].
  intros n root s r s' Hs. cbn [evaluate_generic event_interpreter] in Hs. apply bind_inv_Ok in Hs as (u & s1 & Hs & Hr).
  unfold ret in Hr. injection Hr as _ <-. by rewrite (stmt_claimer_env (H := no_evaluation) 48 40 n s u s1 Hs).
Defined.
End ActionsWitness.
