(* ===== verification/Builtins.v ===== *)
(** * Builtins: functions of scripts

    core/src/sm_global_functions.cpp, State_machine_simulation_core::ceps_interface_eval_func:
    what a call in a script means. First the functions of the core, in the order in which
    their names are tested; then functions of plugins, actions and functions of the script
    with their parameters; then native functions by the types of their arguments. Arguments
    and results are objects, 0 is the null pointer. Timers are in [Timers], byte sequences
    in [ByteSeq]. Left out: frames and channels, HTTP requests and other programs, the time of
    day, XML, parsing and evaluating text, lookup tables, stop, which fills a set that nothing
    reads. At the end: changed answers once for every change, as long as no assignment deletes
    what it remembers; what is written is read; which function a name calls. *)

From S2P Require Import SimExample FetchExample ActionsSpec.
From S2P Require Import Prelude MachineInt F64 VMEnv Ast Machines Names ExecCtx ExecLoop EventQueue Fetch Actions.

(** std::to_string of a double; functions of plugins; what ceps calls the parameters of a
    function; native functions by the kinds of their arguments and of their result; the
    exponents of the unit of the literal at an address. *)
Inductive akind := A_int | A_double | A_string.

#[export] Instance akind_eq_dec : EqDecision akind.
Proof. solve_decision. Defined.

Class Library := {
  to_string_double : Z -> string;
  ceps_fns : string -> option (list Z -> Z -> M acts Z);
  plugin_functions : string -> option (list Z -> M acts Z);
  params_of : node -> list node;
  registered : list akind -> akind -> string -> option (list node -> node);
  unit_of : core -> Z -> list Z
}.

(** [f] of every element, when it gives something for all of them. *)
Fixpoint for_all {A B} (f : A -> option B) (l : list A) : option (list B) :=
  match l with
  | [] => Some []
  | x :: l' => y ← f x; r ← for_all f l'; Some (y :: r)
  end.

Section builtins.
Context `{Ceps} `{Library} (ev_size info_size : Z).

(** The argument at [i]: a missing one is read behind the vector. *)
Definition arg_ptr (args : list Z) (i : nat) : M core Z := of_option (args !! i).
Definition arg (args : list Z) (i : nat) : M core node :=
  let! p := arg_ptr args i in let! n := gets nodes in of_option (n !! p).

Definition string_arg (args : list Z) (i : nat) : M core string :=
  let! n := arg args i in match n with String_literal s => ret s | _ => undef end.

Definition new_int (v : Z) : M core Z := new_node (Int_literal v).
Definition truth (b : bool) : M core Z := new_int (if b then 1 else 0).

(** clone: other nodes than literals give the null pointer. *)
Definition clone_literal (p : Z) : M core Z :=
  if p =? 0 then ret 0
  else
    let! n := gets nodes in
    let! n := of_option (n !! p) in
    match n with Int_literal _ | Float_literal _ | String_literal _ => new_node n | _ => ret 0 end.

(** ** Machines and their states *)

Definition show_arg (args : list Z) (i : nat) : M core string := let! n := arg args i in ret (show_node n).

(** A machine named by a text, or by a path; [None]: a text that names none. *)
Definition named_machine (n : node) : M core (option state_rep_t) :=
  match n with
  | String_literal s =>
    let! ms := session_of (fun s => statemachines (s_heap s)) in
    match smap_find s ms with Some q => let! r := on_heap (rep_of_sm q) in ret (Some r) | None => ret None end
  | _ => let! r := on_heap (resolve_state_or_transition_given_a_qualified_id n 0 true) in ret (Some r.1)
  end.

Definition restart_event (payload : list Variant) : queued :=
  mkQueued (mkEvent "@@restart_state_machine" 0 true None [] payload None) false false 0 0 0.

(** "restart" *)
Definition restart_fn (args : list Z) : M core Z :=
  let! payload := foldM args (fun payload p =>
    let! n := gets nodes in
    let! n := of_option (n !! p) in
    let! state := named_machine n in
    match state with
    | None => ret payload
    | Some r =>
      let! first := show_arg args 0 in
      if negb (r_valid r) then throw (Fatal (-1) ("Function 'restart': illformed argument, unknown state: " +:+ first))
      else if negb (r_is_sm r)
      then throw (Fatal (-1) ("Function 'restart': illformed argument, '" +:+ first +:+ "' does not denote a state machine."))
      else ret (payload ++ [Variant_int (r_id r)])
    end) [] in
  do! Fetch.enqueue_event ev_size info_size (restart_event payload) false in
  new_int 1.

(** restart_state_machines, for names and for nodes: what is no machine is skipped. *)
Definition restart_state_machines_names (args : list string) : M core unit :=
  let! payload := foldM args (fun payload s =>
    let! ms := session_of (fun s => statemachines (s_heap s)) in
    match smap_find s ms with
    | Some q => let! r := on_heap (rep_of_sm q) in ret (payload ++ [Variant_int (r_id r)])
    | None => ret payload
    end) [] in
  Fetch.enqueue_event ev_size info_size (restart_event payload) false.

Definition restart_state_machines_nodes (args : list node) : M core unit :=
  let! payload := foldM args (fun payload n =>
    let! state := named_machine n in
    match state with
    | Some r => if r_valid r && r_is_sm r then ret (payload ++ [Variant_int (r_id r)]) else ret payload
    | None => ret payload
    end) [] in
  Fetch.enqueue_event ev_size info_size (restart_event payload) false.

Definition is_path (n : node) : bool := match n with Identifier _ | Binary_operator _ _ _ => true | _ => false end.

(** "in_state": whether one of the states is active; the states behind it are not looked at. *)
Fixpoint in_state_args (active_smp : Z) (args : list node) : M core bool :=
  match args with
  | [] => ret false
  | n :: args' =>
    if negb (is_path n)
    then throw (Fatal (-1) ("Function 'in_state': illformed argument, expected a qualified id, got: " +:+ show_node n))
    else
      let! r := on_heap (resolve_state_or_transition_given_a_qualified_id n active_smp false) in
      if negb (r_valid r.1) then throw (Fatal (-1) ("Function 'in_state': illformed argument, unknown state: " +:+ show_node n))
      else
        let! c := get in
        let! v := of_option (zlookup (current_states (ctx c)) (r_id r.1)) in
        if negb (v =? 0) then ret true else in_state_args active_smp args'
  end.

Definition arg_nodes (args : list Z) : M core (list node) :=
  let! n := gets nodes in of_option (for_all (fun p => n !! p) args).

Definition in_state_fn (active_smp : Z) (args : list Z) : M core Z :=
  match args with
  | [] => throw (Fatal (-1) "Function 'in_state' expects at least one argument")
  | _ => let! l := arg_nodes args in let! found := in_state_args active_smp l in truth found
  end.

(** "shadow_state": the first state becomes the shadow of the second one. *)
Definition shadow_state_fn (active_smp : Z) (args : list Z) : M core Z :=
  match args with
  | [_; _] =>
    let! a := arg args 0 in
    let! b := arg args 1 in
    let! shadow := on_heap (resolve_state_or_transition_given_a_qualified_id a active_smp false) in
    let! shadowed := on_heap (resolve_state_or_transition_given_a_qualified_id b active_smp false) in
    if negb (r_valid shadow.1) || negb (r_valid shadowed.1) then
      throw (Fatal (-1) ("Function 'shadow_state': unknown state machine state(s): " +:+
        (if r_valid shadow.1 then "" else show_node a) +:+ (if r_valid shadowed.1 then "" else "," +:+ show_node b)))
    else
      do! (if r_is_sm shadowed.1 then on_heap (sm_upd (r_smp shadowed.1) (with_m_shadow shadow.1))
           else
             let! st := on_heap (state_named (r_smp shadowed.1) (r_sid shadowed.1)) in
             match st with
             | Some p => on_heap (state_upd p (with_s_shadow shadow.1))
             | None => throw (Fatal (-1) "Function 'shadow_state': Internal Error #1")
             end) in
      new_int 1
  | _ => throw (Fatal (-1) "Function 'shadow_state' expects two arguments")
  end.

(** ** System states *)

(** "write_system_state": the old object stays behind. *)
Definition write_system_state (args : list Z) : M core Z :=
  let! value := arg_ptr args 1 in
  if value =? 0 then throw (Fatal (-1) "write_system_state: second argument is null.")
  else
    let! name := string_arg args 0 in
    let! p := clone_literal value in
    do! set_state_value name p in
    ret value.

(** "read_system_state": a state without a value becomes 0. *)
Definition read_system_state (args : list Z) : M core Z :=
  let! name := string_arg args 0 in
  let! t := gets (fun c => default 0 (global_states c !! name)) in
  if t =? 0 then
    let! p := new_int 0 in
    do! set_state_value name p in
    ret p
  else clone_literal t.

(** "value_of_systemstate" *)
Definition value_of_systemstate (args : list Z) : M core (option Z) :=
  match args with
  | [_] =>
    let! n := arg args 0 in
    match n with
    | String_literal name =>
      let! states := gets global_states in
      match states !! name with
      | Some p => ret (Some p)
      | None => throw (Fatal (-1) ("value(): Uninitialized Systemstate/Systemparameter '" +:+ name +:+ "'"))
      end
    | _ => ret None
    end
  | _ => ret None
  end.

Definition set_prev (name : string) (p : Z) : M core unit :=
  modify (fun c => with_global_systemstates_prev (<[name := p]> (global_systemstates_prev c)) c).

(** Whether two values, with their units, differ; reading an object that was deleted is
    undefined. *)
Definition values_differ (cur_unit prev_unit : list Z) (cur prev : node) : bool :=
  if negb (bool_decide (kind_of cur = kind_of prev)) then true
  else
    match cur, prev with
    | Int_literal a, Int_literal b => negb (a =? b) || negb (bool_decide (cur_unit = prev_unit))
    | Float_literal a, Float_literal b => negb (f64_eq a b) || negb (bool_decide (cur_unit = prev_unit))
    | String_literal a, String_literal b => negb (String.eqb a b)
    | _, _ => negb (String.eqb (show_node cur) (show_node prev))
    end.

Definition changed_state (name : string) : M core Z :=
  let! states := gets global_states in
  let! cur := (match states !! name with
               | Some p => ret p
               | None => let! p := new_int 0 in do! set_state_value name p in ret p
               end) in
  let! prevs := gets global_systemstates_prev in
  match prevs !! name with
  | None => do! set_prev name cur in new_int 0
  | Some prev =>
    if cur =? prev then new_int 0
    else if (prev =? 0) || (cur =? 0) then do! set_prev name cur in new_int 1
    else
      let! objs := gets nodes in
      let! a := of_option (objs !! cur) in
      let! b := of_option (objs !! prev) in
      let! unit := gets unit_of in
      do! set_prev name cur in
      truth (values_differ (unit cur) (unit prev) a b)
  end.

(** "changed": whether a state has another value than when it was asked for the last time. *)
Definition changed_fn (args : list Z) : M core Z :=
  match args with
  | [_] =>
    let! n := arg args 0 in
    match n with
    | Identifier name | Symbol name _ | String_literal name => changed_state name
    | _ => new_int 1
    end
  | _ => new_int 1
  end.

(** ** Values *)

(** "__append" *)
Definition append_fn (args : list Z) : M core Z :=
  let! p := arg_ptr args 0 in
  let! container := arg args 0 in
  let! elem := arg args 1 in
  match container with
  | Structdef name content =>
    do! modify (fun c => with_nodes (<[p := Structdef name (content ++ [elem])]> (nodes c)) c) in ret p
  | _ => ret p
  end.

(** "as_id" *)
Definition as_id_fn (args : list Z) : M core Z :=
  match args with
  | [_] =>
    let! n := arg args 0 in
    match n with String_literal s => new_node (Identifier s) | _ => throw (Fatal (-1) "as_id: illformed argument(s).") end
  | _ => throw (Fatal (-1) "as_id: illformed argument(s).")
  end.

(** "as_text" *)
Definition as_text_fn (args : list Z) : M core Z :=
  match args with
  | [p] =>
    let! n := arg args 0 in
    match n with
    | Identifier s => new_node (String_literal s)
    | String_literal _ => ret p
    | Int_literal v => new_node (String_literal (pretty v))
    | Float_literal b => new_node (String_literal (to_string_double b))
    | _ => new_node (String_literal (show_node n))
    end
  | _ => throw (Fatal (-1) "as_text: illformed argument(s).")
  end.

(** "argv", "argc": the event at hand. *)
Definition argv_fn (args : list Z) : M core (option Z) :=
  match args with
  | [] => ret None
  | _ =>
    let! n := arg args 0 in
    match n with
    | Int_literal idx =>
      let! e := gets current_event in
      if idx =? 0 then let! p := new_node (String_literal (id_ e)) in ret (Some p)
      else if (0 <? idx) && (idx - 1 <? Z.of_nat (length (payload_ e))) then
        let! v := of_option (zlookup (payload_ e) (idx - 1)) in
        let! p := new_node v in ret (Some p)
      else throw (Fatal (-1) ("Access to argv: Out of bounds. [ idx = " +:+ pretty idx +:+ "]"))
    | _ => ret None
    end
  end.

Definition argc_fn : M core Z := let! e := gets current_event in new_int (Z.of_nat (length (payload_ e))).

(** "expect" *)
Definition expect_fn (args : list Z) : M core Z :=
  match args with
  | [] => new_int 0
  | _ => let! n := arg args 0 in match n with Int_literal v => truth (negb (v =? 0)) | _ => new_int 0 end
  end.

(** "trigger_event": [None]: an event was queued, and the search for the function goes on. *)
Definition trigger_event_fn (args : list Z) : M core (option Z) :=
  match args with
  | [_] =>
    let! n := arg args 0 in
    match n with
    | String_literal name =>
      let! unique := session_of unique_events in
      do! Fetch.enqueue_event ev_size info_size (mkQueued (mkEvent name 0 true None [] [] None) (bool_decide (name ∈ unique)) false 0 0 0) true in
      ret None
    | _ => ret (Some 0)
    end
  | _ => ret (Some 0)
  end.

(** "test_bit" *)
Definition test_bit_fn (args : list Z) : M core Z :=
  match args with
  | [_; _] =>
    let! a := arg args 0 in
    let! b := arg args 1 in
    match a, b with Int_literal x, Int_literal y => truth (Z.land x y =? y) | _, _ => new_int 0 end
  | _ => new_int 0
  end.

(** "assert" *)
Definition assert_fn (args : list Z) : M core Z :=
  match args with
  | [] => throw (Fatal (-1) "assert:first argument must be an integer.")
  | _ :: more =>
    let! n := arg args 0 in
    match n with
    | Int_literal v =>
      if v =? 0 then
        let! msg := (match more with
                     | [] => ret ""
                     | _ => let! m := arg args 1 in ret (match m with String_literal s => s | _ => "" end)
                     end) in
        if String.eqb msg "" then throw (Fatal (-1) "Assert failed.") else throw (Fatal (-1) ("Assert failed:'" +:+ msg +:+ "'"))
      else new_int 1
    | _ => throw (Fatal (-1) "assert:first argument must be an integer.")
    end
  end.

(** ** Calls *)

Definition always (m : M core Z) : M core (option Z) := let! p := m in ret (Some p).

(** The functions of the core. [None]: the name is none of them, or nothing was returned. The
    functions that are left out are missing here. *)
Definition builtin (active_smp : Z) (id : string) (args : list Z) : M core (option Z) :=
  if String.eqb id "restart" then always (restart_fn args)
  else if String.eqb id "write_system_state" then always (write_system_state args)
  else if String.eqb id "read_system_state" then always (read_system_state args)
  else if String.eqb id "__append" then always (append_fn args)
  else if String.eqb id "as_id" then always (as_id_fn args)
  else if String.eqb id "as_text" then always (as_text_fn args)
  else if String.eqb id "argv" then argv_fn args
  else if String.eqb id "argc" then always argc_fn
  else if String.eqb id "expect" then always (expect_fn args)
  else if String.eqb id "in_state" then always (in_state_fn active_smp args)
  else if String.eqb id "trigger_event" then trigger_event_fn args
  else if String.eqb id "shadow_state" then always (shadow_state_fn active_smp args)
  else if String.eqb id "value_of_systemstate" then value_of_systemstate args
  else if String.eqb id "changed" then always (changed_fn args)
  else if String.eqb id "test_bit" then always (test_bit_fn args)
  else if String.eqb id "assert" || String.eqb id "ASSERT" then always (assert_fn args)
  else ret None.

(** The names of the parameters. *)
Definition param_names (body : node) : list string :=
  omap (fun p => match p with Identifier s | Symbol s _ => Some s | _ => None end) (params_of body).

(** The parameters and their arguments, in a scope that is pushed before. *)
Fixpoint bind_params (id : string) (names : list string) (args : list Z) : list (string * Z) + string :=
  match names, args with
  | [], _ => inl []
  | x :: names', p :: args' =>
    match bind_params id names' args' with
    | inl l => inl ((x, p) :: l)
    | inr what => inr what
    end
  | x :: _, [] => inr ("Function '" +:+ id +:+ "': unbound argument : '" +:+ x +:+ "'")
  end.

(** An action of the machine, or else a function of the script: both run in the machine. *)
Definition function_body (active_smp : Z) (id : string) : M acts Z :=
  let! own := (if active_smp =? 0 then ret 0
               else let! sm := on_core (deref_sm active_smp) in ret (match find_action id sm with Some it => body_ it | None => 0 end)) in
  if own =? 0 then let! a := get in ret (default 0 (global_funcs a !! id)) else ret own.

Definition call_body (fuel root_fuel : nat) (active_smp : Z) (id : string) (body : Z) (args : list Z) : M acts Z :=
  let! a := get in
  let! n := of_option (nodes (a_core a) !! body) in
  match params_of n with
  | [] => Actions.execute_action_seq fuel root_fuel active_smp body
  | _ =>
    match bind_params id (param_names n) args with
    | inr what => throw (Fatal (-1) what)
    | inl bound =>
      do! push_scope (Some (Locals bound)) in
      let! r := Actions.execute_action_seq fuel root_fuel active_smp body in
      do! pop_scope (Some (Locals bound)) in
      ret r
    end
  end.

(** The kinds of the arguments, when all of them are literals; for each sequence of kinds the
    kinds of results that are looked for, in this order. *)
Definition akind_of (n : node) : option akind :=
  match n with Int_literal _ => Some A_int | Float_literal _ => Some A_double | String_literal _ => Some A_string | _ => None end.

Definition result_kinds (sig : list akind) : list akind :=
  match sig with
  | [A_string] => [A_int; A_string]
  | [] | [A_int] | [A_double] | [A_int; A_int] | [A_int; A_double] | [A_double; A_int] | [A_double; A_double] => [A_int; A_double]
  | [A_int; A_int; A_int; A_int; A_int; A_int] => [A_int]
  | _ => []
  end.

Fixpoint first_registered (sig kinds : list akind) (id : string) : option (list node -> node) :=
  match kinds with
  | [] => None
  | k :: kinds' => match registered sig k id with Some f => Some f | None => first_registered sig kinds' id end
  end.

Definition call_registered (id : string) (args : list Z) : M core Z :=
  if negb (existsb (Nat.eqb (length args)) [0; 1; 2; 6]%nat) then ret 0
  else
    let! l := arg_nodes args in
    match for_all akind_of l with
    | None => ret 0
    | Some sig =>
      match first_registered sig (result_kinds sig) id with
      | Some f => new_node (f l)
      | None => ret 0
      end
    end.

(** ceps_interface_eval_func; [args] are the evaluated arguments. *)
Definition ceps_interface_eval_func (fuel root_fuel : nat) (active_smp : Z) (id : string) (args : list Z) : M acts Z :=
  match ceps_fns id with
  | Some f => f args active_smp
  | None =>
    let! r := on_core (builtin active_smp id args) in
    match r with
    | Some p => ret p
    | None =>
      match plugin_functions id with
      | Some f => f args
      | None =>
        let! body := function_body active_smp id in
        if body =? 0 then on_core (call_registered id args)
        else call_body fuel root_fuel active_smp id body args
      end
    end
  end.
End builtins.

(** * System states and their changes

    changed answers once for every change, as long as values are replaced by scripts that do
    not delete them; what is written is read; which function a name calls. *)

Section builtins.
Context `{Ceps} `{Library}.

Lemma new_node_Ok n (c : core) : exists p, p ∉ ({[0]} ∪ dom (nodes c) : gset Z) /\
  new_node n c = Ok p (with_nodes (<[p := n]> (nodes c)) c).
Proof. eexists. split; [apply is_fresh|]. reflexivity. Qed.

Lemma new_node_inv n (c : core) p c' : new_node n c = Ok p c' -> c' = with_nodes (<[p := n]> (nodes c)) c /\ p <> 0 /\ nodes c !! p = None.
Proof.
  destruct (new_node_Ok n c) as (q & Hq & ->). intros E. injection E as <- <-. split; [done|].
  rewrite not_elem_of_union, not_elem_of_singleton, not_elem_of_dom in Hq. done.
Qed.

(** After an answer the state is remembered as it is. *)
Lemma changed_remembers name (c : core) r c' : changed_state name c = Ok r c' ->
  exists p, global_states c' !! name = Some p /\ global_systemstates_prev c' !! name = Some p.
Proof.
  unfold changed_state. intros E. apply bind_inv_Ok in E as (states & s1 & E1 & E). unfold gets in E1. injection E1 as <- <-.
  apply bind_inv_Ok in E as (cur & s2 & E2 & E).
  assert (Hcur : global_states s2 !! name = Some cur).
  { destruct (global_states c !! name) as [p|] eqn:Ep; [unfold ret in E2; by injection E2 as <- <-|].
    apply bind_inv_Ok in E2 as (p & s3 & E3 & E2). apply bind_inv_Ok in E2 as ([] & s4 & E4 & E2). unfold ret in E2. injection E2 as <- <-.
    unfold set_state_value, modify in E4. apply Ok_state in E4 as <-. cbn. by rewrite lookup_insert_eq. }
  clear E2. apply bind_inv_Ok in E as (prevs & s3 & E3 & E). unfold gets in E3. injection E3 as <- <-. exists cur.
  assert (Hset : forall m : M core Z, (forall s p s', m s = Ok p s' -> global_states s' = global_states s /\ global_systemstates_prev s' = global_systemstates_prev s) ->
    forall s, (do! set_prev name cur in m) s = Ok r c' -> global_states s = global_states s2 ->
    global_states c' !! name = Some cur /\ global_systemstates_prev c' !! name = Some cur).
  { intros m Hm s Es Hs. unfold set_prev in Es. rewrite bind_unfold in Es. cbn [modify] in Es. apply Hm in Es as [-> ->]. cbn. rewrite Hs, lookup_insert_eq. done. }
  assert (Hint : forall n s p s', new_node n s = Ok p s' -> global_states s' = global_states s /\ global_systemstates_prev s' = global_systemstates_prev s).
  { intros n s p s' En. apply new_node_inv in En as (-> & _). done. }
  destruct (global_systemstates_prev s2 !! name) as [prev|] eqn:Eprev; [|apply (Hset _ (Hint _) s2 E eq_refl)].
  destruct (Z.eqb_spec cur prev) as [->|Hne].
  - destruct (Hint _ _ _ _ E) as [-> ->]. done.
  - destruct ((prev =? 0) || (cur =? 0)); [apply (Hset _ (Hint _) s2 E eq_refl)|].
    apply bind_inv_Ok in E as (objs & s4 & E4 & E). unfold gets in E4. injection E4 as <- <-.
    apply bind_inv_Ok in E as (a & s5 & E5 & E). unfold of_option in E5. destruct (nodes s2 !! cur); [|done]. injection E5 as <- <-.
    apply bind_inv_Ok in E as (b & s6 & E6 & E). unfold of_option in E6. destruct (nodes s2 !! prev); [|done]. injection E6 as <- <-.
    apply bind_inv_Ok in E as (u & s7 & E7 & E). unfold gets in E7. injection E7 as <- <-.
    apply (Hset _ (Hint _) s2 E eq_refl).
Qed.

(** Asked again, it answers no. *)
Lemma changed_once name (c : core) r c' : changed_state name c = Ok r c' ->
  exists r' c'', changed_state name c' = Ok r' c'' /\ nodes c'' !! r' = Some (Int_literal 0).
Proof.
  intros (p & Hs & Hp)%changed_remembers. destruct (new_node_Ok (Int_literal 0) c') as (q & Hq & En).
  eexists q, _. unfold changed_state. rewrite bind_unfold. cbn [gets]. rewrite Hs, bind_ret_l, bind_unfold. cbn [gets]. rewrite Hp, Z.eqb_refl.
  split; [exact En|]. cbn. by rewrite lookup_insert_eq.
Qed.

(** A new value is noticed, and its difference is told, as long as the old object is there. *)
Lemma changed_tells name (c : core) cur prev a b : global_states c !! name = Some cur -> global_systemstates_prev c !! name = Some prev ->
  cur <> prev -> cur <> 0 -> prev <> 0 -> nodes c !! cur = Some a -> nodes c !! prev = Some b ->
  exists r c', changed_state name c = Ok r c' /\ nodes c' !! r = Some (Int_literal (if values_differ (unit_of c cur) (unit_of c prev) a b then 1 else 0)) /\
    global_systemstates_prev c' !! name = Some cur.
Proof.
  intros Hs Hp Hne Hc0 Hp0 Ha Hb. unfold changed_state. rewrite bind_unfold. cbn [gets]. rewrite Hs, bind_ret_l, bind_unfold. cbn [gets].
  rewrite Hp. rewrite (proj2 (Z.eqb_neq cur prev)), (proj2 (Z.eqb_neq prev 0)), (proj2 (Z.eqb_neq cur 0)) by done. cbn [orb].
  rewrite bind_unfold. cbn [gets]. rewrite Ha, Hb. cbn [of_option]. rewrite !bind_ret_l, bind_unfold. cbn [gets].
  unfold set_prev. rewrite bind_unfold. cbn [modify]. unfold truth, new_int.
  destruct (new_node_Ok (Int_literal (if values_differ (unit_of c cur) (unit_of c prev) a b then 1 else 0)) (with_global_systemstates_prev (<[name:=cur]> (global_systemstates_prev c)) c)) as (q & Hq & En).
  rewrite En. eexists _, _. split; [reflexivity|]. cbn. by rewrite !lookup_insert_eq.
Qed.

(** C40: a script that asks whether a state has changed, assigns to the state and asks again
    reads memory that was freed: the assignment deletes the object that the first answer
    remembered. *)
Theorem changed_reads_freed name binop rhs n p (c : core) :
  global_states c !! name = Some p -> p <> 0 -> is_Some (nodes c !! p) -> nodes c !! rhs = Some n ->
  global_systemstates_prev c !! name = None \/ global_systemstates_prev c !! name = Some p ->
  (exists r c1, changed_state name c = Ok r c1) /\
  forall r c1, changed_state name c = Ok r c1 ->
    exists c2, sm_action_assignment binop (Symbol name "Systemstate") rhs c1 = Ok rhs c2 /\ changed_state name c2 = Undef.
Proof.
  intros Hs Hp0 [v Hv] Hr Hprev.
  assert (Hrun : exists r c1, changed_state name c = Ok r c1 /\ r <> 0 /\ nodes c !! r = None /\ nodes c1 = <[r := Int_literal 0]> (nodes c) /\
                   global_states c1 = global_states c /\ global_systemstates_prev c1 !! name = Some p).
  { unfold changed_state. rewrite bind_unfold. cbn [gets]. rewrite Hs, bind_ret_l, bind_unfold. cbn [gets]. destruct Hprev as [-> | Hp].
    - unfold set_prev. rewrite bind_unfold. cbn [modify]. destruct (new_node_Ok (Int_literal 0) (with_global_systemstates_prev (<[name:=p]> (global_systemstates_prev c)) c)) as (q & Hq & En).
      exists q, (with_nodes (<[q := Int_literal 0]> (nodes c)) (with_global_systemstates_prev (<[name:=p]> (global_systemstates_prev c)) c)).
      split; [exact En|]. destruct (new_node_inv _ _ _ _ En) as (_ & H0' & H1'). cbn. rewrite lookup_insert_eq. done.
    - rewrite Hp, Z.eqb_refl. destruct (new_node_Ok (Int_literal 0) c) as (q & Hq & En).
      exists q, (with_nodes (<[q := Int_literal 0]> (nodes c)) c). split; [exact En|]. destruct (new_node_inv _ _ _ _ En) as (_ & H0' & H1'). cbn. done. }
  destruct Hrun as (r & c1 & E1 & Hr0 & Hrn & Hn1 & Hs1 & Hp1). split; [by exists r, c1|]. intros r' c1' E1'. rewrite E1 in E1'. injection E1' as <- <-.
  assert (Hne : r <> p) by congruence. assert (Hrr : r <> rhs) by congruence.
  assert (Hr1 : nodes c1 !! rhs = Some n) by (rewrite Hn1, lookup_insert_ne by done; done).
  assert (Hp1n : nodes c1 !! p = Some v) by (rewrite Hn1, lookup_insert_ne by done; done).
  cbn [sm_action_assignment String.eqb Ascii.eqb Bool.eqb]. rewrite bind_unfold. cbn [get]. rewrite Hs1, Hs, Hr1. cbn [of_option default from_option id]. rewrite bind_ret_l.
  destruct (new_node_Ok n c1) as (q & Hq & En). destruct (new_node_inv _ _ _ _ En) as (_ & Hq0 & Hqn). rewrite bind_unfold, En.
  unfold set_state_value, delete_node. rewrite bind_unfold. cbn [modify]. rewrite (proj2 (Z.eqb_neq p 0)) by done. rewrite bind_unfold. cbn [modify ret].
  eexists. split; [reflexivity|]. assert (Hqp : q <> p) by congruence.
  unfold changed_state. rewrite bind_unfold. cbn [gets]. cbn [global_states with_nodes with_global_states]. rewrite lookup_insert_eq, bind_ret_l, bind_unfold. cbn [gets].
  cbn [global_systemstates_prev with_nodes with_global_states]. rewrite Hp1. rewrite (proj2 (Z.eqb_neq q p)), (proj2 (Z.eqb_neq p 0)), (proj2 (Z.eqb_neq q 0)) by done. cbn [orb].
  rewrite bind_unfold. cbn [gets]. cbn [nodes with_nodes with_global_states]. rewrite lookup_delete_ne, lookup_insert_eq by done. cbn [of_option]. rewrite bind_ret_l.
  rewrite lookup_delete_eq. done.
Qed.

(** What is written to a system state is read from it. *)
Lemma system_state_read_back args name v n (c : core) : args !! 0%nat = Some name -> args !! 1%nat = Some v -> v <> 0 ->
  forall s, nodes c !! name = Some (String_literal s) -> nodes c !! v = Some n -> akind_of n <> None ->
  exists c1, write_system_state args c = Ok v c1 /\ exists r c2, read_system_state args c1 = Ok r c2 /\ nodes c2 !! r = Some n.
Proof.
  intros H0' H1' Hv0 s Hs Hn Hk. unfold write_system_state, arg_ptr. rewrite H1'. cbn [of_option]. rewrite bind_ret_l. rewrite (proj2 (Z.eqb_neq v 0)) by done.
  assert (Hstr : forall c : core, nodes c !! name = Some (String_literal s) -> string_arg args 0 c = Ok s c).
  { intros c' Hc. unfold string_arg, arg, arg_ptr. rewrite H0'. cbn [of_option]. rewrite bind_assoc, bind_ret_l, bind_assoc, bind_unfold. cbn [gets]. rewrite Hc. done. }
  assert (Hclone : forall p (c : core), p <> 0 -> nodes c !! p = Some n -> exists q, q <> 0 /\ nodes c !! q = None /\ clone_literal p c = Ok q (with_nodes (<[q := n]> (nodes c)) c)).
  { intros p c' Hp Hc. destruct (new_node_Ok n c') as (q & Hq & En). destruct (new_node_inv _ _ _ _ En) as (_ & Hq0 & Hqn). exists q. split; [done|]. split; [done|].
    unfold clone_literal. rewrite (proj2 (Z.eqb_neq p 0)) by done. rewrite bind_unfold. cbn [gets]. rewrite Hc. cbn [of_option]. rewrite bind_ret_l. by destruct n. }
  rewrite (bind_Ok _ _ _ _ _ (Hstr c Hs)). destruct (Hclone v c Hv0 Hn) as (q & Hq0 & Hqn & Eq). rewrite (bind_Ok _ _ _ _ _ Eq).
  unfold set_state_value. rewrite bind_unfold. cbn [modify ret]. eexists. split; [reflexivity|]. set (c1 := with_global_states _ _).
  assert (Hq1 : nodes c1 !! q = Some n) by (cbn; by rewrite lookup_insert_eq). assert (Hs1 : nodes c1 !! name = Some (String_literal s)) by (cbn; rewrite lookup_insert_ne by congruence; done).
  unfold read_system_state. rewrite (bind_Ok _ _ _ _ _ (Hstr c1 Hs1)), bind_unfold. cbn [gets].
  assert (Hst : default 0 (global_states c1 !! s) = q) by (cbn; by rewrite lookup_insert_eq). rewrite Hst, (proj2 (Z.eqb_neq q 0)) by done.
  destruct (Hclone q c1 Hq0 Hq1) as (r & _ & _ & Er). eexists _, _. split; [exact Er|]. cbn [nodes with_nodes]. by rewrite lookup_insert_eq.
Qed.

(** ** Which function a name calls *)

(** A function of the script that is named as a statement runs outside of any machine; when
    it is called it runs in the machine that calls it. *)
Lemma call_keeps_machine fuel root_fuel ev_size info_size smp name b (a : acts) sm n :
  ceps_fns name = None -> builtin ev_size info_size smp name [] (a_core a) = Ok None (a_core a) -> plugin_functions name = None ->
  smp <> 0 -> machines (a_core a) !! smp = Some sm -> find_action name sm = None -> global_funcs a !! name = Some b -> b <> 0 ->
  nodes (a_core a) !! b = Some n -> params_of n = [] ->
  body_of smp name a = Ok (Some (0, b)) a /\
  ceps_interface_eval_func ev_size info_size fuel root_fuel smp name [] a = Actions.execute_action_seq fuel root_fuel smp b a.
Proof.
  intros Hf Hb Hpl Hs Hm Ha Hg Hb0 Hn Hpar.
  assert (Hd : on_core (deref_sm smp) a = Ok sm a) by (unfold on_core, zoom, deref_sm; rewrite bind_unfold; cbn [gets]; rewrite Hm; by destruct a).
  assert (H0' : (smp =? 0) = false) by by apply Z.eqb_neq. split.
  - unfold body_of. rewrite H0', bind_assoc, (bind_Ok _ _ _ _ _ Hd), bind_ret_l, Ha, bind_unfold. cbn [get ret]. by rewrite Hg.
  - unfold ceps_interface_eval_func. rewrite Hf. assert (Hbu : on_core (builtin ev_size info_size smp name []) a = Ok None a) by (unfold on_core, zoom; rewrite Hb; by destruct a).
    rewrite (bind_Ok _ _ _ _ _ Hbu), Hpl. unfold function_body. rewrite H0', bind_assoc, bind_assoc, (bind_Ok _ _ _ _ _ Hd), bind_ret_l, Ha. cbn [Z.eqb].
    rewrite bind_unfold, bind_unfold. cbn [get ret]. rewrite Hg. cbn [default from_option id]. rewrite (proj2 (Z.eqb_neq b 0)) by done.
    unfold call_body. rewrite bind_unfold. cbn [get]. rewrite Hn. cbn [of_option]. by rewrite bind_ret_l, Hpar.
Qed.
End builtins.

Module BuiltinsExample.
Definition no_library : Library := {|
  to_string_double _ := "";
  ceps_fns _ := None;
  plugin_functions _ := None;
  params_of _ := [];
  registered _ _ _ := None;
  unit_of _ _ := []
|}.

(** A state x with the value 1 and an object 2 for a new value. *)
Definition with_state : core :=
  let c := FetchWitness.core0 FetchWitness.queue0 in
  with_global_states {["x" := 1]} (with_nodes {[1 := Int_literal 1; 2 := Int_literal 2]} c).

Lemma changed_reads_freed_witness :
  (exists r c1, changed_state (H := event_interpreter) (H0 := no_library) "x" with_state = Ok r c1) /\
  forall r c1, changed_state (H := event_interpreter) (H0 := no_library) "x" with_state = Ok r c1 ->
    exists c2, sm_action_assignment (H := event_interpreter) (Identifier "x") (Symbol "x" "Systemstate") 2 c1 = Ok 2 c2 /\
      changed_state (H := event_interpreter) (H0 := no_library) "x" c2 = Undef.
Proof.
  apply (changed_reads_freed (H := event_interpreter) (H0 := no_library) "x" (Identifier "x") 2 (Int_literal 2) 1 with_state).
  - reflexivity.
  - discriminate.
  - by eexists.
  - reflexivity.
  - left. reflexivity.
Defined.
End BuiltinsExample.
