(* ===== verification/ByteSeq.v ===== *)
(** * ByteSeq: byte sequences in scripts

    core/src/sm_global_functions.cpp: make_byte_sequence builds an array of bytes from typed
    values, breakup_byte_sequence reads bit fields of an array into variables. The array the
    writer fills is the state of its pass; variables are objects that symbols and system
    states point to. *)

From Stdlib Require Import Floats.SpecFloat.
From S2P Require Import Prelude MachineInt F64 Ast RawFrame.

(** type_descr_to_bitwidth_and_signedness *)
Definition type_descr : list (string * (Z * bool)) :=
  [("bit", (1, false)); ("bool", (1, false)); ("boolean", (1, false)); ("int2", (2, true)); ("uint2", (2, false));
   ("int3", (3, true)); ("uint3", (3, false)); ("int4", (4, true)); ("uint4", (4, false)); ("int5", (5, true));
   ("uint5", (5, false)); ("int6", (6, true)); ("uint6", (6, false)); ("int7", (7, true)); ("uint7", (7, false));
   ("byte", (8, true)); ("ubyte", (8, false)); ("sbyte", (8, true)); ("char", (8, true)); ("schar", (8, true));
   ("int8", (8, true)); ("uint8", (8, false)); ("int16", (16, true)); ("uint16", (16, false)); ("int24", (24, true));
   ("uint24", (24, false)); ("int32", (32, true)); ("uint32", (32, false)); ("int40", (40, true)); ("uint40", (40, false));
   ("int48", (48, true)); ("uint48", (48, false)); ("int56", (56, true)); ("uint56", (56, false)); ("int64", (64, true));
   ("uint64", (64, false))].

(** The parts of a call: the arguments as ceps finds them; printing. *)
Class Calls := {
  call_args : list node -> list node;
  show_arg : node -> string
}.

(** ** Single precision *)

Definition f32_bits (nan : Z) (f : spec_float) : Z :=
  let sign (s : bool) := if s then 2 ^ 31 else 0 in
  match f with
  | S754_zero s => sign s
  | S754_infinity s => sign s + 255 * 2 ^ 23
  | S754_nan => nan
  | S754_finite s p e =>
    if Z.pos p <? 2 ^ 23 then sign s + Z.pos p else sign s + (e + 150) * 2 ^ 23 + (Z.pos p - 2 ^ 23)
  end.

Definition f32_of_z (z : Z) : Z := f32_bits 0 (binary_normalize 24 128 z 0 false).

(** [(float)d]; a NaN keeps the upper bits of its payload. *)
Definition f32_of_f64 (b : Z) : Z :=
  let nan := (if Z.testbit b 63 then 2 ^ 31 else 0) + 255 * 2 ^ 23 + Z.lor (2 ^ 22) (Z.land (Z.shiftr b 29) (2 ^ 23 - 1)) in
  match f64_of_bits b with
  | S754_finite s p e => f32_bits nan (binary_normalize 24 128 (if s then Z.neg p else Z.pos p) e s)
  | f => f32_bits nan f
  end.

(** [(std::int64_t)d] *)
Definition s64_of_f64 (b : Z) : option Z :=
  match f64_of_bits b with
  | S754_infinity _ | S754_nan => None
  | _ => let z := f64_to_z b in if fits_s 64 z then Some z else None
  end.

Section byteseq.
Context `{Calls}.

(** ** make_byte_sequence *)

Definition not_supported (n : node) : exn := Fatal (-1) ("make_byte_sequence(): unsupported argument:" +:+ show_arg n).

(** The bytes of the variable [j] a literal is assigned to; a prefix of them is copied. *)
Definition object_of (bw : Z) (iss is_real : bool) (n : node) : M (list Z) (list Z) :=
  match n with
  | Int_literal v =>
    if negb is_real then ret (le_enc 8 v)
    else if bw =? 32 then ret (le_enc 4 (f32_of_z v)) else ret (le_enc 8 (f64_of_z 0 v))
  | Float_literal b =>
    if negb is_real then
      if negb iss then let! j := of_option (u64_of_literal n) in ret (le_enc 8 j)
      else let! j := of_option (s64_of_f64 b) in ret (le_enc 8 j)
    else if bw =? 32 then ret (le_enc 4 (f32_of_f64 b)) else ret (le_enc 8 b)
  | _ => throw (not_supported n)
  end.

(** memcpy of the first [n] bytes; reading behind the variable is undefined. *)
Definition memcpy_to (pos : Z) (n : nat) (src : list Z) : M (list Z) unit :=
  let! bs := of_option (slice_get src 0 n) in
  let! chunk := get in
  let! chunk := of_option (slice_set chunk pos bs) in
  modify (fun _ => chunk).

(** The loop over a vector: the sum of the sizes. *)
Definition sum_over (one : Z -> node -> M (list Z) Z) (pos : Z) (l : list node) : M (list Z) Z :=
  foldM l (fun s e => let! r := one (pos + s) e in ret (s + r)) 0.

(** make_byte_sequence_helper for one node. *)
Fixpoint make_helper (fuel : nat) (do_write : bool) (bw : Z) (iss is_real : bool) (pos : Z) (n : node) : M (list Z) Z :=
  match fuel with
  | O => out_of_fuel
  | S fuel' =>
    match n with
    | Func_call parts =>
      match parts with
      | Identifier func_id :: _ =>
        match find_type type_descr func_id with
        | Some t => sum_over (make_helper fuel' do_write t.1 t.2 is_real) pos (call_args parts)
        | None =>
          if String.eqb func_id "real32" || String.eqb func_id "float"
          then sum_over (make_helper fuel' do_write 32 true true) pos (call_args parts)
          else if String.eqb func_id "make_byte_sequence"
          then sum_over (make_helper fuel' do_write bw iss is_real) pos (call_args parts)
          else throw (not_supported n)
        end
      | _ => undef
      end
    | _ =>
      if negb do_write then ret (bw / 8)
      else
        let! j := object_of bw iss is_real n in
        do! memcpy_to pos (Z.to_nat (bw / 8)) j in
        ret (bw / 8)
    end
  end.

Definition make_args (fuel : nat) (do_write : bool) (args : list node) : M (list Z) Z :=
  sum_over (make_helper fuel do_write 8 false false) 0 args.

(** make_byte_sequence and handle_make_byte_sequence: one pass for the size, one that
    writes; [uninit] is what fresh memory holds. *)
Definition handle_make_byte_sequence (uninit : Z) (fuel : nat) (args : list node) : outcome (list Z) unit :=
  match make_args fuel false args [] with
  | Ok size _ =>
    if size =? 0 then Ok tt []
    else
      match make_args fuel true args (replicate (Z.to_nat size) uninit) with
      | Ok _ chunk => Ok tt chunk
      | Throw e c => Throw e c
      | Undef => Undef
      | OutOfFuel => OutOfFuel
      end
  | Throw e c => Throw e c
  | Undef => Undef
  | OutOfFuel => OutOfFuel
  end.

(** ** breakup_byte_sequence: one field *)

Definition buffer_size : nat := 10.

(** [buffer[..] = 0xFF] from [n] to the end. *)
Definition fill_ones (l : list Z) : list Z := l ++ replicate (buffer_size - length l) 255.
Definition fill_zeros (l : list Z) : list Z := l ++ replicate (buffer_size - length l) 0.

(** The chains of tests on the number of bits; other numbers leave the byte alone. *)
Definition mask (k b : Z) : Z :=
  if k =? 1 then Z.land b 1 else if k =? 2 then Z.land b 3 else if k =? 3 then Z.land b 7 else if k =? 4 then Z.land b 15
  else if k =? 5 then Z.land b 31 else if k =? 6 then Z.land b 63 else if k =? 7 then Z.land b 127 else b.

Definition sign_fill (k b : Z) : Z :=
  if k =? 1 then Z.lor b 0xFE else if k =? 2 then Z.lor b 0xFC else if k =? 3 then Z.lor b 0xF8 else if k =? 4 then Z.lor b 0xF0
  else if k =? 5 then Z.lor b 0xE0 else if k =? 6 then Z.lor b 0xC0 else if k =? 7 then Z.lor b 0x80 else b.

(** [b = (b << 1) | 1], [n] times. *)
Fixpoint ones_loop (n : nat) (b : Z) : Z :=
  match n with O => b | S n' => ones_loop n' (to_u 8 (Z.lor (Z.shiftl b 1) 1)) end.

(** The last byte of the field that is in the buffer, and the bytes before it. *)
Definition on_last (f : Z -> Z) (l : list Z) : list Z :=
  match last l with Some b => removelast l ++ [f b] | None => [] end.

Definition last_byte (l : list Z) : Z := default 0 (last l).

(** The shift over the bytes of the chunk: each gets the low bits of the next one. *)
Fixpoint shift_bytes (bit_pos : Z) (l : list Z) : list Z :=
  match l with
  | [] => []
  | [b] => [Z.shiftr b bit_pos]
  | b :: (c :: _) as l' => Z.lor (Z.shiftr b bit_pos) (to_u 8 (Z.shiftl c (8 - bit_pos))) :: shift_bytes bit_pos l'
  end.

(** The sign: the bits above the field in its last byte, and the bytes behind it. *)
Definition extend (iss : bool) (bw : Z) (l : list Z) : list Z :=
  let b := if bw mod 8 =? 0 then 0x80 else Z.shiftl 1 (bw mod 8 - 1) in
  if iss && negb (Z.land b (last_byte l) =? 0) then fill_ones (on_last (sign_fill (bw mod 8)) l) else fill_zeros l.

(** A field that begins with a byte. *)
Definition aligned_field (chunk : list Z) (pos bw : Z) (iss : bool) : option (list Z) :=
  if bw mod 8 =? 0 then
    l ← slice_get chunk pos (Z.to_nat (bw / 8));
    Some (if iss && negb (Z.land (last_byte l) 0x80 =? 0) then fill_ones l else fill_zeros l)
  else
    l ← slice_get chunk pos (Z.to_nat ((bw + 7) / 8));
    Some (extend iss bw (on_last (Z.land (ones_loop (Z.to_nat (bw mod 8 - 1)) 1)) l)).

(** A field that begins within a byte. *)
Definition unaligned_field (chunk : list Z) (pos bit_pos bw : Z) (iss : bool) : option (list Z) :=
  let tail := if 8 <? bit_pos + bw then (bit_pos + bw) mod 8 else 0 in
  let bytes_spawned := Z.to_nat ((bw + 7) / 8) in
  let bytes_in_chunk := (bytes_spawned + (if negb (tail =? 0)%Z then 1 else 0))%nat in
  l ← slice_get chunk pos bytes_in_chunk;
  let l := shift_bytes bit_pos (on_last (mask tail) l) in
  let l := if (bytes_spawned =? 1)%nat then match l with b :: l' => mask bw b :: l' | [] => [] end else l in
  let l := if (bytes_in_chunk =? bytes_spawned)%nat then l
           else on_last (fun b => if tail <=? bit_pos then 0 else Z.shiftr b bit_pos) l in
  let field := take bytes_spawned l in
  let rest := drop bytes_spawned l in
  Some (if iss && negb (Z.land (if bw mod 8 =? 0 then 0x80 else Z.shiftl 1 (bw mod 8 - 1)) (last_byte field) =? 0)
        then fill_ones (on_last (sign_fill (bw mod 8)) field) else fill_zeros (field ++ rest)).

(** The buffer a field of [bw] bits is read into, and how many of its bytes are the field's. *)
Definition field_buffer (chunk : list Z) (pos bit_pos bw : Z) (iss : bool) : option (list Z * nat) :=
  b ← (if bit_pos =? 0 then aligned_field chunk pos bw iss else unaligned_field chunk pos bit_pos bw iss);
  Some (b, Z.to_nat (if (bit_pos =? 0) && (bw mod 8 =? 0) then bw / 8 else (bw + 7) / 8)).

(** ** breakup_byte_sequence: variables *)

Inductive variable := Bytes (l : list Z) | Value (n : node).

(** A symbol of the symbol table: whether it is a variable, and the object it points to. *)
Record symbol := mkSym { is_VAR : bool; payload : Z }.

Record vars := mkVars {
  sym_table : gmap string symbol;
  states : gmap string Z;
  objects : gmap Z variable
}.

Definition with_objects (x : gmap Z variable) (s : vars) : vars := mkVars (sym_table s) (states s) x.

Definition is_id_or_symbol (n : node) : option (string * string) :=
  match n with Identifier nm => Some (nm, "") | Symbol nm k => Some (nm, k) | _ => None end.

Definition no_variable (nm what : string) : exn := Fatal (-1) ("breakup_byte_sequence(). '" +:+ nm +:+ what).

(** The object a name stands for. *)
Definition destination (nm kind : string) : M vars Z :=
  let! s := get in
  match (if String.eqb kind "" then sym_table s !! nm else None) with
  | Some sym =>
    if negb (is_VAR sym) || (payload sym =? 0) then throw (no_variable nm "' not a variable.[1]") else ret (payload sym)
  | None =>
    match states s !! nm with
    | Some p => ret p
    | None => throw (no_variable nm "' not a variable.[2]")
    end
  end.

(** The buffer is stored as the type of the object demands; [p] is the object, [src] the
    array that is read, which must not be written. *)
Definition store (src : Z) (nm : string) (buffer : list Z) (bytes_spawned : nat) (p : Z) : M vars unit :=
  let put (v : variable) : M vars unit := modify (fun s => with_objects (<[p := v]> (objects s)) s) in
  let! s := get in
  let! dest := of_option (objects s !! p) in
  match dest with
  | Bytes _ => if p =? src then undef else put (Bytes (take bytes_spawned buffer))
  | Value (Int_literal _) => put (Value (Int_literal (to_s 32 (le_dec (take 4 buffer)))))
  | Value (Float_literal _) => put (Value (Float_literal (le_dec (take 8 buffer))))
  | Value (String_literal _) =>
    let! bs := of_option (until_nul buffer) in put (Value (String_literal (string_of_bytes bs)))
  | _ => throw (Fatal (-1) ("breakup_byte_sequence(). Type of '" +:+ nm +:+ "' not supported.[1]"))
  end.

(** The bytes of the array at this moment. *)
Definition source (src : Z) : M vars (list Z) :=
  let! s := get in
  match objects s !! src with Some (Bytes l) => ret l | _ => undef end.

Definition read_field (src : Z) (bw : Z) (iss : bool) (pos bit_pos : Z) (n : node) : M vars Z :=
  let! chunk := source src in
  let! b := of_option (field_buffer chunk pos bit_pos bw iss) in
  match is_id_or_symbol n with
  | None => throw (Fatal (-1) ("breakup_byte_sequence(). Expected a variable, got " +:+ show_arg n))
  | Some (nm, kind) =>
    if String.eqb nm "any" then ret bw
    else
      let! p := destination nm kind in
      do! store src nm b.1 b.2 p in
      ret bw
  end.

(** The loop over a range: the sum of the bits. *)
Definition sum_bits (one : Z -> Z -> node -> M vars Z) (pos bit_pos : Z) (l : list node) : M vars Z :=
  foldM l (fun s e => let! r := one ((s + bit_pos) / 8 + pos) ((s + bit_pos) mod 8) e in ret (s + r)) 0.

(** breakup_byte_sequence_helper for one node; [do_read] is true in the only call. *)
Fixpoint breakup_helper (fuel : nat) (src : Z) (do_read : bool) (bw : Z) (iss : bool) (pos bit_pos : Z) (n : node) : M vars Z :=
  match fuel with
  | O => out_of_fuel
  | S fuel' =>
    match n with
    | Func_call parts =>
      match parts with
      | Identifier func_id :: _ =>
        match find_type type_descr func_id with
        | Some t => sum_bits (breakup_helper fuel' src do_read t.1 t.2) pos bit_pos (call_args parts)
        | None => throw (Fatal (-1) ("breakup_byte_sequence(): unsupported type:" +:+ show_arg n))
        end
      | _ => undef
      end
    | _ =>
      if negb do_read then ret bw
      else if bw =? 0 then ret 0
      else read_field src bw iss pos bit_pos n
    end
  end.

(** The array that the first argument names. *)
Definition array_of (n : node) : M vars Z :=
  match is_id_or_symbol n with
  | None => throw (Fatal (-1) "breakup_byte_sequence(). Expect a variable as first argument.")
  | Some (nm, kind) =>
    let! s := get in
    match (if String.eqb kind "" then sym_table s !! nm else None) with
    | Some sym =>
      if negb (is_VAR sym) || (payload sym =? 0) then throw (no_variable nm "' not a variable.[1]")
      else
        let! v := of_option (objects s !! payload sym) in
        match v with Bytes _ => ret (payload sym) | _ => throw (no_variable nm "' not a variable.[1]") end
    | None =>
      match states s !! nm with
      | None => throw (no_variable nm "' not a byte sequence.[2]")
      | Some p =>
        let! v := of_option (objects s !! p) in
        match v with Bytes _ => ret p | _ => throw (no_variable nm "' not a byte sequence.[2]") end
      end
    end
  end.

(** handle_breakup_byte_sequence: the number of bits read. *)
Definition handle_breakup_byte_sequence (fuel : nat) (args : list node) : M vars Z :=
  match args with
  | first :: (_ :: _) as fields =>
    let! src := array_of first in
    sum_bits (breakup_helper fuel src true 8 false) 0 0 fields
  | _ => throw (Fatal (-1) "breakup_byte_sequence(). Illformed argument(s).")
  end.
End byteseq.
