(* ===== verification/ByteSeqSpec.v ===== *)
(** * ByteSeqSpec: byte sequences hold what was put into them

    A field is read from any bit position with its sign; the variables get the fields; the
    writer lays its values out one behind the other, and what it wrote is read back. *)

From S2P Require Import Prelude MachineInt F64 Ast RawFrame RawFrameSpec ByteSeq.

(** ** Lists of bytes as numbers *)

Lemma le_dec_app l1 l2 : le_dec (l1 ++ l2) = le_dec l1 + 2 ^ (8 * Z.of_nat (length l1)) * le_dec l2.
Proof.
  induction l1 as [|b l1 IH]; [by rewrite Z.mul_1_l|]. cbn [app le_dec length]. rewrite IH, pow256_succ. lia.
Qed.

Lemma le_dec_zeros n : le_dec (replicate n 0) = 0.
Proof. induction n as [|n IH]; cbn; lia. Qed.

Lemma le_dec_ones n : le_dec (replicate n 255) = 2 ^ (8 * Z.of_nat n) - 1.
Proof. induction n as [|n IH]; [done|]. cbn [replicate le_dec]. rewrite IH, pow256_succ. lia. Qed.

Lemma le_dec_mod l1 l2 : Forall is_byte l1 -> le_dec (l1 ++ l2) mod 2 ^ (8 * Z.of_nat (length l1)) = le_dec l1.
Proof.
  intros H. rewrite le_dec_app, Z.mul_comm, Z.mod_add by (apply Z.pow_nonzero; lia). apply Z.mod_small, le_dec_bound, H.
Qed.

Lemma le_dec_div l1 l2 : Forall is_byte l1 -> le_dec (l1 ++ l2) / 2 ^ (8 * Z.of_nat (length l1)) = le_dec l2.
Proof.
  intros H. rewrite le_dec_app, Z.mul_comm, Z.div_add by (apply Z.pow_nonzero; lia). rewrite Z.div_small; [lia|apply le_dec_bound, H].
Qed.

Lemma slice_field d a n l : Forall is_byte d -> slice_get d a n = Some l ->
  Forall is_byte l /\ length l = n /\ le_dec l = field d (8 * a) (8 * Z.of_nat n).
Proof.
  intros Hd Hs. pose proof (slice_get_length _ _ _ _ Hs) as Hn. unfold slice_get in Hs. destruct (in_bounds d a n) eqn:E; [|done].
  apply in_bounds_spec in E. assert (Hl : l = take n (drop (Z.to_nat a) d)) by congruence. clear Hs.
  pose proof (take_drop (Z.to_nat a) d) as H1. pose proof (take_drop n (drop (Z.to_nat a) d)) as H2. rewrite <- Hl in H2.
  rewrite <- H2 in H1. assert (H3 : Forall is_byte (take (Z.to_nat a) d ++ l ++ drop n (drop (Z.to_nat a) d))) by by rewrite H1.
  apply Forall_app in H3 as [Ha H3]. apply Forall_app in H3 as [Hb _]. split; [done|]. split; [done|].
  unfold field. rewrite <- H1. replace (8 * a) with (8 * Z.of_nat (length (take (Z.to_nat a) d))) by (rewrite length_take; lia).
  rewrite le_dec_div by done. rewrite <- Hn. by rewrite le_dec_mod.
Qed.

(** Fields of fields. *)
Lemma field_inner d off w o v : Forall is_byte d -> 0 <= off -> 0 <= o -> 0 <= v -> o + v <= w ->
  (field d off w / 2 ^ o) mod 2 ^ v = field d (off + o) v.
Proof.
  intros Hd Hoff Ho Hv Hw. apply Z.bits_inj'. intros j Hj. rewrite testbit_field by (done || lia). destruct (Z.ltb_spec j v).
  - rewrite Z.mod_pow2_bits_low, Z.div_pow2_bits, testbit_field by (done || lia). rewrite (proj2 (Z.ltb_lt _ _)) by lia.
    cbn. f_equal. lia.
  - by rewrite Z.mod_pow2_bits_high by lia.
Qed.

Lemma field_range d off w : 0 <= w -> 0 <= field d off w < 2 ^ w.
Proof. intros. apply Z.mod_pos_bound. by apply pow2_pos. Qed.

(** ** Parts of a field *)

Lemma mask_mod k b : 1 <= k <= 8 -> is_byte b -> mask k b = b mod 2 ^ k.
Proof.
  intros Hk Hb. assert (k = 1 \/ k = 2 \/ k = 3 \/ k = 4 \/ k = 5 \/ k = 6 \/ k = 7 \/ k = 8) as [->|[->|[->|[->|[->|[->|[->| ->]]]]]]] by lia;
    try (match goal with |- mask ?k b = _ => exact (Z.land_ones b k ltac:(lia)) end).
  unfold is_byte in Hb. symmetry. by apply Z.mod_small.
Qed.

Lemma ones_mod k b : 1 <= k <= 7 -> Z.land (ones_loop (Z.to_nat (k - 1)) 1) b = b mod 2 ^ k.
Proof.
  intros Hk. rewrite Z.land_comm. assert (k = 1 \/ k = 2 \/ k = 3 \/ k = 4 \/ k = 5 \/ k = 6 \/ k = 7) as [->|[->|[->|[->|[->|[->| ->]]]]]] by lia;
    match goal with |- _ = b mod 2 ^ ?k => exact (Z.land_ones b k ltac:(lia)) end.
Qed.

Lemma on_last_snoc f l b : on_last f (l ++ [b]) = l ++ [f b].
Proof. unfold on_last. by rewrite last_snoc, removelast_last. Qed.

Lemma last_byte_snoc l b : last_byte (l ++ [b]) = b.
Proof. unfold last_byte. by rewrite last_snoc. Qed.

Lemma snoc_of_length {A} (l : list A) n : length l = S n -> exists l' b, l = l' ++ [b] /\ length l' = n.
Proof.
  induction l as [|b l _] using rev_ind; [done|]. intros H. exists l, b. split; [done|]. rewrite length_app in H. cbn in H. lia.
Qed.

Lemma lor_disjoint x y k : 0 <= x < 2 ^ k -> y mod 2 ^ k = 0 -> 0 <= k -> Z.lor x y = x + y.
Proof.
  intros Hx Hy Hk. rewrite <- Z.add_lor_land. assert (Z.land x y = 0) as ->; [|lia]. apply Z.bits_inj'. intros j Hj.
  rewrite Z.land_spec, Z.testbit_0_l. destruct (Z.lt_ge_cases j k).
  - assert (Z.testbit y j = false) as ->; [|apply andb_false_r]. rewrite <- (Z.mod_pow2_bits_low y k j), Hy by lia. apply Z.testbit_0_l.
  - assert (Z.testbit x j = false) as ->; [|done]. rewrite <- (Z.mod_small x (2 ^ k)) by done. by apply Z.mod_pow2_bits_high.
Qed.

Lemma upper_part bp c Y : 0 < bp < 8 -> Y mod 256 = c mod 256 -> to_u 8 (Z.shiftl c (8 - bp)) = 2 ^ (8 - bp) * (Y mod 2 ^ bp).
Proof.
  intros Hbp HY. pose proof (pow2_pos bp ltac:(lia)) as Hp. pose proof (pow2_pos (8 - bp) ltac:(lia)) as Hq.
  assert (H256 : 2 ^ (8 - bp) * 2 ^ bp = 2 ^ 8) by (rewrite <- Z.pow_add_r by lia; by replace (8 - bp + bp) with 8 by lia).
  unfold to_u. rewrite Z.shiftl_mul_pow2 by lia. rewrite <- H256, (Z.mul_comm c), Z.mul_mod_distr_l by lia. f_equal.
  assert (Hm : forall x, (x mod 256) mod 2 ^ bp = x mod 2 ^ bp).
  { intros x. apply Z.mod_mod_divide. exists (2 ^ (8 - bp)). rewrite H256. done. }
  by rewrite <- (Hm c), <- (Hm Y), HY.
Qed.

(** The shift over the bytes is a division. *)
Lemma shift_bytes_div bp l : 0 < bp < 8 -> Forall is_byte l -> le_dec (shift_bytes bp l) = le_dec l / 2 ^ bp.
Proof.
  intros Hbp. induction 1 as [|b l Hb Hl IH]; [by cbn|]. destruct l as [|c l].
  - cbn [shift_bytes le_dec]. rewrite Z.shiftr_div_pow2 by lia. rewrite Z.mul_0_r, !Z.add_0_r. done.
  - change (shift_bytes bp (b :: c :: l)) with (Z.lor (Z.shiftr b bp) (to_u 8 (Z.shiftl c (8 - bp))) :: shift_bytes bp (c :: l)).
    change (le_dec (b :: c :: l)) with (b + 256 * le_dec (c :: l)). change (le_dec (?x :: ?r)) with (x + 256 * le_dec r) at 1.
    rewrite IH. clear IH. assert (HY : le_dec (c :: l) mod 256 = c mod 256) by (cbn [le_dec]; rewrite Z.mul_comm, Z.mod_add; lia).
    revert HY. generalize (le_dec (c :: l)). intros Y HY. pose proof (pow2_pos bp ltac:(lia)) as Hp. pose proof (pow2_pos (8 - bp) ltac:(lia)) as Hq.
    assert (H256 : 256 = 2 ^ (8 - bp) * 2 ^ bp) by (rewrite <- Z.pow_add_r by lia; by replace (8 - bp + bp) with 8 by lia).
    unfold is_byte in Hb. rewrite (upper_part bp c Y Hbp HY), (lor_disjoint _ _ (8 - bp)); [| |rewrite Z.mul_comm; apply Z.mod_mul; lia|lia].
    + rewrite Z.shiftr_div_pow2 by lia. set (p := 2 ^ bp) in *. set (a := 2 ^ (8 - bp)) in *.
      assert (HYp : Y = p * (Y / p) + Y mod p) by (apply Z.div_mod; lia).
      assert (b + 256 * Y = b + (a * Y) * p) as -> by (rewrite H256; ring). rewrite Z.div_add by lia.
      rewrite HYp at 3. rewrite H256. ring.
    + rewrite Z.shiftr_div_pow2 by lia. split; [apply Z.div_pos; lia|]. apply Z.div_lt_upper_bound; lia.
Qed.

(** ** The sign *)

(** What the ten bytes of the buffer stand for. *)
Definition extended (iss : bool) (bw v : Z) : Z := to_u 80 (if iss then to_s bw v else v).

Lemma to_s_half bw v : 1 <= bw -> 0 <= v < 2 ^ bw -> to_s bw v = if v <? 2 ^ (bw - 1) then v else v - 2 ^ bw.
Proof.
  intros Hbw Hv. pose proof (half_pow bw Hbw) as Hp. unfold to_s. destruct (Z.ltb_spec v (2 ^ (bw - 1))).
  - rewrite Z.mod_small by lia. lia.
  - assert (v + 2 ^ (bw - 1) = v - 2 ^ (bw - 1) + 1 * 2 ^ bw) as -> by lia. rewrite Z.mod_add by lia. rewrite Z.mod_small by lia. lia.
Qed.

Lemma fill_zeros_dec l : (length l <= 10)%nat -> length (fill_zeros l) = 10%nat /\ le_dec (fill_zeros l) = le_dec l.
Proof. intros H. unfold fill_zeros, buffer_size. rewrite length_app, length_replicate, le_dec_app, le_dec_zeros. lia. Qed.

Lemma fill_ones_dec l : (length l <= 10)%nat ->
  length (fill_ones l) = 10%nat /\ le_dec (fill_ones l) = le_dec l + 2 ^ 80 - 2 ^ (8 * Z.of_nat (length l)).
Proof.
  intros H. unfold fill_ones, buffer_size. rewrite length_app, length_replicate, le_dec_app, le_dec_ones. split; [lia|].
  rewrite Z.mul_sub_distr_l, <- Z.pow_add_r by lia. replace (8 * Z.of_nat (length l) + 8 * Z.of_nat (10 - length l)) with 80 by lia. lia.
Qed.

Lemma fill_bytes l : Forall is_byte l -> Forall is_byte (fill_zeros l) /\ Forall is_byte (fill_ones l).
Proof. intros H. split; apply Forall_app; (split; [done|]); apply Forall_replicate; unfold is_byte; lia. Qed.

(** Fields within a byte, and the upper half of a byte. *)
Lemma small_fields k v : 1 <= k <= 7 -> 0 <= v < 2 ^ k ->
  (Z.land (Z.shiftl 1 (k - 1)) v =? 0) = (v <? 2 ^ (k - 1)) /\ (2 ^ (k - 1) <= v -> sign_fill k v = v + 256 - 2 ^ k).
Proof.
  intros Hk Hv.
  assert (H : forallb (fun k => forallb (fun v => Bool.eqb (Z.land (Z.shiftl 1 (k - 1)) v =? 0) (v <? 2 ^ (k - 1)) &&
                ((v <? 2 ^ (k - 1)) || (sign_fill k v =? v + 256 - 2 ^ k))) (zrange 0 (2 ^ k))) (zrange 1 8) = true) by (vm_compute; reflexivity).
  rewrite forallb_forall in H. specialize (H k). rewrite <- list_elem_of_In, elem_of_zrange in H. specialize (H ltac:(lia)).
  rewrite forallb_forall in H. specialize (H v). rewrite <- list_elem_of_In, elem_of_zrange in H. specialize (H ltac:(lia)).
  apply andb_true_iff in H as [H1%Bool.eqb_prop H2]. split; [done|]. intros Hge. rewrite (proj2 (Z.ltb_ge _ _)) in H2 by lia. by apply Z.eqb_eq in H2.
Qed.

Lemma upper_half x : is_byte x -> (Z.land 0x80 x =? 0) = (x <? 128).
Proof.
  intros Hx. assert (H : forallb (fun x => Bool.eqb (Z.land 0x80 x =? 0) (x <? 128)) (zrange 0 256) = true) by (vm_compute; reflexivity).
  rewrite forallb_forall in H. specialize (H x). rewrite <- list_elem_of_In, elem_of_zrange in H. by apply Bool.eqb_prop, H.
Qed.

(** The widths of the types. *)
Definition width_ok (bw : Z) : Prop := 1 <= bw <= 8 \/ bw mod 8 = 0 /\ 8 <= bw <= 64.

(** What the three branches end with: [l] is the field, [rest] is zero. *)
Definition finish (iss : bool) (bw : Z) (l rest : list Z) : list Z :=
  if iss && negb (Z.land (if bw mod 8 =? 0 then 0x80 else Z.shiftl 1 (bw mod 8 - 1)) (last_byte l) =? 0)
  then fill_ones (on_last (sign_fill (bw mod 8)) l) else fill_zeros (l ++ rest).

Definition holds (r : list Z) (iss : bool) (bw v : Z) : Prop :=
  length r = 10%nat /\ Forall is_byte r /\ le_dec r = extended iss bw v.

(** The sign of a field that is [l] byte by byte. *)
Lemma sign_of_field bw l : width_ok bw -> Forall is_byte l -> Z.of_nat (length l) = (bw + 7) / 8 -> le_dec l < 2 ^ bw ->
  (Z.land (if bw mod 8 =? 0 then 0x80 else Z.shiftl 1 (bw mod 8 - 1)) (last_byte l) =? 0) = (le_dec l <? 2 ^ (bw - 1)) /\
  (2 ^ (bw - 1) <= le_dec l -> Forall is_byte (on_last (sign_fill (bw mod 8)) l) /\
    length (on_last (sign_fill (bw mod 8)) l) = length l /\
    le_dec (on_last (sign_fill (bw mod 8)) l) = le_dec l - 2 ^ bw + 2 ^ (8 * Z.of_nat (length l))).
Proof.
  intros Hw Hl Hlen Hlt. assert (Hpos : (bw + 7) / 8 >= 1) by (apply Z.le_ge, Z.div_le_lower_bound; unfold width_ok in Hw; lia).
  destruct (snoc_of_length l (pred (length l)) ltac:(lia)) as (l' & x & -> & Hl'). rewrite last_byte_snoc, on_last_snoc.
  apply Forall_app in Hl as [Hl1 Hx%Forall_inv]. rewrite !length_app in *. cbn [length] in *.
  destruct (decide (bw mod 8 = 0)) as [Hm|Hm].
  - rewrite (proj2 (Z.eqb_eq (bw mod 8) 0) Hm). assert (E : bw = 8 * Z.of_nat (length l') + 8).
    { assert (Hd : bw = 8 * (bw / 8)) by (rewrite (Z.div_mod bw 8) at 1 by lia; lia).
      assert (bw + 7 = 7 + bw / 8 * 8) as Hd7 by lia. rewrite Hd7, Z.div_add in Hlen by lia. change (7 / 8) with 0 in Hlen. lia. }
    rewrite upper_half by done. pose proof (le_dec_bound l' Hl1) as Hb. pose proof (pow2_pos (8 * Z.of_nat (length l')) ltac:(lia)) as Hp.
    rewrite le_dec_app in *. replace (bw - 1) with (8 * Z.of_nat (length l') + 7) by lia. rewrite !Z.pow_add_r by lia. change (2 ^ 7) with 128.
    cbn [le_dec] in *. split.
    + apply Bool.eq_iff_eq_true. rewrite !Z.ltb_lt. nia.
    + intros Hge. rewrite Hm. cbn [sign_fill Z.eqb]. split; [by apply Forall_app; split; [|apply Forall_singleton]|].
      rewrite le_dec_app. split; [done|]. cbn [le_dec]. rewrite E, Z.pow_add_r by lia.
      replace (8 * Z.of_nat (length l' + 1)) with (8 * Z.of_nat (length l') + 8) by lia. rewrite Z.pow_add_r by lia. lia.
  - assert (Hk : 1 <= bw <= 7) by (unfold width_ok in Hw; destruct Hw as [Hw|Hw]; [destruct (decide (bw = 8)) as [->|]; [by destruct Hm|lia]|lia]).
    rewrite (proj2 (Z.eqb_neq (bw mod 8) 0) Hm). rewrite Z.mod_small by lia. assert (H1 : (bw + 7) / 8 = 1).
    { symmetry. apply (Z.div_unique _ _ _ (bw - 1)); lia. }
    assert (l' = []) as -> by (destruct l'; [done|cbn in *; lia]). cbn [app le_dec length] in *. rewrite Z.mul_0_r, Z.add_0_r in *. unfold is_byte in Hx.
    destruct (small_fields bw x Hk ltac:(lia)) as [H2 H3]. split; [done|]. intros Hge. rewrite (H3 Hge). pose proof (half_pow bw ltac:(lia)) as Hp.
    assert (2 ^ bw <= 2 ^ 7) by (apply Z.pow_le_mono_r; lia).
    split; [apply Forall_singleton; unfold is_byte; lia|]. split; [done|]. change (8 * Z.of_nat 1) with 8. lia.
Qed.

Lemma finish_holds iss bw l rest : width_ok bw -> Forall is_byte l -> Z.of_nat (length l) = (bw + 7) / 8 -> le_dec l < 2 ^ bw ->
  Forall is_byte rest -> le_dec rest = 0 -> (length rest <= 1)%nat -> holds (finish iss bw l rest) iss bw (le_dec l).
Proof.
  intros Hw Hl Hlen Hlt Hr Hr0 Hr1. destruct (sign_of_field bw l Hw Hl Hlen Hlt) as [Hs Hf]. pose proof (le_dec_bound l Hl) as Hb.
  assert (H8 : (bw + 7) / 8 <= 8) by (apply Z.lt_succ_r, Z.div_lt_upper_bound; unfold width_ok in Hw; lia).
  assert (Hbw : 1 <= bw <= 64) by (unfold width_ok in Hw; lia). assert (Hpw : 2 ^ bw <= 2 ^ 64) by (apply Z.pow_le_mono_r; lia).
  assert (Hplain : le_dec (l ++ rest) = le_dec l) by (rewrite le_dec_app, Hr0; lia).
  unfold finish, holds, extended. rewrite Hs, to_s_half by lia. destruct iss; cbn [andb].
  - destruct (Z.ltb_spec (le_dec l) (2 ^ (bw - 1))) as [Hlo|Hhi]; cbn [negb].
    + destruct (fill_zeros_dec (l ++ rest)) as [H1 H2]; [rewrite length_app; lia|]. split; [done|]. split; [apply fill_bytes; by apply Forall_app|].
      rewrite H2, Hplain, to_u_id by lia. done.
    + destruct (Hf Hhi) as (Hfb & Hfl & Hfd). destruct (fill_ones_dec (on_last (sign_fill (bw mod 8)) l)) as [H1 H2]; [lia|].
      split; [done|]. split; [by apply fill_bytes|]. rewrite H2, Hfd, Hfl. unfold to_u.
      replace (le_dec l - 2 ^ bw) with (le_dec l - 2 ^ bw + 2 ^ 80 + (-1) * 2 ^ 80) at 2 by lia. rewrite Z.mod_add by lia. rewrite Z.mod_small; lia.
  - destruct (fill_zeros_dec (l ++ rest)) as [H1 H2]; [rewrite length_app; lia|]. split; [done|]. split; [apply fill_bytes; by apply Forall_app|].
    rewrite H2, Hplain, to_u_id by lia. done.
Qed.

(** ** One field *)

Lemma spawned_bounds bw : width_ok bw -> 1 <= (bw + 7) / 8 <= 8 /\ bw <= 8 * ((bw + 7) / 8) /\ (bw mod 8 = 0 -> bw = 8 * (bw / 8) /\ (bw + 7) / 8 = bw / 8) /\
  (8 < bw -> bw = 8 * ((bw + 7) / 8)) /\ (bw <= 8 -> (bw + 7) / 8 = 1).
Proof.
  intros Hw. assert (H1 : 1 <= bw <= 64) by (unfold width_ok in Hw; lia).
  pose proof (Z.div_mod (bw + 7) 8 ltac:(lia)). pose proof (Z.mod_pos_bound (bw + 7) 8 ltac:(lia)).
  pose proof (Z.div_mod bw 8 ltac:(lia)). pose proof (Z.mod_pos_bound bw 8 ltac:(lia)). unfold width_ok in Hw.
  split; [lia|]. split; [lia|]. split; [lia|]. split; lia.
Qed.

Lemma aligned_holds d pos bw iss : width_ok bw -> Forall is_byte d -> 0 <= pos -> 8 * pos + bw <= 8 * Z.of_nat (length d) ->
  exists r, aligned_field d pos bw iss = Some r /\ holds r iss bw (field d (8 * pos) bw).
Proof.
  intros Hw Hd Hpos Hin. destruct (spawned_bounds bw Hw) as (Hn & Hbn & Hm & Hbig & Hsmall). assert (Hbw : 1 <= bw <= 64) by (unfold width_ok in Hw; lia).
  unfold aligned_field. destruct (Z.eqb_spec (bw mod 8) 0) as [E|E].
  - destruct (Hm E) as [E1 E2]. rewrite slice_get_Some by lia. set (l := take _ _).
    destruct (slice_field d pos (Z.to_nat (bw / 8)) l Hd) as (Hl & Hlen & Hdec); [by apply slice_get_Some; lia|].
    replace (8 * Z.of_nat (Z.to_nat (bw / 8))) with bw in Hdec by lia. cbn [mbind option_bind]. eexists. split; [reflexivity|].
    rewrite <- Hdec. pose proof (finish_holds iss bw l [] Hw Hl ltac:(lia)) as Hf. unfold finish in Hf. rewrite E in Hf. rewrite app_nil_r in Hf.
    rewrite (Z.land_comm (last_byte l)). cbn [Z.eqb] in Hf.
    assert (Hid : on_last (sign_fill 0) l = l); [|rewrite Hid in Hf; apply Hf; [rewrite Hdec; by apply field_range; lia|constructor|done|cbn; lia]].
    destruct (snoc_of_length l (pred (length l)) ltac:(lia)) as (l' & x & -> & _). by rewrite on_last_snoc.
  - assert (Hlt : bw < 8) by (destruct Hw as [Hw|[Hw _]]; [destruct (decide (bw = 8)) as [->|]; [by destruct E|lia]|done]).
    rewrite Hsmall by lia. rewrite slice_get_Some by lia. set (l := take _ _).
    destruct (slice_field d pos (Z.to_nat 1) l Hd) as (Hl & Hlen & Hdec); [by apply slice_get_Some; lia|].
    cbn [mbind option_bind]. eexists. split; [reflexivity|]. destruct l as [|x [|]]; try done. apply Forall_inv in Hl.
    change (on_last ?f [x]) with [f x]. rewrite Z.mod_small by lia. rewrite ones_mod by lia. cbn [le_dec] in Hdec. rewrite Z.mul_0_r, Z.add_0_r in Hdec.
    assert (Hx : x mod 2 ^ bw = field d (8 * pos) bw).
    { rewrite Hdec. pose proof (field_inner d (8 * pos) (8 * Z.of_nat (Z.to_nat 1)) 0 bw Hd) as Hfi. rewrite Z.pow_0_r, Z.div_1_r, Z.add_0_r in Hfi. apply Hfi; lia. }
    rewrite Hx. pose proof (field_range d (8 * pos) bw ltac:(lia)) as Hr. assert (2 ^ bw <= 2 ^ 7) by (apply Z.pow_le_mono_r; lia).
    pose proof (finish_holds iss bw [field d (8 * pos) bw] [] Hw) as Hf. cbn [le_dec length] in Hf. rewrite Z.mul_0_r, Z.add_0_r in Hf.
    unfold finish in Hf. rewrite app_nil_r in Hf. apply Hf; try done; try lia.
    + apply Forall_singleton. unfold is_byte. lia.
Qed.

(** The bytes of a field that begins within a byte: masking the last one, shifting and
    clearing the byte that is left over. *)
Lemma shifted_bytes d pos bp bw n tail l : Forall is_byte d -> 0 <= pos -> 0 < bp < 8 -> 1 <= n -> 1 <= tail <= bp -> 8 * n + tail = bp + bw ->
  slice_get d pos (Z.to_nat n + 1) = Some l ->
  exists f, shift_bytes bp (on_last (mask tail) l) = f ++ [0] /\ Z.of_nat (length f) = n /\ Forall is_byte f /\ le_dec f = field d (8 * pos + bp) bw.
Proof.
  intros Hd Hpos Hbp Hn Ht Hsum Hs. destruct (slice_field d pos _ l Hd Hs) as (Hl & Hlen & Hdec).
  destruct (snoc_of_length l (Z.to_nat n) ltac:(lia)) as (l' & x & -> & Hl'). rewrite on_last_snoc.
  apply Forall_app in Hl as [Hl1 Hx%Forall_inv]. rewrite mask_mod by (done || lia). pose proof (pow2_pos tail ltac:(lia)) as Hp.
  pose proof (Z.mod_pos_bound x (2 ^ tail) Hp) as Hxb. assert (2 ^ tail <= 2 ^ bp) by (apply Z.pow_le_mono_r; lia).
  assert (2 ^ bp <= 2 ^ 7) by (apply Z.pow_le_mono_r; lia).
  assert (Hb : Forall is_byte (l' ++ [x mod 2 ^ tail])) by (apply Forall_app; split; [done|]; apply Forall_singleton; unfold is_byte; lia).
  assert (Hshape : exists f, shift_bytes bp (l' ++ [x mod 2 ^ tail]) = f ++ [0] /\ length f = length l' /\ Forall is_byte f).
  { clear - Hb Hxb H Hbp. revert Hb. induction l' as [|b l' IH]; intros Hb.
    - exists []. cbn. split; [|done]. f_equal. rewrite Z.shiftr_div_pow2, Z.div_small by lia. done.
    - apply Forall_cons in Hb as [Hbb Hb]. destruct (IH Hb) as (f & Ef & Lf & Bf). destruct (l' ++ [x mod 2 ^ tail]) as [|c r] eqn:Er; [by destruct l'|].
      cbn [app]. rewrite Er. exists (Z.lor (Z.shiftr b bp) (to_u 8 (Z.shiftl c (8 - bp))) :: f). cbn [length app]. rewrite <- Ef, Lf. split; [done|]. split; [done|].
      constructor; [|done]. apply byte_of_testbit. intros j Hj. rewrite Z.lor_spec, Z.shiftr_spec by lia. rewrite (testbit_byte b) by (done || lia).
      apply (testbit_byte _ j (to_u8_byte _)). lia. }
  destruct Hshape as (f & Ef & Lf & Bf). exists f. split; [done|]. split; [lia|]. split; [done|].
  assert (Hf : le_dec f = le_dec (shift_bytes bp (l' ++ [x mod 2 ^ tail]))) by (rewrite Ef, le_dec_app; cbn; lia).
  rewrite Hf, shift_bytes_div by done. rewrite <- (field_inner d (8 * pos) (8 * Z.of_nat (Z.to_nat n + 1)) bp bw) by (done || lia).
  rewrite <- Hdec. rewrite !le_dec_app, Hl'. cbn [le_dec]. rewrite !Z.mul_0_r, !Z.add_0_r. rewrite Z2Nat.id by lia.
  pose proof (le_dec_bound l' Hl1) as Hlb. rewrite Hl', Z2Nat.id in Hlb by lia. pose proof (pow2_pos (8 * n) ltac:(lia)) as Hp8.
  assert (Hmod : le_dec l' + 2 ^ (8 * n) * (x mod 2 ^ tail) = (le_dec l' + 2 ^ (8 * n) * x) mod 2 ^ (bp + bw)).
  { apply (Z.mod_unique_pos _ _ (x / 2 ^ tail)).
    - rewrite <- Hsum, Z.pow_add_r by lia. nia.
    - rewrite <- Hsum, Z.pow_add_r by lia. rewrite (Z.div_mod x (2 ^ tail)) at 1 by lia. ring. }
  rewrite Hmod. set (Y := le_dec l' + _). apply Z.bits_inj'. intros j Hj. rewrite Z.div_pow2_bits by lia. destruct (Z.lt_ge_cases j bw).
  - rewrite !Z.mod_pow2_bits_low by lia. by rewrite Z.div_pow2_bits by lia.
  - by rewrite !Z.mod_pow2_bits_high by lia.
Qed.

Lemma unaligned_finish d pos bp bw iss : unaligned_field d pos bp bw iss =
  let tail := if 8 <? bp + bw then (bp + bw) mod 8 else 0 in
  let n := Z.to_nat ((bw + 7) / 8) in
  let m := (n + (if negb (tail =? 0)%Z then 1 else 0))%nat in
  l ← slice_get d pos m;
  let l := shift_bytes bp (on_last (mask tail) l) in
  let l := if (n =? 1)%nat then match l with b :: l' => mask bw b :: l' | [] => [] end else l in
  let l := if (m =? n)%nat then l else on_last (fun b => if tail <=? bp then 0 else Z.shiftr b bp) l in
  Some (finish iss bw (take n l) (drop n l)).
Proof. done. Qed.

Lemma unaligned_holds d pos bp bw iss : width_ok bw -> Forall is_byte d -> 0 <= pos -> 0 < bp < 8 -> 8 * pos + bp + bw <= 8 * Z.of_nat (length d) ->
  exists r, unaligned_field d pos bp bw iss = Some r /\ holds r iss bw (field d (8 * pos + bp) bw).
Proof.
  intros Hw Hd Hpos Hbp Hin. destruct (spawned_bounds bw Hw) as (Hn & Hbn & Hm & Hbig & Hsmall). assert (Hbw : 1 <= bw <= 64) by (unfold width_ok in Hw; lia).
  rewrite unaligned_finish. cbv zeta. set (n := (bw + 7) / 8) in *. pose proof (field_range d (8 * pos + bp) bw ltac:(lia)) as Hr.
  destruct (Z.ltb_spec 8 (bp + bw)) as [Hlt|Hge].
  - assert (Ht : exists tail, (bp + bw) mod 8 = tail /\ 1 <= tail <= bp /\ 8 * n + tail = bp + bw).
    { destruct (Z.le_gt_cases bw 8) as [Hs|Hb].
      - exists (bp + bw - 8). rewrite (Hsmall Hs). split; [|lia]. symmetry. apply (Z.mod_unique_pos _ _ 1); lia.
      - exists bp. rewrite (Hbig Hb) at 1. split; [|lia]. rewrite Z.mul_comm, Z.mod_add by lia. apply Z.mod_small. lia. }
    destruct Ht as (tail & -> & Ht & Hsum). rewrite (proj2 (Z.eqb_neq tail 0)) by lia. cbn [negb].
    rewrite slice_get_Some by lia. set (l := take _ _). cbn [mbind option_bind]. destruct (shifted_bytes d pos bp bw n tail l Hd Hpos Hbp ltac:(lia) Ht Hsum) as (f & -> & Lf & Bf & Df).
    { by apply slice_get_Some; lia. }
    eexists. split; [reflexivity|]. rewrite (proj2 (Nat.eqb_neq _ (Z.to_nat n))) by lia. rewrite (proj2 (Z.leb_le tail bp)) by lia.
    assert (Hmask : (if (Z.to_nat n =? 1)%nat then match f ++ [0] with b :: l' => mask bw b :: l' | [] => [] end else f ++ [0]) = f ++ [0]).
    { destruct (Nat.eqb_spec (Z.to_nat n) 1) as [H1|]; [|done]. destruct f as [|b [|]]; [cbn in Lf; lia| |cbn in Lf; lia].
      apply Forall_inv in Bf. assert (Hle : bw <= 8) by (destruct (Z.le_gt_cases bw 8); [done|]; pose proof (Hbig ltac:(lia)); lia).
      cbn [app]. f_equal. rewrite mask_mod by (done || lia). cbn [le_dec] in Df. apply Z.mod_small. lia. }
    rewrite Hmask, on_last_snoc. rewrite take_app_length', drop_app_length' by lia. rewrite <- Df.
    apply finish_holds; try done; try lia. apply Forall_singleton. unfold is_byte. lia.
  - assert (H1 : n = 1) by (apply Hsmall; lia). rewrite H1. cbn [Z.eqb negb]. rewrite slice_get_Some by lia. set (l := take _ _).
    destruct (slice_field d pos _ l Hd ltac:(by apply slice_get_Some; lia)) as (Hl & Hlen & Hdec).
    cbn [mbind option_bind]. eexists. split; [reflexivity|]. destruct l as [|x [|]]; try done. apply Forall_inv in Hl.
    change (on_last ?f [x]) with [f x]. cbn -[Z.of_nat finish Z.mul]. change (mask 0 x) with x. cbn [le_dec] in Hdec. rewrite Z.mul_0_r, Z.add_0_r in Hdec.
    assert (Hsh : is_byte (Z.shiftr x bp)).
    { unfold is_byte in *. rewrite Z.shiftr_div_pow2 by lia. pose proof (pow2_pos bp ltac:(lia)). split; [apply Z.div_pos; lia|]. apply Z.div_lt_upper_bound; nia. }
    assert (Hx : mask bw (Z.shiftr x bp) = field d (8 * pos + bp) bw).
    { rewrite mask_mod by (done || lia). rewrite Z.shiftr_div_pow2, Hdec by lia. apply field_inner; (done || lia). }
    rewrite Hx. pose proof (finish_holds iss bw [field d (8 * pos + bp) bw] [] Hw) as Hf. cbn [le_dec length] in Hf. rewrite Z.mul_0_r, Z.add_0_r in Hf.
    assert (2 ^ bw <= 2 ^ 7) by (apply Z.pow_le_mono_r; lia). apply Hf; try done; try lia. apply Forall_singleton. unfold is_byte. lia.
Qed.

(** A field of a type is read whatever the bit it begins with: the buffer holds its
    bits, extended with the sign of a signed type or with zeros to ten bytes. *)
Theorem field_is_read d pos bp bw iss : width_ok bw -> Forall is_byte d -> 0 <= pos -> 0 <= bp < 8 -> 8 * pos + bp + bw <= 8 * Z.of_nat (length d) ->
  exists r, field_buffer d pos bp bw iss = Some (r, Z.to_nat ((bw + 7) / 8)) /\ holds r iss bw (field d (8 * pos + bp) bw).
Proof.
  intros Hw Hd Hpos Hbp Hin. destruct (spawned_bounds bw Hw) as (_ & _ & Hm & _). unfold field_buffer. destruct (Z.eqb_spec bp 0) as [->|Hne].
  - rewrite Z.add_0_r in *. destruct (aligned_holds d pos bw iss Hw Hd Hpos Hin) as (r & -> & Hr). exists r. split; [|done]. cbn [mbind option_bind andb].
    destruct (Z.eqb_spec (bw mod 8) 0) as [E|E]; [|done]. by rewrite (proj2 (Hm E)).
  - destruct (unaligned_holds d pos bp bw iss Hw Hd Hpos ltac:(lia) Hin) as (r & -> & Hr). by exists r.
Qed.

(** The types of the table have such widths. *)
Lemma types_width nm t : find_type type_descr nm = Some t -> width_ok t.1.
Proof.
  unfold find_type. destruct (List.find _ type_descr) as [[k t']|] eqn:E; [|done]. intros [= <-]. apply List.find_some in E as [E _].
  assert (H : forallb (fun e : string * (Z * bool) => ((1 <=? e.2.1) && (e.2.1 <=? 8)) || ((e.2.1 mod 8 =? 0) && (8 <=? e.2.1) && (e.2.1 <=? 64))) type_descr = true)
    by (vm_compute; reflexivity).
  rewrite forallb_forall in H. specialize (H _ E). unfold width_ok. cbn [fst snd] in *. lia.
Qed.

(** ** Reading into variables *)

Record bitfield := mkField { bf_type : string; bf_width : Z; bf_signed : bool; bf_var : string; bf_obj : Z }.

(** The object a variable's name stands for. *)
Definition object_named (s : vars) (nm : string) : option Z :=
  match sym_table s !! nm with
  | Some sym => if is_VAR sym && negb (payload sym =? 0) then Some (payload sym) else None
  | None => states s !! nm
  end.

(** The value of a field. *)
Definition field_int (d : list Z) (off : Z) (f : bitfield) : Z :=
  let v := field d off (bf_width f) in if bf_signed f then to_s (bf_width f) v else v.

(** The objects after the fields behind bit [off] were read; "any" skips a field. *)
Fixpoint stored_fields (d : list Z) (off : Z) (fs : list bitfield) (m : gmap Z variable) : gmap Z variable :=
  match fs with
  | [] => m
  | f :: fs' =>
    stored_fields d (off + bf_width f) fs'
      (if String.eqb (bf_var f) "any" then m else <[bf_obj f := Value (Int_literal (to_s 32 (field_int d off f)))]> m)
  end.

Definition total_width (fs : list bitfield) : Z := foldr (fun f z => bf_width f + z) 0 fs.

Definition int_variable (s : vars) (src : Z) (f : bitfield) : Prop :=
  find_type type_descr (bf_type f) = Some (bf_width f, bf_signed f) /\
  (bf_var f = "any" \/ object_named s (bf_var f) = Some (bf_obj f) /\ bf_obj f <> src /\
    exists v, objects s !! bf_obj f = Some (Value (Int_literal v))).

Section variables.
Context `{Calls}.

(** [type(args)] *)
Definition typed_call (ty : string) (args : list node) (n : node) : Prop :=
  exists rest, n = Func_call (Identifier ty :: rest) /\ call_args (Identifier ty :: rest) = args.

Lemma int_of_buffer r iss bw v : holds r iss bw v -> to_s 32 (le_dec (take 4 r)) = to_s 32 (if iss then to_s bw v else v).
Proof.
  intros (Hl & Hb & Hd). rewrite <- (take_drop 4 r) in Hb, Hd. apply Forall_app in Hb as [Hb _].
  pose proof (le_dec_mod (take 4 r) (drop 4 r) Hb) as Hm. rewrite Hd in Hm. rewrite length_take, Hl in Hm. change (8 * Z.of_nat (4 `min` 10)) with 32 in Hm.
  rewrite <- Hm. unfold extended, to_u. rewrite <- (to_s_to_u 32 (if iss then _ else _)) by lia. unfold to_u. f_equal. apply Z.mod_mod_divide. by exists (2 ^ 48).
Qed.

Lemma destination_of s nm p : object_named s nm = Some p -> destination nm "" s = Ok p s.
Proof.
  unfold object_named, destination. rewrite bind_unfold. cbn [get String.eqb]. destruct (sym_table s !! nm) as [sym|].
  - destruct (is_VAR sym), (payload sym =? 0); try done. cbn. by intros [= <-].
  - by intros ->.
Qed.

Lemma read_one s src d f off fuel n : objects s !! src = Some (Bytes d) -> Forall is_byte d -> int_variable s src f ->
  typed_call (bf_type f) [Identifier (bf_var f)] n -> 0 <= off -> off + bf_width f <= 8 * Z.of_nat (length d) ->
  breakup_helper (S (S fuel)) src true 8 false (off / 8) (off mod 8) n s =
  Ok (bf_width f) (with_objects (if String.eqb (bf_var f) "any" then objects s
                                 else <[bf_obj f := Value (Int_literal (to_s 32 (field_int d off f)))]> (objects s)) s).
Proof.
  intros Hsrc Hd [Ht Hv] (rest & -> & Ha) Hoff Hin. pose proof (types_width _ _ Ht) as Hw. cbn [fst] in Hw.
  pose proof (Z.div_mod off 8 ltac:(lia)) as Hdm. pose proof (Z.mod_pos_bound off 8 ltac:(lia)) as Hmb.
  destruct (field_is_read d (off / 8) (off mod 8) (bf_width f) (bf_signed f) Hw Hd ltac:(lia) Hmb ltac:(lia)) as (r & Hr & Hh). rewrite <- Hdm in Hh.
  cbn [breakup_helper]. rewrite Ht, Ha. unfold sum_bits. cbn [foldM]. rewrite Z.add_0_l. cbn [negb].
  rewrite (Z.mod_small (off mod 8)) by lia. rewrite (Z.div_small (off mod 8)), Z.add_0_l by lia. cbn [fst snd]. rewrite (proj2 (Z.eqb_neq (bf_width f) 0)) by (unfold width_ok in Hw; lia).
  assert (E : read_field src (bf_width f) (bf_signed f) (off / 8) (off mod 8) (Identifier (bf_var f)) s =
    Ok (bf_width f) (with_objects (if String.eqb (bf_var f) "any" then objects s
                                 else <[bf_obj f := Value (Int_literal (to_s 32 (field_int d off f)))]> (objects s)) s)).
  { unfold read_field, source. rewrite bind_assoc, bind_unfold. cbn [get]. rewrite Hsrc, bind_ret_l, Hr. cbn [of_option]. rewrite bind_ret_l.
    cbn [is_id_or_symbol fst snd]. destruct (String.eqb_spec (bf_var f) "any") as [E|E]; [by destruct s|]. destruct Hv as [|(Ho & Hne & v & Hv)]; [done|].
    rewrite (bind_Ok _ _ _ _ _ (destination_of s _ _ Ho)). rewrite bind_unfold. unfold store. rewrite bind_unfold. cbn [get]. rewrite Hv. cbn [of_option].
    rewrite bind_ret_l. unfold modify, ret. rewrite (int_of_buffer _ _ _ _ Hh). done. }
  unfold bind at 1. unfold bind at 1. rewrite E. unfold ret. done.
Qed.

Lemma read_all fs : forall args s src d off t fuel, objects s !! src = Some (Bytes d) -> Forall is_byte d -> Forall (int_variable s src) fs ->
  Forall2 (fun f n => typed_call (bf_type f) [Identifier (bf_var f)] n) fs args -> 0 <= off -> off + total_width fs <= 8 * Z.of_nat (length d) ->
  t = off -> foldM args (fun s e => let! r := breakup_helper (S (S fuel)) src true 8 false ((s + 0) / 8 + 0) ((s + 0) mod 8) e in ret (s + r)) t s =
  Ok (off + total_width fs) (with_objects (stored_fields d off fs (objects s)) s).
Proof.
  induction fs as [|f fs IH]; intros args s src d off t fuel Hsrc Hd Hf Hargs Hoff Hin ->; apply Forall2_cons_inv_l in Hargs || apply Forall2_nil_inv_l in Hargs.
  - subst. cbn. unfold ret. rewrite Z.add_0_r. by destruct s.
  - destruct Hargs as (n & args' & Hn & Hargs & ->). apply Forall_cons in Hf as [H1 Hf]. cbn [foldM]. rewrite !Z.add_0_r.
    assert (Hpos : forall fs, Forall (int_variable s src) fs -> 0 <= total_width fs).
    { clear. induction 1 as [|f fs [Ht _] Hf IH]; [done|]. pose proof (types_width _ _ Ht) as Hw. unfold width_ok in Hw. cbn [fst] in Hw. unfold total_width in *. cbn [foldr]. lia. }
    pose proof (Hpos fs Hf) as Hp. cbn [total_width foldr] in Hin |- *. fold (total_width fs) in *.
    rewrite bind_assoc. rewrite (bind_Ok _ _ _ _ _ (read_one s src d f off fuel n Hsrc Hd H1 Hn Hoff ltac:(lia))). rewrite bind_ret_l.
    rewrite (IH args' (with_objects _ s) src d (off + bf_width f)); [cbn [objects with_objects stored_fields]; f_equal; lia| |done| |done| |lia|done].
    + cbn [objects with_objects]. destruct (String.eqb_spec (bf_var f) "any") as [E|E]; [done|]. destruct H1 as [_ [|(_ & Hne & _)]]; [done|].
      by rewrite lookup_insert_ne.
    + apply (Forall_impl _ _ _ Hf). intros g [Ht Hg]. split; [done|]. destruct Hg as [Hg|(Ho & Hne & v & Hg)]; [by left|right]. split; [done|]. split; [done|].
      cbn [objects with_objects]. destruct (String.eqb (bf_var f) "any"); [by exists v|]. destruct (decide (bf_obj f = bf_obj g)) as [->|Hng].
      * rewrite lookup_insert_eq. by eexists.
      * rewrite lookup_insert_ne by done. by exists v.
    + unfold int_variable in H1. destruct H1 as [Ht _]. pose proof (types_width _ _ Ht) as Hw. unfold width_ok in Hw. cbn [fst] in Hw. lia.
Qed.

(** C30: breakup_byte_sequence reads its fields one behind the other without gaps, whatever
    their widths: every variable gets the bits of its field as its type says, as far as a
    32-bit integer can hold them, and the answer is the number of bits. *)
Theorem breakup_reads_fields fs args s arr src d fuel : object_named s arr = Some src -> objects s !! src = Some (Bytes d) -> Forall is_byte d ->
  Forall (int_variable s src) fs -> fs <> [] -> Forall2 (fun f n => typed_call (bf_type f) [Identifier (bf_var f)] n) fs args ->
  total_width fs <= 8 * Z.of_nat (length d) ->
  handle_breakup_byte_sequence (S (S fuel)) (Identifier arr :: args) s = Ok (total_width fs) (with_objects (stored_fields d 0 fs (objects s)) s).
Proof.
  intros Ho Hsrc Hd Hf Hne Hargs Hin. assert (Ea : array_of (Identifier arr) s = Ok src s).
  { unfold array_of. cbn [is_id_or_symbol]. rewrite bind_unfold. cbn [get String.eqb]. unfold object_named in Ho. destruct (sym_table s !! arr) as [sym|].
    - destruct (is_VAR sym), (payload sym =? 0); try done. injection Ho as ->. cbn [negb orb]. by rewrite Hsrc.
    - rewrite Ho. by rewrite Hsrc. }
  destruct args as [|a args]; [apply Forall2_nil_inv_r in Hargs; done|]. unfold handle_breakup_byte_sequence. rewrite (bind_Ok _ _ _ _ _ Ea).
  unfold sum_bits. by rewrite (read_all fs (a :: args) s src d 0 0 fuel).
Qed.

(** ** Writing *)

(** Values with types: what make_byte_sequence is called with. *)
Definition encoded (f : bitfield) (v : Z) : list Z := le_enc (Z.to_nat (bf_width f / 8)) v.

Definition layout (fvs : list (bitfield * Z)) : list Z := List.flat_map (fun fv => encoded fv.1 fv.2) fvs.

Definition typed (f : bitfield) : Prop := find_type type_descr (bf_type f) = Some (bf_width f, bf_signed f).

Lemma take_le_enc n m z : (n <= m)%nat -> take n (le_enc m z) = le_enc n z.
Proof.
  revert m z. induction n as [|n IH]; intros m z Hm; [done|]. destruct m as [|m]; [lia|]. cbn [le_enc take]. rewrite IH by lia. done.
Qed.

Lemma typed_bytes f : typed f -> 0 <= bf_width f / 8 <= 8.
Proof.
  intros Ht. pose proof (types_width _ _ Ht) as Hw. unfold width_ok in Hw. cbn [fst] in Hw.
  split; [apply Z.div_pos; lia|]. apply Z.lt_succ_r, Z.div_lt_upper_bound; lia.
Qed.

Lemma encoded_length f v : typed f -> Z.of_nat (length (encoded f v)) = bf_width f / 8.
Proof. intros Ht%typed_bytes. unfold encoded. rewrite le_enc_length. lia. Qed.

(** One value: its size, and its bytes. *)
Lemma make_one_size f v n fuel pos c : typed f -> typed_call (bf_type f) [Int_literal v] n ->
  make_helper (S (S fuel)) false 8 false false pos n c = Ok (bf_width f / 8) c.
Proof. intros Ht (r & -> & Ha). cbn [make_helper]. rewrite Ht, Ha. done. Qed.

Lemma make_one f v n fuel d l rest : typed f -> typed_call (bf_type f) [Int_literal v] n -> Z.of_nat (length l) = bf_width f / 8 ->
  make_helper (S (S fuel)) true 8 false false (Z.of_nat (length d)) n (d ++ l ++ rest) = Ok (bf_width f / 8) (d ++ encoded f v ++ rest).
Proof.
  intros Ht (r & -> & Ha) Hl. pose proof (typed_bytes _ Ht) as H8. cbn [make_helper]. rewrite Ht, Ha. unfold sum_over.
  cbn [foldM fst snd negb]. rewrite Z.add_0_r.
  assert (E : (let! j := object_of (bf_width f) (bf_signed f) false (Int_literal v) in
               do! memcpy_to (Z.of_nat (length d)) (Z.to_nat (bf_width f / 8)) j in ret (bf_width f / 8)) (d ++ l ++ rest) =
              Ok (bf_width f / 8) (d ++ encoded f v ++ rest)).
  { unfold object_of. cbn [negb]. rewrite bind_ret_l. unfold memcpy_to. rewrite bind_assoc, slice_get_Some by (rewrite ?le_enc_length; lia). cbn [of_option].
    rewrite bind_ret_l. rewrite bind_assoc, bind_unfold. cbn [get]. change (Z.to_nat 0) with O. rewrite drop_0, take_le_enc by lia.
    rewrite bind_assoc, slice_set_app by (rewrite le_enc_length; lia). done. }
  unfold bind at 1. unfold bind at 1. rewrite E. done.
Qed.

Definition value_calls (fvs : list (bitfield * Z)) (args : list node) : Prop :=
  Forall (fun fv => typed fv.1) fvs /\ Forall2 (fun fv n => typed_call (bf_type fv.1) [Int_literal fv.2] n) fvs args.

Lemma value_calls_inv f v fvs args : value_calls ((f, v) :: fvs) args ->
  exists n args', args = n :: args' /\ typed f /\ typed_call (bf_type f) [Int_literal v] n /\ value_calls fvs args'.
Proof.
  intros [Hf Hargs]. apply Forall2_cons_inv_l in Hargs as (n & args' & Hn & Hargs & ->). apply Forall_cons in Hf as [H1 Hf]. by exists n, args'.
Qed.

Lemma make_size fvs : forall args t c fuel, value_calls fvs args ->
  foldM args (fun s e => let! r := make_helper (S (S fuel)) false 8 false false (0 + s) e in ret (s + r)) t c = Ok (t + Z.of_nat (length (layout fvs))) c.
Proof.
  induction fvs as [|[f v] fvs IH]; intros args t c fuel Hv.
  - destruct Hv as [_ Hargs%Forall2_nil_inv_l]. subst args. cbn. unfold ret. by rewrite Z.add_0_r.
  - apply value_calls_inv in Hv as (n & args' & -> & H1 & Hn & Hv). cbn [foldM]. rewrite bind_assoc.
    rewrite (bind_Ok _ _ _ _ _ (make_one_size f v n fuel _ c H1 Hn)). rewrite bind_ret_l, (IH args' _ c fuel Hv). f_equal.
    cbn [layout List.flat_map fst snd]. fold (layout fvs). rewrite length_app. pose proof (encoded_length f v H1). lia.
Qed.

Lemma make_all fvs : forall args d t l fuel, value_calls fvs args -> length l = length (layout fvs) -> t = Z.of_nat (length d) ->
  foldM args (fun s e => let! r := make_helper (S (S fuel)) true 8 false false (0 + s) e in ret (s + r)) t (d ++ l) =
  Ok (t + Z.of_nat (length (layout fvs))) (d ++ layout fvs).
Proof.
  induction fvs as [|[f v] fvs IH]; intros args d t l fuel Hv Hl ->.
  - destruct Hv as [_ Hargs%Forall2_nil_inv_l]. subst args. destruct l; [|done]. cbn. unfold ret. by rewrite Z.add_0_r.
  - apply value_calls_inv in Hv as (n & args' & -> & H1 & Hn & Hv). pose proof (encoded_length f v H1) as He. pose proof (typed_bytes f H1) as H8.
    cbn [layout List.flat_map fst snd] in *. fold (layout fvs) in *. rewrite length_app in Hl |- *.
    rewrite <- (take_drop (length (encoded f v)) l). set (l1 := take _ l). set (l2 := drop _ l).
    assert (L1 : length l1 = length (encoded f v)) by (unfold l1; rewrite length_take; lia).
    assert (L2 : length l2 = length (layout fvs)) by (unfold l2; rewrite length_drop; lia).
    cbn [foldM]. rewrite Z.add_0_l, bind_assoc. rewrite (bind_Ok _ _ _ _ _ (make_one f v n fuel d l1 l2 H1 Hn ltac:(lia))). rewrite bind_ret_l.
    rewrite (app_assoc d). rewrite (IH args' (d ++ encoded f v) _ l2 fuel Hv L2) by (rewrite length_app; lia).
    rewrite <- app_assoc. f_equal. lia.
Qed.

(** make_byte_sequence lays the values out one behind the other, each with the whole bytes
    of its type: a type below a byte gets none. *)
Lemma make_lays_out uninit fvs args fuel : value_calls fvs args -> handle_make_byte_sequence uninit (S (S fuel)) args = Ok tt (layout fvs).
Proof.
  intros Hv. unfold handle_make_byte_sequence, make_args, sum_over. rewrite (make_size fvs args 0 [] fuel Hv), Z.add_0_l.
  destruct (Z.eqb_spec (Z.of_nat (length (layout fvs))) 0) as [E|E]; [by destruct (layout fvs)|]. rewrite Nat2Z.id.
  pose proof (make_all fvs args [] 0 (replicate (length (layout fvs)) uninit) fuel Hv) as Hm. rewrite length_replicate in Hm. cbn [app] in Hm. by rewrite Hm.
Qed.

(** ** Both ways *)

(** The values the types and the variables can hold. *)
Definition fits (f : bitfield) (v : Z) : Prop :=
  - 2 ^ 31 <= v < 2 ^ 31 /\ if bf_signed f then - 2 ^ (bf_width f - 1) <= v < 2 ^ (bf_width f - 1) else 0 <= v < 2 ^ bf_width f.

Definition whole_bytes (fv : bitfield * Z) : Prop := bf_width fv.1 mod 8 = 0.

Lemma layout_bytes fvs : Forall is_byte (layout fvs).
Proof. induction fvs as [|fv fvs IH]; [done|]. cbn. apply Forall_app. split; [apply le_enc_bytes|done]. Qed.

Lemma layout_width fvs : Forall (fun fv => typed fv.1) fvs -> Forall whole_bytes fvs -> 8 * Z.of_nat (length (layout fvs)) = total_width (fst <$> fvs).
Proof.
  induction fvs as [|[f v] fvs IH]; [done|]. intros [Ht Hf]%Forall_cons [Hw Hws]%Forall_cons. cbn [layout List.flat_map fst snd fmap list_fmap total_width foldr].
  fold (layout fvs). rewrite length_app. pose proof (encoded_length f v Ht). specialize (IH Hf Hws). unfold total_width in IH.
  unfold whole_bytes in Hw. cbn [fst] in Hw, Ht. pose proof (Z.div_mod (bf_width f) 8 ltac:(lia)). lia.
Qed.

(** The values that come out. *)
Fixpoint values_stored (fvs : list (bitfield * Z)) (m : gmap Z variable) : gmap Z variable :=
  match fvs with
  | [] => m
  | (f, v) :: fvs' => values_stored fvs' (if String.eqb (bf_var f) "any" then m else <[bf_obj f := Value (Int_literal v)]> m)
  end.

Lemma value_comes_out d1 f v d2 : typed f -> bf_width f mod 8 = 0 -> fits f v -> Forall is_byte d1 ->
  to_s 32 (field_int (d1 ++ encoded f v ++ d2) (8 * Z.of_nat (length d1)) f) = v.
Proof.
  intros Ht Hw [Hi Hf] Hd1. pose proof (encoded_length f v Ht) as He. pose proof (Z.div_mod (bf_width f) 8 ltac:(lia)) as Hdm.
  pose proof (types_width _ _ Ht) as Hok. cbn [fst] in Hok. assert (Hw1 : 1 <= bf_width f) by (unfold width_ok in Hok; lia).
  assert (Hfield : field (d1 ++ encoded f v ++ d2) (8 * Z.of_nat (length d1)) (bf_width f) = v mod 2 ^ bf_width f).
  { unfold field. rewrite le_dec_div by done. replace (bf_width f) with (8 * Z.of_nat (length (encoded f v))) at 1 by lia.
    rewrite le_dec_mod by apply le_enc_bytes. unfold encoded. rewrite le_dec_enc. f_equal. f_equal. unfold encoded in He. rewrite le_enc_length in He. lia. }
  unfold field_int. rewrite Hfield. change (v mod 2 ^ bf_width f) with (to_u (bf_width f) v). destruct (bf_signed f).
  - rewrite to_s_to_u, (to_s_id (bf_width f)) by lia. apply to_s_id; lia.
  - rewrite to_u_id by lia. apply to_s_id; lia.
Qed.

Lemma values_come_out fvs : forall d1 m, Forall (fun fv => typed fv.1) fvs -> Forall whole_bytes fvs -> Forall (fun fv => fits fv.1 fv.2) fvs -> Forall is_byte d1 ->
  stored_fields (d1 ++ layout fvs) (8 * Z.of_nat (length d1)) (fst <$> fvs) m = values_stored fvs m.
Proof.
  induction fvs as [|[f v] fvs IH]; [done|]. intros d1 m [Ht Hf]%Forall_cons [Hw Hws]%Forall_cons [Hv Hvs]%Forall_cons Hd1.
  unfold whole_bytes in Hw. cbn [fst snd] in *. cbn [layout List.flat_map fmap list_fmap fst snd stored_fields values_stored]. fold (layout fvs).
  pose proof (encoded_length f v Ht) as He. pose proof (Z.div_mod (bf_width f) 8 ltac:(lia)) as Hdm.
  rewrite value_comes_out by done. rewrite app_assoc. replace (8 * Z.of_nat (length d1) + bf_width f) with (8 * Z.of_nat (length (d1 ++ encoded f v))) by (rewrite length_app; lia).
  apply IH; try done. apply Forall_app. split; [done|]. apply le_enc_bytes.
Qed.

(** C33: what was written is read: an array that make_byte_sequence made of values of types
    of whole bytes gives the values back when it is read with the same types. *)
Theorem byte_sequence_roundtrip uninit fvs args_w args_r s arr src fuel : value_calls fvs args_w -> Forall whole_bytes fvs ->
  Forall (fun fv => fits fv.1 fv.2) fvs -> fvs <> [] ->
  Forall2 (fun f n => typed_call (bf_type f) [Identifier (bf_var f)] n) (fst <$> fvs) args_r -> Forall (int_variable s src) (fst <$> fvs) ->
  object_named s arr = Some src ->
  exists d, handle_make_byte_sequence uninit (S (S fuel)) args_w = Ok tt d /\
    (objects s !! src = Some (Bytes d) ->
     handle_breakup_byte_sequence (S (S fuel)) (Identifier arr :: args_r) s =
     Ok (8 * Z.of_nat (length d)) (with_objects (values_stored fvs (objects s)) s)).
Proof.
  intros Hv Hw Hfit Hne Hr Hvar Ho. exists (layout fvs). split; [by apply make_lays_out|]. intros Hsrc. destruct Hv as [Ht _].
  rewrite (layout_width fvs Ht Hw). rewrite (breakup_reads_fields (fst <$> fvs) args_r s arr src (layout fvs) fuel); try done.
  - f_equal. f_equal. apply (values_come_out fvs [] (objects s)); done.
  - apply layout_bytes.
  - by destruct fvs.
  - rewrite (layout_width fvs Ht Hw). lia.
Qed.
End variables.

(** ** The end of the array *)

Lemma slice_get_None {A} (l : list A) a n : Z.of_nat (length l) < a + Z.of_nat n -> slice_get l a n = None.
Proof. intros H. unfold slice_get. destruct (in_bounds l a n) eqn:E; [|done]. apply in_bounds_spec in E. lia. Qed.

(** C39: the size of the array is never looked at: a field can be read exactly when it lies
    within the array, and memory behind the array is read otherwise. *)
Theorem field_within_array d pos bp bw iss : width_ok bw -> Forall is_byte d -> 0 <= pos -> 0 <= bp < 8 ->
  is_Some (field_buffer d pos bp bw iss) <-> 8 * pos + bp + bw <= 8 * Z.of_nat (length d).
Proof.
  intros Hw Hd Hpos Hbp. split.
  - intros Hs. destruct (Z.le_gt_cases (8 * pos + bp + bw) (8 * Z.of_nat (length d))) as [|Hgt]; [done|]. exfalso.
    destruct (spawned_bounds bw Hw) as (Hn & Hbn & Hm & Hbig & Hsmall). revert Hs. unfold field_buffer. destruct (Z.eqb_spec bp 0) as [->|Hne].
    + unfold aligned_field. destruct (Z.eqb_spec (bw mod 8) 0) as [E|E].
      * destruct (Hm E) as [E1 E2]. rewrite slice_get_None by lia. by intros [? ?].
      * rewrite slice_get_None by lia. by intros [? ?].
    + rewrite unaligned_finish. cbv zeta. rewrite slice_get_None; [by intros [? ?]|]. set (n := (bw + 7) / 8) in *.
      destruct (Z.ltb_spec 8 (bp + bw)) as [Hlt|Hge]; [|cbn [Z.eqb negb]; lia].
      assert (Ht : (bp + bw) mod 8 <> 0).
      { destruct (Z.le_gt_cases bw 8) as [Hs|Hb].
        - rewrite <- (Z.mod_unique_pos (bp + bw) 8 1 (bp + bw - 8)); lia.
        - rewrite (Hbig Hb) at 1. rewrite Z.mul_comm, Z.mod_add, Z.mod_small by lia. done. }
      rewrite (proj2 (Z.eqb_neq _ 0)) by done. cbn [negb]. unfold width_ok in Hw. lia.
  - intros Hin. destruct (field_is_read d pos bp bw iss Hw Hd Hpos Hbp Hin) as (r & -> & _). by eexists.
Qed.

(** Types below a byte are written with no byte at all. *)
Lemma narrow_types_vanish `{Calls} uninit fvs args fuel : value_calls fvs args -> Forall (fun fv => bf_width fv.1 < 8) fvs ->
  handle_make_byte_sequence uninit (S (S fuel)) args = Ok tt [].
Proof.
  intros Hv Hw. rewrite (make_lays_out uninit fvs args fuel Hv). f_equal. destruct Hv as [Ht _]. induction Ht as [|[f v] fvs Ht _ IH]; [done|].
  apply Forall_cons in Hw as [H1 Hw]. change (encoded f v ++ layout fvs = []). rewrite (IH Hw). cbn [fst] in *. pose proof (types_width _ _ Ht) as Hok.
  unfold encoded. rewrite Z.div_small; [done|]. unfold width_ok in Hok. cbn [fst] in Hok. lia.
Qed.

(** ** An example *)

Module ByteSeqExample.
Definition calls : Calls := {| call_args := tail; show_arg _ := "" |}.
#[local] Existing Instance calls.

Definition call (ty : string) (n : node) : node := Func_call [Identifier ty; n].

Definition f16 : bitfield := mkField "int16" 16 true "a" 1.
Definition f8 : bitfield := mkField "uint8" 8 false "b" 2.
Definition f3 : bitfield := mkField "int3" 3 true "a" 1.
Definition f5 : bitfield := mkField "uint5" 5 false "any" 0.

Definition vars_with (l : list Z) : vars :=
  mkVars {["a" := mkSym true 1]} {["b" := 2; "seq" := 3]} {[1 := Value (Int_literal 0); 2 := Value (Int_literal 0); 3 := Bytes l]}.

Lemma typed_call_of ty n : typed_call ty [n] (call ty n).
Proof. by exists [n]. Qed.

Lemma byte_sequence_roundtrip_witness : exists d, handle_make_byte_sequence 0 2 [call "int16" (Int_literal (-300)); call "uint8" (Int_literal 200)] = Ok tt d /\
  (objects (vars_with [212; 254; 200]) !! 3 = Some (Bytes d) ->
   handle_breakup_byte_sequence 2 [Identifier "seq"; call "int16" (Identifier "a"); call "uint8" (Identifier "b")] (vars_with [212; 254; 200]) =
   Ok (8 * Z.of_nat (length d)) (with_objects (values_stored [(f16, -300); (f8, 200)] (objects (vars_with [212; 254; 200]))) (vars_with [212; 254; 200]))).
Proof.
  apply (byte_sequence_roundtrip 0 [(f16, -300); (f8, 200)] [call "int16" (Int_literal (-300)); call "uint8" (Int_literal 200)]
           [call "int16" (Identifier "a"); call "uint8" (Identifier "b")] (vars_with [212; 254; 200]) "seq" 3 0).
  - split; repeat constructor; apply typed_call_of.
  - repeat constructor.
  - repeat constructor; cbn; lia.
  - discriminate.
  - repeat constructor; apply typed_call_of.
  - constructor; [|constructor; [|constructor]]; (split; [reflexivity|]; right; split; [reflexivity|]; split; [discriminate|]; by eexists).
  - reflexivity.
Defined.

Lemma breakup_reads_fields_witness : handle_breakup_byte_sequence 2
    [Identifier "seq"; call "int3" (Identifier "a"); call "uint5" (Identifier "any"); call "uint8" (Identifier "b")] (vars_with [0x56; 0x81]) =
  Ok 16 (with_objects (stored_fields [0x56; 0x81] 0 [f3; f5; f8] (objects (vars_with [0x56; 0x81]))) (vars_with [0x56; 0x81])).
Proof.
  apply (breakup_reads_fields [f3; f5; f8] [call "int3" (Identifier "a"); call "uint5" (Identifier "any"); call "uint8" (Identifier "b")]
           (vars_with [0x56; 0x81]) "seq" 3 [0x56; 0x81] 0).
  - reflexivity.
  - reflexivity.
  - repeat constructor; unfold is_byte; lia.
  - constructor; [|constructor; [|constructor; [|constructor]]]; (split; [reflexivity|]);
      first [by left|right; split; [reflexivity|]; split; [discriminate|]; by eexists].
  - discriminate.
  - repeat constructor; apply typed_call_of.
  - cbn. lia.
Defined.

Lemma field_within_array_witness : width_ok 5 /\ (is_Some (field_buffer [0x56; 0x81] 1 4 5 false) <-> 8 * 1 + 4 + 5 <= 8 * 2).
Proof.
  split; [unfold width_ok; lia|]. apply (field_within_array [0x56; 0x81] 1 4 5 false).
  - unfold width_ok. lia.
  - repeat constructor; unfold is_byte; lia.
  - lia.
  - lia.
Defined.
End ByteSeqExample.
