(* ===== verification/FastJsonSpec.v ===== *)
(** * FastJsonSpec: what the JSON reader makes of a text

    A JSON value, the tokens it is written with and the bytes of the message it becomes.
    The parser turns the tokens of a value into the bytes of the value, for every state
    of the block it writes to; the tokenizer yields the tokens of every text that spells
    them. *)

From S2P Require Import Prelude MachineInt F64 VMEnv Protobufish ProtobufishSpec Websocket HttpSpec FastJson F64Spec NmpSpec.

(** ** Values and messages *)

Inductive json :=
| JNull
| JBool (b : bool)
| JNum (bits : Z)
| JStr (s : list Z)
| JArr (l : list json)
| JObj (l : list (list Z * json)).

Lemma json_ind' (P : json -> Prop) :
  P JNull -> (forall b, P (JBool b)) -> (forall f, P (JNum f)) -> (forall s, P (JStr s)) ->
  (forall l, Forall P l -> P (JArr l)) -> (forall l, Forall (fun m => P m.2) l -> P (JObj l)) ->
  forall v, P v.
Proof.
  intros H1 H2 H3 H4 H5 H6. fix IH 1. intros [|b|f|s|l|l].
  - exact H1.
  - apply H2.
  - apply H3.
  - apply H4.
  - apply H5. induction l; constructor; [apply IH|auto].
  - apply H6. induction l as [|[k v] l]; constructor; [apply IH|auto].
Qed.

Abbreviation zlen l := (Z.of_nat (length l)).

Definition hdr (w s : Z) : list Z := encode U32 w ++ encode U64 s.
Definition jnode (w : Z) (body : list Z) : list Z := hdr w (12 + zlen body) ++ body.

Fixpoint jenc (v : json) : list Z :=
  match v with
  | JNull => jnode NIL []
  | JBool b => jnode BOOLEAN (encode I32 (if b then 1 else 0))
  | JNum f => jnode PF64 (encode F64 f)
  | JStr s => jnode SZ (s ++ [0])
  | JArr l => jnode ARRAY (concat (map jenc l))
  | JObj l => jnode NODE ([0] ++ concat (map (fun m => jnode NODE ((m.1 ++ [0]) ++ jenc m.2)) l))
  end.

Definition jenc_member (m : list Z * json) : list Z := jnode NODE ((m.1 ++ [0]) ++ jenc m.2).

Lemma hdr_length w s : length (hdr w s) = 12%nat.
Proof. unfold hdr. by rewrite length_app, !encode_length. Qed.

Lemma jnode_length w body : length (jnode w body) = (12 + length body)%nat.
Proof. unfold jnode. by rewrite length_app, hdr_length. Qed.

#[local] Ltac lens := rewrite ?length_app, ?jnode_length, ?hdr_length, ?length_app in *; lia.

(** ** Tokens *)

Inductive atok :=
| ANum (bits : Z) | AStr (s : list Z) | ANull | ABool (b : bool) | APunct (t : token_type) | AEnd.

Definition nonzero (s : list Z) : Prop := Forall (fun b => b <> 0) s.

Definition is_punct (t : token_type) : Prop :=
  t ∈ [t_lbrace; t_rbrace; t_lsqrbra; t_rsqrbra; t_comma; t_colon].

Definition type_of (a : atok) : token_type :=
  match a with
  | ANum _ => t_number | AStr _ => t_string | ANull => t_null | ABool _ => t_boolean
  | APunct t => t | AEnd => t_eoi
  end.

(** Tokens one after another, with a comma between. *)
Definition commas (l : list (list atok)) : list atok :=
  match l with
  | [] => []
  | x :: l => x ++ concat (map (fun y => APunct t_comma :: y) l)
  end.

Fixpoint jtoks (v : json) : list atok :=
  match v with
  | JNull => [ANull]
  | JBool b => [ABool b]
  | JNum f => [ANum f]
  | JStr s => [AStr s]
  | JArr l => APunct t_lsqrbra :: commas (map jtoks l) ++ [APunct t_rsqrbra]
  | JObj l => APunct t_lbrace :: commas (map (fun m => AStr m.1 :: APunct t_colon :: jtoks m.2) l) ++ [APunct t_rbrace]
  end.

(** The fuel of the parser for a value. *)
Fixpoint jfuel (v : json) : nat :=
  match v with
  | JArr l => S (2 * length l + list_sum (map jfuel l))
  | JObj l => S (2 * length l + list_sum (map (fun m => jfuel m.2) l))
  | _ => 0
  end.

(** ** The arena

    [allocate] gives a block of the size; [reallocate] one that starts with the bytes of
    the old one. *)
Class ArenaLaws (A : Type) `{ArenaOps A} := {
  allocate_ok n id a : 0 <= n -> exists b a', allocate n id a = Ok (Some b) a' /\ zlen b = n;
  reallocate_ok b old new id a : old = zlen b -> old <= new ->
    exists b' a', reallocate b old new id a = Ok (Some (b ++ b')) a' /\ zlen (b ++ b') = new
}.

Section parser.
Context `{HT : Target} `{HP : Pow} {A : Type} `{HL : ArenaLaws A}.
Context (input : list Z) (arena_id : Z).

Definition fits (t : json_token) (a : atok) : Prop :=
  tok_type t = type_of a /\
  match a with
  | ANum f => value_f t = f
  | AStr s => nonzero s /\ forall c : ser_ctxt_t A, extract_str_value input t c = Ok (Some s) c
  | ABool b => value_b t = b
  | _ => True
  end.

(** The tokenizer finds the tokens from [loc] on. *)
Inductive lexes : Z -> list atok -> Prop :=
| lexes_nil loc : lexes loc []
| lexes_cons loc t loc' a l :
    (forall c : ser_ctxt_t A, get_token input loc c = Ok (Some t, loc') c) ->
    fits t a -> lexes loc' l -> lexes loc (a :: l).

(** [st d X w Y l c]: the current node is [w] with the bytes [Y], behind [X]; there is
    room for [d] more bytes; the tokens to come, with the current one, are [l]. *)
Definition st (d : Z) (X : list Z) (w : Z) (Y : list Z) (l : list atok) (c : ser_ctxt_t A) : Prop :=
  lookahead c = undef_token /\
  (exists a l', l = a :: l' /\ fits (cur_tok c) a /\ lexes (ser_loc c) l') /\
  cur_node_ofs c = zlen X /\ ser_used c = zlen X + 12 + zlen Y /\ ser_total c = zlen (ser_buffer c) /\
  (exists rest, ser_buffer c = X ++ jnode w Y ++ rest) /\
  ser_used c + d <= ser_total c <= 4 * (ser_used c + d).

(** [m] reads the tokens [l] up to [l'] and appends [bs] to the current node. *)
Definition appends (d : Z) (m : M (ser_ctxt_t A) bool) (l : list atok) (bs : list Z) (l' : list atok) : Prop :=
  forall c X w Y, st d X w Y l c -> zlen X + 12 + zlen Y + zlen bs <= 2 ^ 48 ->
    exists c', m c = Ok true c' /\ st 0 X w (Y ++ bs) l' c'.

Lemma st_used d X w Y l c : st d X w Y l c -> zlen X + 12 + zlen Y = ser_used c /\ 0 <= ser_used c.
Proof. intros (_ & _ & _ & Hu & _). lia. Qed.

(** ** Steps of the parser *)

Lemma read_token_st d X w Y a b l c : st d X w Y (a :: b :: l) c ->
  exists c', read_token input c = Ok true c' /\ st d X w Y (b :: l) c'.
Proof.
  intros (Hl & (a0 & l0 & [= <- <-] & Hf & Hx) & Hr). inversion Hx as [|? t loc' ? ? Ht Hft Hx']; subst.
  unfold read_token, bind, gets. cbv beta iota. rewrite Hl. cbn [tok_type undef_token simple_token].
  rewrite bool_decide_eq_true_2 by done. cbn [negb]. unfold next_token, bind, gets, modify. cbv beta iota. rewrite Ht. cbn.
  eexists. split; [done|]. split; [done|]. split; [eauto|]. exact Hr.
Qed.

Lemma appends_and_then d m k l1 l2 l3 b1 b2 :
  appends d m l1 b1 l2 -> appends 0 k l2 b2 l3 -> appends d (and_then m k) l1 (b1 ++ b2) l3.
Proof.
  intros Hm Hk c X w Y Hst Hlen. rewrite length_app in Hlen.
  destruct (Hm c X w Y Hst ltac:(lia)) as (c1 & E1 & Hs1).
  destruct (Hk c1 X w (Y ++ b1) Hs1) as (c2 & E2 & Hs2); [rewrite length_app; lia|].
  exists c2. unfold and_then. by rewrite (bind_Ok _ _ _ _ _ E1), app_assoc.
Qed.

Lemma appends_read_token a b l : appends 0 (read_token input) (a :: b :: l) [] (b :: l).
Proof. intros c X w Y Hst _. rewrite app_nil_r. by apply read_token_st with a. Qed.

Lemma appends_ret l : appends 0 (ret true) l [] l.
Proof. intros c X w Y Hst _. rewrite app_nil_r. by exists c. Qed.

(** ** Room *)

Lemma make_room_st need size X w Y l c : st 0 X w Y l c -> 1 <= need -> ser_used c + need <= 2 ^ 48 ->
  24 <= size -> size = ser_total c + need \/ size = ser_total c + need - 1 ->
  exists c', make_room arena_id need size c = Ok true c' /\ st need X w Y l c'.
Proof.
  intros Hst Hn Hb H24 Hs. pose proof (st_used _ _ _ _ _ _ Hst) as [_ Hu0].
  destruct Hst as (Hla & Htok & Hcur & Hu & Ht & (rest & Hbuf) & Hlt).
  unfold make_room, bind at 1, get. cbv beta iota. unfold available. rewrite to_u_id by lia.
  destruct (Z.ltb_spec (ser_total c - ser_used c) need) as [Hlow|Hhigh].
  - pose proof (f64_grow size ltac:(lia)) as Hg. fold (grown size) in Hg.
    destruct (reallocate_ok (ser_buffer c) (ser_total c) (grown size) arena_id (ser_arena c) Ht ltac:(lia))
      as (b' & a' & Er & Hlb).
    unfold bind, zoom. rewrite Er. unfold modify, ret. cbv beta iota. eexists. split; [done|].
    repeat split; cbn; try done; [|lia|lia].
    exists (rest ++ b'). by rewrite Hbuf, <- !app_assoc.
  - exists c. split; [done|]. repeat split; try done; [by exists rest|lia|lia].
Qed.

(** ** Writing nodes *)

Lemma wr_app (P old Q bs : list Z) a (c : ser_ctxt_t A) :
  ser_buffer c = P ++ old ++ Q -> a = zlen P -> length bs = length old ->
  wr a bs c = Ok tt (with_buffer (P ++ bs ++ Q) c).
Proof.
  intros Hb -> Hl. unfold wr, bind, gets. cbv beta iota. rewrite Hb, slice_set_app by done. done.
Qed.

Lemma write_node_app P old Q what size ofs (c : ser_ctxt_t A) :
  ser_buffer c = P ++ old ++ Q -> ofs = zlen P -> length old = 12%nat ->
  write_node ofs what size c = Ok tt (with_buffer (P ++ hdr what size ++ Q) c).
Proof.
  intros Hb -> Hl. destruct (split_room old 4 8 Hl) as (r1 & r2 & -> & L1 & L2). rewrite <- app_assoc in Hb.
  unfold write_node. erewrite bind_Ok by (apply (wr_app P r1 (r2 ++ Q)); [exact Hb|done|by rewrite encode_length]).
  erewrite (wr_app (P ++ encode U32 what) r2 Q).
  - unfold hdr. by rewrite <- !app_assoc.
  - cbn. by rewrite <- app_assoc.
  - rewrite length_app, encode_length. cbn. lia.
  - by rewrite encode_length.
Qed.

(** Header and body of a node, at the end of what is used. *)
Lemma put_node P r what body ofs (c : ser_ctxt_t A) :
  ser_buffer c = P ++ r -> ofs = zlen P -> 12 + zlen body <= zlen r ->
  exists r', zlen r' = zlen r - 12 - zlen body /\ forall B (k : M (ser_ctxt_t A) B),
  (do! write_node ofs what (12 + zlen body) in do! wr (ofs + sizeof_msg_node) body in k) c
  = k (with_buffer (P ++ jnode what body ++ r') c).
Proof.
  intros Hb -> Hr. destruct (split_room r 12 (length r - 12) ltac:(lia)) as (r1 & r' & -> & L1 & L').
  rewrite !length_app in *.
  destruct (split_room r' (length body) (length r' - length body) ltac:(lia)) as (r3 & r4 & -> & L3 & L4).
  exists r4. split; [lia|]. intros B k. erewrite bind_Ok by (apply (write_node_app P r1 (r3 ++ r4)); [exact Hb|done|done]).
  erewrite bind_Ok by (apply (wr_app (P ++ hdr what (12 + zlen body)) r3 r4);
    [cbn; by rewrite <- app_assoc|rewrite length_app, hdr_length; unfold sizeof_msg_node; lia|done]).
  unfold jnode. by rewrite <- !app_assoc.
Qed.

Lemma get_size_app P w s Q ofs (c : ser_ctxt_t A) :
  ser_buffer c = P ++ hdr w s ++ Q -> ofs = zlen P -> 0 <= s < 2 ^ 64 -> get_size ofs c = Ok s c.
Proof.
  intros Hb -> Hs. unfold get_size, bind, gets. cbv beta iota. rewrite Hb. unfold hdr, rd_size.
  rewrite <- app_assoc, app_assoc.
  replace (zlen P + 4) with (zlen (P ++ encode U32 w)) by (rewrite length_app, encode_length; cbn; lia).
  apply rd_app, fits_u_spec. by change (2 ^ bits U64) with (2 ^ 64).
Qed.

Lemma add_size_app P w s d Q ofs (c : ser_ctxt_t A) :
  ser_buffer c = P ++ hdr w s ++ Q -> ofs = zlen P -> 0 <= s -> 0 <= d -> s + d < 2 ^ 64 ->
  add_size ofs d c = Ok tt (with_buffer (P ++ hdr w (s + d) ++ Q) c).
Proof.
  intros Hb -> Hs Hd Hsd. unfold add_size. erewrite bind_Ok by (apply (get_size_app P w s Q); [exact Hb|done|lia]).
  rewrite to_u_id by lia. erewrite (wr_app (P ++ encode U32 w) (encode U64 s) Q).
  - unfold hdr. by rewrite <- !app_assoc.
  - rewrite Hb. unfold hdr. by rewrite <- !app_assoc.
  - rewrite length_app, encode_length. cbn. lia.
  - by rewrite !encode_length.
Qed.

(** A complete node added to the size of the node before it. *)
Lemma jnode_app w Y Z_ : hdr w (12 + zlen Y + zlen Z_) ++ Y ++ Z_ = jnode w (Y ++ Z_).
Proof. unfold jnode. rewrite length_app. do 2 f_equal. lia. Qed.

(** ** Leaves *)

Lemma appends_leaf need size what body c X w Y a b l :
  need = 12 + zlen body -> st 0 X w Y (a :: b :: l) c -> zlen X + 12 + zlen Y + need <= 2 ^ 48 ->
  24 <= size -> size = ser_total c + need \/ size = ser_total c + need - 1 ->
  exists c', leaf input arena_id need size what need body c = Ok true c' /\ st 0 X w (Y ++ jnode what body) (b :: l) c'.
Proof.
  intros -> Hst Hlen H24 Hs. pose proof (st_used _ _ _ _ _ _ Hst) as [Hu0 _].
  destruct (make_room_st (12 + zlen body) size _ _ _ _ _ Hst ltac:(lia) ltac:(lia) H24 Hs) as (c1 & E1 & Hst1).
  unfold leaf, and_then. rewrite (bind_Ok _ _ _ _ _ E1).
  destruct Hst1 as (Hla & Htok & Hcur & Hu & Ht & (rest & Hbuf) & Hlt).
  unfold bind at 1, get. cbv beta iota.
  assert (Hrest : 12 + zlen body <= zlen rest).
  { rewrite Hbuf in Ht. lens. }
  destruct (put_node (X ++ jnode w Y) rest what body (ser_used c1) c1) as (r' & Hr' & Hput).
  { by rewrite Hbuf, <- app_assoc. }
  { lens. }
  { done. }
  rewrite Hput. clear Hput. erewrite bind_Ok by reflexivity. cbv beta.
  erewrite bind_Ok.
  2:{ apply (add_size_app X w (12 + zlen Y) _ (Y ++ jnode what body ++ r')); [|done|lia..].
      cbn. unfold jnode at 1. by rewrite <- !app_assoc. }
  apply (read_token_st 0 X w _ a b l). rewrite Hbuf in Ht.
  repeat split; cbn; try done; [lens|lens| |lia|lia].
  exists r'. rewrite <- (jnode_app w Y), <- !app_assoc. do 2 f_equal. f_equal. lens.
Qed.

(** ** Nested nodes *)

(** The node [what] around what [content] appends. *)
Lemma appends_nested what body (content : M (ser_ctxt_t A) bool) l bs l' :
  appends 0 content l bs l' ->
  appends (12 + zlen body) (nested_node what (12 + zlen body) body content) l (jnode what (body ++ bs)) l'.
Proof.
  intros Hc c X w Y Hst Hlen. rewrite jnode_length, length_app in Hlen.
  destruct Hst as (Hla & Htok & Hcur & Hu & Ht & (rest & Hbuf) & Hlt).
  unfold nested_node, bind at 1, get. cbv beta iota.
  assert (Hrest : 12 + zlen body <= zlen rest) by (rewrite Hbuf in Ht; lens).
  destruct (put_node (X ++ jnode w Y) rest what body (ser_used c) c) as (r' & Hr' & Hput).
  { by rewrite Hbuf, <- app_assoc. }
  { lens. }
  { done. }
  rewrite Hput. clear Hput.
  erewrite bind_Ok.
  2:{ apply (add_size_app X w (12 + zlen Y) _ (Y ++ jnode what body ++ r')); [|done|lia..].
      cbn. unfold jnode at 1. by rewrite <- !app_assoc. }
  erewrite bind_Ok by reflexivity. erewrite bind_Ok by reflexivity.
  set (X' := X ++ hdr w (12 + zlen Y + (12 + zlen body)) ++ Y).
  match goal with |- exists c', and_then content _ ?c0 = _ /\ _ => destruct (Hc c0 X' what body) as (c1 & E1 & Hst1) end.
  { rewrite Hbuf in Ht. unfold X'. repeat split; cbn; try done; [lens|lens|lens| |lia|lia].
    exists r'. by rewrite <- !app_assoc. }
  { unfold X'. lens. }
  unfold and_then. rewrite (bind_Ok _ _ _ _ _ E1). clear E1 Htok Hla Hbuf Ht.
  destruct Hst1 as (Hla & Htok & Hcur1 & Hu1 & Ht & (r1 & Hbuf) & Hlt1).
  assert (HX' : zlen X' = ser_used c) by (unfold X'; lens).
  erewrite bind_Ok by reflexivity.
  erewrite bind_Ok by (apply (get_size_app X' what (12 + zlen (body ++ bs)) ((body ++ bs) ++ r1));
    [cbn; rewrite Hbuf; unfold jnode; by rewrite <- !app_assoc|done|rewrite length_app; lia]).
  rewrite to_u_id by (rewrite length_app; lia).
  erewrite bind_Ok.
  2:{ apply (add_size_app X w (12 + zlen Y + (12 + zlen body)) _ (Y ++ jnode what (body ++ bs) ++ r1));
        [|done|lia|rewrite length_app; lia|rewrite length_app; lia].
      cbn. rewrite Hbuf. unfold X'. by rewrite <- !app_assoc. }
  eexists. split; [reflexivity|]. rewrite Hbuf in Ht. unfold X' in *.
  repeat split; cbn; try done; [lens|lens| |lia|lia].
  exists r1. rewrite <- (jnode_app w Y), <- !app_assoc. do 2 f_equal. f_equal. lens.
Qed.

(** ** Values *)

Lemma st_total d X w Y l c : st d X w Y l c -> 0 <= d -> 12 <= ser_total c.
Proof. intros (_ & _ & _ & Hu & _ & _ & Ht) Hd. lia. Qed.

Lemma st_fits d X w Y a l c : st d X w Y (a :: l) c -> fits (cur_tok c) a.
Proof. intros (_ & (a0 & l0 & [= <- <-] & Hf & _) & _). done. Qed.

Lemma st_type d X w Y a l c : st d X w Y (a :: l) c -> tok_type (cur_tok c) = type_of a.
Proof. intros Hst. apply st_fits in Hst. apply Hst. Qed.

(** What depends on the state only through what [st] fixes. *)
Lemma appends_get d (m : ser_ctxt_t A -> M (ser_ctxt_t A) bool) l bs l' :
  (forall c X w Y, st d X w Y l c -> zlen X + 12 + zlen Y + zlen bs <= 2 ^ 48 ->
    exists c', m c c = Ok true c' /\ st 0 X w (Y ++ bs) l' c') ->
  appends d (let! c := get in m c) l bs l'.
Proof. intros Hm c X w Y Hst Hlen. by apply Hm. Qed.

Lemma appends_number f b l : appends 0 (consume_number input arena_id) (ANum f :: b :: l) (jenc (JNum f)) (b :: l).
Proof.
  apply appends_get. intros c X w Y Hst Hlen. pose proof (st_total _ _ _ _ _ _ Hst ltac:(lia)).
  destruct (st_fits _ _ _ _ _ _ _ Hst) as [_ ->]. unfold sizeof_msg_node_f64.
  apply appends_leaf with (ANum f); [done|done| |lia|lia].
  cbn [jenc] in Hlen. rewrite jnode_length, encode_length in Hlen. cbn in Hlen. lia.
Qed.

Lemma appends_null b l : appends 0 (consume_null input arena_id) (ANull :: b :: l) (jenc JNull) (b :: l).
Proof.
  apply appends_get. intros c X w Y Hst Hlen. pose proof (st_total _ _ _ _ _ _ Hst ltac:(lia)).
  unfold sizeof_msg_node. apply appends_leaf with ANull; [done|done|exact Hlen|lia|lia].
Qed.

Lemma appends_boolean v b l :
  appends 0 (consume_boolean input arena_id) (ABool v :: b :: l) (jenc (JBool v)) (b :: l).
Proof.
  apply appends_get. intros c X w Y Hst Hlen. pose proof (st_total _ _ _ _ _ _ Hst ltac:(lia)).
  destruct (st_fits _ _ _ _ _ _ _ Hst) as [_ ->]. unfold sizeof_msg_node_bool.
  apply appends_leaf with (ABool v); [by destruct v|done| |lia|lia].
  cbn [jenc] in Hlen. rewrite jnode_length, encode_length in Hlen. cbn in Hlen. lia.
Qed.

Lemma sz_body_nonzero s : nonzero s -> sz_body s = s ++ [0].
Proof. intros Hs. unfold sz_body. by rewrite c_str_bytes, Nat.sub_diag by done. Qed.

Lemma appends_string s b l : appends 0 (consume_string input arena_id) (AStr s :: b :: l) (jenc (JStr s)) (b :: l).
Proof.
  apply appends_get. intros c X w Y Hst Hlen. pose proof (st_total _ _ _ _ _ _ Hst ltac:(lia)).
  destruct (st_fits _ _ _ _ _ _ _ Hst) as [_ [Hs Hv]]. erewrite bind_read by apply Hv. cbv beta iota zeta.
  rewrite sz_body_nonzero by done. unfold sizeof_msg_node.
  cbn [jenc] in Hlen. rewrite jnode_length, length_app in Hlen. cbn in Hlen.
  apply appends_leaf with (AStr s); [rewrite length_app; cbn; lia|done|lia|lia|lia].
Qed.

Lemma appends_expect t b l : appends 0 (expect input t) (APunct t :: b :: l) [] (b :: l).
Proof.
  apply appends_get. intros c X w Y Hst Hlen. rewrite (st_type _ _ _ _ _ _ _ Hst).
  rewrite bool_decide_eq_true_2 by done. by apply (appends_read_token (APunct t)).
Qed.

Lemma appends_room need (f : ser_ctxt_t A -> Z) (m : M (ser_ctxt_t A) bool) l bs l' :
  12 <= need <= zlen bs -> (forall c, f c = ser_total c + need) ->
  appends need m l bs l' -> appends 0 (let! c := get in and_then (make_room arena_id need (f c)) m) l bs l'.
Proof.
  intros Hn Hf Hm. apply appends_get. intros c X w Y Hst Hlen.
  pose proof (st_total _ _ _ _ _ _ Hst ltac:(lia)). pose proof (st_used _ _ _ _ _ _ Hst).
  destruct (make_room_st need (f c) _ _ _ _ _ Hst ltac:(lia) ltac:(lia)) as (c1 & E1 & Hst1); rewrite ?Hf; [lia|auto|].
  rewrite Hf in E1. unfold and_then. rewrite (bind_Ok _ _ _ _ _ E1). by apply Hm.
Qed.

(** ** Objects and arrays *)

(** A value is read as it is written, whatever follows. *)
Definition reads_value (m : M (ser_ctxt_t A) bool) (v : json) : Prop :=
  forall b l, appends 0 m (jtoks v ++ b :: l) (jenc v) (b :: l).

Definition starts_value (a : atok) : Prop :=
  match a with APunct t => t = t_lbrace \/ t = t_lsqrbra | AEnd => False | _ => True end.

Lemma jtoks_head v : exists a l, jtoks v = a :: l /\ starts_value a.
Proof. destruct v; cbn; eexists _, _; (split; [reflexivity|]); cbn; auto. Qed.

Definition mtoks (m : list Z * json) : list atok := AStr m.1 :: APunct t_colon :: jtoks m.2.
Definition comma (l : list atok) : list atok := APunct t_comma :: l.

(** A loop that reads a token first. *)
Lemma appends_after_read (m : M (ser_ctxt_t A) bool) a b l bs l' :
  appends 0 m (b :: l) bs l' -> appends 0 (and_then (read_token input) m) (a :: b :: l) bs l'.
Proof. intros Hm. apply (appends_and_then 0 _ _ _ (b :: l) _ []); [apply appends_read_token|done]. Qed.

Section nested.
Context (co ca : M (ser_ctxt_t A) bool).

Abbreviation element := (consume_element input arena_id co ca).

Lemma element_read v : reads_value (element false) v ->
  forall a b l, appends 0 (element true) (a :: jtoks v ++ b :: l) (jenc v) (b :: l).
Proof.
  intros Hv a b l. specialize (Hv b l). destruct (jtoks_head v) as (h & t & E & _). rewrite E in *.
  by apply appends_after_read.
Qed.

Lemma member_appends k v b l : nonzero k -> reads_value (element false) v ->
  appends 0 (consume_member input arena_id co ca) (mtoks (k, v) ++ b :: l) (jenc_member (k, v)) (b :: l).
Proof.
  intros Hk Hv. apply appends_get. intros c X w Y Hst Hlen.
  destruct (st_fits _ _ _ _ _ _ _ Hst) as [_ [_ He]]. erewrite bind_read by apply He. cbv beta iota zeta.
  pose proof (st_total _ _ _ _ _ _ Hst ltac:(lia)). pose proof (st_used _ _ _ _ _ _ Hst).
  unfold jenc_member, sizeof_msg_node in *. cbn [fst snd] in *. rewrite jnode_length, !length_app in Hlen. cbn [length] in Hlen.
  destruct (make_room_st (12 + zlen k + 1) (ser_total c + 12 + zlen k + 1) _ _ _ _ _ Hst) as (c1 & E1 & Hst1); [lia..|].
  unfold and_then at 1. rewrite (bind_Ok _ _ _ _ _ E1).
  destruct (read_token_st _ _ _ _ _ _ _ _ Hst1) as (c2 & E2 & Hst2).
  unfold and_then at 1. rewrite (bind_Ok _ _ _ _ _ E2).
  unfold bind at 1, get. cbv beta iota. rewrite (st_type _ _ _ _ _ _ _ Hst2), bool_decide_eq_true_2 by done.
  rewrite sz_body_nonzero by done. replace (12 + zlen k + 1) with (12 + zlen (k ++ [0])) in * by (rewrite length_app; cbn; lia).
  refine (appends_nested NODE (k ++ [0]) _ _ (jenc v) (b :: l) _ c2 X w Y Hst2 _).
  - apply (element_read v Hv).
  - rewrite jnode_length, !length_app. cbn [length]. lia.
Qed.

Definition good_member (m : list Z * json) : Prop := nonzero m.1 /\ reads_value (element false) m.2.

Lemma first_member k v ms fuel b l bs : nonzero k -> reads_value (element false) v ->
  let rest := concat (map (fun m => comma (mtoks m)) ms) ++ APunct t_rbrace :: b :: l in
  appends 0 (members_loop input arena_id co ca fuel) rest bs (APunct t_rbrace :: b :: l) ->
  appends 0 (members_loop input arena_id co ca (S fuel)) (mtoks (k, v) ++ rest) (jenc_member (k, v) ++ bs) (APunct t_rbrace :: b :: l).
Proof.
  intros Hk Hv rest Hr. cbn [members_loop]. apply appends_get. intros c X w Y Hst Hlen.
  rewrite (st_type _ _ _ _ _ _ _ Hst). cbn [type_of].
  refine (appends_and_then 0 _ _ _ rest _ _ _ _ Hr c X w Y Hst Hlen).
  assert (exists b' l', rest = b' :: l') as (b' & l' & ->) by (unfold rest; destruct ms; cbn; eauto).
  by apply (member_appends k v b' l').
Qed.

Lemma members_appends ms : Forall good_member ms -> forall fuel b l, (2 * length ms + 1 <= fuel)%nat ->
  appends 0 (members_loop input arena_id co ca fuel)
    (concat (map (fun m => comma (mtoks m)) ms) ++ APunct t_rbrace :: b :: l)
    (concat (map jenc_member ms)) (APunct t_rbrace :: b :: l).
Proof.
  induction 1 as [|[k v] ms [Hk Hv] _ IH]; intros fuel b l Hf.
  - destruct fuel as [|fuel]; [lia|]. cbn [members_loop]. apply appends_get. intros c X w Y Hst Hlen.
    rewrite (st_type _ _ _ _ _ _ _ Hst). by apply (appends_ret _ c X w Y Hst).
  - destruct fuel as [|[|fuel]]; [cbn in Hf; lia..|]. cbn [map concat]. rewrite <- app_assoc.
    cbn [members_loop]. apply appends_get. intros c X w Y Hst Hlen.
    rewrite (st_type _ _ _ _ _ _ _ Hst). cbn [comma type_of].
    refine (appends_after_read _ (APunct t_comma) (AStr k) _ _ _ _ c X w Y Hst Hlen).
    apply (first_member k v ms fuel); [done..|]. apply IH. cbn in Hf. lia.
Qed.

Lemma elements_appends vs : Forall (reads_value (element false)) vs -> forall v fuel b l,
  reads_value (element false) v -> (length vs + 1 <= fuel)%nat ->
  appends 0 (elements_loop input arena_id co ca fuel)
    (jtoks v ++ concat (map (fun v => comma (jtoks v)) vs) ++ APunct t_rsqrbra :: b :: l)
    (jenc v ++ concat (map jenc vs)) (APunct t_rsqrbra :: b :: l).
Proof.
  induction 1 as [|v' vs Hv' _ IH]; intros v fuel b l Hv Hf; (destruct fuel as [|fuel]; [lia|]); cbn [elements_loop map concat].
  - eapply appends_and_then; [apply Hv|]. apply appends_get. intros c X w Y Hst Hlen.
    rewrite (st_type _ _ _ _ _ _ _ Hst), bool_decide_eq_false_2 by done. by apply (appends_ret _ c X w Y Hst).
  - rewrite <- app_assoc. eapply appends_and_then; [apply Hv|]. apply appends_get. intros c X w Y Hst Hlen.
    rewrite (st_type _ _ _ _ _ _ _ Hst), bool_decide_eq_true_2 by done.
    destruct (jtoks_head v') as (h & t & E & _).
    refine (appends_after_read _ (APunct t_comma) h (t ++ _) _ _ _ c X w Y _ Hlen).
    + rewrite app_comm_cons, <- E. apply IH; [done|cbn in Hf; lia].
    + rewrite app_comm_cons, <- E. exact Hst.
Qed.

Lemma object_appends ms fuel b l : Forall good_member ms -> (2 * length ms + 1 <= fuel)%nat ->
  appends 0 (consume_object_with input arena_id co ca fuel) (jtoks (JObj ms) ++ b :: l) (jenc (JObj ms)) (b :: l).
Proof.
  intros Hms Hf. cbn [jtoks jenc]. rewrite <- app_comm_cons, <- app_assoc. fold jenc_member.
  change (map _ ms) with (map mtoks ms) at 1. cbn [app].
  apply (appends_room 13 (fun c => ser_total c + 12 + 1)); [rewrite jnode_length; cbn [length]; lia|intros; lia|].
  rewrite <- (app_nil_r (jnode _ _)). eapply appends_and_then; [|apply appends_expect].
  apply (appends_nested NODE [0]). destruct Hms as [|[k v] ms [Hk Hv] Hms].
  - apply appends_after_read. by apply (members_appends [] (Forall_nil_2 _)).
  - cbn [map commas]. rewrite map_map, <- app_assoc. apply appends_after_read.
    destruct fuel as [|fuel]; [lia|]. apply (first_member k v ms fuel); [done..|]. apply members_appends; [done|]. cbn in Hf. lia.
Qed.

Lemma array_appends vs fuel b l : Forall (reads_value (element false)) vs -> (length vs <= fuel)%nat ->
  appends 0 (consume_array_with input arena_id co ca fuel) (jtoks (JArr vs) ++ b :: l) (jenc (JArr vs)) (b :: l).
Proof.
  intros Hvs Hf. cbn [jtoks jenc]. rewrite <- app_comm_cons, <- app_assoc. cbn [app].
  apply (appends_room 12 (fun c => ser_total c + 12)); [rewrite jnode_length; lia|done|].
  rewrite <- (app_nil_r (jnode _ _)). eapply appends_and_then; [|apply appends_expect].
  apply (appends_nested ARRAY []). destruct Hvs as [|v vs Hv Hvs].
  - apply appends_after_read, appends_get. intros c X w Y Hst Hlen.
    rewrite (st_type _ _ _ _ _ _ _ Hst), bool_decide_eq_true_2 by done. by apply (appends_ret _ c X w Y Hst).
  - cbn [map commas concat]. rewrite <- app_assoc, map_map. destruct (jtoks_head v) as (h & t & E & Hh). 
    rewrite E, <- app_comm_cons. apply appends_after_read. rewrite app_comm_cons, <- E.
    apply appends_get. intros c X w Y Hst Hlen. pose proof Hst as Ht. rewrite E in Ht.
    rewrite (st_type _ _ _ _ _ _ _ Ht), bool_decide_eq_false_2.
    2:{ destruct h; cbn in *; try done. by intros ->; destruct Hh. }
    refine (elements_appends vs Hvs v fuel b l Hv _ c X w Y Hst Hlen). cbn in Hf. lia.
Qed.
End nested.

(** ** All values *)

Fixpoint good_json (v : json) : Prop :=
  match v with
  | JStr s => nonzero s
  | JArr l => fold_right (fun v P => good_json v /\ P) True l
  | JObj l => fold_right (fun m P => (nonzero m.1 /\ good_json m.2) /\ P) True l
  | _ => True
  end.

Lemma good_list vs : fold_right (fun v P => good_json v /\ P) True vs -> Forall good_json vs.
Proof. induction vs as [|v vs IH]; [constructor|]. intros [Hv Hvs]. constructor; auto. Qed.

Lemma good_members (ms : list (list Z * json)) : fold_right (fun m P => (nonzero m.1 /\ good_json m.2) /\ P) True ms ->
  Forall (fun m => nonzero m.1 /\ good_json m.2) ms.
Proof. induction ms as [|m ms IH]; [constructor|]. intros [Hm Hms]. constructor; auto. Qed.

(** The case distinction of consume_element. *)
Lemma element_type co ca t (k : M (ser_ctxt_t A) bool) a l bs l' :
  type_of a = t ->
  match t with
  | t_number => consume_number input arena_id | t_string => consume_string input arena_id
  | t_null => consume_null input arena_id | t_boolean => consume_boolean input arena_id
  | t_lbrace => co | t_lsqrbra => ca | _ => ret true
  end = k -> t <> t_eoi ->
  appends 0 k (a :: l) bs l' -> appends 0 (consume_element input arena_id co ca false) (a :: l) bs l'.
Proof.
  intros Ha <- Ht Hk. unfold consume_element, and_then. intros c X w Y Hst Hlen.
  erewrite bind_Ok by reflexivity. cbv beta iota.
  revert c X w Y Hst Hlen. apply appends_get. intros c X w Y Hst Hlen.
  rewrite (st_type _ _ _ _ _ _ _ Hst), Ha. destruct (Hk c X w Y Hst Hlen) as (c' & E & Hst').
  destruct t; try done; by exists c'.
Qed.

Lemma element_inv co ca v l bs l' :
  appends 0 (consume_element input arena_id co ca false) (jtoks v ++ l) bs l' ->
  appends 0 (let! c := get in
     match tok_type (cur_tok c) with
     | t_number => consume_number input arena_id
     | t_string => consume_string input arena_id
     | t_null => consume_null input arena_id
     | t_boolean => consume_boolean input arena_id
     | t_lbrace => co
     | t_lsqrbra => ca
     | _ => ret false
     end) (jtoks v ++ l) bs l'.
Proof.
  destruct (jtoks_head v) as (a & t & -> & Ha). intros He. apply appends_get. intros c X w Y Hst Hlen.
  destruct (He c X w Y Hst Hlen) as (c' & E & Hst'). unfold consume_element, and_then in E.
  erewrite bind_Ok in E by reflexivity. cbv beta iota in E. unfold bind at 1, get in E. cbv beta iota in E.
  rewrite (st_type _ _ _ _ _ _ _ Hst) in E |- *. exists c'. split; [|done].
  destruct a as [| | | |t0|]; cbn [type_of starts_value] in *; try done. by destruct Ha as [-> | ->].
Qed.

Abbreviation element fuel :=
  (consume_element input arena_id (consume_object input arena_id fuel) (consume_array input arena_id fuel) false).

Lemma value_appends v : good_json v -> forall fuel, (jfuel v <= fuel)%nat -> reads_value (element fuel) v.
Proof.
  induction v as [|x|f|s|vs IH|ms IH] using json_ind'; intros Hg fuel Hf b l; cbn [jtoks app].
  - eapply (element_type _ _ t_null); [done|reflexivity|done|apply appends_null].
  - eapply (element_type _ _ t_boolean); [done|reflexivity|done|apply appends_boolean].
  - eapply (element_type _ _ t_number); [done|reflexivity|done|apply appends_number].
  - eapply (element_type _ _ t_string); [done|reflexivity|done|apply appends_string].
  - eapply (element_type _ _ t_lsqrbra); [done|reflexivity|done|].
    cbn [jfuel] in Hf. destruct fuel as [|fuel]; [lia|]. cbn [consume_array].
    apply (array_appends _ _ vs); [|lia]. apply good_list in Hg.
    rewrite Forall_forall in Hg, IH |- *. intros v Hv. apply IH; auto.
    pose proof (list_sum_ge jfuel vs v Hv). lia.
  - eapply (element_type _ _ t_lbrace); [done|reflexivity|done|].
    cbn [jfuel] in Hf. destruct fuel as [|fuel]; [lia|]. cbn [consume_object].
    apply (object_appends _ _ ms); [|lia]. apply good_members in Hg.
    rewrite Forall_forall in Hg, IH |- *. intros m Hm. destruct (Hg m Hm). split; [done|]. apply IH; auto.
    pose proof (list_sum_ge (fun m => jfuel m.2) ms m Hm). cbv beta in *. lia.
Qed.

(** ** The whole text *)

Lemma read_internal_st v fuel c X w Y : good_json v -> (jfuel v <= fuel)%nat ->
  st 0 X w Y (APunct t_undef :: jtoks v ++ [AEnd]) c -> zlen X + 12 + zlen Y + zlen (jenc v) <= 2 ^ 48 ->
  exists c', read_internal input arena_id fuel c = Ok true c' /\ st 0 X w (Y ++ jenc v) [AEnd] c'.
Proof.
  intros Hg Hf Hst Hlen. destruct (jtoks_head v) as (a & t & E & Ha). rewrite E in Hst.
  destruct (read_token_st _ _ _ _ _ _ _ _ Hst) as (c1 & E1 & Hst1).
  unfold read_internal, and_then at 1. rewrite (bind_Ok _ _ _ _ _ E1).
  rewrite app_comm_cons, <- E in Hst1.
  pose proof (element_inv _ _ v [AEnd] _ _ (value_appends v Hg fuel Hf AEnd [])) as Hv.
  destruct (Hv c1 X w Y Hst1 Hlen) as (c2 & E2 & Hst2).
  exists c2. split; [|done]. unfold bind at 1, get in E2. unfold bind at 1, get. cbv beta iota in E2 |- *.
  pose proof (st_type _ _ _ _ _ _ _ Hst2) as Ht2. cbn [type_of] in Ht2.
  assert (Hend : forall m, m c1 = Ok true c2 ->
    and_then m (fun s => Ok (bool_decide (tok_type (cur_tok s) = t_eoi)) s) c1 = Ok true c2).
  { intros m Hm. unfold and_then. rewrite (bind_Ok _ _ _ _ _ Hm), Ht2. by rewrite bool_decide_eq_true_2. }
  destruct (tok_type (cur_tok c1)); try (by apply Hend); done.
Qed.

(** The parser turns the tokens of a value into its message. *)
Lemma read_tokens v fuel a : good_json v -> (jfuel v <= fuel)%nat -> 12 + zlen (jenc v) <= 2 ^ 48 ->
  lexes 0 (jtoks v ++ [AEnd]) ->
  exists rest a', read input arena_id fuel a =
    Ok (Some (jnode ROOT (jenc v) ++ rest, (zlen (jnode ROOT (jenc v) ++ rest), 12 + zlen (jenc v)))) a'.
Proof.
  intros Hg Hf Hlen Hlex. unfold read, sizeof_msg_node.
  destruct (allocate_ok 12 arena_id a ltac:(lia)) as (b & a1 & -> & Hb). cbv beta iota zeta.
  erewrite bind_Ok by (apply (write_node_app [] b []); [by rewrite app_nil_r|done|lia]).
  match goal with |- context [read_internal _ _ _ ?c0] => destruct (read_internal_st v fuel c0 [] ROOT []) as (c1 & E1 & Hst1) end.
  - done.
  - done.
  - split; [done|]. split.
    { eexists _, _. split; [done|]. split; [|exact Hlex]. by split. }
    cbn. repeat split; try done. exists []. done.
  - cbn [length]. lia.
  - rewrite E1. destruct Hst1 as (_ & _ & _ & Hu & Ht & (rest & Hbuf) & _). cbn [app length] in *.
    rewrite Ht, Hu, Hbuf. by exists rest, (ser_arena c1).
Qed.
End parser.
