(* ===== verification/FastJsonText.v ===== *)
(** * FastJsonText: texts and their tokens

    How the tokens of a value are written: white space, words, integers, strings with
    escapes. The tokenizer finds the tokens in every such text, so the reader turns every
    text of a value into its message. *)

From S2P Require Import Prelude MachineInt F64 VMEnv Protobufish ProtobufishSpec Websocket HttpSpec FastJson F64Spec FastJsonSpec.

#[local] Transparent f64_add.

(** ** Spelling *)

Definition blank (l : list Z) : Prop := Forall (fun c => isspace c = true) l.

(** What may follow a word or a number. *)
Definition stops (l : list Z) : Prop :=
  match l with [] => True | c :: _ => isspace c = true \/ c ∈ [44; 58; 93; 125] end.

Definition digits (ds : list Z) : Prop := Forall (fun c => isdigit c = true) ds.

Definition value_of (r : Z) (ds : list Z) : Z := fold_left (fun r c => 10 * r + (c - 48)) ds r.

(** A number without leading zeros. *)
Definition numeral (ds : list Z) (n : Z) : Prop :=
  digits ds /\ value_of 0 ds = n /\ match ds with [] => False | c :: ds => ds = [] \/ c <> 48 end.

(** The characters of a string: themselves, behind a backslash, or as the two bytes of a
    number of four hexadecimal digits. *)
Inductive spells_str : list Z -> list Z -> Prop :=
| str_nil : spells_str [] []
| str_plain c s t : c <> 34 -> c <> 92 -> spells_str s t -> spells_str (c :: s) (c :: t)
| str_escape e s t : is_escape e = true -> spells_str s t -> spells_str (unescape e ++ s) (92 :: e :: t)
| str_unicode h3 h2 h1 h0 d3 d2 d1 d0 s t :
    hexvalue h3 = Some d3 -> hexvalue h2 = Some d2 -> hexvalue h1 = Some d1 -> hexvalue h0 = Some d0 ->
    spells_str s t ->
    spells_str (le_enc 2 (to_u 16 (d0 + Z.shiftl d1 4 + Z.shiftl d2 8 + Z.shiftl d3 12)) ++ s)
      (92 :: 117 :: h3 :: h2 :: h1 :: h0 :: t).

Definition punct_char (t : token_type) : Z :=
  match t with
  | t_lbrace => 123 | t_rbrace => 125 | t_comma => 44 | t_colon => 58 | t_lsqrbra => 91 | _ => 93
  end.

Inductive lexeme : atok -> list Z -> Prop :=
| lex_null : lexeme ANull word_null
| lex_true : lexeme (ABool true) word_true
| lex_false : lexeme (ABool false) word_false
| lex_punct t : is_punct t -> lexeme (APunct t) [punct_char t]
| lex_str s t : spells_str s t -> lexeme (AStr s) (34 :: t ++ [34])
| lex_nat ds n : numeral ds n -> n < 2 ^ 53 -> lexeme (ANum (f64_of_z 0 n)) ds
| lex_neg ds n : numeral ds n -> 0 < n < 2 ^ 53 -> lexeme (ANum (f64_of_z 0 (- n))) (45 :: ds).

Definition needs_stop (a : atok) : bool :=
  match a with ANum _ | ANull | ABool _ => true | _ => false end.

Inductive spells : list atok -> list Z -> Prop :=
| spells_end ws : blank ws -> spells [AEnd] ws
| spells_cons a l ws lx rest :
    blank ws -> lexeme a lx -> (needs_stop a = true -> stops rest) ->
    match a with AStr s => nonzero s | _ => True end ->
    spells l rest -> spells (a :: l) (ws ++ lx ++ rest).

(** ** Characters *)

Lemma isdigit_range c : isdigit c = true <-> 48 <= c <= 57.
Proof. unfold isdigit. lia. Qed.

Lemma stops_no_digit c l : stops (c :: l) ->
  isdigit c = false /\ isalnum c = false /\ c <> 46 /\ c <> 101 /\ c <> 69.
Proof.
  unfold stops, isalnum, isalpha, isdigit, isspace. rewrite !elem_of_cons, elem_of_nil. lia.
Qed.

Section lexer.
Context `{HT : Target} `{HP : Pow} {S : Type}.
Implicit Types s : S.

Lemma at_front (P : list Z) c R s input loc : input = P ++ c :: R -> loc = zlen P -> char_at input loc s = Ok c s.
Proof. intros -> ->. by apply char_at_app. Qed.

Lemma at_end (P : list Z) s input loc : input = P -> loc = zlen P -> char_at input loc s = Ok 0 s.
Proof. intros -> ->. unfold char_at. by rewrite Z.eqb_refl. Qed.

Lemma in_front (P : list Z) c R input loc : input = P ++ c :: R -> loc = zlen P -> loc < zlen input.
Proof. intros -> ->. rewrite length_app. cbn. lia. Qed.

Lemma step_app (P : list Z) c R : P ++ c :: R = (P ++ [c]) ++ R.
Proof. by rewrite <- app_assoc. Qed.

Lemma step_len (P : list Z) (c : Z) : zlen (P ++ [c]) = zlen P + 1.
Proof. rewrite length_app. cbn. lia. Qed.

#[local] Ltac lens_ := rewrite ?length_app in *; cbn [length] in *; rewrite ?length_app in *; cbn [length] in *; lia.

(** ** Numbers *)

Lemma value_of_mono ds : digits ds -> forall r, 0 <= r -> r <= value_of r ds.
Proof.
  induction 1 as [|c ds Hc _ IH]; intros r Hr; cbn; [lia|]. apply isdigit_range in Hc.
  specialize (IH (10 * r + (c - 48)) ltac:(lia)). unfold value_of in *. lia.
Qed.

Lemma match_digits_app input ds R : digits ds -> match R with [] => True | c :: _ => isdigit c = false end ->
  forall fuel P r s, input = P ++ ds ++ R -> 0 <= r -> value_of r ds < 2 ^ 64 -> (length ds < fuel)%nat ->
  match_digits input fuel (zlen P) r s = Ok (value_of r ds, zlen P + zlen ds) s.
Proof.
  intros Hds HR. induction Hds as [|c ds Hc Hds IH]; intros fuel P r s Hin Hr Hv Hf;
    (destruct fuel as [|fuel]; [cbn in Hf; lia|]); cbn [match_digits].
  - cbn [app length] in *. rewrite Z.add_0_r. destruct R as [|c R].
    + rewrite app_nil_r in Hin. subst. by rewrite Z.ltb_irrefl.
    + rewrite (proj2 (Z.ltb_lt _ _)) by (by eapply in_front). erewrite bind_Ok by (by eapply at_front). by rewrite HR.
  - cbn [app] in Hin. rewrite (proj2 (Z.ltb_lt _ _)) by (by eapply in_front).
    erewrite bind_Ok by (by eapply at_front). rewrite Hc. rewrite step_app in Hin. pose proof Hc as Hc'. apply isdigit_range in Hc'.
    cbn [value_of fold_left] in Hv. fold (value_of (10 * r + (c - 48)) ds) in Hv.
    pose proof (value_of_mono ds Hds (10 * r + (c - 48)) ltac:(lia)). rewrite to_u_id by lia.
    rewrite <- step_len with (c := c). rewrite (IH fuel (P ++ [c])) by (done || lia || (cbn in Hf; lia)).
    rewrite step_len. do 2 f_equal. cbn [length]. lia.
Qed.

Lemma numeral_head ds n : numeral ds n -> exists c ds', ds = c :: ds' /\ isdigit c = true /\ 0 <= n.
Proof.
  intros (Hd & <- & Hh). pose proof (value_of_mono ds Hd 0 ltac:(lia)). destruct ds as [|c ds]; [done|].
  exists c, ds. split; [done|]. by inversion Hd.
Qed.

Lemma match_json_integer_app P ds R n input s : numeral ds n -> n < 2 ^ 53 -> input = P ++ ds ++ R ->
  match R with [] => True | c :: _ => isdigit c = false end ->
  match_json_integer input (zlen P) s = Ok (Some n, zlen P + zlen ds) s.
Proof.
  intros Hn Hlt Hin HR. destruct Hn as (Hd & Hv & Hh). unfold match_json_integer.
  erewrite bind_Ok by (apply (match_digits_app input ds R Hd HR);
    [exact Hin|lia|lia|rewrite Hin, !length_app; lia]).
  rewrite Hv. cbn [fst snd]. destruct ds as [|c ds]; [done|].
  rewrite (proj2 (Z.eqb_neq _ _)) by (cbn [length]; lia). cbn [andb].
  destruct (Z.ltb_spec (zlen P + 1) (zlen P + zlen (c :: ds))); [|done].
  erewrite bind_Ok by (by eapply at_front). rewrite (proj2 (Z.eqb_neq _ _)); [done|].
  destruct Hh as [->|]; [cbn in *; lia|lia].
Qed.

(** What is not the next character of a number. *)
Lemma after_number P R input s : stops R -> input = P ++ R ->
  exists c, char_at input (zlen P) s = Ok c s /\ c <> 46 /\ c <> 101 /\ c <> 69.
Proof.
  intros HR Hin. destruct R as [|c R].
  - rewrite app_nil_r in Hin. exists 0. split; [by eapply at_end|lia].
  - exists c. split; [by eapply at_front|]. apply stops_no_digit in HR. naive_solver.
Qed.

Lemma f64_of_z_nan nan n : 0 <= n < 2 ^ 53 -> f64_of_z nan n = f64_of_z 0 n.
Proof.
  intros Hn. destruct n as [|p|p]; [done| |lia].
  destruct (normalize_small false p ltac:(lia)) as (q & k & _ & _ & _ & E).
  unfold f64_of_z. rewrite E. done.
Qed.

Lemma f64_add_zero' nan n : 0 <= n < 2 ^ 53 -> f64_add nan (f64_of_z nan n) f64_zero = f64_of_z 0 n.
Proof.
  intros Hn. rewrite <- (f64_of_z_nan nan) by done. destruct n as [|p|p]; [reflexivity|apply f64_add_zero; lia|lia].
Qed.

Lemma f64_of_z_neg_nan nan n : 0 < n < 2 ^ 53 -> f64_of_z nan (- n) = f64_of_z 0 (- n).
Proof.
  intros Hn. destruct n as [|p|p]; [lia| |lia].
  destruct (normalize_small true p ltac:(lia)) as (q & k & _ & _ & _ & E).
  unfold f64_of_z. change (- Z.pos p) with (Z.neg p) in *. cbn [SpecFloat.binary_normalize] in *. by rewrite E.
Qed.

Lemma number_token_int (neg : bool) n : 0 <= n < 2 ^ 53 -> (neg = true -> 0 < n) ->
  exists t, (forall s, number_token neg n f64_zero 0 false true s = Ok t s) /\ tok_type t = t_number /\
    value_f t = f64_of_z 0 (if neg then - n else n).
Proof.
  intros Hn Hneg. unfold number_token. rewrite to_s_id by lia. cbv zeta.
  assert (E : forall s : S, (if neg then checked I64 (n * -1) else ret n) s = Ok (if neg then - n else n) s).
  { intros s. destruct neg; [|done]. unfold checked. change (is_signed I64) with true. cbv iota.
    replace (in_range I64 (n * -1)) with true; [unfold ret; f_equal; lia|].
    symmetry. apply fits_s_spec. change (bits I64) with 64. lia. }
  rewrite f64_add_zero' by done. eexists. split; [intros s; by rewrite (bind_Ok _ _ _ _ _ (E s))|]. split; [done|]. cbn [value_f Z.eqb].
  destruct neg; [|done]. specialize (Hneg eq_refl). rewrite <- (f64_of_z_nan nan_bits) by done.
  destruct n as [|p|p]; [lia| |lia]. rewrite f64_mul_minus_one by lia. apply f64_of_z_neg_nan; lia.
Qed.

(** The number behind the sign. *)
Lemma get_number_app P (neg : bool) ds n R input : numeral ds n -> n < 2 ^ 53 -> (neg = true -> 0 < n) -> stops R ->
  input = P ++ ((if neg then [45] else []) ++ ds) ++ R ->
  exists t, (forall s, get_number input (zlen P) s = Ok (Some t, zlen P + zlen ((if neg then [45] else []) ++ ds)) s) /\
    tok_type t = t_number /\ value_f t = f64_of_z 0 (if neg then - n else n).
Proof.
  intros Hn Hlt Hneg HR Hin. destruct (numeral_head _ _ Hn) as (c & ds' & -> & Hc & H0).
  destruct (number_token_int neg n ltac:(lia) Hneg) as (t & Et & Ht).
  exists t. split; [|done]. intros s. unfold get_number.
  set (sgn := if neg then [45] else []) in *.
  assert (E1 : exists c0, char_at input (zlen P) s = Ok c0 s /\ (c0 =? 45) = neg).
  { subst sgn. destruct neg; cbn [app] in Hin; [exists 45|exists c]; (split; [by eapply at_front|]); [done|].
    apply isdigit_range in Hc. lia. }
  destruct E1 as (c0 & E1 & Hc0). rewrite (bind_Ok _ _ _ _ _ E1), Hc0. cbv zeta.
  assert (Hloc : (if neg then zlen P + 1 else zlen P) = zlen (P ++ sgn)) by (unfold sgn; destruct neg; rewrite length_app; cbn; lia).
  rewrite Hloc. rewrite <- (app_assoc sgn), (app_assoc P) in Hin. 
  pose proof (in_front _ _ _ _ _ Hin eq_refl) as Hlen. rewrite Z.geb_leb, (proj2 (Z.leb_gt _ _)) by exact Hlen.
  rewrite andb_false_r. erewrite bind_Ok by (by eapply at_front). rewrite Hc, andb_false_r.
  assert (HR' : match R with [] => True | c :: _ => isdigit c = false end) by (destruct R as [|c1 R]; [done|apply stops_no_digit in HR as [HR _]; exact HR]).
  unfold or_fail. erewrite bind_Ok by (by apply (match_json_integer_app (P ++ sgn) (c :: ds') R n)). cbn [fst snd].
  assert (Hend : zlen (P ++ sgn) + zlen (c :: ds') = zlen ((P ++ sgn) ++ c :: ds')) by (rewrite !length_app; lia).
  rewrite Hend. rewrite (app_assoc (P ++ sgn)) in Hin.
  destruct (after_number _ _ _ s HR Hin) as (c1 & E2 & H46 & H101 & H69). rewrite (bind_Ok _ _ _ _ _ E2).
  rewrite (proj2 (Z.eqb_neq _ _) H46). cbv zeta. cbn [fst snd]. erewrite (bind_Ok (ret _)) by reflexivity. cbn [fst snd].
  assert (E3 : match_exponent input (zlen ((P ++ sgn) ++ c :: ds')) s = Ok (Some (0, false), zlen ((P ++ sgn) ++ c :: ds')) s).
  { unfold match_exponent. rewrite (bind_Ok _ _ _ _ _ E2). by rewrite (proj2 (Z.eqb_neq _ _) H101), (proj2 (Z.eqb_neq _ _) H69). }
  rewrite (bind_Ok _ _ _ _ _ E3). cbn [fst snd negb orb andb Z.eqb]. rewrite (bind_Ok _ _ _ _ _ (Et s)).
  unfold ret. do 2 f_equal. rewrite !length_app. lia.
Qed.

(** ** Strings *)

Lemma hexvalue_plain c d : hexvalue c = Some d -> c <> 34 /\ c <> 92.
Proof. intros E. split; intros ->; discriminate E. Qed.

Lemma is_escape_in c : is_escape c = true -> c ∈ [34; 92; 47; 98; 102; 110; 114; 116].
Proof. intros H. by apply bool_decide_eq_true in H. Qed.

Lemma hexdigits_app P u h3 h2 h1 h0 R input s : input = P ++ u :: h3 :: h2 :: h1 :: h0 :: R ->
  is_Some (hexvalue h3) -> is_Some (hexvalue h2) -> is_Some (hexvalue h1) -> is_Some (hexvalue h0) ->
  hexdigits_at input (zlen P) s = Ok true s.
Proof.
  intros Hin H3 H2 H1 H0. unfold hexdigits_at.
  erewrite bind_Ok by (apply (at_front (P ++ [u]) h3 (h2 :: h1 :: h0 :: R)); [by rewrite <- app_assoc|lens_]).
  erewrite bind_Ok by (apply (at_front (P ++ [u; h3]) h2 (h1 :: h0 :: R)); [by rewrite <- app_assoc|lens_]).
  erewrite bind_Ok by (apply (at_front (P ++ [u; h3; h2]) h1 (h0 :: R)); [by rewrite <- app_assoc|lens_]).
  erewrite bind_Ok by (apply (at_front (P ++ [u; h3; h2; h1]) h0 R); [by rewrite <- app_assoc|lens_]).
  rewrite !bool_decide_eq_true_2 by done. done.
Qed.

(** One character that is not special. *)
Lemma scan_plain P c R input fuel s : input = P ++ c :: R -> c <> 34 -> c <> 92 ->
  scan_string input (Datatypes.S fuel) (zlen P) s = scan_string input fuel (zlen (P ++ [c])) s.
Proof.
  intros Hin H1 H2. cbn [scan_string]. rewrite (proj2 (Z.ltb_lt _ _)) by (by eapply in_front).
  erewrite bind_Ok by (by eapply at_front). rewrite (proj2 (Z.eqb_neq _ _) H1), (proj2 (Z.eqb_neq _ _) H2).
  by rewrite step_len.
Qed.

Lemma scan_string_app str t : spells_str str t -> forall fuel P R input s,
  input = P ++ t ++ 34 :: R -> (length t < fuel)%nat ->
  scan_string input fuel (zlen P) s = Ok (Some (zlen P + zlen t), zlen P + zlen t) s.
Proof.
  induction 1 as [|c str t H1 H2 _ IH|e str t He _ IH|h3 h2 h1 h0 d3 d2 d1 d0 str t E3 E2 E1 E0 _ IH];
    intros fuel P R input s Hin Hf; (destruct fuel as [|fuel]; [cbn in Hf; lia|]).
  - cbn [scan_string app length] in *. rewrite (proj2 (Z.ltb_lt _ _)) by (by eapply in_front).
    erewrite bind_Ok by (by eapply at_front). by rewrite Z.add_0_r.
  - cbn [app] in Hin. rewrite (scan_plain P c (t ++ 34 :: R)) by done. rewrite step_app in Hin.
    rewrite (IH fuel (P ++ [c]) R) by (done || (cbn in Hf; lia)). do 2 f_equal; [f_equal|]; lens_.
  - cbn [scan_string app] in *. rewrite (proj2 (Z.ltb_lt _ _)) by (by eapply in_front).
    erewrite bind_Ok by (by eapply at_front). cbn [Z.eqb Pos.eqb]. rewrite step_app in Hin.
    rewrite <- (step_len P 92). rewrite Z.geb_leb, (proj2 (Z.leb_gt _ _)) by (by eapply in_front).
    erewrite bind_Ok by (by eapply at_front). rewrite He. rewrite step_app in Hin.
    rewrite <- (step_len _ e), (IH fuel _ R) by (done || (cbn in Hf; lia)). do 2 f_equal; [f_equal|]; lens_.
  - cbn [scan_string app] in *. rewrite (proj2 (Z.ltb_lt _ _)) by (by eapply in_front).
    erewrite bind_Ok by (by eapply at_front). cbn [Z.eqb Pos.eqb]. rewrite step_app in Hin.
    rewrite <- (step_len P 92). rewrite Z.geb_leb, (proj2 (Z.leb_gt _ _)) by (by eapply in_front).
    erewrite bind_Ok by (by eapply at_front). change (is_escape 117) with false. cbn [Z.eqb Pos.eqb negb].
    rewrite Z.geb_leb, (proj2 (Z.leb_gt _ _)) by (rewrite Hin; lens_).
    erewrite bind_Ok by (eapply hexdigits_app; [exact Hin|by eexists..]).
    rewrite <- (step_len _ 117). rewrite step_app in Hin.
    apply hexvalue_plain in E3 as [], E2 as [], E1 as [], E0 as [].
    destruct fuel as [|[|[|[|fuel]]]]; [cbn in Hf; lia..|].
    do 4 (erewrite scan_plain by done; rewrite step_app in Hin).
    rewrite (IH fuel _ R) by (done || (cbn in Hf; lia)). do 2 f_equal; [f_equal|]; lens_.
Qed.

Lemma unicode_app P u h3 h2 h1 h0 d3 d2 d1 d0 R input s : input = P ++ u :: h3 :: h2 :: h1 :: h0 :: R ->
  hexvalue h3 = Some d3 -> hexvalue h2 = Some d2 -> hexvalue h1 = Some d1 -> hexvalue h0 = Some d0 ->
  unicode_at input (zlen P) s = Ok (Some (to_u 16 (d0 + Z.shiftl d1 4 + Z.shiftl d2 8 + Z.shiftl d3 12))) s.
Proof.
  intros Hin H3 H2 H1 H0. unfold unicode_at.
  erewrite bind_Ok by (apply (at_front (P ++ [u; h3; h2; h1]) h0 R); [by rewrite <- app_assoc|lens_]).
  erewrite bind_Ok by (apply (at_front (P ++ [u; h3; h2]) h1 (h0 :: R)); [by rewrite <- app_assoc|lens_]).
  erewrite bind_Ok by (apply (at_front (P ++ [u; h3]) h2 (h1 :: h0 :: R)); [by rewrite <- app_assoc|lens_]).
  erewrite bind_Ok by (apply (at_front (P ++ [u]) h3 (h2 :: h1 :: h0 :: R)); [by rewrite <- app_assoc|lens_]).
  by rewrite H0, H1, H2, H3.
Qed.

Lemma extract_app str t : spells_str str t -> forall fuel P R input r end_ s,
  input = P ++ t ++ R -> end_ = zlen P + zlen t -> (length t < fuel)%nat ->
  extract_loop input fuel (zlen P) end_ r s = Ok (Some (r ++ str)) s.
Proof.
  induction 1 as [|c str t H1 H2 _ IH|e str t He _ IH|h3 h2 h1 h0 d3 d2 d1 d0 str t E3 E2 E1 E0 _ IH];
    intros fuel P R input r end_ s Hin He' Hf; (destruct fuel as [|fuel]; [cbn in Hf; lia|]); cbn [extract_loop].
  - rewrite (proj2 (Z.ltb_ge _ _)) by (cbn [length] in *; lia). by rewrite app_nil_r.
  - cbn [app] in Hin. rewrite (proj2 (Z.ltb_lt _ _)) by (cbn [length] in *; lia).
    erewrite bind_Ok by (by eapply at_front). rewrite (proj2 (Z.eqb_neq _ _) H2). cbn [negb]. rewrite step_app in Hin.
    rewrite <- (step_len _ c), (IH fuel _ R); [by rewrite <- app_assoc|done|lens_|cbn in Hf; lia].
  - cbn [app] in Hin. rewrite (proj2 (Z.ltb_lt _ _)) by (cbn [length] in *; lia).
    erewrite bind_Ok by (by eapply at_front). cbn [Z.eqb Pos.eqb negb]. rewrite step_app in Hin.
    rewrite <- (step_len P 92). rewrite Z.geb_leb, (proj2 (Z.leb_gt _ _)) by (rewrite step_len; cbn [length] in *; lia).
    erewrite bind_Ok by (by eapply at_front). rewrite (proj2 (Z.eqb_neq e 117)) by (intros ->; discriminate).
    rewrite step_app in Hin. rewrite <- (step_len _ e), (IH fuel _ R); [by rewrite <- app_assoc|done|lens_|cbn in Hf; lia].
  - cbn [app] in Hin. rewrite (proj2 (Z.ltb_lt _ _)) by (cbn [length] in *; lia).
    erewrite bind_Ok by (by eapply at_front). cbn [Z.eqb Pos.eqb negb]. rewrite step_app in Hin.
    rewrite <- (step_len P 92). rewrite Z.geb_leb, (proj2 (Z.leb_gt _ _)) by (rewrite step_len; cbn [length] in *; lia).
    erewrite bind_Ok by (by eapply at_front). cbn [Z.eqb Pos.eqb].
    rewrite Z.geb_leb, (proj2 (Z.leb_gt _ _)) by (rewrite step_len; cbn [length] in *; lia).
    erewrite bind_Ok by (eapply unicode_app; done). cbv beta iota.
    replace (zlen (P ++ [92]) + 5) with (zlen ((P ++ [92]) ++ [117; h3; h2; h1; h0])) by lens_.
    rewrite (IH fuel _ R); [by rewrite <- app_assoc|by rewrite <- !app_assoc in * |lens_|cbn in Hf; lia].
Qed.

(** The token of a string, and its value. *)
Lemma get_string_app str t P R input s : spells_str str t -> input = P ++ (34 :: t ++ [34]) ++ R ->
  get_string input (zlen P) s = Ok (Some (simple_token t_string (zlen P + 1) (zlen P + 1 + zlen t)), zlen P + zlen (34 :: t ++ [34])) s.
Proof.
  intros Ht Hin0. assert (Hin : input = (P ++ [34]) ++ t ++ 34 :: R) by (rewrite Hin0, <- !app_assoc; cbn [app]; by rewrite <- app_assoc).
  unfold get_string. rewrite <- (step_len P 34). rewrite Z.geb_leb, (proj2 (Z.leb_gt _ _)) by (rewrite Hin; lens_).
  unfold or_fail. erewrite bind_Ok by (eapply (scan_string_app _ _ Ht _ _ R); [exact Hin|rewrite Hin; lens_]).
  cbn [fst snd]. replace (zlen (P ++ [34]) + zlen t) with (zlen ((P ++ [34]) ++ t)) by lens_. rewrite (app_assoc (P ++ [34])) in Hin.
  erewrite bind_Ok by (by eapply at_front). cbn [Z.eqb Pos.eqb]. unfold ret. do 2 f_equal. lens_.
Qed.

Lemma extract_value_app str t P R input s : spells_str str t -> input = P ++ (34 :: t ++ [34]) ++ R ->
  extract_str_value input (simple_token t_string (zlen P + 1) (zlen P + 1 + zlen t)) s = Ok (Some str) s.
Proof.
  intros Ht Hin0. assert (Hin : input = (P ++ [34]) ++ t ++ 34 :: R) by (rewrite Hin0, <- !app_assoc; cbn [app]; by rewrite <- app_assoc).
  unfold extract_str_value. cbn [tok_type tok_from tok_end simple_token].
  rewrite bool_decide_eq_true_2, (proj2 (Z.ltb_ge _ _)), (proj2 (Z.ltb_ge (zlen input) _)) by (done || (rewrite ?Hin; lens_)).
  cbn [negb orb]. rewrite <- (step_len P 34). eapply (extract_app _ _ Ht); [exact Hin|done|rewrite Hin; lens_].
Qed.

(** ** Words *)

Lemma word_at_app P w R input : input = P ++ w ++ R -> word_at input w (zlen P) = true.
Proof.
  intros ->. unfold word_at. rewrite (proj2 (Z.leb_le _ _)) by lens_. rewrite Nat2Z.id, drop_app_length.
  rewrite take_app_length. by rewrite bool_decide_eq_true_2.
Qed.

Lemma word_at_head P c R c' w input : input = P ++ c :: R -> c <> c' -> word_at input (c' :: w) (zlen P) = false.
Proof.
  intros -> Hc. unfold word_at. rewrite Nat2Z.id, drop_app_length. cbn [length take].
  rewrite bool_decide_eq_false_2 by congruence. apply andb_false_r.
Qed.

Lemma get_word_app P w t b R input s : stops R -> input = P ++ w ++ R ->
  get_word input w t b (zlen P) s
  = Ok (Some (mkToken t (zlen P + zlen w - 4) (zlen P + zlen w) 0 0 b false), zlen P + zlen w) s.
Proof.
  intros HR Hin. unfold get_word. destruct R as [|c R].
  - by rewrite Z.geb_leb, (proj2 (Z.leb_le _ _)) by (rewrite Hin; lens_).
  - rewrite Z.geb_leb, (proj2 (Z.leb_gt _ _)) by (rewrite Hin; lens_). rewrite app_assoc in Hin.
    erewrite bind_Ok by (eapply at_front; [exact Hin|lens_]). apply stops_no_digit in HR as (_ & -> & _).
    by rewrite orb_true_r.
Qed.

(** ** Tokens *)

Lemma skip_blanks ws : blank ws -> forall P R input fuel s, input = P ++ ws ++ R ->
  get_token_loop input (length ws + fuel) (zlen P) s = get_token_loop input fuel (zlen (P ++ ws)) s.
Proof.
  induction 1 as [|c ws Hc _ IH]; intros P R input fuel s Hin; [by rewrite app_nil_r|].
  cbn [length Nat.add get_token_loop app] in *. rewrite (proj2 (Z.ltb_lt _ _)) by (by eapply in_front).
  erewrite bind_Ok by (by eapply at_front). rewrite Hc, <- (step_len P c). rewrite step_app in Hin.
  rewrite (IH _ R) by done. by rewrite <- app_assoc.
Qed.

(** The first character of a lexeme. *)
Definition starts (a : atok) (c : Z) : Prop :=
  match a with
  | ANull => c = 110 | ABool true => c = 116 | ABool false => c = 102 | AStr _ => c = 34
  | APunct t => c = punct_char t | ANum _ => isdigit c = true \/ c = 45 | AEnd => False
  end.

Lemma lexeme_starts a lx : lexeme a lx -> exists c R, lx = c :: R /\ starts a c.
Proof.
  destruct 1 as [| | | | |ds n Hn Hlt|ds n Hn Hlt]; try (eexists _, _; split; [reflexivity|]; cbn; by auto).
  destruct (numeral_head _ _ Hn) as (c & ds' & -> & Hc & _). exists c, ds'. cbn. auto.
Qed.

#[local] Ltac front c :=
  match goal with Hstep : forall s c lx', _ = c :: lx' -> _ |- _ => rewrite (Hstep _ c _ eq_refl eq_refl) end;
  cbn [isdigit Z.leb Z.compare Pos.compare Pos.compare_cont andb orb Z.eqb Pos.eqb].

Definition fits_token (input : list Z) (t : json_token) (a : atok) : Prop :=
  tok_type t = type_of a /\
  match a with
  | ANum f => value_f t = f
  | AStr str => forall s, extract_str_value input t s = Ok (Some str) s
  | ABool b => value_b t = b
  | _ => True
  end.

Lemma token_at a lx P R input fuel : lexeme a lx -> (needs_stop a = true -> stops R) -> input = P ++ lx ++ R ->
  exists t, fits_token input t a /\ forall s,
    get_token_loop input (Datatypes.S fuel) (zlen P) s = Ok (Some t, zlen P + zlen lx) s.
Proof.
  intros Hlx HR Hin.
  assert (Hstep : forall s c lx', lx = c :: lx' -> isspace c = false ->
    get_token_loop input (Datatypes.S fuel) (zlen P) s =
      (if isdigit c || (c =? 46) || (c =? 45) then get_number input (zlen P)
      else if c =? 34 then get_string input (zlen P)
      else if word_at input word_true (zlen P) then get_word input word_true t_boolean true (zlen P)
      else if word_at input word_false (zlen P) then get_word input word_false t_boolean false (zlen P)
      else if word_at input word_null (zlen P) then get_word input word_null t_null false (zlen P)
      else
        let punct t := ret (Some (simple_token t (zlen P) (zlen P + 1)), zlen P + 1) in
        if c =? 123 then punct t_lbrace
        else if c =? 125 then punct t_rbrace
        else if c =? 44 then punct t_comma
        else if c =? 58 then punct t_colon
        else if c =? 91 then punct t_lsqrbra
        else if c =? 93 then punct t_rsqrbra
        else if isalpha c then
          let! e := scan_id input (Datatypes.S (length input)) (zlen P + 1) in
          ret (Some (simple_token t_id (zlen P) e), e)
        else ret (None, zlen P)) s).
  { intros s c lx' -> Hc. cbn [get_token_loop app] in *. rewrite (proj2 (Z.ltb_lt _ _)) by (by eapply in_front).
    erewrite bind_Ok by (by eapply at_front). by rewrite Hc. }
  assert (Hno : forall c lx', lx = c :: lx' -> forall w, match w with [] => False | c' :: _ => c <> c' end ->
    word_at input w (zlen P) = false).
  { intros c lx' -> [|c' w] Hc; [done|]. by apply (word_at_head P c (lx' ++ R)). }
  destruct Hlx as [| | |t Ht|str t Ht|ds n Hn Hlt|ds n Hn Hlt].
  - eexists. split; cycle 1.
    { intros s. front 110. rewrite (Hno 110 _ eq_refl word_true), (Hno 110 _ eq_refl word_false) by (cbn; lia).
    rewrite (word_at_app P word_null R) by done. by apply (get_word_app P word_null t_null false R); [apply HR|]. }
    by split.
  - eexists. split; cycle 1.
    { intros s. front 116.
    rewrite (word_at_app P word_true R) by done. by apply (get_word_app P word_true t_boolean true R); [apply HR|]. }
    by split.
  - eexists. split; cycle 1.
    { intros s. front 102. rewrite (Hno 102 _ eq_refl word_true) by (cbn; lia).
    rewrite (word_at_app P word_false R) by done. by apply (get_word_app P word_false t_boolean false R); [apply HR|]. }
    by split.
  - exists (simple_token t (zlen P) (zlen P + 1)). split; [by split|]. intros s. unfold is_punct in Ht. rewrite !elem_of_cons, elem_of_nil in Ht.
    destruct Ht as [->|[->|[->|[->|[->|[->|[]]]]]]]; cbn [punct_char type_of length] in *;
      (erewrite Hstep; [|reflexivity..]); cbn [isdigit Z.leb Z.compare Pos.compare Pos.compare_cont andb orb Z.eqb Pos.eqb];
      rewrite (Hno _ _ eq_refl word_true), (Hno _ _ eq_refl word_false), (Hno _ _ eq_refl word_null) by (cbn; lia); done.
  - eexists. split; cycle 1.
    { intros s. front 34. by apply (get_string_app str t P R). }
    split; [done|]. intros s. by apply (extract_value_app str t P R).
  - destruct (get_number_app P false ds n R input) as (t & Et & Htt & Hv); [done..|apply HR; done|done|].
    exists t. split; [by split|]. intros s. destruct (numeral_head _ _ Hn) as (c & ds' & -> & Hc & _).
    rewrite (Hstep s c ds' eq_refl) by (apply isdigit_range in Hc; unfold isspace; lia). rewrite Hc. apply Et.
  - destruct (get_number_app P true ds n R input) as (t & Et & Htt & Hv); [done|lia|lia|apply HR; done|done|].
    exists t. split; [by split|]. intros s. front 45. apply Et.
Qed.

(** The next token of a text that spells tokens. *)
Lemma get_token_app ws a lx P R input : blank ws -> lexeme a lx -> (needs_stop a = true -> stops R) ->
  input = P ++ ws ++ lx ++ R ->
  exists t, fits_token input t a /\ forall s, get_token input (zlen P) s = Ok (Some t, zlen (P ++ ws ++ lx)) s.
Proof.
  intros Hws Hlx HR Hin. destruct (lexeme_starts _ _ Hlx) as (c & lx' & E & _).
  destruct (token_at a lx (P ++ ws) R input (length input - length ws) Hlx HR) as (t & Ht & Hget); [by rewrite Hin, <- app_assoc|].
  exists t. split; [done|]. intros s. unfold get_token.
  replace (Datatypes.S (length input)) with (length ws + Datatypes.S (length input - length ws))%nat by (rewrite Hin; lens_).
  rewrite (skip_blanks ws Hws P (lx ++ R)) by done. rewrite Hget. do 2 f_equal. lens_.
Qed.

Lemma get_token_end ws P input s : blank ws -> input = P ++ ws ->
  get_token input (zlen P) s = Ok (Some (simple_token t_eoi 0 0), zlen (P ++ ws)) s.
Proof.
  intros Hws Hin. unfold get_token.
  replace (Datatypes.S (length input)) with (length ws + Datatypes.S (length input - length ws))%nat by (rewrite Hin; lens_).
  rewrite (skip_blanks ws Hws P []) by (by rewrite app_nil_r). cbn [get_token_loop].
  by rewrite Hin, Z.ltb_irrefl.
Qed.
End lexer.

Section reader.
Context `{HT : Target} `{HP : Pow} {A : Type} `{HL : ArenaLaws A}.

Lemma spells_lexes l text : spells l text -> forall P input, input = P ++ text -> lexes (A := A) input (zlen P) l.
Proof.
  induction 1 as [ws Hws|a l ws lx rest Hws Hlx Hst Hnz _ IH]; intros P input Hin.
  - eapply lexes_cons; [intros c; by apply (get_token_end ws)|by split|constructor].
  - destruct (get_token_app (S := ser_ctxt_t A) ws a lx P rest input Hws Hlx Hst Hin) as (t & [Ht Hf] & Hget).
    eapply lexes_cons; [exact Hget| |apply IH; by rewrite Hin, <- !app_assoc].
    split; [done|]. destruct a; try done.
Qed.

(** C12: reading JSON: every text that spells a value is turned into the message of the value:
    white space, the words, integers between -2^53 and 2^53, strings, arrays and objects of
    any nesting; the block holds the message and its length is what is used. In a string the
    escapes of one character stand for that character, and a \u escape, unlike in JSON, for
    the two bytes of its number, the lower one first and without encoding the character
    (fast-json.hpp:93); strings with a zero byte are left out, and with them the escapes
    \u00XX and \uXX00. *)
Theorem fast_json_reads (arena_id : Z) (v : json) (text : list Z) (fuel : nat) (a : A) :
  good_json v -> spells (jtoks v ++ [AEnd]) text ->
  (jfuel v <= fuel)%nat -> 12 + zlen (jenc v) <= 2 ^ 48 ->
  exists rest a', read text arena_id fuel a =
    Ok (Some (jnode ROOT (jenc v) ++ rest, (zlen (jnode ROOT (jenc v) ++ rest), 12 + zlen (jenc v)))) a'.
Proof.
  intros Hg Hs Hf Hlen. apply read_tokens; [done..|]. by apply (spells_lexes _ _ Hs []).
Qed.
End reader.

(** ** An example *)

Module FastJsonExample.

Definition blocks : Type := unit.

#[export] Instance block_ops : ArenaOps blocks := {
  allocate n _ := ret (Some (replicate (Z.to_nat n) 7));
  reallocate b old n _ := ret (Some (take (Z.to_nat old) b ++ replicate (Z.to_nat (n - old)) 7))
}.

#[export] Instance block_laws : ArenaLaws blocks.
Proof.
  split.
  - intros n id a Hn. eexists _, _. split; [reflexivity|]. rewrite length_replicate. lia.
  - intros b old new id a -> Hn. eexists _, _. split; [cbn; rewrite Nat2Z.id, firstn_all; reflexivity|].
    rewrite length_app, length_replicate. lia.
Qed.

Definition sample : json :=
  JObj [([97], JArr [JNum (f64_of_z 0 1); JNum (f64_of_z 0 (-20)); JStr [120; 10]]); ([98], JNull)].

(** An object with a list and a null in it; the line break of the string is escaped. *)
Definition sample_text : list Z :=
  [123; 32; 34; 97; 34; 32; 58; 32; 91; 49; 44; 45; 50; 48; 44; 32; 34; 120; 92; 110; 34; 93; 44; 32; 34; 98; 34; 58;
   110; 117; 108; 108; 125].

#[local] Ltac tok ws lx := apply (spells_cons _ _ ws lx _); [repeat constructor| |cbn; set_solver|repeat constructor; lia|].

Lemma sample_spelled : spells (jtoks sample ++ [AEnd]) sample_text.
Proof.
  assert (Hp : forall t, is_punct t -> lexeme (APunct t) [punct_char t]) by (intros; by constructor).
  assert (Hs : forall c, c <> 34 -> c <> 92 -> lexeme (AStr [c]) [34; c; 34]).
  { intros c H1 H2. apply (lex_str [c] [c]). repeat constructor; done. }
  assert (Hx : lexeme (AStr [120; 10]) [34; 120; 92; 110; 34]).
  { apply (lex_str [120; 10] [120; 92; 110]). apply str_plain; [lia..|]. by apply (str_escape 110 [] []), str_nil. }
  assert (H1 : lexeme (ANum (f64_of_z 0 1)) [49]) by (apply lex_nat; [repeat split; [repeat constructor|by left]|lia]).
  assert (H20 : lexeme (ANum (f64_of_z 0 (-20))) [45; 50; 48]).
  { apply (lex_neg [50; 48] 20); [repeat split; [repeat constructor|by right]|lia]. }
  tok (@nil Z) [123]; [apply (Hp t_lbrace); set_solver|].
  tok [32] [34; 97; 34]; [by apply Hs|].
  tok [32] [58]; [apply (Hp t_colon); set_solver|].
  tok [32] [91]; [apply (Hp t_lsqrbra); set_solver|].
  tok (@nil Z) [49]; [done|].
  tok (@nil Z) [44]; [apply (Hp t_comma); set_solver|].
  tok (@nil Z) [45; 50; 48]; [done|].
  tok (@nil Z) [44]; [apply (Hp t_comma); set_solver|].
  tok [32] [34; 120; 92; 110; 34]; [done|].
  tok (@nil Z) [93]; [apply (Hp t_rsqrbra); set_solver|].
  tok (@nil Z) [44]; [apply (Hp t_comma); set_solver|].
  tok [32] [34; 98; 34]; [by apply Hs|].
  tok (@nil Z) [58]; [apply (Hp t_colon); set_solver|].
  tok (@nil Z) word_null; [constructor|].
  tok (@nil Z) [125]; [apply (Hp t_rbrace); set_solver|].
  apply spells_end. constructor.
Qed.

Definition some_pow : Pow := {| libm_pow := fun _ y => y |}.

Lemma fast_json_reads_witness : exists rest a',
  @read test_platform some_pow blocks _ sample_text 0 12 tt =
    Ok (Some (jnode ROOT (jenc sample) ++ rest, (zlen (jnode ROOT (jenc sample) ++ rest), 12 + zlen (jenc sample)))) a'.
Proof.
  apply (@fast_json_reads test_platform some_pow blocks _ _ 0 sample sample_text 12 tt).
  - cbn. repeat split; repeat constructor; lia.
  - apply sample_spelled.
  - cbn. lia.
  - vm_compute. discriminate.
Defined.
End FastJsonExample.
